(* ===== verification/_CoqProject ===== *)
-Q . S2P
Prelude.v
Bytes.v
Rlp.v
Nibbles.v
TrieNode.v
Trie.v
TrieRepr.v
TrieCorrect.v
TrieProof.v
TrieExample.v
Crypto.v
Vote.v
SafetyRules.v
Pacemaker.v
Block.v
HotStuff.v
HotStuff2.v
ConsensusExample.v
Collections.v
Election.v
Finality.v
U256.v
U256Ops.v
EvmMachine.v
EvmHost.v
NativeReads.v
EvmPrecompiles.v
EvmInterp.v
EvmMock.v
EvmLogic.v
EvmOps.v
EvmRun.v
EvmExample.v
Account.v
StateMpt.v
MptRoot.v
Receipt.v
StateDB.v
StateView.v
StateExample.v
Transaction.v
Scheduler.v
Executor.v
BlockExec.v
ZvmMachine.v
ZvmHost.v
ZvmInterp.v
ZvmLogic.v
ZvmRun.v
ZvmExec.v
ExecExample.v
Zrc20.v
Timelock.v
Governor.v
GovernorCorrect.v
BridgeLock.v
Amm.v
Dex.v
DexCorrect.v
DexExample.v
Mempool.v
MempoolCorrect.v
MempoolExample.v
StakingDb.v
Staking.v
Governance.v
StakingTx.v
StakingCorrect.v
Slashing.v
SlashingCorrect.v
StakingChain.v
StakingExample.v
RlpTypes.v
ExecTypes.v
UpgradeTypes.v
ConsTypes.v
PolicyTypes.v
MarketTypes.v
NetTypes.v
WireTypes.v
