(* ===== verification/Prelude.v ===== *)
(** * Zebvix chain: verification library

    This library models the core of the Zebvix blockchain node, a Rust
    workspace under attached_assets/zbx-chain_extracted/zbx-chain (paths
    below start there), and proves what makes it correct.

    ** Parts of the program and the files that model them

    - Shared.  Prelude.v (outcomes, methods on a state, machine integers, the
      tactics), Bytes.v (big-endian integers, UTF-8), Collections.v (byte order
      and sorting, sums over finite maps, histories), Crypto.v (the class of BLS
      and hash operations).
    - Encoding.  crates/zbx-rlp: Rlp.v ([RlpStream] of encode.rs, [Rlp] of
      decode.rs, the helpers of stream.rs and lib.rs).
    - Authenticated storage.  crates/zbx-trie, on top of the codec: Nibbles.v
      (nibbles.rs), TrieNode.v (node.rs, error.rs), Trie.v (trie.rs, db.rs),
      TrieProof.v (proof.rs).  TrieRepr.v is the abstract radix tree, its
      meaning as a map and its relation to hashed nodes in a cache and a
      database; TrieCorrect.v proves the operations, TrieExample.v runs them.
    - Consensus.  crates/zbx-consensus: Vote.v (vote.rs, error.rs),
      SafetyRules.v (safety_rules.rs), Pacemaker.v (liveness.rs), HotStuff.v
      (hotstuff.rs, block_store.rs, the registry of keys), HotStuff2.v
      (hotstuff2.rs), Election.v (proposer.rs, the coordinator of pacemaker.rs,
      epoch_manager.rs), Finality.v (finality.rs, gossip.rs), Block.v
      (crates/zbx-types/src/block.rs); ConsensusExample.v has a toy instance of
      [Crypto] and concrete runs.  A handler of a replica takes the message,
      the clock and the outcome of the file writes, and returns the new replica
      with the list of actions the driver would perform.
    - Virtual machine.  crates/zbx-evm: U256.v and U256Ops.v (the byte-array
      arithmetic of stack.rs), EvmMachine.v (stack.rs, memory.rs, gas.rs),
      EvmHost.v (the [Host] trait of host.rs as a class, and what a caller
      may rely on as [HostLaws]), EvmMock.v ([MockHost] implements both),
      EvmPrecompiles.v (precompiles.rs, zbx-types/src/payid.rs), EvmInterp.v
      (interpreter.rs, opcodes.rs).  The proofs go through EvmLogic.v (a
      program logic: weakest preconditions of the interpreter's methods),
      EvmOps.v (opcode groups, CALL and CREATE) and EvmRun.v (the loop, whole
      executions, the jump-destination bitmap); EvmExample.v evaluates words
      and programs.  NativeReads.v has what the precompiles need of hashes and
      curves and the three precompile bodies that both machines share
      (crates/zbx-crypto: oracle_state.rs, vault_state.rs, kzg.rs).
    - Second virtual machine.  crates/zbx-zvm: ZvmMachine.v (error.rs,
      opcodes.rs, gas.rs, stack.rs, memory.rs, the arithmetic arms of
      interpreter.rs), ZvmHost.v ([ZvmHost] of host.rs as a class,
      [ZvmHostLaws] what a caller may rely on, the production host of
      crates/zbx-state/src/host_zvm.rs over any [ZvmStateAccess], and
      precompiles.rs), ZvmInterp.v (context.rs, interpreter.rs, executor.rs);
      ZvmLogic.v and ZvmRun.v prove it as EvmLogic.v to EvmRun.v prove the EVM.
      ZvmExec.v is the executor's branch for ZVM targets, with the production
      host over [StateView] as an instance of [ZvmHostLaws]; ExecExample.v runs
      programs and a block.
    - World state.  Account.v (zbx-types/src/account.rs), StateMpt.v
      (crates/zbx-state/src/mpt.rs: storage and state roots, in memory and over
      a database, on the trie of Trie.v; and zbx-state's own account.rs with
      its second encoder of leaves), StateDB.v (state_db.rs: the overlay of a
      block with guards, tombstones and snapshots).
    - Blocks' contents.  Transaction.v (zbx-types/src/transaction.rs: fields,
      signing and transaction hashes; the recovery of a signer of
      crates/zbx-crypto/src/secp256k1.rs, over the classes [RlpCrate] and
      [Secp256k1]), Receipt.v (receipt.rs, zbx-execution/src/bloom.rs and the
      binary tree of zbx-crypto/src/merkle.rs), MptRoot.v (zbx-crypto/src/mpt.rs,
      the boxed trie of the header's transactions root).  StateExample.v runs
      these and the state.
    - Transaction pool.  crates/zbx-mempool: Mempool.v (pool.rs,
      nonce_tracker.rs, error.rs), proved in MempoolCorrect.v and run in
      MempoolExample.v, where the codec of Rlp.v implements [RlpCrate].
    - Execution.  crates/zbx-execution: StateView.v (StateView of executor.rs,
      state_diff.rs), Executor.v (BlockExecutor of executor.rs, verifier.rs,
      error.rs), proved in BlockExec.v and run in ExecExample.v; Scheduler.v
      (scheduler.rs).  The executor calls the interpreter of EvmInterp.v, the
      precompiles, the view and the roots above.
    - Native contracts.  crates/zbx-contracts: Zrc20.v (zrc20_token.rs),
      Timelock.v (timelock.rs) and Governor.v (governor_v2.rs), proved in
      GovernorCorrect.v, BridgeLock.v (bridge_lock.rs).  The governor holds a
      timelock and calls its operations.
    - Exchange.  crates/zbx-pool: Amm.v (pair.rs, security.rs, fee.rs,
      error.rs: one constant-product pair and its guards), Dex.v (approval.rs,
      lp_token.rs, registry.rs, token_factory.rs: the ledgers; factory.rs,
      canonical_pairs.rs, router.rs, dex.rs: pairs, routes and the engine,
      whose methods run those of its parts in place); proved in Amm.v and
      DexCorrect.v, run in DexExample.v.
    - Staking.  crates/zbx-staking and zbx-types: StakingDb.v (delta.rs,
      error.rs and the staking columns of zbx-storage's db.rs), Staking.v
      (validator.rs, rewards.rs, lib.rs), Governance.v (both governance.rs),
      StakingTx.v (staking_tx.rs, tx_handler.rs), StakingChain.v (the staking
      half of executor.rs, the interval rewards of node/src/block_producer.rs,
      and the chain as a step relation), Slashing.v (slashing_v2.rs,
      persistence.rs, pipeline.rs), proved in StakingCorrect.v (what the escrow
      owes), StakingChain.v and SlashingCorrect.v; StakingExample.v runs them.
      The dispatcher works on any [BalanceAccess]; the executor gives it the
      view of StateView.v, the solvency theorems ask for [BalanceLaws].
    - Chain types.  crates/zbx-types: RlpTypes.v has the decoders of the [rlp]
      crate over any view of bytes ([RlpView] of StakingTx.v and [RlpMore]) and
      the class [Codec], the contract between a type's encoder, its decoder and
      its invariant; ExecTypes.v (execution.rs), UpgradeTypes.v
      (module_version.rs, activation.rs, feature_flags.rs, storage_version.rs,
      version_registry.rs, pinned_genesis.rs, the codec of governance.rs),
      ConsTypes.v (consensus.rs, proposer.rs, finality.rs, slashing.rs),
      PolicyTypes.v (validation.rs, vm.rs, mempool.rs), MarketTypes.v (defi.rs,
      oracle.rs) and NetTypes.v (network.rs, events.rs) give each type its
      operations and its instance of [Codec]; WireTypes.v collects them and
      implements the views with the codec of Rlp.v.

    ** How the model reads

    - A [&mut self] method is a function from the state (a Record with the
      source's fields) to the state and a result.  [res] is the outcome of a
      call: [Ok], an [Err] value of the source's error enum, or [Panic] (an
      index out of bounds, an [unwrap] of nothing, a division by zero).
    - Machine integers are [Z] in their range.  Arithmetic that the source
      writes checked, saturating or wrapping is written so; plain operators
      follow the release profile and wrap ([u64 (a + b)], [u128 ...]; see
      [wrap]), and [debug_assert!] is absent.  A slice is at most [isize::MAX] long.
    - Byte strings are lists of [Z] with the predicate [Forall byte]; an EVM
      word is such a list of 32.  A [HashMap] is a [gmap], a [HashSet] a
      [gset].  Where the code iterates over a [HashMap] the listing order is
      an argument, or [map_to_list] where no theorem depends on it.
    - A [for] loop is a fold or a [Fixpoint] over what it iterates; a
      [while] loop a [Fixpoint] with fuel.  A [Duration] is a number of
      nanoseconds.  Formatted error texts are left out of error values.
    - Code that is not in the repository is a parameter: Keccak-256 in the
      trie; BLS and hashing in the class [Crypto]; the hashes, curves, pairing
      and big-number power of the precompiles in [Primitives]; the clock, the
      random source and the outcome of file writes as arguments; a state
      database as the class [TrieDB]; the order in which hash maps are listed
      as a [Listing]; the [rlp] crate as the class [RlpCrate] with the laws of
      the format, the curve as [Secp256k1], bincode as [Bincode] and [SlashBincode],
      SHA3-256 as [Sha3]; the signing hash of a transaction
      and its branch for the second virtual machine as arguments of the
      executor ([run_zvm] of ZvmExec.v is the branch).  What a
      theorem needs of them is a named hypothesis: [CollisionFree] (the
      encodings that occur do not collide, on a set [Dom] of byte strings
      that the caller chooses), the length and byte range of digests, and for
      signatures that a verified signature identifies a signing action.

    ** Fuel

    - The trie's recursion takes as fuel the length of the remaining key,
      which every step shortens; its theorems have no fuel hypothesis.
    - EXP's square-and-multiply loop gets 256 rounds, one for each bit;
      [u256_ring] shows that they suffice.  The division loops are folds over
      the bits.
    - The interpreter's [run] has fuel for its loop and for the sub-frames
      together, and running out of it is the outcome [OutOfFuel], which is no
      outcome of the program.  [fuel_needed] bounds it by the gas, the code
      size and the depth limit; [evm_terminates] shows the bound enough, the
      result independent of any larger fuel.
    - The ZVM's [run] has fuel for its loop and its sub-frames together, too.
      Every opcode that does not end its frame costs gas, and what a frame
      forwards it does not keep, so the gas limit plus one is enough whatever
      the depth ([zvm_terminates]).
    - The executor passes its [fuel] to the interpreter and stops with [NoFuel]
      when that runs out.  [TX_FUEL] is [fuel_needed] at the largest gas and
      code there can be, and with that much, which [tx_admission] assumes, no
      transaction stops so; the other block theorems hold for every fuel.
    - Newton's square root gets 131 rounds, each of which halves the distance
      to the root; [integer_sqrt_spec] shows that they suffice.
    - Promotion in the transaction pool has the source's own bound of 256.
    - The Merkle tree's construction gets the number of leaves, of which each
      round keeps at most half, rounded up.

    ** What the theorems show

    - Trie: insert, delete and get are the operations of the map the trie
      denotes ([trie_insert], [trie_delete], [trie_get]); equal roots mean
      equal maps and conversely ([trie_root_commits]); a commit can be reopened
      ([trie_commit_reopen]); a proof is accepted only for the value held,
      and the prover's proofs are accepted ([verify_proof_sound],
      [prove_complete]); node and path codecs ([node_roundtrip],
      [nibbles_refine]).
    - RLP: what the builder emits the reader reads back ([rlp_roundtrip],
      [build_refines]); the reader is total on arbitrary bytes
      ([rlp_decoder_total]).
    - HotStuff: two nodes that commit different blocks in one round expose
      more than a third of the validators ([conflicting_commits_accountable]);
      what one node commits is ordered and certified
      ([commits_ordered_certified]); a validator signs once per round and
      phase across crashes ([safety_no_double_vote], [vote_correct]).
    - HotStuff-2: [hs2_no_double_vote], [hs2_proposals_certified],
      [tc_assembled_verifies], and two attacks its unverified certificates
      allow ([hs2_forged_commit], [tc_verify_replicated]).
    - Headers: an accepted header satisfies every rule and determines its
      parent ([validated_header]).
    - EVM: word arithmetic against [Z] ([u256_ring], [u256_division], ...);
      memory and its price ([memory_store_load], [memory_gas_exact]); one
      instruction and whole executions keep types, gas, snapshots and static
      frames ([step_preserves], [evm_execution]); failed calls are undone
      ([call_undone]); every execution ends ([evm_terminates]); jumps land on
      instructions only ([jumpdest_exact]); the data copies and their panic
      ([copy_op_exact]); MODEXP ([modexp_correct]).
    - ZVM: an execution keeps types, gas, the host's laws and static frames
      ([zvm_execution]) and ends ([zvm_terminates]); its arithmetic and its
      precompiles are those of the EVM where the EVM is right and inputs are
      well formed ([vm_arithmetic_agrees], [vm_precompiles_agree]).  Blocks
      that run it create no money ([zvm_block_supply]).  The feeds and vaults
      that the writers store the precompiles return ([oracle_roundtrip],
      [vault_roundtrip]).
    - World state: the root commits to the visible accounts and their non-zero
      slots and is independent of listing order ([state_root_commits]); roots
      over a database overlay what is stored ([storage_root_overlays]); a
      reverted frame leaves no trace ([frame_reverted]); what [set_account]
      refuses ([set_account_guards]).
    - Roots and filters: the boxed trie and zbx-trie agree on every list of
      bindings ([trie_roots_agree]); transactions roots commit to the list
      ([tx_root_commits]); inclusion proofs are sound ([merkle_sound]); Bloom
      bits are exact ([bloom_exact]).
    - Execution: the view is a map of accounts ([view_refines]); a transaction
      is admitted or refused for a stated reason ([tx_admission]) and settles
      as it should ([tx_settles]); a block creates the reward and destroys the
      base fee and nothing else ([block_conserves]).
    - Scheduler: the lanes partition the transactions ([schedule_partition]),
      and separate exactly those that conflict ([schedule_splits_conflicts]).
    - Election and epochs: committees are drawn without replacement
      ([committee_sample]); the epoch in force is that of the block's height,
      with the history behind it ([epochs_follow_blocks]); rounds advance on
      certificates that their shares back ([coord_run_ok]).  Finality: a
      justified checkpoint carries the votes of a quorum of distinct
      validators ([finality_justified]); gossip forwards a message once and to
      the peers asked for ([gossip_once], [gossip_forwards]).
    - Token: balances sum to the supply in every reachable state
      ([zrc20_ledger]); the owner's controls bind everyone
      ([zrc20_controls]); what a transfer does ([zrc20_transfer]).
    - Governance contract: what the governor dispatches was proposed, passed by
      a vote on the snapshot, queued and delayed ([governor_dispatches]).
      Bridge: what is held covers what is locked, and a release has its votes
      ([bridge_conserves]).
    - Signatures: the signing hash commits to what a type signs and to nothing
      else ([signing_hash_commits]); the hash of an authentic transaction
      identifies payload, signature and signer ([tx_hash_identifies]).
    - Transaction pool: what is pooled is authentic ([pool_authentic]); what
      admission requires and what a refusal leaves ([pool_admission]); queued
      transactions follow a confirmed one ([pool_promotes]); blocks are filled
      greedily by tip ([pool_selection]).
    - Exchange: a swap pays the exact constant-product amount and its checks
      of the invariant never fire ([amm_swap_exact]); no sequence of swaps
      takes value out ([amm_no_arbitrage]); deposits and withdrawals are fair
      to the other providers ([amm_liquidity_fair]).  The engine conserves
      every token ([dex_conserves]), its shares are those the pairs issued
      ([dex_shares_backed]), a purchase pays what was quoted
      ([dex_buy_quoted]); a refused one can leave the pairs of a two-hop route
      out of balance, and nothing else ([dex_refused_buy]).
    - Staking: the escrow covers what it owes in every state of the chain
      ([escrow_solvent]); elections are canonical ([election_exact]); the
      write-set implements the columns ([delta_refines]); the calls' codec
      ([staking_codec]).  Slashing: nothing is burnt twice, across restarts
      and torn finalisations ([slash_once]).  Governance: what a vote decides
      ([governance_decides]).
    - Chain types: every codec reads back what satisfies the type's invariant
      and decodes to nothing that breaks it ([types_roundtrip]); an upgrade of the version
      registry is applied whole or not at all ([registry_upgrade_atomic]); two
      finalized checkpoints share a third of the power ([finalized_overlap]);
      every validator proposes in proportion ([select_proposer_fair]); an
      average lies between the prices held ([twap_between]).

    Where the code does not do what it means to, a theorem describes what it
    does: [u256_addmod_wrong], [u256_signextend_iff], [lock_lost_on_crash],
    [epoch_advance_slashable], [vote_accumulator_captured], [copy_op_exact],
    [schedule_splits_conflicts], [dex_refused_buy], [governance_decides], and
    [vm_arithmetic_differs], and the last lemmas of StateExample.v,
    ExecExample.v, DexExample.v, MempoolExample.v, StakingExample.v,
    Election.v, Finality.v, GovernorCorrect.v and BridgeLock.v, and the lemmas
    before the hypotheses of ExecExample.v.

    ** Not modelled

    Curve, pairing and hash implementations (third-party crates, parameters
    here); RocksDB, networking, RPC, the node binary and the command line
    (input and output around the modelled core); the logging and metrics
    calls of modelled code.  Of the executor: the Block-STM prototype of
    parallel.rs.  Of the exchange: the hash that derives addresses is an
    argument.  Of staking: the errors of the database, the hook that applies
    an upgrade, the older delegation.rs, slashing.rs and staking_escrow.rs, and
    the seeding of genesis validators, whose unbacked stakes [escrow_solvent]
    excludes by starting from books that balance.  Of the ZVM: the tracer, the
    mock host and the loader of the trusted setup.  Of the chain types: their
    serde decoders, which call the constructors that are modelled.  The other
    native contracts (the stablecoin, the PayID registry, the legacy
    governance, the staking escrow, the genesis mint), fees and rewards,
    lending, the oracle crates and the cross-chain bridge have logic of their
    own and are left for later. *)

From stdpp Require Import base tactics list gmap numbers option.
From Stdlib Require Import ZArith Lia.

Local Open Scope Z_scope.

(** ** Outcomes of a call

    A Rust call returns a value, returns an error value, or panics (an index
    out of bounds, a failed assertion, a division by zero). *)

Inductive res (E A : Type) : Type :=
| Ok (a : A)
| Err (e : E)
| Panic.
Arguments Ok {E A} a.
Arguments Err {E A} e.
Arguments Panic {E A}.

#[export] Instance res_ret {E} : MRet (res E) := fun A a => Ok a.
#[export] Instance res_bind {E} : MBind (res E) := fun A B f m =>
  match m with Ok a => f a | Err e => Err e | Panic => Panic end.
#[export] Instance res_fmap {E} : FMap (res E) := fun A B f m =>
  match m with Ok a => Ok (f a) | Err e => Err e | Panic => Panic end.

(** [ok_or o e] is [Option::ok_or]; [unwrap o] panics on [None]. *)
Definition ok_or {E A} (o : option A) (e : E) : res E A :=
  match o with Some a => Ok a | None => Err e end.
Definition unwrap {E A} (o : option A) : res E A :=
  match o with Some a => Ok a | None => Panic end.
(** [map_err f r] is [Result::map_err]; [guard b e] is [if b { return Err(e) }]. *)
Definition map_err {E F A} (f : E -> F) (r : res E A) : res F A :=
  match r with Ok a => Ok a | Err e => Err (f e) | Panic => Panic end.
Definition guard_err {E} (b : bool) (e : E) : res E unit :=
  if b then Err e else Ok tt.

Definition no_panic {E A} (r : res E A) : Prop := r <> Panic.
Definition is_ok {E A} (r : res E A) : bool :=
  match r with Ok _ => true | _ => false end.

(** ** Methods taking [&mut self]

    [M S E A]: a method on state [S] that may fail.  An early return with an
    error keeps the mutations already made, as in Rust. *)

Definition M (S E A : Type) : Type := S -> res E A * S.

#[export] Instance M_ret {S E} : MRet (M S E) := fun A a s => (Ok a, s).
#[export] Instance M_bind {S E} : MBind (M S E) := fun A B f m s =>
  match m s with
  | (Ok a, s') => f a s'
  | (Err e, s') => (Err e, s')
  | (Panic, s') => (Panic, s')
  end.

Definition get_st {S E} : M S E S := fun s => (Ok s, s).
Definition gets {S E A} (f : S -> A) : M S E A := fun s => (Ok (f s), s).
Definition put_st {S E} (s : S) : M S E unit := fun _ => (Ok tt, s).
Definition modify {S E} (f : S -> S) : M S E unit := fun s => (Ok tt, f s).
Definition lift {S E A} (r : res E A) : M S E A := fun s => (r, s).
Definition throw {S E A} (e : E) : M S E A := fun s => (Err e, s).
(** [throw_if b e] is the early return [if b { return Err(e); }]. *)
Definition throw_if {S E} (b : bool) (e : E) : M S E unit :=
  fun s => (if b then Err e else Ok tt, s).
(** [lift_opt o e] is [o.ok_or(e)?]. *)
Definition lift_opt {S E A} (o : option A) (e : E) : M S E A :=
  fun s => (ok_or o e, s).

(** ** Machine integers

    A [w]-bit unsigned integer is a [Z] in [0, 2^w).  [wrap] is the
    wrap-around of the unchecked operators in the release profile and of the
    [as] casts; [checked] and [sat] are the [checked_*] and [saturating_*]
    families applied to the exact result. *)

Definition wrap (w x : Z) : Z := x mod 2 ^ w.
Definition in_range (w x : Z) : Prop := 0 <= x < 2 ^ w.
Definition checked (w x : Z) : option Z :=
  if (0 <=? x) && (x <? 2 ^ w) then Some x else None.
Definition sat (w x : Z) : Z := Z.max 0 (Z.min x (2 ^ w - 1)).
Definition umax (w : Z) : Z := 2 ^ w - 1.

Abbreviation u8 := (wrap 8).
Abbreviation u16 := (wrap 16).
Abbreviation u32 := (wrap 32).
Abbreviation u64 := (wrap 64).
Abbreviation u128 := (wrap 128).
Abbreviation usize := (wrap 64).

Lemma wrap_small w x : in_range w x -> wrap w x = x.
Proof. intros H. by apply Z.mod_small. Qed.

Lemma wrap_range w x : 0 <= w -> in_range w (wrap w x).
Proof. intros H. apply Z.mod_pos_bound. by apply Z.pow_pos_nonneg. Qed.

Lemma checked_Some w x y : checked w x = Some y <-> y = x /\ in_range w x.
Proof.
  unfold checked, in_range.
  destruct (Z.leb_spec 0 x); destruct (Z.ltb_spec x (2 ^ w)); simpl;
    split; intros H'; simplify_eq; try (split; [done|lia]);
    destruct H' as [-> ?]; try done; lia.
Qed.

Lemma checked_None w x : checked w x = None <-> ~ in_range w x.
Proof.
  unfold checked, in_range. destruct (Z.leb_spec 0 x), (Z.ltb_spec x (2 ^ w)); simpl;
    (split; [intros; try discriminate; lia|intros; try done; exfalso; lia]).
Qed.

Lemma checked_in w x : in_range w x -> checked w x = Some x.
Proof. intros H. by apply checked_Some. Qed.

Lemma sat_range w x : 0 <= w -> in_range w (sat w x).
Proof.
  intros Hw. pose proof (Z.pow_pos_nonneg 2 w ltac:(lia) Hw).
  unfold in_range, sat. lia.
Qed.

Lemma sat_small w x : in_range w x -> sat w x = x.
Proof. unfold in_range, sat. lia. Qed.

Lemma ok_or_Ok {E A} (o : option A) (e : E) a : ok_or o e = Ok a <-> o = Some a.
Proof. destruct o; simpl; split; congruence. Qed.

(** ** Proof automation *)

(** [case_in H] destructs the innermost scrutinee of a match in [H];
    [break_in H] repeats it, closing the branches that contradict [H]. *)
Ltac innermost t :=
  match t with
  | context [match ?x with _ => _ end] => innermost x
  | _ => t
  end.
Ltac case_in H :=
  match type of H with
  | context [match ?x with _ => _ end] =>
    let y := innermost x in destruct y eqn:?; simpl in H
  end.
Ltac break_in H := repeat (case_in H; try discriminate H).
Ltac case_goal :=
  match goal with
  | |- context [match ?x with _ => _ end] =>
    let y := innermost x in destruct y eqn:?; simpl
  end.

(** Unfolds the monad of methods and its primitives. *)
Ltac open_call := unfold throw_if, lift, lift_opt, modify, get_st, throw, mbind, M_bind, mret, M_ret.

(** Boolean comparisons in hypotheses become propositions. *)
Ltac bool_to_prop :=
  repeat match goal with
  | H : andb _ _ = true |- _ => apply andb_true_iff in H; destruct H
  | H : orb _ _ = false |- _ => apply orb_false_iff in H; destruct H
  | H : andb _ _ = false |- _ => apply andb_false_iff in H
  | H : orb _ _ = true |- _ => apply orb_true_iff in H
  | H : negb _ = true |- _ => apply negb_true_iff in H
  | H : negb _ = false |- _ => apply negb_false_iff in H
  | H : (_ <=? _) = true |- _ => apply Z.leb_le in H
  | H : (_ <=? _) = false |- _ => apply Z.leb_gt in H
  | H : (_ <? _) = true |- _ => apply Z.ltb_lt in H
  | H : (_ <? _) = false |- _ => apply Z.ltb_ge in H
  | H : (_ >? _) = true |- _ => rewrite Z.gtb_ltb in H; apply Z.ltb_lt in H
  | H : (_ >? _) = false |- _ => rewrite Z.gtb_ltb in H; apply Z.ltb_ge in H
  | H : (_ >=? _) = true |- _ => rewrite Z.geb_leb in H; apply Z.leb_le in H
  | H : (_ >=? _) = false |- _ => rewrite Z.geb_leb in H; apply Z.leb_gt in H
  | H : (_ =? _) = true |- _ => apply Z.eqb_eq in H
  | H : (_ =? _) = false |- _ => apply Z.eqb_neq in H
  | H : bool_decide _ = true |- _ => apply bool_decide_eq_true in H
  | H : bool_decide _ = false |- _ => apply bool_decide_eq_false in H
  end.

Create HintDb zbx.
#[export] Hint Resolve wrap_range sat_range : zbx.
#[export] Hint Extern 1 (0 <= _) => lia : zbx.

(** ** Reachability: the reflexive transitive closure of a step relation *)

Section star.
Context {A : Type} (R : A -> A -> Prop).

Inductive star : A -> A -> Prop :=
| star_refl a : star a a
| star_snoc a b c : star a b -> R b c -> star a c.

Lemma star_invariant (P : A -> Prop) a b :
  (forall x y, P x -> R x y -> P y) -> P a -> star a b -> P b.
Proof. intros Hstep Ha Hs. induction Hs; eauto. Qed.

Lemma star_preorder (Q : A -> A -> Prop) a b :
  (forall x, Q x x) -> (forall x y z, Q x y -> Q y z -> Q x z) ->
  (forall x y, R x y -> Q x y) -> star a b -> Q a b.
Proof. intros Hr Ht Hstep Hs. induction Hs; eauto. Qed.
End star.

(** ** Slices

    [slice l a b] is [&l[a..b]]: it panics when [a > b] or [b > l.len()]. *)

Definition zlen {A} (l : list A) : Z := Z.of_nat (length l).
Definition slice {A E} (l : list A) (a b : Z) : res E (list A) :=
  if (0 <=? a) && (a <=? b) && (b <=? zlen l)
  then Ok (take (Z.to_nat (b - a)) (drop (Z.to_nat a) l))
  else Panic.
(** [index l i] is [l[i]]. *)
Definition index {A E} (l : list A) (i : Z) : res E A :=
  if 0 <=? i then unwrap (l !! Z.to_nat i) else Panic.

Lemma zlen_nonneg {A} (l : list A) : 0 <= zlen l.
Proof. unfold zlen. lia. Qed.
Lemma zlen_nil {A} : zlen (@nil A) = 0.
Proof. done. Qed.
Lemma zlen_cons {A} (x : A) l : zlen (x :: l) = 1 + zlen l.
Proof. unfold zlen. simpl length. lia. Qed.
Lemma zlen_app {A} (l k : list A) : zlen (l ++ k) = zlen l + zlen k.
Proof. unfold zlen. rewrite length_app. lia. Qed.
Create Rewrite HintDb zlen.
#[export] Hint Rewrite @zlen_nil @zlen_cons @zlen_app : zlen.

Lemma slice_Ok {A E} (l : list A) a b :
  0 <= a <= b -> b <= zlen l ->
  @slice A E l a b = Ok (take (Z.to_nat (b - a)) (drop (Z.to_nat a) l)).
Proof.
  intros. unfold slice.
  rewrite (proj2 (Z.leb_le 0 a)), (proj2 (Z.leb_le a b)), (proj2 (Z.leb_le b _)) by lia.
  done.
Qed.

Lemma slice_app {A E} (p m s : list A) a b :
  a = zlen p -> b = zlen p + zlen m -> @slice A E (p ++ m ++ s) a b = Ok m.
Proof.
  intros -> ->. unfold zlen. rewrite slice_Ok.
  - f_equal. rewrite Nat2Z.id, drop_app_length, Z.add_simpl_l, Nat2Z.id.
    by rewrite take_app_length.
  - lia.
  - unfold zlen. rewrite !length_app. lia.
Qed.

Lemma slice_suffix {A E} (p c : list A) a b :
  a = zlen p -> b = zlen p + zlen c -> @slice A E (p ++ c) a b = Ok c.
Proof. intros Ha Hb. rewrite <-(app_nil_r c) at 1. by apply slice_app. Qed.

Lemma slice_prefix {A E} (p c : list A) b :
  b = zlen p -> @slice A E (p ++ c) 0 b = Ok p.
Proof. intros Hb. by apply (slice_app [] p c). Qed.

Lemma slice_end {A E} (l : list A) a : a = zlen l -> @slice A E l a (zlen l) = Ok [].
Proof.
  intros ->. rewrite <-(app_nil_r l) at 1. apply slice_suffix; [done|].
  unfold zlen. simpl. lia.
Qed.

Lemma index_Ok {A E} (l : list A) i :
  0 <= i < zlen l -> exists x, l !! Z.to_nat i = Some x /\ @index A E l i = Ok x.
Proof.
  intros Hi. unfold index. rewrite (proj2 (Z.leb_le 0 i)) by lia.
  destruct (l !! Z.to_nat i) as [x|] eqn:Hx; [by eauto|].
  apply lookup_ge_None in Hx. unfold zlen in Hi. lia.
Qed.
