(* ===== verification/Bytes.v ===== *)
(** * Bytes and big-endian integers

    [u64::to_be_bytes], [u64::from_be_bytes] and the stripping of leading
    zero bytes, shared by the RLP codec, the EVM words and the consensus
    preimages; the check that bytes are UTF-8. *)

From stdpp Require Import base tactics list numbers.
From Stdlib Require Import ZArith Lia.
From S2P Require Import Prelude.

Local Open Scope Z_scope.

Definition byte (b : Z) : Prop := 0 <= b < 256.
Abbreviation bytes := (list Z).

(** Value of a big-endian byte string. *)
Fixpoint be_val (l : bytes) : Z :=
  match l with
  | [] => 0
  | b :: t => b * 256 ^ zlen t + be_val t
  end.

(** The [n] low bytes of [z], most significant first. *)
Fixpoint to_be (n : nat) (z : Z) : bytes :=
  match n with
  | O => []
  | S m => (z / 256 ^ Z.of_nat m) mod 256 :: to_be m z
  end.

(** [bytes.iter().take_while(|&&b| b == 0).count()] dropped from the front. *)
Fixpoint strip_zeros (l : bytes) : bytes :=
  match l with
  | b :: t => if b =? 0 then strip_zeros t else l
  | [] => []
  end.

Lemma pow256_pos n : 0 <= n -> 0 < 256 ^ n.
Proof. intros. by apply Z.pow_pos_nonneg. Qed.

Lemma pow256_succ n : 0 <= n -> 256 ^ (1 + n) = 256 * 256 ^ n.
Proof. intros. rewrite Z.pow_add_r by lia. done. Qed.

Lemma length_to_be n z : length (to_be n z) = n.
Proof. induction n; simpl; congruence. Qed.

Lemma zlen_to_be n z : zlen (to_be n z) = Z.of_nat n.
Proof. unfold zlen. by rewrite length_to_be. Qed.

Lemma to_be_bytes n z : Forall byte (to_be n z).
Proof.
  induction n; simpl; constructor; [|done].
  apply Z.mod_pos_bound. lia.
Qed.

Lemma be_val_bound l : Forall byte l -> 0 <= be_val l < 256 ^ zlen l.
Proof.
  induction 1 as [|b t Hb Ht IH]; simpl; [unfold zlen; simpl; lia|].
  rewrite zlen_cons, pow256_succ by apply zlen_nonneg.
  unfold byte in Hb. nia.
Qed.

Lemma be_val_app l k : be_val (l ++ k) = be_val l * 256 ^ zlen k + be_val k.
Proof.
  induction l as [|b t IH]; simpl; [lia|].
  rewrite IH, zlen_app, Z.pow_add_r by apply zlen_nonneg. ring.
Qed.

Lemma be_val_to_be n z : be_val (to_be n z) = z mod 256 ^ Z.of_nat n.
Proof.
  induction n as [|n IH]; [simpl; change (0 = z mod 1); by rewrite Z.mod_1_r|].
  cbn [to_be be_val]. rewrite IH, zlen_to_be.
  replace (Z.of_nat (S n)) with (1 + Z.of_nat n) by lia.
  rewrite pow256_succ by lia.
  pose proof (pow256_pos (Z.of_nat n) ltac:(lia)).
  rewrite (Z.mul_comm 256), Z.rem_mul_r by lia. ring.
Qed.

Lemma be_val_zeros l : Forall byte l -> be_val l = 0 -> l = replicate (length l) 0.
Proof.
  induction 1 as [|b t Hb Ht IH]; simpl; [done|]. intros Hz.
  pose proof (be_val_bound t Ht). pose proof (pow256_pos (zlen t) (zlen_nonneg t)).
  unfold byte in Hb. assert (b = 0) as -> by nia.
  f_equal. apply IH. lia.
Qed.

Lemma be_val_inj l k :
  Forall byte l -> Forall byte k -> length l = length k ->
  be_val l = be_val k -> l = k.
Proof.
  intros Hl. revert k. induction Hl as [|b t Hb Ht IH]; intros [|c k] Hk Hlen Hv;
    try done.
  apply Forall_cons_iff in Hk as [Hc Hk]. simpl in *. injection Hlen as Hlen.
  assert (zlen k = zlen t) as Hz by (unfold zlen; lia).
  pose proof (be_val_bound t Ht). pose proof (be_val_bound k Hk).
  rewrite Hz in *. unfold byte in *.
  pose proof (pow256_pos (zlen t) (zlen_nonneg t)).
  assert (b = c) as -> by nia. f_equal. apply IH; [done..|lia].
Qed.

Lemma to_be_be_val l : Forall byte l -> to_be (length l) (be_val l) = l.
Proof.
  intros Hl. apply be_val_inj; auto using to_be_bytes.
  - apply length_to_be.
  - rewrite be_val_to_be. apply Z.mod_small. by apply be_val_bound.
Qed.

Lemma strip_zeros_val l : be_val (strip_zeros l) = be_val l.
Proof.
  induction l as [|b t IH]; simpl; [done|].
  destruct (Z.eqb_spec b 0) as [->|]; simpl; lia.
Qed.

Lemma strip_zeros_suffix l : exists n, l = replicate n 0 ++ strip_zeros l.
Proof.
  induction l as [|b t [n IH]]; simpl; [by exists O|].
  destruct (Z.eqb_spec b 0) as [->|].
  - exists (S n). simpl. congruence.
  - by exists O.
Qed.

Lemma strip_zeros_bytes l : Forall byte l -> Forall byte (strip_zeros l).
Proof.
  intros H. destruct (strip_zeros_suffix l) as [n Hn]. rewrite Hn in H.
  by apply Forall_app in H as [_ ?].
Qed.

Lemma strip_zeros_len l : zlen (strip_zeros l) <= zlen l.
Proof.
  destruct (strip_zeros_suffix l) as [n Hn]. rewrite Hn at 2.
  rewrite zlen_app. pose proof (zlen_nonneg (replicate n 0)). lia.
Qed.

Lemma strip_zeros_head l b t : strip_zeros l = b :: t -> b <> 0.
Proof.
  induction l as [|c l IH]; simpl; [done|].
  destruct (Z.eqb_spec c 0); [done|]. intros [= -> ->]. done.
Qed.

Lemma strip_zeros_nil l : strip_zeros l = [] -> be_val l = 0.
Proof. intros H. rewrite <-strip_zeros_val, H. done. Qed.

(** A stripped string is as long as its value needs. *)
Lemma strip_zeros_lower l b t :
  Forall byte l -> strip_zeros l = b :: t -> 256 ^ zlen t <= be_val l.
Proof.
  intros Hl Hs. pose proof (strip_zeros_head _ _ _ Hs) as Hb.
  pose proof (strip_zeros_bytes _ Hl) as Hbs. rewrite Hs in Hbs.
  apply Forall_cons_iff in Hbs as [Hb' Ht]. unfold byte in Hb'.
  rewrite <-strip_zeros_val, Hs. simpl.
  pose proof (be_val_bound t Ht). pose proof (pow256_pos (zlen t) (zlen_nonneg t)). nia.
Qed.

(** The loop [for &b in bytes { val = (val << 8) | b }] from an accumulator. *)
Lemma fold_be_val l acc :
  foldl (fun v b => v * 256 + b) acc l = acc * 256 ^ zlen l + be_val l.
Proof.
  revert acc. induction l as [|b t IH]; intros acc; simpl; [unfold zlen; simpl; lia|].
  rewrite IH, zlen_cons, pow256_succ by apply zlen_nonneg. ring.
Qed.

(** ** UTF-8

    What [std::str::from_utf8] accepts. *)

Definition utf8_cont (b : Z) : bool := (0x80 <=? b) && (b <=? 0xBF).
(** The second byte of a three- and of a four-byte sequence: no overlong form,
    no surrogate, nothing above U+10FFFF. *)
Definition utf8_second3 (b0 b1 : Z) : bool :=
  if b0 =? 0xE0 then (0xA0 <=? b1) && (b1 <=? 0xBF)
  else if b0 =? 0xED then (0x80 <=? b1) && (b1 <=? 0x9F)
  else (0xE1 <=? b0) && (b0 <=? 0xEF) && utf8_cont b1.
Definition utf8_second4 (b0 b1 : Z) : bool :=
  if b0 =? 0xF0 then (0x90 <=? b1) && (b1 <=? 0xBF)
  else if b0 =? 0xF4 then (0x80 <=? b1) && (b1 <=? 0x8F)
  else (0xF1 <=? b0) && (b0 <=? 0xF3) && utf8_cont b1.

Fixpoint utf8_ok (b : bytes) : bool :=
  match b with
  | [] => true
  | b0 :: t0 =>
    if b0 <? 0x80 then utf8_ok t0
    else
      match t0 with
      | [] => false
      | b1 :: t1 =>
        if (0xC2 <=? b0) && (b0 <=? 0xDF) then utf8_cont b1 && utf8_ok t1
        else
          match t1 with
          | [] => false
          | b2 :: t2 =>
            if utf8_second3 b0 b1 then utf8_cont b2 && utf8_ok t2
            else
              match t2 with
              | [] => false
              | b3 :: t3 => utf8_second4 b0 b1 && utf8_cont b2 && utf8_cont b3 && utf8_ok t3
              end
          end
      end
  end.

(** ASCII is valid. *)
Lemma utf8_ascii b : Forall (fun x => 0 <= x < 128) b -> utf8_ok b = true.
Proof.
  induction 1 as [|x b Hx _ IH]; [done|]. cbn [utf8_ok]. by rewrite (proj2 (Z.ltb_lt x 0x80)) by lia.
Qed.
