(* ===== verification/Rlp.v ===== *)
(** * RLP codec (crates/zbx-rlp)

    [RlpStream] (encode.rs) builds an encoding in place: a list header is a
    nine-byte placeholder that [finalize_unbounded_list] patches.  [Rlp]
    (decode.rs) is a view of a byte slice.  stream.rs and lib.rs add the
    typed helpers.  [item] is the abstract value an encoding denotes; the
    theorems show that the builder emits its encoding, that the view reads
    it back, and that the view never panics on arbitrary input. *)

From stdpp Require Import base tactics list numbers.
From Stdlib Require Import ZArith Lia.
From S2P Require Import Prelude Bytes.

Set Warnings "-register-all".
Local Open Scope Z_scope.

(** ** error.rs *)

Inductive RlpError : Type :=
| UnexpectedEnd (at_byte : Z)
| InvalidLeadingByte (b : Z)
| NonCanonical
| LengthMismatch (expected got : Z)
| ItemCountMismatch
| Overflow
| ExpectedString
| ExpectedList
| Custom (msg : list Z).

(** ** encode.rs *)

(** [list_stack] holds the offsets of the open lists, innermost first. *)
Record RlpStream : Type := mkStream { buf : bytes; list_stack : list Z }.

Definition stream_new : RlpStream := mkStream [] [].

Definition push_bytes (d : bytes) (s : RlpStream) : RlpStream :=
  mkStream (buf s ++ d) (list_stack s).

Definition begin_list (s : RlpStream) : RlpStream :=
  mkStream (buf s ++ replicate 9 0) (zlen (buf s) :: list_stack s).

Definition stream_new_list : RlpStream := begin_list stream_new.

Definition minimal_bytes (n : Z) : bytes := strip_zeros (to_be 8 n).

Definition encode_string (data : bytes) (s : RlpStream) : RlpStream :=
  match data with
  | [] => push_bytes [128] s
  | b :: rest =>
    if (match rest with [] => b <? 128 | _ => false end) then push_bytes [b] s
    else if zlen data <=? 55 then push_bytes ([u8 (128 + zlen data)] ++ data) s
    else
      let len_bytes := minimal_bytes (zlen data) in
      push_bytes ([u8 (183 + zlen len_bytes)] ++ len_bytes ++ data) s
  end.

Definition append (data : bytes) (s : RlpStream) : RlpStream := encode_string data s.
Definition append_raw (data : bytes) (s : RlpStream) : RlpStream := push_bytes data s.

Definition list_prefix (content_len : Z) : bytes :=
  if content_len <=? 55 then [u8 (192 + content_len)]
  else
    let len_bytes := minimal_bytes content_len in
    [u8 (247 + zlen len_bytes)] ++ len_bytes.

(** [expect("no open list")] panics on an empty stack.  The code patches a
    nine-byte prefix in place and rebuilds the buffer for a shorter one; both
    leave the bytes before the placeholder, the prefix, the content. *)
Definition finalize_unbounded_list : M RlpStream RlpError unit :=
  s ← get_st;
  match list_stack s with
  | [] => lift Panic
  | start :: rest =>
    let content_start := start + 9 in
    let content_len := usize (zlen (buf s) - content_start) in
    content ← lift (slice (buf s) content_start (zlen (buf s)));
    head ← lift (slice (buf s) 0 start);
    put_st (mkStream (head ++ list_prefix content_len ++ content) rest)
  end.

(** The loop of [out] finalizes one open list per iteration. *)
Fixpoint out_loop (n : nat) : M RlpStream RlpError unit :=
  match n with
  | O => mret tt
  | S m => finalize_unbounded_list ≫= fun _ => out_loop m
  end.

Definition out (s : RlpStream) : res RlpError bytes :=
  match out_loop (length (list_stack s)) s with
  | (Ok _, s') => Ok (buf s')
  | (Err e, _) => Err e
  | (Panic, _) => Panic
  end.

(** The [Encodable] instances: byte strings, [u8], [u64], [u128]. *)
Definition encode_bytes_into (d : bytes) (s : RlpStream) : RlpStream := append d s.
Definition encode_u8_into (b : Z) (s : RlpStream) : RlpStream := encode_string [b] s.
Definition encode_u64_into (v : Z) (s : RlpStream) : RlpStream :=
  if v =? 0 then push_bytes [128] s else encode_string (minimal_bytes v) s.
Definition encode_u128_into (v : Z) (s : RlpStream) : RlpStream :=
  if v =? 0 then push_bytes [128] s else encode_string (strip_zeros (to_be 16 v)) s.

(** ** stream.rs and lib.rs *)

Definition encode_with {A} (into : A -> RlpStream -> RlpStream) (v : A) : res RlpError bytes :=
  out (into v stream_new).

Definition encode_list {A} (into : A -> RlpStream -> RlpStream) (items : list A)
  : res RlpError bytes :=
  out (foldl (fun s it => into it s) stream_new_list items).

Definition encode_u256 (value : bytes) : res RlpError bytes :=
  out (append (strip_zeros value) stream_new).
Definition encode_h256 (hash : bytes) : res RlpError bytes := out (append hash stream_new).
Definition encode_address (addr : bytes) : res RlpError bytes := out (append addr stream_new).

(** ** decode.rs *)

Definition is_data (data : bytes) : bool :=
  match data with b :: _ => b <? 192 | [] => false end.
Definition is_list (data : bytes) : bool :=
  match data with b :: _ => 192 <=? b | [] => false end.

(** [usize::checked_shl]: [None] only for a shift of at least the width. *)
Definition checked_shl (v n : Z) : option Z :=
  if n <? 64 then Some (usize (Z.shiftl v n)) else None.

Definition decode_length (bs : bytes) : res RlpError Z :=
  match bs with
  | [] => Err (UnexpectedEnd 0)
  | b0 :: _ =>
    if b0 =? 0 then Err Overflow
    else foldl (fun acc b =>
                  val ← acc; sh ← ok_or (checked_shl val 8) Overflow; mret (Z.lor sh b))
               (Ok 0) bs
  end.

(** [1usize.checked_add(a).and_then(|x| x.checked_add(b)).ok_or(Overflow)] *)
Definition checked_sum3 (a b : Z) : res RlpError Z :=
  ok_or (checked 64 (1 + a) ≫= fun x => checked 64 (x + b)) Overflow.

(** A length field of [len_bytes] bytes at [from]. *)
Definition long_length (data : bytes) (from len_bytes : Z) : res RlpError Z :=
  _ ← guard_err (zlen data <? from + len_bytes) (UnexpectedEnd (from + len_bytes));
  f ← slice data from (from + len_bytes);
  len ← decode_length f;
  checked_sum3 len_bytes len.

Definition item_length (data : bytes) (pos : Z) : res RlpError Z :=
  _ ← guard_err (zlen data <=? pos) (UnexpectedEnd pos);
  b ← index data pos;
  item_len ←
    (if b <? 128 then Ok 1
     else if b <? 184 then Ok (1 + (b - 128))
     else if b <? 192 then long_length data (pos + 1) (b - 183)
     else if b <? 248 then Ok (1 + (b - 192))
     else long_length data (pos + 1) (b - 247));
  end_ ← ok_or (checked 64 (pos + item_len)) Overflow;
  _ ← guard_err (zlen data <? end_) (UnexpectedEnd end_);
  mret item_len.

(** The payload of a long item: between the length field and the item's end. *)
Definition long_payload (data : bytes) (len_bytes : Z) : res RlpError (bytes * bytes) :=
  end_ ← long_length data 1 len_bytes;
  _ ← guard_err (zlen data <? end_) (UnexpectedEnd end_);
  p ← slice data (1 + len_bytes) end_;
  r ← slice data end_ (zlen data);
  mret (p, r).

Definition short_payload (data : bytes) (len : Z) : res RlpError (bytes * bytes) :=
  _ ← guard_err (zlen data <? 1 + len) (UnexpectedEnd (1 + len));
  p ← slice data 1 (1 + len);
  r ← slice data (1 + len) (zlen data);
  mret (p, r).

Definition split_payload (data : bytes) : res RlpError (bytes * bytes) :=
  match data with
  | [] => Err (UnexpectedEnd 0)
  | b :: _ =>
    if b <? 128 then
      p ← slice data 0 1; r ← slice data 1 (zlen data); mret (p, r)
    else if b <? 184 then short_payload data (b - 128)
    else if b <? 192 then long_payload data (b - 183)
    else Err ExpectedString
  end.

Definition list_payload (data : bytes) : res RlpError (bytes * bytes) :=
  match data with
  | [] => Ok ([], [])
  | b :: _ =>
    if b <? 192 then Err ExpectedList
    else if b <? 248 then short_payload data (b - 192)
    else long_payload data (b - 247)
  end.

Definition as_bytes (data : bytes) : res RlpError bytes := fst <$> split_payload data.

(** The counting loop; [fuel] bounds its iterations (one per byte is enough,
    every item being at least one byte long) and running out is a [Panic]
    that [item_count_no_panic] excludes. *)
Fixpoint count_items (fuel : nat) (lst : bytes) (pos count : Z) : res RlpError Z :=
  match fuel with
  | O => Panic
  | S fuel =>
    if pos <? zlen lst then
      item_len ← item_length lst pos;
      count_items fuel lst (pos + item_len) (count + 1)
    else Ok count
  end.

Definition item_count (data : bytes) : res RlpError Z :=
  match data with
  | [] => Ok 0
  | b :: _ =>
    if b <? 192 then Ok 0
    else '(lst, _) ← list_payload data; count_items (S (length lst)) lst 0 0
  end.

Fixpoint at_loop (fuel : nat) (lst : bytes) (n pos idx : Z) : res RlpError bytes :=
  match fuel with
  | O => Panic
  | S fuel =>
    if pos <? zlen lst then
      item_len ← item_length lst pos;
      if idx =? n then slice lst pos (pos + item_len)
      else at_loop fuel lst n (pos + item_len) (idx + 1)
    else Err ItemCountMismatch
  end.

(** [Rlp::at] *)
Definition rlp_at (data : bytes) (n : Z) : res RlpError bytes :=
  '(lst, _) ← list_payload data; at_loop (S (length lst)) lst n 0 0.

(** [Decodable]: [Vec<u8>] and [u64]. *)
Definition decode_vec (data : bytes) : res RlpError bytes := as_bytes data.
Definition decode_u64 (data : bytes) : res RlpError Z :=
  b ← as_bytes data;
  _ ← guard_err (8 <? zlen b) Overflow;
  mret (foldl (fun v x => Z.lor (u64 (Z.shiftl v 8)) x) 0 b).

Definition val_at {A} (dec : bytes -> res RlpError A) (data : bytes) (idx : Z) : res RlpError A :=
  item ← rlp_at data idx; dec item.

(** ** The abstract value of an encoding *)

Inductive item : Type :=
| Str (d : bytes)
| Lst (l : list item).

Definition enc_str (d : bytes) : bytes := buf (encode_string d stream_new).
Definition enc_lst (payload : bytes) : bytes := list_prefix (zlen payload) ++ payload.

Fixpoint enc (it : item) : bytes :=
  match it with
  | Str d => enc_str d
  | Lst l => enc_lst (concat (map enc l))
  end.

(** The builder calls that encode an item: a list opens, encodes its
    elements and is finalized. *)
Fixpoint build (it : item) : M RlpStream RlpError unit :=
  match it with
  | Str d => modify (append d)
  | Lst l =>
    _ ← modify begin_list;
    _ ← (fix go l := match l with
                    | [] => mret tt
                    | x :: t => _ ← build x; go t
                    end) l;
    finalize_unbounded_list
  end.

(** What the view reads from [data]: a string through [is_data]/[as_bytes], a
    list through [is_list]/[item_count]/[at]. *)
Inductive reads : bytes -> item -> Prop :=
| reads_str data d :
    is_data data = true -> as_bytes data = Ok d -> reads data (Str d)
| reads_lst data l :
    is_list data = true ->
    item_count data = Ok (Z.of_nat (length l)) ->
    (forall i it, l !! i = Some it ->
       exists d, rlp_at data (Z.of_nat i) = Ok d /\ reads d it) ->
    rlp_at data (Z.of_nat (length l)) = Err ItemCountMismatch ->
    reads data (Lst l).

(** Every string of the item is made of bytes and the encoding fits in a
    Rust slice (at most [isize::MAX] bytes). *)
Inductive item_bytes : item -> Prop :=
| ib_str d : Forall byte d -> item_bytes (Str d)
| ib_lst l : Forall item_bytes l -> item_bytes (Lst l).
Definition item_ok (it : item) : Prop := item_bytes it /\ zlen (enc it) < 2 ^ 63.

(** ** Length fields *)

Lemma minimal_bytes_spec n :
  0 < n < 2 ^ 64 ->
  exists b t, minimal_bytes n = b :: t /\ b <> 0 /\ Forall byte (b :: t) /\
    be_val (b :: t) = n /\ zlen (b :: t) <= 8.
Proof.
  intros Hn. unfold minimal_bytes.
  pose proof (to_be_bytes 8 n) as Hb.
  pose proof (strip_zeros_len (to_be 8 n)) as Hl. rewrite zlen_to_be in Hl.
  pose proof (strip_zeros_val (to_be 8 n)) as Hv.
  rewrite be_val_to_be, Z.mod_small in Hv by (change (256 ^ Z.of_nat 8) with (2 ^ 64); lia).
  apply strip_zeros_bytes in Hb.
  destruct (strip_zeros (to_be 8 n)) as [|b t] eqn:Hs; [simpl in Hv; lia|].
  exists b, t. split_and!; try done. by eapply strip_zeros_head.
Qed.

Lemma lor_shiftl_byte v b :
  0 <= v -> byte b -> v * 256 < 2 ^ 64 -> Z.lor (usize (Z.shiftl v 8)) b = v * 256 + b.
Proof.
  intros Hv Hb Hr. rewrite Z.shiftl_mul_pow2 by lia. change (2 ^ 8) with 256.
  rewrite wrap_small by (unfold in_range; lia).
  rewrite <-Z.add_lor_land. assert (Z.land (v * 256) b = 0) as ->; [|lia].
  apply Z.bits_inj'. intros i Hi. rewrite Z.land_spec, Z.bits_0.
  change 256 with (2 ^ 8). destruct (Z.lt_ge_cases i 8).
  - rewrite Z.mul_pow2_bits_low by lia. done.
  - unfold byte in Hb. rewrite <-(Z.mod_small b (2 ^ 8)) by (change (2 ^ 8) with 256; lia).
    rewrite Z.mod_pow2_bits_high by lia. apply andb_false_r.
Qed.

Lemma fold_length bs v :
  0 <= v -> Forall byte bs -> v * 256 ^ zlen bs + be_val bs < 2 ^ 64 ->
  foldl (fun (acc : res RlpError Z) b =>
           val ← acc; sh ← ok_or (checked_shl val 8) Overflow; mret (Z.lor sh b))
        (Ok v) bs = Ok (v * 256 ^ zlen bs + be_val bs).
Proof.
  intros Hv Hb. revert v Hv. induction Hb as [|b t Hb Ht IH]; intros v Hv Hr.
  - simpl. f_equal. unfold zlen. simpl. lia.
  - rewrite zlen_cons, pow256_succ in * by apply zlen_nonneg. cbn [foldl be_val] in *.
    pose proof (pow256_pos (zlen t) (zlen_nonneg t)). pose proof (be_val_bound t Ht).
    pose proof Hb as Hb'. unfold byte in Hb'.
    change (foldl ?f ?x t) with (foldl f (Ok (Z.lor (usize (Z.shiftl v 8)) b)) t).
    rewrite lor_shiftl_byte by (done || nia).
    rewrite IH by nia. f_equal. ring.
Qed.

Lemma be_val_lt_64 l : Forall byte l -> zlen l <= 8 -> be_val l < 2 ^ 64.
Proof.
  intros Hl Hz. pose proof (be_val_bound l Hl).
  pose proof (Z.pow_le_mono_r 256 (zlen l) 8 ltac:(lia) Hz).
  change (2 ^ 64) with (256 ^ 8). lia.
Qed.

Lemma decode_length_val b t :
  Forall byte (b :: t) -> b <> 0 -> zlen (b :: t) <= 8 ->
  decode_length (b :: t) = Ok (be_val (b :: t)).
Proof.
  intros Hb H0 Hl. unfold decode_length. rewrite (proj2 (Z.eqb_neq b 0)) by done.
  rewrite fold_length; [f_equal; lia|lia|done|]. pose proof (be_val_lt_64 _ Hb Hl). lia.
Qed.

(** ** Encoded items inside a larger slice *)

Definition item_enc (e : bytes) : Prop :=
  0 < zlen e /\
  forall p s, zlen (p ++ e ++ s) < 2 ^ 63 -> item_length (p ++ e ++ s) (zlen p) = Ok (zlen e).

Lemma index_app {E} (p : bytes) b s : @index Z E (p ++ b :: s) (zlen p) = Ok b.
Proof.
  unfold index. rewrite (proj2 (Z.leb_le 0 _)) by apply zlen_nonneg.
  unfold zlen. rewrite Nat2Z.id, list_lookup_middle by done. done.
Qed.

Lemma guard_err_false {E} b (e : E) : b = false -> guard_err b e = Ok tt.
Proof. by intros ->. Qed.

Lemma long_length_val q b t r :
  Forall byte (b :: t) -> b <> 0 -> zlen (b :: t) <= 8 -> be_val (b :: t) < 2 ^ 63 ->
  long_length (q ++ (b :: t) ++ r) (zlen q) (zlen (b :: t)) =
    Ok (1 + zlen (b :: t) + be_val (b :: t)).
Proof.
  intros Hb H0 Hl Hv. unfold long_length.
  pose proof (zlen_nonneg q). pose proof (zlen_nonneg r). pose proof (zlen_nonneg (b :: t)).
  rewrite guard_err_false by (apply Z.ltb_ge; rewrite !zlen_app; lia).
  cbn [mbind res_bind]. rewrite slice_app by lia. cbn [mbind res_bind].
  rewrite decode_length_val by done. cbn [mbind res_bind].
  pose proof (be_val_bound _ Hb). unfold checked_sum3.
  rewrite (checked_in 64 (1 + zlen (b :: t))) by (unfold in_range; lia).
  cbn [mbind option_bind]. rewrite checked_in by (unfold in_range; lia). done.
Qed.

(** The two shapes of a header: one byte, or one byte and a length field. *)
Lemma item_enc_short base h payload :
  (base = 128 \/ base = 192) -> zlen payload <= 55 -> h = base + zlen payload ->
  item_enc (h :: payload).
Proof.
  intros Hbase Hl ->. pose proof (zlen_nonneg payload).
  split; [rewrite zlen_cons; lia|]. intros p s Hlen.
  pose proof (zlen_nonneg p). pose proof (zlen_nonneg s). cbn [app] in *.
  unfold item_length. rewrite guard_err_false
    by (apply Z.leb_gt; autorewrite with zlen; lia).
  cbn [mbind res_bind]. rewrite index_app. cbn [mbind res_bind].
  rewrite (proj2 (Z.ltb_ge (base + zlen payload) 128)) by lia.
  assert ((if base + zlen payload <? 184 then Ok (1 + (base + zlen payload - 128))
    else if base + zlen payload <? 192
         then long_length (p ++ (base + zlen payload) :: payload ++ s) (zlen p + 1)
                (base + zlen payload - 183)
         else if base + zlen payload <? 248 then Ok (1 + (base + zlen payload - 192))
         else long_length (p ++ (base + zlen payload) :: payload ++ s) (zlen p + 1)
                (base + zlen payload - 247)) = @Ok RlpError Z (1 + zlen payload)) as ->.
  { destruct Hbase as [-> | ->]; repeat (case_match; bool_to_prop; try lia); f_equal; lia. }
  cbn [mbind res_bind]. autorewrite with zlen in Hlen.
  rewrite checked_in by (unfold in_range; lia). cbn [mbind res_bind ok_or].
  rewrite guard_err_false by (apply Z.ltb_ge; autorewrite with zlen; lia).
  cbn [mbind res_bind]. rewrite zlen_cons. done.
Qed.

Lemma item_enc_long base payload :
  (base = 183 \/ base = 247) -> 55 < zlen payload < 2 ^ 63 ->
  item_enc ((base + zlen (minimal_bytes (zlen payload)))
              :: minimal_bytes (zlen payload) ++ payload).
Proof.
  intros Hbase Hl. destruct (minimal_bytes_spec (zlen payload)) as (b & t & Hm & H0 & Hb & Hv & H8);
    [lia|]. rewrite Hm. set (lb := b :: t) in *.
  assert (1 <= zlen lb) by (unfold lb; rewrite zlen_cons; pose proof (zlen_nonneg t); lia).
  split; [rewrite zlen_cons, zlen_app; lia|]. intros p s Hlen.
  pose proof (zlen_nonneg p). pose proof (zlen_nonneg s). cbn [app] in *.
  unfold item_length. rewrite guard_err_false
    by (apply Z.leb_gt; autorewrite with zlen; lia).
  cbn [mbind res_bind]. rewrite index_app. cbn [mbind res_bind].
  set (h := base + zlen lb) in *.
  assert (long_length (p ++ h :: (lb ++ payload) ++ s) (zlen p + 1) (zlen lb) =
          Ok (1 + zlen lb + zlen payload)) as Hll.
  { replace (p ++ h :: (lb ++ payload) ++ s) with ((p ++ [h]) ++ lb ++ payload ++ s)
      by (rewrite <-!app_assoc; done).
    replace (zlen p + 1) with (zlen (p ++ [h])) by (rewrite zlen_app, zlen_cons, zlen_nil; lia).
    subst lb. rewrite long_length_val by (done || lia). by rewrite Hv. }
  assert ((if h <? 128 then Ok 1 else if h <? 184 then Ok (1 + (h - 128))
    else if h <? 192 then long_length (p ++ h :: (lb ++ payload) ++ s) (zlen p + 1) (h - 183)
         else if h <? 248 then Ok (1 + (h - 192))
         else long_length (p ++ h :: (lb ++ payload) ++ s) (zlen p + 1) (h - 247))
     = @Ok RlpError Z (1 + zlen lb + zlen payload)) as ->.
  { rewrite <-Hll. unfold h.
    destruct Hbase as [-> | ->]; repeat (case_match; bool_to_prop; try lia); f_equal; lia. }
  cbn [mbind res_bind]. autorewrite with zlen in Hlen.
  rewrite checked_in by (unfold in_range; lia). cbn [mbind res_bind ok_or].
  rewrite guard_err_false by (apply Z.ltb_ge; autorewrite with zlen; lia).
  cbn [mbind res_bind mret res_ret]. rewrite zlen_cons, zlen_app. f_equal. lia.
Qed.

Lemma u8_small x : 0 <= x < 256 -> u8 x = x.
Proof. intros. by apply wrap_small. Qed.

Lemma zlen_minimal n : 0 < n < 2 ^ 64 -> 1 <= zlen (minimal_bytes n) <= 8.
Proof.
  intros Hn. destruct (minimal_bytes_spec n Hn) as (b & t & -> & _ & _ & _ & H8).
  rewrite zlen_cons in *. pose proof (zlen_nonneg t). lia.
Qed.

(** The three forms of an encoded string. *)
Lemma enc_str_cases d :
  (d = [] /\ enc_str d = [128]) \/
  (exists b, d = [b] /\ b < 128 /\ enc_str d = [b]) \/
  (zlen d <= 55 /\ enc_str d = (128 + zlen d) :: d) \/
  (55 < zlen d /\
    (zlen d < 2 ^ 63 ->
     enc_str d = (183 + zlen (minimal_bytes (zlen d))) :: minimal_bytes (zlen d) ++ d)).
Proof.
  unfold enc_str, encode_string, push_bytes. destruct d as [|b t]; [by left|right].
  set (d := b :: t). assert (0 < zlen d) by (unfold d; rewrite zlen_cons;
    pose proof (zlen_nonneg t); lia).
  destruct (match t with [] => b <? 128 | _ => false end) eqn:Ht.
  - left. exists b. destruct t; [|done]. by apply Z.ltb_lt in Ht.
  - right. destruct (Z.leb_spec (zlen d) 55); [left|right]; (split; [done|]).
    + simpl. rewrite u8_small by lia. done.
    + intros Hl. pose proof (zlen_minimal (zlen d) ltac:(lia)).
      cbn [buf stream_new app]. rewrite u8_small by lia. done.
Qed.

Lemma enc_lst_cases c :
  (zlen c <= 55 /\ enc_lst c = (192 + zlen c) :: c) \/
  (55 < zlen c /\ (zlen c < 2 ^ 63 ->
     enc_lst c = (247 + zlen (minimal_bytes (zlen c))) :: minimal_bytes (zlen c) ++ c)).
Proof.
  unfold enc_lst, list_prefix. pose proof (zlen_nonneg c).
  destruct (Z.leb_spec (zlen c) 55); [left|right]; (split; [done|]).
  - rewrite u8_small by lia. done.
  - intros Hl. pose proof (zlen_minimal (zlen c) ltac:(lia)).
    rewrite u8_small by lia. done.
Qed.

Lemma enc_str_item d : Forall byte d -> zlen d < 2 ^ 63 -> item_enc (enc_str d).
Proof.
  intros Hd Hl. destruct (enc_str_cases d) as [[-> ->]|[(b & -> & Hb & ->)|[[H55 ->]|[H55 He]]]].
  - apply (item_enc_short 128); [tauto|done..].
  - apply Forall_cons_iff in Hd as [Hb0 _]. split; [done|]. intros p s Hlen.
    cbn [app] in *. pose proof (zlen_nonneg p). pose proof (zlen_nonneg s).
    unfold item_length. rewrite guard_err_false
      by (apply Z.leb_gt; autorewrite with zlen; lia).
    cbn [mbind res_bind]. rewrite index_app. cbn [mbind res_bind].
    rewrite (proj2 (Z.ltb_lt b 128)) by lia. autorewrite with zlen in Hlen.
    cbn [mbind res_bind]. rewrite checked_in by (unfold in_range; lia).
    cbn [mbind res_bind ok_or].
    rewrite guard_err_false by (apply Z.ltb_ge; autorewrite with zlen; lia). done.
  - apply (item_enc_short 128); [tauto|done..].
  - rewrite He by done. apply item_enc_long; [tauto|lia].
Qed.

Lemma enc_lst_item c : zlen c < 2 ^ 63 -> item_enc (enc_lst c).
Proof.
  intros Hl. destruct (enc_lst_cases c) as [[H55 ->]|[H55 He]].
  - apply (item_enc_short 192); [tauto|done..].
  - rewrite He by done. apply item_enc_long; [tauto|lia].
Qed.

(** ** Payloads of a whole encoding *)

Lemma short_payload_val h c r : short_payload (h :: c ++ r) (zlen c) = Ok (c, r).
Proof.
  pose proof (zlen_nonneg c). pose proof (zlen_nonneg r). unfold short_payload.
  rewrite guard_err_false by (apply Z.ltb_ge; autorewrite with zlen; lia).
  cbn [mbind res_bind].
  assert (@slice Z RlpError (h :: c ++ r) 1 (1 + zlen c) = Ok c) as ->
    by (apply (slice_app [h] c r); autorewrite with zlen; lia).
  cbn [mbind res_bind].
  change (h :: c ++ r) with ((h :: c) ++ r).
  by rewrite slice_suffix by (autorewrite with zlen; lia).
Qed.

Lemma long_payload_val h c r :
  55 < zlen c < 2 ^ 63 ->
  long_payload (h :: minimal_bytes (zlen c) ++ c ++ r) (zlen (minimal_bytes (zlen c)))
    = Ok (c, r).
Proof.
  intros Hl. destruct (minimal_bytes_spec (zlen c)) as (b & t & Hm & H0 & Hb & Hv & H8); [lia|].
  rewrite Hm. assert (be_val (b :: t) < 2 ^ 63) as Hv63 by lia.
  set (lb := b :: t) in *. pose proof (zlen_nonneg lb). unfold long_payload.
  assert (long_length (h :: lb ++ c ++ r) 1 (zlen lb) = Ok (1 + zlen lb + zlen c)) as ->.
  { pose proof (long_length_val [h] b t (c ++ r) Hb H0 H8 Hv63) as Hll.
    cbn [app] in Hll. fold lb in Hll. autorewrite with zlen in Hll. rewrite Hv in Hll.
    exact Hll. }
  clearbody lb. cbn [mbind res_bind]. pose proof (zlen_nonneg r).
  rewrite guard_err_false by (apply Z.ltb_ge; autorewrite with zlen; lia).
  cbn [mbind res_bind].
  assert (@slice Z RlpError (h :: lb ++ c ++ r) (1 + zlen lb) (1 + zlen lb + zlen c) = Ok c) as ->
    by (apply (slice_app (h :: lb) c r); autorewrite with zlen; lia).
  cbn [mbind res_bind].
  replace (h :: lb ++ c ++ r) with ((h :: lb ++ c) ++ r) by (cbn [app]; by rewrite app_assoc).
  by rewrite slice_suffix by (autorewrite with zlen; lia).
Qed.

Lemma list_payload_enc c : zlen c < 2 ^ 63 -> list_payload (enc_lst c) = Ok (c, []).
Proof.
  intros Hl. pose proof (zlen_nonneg c). rewrite <-(app_nil_r (enc_lst c)).
  destruct (enc_lst_cases c) as [[H55 ->]|[H55 He]]; [|rewrite He by done];
    cbn [list_payload app].
  - rewrite (proj2 (Z.ltb_ge _ 192)), (proj2 (Z.ltb_lt _ 248)) by lia.
    replace (192 + zlen c - 192) with (zlen c) by lia. apply short_payload_val.
  - pose proof (zlen_minimal (zlen c) ltac:(lia)).
    rewrite (proj2 (Z.ltb_ge _ 192)), (proj2 (Z.ltb_ge _ 248)), <-app_assoc by lia.
    replace (247 + zlen (minimal_bytes (zlen c)) - 247)
      with (zlen (minimal_bytes (zlen c))) by lia.
    apply long_payload_val. lia.
Qed.

Lemma as_bytes_enc_app d r :
  Forall byte d -> zlen d < 2 ^ 63 ->
  is_data (enc_str d ++ r) = true /\ as_bytes (enc_str d ++ r) = Ok d.
Proof.
  intros Hd Hl. pose proof (zlen_nonneg d). unfold as_bytes.
  destruct (enc_str_cases d) as [[-> ->]|[(b & -> & Hb & ->)|[[H55 ->]|[H55 He]]]].
  - cbn [is_data split_payload app]. split; [done|].
    change (128 <? 128) with false. change (128 <? 184) with true. cbv iota.
    by rewrite (short_payload_val 128 [] r : short_payload (128 :: r) (128 - 128) = _).
  - apply Forall_cons_iff in Hd as [Hb0 _]. unfold byte in Hb0.
    cbn [is_data split_payload app].
    rewrite (proj2 (Z.ltb_lt b 192)), (proj2 (Z.ltb_lt b 128)) by lia. split; [done|].
    change (b :: r) with ([b] ++ r). rewrite slice_prefix by done.
    by rewrite slice_suffix by (rewrite ?zlen_app; done).
  - cbn [is_data split_payload app].
    rewrite (proj2 (Z.ltb_lt _ 192)), (proj2 (Z.ltb_ge _ 128)), (proj2 (Z.ltb_lt _ 184)) by lia.
    replace (128 + zlen d - 128) with (zlen d) by lia. by rewrite short_payload_val.
  - rewrite He by done. pose proof (zlen_minimal (zlen d) ltac:(lia)).
    cbn [is_data split_payload app].
    rewrite (proj2 (Z.ltb_lt _ 192)), (proj2 (Z.ltb_ge _ 128)), (proj2 (Z.ltb_ge _ 184)) by lia.
    replace (183 + zlen (minimal_bytes (zlen d)) - 183)
      with (zlen (minimal_bytes (zlen d))) by lia.
    rewrite <-app_assoc, long_payload_val by lia. done.
Qed.

Lemma as_bytes_enc d :
  Forall byte d -> zlen d < 2 ^ 63 ->
  is_data (enc_str d) = true /\ as_bytes (enc_str d) = Ok d.
Proof. intros Hd Hl. rewrite <-(app_nil_r (enc_str d)). by apply as_bytes_enc_app. Qed.

(** ** Walking a list payload *)

Lemma zlen_concat_ge es : Forall item_enc es -> Z.of_nat (length es) <= zlen (concat es).
Proof.
  induction 1 as [|e es [He _] Hes IH]; simpl; [done|]. rewrite zlen_app. lia.
Qed.

Lemma count_items_concat es p fuel n :
  Forall item_enc es -> zlen (p ++ concat es) < 2 ^ 63 -> (length es < fuel)%nat ->
  count_items fuel (p ++ concat es) (zlen p) n = Ok (n + Z.of_nat (length es)).
Proof.
  intros Hes. revert p fuel n. induction Hes as [|e es He Hes IH]; intros p fuel n Hlen Hf.
  - destruct fuel; [simpl in Hf; lia|]. simpl. rewrite app_nil_r, Z.ltb_irrefl.
    f_equal. lia.
  - destruct fuel as [|fuel]; [simpl in Hf; lia|]. destruct He as [Hpos He]. simpl concat in *.
    pose proof (zlen_nonneg (concat es)).
    cbn [count_items]. rewrite (proj2 (Z.ltb_lt _ _)) by (autorewrite with zlen; lia).
    rewrite He by done. cbn [mbind res_bind].
    rewrite app_assoc, <-zlen_app, IH; [f_equal; simpl length; lia| |simpl in Hf; lia].
    by rewrite <-app_assoc.
Qed.

Lemma at_loop_concat es p fuel n idx :
  Forall item_enc es -> zlen (p ++ concat es) < 2 ^ 63 -> (length es < fuel)%nat -> idx <= n ->
  at_loop fuel (p ++ concat es) n (zlen p) idx =
    ok_or (es !! Z.to_nat (n - idx)) ItemCountMismatch.
Proof.
  intros Hes. revert p fuel idx. induction Hes as [|e es He Hes IH]; intros p fuel idx Hlen Hf Hi.
  - destruct fuel; [simpl in Hf; lia|]. simpl. rewrite app_nil_r, Z.ltb_irrefl. done.
  - destruct fuel as [|fuel]; [simpl in Hf; lia|]. destruct He as [Hpos He]. simpl concat in *.
    pose proof (zlen_nonneg (concat es)).
    cbn [at_loop]. rewrite (proj2 (Z.ltb_lt _ _)) by (autorewrite with zlen; lia).
    rewrite He by done. cbn [mbind res_bind]. destruct (Z.eqb_spec idx n) as [->|Hne].
    + rewrite slice_app by lia. by rewrite Z.sub_diag.
    + rewrite app_assoc, <-zlen_app, IH; [| |simpl in Hf; lia|lia].
      * replace (Z.to_nat (n - idx)) with (S (Z.to_nat (n - (idx + 1)))) by lia. done.
      * by rewrite <-app_assoc.
Qed.

Lemma enc_lst_head c : exists h t, enc_lst c = h :: t.
Proof. unfold enc_lst, list_prefix. case_match; eauto. Qed.

Lemma enc_lst_is_list c : zlen c < 2 ^ 63 ->
  is_list (enc_lst c) = true /\ exists h t, enc_lst c = h :: t /\ 192 <= h.
Proof.
  intros Hl. pose proof (zlen_nonneg c).
  destruct (enc_lst_cases c) as [[H55 ->]|[H55 He]]; [|rewrite He by done]; unfold is_list.
  - split; [apply Z.leb_le; lia|]. eexists _, _; split; [done|lia].
  - pose proof (zlen_minimal (zlen c) ltac:(lia)).
    split; [apply Z.leb_le; lia|]. eexists _, _; split; [done|lia].
Qed.

Lemma item_count_enc es :
  Forall item_enc es -> zlen (concat es) < 2 ^ 63 ->
  item_count (enc_lst (concat es)) = Ok (Z.of_nat (length es)).
Proof.
  intros Hes Hl. destruct (enc_lst_is_list _ Hl) as [_ (h & t & He & Hh)].
  unfold item_count. rewrite He, (proj2 (Z.ltb_ge h 192)), <-He, list_payload_enc by done.
  cbn [mbind res_bind]. pose proof (zlen_concat_ge es Hes).
  apply (count_items_concat es []); [done..|]. unfold zlen in *. lia.
Qed.

Lemma rlp_at_enc es n :
  Forall item_enc es -> zlen (concat es) < 2 ^ 63 -> 0 <= n ->
  rlp_at (enc_lst (concat es)) n = ok_or (es !! Z.to_nat n) ItemCountMismatch.
Proof.
  intros Hes Hl Hn. unfold rlp_at. rewrite list_payload_enc by done. cbn [mbind res_bind].
  pose proof (zlen_concat_ge es Hes).
  pose proof (at_loop_concat es [] (S (length (concat es))) n 0) as Ha.
  rewrite Z.sub_0_r in Ha. apply Ha; [done..| |done]. unfold zlen in *. lia.
Qed.

(** ** Round trip *)

Section item_ind.
Context (P : item -> Prop) (HS : forall d, P (Str d))
        (HL : forall l, Forall P l -> P (Lst l)).
Fixpoint item_ind_nested (it : item) : P it :=
  match it with
  | Str d => HS d
  | Lst l => HL l ((fix go l := match l return Forall P l with
                     | [] => Forall_nil_2 P
                     | x :: t => Forall_cons_2 P x t (item_ind_nested x) (go t)
                     end) l)
  end.
End item_ind.

Lemma zlen_enc_lst_ge c : zlen c <= zlen (enc_lst c).
Proof. unfold enc_lst. rewrite zlen_app. pose proof (zlen_nonneg (list_prefix (zlen c))). lia. Qed.

Lemma zlen_concat_in e (es : list bytes) : In e es -> zlen e <= zlen (concat es).
Proof.
  induction es as [|x es IH]; [done|]. intros [-> | Hin]; simpl; rewrite zlen_app.
  - pose proof (zlen_nonneg (concat es)). lia.
  - pose proof (zlen_nonneg x). specialize (IH Hin). lia.
Qed.

Lemma zlen_enc_str_ge d : zlen d < 2 ^ 64 -> zlen d <= zlen (enc_str d).
Proof.
  intros Hd. unfold enc_str, encode_string, push_bytes. destruct d as [|b t]; [done|].
  repeat case_match; simpl; autorewrite with zlen;
    try pose proof (zlen_nonneg (minimal_bytes (zlen (b :: t)))); autorewrite with zlen in *; try lia.
  subst. unfold zlen. simpl. lia.
Qed.

Lemma zlen_str_lt d : zlen (enc_str d) < 2 ^ 63 -> zlen d < 2 ^ 63.
Proof.
  intros H. destruct (Z.lt_ge_cases (zlen d) (2 ^ 64)) as [Hd|Hd].
  - pose proof (zlen_enc_str_ge d Hd). lia.
  - exfalso. unfold enc_str, encode_string, push_bytes in H. destruct d as [|b t]; [done|].
    destruct (match t with [] => _ | _ => _ end) eqn:Ht; [by destruct t|].
    rewrite (proj2 (Z.leb_gt (zlen (b :: t)) 55)) in H by lia. simpl in H.
    rewrite !zlen_cons, zlen_app in H. rewrite zlen_cons in *.
    pose proof (zlen_nonneg (minimal_bytes (1 + zlen t))). lia.
Qed.

Lemma enc_item_enc it : item_ok it -> item_enc (enc it).
Proof.
  intros [Hb Hl]. destruct it as [d|l]; simpl in *.
  - inversion Hb; subst. apply enc_str_item; [done|]. by apply zlen_str_lt.
  - apply enc_lst_item. pose proof (zlen_enc_lst_ge (concat (map enc l))). lia.
Qed.

Lemma item_ok_child l it : item_ok (Lst l) -> In it l -> item_ok it.
Proof.
  intros [Hb Hl] Hin. inversion Hb as [|? Hall]; subst. simpl in Hl. split.
  - rewrite List.Forall_forall in Hall. by apply Hall.
  - pose proof (zlen_enc_lst_ge (concat (map enc l))).
    pose proof (zlen_concat_in (enc it) (map enc l) (in_map enc l it Hin)). lia.
Qed.

Lemma item_ok_children l : item_ok (Lst l) ->
  Forall item_enc (map enc l) /\ zlen (concat (map enc l)) < 2 ^ 63.
Proof.
  intros Hok. split.
  - apply List.Forall_forall. intros e (it & <- & Hin)%in_map_iff.
    apply enc_item_enc. by eapply item_ok_child.
  - destruct Hok as [_ Hl]. simpl in Hl. pose proof (zlen_enc_lst_ge (concat (map enc l))). lia.
Qed.

(** C40. Reading back an encoded item through [is_data]/[as_bytes] (strings)
    and [is_list]/[item_count]/[at] (lists) yields exactly that item, at
    every depth of nesting and in every length class of the header. *)
Theorem rlp_roundtrip it : item_ok it -> reads (enc it) it.
Proof.
  induction it as [d|l IH] using item_ind_nested; intros Hok; simpl enc.
  - destruct Hok as [Hb Hl]. inversion Hb; subst. simpl in Hl.
    destruct (as_bytes_enc d) as [? ?]; [done|by apply zlen_str_lt|]. by constructor.
  - destruct (item_ok_children l Hok) as [Hes Hc]. constructor.
    + by apply enc_lst_is_list.
    + rewrite item_count_enc by done. by rewrite length_map.
    + intros i it Hi. exists (enc it). split.
      * rewrite rlp_at_enc by (done || lia). rewrite Nat2Z.id.
        change (map enc l) with (enc <$> l). by rewrite list_lookup_fmap, Hi.
      * rewrite List.Forall_forall in IH. apply list_elem_of_lookup_2, list_elem_of_In in Hi.
        apply IH; [done|]. by eapply item_ok_child.
    + rewrite rlp_at_enc by (done || lia). rewrite Nat2Z.id.
      change (map enc l) with (enc <$> l).
      rewrite lookup_ge_None_2; [done|]. by rewrite length_fmap.
Qed.

(** A list holding a string, a nested list and a single byte. *)
Definition sample : item := Lst [Str [200; 3]; Lst [Str []; Str [131]]; Str [5]].

Lemma sample_ok : item_ok sample.
Proof.
  split; [|vm_compute; reflexivity].
  repeat (constructor || (unfold byte; lia)).
Qed.

Lemma rlp_roundtrip_witness :
  enc sample = [200; 130; 200; 3; 195; 128; 129; 131; 5] /\
  reads [200; 130; 200; 3; 195; 128; 129; 131; 5] sample.
Proof. split; [reflexivity|]. exact (rlp_roundtrip sample sample_ok). Defined.


(** ** The builder *)

Lemma encode_string_push d s : encode_string d s = push_bytes (enc_str d) s.
Proof.
  unfold enc_str, encode_string, push_bytes. destruct d; [done|].
  repeat case_match; done.
Qed.

Lemma push_push a b s : push_bytes b (push_bytes a s) = push_bytes (a ++ b) s.
Proof. unfold push_bytes. simpl. by rewrite app_assoc. Qed.

Lemma finalize_pushed s c : zlen c < 2 ^ 63 ->
  finalize_unbounded_list (push_bytes c (begin_list s)) = (Ok tt, push_bytes (enc_lst c) s).
Proof.
  intros Hc. pose proof (zlen_nonneg c). pose proof (zlen_nonneg (buf s)).
  unfold finalize_unbounded_list, push_bytes, begin_list, mbind, M_bind, get_st, lift, put_st.
  cbn [buf list_stack]. rewrite slice_suffix
    by (rewrite ?zlen_app; change (zlen (replicate 9 0)) with 9; lia).
  rewrite <-app_assoc, slice_prefix by done.
  rewrite !zlen_app. change (zlen (replicate 9 0)) with 9.
  replace (zlen (buf s) + (9 + zlen c) - (zlen (buf s) + 9)) with (zlen c) by lia.
  rewrite wrap_small by (unfold in_range; lia). done.
Qed.

(** A list opened by [new_list] and left to [out] to finalize. *)
Lemma out_open_list c : zlen c < 2 ^ 63 ->
  out (push_bytes c stream_new_list) = Ok (enc_lst c).
Proof.
  intros Hc. unfold out. change (length (list_stack (push_bytes c stream_new_list))) with 1%nat.
  cbn [out_loop]. unfold mbind, M_bind, stream_new_list. rewrite finalize_pushed by done.
  done.
Qed.

(** The in-place builder emits the specified encoding: opening a list,
    encoding its elements and finalizing it appends exactly [enc it] to the
    buffer, for arbitrarily nested lists, and leaves the open lists alone;
    [out] then returns the encoding. *)
Theorem build_refines it s : item_ok it ->
  build it s = (Ok tt, push_bytes (enc it) s) /\
  (s = stream_new -> out (snd (build it s)) = Ok (enc it)).
Proof.
  intros Hok. assert (forall s, build it s = (Ok tt, push_bytes (enc it) s)) as Hb.
  2:{ split; [done|]. intros ->. rewrite Hb. done. }
  clear s. induction it as [d|l IH] using item_ind_nested; intros s.
  - simpl. unfold modify, append. by rewrite encode_string_push.
  - destruct (item_ok_children l Hok) as [_ Hc].
    assert (forall s, (fix go l := match l with [] => mret tt | x :: t => _ ← build x; go t end) l s
              = (Ok tt, push_bytes (concat (map enc l)) s)) as Hgo.
    { assert (Forall item_ok l) as Hall.
      { apply List.Forall_forall. intros x Hx. by eapply item_ok_child. }
      clear Hok Hc. induction IH as [|x t Hx _ IHt]; intros s'.
      - unfold push_bytes. simpl. rewrite app_nil_r. by destruct s'.
      - inversion Hall; subst. simpl. unfold mbind at 1, M_bind at 1.
        rewrite Hx by done. rewrite IHt by done. by rewrite push_push. }
    simpl. unfold mbind, M_bind, modify at 1. simpl in Hgo. unfold mbind, M_bind in Hgo.
    rewrite Hgo. by rewrite finalize_pushed.
Qed.

Lemma build_refines_witness :
  out (snd (build sample stream_new)) = Ok [200; 130; 200; 3; 195; 128; 129; 131; 5].
Proof. exact (proj2 (build_refines sample stream_new sample_ok) eq_refl). Defined.


(** ** Arbitrary input *)

Lemma fold_length_ok bs acc :
  (exists v, acc = Ok v /\ 0 <= v) -> Forall byte bs ->
  exists v, foldl (fun (acc : res RlpError Z) b =>
           val ← acc; sh ← ok_or (checked_shl val 8) Overflow; mret (Z.lor sh b)) acc bs
    = Ok v /\ 0 <= v.
Proof.
  intros Ha Hb. revert acc Ha. induction Hb as [|b t Hb Ht IH]; intros acc Ha; [done|].
  cbn [foldl]. apply IH. destruct Ha as (v & -> & Hv). unfold byte in Hb.
  exists (Z.lor (usize (Z.shiftl v 8)) b). split; [done|]. apply Z.lor_nonneg.
  split; [|lia]. apply Z.mod_pos_bound. done.
Qed.

Lemma decode_length_safe bs : Forall byte bs ->
  no_panic (decode_length bs) /\ forall v, decode_length bs = Ok v -> 0 <= v.
Proof.
  intros Hb. unfold decode_length, no_panic. destruct bs as [|b t]; [done|].
  case_match; [done|].
  destruct (fold_length_ok (b :: t) (Ok 0)) as (v & -> & Hv); [by exists 0|done|].
  split; [done|]. by intros ? [= <-].
Qed.

Lemma slice_safe (l : bytes) a b :
  0 <= a <= b -> b <= zlen l -> Forall byte l ->
  exists s, @slice Z RlpError l a b = Ok s /\ Forall byte s /\ zlen s = b - a.
Proof.
  intros Hab Hb Hl. rewrite slice_Ok by done. eexists; split; [done|]. split.
  - by apply Forall_take, Forall_drop.
  - unfold zlen in *. rewrite length_take, length_drop. lia.
Qed.

Lemma long_length_safe data from n : Forall byte data -> 0 <= from -> 0 <= n ->
  no_panic (long_length data from n) /\
  forall v, long_length data from n = Ok v -> 1 + n <= v /\ from + n <= zlen data.
Proof.
  intros Hd Hf Hn. unfold long_length, guard_err, no_panic.
  destruct (Z.ltb_spec (zlen data) (from + n)); cbn [mbind res_bind]; [done|].
  destruct (slice_safe data from (from + n)) as (f & -> & Hbf & _); [lia|done..|].
  cbn [mbind res_bind]. destruct (decode_length_safe f Hbf) as [Hnp Hv].
  destruct (decode_length f) as [v|e|]; [|done|done]. cbn [mbind res_bind].
  specialize (Hv v eq_refl). unfold checked_sum3.
  destruct (checked 64 (1 + n)) as [x|] eqn:Hx; [|done]. cbn [mbind option_bind].
  apply checked_Some in Hx as [-> _].
  destruct (checked 64 (1 + n + v)) as [y|] eqn:Hy; [|done].
  apply checked_Some in Hy as [-> _]. split; [done|]. intros ? [= <-]. lia.
Qed.

(** [item_length] keeps the item inside the slice, as its comment demands. *)
Lemma item_length_safe data pos : Forall byte data -> 0 <= pos ->
  no_panic (item_length data pos) /\
  forall n, item_length data pos = Ok n -> 1 <= n /\ pos + n <= zlen data.
Proof.
  intros Hd Hp. unfold item_length, guard_err.
  destruct (Z.leb_spec (zlen data) pos); cbn [mbind res_bind]; [done|].
  destruct (@index_Ok Z RlpError data pos) as (b & Hb & ->); [lia|]. cbn [mbind res_bind].
  apply list_elem_of_lookup_2, list_elem_of_In in Hb.
  rewrite List.Forall_forall in Hd. pose proof (Hd b Hb) as Hbyte. unfold byte in Hbyte.
  rewrite <-List.Forall_forall in Hd.
  match goal with |- context [mbind _ ?m] => assert (no_panic m /\ forall n, m = Ok n -> 1 <= n) as [Hnp Hn] end.
  { assert (forall k, 0 <= k -> no_panic (long_length data (pos + 1) k) /\
      forall n, long_length data (pos + 1) k = Ok n -> 1 <= n) as Hlong.
    { intros k Hk. destruct (long_length_safe data (pos + 1) k) as [Hs Hs']; [done|lia..|].
      split; [done|]. intros n [? ?]%Hs'. lia. }
    repeat case_match; bool_to_prop;
      solve [apply Hlong; lia | split; [done|intros ? [= <-]; lia]]. }
  match goal with |- context [mbind _ ?m] => destruct m as [n|e|]; [|done|done] end.
  cbn [mbind res_bind]. specialize (Hn n eq_refl).
  destruct (checked 64 (pos + n)) as [e|] eqn:He; [|done]. cbn [ok_or mbind res_bind].
  apply checked_Some in He as [-> _].
  destruct (Z.ltb_spec (zlen data) (pos + n)); cbn [mbind res_bind]; [done|].
  split; [done|]. intros ? [= <-]. lia.
Qed.

Lemma payload_safe data h t : data = h :: t -> Forall byte data ->
  (forall n, 0 <= n -> no_panic (short_payload data n) /\
    forall p r, short_payload data n = Ok (p, r) -> Forall byte p /\ zlen p < zlen data) /\
  (forall n, 0 <= n -> no_panic (long_payload data n) /\
    forall p r, long_payload data n = Ok (p, r) -> Forall byte p /\ zlen p < zlen data).
Proof.
  intros -> Hd. split; intros n Hn; unfold short_payload, long_payload, guard_err, no_panic.
  - destruct (Z.ltb_spec (zlen (h :: t)) (1 + n)); cbn [mbind res_bind]; [done|].
    destruct (slice_safe (h :: t) 1 (1 + n)) as (p & -> & Hp & Hl); [lia|done..|].
    destruct (slice_safe (h :: t) (1 + n) (zlen (h :: t))) as (r & -> & Hr & _); [lia|done..|].
    split; [done|]. intros ? ? [= <- <-]. split; [done|lia].
  - destruct (long_length_safe (h :: t) 1 n) as [Hnp Hv]; [done|lia..|].
    destruct (long_length (h :: t) 1 n) as [e|e|]; cbn [mbind res_bind]; [|done|done].
    specialize (Hv e eq_refl).
    destruct (Z.ltb_spec (zlen (h :: t)) e); cbn [mbind res_bind]; [done|].
    destruct (slice_safe (h :: t) (1 + n) e) as (p & -> & Hp & Hl); [lia|done..|].
    destruct (slice_safe (h :: t) e (zlen (h :: t))) as (r & -> & Hr & _); [lia|done..|].
    split; [done|]. intros ? ? [= <- <-]. split; [done|lia].
Qed.

Lemma list_payload_safe data : Forall byte data ->
  no_panic (list_payload data) /\
  forall p r, list_payload data = Ok (p, r) -> Forall byte p /\ (zlen p < zlen data \/ p = []).
Proof.
  intros Hd. unfold list_payload. destruct data as [|h t];
    [split; [done|intros ? ? [= <- _]; split; [done|by right]]|].
  destruct (payload_safe (h :: t) h t eq_refl Hd) as [Hs Hl].
  repeat case_match; bool_to_prop; [done|..].
  - destruct (Hs (h - 192)) as [? Hp]; [lia|]. split; [done|]. intros ? ? ?%Hp. tauto.
  - destruct (Hl (h - 247)) as [? Hp]; [lia|]. split; [done|]. intros ? ? ?%Hp. tauto.
Qed.

Lemma as_bytes_safe data : Forall byte data ->
  no_panic (as_bytes data) /\ forall d, as_bytes data = Ok d -> Forall byte d.
Proof.
  intros Hd. unfold as_bytes, split_payload. destruct data as [|h t]; [done|].
  destruct (payload_safe (h :: t) h t eq_refl Hd) as [Hs Hl].
  pose proof Hd as Hd'. apply Forall_cons_iff in Hd' as [Hh _]. unfold byte in Hh.
  repeat case_match; bool_to_prop.
  - pose proof (zlen_nonneg t).
    destruct (slice_safe (h :: t) 0 1) as (p & -> & Hp & _); [lia|rewrite zlen_cons; lia|done|].
    destruct (slice_safe (h :: t) 1 (zlen (h :: t))) as (r & -> & _);
      [rewrite zlen_cons; lia|lia|done|]. split; [done|]. by intros ? [= <-].
  - destruct (Hs (h - 128)) as [Hnp Hp]; [lia|]. unfold no_panic in *.
    destruct (short_payload (h :: t) (h - 128)) as [[p r]|e|]; try done.
    split; [done|]. intros d [= <-]. by destruct (Hp p r eq_refl).
  - destruct (Hl (h - 183)) as [Hnp Hp]; [lia|]. unfold no_panic in *.
    destruct (long_payload (h :: t) (h - 183)) as [[p r]|e|]; try done.
    split; [done|]. intros d [= <-]. by destruct (Hp p r eq_refl).
  - done.
Qed.

(** Loops over the items of a payload: [fuel] exceeds the bytes left. *)
Lemma count_items_safe fuel lst pos n : Forall byte lst -> 0 <= pos ->
  zlen lst - pos < Z.of_nat fuel -> (0 < fuel)%nat -> no_panic (count_items fuel lst pos n).
Proof.
  intros Hl. revert pos n. induction fuel as [|fuel IH]; intros pos n Hp Hf H0; [lia|]. simpl.
  destruct (Z.ltb_spec pos (zlen lst)); [|done].
  destruct (item_length_safe lst pos) as [Hnp Hv]; [done..|]. unfold no_panic in *.
  destruct (item_length lst pos) as [k|e|]; cbn [mbind res_bind]; [|done|done].
  specialize (Hv k eq_refl). apply IH; lia.
Qed.

Lemma at_loop_safe fuel lst n pos idx : Forall byte lst -> 0 <= pos ->
  zlen lst - pos < Z.of_nat fuel -> (0 < fuel)%nat ->
  no_panic (at_loop fuel lst n pos idx) /\
  forall d, at_loop fuel lst n pos idx = Ok d -> Forall byte d /\ 1 <= zlen d <= zlen lst.
Proof.
  intros Hl. revert pos idx. induction fuel as [|fuel IH]; intros pos idx Hp Hf H0; [lia|]. simpl.
  destruct (Z.ltb_spec pos (zlen lst)); [|done].
  destruct (item_length_safe lst pos) as [Hnp Hv]; [done..|]. unfold no_panic in *.
  destruct (item_length lst pos) as [k|e|]; cbn [mbind res_bind]; [|done|done].
  specialize (Hv k eq_refl). case_match; [|apply IH; lia].
  destruct (slice_safe lst pos (pos + k)) as (p & -> & Hp' & Hz); [lia|lia|done|].
  split; [done|]. intros ? [= <-]. split; [done|lia].
Qed.

Lemma rlp_at_safe data n : Forall byte data ->
  no_panic (rlp_at data n) /\
  forall d, rlp_at data n = Ok d -> Forall byte d /\ 1 <= zlen d < zlen data.
Proof.
  intros Hd. unfold rlp_at. destruct (list_payload_safe data Hd) as [Hnp Hp].
  unfold no_panic in *. destruct (list_payload data) as [[lst r]|e|]; [|done|done].
  specialize (Hp lst r eq_refl) as [Hp Hz]. cbn [mbind res_bind].
  destruct (at_loop_safe (S (length lst)) lst n 0 0) as [? Hat]; [done|lia|unfold zlen; lia|lia|].
  split; [done|]. intros d [? ?]%Hat. split; [done|].
  destruct Hz as [?| ->]; [lia|]. rewrite zlen_nil in *. lia.
Qed.

(** No input makes the decoder panic or loop: [as_bytes], [item_count],
    [at] and the typed [val_at] return a value or an [RlpError] on every byte
    string, and an item that [at] returns is a non-empty byte string. *)
Theorem rlp_decoder_total data n : Forall byte data ->
  no_panic (as_bytes data) /\ no_panic (item_count data) /\ no_panic (rlp_at data n) /\
  no_panic (val_at decode_vec data n) /\ no_panic (val_at decode_u64 data n) /\
  (forall d, rlp_at data n = Ok d -> Forall byte d /\ d <> []).
Proof.
  intros Hd. destruct (rlp_at_safe data n Hd) as [Hat Hd'].
  assert (no_panic (val_at decode_vec data n) /\ no_panic (val_at decode_u64 data n)) as [? ?].
  { unfold val_at, decode_vec, decode_u64, no_panic in *.
    destruct (rlp_at data n) as [d|e|]; [|done..]. cbn [mbind res_bind].
    destruct (as_bytes_safe d) as [Ha _]; [by apply Hd'|]. unfold no_panic in Ha.
    split; [done|]. destruct (as_bytes d) as [b|e|]; [|done..]. cbn [mbind res_bind].
    unfold guard_err. by destruct (8 <? zlen b). }
  split_and!; try done.
  - by apply as_bytes_safe.
  - unfold item_count. destruct data as [|h t]; [done|]. case_match; [done|].
    destruct (list_payload_safe (h :: t) Hd) as [Hnp Hp]. unfold no_panic in *.
    destruct (list_payload (h :: t)) as [[lst r]|e|]; [|done..].
    apply count_items_safe; [by eapply Hp|lia|unfold zlen; lia|lia].
  - intros d Hr. destruct (Hd' d Hr) as [? Hz]. split; [done|]. intros ->.
    rewrite zlen_nil in Hz. lia.
Qed.

Lemma rlp_decoder_total_witness :
  rlp_at [248; 255; 1] 0 = Err (UnexpectedEnd 257) /\ no_panic (rlp_at [248; 255; 1] 0).
Proof.
  split; [reflexivity|]. refine (proj1 (proj2 (proj2 (rlp_decoder_total [248; 255; 1] 0 _)))).
  repeat constructor; unfold byte; lia.
Defined.


(** ** Integers and canonicity *)

Lemma fold_u64_val b v : Forall byte b -> 0 <= v -> v * 256 ^ zlen b + be_val b < 2 ^ 64 ->
  foldl (fun v x => Z.lor (u64 (Z.shiftl v 8)) x) v b = v * 256 ^ zlen b + be_val b.
Proof.
  intros Hb. revert v. induction Hb as [|x t Hx Ht IH]; intros v Hv Hr.
  - unfold zlen. simpl. lia.
  - rewrite zlen_cons, pow256_succ in * by apply zlen_nonneg. cbn [foldl be_val] in *.
    pose proof (pow256_pos (zlen t) (zlen_nonneg t)). pose proof (be_val_bound t Ht).
    pose proof Hx as Hx'. unfold byte in Hx'.
    rewrite lor_shiftl_byte by (done || nia). rewrite IH by nia. ring.
Qed.

Lemma decode_u64_enc b : Forall byte b -> zlen b <= 8 -> decode_u64 (enc_str b) = Ok (be_val b).
Proof.
  intros Hb Hl. unfold decode_u64. destruct (as_bytes_enc b Hb) as [_ ->]; [lia|].
  cbn [mbind res_bind]. rewrite guard_err_false by (apply Z.ltb_ge; lia). cbn [mbind res_bind].
  rewrite fold_u64_val; [f_equal; lia|done|lia|]. pose proof (be_val_lt_64 b Hb Hl). lia.
Qed.

(** [u64] round trip: the encoding of any 64-bit integer decodes to it. *)
Theorem rlp_u64_roundtrip v : in_range 64 v ->
  exists e, encode_with encode_u64_into v = Ok e /\ decode_u64 e = Ok v.
Proof.
  intros Hv. unfold in_range in Hv. unfold encode_with, encode_u64_into.
  destruct (Z.eqb_spec v 0) as [->|Hne]; [by eexists|].
  destruct (minimal_bytes_spec v) as (b & t & Hm & _ & Hb & Hval & H8); [lia|].
  rewrite encode_string_push. eexists; split; [done|].
  cbn [push_bytes buf stream_new app]. rewrite Hm, decode_u64_enc by done. by f_equal.
Qed.

Lemma rlp_u64_roundtrip_witness :
  exists e, encode_with encode_u64_into (2 ^ 64 - 1) = Ok e /\ decode_u64 e = Ok (2 ^ 64 - 1).
Proof. apply rlp_u64_roundtrip. vm_compute. split; [discriminate|reflexivity]. Defined.


(** The decoder does not enforce canonical encodings, although
    [decode_length] rejects leading zeros to rule out two encodings of one
    value: a byte below 0x80 is also accepted behind a 0x81 header, a [u64]
    is accepted with leading zeros, and bytes after the item are ignored. *)
Theorem rlp_accepts_noncanonical b d junk :
  byte b -> b < 128 -> Forall byte d -> zlen d < 2 ^ 63 ->
  as_bytes [129; b] = as_bytes (enc_str [b]) /\ [129; b] <> enc_str [b] /\
  decode_u64 (enc_str [0; b]) = decode_u64 (enc_str [b]) /\
  as_bytes (enc_str d ++ junk) = Ok d.
Proof.
  intros Hb H128 Hd Hl. pose proof Hb as Hb'. unfold byte in Hb'.
  assert (Forall byte [b]) as Hb1 by by constructor.
  destruct (as_bytes_enc [b] Hb1) as [_ ->]; [done|].
  split_and!.
  - unfold as_bytes. cbn [split_payload]. change (129 <? 128) with false.
    change (129 <? 184) with true. cbv iota.
    by rewrite (short_payload_val 129 [b] [] : short_payload [129; b] (129 - 128) = _).
  - unfold enc_str, encode_string. by rewrite (proj2 (Z.ltb_lt b 128)).
  - assert (Forall byte [0; b]) by (constructor; [done|exact Hb1]).
    rewrite !decode_u64_enc by done. f_equal.
  - by apply as_bytes_enc_app.
Qed.

Lemma rlp_accepts_noncanonical_witness :
  as_bytes [129; 7] = Ok [7] /\ as_bytes (enc_str [7; 8] ++ [1]) = Ok [7; 8].
Proof.
  destruct (rlp_accepts_noncanonical 7 [7; 8] [1]) as (H1 & _ & _ & H4);
    [unfold byte; lia|lia|repeat constructor; unfold byte; lia|vm_compute; reflexivity|].
  split; [rewrite H1; reflexivity|exact H4].
Defined.
