(* ===== verification/Nibbles.v ===== *)
(** * Nibble paths (crates/zbx-trie/src/nibbles.rs)

    A [Nibbles] value is a shared buffer of nibbles and an offset into it.
    [view] is the sequence it denotes; [nibbles_refine] shows that every
    method computes a list function of the views, which is how the trie
    files use paths.  The hex-prefix encoding and its round trip are here. *)

From stdpp Require Import base tactics list numbers.
From Stdlib Require Import ZArith Lia.
From S2P Require Import Prelude Bytes.

Local Open Scope Z_scope.

Record Nibbles : Type := mkNibbles { inner : list Z; offset : nat }.

Definition view (n : Nibbles) : list Z := drop (offset n) (inner n).

Fixpoint nibbles_of (bs : bytes) : list Z :=
  match bs with
  | [] => []
  | b :: t => Z.shiftr b 4 :: Z.land b 15 :: nibbles_of t
  end.

Definition from_bytes (bs : bytes) : Nibbles := mkNibbles (nibbles_of bs) 0.

Definition len (n : Nibbles) : nat := (length (inner n) - offset n)%nat.
Definition is_empty (n : Nibbles) : bool := Nat.eqb (len n) 0.

(** [at] indexes the buffer and panics past its end. *)
Definition nib_at {E} (n : Nibbles) (i : nat) : res E Z :=
  unwrap (inner n !! (offset n + i)%nat).

Definition nib_slice (n : Nibbles) (i : nat) : Nibbles :=
  mkNibbles (inner n) (offset n + i).

(** [(0..max).take_while(|&i| self.at(i) == other.at(i)).count()] *)
Fixpoint count_equal (n m : Nibbles) (i todo : nat) : nat :=
  match todo with
  | O => O
  | S todo =>
    match inner n !! (offset n + i)%nat, inner m !! (offset m + i)%nat with
    | Some a, Some b => if a =? b then S (count_equal n m (S i) todo) else O
    | _, _ => O
    end
  end.
Definition common_prefix_len (n m : Nibbles) : nat :=
  count_equal n m 0 (Nat.min (len n) (len m)).

Definition nib_empty : Nibbles := mkNibbles [] 0.
Definition nib_single (x : Z) : Nibbles := mkNibbles [Z.land x 15] 0.

(** [sub] slices [inner[from..to]] and panics when [from > to]. *)
Definition nib_sub {E} (n : Nibbles) (start l : nat) : res E Nibbles :=
  let from := (offset n + start)%nat in
  let to := Nat.min (from + l) (length (inner n)) in
  if Nat.leb from to
  then Ok (mkNibbles (take (to - from) (drop from (inner n))) 0)
  else Panic.

(** The two copying loops of [concat], reading each operand through [at]. *)
Fixpoint copy_from (n : Nibbles) (i todo : nat) : list Z :=
  match todo with
  | O => []
  | S todo =>
    match inner n !! (offset n + i)%nat with
    | Some x => x :: copy_from n (S i) todo
    | None => []
    end
  end.
Definition nib_concat (n m : Nibbles) : Nibbles :=
  mkNibbles (copy_from n 0 (len n) ++ copy_from m 0 (len m)) 0.

(** The pairing loop [step_by(2)] over a path of even length. *)
Fixpoint pack (l : list Z) : bytes :=
  match l with
  | a :: b :: t => Z.lor (u8 (Z.shiftl a 4)) b :: pack t
  | _ => []
  end.

Definition hp_encode (leaf : bool) (p : list Z) : bytes :=
  let odd := Nat.odd (length p) in
  let flag := Z.lor (if leaf then 32 else 0) (if odd then 16 else 0) in
  match p with
  | a :: t => if odd then Z.lor flag a :: pack t else flag :: pack p
  | [] => [flag]
  end.
Definition encode_compact (n : Nibbles) (leaf : bool) : bytes :=
  hp_encode leaf (copy_from n 0 (len n)).

(** [decode_compact] asserts that its input is not empty. *)
Definition hp_decode {E} (encoded : bytes) : res E (list Z * bool) :=
  match encoded with
  | [] => Panic
  | flag :: rest =>
    let leaf := negb (Z.land flag 32 =? 0) in
    let odd := negb (Z.land flag 16 =? 0) in
    Ok ((if odd then [Z.land flag 15] else []) ++ nibbles_of rest, leaf)
  end.
Definition decode_compact {E} (encoded : bytes) : res E (Nibbles * bool) :=
  '(p, leaf) ← hp_decode encoded; mret (mkNibbles p 0, leaf).

(** ** The list functions behind the methods *)

Definition nib (x : Z) : Prop := 0 <= x < 16.
Abbreviation path := (list Z).

(** Length of the longest common prefix. *)
Fixpoint cpl (p q : path) : nat :=
  match p, q with
  | a :: p, b :: q => if a =? b then S (cpl p q) else O
  | _, _ => O
  end.

(** [sub] in bounds. *)
Definition psub (p : path) (start l : nat) : path := take l (drop start p).

Lemma view_len n : len n = length (view n).
Proof. unfold len, view. by rewrite length_drop. Qed.

Lemma view_lookup n i : inner n !! (offset n + i)%nat = view n !! i.
Proof. unfold view. by rewrite lookup_drop. Qed.

Lemma count_equal_cpl n m i k :
  (i + k = Nat.min (len n) (len m))%nat ->
  count_equal n m i k = cpl (drop i (view n)) (drop i (view m)).
Proof.
  rewrite !view_len. revert i. induction k as [|k IH]; intros i Hk; simpl.
  - destruct (Nat.le_ge_cases (length (view n)) (length (view m))).
    + by rewrite (drop_ge (view n)) by lia.
    + rewrite (drop_ge (view m)) by lia. by destruct (drop i (view n)).
  - rewrite !view_lookup.
    destruct (lookup_lt_is_Some_2 (view n) i) as [a Ha]; [lia|].
    destruct (lookup_lt_is_Some_2 (view m) i) as [b Hb]; [lia|].
    rewrite Ha, Hb, (drop_S _ _ _ Ha), (drop_S _ _ _ Hb). simpl.
    case_match; [|done]. by rewrite IH by lia.
Qed.

Lemma copy_from_view n i k : (i + k = len n)%nat -> copy_from n i k = drop i (view n).
Proof.
  rewrite view_len. revert i. induction k as [|k IH]; intros i Hk; simpl.
  - by rewrite drop_ge by lia.
  - rewrite view_lookup. destruct (lookup_lt_is_Some_2 (view n) i) as [a Ha]; [lia|].
    rewrite Ha, (drop_S _ _ _ Ha). f_equal. apply IH. lia.
Qed.

(** Every method of [Nibbles] computes the list function of the sequences
    the operands denote, whatever the sharing and offsets: [slice] drops,
    [concat] appends, [sub] takes a sub-range (and panics only past the end),
    [common_prefix_len] is the longest common prefix, and the hex-prefix
    encoder sees the sequence only. *)
Theorem nibbles_refine {E} n m :
  len n = length (view n) /\
  (forall i, @nib_at E n i = unwrap (view n !! i)) /\
  (forall i, view (nib_slice n i) = drop i (view n)) /\
  common_prefix_len n m = cpl (view n) (view m) /\
  view (nib_concat n m) = view n ++ view m /\
  (forall a l, (offset n + a <= length (inner n))%nat ->
     exists s, @nib_sub E n a l = Ok s /\ view s = psub (view n) a l) /\
  (forall a l, (length (inner n) < offset n + a)%nat -> @nib_sub E n a l = Panic) /\
  (forall leaf, encode_compact n leaf = hp_encode leaf (view n)).
Proof.
  split_and!.
  - apply view_len.
  - intros i. unfold nib_at. by rewrite view_lookup.
  - intros i. unfold view, nib_slice. simpl. by rewrite drop_drop.
  - unfold common_prefix_len. by rewrite count_equal_cpl by done.
  - unfold nib_concat, view at 1. simpl. by rewrite !copy_from_view by done.
  - intros a l Ha. unfold nib_sub. rewrite (proj2 (Nat.leb_le _ _)) by lia.
    eexists; split; [done|]. unfold view, psub. simpl. rewrite drop_drop.
    destruct (Nat.le_ge_cases (offset n + a + l) (length (inner n))).
    + rewrite Nat.min_l by lia. by replace (offset n + a + l - (offset n + a))%nat with l by lia.
    + rewrite (take_ge _ l) by (rewrite length_drop; lia).
      by rewrite take_ge by (rewrite length_drop; lia).
  - intros a l Ha. unfold nib_sub. by rewrite (proj2 (Nat.leb_gt _ _)) by lia.
  - intros leaf. unfold encode_compact. by rewrite copy_from_view by done.
Qed.

Lemma nibbles_refine_witness :
  let n := nib_slice (from_bytes [171; 205]) 1 in
  view n = [11; 12; 13] /\ exists s, @nib_sub unit n 1 2 = Ok s /\ view s = [12; 13].
Proof.
  split; [reflexivity|].
  destruct (@nibbles_refine unit (nib_slice (from_bytes [171; 205]) 1) nib_empty)
    as (_ & _ & _ & _ & _ & Hsub & _).
  apply (Hsub 1%nat 2%nat). vm_compute. lia.
Defined.

(** ** Nibbles of bytes *)

Lemma nibbles_of_nib bs : Forall byte bs -> Forall nib (nibbles_of bs).
Proof.
  induction 1 as [|b t Hb Ht IH]; simpl; [constructor|]. unfold byte in Hb.
  constructor; [|constructor; [|done]]; unfold nib.
  - rewrite Z.shiftr_div_pow2 by lia. change (2 ^ 4) with 16.
    pose proof (Z.div_le_lower_bound b 16 0). pose proof (Z.div_lt_upper_bound b 16 16). lia.
  - change 15 with (Z.ones 4). rewrite Z.land_ones by lia. apply Z.mod_pos_bound. done.
Qed.

Lemma length_nibbles_of bs : length (nibbles_of bs) = (2 * length bs)%nat.
Proof. induction bs; simpl in *; lia. Qed.

Lemma nibbles_of_inj a b : nibbles_of a = nibbles_of b -> a = b.
Proof.
  revert b. induction a as [|x a IH]; intros [|y b]; simpl; try done.
  intros [= Hs Hl Ht]. f_equal; [|by apply IH].
  rewrite (Z.div_mod x 16), (Z.div_mod y 16) by lia.
  rewrite !Z.shiftr_div_pow2 in Hs by lia. change (2 ^ 4) with 16 in Hs.
  change 15 with (Z.ones 4) in Hl. rewrite !Z.land_ones in Hl by lia.
  change (2 ^ 4) with 16 in Hl. congruence.
Qed.

(** ** Hex-prefix round trip *)

Lemma nib_cases a : nib a -> In a [0;1;2;3;4;5;6;7;8;9;10;11;12;13;14;15].
Proof. unfold nib. simpl. lia. Qed.
Ltac nib_enum H :=
  apply nib_cases in H; simpl in H; repeat destruct H as [<-|H]; try contradiction.

Lemma hi_lo a b : nib a -> nib b ->
  Z.shiftr (Z.lor (u8 (Z.shiftl a 4)) b) 4 = a /\
  Z.land (Z.lor (u8 (Z.shiftl a 4)) b) 15 = b /\
  byte (Z.lor (u8 (Z.shiftl a 4)) b).
Proof. intros Ha Hb. nib_enum Ha; nib_enum Hb; split_and!; (reflexivity || done). Qed.

Lemma pack_nibbles p : Nat.Even (length p) -> Forall nib p ->
  nibbles_of (pack p) = p /\ Forall byte (pack p).
Proof.
  remember (length p) as k eqn:Hk. revert p Hk.
  induction k as [k IH] using lt_wf_ind. intros [|a [|b t]] Hk He Hp; simpl in *; subst.
  - by split.
  - destruct He as [x Hx]. lia.
  - apply Forall_cons_iff in Hp as [Ha Hp]. apply Forall_cons_iff in Hp as [Hb Ht].
    destruct (IH (length t)) with (p := t) as [H1 H2]; [lia|done| |done|].
    { destruct He as [x Hx]. exists (x - 1)%nat. lia. }
    destruct (hi_lo a b Ha Hb) as (-> & -> & ?). rewrite H1. split; [done|by constructor].
Qed.

Lemma hp_encode_bytes leaf p : Forall nib p ->
  Forall byte (hp_encode leaf p) /\ hp_encode leaf p <> [].
Proof.
  intros Hp. unfold hp_encode. destruct p as [|a t].
  { split; [|done]. constructor; [|done]. by destruct leaf. }
  destruct (Nat.odd (length (a :: t))) eqn:Ho.
  - apply Forall_cons_iff in Hp as [Ha Ht]. split; [|done].
    constructor; [|apply pack_nibbles; [|done]].
    + destruct leaf; nib_enum Ha; done.
    + apply Nat.odd_spec in Ho as [x Hx]. simpl in Hx. exists x. lia.
  - split; [|done]. constructor; [by destruct leaf|].
    apply pack_nibbles; [|done]. apply Nat.even_spec. by rewrite <-Nat.negb_odd, Ho.
Qed.

Lemma hp_decode_encode {E} leaf p : Forall nib p ->
  @hp_decode E (hp_encode leaf p) = Ok (p, leaf).
Proof.
  intros Hp. unfold hp_encode. destruct p as [|a t]; [by destruct leaf|].
  destruct (Nat.odd (length (a :: t))) eqn:Ho.
  - apply Forall_cons_iff in Hp as [Ha Ht]. unfold hp_decode.
    destruct (pack_nibbles t) as [-> _]; [|done|].
    { apply Nat.odd_spec in Ho as [x Hx]. simpl in Hx. exists x. simpl in *. lia. }
    destruct leaf; nib_enum Ha; reflexivity.
  - unfold hp_decode. destruct (pack_nibbles (a :: t)) as [-> _]; [|done|by destruct leaf].
    apply Nat.even_spec. by rewrite <-Nat.negb_odd, Ho.
Qed.

(** Hex-prefix round trip: decoding the compact form of any path gives
    the path and its leaf flag, for odd and even lengths. *)
Theorem hp_roundtrip {E} leaf p : Forall nib p ->
  @hp_decode E (hp_encode leaf p) = Ok (p, leaf).
Proof. apply hp_decode_encode. Qed.

Lemma hp_roundtrip_witness : @hp_decode unit (hp_encode true [5; 10; 3]) = Ok ([5; 10; 3], true).
Proof. apply hp_roundtrip. repeat constructor; unfold nib; lia. Defined.

(** ** Common prefixes *)

Lemma cpl_le_l p q : (cpl p q <= length p)%nat.
Proof. revert q. induction p as [|a p IH]; intros [|b q]; simpl; try lia.
  case_match; [specialize (IH q)|]; lia. Qed.

Lemma cpl_comm p q : cpl p q = cpl q p.
Proof. revert q. induction p as [|a p IH]; intros [|b q]; simpl; try done.
  rewrite Z.eqb_sym. case_match; [|done]. by rewrite IH. Qed.

Lemma cpl_le_r p q : (cpl p q <= length q)%nat.
Proof. rewrite cpl_comm. apply cpl_le_l. Qed.

Lemma cpl_take p q : take (cpl p q) p = take (cpl p q) q.
Proof.
  revert q. induction p as [|a p IH]; intros [|b q]; simpl; try done.
  destruct (Z.eqb_spec a b) as [->|]; simpl; [|done]. by rewrite IH.
Qed.

(** At the divergence point the next nibbles differ. *)
Lemma cpl_diverge p q a b :
  p !! cpl p q = Some a -> q !! cpl p q = Some b -> a <> b.
Proof.
  revert q. induction p as [|x p IH]; intros [|y q]; simpl; try done.
  destruct (Z.eqb_spec x y) as [->|]; simpl; [apply IH|]. congruence.
Qed.

Lemma cpl_full p q : cpl p q = length p -> exists r, q = p ++ r.
Proof.
  intros H. exists (drop (length p) q). rewrite <-(take_drop (length p) q) at 1.
  f_equal. rewrite <-H, <-cpl_take, H. by apply take_ge.
Qed.

Lemma cpl_app p r : cpl p (p ++ r) = length p.
Proof. induction p as [|a p IH]; simpl; [done|]. by rewrite Z.eqb_refl, IH. Qed.
