(* ===== verification/TrieNode.v ===== *)
(** * Trie nodes (crates/zbx-trie/src/node.rs, error.rs)

    The four node kinds, their RLP encoding and its decoder, with the inline
    children that Yellow Paper appendix D embeds in their parent.  A partial
    path is the list of its nibbles (Nibbles.v, [nibbles_refine]). *)

From stdpp Require Import base tactics list numbers.
From Stdlib Require Import ZArith Lia.
From S2P Require Import Prelude Bytes Rlp Nibbles.

Set Warnings "-register-all".
Local Open Scope Z_scope.

Abbreviation H256 := (list Z).

(** The texts of [TrieError::RlpDecode], by what they report. *)
Inductive decode_msg : Type :=
| OfRlp (e : RlpError)
| ExtensionChildLength (n : Z)
| BranchSlotLength (i : nat) (n : Z)
| UnexpectedItemCount (n : Z).

Inductive TrieError : Type :=
| MissingNode (h : H256)
| RlpDecode (m : decode_msg)
| RlpEncode
| InvalidProof
| KeyNotFound
| Database
| Inconsistent.

Inductive TrieNode : Type :=
| TEmpty
| Leaf (partial : path) (value : bytes)
| Extension (partial : path) (child : NodeRef)
| Branch (children : list NodeRef) (value : option bytes)
with NodeRef : Type :=
| RHash (h : H256)
| RInline (n : TrieNode)
| REmpty.

(** [s.out()] for a stream whose one open list was opened by [new_list]; the
    call never fails ([out_open_list]). *)
Definition finish (s : RlpStream) : bytes :=
  match out s with Ok b => b | _ => [] end.

(** ** TrieNode::encode *)

Fixpoint encode (n : TrieNode) : bytes :=
  match n with
  | TEmpty => [128]
  | Leaf partial value =>
    finish (append value (append (hp_encode true partial) stream_new_list))
  | Extension partial child =>
    finish (encode_ref child (append (hp_encode false partial) stream_new_list))
  | Branch children value =>
    let s := (fix go cs s := match cs with
                             | [] => s
                             | c :: cs => go cs (encode_ref c s)
                             end) children stream_new_list in
    finish (match value with Some v => append v s | None => append [] s end)
  end
with encode_ref (c : NodeRef) (s : RlpStream) : RlpStream :=
  match c with
  | RHash h => append h s
  | RInline n => append_raw (encode n) s
  | REmpty => append [] s
  end.

(** ** TrieNode::decode *)

Definition rlp_err {A} (r : res RlpError A) : res TrieError A :=
  map_err (fun e => RlpDecode (OfRlp e)) r.

(** A child slot: an inline list, an empty string, or a 32-byte hash. *)
Definition decode_child (dec : bytes -> res TrieError TrieNode) (bad_len : Z -> decode_msg)
    (child_rlp : bytes) : res TrieError NodeRef :=
  if is_list child_rlp then RInline <$> dec child_rlp
  else
    raw ← rlp_err (decode_vec child_rlp);
    if Nat.eqb (length raw) 0 then Ok REmpty
    else if zlen raw =? 32 then Ok (RHash raw)
    else Err (RlpDecode (bad_len (zlen raw))).

(** The loop [for i in 0..16] filling [children]. *)
Fixpoint decode_slots (dec : bytes -> res TrieError TrieNode) (bytes_ : bytes)
    (i todo : nat) : res TrieError (list NodeRef) :=
  match todo with
  | O => Ok []
  | S todo =>
    child_rlp ← rlp_err (rlp_at bytes_ (Z.of_nat i));
    c ← decode_child dec (BranchSlotLength i) child_rlp;
    cs ← decode_slots dec bytes_ (S i) todo;
    mret (c :: cs)
  end.

(** [fuel] bounds the nesting of inline nodes; an inline node is a strict
    part of its parent, so the length of the input is enough
    ([decode_fuel_enough]). *)
Fixpoint decode_fuel (fuel : nat) (bs : bytes) : res TrieError TrieNode :=
  match fuel with
  | O => Panic
  | S fuel =>
    count ← rlp_err (item_count bs);
    if count =? 0 then Ok TEmpty
    else if count =? 2 then
      path_bytes ← rlp_err (val_at decode_vec bs 0);
      '(partial, is_leaf) ← hp_decode path_bytes;
      if (is_leaf : bool) then
        value ← rlp_err (val_at decode_vec bs 1);
        Ok (Leaf partial value)
      else
        child_rlp ← rlp_err (rlp_at bs 1);
        child ← decode_child (decode_fuel fuel) ExtensionChildLength child_rlp;
        Ok (Extension partial child)
    else if count =? 17 then
      children ← decode_slots (decode_fuel fuel) bs 0 16;
      val_bytes ← rlp_err (val_at decode_vec bs 16);
      Ok (Branch children (if Nat.eqb (length val_bytes) 0 then None else Some val_bytes))
    else Err (RlpDecode (UnexpectedItemCount count))
  end.

Definition decode (bs : bytes) : res TrieError TrieNode := decode_fuel (S (length bs)) bs.

(** ** Encoding as an RLP item *)

Fixpoint item_of (n : TrieNode) : item :=
  match n with
  | TEmpty => Str []
  | Leaf p v => Lst [Str (hp_encode true p); Str v]
  | Extension p c => Lst [Str (hp_encode false p); item_of_ref c]
  | Branch cs v =>
    Lst ((fix go cs := match cs with
                       | [] => []
                       | c :: cs => item_of_ref c :: go cs
                       end) cs ++ [Str (default [] v)])
  end
with item_of_ref (c : NodeRef) : item :=
  match c with
  | RHash h => Str h
  | RInline n => item_of n
  | REmpty => Str []
  end.

(** Nodes that can be stored: paths of nibbles, byte-string values, 16
    children, hashes of 32 bytes, no inline empty node, no empty branch value
    (an empty value reads back as no value). *)
Inductive node_shape : TrieNode -> Prop :=
| shape_leaf p v : Forall nib p -> Forall byte v -> node_shape (Leaf p v)
| shape_ext p c : Forall nib p -> ref_shape c -> node_shape (Extension p c)
| shape_branch cs v :
    length cs = 16%nat -> Forall ref_shape cs ->
    (forall b, v = Some b -> b <> [] /\ Forall byte b) ->
    node_shape (Branch cs v)
with ref_shape : NodeRef -> Prop :=
| shape_hash h : length h = 32%nat -> Forall byte h -> ref_shape (RHash h)
| shape_inline n : node_shape n -> ref_shape (RInline n)
| shape_empty : ref_shape REmpty.

Section node_ind.
Context (P : TrieNode -> Prop) (Q : NodeRef -> Prop)
  (HE : P TEmpty) (HL : forall p v, P (Leaf p v))
  (HX : forall p c, Q c -> P (Extension p c))
  (HB : forall cs v, Forall Q cs -> P (Branch cs v))
  (QH : forall h, Q (RHash h)) (QI : forall n, P n -> Q (RInline n)) (QE : Q REmpty).
Fixpoint node_ind_nested (n : TrieNode) : P n :=
  match n with
  | TEmpty => HE
  | Leaf p v => HL p v
  | Extension p c => HX p c (ref_ind_nested c)
  | Branch cs v => HB cs v ((fix go cs := match cs return Forall Q cs with
      | [] => Forall_nil_2 Q
      | c :: t => Forall_cons_2 Q c t (ref_ind_nested c) (go t)
      end) cs)
  end
with ref_ind_nested (c : NodeRef) : Q c :=
  match c with
  | RHash h => QH h
  | RInline n => QI n (node_ind_nested n)
  | REmpty => QE
  end.
End node_ind.

Definition items_of (cs : list NodeRef) : list item := map item_of_ref cs.

Lemma item_of_branch cs v :
  item_of (Branch cs v) = Lst (items_of cs ++ [Str (default [] v)]).
Proof. reflexivity. Qed.

Lemma node_item_bytes n : node_shape n -> item_bytes (item_of n).
Proof.
  revert n.
  apply (node_ind_nested (fun n => node_shape n -> item_bytes (item_of n))
           (fun c => ref_shape c -> item_bytes (item_of_ref c))).
  - inversion 1.
  - intros p v H. inversion H; subst. simpl. constructor.
    apply Forall_cons_2; [constructor; by apply hp_encode_bytes|].
    apply Forall_cons_2; [by constructor|constructor].
  - intros p c IH H. inversion H; subst. simpl. constructor.
    apply Forall_cons_2; [constructor; by apply hp_encode_bytes|].
    apply Forall_cons_2; [by apply IH|constructor].
  - intros cs v IH H. inversion H as [| |? ? Hl Hcs Hv]; subst. rewrite item_of_branch.
    constructor. apply Forall_app. split.
    + unfold items_of. apply List.Forall_map. apply List.Forall_forall. intros c Hc.
      rewrite List.Forall_forall in IH. rewrite List.Forall_forall in Hcs. by apply IH, Hcs.
    + apply Forall_cons_2; [constructor|constructor].
      destruct v as [b|]; [|constructor]. by apply (Hv b).
  - intros h H. inversion H; subst. by constructor.
  - intros n IH H. inversion H; subst. by apply IH.
  - intros _. by constructor.
Qed.

(** ** The encoder emits the item *)

Definition node_fits (n : TrieNode) : Prop := zlen (enc (item_of n)) < 2 ^ 63.

Lemma fits_lst l : zlen (enc (Lst l)) < 2 ^ 63 -> zlen (concat (map enc l)) < 2 ^ 63.
Proof. simpl. intros H. pose proof (zlen_enc_lst_ge (concat (map enc l))). lia. Qed.

Lemma fits_in l it : zlen (enc (Lst l)) < 2 ^ 63 -> In it l -> zlen (enc it) < 2 ^ 63.
Proof.
  intros H Hin. apply fits_lst in H.
  pose proof (zlen_concat_in (enc it) (map enc l) (in_map enc l it Hin)). lia.
Qed.

Lemma append_push d s : append d s = push_bytes (enc (Str d)) s.
Proof. apply encode_string_push. Qed.

Lemma finish_list l : zlen (enc (Lst l)) < 2 ^ 63 ->
  finish (push_bytes (concat (map enc l)) stream_new_list) = enc (Lst l).
Proof. intros H. unfold finish. by rewrite out_open_list by (by apply fits_lst). Qed.

Lemma encode_enc n : node_shape n -> node_fits n -> encode n = enc (item_of n).
Proof.
  revert n.
  apply (node_ind_nested
    (fun n => node_shape n -> node_fits n -> encode n = enc (item_of n))
    (fun c => ref_shape c -> zlen (enc (item_of_ref c)) < 2 ^ 63 ->
       forall s, encode_ref c s = push_bytes (enc (item_of_ref c)) s)).
  - inversion 1.
  - intros p v _ Hf. unfold node_fits in Hf. cbn [item_of] in *.
    rewrite <-finish_list by done. cbn [encode].
    rewrite !append_push, push_push. by rewrite <-(app_nil_r (enc (Str v))).
  - intros p c IH H Hf. inversion H; subst. unfold node_fits in Hf. cbn [item_of] in Hf.
    cbn [item_of]. rewrite <-finish_list by done. cbn [encode].
    rewrite append_push, IH, push_push; [|done|].
    + by rewrite <-(app_nil_r (enc (item_of_ref c))).
    + eapply fits_in; [exact Hf|]. right. by left.
  - intros cs v IH H Hf. inversion H as [| |? ? Hl Hcs Hv]; subst. unfold node_fits in *.
    rewrite item_of_branch in *. rewrite <-finish_list by done. cbn [encode]. f_equal.
    assert (forall s, (fix go cs s := match cs with [] => s | c :: cs => go cs (encode_ref c s) end) cs s
              = push_bytes (concat (map enc (items_of cs))) s) as Hgo.
    { assert (forall c, In c cs -> zlen (enc (item_of_ref c)) < 2 ^ 63) as Hfc.
      { intros c Hc. eapply fits_in; [exact Hf|]. apply in_app_iff. left. by apply in_map. }
      clear H Hf Hl Hv. induction IH as [|c cs Hc _ IHcs]; intros s.
      - unfold push_bytes. simpl. rewrite app_nil_r. by destruct s.
      - inversion Hcs; subst. rewrite Hc by (done || (apply Hfc; by left)).
        rewrite IHcs; [|done|intros; apply Hfc; by right].
        by rewrite push_push. }
    rewrite Hgo, map_app, concat_app. simpl concat. rewrite app_nil_r.
    destruct v as [b|]; rewrite append_push, push_push; done.
  - intros h _ _ s. apply append_push.
  - intros n IH H Hf s. inversion H; subst. cbn [encode_ref item_of_ref].
    unfold append_raw. by rewrite IH by done.
  - intros _ _ s. apply append_push.
Qed.

(** ** The decoder reads the item back *)

Lemma node_item_ok n : node_shape n -> node_fits n -> item_ok (item_of n).
Proof. intros Hs Hf. split; [by apply node_item_bytes|done]. Qed.

Lemma is_list_lst l : zlen (enc (Lst l)) < 2 ^ 63 -> is_list (enc (Lst l)) = true.
Proof. intros H. apply enc_lst_is_list. by apply fits_lst. Qed.

Lemma rlp_at_item l i it : item_ok (Lst l) -> l !! i = Some it ->
  rlp_at (enc (Lst l)) (Z.of_nat i) = Ok (enc it).
Proof.
  intros Hok Hi. destruct (item_ok_children l Hok) as [He Hc]. simpl enc at 1.
  rewrite rlp_at_enc by (done || lia). rewrite Nat2Z.id.
  change (map enc l) with (enc <$> l). by rewrite list_lookup_fmap, Hi.
Qed.

Lemma val_at_str l i d : item_ok (Lst l) -> l !! i = Some (Str d) ->
  val_at decode_vec (enc (Lst l)) (Z.of_nat i) = Ok d.
Proof.
  intros Hok Hi. unfold val_at. rewrite (rlp_at_item l i (Str d)) by done.
  cbn [mbind res_bind]. unfold decode_vec.
  assert (item_ok (Str d)) as [Hb Hl].
  { eapply item_ok_child; [done|]. apply list_elem_of_In. by eapply list_elem_of_lookup_2. }
  inversion Hb; subst. apply as_bytes_enc; [done|]. by apply zlen_str_lt.
Qed.

Lemma count_item l : item_ok (Lst l) -> item_count (enc (Lst l)) = Ok (Z.of_nat (length l)).
Proof.
  intros Hok. destruct (item_ok_children l Hok) as [He Hc]. simpl enc.
  rewrite item_count_enc by done. by rewrite length_map.
Qed.

(** What a child slot decodes to, given the decoder of inline nodes. *)
Lemma decode_child_ref dec bad c :
  ref_shape c -> zlen (enc (item_of_ref c)) < 2 ^ 63 ->
  (forall n, c = RInline n -> dec (enc (item_of n)) = Ok n) ->
  decode_child dec bad (enc (item_of_ref c)) = Ok c.
Proof.
  intros Hs Hf Hd. unfold decode_child. destruct Hs as [h Hl Hb|n Hn|].
  - cbn [item_of_ref enc] in *.
    destruct (as_bytes_enc h Hb) as [Hdat Has]; [by apply zlen_str_lt|].
    assert (is_list (enc_str h) = false) as ->.
    { unfold is_list, is_data in *. destruct (enc_str h); [done|].
      apply Z.ltb_lt in Hdat. by apply Z.leb_gt. }
    unfold decode_vec. rewrite Has. cbn [rlp_err map_err mbind res_bind].
    rewrite Hl. unfold zlen. by rewrite Hl.
  - cbn [item_of_ref] in *.
    assert (is_list (enc (item_of n)) = true) as ->.
    { destruct Hn; [by apply is_list_lst..|]. rewrite item_of_branch in *. by apply is_list_lst. }
    by rewrite (Hd n) by done.
  - done.
Qed.

Lemma decode_slots_refs dec l pre cs :
  item_ok (Lst l) -> (exists v, l = pre ++ items_of cs ++ [Str v]) ->
  Forall ref_shape cs ->
  (forall n, In (RInline n) cs -> dec (enc (item_of n)) = Ok n) ->
  decode_slots dec (enc (Lst l)) (length pre) (length cs) = Ok cs.
Proof.
  intros Hok [v ->]. revert pre Hok.
  induction cs as [|c cs IH]; intros pre Hok Hs Hd; [done|].
  inversion Hs; subst. cbn [length decode_slots].
  rewrite (rlp_at_item _ _ (item_of_ref c)); [|done|].
  2:{ rewrite lookup_app_r by lia. by rewrite Nat.sub_diag. }
  cbn [rlp_err map_err mbind res_bind].
  rewrite decode_child_ref; [|done| |intros n ->; apply Hd; by left].
  2:{ destruct Hok as [_ Hf]. eapply fits_in; [exact Hf|].
      apply in_app_iff. right. by left. }
  cbn [mbind res_bind].
  assert (pre ++ items_of (c :: cs) ++ [Str v] =
          (pre ++ [item_of_ref c]) ++ items_of cs ++ [Str v]) as Heq
    by (by rewrite <-app_assoc).
  rewrite Heq in *. replace (S (length pre)) with (length (pre ++ [item_of_ref c]))
    by (rewrite length_app; simpl; lia).
  rewrite IH; [done|done|done|]. intros n Hn. apply Hd. by right.
Qed.

Lemma zlen_enc_child l it : In it l -> zlen (enc it) < zlen (enc (Lst l)).
Proof.
  intros Hin. pose proof (zlen_concat_in (enc it) (map enc l) (in_map enc l it Hin)).
  simpl enc. unfold enc_lst. rewrite zlen_app.
  assert (0 < zlen (list_prefix (zlen (concat (map enc l))))); [|lia].
  unfold list_prefix. case_match; simpl; autorewrite with zlen;
    try pose proof (zlen_nonneg (minimal_bytes (zlen (concat (map enc l))))); unfold zlen; simpl; lia.
Qed.

#[local] Arguments val_at : simpl never.
#[local] Arguments rlp_at : simpl never.
#[local] Arguments hp_decode : simpl never.
#[local] Arguments enc : simpl never.
#[local] Arguments decode_child : simpl never.

Lemma length_lt_zlen {A} (a b : list A) : zlen a < zlen b -> (length a < length b)%nat.
Proof. unfold zlen. lia. Qed.

Lemma decode_fuel_item n : node_shape n -> node_fits n -> forall fuel,
  (length (enc (item_of n)) < fuel)%nat -> decode_fuel fuel (enc (item_of n)) = Ok n.
Proof.
  revert n.
  apply (node_ind_nested
    (fun n => node_shape n -> node_fits n -> forall fuel,
       (length (enc (item_of n)) < fuel)%nat -> decode_fuel fuel (enc (item_of n)) = Ok n)
    (fun c => forall n, c = RInline n -> node_shape n -> node_fits n -> forall fuel,
       (length (enc (item_of n)) < fuel)%nat -> decode_fuel fuel (enc (item_of n)) = Ok n)).
  - inversion 1.
  - intros p v Hs Hf [|fuel] Hfuel; [lia|]. pose proof (node_item_ok _ Hs Hf) as Hok.
    inversion Hs; subst. cbn [item_of] in *. cbn [decode_fuel].
    rewrite count_item by done. cbn.
    rewrite (val_at_str _ 0 (hp_encode true p) Hok eq_refl : val_at _ _ 0 = _). cbn.
    rewrite hp_decode_encode by done. cbn.
    by rewrite (val_at_str _ 1 v Hok eq_refl : val_at _ _ 1 = _).
  - intros p c IH Hs Hf [|fuel] Hfuel; [lia|]. pose proof (node_item_ok _ Hs Hf) as Hok.
    inversion Hs; subst. cbn [item_of] in *. cbn [decode_fuel].
    rewrite count_item by done. cbn.
    rewrite (val_at_str _ 0 (hp_encode false p) Hok eq_refl : val_at _ _ 0 = _). cbn.
    rewrite hp_decode_encode by done. cbn.
    rewrite (rlp_at_item _ 1 (item_of_ref c) Hok eq_refl : rlp_at _ 1 = _). cbn.
    assert (In (item_of_ref c) [Str (hp_encode false p); item_of_ref c]) as Hin by (right; by left).
    rewrite decode_child_ref; [done|done|by eapply fits_in|].
    intros n ->. cbn [item_of_ref] in *. apply IH; [done|by inversion H2|by eapply fits_in|].
    pose proof (length_lt_zlen _ _ (zlen_enc_child _ _ Hin)). lia.
  - intros cs v IH Hs Hf [|fuel] Hfuel; [lia|]. pose proof (node_item_ok _ Hs Hf) as Hok.
    inversion Hs as [| |? ? Hl Hcs Hv]; subst. unfold node_fits in Hf.
    rewrite item_of_branch in *. cbn [decode_fuel]. rewrite count_item by done.
    assert (length (items_of cs) = 16%nat) as Hil by (unfold items_of; by rewrite length_map).
    rewrite length_app, Hil. cbn -[decode_slots].
    pose proof (decode_slots_refs (decode_fuel fuel) _ [] cs Hok) as Hds.
    rewrite Hl in Hds. cbn [length] in Hds. rewrite Hds; [|by eexists|done|].
    2:{ intros n Hn. assert (In (item_of n) (items_of cs)) as Hin
          by (apply (in_map item_of_ref) in Hn; done).
        assert (In (item_of n) (items_of cs ++ [Str (default [] v)])) as Hin'
          by (apply in_app_iff; by left).
        rewrite List.Forall_forall in IH, Hcs. apply (IH (RInline n)); [done|done| | |].
        - specialize (Hcs _ Hn). by inversion Hcs.
        - by eapply fits_in.
        - pose proof (length_lt_zlen _ _ (zlen_enc_child _ _ Hin')). lia. }
    cbn -[decode_slots].
    rewrite (val_at_str _ 16 (default [] v) Hok : _ -> val_at _ _ 16 = _).
    + cbn. destruct v as [b|]; [|done]. cbn. destruct (Hv b eq_refl) as [Hne _].
      by destruct b.
    + rewrite lookup_app_r by lia. by rewrite Hil.
  - done.
  - intros n IH ? [= <-]. exact IH.
  - done.
Qed.

Lemma decode_encode n : node_shape n -> node_fits n -> decode (encode n) = Ok n.
Proof. intros Hs Hf. rewrite encode_enc by done. apply decode_fuel_item; [done..|lia]. Qed.

(** Node round trip: decoding the encoding of a node gives the node back,
    inline children included; the encoder emits the RLP list the yellow paper
    prescribes. *)
Theorem node_roundtrip n : node_shape n -> node_fits n ->
  decode (encode n) = Ok n /\ encode n = enc (item_of n).
Proof.
  intros Hs Hf. rewrite encode_enc by done. split; [|done].
  apply decode_fuel_item; [done..|lia].
Qed.

Lemma node_roundtrip_witness :
  decode (encode (Branch (RInline (Leaf [1; 2] [7]) :: replicate 15 REmpty) (Some [9]))) =
    Ok (Branch (RInline (Leaf [1; 2] [7]) :: replicate 15 REmpty) (Some [9])).
Proof.
  refine (proj1 (node_roundtrip _ _ _)).
  - constructor; [done| |].
    + constructor; [constructor; constructor|].
      * repeat constructor; unfold nib; lia.
      * repeat constructor; unfold byte; lia.
      * apply Forall_replicate. constructor.
    + intros b [= <-]. split; [done|]. repeat constructor; unfold byte; lia.
  - vm_compute. done.
Defined.

(** ** The decoder's fuel *)

Lemma decode_slots_ext d1 d2 bs i k :
  (forall c, (exists j, rlp_at bs j = Ok c) -> d1 c = d2 c) ->
  decode_slots d1 bs i k = decode_slots d2 bs i k.
Proof.
  intros Hd. revert i. induction k as [|k IH]; intros i; [done|]. cbn [decode_slots].
  destruct (rlp_at bs (Z.of_nat i)) as [c|e|] eqn:Hc; cbn [rlp_err map_err mbind res_bind];
    [|done..]. unfold decode_child. rewrite (Hd c) by eauto. by rewrite IH.
Qed.

(** The decoder only recurses into strict parts of its input, so any fuel
    above the input's length gives the same answer: running out of fuel is
    not a behaviour of [decode]. *)
Lemma decode_fuel_enough bs : Forall byte bs -> forall f1 f2,
  (length bs < f1)%nat -> (length bs < f2)%nat -> decode_fuel f1 bs = decode_fuel f2 bs.
Proof.
  remember (length bs) as k eqn:Hk. revert bs Hk.
  induction k as [k IH] using lt_wf_ind. intros bs -> Hb [|f1] [|f2] H1 H2; try lia.
  assert (forall c, (exists j, rlp_at bs j = Ok c) -> decode_fuel f1 c = decode_fuel f2 c) as Hd.
  { intros c [j Hj]. destruct (rlp_at_safe bs j Hb) as [_ Hs]. destruct (Hs c Hj) as [Hc Hz].
    pose proof (length_lt_zlen c bs ltac:(lia)). apply (IH (length c)); (done || lia). }
  cbn [decode_fuel]. destruct (item_count bs) as [n|e|]; cbn [rlp_err map_err mbind res_bind];
    [|done..]. case_match; [done|]. case_match.
  - destruct (val_at decode_vec bs 0); cbn; [|done..].
    destruct (hp_decode a) as [[p leaf]|e|]; cbn; [|done..]. destruct leaf; [done|].
    destruct (rlp_at bs 1) as [c|e|] eqn:Hc; cbn; [|done..].
    unfold decode_child. by rewrite (Hd c) by eauto.
  - case_match; [|done]. by rewrite (decode_slots_ext _ _ bs 0 16 Hd).
Qed.

(** [decode] returns a [Result] but can still panic: a two-item node
    whose path is the empty string (for instance the bytes c2 80 80) reaches
    the assertion of [decode_compact]. *)
Theorem decode_panics_on_empty_path v :
  Forall byte v -> zlen (enc (Lst [Str []; Str v])) < 2 ^ 63 ->
  decode (enc (Lst [Str []; Str v])) = Panic.
Proof.
  intros Hv Hf. assert (item_ok (Lst [Str []; Str v])) as Hok.
  { split; [|done]. constructor. apply Forall_cons_2; [constructor; constructor|].
    apply Forall_cons_2; [by constructor|constructor]. }
  unfold decode. cbn [decode_fuel]. rewrite count_item by done. cbn.
  by rewrite (val_at_str _ 0 [] Hok eq_refl : val_at _ _ 0 = _).
Qed.

Lemma decode_panics_on_empty_path_witness :
  enc (Lst [Str []; Str []]) = [194; 128; 128] /\ decode [194; 128; 128] = Panic.
Proof.
  split; [reflexivity|].
  exact (decode_panics_on_empty_path [] (Forall_nil_2 _) ltac:(vm_compute; reflexivity)).
Defined.
