(* ===== verification/Trie.v ===== *)
(** * The mutable Merkle Patricia trie (crates/zbx-trie/src/trie.rs)

    [MutableTrie] keeps a root hash, a backing [TrieDB] and a cache of dirty
    nodes.  Nodes shorter than 32 bytes are embedded in their parent, the
    others are stored under their hash.  The hash function (sha3's Keccak256)
    is a parameter.  TrieCorrect.v proves the operations against the map they
    denote. *)

From stdpp Require Import base tactics list gmap numbers.
From Stdlib Require Import ZArith Lia.
From S2P Require Import Prelude Bytes Rlp Nibbles TrieNode.

Local Open Scope Z_scope.

(** crates/zbx-trie/src/lib.rs *)
Definition EMPTY_ROOT : H256 :=
  [0x56; 0xe8; 0x1f; 0x17; 0x1b; 0xcc; 0x55; 0xa6;
   0xff; 0x83; 0x45; 0xe6; 0x92; 0xc0; 0xf8; 0x6e;
   0x5b; 0x48; 0xe0; 0x1b; 0x99; 0x6c; 0xad; 0xc0;
   0x01; 0x62; 0x2f; 0xb5; 0xe3; 0x63; 0xb4; 0x21].

(** ** The TrieDB trait and its in-memory implementation *)

Class TrieDB (DB : Type) : Type := {
  db_get : DB -> H256 -> res TrieError (option bytes);
  db_insert : DB -> H256 -> bytes -> res TrieError unit * DB;
  db_contains : DB -> H256 -> res TrieError bool
}.

(** What the trie relies on: a successful insert is read back and leaves the
    other keys alone. *)
Class TrieDBLaws (DB : Type) `{TrieDB DB} : Prop := {
  db_insert_ok : forall d h v, fst (db_insert d h v) = Ok tt;
  db_get_insert : forall d h v h',
    db_get (snd (db_insert d h v)) h' = if decide (h = h') then Ok (Some v) else db_get d h'
}.

Definition MemoryTrieDB : Type := gmap H256 bytes.

#[export] Instance MemoryTrieDB_db : TrieDB MemoryTrieDB := {
  db_get d h := Ok (d !! h);
  db_insert d h v := (Ok tt, <[h := v]> d);
  db_contains d h := Ok (bool_decide (is_Some (d !! h)))
}.

#[export] Instance MemoryTrieDB_laws : TrieDBLaws MemoryTrieDB.
Proof.
  split; [done|]. intros d h v h'. simpl.
  rewrite (lookup_insert (M := gmap H256) d h h' v : (<[h := v]> d : gmap H256 bytes) !! h' = _).
  by case_decide.
Qed.

(** ** Resolving a reference against a store of encodings *)

Definition store : Type := H256 -> option bytes.

Definition resolve_in (S : store) (r : NodeRef) : res TrieError TrieNode :=
  match r with
  | REmpty => Ok TEmpty
  | RInline n => Ok n
  | RHash h =>
    if bool_decide (h = EMPTY_ROOT) then Ok TEmpty
    else bs ← ok_or (S h) (MissingNode h); decode bs
  end.

Record MerkleProof : Type := mkProof {
  proof_key : bytes; proof_value : option bytes; proof_nodes : list bytes }.

Section trie.
Context (keccak : bytes -> H256) {DB : Type} `{TrieDB DB}.

(** [written] is a ghost: every encoding put in the cache so far.  No
    operation reads it; it states which encodings must not collide. *)
Record MutableTrie : Type := mkTrie {
  root : H256; db : DB; cache : gmap H256 bytes; written : list bytes }.

Definition trie_new (d : DB) : MutableTrie := mkTrie EMPTY_ROOT d ∅ [].
Definition from_root (r : H256) (d : DB) : MutableTrie := mkTrie r d ∅ [].

Abbreviation T := (M MutableTrie TrieError).

(** [cache.get(h).or_else(|| db.get(h).ok().flatten())] *)
Definition fetch (t : MutableTrie) : store := fun h =>
  match cache t !! h with
  | Some b => Some b
  | None => match db_get (db t) h with Ok o => o | _ => None end
  end.

Definition resolve (r : NodeRef) : T TrieNode := fun t => (resolve_in (fetch t) r, t).

Definition cache_insert (h : H256) (encoded : bytes) : T unit :=
  modify (fun t => mkTrie (root t) (db t) (<[h := encoded]> (cache t)) (encoded :: written t)).

Definition store_node (n : TrieNode) : T NodeRef :=
  let encoded := encode n in
  if zlen encoded <? 32 then mret (RInline n)
  else
    let hash := keccak encoded in
    _ ← cache_insert hash encoded;
    mret (RHash hash).

Definition commit_root (n : TrieNode) : T H256 :=
  match n with
  | TEmpty => mret EMPTY_ROOT
  | _ =>
    let encoded := encode n in
    let hash := keccak encoded in
    _ ← cache_insert hash encoded;
    mret hash
  end.

Definition set_root (h : H256) : T unit :=
  modify (fun t => mkTrie h (db t) (cache t) (written t)).

(** [children[i]] and [children[i] = r]: out of bounds panics. *)
Definition get_slot (cs : list NodeRef) (i : Z) : T NodeRef := lift (index cs i).
Definition set_slot (cs : list NodeRef) (i : Z) (r : NodeRef) : T (list NodeRef) :=
  if (0 <=? i) && (i <? zlen cs) then mret (<[Z.to_nat i := r]> cs) else lift Panic.
Definition no_children : list NodeRef := replicate 16 REmpty.

(** [path.at(i)] *)
Definition at_path (p : path) (i : nat) : T Z := lift (unwrap (p !! i)).

(** Place what is left of a path after the common prefix: in the branch's
    value when nothing is left, in a child leaf otherwise. *)
Definition place (p : path) (cp : nat) (value : bytes)
    (cs : list NodeRef) (bv : option bytes) : T (list NodeRef * option bytes) :=
  if Nat.eqb cp (length p) then mret (cs, Some value)
  else
    nibble ← at_path p cp;
    r ← store_node (Leaf (psub p (cp + 1) (length p - cp - 1)) value);
    cs' ← set_slot cs nibble r;
    mret (cs', bv).

(** The branch, under an extension when there is a common prefix. *)
Definition wrap_branch (key_remaining : path) (cp : nat)
    (cs : list NodeRef) (bv : option bytes) : T TrieNode :=
  let branch := Branch cs bv in
  if Nat.ltb 0 cp then
    r ← store_node branch;
    mret (Extension (psub key_remaining 0 cp) r)
  else mret branch.

(** [fuel] bounds the recursion depth: every recursive call consumes a
    nibble of the key when no extension is empty. *)
Fixpoint insert_node (fuel : nat) (node : TrieNode) (key : path) (depth : nat)
    (value : bytes) : T TrieNode :=
  match fuel with
  | O => lift Panic
  | S fuel =>
    let key_remaining := drop depth key in
    match node with
    | TEmpty => mret (Leaf key_remaining value)
    | Leaf partial old_val =>
      let cp := cpl key_remaining partial in
      if Nat.eqb cp (length partial) && Nat.eqb cp (length key_remaining)
      then mret (Leaf partial value)
      else
        '(cs, bv) ← place partial cp old_val no_children None;
        '(cs, bv) ← place key_remaining cp value cs bv;
        wrap_branch key_remaining cp cs bv
    | Extension partial child =>
      let cp := cpl key_remaining partial in
      if Nat.eqb cp (length partial) then
        child_node ← resolve child;
        new_child ← insert_node fuel child_node key (depth + cp) value;
        r ← store_node new_child;
        mret (Extension partial r)
      else
        ext_nibble ← at_path partial cp;
        let ext_remaining :=
          if Nat.ltb (cp + 1) (length partial)
          then psub partial (cp + 1) (length partial - cp - 1) else [] in
        ext_branch_child ←
          (if Nat.eqb (length ext_remaining) 0 then mret child
           else store_node (Extension ext_remaining child));
        cs ← set_slot no_children ext_nibble ext_branch_child;
        '(cs, bv) ← place key_remaining cp value cs None;
        wrap_branch key_remaining cp cs bv
    | Branch children branch_val =>
      if Nat.eqb depth (length key) then mret (Branch children (Some value))
      else
        idx ← at_path key depth;
        c ← get_slot children idx;
        child_node ← resolve c;
        new_child ← insert_node fuel child_node key (depth + 1) value;
        r ← store_node new_child;
        children' ← set_slot children idx r;
        mret (Branch children' branch_val)
    end
  end.

Definition key_fuel (key : path) : nat := S (S (length key)).

Definition insert (key : bytes) (value : bytes) : T unit :=
  let nibbles := nibbles_of key in
  r ← gets root;
  old_root ← (if bool_decide (r = EMPTY_ROOT) then mret TEmpty else resolve (RHash r));
  new_root_node ← insert_node (key_fuel nibbles) old_root nibbles 0 value;
  h ← commit_root new_root_node;
  set_root h.

Fixpoint get_node (fuel : nat) (S : store) (r : NodeRef) (key : path) (depth : nat)
    : res TrieError (option bytes) :=
  match fuel with
  | O => Panic
  | Datatypes.S fuel =>
    node ← resolve_in S r;
    match node with
    | TEmpty => Ok None
    | Leaf partial value =>
      let key_remaining := drop depth key in
      if Nat.eqb (cpl key_remaining partial) (length partial)
         && Nat.eqb (length partial) (length key_remaining)
      then Ok (Some value) else Ok None
    | Extension partial child =>
      let cp := cpl (drop depth key) partial in
      if Nat.ltb cp (length partial) then Ok None
      else get_node fuel S child key (depth + cp)
    | Branch children value =>
      if Nat.eqb depth (length key) then Ok value
      else
        idx ← unwrap (key !! depth);
        c ← index children idx;
        get_node fuel S c key (depth + 1)
    end
  end.

Definition get (t : MutableTrie) (key : bytes) : res TrieError (option bytes) :=
  if bool_decide (root t = EMPTY_ROOT) then Ok None
  else
    let nibbles := nibbles_of key in
    get_node (key_fuel nibbles) (fetch t) (RHash (root t)) nibbles 0.

(** ** delete *)

Definition is_empty_ref (c : NodeRef) : bool :=
  match c with REmpty => true | _ => false end.

(** The indices of the occupied slots. *)
Definition non_empty (cs : list NodeRef) : list nat :=
  List.filter (fun i => match cs !! i with Some c => negb (is_empty_ref c) | None => false end)
    (seq 0 16).

Definition maybe_collapse_branch (children : list NodeRef) (value : option bytes)
    : T TrieNode :=
  match non_empty children, value with
  | [], None => mret TEmpty
  | [], Some v => mret (Leaf [] v)
  | [idx], None =>
    c ← get_slot children (Z.of_nat idx);
    child_node ← resolve c;
    let prefix := [Z.land (Z.of_nat idx) 15] in
    match child_node with
    | Leaf partial v => mret (Leaf (prefix ++ partial) v)
    | Extension partial child => mret (Extension (prefix ++ partial) child)
    | Branch _ _ => r ← store_node child_node; mret (Extension prefix r)
    | TEmpty => mret TEmpty
    end
  | _, _ => mret (Branch children value)
  end.

Fixpoint delete_node (fuel : nat) (node : TrieNode) (key : path) (depth : nat)
    : T (TrieNode * bool) :=
  match fuel with
  | O => lift Panic
  | S fuel =>
    let key_remaining := drop depth key in
    match node with
    | TEmpty => mret (TEmpty, false)
    | Leaf partial value =>
      if Nat.eqb (length key_remaining) (length partial)
         && Nat.eqb (cpl key_remaining partial) (length partial)
      then mret (TEmpty, true) else mret (Leaf partial value, false)
    | Extension partial child =>
      let cp := cpl key_remaining partial in
      if negb (Nat.eqb cp (length partial)) then mret (Extension partial child, false)
      else
        child_node ← resolve child;
        '(new_child, removed) ← delete_node fuel child_node key (depth + length partial);
        if negb removed then mret (Extension partial child, false)
        else
          collapsed ←
            match new_child with
            | TEmpty => mret TEmpty
            | Leaf cp2 value => mret (Leaf (partial ++ cp2) value)
            | Extension cp2 gc => mret (Extension (partial ++ cp2) gc)
            | Branch _ _ => r ← store_node new_child; mret (Extension partial r)
            end;
          mret (collapsed, true)
    | Branch children branch_val =>
      if Nat.eqb depth (length key) then
        match branch_val with
        | Some _ =>
          collapsed ← maybe_collapse_branch children None;
          mret (collapsed, true)
        | None => mret (Branch children None, false)
        end
      else
        idx ← at_path key depth;
        c ← get_slot children idx;
        child_node ← resolve c;
        '(new_child, removed) ← delete_node fuel child_node key (depth + 1);
        if negb removed then mret (Branch children branch_val, false)
        else
          r ← (match new_child with
               | TEmpty => mret REmpty
               | other => store_node other
               end);
          children' ← set_slot children idx r;
          collapsed ← maybe_collapse_branch children' branch_val;
          mret (collapsed, true)
    end
  end.

Definition delete (key : bytes) : T bool :=
  r ← gets root;
  if bool_decide (r = EMPTY_ROOT) then mret false
  else
    let nibbles := nibbles_of key in
    old_root ← resolve (RHash r);
    '(new_root_node, removed) ← delete_node (key_fuel nibbles) old_root nibbles 0;
    if negb removed then mret false
    else
      h ← commit_root new_root_node;
      _ ← set_root h;
      mret true.

(** ** prove *)

(** The second [match] of the loop body; [next] is the next iteration. *)
Definition prove_step (next : NodeRef -> nat -> res TrieError (option bytes * list bytes))
    (decoded : TrieNode) (nibbles : path) (depth : nat) (nodes : list bytes)
    : res TrieError (option bytes * list bytes) :=
  match decoded with
  | TEmpty => Ok (None, nodes)
  | Leaf partial v =>
    let key_remaining := drop depth nibbles in
    if Nat.eqb (length key_remaining) (length partial)
       && Nat.eqb (cpl key_remaining partial) (length partial)
    then Ok (Some v, nodes) else Ok (None, nodes)
  | Extension partial child =>
    let cp := cpl (drop depth nibbles) partial in
    if negb (Nat.eqb cp (length partial)) then Ok (None, nodes)
    else next child (depth + cp)%nat
  | Branch children v =>
    if Nat.eqb depth (length nibbles) then Ok (v, nodes)
    else
      idx ← unwrap (nibbles !! depth);
      c ← index children idx;
      next c (depth + 1)%nat
  end.

Fixpoint prove_loop (fuel : nat) (S : store) (current : NodeRef) (nibbles : path)
    (depth : nat) (nodes : list bytes) : res TrieError (option bytes * list bytes) :=
  match fuel with
  | O => Panic
  | Datatypes.S fuel =>
    match current with
    | REmpty => Ok (None, nodes)
    | RHash h =>
      if bool_decide (h = EMPTY_ROOT) then Ok (None, nodes)
      else
        bs ← ok_or (S h) (MissingNode h);
        node ← decode bs;
        let nodes := nodes ++ [bs] in
        prove_step (fun c d => prove_loop fuel S c nibbles d nodes) node nibbles depth nodes
    | RInline n => prove_step (fun c d => prove_loop fuel S c nibbles d nodes) n nibbles depth nodes
    end
  end.

Definition prove (t : MutableTrie) (key : bytes) : res TrieError MerkleProof :=
  let nibbles := nibbles_of key in
  '(value, nodes) ← prove_loop (key_fuel nibbles) (fetch t) (RHash (root t)) nibbles 0 [];
  Ok (mkProof key value nodes).

(** ** commit: [for (hash, bytes) in self.cache.drain()] *)

Fixpoint commit_loop (entries : list (H256 * bytes)) (d : DB) : res TrieError unit * DB :=
  match entries with
  | [] => (Ok tt, d)
  | (h, b) :: rest =>
    match db_insert d h b with
    | (Ok _, d') => commit_loop rest d'
    | (r, d') => (r, d')
    end
  end.

(** [drain] empties the cache also when an insert fails. *)
Definition commit : T H256 := fun t =>
  match commit_loop (map_to_list (cache t)) (db t) with
  | (Ok _, d) => (Ok (root t), mkTrie (root t) d ∅ (written t))
  | (Err e, d) => (Err e, mkTrie (root t) d ∅ (written t))
  | (Panic, d) => (Panic, mkTrie (root t) d ∅ (written t))
  end.
End trie.

Arguments mkTrie {DB}.
Arguments root {DB}.
Arguments db {DB}.
Arguments cache {DB}.
Arguments written {DB}.
