(* ===== verification/TrieRepr.v ===== *)
(** * The trie as a map: the abstract radix tree

    A [ptree] is a trie without hashing: the tree that a [MutableTrie]
    represents (TrieCorrect.v).  This file gives it a meaning as a map from
    paths to values ([plookup]), states the canonical form the operations keep
    ([pwf]), shows the building blocks of insertion and deletion correct
    ([pplace], [pwrap], [pcollapse]), and that the canonical tree of a map is
    unique ([ptree_unique]).

    Below: how hashed nodes in a cache and a database store such a tree. *)

From Stdlib Require Import ZArith Lia.
From stdpp Require Import base tactics list gmap numbers option.
From S2P Require Import Prelude Bytes Rlp Nibbles TrieNode Trie.

Set Warnings "-register-all".
Local Open Scope Z_scope.

Inductive ptree : Type :=
| PLeaf (p : path) (v : bytes)
| PExt (p : path) (t : ptree)
| PBranch (cs : list (option ptree)) (bv : option bytes).

Section ptree_ind.
Context (P : ptree -> Prop) (HL : forall p v, P (PLeaf p v))
  (HX : forall p t, P t -> P (PExt p t))
  (HB : forall cs bv, (forall i u, cs !! i = Some (Some u) -> P u) -> P (PBranch cs bv)).

Lemma slots_ind (cs : list (option ptree)) :
  Forall (fun o => forall u, o = Some u -> P u) cs ->
  forall i u, cs !! i = Some (Some u) -> P u.
Proof. intros H i u Hi. by apply (Forall_lookup_1 _ _ _ _ H Hi). Qed.

Fixpoint ptree_ind_nested (t : ptree) : P t :=
  match t with
  | PLeaf p v => HL p v
  | PExt p t => HX p t (ptree_ind_nested t)
  | PBranch cs bv => HB cs bv (slots_ind cs
      ((fix go cs := match cs return Forall (fun o => forall u, o = Some u -> P u) cs with
        | [] => Forall_nil_2 _
        | o :: cs => Forall_cons_2 _ o cs
            (match o return forall u, o = Some u -> P u with
             | Some t => fun u e => eq_ind t P (ptree_ind_nested t) u
                 (f_equal (fun o => match o with Some x => x | None => t end) e)
             | None => fun u e => match eq_ind None (fun o => match o with None => True | Some _ => False end) I _ e
                                  return P u with end
             end) (go cs)
        end) cs))
  end.
End ptree_ind.

Definition is_branch (t : ptree) : bool := match t with PBranch _ _ => true | _ => false end.

(** The entry of slot [i], when there is one. *)
Definition at_slot (f : ptree -> option bytes) : list (option ptree) -> nat -> option bytes :=
  fix go cs n :=
    match cs, n with
    | [], _ => None
    | Some t :: _, O => f t
    | None :: _, O => None
    | _ :: cs, S n => go cs n
    end.

Definition slot (cs : list (option ptree)) (i : Z) : option ptree :=
  if 0 <=? i then mjoin (cs !! Z.to_nat i) else None.

Fixpoint plookup (t : ptree) (q : path) {struct t} : option bytes :=
  match t with
  | PLeaf p v => if decide (q = p) then Some v else None
  | PExt p t => if decide (take (length p) q = p) then plookup t (drop (length p) q) else None
  | PBranch cs bv =>
    match q with
    | [] => bv
    | i :: q => if 0 <=? i then at_slot (fun t => plookup t q) cs (Z.to_nat i) else None
    end
  end.

Definition olookup (ot : option ptree) (q : path) : option bytes := ot ≫= fun t => plookup t q.

(** ** Canonical trees: non-empty extensions, always over a branch; branches
    with at least two entries; paths of nibbles that fit in [D]; non-empty
    values that fit in memory. *)

Definition value_ok (v : bytes) : Prop := v <> [] /\ Forall byte v /\ zlen v < 2 ^ 60.

Definition occupied (cs : list (option ptree)) : list nat :=
  List.filter (fun i => match cs !! i with Some (Some _) => true | _ => false end) (seq 0 16).
Definition opt_count {A} (o : option A) : nat := match o with Some _ => 1 | None => 0 end.
Definition entries (cs : list (option ptree)) (bv : option bytes) : nat :=
  (length (occupied cs) + opt_count bv)%nat.

Inductive pwf : Z -> ptree -> Prop :=
| pwf_leaf D p v : Forall nib p -> zlen p <= D -> value_ok v -> pwf D (PLeaf p v)
| pwf_ext D p t :
    Forall nib p -> p <> [] -> is_branch t = true -> pwf (D - zlen p) t -> pwf D (PExt p t)
| pwf_branch D cs bv :
    length cs = 16%nat -> (forall i u, cs !! i = Some (Some u) -> pwf (D - 1) u) ->
    (forall b, bv = Some b -> value_ok b) -> (2 <= entries cs bv)%nat ->
    pwf D (PBranch cs bv).

Definition opwf (D : Z) (ot : option ptree) : Prop := forall t, ot = Some t -> pwf D t.

(** ** Slots *)

Lemma at_slot_lookup f cs n : at_slot f cs n = mjoin (cs !! n) ≫= f.
Proof. revert n. induction cs as [|[t|] cs IH]; intros [|n]; simpl; try done. Qed.

Lemma plookup_branch cs bv i q :
  plookup (PBranch cs bv) (i :: q) = olookup (slot cs i) q.
Proof. simpl. unfold slot. case_match; [|done]. apply at_slot_lookup. Qed.

Lemma plookup_ext p t q : plookup (PExt p t) (p ++ q) = plookup t q.
Proof. simpl. rewrite take_app_length, decide_True by done. by rewrite drop_app_length. Qed.

Lemma plookup_ext_inv p t q v : plookup (PExt p t) q = Some v ->
  exists r, q = p ++ r /\ plookup t r = Some v.
Proof.
  simpl. case_decide as Hp; [|done]. intros Hl. exists (drop (length p) q). split; [|done].
  rewrite <-Hp at 1. by rewrite take_drop.
Qed.

Lemma slot_nat cs i : slot cs (Z.of_nat i) = mjoin (cs !! i).
Proof. unfold slot. rewrite (proj2 (Z.leb_le _ _)) by lia. by rewrite Nat2Z.id. Qed.

Lemma slot_Some cs i t : slot cs i = Some t <-> 0 <= i /\ cs !! Z.to_nat i = Some (Some t).
Proof.
  unfold slot. destruct (Z.leb_spec 0 i); [|split; [done|lia]].
  destruct (cs !! Z.to_nat i) as [[u|]|]; simpl; split; intros; destruct_and?; simplify_eq; done.
Qed.

Lemma slot_insert cs i j o : (Z.to_nat i < length cs)%nat -> 0 <= i ->
  slot (<[Z.to_nat i := o]> cs) j = if decide (j = i) then o else slot cs j.
Proof.
  intros Hl Hi. unfold slot. destruct (Z.leb_spec 0 j); [|case_decide; [lia|done]].
  case_decide as Hd; [subst; by rewrite list_lookup_insert_eq by done|].
  rewrite list_lookup_insert_ne by lia. done.
Qed.

Definition no_slots : list (option ptree) := replicate 16 None.

Lemma slot_none j : slot no_slots j = None.
Proof.
  unfold slot. case_match; [|done]. destruct (no_slots !! Z.to_nat j) as [o|] eqn:Ho; [|done].
  apply lookup_replicate in Ho as [-> _]. done.
Qed.

Lemma nib_to_nat i : nib i -> (Z.to_nat i < 16)%nat /\ Z.of_nat (Z.to_nat i) = i.
Proof. unfold nib. lia. Qed.

(** ** Counting entries *)

Definition occ_at (cs : list (option ptree)) (i : nat) : bool :=
  match cs !! i with Some (Some _) => true | _ => false end.

Lemma occ_at_insert cs i j o : (i < length cs)%nat ->
  occ_at (<[i := o]> cs) j = if Nat.eqb j i then bool_decide (is_Some o) else occ_at cs j.
Proof.
  intros Hl. unfold occ_at. destruct (Nat.eqb_spec j i) as [->|Hne].
  - rewrite list_lookup_insert_eq by done. by destruct o.
  - by rewrite list_lookup_insert_ne by done.
Qed.

Lemma filter_update (f g : nat -> bool) (i : nat) l :
  NoDup l -> In i l -> (forall j, j <> i -> g j = f j) ->
  (length (List.filter g l) + Nat.b2n (f i) = length (List.filter f l) + Nat.b2n (g i))%nat.
Proof.
  intros Hnd Hin Hfg. induction l as [|j l IH]; [done|].
  apply list.NoDup_cons in Hnd as [Hj Hnd]. simpl.
  destruct (decide (j = i)) as [->|Hne].
  - assert (List.filter g l = List.filter f l) as Heq.
    { apply List.filter_ext_in. intros k Hk. apply Hfg. intros ->.
      apply Hj. by apply list_elem_of_In. }
    rewrite Heq. destruct (g i), (f i); simpl; lia.
  - destruct Hin as [?|Hin]; [done|]. specialize (IH Hnd Hin). rewrite (Hfg j Hne).
    destruct (f j); simpl; lia.
Qed.

Lemma occupied_insert cs i o : length cs = 16%nat -> (i < 16)%nat ->
  (length (occupied (<[i := o]> cs)) + opt_count (mjoin (cs !! i)) =
   length (occupied cs) + opt_count o)%nat.
Proof.
  intros Hl Hi. unfold occupied.
  pose proof (filter_update (occ_at cs) (occ_at (<[i := o]> cs)) i (seq 0 16)) as Hf.
  assert (Nat.b2n (occ_at (<[i:=o]> cs) i) = opt_count o) as Ho.
  { rewrite occ_at_insert, Nat.eqb_refl by lia. by destruct o. }
  assert (Nat.b2n (occ_at cs i) = opt_count (mjoin (cs !! i))) as Hc.
  { unfold occ_at. by destruct (cs !! i) as [[]|]. }
  rewrite Ho, Hc in Hf. apply Hf.
  - apply NoDup_seq.
  - apply in_seq. lia.
  - intros j Hj. rewrite occ_at_insert by lia. by destruct (Nat.eqb_spec j i).
Qed.

Lemma occupied_no_slots : occupied no_slots = [].
Proof. reflexivity. Qed.

Lemma elem_occupied cs i : length cs = 16%nat ->
  In i (occupied cs) <-> exists u, cs !! i = Some (Some u).
Proof.
  intros Hl. unfold occupied. rewrite filter_In. split.
  - intros [_ Hm]. destruct (cs !! i) as [[u|]|]; [by exists u|done..].
  - intros [u Hu]. rewrite Hu. split; [|done]. apply in_seq.
    apply lookup_lt_Some in Hu. lia.
Qed.

Lemma entries_two_slots cs bv i j : length cs = 16%nat ->
  (exists u, cs !! i = Some (Some u)) -> (exists u, cs !! j = Some (Some u)) -> i <> j ->
  (2 <= entries cs bv)%nat.
Proof.
  intros Hl Hi%elem_occupied Hj%elem_occupied Hne; [|done..]. unfold entries.
  destruct (occupied cs) as [|a [|b l]]; simpl in *; [done| |lia].
  destruct Hi as [<-|[]], Hj as [<-|[]]; done.
Qed.

(** ** Well-formed trees *)

Lemma pwf_mono D D' t : pwf D t -> D <= D' -> pwf D' t.
Proof.
  intros H. revert D'. induction H as [D p v|D p t Hp Hne Hb Ht IH|D cs bv Hl Hcs IH Hv He];
    intros D' HD.
  - constructor; (done || lia).
  - constructor; [done..|]. apply IH. lia.
  - constructor; [done| |done..]. intros i u Hu. eapply IH; [done|lia].
Qed.

Lemma opwf_some D t : opwf D (Some t) <-> pwf D t.
Proof. unfold opwf. naive_solver. Qed.

Lemma opwf_none D : opwf D None.
Proof. done. Qed.

Lemma opwf_mono D D' ot : opwf D ot -> D <= D' -> opwf D' ot.
Proof. unfold opwf. eauto using pwf_mono. Qed.

Lemma entries_slot cs bv : (2 <= entries cs bv)%nat ->
  exists i u, cs !! i = Some (Some u).
Proof.
  unfold entries. intros H. destruct (occupied cs) as [|i l] eqn:Ho; [destruct bv; simpl in H; lia|].
  assert (In i (occupied cs)) as Hi by (rewrite Ho; by left).
  unfold occupied in Hi. apply filter_In in Hi as [_ Hi].
  destruct (cs !! i) as [[u|]|] eqn:Hu; [by exists i, u|done..].
Qed.

Lemma pwf_nonneg D t : pwf D t -> 0 <= D.
Proof.
  induction 1 as [D p v|D p t Hp Hne Hb Ht IH|D cs bv Hl Hcs IH Hv He].
  - pose proof (zlen_nonneg p). lia.
  - pose proof (zlen_nonneg p). lia.
  - destruct (entries_slot _ _ He) as (i & u & Hu). specialize (IH i u Hu). lia.
Qed.

Lemma pwf_branch_slot D cs bv i u : pwf D (PBranch cs bv) -> slot cs i = Some u -> pwf (D - 1) u.
Proof. intros H Hs. apply slot_Some in Hs as [_ Hs]. inversion H; eauto. Qed.

(** ** Paths *)

Lemma cpl_decomp p q : exists c p' q',
  p = c ++ p' /\ q = c ++ q' /\ cpl p q = length c /\
  (forall a b, head p' = Some a -> head q' = Some b -> a <> b).
Proof.
  revert q. induction p as [|a p IH]; intros q.
  { exists [], [], q. destruct q; naive_solver. }
  destruct q as [|b q]; [exists [], (a :: p), []; naive_solver|].
  destruct (Z.eqb_spec a b) as [->|Hne].
  - destruct (IH q) as (c & p' & q' & -> & -> & Hc & Hd).
    exists (b :: c), p', q'. simpl. rewrite Z.eqb_refl, Hc. done.
  - exists [], (a :: p), (b :: q). simpl. rewrite (proj2 (Z.eqb_neq a b)) by done. naive_solver.
Qed.

Lemma path_app_inj (c p q : path) : c ++ p = c ++ q <-> p = q.
Proof. split; [apply app_inv_head|by intros ->]. Qed.

(** ** Insertion into a branch under construction *)

Definition pplace (rest : path) (v : bytes) (b : list (option ptree) * option bytes)
    : list (option ptree) * option bytes :=
  match rest with
  | [] => (fst b, Some v)
  | i :: r => (<[Z.to_nat i := Some (PLeaf r v)]> (fst b), snd b)
  end.

Definition pwrap (c : path) (b : list (option ptree) * option bytes) : ptree :=
  match c with [] => PBranch (fst b) (snd b) | _ => PExt c (PBranch (fst b) (snd b)) end.

(** The entry for [rest] is free. *)
Definition pfree (rest : path) (b : list (option ptree) * option bytes) : Prop :=
  match rest with [] => snd b = None | i :: _ => slot (fst b) i = None end.

Definition branch_ok (D : Z) (b : list (option ptree) * option bytes) : Prop :=
  length (fst b) = 16%nat /\ (forall i u, fst b !! i = Some (Some u) -> pwf (D - 1) u) /\
  (forall w, snd b = Some w -> value_ok w).

Lemma branch_ok_empty D : branch_ok D (no_slots, None).
Proof.
  split_and!; [done| |done]. intros i u Hu. apply lookup_replicate in Hu as [? _]. done.
Qed.

Lemma branch_ok_set D cs bv i o : branch_ok D (cs, bv) -> (forall u, o = Some u -> pwf (D - 1) u) ->
  nib i -> branch_ok D (<[Z.to_nat i := o]> cs, bv).
Proof.
  intros (Hl & Hcs & Hv) Ho Hi. simpl in *. split_and!; simpl; [by rewrite length_insert| |done].
  intros j u Hu. apply list_lookup_insert_Some in Hu as [(<- & -> & _)|(_ & Hu)]; eauto.
Qed.

Lemma pplace_ok D rest v b : branch_ok D b -> Forall nib rest -> value_ok v -> zlen rest <= D ->
  branch_ok D (pplace rest v b).
Proof.
  intros Hb Hr Hv HD. destruct b as [cs bv]. destruct rest as [|i r]; simpl.
  - destruct Hb as (? & ? & ?). split_and!; simpl in *; [done..|]. by intros w [= <-].
  - apply Forall_cons_iff in Hr as [Hi Hr]. apply branch_ok_set; [done| |done].
    intros u [= <-]. autorewrite with zlen in HD. constructor; [done|lia|done].
Qed.

Lemma pplace_entries D rest v b : branch_ok D b -> Forall nib rest -> pfree rest b ->
  entries (fst (pplace rest v b)) (snd (pplace rest v b)) = S (entries (fst b) (snd b)).
Proof.
  intros (Hl & _ & _) Hr Hf. destruct b as [cs bv]. unfold entries.
  destruct rest as [|i r]; simpl in *.
  - subst bv. simpl. lia.
  - apply Forall_cons_iff in Hr as [Hi _]. destruct (nib_to_nat i Hi) as [Hn Hz].
    pose proof (occupied_insert cs (Z.to_nat i) (Some (PLeaf r v)) Hl Hn) as He.
    rewrite <-slot_nat, Hz, Hf in He. simpl in He. lia.
Qed.

Lemma pplace_lookup rest v cs bv q : length cs = 16%nat -> Forall nib rest -> pfree rest (cs, bv) ->
  plookup (PBranch (fst (pplace rest v (cs, bv))) (snd (pplace rest v (cs, bv)))) q =
    if decide (q = rest) then Some v else plookup (PBranch cs bv) q.
Proof.
  intros Hl Hr Hf. destruct rest as [|i r]; simpl pplace; cbn [fst snd].
  - destruct q as [|j q]; [done|]. rewrite decide_False by done. by rewrite !plookup_branch.
  - apply Forall_cons_iff in Hr as [Hi _]. destruct (nib_to_nat i Hi) as [Hn _].
    destruct q as [|j q]; [done|]. rewrite !plookup_branch, slot_insert by (unfold nib in *; lia).
    destruct (decide (j = i)) as [->|Hji].
    + simpl. repeat case_decide; simplify_eq; try done.
      by rewrite (Hf : slot cs i = None).
    + rewrite decide_False by congruence. done.
Qed.

Lemma pwrap_lookup c b q :
  plookup (pwrap c b) q =
    if decide (take (length c) q = c) then plookup (PBranch (fst b) (snd b)) (drop (length c) q)
    else None.
Proof. by destruct c. Qed.

Lemma pwrap_pwf D c b : branch_ok (D - zlen c) b -> Forall nib c ->
  (2 <= entries (fst b) (snd b))%nat -> pwf D (pwrap c b).
Proof.
  intros (Hl & Hcs & Hv) Hc He. assert (pwf (D - zlen c) (PBranch (fst b) (snd b))) by by constructor.
  destruct c as [|a c]; simpl.
  - by replace D with (D - zlen (@nil Z)) by (rewrite zlen_nil; lia).
  - constructor; done.
Qed.

(** Looking up below a prefix [c] of the tree and of the key inserted. *)
Lemma prefix_lookup (c rest q : path) (v : bytes) (f g h : path -> option bytes) :
  (forall r, f r = if decide (r = rest) then Some v else g r) ->
  (forall q, h q = if decide (take (length c) q = c) then g (drop (length c) q) else None) ->
  (if decide (take (length c) q = c) then f (drop (length c) q) else None) =
  if decide (q = c ++ rest) then Some v else h q.
Proof.
  intros Hf Hh. rewrite Hh. destruct (decide (take (length c) q = c)) as [Hc|Hc].
  - rewrite Hf. assert (q = c ++ drop (length c) q) as Hq by (rewrite <-Hc at 1; by rewrite take_drop).
    destruct (decide (drop (length c) q = rest)) as [Hd|Hd].
    + rewrite decide_True by congruence. done.
    + rewrite decide_False; [done|]. intros ->. apply Hd. by rewrite drop_app_length.
  - rewrite decide_False; [done|]. intros ->. apply Hc. by rewrite take_app_length.
Qed.

Lemma take_prefix (a q : path) : take (length a) q = a -> exists r, q = a ++ r.
Proof. intros H. exists (drop (length a) q). rewrite <-H at 1. by rewrite take_drop. Qed.

(** Looking up through a split prefix. *)
Lemma ext_app_lookup (a b : path) t q :
  plookup (PExt (a ++ b) t) q =
    if decide (take (length a) q = a) then plookup (PExt b t) (drop (length a) q) else None.
Proof.
  destruct (decide (take (length a) q = a)) as [Ha|Ha].
  - apply take_prefix in Ha as [r ->]. rewrite drop_app_length. simpl.
    rewrite length_app, take_app_add, drop_app_add.
    pose proof (path_app_inj a (take (length b) r) b). repeat case_decide; tauto.
  - simpl. rewrite decide_False; [done|]. rewrite length_app. intros Hq. apply Ha.
    apply (f_equal (take (length a))) in Hq. by rewrite take_take, Nat.min_l, take_app_length in Hq by lia.
Qed.

Lemma leaf_app_lookup (a b : path) v q :
  plookup (PLeaf (a ++ b) v) q =
    if decide (take (length a) q = a) then plookup (PLeaf b v) (drop (length a) q) else None.
Proof.
  destruct (decide (take (length a) q = a)) as [Ha|Ha].
  - apply take_prefix in Ha as [r ->]. rewrite drop_app_length. simpl.
    pose proof (path_app_inj a r b). repeat case_decide; tauto.
  - simpl. rewrite decide_False; [done|]. intros ->. apply Ha. by rewrite take_app_length.
Qed.

Definition prest (rem : path) (u : ptree) : ptree := match rem with [] => u | _ => PExt rem u end.

Lemma prest_lookup rem u q : plookup (prest rem u) q = plookup (PExt rem u) q.
Proof. by destruct rem. Qed.

Lemma empty_branch_lookup q : plookup (PBranch no_slots None) q = None.
Proof. destruct q; [done|]. by rewrite plookup_branch, slot_none. Qed.

(** ** The two splits of an insertion *)

Definition leaf_split (c p' : path) (old : bytes) (k' : path) (v : bytes) : ptree :=
  pwrap c (pplace k' v (pplace p' old (no_slots, None))).

Definition ext_split (c : path) (i : Z) (rem : path) (u : ptree) (k' : path) (v : bytes) : ptree :=
  pwrap c (pplace k' v (<[Z.to_nat i := Some (prest rem u)]> no_slots, None)).

Lemma leaf_split_free (p' k' : path) old : p' <> k' -> Forall nib p' ->
  (forall a b, head k' = Some a -> head p' = Some b -> a <> b) ->
  pfree k' (pplace p' old (no_slots, None)).
Proof.
  intros Hne Hp Hd. destruct k' as [|a k'], p' as [|b p']; simpl; try done.
  - by rewrite slot_none.
  - apply Forall_cons_iff in Hp as [Hb _]. rewrite slot_insert by (unfold nib in *; simpl; lia).
    rewrite decide_False by (intros ->; by eapply Hd). by rewrite slot_none.
Qed.

Lemma leaf_split_lookup c p' k' old v q : p' <> k' -> Forall nib p' -> Forall nib k' ->
  (forall a b, head k' = Some a -> head p' = Some b -> a <> b) ->
  plookup (leaf_split c p' old k' v) q =
    if decide (q = c ++ k') then Some v else plookup (PLeaf (c ++ p') old) q.
Proof.
  intros Hne Hp Hk Hd. unfold leaf_split. rewrite pwrap_lookup.
  pose proof (leaf_split_free p' k' old Hne Hp Hd) as Hf.
  pose proof (pplace_ok (zlen p') p' [1] (no_slots, None) (branch_ok_empty _) Hp) as Hok.
  assert (length (fst (pplace p' old (no_slots, None))) = 16%nat) as Hl.
  { destruct p'; simpl; [done|]. by rewrite length_insert. }
  destruct (pplace p' old (no_slots, None)) as [cs bv] eqn:Hpl.
  apply (prefix_lookup c k' q v) with (g := plookup (PBranch cs bv)).
  - intros r. by apply pplace_lookup.
  - intros r. rewrite leaf_app_lookup. case_decide; [|done].
    pose proof (pplace_lookup p' old no_slots None (drop (length c) r) eq_refl Hp) as Hq.
    rewrite Hpl in Hq. cbn [fst snd] in Hq. rewrite Hq, empty_branch_lookup; [done|].
    destruct p'; [done|]. apply slot_none.
Qed.

Lemma leaf_split_pwf D c p' k' old v : p' <> k' -> Forall nib c -> Forall nib p' -> Forall nib k' ->
  (forall a b, head k' = Some a -> head p' = Some b -> a <> b) ->
  value_ok old -> value_ok v -> zlen (c ++ p') <= D -> zlen (c ++ k') <= D ->
  pwf D (leaf_split c p' old k' v).
Proof.
  intros Hne Hc Hp Hk Hd Ho Hv H1 H2. rewrite zlen_app in H1, H2.
  assert (branch_ok (D - zlen c) (pplace p' old (no_slots, None))) as Hb.
  { apply pplace_ok; [apply branch_ok_empty|done|done|lia]. }
  apply pwrap_pwf; [apply pplace_ok; (done || lia)|done|].
  erewrite pplace_entries; [|done|done|by apply leaf_split_free].
  erewrite pplace_entries; [|apply (branch_ok_empty 0)|done|].
  - unfold entries. simpl. lia.
  - destruct p'; [done|]. apply slot_none.
Qed.

Lemma ext_slots_lookup i rem u q : nib i ->
  plookup (PBranch (<[Z.to_nat i := Some (prest rem u)]> no_slots) None) q =
    plookup (PExt (i :: rem) u) q.
Proof.
  intros Hi. destruct q as [|j q]; [done|].
  rewrite plookup_branch, slot_insert by (unfold nib in *; simpl; lia). simpl.
  destruct (decide (j = i)) as [->|Hne].
  - simpl. rewrite prest_lookup. simpl.
    assert (i :: take (length rem) q = i :: rem <-> take (length rem) q = rem) by (split; congruence).
    repeat case_decide; tauto.
  - rewrite slot_none, decide_False by congruence. done.
Qed.

Lemma ext_split_free i rem u k' : nib i -> head k' <> Some i ->
  pfree k' (<[Z.to_nat i := Some (prest rem u)]> no_slots, None).
Proof.
  intros Hi Hk. destruct k' as [|a k']; simpl; [done|].
  rewrite slot_insert by (unfold nib in *; simpl; lia).
  rewrite decide_False by (intros ->; by apply Hk). apply slot_none.
Qed.

Lemma ext_split_lookup c i rem u k' v q : nib i -> Forall nib k' -> head k' <> Some i ->
  plookup (ext_split c i rem u k' v) q =
    if decide (q = c ++ k') then Some v else plookup (PExt (c ++ i :: rem) u) q.
Proof.
  intros Hi Hk Hd. unfold ext_split. rewrite pwrap_lookup.
  apply (prefix_lookup c k' q v) with (g := plookup (PExt (i :: rem) u)).
  - intros r. rewrite pplace_lookup; [|by rewrite length_insert|done|by apply ext_split_free].
    by rewrite ext_slots_lookup.
  - intros r. apply ext_app_lookup.
Qed.

Lemma prest_pwf D rem u : Forall nib rem -> is_branch u = true -> pwf (D - zlen rem) u ->
  pwf D (prest rem u).
Proof.
  intros Hr Hu Hw. destruct rem as [|a rem]; simpl.
  - eapply pwf_mono; [done|]. rewrite zlen_nil. lia.
  - by constructor.
Qed.

Lemma ext_split_pwf D c i rem u k' v : Forall nib (c ++ i :: rem) -> Forall nib k' ->
  head k' <> Some i -> is_branch u = true -> pwf (D - zlen (c ++ i :: rem)) u ->
  value_ok v -> zlen (c ++ k') <= D ->
  pwf D (ext_split c i rem u k' v).
Proof.
  intros Hn Hk Hd Hb Hu Hv H2. apply Forall_app in Hn as [Hc Hn].
  apply Forall_cons_iff in Hn as [Hi Hrem]. autorewrite with zlen in *.
  assert (branch_ok (D - zlen c) (<[Z.to_nat i := Some (prest rem u)]> no_slots, None)) as Hbo.
  { apply branch_ok_set; [apply branch_ok_empty| |done]. intros w [= <-].
    apply prest_pwf; [done..|]. eapply pwf_mono; [done|lia]. }
  apply pwrap_pwf; [apply pplace_ok; (done || lia)|done|].
  erewrite pplace_entries; [|done|done|by apply ext_split_free].
  unfold entries. cbn [fst snd].
  destruct (nib_to_nat i Hi) as [Hlt _].
  pose proof (occupied_insert no_slots (Z.to_nat i) (Some (prest rem u)) eq_refl Hlt) as Ho.
  rewrite occupied_no_slots, <-slot_nat, slot_none in Ho. simpl in *. lia.
Qed.

(** ** Collapsing after a deletion *)

(** A tree under a prefix, merged with it when it has a path of its own. *)
Definition pcat (p : path) (t : ptree) : ptree :=
  match t with
  | PLeaf p2 v => PLeaf (p ++ p2) v
  | PExt p2 u => PExt (p ++ p2) u
  | PBranch _ _ => PExt p t
  end.

Definition pcollapse (cs : list (option ptree)) (bv : option bytes) : option ptree :=
  match occupied cs, bv with
  | [], None => None
  | [], Some v => Some (PLeaf [] v)
  | [i], None => pcat [Z.of_nat i] <$> slot cs (Z.of_nat i)
  | _, _ => Some (PBranch cs bv)
  end.

Lemma pcat_lookup p t q : plookup (pcat p t) q = plookup (PExt p t) q.
Proof.
  destruct t; cbn [pcat]; [|by rewrite ext_app_lookup|done].
  by rewrite leaf_app_lookup.
Qed.

Lemma pcat_pwf D p t : Forall nib p -> p <> [] -> pwf (D - zlen p) t -> pwf D (pcat p t).
Proof.
  intros Hp Hne Ht. destruct t as [p2 v|p2 u|cs bv]; cbn [pcat].
  - inversion Ht; subst. constructor; [by apply Forall_app|rewrite zlen_app; lia|done].
  - inversion Ht; subst. constructor; [by apply Forall_app|by destruct p|done|].
    eapply pwf_mono; [done|]. rewrite zlen_app. lia.
  - by constructor.
Qed.

Lemma occupied_slot cs i u : length cs = 16%nat -> slot cs i = Some u ->
  In (Z.to_nat i) (occupied cs) /\ nib i.
Proof.
  intros Hl [H0 Hi]%slot_Some. split; [apply elem_occupied; eauto|].
  apply lookup_lt_Some in Hi. unfold nib. lia.
Qed.

Lemma one_slot_lookup cs i u q : length cs = 16%nat -> occupied cs = [i] -> cs !! i = Some (Some u) ->
  plookup (PBranch cs None) q = plookup (PExt [Z.of_nat i] u) q.
Proof.
  intros Hl Ho Hi. destruct q as [|j q]; [done|]. rewrite plookup_branch. simpl.
  rewrite take_0, drop_0. destruct (decide (j = Z.of_nat i)) as [->|Hne].
  - rewrite decide_True by done. by rewrite slot_nat, Hi.
  - rewrite decide_False by congruence. destruct (slot cs j) as [w|] eqn:Hs; [|done].
    apply occupied_slot in Hs as [Hin Hj]; [|done]. rewrite Ho in Hin. unfold nib in Hj.
    destruct Hin as [?|[]]. lia.
Qed.

Lemma no_slot_lookup cs bv q : length cs = 16%nat -> occupied cs = [] ->
  plookup (PBranch cs bv) q = olookup (PLeaf [] <$> bv) q.
Proof.
  intros Hl Ho. destruct q as [|j q]; [by destruct bv|]. rewrite plookup_branch.
  destruct (slot cs j) as [w|] eqn:Hs; [|by destruct bv].
  apply occupied_slot in Hs as [Hin _]; [|done]. by rewrite Ho in Hin.
Qed.

Lemma single_occupied cs i : length cs = 16%nat -> occupied cs = [i] ->
  (i < 16)%nat /\ exists u, cs !! i = Some (Some u).
Proof.
  intros Hl Ho. assert (In i (occupied cs)) as Hin by (rewrite Ho; by left).
  apply elem_occupied in Hin as [u Hu]; [|done].
  split; [apply lookup_lt_Some in Hu; lia|by exists u].
Qed.

Lemma pcollapse_lookup cs bv q : length cs = 16%nat ->
  olookup (pcollapse cs bv) q = plookup (PBranch cs bv) q.
Proof.
  intros Hl. unfold pcollapse. destruct (occupied cs) as [|i [|j l]] eqn:Ho; [|destruct bv; [done|]|done].
  - rewrite no_slot_lookup by done. by destruct bv.
  - destruct (single_occupied cs i Hl Ho) as [_ [u Hu]].
    rewrite slot_nat, Hu, (one_slot_lookup cs i u) by done. simpl. apply pcat_lookup.
Qed.

Lemma pcollapse_pwf D cs bv : 1 <= D -> branch_ok D (cs, bv) -> opwf D (pcollapse cs bv).
Proof.
  intros HD (Hl & Hcs & Hv). simpl in *. unfold pcollapse, opwf.
  assert ((2 <= entries cs bv)%nat -> forall t, Some (PBranch cs bv) = Some t -> pwf D t) as Hbr.
  { intros He t [= <-]. by constructor. }
  unfold entries in Hbr.
  destruct (occupied cs) as [|i [|j l]] eqn:Ho.
  - destruct bv as [v|]; intros t Ht; simplify_eq. constructor; [done|rewrite zlen_nil; lia|by apply Hv].
  - destruct bv as [v|]; [apply Hbr; simpl; lia|]. intros t.
    destruct (single_occupied cs i Hl Ho) as [Hi [u Hu]]. rewrite slot_nat, Hu.
    intros [= <-]. apply pcat_pwf; [|done|].
    + constructor; [unfold nib; lia|done].
    + eapply pwf_mono; [by eapply Hcs|]. rewrite zlen_cons, zlen_nil. lia.
  - apply Hbr. simpl. lia.
Qed.

(** A collapsed branch is empty only if nothing is left. *)
Lemma pcollapse_none cs bv : length cs = 16%nat -> pcollapse cs bv = None -> entries cs bv = 0%nat.
Proof.
  intros Hl. unfold pcollapse, entries. destruct (occupied cs) as [|i [|j l]] eqn:Ho.
  - by destruct bv.
  - destruct bv; [done|]. destruct (single_occupied cs i Hl Ho) as [Hi [u Hu]].
    by rewrite slot_nat, Hu.
  - done.
Qed.

(** ** Uniqueness of the canonical tree *)

Lemma pwf_inhabited D t : pwf D t -> exists q v, plookup t q = Some v.
Proof.
  induction 1 as [D p v Hp HD Hv|D p t Hp Hne Hb Ht (q & v & Hq)|D cs bv Hl Hcs IH Hv He].
  - exists p, v. simpl. by rewrite decide_True.
  - exists (p ++ q), v. by rewrite plookup_ext.
  - destruct (entries_slot _ _ He) as (i & u & Hu). destruct (IH i u Hu) as (q & v & Hq).
    exists (Z.of_nat i :: q), v. by rewrite plookup_branch, slot_nat, Hu.
Qed.

(** A branch holds two keys that differ from the first nibble on. *)
Lemma branch_diverges D t : pwf D t -> is_branch t = true ->
  exists q1 q2 v1 v2, plookup t q1 = Some v1 /\ plookup t q2 = Some v2 /\ head q1 <> head q2.
Proof.
  intros Hwf Hb. destruct Hwf as [|D p t _ _ _ _|D cs bv Hl Hcs Hv He]; [done..|].
  assert (forall i, In i (occupied cs) -> exists q v,
    plookup (PBranch cs bv) (Z.of_nat i :: q) = Some v) as Hocc.
  { intros i Hi. apply elem_occupied in Hi as [u Hu]; [|done].
    destruct (pwf_inhabited _ _ (Hcs i u Hu)) as (q & v & Hq).
    exists q, v. by rewrite plookup_branch, slot_nat, Hu. }
  assert (List.NoDup (occupied cs)) as Hnd by apply List.NoDup_filter, List.seq_NoDup.
  assert (exists i, In i (occupied cs)) as [i Hi].
  { destruct (entries_slot cs bv He) as (i & u & Hu). exists i. apply elem_occupied; eauto. }
  destruct (Hocc i Hi) as (q & v & Hq).
  destruct bv as [w|].
  { exists [], (Z.of_nat i :: q), w, v. done. }
  unfold entries in He. destruct (occupied cs) as [|a [|b l]]; [done|simpl in He; lia|].
  destruct (Hocc a) as (q1 & v1 & H1); [by left|].
  destruct (Hocc b) as (q2 & v2 & H2); [by right; left|].
  exists (Z.of_nat a :: q1), (Z.of_nat b :: q2), v1, v2. split_and!; [done..|].
  simpl. intros [= Hab]. apply Nat2Z.inj in Hab as ->.
  apply List.NoDup_cons_iff in Hnd as [Hn _]. apply Hn. by left.
Qed.

(** Two extensions with the same keys have the same path: each path is a
    prefix of both keys that diverge right below the other. *)
Lemma ext_path_prefix p t p' t' D : pwf D t -> is_branch t = true ->
  (forall q, plookup (PExt p t) q = plookup (PExt p' t') q) -> exists r, p = p' ++ r.
Proof.
  intros Hwf Hb Heq. destruct (branch_diverges D t Hwf Hb) as (q1 & q2 & v1 & v2 & H1 & H2 & Hd).
  rewrite <-(plookup_ext p) in H1, H2. rewrite Heq in H1, H2.
  apply plookup_ext_inv in H1 as (r1 & H1 & _). apply plookup_ext_inv in H2 as (r2 & H2 & _).
  clear Heq Hwf Hb. revert p H1 H2. induction p' as [|a p' IH]; intros p H1 H2; [by exists p|].
  destruct p as [|b p]; simpl in *.
  - subst. by destruct Hd.
  - simplify_eq. destruct (IH p) as [r ->]; [done..|]. by exists r.
Qed.

Lemma ext_not_branch D p t t' : p <> [] -> pwf D t' -> is_branch t' = true ->
  (forall q, plookup (PExt p t) q = plookup t' q) -> False.
Proof.
  intros Hp Hwf Hb Heq. destruct (branch_diverges D t' Hwf Hb) as (q1 & q2 & v1 & v2 & H1 & H2 & Hd).
  rewrite <-Heq in H1, H2. apply plookup_ext_inv in H1 as (r1 & -> & _).
  apply plookup_ext_inv in H2 as (r2 & -> & _). by destruct p.
Qed.

(** A leaf has one key, a well-formed extension or branch has two. *)
Lemma two_keys D t : pwf D t -> (forall p v, t <> PLeaf p v) ->
  exists q1 q2 v1 v2, plookup t q1 = Some v1 /\ plookup t q2 = Some v2 /\ q1 <> q2.
Proof.
  intros Hwf Hnl. destruct t as [p v|p t|cs bv]; [by destruct (Hnl p v)| |].
  - inversion Hwf; subst. edestruct branch_diverges as (q1 & q2 & v1 & v2 & H1' & H2' & Hd); [done..|].
    exists (p ++ q1), (p ++ q2), v1, v2. rewrite !plookup_ext. split_and!; [done..|].
    intros ->%path_app_inj. done.
  - edestruct branch_diverges as (q1 & q2 & v1 & v2 & H1' & H2' & Hd); [done..|].
    exists q1, q2, v1, v2. split_and!; [done..|]. by intros ->.
Qed.

Lemma leaf_only D p v t : pwf D t -> (forall q, plookup (PLeaf p v) q = plookup t q) ->
  exists p' v', t = PLeaf p' v'.
Proof.
  intros Hwf Heq. destruct t as [p' v'|p' t|cs bv]; [by eauto| |].
  all: destruct (two_keys _ _ Hwf) as (q1 & q2 & v1 & v2 & H1 & H2 & Hd); [done|].
  all: rewrite <-Heq in H1, H2; simpl in H1, H2; repeat case_decide; simplify_eq.
Qed.

Lemma ptree_unique D1 D2 t1 t2 : pwf D1 t1 -> pwf D2 t2 ->
  (forall q, plookup t1 q = plookup t2 q) -> t1 = t2.
Proof.
  intros H1. revert D2 t2.
  induction H1 as [D p v Hp HD Hv|D p t Hp Hne Hb Ht IH|D cs bv Hl Hcs IH Hv He]; intros D2 t2 H2 Heq.
  - destruct (leaf_only _ _ _ _ H2 Heq) as (p' & v' & ->).
    specialize (Heq p). simpl in Heq. rewrite decide_True in Heq by done.
    case_decide; by simplify_eq.
  - destruct H2 as [D2 p' v' ? ? ?|D2 p' t' Hp' Hne' Hb' Ht'|D2 cs bv Hl Hcs Hv He].
    + destruct (leaf_only _ p' v' (PExt p t) (pwf_ext _ _ _ Hp Hne Hb Ht)) as (? & ? & ?); [|done].
      intros q. by rewrite Heq.
    + destruct (ext_path_prefix p t p' t' _ Ht Hb Heq) as [r Hr].
      destruct (ext_path_prefix p' t' p t _ Ht' Hb') as [r' Hr'];
        [intros q; by rewrite Heq|].
      assert (p = p') as <-.
      { rewrite Hr in Hr'. rewrite <-app_assoc in Hr'.
        apply (f_equal length) in Hr'. rewrite !length_app in Hr'.
        destruct r; [by rewrite app_nil_r in Hr|]. simpl in Hr'. lia. }
      f_equal. eapply IH; [done|]. intros q. by rewrite <-(plookup_ext p), Heq, plookup_ext.
    + destruct (ext_not_branch D2 p t (PBranch cs bv) Hne (pwf_branch _ _ _ Hl Hcs Hv He) eq_refl Heq).
  - destruct H2 as [D2 p' v' ? ? ?|D2 p' t' Hp' Hne' Hb' Ht'|D2 cs' bv' Hl' Hcs' Hv' He'].
    + destruct (leaf_only _ p' v' (PBranch cs bv) (pwf_branch D _ _ Hl Hcs Hv He)) as (? & ? & ?); [|done].
      intros q. by rewrite Heq.
    + destruct (ext_not_branch D p' t' (PBranch cs bv) Hne' (pwf_branch _ _ _ Hl Hcs Hv He) eq_refl).
      intros q. by rewrite Heq.
    + assert (bv = bv') as <- by exact (Heq []). f_equal.
      apply list_eq_same_length with (n := 16%nat); [done..|].
      intros i o o' Hi Ho Ho'.
      assert (forall q, olookup o q = olookup o' q) as Hq.
      { intros q. specialize (Heq (Z.of_nat i :: q)). rewrite !plookup_branch, !slot_nat in Heq.
        by rewrite Ho, Ho' in Heq. }
      destruct o as [u|], o' as [u'|]; [|exfalso|exfalso|done].
      * f_equal. eapply IH; [exact Ho|by eapply Hcs'|exact Hq].
      * destruct (pwf_inhabited _ _ (Hcs i u Ho)) as (q & v & Hv'').
        specialize (Hq q). simpl in Hq. by rewrite Hv'' in Hq.
      * destruct (pwf_inhabited _ _ (Hcs' i u' Ho')) as (q & v & Hv'').
        specialize (Hq q). simpl in Hq. by rewrite Hv'' in Hq.
Qed.

(** * Hashed trees: how a [MutableTrie] stores an abstract tree

    [node_of] is the node a tree is written as, [ref_to] the reference its
    parent holds (inline below 32 bytes, a hash otherwise), [stored] says that
    every hashed descendant can be fetched.  [spec] is the proof rule for the
    trie's methods: it assumes that the encodings written do not collide under
    the hash function ([Dom]), and nothing else about it. *)

(** ** Sizes of encodings *)

Lemma zlen_enc_str_le d : zlen d < 2 ^ 63 -> zlen (enc_str d) <= zlen d + 9.
Proof.
  intros Hd. destruct (enc_str_cases d) as [[-> ->]|[(b & -> & _ & ->)|[[_ ->]|[H He]]]];
    [unfold zlen; simpl; lia..|rewrite zlen_cons; lia|].
  rewrite He by done. rewrite zlen_cons, zlen_app. pose proof (zlen_minimal (zlen d)). lia.
Qed.

Lemma zlen_enc_lst_le c : zlen c < 2 ^ 63 -> zlen (enc_lst c) <= zlen c + 9.
Proof.
  intros Hc. destruct (enc_lst_cases c) as [[_ ->]|[H He]]; [rewrite zlen_cons; lia|].
  rewrite He by done. rewrite zlen_cons, zlen_app. pose proof (zlen_minimal (zlen c)). lia.
Qed.

Lemma length_pack p : (length (pack p) <= length p)%nat.
Proof.
  remember (length p) as k eqn:Hk. revert p Hk. induction k as [k IH] using lt_wf_ind.
  intros [|a [|b t]] ->; simpl; try lia. specialize (IH (length t) ltac:(simpl; lia) t eq_refl). lia.
Qed.

Lemma zlen_hp_encode leaf p : zlen (hp_encode leaf p) <= zlen p + 1.
Proof.
  unfold hp_encode, zlen. destruct p as [|a t]; [done|]. case_match.
  - pose proof (length_pack t). simpl length in *. lia.
  - pose proof (length_pack (a :: t)). simpl length in *. lia.
Qed.

Create HintDb trie_mono.

(** What is assumed of the hash function: it returns 32 bytes; the encodings
    in [Dom] do not collide and none hashes to [EMPTY_ROOT]. *)
Class Hash256 (keccak : bytes -> H256) : Prop :=
  keccak_h256 : forall b, length (keccak b) = 32%nat /\ Forall byte (keccak b).
Class CollisionFree (keccak : bytes -> H256) (Dom : bytes -> Prop) : Prop := {
  keccak_inj : forall a b, Dom a -> Dom b -> keccak a = keccak b -> a = b;
  keccak_not_empty : forall a, Dom a -> keccak a <> EMPTY_ROOT }.

Section repr.
Context (keccak : bytes -> H256).

Definition ref_to (n : TrieNode) : NodeRef :=
  if zlen (encode n) <? 32 then RInline n else RHash (keccak (encode n)).

Fixpoint node_of (t : ptree) : TrieNode :=
  match t with
  | PLeaf p v => Leaf p v
  | PExt p t => Extension p (ref_to (node_of t))
  | PBranch cs bv =>
    Branch (map (fun o => match o with Some t => ref_to (node_of t) | None => REmpty end) cs) bv
  end.

Definition oref (o : option ptree) : NodeRef :=
  match o with Some t => ref_to (node_of t) | None => REmpty end.
Definition onode (o : option ptree) : TrieNode :=
  match o with Some t => node_of t | None => TEmpty end.
Definition orefs (cs : list (option ptree)) : list NodeRef := map oref cs.

Lemma node_of_branch cs bv : node_of (PBranch cs bv) = Branch (orefs cs) bv.
Proof. reflexivity. Qed.

(** Paths this long fit in memory. *)
Definition MAX_DEPTH : Z := 2 ^ 60.

Context `{HK : !Hash256 keccak}.

Lemma ref_to_fits n : node_shape n -> node_fits n ->
  ref_shape (ref_to n) /\ zlen (enc (item_of_ref (ref_to n))) <= 33.
Proof.
  intros Hs Hf. unfold ref_to. rewrite encode_enc by done. case_match eqn:H32; bool_to_prop.
  - split; [by constructor|]. simpl. lia.
  - destruct (keccak_h256 (enc (item_of n))) as [Hl Hb]. split; [by constructor|].
    simpl. pose proof (enc_str_cases (keccak (enc (item_of n)))) as He.
    assert (zlen (keccak (enc (item_of n))) = 32) as Hz by (unfold zlen; lia).
    destruct He as [[He _]|[(b & He & _)|[[_ ->]|[He _]]]].
    + by rewrite He in Hz.
    + by rewrite He in Hz.
    + rewrite zlen_cons. lia.
    + lia.
Qed.

Lemma zlen_concat_le (l : list bytes) m : Forall (fun b => zlen b <= m) l ->
  zlen (concat l) <= m * Z.of_nat (length l).
Proof.
  induction 1 as [|b l Hb _ IH]; simpl concat; [rewrite zlen_nil; simpl; lia|].
  rewrite zlen_app. simpl length. lia.
Qed.

Lemma node_of_ok D t : pwf D t -> D <= MAX_DEPTH -> node_shape (node_of t) /\ node_fits (node_of t).
Proof.
  unfold MAX_DEPTH. induction 1 as [D p v Hp HD Hv|D p t Hp Hne Hb Ht IH|D cs bv Hl Hcs IH Hv He]; intros HM.
  - destruct Hv as (_ & Hvb & Hvl). split; [by constructor|].
    unfold node_fits. simpl. rewrite app_nil_r.
    pose proof (zlen_hp_encode true p). pose proof (zlen_enc_str_le (hp_encode true p)).
    pose proof (zlen_enc_str_le v).
    pose proof (zlen_enc_lst_le (enc_str (hp_encode true p) ++ enc_str v)).
    rewrite zlen_app in *. lia.
  - pose proof (pwf_nonneg _ _ Ht). pose proof (zlen_nonneg p).
    destruct IH as [Hs Hf]; [lia|]. destruct (ref_to_fits _ Hs Hf) as [Hrs Hrf].
    split; [by constructor|]. unfold node_fits. cbn [node_of item_of enc map concat].
    rewrite app_nil_r. pose proof (zlen_hp_encode false p).
    pose proof (zlen_enc_str_le (hp_encode false p)).
    pose proof (zlen_enc_lst_le (enc_str (hp_encode false p) ++ enc (item_of_ref (ref_to (node_of t))))).
    rewrite zlen_app in *. lia.
  - rewrite node_of_branch.
    assert (Forall (fun c => ref_shape c /\ zlen (enc (item_of_ref c)) <= 33) (orefs cs)) as Hall.
    { unfold orefs. apply List.Forall_map, Forall_lookup_2. intros i o Ho.
      destruct o as [u|]; simpl; [|split; [constructor|done]].
      destruct (IH i u Ho) as [Hs Hf]; [lia|]. by apply ref_to_fits. }
    split.
    + constructor; [by unfold orefs; rewrite length_map| |].
      * eapply List.Forall_impl; [|exact Hall]. by intros c [? _].
      * intros b Hb. destruct (Hv b Hb) as (? & ? & _). done.
    + unfold node_fits. rewrite item_of_branch. cbn [enc]. rewrite map_app, concat_app.
      assert (zlen (concat (map enc (items_of (orefs cs)))) <= 33 * 16) as Hc.
      { assert (length (map enc (items_of (orefs cs))) = 16%nat) as Hlen
          by (unfold items_of, orefs; by rewrite !length_map).
        etrans; [apply zlen_concat_le with (m := 33)|rewrite Hlen; lia].
        unfold items_of. rewrite map_map. apply List.Forall_map.
        eapply List.Forall_impl; [|exact Hall]. by intros c [_ ?]. }
      simpl concat. rewrite app_nil_r.
      assert (zlen (default [] bv) < 2 ^ 60) as Hbv.
      { destruct bv as [b|]; [|done]. by destruct (Hv b eq_refl) as (_ & _ & ?). }
      pose proof (zlen_enc_str_le (default [] bv)).
      pose proof (zlen_enc_lst_le (concat (map enc (items_of (orefs cs))) ++ enc_str (default [] bv))).
      rewrite zlen_app in *. lia.
Qed.
(** ** Descendants that can be fetched *)

Definition ref_ok (S : store) (u : ptree) : Prop :=
  32 <= zlen (encode (node_of u)) ->
  S (keccak (encode (node_of u))) = Some (encode (node_of u)) /\
  keccak (encode (node_of u)) <> EMPTY_ROOT.

Inductive stored (S : store) : ptree -> Prop :=
| stored_leaf p v : stored S (PLeaf p v)
| stored_ext p t : ref_ok S t -> stored S t -> stored S (PExt p t)
| stored_branch cs bv :
    (forall i u, cs !! i = Some (Some u) -> ref_ok S u) ->
    (forall i u, cs !! i = Some (Some u) -> stored S u) -> stored S (PBranch cs bv).

(** A (possibly absent) child: its reference resolves and so do its own. *)
Definition ochild (S : store) (o : option ptree) : Prop :=
  forall u, o = Some u -> ref_ok S u /\ stored S u.

Definition sub (S S' : store) : Prop := forall h e, S h = Some e -> S' h = Some e.

#[export] Instance sub_preorder : PreOrder sub.
Proof. split; [by intros S h e|]. intros S1 S2 S3 H1 H2 h e He. by apply H2, H1. Qed.

Lemma ref_ok_sub S S' u : sub S S' -> ref_ok S u -> ref_ok S' u.
Proof. intros Hs Hr Hl. destruct (Hr Hl). split; [by apply Hs|done]. Qed.

Lemma stored_sub S S' t : sub S S' -> stored S t -> stored S' t.
Proof.
  intros Hs. induction 1 as [p v|p t Hr _ IH|cs bv Hc _ IH]; constructor; eauto using ref_ok_sub.
Qed.

Lemma ochild_sub S S' o : sub S S' -> ochild S o -> ochild S' o.
Proof. intros Hs Ho u Hu. destruct (Ho u Hu). split; [by eapply ref_ok_sub|by eapply stored_sub]. Qed.

Lemma ochild_none S : ochild S None.
Proof. done. Qed.

Lemma ochild_some S u : ochild S (Some u) <-> ref_ok S u /\ stored S u.
Proof. unfold ochild. naive_solver. Qed.

Lemma stored_branch_slots S cs bv : stored S (PBranch cs bv) <-> forall i, ochild S (slot cs i).
Proof.
  split.
  - intros H i u [_ Hu]%slot_Some. inversion H; eauto.
  - intros H. constructor; intros i u Hu; apply (H (Z.of_nat i)); rewrite slot_nat; by rewrite Hu.
Qed.

Lemma resolve_in_oref S D o : opwf D o -> D <= MAX_DEPTH -> ochild S o ->
  resolve_in S (oref o) = Ok (onode o).
Proof.
  intros Hw HD Ho. destruct o as [u|]; [|done]. simpl.
  destruct (node_of_ok D u) as [Hs Hf]; [by apply Hw|done|].
  destruct (Ho u eq_refl) as [Hr _]. unfold ref_to. case_match eqn:H32; bool_to_prop; [done|].
  destruct (Hr H32) as [Hfetch Hne]. simpl.
  rewrite bool_decide_eq_false_2 by done. rewrite Hfetch. cbn [ok_or mbind res_bind].
  by apply decode_encode.
Qed.

(** ** Running the methods *)

Context {DB : Type} `{DBI : TrieDB DB} (Dom : bytes -> Prop).
Context `{HC : !CollisionFree keccak Dom}.

(** What can be fetched is stored under its own hash. *)
Definition good (t : MutableTrie (DB := DB)) : Prop :=
  forall h e, fetch t h = Some e -> Dom e /\ keccak e = h.

Definition spec {A} (m : M (MutableTrie (DB := DB)) TrieError A) (t : MutableTrie)
    (Q : A -> MutableTrie -> Prop) : Prop :=
  good t -> Forall Dom (written (snd (m t))) ->
  exists a, fst (m t) = Ok a /\ good (snd (m t)) /\ sub (fetch t) (fetch (snd (m t))) /\
    Q a (snd (m t)).

(** Encodings are only added to [written]. *)
Definition mono {A} (m : M (MutableTrie (DB := DB)) TrieError A) : Prop :=
  forall t, Forall Dom (written (snd (m t))) -> Forall Dom (written t).

Lemma mono_ret {A} (a : A) : mono (mret a).
Proof. intros t H. exact H. Qed.
Lemma mono_lift {A} (r : res TrieError A) : mono (lift r).
Proof. intros t H. exact H. Qed.
Lemma mono_bind {A B} m (k : A -> M _ _ B) : mono m -> (forall a, mono (k a)) -> mono (m ≫= k).
Proof.
  intros Hm Hk t. unfold mbind, M_bind. specialize (Hm t). destruct (m t) as [[a|e|] t'];
    simpl in *; [|done..]. intros Hw. by apply Hm, (Hk a).
Qed.
Lemma mono_resolve r : mono (resolve r).
Proof. intros t H. exact H. Qed.
Lemma mono_set_root h : mono (set_root h).
Proof. intros t H. exact H. Qed.
Lemma mono_gets {A} (f : MutableTrie -> A) : mono (gets f).
Proof. intros t H. exact H. Qed.
Lemma mono_cache_insert h e : mono (cache_insert h e).
Proof. intros t H. simpl in H. by inversion H. Qed.

Lemma spec_ret {A} (a : A) t (Q : A -> MutableTrie -> Prop) : Q a t -> spec (mret a) t Q.
Proof. intros HQ Hg _. by exists a. Qed.

Lemma spec_bind {A B} m (k : A -> M _ _ B) t Q :
  (forall a, mono (k a)) -> spec m t (fun a t' => spec (k a) t' Q) -> spec (m ≫= k) t Q.
Proof.
  intros Hk Hm Hg Hw. unfold spec in Hm. unfold mbind, M_bind in *.
  destruct (m t) as [[a|e|] t'] eqn:Hmt; simpl in *.
  - destruct Hm as (a' & [= <-] & Hg' & Hs & HQ); [done|by apply (Hk a)|].
    destruct (HQ Hg' Hw) as (b & Hb & Hg'' & Hs' & HQ'). exists b. split_and!; try done.
    by etrans.
  - by destruct Hm as (? & [=] & _).
  - by destruct Hm as (? & [=] & _).
Qed.

Lemma spec_conseq {A} (m : M _ _ A) t (Q Q' : A -> MutableTrie -> Prop) :
  spec m t Q -> (forall a t', good t' -> sub (fetch t) (fetch t') -> Q a t' -> Q' a t') -> spec m t Q'.
Proof.
  intros Hm HQ Hg Hw. destruct (Hm Hg Hw) as (a & Ha & Hg' & Hs & H). exists a. eauto 10.
Qed.

Lemma spec_lift {A} (r : res TrieError A) a t (Q : A -> MutableTrie -> Prop) :
  r = Ok a -> Q a t -> spec (lift r) t Q.
Proof. intros -> HQ Hg _. by exists a. Qed.

Lemma spec_gets {A} (f : MutableTrie -> A) t (Q : A -> MutableTrie -> Prop) :
  Q (f t) t -> spec (gets f) t Q.
Proof. intros HQ Hg _. by exists (f t). Qed.

Lemma spec_set_root h t (Q : unit -> MutableTrie -> Prop) :
  (forall t', root t' = h -> fetch t' = fetch t -> Q tt t') -> spec (set_root h) t Q.
Proof. intros HQ Hg _. exists tt. split_and!; [done..|]. by apply HQ. Qed.

Lemma spec_cache_insert e t (Q : unit -> MutableTrie -> Prop) :
  (forall t', fetch t' (keccak e) = Some e -> Dom e -> Q tt t') ->
  spec (cache_insert (keccak e) e) t Q.
Proof.
  intros HQ Hg Hw. simpl in Hw. apply Forall_cons_iff in Hw as [He _]. exists tt.
  assert (forall h, fetch (snd (cache_insert (keccak e) e t)) h =
    if decide (keccak e = h) then Some e else fetch t h) as Hf.
  { intros h. unfold fetch. simpl. rewrite lookup_insert. by case_decide. }
  split_and!; [done| | |].
  - intros h e'. rewrite Hf. case_decide; [by intros [= <-]|apply Hg].
  - intros h e' He'. rewrite Hf. case_decide as Hh; [|done].
    destruct (Hg h e' He') as [Hd Hk]. f_equal. apply (keccak_inj (Dom := Dom)); [done..|congruence].
  - apply HQ; [|done]. rewrite Hf. by rewrite decide_True.
Qed.

Lemma mono_store_node n : mono (store_node keccak n).
Proof.
  unfold store_node. case_match; [apply mono_ret|].
  apply mono_bind; [apply mono_cache_insert|intros; apply mono_ret].
Qed.

Lemma mono_commit_root n : mono (commit_root keccak n).
Proof.
  unfold commit_root. case_match; [apply mono_ret|..];
    (apply mono_bind; [apply mono_cache_insert|intros; apply mono_ret]).
Qed.

Lemma spec_resolve o D t (Q : TrieNode -> MutableTrie -> Prop) :
  opwf D o -> D <= MAX_DEPTH -> ochild (fetch t) o ->
  Q (onode o) t -> spec (resolve (oref o)) t Q.
Proof.
  intros Hw HD Ho HQ Hg _. exists (onode o). simpl. rewrite (resolve_in_oref _ D) by done. done.
Qed.

Lemma spec_store_node u t (Q : NodeRef -> MutableTrie -> Prop) :
  stored (fetch t) u ->
  (forall t', sub (fetch t) (fetch t') -> ochild (fetch t') (Some u) -> Q (ref_to (node_of u)) t') ->
  spec (store_node keccak (node_of u)) t Q.
Proof.
  intros Hst HQ. unfold store_node, ref_to in *. case_match eqn:H32; bool_to_prop.
  - apply spec_ret. apply HQ; [done|]. apply ochild_some. split; [|done]. intros ?. lia.
  - apply spec_bind; [intros; apply mono_ret|].
    eapply spec_conseq; [apply spec_cache_insert with (Q := fun _ t' =>
      fetch t' (keccak (encode (node_of u))) = Some (encode (node_of u)) /\ Dom (encode (node_of u)));
      by intros|].
    intros [] t' Hg Hs [Hf Hd]. apply spec_ret. apply HQ; [done|]. apply ochild_some.
    split; [|by eapply stored_sub]. intros _. split; [done|]. by apply (keccak_not_empty (Dom := Dom)).
Qed.
End repr.

#[export] Hint Resolve mono_ret mono_lift mono_resolve mono_set_root mono_gets mono_cache_insert
  mono_store_node mono_commit_root : trie_mono.
