(* ===== verification/TrieCorrect.v ===== *)
(** * Correctness of the mutable trie

    [denotes t m]: the trie [t] holds exactly the bindings of the map [m].
    Each operation of trie.rs implements the operation of the map, the root
    hash is determined by the map, and a commit survives reopening. *)

From Stdlib Require Import ZArith Lia.
From stdpp Require Import base tactics list gmap numbers option.
From S2P Require Import Prelude Bytes Rlp Nibbles TrieNode Trie TrieRepr.

Local Open Scope Z_scope.

(** Splits a method into the operations it is bound from. *)
Ltac mono :=
  repeat first
    [ progress auto with trie_mono
    | apply mono_bind | progress intros
    | match goal with
      | |- mono _ (let '(_, _) := ?x in _) => destruct x
      | |- mono _ (match ?x with _ => _ end) => destruct x
      end ].

Section correct.
Context (keccak : bytes -> H256).
Context `{HK : !Hash256 keccak}.
Context {DB : Type} `{DBI : TrieDB DB} (Dom : bytes -> Prop).
Context `{HC : !CollisionFree keccak Dom}.

#[local] Abbreviation spec := (spec keccak (DBI := DBI) Dom).
#[local] Abbreviation mono := (mono Dom).
#[local] Abbreviation Q A := (A -> MutableTrie (DB := DB) -> Prop).

Lemma mono_place p cp v cs bv : mono (place (DB := DB) keccak p cp v cs bv).
Proof. unfold place, at_path, set_slot. mono. Qed.

Lemma mono_wrap_branch kr cp cs bv : mono (wrap_branch (DB := DB) keccak kr cp cs bv).
Proof. unfold wrap_branch. mono. Qed.

#[local] Hint Resolve mono_place mono_wrap_branch : trie_mono.

Lemma mono_insert_node fuel n key depth v :
  mono (insert_node (DB := DB) keccak fuel n key depth v).
Proof.
  revert n depth. induction fuel as [|fuel IH]; intros n depth; [apply mono_lift|].
  unfold insert_node; fold (insert_node (DB := DB) keccak). unfold at_path, get_slot, set_slot.
  mono.
Qed.

Lemma mono_maybe_collapse cs bv : mono (maybe_collapse_branch (DB := DB) keccak cs bv).
Proof. unfold maybe_collapse_branch, get_slot. mono. Qed.

#[local] Hint Resolve mono_insert_node mono_maybe_collapse : trie_mono.

Lemma mono_delete_node fuel n key depth : mono (delete_node (DB := DB) keccak fuel n key depth).
Proof.
  revert n depth. induction fuel as [|fuel IH]; intros n depth; [apply mono_lift|].
  unfold delete_node; fold (delete_node (DB := DB) keccak). unfold at_path, get_slot, set_slot.
  mono.
Qed.

#[local] Hint Resolve mono_delete_node : trie_mono.
(** ** Building blocks *)

Lemma zlen_orefs cs : zlen (orefs keccak cs) = zlen cs.
Proof. unfold zlen, orefs. by rewrite length_map. Qed.

Lemma orefs_lookup cs i o : cs !! i = Some o -> orefs keccak cs !! i = Some (oref keccak o).
Proof. intros Hi. unfold orefs. change (map ?f ?l) with (f <$> l). by rewrite list_lookup_fmap, Hi. Qed.

Lemma orefs_insert cs i o :
  <[i := oref keccak o]> (orefs keccak cs) = orefs keccak (<[i := o]> cs).
Proof. unfold orefs. change map with (@list_fmap) in *. by rewrite <-list_fmap_insert. Qed.

Lemma spec_get_slot cs i t (P : Q NodeRef) : length cs = 16%nat -> nib i ->
  P (oref keccak (slot cs i)) t -> spec (get_slot (orefs keccak cs) i) t P.
Proof.
  intros Hl Hi HP. destruct (nib_to_nat i Hi) as [Hn Hz].
  destruct (lookup_lt_is_Some_2 cs (Z.to_nat i)) as [o Ho]; [lia|].
  apply spec_lift with (oref keccak (slot cs i)); [|done].
  unfold index. rewrite (proj2 (Z.leb_le 0 i)) by (unfold nib in Hi; lia).
  rewrite (orefs_lookup _ _ _ Ho). rewrite <-Hz, slot_nat, Ho. done.
Qed.

Lemma spec_set_slot cs i o t (P : Q (list NodeRef)) : length cs = 16%nat -> nib i ->
  P (orefs keccak (<[Z.to_nat i := o]> cs)) t ->
  spec (set_slot (orefs keccak cs) i (oref keccak o)) t P.
Proof.
  intros Hl Hi HP. unfold set_slot. rewrite zlen_orefs. unfold nib, zlen in *.
  rewrite (proj2 (Z.leb_le 0 i)), (proj2 (Z.ltb_lt i _)) by lia. simpl.
  apply spec_ret. by rewrite orefs_insert.
Qed.

Lemma spec_at_path (p : path) (i : nat) x t (P : Q Z) :
  p !! i = Some x -> P x t -> spec (at_path p i) t P.
Proof. intros Hx HP. apply spec_lift with x; [by rewrite Hx|done]. Qed.

Definition children_ok (S : store) (cs : list (option ptree)) : Prop :=
  forall i, ochild keccak S (slot cs i).

Lemma children_ok_sub S S' cs : sub S S' -> children_ok S cs -> children_ok S' cs.
Proof. intros Hs Hc i. by eapply ochild_sub. Qed.

Lemma children_ok_insert S cs i o : length cs = 16%nat -> nib i ->
  ochild keccak S o -> children_ok S cs -> children_ok S (<[Z.to_nat i := o]> cs).
Proof.
  intros Hl Hi Ho Hc j. rewrite slot_insert by (unfold nib in *; lia). case_decide; [done|apply Hc].
Qed.

Lemma children_ok_none S : children_ok S no_slots.
Proof. intros i. by rewrite slot_none. Qed.

Lemma psub_rest (c : path) i rest :
  psub (c ++ i :: rest) (length c + 1) (length (c ++ i :: rest) - length c - 1) = rest.
Proof.
  unfold psub. rewrite length_app. simpl.
  replace (length c + 1)%nat with (length (c ++ [i])) by (rewrite length_app; simpl; lia).
  replace (c ++ i :: rest) with ((c ++ [i]) ++ rest) by (by rewrite <-app_assoc).
  rewrite drop_app_length. apply take_ge. lia.
Qed.

Lemma psub_prefix (c rest : path) : psub (c ++ rest) 0 (length c) = c.
Proof. unfold psub. rewrite drop_0. apply take_app_length. Qed.

Lemma spec_place c rest v cs bv t (P : Q (list NodeRef * option bytes)) :
  length cs = 16%nat -> Forall nib rest -> children_ok (fetch t) cs ->
  (forall t', sub (fetch t) (fetch t') ->
     children_ok (fetch t') (fst (pplace rest v (cs, bv))) ->
     P (orefs keccak (fst (pplace rest v (cs, bv))), snd (pplace rest v (cs, bv))) t') ->
  spec (place keccak (c ++ rest) (length c) v (orefs keccak cs) bv) t P.
Proof.
  intros Hl Hr Hc HP. unfold place. destruct rest as [|i rest].
  - rewrite app_nil_r, Nat.eqb_refl. apply spec_ret. by apply HP.
  - apply Forall_cons_iff in Hr as [Hi _].
    rewrite (proj2 (Nat.eqb_neq _ _)) by (rewrite length_app; simpl; lia).
    apply spec_bind; [unfold set_slot; mono|].
    apply spec_at_path with i; [by rewrite lookup_app_r, Nat.sub_diag by lia|].
    rewrite psub_rest. apply spec_bind; [unfold set_slot; mono|].
    apply (spec_store_node keccak Dom (PLeaf rest v)); [constructor|].
    intros t1 Hs1 Ho1. apply spec_bind; [mono|].
    apply (spec_set_slot cs i (Some (PLeaf rest v))); [done..|].
    apply spec_ret. apply HP; [done|]. apply children_ok_insert; [done..|].
    by eapply children_ok_sub.
Qed.

Lemma spec_wrap_branch c rest cs bv t (P : Q TrieNode) :
  children_ok (fetch t) cs ->
  (forall t', sub (fetch t) (fetch t') -> stored keccak (fetch t') (pwrap c (cs, bv)) ->
     P (node_of keccak (pwrap c (cs, bv))) t') ->
  spec (wrap_branch keccak (c ++ rest) (length c) (orefs keccak cs) bv) t P.
Proof.
  intros Hc HP. apply stored_branch_slots with (bv := bv) in Hc. unfold wrap_branch.
  rewrite psub_prefix. destruct c as [|a c].
  - apply spec_ret. by apply HP.
  - apply spec_bind; [mono|].
    apply (spec_store_node keccak Dom (PBranch cs bv)); [done|].
    intros t1 Hs1 Ho1%ochild_some. apply spec_ret. apply HP; [done|]. by constructor; apply Ho1.
Qed.
(** ** Insertion *)

Definition ostored (S : store) (ot : option ptree) : Prop := forall u, ot = Some u -> stored keccak S u.

Lemma ostored_child S ot : ochild keccak S ot -> ostored S ot.
Proof. intros H u Hu. by destruct (H u Hu). Qed.

(** What [insert_node] must deliver for the remaining key [k]. *)
Definition inserted (D : Z) (ot : option ptree) (k : path) (v : bytes) (S : store) (u : ptree) : Prop :=
  stored keccak S u /\ pwf D u /\
  (forall w, ot = Some w -> is_branch w = true -> is_branch u = true) /\
  (forall q, plookup u q = if decide (q = k) then Some v else olookup ot q).

Lemma spec_insert_leaf D p old k v fuel key depth t (P : Q TrieNode) :
  pwf D (PLeaf p old) -> value_ok v -> Forall nib k -> zlen k <= D -> k = drop depth key ->
  (forall t' u, sub (fetch t) (fetch t') -> inserted D (Some (PLeaf p old)) k v (fetch t') u ->
     P (node_of keccak u) t') ->
  spec (insert_node keccak (S fuel) (Leaf p old) key depth v) t P.
Proof.
  intros Hw Hv Hk HkD Hkd HP. cbn [insert_node]. rewrite <-Hkd.
  destruct (cpl_decomp k p) as (c & k' & p' & -> & -> & -> & Hd).
  apply Forall_app in Hk as [Hc Hk]. inversion Hw as [? ? ? Hp HpD Hold| |]; subst.
  apply Forall_app in Hp as [_ Hp].
  destruct (decide (p' = k')) as [->|Hne].
  - assert (k' = []) as -> by (destruct k' as [|a k']; [done|]; by destruct (Hd a a)).
    rewrite app_nil_r in *. rewrite Nat.eqb_refl. simpl. apply spec_ret, (HP t (PLeaf c v)); [done|].
    split_and!; [constructor|by inversion Hw; constructor|by intros ? [= <-]|].
    intros q. simpl. by repeat case_decide.
  - assert (Nat.eqb (length c) (length (c ++ p')) && Nat.eqb (length c) (length (c ++ k')) = false) as ->.
    { rewrite !length_app. destruct p', k'; [done|..]; simpl;
        apply andb_false_iff; rewrite !Nat.eqb_neq; lia. }
    apply spec_bind; [mono|].
    apply (spec_place c p' old no_slots None); [done..|apply children_ok_none|].
    intros t1 Hs1 Hc1. apply spec_bind; [mono|].
    assert (length (fst (pplace p' old (no_slots, None))) = 16%nat) as Hl1
      by (destruct p'; simpl; [done|by rewrite length_insert]).
    destruct (pplace p' old (no_slots, None)) as [cs1 bv1] eqn:Hpl.
    apply spec_place; [done..|].
    assert (leaf_split c p' old k' v = pwrap c (pplace k' v (cs1, bv1))) as Hls
      by (unfold leaf_split; by rewrite Hpl).
    cbn [fst snd]. destruct (pplace k' v (cs1, bv1)) as [cs2 bv2]. intros t2 Hs2 Hc2.
    apply (spec_wrap_branch c k'); [done|]. intros t3 Hs3 Hst. apply HP; [by do 2 etrans|].
    cbn [fst snd] in *. rewrite <-Hls in *. split_and!; [done| |by intros ? [= <-]|].
    + apply leaf_split_pwf; done.
    + intros q. by rewrite leaf_split_lookup.
Qed.

Lemma ext_remaining_psub (c : path) i rem :
  (if Nat.ltb (length c + 1) (length (c ++ i :: rem))
   then psub (c ++ i :: rem) (length c + 1) (length (c ++ i :: rem) - length c - 1) else []) = rem.
Proof.
  case_match eqn:Hlt; [apply psub_rest|]. apply Nat.ltb_ge in Hlt.
  rewrite length_app in Hlt. simpl in Hlt. destruct rem; simpl in *; [done|lia].
Qed.

(** The child slot of an extension split. *)
Lemma spec_ext_rest rem w t (P : Q NodeRef) :
  is_branch w = true -> ochild keccak (fetch t) (Some w) ->
  (forall t', sub (fetch t) (fetch t') -> ochild keccak (fetch t') (Some (prest rem w)) ->
     P (oref keccak (Some (prest rem w))) t') ->
  spec (if Nat.eqb (length rem) 0 then mret (ref_to keccak (node_of keccak w))
        else store_node keccak (Extension rem (ref_to keccak (node_of keccak w)))) t P.
Proof.
  intros Hb Ho HP. destruct rem as [|a rem]; simpl.
  - apply spec_ret. by apply HP.
  - apply (spec_store_node keccak Dom (PExt (a :: rem) w)).
    + apply ochild_some in Ho as [? ?]. by constructor.
    + intros t' Hs Ho'. by apply HP.
Qed.

Lemma spec_insert_split D c i rem w k' v fuel key depth t (P : Q TrieNode) :
  pwf D (PExt (c ++ i :: rem) w) -> value_ok v -> Forall nib (c ++ k') -> zlen (c ++ k') <= D ->
  c ++ k' = drop depth key -> head k' <> Some i -> cpl (c ++ k') (c ++ i :: rem) = length c ->
  ochild keccak (fetch t) (Some w) ->
  (forall t' u, sub (fetch t) (fetch t') ->
     inserted D (Some (PExt (c ++ i :: rem) w)) (c ++ k') v (fetch t') u -> P (node_of keccak u) t') ->
  spec (insert_node keccak (S fuel) (node_of keccak (PExt (c ++ i :: rem) w)) key depth v) t P.
Proof.
  intros Hw Hv Hk HkD Hkd Hd Hcp Ho HP. cbn [node_of insert_node]. rewrite <-Hkd, Hcp.
  inversion Hw as [|? ? ? Hp _ Hwb Hww|]; subst. apply Forall_app in Hk as [Hc Hk].
  pose proof Hp as Hp'. apply Forall_app in Hp' as [_ Hp']. apply Forall_cons_iff in Hp' as [Hi Hrem].
  assert (Nat.eqb (length c) (length (c ++ i :: rem)) = false) as ->.
  { apply Nat.eqb_neq. rewrite length_app. simpl. lia. }
  rewrite ext_remaining_psub.
  apply spec_bind; [intros; unfold set_slot; mono|].
  apply spec_at_path with i; [by rewrite lookup_app_r, Nat.sub_diag by lia|].
  apply spec_bind; [intros; unfold set_slot; mono|].
  apply spec_ext_rest; [done..|]. intros t1 Hs1 Ho1.
  apply spec_bind; [mono|].
  apply (spec_set_slot no_slots i (Some (prest rem w))); [done..|].
  apply spec_bind; [mono|].
  apply spec_place; [by rewrite length_insert|done| |].
  { apply children_ok_insert; [done..|]. apply children_ok_none. }
  assert (ext_split c i rem w k' v =
    pwrap c (pplace k' v (<[Z.to_nat i := Some (prest rem w)]> no_slots, None))) as Hes by done.
  cbn [fst snd]. destruct (pplace k' v _) as [cs2 bv2]. intros t2 Hs2 Hc2.
  apply (spec_wrap_branch c k'); [done|]. intros t3 Hs3 Hst. apply HP; [by do 2 etrans|].
  cbn [fst snd] in *. rewrite <-Hes in *. split_and!; [done| |by intros ? [= <-]|].
  - by apply ext_split_pwf.
  - intros q. by apply ext_split_lookup.
Qed.
Lemma drop_add (key : path) d n : drop (d + n) key = drop n (drop d key).
Proof. by rewrite drop_drop. Qed.

Lemma drop_cons_lookup (key : path) d i k : i :: k = drop d key -> key !! d = Some i /\ drop (d + 1) key = k.
Proof.
  intros Hk. split.
  - replace d with (d + 0)%nat by lia. rewrite <-lookup_drop, <-Hk. done.
  - rewrite drop_add, <-Hk. done.
Qed.

Lemma drop_app_add' (key c k : path) d : c ++ k = drop d key -> k = drop (d + length c) key.
Proof. intros Hk. rewrite drop_add, <-Hk. by rewrite drop_app_length. Qed.

Lemma drop_nonempty (key : path) d i k : i :: k = drop d key -> (d < length key)%nat.
Proof.
  intros H. destruct (decide (d < length key)%nat); [done|].
  rewrite drop_ge in H by lia. done.
Qed.

Lemma pwf_set_child D cs bv i u : pwf D (PBranch cs bv) -> nib i -> pwf (D - 1) u ->
  pwf D (PBranch (<[Z.to_nat i := Some u]> cs) bv).
Proof.
  intros Hw Hi Hu. inversion Hw as [| |? ? ? Hl Hcs Hv He]; subst.
  destruct (branch_ok_set D cs bv i (Some u)) as (Hl' & Hcs' & Hv'); simpl in *;
    [done|by intros ? [= <-]|done|].
  constructor; [done..|]. destruct (nib_to_nat i Hi) as [Hn _].
  pose proof (occupied_insert cs (Z.to_nat i) (Some u) Hl Hn). unfold entries in *.
  destruct (mjoin (cs !! Z.to_nat i)); simpl in *; lia.
Qed.

Lemma lookup_set_child cs bv i o q : length cs = 16%nat -> nib i ->
  plookup (PBranch (<[Z.to_nat i := o]> cs) bv) q =
    match q with
    | j :: r => if decide (j = i) then olookup o r else plookup (PBranch cs bv) q
    | [] => bv
    end.
Proof.
  intros Hl Hi. destruct q as [|j r]; [done|]. rewrite !plookup_branch, slot_insert by (unfold nib in *; lia).
  by case_decide.
Qed.

Definition depth_ok (D : Z) (key : path) (depth : nat) : Prop :=
  (depth <= length key)%nat /\ zlen (drop depth key) <= D /\ D <= MAX_DEPTH.

Lemma depth_ok_app D key depth c k : c ++ k = drop depth key -> depth_ok D key depth ->
  depth_ok (D - zlen c) key (depth + length c).
Proof.
  intros Hk (Hd & Hz & HD). pose proof (zlen_nonneg c). split_and!.
  - assert (length (c ++ k) = length key - depth)%nat as Hl by (rewrite Hk; apply length_drop).
    rewrite length_app in Hl. destruct (decide (c = [])) as [->|Hc]; [simpl; lia|].
    assert (length c <> 0)%nat by (by destruct c). lia.
  - rewrite <-(drop_app_add' _ _ _ _ Hk). rewrite <-Hk, zlen_app in Hz. lia.
  - lia.
Qed.

(** What [insert_node] does with enough fuel; the cases that recurse assume it
    for the fuel below. *)
Definition inserts (fuel : nat) : Prop := forall ot key depth v t D (P : Q TrieNode),
  opwf D ot -> ostored (fetch t) ot -> value_ok v -> Forall nib key -> depth_ok D key depth ->
  (length key - depth < fuel)%nat ->
  (forall t' u, sub (fetch t) (fetch t') -> inserted D ot (drop depth key) v (fetch t') u ->
     P (node_of keccak u) t') ->
  spec (insert_node keccak fuel (onode keccak ot) key depth v) t P.

Lemma spec_insert_ext D c w k' fuel key depth v t (P : Q TrieNode) : inserts fuel ->
  pwf D (PExt c w) -> stored keccak (fetch t) (PExt c w) -> value_ok v -> Forall nib key ->
  depth_ok D key depth -> (length key - depth < S fuel)%nat ->
  c ++ k' = drop depth key -> cpl (c ++ k') c = length c ->
  (forall t' u, sub (fetch t) (fetch t') -> inserted D (Some (PExt c w)) (c ++ k') v (fetch t') u ->
     P (node_of keccak u) t') ->
  spec (insert_node keccak (S fuel) (node_of keccak (PExt c w)) key depth v) t P.
Proof.
  intros IH Hw Hst Hv Hkey Hdo Hf Hkd Hcp HP.
  assert (ochild keccak (fetch t) (Some w)) as Hch by (apply ochild_some; by inversion Hst).
  cbn [node_of insert_node]. rewrite <-Hkd, Hcp, Nat.eqb_refl.
  inversion Hw as [|? ? ? Hp Hpn Hwb Hww|]; subst.
  pose proof (drop_app_add' _ _ _ _ Hkd) as Hkd'.
  pose proof (depth_ok_app _ _ _ _ _ Hkd Hdo) as Hdo'.
  apply spec_bind; [mono|]. apply (spec_resolve keccak Dom (Some w) (D - zlen c));
    [by apply opwf_some|apply Hdo'|done|].
  apply spec_bind; [mono|]. eapply IH; [by apply opwf_some|by apply ostored_child|done..| |].
  { destruct c; [done|]. simpl. destruct Hdo' as [? _]. simpl in *. lia. }
  intros t1 u Hs1 (Hu1 & Hu2 & Hu3 & Hu4). apply spec_bind; [mono|].
  apply spec_store_node; [done|done|]. intros t2 Hs2 Ho2%ochild_some.
  apply spec_ret, (HP t2 (PExt c u)); [by etrans|]. split_and!.
  - by constructor; apply Ho2.
  - constructor; eauto.
  - by intros ? [= <-].
  - intros q. apply (prefix_lookup c k' q v (plookup u) (plookup w) (plookup (PExt c w)));
      [|done]. intros r. by rewrite Hu4, <-Hkd'.
Qed.

Lemma spec_insert_branch D cs bv fuel key depth v t (P : Q TrieNode) : inserts fuel ->
  pwf D (PBranch cs bv) -> stored keccak (fetch t) (PBranch cs bv) -> value_ok v -> Forall nib key ->
  depth_ok D key depth -> (length key - depth < S fuel)%nat ->
  (forall t' u, sub (fetch t) (fetch t') ->
     inserted D (Some (PBranch cs bv)) (drop depth key) v (fetch t') u -> P (node_of keccak u) t') ->
  spec (insert_node keccak (S fuel) (node_of keccak (PBranch cs bv)) key depth v) t P.
Proof.
  intros IH Hw Hst Hv Hkey Hdo Hf HP. pose proof (Forall_drop _ depth _ Hkey) as Hkr.
  pose proof (proj1 Hdo) as Hd. rewrite stored_branch_slots in Hst.
  inversion Hw as [| |? ? ? Hl Hcs Hbv He]; subst.
  rewrite node_of_branch. cbn [insert_node].
  destruct (drop depth key) as [|i k'] eqn:Hkd; symmetry in Hkd.
  - assert (depth = length key) as Hlen.
    { apply (f_equal length) in Hkd. rewrite length_drop in Hkd. simpl in Hkd. lia. }
    rewrite (proj2 (Nat.eqb_eq _ _)) by done.
    apply spec_ret, (HP t (PBranch cs (Some v))); [done|]. split_and!.
    + by apply stored_branch_slots.
    + constructor; [done..|by intros ? [= <-]|]. unfold entries in *. destruct bv; simpl in *; lia.
    + done.
    + intros q. destruct q as [|j q]; [done|]. rewrite decide_False by done.
      etrans; [apply plookup_branch|symmetry; apply plookup_branch].
  - pose proof (drop_nonempty _ _ _ _ Hkd) as Hlt. destruct (drop_cons_lookup _ _ _ _ Hkd) as [Hat Hkd'].
    rewrite (proj2 (Nat.eqb_neq _ _)) by lia.
    apply Forall_cons_iff in Hkr as [Hi Hkr].
    pose proof (depth_ok_app D key depth [i] k' Hkd Hdo) as Hdo'. simpl in Hdo'.
    change (zlen [i]) with 1 in Hdo'.
    apply spec_bind; [intros; unfold set_slot, get_slot; mono|]. apply spec_at_path with i; [done|].
    apply spec_bind; [intros; unfold set_slot; mono|]. apply spec_get_slot; [done..|].
    apply spec_bind; [intros; unfold set_slot; mono|].
    apply (spec_resolve keccak Dom (slot cs i) (D - 1)); [|apply Hdo'|apply Hst|].
    { intros u Hu. by eapply pwf_branch_slot. }
    apply spec_bind; [intros; unfold set_slot; mono|].
    eapply IH; [|apply ostored_child, Hst|done|done|exact Hdo'|lia|].
    { intros u Hu. by eapply pwf_branch_slot. }
    intros t1 u Hs1 (Hu1 & Hu2 & Hu3 & Hu4). apply spec_bind; [intros; unfold set_slot; mono|].
    apply spec_store_node; [done|done|]. intros t2 Hs2 Ho2.
    apply spec_bind; [mono|]. apply (spec_set_slot cs i (Some u)); [done..|].
    apply spec_ret, (HP t2 (PBranch (<[Z.to_nat i := Some u]> cs) bv)); [by etrans|]. split_and!.
    + apply stored_branch_slots. apply children_ok_insert; [done..|].
      eapply children_ok_sub; [|exact Hst]. by etrans.
    + by apply pwf_set_child.
    + done.
    + intros q. rewrite lookup_set_child by done. destruct q as [|j r]; [done|].
      change (olookup (Some (PBranch cs bv)) (j :: r)) with (plookup (PBranch cs bv) (j :: r)).
      destruct (decide (j = i)) as [->|]; [|by rewrite (decide_False (P := j :: r = i :: k')) by congruence].
      change (olookup (Some u) r) with (plookup u r).
      rewrite Hu4, Hkd', plookup_branch. repeat case_decide; by simplify_eq.
Qed.

Lemma spec_insert_node fuel : inserts fuel.
Proof.
  induction fuel as [|fuel IH]; intros ot key depth v t D P Hw Hst Hv Hkey Hdo Hf HP; [lia|].
  pose proof Hdo as (Hd & Hz & HD). pose proof (Forall_drop _ depth _ Hkey) as Hkr.
  destruct ot as [[p old|p w|cs bv]|].
  - eapply spec_insert_leaf; eauto.
  - apply opwf_some in Hw. specialize (Hst _ eq_refl). remember (drop depth key) as kr eqn:Hkd.
    destruct (cpl_decomp kr p) as (c & k' & p' & -> & -> & Hcp & Hdiv).
    destruct p' as [|i rem].
    + rewrite app_nil_r in *. by eapply (spec_insert_ext D c w k').
    + eapply spec_insert_split; eauto; [intros Hh; by eapply Hdiv|].
      apply ochild_some. by inversion Hst.
  - eapply spec_insert_branch; eauto.
  - cbn [onode insert_node]. apply spec_ret, (HP t (PLeaf (drop depth key) v)); [done|].
    split_and!; [constructor|by constructor|done..].
Qed.
(** ** Deletion *)

Lemma is_empty_oref o : is_empty_ref (oref keccak o) = negb (bool_decide (is_Some o)).
Proof. destruct o as [u|]; [|done]. simpl. unfold ref_to. by case_match. Qed.

Lemma non_empty_orefs cs : non_empty (orefs keccak cs) = occupied cs.
Proof.
  unfold non_empty, occupied. apply List.filter_ext. intros i.
  destruct (cs !! i) as [o|] eqn:Hi.
  - rewrite (orefs_lookup _ _ _ Hi), is_empty_oref. by destruct o.
  - unfold orefs. change (map ?f ?l) with (f <$> l). by rewrite list_lookup_fmap, Hi.
Qed.

(** Merging a prefix with the node below it, as both collapses do. *)
Lemma spec_pcat prefix w t (P : Q TrieNode) : stored keccak (fetch t) w ->
  (forall t', sub (fetch t) (fetch t') -> stored keccak (fetch t') (pcat prefix w) ->
     P (node_of keccak (pcat prefix w)) t') ->
  spec match node_of keccak w with
       | TEmpty => mret TEmpty
       | Leaf p2 v => mret (Leaf (prefix ++ p2) v)
       | Extension p2 c => mret (Extension (prefix ++ p2) c)
       | Branch _ _ => r ← store_node keccak (node_of keccak w); mret (Extension prefix r)
       end t P.
Proof.
  intros Hst HP. destruct w as [p2 v|p2 w|cs bv].
  - apply spec_ret, HP; [done|]. constructor.
  - apply spec_ret, HP; [done|]. inversion Hst. by constructor.
  - cbn [node_of]. apply spec_bind; [mono|].
    apply (spec_store_node keccak Dom (PBranch cs bv)); [done|].
    intros t' Hs Ho%ochild_some. apply spec_ret, (HP t'); [done|]. by constructor; apply Ho.
Qed.

Lemma land_slot_index i : (i < 16)%nat -> Z.land (Z.of_nat i) 15 = Z.of_nat i.
Proof. intros Hi. change 15 with (Z.ones 4). rewrite Z.land_ones by lia. apply Z.mod_small. lia. Qed.

Lemma spec_maybe_collapse D cs bv t (P : Q TrieNode) :
  branch_ok D (cs, bv) -> D <= MAX_DEPTH -> children_ok (fetch t) cs ->
  (forall t', sub (fetch t) (fetch t') -> ostored (fetch t') (pcollapse cs bv) ->
     P (onode keccak (pcollapse cs bv)) t') ->
  spec (maybe_collapse_branch keccak (orefs keccak cs) bv) t P.
Proof.
  intros (Hl & Hcs & Hv) HD Hc HP. simpl in *. unfold maybe_collapse_branch, pcollapse in *.
  assert (stored keccak (fetch t) (PBranch cs bv)) as Hb by by apply stored_branch_slots.
  rewrite non_empty_orefs. destruct (occupied cs) as [|i [|j l]] eqn:Ho.
  - destruct bv; apply spec_ret, HP; try done. intros ? [= <-]. constructor.
  - destruct bv as [b|]; [apply spec_ret, HP; [done|]; by intros ? [= <-]|].
    destruct (single_occupied cs i Hl Ho) as [Hi [u Hu]].
    pose proof (Hc (Z.of_nat i)) as Hci. rewrite slot_nat, Hu in *.
    apply spec_bind; [mono|].
    apply spec_get_slot; [done|unfold nib; lia|]. rewrite slot_nat, Hu. cbn [mjoin option_join].
    apply spec_bind; [mono|]. apply (spec_resolve keccak Dom (Some u) (D - 1)); [|lia|done|].
    { apply opwf_some. by eapply Hcs. }
    rewrite land_slot_index by done.
    apply (spec_pcat [Z.of_nat i] u); [by apply ochild_some in Hci as [_ ?]|].
    intros t' Hs Hst. apply (HP t'); [done|]. by intros ? [= <-].
  - apply spec_ret, HP; [done|]. by intros ? [= <-].
Qed.

(** What [delete_node] must deliver for the remaining key [k]. *)
Definition deleted (D : Z) (ot : option ptree) (k : path) (S : store) (ot' : option ptree) : Prop :=
  ostored S ot' /\ opwf D ot' /\
  (forall q, olookup ot' q = if decide (q = k) then None else olookup ot q).

Definition deletes (fuel : nat) : Prop := forall ot key depth t D (P : Q (TrieNode * bool)),
  opwf D ot -> ostored (fetch t) ot -> Forall nib key -> depth_ok D key depth ->
  (length key - depth < fuel)%nat ->
  (olookup ot (drop depth key) = None -> P (onode keccak ot, false) t) ->
  (forall t' ot', is_Some (olookup ot (drop depth key)) -> sub (fetch t) (fetch t') ->
     deleted D ot (drop depth key) (fetch t') ot' -> P (onode keccak ot', true) t') ->
  spec (delete_node keccak fuel (onode keccak ot) key depth) t P.

Lemma cpl_eq (p q : path) : cpl p q = length p -> length p = length q -> p = q.
Proof.
  intros Hc Hl. apply cpl_full in Hc as [r ->]. rewrite length_app in Hl.
  destruct r; simpl in Hl; [by rewrite app_nil_r|lia].
Qed.

Lemma spec_delete_ext D p w fuel key depth t (P : Q (TrieNode * bool)) : deletes fuel ->
  pwf D (PExt p w) -> stored keccak (fetch t) (PExt p w) -> Forall nib key ->
  depth_ok D key depth -> (length key - depth < S fuel)%nat ->
  (plookup (PExt p w) (drop depth key) = None -> P (node_of keccak (PExt p w), false) t) ->
  (forall t' ot', is_Some (plookup (PExt p w) (drop depth key)) -> sub (fetch t) (fetch t') ->
     deleted D (Some (PExt p w)) (drop depth key) (fetch t') ot' -> P (onode keccak ot', true) t') ->
  spec (delete_node keccak (S fuel) (node_of keccak (PExt p w)) key depth) t P.
Proof.
  intros IH Hw Hst Hkey Hdo Hf HP0 HP1. cbn [delete_node node_of].
  remember (drop depth key) as kr eqn:Hkd.
  destruct (decide (take (length p) kr = p)) as [Ht|Ht].
  2:{ rewrite (proj2 (Nat.eqb_neq _ _)); simpl.
      - apply spec_ret, HP0. simpl. by rewrite decide_False.
      - intros Hc. apply Ht. rewrite cpl_comm in Hc. apply cpl_full in Hc as [r ->].
        by rewrite take_app_length. }
  apply take_prefix in Ht as [k ->].
  rewrite cpl_comm, cpl_app, Nat.eqb_refl. cbn [negb]. rewrite plookup_ext in *.
  inversion Hw as [|? ? ? Hp Hpn Hwb Hww|]; subst. inversion Hst as [|? ? Hr Hs|]; subst.
  pose proof (drop_app_add' _ _ _ _ Hkd) as Hkd'. pose proof (depth_ok_app _ _ _ _ _ Hkd Hdo) as Hdo'.
  apply spec_bind; [mono|]. apply (spec_resolve keccak Dom (Some w) (D - zlen p));
    [by apply opwf_some|apply Hdo'|by apply ochild_some|].
  apply spec_bind; [mono|]. eapply IH; [by apply opwf_some|by intros ? [= <-]|done..| | |].
  { destruct p; [done|]. simpl. destruct Hdo' as [? _]. simpl in *. lia. }
  { intros Hn. apply spec_ret, HP0. by rewrite <-Hkd' in Hn. }
  rewrite <-Hkd'. intros t1 ot' Hsome Hs1 (Hd1 & Hd2 & Hd3). cbn [negb].
  apply spec_bind; [mono|].
  assert (forall t2 (o : option ptree), sub (fetch t1) (fetch t2) ->
    o = pcat p <$> ot' -> ostored (fetch t2) o -> P (onode keccak o, true) t2) as Hfin.
  { intros t2 o Hs2 -> Ho. apply HP1; [done|by etrans|]. split_and!; [done| |].
    - intros u. destruct ot' as [u'|]; [|done]. intros [= <-]. apply pcat_pwf; [done..|by apply Hd2].
    - intros q. assert (olookup (pcat p <$> ot') q =
        if decide (take (length p) q = p) then olookup ot' (drop (length p) q) else None) as ->.
      { destruct ot' as [u'|]; simpl; [by rewrite pcat_lookup|by case_decide]. }
      destruct (decide (take (length p) q = p)) as [Ht|Ht].
      + apply take_prefix in Ht as [r ->]. rewrite drop_app_length, Hd3.
        change (olookup (Some (PExt p w)) (p ++ r)) with (plookup (PExt p w) (p ++ r)).
        rewrite plookup_ext. pose proof (path_app_inj p r k). repeat case_decide; tauto.
      + simpl. rewrite (decide_False (P := take (length p) q = p)) by done. by case_decide. }
  destruct ot' as [u|]; cbn [onode].
  - apply (spec_pcat p u); [by apply Hd1|]. intros t2 Hs2 Hst2.
    apply spec_ret, (Hfin t2 (Some (pcat p u))); [done..|]. by intros ? [= <-].
  - apply spec_ret, spec_ret, (Hfin t1 None); done.
Qed.
Lemma spec_delete_leaf D p v fuel key depth t (P : Q (TrieNode * bool)) :
  (plookup (PLeaf p v) (drop depth key) = None -> P (Leaf p v, false) t) ->
  (forall ot', is_Some (plookup (PLeaf p v) (drop depth key)) ->
     deleted D (Some (PLeaf p v)) (drop depth key) (fetch t) ot' -> P (onode keccak ot', true) t) ->
  spec (delete_node keccak (S fuel) (Leaf p v) key depth) t P.
Proof.
  intros HP0 HP1. cbn [delete_node]. simpl plookup in *.
  remember (drop depth key) as kr eqn:Hkd. destruct (Nat.eqb (length kr) (length p) && _) eqn:Hc.
  - apply andb_true_iff in Hc as [Hl Hc]. apply Nat.eqb_eq in Hl, Hc.
    assert (kr = p) as -> by (apply cpl_eq; [by rewrite Hc|done]).
    apply spec_ret, (HP1 None); [rewrite decide_True by done; by eexists|].
    split_and!; [done..|]. intros q. simpl. by repeat case_decide.
  - apply spec_ret, HP0. rewrite decide_False; [done|]. intros ->.
    rewrite Nat.eqb_refl in Hc. simpl in Hc. apply Nat.eqb_neq in Hc. apply Hc.
    by rewrite <-(app_nil_r p) at 2; rewrite cpl_app.
Qed.

(** Deleting the branch's own value. *)
Lemma spec_delete_value D cs v t (P : Q (TrieNode * bool)) :
  pwf D (PBranch cs (Some v)) -> D <= MAX_DEPTH -> children_ok (fetch t) cs ->
  (forall t' ot', sub (fetch t) (fetch t') ->
     deleted D (Some (PBranch cs (Some v))) [] (fetch t') ot' -> P (onode keccak ot', true) t') ->
  spec (c ← maybe_collapse_branch keccak (orefs keccak cs) None; mret (c, true)) t P.
Proof.
  intros Hw HD Hc HP. inversion Hw as [| |? ? ? Hl Hcs Hbv He]; subst.
  destruct (entries_slot _ _ He) as (i & u & Hu).
  pose proof (pwf_nonneg _ _ (Hcs i u Hu)).
  assert (branch_ok D (cs, None)) as Hb by by split_and!.
  apply spec_bind; [mono|]. apply (spec_maybe_collapse D); [done..|].
  intros t' Hs Ho. apply spec_ret, HP; [done|]. split_and!; [done| |].
  - apply pcollapse_pwf; [lia|done].
  - intros q. rewrite pcollapse_lookup by done. destruct q as [|j q]; [done|].
    rewrite decide_False by done. etrans; [apply plookup_branch|symmetry; apply plookup_branch].
Qed.

(** Putting back the changed child of a branch. *)
Lemma spec_delete_slot D cs bv i ot' k t t0 (P : Q (TrieNode * bool)) :
  pwf D (PBranch cs bv) -> D <= MAX_DEPTH -> nib i -> children_ok (fetch t) cs ->
  sub (fetch t0) (fetch t) -> deleted (D - 1) (slot cs i) k (fetch t) ot' ->
  (forall t' ot', sub (fetch t0) (fetch t') ->
     deleted D (Some (PBranch cs bv)) (i :: k) (fetch t') ot' -> P (onode keccak ot', true) t') ->
  spec (r ← (match onode keccak ot' with
             | TEmpty => mret REmpty
             | _ => store_node keccak (onode keccak ot')
             end);
        children' ← set_slot (orefs keccak cs) i r;
        collapsed ← maybe_collapse_branch keccak children' bv;
        mret (collapsed, true)) t P.
Proof.
  intros Hw HD Hi Hc Hs0 (Hd1 & Hd2 & Hd3) HP. inversion Hw as [| |? ? ? Hl Hcs Hbv He]; subst.
  destruct (entries_slot _ _ He) as (i0 & u0 & Hu0).
  pose proof (pwf_nonneg _ _ (Hcs i0 u0 Hu0)).
  set (cs' := <[Z.to_nat i := ot']> cs).
  assert (branch_ok D (cs', bv)) as Hb by (apply branch_ok_set; [by split_and!|exact Hd2|done]).
  assert (forall t1, sub (fetch t) (fetch t1) -> ochild keccak (fetch t1) ot' ->
    spec (children' ← set_slot (orefs keccak cs) i (oref keccak ot');
        collapsed ← maybe_collapse_branch keccak children' bv;
        mret (collapsed, true)) t1 P) as Hrest.
  { intros t1 Hs1 Ho1. apply spec_bind; [mono|]. apply spec_set_slot; [done..|].
    apply spec_bind; [mono|]. apply (spec_maybe_collapse D); [done..| |].
    { apply children_ok_insert; [done..|]. by eapply children_ok_sub. }
    intros t' Hs Ho. apply spec_ret, HP; [by do 2 etrans|]. split_and!; [done| |].
    - apply pcollapse_pwf; [lia|done].
    - intros q. rewrite pcollapse_lookup by apply Hb. unfold cs'. rewrite lookup_set_child by done.
      destruct q as [|j r]; [done|].
      change (olookup (Some (PBranch cs bv)) (j :: r)) with (plookup (PBranch cs bv) (j :: r)).
      destruct (decide (j = i)) as [->|]; [|by rewrite (decide_False (P := j :: r = i :: k)) by congruence].
      rewrite Hd3, plookup_branch. repeat case_decide; by simplify_eq. }
  apply spec_bind; [unfold set_slot; mono|].
  destruct ot' as [u|]; [|apply spec_ret; by apply (Hrest t)].
  assert (onode keccak (Some u) <> TEmpty) as Hne by by destruct u.
  assert (spec (store_node keccak (onode keccak (Some u))) t (fun a t' =>
    spec (children' ← set_slot (orefs keccak cs) i a;
          collapsed ← maybe_collapse_branch keccak children' bv;
          mret (collapsed, true)) t' P)) as Hst.
  { apply (spec_store_node keccak Dom u); [by apply Hd1|]. intros t1 Hs1 Ho1. by apply (Hrest t1). }
  by destruct (onode keccak (Some u)).
Qed.

Lemma spec_delete_branch D cs bv fuel key depth t (P : Q (TrieNode * bool)) : deletes fuel ->
  pwf D (PBranch cs bv) -> stored keccak (fetch t) (PBranch cs bv) -> Forall nib key ->
  depth_ok D key depth -> (length key - depth < S fuel)%nat ->
  (plookup (PBranch cs bv) (drop depth key) = None -> P (node_of keccak (PBranch cs bv), false) t) ->
  (forall t' ot', is_Some (plookup (PBranch cs bv) (drop depth key)) -> sub (fetch t) (fetch t') ->
     deleted D (Some (PBranch cs bv)) (drop depth key) (fetch t') ot' -> P (onode keccak ot', true) t') ->
  spec (delete_node keccak (S fuel) (node_of keccak (PBranch cs bv)) key depth) t P.
Proof.
  intros IH Hw Hst Hkey Hdo Hf HP0 HP1. pose proof (Forall_drop _ depth _ Hkey) as Hkr.
  pose proof Hdo as (Hd & _ & HD). rewrite stored_branch_slots in Hst.
  inversion Hw as [| |? ? ? Hl Hcs Hbv He]; subst.
  rewrite node_of_branch in *. cbn [delete_node].
  destruct (drop depth key) as [|i k] eqn:Hkd; symmetry in Hkd.
  - rewrite (proj2 (Nat.eqb_eq _ _)).
    2:{ apply (f_equal length) in Hkd. rewrite length_drop in Hkd. simpl in Hkd. lia. }
    destruct bv as [v|]; [|by apply spec_ret, HP0].
    apply (spec_delete_value D cs v); [done..|]. intros t' ot' Hs Hdel. by apply HP1.
  - pose proof (drop_nonempty _ _ _ _ Hkd) as Hlt. destruct (drop_cons_lookup _ _ _ _ Hkd) as [Hat Hkd'].
    rewrite (proj2 (Nat.eqb_neq _ _)) by lia. rewrite plookup_branch in HP0, HP1.
    apply Forall_cons_iff in Hkr as [Hi Hkr].
    pose proof (depth_ok_app D key depth [i] k Hkd Hdo) as Hdo'. simpl in Hdo'.
    change (zlen [i]) with 1 in Hdo'.
    assert (opwf (D - 1) (slot cs i)) as Hws by (intros u Hu; by eapply pwf_branch_slot).
    apply spec_bind; [intros; unfold set_slot, get_slot; mono|]. apply spec_at_path with i; [done|].
    apply spec_bind; [intros; unfold set_slot; mono|]. apply spec_get_slot; [done..|].
    apply spec_bind; [intros; unfold set_slot; mono|].
    apply (spec_resolve keccak Dom (slot cs i) (D - 1)); [done|apply Hdo'|apply Hst|].
    apply spec_bind; [intros [? []]; unfold set_slot; mono|].
    eapply IH; [done|apply ostored_child, Hst|done|exact Hdo'|lia| |]; rewrite Hkd'.
    + intros Hn. apply spec_ret. by apply HP0.
    + intros t1 ot' Hsome Hs1 Hdel. cbn [negb].
      eapply (spec_delete_slot D cs bv i ot' k t1 t); [done..|by eapply children_ok_sub|done|done|].
      intros t' ot'' Hs Hdel'. by apply HP1.
Qed.

Lemma spec_delete_node fuel : deletes fuel.
Proof.
  induction fuel as [|fuel IH]; intros ot key depth t D P Hw Hst Hkey Hdo Hf HP0 HP1; [lia|].
  destruct ot as [[p old|p w|cs bv]|].
  - apply (spec_delete_leaf D p old); [done|]. intros ot' Hsome Hdel. by apply HP1.
  - apply (spec_delete_ext D p w); [done|by apply Hw|by apply Hst|done..].
  - apply (spec_delete_branch D cs bv); [done|by apply Hw|by apply Hst|done..].
  - cbn [onode delete_node]. by apply spec_ret, HP0.
Qed.
(** ** What a trie holds *)

Definition key_ok (k : bytes) : Prop := Forall byte k /\ zlen k < 2 ^ 59.

Definition represents (t : MutableTrie (DB := DB)) (ot : option ptree) : Prop :=
  opwf MAX_DEPTH ot /\ ostored (fetch t) ot /\
  match ot with
  | None => root t = EMPTY_ROOT
  | Some u => root t = keccak (encode (node_of keccak u)) /\
              fetch t (root t) = Some (encode (node_of keccak u)) /\ root t <> EMPTY_ROOT
  end.

(** The paths of [ot] are the keys of [m]. *)
Definition same_map (ot : option ptree) (m : gmap bytes bytes) : Prop :=
  forall q v, olookup ot q = Some v <-> exists k, q = nibbles_of k /\ m !! k = Some v.

Definition denotes (t : MutableTrie (DB := DB)) (m : gmap bytes bytes) : Prop :=
  good keccak Dom t /\ exists ot, represents t ot /\ same_map ot m.

Lemma same_map_lookup ot m k : same_map ot m -> olookup ot (nibbles_of k) = m !! k.
Proof.
  intros Hm. apply option_eq. intros v. rewrite (Hm (nibbles_of k) v). split.
  - intros (k' & Hk & Hv). by apply nibbles_of_inj in Hk as <-.
  - intros Hv. eauto.
Qed.

Lemma same_map_insert ot ot' m k v : same_map ot m ->
  (forall q, olookup ot' q = if decide (q = nibbles_of k) then Some v else olookup ot q) ->
  same_map ot' (<[k := v]> m).
Proof.
  intros Hm Hq q w. rewrite Hq. destruct (decide (q = nibbles_of k)) as [->|Hne].
  - split; [intros [= <-]; exists k; by rewrite lookup_insert_eq|].
    intros (k' & Hk & Hv). apply nibbles_of_inj in Hk as <-. by rewrite lookup_insert_eq in Hv.
  - rewrite (Hm q w). split; intros (k' & -> & Hv); exists k'; (split; [done|]).
    + rewrite lookup_insert_ne; [done|]. by intros ->.
    + rewrite lookup_insert_ne in Hv; [done|]. by intros ->.
Qed.

Lemma same_map_delete ot ot' m k : same_map ot m ->
  (forall q, olookup ot' q = if decide (q = nibbles_of k) then None else olookup ot q) ->
  same_map ot' (base.delete k m).
Proof.
  intros Hm Hq q w. rewrite Hq. destruct (decide (q = nibbles_of k)) as [->|Hne].
  - split; [done|]. intros (k' & Hk & Hv). apply nibbles_of_inj in Hk as <-.
    by rewrite lookup_delete_eq in Hv.
  - rewrite (Hm q w). split; intros (k' & -> & Hv); exists k'; (split; [done|]).
    + rewrite lookup_delete_ne; [done|]. by intros ->.
    + rewrite lookup_delete_ne in Hv; [done|]. by intros ->.
Qed.

Lemma key_ok_path k : key_ok k ->
  Forall nib (nibbles_of k) /\ depth_ok MAX_DEPTH (nibbles_of k) 0 /\
  (length (nibbles_of k) - 0 < key_fuel (nibbles_of k))%nat.
Proof.
  intros [Hb Hl]. split_and!; [by apply nibbles_of_nib| |unfold key_fuel; lia].
  split_and!; [lia| |unfold MAX_DEPTH; lia]. rewrite drop_0. unfold zlen, MAX_DEPTH in *.
  rewrite length_nibbles_of. lia.
Qed.

Lemma spec_commit_root u t (P : Q H256) : stored keccak (fetch t) u ->
  (forall t', sub (fetch t) (fetch t') -> stored keccak (fetch t') u ->
     fetch t' (keccak (encode (node_of keccak u))) = Some (encode (node_of keccak u)) ->
     keccak (encode (node_of keccak u)) <> EMPTY_ROOT ->
     P (keccak (encode (node_of keccak u))) t') ->
  spec (commit_root keccak (node_of keccak u)) t P.
Proof.
  intros Hst HP. unfold commit_root.
  assert (spec (_ ← cache_insert (keccak (encode (node_of keccak u))) (encode (node_of keccak u));
                mret (keccak (encode (node_of keccak u)))) t P) as H.
  { apply spec_bind; [mono|].
    eapply spec_conseq; [apply spec_cache_insert with (Q := fun _ t' =>
      fetch t' (keccak (encode (node_of keccak u))) = Some (encode (node_of keccak u)) /\
      Dom (encode (node_of keccak u))); by intros|].
    intros [] t' Hg Hs [Hf Hd]. apply spec_ret, HP; [done|by eapply stored_sub|done|].
    by apply (keccak_not_empty (Dom := Dom)). }
  by destruct u.
Qed.

(** Resolving the root gives the node of the tree. *)
Lemma spec_root ot t (P : Q TrieNode) : represents t ot -> P (onode keccak ot) t ->
  spec (if bool_decide (root t = EMPTY_ROOT) then mret TEmpty else resolve (RHash (root t))) t P.
Proof.
  intros (Hw & Hst & Hr) HP. destruct ot as [u|].
  - destruct Hr as (_ & Hf & Hne). rewrite bool_decide_eq_false_2 by done.
    intros Hg _. exists (node_of keccak u). unfold resolve. simpl.
    rewrite bool_decide_eq_false_2 by done. rewrite Hf. cbn [ok_or mbind res_bind].
    destruct (node_of_ok keccak MAX_DEPTH u) as [Hs Hfit]; [by apply Hw|done|].
    by rewrite decode_encode.
  - rewrite bool_decide_eq_true_2 by done. by apply spec_ret.
Qed.

Lemma spec_insert t ot m k v : represents t ot -> same_map ot m ->
  key_ok k -> value_ok v ->
  spec (insert keccak k v) t (fun _ t' => exists ot', represents t' ot' /\ same_map ot' (<[k := v]> m)).
Proof.
  intros Hrep Hm Hk Hv. destruct (key_ok_path k Hk) as (Hn & Hdo & Hf). unfold insert.
  apply spec_bind; [mono; case_match; mono|]. apply spec_gets.
  apply spec_bind; [mono|]. apply (spec_root ot); [done|].
  apply spec_bind; [mono|].
  apply (spec_insert_node _ ot _ _ _ _ MAX_DEPTH); [apply Hrep|apply Hrep|done..|].
  rewrite drop_0. intros t1 u Hs1 (Hu1 & Hu2 & _ & Hu4). apply spec_bind; [mono|].
  apply spec_commit_root; [done|]. intros t2 Hs2 Hst Hfe Hne.
  apply spec_set_root. intros t3 Hr3 Hf3. exists (Some u). split.
  - split_and!; [by apply opwf_some|rewrite Hf3; by intros ? [= <-]|done|by rewrite Hr3, Hf3|by rewrite Hr3].
  - by eapply same_map_insert.
Qed.

Lemma spec_delete t ot m k : represents t ot -> same_map ot m -> key_ok k ->
  spec (Trie.delete keccak k) t
    (fun b t' => b = bool_decide (is_Some (m !! k)) /\
       exists ot', represents t' ot' /\ same_map ot' (base.delete k m)).
Proof.
  intros Hrep Hm Hk. destruct (key_ok_path k Hk) as (Hn & Hdo & Hf). unfold Trie.delete.
  pose proof (same_map_lookup ot m k Hm) as Hlk.
  apply spec_bind; [mono; case_match; mono|]. apply spec_gets.
  destruct ot as [w|].
  2:{ rewrite bool_decide_eq_true_2 by apply Hrep. apply spec_ret. rewrite <-Hlk. split; [done|].
      exists None. split; [done|]. eapply same_map_delete; [done|]. intros q. by case_decide. }
  assert (root t <> EMPTY_ROOT) as Hne by apply Hrep.
  rewrite bool_decide_eq_false_2 by done.
  apply spec_bind; [mono|]. pose proof (spec_root (Some w) t) as Hroot.
  rewrite bool_decide_eq_false_2 in Hroot by done. apply Hroot; [done|].
  apply spec_bind; [mono|].
  apply (spec_delete_node _ (Some w) _ _ _ MAX_DEPTH); [apply Hrep|apply Hrep|done..| |];
    rewrite drop_0, Hlk.
  - intros Hnone. apply spec_ret. rewrite Hnone. split; [done|]. exists (Some w). split; [done|].
    rewrite delete_id; done.
  - intros t1 ot' Hsome Hs1 (Hd1 & Hd2 & Hd3). cbn [negb].
    rewrite bool_decide_eq_true_2 by done.
    pose proof (same_map_delete _ _ _ _ Hm Hd3) as Hm'.
    apply spec_bind; [mono|]. destruct ot' as [u|].
    + apply spec_commit_root; [by apply Hd1|]. intros t2 Hs2 Hst Hfe Hne2. apply spec_bind; [mono|].
      apply spec_set_root. intros t3 Hr3 Hf3. apply spec_ret. split; [done|]. exists (Some u).
      split; [|done]. split_and!; [done|rewrite Hf3; by intros ? [= <-]|done|by rewrite Hr3, Hf3|by rewrite Hr3].
    + apply spec_ret, spec_bind; [mono|]. apply spec_set_root. intros t3 Hr3 Hf3. apply spec_ret.
      split; [done|]. by exists None.
Qed.
(** ** Reading *)

Definition reads_at (fuel : nat) : Prop := forall S ot r key depth D,
  resolve_in S r = Ok (onode keccak ot) -> opwf D ot -> ostored S ot ->
  Forall nib key -> depth_ok D key depth -> (length key - depth < fuel)%nat ->
  get_node fuel S r key depth = Ok (olookup ot (drop depth key)).

(** The test of [get_node] and [prove] on a leaf. *)
Lemma leaf_match (kr p : path) :
  (Nat.eqb (cpl kr p) (length p) && Nat.eqb (length p) (length kr)) = bool_decide (kr = p).
Proof.
  apply eq_true_iff_eq. rewrite andb_true_iff, !Nat.eqb_eq, bool_decide_eq_true. split.
  - intros [Hc Hl]. apply cpl_eq; [by rewrite Hl in Hc|done].
  - intros ->. split; [|done]. by rewrite <-(app_nil_r p) at 2; rewrite cpl_app.
Qed.

Lemma ext_mismatch (kr p : path) : take (length p) kr <> p -> (cpl kr p < length p)%nat.
Proof.
  intros Ht. pose proof (cpl_le_r kr p).
  destruct (decide (cpl kr p = length p)) as [Hc|]; [|lia].
  exfalso. apply Ht. rewrite cpl_comm in Hc. apply cpl_full in Hc as [r' ->].
  by rewrite take_app_length.
Qed.

(** The slot of a branch that a key descends into. *)
Lemma branch_descend D cs bv S key depth i k :
  pwf D (PBranch cs bv) -> (forall i, ochild keccak S (slot cs i)) -> Forall nib key ->
  depth_ok D key depth -> i :: k = drop depth key ->
  key !! depth = Some i /\ drop (depth + 1) key = k /\ (depth < length key)%nat /\
  depth_ok (D - 1) key (depth + 1) /\ opwf (D - 1) (slot cs i) /\
  @index _ TrieError (orefs keccak cs) i = Ok (oref keccak (slot cs i)) /\
  resolve_in S (oref keccak (slot cs i)) = Ok (onode keccak (slot cs i)).
Proof.
  intros Hw Hst Hkey Hdo Hkd. pose proof (Forall_drop _ depth _ Hkey) as Hkr.
  rewrite <-Hkd in Hkr. apply Forall_cons_iff in Hkr as [Hi _].
  pose proof (drop_nonempty _ _ _ _ Hkd) as Hlt. destruct (drop_cons_lookup _ _ _ _ Hkd) as [Hat Hkd'].
  inversion Hw as [| |? ? ? Hl Hcs Hbv He]; subst.
  destruct (nib_to_nat i Hi) as [Hn Hz].
  pose proof (depth_ok_app D key depth [i] _ Hkd Hdo) as Hdo'. change (zlen [i]) with 1 in Hdo'.
  simpl in Hdo'. assert (opwf (D - 1) (slot cs i)) as Hwo by (intros u Hu; by eapply pwf_branch_slot).
  split_and!; [done..| |].
  - destruct (lookup_lt_is_Some_2 cs (Z.to_nat i)) as [o Ho]; [lia|].
    assert (slot cs i = o) as -> by (by rewrite <-Hz, slot_nat, Ho).
    unfold index. rewrite (proj2 (Z.leb_le 0 i)) by (unfold nib in Hi; lia).
    by rewrite (orefs_lookup _ _ _ Ho).
  - apply (resolve_in_oref keccak S (D - 1)); [done|apply Hdo'|done].
Qed.

(** The child of an extension that a key descends into. *)
Lemma ext_descend D p w S key depth k :
  pwf D (PExt p w) -> stored keccak S (PExt p w) -> depth_ok D key depth -> p ++ k = drop depth key ->
  k = drop (depth + length p) key /\ depth_ok (D - zlen p) key (depth + length p) /\
  (depth < depth + length p)%nat /\ (depth + length p <= length key)%nat /\
  opwf (D - zlen p) (Some w) /\ ostored S (Some w) /\ cpl (p ++ k) p = length p /\
  resolve_in S (ref_to keccak (node_of keccak w)) = Ok (node_of keccak w).
Proof.
  intros Hw Hst Hdo Hk. pose proof (depth_ok_app _ _ _ _ _ Hk Hdo) as Hdo'.
  inversion Hw as [|? ? ? Hp Hpn Hwb Hww|]; subst. inversion Hst as [|? ? Hro Hso|]; subst.
  split_and!; [by apply drop_app_add'|done| |by apply Hdo'|by apply opwf_some|by intros ? [= <-]| |].
  - destruct p; [done|]. simpl. lia.
  - by rewrite cpl_comm, cpl_app.
  - apply (resolve_in_oref keccak S (D - zlen p) (Some w)); [by apply opwf_some|apply Hdo'|].
    by apply ochild_some.
Qed.

Lemma get_node_lookup fuel : reads_at fuel.
Proof.
  induction fuel as [|fuel IH]; intros S ot r key depth D Hr Hw Hst Hkey Hdo Hf; [lia|].
  cbn [get_node]. rewrite Hr. cbn [mbind res_bind].
  destruct ot as [[p v|p w|cs bv]|]; cbn [onode olookup option_bind mbind]; [..|done].
  - cbn [node_of plookup]. rewrite leaf_match. by repeat case_decide.
  - cbn [node_of]. apply opwf_some in Hw. specialize (Hst _ eq_refl).
    destruct (decide (take (length p) (drop depth key) = p)) as [Ht|Ht].
    + apply take_prefix in Ht as [k Hk]. rewrite Hk. symmetry in Hk.
      destruct (ext_descend _ _ _ _ _ _ _ Hw Hst Hdo Hk) as (Hkd & Hdo' & ? & ? & Hw' & Hst' & -> & Hres).
      rewrite Nat.ltb_irrefl, plookup_ext.
      rewrite (IH S (Some w) _ _ _ (D - zlen p)); (done || lia || by rewrite <-Hkd).
    + cbn [plookup]. rewrite decide_False by done.
      by rewrite (proj2 (Nat.ltb_lt _ _)) by by apply ext_mismatch.
  - apply opwf_some in Hw. specialize (Hst _ eq_refl). rewrite stored_branch_slots in Hst.
    rewrite node_of_branch. destruct (drop depth key) as [|i k] eqn:Hkd; symmetry in Hkd.
    + rewrite (proj2 (Nat.eqb_eq _ _)); [done|]. pose proof (proj1 Hdo).
      apply (f_equal length) in Hkd. rewrite length_drop in Hkd. simpl in Hkd. lia.
    + destruct (branch_descend _ _ _ _ _ _ _ _ Hw Hst Hkey Hdo Hkd) as
        (Hat & Hkd' & Hlt & Hdo' & Hw' & Hix & Hres).
      rewrite (proj2 (Nat.eqb_neq _ _)) by lia. rewrite Hat. cbn [unwrap mbind res_bind].
      rewrite Hix. cbn [mbind res_bind]. rewrite plookup_branch.
      rewrite (IH S (slot cs i) _ _ _ (D - 1)); [by rewrite Hkd'|done..|by apply ostored_child|done|done|lia].
Qed.

Lemma root_resolves t u : represents t (Some u) ->
  resolve_in (fetch t) (RHash (root t)) = Ok (node_of keccak u) /\ root t <> EMPTY_ROOT.
Proof.
  intros (Hw & Hst & _ & Hf & Hne). split; [|done]. unfold resolve_in.
  rewrite bool_decide_eq_false_2 by done. rewrite Hf. cbn [ok_or mbind res_bind].
  destruct (node_of_ok keccak MAX_DEPTH u) as [Hs Hfit]; [by apply Hw|done|].
  by rewrite decode_encode.
Qed.

(** ** The root determines the tree *)

Definition in_dom (u : ptree) : Prop := 32 <= zlen (encode (node_of keccak u)) -> Dom (encode (node_of keccak u)).

Lemma ref_ok_dom t u : good keccak Dom t -> ref_ok keccak (fetch t) u -> in_dom u.
Proof. intros Hg Hr Hl. destruct (Hr Hl) as [Hf _]. by apply (Hg _ _ Hf). Qed.

(** References of well-formed trees determine the nodes. *)
Lemma ref_to_inj D1 D2 u1 u2 : pwf D1 u1 -> pwf D2 u2 -> D1 <= MAX_DEPTH -> D2 <= MAX_DEPTH ->
  in_dom u1 -> in_dom u2 -> ref_to keccak (node_of keccak u1) = ref_to keccak (node_of keccak u2) ->
  node_of keccak u1 = node_of keccak u2.
Proof.
  intros H1 H2 HD1 HD2 Hd1 Hd2. unfold ref_to, in_dom in *.
  case_match eqn:E1; case_match eqn:E2; bool_to_prop; intros Heq; try discriminate; [congruence|].
  assert (encode (node_of keccak u1) = encode (node_of keccak u2)) as He.
  { apply (keccak_inj (Dom := Dom)); [by apply Hd1|by apply Hd2|congruence]. }
  destruct (node_of_ok keccak D1 u1) as [Hs1 Hf1]; [done..|].
  destruct (node_of_ok keccak D2 u2) as [Hs2 Hf2]; [done..|].
  apply decode_encode in Hs1; [|done]. apply decode_encode in Hs2; [|done]. congruence.
Qed.

Lemma node_of_inj t1 t2 u1 : good keccak Dom t1 -> good keccak Dom t2 -> forall D1 D2 u2,
  pwf D1 u1 -> pwf D2 u2 -> D1 <= MAX_DEPTH -> D2 <= MAX_DEPTH ->
  stored keccak (fetch t1) u1 -> stored keccak (fetch t2) u2 ->
  node_of keccak u1 = node_of keccak u2 -> u1 = u2.
Proof.
  intros Hg1 Hg2. induction u1 as [p v|p w IH|cs bv IH] using ptree_ind_nested;
    intros D1 D2 u2 H1 H2 HD1 HD2 Hs1 Hs2 Heq.
  - destruct u2; cbn [node_of] in Heq; by simplify_eq.
  - destruct u2 as [|p' w'|]; cbn [node_of] in Heq; [done| |done]. injection Heq as -> Hr.
    inversion H1; subst. inversion H2; subst. inversion Hs1; subst. inversion Hs2; subst.
    pose proof (zlen_nonneg p'). f_equal.
    eapply (IH (D1 - zlen p') (D2 - zlen p')); try done; [lia..|].
    eapply ref_to_inj; [done|done|lia|lia|by eapply (ref_ok_dom t1)|by eapply (ref_ok_dom t2)|done].
  - destruct u2 as [| |cs' bv']; [done..|]. rewrite !node_of_branch in Heq. injection Heq as Hr ->.
    inversion H1 as [| |? ? ? Hl1 Hcs1]; subst. inversion H2 as [| |? ? ? Hl2 Hcs2]; subst.
    inversion Hs1 as [| |? ? Hr1 Hst1]; subst. inversion Hs2 as [| |? ? Hr2 Hst2]; subst.
    f_equal. apply list_eq_same_length with (n := 16%nat); [done..|]. intros i o o' Hi Ho Ho'.
    pose proof (orefs_lookup _ _ _ Ho) as Hro. rewrite Hr, (orefs_lookup _ _ _ Ho') in Hro.
    assert (is_Some o' <-> is_Some o) as Hsome.
    { injection Hro as Hro. pose proof (is_empty_oref o) as E1. rewrite <-Hro, is_empty_oref in E1.
      by destruct o, o'. }
    destruct o as [u|], o' as [u'|]; [|by destruct Hsome as [_ [? ?]]|by destruct Hsome as [[? ?] _]|done].
    f_equal. injection Hro as Hro.
    eapply (IH i u Ho (D1 - 1) (D2 - 1)); [by eauto|by eauto|lia|lia|by eauto|by eauto|].
    eapply ref_to_inj; [by eauto|by eauto|lia|lia|eapply (ref_ok_dom t1); eauto|eapply (ref_ok_dom t2); eauto|done].
Qed.

Lemma same_map_unique ot1 ot2 m : opwf MAX_DEPTH ot1 -> opwf MAX_DEPTH ot2 ->
  same_map ot1 m -> same_map ot2 m -> ot1 = ot2.
Proof.
  intros Hw1 Hw2 Hm1 Hm2.
  assert (forall q, olookup ot1 q = olookup ot2 q) as Hq.
  { intros q. apply option_eq. intros v. by rewrite (Hm1 q v), (Hm2 q v). }
  destruct ot1 as [u1|], ot2 as [u2|]; [|exfalso|exfalso|done].
  - f_equal. eapply ptree_unique; [by apply Hw1|by apply Hw2|exact Hq].
  - destruct (pwf_inhabited _ _ (Hw1 u1 eq_refl)) as (q & v & Hl). specialize (Hq q).
    simpl in Hq. by rewrite Hl in Hq.
  - destruct (pwf_inhabited _ _ (Hw2 u2 eq_refl)) as (q & v & Hl). specialize (Hq q).
    simpl in Hq. by rewrite Hl in Hq.
Qed.

Lemma represents_root t1 t2 ot1 ot2 : good keccak Dom t1 -> good keccak Dom t2 ->
  represents t1 ot1 -> represents t2 ot2 -> root t1 = root t2 -> ot1 = ot2.
Proof.
  intros Hg1 Hg2 (Hw1 & Hs1 & Hr1) (Hw2 & Hs2 & Hr2) Heq.
  destruct ot1 as [u1|], ot2 as [u2|]; [|by destruct Hr1 as (_ & _ & ?); congruence
    |by destruct Hr2 as (_ & _ & ?); congruence|done].
  destruct Hr1 as (Hr1 & Hf1 & _), Hr2 as (Hr2 & Hf2 & _). f_equal.
  eapply (node_of_inj t1 t2 u1); [done|done|by apply Hw1|by apply Hw2|done|done|by apply Hs1|by apply Hs2|].
  assert (encode (node_of keccak u1) = encode (node_of keccak u2)) as He.
  { apply (keccak_inj (Dom := Dom)); [by apply (Hg1 _ _ Hf1)|by apply (Hg2 _ _ Hf2)|congruence]. }
  destruct (node_of_ok keccak MAX_DEPTH u1) as [? Hd1]; [by apply Hw1|done|].
  destruct (node_of_ok keccak MAX_DEPTH u2) as [? Hd2]; [by apply Hw2|done|].
  apply decode_encode in Hd1; [|done]. apply decode_encode in Hd2; [|done]. congruence.
Qed.

(** ** The operations on the map a trie denotes *)

(** A new trie is the empty map. *)
Lemma denotes_new d : (forall h, fetch (trie_new d) h = None) -> denotes (trie_new d) ∅.
Proof.
  intros Hd. split; [intros h e; by rewrite Hd|]. exists None. split; [by split_and!|].
  intros q v. split; [done|]. intros (k & _ & Hk). by rewrite lookup_empty in Hk.
Qed.

(** [get] on a trie that holds the map [m] returns the binding of the key, or
    [None] when the key is absent; it never fails or panics. *)
Theorem trie_get t m k : denotes t m -> key_ok k -> get t k = Ok (m !! k).
Proof.
  intros (_ & ot & Hr & Hm) Hk. destruct (key_ok_path k Hk) as (Hn & Hdo & Hf).
  rewrite <-(same_map_lookup _ _ _ Hm). unfold get. destruct ot as [u|].
  - destruct (root_resolves t u Hr) as [Hres Hne]. rewrite bool_decide_eq_false_2 by done.
    rewrite (get_node_lookup _ _ (Some u) _ _ _ MAX_DEPTH); [done|done|apply Hr|apply Hr|done..].
  - by rewrite bool_decide_eq_true_2 by apply Hr.
Qed.

Lemma denotes_insert t m k v : denotes t m -> key_ok k -> value_ok v ->
  Forall Dom (written (snd (insert keccak k v t))) ->
  fst (insert keccak k v t) = Ok tt /\ denotes (snd (insert keccak k v t)) (<[k := v]> m).
Proof.
  intros (Hg & ot & Hr & Hm) Hk Hv Hw.
  destruct (spec_insert t ot m k v Hr Hm Hk Hv Hg Hw) as ([] & Ha & Hg' & _ & Hrep). by split.
Qed.

Lemma denotes_delete t m k : denotes t m -> key_ok k ->
  Forall Dom (written (snd (Trie.delete keccak k t))) ->
  fst (Trie.delete keccak k t) = Ok (bool_decide (is_Some (m !! k))) /\
  denotes (snd (Trie.delete keccak k t)) (base.delete k m).
Proof.
  intros (Hg & ot & Hr & Hm) Hk Hw.
  destruct (spec_delete t ot m k Hr Hm Hk Hg Hw) as (b & Ha & Hg' & _ & -> & Hrep). by split.
Qed.

(** C1. [insert] succeeds and the trie then holds [m] with the key bound to the
    value: the key reads back, the other keys are untouched. *)
Theorem trie_insert t m k v : denotes t m -> key_ok k -> value_ok v ->
  Forall Dom (written (snd (insert keccak k v t))) ->
  fst (insert keccak k v t) = Ok tt /\ denotes (snd (insert keccak k v t)) (<[k := v]> m).
Proof. apply denotes_insert. Qed.

(** C2. [delete] reports whether the key was present and leaves [m] without it;
    the collapse of branches and extensions keeps every other binding. *)
Theorem trie_delete t m k : denotes t m -> key_ok k ->
  Forall Dom (written (snd (Trie.delete keccak k t))) ->
  fst (Trie.delete keccak k t) = Ok (bool_decide (is_Some (m !! k))) /\
  denotes (snd (Trie.delete keccak k t)) (base.delete k m).
Proof. apply denotes_delete. Qed.

Lemma denotes_root t1 t2 m1 m2 : denotes t1 m1 -> denotes t2 m2 -> root t1 = root t2 <-> m1 = m2.
Proof.
  intros (Hg1 & ot1 & Hr1 & Hm1) (Hg2 & ot2 & Hr2 & Hm2). split.
  - intros Heq. pose proof (represents_root _ _ _ _ Hg1 Hg2 Hr1 Hr2 Heq) as <-.
    apply map_eq. intros k. by rewrite <-(same_map_lookup _ _ _ Hm1), <-(same_map_lookup _ _ _ Hm2).
  - intros <-. pose proof (same_map_unique _ _ _ (proj1 Hr1) (proj1 Hr2) Hm1 Hm2) as <-.
    destruct Hr1 as (_ & _ & Hr1), Hr2 as (_ & _ & Hr2). destruct ot1 as [u|]; [|congruence].
    destruct Hr1 as [-> _], Hr2 as [-> _]. done.
Qed.

(** C3. The root hash commits to the contents: two tries have the same root
    exactly when they hold the same map, whatever sequences of insertions and
    deletions built them. *)
Theorem trie_root_commits t1 t2 m1 m2 : denotes t1 m1 -> denotes t2 m2 ->
  root t1 = root t2 <-> m1 = m2.
Proof. apply denotes_root. Qed.

(** ** Commit *)

Context `{HL : !TrieDBLaws DB}.

Lemma commit_loop_get entries d : NoDup entries.*1 ->
  fst (commit_loop entries d) = Ok tt /\
  forall h, db_get (snd (commit_loop entries d)) h =
    match (list_to_map entries : gmap H256 bytes) !! h with Some b => Ok (Some b) | None => db_get d h end.
Proof.
  revert d. induction entries as [|[h b] l IH]; intros d Hnd; [done|].
  apply list.NoDup_cons in Hnd as [Hh Hnd]. cbn [commit_loop].
  pose proof (db_insert_ok d h b) as Hok. pose proof (db_get_insert d h b) as Hget.
  destruct (db_insert d h b) as [r d']. simpl in Hok, Hget. subst r.
  destruct (IH d' Hnd) as [Hf Hg]. split; [done|]. intros h'. rewrite Hg, Hget. simpl list_to_map.
  destruct (decide (h = h')) as [<-|Hne].
  - rewrite lookup_insert_eq. by rewrite (not_elem_of_list_to_map_1 _ _ Hh).
  - by rewrite lookup_insert_ne.
Qed.

Lemma denotes_ext t t' m : (forall h, fetch t' h = fetch t h) -> root t' = root t ->
  denotes t m -> denotes t' m.
Proof.
  intros Hf Hrt (Hg & ot & (Hw & Hst & Hr) & Hm).
  split; [intros h e; rewrite Hf; apply Hg|]. exists ot. split; [|done]. split_and!; [done| |].
  - intros u Hu. eapply stored_sub; [|by apply Hst]. intros h e. by rewrite Hf.
  - destruct ot; [|congruence]. by rewrite Hrt, Hf.
Qed.

Lemma denotes_commit t m : denotes t m ->
  fst (commit t) = Ok (root t) /\ denotes (snd (commit t)) m /\
  cache (snd (commit t)) = ∅ /\ denotes (from_root (root t) (db (snd (commit t)))) m.
Proof.
  intros (Hg & ot & Hr & Hm). unfold commit.
  destruct (commit_loop_get (map_to_list (cache t)) (db t)) as [Hok Hget];
    [apply NoDup_fst_map_to_list|].
  destruct (commit_loop (map_to_list (cache t)) (db t)) as [r d]. simpl in Hok, Hget. subst r.
  assert (forall w, denotes (mkTrie (root t) d ∅ w) m) as Hd; [|split_and!; (done || apply Hd)].
  intros w. apply (denotes_ext t); [|done|by split; [|exists ot]].
  intros h. unfold fetch. simpl. rewrite lookup_empty, Hget, list_to_map_to_list.
  by destruct (cache t !! h).
Qed.

(** [commit] returns the root and moves the dirty nodes to the database: the
    trie still holds [m], and so does a trie opened at that root on the
    database alone. *)
Theorem trie_commit_reopen t m : denotes t m ->
  fst (commit t) = Ok (root t) /\ denotes (snd (commit t)) m /\
  cache (snd (commit t)) = ∅ /\ denotes (from_root (root t) (db (snd (commit t)))) m.
Proof. apply denotes_commit. Qed.
End correct.

(** Tries over different databases that hold the same map have the same root. *)
Lemma denotes_same_root (keccak : bytes -> H256) (Dom : bytes -> Prop) {DB1 DB2} `{TrieDB DB1, TrieDB DB2}
    (t1 : MutableTrie (DB := DB1)) (t2 : MutableTrie (DB := DB2)) m :
  denotes keccak Dom t1 m -> denotes keccak Dom t2 m -> root t1 = root t2.
Proof.
  intros (_ & ot1 & Hr1 & Hm1) (_ & ot2 & Hr2 & Hm2).
  pose proof (same_map_unique _ _ _ (proj1 Hr1) (proj1 Hr2) Hm1 Hm2) as <-.
  destruct Hr1 as (_ & _ & Hr1), Hr2 as (_ & _ & Hr2). destruct ot1 as [u|]; [|congruence].
  destruct Hr1 as [-> _], Hr2 as [-> _]. done.
Qed.
