(* ===== verification/TrieProof.v ===== *)
(** * Merkle proofs (crates/zbx-trie/src/proof.rs, MutableTrie::prove)

    [verify_proof] walks the encodings of a proof from the root hash.  It is
    sound: with collision-free encodings it only accepts the value the trie
    holds.  It is complete on tries whose values are at least 32 bytes, for
    present and absent keys; the verifier rejects inline children, which is
    why shorter values are excluded. *)

From Stdlib Require Import ZArith Lia.
From stdpp Require Import base tactics list gmap numbers option.
From S2P Require Import Prelude Bytes Rlp Nibbles TrieNode Trie TrieRepr TrieCorrect.

Local Open Scope Z_scope.

(** [expected_value.is_none()] and [*expected_value == v]. *)
Definition is_none (v : option bytes) : bool := match v with None => true | _ => false end.
Definition value_eqb (a b : option bytes) : bool := bool_decide (a = b).

(** The loop over [nodes]; [i != nodes.len() - 1] is [rest <> []].  A decoding
    panic is a panic of the verifier. *)
Fixpoint verify_loop (keccak : bytes -> H256) (expected_value : option bytes) (nibbles : path)
    (nodes : list bytes) (expected_hash : H256) (depth : nat) : res TrieError bool :=
  match nodes with
  | [] => Ok false
  | encoded :: rest =>
    if negb (bool_decide (keccak encoded = expected_hash)) then Ok false
    else
      let follow (c : NodeRef) (depth : nat) :=
        match c with
        | RHash h => verify_loop keccak expected_value nibbles rest h depth
        | REmpty => Ok (is_none expected_value)
        | RInline _ => Ok false
        end in
      match decode encoded with
      | Err _ => Ok false
      | Panic => Panic
      | Ok (Leaf partial value) =>
        let cp := cpl (drop depth nibbles) partial in
        if Nat.eqb cp (length partial) && Nat.eqb (depth + cp) (length nibbles)
        then Ok (value_eqb expected_value (Some value))
        else Ok (is_none expected_value)
      | Ok (Extension partial child) =>
        let cp := cpl (drop depth nibbles) partial in
        if negb (Nat.eqb cp (length partial)) then Ok (is_none expected_value)
        else follow child (depth + cp)%nat
      | Ok (Branch children value) =>
        if Nat.eqb depth (length nibbles) then
          (if negb (Nat.eqb (length rest) 0) then Ok false else Ok (value_eqb expected_value value))
        else
          idx ← unwrap (nibbles !! depth);
          c ← index children idx;
          follow c (depth + 1)%nat
      | Ok TEmpty => Ok (is_none expected_value)
      end
  end.

Definition verify_proof (keccak : bytes -> H256) (root : H256) (key : bytes)
    (expected_value : option bytes) (nodes : list bytes) : res TrieError bool :=
  match nodes with
  | [] => Ok (bool_decide (root = EMPTY_ROOT) && is_none expected_value)
  | _ => verify_loop keccak expected_value (nibbles_of key) nodes root 0
  end.

(** [MerkleProof::verify] *)
Definition verify (keccak : bytes -> H256) (p : MerkleProof) (root : H256) : res TrieError bool :=
  verify_proof keccak root (proof_key p) (proof_value p) (proof_nodes p).

(** [Trie]: the read-only wrapper opens a [MutableTrie] at a root. *)
Definition ro_new {DB : Type} (root : H256) (d : DB) : MutableTrie (DB := DB) := from_root root d.
Definition ro_get {DB : Type} `{TrieDB DB} (t : MutableTrie (DB := DB)) (key : bytes) := get t key.
Definition ro_prove {DB : Type} `{TrieDB DB} (t : MutableTrie (DB := DB)) (key : bytes) := prove t key.

Lemma leaf_claim (key p : path) depth : (depth <= length key)%nat ->
  Nat.eqb (cpl (drop depth key) p) (length p) &&
    Nat.eqb (depth + cpl (drop depth key) p) (length key) = bool_decide (drop depth key = p).
Proof.
  intros Hd. apply eq_true_iff_eq. rewrite andb_true_iff, !Nat.eqb_eq, bool_decide_eq_true. split.
  - intros [Hc Hl]. apply cpl_eq; rewrite length_drop; lia.
  - intros Hp. assert (length p = length key - depth)%nat as Hl by (by rewrite <-Hp, length_drop).
    rewrite Hp. assert (cpl p p = length p) as -> by (rewrite <-(app_nil_r p) at 2; apply cpl_app).
    lia.
Qed.

Lemma is_none_spec v : is_none v = true <-> v = None.
Proof. by destruct v. Qed.

Section proofs.
Context (keccak : bytes -> H256).
Context `{HK : !Hash256 keccak}.
Context {DB : Type} `{DBI : TrieDB DB} (Dom : bytes -> Prop).
Context `{HC : !CollisionFree keccak Dom}.

(** ** Soundness *)

Definition sound_at (nodes : list bytes) : Prop := forall ev u S key depth D,
  (forall h e, S h = Some e -> Dom e) ->
  pwf D u -> stored keccak S u -> Dom (encode (node_of keccak u)) ->
  Forall nib key -> depth_ok D key depth ->
  exists b, verify_loop keccak ev key nodes (keccak (encode (node_of keccak u))) depth = Ok b /\
    (b = true -> ev = plookup u (drop depth key)).

(** What following a child reference accepts. *)
Lemma follow_sound rest ev o S key depth D :
  sound_at rest -> (forall h e, S h = Some e -> Dom e) ->
  opwf D o -> ochild keccak S o -> Forall nib key -> depth_ok D key depth ->
  exists b, match oref keccak o with
    | RHash h => verify_loop keccak ev key rest h depth
    | REmpty => Ok (is_none ev)
    | RInline _ => Ok false
    end = Ok b /\ (b = true -> ev = olookup o (drop depth key)).
Proof.
  intros IH HS Hw Ho Hkey Hdo. destruct o as [u|]; simpl.
  - destruct (Ho u eq_refl) as [Hr Hst]. unfold ref_to.
    destruct (Z.ltb_spec (zlen (encode (node_of keccak u))) 32) as [H32|H32]; [by exists false|].
    destruct (Hr H32) as [Hf _]. apply (IH ev u S key depth D); [done|by apply Hw|done| |done|done].
    by apply (HS _ _ Hf).
  - exists (is_none ev). split; [done|]. apply is_none_spec.
Qed.

Lemma verify_loop_sound nodes : Forall Dom nodes -> sound_at nodes.
Proof.
  induction 1 as [|encoded rest Henc Hrest IH]; intros ev u S key depth D HS Hw Hst Hu Hkey Hdo;
    [by exists false|].
  pose proof Hdo as (Hd & _ & HD). cbn [verify_loop].
  destruct (decide (keccak encoded = keccak (encode (node_of keccak u)))) as [Heq|Hne].
  2:{ rewrite bool_decide_eq_false_2 by done. by exists false. }
  rewrite bool_decide_eq_true_2 by done. cbn [negb].
  apply (keccak_inj (Dom := Dom)) in Heq as ->; [|done..].
  destruct (node_of_ok keccak D u) as [Hs Hf]; [done..|]. rewrite decode_encode by done.
  destruct u as [p v|p w|cs bv].
  - cbn [node_of plookup]. rewrite leaf_claim by done. unfold value_eqb.
    destruct (decide (drop depth key = p)) as [Hp|Hp].
    + rewrite (bool_decide_eq_true_2 _ Hp). eexists; split; [done|]. by rewrite bool_decide_eq_true.
    + rewrite (bool_decide_eq_false_2 _ Hp). eexists; split; [done|]. by rewrite is_none_spec.
  - cbn [node_of]. destruct (decide (take (length p) (drop depth key) = p)) as [Ht|Ht].
    + apply take_prefix in Ht as [k Hk]. rewrite Hk. symmetry in Hk.
      destruct (ext_descend _ _ _ _ _ _ _ _ Hw Hst Hdo Hk) as (Hkd & Hdo' & ? & ? & Hw' & Hst' & -> & Hres).
      rewrite Nat.eqb_refl, plookup_ext. cbn [negb]. rewrite Hkd.
      apply (follow_sound rest ev (Some w) S key _ (D - zlen p)); [done..| |done|done].
      apply ochild_some. by inversion Hst.
    + pose proof (ext_mismatch _ _ Ht). rewrite (proj2 (Nat.eqb_neq _ _)) by lia. cbn [negb plookup].
      rewrite decide_False by done. exists (is_none ev). split; [done|]. apply is_none_spec.
  - rewrite node_of_branch. rewrite stored_branch_slots in Hst.
    destruct (drop depth key) as [|i k] eqn:Hkd; symmetry in Hkd.
    + rewrite (proj2 (Nat.eqb_eq _ _)).
      2:{ apply (f_equal length) in Hkd. rewrite length_drop in Hkd. simpl in Hkd. lia. }
      destruct rest; cbn [length Nat.eqb negb]; [|by exists false].
      exists (value_eqb ev bv). split; [done|]. unfold value_eqb. by rewrite bool_decide_eq_true.
    + destruct (branch_descend _ _ _ _ _ _ _ _ _ Hw Hst Hkey Hdo Hkd) as
        (Hat & Hkd' & Hlt & Hdo' & Hw' & Hix & Hres).
      rewrite (proj2 (Nat.eqb_neq _ _)) by lia. rewrite Hat. cbn [unwrap mbind res_bind].
      rewrite Hix. cbn [mbind res_bind]. rewrite plookup_branch, <-Hkd'.
      apply (follow_sound rest ev (slot cs i) S key _ (D - 1)); done.
Qed.
(** ** Completeness *)

(** Every value is at least 32 bytes, so every node is stored by hash. *)
Definition vbig (u : ptree) : Prop := forall q v, plookup u q = Some v -> 32 <= zlen v.

Lemma zlen_enc_str_lower d : zlen d < 2 ^ 63 -> zlen d <= zlen (enc_str d).
Proof.
  intros Hd. destruct (enc_str_cases d) as [[-> ->]|[(b & -> & _ & ->)|[[_ ->]|[H He]]]];
    [unfold zlen; simpl; lia..|rewrite zlen_cons; lia|].
  rewrite He by done. rewrite zlen_cons, zlen_app. pose proof (zlen_nonneg (minimal_bytes (zlen d))). lia.
Qed.

Lemma zlen_enc_lst_item l it : In it l -> zlen (enc it) <= zlen (enc (Lst l)).
Proof. intros Hin. pose proof (zlen_enc_child l it Hin). lia. Qed.

Lemma zlen_enc_hash h : length h = 32%nat -> 32 <= zlen (enc (item_of_ref (RHash h))).
Proof.
  intros Hl. assert (zlen h = 32) as Hz by (unfold zlen; lia).
  pose proof (zlen_enc_str_lower h ltac:(lia)). simpl. lia.
Qed.

Lemma vbig_ext p w : vbig (PExt p w) -> vbig w.
Proof. intros H q v Hq. apply (H (p ++ q)). by rewrite plookup_ext. Qed.

Lemma vbig_slot cs bv i u : vbig (PBranch cs bv) -> slot cs i = Some u -> vbig u.
Proof. intros H Hs q v Hq. apply (H (i :: q)). by rewrite plookup_branch, Hs. Qed.

Lemma big_node D u : pwf D u -> D <= MAX_DEPTH -> vbig u -> 32 <= zlen (encode (node_of keccak u)).
Proof.
  intros Hw HD. destruct (node_of_ok keccak D u Hw HD) as [Hs Hf]. rewrite encode_enc by done.
  revert HD Hs Hf. induction Hw as [D p v Hp HpD Hv|D p w Hp Hne Hb Hw IH|D cs bv Hl Hcs IH Hv He];
    intros HD Hs Hf Hbig.
  - specialize (Hbig p v). simpl in Hbig. rewrite decide_True in Hbig by done. specialize (Hbig eq_refl).
    pose proof (zlen_enc_lst_item [Str (hp_encode true p); Str v] (Str v) ltac:(right; by left)).
    pose proof (zlen_enc_str_lower v). destruct Hv as (_ & _ & ?). cbn [node_of item_of enc] in *. lia.
  - pose proof (zlen_nonneg p). destruct (node_of_ok keccak _ w Hw ltac:(lia)) as [Hsw Hfw].
    specialize (IH ltac:(lia) Hsw Hfw (vbig_ext _ _ Hbig)).
    assert (ref_to keccak (node_of keccak w) = RHash (keccak (encode (node_of keccak w)))) as Hr.
    { unfold ref_to. rewrite encode_enc by done. by rewrite (proj2 (Z.ltb_ge _ _)) by done. }
    pose proof (zlen_enc_lst_item [Str (hp_encode false p); item_of_ref (ref_to keccak (node_of keccak w))]
      _ ltac:(right; by left)) as Hle.
    rewrite Hr in Hle at 1.
    pose proof (zlen_enc_hash (keccak (encode (node_of keccak w))) (proj1 (keccak_h256 _))). cbn [node_of item_of]. lia.
  - destruct (entries_slot _ _ He) as (i & u & Hu).
    pose proof (Hcs i u Hu) as Hwu. destruct (node_of_ok keccak _ u Hwu ltac:(lia)) as [Hsu Hfu].
    assert (slot cs (Z.of_nat i) = Some u) as Hsl by (by rewrite slot_nat, Hu).
    specialize (IH i u Hu ltac:(lia) Hsu Hfu (vbig_slot _ _ _ _ Hbig Hsl)).
    rewrite node_of_branch, item_of_branch.
    assert (oref keccak (Some u) = RHash (keccak (encode (node_of keccak u)))) as Hr.
    { simpl. unfold ref_to. rewrite encode_enc by done. by rewrite (proj2 (Z.ltb_ge _ _)) by done. }
    etrans; [|apply (zlen_enc_lst_item _ (item_of_ref (oref keccak (Some u))))].
    + rewrite Hr. apply zlen_enc_hash, keccak_h256.
    + apply in_app_iff. left. apply in_map, in_map, list_elem_of_In, (list_elem_of_lookup_2 _ i). done.
Qed.

(** What [prove] collects from a reference, and what the verifier makes of it. *)
Definition proves_at (fuel : nat) : Prop := forall S r u key depth D nodes,
  (r = RInline (node_of keccak u) \/
   exists h, r = RHash h /\ S h = Some (encode (node_of keccak u)) /\ h <> EMPTY_ROOT /\
             h = keccak (encode (node_of keccak u))) ->
  pwf D u -> stored keccak S u -> Forall nib key -> depth_ok D key depth ->
  (length key - depth < fuel)%nat ->
  exists ns, prove_loop fuel S r key depth nodes = Ok (plookup u (drop depth key), nodes ++ ns) /\
    (forall h, r = RHash h -> vbig u ->
       ns <> [] /\ verify_loop keccak (plookup u (drop depth key)) key ns h depth = Ok true).
Lemma leaf_match_sym (kr p : path) :
  Nat.eqb (length kr) (length p) && Nat.eqb (cpl kr p) (length p) = bool_decide (kr = p).
Proof. rewrite <-leaf_match, andb_comm. f_equal. apply Nat.eqb_sym. Qed.

(** The reference of a child, as [proves_at] takes it. *)
Lemma child_ref S u : ref_ok keccak S u ->
  ref_to keccak (node_of keccak u) = RInline (node_of keccak u) \/
  exists h, ref_to keccak (node_of keccak u) = RHash h /\ S h = Some (encode (node_of keccak u)) /\
    h <> EMPTY_ROOT /\ h = keccak (encode (node_of keccak u)).
Proof.
  intros Hr. unfold ref_to.
  destruct (Z.ltb_spec (zlen (encode (node_of keccak u))) 32) as [H|H]; [by left|right].
  destruct (Hr H). eauto.
Qed.

Lemma big_ref D u : pwf D u -> D <= MAX_DEPTH -> vbig u ->
  ref_to keccak (node_of keccak u) = RHash (keccak (encode (node_of keccak u))).
Proof.
  intros Hw HD Hb. unfold ref_to. pose proof (big_node D u Hw HD Hb).
  by rewrite (proj2 (Z.ltb_ge _ _)).
Qed.

Lemma verify_head ev key e rest depth n : decode e = Ok n ->
  verify_loop keccak ev key (e :: rest) (keccak e) depth =
  match n with
  | Leaf partial value =>
    if Nat.eqb (cpl (drop depth key) partial) (length partial) &&
       Nat.eqb (depth + cpl (drop depth key) partial) (length key)
    then Ok (value_eqb ev (Some value)) else Ok (is_none ev)
  | Extension partial child =>
    if negb (Nat.eqb (cpl (drop depth key) partial) (length partial)) then Ok (is_none ev)
    else match child with
         | RHash h => verify_loop keccak ev key rest h (depth + cpl (drop depth key) partial)
         | REmpty => Ok (is_none ev)
         | RInline _ => Ok false
         end
  | Branch children value =>
    if Nat.eqb depth (length key) then
      (if negb (Nat.eqb (length rest) 0) then Ok false else Ok (value_eqb ev value))
    else
      idx ← unwrap (key !! depth);
      c ← index children idx;
      match c with
      | RHash h => verify_loop keccak ev key rest h (depth + 1)
      | REmpty => Ok (is_none ev)
      | RInline _ => Ok false
      end
  | TEmpty => Ok (is_none ev)
  end.
Proof.
  intros He. cbn [verify_loop]. rewrite bool_decide_eq_true_2 by done. cbn [negb]. rewrite He.
  by destruct n.
Qed.

(** One step of [prove] from a node, with what the verifier accepts. *)
Definition steps_at (fuel : nat) (u : ptree) : Prop := forall S key depth D acc,
  pwf D u -> stored keccak S u -> Forall nib key -> depth_ok D key depth ->
  (length key - depth < Datatypes.S fuel)%nat ->
  exists ns, prove_step (fun c d => prove_loop fuel S c key d acc) (node_of keccak u) key depth acc =
      Ok (plookup u (drop depth key), acc ++ ns) /\
    (vbig u -> verify_loop keccak (plookup u (drop depth key)) key
       (encode (node_of keccak u) :: ns) (keccak (encode (node_of keccak u))) depth = Ok true).

Lemma prove_step_leaf fuel p v : steps_at fuel (PLeaf p v).
Proof.
  intros S key depth D acc Hw Hst Hkey Hdo Hf. pose proof Hdo as (Hd & _ & HD).
  destruct (node_of_ok keccak D _ Hw HD) as [Hs Hfit].
  pose proof (fun ev rest => verify_head ev key _ rest depth _ (decode_encode _ Hs Hfit)) as Hv.
  exists []. rewrite app_nil_r, Hv. cbn [node_of prove_step plookup].
  rewrite leaf_match_sym, leaf_claim by done.
  destruct (decide (drop depth key = p)) as [Hp|Hp].
  - rewrite (bool_decide_eq_true_2 _ Hp). split; [done|]. intros _.
    unfold value_eqb. by rewrite bool_decide_eq_true_2.
  - by rewrite (bool_decide_eq_false_2 _ Hp).
Qed.

Lemma prove_step_ext fuel p w : proves_at fuel -> steps_at fuel (PExt p w).
Proof.
  intros IH S key depth D acc Hw Hst Hkey Hdo Hf. pose proof Hdo as (Hd & _ & HD).
  destruct (node_of_ok keccak D _ Hw HD) as [Hs Hfit].
  pose proof (fun ev rest => verify_head ev key _ rest depth _ (decode_encode _ Hs Hfit)) as Hv.
  cbn [node_of prove_step] in *. destruct (decide (take (length p) (drop depth key) = p)) as [Ht|Ht].
  - apply take_prefix in Ht as [k Hk]. rewrite Hk in *. symmetry in Hk.
    destruct (ext_descend _ _ _ _ _ _ _ _ Hw Hst Hdo Hk) as (Hkd & Hdo' & ? & ? & Hw' & Hst' & Hc & _).
    rewrite Hc, Nat.eqb_refl, plookup_ext. cbn [negb].
    destruct (IH S (ref_to keccak (node_of keccak w)) w key (depth + length p)%nat (D - zlen p) acc)
      as (ns & Hpr & Hver); [apply child_ref; by inversion Hst|by apply Hw'|by apply Hst'|done|done|lia|].
    rewrite <-Hkd in *. exists ns. split; [done|]. intros Hb%vbig_ext.
    rewrite Hv, Hc, Nat.eqb_refl. cbn [negb].
    rewrite (big_ref _ _ (Hw' w eq_refl) ltac:(apply Hdo') Hb).
    apply Hver; [|done]. by apply (big_ref _ _ (Hw' w eq_refl)); [apply Hdo'|].
  - pose proof (ext_mismatch _ _ Ht). rewrite (proj2 (Nat.eqb_neq _ _)) by lia. cbn [negb plookup].
    rewrite decide_False by done. exists []. rewrite app_nil_r, Hv. split; [done|].
    by rewrite (proj2 (Nat.eqb_neq _ _)) by lia.
Qed.

Lemma prove_step_branch fuel cs bv : proves_at fuel -> steps_at fuel (PBranch cs bv).
Proof.
  intros IH S key depth D acc Hw Hst Hkey Hdo Hf. pose proof Hdo as (Hd & _ & HD).
  destruct (node_of_ok keccak D _ Hw HD) as [Hs Hfit].
  pose proof (fun ev rest => verify_head ev key _ rest depth _ (decode_encode _ Hs Hfit)) as Hv.
  rewrite node_of_branch in *. cbn [prove_step]. pose proof Hst as Hst'.
  rewrite stored_branch_slots in Hst'.
  destruct (drop depth key) as [|i k] eqn:Hkd; symmetry in Hkd.
  - exists []. rewrite app_nil_r, Hv.
    assert (Nat.eqb depth (length key) = true) as ->.
    { apply (f_equal length) in Hkd. rewrite length_drop in Hkd. simpl in Hkd. apply Nat.eqb_eq. lia. }
    split; [done|]. intros _. cbn. unfold value_eqb. by rewrite bool_decide_eq_true_2.
  - destruct (branch_descend _ _ _ _ _ _ _ _ _ Hw Hst' Hkey Hdo Hkd) as
      (Hat & Hkd' & Hlt & Hdo' & Hw' & Hix & Hres).
    assert (Nat.eqb depth (length key) = false) as Hne by (apply Nat.eqb_neq; lia).
    rewrite Hne, Hat. cbn [unwrap mbind res_bind]. rewrite Hix. cbn [mbind res_bind].
    rewrite plookup_branch. specialize (Hst' i). destruct (slot cs i) as [w|] eqn:Hsl.
    + destruct (IH S (ref_to keccak (node_of keccak w)) w key (depth + 1)%nat (D - 1) acc)
        as (ns & Hpr & Hver); [apply child_ref, (Hst' w eq_refl)|by apply Hw'|by apply Hst'|done|done|lia|].
      rewrite Hkd' in *. exists ns. split; [done|]. intros Hb.
      pose proof (vbig_slot _ _ _ _ Hb Hsl) as Hbw.
      rewrite Hv, Hne, Hat. cbn [unwrap mbind res_bind]. rewrite Hix. cbn [mbind res_bind oref].
      rewrite (big_ref _ _ (Hw' w eq_refl) ltac:(apply Hdo') Hbw).
      apply Hver; [|done]. by apply (big_ref _ _ (Hw' w eq_refl)); [apply Hdo'|].
    + exists []. rewrite app_nil_r. split; [by destruct fuel; [lia|]|]. intros _.
      rewrite Hv, Hne, Hat. cbn [unwrap mbind res_bind]. rewrite Hix. done.
Qed.

Lemma prove_step_ok fuel u : proves_at fuel -> steps_at fuel u.
Proof.
  intros IH. destruct u; [apply prove_step_leaf|by apply prove_step_ext|by apply prove_step_branch].
Qed.

Lemma prove_loop_ok fuel : proves_at fuel.
Proof.
  induction fuel as [|fuel IH]; intros S r u key depth D nodes Hr Hw Hst Hkey Hdo Hf; [lia|].
  cbn [prove_loop]. destruct Hr as [->|(h & -> & Hf' & Hne & ->)].
  - destruct (prove_step_ok fuel u IH S key depth D nodes) as (ns & Hp & _); [done..|].
    exists ns. split; [done|]. intros h [=].
  - rewrite bool_decide_eq_false_2 by done. rewrite Hf'. cbn [ok_or mbind res_bind].
    destruct (node_of_ok keccak D u Hw) as [Hs Hfit]; [apply Hdo|].
    rewrite decode_encode by done. cbn [mbind res_bind].
    destruct (prove_step_ok fuel u IH S key depth D (nodes ++ [encode (node_of keccak u)]))
      as (ns & Hp & Hv); [done..|].
    exists (encode (node_of keccak u) :: ns). rewrite Hp. split; [by rewrite <-app_assoc|].
    intros h [= <-] Hb. split; [done|]. by apply Hv.
Qed.

(** ** The theorems *)

(** C4. Soundness: whatever nodes a prover sends, [verify_proof] against the root
    of a trie that holds [m] returns without panicking, and accepts only the
    binding of the key in [m] (absence included). *)
Theorem verify_proof_sound t m k ev nodes :
  denotes keccak Dom t m -> key_ok k -> Forall Dom nodes ->
  exists b, verify_proof keccak (root t) k ev nodes = Ok b /\ (b = true -> ev = m !! k).
Proof.
  intros (Hg & ot & Hr & Hm) Hk Hn. destruct (key_ok_path k Hk) as (Hnib & Hdo & _).
  rewrite <-(same_map_lookup _ _ _ Hm). pose proof Hr as (Hw & Hst & Hrt).
  unfold verify_proof. destruct nodes as [|e rest].
  - eexists; split; [done|]. intros Hb. bool_to_prop. subst.
    destruct ot as [u|]; [by destruct Hrt as (_ & _ & ?)|]. by apply is_none_spec.
  - destruct ot as [u|].
    + destruct Hrt as (Hrt & Hf & _).
      destruct (verify_loop_sound (e :: rest) Hn ev u (fetch t) (nibbles_of k) 0%nat MAX_DEPTH)
        as (b & Hb & Hev); [|by apply Hw|by apply Hst|by apply (Hg _ _ Hf)|done|done|].
      { intros h b Hb. by apply (Hg h b). }
      rewrite drop_0 in Hev. exists b. by rewrite Hrt.
    + rewrite Hrt. exists false. split; [|done]. cbn [verify_loop].
      rewrite bool_decide_eq_false_2; [done|].
      apply (keccak_not_empty (Dom := Dom)). by inversion Hn.
Qed.

(** Completeness: [prove] returns the binding of the key, and when every value
    of the trie is at least 32 bytes the verifier accepts the proof, both for
    present and for absent keys. *)
Theorem prove_complete t m k : denotes keccak Dom t m -> key_ok k ->
  exists p, prove t k = Ok p /\ proof_key p = k /\ proof_value p = m !! k /\
    ((forall k' v, m !! k' = Some v -> 32 <= zlen v) -> verify keccak p (root t) = Ok true).
Proof.
  intros (Hg & ot & Hr & Hm) Hk. destruct (key_ok_path k Hk) as (Hnib & Hdo & Hf).
  rewrite <-(same_map_lookup _ _ _ Hm). pose proof Hr as (Hw & Hst & Hrt).
  unfold prove, verify. destruct ot as [u|].
  - destruct Hrt as (Hrt & Hfe & Hne).
    destruct (prove_loop_ok (key_fuel (nibbles_of k)) (fetch t) (RHash (root t)) u (nibbles_of k) 0%nat
      MAX_DEPTH []) as (ns & -> & Hv); [|by apply Hw|by apply Hst|done..|].
    { right. exists (root t). by split_and!. }
    cbn [mbind res_bind]. rewrite drop_0 in *. eexists; split_and!; [done..|].
    intros Hbig. cbn [proof_key proof_value proof_nodes].
    destruct (Hv _ eq_refl) as [Hns Hver].
    { intros q v Hq. destruct (proj1 (Hm q v) Hq) as (k' & _ & Hk'). by eapply Hbig. }
    unfold verify_proof. by destruct ns.
  - cbn [prove_loop]. unfold key_fuel. cbn [prove_loop]. rewrite bool_decide_eq_true_2 by done.
    cbn [mbind res_bind]. eexists; split_and!; [done..|]. intros _. simpl.
    by rewrite bool_decide_eq_true_2.
Qed.
End proofs.
