(* ===== verification/TrieExample.v ===== *)
(** * A concrete trie

    A small hash function, collision-free on the encodings of a three-key
    trie, with which the theorems of TrieCorrect.v and TrieProof.v are applied
    to runs of the operations. *)

From Stdlib Require Import ZArith Lia.
From stdpp Require Import base tactics list gmap numbers option.
From S2P Require Import Prelude Bytes Rlp Nibbles TrieNode Trie TrieRepr TrieCorrect TrieProof.

Local Open Scope Z_scope.

Definition toy (b : bytes) : H256 := to_be 32 (foldl (fun a x => (a * 257 + x + 1) mod 2 ^ 61) 7 b).

#[export] Instance toy_256 : Hash256 toy.
Proof. intros b. split; [apply length_to_be|apply to_be_bytes]. Qed.

Definition k1 : bytes := [18; 52].
Definition k2 : bytes := [18; 86].
Definition k3 : bytes := [18; 53; 1].
Definition v1 : bytes := replicate 33 1.
Definition v2 : bytes := replicate 40 2.
Definition v3 : bytes := [3].

Abbreviation T0 := (trie_new (∅ : MemoryTrieDB)).
Abbreviation T1 := (snd (insert toy k1 v1 T0)).
Abbreviation T2 := (snd (insert toy k2 v2 T1)).
Abbreviation T3 := (snd (insert toy k3 v3 T2)).
Abbreviation T4 := (snd (Trie.delete toy k3 T3)).

(** Every encoding written by the run. *)
Definition L : list bytes := Eval vm_compute in remove_dups (written T4).
Definition Dom (e : bytes) : Prop := e ∈ L.

Lemma dom_check l : forallb (fun e => bool_decide (e ∈ L)) l = true -> Forall Dom l.
Proof.
  rewrite forallb_forall. intros H. apply List.Forall_forall. intros e He.
  apply H in He. by apply bool_decide_eq_true in He.
Qed.

Lemma no_collision : bool_decide (NoDup (toy <$> L) /\ EMPTY_ROOT ∉ toy <$> L) = true.
Proof. vm_compute. reflexivity. Qed.

(** No collision on a list of byte strings: decided by evaluation. *)
Lemma toy_list_free l : bool_decide (NoDup (toy <$> l) /\ EMPTY_ROOT ∉ toy <$> l) = true ->
  CollisionFree toy (fun e => e ∈ l).
Proof.
  intros [Hnd Hne]%bool_decide_eq_true_1. split.
  - intros a b [i Ha]%list_elem_of_lookup_1 [j Hb]%list_elem_of_lookup_1 Hab.
    assert (i = j) as ->; [|congruence].
    apply (NoDup_lookup (toy <$> l) i j (toy a)); [done|..];
      rewrite list_lookup_fmap; [by rewrite Ha|by rewrite Hb, Hab].
  - intros a Ha Heq. apply Hne. rewrite <-Heq. by apply list_elem_of_fmap_2.
Qed.

#[export] Instance toy_free : CollisionFree toy Dom.
Proof. exact (toy_list_free L no_collision). Qed.

Lemma byte_list l : forallb (fun x => (0 <=? x) && (x <? 256)) l = true -> Forall byte l.
Proof.
  rewrite forallb_forall. intros H. apply List.Forall_forall. intros x Hx. apply H in Hx.
  bool_to_prop. unfold byte. lia.
Qed.

Definition m1 : gmap bytes bytes := {[k1 := v1]}.
Definition m2 : gmap bytes bytes := <[k2 := v2]> m1.
Definition m3 : gmap bytes bytes := <[k3 := v3]> m2.

Lemma key_check k : forallb (fun x => (0 <=? x) && (x <? 256)) k = true -> zlen k < 2 ^ 59 -> key_ok k.
Proof. split; [by apply byte_list|done]. Qed.

Lemma value_check v : v <> [] -> forallb (fun x => (0 <=? x) && (x <? 256)) v = true ->
  zlen v < 2 ^ 60 -> value_ok v.
Proof. intros. split_and!; [done|by apply byte_list|done]. Qed.

Ltac toy_side :=
  match goal with
  | |- key_ok _ => apply key_check; vm_compute; reflexivity
  | |- value_ok _ => apply value_check; [discriminate|vm_compute; reflexivity..]
  | |- Forall Dom _ => apply dom_check; vm_compute; reflexivity
  end.

Lemma T0_denotes : denotes toy Dom T0 ∅.
Proof. apply denotes_new. done. Qed.

Lemma T1_denotes : denotes toy Dom T1 m1.
Proof. apply (denotes_insert toy Dom T0 ∅ k1 v1); [apply T0_denotes|toy_side..]. Qed.

Lemma T2_denotes : denotes toy Dom T2 m2.
Proof. apply (denotes_insert toy Dom T1 m1 k2 v2); [apply T1_denotes|toy_side..]. Qed.

Lemma T3_denotes : denotes toy Dom T3 m3.
Proof. apply (denotes_insert toy Dom T2 m2 k3 v3); [apply T2_denotes|toy_side..]. Qed.

Lemma T4_denotes : denotes toy Dom T4 (base.delete k3 m3).
Proof. apply (denotes_delete toy Dom T3 m3 k3); [apply T3_denotes|toy_side..]. Qed.

Lemma trie_get_witness : get T2 k2 = Ok (Some v2) /\ get T2 k3 = Ok None.
Proof.
  split.
  - refine (trie_get toy Dom T2 m2 k2 T2_denotes _). toy_side.
  - refine (trie_get toy Dom T2 m2 k3 T2_denotes _). toy_side.
Defined.

Lemma trie_insert_witness :
  fst (insert toy k3 v3 T2) = Ok tt /\ denotes toy Dom T3 (<[k3 := v3]> m2).
Proof. refine (trie_insert toy Dom T2 m2 k3 v3 T2_denotes _ _ _); toy_side. Defined.

Lemma trie_delete_witness :
  fst (Trie.delete toy k3 T3) = Ok true /\ denotes toy Dom T4 (base.delete k3 m3).
Proof. refine (trie_delete toy Dom T3 m3 k3 T3_denotes _ _); toy_side. Defined.

(** Inserting a third key and deleting it again restores the root. *)
Lemma trie_root_commits_witness : root T4 = root T2 /\ root T3 <> root T2.
Proof.
  split.
  - refine (proj2 (trie_root_commits toy Dom T4 T2 _ m2 T4_denotes T2_denotes) _).
    vm_compute. reflexivity.
  - vm_compute. discriminate.
Defined.

Lemma trie_commit_reopen_witness :
  denotes toy Dom (from_root (root T2) (db (snd (commit T2)))) m2.
Proof.
  exact (proj2 (proj2 (proj2 (trie_commit_reopen toy Dom T2 m2 T2_denotes)))).
Defined.

(** A claim of the wrong value over all known nodes: not accepted. *)
Lemma verify_proof_sound_witness :
  exists b, verify_proof toy (root T2) k1 (Some v2) L = Ok b /\ (b = true -> Some v2 = m2 !! k1).
Proof.
  refine (verify_proof_sound toy Dom T2 m2 k1 (Some v2) L T2_denotes _ _); [toy_side|].
  apply dom_check. vm_compute. reflexivity.
Defined.

Lemma m2_big k v : m2 !! k = Some v -> 32 <= zlen v.
Proof.
  unfold m2, m1. rewrite lookup_insert_Some, lookup_singleton_Some.
  intros [[_ <-]|[_ [_ <-]]]; vm_compute; discriminate.
Qed.

(** A proof of presence and a proof of absence. *)
Lemma prove_complete_witness :
  (exists p, prove T2 k1 = Ok p /\ proof_value p = Some v1 /\ verify toy p (root T2) = Ok true) /\
  (exists p, prove T2 k3 = Ok p /\ proof_value p = None /\ verify toy p (root T2) = Ok true).
Proof.
  split.
  - destruct (prove_complete toy Dom T2 m2 k1 T2_denotes) as (p & Hp & _ & Hv & Hver); [toy_side|].
    exists p. split; [exact Hp|]. split; [rewrite Hv; vm_compute; reflexivity|]. exact (Hver m2_big).
  - destruct (prove_complete toy Dom T2 m2 k3 T2_denotes) as (p & Hp & _ & Hv & Hver); [toy_side|].
    exists p. split; [exact Hp|]. split; [rewrite Hv; vm_compute; reflexivity|]. exact (Hver m2_big).
Defined.
