(* ===== verification/Crypto.v ===== *)
(** * Cryptographic operations used by the node

    BLS signatures and Keccak are operations of the class [Crypto]: hashes,
    signatures and keys are byte strings, and nothing is assumed of the
    operations unless a theorem says so. *)

From Stdlib Require Import ZArith Lia.
From stdpp Require Import base tactics list numbers.
From S2P Require Import Prelude Bytes.

Local Open Scope Z_scope.

Abbreviation Address := (list Z).
Abbreviation Hash := (list Z).
Abbreviation BlsSignature := (list Z).
Abbreviation BlsPubKey := (list Z).
Abbreviation BlsPrivKey := (list Z).

(** zbx_crypto: thin wrappers of the bls12_381 and sha3 crates. *)
Class Crypto : Type := {
  keccak256 : bytes -> Hash;
  verify_single : BlsSignature -> BlsPubKey -> Hash -> bool;
  verify_aggregate : BlsSignature -> list BlsPubKey -> Hash -> bool;
  aggregate_signatures : list BlsSignature -> option BlsSignature;
  bls_sign : BlsPrivKey -> Hash -> BlsSignature;
  to_pubkey : BlsPrivKey -> BlsPubKey
}.

(** The sha3 crate's SHA3-256. *)
Class Sha3 : Type := { sha3_256 : bytes -> Hash }.

(** [BlsSignature([0u8; 96])] and [H256::zero()]. *)
Definition zero_sig : BlsSignature := replicate 96 0.
Definition zero_hash : Hash := replicate 32 0.

(** ** Injectivity of fixed-width encodings *)

Lemma app_inj_length {A} (a b c d : list A) : length a = length b -> a ++ c = b ++ d -> a = b /\ c = d.
Proof. apply app_inj_1. Qed.

Lemma to_be_inj n x y : in_range (8 * Z.of_nat n) x -> in_range (8 * Z.of_nat n) y ->
  to_be n x = to_be n y -> x = y.
Proof.
  intros Hx Hy Heq. apply (f_equal be_val) in Heq.
  assert (forall z, in_range (8 * Z.of_nat n) z -> 0 <= z < 256 ^ Z.of_nat n) as Hr.
  { intros z. unfold in_range. by rewrite Z.pow_mul_r by lia. }
  rewrite !be_val_to_be, !Z.mod_small in Heq by (by apply Hr). done.
Qed.
