(* ===== verification/Vote.v ===== *)
(** * Votes and quorum certificates (crates/zbx-consensus/src/vote.rs, error.rs)

    The signed data, the accumulator that forms a certificate at quorum, and
    the equivocation evidence.  A [HashMap] is a
    [gmap]; the order in which its values are listed is not specified and no
    theorem depends on it. *)

From Stdlib Require Import ZArith Lia.
From stdpp Require Import base tactics list gmap numbers option.
From S2P Require Import Prelude Bytes Crypto.

Local Open Scope Z_scope.

(** The errors the modelled handlers raise; texts are reduced to their data. *)
Inductive ConsensusError : Type :=
| SafetyViolation (got required : Z)
| StaleRound (got locked : Z)
| InvalidProposer (round : Z)
| DuplicateVote (block phase : Z)
| DuplicateVoter (voter : Address)
| StaleProposal (proposal_round highest_qc : Z)
| InvalidTimeoutCertificate
| Equivocation (round : Z) (seen attempted : Hash)
| RemoteEquivocation (validator : Address) (round phase : Z) (hash_a hash_b : Hash)
| InvalidQC (round : Z)
| InvalidMessage (phase round : Z)
| InvalidEpoch (expected got : Z)
| RateLimitExceeded
| EmptyValidatorSet.

Record VoteData : Type := mkVoteData {
  block_hash : Hash; block_number : Z; phase : Z; epoch : Z }.

#[export] Instance VoteData_eq_dec : EqDecision VoteData.
Proof. solve_decision. Defined.

Definition signing_bytes (d : VoteData) : bytes :=
  block_hash d ++ to_be 8 (block_number d) ++ [phase d] ++ to_be 8 (epoch d).

Record Vote : Type := mkVote { data : VoteData; voter : Address; signature : BlsSignature }.

Record QuorumCertificate : Type := mkQC {
  vote_data : VoteData; agg_signature : BlsSignature;
  signers : list Address; signer_pubkeys : list BlsPubKey }.

Record VoteAccumulator : Type := mkAcc {
  acc_data : VoteData; votes : gmap Address (Vote * BlsPubKey); acc_quorum : Z }.

Record EquivocationEvidence : Type := mkEvidence {
  ev_validator : Address; ev_round : Z; ev_phase : Z;
  vote_a : Vote; vote_b : Vote; ev_pubkey : BlsPubKey }.

Definition acc_new (d : VoteData) (quorum : Z) : VoteAccumulator := mkAcc d ∅ quorum.

(** Fields fit their machine types. *)
Definition vote_data_ok (d : VoteData) : Prop :=
  length (block_hash d) = 32%nat /\ Forall byte (block_hash d) /\
  in_range 64 (block_number d) /\ in_range 8 (phase d) /\ in_range 64 (epoch d).

Section votes.
Context {CR : Crypto}.

Definition msg_of (d : VoteData) : Hash := keccak256 (signing_bytes d).

(** [QuorumCertificate::verify]: a certificate without signers is accepted. *)
Definition qc_verify (qc : QuorumCertificate) : bool :=
  match signer_pubkeys qc with
  | [] => true
  | pks => verify_aggregate (agg_signature qc) pks (msg_of (vote_data qc))
  end.

Definition form_qc (a : VoteAccumulator) : QuorumCertificate :=
  let entries := (map_to_list (votes a)).*2 in
  let sigs := map (fun e => signature (fst e)) entries in
  mkQC (acc_data a) (default zero_sig (aggregate_signatures sigs))
    (map (fun e => voter (fst e)) entries) (map snd entries).

Definition add_vote (v : Vote) (pk : BlsPubKey)
    : M VoteAccumulator ConsensusError (option QuorumCertificate) :=
  a ← get_st;
  if negb (bool_decide (data v = acc_data a)) then mret None
  else
    let addr := voter v in
    _ ← throw_if (bool_decide (is_Some (votes a !! addr))) (DuplicateVoter addr);
    if negb (verify_single (signature v) pk (msg_of (data v))) then mret None
    else
      let a' := mkAcc (acc_data a) (<[addr := (v, pk)]> (votes a)) (acc_quorum a) in
      _ ← put_st a';
      if acc_quorum a <=? Z.of_nat (size (votes a')) then mret (Some (form_qc a')) else mret None.

Definition evidence_verify (e : EquivocationEvidence) : bool :=
  if negb (bool_decide (voter (vote_a e) = voter (vote_b e)))
     || negb (bool_decide (voter (vote_a e) = ev_validator e))
     || negb (block_number (data (vote_a e)) =? block_number (data (vote_b e)))
     || negb (phase (data (vote_a e)) =? phase (data (vote_b e)))
     || bool_decide (block_hash (data (vote_a e)) = block_hash (data (vote_b e)))
     || negb (block_number (data (vote_a e)) =? ev_round e)
     || negb (phase (data (vote_a e)) =? ev_phase e)
  then false
  else
    verify_single (signature (vote_a e)) (ev_pubkey e) (msg_of (data (vote_a e))) &&
    verify_single (signature (vote_b e)) (ev_pubkey e) (msg_of (data (vote_b e))).

(** ** What an accumulator holds *)

Definition acc_ok (a : VoteAccumulator) : Prop :=
  forall addr v pk, votes a !! addr = Some (v, pk) ->
    voter v = addr /\ data v = acc_data a /\
    verify_single (signature v) pk (msg_of (acc_data a)) = true.

Lemma acc_new_ok d q : acc_ok (acc_new d q).
Proof. intros addr v pk H. simpl in H. by rewrite lookup_empty in H. Qed.

(** The four outcomes of [add_vote]. *)
Lemma add_vote_cases v pk a :
  (data v <> acc_data a /\ add_vote v pk a = (Ok None, a)) \/
  (data v = acc_data a /\ is_Some (votes a !! voter v) /\
     add_vote v pk a = (Err (DuplicateVoter (voter v)), a)) \/
  (data v = acc_data a /\ votes a !! voter v = None /\
     verify_single (signature v) pk (msg_of (data v)) = false /\ add_vote v pk a = (Ok None, a)) \/
  (data v = acc_data a /\ votes a !! voter v = None /\
     verify_single (signature v) pk (msg_of (data v)) = true /\
     let a' := mkAcc (acc_data a) (<[voter v := (v, pk)]> (votes a)) (acc_quorum a) in
     add_vote v pk a =
       (Ok (if acc_quorum a <=? Z.of_nat (size (votes a')) then Some (form_qc a') else None), a')).
Proof.
  unfold add_vote, mbind, M_bind, get_st, throw_if, put_st, mret, M_ret.
  destruct (decide (data v = acc_data a)) as [Hd|Hd].
  2:{ left. rewrite bool_decide_eq_false_2 by done. done. }
  right. rewrite bool_decide_eq_true_2 by done. cbn [negb].
  destruct (votes a !! voter v) as [x|] eqn:Hl.
  - left. rewrite bool_decide_eq_true_2 by done. done.
  - right. rewrite bool_decide_eq_false_2 by by intros [].
    destruct (verify_single (signature v) pk (msg_of (data v))) eqn:Hv; cbn [negb].
    + right. split_and!; [done..|]. by case_match.
    + left. done.
Qed.

Lemma add_vote_ok v pk a : acc_ok a -> acc_ok (snd (add_vote v pk a)).
Proof.
  intros Ha. destruct (add_vote_cases v pk a) as [[_ ->]|[(_ & _ & ->)|[(_ & _ & _ & ->)|(Hd & Hn & Hv & ->)]]];
    [done..|]. simpl. intros addr w pk' Hl. simpl in *.
  apply lookup_insert_Some in Hl as [[<- [= <- <-]]|[_ Hl]]; [|by apply Ha].
  rewrite Hd in Hv. done.
Qed.

(** A certificate backed by real votes: at least [q] distinct signers, each
    with a signature that verifies under the key listed next to it. *)
Definition qc_backed (q : Z) (qc : QuorumCertificate) : Prop :=
  NoDup (signers qc) /\ q <= zlen (signers qc) /\
  length (signers qc) = length (signer_pubkeys qc) /\
  forall i addr, signers qc !! i = Some addr -> exists pk sig,
    signer_pubkeys qc !! i = Some pk /\ verify_single sig pk (msg_of (vote_data qc)) = true.

Lemma form_qc_signers a : acc_ok a -> signers (form_qc a) = (map_to_list (votes a)).*1.
Proof.
  intros Ha. unfold form_qc. simpl. rewrite map_map. change (map ?f ?l) with (f <$> l).
  apply list_eq. intros i. rewrite !list_lookup_fmap.
  destruct (map_to_list (votes a) !! i) as [[addr [v pk]]|] eqn:Hi; [|done].
  simpl. f_equal. apply list_elem_of_lookup_2, elem_of_map_to_list in Hi. by apply Ha in Hi as [? _].
Qed.

Lemma form_qc_entry a i addr : acc_ok a -> signers (form_qc a) !! i = Some addr ->
  exists v pk, votes a !! addr = Some (v, pk) /\ signer_pubkeys (form_qc a) !! i = Some pk.
Proof.
  intros Ha. rewrite form_qc_signers by done. rewrite list_lookup_fmap. intros Hi.
  destruct (map_to_list (votes a) !! i) as [[addr' [v pk]]|] eqn:Hl; [|done]. simpl in Hi.
  injection Hi as ->. exists v, pk. split.
  - by apply list_elem_of_lookup_2, elem_of_map_to_list in Hl.
  - unfold form_qc. simpl. change map with (@fmap list _). rewrite !list_lookup_fmap, Hl. done.
Qed.

Lemma form_qc_backed a : acc_ok a -> acc_quorum a <= Z.of_nat (size (votes a)) ->
  qc_backed (acc_quorum a) (form_qc a).
Proof.
  intros Ha Hq. split_and!.
  - rewrite form_qc_signers by done. apply NoDup_fst_map_to_list.
  - rewrite form_qc_signers by done. unfold zlen. by rewrite length_fmap, length_map_to_list.
  - unfold form_qc. simpl. by rewrite !length_map.
  - intros i addr Hi. destruct (form_qc_entry a i addr Ha Hi) as (v & pk & Hv & Hpk).
    exists pk, (signature v). split; [done|]. by apply Ha in Hv as (_ & _ & ?).
Qed.

Lemma add_vote_qc v pk a qc : acc_ok a -> fst (add_vote v pk a) = Ok (Some qc) ->
  qc = form_qc (snd (add_vote v pk a)) /\ vote_data qc = acc_data a /\
  acc_quorum a <= Z.of_nat (size (votes (snd (add_vote v pk a)))) /\
  acc_quorum (snd (add_vote v pk a)) = acc_quorum a /\ qc_backed (acc_quorum a) qc.
Proof.
  intros Ha. pose proof (add_vote_ok v pk a Ha) as Ha'. revert Ha'.
  destruct (add_vote_cases v pk a) as [[_ ->]|[(_ & _ & ->)|[(_ & _ & _ & ->)|(Hd & Hn & Hv & ->)]]]; try done.
  cbn [fst snd votes acc_quorum]. intros Ha'. destruct (Z.leb_spec (acc_quorum a)
    (Z.of_nat (size (<[voter v:=(v, pk)]> (votes a))))) as [Hq|Hq]; [|done].
  intros [= <-]. split; [done|]. split; [done|]. split; [done|]. split; [done|].
  exact (form_qc_backed _ Ha' Hq).
Qed.
End votes.

(** ** The signed preimage *)

Lemma signing_bytes_inj d1 d2 : vote_data_ok d1 -> vote_data_ok d2 ->
  signing_bytes d1 = signing_bytes d2 -> d1 = d2.
Proof.
  intros (Hl1 & _ & Hn1 & Hp1 & He1) (Hl2 & _ & Hn2 & Hp2 & He2). unfold signing_bytes. intros Heq.
  apply app_inj_length in Heq as [Hh Heq]; [|congruence].
  apply app_inj_length in Heq as [Hn Heq]; [|by rewrite !length_to_be].
  apply app_inj_length in Heq as [Hp He]; [|done]. injection Hp as Hp.
  apply (to_be_inj 8) in Hn; [|done..]. apply (to_be_inj 8) in He; [|done..].
  destruct d1, d2. simpl in *. congruence.
Qed.
