(* ===== verification/SafetyRules.v ===== *)
(** * Voting safety (crates/zbx-consensus/src/safety_rules.rs)

    [SafetyRules] with its write-ahead file.  The file is the [wal] field: what
    a successful [persist_state] wrote last (serde_json and the file system are
    not under src/; a write that fails leaves the old contents, and whether it
    fails is an argument).  [sr_step] runs one call; [OCrash] drops the memory
    and reopens with [new_with_persist]. *)

From Stdlib Require Import ZArith Lia.
From stdpp Require Import base tactics list gmap sets numbers option.
From S2P Require Import Prelude Bytes Crypto Vote.

Local Open Scope Z_scope.

Record SafetyState : Type := mkState {
  highest_vote_round : Z; locked_round : Z; locked_qc : option QuorumCertificate;
  st_epoch : Z; voted_phases : gset (Z * Z) }.

Definition default_state : SafetyState := mkState 0 0 None 0 ∅.

(** [wal] is [None] for an absent or corrupt file. *)
Record SafetyRules : Type := mkRules {
  state : SafetyState; priv_key : BlsPrivKey; pub_key : BlsPubKey; address : Address;
  persist_path : bool; wal : option SafetyState }.

Section rules.
Context {CR : Crypto}.

Definition sr_new (k : BlsPrivKey) (addr : Address) : SafetyRules :=
  mkRules default_state k (to_pubkey k) addr false None.

Definition new_with_persist (k : BlsPrivKey) (addr : Address) (file : option SafetyState)
    : SafetyRules :=
  mkRules (default default_state file) k (to_pubkey k) addr true file.

Definition set_state (s : SafetyState) (r : SafetyRules) : SafetyRules :=
  mkRules s (priv_key r) (pub_key r) (address r) (persist_path r) (wal r).

(** [io_ok]: the write and the rename succeed. *)
Definition persist_state (io_ok : bool) (r : SafetyRules) : SafetyRules :=
  if persist_path r && io_ok
  then mkRules (state r) (priv_key r) (pub_key r) (address r) (persist_path r) (Some (state r))
  else r.

Definition vote (io_ok : bool) (d : VoteData) (parent_qc : QuorumCertificate)
    : M SafetyRules ConsensusError Vote :=
  r ← get_st;
  let s := state r in
  _ ← throw_if (block_number d <? highest_vote_round s)
        (StaleRound (block_number d) (highest_vote_round s));
  let phase_key := (block_number d, phase d) in
  _ ← throw_if (bool_decide (phase_key ∈ voted_phases s)) (DuplicateVote (block_number d) (phase d));
  _ ← throw_if (block_number (vote_data parent_qc) <? locked_round s)
        (SafetyViolation (block_number (vote_data parent_qc)) (locked_round s));
  _ ← throw_if (negb (epoch d =? st_epoch s) && negb (st_epoch s =? 0))
        (SafetyViolation (epoch d) (st_epoch s));
  let sig := bls_sign (priv_key r) (msg_of d) in
  let s' := mkState (block_number d) (locked_round s) (locked_qc s) (st_epoch s)
              ({[phase_key]} ∪ voted_phases s) in
  _ ← put_st (persist_state io_ok (set_state s' r));
  mret (mkVote d (address r) sig).

Definition update_locked_qc (qc : QuorumCertificate) (r : SafetyRules) : SafetyRules :=
  let s := state r in
  if locked_round s <? block_number (vote_data qc)
  then set_state (mkState (highest_vote_round s) (block_number (vote_data qc)) (Some qc)
                    (st_epoch s) (voted_phases s)) r
  else r.

Definition advance_epoch (new_epoch : Z) (r : SafetyRules) : SafetyRules :=
  let s := state r in
  if st_epoch s <? new_epoch
  then set_state (mkState (highest_vote_round s) (locked_round s) (locked_qc s) new_epoch ∅) r
  else r.

(** ** Runs *)

Inductive sr_op : Type :=
| OVote (io_ok : bool) (d : VoteData) (parent_qc : QuorumCertificate)
| OLock (qc : QuorumCertificate)
| OEpoch (e : Z)
| OCrash.

Definition sr_step (o : sr_op) (r : SafetyRules) : option Vote * SafetyRules :=
  match o with
  | OVote io d qc =>
    match vote io d qc r with
    | (Ok v, r') => (Some v, r')
    | (_, r') => (None, r')
    end
  | OLock qc => (None, update_locked_qc qc r)
  | OEpoch e => (None, advance_epoch e r)
  | OCrash => (None, new_with_persist (priv_key r) (address r) (wal r))
  end.

(** The votes cast by a run, oldest first, and the final state. *)
Fixpoint sr_run (ops : list sr_op) (r : SafetyRules) : list Vote * SafetyRules :=
  match ops with
  | [] => ([], r)
  | o :: ops =>
    let '(v, r1) := sr_step o r in
    let '(vs, r2) := sr_run ops r1 in
    (option_list v ++ vs, r2)
  end.

(** ** The four checks *)

Definition vote_allowed (d : VoteData) (parent_qc : QuorumCertificate) (s : SafetyState) : Prop :=
  highest_vote_round s <= block_number d /\
  ~ (block_number d, phase d) ∈ voted_phases s /\
  locked_round s <= block_number (vote_data parent_qc) /\
  (epoch d = st_epoch s \/ st_epoch s = 0).

Lemma vote_cases io d qc r :
  (vote_allowed d qc (state r) /\
   vote io d qc r =
     (Ok (mkVote d (address r) (bls_sign (priv_key r) (msg_of d))),
      persist_state io (set_state
        (mkState (block_number d) (locked_round (state r)) (locked_qc (state r)) (st_epoch (state r))
           ({[(block_number d, phase d)]} ∪ voted_phases (state r))) r))) \/
  (~ vote_allowed d qc (state r) /\ exists e, vote io d qc r = (Err e, r)).
Proof.
  unfold vote, vote_allowed, mbind, M_bind, get_st, throw_if, put_st, mret, M_ret.
  destruct (Z.ltb_spec (block_number d) (highest_vote_round (state r))) as [H1|H1];
    [right; split; [lia|eauto]|].
  case_bool_decide as H2; [right; split; [tauto|eauto]|].
  destruct (Z.ltb_spec (block_number (vote_data qc)) (locked_round (state r))) as [H3|H3];
    [right; split; [lia|eauto]|].
  destruct (Z.eqb_spec (epoch d) (st_epoch (state r))) as [H4|H4],
    (Z.eqb_spec (st_epoch (state r)) 0) as [H5|H5]; cbn [negb andb]; try (left; tauto).
  right. split; [tauto|eauto].
Qed.

(** [vote] signs exactly when the four checks pass, and only then changes
    the state: the round is recorded, the phase is marked, the state is
    written to the file before the vote is returned, and a refused vote
    leaves the memory and the file alone. *)
Theorem vote_correct io d qc r :
  (vote_allowed d qc (state r) <-> is_ok (fst (vote io d qc r)) = true) /\
  (forall v, fst (vote io d qc r) = Ok v ->
     v = mkVote d (address r) (bls_sign (priv_key r) (msg_of d)) /\
     highest_vote_round (state (snd (vote io d qc r))) = block_number d /\
     voted_phases (state (snd (vote io d qc r))) = {[(block_number d, phase d)]} ∪ voted_phases (state r) /\
     locked_round (state (snd (vote io d qc r))) = locked_round (state r) /\
     wal (snd (vote io d qc r)) =
       if persist_path r && io then Some (state (snd (vote io d qc r))) else wal r) /\
  (forall e, fst (vote io d qc r) = Err e -> snd (vote io d qc r) = r) /\
  no_panic (fst (vote io d qc r)).
Proof.
  destruct (vote_cases io d qc r) as [[Ha ->]|[Ha [e ->]]]; cbn [fst snd is_ok]; split_and!; try done.
  intros v [= <-]. unfold persist_state. cbn [persist_path set_state].
  destruct (persist_path r && io); done.
Qed.

(** ** No double vote within an epoch *)

Definition vote_key (v : Vote) : Z * Z := (block_number (data v), phase (data v)).

(** Every vote cast is recorded in memory and in the file. *)
Definition sr_inv (vs : list Vote) (r : SafetyRules) : Prop :=
  persist_path r = true /\
  (forall v, v ∈ vs ->
    vote_key v ∈ voted_phases (state r) /\ block_number (data v) <= highest_vote_round (state r)) /\
  (vs = [] \/ exists w, wal r = Some w /\ forall v, v ∈ vs ->
    vote_key v ∈ voted_phases w /\ block_number (data v) <= highest_vote_round w).

Definition in_epoch (o : sr_op) : Prop :=
  match o with OVote io _ _ => io = true | OEpoch _ => False | _ => True end.

Lemma sr_step_inv o r vs v r' : in_epoch o -> sr_inv vs r -> sr_step o r = (v, r') ->
  sr_inv (vs ++ option_list v) r' /\
  (forall w, v = Some w -> forall u, u ∈ vs ->
     vote_key u <> vote_key w /\ block_number (data u) <= block_number (data w)).
Proof.
  intros Ho (Hp & Hm & Hw) Hs. destruct o as [io d qc|qc|e|]; simpl in Ho, Hs; [| |done|].
  - subst io. destruct (vote_cases true d qc r) as [[(H1 & H2 & _ & _) Hv]|[_ [e Hv]]];
      rewrite Hv in Hs; simplify_eq; simpl.
    2:{ rewrite app_nil_r. done. }
    unfold persist_state. cbn [persist_path set_state]. rewrite Hp. cbn [andb].
    assert (forall u, u ∈ vs ++ [mkVote d (address r) (bls_sign (priv_key r) (msg_of d))] ->
      vote_key u ∈ {[(block_number d, phase d)]} ∪ voted_phases (state r) /\
      block_number (data u) <= block_number d) as Hall.
    { intros u [Hu|Hu%list_elem_of_singleton]%elem_of_app.
      - destruct (Hm u Hu). split; [set_solver|lia].
      - subst u. split; [set_solver|simpl; lia]. }
    split.
    + split_and!; [done|exact Hall|]. right. eexists. split; [done|exact Hall].
    + intros w [= <-] u Hu. destruct (Hm u Hu) as [Hk Hb]. split; [|simpl; lia].
      intros Heq. apply H2. unfold vote_key in *. simpl in *. congruence.
  - simplify_eq. simpl. rewrite app_nil_r. split; [|done].
    unfold update_locked_qc. case_match; done.
  - simplify_eq. simpl. rewrite app_nil_r. split; [|done]. split_and!; [done| |done].
    destruct Hw as [->|(w & -> & Hw)]; [set_solver|]. done.
Qed.

(** A later vote never repeats an earlier round and phase and never goes back
    to a lower round. *)
Definition vote_order (vs : list Vote) : Prop :=
  forall i j v w, (i < j)%nat -> vs !! i = Some v -> vs !! j = Some w ->
    vote_key v <> vote_key w /\ block_number (data v) <= block_number (data w).

Lemma vote_order_snoc vs w : vote_order vs ->
  (forall u, u ∈ vs -> vote_key u <> vote_key w /\ block_number (data u) <= block_number (data w)) ->
  vote_order (vs ++ [w]).
Proof.
  intros Hvs Hw i j u v Hij Hi Hj. apply lookup_app_Some in Hj as [Hj|[Hlen Hj]].
  - apply lookup_lt_Some in Hj as Hlt. rewrite lookup_app_l in Hi by lia. eauto.
  - apply list_lookup_singleton_Some in Hj as [Hj <-].
    rewrite lookup_app_l in Hi by lia. eapply Hw, list_elem_of_lookup_2, Hi.
Qed.

Lemma sr_run_inv ops : forall r vs0, Forall in_epoch ops -> sr_inv vs0 r -> vote_order vs0 ->
  vote_order (vs0 ++ fst (sr_run ops r)).
Proof.
  induction ops as [|o ops IH]; intros r vs0 Ho Hi Hord; simpl; [by rewrite app_nil_r|].
  apply Forall_cons_iff in Ho as [Ho Hos].
  destruct (sr_step o r) as [v r1] eqn:Hs.
  destruct (sr_step_inv o r vs0 v r1 Ho Hi Hs) as [Hi1 Hnew].
  specialize (IH r1 (vs0 ++ option_list v) Hos Hi1).
  destruct (sr_run ops r1) as [vs r2]. simpl in *. rewrite app_assoc. apply IH.
  destruct v as [w|]; simpl; [|by rewrite app_nil_r]. apply vote_order_snoc; eauto.
Qed.

(** C7. No double vote, crashes included: whatever votes, locks, crashes and
    restarts a validator goes through within one epoch, when the file writes
    succeed it never signs two messages for the same round and phase, and
    never one below a round it has voted in. *)
Theorem safety_no_double_vote ops k addr file : Forall in_epoch ops ->
  vote_order (fst (sr_run ops (new_with_persist k addr file))).
Proof.
  intros Ho. apply (sr_run_inv ops _ []); [done| |by intros i].
  split_and!; [done|set_solver|by left].
Qed.

(** The lock is not persisted by [update_locked_qc]: after a crash a
    validator can vote for a proposal that does not extend its locked
    certificate, which it refused before the crash. *)
Theorem lock_lost_on_crash k addr qc parent d :
  0 < block_number (vote_data qc) -> 0 <= block_number (vote_data parent) < block_number (vote_data qc) ->
  0 <= block_number d ->
  let locked := snd (sr_run [OLock qc] (new_with_persist k addr None)) in
  fst (vote true d parent locked) =
    Err (SafetyViolation (block_number (vote_data parent)) (block_number (vote_data qc))) /\
  is_ok (fst (vote true d parent (snd (sr_step OCrash locked)))) = true.
Proof.
  intros Hq Hp Hd. cbn. unfold update_locked_qc, new_with_persist. cbn [state default locked_round default_state].
  rewrite (proj2 (Z.ltb_lt 0 _)) by done.
  unfold vote, mbind, M_bind, get_st, throw_if, put_st, mret, M_ret, set_state.
  cbn [state highest_vote_round voted_phases locked_round st_epoch].
  rewrite (proj2 (Z.ltb_ge _ 0)) by lia. rewrite bool_decide_eq_false_2 by set_solver.
  rewrite (proj2 (Z.ltb_lt _ _)) by lia. split; [done|].
  cbn [wal priv_key address default default_state state highest_vote_round voted_phases locked_round st_epoch].
  rewrite (proj2 (Z.ltb_ge _ 0)) by lia. rewrite bool_decide_eq_false_2 by set_solver.
  rewrite (proj2 (Z.ltb_ge _ 0)) by lia. by rewrite andb_false_r.
Qed.

(** Entering a new epoch clears the record of voted phases while the round
    check is strict, and equivocation evidence ignores the epoch: an honest
    validator that advances its epoch and votes again at the same round on
    another block produces evidence that verifies against itself. *)
Theorem epoch_advance_slashable k addr h1 h2 round qc :
  (forall d, verify_single (bls_sign k (msg_of d)) (to_pubkey k) (msg_of d) = true) ->
  h1 <> h2 -> 0 <= round -> 0 <= block_number (vote_data qc) ->
  let d1 := mkVoteData h1 round 0 1 in
  let d2 := mkVoteData h2 round 0 2 in
  exists v1 v2,
    fst (sr_run [OEpoch 1; OVote true d1 qc; OEpoch 2; OVote true d2 qc]
           (new_with_persist k addr None)) = [v1; v2] /\
    evidence_verify (mkEvidence addr round 0 v1 v2 (to_pubkey k)) = true.
Proof.
  intros Hsig Hne Hr Hq d1 d2.
  eexists (mkVote d1 addr _), (mkVote d2 addr _). split.
  - cbn -[vote]. unfold vote, mbind, M_bind, get_st, throw_if, put_st, mret, M_ret, set_state.
    cbn -[bool_decide union singleton empty Z.ltb].
    rewrite (proj2 (Z.ltb_ge round 0)) by done. rewrite bool_decide_eq_false_2 by set_solver.
    rewrite (proj2 (Z.ltb_ge _ 0)) by done. cbn -[bool_decide union singleton empty Z.ltb].
    rewrite Z.ltb_irrefl. rewrite bool_decide_eq_false_2 by set_solver.
    rewrite (proj2 (Z.ltb_ge _ 0)) by done. cbn. reflexivity.
  - unfold evidence_verify. cbn. rewrite !Z.eqb_refl, !bool_decide_eq_true_2 by done.
    rewrite bool_decide_eq_false_2 by done. cbn. by rewrite !Hsig.
Qed.
End rules.
