(* ===== verification/Pacemaker.v ===== *)
(** * Round timing (crates/zbx-consensus/src/liveness.rs)

    The [Pacemaker] of the HotStuff driver.  A [Duration] is a number of
    nanoseconds, the clock ([Instant::now]) an argument. *)

From Stdlib Require Import ZArith Lia.
From stdpp Require Import base tactics list numbers option.
From S2P Require Import Prelude.

Local Open Scope Z_scope.

Definition from_secs (s : Z) : Z := s * 1000000000.
Definition from_millis (ms : Z) : Z := ms * 1000000.
(** [as_millis() as u64] *)
Definition as_millis (d : Z) : Z := u64 (d / 1000000).

Record PacemakerConfig : Type := mkPmConfig {
  base_timeout : Z; backoff_num : Z; backoff_den : Z; max_timeout : Z }.
Definition pm_default : PacemakerConfig := mkPmConfig (from_secs 2) 3 2 (from_secs 30).

Record RoundState : Type := mkRound {
  round : Z; r_epoch : Z; started_at : Z; timeout : Z; consecutive_timeouts : Z }.
Definition round_new (now r e t : Z) : RoundState := mkRound r e now t 0.

Definition elapsed (now : Z) (r : RoundState) : Z := Z.max 0 (now - started_at r).
Definition round_is_timed_out (now : Z) (r : RoundState) : bool := timeout r <=? elapsed now r.

Record Pacemaker : Type := mkPm { config : PacemakerConfig; current : RoundState }.

Definition pm_new (now : Z) (c : PacemakerConfig) : Pacemaker :=
  mkPm c (round_new now 1 1 (base_timeout c)).
Definition pm_current_round (p : Pacemaker) : Z := round (current p).
Definition pm_current_epoch (p : Pacemaker) : Z := r_epoch (current p).
Definition pm_is_timed_out (now : Z) (p : Pacemaker) : bool := round_is_timed_out now (current p).

Definition advance_round (now new_round e : Z) (p : Pacemaker) : Pacemaker :=
  if new_round <=? round (current p) then p
  else mkPm (config p) (round_new now new_round e (base_timeout (config p))).

Definition start_round (now r e : Z) (p : Pacemaker) : Pacemaker :=
  mkPm (config p) (round_new now r e (base_timeout (config p))).

(** [acc?.checked_mul(num)?.checked_div(den)] *)
Definition backoff_step (num den : Z) (acc : option Z) : option Z :=
  a ← acc; x ← checked 64 (a * num); if den =? 0 then None else Some (x / den).

Definition backoff_ms (c : PacemakerConfig) (consecutive : nat) : option Z :=
  Nat.iter consecutive (backoff_step (backoff_num c) (Z.max (backoff_den c) 1))
    (Some (as_millis (base_timeout c))).

Definition pm_on_timeout (now : Z) (p : Pacemaker) : Z * Pacemaker :=
  let timed_out_round := round (current p) in
  let consecutive := u32 (consecutive_timeouts (current p) + 1) in
  let new_ms := backoff_ms (config p) (Z.to_nat consecutive) in
  let new_timeout := Z.min (default (max_timeout (config p)) (from_millis <$> new_ms))
                       (max_timeout (config p)) in
  (timed_out_round,
   mkPm (config p) (mkRound (u64 (round (current p) + 1)) (r_epoch (current p)) now new_timeout
                      consecutive)).

(** [n] timeouts in a row, at the given times. *)
Fixpoint timeouts (times : list Z) (p : Pacemaker) : Pacemaker :=
  match times with [] => p | now :: rest => timeouts rest (snd (pm_on_timeout now p)) end.

Definition config_ok (c : PacemakerConfig) : Prop :=
  0 <= base_timeout c <= max_timeout c /\ max_timeout c < from_millis (2 ^ 64) /\
  1 <= backoff_den c <= backoff_num c /\ backoff_num c < 2 ^ 64.

Lemma backoff_step_mono num den a b : 1 <= den <= num -> 0 <= a ->
  backoff_step num den (Some a) = Some b -> a <= b.
Proof.
  intros Hd Ha. unfold backoff_step. simpl. destruct (checked 64 (a * num)) as [x|] eqn:Hx; [|done].
  apply checked_Some in Hx as [-> _]. simpl. rewrite (proj2 (Z.eqb_neq den 0)) by lia.
  intros [= <-]. apply Z.div_le_lower_bound; nia.
Qed.

Lemma backoff_iter_mono num den n m a : 1 <= den <= num -> 0 <= a ->
  Nat.iter n (backoff_step num den) (Some a) = Some m ->
  a <= m /\ forall m', backoff_step num den (Some m) = Some m' -> m <= m'.
Proof.
  intros Hd Ha. revert m. induction n as [|n IH]; intros m; simpl.
  - intros [= <-]. split; [lia|]. intros m'. by apply backoff_step_mono.
  - destruct (Nat.iter n (backoff_step num den) (Some a)) as [k|] eqn:Hk; [|done].
    destruct (IH k eq_refl) as [H1 H2]. intros Hm. specialize (H2 m Hm).
    split; [lia|]. intros m'. apply backoff_step_mono; [done|lia].
Qed.

#[local] Arguments backoff_step : simpl never.

Lemma from_millis_le a b : a <= b -> from_millis a <= from_millis b.
Proof. unfold from_millis. lia. Qed.

Lemma timeouts_config times p : config (timeouts times p) = config p.
Proof. revert p. induction times as [|now rest IH]; intros p; [done|]. simpl. by rewrite IH. Qed.

Lemma timeouts_snoc times now p : timeouts (times ++ [now]) p = snd (pm_on_timeout now (timeouts times p)).
Proof. revert p. induction times as [|t rest IH]; intros p; [done|]. simpl. apply IH. Qed.

(** The timeout in force after [n] timeouts of a fresh round. *)
Definition backoff_timeout (c : PacemakerConfig) (n : nat) : Z :=
  Z.min (default (max_timeout c) (from_millis <$> backoff_ms c n)) (max_timeout c).

Lemma timeouts_state times now0 r e c : in_range 64 (r + zlen times) -> 0 <= r -> zlen times < 2 ^ 32 ->
  let p := timeouts times (start_round now0 r e (mkPm c (round_new now0 r e 0))) in
  round (current p) = r + zlen times /\ consecutive_timeouts (current p) = zlen times /\
  r_epoch (current p) = e /\
  (times <> [] -> timeout (current p) = backoff_timeout c (length times)).
Proof.
  induction times as [|now times IH] using rev_ind; intros Hr H0 Hl; simpl.
  { rewrite zlen_nil. split_and!; [lia|done..]. }
  rewrite timeouts_snoc, zlen_app in *. change (zlen [now]) with 1 in *. unfold in_range in *.
  pose proof (zlen_nonneg times).
  destruct IH as (H1 & H2 & H3 & _); [lia..|].
  cbn [pm_on_timeout snd current round consecutive_timeouts r_epoch timeout].
  rewrite H1, H2, timeouts_config. cbn [config start_round].
  rewrite !(wrap_small 64), !(wrap_small 32) by (unfold in_range; lia).
  split_and!; [lia|lia|done|]. intros _. unfold backoff_timeout.
  replace (Z.to_nat (zlen times + 1)) with (length (times ++ [now])); [done|].
  unfold zlen. rewrite length_app. simpl. lia.
Qed.

(** The back-off: from a fresh round, [n] timeouts in a row advance the round
    by [n] and install the [n]-fold scaled timeout; it never exceeds
    [max_timeout], and never shrinks from one timeout to the next. *)
Theorem pacemaker_backoff times now0 r e c : config_ok c -> in_range 64 (r + zlen times) -> 0 <= r ->
  zlen times < 2 ^ 32 -> times <> [] ->
  let p := timeouts times (start_round now0 r e (mkPm c (round_new now0 r e 0))) in
  pm_current_round p = r + zlen times /\ pm_current_epoch p = e /\
  timeout (current p) = backoff_timeout c (length times) /\
  timeout (current p) <= max_timeout c /\
  backoff_timeout c (length times) <= backoff_timeout c (S (length times)).
Proof.
  intros (Hb & Hm & Hd & Hn) Hr H0 Hl Hne p.
  destruct (timeouts_state times now0 r e c Hr H0 Hl) as (H1 & H2 & H3 & H4).
  unfold pm_current_round, pm_current_epoch. fold p in H1, H3, H4. rewrite H1, H3, H4 by done.
  split_and!; [done..|unfold backoff_timeout; lia|].
  unfold backoff_timeout, backoff_ms. rewrite (Z.max_l (backoff_den c)) by lia.
  set (a := as_millis (base_timeout c)).
  assert (0 <= a) as Ha by (apply wrap_range; lia).
  simpl. destruct (Nat.iter (length times) _ (Some a)) as [m|] eqn:Hit; simpl.
  - destruct (backoff_iter_mono _ _ _ _ _ Hd Ha Hit) as [_ Hs].
    destruct (backoff_step (backoff_num c) (backoff_den c) (Some m)) as [m'|] eqn:Hst; simpl in *.
    + specialize (Hs m' eq_refl). pose proof (from_millis_le _ _ Hs). lia.
    + lia.
  - lia.
Qed.

(** The doc comment computes base * num^n / den^n; the code divides at every
    step.  With a base of one millisecond and the default ratio 3/2 the code
    never backs off. *)
Theorem backoff_floor_stuck c n : base_timeout c = from_millis 1 -> backoff_num c = 3 -> backoff_den c = 2 ->
  from_millis 1 <= max_timeout c ->
  backoff_timeout c n = from_millis 1 /\
  (2 <= Z.of_nat n -> from_millis 1 < from_millis (1 * 3 ^ Z.of_nat n / 2 ^ Z.of_nat n)).
Proof.
  intros Hb Hn Hd Hm. split.
  - unfold backoff_timeout, backoff_ms. rewrite Hb, Hn, Hd.
    assert (Nat.iter n (backoff_step 3 (Z.max 2 1)) (Some (as_millis (from_millis 1))) = Some 1) as ->;
      [|simpl; lia].
    induction n as [|n IH]; [done|]. simpl. by rewrite IH.
  - intros H2. unfold from_millis. rewrite !Z.mul_1_l.
    assert (2 <= 3 ^ Z.of_nat n / 2 ^ Z.of_nat n); [|lia].
    apply Z.div_le_lower_bound; [by apply Z.pow_pos_nonneg; lia|].
    replace (Z.of_nat n) with (2 + (Z.of_nat n - 2)) by lia. rewrite !Z.pow_add_r by lia.
    pose proof (Z.pow_le_mono_l 2 3 (Z.of_nat n - 2) ltac:(lia)).
    assert (0 < 2 ^ (Z.of_nat n - 2)) by (apply Z.pow_pos_nonneg; lia). change (3 ^ 2) with 9. change (2 ^ 2) with 4. lia.
Qed.

Lemma backoff_floor_stuck_witness :
  backoff_timeout (mkPmConfig (from_millis 1) 3 2 (from_secs 30)) 9 = from_millis 1 /\
  from_millis 1 < from_millis (1 * 3 ^ 9 / 2 ^ 9).
Proof.
  destruct (backoff_floor_stuck (mkPmConfig (from_millis 1) 3 2 (from_secs 30)) 9 eq_refl eq_refl eq_refl)
    as [H1 H2]; [vm_compute; discriminate|].
  split; [exact H1|]. apply H2. vm_compute. discriminate.
Defined.

Lemma pacemaker_backoff_witness :
  let p := timeouts [10; 20; 30] (start_round 0 7 1 (mkPm pm_default (round_new 0 7 1 0))) in
  pm_current_round p = 10 /\ timeout (current p) = from_millis 6750.
Proof.
  destruct (pacemaker_backoff [10; 20; 30] 0 7 1 pm_default) as (H1 & _ & H3 & _);
    [|vm_compute; split; [discriminate|reflexivity]|vm_compute; discriminate|reflexivity|discriminate|].
  - repeat split; vm_compute; discriminate || reflexivity.
  - split; [exact H1|]. rewrite H3. vm_compute. reflexivity.
Defined.
