(* ===== verification/Block.v ===== *)
(** * Block headers (crates/zbx-types/src/block.rs)

    The canonical encoding that the header hash commits to, the validation of
    a header against its parent and the base fee formula it enforces. *)

From Stdlib Require Import ZArith Lia.
From stdpp Require Import base tactics list numbers option.
From S2P Require Import Prelude Bytes Crypto.

Local Open Scope Z_scope.

Definition BLOCK_GAS_LIMIT : Z := 30000000.

(** [difficulty], a [U256], is its value. *)
Record BlockHeader : Type := mkHeader {
  parent_hash : Hash; uncle_hash : Hash; coinbase : Address; state_root : Hash;
  transactions_root : Hash; receipts_root : Hash; logs_bloom : bytes; difficulty : Z;
  number : Z; gas_limit : Z; gas_used : Z; timestamp : Z; extra_data : bytes;
  mix_hash : Hash; nonce : Z; base_fee_per_gas : Z; committee_signature : bytes;
  h_epoch : Z; epoch_seed : option Hash }.

(** The body is not read by the modelled code. *)
Record Block {Body : Type} : Type := mkBlock { header : BlockHeader; body : Body }.
Arguments Block : clear implicits.

Definition encode_seed (s : option Hash) : bytes :=
  match s with None => [0] | Some s => 1 :: s end.

Definition canonical_encode (h : BlockHeader) : bytes :=
  parent_hash h ++ uncle_hash h ++ coinbase h ++ state_root h ++ transactions_root h ++
  receipts_root h ++ logs_bloom h ++ to_be 32 (difficulty h) ++
  to_be 8 (number h) ++ to_be 8 (gas_limit h) ++ to_be 8 (gas_used h) ++ to_be 8 (timestamp h) ++
  to_be 4 (u32 (zlen (extra_data h))) ++ extra_data h ++
  mix_hash h ++ to_be 8 (nonce h) ++ to_be 8 (base_fee_per_gas h) ++
  to_be 8 (h_epoch h) ++ encode_seed (epoch_seed h).

(** The errors of [validate_against_parent], by what they report. *)
Inductive HeaderError : Type :=
| ParentHashMismatch (number : Z)
| NumberGap (expected got : Z)
| TimestampNotIncreasing
| GasUsedExceedsLimit (used limit : Z)
| GasLimitAboveMaximum
| ExtraDataTooLong (len : Z)
| BaseFeeMismatch (number expected got : Z).

(** A division by zero panics. *)
Definition div_nz {E} (a b : Z) : res E Z := if b =? 0 then Panic else Ok (a / b).

(** The sums and products are in u128 (saturating additions never saturate
    here), the result is truncated to u64. *)
Definition compute_eip1559_base_fee {E} (parent_base gas_used gas_limit : Z) : res E Z :=
  if gas_limit =? 0 then Ok parent_base
  else
    let target := gas_limit / 2 in
    if gas_used =? target then Ok parent_base
    else
      let base := parent_base in
      let adj := base / 8 in
      if target <? gas_used then
        let delta := gas_used - target in
        q ← div_nz (u128 (base * delta)) target;
        let bump := Z.min (Z.max q 1) adj in
        Ok (u64 (sat 128 (base + bump)))
      else
        let delta := target - gas_used in
        q ← div_nz (u128 (base * delta)) target;
        let cut := Z.min q adj in
        Ok (u64 (sat 128 (base - cut))).

Section block.
Context {CR : Crypto}.

Definition header_hash (h : BlockHeader) : Hash := keccak256 (canonical_encode h).

Definition validate_against_parent (h parent : BlockHeader) : res HeaderError unit :=
  _ ← guard_err (negb (bool_decide (parent_hash h = header_hash parent))) (ParentHashMismatch (number h));
  _ ← guard_err (negb (number h =? u64 (number parent + 1)))
        (NumberGap (u64 (number parent + 1)) (number h));
  _ ← guard_err (timestamp h <=? timestamp parent) TimestampNotIncreasing;
  _ ← guard_err (gas_limit h <? gas_used h) (GasUsedExceedsLimit (gas_used h) (gas_limit h));
  _ ← guard_err (BLOCK_GAS_LIMIT <? gas_limit h) GasLimitAboveMaximum;
  _ ← guard_err (32 <? zlen (extra_data h)) (ExtraDataTooLong (zlen (extra_data h)));
  if (0 <? number parent) || (0 <? base_fee_per_gas parent) then
    expected ← compute_eip1559_base_fee (base_fee_per_gas parent) (gas_used parent) (gas_limit parent);
    guard_err (negb (base_fee_per_gas h =? expected))
      (BaseFeeMismatch (number h) expected (base_fee_per_gas h))
  else Ok tt.

Definition b_hash {Body} (b : Block Body) : Hash := header_hash (header b).
Definition b_number {Body} (b : Block Body) : Z := number (header b).
Definition b_coinbase {Body} (b : Block Body) : Address := coinbase (header b).
End block.

(** Fields within their Rust types. *)
Definition header_ok (h : BlockHeader) : Prop :=
  length (parent_hash h) = 32%nat /\ length (uncle_hash h) = 32%nat /\ length (coinbase h) = 20%nat /\
  length (state_root h) = 32%nat /\ length (transactions_root h) = 32%nat /\
  length (receipts_root h) = 32%nat /\ length (logs_bloom h) = 256%nat /\
  length (mix_hash h) = 32%nat /\ in_range 256 (difficulty h) /\
  in_range 64 (number h) /\ in_range 64 (gas_limit h) /\ in_range 64 (gas_used h) /\
  in_range 64 (timestamp h) /\ in_range 64 (nonce h) /\ in_range 64 (base_fee_per_gas h) /\
  in_range 64 (h_epoch h) /\ zlen (extra_data h) < 2 ^ 32 /\
  (forall s, epoch_seed h = Some s -> length s = 32%nat).

Lemma field_inj {A} (a b c d : list A) n : length a = n -> length b = n ->
  a ++ c = b ++ d -> a = b /\ c = d.
Proof. intros Ha Hb. apply app_inj_length. by rewrite Ha, Hb. Qed.

Lemma int_field_inj n x y c d : to_be n x ++ c = to_be n y ++ d ->
  to_be n x = to_be n y /\ c = d.
Proof. apply field_inj with n; apply length_to_be. Qed.

Lemma encode_seed_inj a b : encode_seed a = encode_seed b -> a = b.
Proof. destruct a, b; simpl; congruence. Qed.

(** The canonical encoding is injective on everything but the committee
    signature: two headers with the same encoding agree on every field the
    hash is meant to commit to, whatever the length of the extra data. *)
Lemma canonical_encode_inj h1 h2 : header_ok h1 -> header_ok h2 ->
  canonical_encode h1 = canonical_encode h2 ->
  h1 = mkHeader (parent_hash h2) (uncle_hash h2) (coinbase h2) (state_root h2) (transactions_root h2)
         (receipts_root h2) (logs_bloom h2) (difficulty h2) (number h2) (gas_limit h2) (gas_used h2)
         (timestamp h2) (extra_data h2) (mix_hash h2) (nonce h2) (base_fee_per_gas h2)
         (committee_signature h1) (h_epoch h2) (epoch_seed h2).
Proof.
  intros (A1 & A2 & A3 & A4 & A5 & A6 & A7 & A8 & A9 & A10 & A11 & A12 & A13 & A14 & A15 & A16 & A17 & A18)
    (B1 & B2 & B3 & B4 & B5 & B6 & B7 & B8 & B9 & B10 & B11 & B12 & B13 & B14 & B15 & B16 & B17 & B18) H.
  unfold canonical_encode in H.
  apply (field_inj _ _ _ _ _ A1 B1) in H as [F1 H]. apply (field_inj _ _ _ _ _ A2 B2) in H as [F2 H].
  apply (field_inj _ _ _ _ _ A3 B3) in H as [F3 H]. apply (field_inj _ _ _ _ _ A4 B4) in H as [F4 H].
  apply (field_inj _ _ _ _ _ A5 B5) in H as [F5 H]. apply (field_inj _ _ _ _ _ A6 B6) in H as [F6 H].
  apply (field_inj _ _ _ _ _ A7 B7) in H as [F7 H].
  apply int_field_inj in H as [F8 H]. apply int_field_inj in H as [F9 H].
  apply int_field_inj in H as [F10 H]. apply int_field_inj in H as [F11 H].
  apply int_field_inj in H as [F12 H]. apply int_field_inj in H as [F13 H].
  pose proof (zlen_nonneg (extra_data h1)). pose proof (zlen_nonneg (extra_data h2)).
  apply to_be_inj in F13; [|by apply wrap_range..].
  rewrite !(wrap_small 32) in F13 by (unfold in_range; lia).
  apply app_inj_length in H as [F14 H]; [|unfold zlen in F13; lia].
  apply (field_inj _ _ _ _ _ A8 B8) in H as [F15 H].
  apply int_field_inj in H as [F16 H]. apply int_field_inj in H as [F17 H].
  apply int_field_inj in H as [F18 H]. apply encode_seed_inj in H.
  apply (to_be_inj 32) in F8; [|done..]. apply (to_be_inj 8) in F9; [|done..].
  apply (to_be_inj 8) in F10; [|done..]. apply (to_be_inj 8) in F11; [|done..].
  apply (to_be_inj 8) in F12; [|done..]. apply (to_be_inj 8) in F16; [|done..].
  apply (to_be_inj 8) in F17; [|done..]. apply (to_be_inj 8) in F18; [|done..].
  destruct h1, h2. simpl in *. by subst.
Qed.

(** A header with the committee signature taken out. *)
Definition unsigned (h : BlockHeader) : BlockHeader :=
  mkHeader (parent_hash h) (uncle_hash h) (coinbase h) (state_root h) (transactions_root h)
    (receipts_root h) (logs_bloom h) (difficulty h) (number h) (gas_limit h) (gas_used h)
    (timestamp h) (extra_data h) (mix_hash h) (nonce h) (base_fee_per_gas h) [] (h_epoch h) (epoch_seed h).

(** ** The base fee *)

Definition fee_input_ok (parent_base gas_used gas_limit : Z) : Prop :=
  in_range 64 parent_base /\ in_range 64 gas_used /\ 2 <= gas_limit < 2 ^ 64.

Lemma div_nz_pos {E} a b : 0 < b -> @div_nz E a b = Ok (a / b).
Proof. intros Hb. unfold div_nz. by rewrite (proj2 (Z.eqb_neq b 0)) by lia. Qed.

(** The value the code computes, without the wrap-arounds. *)
Lemma base_fee_value {E} b used limit : fee_input_ok b used limit ->
  @compute_eip1559_base_fee E b used limit =
    Ok (u64 (let t := limit / 2 in
             if used =? t then b
             else if t <? used then b + Z.min (Z.max (b * (used - t) / t) 1) (b / 8)
             else b - Z.min (b * (t - used) / t) (b / 8))).
Proof.
  intros (Hb & Hu & Hl). unfold in_range in *. unfold compute_eip1559_base_fee.
  rewrite (proj2 (Z.eqb_neq limit 0)) by lia.
  assert (1 <= limit / 2) as Ht by (apply Z.div_le_lower_bound; lia).
  set (t := limit / 2) in *.
  assert (t < 2 ^ 64) by (subst t; apply Z.div_lt_upper_bound; lia).
  pose proof (Z.div_pos b 8 ltac:(lia) ltac:(lia)). pose proof (Z.div_le_upper_bound b 8 b ltac:(lia) ltac:(lia)).
  assert (forall d, 0 <= d < 2 ^ 64 -> u128 (b * d) = b * d) as Hm.
  { intros d Hd. apply wrap_small. unfold in_range. change (2 ^ 128) with (2 ^ 64 * 2 ^ 64). nia. }
  destruct (Z.eqb_spec used t) as [->|Hne]; cbv zeta.
  - by rewrite wrap_small.
  - destruct (Z.ltb_spec t used) as [Hlt|Hge].
    + rewrite Hm by lia. rewrite div_nz_pos by lia. cbn [mbind res_bind].
      rewrite sat_small; [done|]. unfold in_range. change (2 ^ 128) with (2 ^ 64 * 2 ^ 64). lia.
    + rewrite Hm by lia. rewrite div_nz_pos by lia. cbn [mbind res_bind].
      rewrite sat_small; [done|]. unfold in_range.
      assert (0 <= b * (t - used) / t) by (apply Z.div_pos; nia).
      change (2 ^ 128) with (2 ^ 64 * 2 ^ 64). lia.
Qed.

(** The base fee a header must carry moves by at most an eighth of the
    parent's, in the direction of the parent's gas usage, as long as the
    parent's fee leaves room in u64; it is unchanged at the target. *)
Theorem base_fee_step {E} b used limit r : fee_input_ok b used limit -> b + b / 8 < 2 ^ 64 ->
  @compute_eip1559_base_fee E b used limit = Ok r ->
  b - b / 8 <= r <= b + b / 8 /\
  (used = limit / 2 -> r = b) /\ (limit / 2 < used -> b <= r) /\ (used < limit / 2 -> r <= b).
Proof.
  intros Hok Hr. rewrite base_fee_value by done. destruct Hok as (Hb & Hu & Hl). unfold in_range in *.
  assert (1 <= limit / 2) by (apply Z.div_le_lower_bound; lia).
  pose proof (Z.div_pos b 8 ltac:(lia) ltac:(lia)). pose proof (Z.div_le_upper_bound b 8 b ltac:(lia) ltac:(lia)).
  cbv zeta. destruct (Z.eqb_spec used (limit / 2)) as [->|Hne].
  - rewrite wrap_small by done. intros [= <-]. lia.
  - destruct (Z.ltb_spec (limit / 2) used) as [Hlt|Hge].
    + rewrite wrap_small by (unfold in_range; lia). intros [= <-]. lia.
    + assert (0 <= b * (limit / 2 - used) / (limit / 2)) by (apply Z.div_pos; nia).
      rewrite wrap_small by (unfold in_range; lia). intros [= <-]. lia.
Qed.

(** The documented formula divides the deviation by 8; the code only caps it:
    a usage between an eighth and a half above the target already takes the
    full 12.5% step, where the formula gives at most 6.25%. *)
Theorem base_fee_not_scaled {E} b t d : 8 <= b -> 0 < t -> t <= 8 * d -> 2 * d <= t ->
  2 * t < 2 ^ 64 -> b + b / 8 < 2 ^ 64 ->
  @compute_eip1559_base_fee E b (t + d) (2 * t) = Ok (b + b / 8) /\
  b + b * d / t / 8 <= b + b / 16.
Proof.
  intros Hb Ht Hd Hdt H2 Hr. pose proof (Z.div_pos b 8 ltac:(lia) ltac:(lia)). split.
  - rewrite base_fee_value by (unfold fee_input_ok, in_range; lia).
    replace (2 * t / 2) with t by (rewrite Z.mul_comm, Z.div_mul; lia). cbv zeta.
    rewrite (proj2 (Z.eqb_neq _ _)), (proj2 (Z.ltb_lt _ _)) by lia.
    replace (t + d - t) with d by lia.
    assert (b / 8 <= b * d / t) as Hle.
    { apply Z.div_le_lower_bound; [lia|]. pose proof (Z.mul_div_le b 8 ltac:(lia)). nia. }
    assert (1 <= b / 8) by (apply Z.div_le_lower_bound; lia).
    rewrite Z.min_r by lia. by rewrite wrap_small by (unfold in_range; lia).
  - assert (b * d / t <= b / 2) as Hle.
    { rewrite <-(Z.div_mul_cancel_r (b * d) t 2), <-(Z.div_mul_cancel_r b 2 t) by lia.
      rewrite (Z.mul_comm t 2). apply Z.div_le_mono; nia. }
    pose proof (Z.div_le_mono (b * d / t) (b / 2) 8 ltac:(lia) Hle) as H8.
    rewrite (Z.div_div b 2 8) in H8 by lia. change (2 * 8) with 16 in H8. lia.
Qed.

(** ** Validation *)

Section validation.
Context {CR : Crypto}.

(** A header accepted against its parent satisfies every rule, and the parent
    is determined by it up to the committee signature when the two encodings
    do not collide. *)
Theorem validated_header h p : in_range 64 (number h) ->
  validate_against_parent h p = Ok tt ->
  parent_hash h = header_hash p /\ number h = u64 (number p + 1) /\ timestamp p < timestamp h /\
  gas_used h <= gas_limit h <= BLOCK_GAS_LIMIT /\ zlen (extra_data h) <= 32 /\
  (0 < number p \/ 0 < base_fee_per_gas p ->
     @compute_eip1559_base_fee HeaderError (base_fee_per_gas p) (gas_used p) (gas_limit p) =
       Ok (base_fee_per_gas h)) /\
  (forall p', header_ok p -> header_ok p' -> validate_against_parent h p' = Ok tt ->
     (forall a b, a = canonical_encode p -> b = canonical_encode p' ->
        keccak256 a = keccak256 b -> a = b) ->
     unsigned p = unsigned p').
Proof.
  intros Hn. unfold validate_against_parent at 1, guard_err.
  case_bool_decide as H1; [|done]. cbn [negb mbind res_bind].
  destruct (Z.eqb_spec (number h) (u64 (number p + 1))) as [H2|]; [|done]. cbn [negb].
  destruct (Z.leb_spec (timestamp h) (timestamp p)) as [|H3]; [done|]. cbn [mbind res_bind].
  destruct (Z.ltb_spec (gas_limit h) (gas_used h)) as [|H4]; [done|]. cbn [mbind res_bind].
  destruct (Z.ltb_spec BLOCK_GAS_LIMIT (gas_limit h)) as [|H5]; [done|]. cbn [mbind res_bind].
  destruct (Z.ltb_spec 32 (zlen (extra_data h))) as [|H6]; [done|]. cbn [mbind res_bind].
  intros Hfee. split_and!; [done..|lia|done| |].
  - intros Hp. destruct ((0 <? number p) || (0 <? base_fee_per_gas p)) eqn:Hb.
    + destruct (compute_eip1559_base_fee _ _ _) as [x|e|] eqn:Hx; cbn [mbind res_bind] in Hfee; [|done..].
      destruct (Z.eqb_spec (base_fee_per_gas h) x) as [->|]; done.
    + bool_to_prop. lia.
  - intros p' Hok Hok' Hv Hinj. unfold validate_against_parent, guard_err in Hv.
    case_bool_decide as H1'; [|done]. rewrite H1 in H1'. unfold header_hash in H1'.
    apply Hinj in H1'; [|done..]. apply canonical_encode_inj in H1'; [|done..].
    rewrite H1'. done.
Qed.

(** A parent with a gas limit of one and one unit used makes the validation of
    any otherwise acceptable child panic: its target is zero. *)
Theorem gas_limit_one_panics h p : gas_limit p = 1 -> gas_used p = 1 -> 0 < number p ->
  parent_hash h = header_hash p -> number h = u64 (number p + 1) -> timestamp p < timestamp h ->
  gas_used h <= gas_limit h <= BLOCK_GAS_LIMIT -> zlen (extra_data h) <= 32 ->
  validate_against_parent h p = Panic.
Proof.
  intros Hl Hu Hn Hp Hnum Ht Hg Hx. unfold validate_against_parent, guard_err.
  rewrite bool_decide_eq_true_2 by done. cbn [negb mbind res_bind].
  rewrite Hnum, Z.eqb_refl. cbn [negb].
  rewrite (proj2 (Z.leb_gt _ _)), (proj2 (Z.ltb_ge (gas_limit h) _)) by lia.
  rewrite (proj2 (Z.ltb_ge BLOCK_GAS_LIMIT _)), (proj2 (Z.ltb_ge 32 _)) by lia. cbn [mbind res_bind].
  rewrite (proj2 (Z.ltb_lt 0 (number p))) by lia. cbn [orb]. rewrite Hl, Hu. done.
Qed.
End validation.
