(* ===== verification/HotStuff.v ===== *)
(** * The HotStuff driver (crates/zbx-consensus/src/hotstuff.rs, block_store.rs)

    The three-phase state machine: proposals, votes, certificates, timeouts.
    It drives SafetyRules.v and Pacemaker.v and owns the vote accumulators of
    Vote.v.  The clock ([now]) and the outcome of the file writes ([io]) are
    arguments of the handlers. *)

From Stdlib Require Import ZArith Lia.
From stdpp Require Import base tactics list gmap numbers option.
From S2P Require Import Prelude Bytes Crypto Vote SafetyRules Pacemaker Block.

Local Open Scope Z_scope.

Definition Prepare : Z := 0.
Definition PreCommit : Z := 1.
Definition Commit : Z := 2.

(** ** BlockStore *)

Record BlockStore {Body : Type} : Type := mkStore {
  blocks : gmap Hash (Block Body); insertion_order : list Hash; capacity : Z }.
Arguments BlockStore : clear implicits.

Definition store_new {Body} (cap : Z) : BlockStore Body := mkStore _ ∅ [] cap.

Definition store_get {Body} (h : Hash) (s : BlockStore Body) : option (Block Body) := blocks s !! h.

Definition store_remove {Body} (h : Hash) (s : BlockStore Body) : option (Block Body) * BlockStore Body :=
  (blocks s !! h, mkStore _ (delete h (blocks s)) (insertion_order s) (capacity s)).

Definition store_len {Body} (s : BlockStore Body) : Z := Z.of_nat (size (blocks s)).

(** ** ValidatorSet *)

Record ValidatorSet : Type := mkVSet {
  validators : list Address; vs_quorum : Z; vs_epoch_seed : Hash }.

Definition quorum_of (n : Z) : Z := 2 * n / 3 + 1.

(** [ValidatorSet::new] asserts that the set is not empty. *)
Definition vset_new {E} (vs : list Address) : res E ValidatorSet :=
  if zlen vs =? 0 then Panic else Ok (mkVSet vs (quorum_of (zlen vs)) zero_hash).

Definition set_epoch_seed (seed : Hash) (s : ValidatorSet) : ValidatorSet :=
  mkVSet (validators s) (vs_quorum s) seed.

Definition vset_contains (s : ValidatorSet) (a : Address) : bool := bool_decide (a ∈ validators s).

(** ** Events *)

Inductive ConsensusEvent (Body : Type) : Type :=
| Committed (block : Block Body) (qc : QuorumCertificate)
| VoteCast (v : Vote)
| ProposalRequired (round : Z) (parent : Hash)
| TimeoutEvent (round : Z).
Arguments Committed {Body}.
Arguments VoteCast {Body}.
Arguments ProposalRequired {Body}.
Arguments TimeoutEvent {Body}.

Section hotstuff.
Context {CR : Crypto} {Body : Type}.

Definition store_add (b : Block Body) (s : BlockStore Body) : BlockStore Body :=
  let hash := b_hash b in
  if bool_decide (is_Some (blocks s !! hash)) then s
  else
    let '(bs, order) :=
      if capacity s <=? Z.of_nat (size (blocks s)) then
        match insertion_order s with
        | oldest :: rest => (delete oldest (blocks s), rest)
        | [] => (blocks s, [])
        end
      else (blocks s, insertion_order s) in
    mkStore _ (<[hash := b]> bs) (order ++ [hash]) (capacity s).

(** [u64::from_be_bytes(h[..8]) as usize % n]; an empty set panics. *)
Definition proposer_for_round {E} (s : ValidatorSet) (r : Z) : res E Address :=
  let n := zlen (validators s) in
  if n =? 0 then Panic
  else if bool_decide (vs_epoch_seed s = zero_hash) then index (validators s) (r mod n)
  else
    let h := keccak256 (vs_epoch_seed s ++ to_be 8 r) in
    index (validators s) (be_val (take 8 h) mod n).

Record HotStuffConsensus : Type := mkHS {
  my_address : Address; validator_set : ValidatorSet; safety_rules : SafetyRules;
  pacemaker : Pacemaker; block_store : BlockStore Body;
  vote_accumulators : gmap (Z * Z) VoteAccumulator; committed_height : Z;
  highest_qc : option QuorumCertificate;
  seen_votes : gmap (Z * Z * Address) (Hash * Vote * BlsPubKey);
  validator_pubkeys : gmap Address BlsPubKey;
  dropped_unregistered : Z; dropped_pubkey_mismatch : Z; dropped_invalid_sig : Z;
  dropped_non_validator : Z }.

Definition hs_new (now : Z) (addr : Address) (sr : SafetyRules) (vs : ValidatorSet) : HotStuffConsensus :=
  mkHS addr vs sr (pm_new now pm_default) (store_new 1024) ∅ 0 None ∅ ∅ 0 0 0 0.

Abbreviation HM := (M HotStuffConsensus ConsensusError).

(** Field updates. *)
Definition set_vset (v : ValidatorSet) (s : HotStuffConsensus) : HotStuffConsensus :=
  mkHS (my_address s) v (safety_rules s) (pacemaker s) (block_store s) (vote_accumulators s)
    (committed_height s) (highest_qc s) (seen_votes s) (validator_pubkeys s)
    (dropped_unregistered s) (dropped_pubkey_mismatch s) (dropped_invalid_sig s) (dropped_non_validator s).
Definition set_rules (v : SafetyRules) (s : HotStuffConsensus) : HotStuffConsensus :=
  mkHS (my_address s) (validator_set s) v (pacemaker s) (block_store s) (vote_accumulators s)
    (committed_height s) (highest_qc s) (seen_votes s) (validator_pubkeys s)
    (dropped_unregistered s) (dropped_pubkey_mismatch s) (dropped_invalid_sig s) (dropped_non_validator s).
Definition set_pacemaker (v : Pacemaker) (s : HotStuffConsensus) : HotStuffConsensus :=
  mkHS (my_address s) (validator_set s) (safety_rules s) v (block_store s) (vote_accumulators s)
    (committed_height s) (highest_qc s) (seen_votes s) (validator_pubkeys s)
    (dropped_unregistered s) (dropped_pubkey_mismatch s) (dropped_invalid_sig s) (dropped_non_validator s).
Definition set_store (v : BlockStore Body) (s : HotStuffConsensus) : HotStuffConsensus :=
  mkHS (my_address s) (validator_set s) (safety_rules s) (pacemaker s) v (vote_accumulators s)
    (committed_height s) (highest_qc s) (seen_votes s) (validator_pubkeys s)
    (dropped_unregistered s) (dropped_pubkey_mismatch s) (dropped_invalid_sig s) (dropped_non_validator s).
Definition set_accs (v : gmap (Z * Z) VoteAccumulator) (s : HotStuffConsensus) : HotStuffConsensus :=
  mkHS (my_address s) (validator_set s) (safety_rules s) (pacemaker s) (block_store s) v
    (committed_height s) (highest_qc s) (seen_votes s) (validator_pubkeys s)
    (dropped_unregistered s) (dropped_pubkey_mismatch s) (dropped_invalid_sig s) (dropped_non_validator s).
Definition set_committed (v : Z) (s : HotStuffConsensus) : HotStuffConsensus :=
  mkHS (my_address s) (validator_set s) (safety_rules s) (pacemaker s) (block_store s) (vote_accumulators s)
    v (highest_qc s) (seen_votes s) (validator_pubkeys s)
    (dropped_unregistered s) (dropped_pubkey_mismatch s) (dropped_invalid_sig s) (dropped_non_validator s).
Definition set_highest (v : option QuorumCertificate) (s : HotStuffConsensus) : HotStuffConsensus :=
  mkHS (my_address s) (validator_set s) (safety_rules s) (pacemaker s) (block_store s) (vote_accumulators s)
    (committed_height s) v (seen_votes s) (validator_pubkeys s)
    (dropped_unregistered s) (dropped_pubkey_mismatch s) (dropped_invalid_sig s) (dropped_non_validator s).
Definition set_seen (v : gmap (Z * Z * Address) (Hash * Vote * BlsPubKey)) (s : HotStuffConsensus) : HotStuffConsensus :=
  mkHS (my_address s) (validator_set s) (safety_rules s) (pacemaker s) (block_store s) (vote_accumulators s)
    (committed_height s) (highest_qc s) v (validator_pubkeys s)
    (dropped_unregistered s) (dropped_pubkey_mismatch s) (dropped_invalid_sig s) (dropped_non_validator s).
Definition set_pubkeys (v : gmap Address BlsPubKey) (s : HotStuffConsensus) : HotStuffConsensus :=
  mkHS (my_address s) (validator_set s) (safety_rules s) (pacemaker s) (block_store s) (vote_accumulators s)
    (committed_height s) (highest_qc s) (seen_votes s) v
    (dropped_unregistered s) (dropped_pubkey_mismatch s) (dropped_invalid_sig s) (dropped_non_validator s).
(** The four counters, bumped with [saturating_add]. *)
Definition set_dropped (u m i n : Z) (s : HotStuffConsensus) : HotStuffConsensus :=
  mkHS (my_address s) (validator_set s) (safety_rules s) (pacemaker s) (block_store s) (vote_accumulators s)
    (committed_height s) (highest_qc s) (seen_votes s) (validator_pubkeys s) u m i n.
Definition bump (u m i n : Z) (s : HotStuffConsensus) : HotStuffConsensus :=
  set_dropped (sat 64 (dropped_unregistered s + u)) (sat 64 (dropped_pubkey_mismatch s + m))
    (sat 64 (dropped_invalid_sig s + i)) (sat 64 (dropped_non_validator s + n)) s.

(** ** Configuration *)

Definition update_validator_set (addrs : list Address) : HM unit :=
  s ← get_st;
  new_set ← lift (vset_new addrs);
  modify (set_vset (set_epoch_seed (vs_epoch_seed (validator_set s)) new_set)).

Definition rotate_epoch_seed (seed : Hash) : HM unit :=
  modify (fun s => set_vset (set_epoch_seed seed (validator_set s)) s).

Definition register_validator_pubkey (addr : Address) (pk : BlsPubKey) (s : HotStuffConsensus)
    : HotStuffConsensus :=
  match validator_pubkeys s !! addr with
  | Some existing =>
    if negb (bool_decide (existing = pk)) then s
    else set_pubkeys (<[addr := pk]> (validator_pubkeys s)) s
  | None => set_pubkeys (<[addr := pk]> (validator_pubkeys s)) s
  end.

Definition check_pubkey_registry_invariant (s : HotStuffConsensus) : list Address :=
  List.filter (fun a => negb (bool_decide (is_Some (validator_pubkeys s !! a))))
    (validators (validator_set s)).

Definition prune_seen_votes_below (committed_round : Z) (s : HotStuffConsensus) : HotStuffConsensus :=
  set_seen (filter (fun e => committed_round <= e.1.1.1) (seen_votes s)) s.

Definition build_remote_equivocation_evidence (s : HotStuffConsensus) (validator : Address)
    (r p : Z) (new_vote : Vote) (new_pk : BlsPubKey) : option EquivocationEvidence :=
  '(_, prev_vote, _) ← seen_votes s !! (r, p, validator);
  let ev := mkEvidence validator r p prev_vote new_vote new_pk in
  if evidence_verify ev then Some ev else None.

(** ** Handlers *)

(** Runs [SafetyRules::vote] on the field. *)
Definition cast_vote (io : bool) (d : VoteData) (qc : QuorumCertificate) : HM Vote := fun s =>
  let '(r, sr') := vote io d qc (safety_rules s) in (r, set_rules sr' s).

(** [if let Ok(v) = ... { events.push(VoteCast(v)) }] *)
Definition try_cast (io : bool) (d : VoteData) (qc : QuorumCertificate) : HM (list (ConsensusEvent Body)) :=
  fun s => match cast_vote io d qc s with
           | (Ok v, s') => (Ok [VoteCast v], s')
           | (Err _, s') => (Ok [], s')
           | (Panic, s') => (Panic, s')
           end.

Definition hs_on_proposal (io : bool) (b : Block Body) (parent_qc : QuorumCertificate)
    : HM (list (ConsensusEvent Body)) :=
  let round := b_number b in
  _ ← throw_if (negb (qc_verify parent_qc)) (InvalidQC round);
  s ← get_st;
  proposer ← lift (proposer_for_round (validator_set s) round);
  _ ← throw_if (negb (bool_decide (b_coinbase b = proposer))) (InvalidProposer round);
  _ ← throw_if (negb (vset_contains (validator_set s) proposer)) (InvalidProposer round);
  _ ← modify (fun s => set_store (store_add b (block_store s)) s);
  v ← cast_vote io (mkVoteData (b_hash b) round Prepare (h_epoch (header b))) parent_qc;
  mret [VoteCast v].

Definition on_qc (now : Z) (io : bool) (qc : QuorumCertificate) : HM (list (ConsensusEvent Body)) :=
  let d := vote_data qc in
  s ← get_st;
  if phase d =? 0 then
    _ ← modify (fun s => set_rules (update_locked_qc qc (safety_rules s)) s);
    _ ← modify (set_highest (Some qc));
    try_cast io (mkVoteData (block_hash d) (block_number d) PreCommit (pm_current_epoch (pacemaker s))) qc
  else if phase d =? 1 then
    try_cast io (mkVoteData (block_hash d) (block_number d) Commit (pm_current_epoch (pacemaker s))) qc
  else if phase d =? 2 then
    match store_get (block_hash d) (block_store s) with
    | Some b =>
      if committed_height s <? b_number b then
        _ ← modify (set_committed (b_number b));
        _ ← modify (fun s => set_pacemaker
              (advance_round now (u64 (b_number b + 1)) (epoch d) (pacemaker s)) s);
        mret [Committed b qc]
      else mret []
    | None => mret []
    end
  else throw (InvalidMessage (phase d) (block_number d)).

(** The accumulator of (round, phase), created from the first vote seen. *)
Definition acc_entry (v : Vote) (s : HotStuffConsensus) : VoteAccumulator :=
  default (acc_new (data v) (vs_quorum (validator_set s)))
    (vote_accumulators s !! (block_number (data v), phase (data v))).

Definition count_vote (now : Z) (io : bool) (v : Vote) (pk : BlsPubKey)
    : HM (list (ConsensusEvent Body)) := fun s =>
  let key := (block_number (data v), phase (data v)) in
  let '(r, acc') := add_vote v pk (acc_entry v s) in
  let s' := set_accs (<[key := acc']> (vote_accumulators s)) s in
  match r with
  | Ok (Some qc) => on_qc now io qc s'
  | Ok None => (Ok [], s')
  | Err e => (Err e, s')
  | Panic => (Panic, s')
  end.

Definition hs_on_vote (now : Z) (io : bool) (v : Vote) (pk : BlsPubKey)
    : HM (list (ConsensusEvent Body)) :=
  s ← get_st;
  if negb (vset_contains (validator_set s) (voter v)) then
    _ ← modify (bump 0 0 0 1); mret []
  else
    match validator_pubkeys s !! voter v with
    | None => _ ← modify (bump 1 0 0 0); mret []
    | Some registered =>
      if negb (bool_decide (registered = pk)) then _ ← modify (bump 0 1 0 0); mret []
      else if negb (verify_single (signature v) pk (msg_of (data v))) then
        _ ← modify (bump 0 0 1 0); mret []
      else
        let ek := (block_number (data v), phase (data v), voter v) in
        match seen_votes s !! ek with
        | Some (prev_hash, prev, _) =>
          if negb (bool_decide (prev_hash = block_hash (data v))) then
            throw (RemoteEquivocation (voter prev) (block_number (data prev)) (phase (data prev))
                     (block_hash (data prev)) (block_hash (data v)))
          else count_vote now io v pk
        | None =>
          _ ← modify (fun s => set_seen (<[ek := (block_hash (data v), v, pk)]> (seen_votes s)) s);
          count_vote now io v pk
        end
    end.

Definition hs_on_timeout (now : Z) (s : HotStuffConsensus) : ConsensusEvent Body * HotStuffConsensus :=
  let '(timed_out, pm') := pm_on_timeout now (pacemaker s) in
  (TimeoutEvent timed_out, set_pacemaker pm' s).

(** ** Runs with a fixed validator set *)

Inductive hs_op : Type :=
| MProposal (io : bool) (b : Block Body) (qc : QuorumCertificate)
| MVote (now : Z) (io : bool) (v : Vote) (pk : BlsPubKey)
| MTimeout (now : Z)
| MRegister (a : Address) (pk : BlsPubKey)
| MPrune (r : Z)
| MSeed (seed : Hash).

(** The events of one message (an error emits none) and the next state. *)
Definition hs_exec (o : hs_op) (s : HotStuffConsensus) : list (ConsensusEvent Body) * HotStuffConsensus :=
  let run (p : res ConsensusError (list (ConsensusEvent Body)) * HotStuffConsensus) :=
    match p with (Ok evs, s') => (evs, s') | (_, s') => ([], s') end in
  match o with
  | MProposal io b qc => run (hs_on_proposal io b qc s)
  | MVote now io v pk => run (hs_on_vote now io v pk s)
  | MTimeout now => let '(e, s') := hs_on_timeout now s in ([e], s')
  | MRegister a pk => ([], register_validator_pubkey a pk s)
  | MPrune r => ([], prune_seen_votes_below r s)
  | MSeed seed => ([], snd (rotate_epoch_seed seed s))
  end.

Definition hs_next (s s' : HotStuffConsensus) : Prop := exists o, s' = snd (hs_exec o s).

(** A certificate whose signers are distinct members of [vs], at least [q] of
    them, each with a signature that verifies under its registered key. *)
Definition certified (vs : list Address) (q : Z) (keys : gmap Address BlsPubKey)
    (qc : QuorumCertificate) : Prop :=
  NoDup (signers qc) /\ q <= zlen (signers qc) /\
  forall a, a ∈ signers qc -> a ∈ vs /\ exists pk sig,
    keys !! a = Some pk /\ verify_single sig pk (msg_of (vote_data qc)) = true.

Definition acc_inv (s : HotStuffConsensus) (key : Z * Z) (acc : VoteAccumulator) : Prop :=
  acc_ok acc /\ (block_number (acc_data acc), phase (acc_data acc)) = key /\
  acc_quorum acc = vs_quorum (validator_set s) /\
  forall a v pk, votes acc !! a = Some (v, pk) ->
    a ∈ validators (validator_set s) /\ validator_pubkeys s !! a = Some pk.

Definition hs_certified (s : HotStuffConsensus) (qc : QuorumCertificate) : Prop :=
  certified (validators (validator_set s)) (vs_quorum (validator_set s)) (validator_pubkeys s) qc.

Definition hs_inv (s : HotStuffConsensus) : Prop :=
  (forall key acc, vote_accumulators s !! key = Some acc -> acc_inv s key acc) /\
  (forall qc, highest_qc s = Some qc -> hs_certified s qc) /\
  (forall h b, blocks (block_store s) !! h = Some b -> b_hash b = h).

(** What a later state of the run keeps. *)
Definition hs_le (s s' : HotStuffConsensus) : Prop :=
  validators (validator_set s') = validators (validator_set s) /\
  vs_quorum (validator_set s') = vs_quorum (validator_set s) /\
  validator_pubkeys s ⊆ validator_pubkeys s' /\
  committed_height s <= committed_height s'.

Lemma hs_le_refl s : hs_le s s.
Proof. by split_and!. Qed.

Lemma hs_le_trans s1 s2 s3 : hs_le s1 s2 -> hs_le s2 s3 -> hs_le s1 s3.
Proof. intros (A & B & C & D) (A' & B' & C' & D'). split_and!; [congruence..|by etrans|lia]. Qed.

Lemma certified_mono vs q k k' qc : k ⊆ k' -> certified vs q k qc -> certified vs q k' qc.
Proof.
  intros Hk (H1 & H2 & H3). split_and!; [done..|]. intros a Ha.
  destruct (H3 a Ha) as (? & pk & sig & Hpk & Hv). split; [done|]. exists pk, sig.
  split; [by eapply lookup_weaken|done].
Qed.

(** States that agree on what the invariant reads, with more keys. *)
Lemma hs_inv_frame s s' : hs_inv s -> hs_le s s' ->
  vote_accumulators s' = vote_accumulators s -> highest_qc s' = highest_qc s ->
  block_store s' = block_store s -> hs_inv s'.
Proof.
  intros (Ha & Hq & Hb) (E1 & E2 & Hk & _) E3 E4 E5. unfold hs_inv, acc_inv, hs_certified.
  rewrite E1, E2, E3, E4, E5. split_and!; [| |done].
  - intros key acc Hacc. destruct (Ha key acc Hacc) as (H1 & H2 & H3 & H4). split_and!; [done..|].
    intros a v pk Hv. destruct (H4 a v pk Hv). split; [done|by eapply lookup_weaken].
  - intros qc Hqc. eapply certified_mono; [done|by apply Hq].
Qed.

Lemma register_le a pk s : hs_le s (register_validator_pubkey a pk s).
Proof.
  unfold register_validator_pubkey. destruct (validator_pubkeys s !! a) as [x|] eqn:Hx.
  - case_bool_decide as Heq; [|apply hs_le_refl]. subst. split_and!; [done..| |simpl; lia].
    simpl. by rewrite insert_id.
  - split_and!; [done..| |simpl; lia]. simpl. by apply insert_subseteq.
Qed.

Lemma register_other a pk s :
  vote_accumulators (register_validator_pubkey a pk s) = vote_accumulators s /\
  highest_qc (register_validator_pubkey a pk s) = highest_qc s /\
  block_store (register_validator_pubkey a pk s) = block_store s.
Proof. unfold register_validator_pubkey. by repeat case_match. Qed.

Lemma store_add_hash b s : (forall h x, blocks s !! h = Some x -> b_hash x = h) ->
  forall h x, blocks (store_add b s) !! h = Some x -> b_hash x = h.
Proof.
  intros Hs h x. unfold store_add. case_bool_decide; [apply Hs|].
  assert (forall m : gmap Hash (Block Body), m ⊆ blocks s ->
    <[b_hash b:=b]> m !! h = Some x -> b_hash x = h) as Hm.
  { intros m Hm Hl. apply lookup_insert_Some in Hl as [[<- <-]|[_ Hl]]; [done|].
    by eapply Hs, lookup_weaken. }
  destruct (capacity s <=? _); [destruct (insertion_order s)|]; simpl; apply Hm;
    (done || apply delete_subseteq).
Qed.

(** ** Every handler keeps the invariant *)

Lemma cast_vote_frame io d qc s : hs_le s (snd (cast_vote io d qc s)) /\
  vote_accumulators (snd (cast_vote io d qc s)) = vote_accumulators s /\
  highest_qc (snd (cast_vote io d qc s)) = highest_qc s /\
  block_store (snd (cast_vote io d qc s)) = block_store s /\
  committed_height (snd (cast_vote io d qc s)) = committed_height s.
Proof. unfold cast_vote. destruct (vote io d qc (safety_rules s)). by split_and!. Qed.

Lemma try_cast_snd io d qc s : snd (try_cast io d qc s) = snd (cast_vote io d qc s).
Proof. unfold try_cast. by destruct (cast_vote io d qc s) as [[] ?]. Qed.

Lemma cast_vote_inv io d qc s : hs_inv s -> hs_inv (snd (cast_vote io d qc s)).
Proof.
  intros Hi. destruct (cast_vote_frame io d qc s) as (H1 & H2 & H3 & H4 & _).
  by apply (hs_inv_frame s).
Qed.

Lemma hs_on_proposal_inv io b qc s : hs_inv s ->
  hs_inv (snd (hs_on_proposal io b qc s)) /\ hs_le s (snd (hs_on_proposal io b qc s)).
Proof.
  intros Hi. unfold hs_on_proposal, throw_if, get_st, lift, modify, mbind, M_bind, mret, M_ret.
  destruct (negb (qc_verify qc)); [by split|].
  destruct (proposer_for_round _ _) as [pr|e|]; [|by split..].
  destruct (negb (bool_decide (b_coinbase b = pr))); [by split|].
  destruct (negb (vset_contains _ _)); [by split|].
  set (s1 := set_store (store_add b (block_store s)) s).
  assert (hs_inv s1) as Hi1.
  { destruct Hi as (Ha & Hq & Hb). split_and!; [done..|]. by apply store_add_hash. }
  pose proof (cast_vote_inv io (mkVoteData (b_hash b) (b_number b) Prepare (h_epoch (header b))) qc s1 Hi1) as H1.
  destruct (cast_vote_frame io (mkVoteData (b_hash b) (b_number b) Prepare (h_epoch (header b))) qc s1) as (H2 & _).
  by destruct (cast_vote io _ qc s1) as [[] s2].
Qed.

(** [on_qc] on a certificate that the state backs. *)
Lemma on_qc_inv now io qc s : hs_inv s -> hs_certified s qc ->
  hs_inv (snd (on_qc now io qc s)) /\ hs_le s (snd (on_qc now io qc s)).
Proof.
  intros Hi Hc. unfold on_qc, get_st, modify, throw, mbind, M_bind, mret, M_ret.
  destruct (phase (vote_data qc) =? 0).
  { rewrite try_cast_snd.
    set (s1 := set_highest (Some qc) (set_rules (update_locked_qc qc (safety_rules s)) s)).
    assert (hs_inv s1) as Hi1.
    { destruct Hi as (Ha & Hq & Hb). split_and!; [done| |done]. by intros ? [= <-]. }
    split; [by apply cast_vote_inv|]. by destruct (cast_vote_frame io
      (mkVoteData (block_hash (vote_data qc)) (block_number (vote_data qc)) PreCommit
         (pm_current_epoch (pacemaker s))) qc s1). }
  destruct (phase (vote_data qc) =? 1).
  { rewrite try_cast_snd. split; [by apply cast_vote_inv|]. apply cast_vote_frame. }
  destruct (phase (vote_data qc) =? 2); [|by split].
  destruct (store_get _ _) as [b|]; [|by split].
  destruct (Z.ltb_spec (committed_height s) (b_number b)) as [Hlt|]; [|by split].
  assert (hs_le s (set_pacemaker (advance_round now (u64 (b_number b + 1)) (epoch (vote_data qc)) (pacemaker s))
    (set_committed (b_number b) s))) as Hle by (split_and!; [done..|simpl; lia]).
  split; [|done]. by apply (hs_inv_frame s).
Qed.

Lemma acc_entry_inv v s : hs_inv s -> acc_inv s (block_number (data v), phase (data v)) (acc_entry v s).
Proof.
  intros (Ha & _). unfold acc_entry.
  destruct (vote_accumulators s !! _) as [acc|] eqn:Hacc; simpl; [by apply Ha|].
  split_and!; [apply acc_new_ok|done..|]. intros a w pk H. simpl in H. by rewrite lookup_empty in H.
Qed.

(** Counting an authenticated vote. *)
Lemma add_vote_inv v pk s : hs_inv s -> voter v ∈ validators (validator_set s) ->
  validator_pubkeys s !! voter v = Some pk ->
  acc_inv s (block_number (data v), phase (data v)) (snd (add_vote v pk (acc_entry v s))) /\
  (forall qc, fst (add_vote v pk (acc_entry v s)) = Ok (Some qc) -> hs_certified s qc).
Proof.
  intros Hi Hv Hpk. pose proof (acc_entry_inv v s Hi) as (H1 & H2 & H3 & H4).
  assert (acc_inv s (block_number (data v), phase (data v)) (snd (add_vote v pk (acc_entry v s)))) as Hacc.
  { split; [by apply add_vote_ok|].
    destruct (add_vote_cases v pk (acc_entry v s)) as
      [[_ ->]|[(_ & _ & ->)|[(_ & _ & _ & ->)|(Hd & Hn & Hs & ->)]]]; [by split_and!..|].
    split_and!; [done..|]. intros a w pk' Hl. simpl in Hl.
    apply lookup_insert_Some in Hl as [[<- [= <- <-]]|[_ Hl]]; [done|by eapply H4]. }
  split; [done|]. intros qc Hqc.
  destruct (add_vote_qc v pk _ qc H1 Hqc) as (-> & Hd & _ & _ & (B1 & B2 & B3 & B4)).
  destruct Hacc as (G1 & _ & _ & G4).
  rewrite H3 in B2. split_and!; [done..|].
  intros a [i Hi']%list_elem_of_lookup_1. destruct (form_qc_entry _ i a G1 Hi') as (w & pk' & Hw & Hpk').
  destruct (G4 a w pk' Hw) as [? Hk]. split; [done|]. exists pk', (signature w). split; [done|].
  by apply G1 in Hw as (_ & _ & ?).
Qed.

Lemma count_vote_inv now io v pk s : hs_inv s -> voter v ∈ validators (validator_set s) ->
  validator_pubkeys s !! voter v = Some pk ->
  hs_inv (snd (count_vote now io v pk s)) /\ hs_le s (snd (count_vote now io v pk s)).
Proof.
  intros Hi Hv Hpk. destruct (add_vote_inv v pk s Hi Hv Hpk) as [Hacc Hqc]. unfold count_vote.
  destruct (add_vote v pk (acc_entry v s)) as [r acc']. simpl in Hacc, Hqc.
  set (s' := set_accs (<[(block_number (data v), phase (data v)):=acc']> (vote_accumulators s)) s).
  assert (hs_inv s') as Hi'.
  { destruct Hi as (Ha & Hq & Hb). split_and!; [|done..]. intros key acc Hl. simpl in Hl.
    apply lookup_insert_Some in Hl as [[<- <-]|[_ Hl]]; [done|by apply Ha]. }
  assert (hs_le s s') as Hle by by split_and!.
  destruct r as [[qc|]|e|]; [|by split..].
  destruct (on_qc_inv now io qc s' Hi' (Hqc qc eq_refl)) as [? ?]. split; [done|by eapply hs_le_trans].
Qed.

Lemma hs_on_vote_inv now io v pk s : hs_inv s ->
  hs_inv (snd (hs_on_vote now io v pk s)) /\ hs_le s (snd (hs_on_vote now io v pk s)).
Proof.
  intros Hi. unfold hs_on_vote, vset_contains, get_st, modify, throw, mbind, M_bind, mret, M_ret.
  assert (forall u m i n, hs_inv (bump u m i n s) /\ hs_le s (bump u m i n s)) as Hb.
  { intros. assert (hs_le s (bump u m i n s)) by by split_and!. split; [|done].
    by apply (hs_inv_frame s). }
  case_bool_decide as Hv; cbn [negb]; [|apply Hb].
  destruct (validator_pubkeys s !! voter v) as [reg|] eqn:Hreg; [|apply Hb].
  case_bool_decide as Hk; cbn [negb]; [subst reg|apply Hb].
  destruct (verify_single _ _ _); cbn [negb]; [|apply Hb].
  destruct (seen_votes s !! _) as [[[ph prev] pk0]|].
  - destruct (negb _); [by split|]. by apply count_vote_inv.
  - set (s1 := set_seen _ s). assert (hs_inv s1) as Hi1 by by apply (hs_inv_frame s).
    destruct (count_vote_inv now io v pk s1) as [? ?]; done.
Qed.

Lemma hs_exec_inv o s : hs_inv s -> hs_inv (snd (hs_exec o s)) /\ hs_le s (snd (hs_exec o s)).
Proof.
  intros Hi. destruct o as [io b qc|now io v pk|now|a pk|r|seed]; simpl.
  - destruct (hs_on_proposal_inv io b qc s Hi). by destruct (hs_on_proposal io b qc s) as [[] ?].
  - destruct (hs_on_vote_inv now io v pk s Hi). by destruct (hs_on_vote now io v pk s) as [[] ?].
  - assert (hs_le s (snd (hs_on_timeout now s))) by by split_and!.
    split; [by apply (hs_inv_frame s)|done].
  - pose proof (register_le a pk s). destruct (register_other a pk s) as (? & ? & ?).
    split; [by apply (hs_inv_frame s)|done].
  - assert (hs_le s (prune_seen_votes_below r s)) by by split_and!.
    split; [by apply (hs_inv_frame s)|done].
  - assert (hs_le s (set_vset (set_epoch_seed seed (validator_set s)) s)) by by split_and!.
    split; [by apply (hs_inv_frame s)|done].
Qed.

Lemma hs_new_inv now addr sr vs : hs_inv (hs_new now addr sr vs).
Proof. split_and!; [|done|]; intros ? ? H; simpl in H; by rewrite lookup_empty in H. Qed.

(** ** Commits *)

Lemma on_qc_committed now io qc s evs b qc' :
  fst (on_qc now io qc s) = Ok evs -> Committed b qc' ∈ evs ->
  qc' = qc /\ phase (vote_data qc) = 2 /\ blocks (block_store s) !! block_hash (vote_data qc) = Some b /\
  committed_height s < b_number b /\ b_number b = committed_height (snd (on_qc now io qc s)).
Proof.
  unfold on_qc, get_st, modify, throw, mbind, M_bind, mret, M_ret.
  assert (forall io d q s0 evs0, fst (try_cast io d q s0) = Ok evs0 -> Committed b qc' ∈ evs0 -> False) as Hno.
  { intros io' d q s0 evs0. unfold try_cast. destruct (cast_vote io' d q s0) as [[] ?]; simpl;
      intros [= <-]; set_solver. }
  destruct (phase (vote_data qc) =? 0); [intros He Hin; by destruct (Hno _ _ _ _ _ He Hin)|].
  destruct (phase (vote_data qc) =? 1); [intros He Hin; by destruct (Hno _ _ _ _ _ He Hin)|].
  destruct (Z.eqb_spec (phase (vote_data qc)) 2) as [H2|]; [|done].
  unfold store_get. destruct (blocks (block_store s) !! _) as [b'|]; [|intros [= <-]; set_solver].
  destruct (Z.ltb_spec (committed_height s) (b_number b')); [|intros [= <-]; set_solver].
  intros [= <-] [= -> ->]%list_elem_of_singleton. done.
Qed.

Lemma count_vote_committed now io v pk s evs b qc : hs_inv s ->
  voter v ∈ validators (validator_set s) -> validator_pubkeys s !! voter v = Some pk ->
  fst (count_vote now io v pk s) = Ok evs -> Committed b qc ∈ evs ->
  hs_certified s qc /\ phase (vote_data qc) = 2 /\ b_hash b = block_hash (vote_data qc) /\
  committed_height s < b_number b /\ b_number b = committed_height (snd (count_vote now io v pk s)).
Proof.
  intros Hi Hv Hpk. destruct (add_vote_inv v pk s Hi Hv Hpk) as [_ Hqc]. unfold count_vote.
  destruct (add_vote v pk (acc_entry v s)) as [r acc']. simpl in Hqc.
  destruct r as [[q|]|e|]; [|simpl; intros [= <-]; set_solver|done..].
  intros He Hin. destruct (on_qc_committed _ _ _ _ _ _ _ He Hin) as (-> & H2 & Hb & H3).
  destruct Hi as (_ & _ & Hst). split_and!; [by apply Hqc|done|by apply Hst|apply H3|apply H3].
Qed.

Lemma hs_on_vote_committed now io v pk s evs b qc : hs_inv s ->
  fst (hs_on_vote now io v pk s) = Ok evs -> Committed b qc ∈ evs ->
  hs_certified s qc /\ phase (vote_data qc) = 2 /\ b_hash b = block_hash (vote_data qc) /\
  committed_height s < b_number b /\ b_number b = committed_height (snd (hs_on_vote now io v pk s)).
Proof.
  intros Hi. unfold hs_on_vote, vset_contains, get_st, modify, throw, mbind, M_bind, mret, M_ret.
  assert (forall u m i n, fst (@Ok ConsensusError (list (ConsensusEvent Body)) [], bump u m i n s) = Ok evs ->
    Committed b qc ∈ evs -> False) as Hb by (intros u m i n [= <-]; set_solver).
  case_bool_decide as Hv; cbn [negb]; [|intros H1 H2; by destruct (Hb _ _ _ _ H1 H2)].
  destruct (validator_pubkeys s !! voter v) as [reg|] eqn:Hreg; [|intros H1 H2; by destruct (Hb _ _ _ _ H1 H2)].
  case_bool_decide as Hk; cbn [negb]; [subst reg|intros H1 H2; by destruct (Hb _ _ _ _ H1 H2)].
  destruct (verify_single _ _ _); cbn [negb]; [|intros H1 H2; by destruct (Hb _ _ _ _ H1 H2)].
  destruct (seen_votes s !! _) as [[[ph prev] pk0]|].
  - destruct (negb _); [done|]. by apply count_vote_committed.
  - set (s1 := set_seen _ s). assert (hs_inv s1) as Hi1 by by apply (hs_inv_frame s).
    by apply (count_vote_committed now io v pk s1).
Qed.

Lemma hs_exec_committed o s b qc : hs_inv s -> Committed b qc ∈ fst (hs_exec o s) ->
  hs_certified s qc /\ phase (vote_data qc) = 2 /\ b_hash b = block_hash (vote_data qc) /\
  committed_height s < b_number b /\ b_number b = committed_height (snd (hs_exec o s)).
Proof.
  intros Hi. destruct o as [io b0 qc0|now io v pk|now|a pk|r|seed]; simpl; try set_solver.
  - assert (forall evs, fst (hs_on_proposal io b0 qc0 s) = Ok evs -> Committed b qc ∈ evs -> False) as Hno.
    { intros evs. unfold hs_on_proposal, throw_if, get_st, lift, modify, mbind, M_bind, mret, M_ret.
      destruct (negb (qc_verify qc0)); [done|].
      destruct (proposer_for_round _ _) as [pr|e|]; [|done..].
      destruct (negb (bool_decide (b_coinbase b0 = pr))); [done|].
      destruct (negb (vset_contains _ _)); [done|].
      destruct (cast_vote io _ qc0 _) as [[] s2]; [|done..]. simpl. intros [= <-]. set_solver. }
    destruct (hs_on_proposal io b0 qc0 s) as [[evs|e|] s']; simpl; [|set_solver..].
    intros Hin. by destruct (Hno evs eq_refl Hin).
  - assert (forall evs, fst (hs_on_vote now io v pk s) = Ok evs -> Committed b qc ∈ evs ->
      hs_certified s qc /\ phase (vote_data qc) = 2 /\ b_hash b = block_hash (vote_data qc) /\
      committed_height s < b_number b /\
      b_number b = committed_height (snd (hs_on_vote now io v pk s))) as Hv.
    { intros evs He Hin. by apply (hs_on_vote_committed now io v pk s evs b qc Hi). }
    destruct (hs_on_vote now io v pk s) as [[evs|e|] s']; simpl in *; [|set_solver..].
    intros Hin. by apply (Hv evs).
Qed.

(** ** Runs as event logs *)

Fixpoint hs_run (ops : list hs_op) (s : HotStuffConsensus) : list (ConsensusEvent Body) * HotStuffConsensus :=
  match ops with
  | [] => ([], s)
  | o :: ops =>
    let '(e, s1) := hs_exec o s in
    let '(es, s2) := hs_run ops s1 in (e ++ es, s2)
  end.

Lemma try_cast_short io d qc s evs : fst (try_cast io d qc s) = Ok evs -> (length evs <= 1)%nat.
Proof. unfold try_cast. destruct (cast_vote io d qc s) as [[] ?]; simpl; intros [= <-]; simpl; lia. Qed.

Lemma on_qc_short now io qc s evs : fst (on_qc now io qc s) = Ok evs -> (length evs <= 1)%nat.
Proof.
  unfold on_qc, get_st, modify, throw, mbind, M_bind, mret, M_ret.
  destruct (phase (vote_data qc) =? 0); [apply try_cast_short|].
  destruct (phase (vote_data qc) =? 1); [apply try_cast_short|].
  destruct (phase (vote_data qc) =? 2); [|done].
  destruct (store_get _ _); [destruct (_ <? _)|]; intros [= <-]; simpl; lia.
Qed.

Lemma count_vote_short now io v pk s evs : fst (count_vote now io v pk s) = Ok evs -> (length evs <= 1)%nat.
Proof.
  unfold count_vote. destruct (add_vote v pk (acc_entry v s)) as [[[qc|]|e|] acc']; [apply on_qc_short|..];
    simpl; intros [= <-]; simpl; lia.
Qed.

Lemma hs_exec_short o s : (length (fst (hs_exec o s)) <= 1)%nat.
Proof.
  destruct o as [io b qc|now io v pk|now|a pk|r|seed]; simpl; try lia.
  - unfold hs_on_proposal, throw_if, get_st, lift, modify, mbind, M_bind, mret, M_ret.
    destruct (negb (qc_verify qc)); simpl; [lia|].
    destruct (proposer_for_round _ _) as [pr|e|]; simpl; [|lia..].
    destruct (negb (bool_decide (b_coinbase b = pr))); simpl; [lia|].
    destruct (negb (vset_contains _ _)); simpl; [lia|].
    destruct (cast_vote io _ qc _) as [[] s2]; simpl; lia.
  - unfold hs_on_vote, get_st, modify, throw, mbind, M_bind, mret, M_ret.
    assert (forall s', length (fst (match count_vote now io v pk s' with
      | (Ok evs, s'') => (evs, s'') | (_, s'') => ([], s'') end)) <= 1)%nat as Hc.
    { intros s'. pose proof (count_vote_short now io v pk s') as Hs.
      destruct (count_vote now io v pk s') as [[evs|e|] s'']; simpl in *; [by apply Hs|lia..]. }
    destruct (negb _); simpl; [lia|]. destruct (validator_pubkeys s !! _); simpl; [|lia].
    destruct (negb _); simpl; [lia|]. destruct (negb _); simpl; [lia|].
    destruct (seen_votes s !! _) as [[[ph prev] pk0]|]; [destruct (negb _); simpl; [lia|]|]; apply Hc.
Qed.

Lemma hs_run_inv ops : forall s, hs_inv s -> hs_inv (snd (hs_run ops s)) /\ hs_le s (snd (hs_run ops s)).
Proof.
  induction ops as [|o ops IH]; intros s Hi; simpl; [split; [done|apply hs_le_refl]|].
  destruct (hs_exec_inv o s Hi) as [Hi1 Hle1]. destruct (hs_exec o s) as [e s1]. simpl in *.
  destruct (IH s1 Hi1) as [Hi2 Hle2]. destruct (hs_run ops s1) as [es s2]. simpl in *.
  split; [done|by eapply hs_le_trans].
Qed.

Lemma hs_certified_mono s s' qc : hs_le s s' -> hs_certified s qc -> hs_certified s' qc.
Proof.
  intros (E1 & E2 & Hk & _) Hc. unfold hs_certified. rewrite E1, E2. by eapply certified_mono.
Qed.

(** Every commit of a run is above the height the run started from and at most
    its final height, and certified by the final registry. *)
Lemma hs_run_committed ops : forall s b qc, hs_inv s -> Committed b qc ∈ fst (hs_run ops s) ->
  hs_certified (snd (hs_run ops s)) qc /\ phase (vote_data qc) = 2 /\
  b_hash b = block_hash (vote_data qc) /\
  committed_height s < b_number b <= committed_height (snd (hs_run ops s)).
Proof.
  induction ops as [|o ops IH]; intros s b qc Hi; simpl; [set_solver|].
  destruct (hs_exec_inv o s Hi) as [Hi1 Hle1].
  pose proof (hs_exec_committed o s b qc Hi) as Hc. destruct (hs_exec o s) as [e s1]. simpl in *.
  destruct (hs_run_inv ops s1 Hi1) as [Hi2 Hle2]. specialize (IH s1 b qc Hi1).
  destruct (hs_run ops s1) as [es s2]. simpl in *. intros [Hin|Hin]%elem_of_app.
  - destruct (Hc Hin) as (H1 & H2 & H3 & H4 & H5). split; [|split; [done|split; [done|]]].
    + by eapply hs_certified_mono, hs_certified_mono.
    + destruct Hle2 as (_ & _ & _ & ?). lia.
  - destruct (IH Hin) as (H1 & H2 & H3 & H4). split_and!; [done..| |lia].
    destruct Hle1 as (_ & _ & _ & ?). lia.
Qed.

Lemma hs_run_increasing ops : forall s i j b1 q1 b2 q2, hs_inv s -> (i < j)%nat ->
  fst (hs_run ops s) !! i = Some (Committed b1 q1) ->
  fst (hs_run ops s) !! j = Some (Committed b2 q2) -> b_number b1 < b_number b2.
Proof.
  induction ops as [|o ops IH]; intros s i j b1 q1 b2 q2 Hi Hij; simpl; [done|].
  destruct (hs_exec_inv o s Hi) as [Hi1 _]. pose proof (hs_exec_short o s) as Hlen.
  pose proof (fun b qc => hs_exec_committed o s b qc Hi) as Hc. destruct (hs_exec o s) as [e s1]. simpl in *.
  pose proof (fun b qc => hs_run_committed ops s1 b qc Hi1) as Hr. specialize (IH s1).
  destruct (hs_run ops s1) as [es s2]. simpl in *.
  intros [Hl1|[? Hl1]]%lookup_app_Some [Hl2|[? Hl2]]%lookup_app_Some.
  - apply lookup_lt_Some in Hl1, Hl2. lia.
  - destruct (Hc b1 q1) as (_ & _ & _ & _ & ->); [by eapply list_elem_of_lookup_2|].
    by destruct (Hr b2 q2) as (_ & _ & _ & ? & _); [eapply list_elem_of_lookup_2|].
  - apply lookup_lt_Some in Hl2. lia.
  - eapply (IH (i - length e)%nat (j - length e)%nat); [done|lia|done|done].
Qed.

(** C6. Whatever messages arrive, in any order, the blocks a node commits have
    strictly increasing heights, and each is the block named by a Commit
    certificate carrying the signatures of a quorum of distinct registered
    validators. *)
Theorem commits_ordered_certified now addr sr vs seed ops :
  let log := hs_run ops (hs_new now addr sr (mkVSet vs (quorum_of (zlen vs)) seed)) in
  (forall i j b1 q1 b2 q2, (i < j)%nat ->
     fst log !! i = Some (Committed b1 q1) -> fst log !! j = Some (Committed b2 q2) ->
     b_number b1 < b_number b2) /\
  (forall b qc, Committed b qc ∈ fst log ->
     b_hash b = block_hash (vote_data qc) /\ phase (vote_data qc) = Commit /\
     certified vs (quorum_of (zlen vs)) (validator_pubkeys (snd log)) qc).
Proof.
  set (s := hs_new now addr sr (mkVSet vs (quorum_of (zlen vs)) seed)).
  assert (hs_inv s) as Hi by apply hs_new_inv. cbv zeta. split.
  - intros i j b1 q1 b2 q2 Hij. by apply hs_run_increasing.
  - intros b qc Hin. destruct (hs_run_committed ops s b qc Hi Hin) as (H1 & H2 & H3 & _).
    destruct (hs_run_inv ops s Hi) as [_ (E1 & E2 & _)]. split_and!; [done..|].
    unfold hs_certified in H1. by rewrite E1, E2 in H1.
Qed.

(** ** Accountable safety *)

Lemma filter_split {A} (P : A -> Prop) `{!forall x, Decision (P x)} (l : list A) :
  length l = (length (filter P l) + length (filter (fun x => ~ P x) l))%nat.
Proof.
  induction l as [|x l IH]; [done|]. rewrite !filter_cons.
  destruct (decide (P x)); destruct (decide (~ P x)); simpl; try tauto; lia.
Qed.

(** Two quorums of the same set share more than a third of it. *)
Lemma quorum_intersection (vs a b : list Address) : NoDup a -> NoDup b ->
  (forall x, x ∈ a -> x ∈ vs) -> (forall x, x ∈ b -> x ∈ vs) ->
  quorum_of (zlen vs) <= zlen a -> quorum_of (zlen vs) <= zlen b ->
  zlen vs < 3 * zlen (filter (fun x => x ∈ b) a).
Proof.
  intros Ha Hb Hav Hbv. unfold quorum_of, zlen.
  assert (length (b ++ filter (fun x => ~ x ∈ b) a) <= length vs)%nat as Hlen.
  { apply submseteq_length, NoDup_submseteq.
    - apply list.NoDup_app. split_and!; [done| |by apply list.NoDup_filter].
      intros x Hx Hf. by apply list_elem_of_filter in Hf as [? _].
    - intros x [Hx|Hx]%elem_of_app; [by apply Hbv|]. apply list_elem_of_filter in Hx as [_ Hx]. by apply Hav. }
  rewrite length_app in Hlen. pose proof (filter_split (fun x => x ∈ b) a) as Hs.
  set (n := Z.of_nat (length vs)) in *. assert (0 <= n) by (unfold n; lia).
  pose proof (Z.mod_pos_bound (2 * n) 3 ltac:(lia)). pose proof (Z.div_mod (2 * n) 3 ltac:(lia)).
  intros Qa Qb. lia.
Qed.

Definition conflicting_votes (a : Address) (d1 d2 : VoteData) (sig1 sig2 : BlsSignature) (pk : BlsPubKey) :=
  mkEvidence a (block_number d1) (phase d1) (mkVote d1 a sig1) (mkVote d2 a sig2) pk.

Lemma conflicting_votes_verify a d1 d2 sig1 sig2 pk :
  block_number d1 = block_number d2 -> phase d1 = phase d2 -> block_hash d1 <> block_hash d2 ->
  verify_single sig1 pk (msg_of d1) = true -> verify_single sig2 pk (msg_of d2) = true ->
  evidence_verify (conflicting_votes a d1 d2 sig1 sig2 pk) = true.
Proof.
  intros H1 H2 H3 V1 V2. unfold evidence_verify, conflicting_votes. cbn.
  rewrite H1, H2, !Z.eqb_refl, V1, V2. rewrite (bool_decide_eq_false_2 (block_hash d1 = _)) by done.
  by rewrite !bool_decide_eq_true_2 by done.
Qed.

(** C5. Two nodes with the same validators and no conflicting key registrations
    that commit different blocks in the same round prove more than a third of
    the validators guilty: for each there is equivocation evidence that
    [EquivocationEvidence::verify] accepts under its registered key. *)
Theorem conflicting_commits_accountable vs s1 s2 o1 o2 b1 q1 b2 q2 now1 a1 sr1 seed1 now2 a2 sr2 seed2 :
  star hs_next (hs_new now1 a1 sr1 (mkVSet vs (quorum_of (zlen vs)) seed1)) s1 ->
  star hs_next (hs_new now2 a2 sr2 (mkVSet vs (quorum_of (zlen vs)) seed2)) s2 ->
  (forall a pk1 pk2, validator_pubkeys s1 !! a = Some pk1 -> validator_pubkeys s2 !! a = Some pk2 -> pk1 = pk2) ->
  Committed b1 q1 ∈ fst (hs_exec o1 s1) -> Committed b2 q2 ∈ fst (hs_exec o2 s2) ->
  block_number (vote_data q1) = block_number (vote_data q2) -> b_hash b1 <> b_hash b2 ->
  exists guilty, NoDup guilty /\ zlen vs < 3 * zlen guilty /\
    forall a, a ∈ guilty -> a ∈ vs /\ exists e,
      ev_validator e = a /\ validator_pubkeys s1 !! a = Some (ev_pubkey e) /\ evidence_verify e = true.
Proof.
  intros R1 R2 Hk C1 C2 Hround Hne.
  assert (forall now a sr seed s, star hs_next (hs_new now a sr (mkVSet vs (quorum_of (zlen vs)) seed)) s ->
    hs_inv s /\ validators (validator_set s) = vs /\ vs_quorum (validator_set s) = quorum_of (zlen vs)) as Hr.
  { intros now a sr seed s Hs. apply (star_invariant hs_next (fun s => hs_inv s /\
      validators (validator_set s) = vs /\ vs_quorum (validator_set s) = quorum_of (zlen vs)) _ _) in Hs; [done| |].
    - intros x y (Hi & E1 & E2) [o ->]. destruct (hs_exec_inv o x Hi) as [? (F1 & F2 & _)].
      split_and!; [done|congruence..].
    - split_and!; [apply hs_new_inv|done..]. }
  destruct (Hr _ _ _ _ _ R1) as (I1 & V1 & Q1), (Hr _ _ _ _ _ R2) as (I2 & V2 & Q2). clear Hr R1 R2.
  destruct (hs_exec_committed _ _ _ _ I1 C1) as ((N1 & L1 & S1) & P1 & B1 & _).
  destruct (hs_exec_committed _ _ _ _ I2 C2) as ((N2 & L2 & S2) & P2 & B2 & _).
  rewrite V1, Q1 in *. rewrite V2, Q2 in *.
  exists (filter (fun x => x ∈ signers q2) (signers q1)). split; [by apply list.NoDup_filter|]. split.
  { apply quorum_intersection; [done..|by apply S1|by apply S2|done|done]. }
  intros a [Ha2 Ha1]%list_elem_of_filter.
  destruct (S1 a Ha1) as (? & pk & sig1 & Hp1 & Hv1), (S2 a Ha2) as (_ & pk' & sig2 & Hp2 & Hv2).
  rewrite <-(Hk _ _ _ Hp1 Hp2) in Hv2. split; [done|].
  exists (conflicting_votes a (vote_data q1) (vote_data q2) sig1 sig2 pk). split_and!; [done..|].
  apply conflicting_votes_verify; congruence.
Qed.

(** ** An accumulator belongs to the first vote it sees *)

Lemma on_qc_accs now io qc s : vote_accumulators (snd (on_qc now io qc s)) = vote_accumulators s.
Proof.
  unfold on_qc, get_st, modify, throw, mbind, M_bind, mret, M_ret.
  repeat (match goal with |- context [if ?b then _ else _] => destruct b end; simpl); try done.
  - rewrite try_cast_snd. by destruct (cast_vote_frame io (mkVoteData (block_hash (vote_data qc))
      (block_number (vote_data qc)) PreCommit (pm_current_epoch (pacemaker s))) qc
      (set_highest (Some qc) (set_rules (update_locked_qc qc (safety_rules s)) s))) as (_ & -> & _).
  - rewrite try_cast_snd. by destruct (cast_vote_frame io (mkVoteData (block_hash (vote_data qc))
      (block_number (vote_data qc)) Commit (pm_current_epoch (pacemaker s))) qc s) as (_ & -> & _).
  - destruct (store_get _ _); simpl; [|done]. by case_match.
Qed.

Lemma count_vote_accs now io v pk s : exists acc', acc_data acc' = acc_data (acc_entry v s) /\
  vote_accumulators (snd (count_vote now io v pk s)) =
    <[(block_number (data v), phase (data v)) := acc']> (vote_accumulators s).
Proof.
  unfold count_vote. exists (snd (add_vote v pk (acc_entry v s))). split.
  - by destruct (add_vote_cases v pk (acc_entry v s)) as
      [[_ ->]|[(_ & _ & ->)|[(_ & _ & _ & ->)|(_ & _ & _ & ->)]]].
  - destruct (add_vote v pk (acc_entry v s)) as [[[qc|]|e|] acc']; try done. by rewrite on_qc_accs.
Qed.

(** What [on_vote] does to the accumulators: nothing, or one [count_vote]. *)
Lemma hs_on_vote_count now io v pk s :
  (vote_accumulators (snd (hs_on_vote now io v pk s)) = vote_accumulators s /\
   forall evs, fst (hs_on_vote now io v pk s) = Ok evs -> evs = []) \/
  exists s0, vote_accumulators s0 = vote_accumulators s /\ hs_on_vote now io v pk s = count_vote now io v pk s0.
Proof.
  unfold hs_on_vote, get_st, modify, throw, mbind, M_bind, mret, M_ret.
  destruct (negb _); [left; by split; [|intros ? [= <-]]|].
  destruct (validator_pubkeys s !! voter v); [|left; by split; [|intros ? [= <-]]].
  destruct (negb _); [left; by split; [|intros ? [= <-]]|].
  destruct (negb _); [left; by split; [|intros ? [= <-]]|].
  destruct (seen_votes s !! _) as [[[ph prev] pk0]|].
  - destruct (negb _); [left; by split|]. right. by exists s.
  - right. eexists (set_seen _ s). by split.
Qed.

Definition held_by (d : VoteData) (s : HotStuffConsensus) : Prop :=
  exists acc, vote_accumulators s !! (block_number d, phase d) = Some acc /\ acc_data acc = d.

Lemma held_by_eq d s s' : vote_accumulators s' = vote_accumulators s -> held_by d s -> held_by d s'.
Proof. unfold held_by. by intros ->. Qed.

Lemma count_vote_held now io v pk s d : held_by d s -> held_by d (snd (count_vote now io v pk s)).
Proof.
  intros (acc & Hacc & Hd). destruct (count_vote_accs now io v pk s) as (acc' & Hd' & Hv).
  unfold held_by. rewrite Hv.
  destruct (decide ((block_number (data v), phase (data v)) = (block_number d, phase d))) as [Heq|Hne].
  - rewrite Heq, lookup_insert_eq. exists acc'. split; [done|].
    unfold acc_entry in Hd'. rewrite Heq, Hacc in Hd'. simpl in Hd'. congruence.
  - rewrite lookup_insert_ne by done. eauto.
Qed.

Lemma hs_on_vote_held now io v pk s d : held_by d s -> held_by d (snd (hs_on_vote now io v pk s)).
Proof.
  intros Hh. destruct (hs_on_vote_count now io v pk s) as [[Ha _]|(s0 & Ha & ->)].
  - by eapply held_by_eq.
  - apply count_vote_held. by eapply held_by_eq.
Qed.

Lemma hs_exec_held o s d : held_by d s -> held_by d (snd (hs_exec o s)).
Proof.
  destruct o as [io b qc|now io v pk|now|a pk|r|seed]; simpl; try done.
  - intros Hh. assert (held_by d (snd (hs_on_proposal io b qc s))) as Hp.
    { unfold hs_on_proposal, throw_if, get_st, lift, modify, mbind, M_bind, mret, M_ret.
      destruct (negb (qc_verify qc)); [done|].
      destruct (proposer_for_round _ _) as [pr|e|]; [|done..].
      destruct (negb (bool_decide (b_coinbase b = pr))); [done|].
      destruct (negb (vset_contains _ _)); [done|].
      destruct (cast_vote_frame io (mkVoteData (b_hash b) (b_number b) Prepare (h_epoch (header b))) qc
        (set_store (store_add b (block_store s)) s)) as (_ & Ha & _).
      destruct (cast_vote io _ qc _) as [[] s2]; by eapply held_by_eq. }
    by destruct (hs_on_proposal io b qc s) as [[] ?].
  - intros Hh. pose proof (hs_on_vote_held now io v pk s d Hh).
    by destruct (hs_on_vote now io v pk s) as [[] ?].
  - unfold register_validator_pubkey. by repeat case_match.
Qed.

(** The accumulator of a round and phase belongs for good to the data of the
    first authenticated vote: through any run, votes for other data (another
    block, or only another epoch) are dropped without an event and without
    being counted.  One faulty validator that is fast enough therefore keeps
    every honest vote of that round and phase from forming a certificate. *)
Theorem vote_accumulator_captured s s' d : held_by d s -> star hs_next s s' ->
  held_by d s' /\
  forall now io v pk, block_number (data v) = block_number d -> phase (data v) = phase d -> data v <> d ->
    fst (hs_exec (MVote now io v pk) s') = [] /\
    vote_accumulators (snd (hs_exec (MVote now io v pk) s')) = vote_accumulators s'.
Proof.
  intros Hh Hs. assert (held_by d s') as Hh'.
  { apply (star_invariant hs_next (held_by d) s); [|done..]. intros x y Hx [o ->]. by apply hs_exec_held. }
  split; [done|]. intros now io v pk Hb Hp Hne. simpl.
  destruct (hs_on_vote_count now io v pk s') as [[Ha He]|(s0 & Ha & ->)].
  - destruct (hs_on_vote now io v pk s') as [[evs|e|] s'']; simpl in *; [by rewrite (He evs)|done..].
  - destruct Hh' as (acc & Hacc & Hd). unfold count_vote.
    assert (acc_entry v s0 = acc) as ->. { unfold acc_entry. by rewrite Ha, Hb, Hp, Hacc. }
    destruct (add_vote_cases v pk acc) as [[_ ->]|[(? & _)|[(? & _)|(? & _)]]]; [|congruence..].
    simpl. split; [done|]. by rewrite Ha, Hb, Hp, insert_id.
Qed.

(** ** The block store *)

(** The specification: the stored blocks, oldest first. *)
Definition fifo_add (cap : Z) (l : list (Block Body)) (b : Block Body) : list (Block Body) :=
  if bool_decide (b_hash b ∈ b_hash <$> l) then l
  else (if cap <=? zlen l then tail l else l) ++ [b].

Definition store_rel (s : BlockStore Body) (l : list (Block Body)) : Prop :=
  insertion_order s = b_hash <$> l /\ NoDup (b_hash <$> l) /\
  forall h b, blocks s !! h = Some b <-> b ∈ l /\ b_hash b = h.

Lemma store_rel_bound s l h : store_rel s l -> is_Some (blocks s !! h) <-> h ∈ b_hash <$> l.
Proof.
  intros (_ & _ & Hb). rewrite list_elem_of_fmap. split.
  - intros [b Hx]. apply Hb in Hx as [? ?]. eauto.
  - intros (b & -> & Hx). exists b. by apply Hb.
Qed.

Lemma store_rel_size s l : store_rel s l -> Z.of_nat (size (blocks s)) = zlen l.
Proof.
  intros Hr. pose proof Hr as (Ho & Hnd & Hb). unfold zlen. rewrite <-(length_fmap b_hash l). f_equal.
  rewrite <-(size_dom (D:=gset Hash)), <-(size_list_to_set (C:=gset Hash) (b_hash <$> l)) by done. f_equal.
  apply set_eq. intros h. rewrite elem_of_dom, elem_of_list_to_set. by apply store_rel_bound.
Qed.

(** Inserting a new block after the (possibly shortened) list. *)
Lemma store_rel_snoc (m : gmap Hash (Block Body)) order cap l b : store_rel (mkStore _ m order cap) l ->
  b_hash b ∉ b_hash <$> l -> store_rel (mkStore _ (<[b_hash b := b]> m) (order ++ [b_hash b]) cap) (l ++ [b]).
Proof.
  intros (Ho & Hnd & Hb) Hn. simpl in *. split_and!; simpl.
  - rewrite fmap_app. by rewrite Ho.
  - rewrite fmap_app. apply list.NoDup_app. split_and!; [done| |apply NoDup_singleton].
    intros x Hx ->%list_elem_of_singleton. done.
  - intros h x. rewrite elem_of_app, list_elem_of_singleton, lookup_insert_Some, Hb. split.
    + intros [[<- <-]|[Hne [? ?]]]; tauto.
    + intros [[Hx| ->] <-]; [|by left]. right. split; [|done]. intros Heq. apply Hn.
      rewrite Heq. by apply list_elem_of_fmap_2.
Qed.

Lemma store_rel_tail (m : gmap Hash (Block Body)) o order cap x l :
  store_rel (mkStore _ m (o :: order) cap) (x :: l) -> store_rel (mkStore _ (delete o m) order cap) l.
Proof.
  intros (Ho & Hnd & Hb). simpl in *. injection Ho as -> ->. apply list.NoDup_cons in Hnd as [Hx Hnd].
  split_and!; [done..|]. simpl. intros h b. rewrite lookup_delete_Some, Hb, elem_of_cons. split.
  - intros (Hne & [->|?] & <-); done.
  - intros [Hin <-]. split; [|tauto]. intros Heq. apply Hx. rewrite Heq. by apply list_elem_of_fmap_2.
Qed.

Lemma store_add_rel s l b : store_rel s l ->
  store_rel (store_add b s) (fifo_add (capacity s) l b) /\ capacity (store_add b s) = capacity s.
Proof.
  intros Hr. pose proof (store_rel_size s l Hr) as Hsz. pose proof (store_rel_bound s l (b_hash b) Hr) as Hbd.
  unfold store_add, fifo_add. rewrite Hsz. destruct s as [m order cap]. simpl in *.
  destruct (decide (is_Some (m !! b_hash b))) as [Hi|Hi].
  { rewrite !bool_decide_eq_true_2 by tauto. done. }
  rewrite !bool_decide_eq_false_2 by tauto. assert (b_hash b ∉ b_hash <$> l) as Hn by tauto.
  destruct (cap <=? zlen l); [|split; [by apply store_rel_snoc|done]].
  destruct l as [|x l].
  - destruct order as [|? ?]; [|by destruct Hr as [? _]]. split; [by apply store_rel_snoc|done].
  - destruct order as [|o order]; [by destruct Hr as [? _]|]. split; [|done].
    apply store_rel_snoc; [by eapply store_rel_tail|]. intros Hin. apply Hn. simpl. set_solver.
Qed.

(** Adding any sequence of blocks to an empty store keeps exactly the last
    [cap] distinct ones, in order of arrival, each found under its hash. *)
Theorem store_fifo bs cap : 0 < cap ->
  let s := fold_left (fun s b => store_add b s) bs (store_new cap) in
  let l := fold_left (fifo_add cap) bs [] in
  insertion_order s = b_hash <$> l /\
  (forall h b, store_get h s = Some b <-> b ∈ l /\ b_hash b = h) /\
  store_len s = zlen l /\ store_len s <= cap.
Proof.
  intros Hcap. cbv zeta.
  assert (forall s l, store_rel s l -> capacity s = cap -> zlen l <= cap ->
    store_rel (fold_left (fun s b => store_add b s) bs s) (fold_left (fifo_add cap) bs l) /\
    zlen (fold_left (fifo_add cap) bs l) <= cap) as Hfold.
  { induction bs as [|b bs IH]; intros s l Hr Hc Hl; [done|]. simpl.
    destruct (store_add_rel s l b Hr) as [Hr' Hc']. rewrite Hc in *. apply IH; [done..|].
    unfold fifo_add. case_bool_decide; [done|]. rewrite zlen_app, zlen_cons, zlen_nil.
    destruct (Z.leb_spec cap (zlen l)); [|lia]. destruct l; simpl; rewrite ?zlen_cons, ?zlen_nil in *; lia. }
  destruct (Hfold (store_new cap) []) as [Hr Hl]; [|done|unfold zlen; simpl; lia|].
  { split_and!; [done|constructor|]. intros h b. simpl. rewrite lookup_empty. set_solver. }
  pose proof (store_rel_size _ _ Hr) as Hsz. destruct Hr as (Ho & _ & Hb).
  unfold store_len. rewrite Hsz. done.
Qed.

Lemma store_add_new (m : gmap Hash (Block Body)) order cap b :
  m !! b_hash b = None -> Z.of_nat (size m) < cap ->
  store_add b (mkStore _ m order cap) = mkStore _ (<[b_hash b := b]> m) (order ++ [b_hash b]) cap.
Proof.
  intros Hn Hlt. unfold store_add. simpl. rewrite bool_decide_eq_false_2 by (rewrite Hn; by intros []).
  by rewrite (proj2 (Z.leb_gt _ _)) by done.
Qed.

(** [remove] leaves the hash in the FIFO list, so the bound does not survive
    it: the stale entry is what the next eviction spends itself on. *)
Theorem store_remove_breaks_capacity a b c d :
  NoDup [b_hash a; b_hash b; b_hash c; b_hash d] ->
  let s := store_add d (store_add c (store_add b (snd (store_remove (b_hash a) (store_add a (store_new 2)))))) in
  capacity s = 2 /\ store_len s = 3.
Proof.
  rewrite !list.NoDup_cons, !elem_of_cons, !elem_of_nil. intros (H1 & H2 & H3 & _).
  unfold store_len, store_new, store_remove. rewrite store_add_new by done. cbn [blocks insertion_order capacity snd app].
  rewrite delete_insert_id by done. rewrite store_add_new by done.
  rewrite store_add_new by (rewrite ?lookup_insert_ne, ?map_size_insert_None by naive_solver; done).
  cbn [app]. set (m := <[b_hash c:=c]> (<[b_hash b:=b]> ∅)).
  assert (size m = 2%nat) as Hm.
  { unfold m. rewrite !map_size_insert_None; [done|done|]. rewrite lookup_insert_ne by naive_solver. done. }
  assert (m !! b_hash a = None) as Ha. { unfold m. rewrite !lookup_insert_ne by naive_solver. done. }
  assert (m !! b_hash d = None) as Hd. { unfold m. rewrite !lookup_insert_ne by naive_solver. done. }
  unfold store_add. cbn [blocks insertion_order capacity]. rewrite Hm.
  rewrite bool_decide_eq_false_2 by (rewrite Hd; by intros []). simpl.
  rewrite delete_id by done. by rewrite map_size_insert_None, Hm by done.
Qed.
End hotstuff.
Arguments HotStuffConsensus : clear implicits.
