(* ===== verification/HotStuff2.v ===== *)
(** * HotStuff-2 with the Jolteon view change (crates/zbx-consensus/src/hotstuff2.rs)

    The two-phase state machine, its adaptive timer and the timeout
    certificates.  A [Duration] is a number of nanoseconds (division rounds
    down), the clock an argument of the calls that read it.  [map_to_list]
    stands for the unspecified listing order of a [HashMap]. *)

From Stdlib Require Import ZArith Lia.
From stdpp Require Import base tactics list gmap sets numbers option.
From S2P Require Import Prelude Bytes Crypto Vote Pacemaker Block HotStuff.

Local Open Scope Z_scope.

Definition MAX_CONSECUTIVE_TIMEOUTS : Z := 50.
Definition DELTA_MIN : Z := from_millis 500.
Definition DELTA_MAX : Z := from_secs 30.
Definition DELTA_INIT : Z := from_secs 5.

(** ** AdaptiveTimer *)

Record AdaptiveTimer : Type := mkTimer {
  current_delta : Z; start_time : option Z; timer_timeouts : Z }.

Definition timer_new : AdaptiveTimer := mkTimer DELTA_INIT None 0.
Definition timer_start (now : Z) (t : AdaptiveTimer) : AdaptiveTimer :=
  mkTimer (current_delta t) (Some now) (timer_timeouts t).
Definition is_expired (now : Z) (t : AdaptiveTimer) : bool :=
  match start_time t with
  | Some s => current_delta t <=? Z.max 0 (now - s)
  | None => false
  end.

(** [Duration * u32] panics beyond [Duration::MAX]. *)
Definition duration_mul {E} (d k : Z) : res E Z :=
  if d * k <? from_secs (2 ^ 64) then Ok (d * k) else Panic.

Definition on_quorum_reached {E} (now : Z) (t : AdaptiveTimer) : res E AdaptiveTimer :=
  match start_time t with
  | Some s =>
    let observed := Z.max 0 (now - s) in
    a ← duration_mul (current_delta t) 3;
    b ← duration_mul observed 2;
    Ok (mkTimer (Z.min (Z.max (Z.max (a / 4) b) DELTA_MIN) DELTA_MAX) None 0)
  | None => Ok (mkTimer (current_delta t) None 0)
  end.

Definition timer_on_timeout {E} (t : AdaptiveTimer) : res E AdaptiveTimer :=
  a ← duration_mul (current_delta t) 3;
  Ok (mkTimer (Z.min (a / 2) DELTA_MAX) None (u64 (timer_timeouts t + 1))).

(** ** Timeout shares and certificates *)

Record TimeoutShare : Type := mkShare {
  s_round : Z; s_highest_qc_round : Z; s_highest_qc_hash : option Hash;
  s_validator : Address; s_signature : BlsSignature }.

Definition share_bytes (s : TimeoutShare) : bytes :=
  to_be 8 (s_round s) ++ to_be 8 (s_highest_qc_round s) ++
  match s_highest_qc_hash s with Some h => h | None => replicate 32 0 end ++ s_validator s.

Record TimeoutCertificate : Type := mkTC {
  tc_round : Z; tc_highest_qc_round : Z; tc_agg_signature : BlsSignature;
  signer_hashes : list Hash; tc_signer_pubkeys : list BlsPubKey; tc_signers : list Address;
  signer_count : Z; signer_signatures : list BlsSignature }.

Record TcAccumulator : Type := mkTcAcc {
  shares : gmap Address (TimeoutShare * BlsPubKey); tc_quorum : Z }.

Definition tc_acc_new (quorum : Z) : TcAccumulator := mkTcAcc ∅ quorum.

Inductive Hs2Phase : Type :=
| WaitingProposal (round : Z)
| Voted (round : Z) (hash : Hash)
| ViewChange (round : Z)
| PhCommitted (height : Z) (hash : Hash).

Inductive Hs2Event (Body : Type) : Type :=
| Hs2Committed (block : Block Body) (qc : QuorumCertificate)
| VoteRequest (d : VoteData)
| Hs2ProposalRequired (round : Z) (parent : Hash) (justify : QuorumCertificate)
| TimeoutBroadcast (share : TimeoutShare)
| NewLeaderPropose (round : Z) (tc : TimeoutCertificate).
Arguments Hs2Committed {Body}.
Arguments VoteRequest {Body}.
Arguments Hs2ProposalRequired {Body}.
Arguments TimeoutBroadcast {Body}.
Arguments NewLeaderPropose {Body}.

Record HotStuff2 : Type := mkHs2 {
  h2_phase : Hs2Phase; h2_highest : QuorumCertificate; prev_qc : option QuorumCertificate;
  round_timer : AdaptiveTimer; vote_accum : option VoteAccumulator; tc_accum : TcAccumulator;
  h2_validator : Address; h2_set : list Address; h2_quorum : Z; current_epoch : Z;
  voted_at : gmap Z Hash; h2_seen : gmap (Z * Z * Address) (Hash * Vote * BlsPubKey);
  h2_pubkeys : gmap Address BlsPubKey }.

(** Field updates. *)
Definition h2_set_phase (x : Hs2Phase) (s : HotStuff2) : HotStuff2 :=
  mkHs2 x (h2_highest s) (prev_qc s) (round_timer s) (vote_accum s) (tc_accum s) (h2_validator s)
    (h2_set s) (h2_quorum s) (current_epoch s) (voted_at s) (h2_seen s) (h2_pubkeys s).
Definition h2_set_qcs (hi : QuorumCertificate) (pr : option QuorumCertificate) (s : HotStuff2) : HotStuff2 :=
  mkHs2 (h2_phase s) hi pr (round_timer s) (vote_accum s) (tc_accum s) (h2_validator s)
    (h2_set s) (h2_quorum s) (current_epoch s) (voted_at s) (h2_seen s) (h2_pubkeys s).
Definition h2_set_timer (x : AdaptiveTimer) (s : HotStuff2) : HotStuff2 :=
  mkHs2 (h2_phase s) (h2_highest s) (prev_qc s) x (vote_accum s) (tc_accum s) (h2_validator s)
    (h2_set s) (h2_quorum s) (current_epoch s) (voted_at s) (h2_seen s) (h2_pubkeys s).
Definition h2_set_accum (x : option VoteAccumulator) (s : HotStuff2) : HotStuff2 :=
  mkHs2 (h2_phase s) (h2_highest s) (prev_qc s) (round_timer s) x (tc_accum s) (h2_validator s)
    (h2_set s) (h2_quorum s) (current_epoch s) (voted_at s) (h2_seen s) (h2_pubkeys s).
Definition h2_set_tc (x : TcAccumulator) (s : HotStuff2) : HotStuff2 :=
  mkHs2 (h2_phase s) (h2_highest s) (prev_qc s) (round_timer s) (vote_accum s) x (h2_validator s)
    (h2_set s) (h2_quorum s) (current_epoch s) (voted_at s) (h2_seen s) (h2_pubkeys s).
Definition h2_set_voted (x : gmap Z Hash) (s : HotStuff2) : HotStuff2 :=
  mkHs2 (h2_phase s) (h2_highest s) (prev_qc s) (round_timer s) (vote_accum s) (tc_accum s) (h2_validator s)
    (h2_set s) (h2_quorum s) (current_epoch s) x (h2_seen s) (h2_pubkeys s).
Definition h2_set_seen (x : gmap (Z * Z * Address) (Hash * Vote * BlsPubKey)) (s : HotStuff2) : HotStuff2 :=
  mkHs2 (h2_phase s) (h2_highest s) (prev_qc s) (round_timer s) (vote_accum s) (tc_accum s) (h2_validator s)
    (h2_set s) (h2_quorum s) (current_epoch s) (voted_at s) x (h2_pubkeys s).
Definition h2_set_pubkeys (x : gmap Address BlsPubKey) (s : HotStuff2) : HotStuff2 :=
  mkHs2 (h2_phase s) (h2_highest s) (prev_qc s) (round_timer s) (vote_accum s) (tc_accum s) (h2_validator s)
    (h2_set s) (h2_quorum s) (current_epoch s) (voted_at s) (h2_seen s) x.

Definition qc_round (qc : QuorumCertificate) : Z := block_number (vote_data qc).

Definition genesis_qc : QuorumCertificate := mkQC (mkVoteData zero_hash 0 0 0) zero_sig [] [].

(** [HotStuff2::new] asserts that the set is not empty. *)
Definition hs2_new {E} (qc : QuorumCertificate) (validator : Address) (vs : list Address) : res E HotStuff2 :=
  if zlen vs =? 0 then Panic
  else
    let quorum := quorum_of (zlen vs) in
    Ok (mkHs2 (WaitingProposal 1) qc None timer_new None (tc_acc_new quorum) validator vs quorum 0 ∅ ∅ ∅).

Definition try_new (qc : QuorumCertificate) (validator : Address) (vs : list Address)
    : res ConsensusError HotStuff2 :=
  if zlen vs =? 0 then Err EmptyValidatorSet else hs2_new qc validator vs.

Definition h2_register (addr : Address) (pk : BlsPubKey) (s : HotStuff2) : HotStuff2 :=
  match h2_pubkeys s !! addr with
  | Some existing =>
    if negb (bool_decide (existing = pk)) then s
    else h2_set_pubkeys (<[addr := pk]> (h2_pubkeys s)) s
  | None => h2_set_pubkeys (<[addr := pk]> (h2_pubkeys s)) s
  end.

Definition prune_voted_below (committed_round : Z) (s : HotStuff2) : HotStuff2 :=
  let s := h2_set_voted (filter (fun e => committed_round <= e.1) (voted_at s)) s in
  h2_set_seen (filter (fun e => committed_round <= e.1.1.1) (h2_seen s)) s.

Definition h2_current_round (s : HotStuff2) : Z :=
  match h2_phase s with
  | WaitingProposal r | Voted r _ | ViewChange r => r
  | PhCommitted _ _ => u64 (qc_round (h2_highest s) + 1)
  end.

Section hotstuff2.
Context {CR : Crypto} {Body : Type}.

Definition signing_hash (s : TimeoutShare) : Hash := keccak256 (share_bytes s).

(** The three vectors are zipped after their lengths are compared. *)
Definition tc_verify (quorum : Z) (tc : TimeoutCertificate) : bool :=
  if signer_count tc <? quorum then false
  else if negb (zlen (signer_hashes tc) =? zlen (tc_signer_pubkeys tc))
       || negb (zlen (signer_hashes tc) =? zlen (signer_signatures tc))
       || negb (zlen (signer_hashes tc) =? signer_count tc)
  then false
  else if negb (bool_decide (NoDup (tc_signers tc))) then false
  else forallb (fun x => verify_single (fst (fst x)) (snd (fst x)) (snd x))
         (zip (zip (signer_signatures tc) (tc_signer_pubkeys tc)) (signer_hashes tc)).

Definition build_tc (a : TcAccumulator) : option TimeoutCertificate :=
  let entries := map_to_list (shares a) in
  let values := entries.*2 in
  let round := default 0 ((fun e => s_round (fst e)) <$> head values) in
  let highest := foldr Z.max 0 (map (fun e => s_highest_qc_round (fst e)) values) in
  let sigs := map (fun e => s_signature (fst e)) values in
  agg ← aggregate_signatures sigs;
  Some (mkTC round highest agg (map (fun e => signing_hash (fst e)) values) (map snd values)
          (entries.*1) (Z.of_nat (size (shares a))) sigs).

Definition add_share (share : TimeoutShare) (pk : BlsPubKey) (a : TcAccumulator)
    : option TimeoutCertificate * TcAccumulator :=
  if bool_decide (is_Some (shares a !! s_validator share)) then (None, a)
  else if negb (verify_single (s_signature share) pk (signing_hash share)) then (None, a)
  else
    let a' := mkTcAcc (<[s_validator share := (share, pk)]> (shares a)) (tc_quorum a) in
    if tc_quorum a <=? Z.of_nat (size (shares a')) then (build_tc a', a') else (None, a').

(** [u64::from_be_bytes(h[..8]) as usize % n] *)
Definition is_leader (s : HotStuff2) (round : Z) : bool :=
  if zlen (h2_set s) =? 0 then false
  else
    let hash := keccak256 (block_hash (vote_data (h2_highest s)) ++ to_be 8 round) in
    let idx := be_val (take 8 hash) mod zlen (h2_set s) in
    bool_decide (h2_set s !! Z.to_nat idx = Some (h2_validator s)).

Abbreviation H2 := (M HotStuff2 ConsensusError).

(** The commit rule looks at [prev_qc] before [highest_qc] is updated, and
    the event carries the block of the proposal being received. *)
Definition hs2_on_proposal (now : Z) (b : Block Body) (justify : QuorumCertificate)
    : H2 (list (Hs2Event Body)) :=
  let justify_round := qc_round justify in
  let round := u64 (justify_round + 1) in
  s ← get_st;
  let highest_round := qc_round (h2_highest s) in
  _ ← throw_if (justify_round <? highest_round) (StaleProposal round highest_round);
  let commits :=
    match prev_qc s with
    | Some pqc => if justify_round =? u64 (qc_round pqc + 1) then [Hs2Committed b justify] else []
    | None => []
    end in
  _ ← modify (fun s => if highest_round <? justify_round
                       then h2_set_qcs justify (Some (h2_highest s)) s else s);
  let bh := b_hash b in
  match voted_at s !! round with
  | Some prev_hash =>
    if negb (bool_decide (prev_hash = bh)) then throw (Equivocation round prev_hash bh)
    else mret commits
  | None =>
    let d := mkVoteData bh round 0 (current_epoch s) in
    _ ← modify (fun s => h2_set_accum (Some (acc_new d (h2_quorum s))) s);
    _ ← modify (fun s => h2_set_voted (<[round := bh]> (voted_at s)) s);
    _ ← modify (h2_set_phase (Voted round bh));
    _ ← modify (fun s => h2_set_timer (timer_start now (round_timer s)) s);
    mret (commits ++ [VoteRequest d])
  end.

(** What follows a quorum: the QC chain and the next round. *)
Definition hs2_on_qc (now : Z) (qc : QuorumCertificate) : H2 (list (Hs2Event Body)) :=
  s ← get_st;
  t ← lift (on_quorum_reached now (round_timer s));
  _ ← modify (h2_set_timer t);
  _ ← modify (fun s => if qc_round (h2_highest s) <? qc_round qc
                       then h2_set_qcs qc (Some (h2_highest s)) s else s);
  let next_round := u64 (qc_round qc + 1) in
  _ ← modify (h2_set_phase (WaitingProposal next_round));
  _ ← modify (h2_set_accum None);
  _ ← modify (fun s => h2_set_tc (tc_acc_new (h2_quorum s)) s);
  s ← get_st;
  if is_leader s next_round
  then mret [Hs2ProposalRequired next_round (block_hash (vote_data qc)) qc] else mret [].

(** [accum.add_vote(vote, pubkey).unwrap_or(None)] *)
Definition hs2_count (now : Z) (v : Vote) (pk : BlsPubKey) : H2 (list (Hs2Event Body)) := fun s =>
  match vote_accum s with
  | None => (Ok [], s)
  | Some acc =>
    let '(r, acc') := add_vote v pk acc in
    let s' := h2_set_accum (Some acc') s in
    match r with
    | Ok (Some qc) => hs2_on_qc now qc s'
    | Panic => (Panic, s')
    | _ => (Ok [], s')
    end
  end.

Definition hs2_on_vote (now : Z) (v : Vote) (pk : BlsPubKey) : H2 (list (Hs2Event Body)) :=
  s ← get_st;
  if negb (bool_decide (voter v ∈ h2_set s)) then mret []
  else
    match h2_pubkeys s !! voter v with
    | None => mret []
    | Some registered =>
      if negb (bool_decide (registered = pk)) then mret []
      else if negb (verify_single (signature v) pk (msg_of (data v))) then mret []
      else
        let key := (block_number (data v), phase (data v), voter v) in
        match h2_seen s !! key with
        | Some (prev_hash, prev, _) =>
          if negb (bool_decide (prev_hash = block_hash (data v))) then
            throw (RemoteEquivocation (voter prev) (block_number (data prev)) (phase (data prev))
                     (block_hash (data prev)) (block_hash (data v)))
          else hs2_count now v pk
        | None =>
          _ ← modify (fun s => h2_set_seen (<[key := (block_hash (data v), v, pk)]> (h2_seen s)) s);
          hs2_count now v pk
        end
    end.

Definition hs2_on_timeout_share (share : TimeoutShare) (pk : BlsPubKey) : H2 (list (Hs2Event Body)) := fun s =>
  let '(otc, a') := add_share share pk (tc_accum s) in
  let s := h2_set_tc a' s in
  match otc with
  | None => (Ok [], s)
  | Some tc =>
    if negb (tc_verify (h2_quorum s) tc) then (Err InvalidTimeoutCertificate, s)
    else
      let next_round := u64 (tc_round tc + 1) in
      let s := h2_set_accum None (h2_set_phase (WaitingProposal next_round) s) in
      (Ok (if is_leader s next_round then [NewLeaderPropose next_round tc] else []), s)
  end.

Definition verify_tc (s : HotStuff2) (tc : TimeoutCertificate) : bool := tc_verify (h2_quorum s) tc.

Definition h2_build_evidence (s : HotStuff2) (validator : Address) (r p : Z) (new_vote : Vote)
    (new_pk : BlsPubKey) : option EquivocationEvidence :=
  '(_, prev_vote, _) ← h2_seen s !! (r, p, validator);
  let ev := mkEvidence validator r p prev_vote new_vote new_pk in
  if evidence_verify ev then Some ev else None.

Definition check_timer (now current_round : Z) : H2 (option (Hs2Event Body)) :=
  s ← get_st;
  if is_expired now (round_timer s) then
    t ← lift (timer_on_timeout (round_timer s));
    _ ← modify (h2_set_timer t);
    let share := mkShare current_round (qc_round (h2_highest s))
                   (Some (block_hash (vote_data (h2_highest s)))) (h2_validator s) zero_sig in
    _ ← modify (h2_set_phase (ViewChange current_round));
    mret (Some (TimeoutBroadcast share))
  else mret None.

(** ** Runs *)

Inductive hs2_op : Type :=
| HProposal (now : Z) (b : Block Body) (justify : QuorumCertificate)
| HVote (now : Z) (v : Vote) (pk : BlsPubKey)
| HShare (share : TimeoutShare) (pk : BlsPubKey)
| HTimer (now round : Z)
| HRegister (a : Address) (pk : BlsPubKey)
| HPrune (committed_round : Z).

Definition hs2_exec (o : hs2_op) (s : HotStuff2) : list (Hs2Event Body) * HotStuff2 :=
  let run (p : res ConsensusError (list (Hs2Event Body)) * HotStuff2) :=
    match p with (Ok evs, s') => (evs, s') | (_, s') => ([], s') end in
  match o with
  | HProposal now b j => run (hs2_on_proposal now b j s)
  | HVote now v pk => run (hs2_on_vote now v pk s)
  | HShare sh pk => run (hs2_on_timeout_share sh pk s)
  | HTimer now r =>
    match check_timer now r s with (Ok e, s') => (option_list e, s') | (_, s') => ([], s') end
  | HRegister a pk => ([], h2_register a pk s)
  | HPrune c => ([], prune_voted_below c s)
  end.

(** Round numbers of justifying certificates leave room for the next round;
    the caller prunes at committed rounds, which the highest certificate has
    reached. *)
Definition hs2_valid (o : hs2_op) (s : HotStuff2) : Prop :=
  match o with
  | HProposal _ _ j => 0 <= qc_round j /\ qc_round j + 1 < 2 ^ 64
  | HPrune c => c <= qc_round (h2_highest s) + 1
  | _ => True
  end.

Inductive hs2_trace (s0 : HotStuff2) : list (Hs2Event Body) -> HotStuff2 -> Prop :=
| trace_nil : hs2_trace s0 [] s0
| trace_snoc log s o : hs2_trace s0 log s -> hs2_valid o s ->
    hs2_trace s0 (log ++ fst (hs2_exec o s)) (snd (hs2_exec o s)).

(** ** No double vote *)

(** The rounds voted in are remembered, or are behind the highest certificate. *)
Definition voted_inv (log : list (Hs2Event Body)) (s : HotStuff2) : Prop :=
  (forall d, VoteRequest d ∈ log ->
     is_Some (voted_at s !! block_number d) \/ block_number d <= qc_round (h2_highest s)) /\
  (forall i j d1 d2, (i < j)%nat -> log !! i = Some (VoteRequest d1) -> log !! j = Some (VoteRequest d2) ->
     block_number d1 <> block_number d2).

(** Steps that request no vote, forget no round and do not lower the highest
    certificate. *)
Definition h2_quiet (s : HotStuff2) (p : list (Hs2Event Body) * HotStuff2) : Prop :=
  (forall d, ~ VoteRequest d ∈ fst p) /\
  (forall r, is_Some (voted_at s !! r) -> is_Some (voted_at (snd p) !! r)) /\
  qc_round (h2_highest s) <= qc_round (h2_highest (snd p)).

Lemma voted_inv_app log s evs s' : voted_inv log s -> (forall d, ~ VoteRequest d ∈ evs) ->
  (forall d, VoteRequest d ∈ log ->
     is_Some (voted_at s' !! block_number d) \/ block_number d <= qc_round (h2_highest s')) ->
  voted_inv (log ++ evs) s'.
Proof.
  intros (_ & Hlog) Hno H'. split.
  - intros d [Hd|Hd]%elem_of_app; [by apply H'|by destruct (Hno d)].
  - intros i j d1 d2 Hij Hi [Hj|[_ Hj]]%lookup_app_Some.
    + apply lookup_lt_Some in Hj as Hlt. rewrite lookup_app_l in Hi by lia.
      exact (Hlog i j d1 d2 Hij Hi Hj).
    + apply list_elem_of_lookup_2 in Hj. by destruct (Hno d2).
Qed.

Lemma voted_inv_quiet log s p : voted_inv log s -> h2_quiet s p -> voted_inv (log ++ fst p) (snd p).
Proof.
  intros Hi (Hno & Hv & Hq). apply (voted_inv_app log s); [done..|].
  intros d Hd. destruct (proj1 Hi d Hd); [left; by apply Hv|right; lia].
Qed.

Lemma hs2_on_qc_quiet now qc s : h2_quiet s
  (match hs2_on_qc now qc s with (Ok evs, s') => (evs, s') | (_, s') => ([], s') end).
Proof.
  unfold hs2_on_qc, get_st, lift, modify, mbind, M_bind, mret, M_ret.
  assert (h2_quiet s ([], s)) as Hs by (split_and!; [set_solver|done..]).
  destruct (on_quorum_reached now (round_timer s)) as [t|e|]; [|done..].
  set (s1 := h2_set_timer t s). 
  assert (h2_quiet s ([], if qc_round (h2_highest s1) <? qc_round qc
    then h2_set_qcs qc (Some (h2_highest s1)) s1 else s1)) as (_ & H1 & H2).
  { destruct (Z.ltb_spec (qc_round (h2_highest s1)) (qc_round qc)); split_and!; simpl in *; try done; try lia; intros d Hd; by apply elem_of_nil in Hd. }
  match goal with |- context [if is_leader ?st ?r then _ else _] => destruct (is_leader st r) end;
    split_and!; simpl; try done; set_solver.
Qed.

Lemma hs2_count_quiet now v pk s : h2_quiet s
  (match hs2_count now v pk s with (Ok evs, s') => (evs, s') | (_, s') => ([], s') end).
Proof.
  assert (h2_quiet s ([], s)) as Hs by (split_and!; [set_solver|done..]).
  unfold hs2_count. destruct (vote_accum s) as [acc|]; [|done].
  destruct (add_vote v pk acc) as [[[qc|]|e|] acc']; try done.
  exact (hs2_on_qc_quiet now qc (h2_set_accum (Some acc') s)).
Qed.

Lemma hs2_on_vote_quiet now v pk s : h2_quiet s
  (match hs2_on_vote now v pk s with (Ok evs, s') => (evs, s') | (_, s') => ([], s') end).
Proof.
  assert (h2_quiet s ([], s)) as Hs by (split_and!; [set_solver|done..]).
  unfold hs2_on_vote, get_st, modify, throw, mbind, M_bind, mret, M_ret.
  destruct (negb (bool_decide _)); [done|]. destruct (h2_pubkeys s !! voter v); [|done].
  destruct (negb _); [done|]. destruct (negb _); [done|].
  destruct (h2_seen s !! _) as [[[ph prev] pk0]|].
  - destruct (negb _); [done|]. apply hs2_count_quiet.
  - exact (hs2_count_quiet now v pk (h2_set_seen _ s)).
Qed.

Lemma hs2_share_quiet sh pk s : h2_quiet s
  (match hs2_on_timeout_share sh pk s with (Ok evs, s') => (evs, s') | (_, s') => ([], s') end).
Proof.
  unfold hs2_on_timeout_share. destruct (add_share sh pk (tc_accum s)) as [[tc|] a']; simpl;
    [|split_and!; [set_solver|done..]].
  destruct (negb _); simpl; [split_and!; [set_solver|done..]|].
  destruct (is_leader _ _); split_and!; try done; set_solver.
Qed.

Lemma check_timer_quiet now r s : h2_quiet s
  (match check_timer now r s with (Ok e, s') => (option_list e, s') | (_, s') => ([], s') end).
Proof.
  unfold check_timer, get_st, lift, modify, mbind, M_bind, mret, M_ret.
  destruct (is_expired _ _); [|split_and!; [set_solver|done..]].
  destruct (timer_on_timeout _) as [t|e|]; split_and!; simpl; try done; set_solver.
Qed.

Lemma hs2_proposal_voted log s now b j : voted_inv log s ->
  0 <= qc_round j /\ qc_round j + 1 < 2 ^ 64 ->
  voted_inv (log ++ fst (hs2_exec (HProposal now b j) s)) (snd (hs2_exec (HProposal now b j) s)).
Proof.
  intros Hi Hj. simpl. unfold hs2_on_proposal, get_st, throw_if, throw, modify, mbind, M_bind, mret, M_ret.
  rewrite (wrap_small 64 (qc_round j + 1)) by (unfold in_range; lia).
  destruct (Z.ltb_spec (qc_round j) (qc_round (h2_highest s))) as [|Hge].
  { simpl. by rewrite app_nil_r. }
  set (commits := match prev_qc s with Some _ => _ | None => _ end).
  assert (forall d, ~ VoteRequest d ∈ commits) as Hno.
  { intros d. unfold commits. destruct (prev_qc s); [|set_solver]. case_match; set_solver. }
  set (s1 := if qc_round (h2_highest s) <? qc_round j then _ else s).
  assert (voted_at s1 = voted_at s /\ qc_round (h2_highest s1) = qc_round j) as [Hv Hq].
  { unfold s1. destruct (Z.ltb_spec (qc_round (h2_highest s)) (qc_round j)); split; simpl; try done; lia. }
  assert (forall d, VoteRequest d ∈ log ->
    is_Some (voted_at s1 !! block_number d) \/ block_number d <= qc_round (h2_highest s1)) as Hold.
  { intros d Hd. rewrite Hv, Hq. destruct (proj1 Hi d Hd); [by left|right; lia]. }
  destruct (voted_at s !! (qc_round j + 1)) as [ph|] eqn:Hr.
  - destruct (negb _); simpl; apply (voted_inv_app log s); [done|set_solver|done|done|done|done].
  - simpl. rewrite app_assoc. match goal with |- voted_inv (_ ++ [VoteRequest ?x]) ?y => set (d := x); set (s2 := y) end.
    assert (forall x, is_Some (voted_at s1 !! x) -> is_Some (voted_at s2 !! x)) as Hk.
    { intros x Hx. unfold s2. simpl. destruct (decide (x = qc_round j + 1)) as [->|].
      - rewrite lookup_insert_eq. done.
      - by rewrite lookup_insert_ne by done. }
    assert (voted_inv (log ++ commits) s2) as Hc.
    { apply (voted_inv_app log s); [done..|]. intros x Hx. destruct (Hold x Hx); [left; by apply Hk|by right]. }
    destruct Hc as [Hc1 Hc2]. split.
    + intros x [Hx|Hx]%elem_of_app; [by apply Hc1|]. apply list_elem_of_singleton in Hx. injection Hx as ->.
      left. unfold s2, d. simpl. rewrite lookup_insert_eq. done.
    + intros i k d1 d2 Hik Hi1 [Hk2|[_ Hk2]]%lookup_app_Some.
      * apply lookup_lt_Some in Hk2 as Hlt. rewrite lookup_app_l in Hi1 by lia.
        exact (Hc2 i k d1 d2 Hik Hi1 Hk2).
      * apply list_lookup_singleton_Some in Hk2 as [Hk0 [= <-]]. rewrite lookup_app_l in Hi1 by lia.
        apply list_elem_of_lookup_2 in Hi1. unfold d. simpl.
        apply elem_of_app in Hi1 as [Hi1|Hi1]; [|by destruct (Hno d1)]. intros Heq.
        destruct (proj1 Hi d1 Hi1) as [Hs|Hs]; [|lia]. rewrite Heq, Hr in Hs. by destruct Hs.
Qed.

Lemma h2_register_same a pk s :
  voted_at (h2_register a pk s) = voted_at s /\ h2_highest (h2_register a pk s) = h2_highest s /\
  vote_accum (h2_register a pk s) = vote_accum s /\ h2_set (h2_register a pk s) = h2_set s /\
  h2_quorum (h2_register a pk s) = h2_quorum s /\ h2_pubkeys s ⊆ h2_pubkeys (h2_register a pk s).
Proof.
  unfold h2_register. destruct (h2_pubkeys s !! a) as [x|] eqn:Hx; [case_bool_decide as Heq|]; try done.
  - subst. split_and!; try done. simpl. by rewrite insert_id.
  - split_and!; try done. simpl. by apply insert_subseteq.
Qed.

Lemma hs2_exec_voted log s o : voted_inv log s -> hs2_valid o s ->
  voted_inv (log ++ fst (hs2_exec o s)) (snd (hs2_exec o s)).
Proof.
  intros Hi Ho. destruct o as [now b j|now v pk|sh pk|now r|a pk|c].
  - by apply hs2_proposal_voted.
  - apply (voted_inv_quiet log s _ Hi), hs2_on_vote_quiet.
  - apply (voted_inv_quiet log s _ Hi), hs2_share_quiet.
  - apply (voted_inv_quiet log s _ Hi), check_timer_quiet.
  - destruct (h2_register_same a pk s) as (Hv & Hq & _). apply (voted_inv_quiet log s _ Hi).
    simpl. unfold h2_quiet. simpl. rewrite Hv, Hq. split_and!; [set_solver|done|lia].
  - simpl in *. apply (voted_inv_app log s); [done|set_solver|]. intros d Hd. simpl.
    destruct (proj1 Hi d Hd) as [[h Hh]|Hlt]; [|by right].
    destruct (decide (c <= block_number d)) as [Hc|Hc]; [left|right; lia].
    exists h. apply map_lookup_filter_Some. by split.
Qed.

(** A HotStuff-2 node never asks its key manager to sign two proposals of the
    same round, whatever proposals, votes, timeouts and prunings it handles. *)
Theorem hs2_no_double_vote s0 log s i j d1 d2 :
  hs2_trace s0 log s -> (i < j)%nat ->
  log !! i = Some (VoteRequest d1) -> log !! j = Some (VoteRequest d2) ->
  block_number d1 <> block_number d2.
Proof.
  intros Ht. assert (voted_inv log s) as [_ Hi]; [|by apply Hi].
  induction Ht as [|log s o Ht IH Ho]; [|by apply hs2_exec_voted].
  split; [set_solver|]. intros i' j' ? ? _ H. by rewrite lookup_nil in H.
Qed.

(** ** Certificates formed from votes *)

Definition h2_certified (s : HotStuff2) (qc : QuorumCertificate) : Prop :=
  certified (h2_set s) (h2_quorum s) (h2_pubkeys s) qc.

Definition h2_inv (s : HotStuff2) : Prop :=
  forall acc, vote_accum s = Some acc -> acc_ok acc /\ acc_quorum acc = h2_quorum s /\
    forall a v pk, votes acc !! a = Some (v, pk) -> a ∈ h2_set s /\ h2_pubkeys s !! a = Some pk.

Definition h2_le (s s' : HotStuff2) : Prop :=
  h2_set s' = h2_set s /\ h2_quorum s' = h2_quorum s /\ h2_pubkeys s ⊆ h2_pubkeys s'.

(** A step keeps the invariant, and asks for a proposal only on a certificate
    of registered validators. *)
Definition h2_step_ok (s : HotStuff2) (p : list (Hs2Event Body) * HotStuff2) : Prop :=
  h2_inv (snd p) /\ h2_le s (snd p) /\
  forall r parent qc, Hs2ProposalRequired r parent qc ∈ fst p ->
    h2_certified s qc /\ parent = block_hash (vote_data qc) /\ r = u64 (qc_round qc + 1).

Lemma h2_inv_frame s s' : h2_inv s -> h2_le s s' ->
  vote_accum s' = vote_accum s \/ vote_accum s' = None -> h2_inv s'.
Proof.
  intros Hi (E1 & E2 & Hk) [E|E] acc Ha; [|congruence]. rewrite E in Ha.
  destruct (Hi acc Ha) as (H1 & H2 & H3). split_and!; [done|congruence|].
  intros a v pk Hv. rewrite E1. destruct (H3 a v pk Hv). split; [done|by eapply lookup_weaken].
Qed.

Lemma h2_step_frame s s' evs : h2_inv s -> h2_le s s' ->
  vote_accum s' = vote_accum s \/ vote_accum s' = None ->
  (forall r parent qc, ~ Hs2ProposalRequired r parent qc ∈ evs) -> h2_step_ok s (evs, s').
Proof.
  intros Hi Hle Ha Hno. split; [by apply (h2_inv_frame s)|]. split; [done|]. intros r p q Hin.
  by destruct (Hno r p q).
Qed.

Lemma hs2_on_qc_ok now qc s : h2_inv s -> h2_certified s qc ->
  h2_step_ok s (match hs2_on_qc now qc s with (Ok evs, s') => (evs, s') | (_, s') => ([], s') end).
Proof.
  intros Hi Hc. unfold hs2_on_qc, get_st, lift, modify, mbind, M_bind, mret, M_ret.
  assert (h2_step_ok s ([], s)) as Hs by (apply h2_step_frame; [done|done|by left|set_solver]).
  destruct (on_quorum_reached now (round_timer s)) as [t|e|]; [|done..].
  set (s1 := if qc_round (h2_highest (h2_set_timer t s)) <? qc_round qc then _ else _).
  assert (h2_le s s1) as Hle by (unfold s1; case_match; done).
  match goal with |- context [if is_leader ?st ?r then _ else _] =>
    assert (h2_le s st) as Hle2 by done; destruct (is_leader st r) end.
  - split; [by apply (h2_inv_frame s); [..|right]|]. split; [done|].
    intros r p q Hin. apply list_elem_of_singleton in Hin. by injection Hin as -> -> ->.
  - apply h2_step_frame; [done|done|by right|set_solver].
Qed.

Lemma hs2_count_ok now v pk s : h2_inv s -> voter v ∈ h2_set s -> h2_pubkeys s !! voter v = Some pk ->
  h2_step_ok s (match hs2_count now v pk s with (Ok evs, s') => (evs, s') | (_, s') => ([], s') end).
Proof.
  intros Hi Hv Hpk. assert (h2_step_ok s ([], s)) as Hs by (apply h2_step_frame; [done|done|by left|set_solver]).
  unfold hs2_count. destruct (vote_accum s) as [acc|] eqn:Hacc; [|done].
  destruct (Hi acc Hacc) as (Ha & Hq & Hm). pose proof (add_vote_ok v pk acc Ha) as Ha'.
  pose proof (add_vote_qc v pk acc) as Hqc. pose proof (add_vote_cases v pk acc) as Hcases.
  destruct (add_vote v pk acc) as [r acc']. cbn [snd fst] in *.
  set (s' := h2_set_accum (Some acc') s).
  assert (h2_inv s') as Hi'.
  { intros acc0 [= <-]. destruct Hcases as [[_ [= -> ->]]|[(_ & _ & [= -> ->])|[(_ & _ & _ & [= -> ->])|(Hd & Hn & Hsig & [= -> ->])]]];
      split_and!; try done; simpl.
    intros a w pk' Hl. apply lookup_insert_Some in Hl as [[<- [= <- <-]]|[_ Hl]]; [done|by eapply Hm]. }
  assert (h2_step_ok s ([], s')) as Hs' by (split; [done|split; [done|set_solver]]).
  destruct r as [[qc|]|e|]; [|done..].
  apply (hs2_on_qc_ok now qc s' Hi'). destruct (Hqc qc Ha eq_refl) as (-> & Hd & _ & _ & (B1 & B2 & _)).
  rewrite Hq in B2. split_and!; [done..|]. intros a [i Hi2]%list_elem_of_lookup_1.
  destruct (form_qc_entry _ i a Ha' Hi2) as (w & pk' & Hw & _). destruct (Hi' acc' eq_refl) as (_ & _ & Hm').
  destruct (Hm' a w pk' Hw) as [? Hk]. split; [done|]. exists pk', (signature w). split; [done|].
  by apply Ha' in Hw as (_ & _ & ?).
Qed.

Lemma hs2_exec_ok o s : h2_inv s -> h2_step_ok s (hs2_exec o s).
Proof.
  intros Hi. assert (h2_step_ok s ([], s)) as Hs by (apply h2_step_frame; [done|done|by left|set_solver]).
  destruct o as [now b j|now v pk|sh pk|now r|a pk|c]; simpl.
  - unfold hs2_on_proposal, get_st, throw_if, throw, modify, mbind, M_bind, mret, M_ret.
    destruct (_ <? _); [done|]. set (s1 := if _ <? _ then _ else s).
    assert (h2_le s s1) as Hle by (unfold s1; case_match; done).
    assert (vote_accum s1 = vote_accum s) as Ha by (unfold s1; by case_match).
    set (commits := match prev_qc s with Some _ => _ | None => _ end).
    assert (forall r p qc, ~ Hs2ProposalRequired r p qc ∈ commits) as Hno.
    { intros r p qc. unfold commits. destruct (prev_qc s); [|set_solver]. case_match; set_solver. }
    destruct (voted_at s !! _); [destruct (negb _); apply h2_step_frame; try done; try (by left); set_solver|].
    split; [|split; [done|]].
    + intros acc [= <-]. split; [apply acc_new_ok|]. split; [done|]. simpl. intros a v pk Hl.
      by rewrite lookup_empty in Hl.
    + intros r p qc [Hin|Hin]%elem_of_app; [by destruct (Hno r p qc)|]. apply list_elem_of_singleton in Hin. done.
  - unfold hs2_on_vote, get_st, modify, throw, mbind, M_bind, mret, M_ret.
    case_bool_decide as Hv; cbn [negb]; [|done]. destruct (h2_pubkeys s !! voter v) as [reg|] eqn:Hreg; [|done].
    case_bool_decide as Hk; cbn [negb]; [subst reg|done]. destruct (negb _); [done|].
    destruct (h2_seen s !! _) as [[[ph prev] pk0]|].
    + destruct (negb _); [done|]. by apply hs2_count_ok.
    + exact (hs2_count_ok now v pk (h2_set_seen _ s) Hi Hv Hreg).
  - unfold hs2_on_timeout_share. destruct (add_share sh pk (tc_accum s)) as [[tc|] a']; simpl;
      [|apply h2_step_frame; [done|done|by left|set_solver]].
    destruct (negb _); simpl; [apply h2_step_frame; [done|done|by left|set_solver]|].
    destruct (is_leader _ _); (apply h2_step_frame; [done|done|by right|set_solver]).
  - unfold check_timer, get_st, lift, modify, mbind, M_bind, mret, M_ret.
    destruct (is_expired _ _); [|done].
    destruct (timer_on_timeout _) as [t|e|]; simpl; (apply h2_step_frame; [done|done|by left|set_solver]).
  - destruct (h2_register_same a pk s) as (_ & _ & Ha & E1 & E2 & Hk).
    apply h2_step_frame; [done|done|by left|set_solver].
  - apply h2_step_frame; [done|done|by left|set_solver].
Qed.

(** Every proposal a HotStuff-2 node is asked to build rests on a certificate
    of a quorum of distinct registered validators over its parent, whatever
    was proposed and voted before. *)
Theorem hs2_proposals_certified now_qc validator vs s0 log s r parent qc :
  hs2_new (E:=ConsensusError) now_qc validator vs = Ok s0 -> hs2_trace s0 log s ->
  Hs2ProposalRequired r parent qc ∈ log ->
  certified vs (quorum_of (zlen vs)) (h2_pubkeys s) qc /\
  parent = block_hash (vote_data qc) /\ r = u64 (qc_round qc + 1).
Proof.
  unfold hs2_new. destruct (zlen vs =? 0); [done|]. intros [= Hs0] Ht.
  assert (h2_inv s /\ h2_set s = vs /\ h2_quorum s = quorum_of (zlen vs) /\
    forall r parent qc, Hs2ProposalRequired r parent qc ∈ log ->
      h2_certified s qc /\ parent = block_hash (vote_data qc) /\ r = u64 (qc_round qc + 1)) as (_ & E1 & E2 & Hlog).
  { induction Ht as [|log s o Ht (Hi & E1 & E2 & Hlog) Ho].
    - subst s0. split_and!; [done..|]. set_solver.
    - destruct (hs2_exec_ok o s Hi) as (Hi' & (F1 & F2 & Hk) & Hnew). split_and!; [done|congruence..|].
      intros r' p' q' Hin. assert (h2_certified s q' /\ p' = block_hash (vote_data q') /\ r' = u64 (qc_round q' + 1))
        as (Hc & ? & ?) by (apply elem_of_app in Hin as [?|?]; [by apply Hlog|by apply Hnew]).
      split; [|done]. unfold h2_certified in *. rewrite F1, F2. by eapply certified_mono. }
  intros Hin. destruct (Hlog r parent qc Hin) as (Hc & ? & ?). split; [|done].
  unfold h2_certified in Hc. by rewrite E1, E2 in Hc.
Qed.

(** ** The commit rule *)

(** One message, sent twice, commits a block of its sender's choice: the
    justifying certificate is not verified, the commit compares it with the
    genesis certificate it displaced itself, and the block committed is the
    one being proposed, which nobody has voted for. *)
Theorem hs2_forged_commit validator vs s0 now b q :
  hs2_new (E:=ConsensusError) genesis_qc validator vs = Ok s0 -> qc_round q = 1 ->
  let '(evs1, s1) := hs2_exec (HProposal now b q) s0 in
  (forall b' q', ~ Hs2Committed b' q' ∈ evs1) /\ fst (hs2_exec (HProposal now b q) s1) = [Hs2Committed b q].
Proof.
  unfold hs2_new. destruct (zlen vs =? 0); [done|]. intros [= <-] Hq.
  unfold hs2_exec, hs2_on_proposal, get_st, throw_if, throw, modify, mbind, M_bind, mret, M_ret.
  rewrite Hq. change (u64 (1 + 1)) with 2. cbn -[Z.ltb Z.eqb lookup insert]. rewrite lookup_empty.
  change (0 <? 1) with true. change (1 <? 0) with false. cbn -[Z.ltb Z.eqb lookup insert qc_round].
  split; [set_solver|]. change (u64 (qc_round genesis_qc + 1)) with 1. rewrite Hq.
  change (1 <? 1) with false. cbn -[lookup insert qc_round].
  rewrite lookup_insert_eq, bool_decide_eq_true_2 by done. done.
Qed.

(** ** Timeout certificates *)

Definition share_ok (sh : TimeoutShare) (pk : BlsPubKey) : Prop :=
  verify_single (s_signature sh) pk (signing_hash sh) = true.

Definition tc_inv (a : TcAccumulator) : Prop :=
  forall addr sh pk, shares a !! addr = Some (sh, pk) -> s_validator sh = addr /\ share_ok sh pk.

Lemma tc_inv_new q : tc_inv (tc_acc_new q).
Proof. intros addr sh pk H. simpl in H. by rewrite lookup_empty in H. Qed.

Lemma add_share_cases sh pk a :
  add_share sh pk a = (None, a) \/
  (shares a !! s_validator sh = None /\ share_ok sh pk /\
   let a' := mkTcAcc (<[s_validator sh := (sh, pk)]> (shares a)) (tc_quorum a) in
   add_share sh pk a = (if tc_quorum a <=? Z.of_nat (size (shares a')) then build_tc a' else None, a')).
Proof.
  unfold add_share. destruct (shares a !! s_validator sh) as [x|] eqn:Hl.
  - left. rewrite bool_decide_eq_true_2; [done|]. done.
  - rewrite bool_decide_eq_false_2 by by intros []. unfold share_ok.
    destruct (verify_single _ _ _) eqn:Hv; simpl; [right|by left]. split; [done|]. split; [done|]. by case_match.
Qed.

Lemma add_share_inv sh pk a : tc_inv a ->
  tc_inv (snd (add_share sh pk a)) /\ tc_quorum (snd (add_share sh pk a)) = tc_quorum a.
Proof.
  intros Ha. destruct (add_share_cases sh pk a) as [->|(_ & Hs & ->)]; [done|]. split; [|done].
  intros addr sh' pk' Hl. cbn [snd shares] in Hl. apply lookup_insert_Some in Hl as [[<- [= <- <-]]|[_ Hl]]; [done|by apply Ha].
Qed.

Lemma build_tc_verifies a tc : tc_inv a -> tc_quorum a <= Z.of_nat (size (shares a)) -> build_tc a = Some tc ->
  tc_verify (tc_quorum a) tc = true /\ tc_signers tc = (map_to_list (shares a)).*1 /\
  signer_count tc = zlen (tc_signers tc) /\ NoDup (tc_signers tc).
Proof.
  intros Ha Hq. unfold build_tc. destruct (aggregate_signatures _) as [agg|]; [|done]. intros [= <-].
  cbn [tc_signers signer_count]. unfold tc_verify.
  cbn [tc_signers signer_count signer_hashes tc_signer_pubkeys signer_signatures].
  set (l := map_to_list (shares a)).
  assert (zlen l = Z.of_nat (size (shares a))) as Hlen by (unfold zlen, l; by rewrite length_map_to_list).
  assert (NoDup l.*1) as Hnd by apply NoDup_fst_map_to_list.
  unfold zlen in *. change (@fmap list _) with @map in *. rewrite !length_map. rewrite (proj2 (Z.ltb_ge _ _)) by lia.
  rewrite !Z.eqb_refl, Hlen, Z.eqb_refl. cbn [negb orb]. rewrite bool_decide_eq_true_2 by done. cbn [negb].
  split; [|split_and!; [done|lia|done]]. apply forallb_forall. intros [[sig pk] h] Hin.
  apply list_elem_of_In, list_elem_of_lookup_1 in Hin as [i Hi].
  apply lookup_zip_Some in Hi as [Hi Hh]. apply lookup_zip_Some in Hi as [Hsig Hpk].
  change @map with (@fmap list _) in *. rewrite !list_lookup_fmap in *.
  destruct (l !! i) as [[addr [sh pk0]]|] eqn:Hl; [|done]. simpl in *. injection Hsig as <-.
  injection Hpk as <-. injection Hh as <-.
  apply list_elem_of_lookup_2 in Hl. apply elem_of_map_to_list in Hl. by apply Ha in Hl as [_ ?].
Qed.

Lemma add_share_verifies sh pk a tc : tc_inv a -> fst (add_share sh pk a) = Some tc ->
  tc_verify (tc_quorum a) tc = true /\ NoDup (tc_signers tc) /\ tc_quorum a <= zlen (tc_signers tc) /\
  s_validator sh ∈ tc_signers tc.
Proof.
  intros Ha. pose proof (add_share_inv sh pk a Ha) as [Ha' _]. revert Ha'.
  destruct (add_share_cases sh pk a) as [->|(_ & Hs & ->)]; [done|]. cbn [fst snd].
  set (a' := mkTcAcc _ _). intros Ha'. destruct (Z.leb_spec (tc_quorum a) (Z.of_nat (size (shares a')))) as [Hq|]; [|done].
  intros Htc. destruct (build_tc_verifies a' tc Ha' Hq Htc) as (Hv & Hsg & _ & Hnd). split; [done|].
  split; [done|]. rewrite Hsg. split.
  - unfold zlen. by rewrite length_fmap, length_map_to_list.
  - apply list_elem_of_fmap. exists (s_validator sh, (sh, pk)). split; [done|].
    apply elem_of_map_to_list. unfold a'. simpl. by rewrite lookup_insert_eq.
Qed.

(** Steps that keep or reset the timeout accumulator. *)
Definition tc_kept (s s' : HotStuff2) : Prop :=
  h2_quorum s' = h2_quorum s /\ (tc_accum s' = tc_accum s \/ tc_accum s' = tc_acc_new (h2_quorum s)).

Definition tc_state (s : HotStuff2) : Prop := tc_inv (tc_accum s) /\ tc_quorum (tc_accum s) = h2_quorum s.

Lemma tc_state_kept s s' : tc_state s -> tc_kept s s' -> tc_state s'.
Proof.
  intros [H1 H2] [E [Ha|Ha]]; unfold tc_state; rewrite Ha, E; [done|]. split; [apply tc_inv_new|done].
Qed.

Lemma hs2_on_qc_tc now qc s : tc_kept s (snd (hs2_on_qc now qc s)).
Proof.
  unfold hs2_on_qc, get_st, lift, modify, mbind, M_bind, mret, M_ret.
  destruct (on_quorum_reached now (round_timer s)) as [t|e|]; [|by split; [|left]..].
  match goal with |- context [if ?b then h2_set_qcs _ _ _ else _] => destruct b end;
  match goal with |- context [if is_leader ?st ?r then _ else _] => destruct (is_leader st r) end;
  (split; [done|by right]).
Qed.

Lemma hs2_on_vote_tc now v pk s : tc_kept s (snd (hs2_on_vote now v pk s)).
Proof.
  assert (tc_kept s s) as Hs by (split; [done|by left]).
  assert (forall s0, tc_kept s s0 -> tc_accum s0 = tc_accum s -> tc_kept s (snd (hs2_count now v pk s0))) as Hc.
  { intros s0 [E _] Ha. unfold hs2_count. destruct (vote_accum s0) as [acc|]; [|split; [done|by left]].
    destruct (add_vote v pk acc) as [[[qc|]|e|] acc']; try (split; [done|by left]).
    destruct (hs2_on_qc_tc now qc (h2_set_accum (Some acc') s0)) as [E' Ha']. split; [by rewrite E'|].
    simpl in Ha'. by rewrite Ha, E in Ha'. }
  unfold hs2_on_vote, get_st, modify, throw, mbind, M_bind, mret, M_ret.
  destruct (negb _); [done|]. destruct (h2_pubkeys s !! voter v); [|done].
  destruct (negb _); [done|]. destruct (negb _); [done|].
  destruct (h2_seen s !! _) as [[[ph prev] pk0]|]; [destruct (negb _); [done|]|]; by apply Hc.
Qed.

Lemma hs2_on_proposal_tc now b j s : tc_kept s (snd (hs2_on_proposal now b j s)).
Proof.
  unfold hs2_on_proposal, get_st, throw_if, throw, modify, mbind, M_bind, mret, M_ret.
  destruct (_ <? _); [by split; [|left]|].
  match goal with |- context [if ?b then h2_set_qcs _ _ _ else _] => destruct b end;
    (destruct (voted_at s !! _); [destruct (negb _)|]; (split; [done|by left])).
Qed.

Lemma check_timer_tc now r s : tc_kept s (snd (check_timer now r s)).
Proof.
  unfold check_timer, get_st, lift, modify, mbind, M_bind, mret, M_ret.
  destruct (is_expired _ _); [destruct (timer_on_timeout _)|]; (split; [done|by left]).
Qed.

Lemma h2_register_tc a pk s : tc_kept s (h2_register a pk s).
Proof. unfold h2_register. repeat case_match; (split; [done|by left]). Qed.

Lemma hs2_share_tc sh pk s : tc_state s ->
  tc_state (snd (hs2_on_timeout_share sh pk s)) /\
  h2_quorum (snd (hs2_on_timeout_share sh pk s)) = h2_quorum s /\
  fst (hs2_on_timeout_share sh pk s) <> Err InvalidTimeoutCertificate /\
  forall evs r tc, fst (hs2_on_timeout_share sh pk s) = Ok evs -> NewLeaderPropose r tc ∈ evs ->
    tc_verify (h2_quorum s) tc = true /\ NoDup (tc_signers tc) /\ h2_quorum s <= zlen (tc_signers tc).
Proof.
  intros [Hi Hq]. unfold hs2_on_timeout_share.
  destruct (add_share_inv sh pk _ Hi) as [Hi' Hq']. pose proof (add_share_verifies sh pk (tc_accum s)) as Hv.
  destruct (add_share sh pk (tc_accum s)) as [[tc|] a']; cbn [fst snd] in *.
  - destruct (Hv tc Hi eq_refl) as (V1 & V2 & V3 & _). rewrite Hq in V1, V3. cbn [h2_quorum h2_set_tc]. rewrite V1.
    cbn [negb fst snd]. split; [split; [done|simpl; congruence]|]. split; [done|]. split; [done|].
    intros evs r tc' [= <-]. destruct (is_leader _ _); [|set_solver].
    intros Hin. apply list_elem_of_singleton in Hin. by injection Hin as -> ->.
  - split; [split; [done|simpl; congruence]|]. split_and!; [done..|]. intros evs r tc [= <-]. set_solver.
Qed.

(** Only a timeout share makes a node propose as the new leader. *)
Definition no_lead (r : res ConsensusError (list (Hs2Event Body))) : Prop :=
  forall evs r0 tc, r = Ok evs -> ~ NewLeaderPropose r0 tc ∈ evs.

Lemma hs2_on_proposal_lead now b j s : no_lead (fst (hs2_on_proposal now b j s)).
Proof.
  intros evs r tc. unfold hs2_on_proposal, get_st, throw_if, throw, modify, mbind, M_bind, mret, M_ret.
  destruct (_ <? _); [done|]. destruct (voted_at s !! _); [destruct (negb _)|]; simpl; intros He; try done;
    injection He as <-; destruct (prev_qc s); try case_match; set_solver.
Qed.

Lemma hs2_count_lead now v pk s : no_lead (fst (hs2_count now v pk s)).
Proof.
  intros evs r tc. unfold hs2_count. destruct (vote_accum s); [|intros [= <-]; set_solver].
  destruct (add_vote v pk _) as [[[qc|]|e|] acc']; simpl; try (intros [= <-]; set_solver).
  unfold hs2_on_qc, get_st, lift, modify, mbind, M_bind, mret, M_ret.
  destruct (on_quorum_reached _ _); [|done..].
  match goal with |- context [if is_leader ?st ?r then _ else _] => destruct (is_leader st r) end;
    intros [= <-]; set_solver.
Qed.

Lemma hs2_on_vote_lead now v pk s : no_lead (fst (hs2_on_vote now v pk s)).
Proof.
  assert (no_lead (Ok [])) as H0 by (intros evs r tc [= <-]; set_solver).
  unfold hs2_on_vote, get_st, modify, throw, mbind, M_bind, mret, M_ret.
  destruct (negb _); [done|]. destruct (h2_pubkeys s !! voter v); [|done].
  destruct (negb _); [done|]. destruct (negb _); [done|].
  destruct (h2_seen s !! _) as [[[ph prev] pk0]|]; [destruct (negb _); [done|]|]; apply hs2_count_lead.
Qed.

Lemma check_timer_lead now r s e r0 tc : fst (check_timer now r s) = Ok e ->
  ~ NewLeaderPropose r0 tc ∈ option_list e.
Proof.
  unfold check_timer, get_st, lift, modify, mbind, M_bind, mret, M_ret.
  destruct (is_expired _ _); [destruct (timer_on_timeout _)|]; intros He; try done; injection He as <-; set_solver.
Qed.

Definition leads_ok (q : Z) (evs : list (Hs2Event Body)) : Prop :=
  forall r tc, NewLeaderPropose r tc ∈ evs ->
    tc_verify q tc = true /\ NoDup (tc_signers tc) /\ q <= zlen (tc_signers tc).

Lemma hs2_exec_tc o s : tc_state s ->
  tc_state (snd (hs2_exec o s)) /\ h2_quorum (snd (hs2_exec o s)) = h2_quorum s /\
  leads_ok (h2_quorum s) (fst (hs2_exec o s)).
Proof.
  intros Hs. assert (forall s' evs, tc_kept s s' -> (forall r tc, ~ NewLeaderPropose r tc ∈ evs) ->
    tc_state s' /\ h2_quorum s' = h2_quorum s /\ leads_ok (h2_quorum s) evs) as Hk.
  { intros s' evs Hkept Hno. split; [by eapply tc_state_kept|]. split; [apply Hkept|].
    intros r tc Hin. by destruct (Hno r tc). }
  destruct o as [now b j|now v pk|sh pk|now r|a pk|c]; simpl.
  - pose proof (hs2_on_proposal_tc now b j s) as Ht. pose proof (hs2_on_proposal_lead now b j s) as Hl.
    destruct (hs2_on_proposal now b j s) as [[evs|e|] s']; apply Hk; try done; [|set_solver..].
    intros r tc. by apply Hl.
  - pose proof (hs2_on_vote_tc now v pk s) as Ht. pose proof (hs2_on_vote_lead now v pk s) as Hl.
    destruct (hs2_on_vote now v pk s) as [[evs|e|] s']; apply Hk; try done; [|set_solver..].
    intros r tc. by apply Hl.
  - destruct (hs2_share_tc sh pk s Hs) as (H1 & H2 & _ & H3).
    destruct (hs2_on_timeout_share sh pk s) as [[evs|e|] s']; cbn [fst snd] in *; split_and!; try done.
    + intros r tc. by apply H3.
    + intros r tc Hin. by apply elem_of_nil in Hin.
    + intros r tc Hin. by apply elem_of_nil in Hin.
  - pose proof (check_timer_tc now r s) as Ht.
    pose proof (fun e r0 tc => check_timer_lead now r s e r0 tc) as Hl.
    destruct (check_timer now r s) as [[e|e|] s']; apply Hk; try done; [|set_solver..].
    intros r0 tc. by apply Hl.
  - apply (Hk (h2_register a pk s) []); [apply h2_register_tc|set_solver].
  - apply (Hk (prune_voted_below c s) []); [split; [done|by left]|set_solver].
Qed.

(** The second check of [on_timeout_share] never fires: any timeout
    certificate a node assembles verifies, so [InvalidTimeoutCertificate] is
    unreachable, and the certificates it acts on as a leader carry a quorum of
    distinct signers. *)
Theorem tc_assembled_verifies qc validator vs s0 log s :
  hs2_new (E:=ConsensusError) qc validator vs = Ok s0 -> hs2_trace s0 log s ->
  (forall sh pk, fst (hs2_on_timeout_share sh pk s) <> Err InvalidTimeoutCertificate) /\
  leads_ok (quorum_of (zlen vs)) log.
Proof.
  unfold hs2_new. destruct (zlen vs =? 0); [done|]. intros [= Hs0] Ht.
  assert (tc_state s /\ h2_quorum s = quorum_of (zlen vs) /\ leads_ok (quorum_of (zlen vs)) log) as (Hs & _ & Hlog).
  { induction Ht as [|log s o Ht (Hi & E & Hlog) Ho].
    - subst s0. split; [split; [apply tc_inv_new|done]|]. split; [done|]. intros r tc Hin. by apply elem_of_nil in Hin.
    - destruct (hs2_exec_tc o s Hi) as (Hi' & E' & Hnew). split_and!; [done|congruence|].
      rewrite E in Hnew. intros r tc [?|?]%elem_of_app; [by eapply Hlog|by eapply Hnew]. }
  split; [|done]. intros sh pk. by destruct (hs2_share_tc sh pk s Hs) as (_ & _ & ? & _).
Qed.

(** [verify] accepts one share repeated: it compares neither the number of
    signers with the number of signatures nor the hashes with the round, so
    anyone holding one signed share of any round has a certificate of any
    size for every round. *)
Theorem tc_verify_replicated sh pk q r hq agg : 0 <= q -> share_ok sh pk ->
  tc_verify q (mkTC r hq agg (replicate (Z.to_nat q) (signing_hash sh)) (replicate (Z.to_nat q) pk) [] q
                 (replicate (Z.to_nat q) (s_signature sh))) = true.
Proof.
  intros Hq Hs. unfold tc_verify.
  cbn [tc_signers signer_count signer_hashes tc_signer_pubkeys signer_signatures].
  unfold zlen. rewrite !length_replicate, Z2Nat.id, Z.ltb_irrefl, !Z.eqb_refl by done.
  cbn [negb orb]. rewrite bool_decide_eq_true_2 by constructor. cbn [negb].
  apply forallb_forall. intros [[sig pk'] h] Hin. apply list_elem_of_In, list_elem_of_lookup_1 in Hin as [i Hi].
  apply lookup_zip_Some in Hi as [Hi Hh]. apply lookup_zip_Some in Hi as [Hsig Hpk].
  apply lookup_replicate in Hsig as [-> _], Hpk as [-> _], Hh as [-> _]. exact Hs.
Qed.

Definition add_shares (l : list (TimeoutShare * BlsPubKey)) (a : TcAccumulator) : TcAccumulator :=
  fold_left (fun a x => snd (add_share (fst x) (snd x) a)) l a.

Lemma add_shares_all l : forall a, NoDup (map (fun x => s_validator (fst x)) l) ->
  (forall x, x ∈ l -> share_ok (fst x) (snd x) /\ shares a !! s_validator (fst x) = None) ->
  Z.of_nat (size (shares (add_shares l a))) = Z.of_nat (size (shares a)) + zlen l /\
  tc_quorum (add_shares l a) = tc_quorum a /\
  (forall addr, shares a !! addr = None -> addr ∉ map (fun x => s_validator (fst x)) l ->
     shares (add_shares l a) !! addr = None).
Proof.
  induction l as [|[sh pk] l IH]; intros a Hnd Hl; simpl; [unfold zlen; simpl; split_and!; [lia|done..]|].
  simpl in Hnd. apply list.NoDup_cons in Hnd as [Hx Hnd].
  destruct (Hl (sh, pk)) as [Hs Hn]; [by left|]. simpl in Hs, Hn.
  set (a' := mkTcAcc (<[s_validator sh := (sh, pk)]> (shares a)) (tc_quorum a)).
  assert (snd (add_share sh pk a) = a') as ->.
  { unfold add_share, share_ok in *. rewrite bool_decide_eq_false_2 by (rewrite Hn; by intros []).
    rewrite Hs. simpl. by case_match. }
  destruct (IH a' Hnd) as (H1 & H2 & H3).
  { intros [sh' pk'] Hin. destruct (Hl (sh', pk')) as [? ?]; [by right|]. split; [done|]. simpl in *.
    rewrite lookup_insert_ne; [done|]. intros Heq. apply Hx. rewrite Heq. change map with (@fmap list _).
    apply list_elem_of_fmap. by exists (sh', pk'). }
  rewrite H1, H2. split_and!; [|done|].
  - unfold a'. simpl. rewrite map_size_insert_None by done. rewrite zlen_cons. lia.
  - intros addr Ha [Hne Hni]%not_elem_of_cons. apply H3; [|done]. unfold a'. simpl.
    by rewrite lookup_insert_ne.
Qed.

(** A quorum of validly signed shares of distinct validators makes a
    certificate that verifies, whatever rounds the shares are for: shares of
    different rounds are counted together, and the certificate takes the
    round of one of them. *)
Theorem tc_mixes_rounds l sh pk q : (forall sigs, is_Some (aggregate_signatures sigs)) ->
  NoDup (map (fun x => s_validator (fst x)) (l ++ [(sh, pk)])) ->
  (forall x, x ∈ l ++ [(sh, pk)] -> share_ok (fst x) (snd x)) -> q = zlen (l ++ [(sh, pk)]) ->
  exists tc, fst (add_share sh pk (add_shares l (tc_acc_new q))) = Some tc /\ tc_verify q tc = true.
Proof.
  intros Hagg Hnd Hok Hq. rewrite map_app in Hnd. apply list.NoDup_app in Hnd as (Hnd & Hdis & _).
  destruct (add_shares_all l (tc_acc_new q) Hnd) as (Hsize & Hqq & Hnone).
  { intros x Hx. split; [apply Hok, elem_of_app; by left|]. apply lookup_empty. }
  assert (tc_inv (add_shares l (tc_acc_new q))) as Hinv.
  { assert (forall a, tc_inv a -> tc_inv (add_shares l a)) as Hi; [|apply Hi, tc_inv_new]. clear.
    induction l as [|x l IH]; intros a Ha; [done|]. apply IH. by apply add_share_inv. }
  set (a := add_shares l (tc_acc_new q)) in *. simpl in Hqq, Hsize.
  assert (shares a !! s_validator sh = None) as Hn.
  { apply Hnone; [apply lookup_empty|]. intros Hin. apply (Hdis _ Hin). simpl. by left. }
  assert (share_ok sh pk) as Hs by (apply (Hok (sh, pk)), elem_of_app; right; by left).
  set (a' := mkTcAcc (<[s_validator sh := (sh, pk)]> (shares a)) (tc_quorum a)).
  assert (fst (add_share sh pk a) = build_tc a') as Hadd.
  { unfold add_share. unfold share_ok in Hs. rewrite bool_decide_eq_false_2 by (rewrite Hn; by intros []).
    rewrite Hs. cbn [negb shares tc_quorum]. rewrite map_size_insert_None, Hqq by done.
    rewrite (proj2 (Z.leb_le _ _)); [done|]. rewrite Hq, zlen_app, zlen_cons, zlen_nil.
    rewrite Nat2Z.inj_succ, Hsize, map_size_empty. lia. }
  assert (exists tc, build_tc a' = Some tc) as [tc Htc].
  { unfold build_tc. destruct (Hagg (map (fun e => s_signature (fst e)) (map_to_list (shares a')).*2)) as [agg ->].
    by eexists. }
  exists tc. rewrite Hadd. split; [done|]. rewrite <-Hadd in Htc.
  destruct (add_share_verifies sh pk a tc Hinv Htc) as (Hv & _). by rewrite Hqq in Hv.
Qed.

(** ** Leaders *)

Definition as_validator (v : Address) (s : HotStuff2) : HotStuff2 :=
  mkHs2 (h2_phase s) (h2_highest s) (prev_qc s) (round_timer s) (vote_accum s) (tc_accum s) v
    (h2_set s) (h2_quorum s) (current_epoch s) (voted_at s) (h2_seen s) (h2_pubkeys s).

(** Nodes with the same highest certificate and the same validators agree on
    a single leader of each round, and it is one of the validators. *)
Theorem leader_unique s round : h2_set s <> [] ->
  exists v, v ∈ h2_set s /\ forall w, is_leader (as_validator w s) round = true <-> w = v.
Proof.
  intros Hne. unfold is_leader, as_validator. cbn.
  assert (0 < zlen (h2_set s)) as Hpos by (unfold zlen; destruct (h2_set s); [done|simpl; lia]).
  rewrite (proj2 (Z.eqb_neq _ _)) by lia.
  set (idx := _ mod zlen (h2_set s)). assert (0 <= idx < zlen (h2_set s)) as Hi by (apply Z.mod_pos_bound; lia).
  destruct (lookup_lt_is_Some_2 (h2_set s) (Z.to_nat idx)) as [v Hv]; [unfold zlen in Hi; lia|].
  exists v. split; [by eapply list_elem_of_lookup_2|]. intros w. rewrite bool_decide_eq_true, Hv. naive_solver.
Qed.
End hotstuff2.

(** ** The adaptive timer *)

Inductive timer_op : Type := TStart (now : Z) | TQuorum (now : Z) | TTimeout.

Definition timer_step {E} (o : timer_op) (t : AdaptiveTimer) : res E AdaptiveTimer :=
  match o with
  | TStart now => Ok (timer_start now t)
  | TQuorum now => on_quorum_reached now t
  | TTimeout => timer_on_timeout t
  end.

Fixpoint timer_run {E} (ops : list timer_op) (t : AdaptiveTimer) : res E AdaptiveTimer :=
  match ops with [] => Ok t | o :: ops => t' ← timer_step o t; timer_run ops t' end.

(** The clock reads between the epoch and 2^62 seconds. *)
Definition clock_ok (o : timer_op) : Prop :=
  match o with TStart now | TQuorum now => 0 <= now < from_secs (2 ^ 62) | TTimeout => True end.

Definition timer_inv (t : AdaptiveTimer) : Prop :=
  DELTA_MIN <= current_delta t <= DELTA_MAX /\ (forall s, start_time t = Some s -> 0 <= s).

Lemma timer_step_inv {E} o t : clock_ok o -> timer_inv t ->
  exists t', @timer_step E o t = Ok t' /\ timer_inv t' /\
    (o = TTimeout -> current_delta t <= current_delta t').
Proof.
  assert (from_secs (2 ^ 64) = 18446744073709551616000000000) as E1 by done.
  assert (from_secs (2 ^ 62) = 4611686018427387904000000000) as E2 by done.
  assert (DELTA_MAX = 30000000000) as E3 by done. assert (DELTA_MIN = 500000000) as E4 by done.
  intros Ho [Hd Hst]. destruct o as [now|now|]; simpl in Ho |- *.
  - eexists. split; [done|]. split; [|done]. split; [done|]. simpl. intros s [= <-]. lia.
  - unfold on_quorum_reached. destruct (start_time t) as [s|] eqn:Hs.
    + specialize (Hst s eq_refl). unfold duration_mul.
      rewrite !(proj2 (Z.ltb_lt _ _)) by lia. eexists. split; [done|]. split; [|done]. split; [simpl; lia|done].
    + eexists. split; [done|]. split; [|done]. by split.
  - unfold timer_on_timeout, duration_mul. rewrite (proj2 (Z.ltb_lt _ _)) by lia. simpl.
    pose proof (Z.div_le_lower_bound (current_delta t * 3) 2 (current_delta t) ltac:(lia) ltac:(lia)).
    eexists. split; [done|]. split; [split; [simpl; lia|done]|]. simpl. lia.
Qed.

(** Whatever the sequence of rounds, quorums and timeouts, the timer never
    panics and its delay stays between half a second and thirty seconds; a
    timeout never shortens it. *)
Theorem timer_bounded {E} ops : Forall clock_ok ops ->
  exists t, @timer_run E ops timer_new = Ok t /\ DELTA_MIN <= current_delta t <= DELTA_MAX /\
    (forall t', @timer_step E TTimeout t = Ok t' -> current_delta t <= current_delta t').
Proof.
  intros Ho. assert (forall t, timer_inv t -> exists t', @timer_run E ops t = Ok t' /\ timer_inv t') as Hr.
  { induction Ho as [|o ops Hc Ho IH]; intros t Ht; [by exists t|]. simpl.
    destruct (@timer_step_inv E o t Hc Ht) as (t1 & -> & Ht1 & _). by apply IH. }
  destruct (Hr timer_new) as (t & Hrun & Ht); [by split|]. exists t. split; [done|]. split; [apply Ht|].
  intros t' Hs. destruct (@timer_step_inv E TTimeout t I Ht) as (t1 & Hs' & _ & Hle).
  rewrite Hs in Hs'. injection Hs' as <-. by apply Hle.
Qed.
