(* ===== verification/ConsensusExample.v ===== *)
(** * Concrete runs of the consensus components

    A toy instance of [Crypto] (a signature is the key followed by the
    message, a hash is a checksum) and small executions, on which the
    theorems of the consensus files are applied. *)

From Stdlib Require Import ZArith Lia.
From stdpp Require Import base tactics list gmap sets numbers option.
From S2P Require Import Prelude Bytes Crypto Vote SafetyRules Pacemaker Block HotStuff HotStuff2.

Local Open Scope Z_scope.

#[export] Instance toy_crypto : Crypto := {|
  keccak256 b := [fold_left (fun h x => (31 * h + x) mod 2 ^ 32) b 7];
  verify_single sig pk m := bool_decide (sig = pk ++ m);
  verify_aggregate sig pks m := bool_decide (sig = concat (map (fun pk => pk ++ m) pks));
  aggregate_signatures sigs := Some (concat sigs);
  bls_sign k m := k ++ m;
  to_pubkey k := k
|}.

(** ** Votes of one validator *)

Definition parent_of (n : Z) : QuorumCertificate := mkQC (mkVoteData [n] n 0 1) [] [] [].
Definition vd (h n p : Z) : VoteData := mkVoteData [h] n p 1.

Definition ops : list sr_op :=
  [OVote true (vd 10 1 0) (parent_of 0); OVote true (vd 10 1 1) (parent_of 0); OCrash;
   OVote true (vd 11 1 1) (parent_of 0); OLock (parent_of 1); OVote true (vd 12 2 0) (parent_of 1)].

(** The vote for another block in the same round and phase, after the
    restart, is refused; the other three are cast. *)
Lemma safety_no_double_vote_witness :
  vote_order (fst (sr_run ops (new_with_persist [1] [2] None))) /\
  map data (fst (sr_run ops (new_with_persist [1] [2] None))) = [vd 10 1 0; vd 10 1 1; vd 12 2 0].
Proof.
  split.
  - apply safety_no_double_vote. repeat constructor.
  - vm_compute. reflexivity.
Defined.

Lemma lock_lost_on_crash_witness :
  let locked := snd (sr_run [OLock (parent_of 5)] (new_with_persist [1] [2] None)) in
  fst (vote true (vd 10 6 0) (parent_of 3) locked) = Err (SafetyViolation 3 5) /\
  is_ok (fst (vote true (vd 10 6 0) (parent_of 3) (snd (sr_step OCrash locked)))) = true.
Proof. apply (lock_lost_on_crash [1] [2] (parent_of 5) (parent_of 3) (vd 10 6 0)); simpl; lia. Defined.

Lemma epoch_advance_slashable_witness :
  exists v1 v2,
    fst (sr_run [OEpoch 1; OVote true (mkVoteData [10] 4 0 1) (parent_of 3);
                 OEpoch 2; OVote true (mkVoteData [11] 4 0 2) (parent_of 3)]
           (new_with_persist [1] [2] None)) = [v1; v2] /\
    evidence_verify (mkEvidence [2] 4 0 v1 v2 (to_pubkey [1])) = true.
Proof.
  apply (epoch_advance_slashable [1] [2] [10] [11] 4 (parent_of 3)); [|discriminate|simpl; lia..].
  intros d. apply bool_decide_eq_true_2. reflexivity.
Defined.

(** ** Headers *)

Definition base_header (n gl gu ts base : Z) (parent : Hash) : BlockHeader :=
  mkHeader parent [] [1] [] [] [] [] 0 n gl gu ts [] [] 0 base [] 1 None.

Definition hdr1 : BlockHeader := base_header 1 30000000 30000000 100 1000 [].
Definition hdr2 : BlockHeader := base_header 2 30000000 15000000 101 1125 (header_hash hdr1).

Lemma base_fee_step_witness :
  1000 - 1000 / 8 <= 1125 <= 1000 + 1000 / 8.
Proof.
  refine (proj1 (@base_fee_step HeaderError 1000 30000000 30000000 1125 _ _ _)).
  - unfold fee_input_ok, in_range. lia.
  - vm_compute. reflexivity.
  - vm_compute. reflexivity.
Defined.

(** Three quarters full: the documented formula gives at most 6.25%. *)
Lemma base_fee_not_scaled_witness :
  @compute_eip1559_base_fee HeaderError 1000 (15000000 + 7500000) (2 * 15000000) = Ok (1000 + 1000 / 8) /\
  1000 + 1000 * 7500000 / 15000000 / 8 <= 1000 + 1000 / 16.
Proof. apply base_fee_not_scaled; vm_compute; first [reflexivity | discriminate]. Defined.

Lemma validated_header_witness :
  validate_against_parent hdr2 hdr1 = Ok tt /\ gas_used hdr2 <= gas_limit hdr2 <= BLOCK_GAS_LIMIT.
Proof.
  assert (validate_against_parent hdr2 hdr1 = Ok tt) as Hv by (vm_compute; reflexivity).
  split; [exact Hv|]. apply (validated_header hdr2 hdr1); [|exact Hv].
  unfold in_range. simpl. lia.
Defined.

Definition tiny : BlockHeader := base_header 1 1 1 100 1000 [].

Lemma gas_limit_one_panics_witness :
  validate_against_parent (base_header 2 30000000 0 101 1000 (header_hash tiny)) tiny = Panic.
Proof.
  apply gas_limit_one_panics;
    first [reflexivity | vm_compute; reflexivity | unfold BLOCK_GAS_LIMIT, zlen; simpl; lia].
Defined.

(** ** A validator set of one, and of four *)

Definition mk_block (n tag : Z) : Block unit :=
  mkBlock _ (mkHeader [] [] [1] [] [] [] [] 0 n 30000000 0 tag [] [] 0 0 [] 1 None) tt.
Definition genesis : QuorumCertificate := mkQC (mkVoteData zero_hash 0 0 0) zero_sig [] [].
Definition node (vs : list Address) : HotStuffConsensus unit :=
  hs_new 0 [1] (sr_new [9] [1]) (mkVSet vs (quorum_of (zlen vs)) zero_hash).
Definition signed (a k : list Z) (d : VoteData) : Vote := mkVote d a (bls_sign k (msg_of d)).
Definition commit_vote (b : Block unit) (a k : list Z) : hs_op (Body:=unit) :=
  MVote 0 true (signed a k (mkVoteData (b_hash b) (b_number b) Commit 1)) k.

Lemma run_star {CR : Crypto} {Body} (os : list (hs_op (Body:=Body))) (s : HotStuffConsensus Body) :
  star hs_next s (fold_left (fun s o => snd (hs_exec o s)) os s).
Proof.
  assert (forall s0, star hs_next s0 s -> star hs_next s0 (fold_left (fun s o => snd (hs_exec o s)) os s)) as Hs.
  { revert s. induction os as [|o os IH]; intros s s0 H; [exact H|]. simpl. apply IH.
    eapply star_snoc; [exact H|]. exists o. reflexivity. }
  apply Hs, star_refl.
Qed.

Definition prefix_ops (b : Block unit) : list (hs_op (Body:=unit)) := [MRegister [1] [9]; MProposal true b genesis].
Definition after (b : Block unit) : HotStuffConsensus unit :=
  fold_left (fun s o => snd (hs_exec o s)) (prefix_ops b) (node [[1]]).
Definition the_qc (b : Block unit) : QuorumCertificate :=
  mkQC (mkVoteData (b_hash b) (b_number b) Commit 1) ([9] ++ msg_of (mkVoteData (b_hash b) (b_number b) Commit 1))
    [[1]] [[9]].

(** The single validator signs Commit votes for two blocks at height 1. *)
Lemma conflicting_commits_accountable_witness :
  exists guilty, NoDup guilty /\ zlen [[1]] < 3 * zlen guilty /\
    forall a, a ∈ guilty -> a ∈ [[1]] /\ exists e,
      ev_validator e = a /\ validator_pubkeys (after (mk_block 1 7)) !! a = Some (ev_pubkey e) /\
      evidence_verify e = true.
Proof.
  eapply (conflicting_commits_accountable [[1]] (after (mk_block 1 7)) (after (mk_block 1 8))
    (commit_vote (mk_block 1 7) [1] [9]) (commit_vote (mk_block 1 8) [1] [9])
    (mk_block 1 7) (the_qc (mk_block 1 7)) (mk_block 1 8) (the_qc (mk_block 1 8))).
  - apply (run_star (prefix_ops (mk_block 1 7)) (node [[1]])).
  - apply (run_star (prefix_ops (mk_block 1 8)) (node [[1]])).
  - intros a pk1 pk2 H1 H2. change (validator_pubkeys (after (mk_block 1 7))) with ({[ [1] := [9] ]} : gmap Address BlsPubKey) in H1.
    change (validator_pubkeys (after (mk_block 1 8))) with ({[ [1] := [9] ]} : gmap Address BlsPubKey) in H2.
    apply lookup_singleton_Some in H1 as [_ <-]. apply lookup_singleton_Some in H2 as [_ <-]. reflexivity.
  - replace (fst _) with [Committed (mk_block 1 7) (the_qc (mk_block 1 7))]; [apply list_elem_of_singleton; reflexivity|].
    vm_compute. reflexivity.
  - replace (fst _) with [Committed (mk_block 1 8) (the_qc (mk_block 1 8))]; [apply list_elem_of_singleton; reflexivity|].
    vm_compute. reflexivity.
  - vm_compute. reflexivity.
  - vm_compute. discriminate.
Defined.

(** Four validators; the fourth is first with a Prepare vote for a block that
    does not exist. *)
Definition four : list Address := [[1]; [2]; [3]; [4]].
Definition bogus : VoteData := mkVoteData [99] 1 Prepare 1.
Definition captured : HotStuffConsensus unit :=
  fold_left (fun s o => snd (hs_exec o s))
    (map (fun a => MRegister a (8 :: a)) four ++ [MVote 0 true (signed [4] [8; 4] bogus) [8; 4]]) (node four).
Definition honest (a : Address) : hs_op (Body:=unit) :=
  MVote 0 true (signed a (8 :: a) (mkVoteData (b_hash (mk_block 1 7)) 1 Prepare 1)) (8 :: a).

Lemma vote_accumulator_captured_witness :
  fst (hs_exec (honest [3]) (fold_left (fun s o => snd (hs_exec o s)) [honest [1]; honest [2]] captured)) = [] /\
  fst (hs_run [honest [1]; honest [2]; honest [3]] captured) = [] /\
  fst (hs_run [honest [1]; honest [2]; honest [3]]
    (fold_left (fun s o => snd (hs_exec o s)) (map (fun a => MRegister a (8 :: a)) four) (node four))) <> [].
Proof.
  split; [|split; [vm_compute; reflexivity|vm_compute; discriminate]].
  refine (proj1 (proj2 (vote_accumulator_captured captured _ bogus _ (run_star [honest [1]; honest [2]] captured))
    0 true (signed [3] [8; 3] (mkVoteData (b_hash (mk_block 1 7)) 1 Prepare 1)) [8; 3] _ _ _)).
  - exists (mkAcc bogus {[ [4] := (signed [4] [8; 4] bogus, [8; 4]) ]} 3). split; vm_compute; reflexivity.
  - reflexivity.
  - reflexivity.
  - vm_compute. discriminate.
Defined.

(** Capacity two, three blocks: the first is evicted. *)
Definition three : list (Block unit) := [mk_block 1 7; mk_block 2 7; mk_block 1 7; mk_block 3 7].

Lemma store_fifo_witness :
  store_get (b_hash (mk_block 1 7)) (fold_left (fun s b => store_add b s) three (store_new 2)) = None /\
  store_len (fold_left (fun s b => store_add b s) three (store_new 2)) <= 2.
Proof.
  split; [vm_compute; reflexivity|]. apply (store_fifo three 2). reflexivity.
Defined.

Lemma store_remove_breaks_capacity_witness :
  store_len (store_add (mk_block 4 7) (store_add (mk_block 3 7) (store_add (mk_block 2 7)
    (snd (store_remove (b_hash (mk_block 1 7)) (store_add (mk_block 1 7) (store_new 2))))))) = 3.
Proof.
  refine (proj2 (store_remove_breaks_capacity (mk_block 1 7) (mk_block 2 7) (mk_block 3 7) (mk_block 4 7) _)).
  apply (bool_decide_eq_true_1 (NoDup _)). vm_compute. reflexivity.
Defined.

(** ** HotStuff-2 *)

Definition hs2_node : HotStuff2 :=
  mkHs2 (WaitingProposal 1) genesis_qc None timer_new None (tc_acc_new 1) [1] [[1]] 1 0 ∅ ∅ ∅.
Lemma hs2_node_new : hs2_new (E:=ConsensusError) genesis_qc [1] [[1]] = Ok hs2_node.
Proof. reflexivity. Qed.

Definition qc_at (n : Z) : QuorumCertificate := mkQC (mkVoteData [n] n 0 0) [] [] [].
Abbreviation op2 := (hs2_op (Body:=unit)).
Definition next2 (s : HotStuff2) (o : op2) : HotStuff2 := snd (hs2_exec o s).

(** Two proposals, each asking for a vote. *)
Definition p1 : op2 := HProposal 0 (mk_block 1 7) genesis_qc.
Definition p2 : op2 := HProposal 1 (mk_block 2 7) (qc_at 1).

Lemma two_proposals_trace :
  hs2_trace hs2_node ([] ++ fst (hs2_exec p1 hs2_node) ++ fst (hs2_exec p2 (next2 hs2_node p1)))
    (next2 (next2 hs2_node p1) p2).
Proof.
  rewrite app_assoc. apply trace_snoc; [apply trace_snoc; [apply trace_nil|]|];
    split; vm_compute; first [discriminate | reflexivity].
Qed.

Lemma hs2_no_double_vote_witness :
  let log := [] ++ fst (hs2_exec p1 hs2_node) ++ fst (hs2_exec p2 (next2 hs2_node p1)) in
  exists d1 d2, log !! 0%nat = Some (VoteRequest d1) /\ log !! 1%nat = Some (VoteRequest d2) /\
    block_number d1 <> block_number d2.
Proof.
  eexists _, _. split; [vm_compute; reflexivity|]. split; [vm_compute; reflexivity|].
  eapply (hs2_no_double_vote _ _ _ 0 1 _ _ two_proposals_trace); [lia|vm_compute; reflexivity..].
Defined.

(** The single validator proposes, votes and is asked for the next block. *)
Definition v1_of (b : Block unit) : op2 := HVote 5 (signed [1] [9] (mkVoteData (b_hash b) 1 0 0)) [9].
Definition s_reg : HotStuff2 := next2 hs2_node (HRegister [1] [9]).
Definition s_prop : HotStuff2 := next2 s_reg p1.

Lemma hs2_proposals_certified_witness :
  exists qc, certified [[1]] (quorum_of (zlen [[1]])) (h2_pubkeys (next2 s_prop (v1_of (mk_block 1 7)))) qc /\
    block_hash (vote_data qc) = b_hash (mk_block 1 7).
Proof.
  assert (hs2_trace hs2_node ((([] ++ fst (hs2_exec (HRegister [1] [9] : op2) hs2_node)) ++ fst (hs2_exec p1 s_reg)) ++
    fst (hs2_exec (v1_of (mk_block 1 7)) s_prop)) (next2 s_prop (v1_of (mk_block 1 7)))) as Ht.
  { apply trace_snoc; [apply trace_snoc; [apply trace_snoc; [apply trace_nil|]|]|]; try exact I.
    split; vm_compute; first [discriminate | reflexivity]. }
  eexists (mkQC (mkVoteData (b_hash (mk_block 1 7)) 1 0 0) _ _ _). split; [|reflexivity].
  eapply (proj1 (hs2_proposals_certified genesis_qc [1] [[1]] hs2_node _ _ 2 _ _ hs2_node_new Ht _)).
  Unshelve. all: cycle -1.
  { apply elem_of_app. right.
    replace (fst (hs2_exec (v1_of (mk_block 1 7)) s_prop)) with
      [Hs2ProposalRequired 2 (b_hash (mk_block 1 7)) (mkQC (mkVoteData (b_hash (mk_block 1 7)) 1 0 0)
        ([9] ++ msg_of (mkVoteData (b_hash (mk_block 1 7)) 1 0 0)) [[1]] [[9]]) : Hs2Event unit].
    - apply list_elem_of_singleton. reflexivity.
    - vm_compute. reflexivity. }
Defined.

(** A certificate that nobody signed: its aggregate does not even verify. *)
Definition forged : QuorumCertificate := mkQC (mkVoteData [66] 1 0 0) [0] [[1]] [[9]].

Lemma hs2_forged_commit_witness :
  qc_verify forged = false /\
  fst (hs2_exec (HProposal 0 (mk_block 1 7) forged) (next2 hs2_node (HProposal 0 (mk_block 1 7) forged))) =
    [Hs2Committed (mk_block 1 7) forged].
Proof.
  split; [vm_compute; reflexivity|].
  exact (proj2 (hs2_forged_commit [1] [[1]] hs2_node 0 (mk_block 1 7) forged hs2_node_new eq_refl)).
Defined.

Definition share_of (r : Z) (a : Address) : TimeoutShare :=
  let sh := mkShare r 0 None a [] in mkShare r 0 None a ((8 :: a) ++ signing_hash sh).

Lemma tc_verify_replicated_witness :
  tc_verify 3 (mkTC 1000 0 [] (replicate 3 (signing_hash (share_of 7 [1]))) (replicate 3 [8; 1]) [] 3
    (replicate 3 (s_signature (share_of 7 [1])))) = true.
Proof. apply (tc_verify_replicated (share_of 7 [1]) [8; 1] 3 1000 0 []); [lia|vm_compute; reflexivity]. Defined.

(** Shares for rounds 7, 900 and 12. *)
Lemma tc_mixes_rounds_witness :
  exists tc, fst (add_share (share_of 12 [3]) [8; 3]
    (add_shares [(share_of 7 [1], [8; 1]); (share_of 900 [2], [8; 2])] (tc_acc_new 3))) = Some tc /\
    tc_verify 3 tc = true.
Proof.
  apply (tc_mixes_rounds [(share_of 7 [1], [8; 1]); (share_of 900 [2], [8; 2])] (share_of 12 [3]) [8; 3] 3).
  - intros sigs. eexists. reflexivity.
  - apply (bool_decide_eq_true_1 (NoDup _)). vm_compute. reflexivity.
  - intros x Hx. simpl in Hx. apply elem_of_cons in Hx as [->|Hx]; [vm_compute; reflexivity|].
    apply elem_of_cons in Hx as [->|Hx]; [vm_compute; reflexivity|].
    apply list_elem_of_singleton in Hx as ->. vm_compute. reflexivity.
  - reflexivity.
Defined.

Lemma tc_assembled_verifies_witness :
  fst (hs2_on_timeout_share (Body:=unit) (share_of 7 [1]) [8; 1] hs2_node) <> Err InvalidTimeoutCertificate.
Proof.
  exact (proj1 (tc_assembled_verifies genesis_qc [1] [[1]] hs2_node [] hs2_node hs2_node_new (trace_nil hs2_node))
    (share_of 7 [1]) [8; 1]).
Defined.

Lemma leader_unique_witness :
  exists v, v ∈ [[1]] /\ forall w, is_leader (as_validator w hs2_node) 5 = true <-> w = v.
Proof. apply (leader_unique hs2_node 5). discriminate. Defined.

Lemma timer_bounded_witness :
  exists t, @timer_run ConsensusError [TStart 0; TQuorum 100; TStart 200; TTimeout; TTimeout] timer_new = Ok t /\
    DELTA_MIN <= current_delta t <= DELTA_MAX.
Proof.
  destruct (@timer_bounded ConsensusError [TStart 0; TQuorum 100; TStart 200; TTimeout; TTimeout])
    as (t & Hr & Hd & _).
  - repeat constructor; simpl; unfold from_secs; lia.
  - exists t. split; [exact Hr|exact Hd].
Defined.
