(* ===== verification/Collections.v ===== *)
(** * Orderings

    The lexicographic order of byte strings, a stable insertion sort by a
    boolean order, and what they satisfy: the standard library's [Ord for
    [u8]] and [sort_by], which the election of validators, the on-disk
    iterators and the slashing registry use.

    Below: sums over finite maps and the events of a history with what a
    run of calls adds to it. *)

From Stdlib Require Import ZArith Lia Sorting.Sorted.
From stdpp Require Import base tactics list gmap numbers option fin_maps.
From S2P Require Import Prelude Bytes.

Local Open Scope Z_scope.

(** ** Byte strings *)

Fixpoint bytes_cmp (a b : bytes) : comparison :=
  match a, b with
  | [], [] => Eq
  | [], _ => Lt
  | _, [] => Gt
  | x :: a, y :: b => match x ?= y with Eq => bytes_cmp a b | c => c end
  end.
Definition bytes_leb (a b : bytes) : bool := match bytes_cmp a b with Gt => false | _ => true end.

Lemma bytes_cmp_eq a b : bytes_cmp a b = Eq -> a = b.
Proof.
  revert b. induction a as [|x a IH]; intros [|y b]; simpl; try done.
  destruct (Z.compare_spec x y); try done. intros Hc. by rewrite (IH b Hc), H.
Qed.
Lemma bytes_cmp_refl a : bytes_cmp a a = Eq.
Proof. induction a; simpl; [done|]. by rewrite Z.compare_refl. Qed.
Lemma bytes_cmp_antisym a b : bytes_cmp b a = CompOpp (bytes_cmp a b).
Proof.
  revert b. induction a as [|x a IH]; intros [|y b]; simpl; try done.
  rewrite (Z.compare_antisym x y). destruct (x ?= y); simpl; done.
Qed.
Lemma bytes_cmp_trans a b c : bytes_cmp a b <> Gt -> bytes_cmp b c <> Gt -> bytes_cmp a c <> Gt.
Proof.
  revert b c. induction a as [|x a IH]; intros [|y b] [|z c]; simpl; try done.
  destruct (Z.compare_spec x y), (Z.compare_spec y z); try done; subst; intros H1 H2.
  - rewrite Z.compare_refl. by eapply IH.
  - by rewrite (proj2 (Z.compare_lt_iff _ _)) by lia.
  - by rewrite (proj2 (Z.compare_lt_iff _ _)) by lia.
  - by rewrite (proj2 (Z.compare_lt_iff _ _)) by lia.
Qed.

(** Strings of one length that start with numbers of one width are ordered by
    those numbers first. *)
Lemma bytes_cmp_be n a b k l : length a = n -> length b = n -> Forall byte a -> Forall byte b ->
  bytes_cmp (a ++ k) (b ++ l) <> Gt -> be_val a <= be_val b.
Proof.
  revert a b. induction n as [|n IH]; intros a b.
  - destruct a, b; simpl; done.
  - destruct a as [|x a]; [done|]. destruct b as [|y b]; [done|]. intros La Lb. injection La as La. injection Lb as Lb.
    intros [Hx Ha]%Forall_cons_iff [Hy Hb]%Forall_cons_iff. simpl.
    pose proof (be_val_bound a Ha) as Ba. pose proof (be_val_bound b Hb) as Bb. unfold zlen in *.
    rewrite La, Lb in *. unfold byte in *. destruct (Z.compare_spec x y) as [->| |]; try done; intros Hc.
    + pose proof (IH a b La Lb Ha Hb Hc). nia.
    + nia.
Qed.

(** ** Sorting

    [insert_by le x l] puts [x] before the first element it does not exceed:
    [foldr] keeps the order of equal elements. *)

Section sort.
Context {A : Type} (le : A -> A -> bool).

Fixpoint insert_by (x : A) (l : list A) : list A :=
  match l with
  | [] => [x]
  | y :: l => if le x y then x :: y :: l else y :: insert_by x l
  end.
Definition sort_by (l : list A) : list A := foldr insert_by [] l.

Lemma insert_by_perm x l : insert_by x l ≡ₚ x :: l.
Proof.
  induction l as [|y l IH]; simpl; [done|]. destruct (le x y); [done|]. rewrite IH. constructor.
Qed.
Lemma sort_by_perm l : sort_by l ≡ₚ l.
Proof. induction l as [|x l IH]; simpl; [done|]. by rewrite insert_by_perm, IH. Qed.

Definition le_total : Prop := forall x y, le x y = false -> le y x = true.
Definition le_trans : Prop := forall x y z, le x y = true -> le y z = true -> le x z = true.
Definition le_antisym : Prop := forall x y, le x y = true -> le y x = true -> x = y.
Abbreviation sorted := (StronglySorted (fun x y => le x y = true)).

Lemma insert_by_sorted x l : le_total -> le_trans -> sorted l -> sorted (insert_by x l).
Proof.
  intros Ht Htr. induction 1 as [|y l Hl IH Hy]; simpl; [repeat constructor|].
  destruct (le x y) eqn:E.
  - constructor; [by constructor|]. constructor; [done|]. eapply List.Forall_impl; [|exact Hy]. simpl. eauto.
  - constructor; [done|]. rewrite insert_by_perm. constructor; [by apply Ht|done].
Qed.
Lemma sort_by_sorted l : le_total -> le_trans -> sorted (sort_by l).
Proof. intros Ht Htr. induction l; simpl; [constructor|]. by apply insert_by_sorted. Qed.

(** With an antisymmetric order the sorted list depends on the elements only. *)
Lemma sorted_unique l k : le_antisym -> sorted l -> sorted k -> l ≡ₚ k -> l = k.
Proof.
  intros Ha Hl. revert k. induction Hl as [|x l Hl IH Hx]; intros k Hk Hp.
  - symmetry in Hp. by apply Permutation_nil_r in Hp as ->.
  - destruct k as [|y k]; [by apply Permutation_nil_r in Hp|].
    apply StronglySorted_inv in Hk as [Hk Hy]. assert (x = y) as ->.
    { assert (x ∈ y :: k) as Hin by (rewrite <-Hp; constructor).
      assert (y ∈ x :: l) as Hin' by (rewrite Hp; constructor).
      apply elem_of_cons in Hin as [->|Hin], Hin' as [Hin'|Hin']; try done.
      rewrite list_relations.list.Forall_forall in Hx, Hy. by apply Ha; [apply Hx|apply Hy]. }
    f_equal. apply IH; [done|]. by eapply Permutation_cons_inv.
Qed.

Lemma sort_by_canonical l k : le_total -> le_trans -> le_antisym -> l ≡ₚ k -> sort_by l = sort_by k.
Proof.
  intros Ht Htr Ha Hp. apply sorted_unique; try done; try by apply sort_by_sorted. by rewrite !sort_by_perm.
Qed.

Lemma sorted_app_before l k x y : sorted (l ++ k) -> x ∈ l -> y ∈ k -> le x y = true.
Proof.
  induction l as [|z l IH]; simpl; [by intros _ ?%elem_of_nil|].
  intros [Hs Hz]%StronglySorted_inv [->|Hx]%elem_of_cons Hy; [|by apply IH].
  rewrite list_relations.list.Forall_forall in Hz. apply Hz, elem_of_app. auto.
Qed.
End sort.

Lemma bytes_leb_total : le_total bytes_leb.
Proof. intros a b. unfold bytes_leb. rewrite (bytes_cmp_antisym a b). by destruct (bytes_cmp a b). Qed.
Lemma bytes_leb_le a b : bytes_leb a b = true <-> bytes_cmp a b <> Gt.
Proof. unfold bytes_leb. by destruct (bytes_cmp a b). Qed.
Lemma bytes_leb_trans : le_trans bytes_leb.
Proof. intros a b c. rewrite !bytes_leb_le. apply bytes_cmp_trans. Qed.
Lemma bytes_leb_antisym : le_antisym bytes_leb.
Proof.
  intros a b. unfold bytes_leb. rewrite (bytes_cmp_antisym a b). destruct (bytes_cmp a b) eqn:E; try done.
  intros _ _. by apply bytes_cmp_eq.
Qed.

(** * Sums over finite maps

    The total of the values of a [gmap], and how an update changes it: the
    ledgers of the token, the pool and the state use it. *)

Section msum.
Context {K : Type} `{Countable K}.
Implicit Types m : gmap K Z.

Definition msum m : Z := map_fold (fun _ v acc => v + acc) 0 m.
(** The value at a key, zero when unbound. *)
Definition mval m (k : K) : Z := default 0 (m !! k).

Lemma msum_empty : msum (∅ : gmap K Z) = 0.
Proof. apply map_fold_empty. Qed.

Lemma msum_insert_new m k v : m !! k = None -> msum (<[k := v]> m) = v + msum m.
Proof.
  intros Hk. unfold msum. rewrite map_fold_insert_L; [done| |done]. intros. lia.
Qed.

Lemma msum_insert m k v : msum (<[k := v]> m) = msum m - mval m k + v.
Proof.
  unfold mval. destruct (m !! k) as [x|] eqn:Hk; simpl.
  - rewrite <-(insert_delete_id m k x) at 2 by done. rewrite <-insert_delete_eq.
    rewrite !msum_insert_new by apply lookup_delete_eq. lia.
  - rewrite msum_insert_new by done. lia.
Qed.

Lemma mval_insert m k v j : mval (<[k := v]> m) j = if decide (j = k) then v else mval m j.
Proof.
  unfold mval. destruct (decide (j = k)) as [->|Hne].
  - by rewrite lookup_insert_eq.
  - by rewrite lookup_insert_ne.
Qed.

Lemma mval_empty k : mval (∅ : gmap K Z) k = 0.
Proof. unfold mval. by rewrite lookup_empty. Qed.

Lemma msum_nonneg m : (forall k, 0 <= mval m k) -> 0 <= msum m.
Proof.
  induction m as [|k v m Hk IH] using map_ind; intros Hm; [by rewrite msum_empty|].
  rewrite msum_insert_new by done. pose proof (Hm k) as Hv. rewrite mval_insert in Hv.
  destruct (decide (k = k)); [|done]. assert (0 <= msum m); [|lia]. apply IH. intros j.
  pose proof (Hm j) as Hj. rewrite mval_insert in Hj. destruct (decide (j = k)) as [->|]; [|done].
  unfold mval. by rewrite Hk.
Qed.

(** Every value is at most the total. *)
Lemma mval_le_msum m k : (forall j, 0 <= mval m j) -> mval m k <= msum m.
Proof.
  intros Hm. unfold mval. destruct (m !! k) as [x|] eqn:Hk; simpl; [|by apply msum_nonneg].
  rewrite <-(insert_delete_id m k x) by done. rewrite msum_insert_new by apply lookup_delete_eq.
  assert (0 <= msum (delete k m)); [|lia]. apply msum_nonneg. intros j. unfold mval.
  destruct (decide (j = k)) as [->|Hne]; [by rewrite lookup_delete_eq|].
  rewrite lookup_delete_ne by done. apply Hm.
Qed.

(** Two distinct values together are at most the total. *)
Lemma mval_pair_le_msum m j k : (forall i, 0 <= mval m i) -> j <> k -> mval m j + mval m k <= msum m.
Proof.
  intros Hm Hne. pose proof (mval_le_msum (<[j := 0]> m) k) as Hk.
  rewrite mval_insert, msum_insert in Hk. destruct (decide (k = j)) as [->|]; [done|].
  assert (mval m k <= msum m - mval m j + 0); [|lia]. apply Hk. intros i. rewrite mval_insert.
  by destruct (decide (i = j)).
Qed.
End msum.

(** ** Two levels

    A map of maps, such as the balances of several tokens; an entry that is
    absent is empty. *)

Section msum2.
Context {K1 K2 : Type} `{Countable K1} `{Countable K2}.
Implicit Types m : gmap K1 (gmap K2 Z).

Definition row m (i : K1) : gmap K2 Z := default ∅ (m !! i).
Definition mval2 m (i : K1) (j : K2) : Z := mval (row m i) j.
Definition put2 (i : K1) (j : K2) (v : Z) m : gmap K1 (gmap K2 Z) := <[i := <[j := v]> (row m i)]> m.

Lemma row_put2 i j v m i' : row (put2 i j v m) i' = if decide (i' = i) then <[j := v]> (row m i) else row m i'.
Proof.
  unfold put2. unfold row at 1. destruct (decide (i' = i)) as [->|Hne].
  - by rewrite lookup_insert_eq.
  - by rewrite lookup_insert_ne.
Qed.

Lemma mval2_put2 i j v m i' j' :
  mval2 (put2 i j v m) i' j' = if decide (i' = i /\ j' = j) then v else mval2 m i' j'.
Proof.
  unfold mval2. rewrite row_put2. destruct (decide (i' = i)) as [->|Hne].
  - rewrite mval_insert. by destruct (decide (j' = j)), (decide (i = i /\ j' = j)); try tauto.
  - by destruct (decide (i' = i /\ j' = j)); [tauto|].
Qed.

Lemma msum_put2 i j v m i' :
  msum (row (put2 i j v m) i') = msum (row m i') + if decide (i' = i) then v - mval2 m i j else 0.
Proof.
  rewrite row_put2. destruct (decide (i' = i)) as [->|]; [|lia]. rewrite msum_insert. unfold mval2. lia.
Qed.

Lemma mval2_empty i j : mval2 ∅ i j = 0.
Proof. unfold mval2, row. rewrite lookup_empty. apply mval_empty. Qed.

Lemma row_empty i : row ∅ i = ∅.
Proof. unfold row. by rewrite lookup_empty. Qed.
End msum2.

(** ** Weighted sums: the total of [f k v] over the bindings of a map *)

Section wsum.
Context {K A : Type} `{Countable K} (f : K -> A -> Z).
Implicit Types m : gmap K A.

Definition wsum m : Z := map_fold (fun k v acc => f k v + acc) 0 m.
Definition wval m (k : K) : Z := match m !! k with Some v => f k v | None => 0 end.

Lemma wsum_empty : wsum ∅ = 0.
Proof. apply map_fold_empty. Qed.

Lemma wsum_insert_new m k v : m !! k = None -> wsum (<[k := v]> m) = f k v + wsum m.
Proof. intros Hk. unfold wsum. rewrite map_fold_insert_L; [done| |done]. intros. lia. Qed.

Lemma wsum_insert m k v : wsum (<[k := v]> m) = wsum m - wval m k + f k v.
Proof.
  unfold wval. destruct (m !! k) as [x|] eqn:Hk.
  - rewrite <-(insert_delete_id m k x) at 2 by done. rewrite <-insert_delete_eq.
    rewrite !wsum_insert_new by apply lookup_delete_eq. lia.
  - rewrite wsum_insert_new by done. lia.
Qed.

Lemma wsum_delete m k : wsum (delete k m) = wsum m - wval m k.
Proof.
  unfold wval. destruct (m !! k) as [x|] eqn:Hk; [|rewrite delete_id by done; lia].
  rewrite <-(insert_delete_id m k x) at 2 by done. rewrite wsum_insert_new by apply lookup_delete_eq. lia.
Qed.

Lemma wsum_nonneg m : map_Forall (fun k v => 0 <= f k v) m -> 0 <= wsum m.
Proof.
  induction m as [|k v m Hk IH] using map_ind; intros Hm; [by rewrite wsum_empty|].
  rewrite wsum_insert_new by done. apply map_Forall_insert in Hm as [Hv Hm]; [|done].
  specialize (IH Hm). lia.
Qed.

Lemma wval_le_wsum m k : map_Forall (fun k v => 0 <= f k v) m -> wval m k <= wsum m.
Proof.
  intros Hm. unfold wval. destruct (m !! k) as [v|] eqn:Hk; [|by apply wsum_nonneg].
  rewrite <-(insert_delete_id m k v) by done. rewrite wsum_insert_new by apply lookup_delete_eq.
  assert (0 <= wsum (delete k m)); [|lia]. apply wsum_nonneg. by apply map_Forall_delete.
Qed.
End wsum.

(** * Histories of calls

    A contract is a state and calls on it; a call that succeeds leaves an
    event.  [history call ops s] runs the calls one after the other, failed
    ones included, and collects the events.  The invariants of the governor
    and of the bridge relate a state to the history that led to it. *)

(** The event of a successful call; a failed one leaves what it changed. *)
Definition logged {S E A Ev} (m : M S E A) (f : A -> Ev) (s : S) : list Ev * S :=
  match m s with (Ok a, s') => ([f a], s') | (_, s') => ([], s') end.

Lemma logged_short {S E A Ev} (m : M S E A) (f : A -> Ev) s : (length (logged m f s).1 <= 1)%nat.
Proof. unfold logged. destruct (m s) as [[a|e|] s']; simpl; lia. Qed.

Section history.
Context {S O Ev : Type} (call : O -> S -> list Ev * S).

Fixpoint history (ops : list O) (s : S) : list Ev * S :=
  match ops with
  | [] => ([], s)
  | o :: ops =>
    let '(ev, s1) := call o s in
    let '(evs, s2) := history ops s1 in (ev ++ evs, s2)
  end.

Hypothesis call_short : forall o s, (length (call o s).1 <= 1)%nat.

(** The history splits at the call that left an event. *)
Lemma history_split ops : forall s e1 ev e2 s', history ops s = (e1 ++ ev :: e2, s') ->
  exists ops1 o ops2 s1 s2, ops = ops1 ++ o :: ops2 /\ history ops1 s = (e1, s1) /\
    call o s1 = ([ev], s2) /\ history ops2 s2 = (e2, s').
Proof.
  induction ops as [|o ops IH]; intros s e1 ev e2 s' Hr; simpl in Hr.
  { destruct e1; simplify_eq. }
  pose proof (call_short o s) as Hlen. destruct (call o s) as [oev s1] eqn:Ho.
  destruct (history ops s1) as [evs s2] eqn:Hrun. injection Hr as Hevs <-.
  destruct oev as [|e [|? ?]]; simpl in Hevs, Hlen; [subst evs| |lia].
  - apply IH in Hrun as (ops1 & o' & ops2 & t1 & t2 & -> & H1 & H2 & H3).
    exists (o :: ops1), o', ops2, t1, t2. split_and!; [done| |done..]. simpl. by rewrite Ho, H1.
  - destruct e1 as [|e' e1]; injection Hevs as -> ->; [by exists [], o, ops, s, s1|].
    apply IH in Hrun as (ops1 & o' & ops2 & t1 & t2 & -> & H1 & H2 & H3).
    exists (o :: ops1), o', ops2, t1, t2. split_and!; [done| |done..]. simpl. by rewrite Ho, H1.
Qed.

Lemma history_length ops : forall s, (length (history ops s).1 <= length ops)%nat.
Proof.
  induction ops as [|o ops IH]; intros s; simpl; [lia|]. pose proof (call_short o s) as Hone.
  destruct (call o s) as [ev s1]. specialize (IH s1). destruct (history ops s1) as [evs s2].
  simpl in *. rewrite length_app. lia.
Qed.

(** An invariant of state and history; [bound] limits the number of events. *)
Lemma history_inv (I : list Ev -> S -> Prop) bound :
  (forall o evs s ev s', I evs s -> zlen evs + 1 < bound -> call o s = (ev, s') -> I (evs ++ ev) s') ->
  forall ops evs s evs' s', I evs s -> zlen evs + zlen ops < bound -> history ops s = (evs', s') -> I (evs ++ evs') s'.
Proof.
  intros Hstep. induction ops as [|o ops IH]; intros evs s evs' s' HI Hlen Hr; simpl in Hr.
  { simplify_eq. by rewrite app_nil_r. }
  pose proof (call_short o s) as Hone. destruct (call o s) as [ev s1] eqn:Ho.
  destruct (history ops s1) as [evs1 s2] eqn:Hrun. injection Hr as <- <-.
  rewrite zlen_cons in Hlen. pose proof (zlen_nonneg ops). rewrite app_assoc.
  eapply IH; [eapply Hstep; [exact HI|lia|exact Ho]| |exact Hrun].
  rewrite zlen_app. unfold zlen in *. simpl in Hone. lia.
Qed.
End history.
