(* ===== verification/Election.v ===== *)
(** * The pacemaker's coordinator (crates/zbx-consensus/src/pacemaker.rs)

    Timeout shares, their assembly into a timeout certificate, the round that
    certificates advance and the adaptive delta, on top of the timer of
    Pacemaker.v.  The clock is an argument.

    Below, in the same crate: the proposer of a round and committees
    (proposer.rs), and epochs with their validator sets (epoch_manager.rs). *)

From Stdlib Require Import ZArith Lia Sorting.Sorted.
From stdpp Require Import base tactics list gmap numbers option sorting.
From S2P Require Import Prelude Bytes Crypto Vote Pacemaker SafetyRules Block HotStuff.

Local Open Scope Z_scope.

(** ** Shares and certificates *)

Record TimeoutShareData : Type := mkShareData { sd_round : Z; sd_epoch : Z; sd_high_qc_round : Z }.

Definition share_bytes (d : TimeoutShareData) : bytes :=
  to_be 8 (sd_round d) ++ to_be 8 (sd_epoch d) ++ to_be 8 (sd_high_qc_round d).

Record TimeoutShare : Type := mkTimeoutShare {
  ts_data : TimeoutShareData; ts_validator : Address; ts_pubkey : BlsPubKey; ts_signature : BlsSignature }.

Record TimeoutCertificate : Type := mkTimeoutCert {
  tc_round : Z; tc_epoch : Z; tc_high_qc_round : Z; tc_agg_signature : BlsSignature; tc_signers : list Address }.

Definition next_round (tc : TimeoutCertificate) : Z := u64 (tc_round tc + 1).

Record TcAccumulator : Type := mkTcAcc {
  ta_round : Z; ta_epoch : Z; ta_quorum : Z; ta_shares : gmap Address TimeoutShare }.

Definition tc_acc_new (r e q : Z) : TcAccumulator := mkTcAcc r e q ∅.

Inductive CoordinatorEvent : Type :=
| BroadcastTimeout (s : TimeoutShare)
| NewTc (tc : TimeoutCertificate)
| NewRound (r : Z)
| Noop.

Record PacemakerCoordinator : Type := mkCoord {
  inner : Pacemaker; current_round : Z; co_epoch : Z; self_addr : Address;
  bls_key : BlsPrivKey; bls_pubkey : BlsPubKey; co_quorum : Z; high_qc_round : Z;
  tc_accumulators : gmap Z TcAccumulator; delta_ms : Z; delta_min_ms : Z; delta_max_ms : Z }.

Section coordinator.
Context {CR : Crypto}.

Definition share_hash (d : TimeoutShareData) : Hash := keccak256 (share_bytes d).

Definition share_valid (s : TimeoutShare) : bool :=
  verify_single (ts_signature s) (ts_pubkey s) (share_hash (ts_data s)).

(** The certificate of the shares, in the order the map lists them. *)
Definition assemble (a : TcAccumulator) : TimeoutCertificate :=
  let entries := map_to_list (ta_shares a) in
  mkTimeoutCert (ta_round a) (ta_epoch a)
    (foldr (fun e m => Z.max (sd_high_qc_round (ts_data e.2)) m) 0 entries)
    (default zero_sig (aggregate_signatures (map (fun e => ts_signature e.2) entries)))
    (map fst entries).

Definition acc_insert (s : TimeoutShare) (a : TcAccumulator) : option TimeoutCertificate * TcAccumulator :=
  if negb (sd_round (ts_data s) =? ta_round a) || negb (sd_epoch (ts_data s) =? ta_epoch a) then (None, a)
  else if bool_decide (is_Some (ta_shares a !! ts_validator s)) then (None, a)
  else if negb (share_valid s) then (None, a)
  else
    let a' := mkTcAcc (ta_round a) (ta_epoch a) (ta_quorum a) (<[ts_validator s := s]> (ta_shares a)) in
    if Z.of_nat (size (ta_shares a')) <? ta_quorum a then (None, a') else (Some (assemble a'), a').

(** ** The coordinator *)

Definition coord_quorum (n : Z) : Z := u64 (2 * (u64 (n - 1) / 3) + 1).

Definition coord_new (now : Z) (addr : Address) (key : BlsPrivKey) (n r e : Z) (c : PacemakerConfig)
    : PacemakerCoordinator :=
  mkCoord (pm_new now c) r e addr key (to_pubkey key) (coord_quorum n) 0 ∅ 2000 500 30000.

Definition set_timing (p : Pacemaker) (r hq d : Z) (s : PacemakerCoordinator) : PacemakerCoordinator :=
  mkCoord p r (co_epoch s) (self_addr s) (bls_key s) (bls_pubkey s) (co_quorum s) hq (tc_accumulators s) d
    (delta_min_ms s) (delta_max_ms s).
Definition set_accumulators (m : gmap Z TcAccumulator) (s : PacemakerCoordinator) : PacemakerCoordinator :=
  mkCoord (inner s) (current_round s) (co_epoch s) (self_addr s) (bls_key s) (bls_pubkey s) (co_quorum s)
    (high_qc_round s) m (delta_ms s) (delta_min_ms s) (delta_max_ms s).

Definition build_timeout_share (s : PacemakerCoordinator) : TimeoutShare :=
  let d := mkShareData (current_round s) (co_epoch s) (high_qc_round s) in
  mkTimeoutShare d (self_addr s) (bls_pubkey s) (bls_sign (bls_key s) (share_hash d)).

Definition tick (now : Z) (s : PacemakerCoordinator) : CoordinatorEvent :=
  if pm_is_timed_out now (inner s) then BroadcastTimeout (build_timeout_share s) else Noop.

Definition advance_to_round (now r : Z) (s : PacemakerCoordinator) : PacemakerCoordinator :=
  if current_round s <? r
  then set_timing (start_round now r (co_epoch s) (inner s)) r (high_qc_round s) (delta_ms s) s
  else s.

Definition adapt_delta (success : bool) (s : PacemakerCoordinator) : PacemakerCoordinator :=
  let d := if success then Z.max (u64 (delta_ms s * 7) / 8) (delta_min_ms s)
           else Z.min (sat 64 (delta_ms s * 3) / 2) (delta_max_ms s) in
  set_timing (inner s) (current_round s) (high_qc_round s) d s.

Definition on_qc (now : Z) (qc : QuorumCertificate) (s : PacemakerCoordinator)
    : CoordinatorEvent * PacemakerCoordinator :=
  let qc_round := block_number (vote_data qc) in
  if current_round s <=? qc_round then
    let s := set_timing (inner s) (current_round s) (Z.max (high_qc_round s) qc_round) (delta_ms s) s in
    let next := u64 (qc_round + 1) in
    (NewRound next, adapt_delta true (advance_to_round now next s))
  else (Noop, s).

Definition on_timeout_share (now : Z) (sh : TimeoutShare)
    : M PacemakerCoordinator ConsensusError CoordinatorEvent :=
  s ← get_st;
  _ ← throw_if (negb (sd_epoch (ts_data sh) =? co_epoch s)) (InvalidEpoch (co_epoch s) (sd_epoch (ts_data sh)));
  let r := sd_round (ts_data sh) in
  let acc := default (tc_acc_new r (co_epoch s) (co_quorum s)) (tc_accumulators s !! r) in
  let '(otc, acc') := acc_insert sh acc in
  _ ← modify (fun s => set_accumulators (<[r := acc']> (tc_accumulators s)) s);
  match otc with
  | Some tc =>
    _ ← modify (fun s => set_accumulators (filter (fun e => r <= e.1) (tc_accumulators s)) s);
    _ ← modify (adapt_delta false);
    _ ← modify (advance_to_round now (next_round tc));
    mret (NewTc tc)
  | None => mret Noop
  end.

(** ** What a coordinator holds *)

Definition acc_ok (r e q : Z) (a : TcAccumulator) : Prop :=
  ta_round a = r /\ ta_epoch a = e /\ ta_quorum a = q /\
  forall v s, ta_shares a !! v = Some s ->
    ts_validator s = v /\ sd_round (ts_data s) = r /\ sd_epoch (ts_data s) = e /\ share_valid s = true.

Record coord_ok (s : PacemakerCoordinator) : Prop := {
  co_accs : forall r a, tc_accumulators s !! r = Some a -> acc_ok r (co_epoch s) (co_quorum s) a;
  co_bounds : delta_min_ms s = 500 /\ delta_max_ms s = 30000;
  co_delta : 500 <= delta_ms s <= 30000 }.

(** A certificate with what stands behind it. *)
Definition tc_backed (e q : Z) (tc : TimeoutCertificate) : Prop :=
  tc_epoch tc = e /\ NoDup (tc_signers tc) /\ q <= zlen (tc_signers tc) /\
  forall v, v ∈ tc_signers tc -> exists s, ts_validator s = v /\ sd_round (ts_data s) = tc_round tc /\
    sd_epoch (ts_data s) = e /\ share_valid s = true /\ sd_high_qc_round (ts_data s) <= tc_high_qc_round tc.

Lemma high_max (l : list (Address * TimeoutShare)) v s : (v, s) ∈ l ->
  sd_high_qc_round (ts_data s) <= foldr (fun e m => Z.max (sd_high_qc_round (ts_data e.2)) m) 0 l.
Proof. induction l as [|x l IH]; [by intros ?%elem_of_nil|]. intros [<-|H]%elem_of_cons; simpl; [lia|]. specialize (IH H). lia. Qed.

Lemma assemble_backed r e q a : acc_ok r e q a -> q <= Z.of_nat (size (ta_shares a)) ->
  tc_round (assemble a) = r /\ tc_backed e q (assemble a).
Proof.
  intros (Hr & He & _ & Hs) Hq. split; [done|]. split_and!; simpl; [done| | |].
  - change (map fst) with (fmap (M := list) (@fst Address TimeoutShare)). apply NoDup_fst_map_to_list.
  - unfold zlen. rewrite length_map, length_map_to_list. done.
  - intros v Hv. change (map fst) with (fmap (M := list) (@fst Address TimeoutShare)) in Hv.
    apply list_elem_of_fmap in Hv as ([v' s] & -> & Hin). pose proof (high_max _ _ _ Hin) as Hh.
    apply elem_of_map_to_list in Hin. destruct (Hs v' s Hin) as (H1 & H2 & H3 & H4).
    exists s. rewrite H2, Hr. done.
Qed.

Lemma acc_insert_ok r e q s a otc a' : acc_ok r e q a -> acc_insert s a = (otc, a') ->
  acc_ok r e q a' /\ forall tc, otc = Some tc -> tc_round tc = r /\ tc_backed e q tc.
Proof.
  intros Ha. pose proof Ha as (Hr & He & Hq & Hs). unfold acc_insert.
  destruct (_ || _) eqn:Hd; [intros [= <- <-]; by split|].
  case_bool_decide; [intros [= <- <-]; by split|]. destruct (share_valid s) eqn:Hv; [|intros [= <- <-]; by split].
  simpl negb. cbv iota. set (a1 := mkTcAcc _ _ _ _). bool_to_prop.
  assert (acc_ok r e q a1) as Ha1.
  { split_and!; [done..|]. intros v x. simpl. intros [[<- <-]|[Hne Hx]]%lookup_insert_Some; [|by apply Hs].
    split_and!; [done|congruence|congruence|done]. }
  destruct (Z.ltb_spec (Z.of_nat (size (ta_shares a1))) (ta_quorum a)); intros [= <- <-]; (split; [done|]); [done|].
  intros tc [= <-]. apply assemble_backed; [done|lia].
Qed.

Lemma adapt_delta_ok b s : coord_ok s -> coord_ok (adapt_delta b s).
Proof.
  intros [Ha [Hmin Hmax] Hd]. unfold adapt_delta. split; simpl; try done. rewrite Hmin, Hmax. destruct b.
  - rewrite wrap_small by (unfold in_range; lia). pose proof (Z.div_le_upper_bound (delta_ms s * 7) 8 30000). lia.
  - rewrite sat_small by (unfold in_range; lia). pose proof (Z.div_le_lower_bound (delta_ms s * 3) 2 500). lia.
Qed.

Lemma advance_ok now r s : coord_ok s -> coord_ok (advance_to_round now r s) /\
  current_round (advance_to_round now r s) = Z.max (current_round s) r /\
  co_epoch (advance_to_round now r s) = co_epoch s /\ co_quorum (advance_to_round now r s) = co_quorum s.
Proof.
  intros [Ha Hb Hd]. unfold advance_to_round. destruct (Z.ltb_spec (current_round s) r); simpl.
  - split; [by split|]. split_and!; [lia|done..].
  - split; [by split|]. split_and!; [lia|done..].
Qed.

(** One received share, on each branch. *)
Lemma on_timeout_share_cases now sh s res s' : coord_ok s -> on_timeout_share now sh s = (res, s') ->
  coord_ok s' /\ co_epoch s' = co_epoch s /\ co_quorum s' = co_quorum s /\
  ((res = Err (InvalidEpoch (co_epoch s) (sd_epoch (ts_data sh))) /\ s' = s) \/
   (res = Ok Noop /\ current_round s' = current_round s /\ delta_ms s' = delta_ms s) \/
   (exists tc, res = Ok (NewTc tc) /\ tc_round tc = sd_round (ts_data sh) /\ tc_backed (co_epoch s) (co_quorum s) tc /\
      current_round s' = Z.max (current_round s) (next_round tc))).
Proof.
  intros Hok. unfold on_timeout_share. open_call.
  destruct (Z.eqb_spec (sd_epoch (ts_data sh)) (co_epoch s)) as [He|He]; simpl; [|intros [= <- <-]; split_and!; try done; by left].
  set (acc := default _ _). assert (acc_ok (sd_round (ts_data sh)) (co_epoch s) (co_quorum s) acc) as Hacc.
  { unfold acc. destruct (tc_accumulators s !! _) as [a|] eqn:Ha; simpl; [by eapply co_accs|].
    by split_and!. }
  destruct (acc_insert sh acc) as [otc acc'] eqn:Hi. destruct (acc_insert_ok _ _ _ _ _ _ _ Hacc Hi) as [Hacc' Htc].
  assert (coord_ok (set_accumulators (<[sd_round (ts_data sh) := acc']> (tc_accumulators s)) s)) as Hok1.
  { destruct Hok as [Ha Hb Hd]. split; try done. simpl.
    intros r a [[<- <-]|[Hne Hx]]%lookup_insert_Some; [done|by apply Ha]. }
  destruct otc as [tc|]; [|intros [= <- <-]; split_and!; try done; right; by left].
  intros [= <- <-]. destruct (Htc tc eq_refl) as [Hr Hb]. set (s1 := set_accumulators _ s) in *.
  set (s2 := set_accumulators (filter _ _) s1).
  assert (coord_ok s2) as Hok2.
  { destruct Hok1 as [Ha Hbb Hd]. split; try done. simpl. intros r a [Hx _]%map_lookup_filter_Some. by apply Ha. }
  destruct (advance_ok now (next_round tc) _ (adapt_delta_ok false s2 Hok2)) as (H1 & H2 & H3 & H4).
  split_and!; [done|by rewrite H3|by rewrite H4|]. right. right. exists tc. by split_and!.
Qed.

(** ** Histories *)

Inductive coord_op : Type :=
| CTick (now : Z)
| CQc (now : Z) (qc : QuorumCertificate)
| CShare (now : Z) (sh : TimeoutShare).

Definition coord_step (o : coord_op) (s : PacemakerCoordinator) : CoordinatorEvent * PacemakerCoordinator :=
  match o with
  | CTick now => (tick now s, s)
  | CQc now qc => on_qc now qc s
  | CShare now sh => match on_timeout_share now sh s with (Ok e, s') => (e, s') | (_, s') => (Noop, s') end
  end.

(** Every step keeps the invariant, never lowers the round, and gives a
    certificate only with a quorum of verified shares behind it. *)
Lemma coord_step_ok o s ev s' : coord_ok s -> coord_step o s = (ev, s') ->
  coord_ok s' /\ co_epoch s' = co_epoch s /\ co_quorum s' = co_quorum s /\ current_round s <= current_round s' /\
  forall tc, ev = NewTc tc -> tc_backed (co_epoch s) (co_quorum s) tc /\
    current_round s' = Z.max (current_round s) (next_round tc).
Proof.
  intros Hok. destruct o as [now|now qc|now sh]; simpl.
  - intros [= <- <-]. split_and!; try done. intros tc. unfold tick. by destruct (pm_is_timed_out _ _).
  - unfold on_qc. destruct (Z.leb_spec (current_round s) (block_number (vote_data qc))); intros [= <- <-]; [|done].
    set (s1 := set_timing _ _ _ _ s). assert (coord_ok s1) as Hok1 by (destruct Hok; by split).
    destruct (advance_ok now (u64 (block_number (vote_data qc) + 1)) s1 Hok1) as (H1 & H2 & H3 & H4).
    split_and!; [by apply adapt_delta_ok|done|done| |done]. simpl. rewrite H2. simpl. lia.
  - destruct (on_timeout_share now sh s) as [r s2] eqn:Hs.
    destruct (on_timeout_share_cases _ _ _ _ _ Hok Hs) as (Hok' & He & Hq & [[-> ->]|[(-> & Hr & _)|(tc & -> & _ & Hb & Hr)]]);
      intros [= <- <-].
    + split_and!; done.
    + split_and!; [done..|lia|done].
    + split_and!; [done..|lia|]. intros tc' [= <-]. done.
Qed.
Fixpoint coord_run (ops : list coord_op) (s : PacemakerCoordinator) : list CoordinatorEvent * PacemakerCoordinator :=
  match ops with
  | [] => ([], s)
  | o :: ops => let '(ev, s1) := coord_step o s in let '(evs, s2) := coord_run ops s1 in (ev :: evs, s2)
  end.

Lemma coord_new_ok now a k n r e c : coord_ok (coord_new now a k n r e c).
Proof. split; [by intros ? ?|done|]. simpl. lia. Qed.

(** Through any messages and ticks the round never goes back, the delta stays
    between its bounds, and every timeout certificate carries verified shares
    of at least [quorum] distinct addresses for its round and this epoch. *)
Lemma coord_run_ok ops : forall s evs s', coord_ok s -> coord_run ops s = (evs, s') ->
  coord_ok s' /\ current_round s <= current_round s' /\
  forall tc, NewTc tc ∈ evs -> tc_backed (co_epoch s) (co_quorum s) tc /\ next_round tc <= current_round s'.
Proof.
  induction ops as [|o ops IH]; intros s evs s' Hok; simpl.
  { intros [= <- <-]. split_and!; [done|lia|]. by intros tc ?%elem_of_nil. }
  destruct (coord_step o s) as [ev s1] eqn:Hs. destruct (coord_run ops s1) as [evs1 s2] eqn:Hr. intros [= <- <-].
  destruct (coord_step_ok _ _ _ _ Hok Hs) as (Hok1 & He & Hq & Hle & Htc).
  destruct (IH _ _ _ Hok1 Hr) as (Hok2 & Hle2 & Htc2). split_and!; [done|lia|].
  intros tc [<-|Hin]%elem_of_cons; [destruct (Htc tc eq_refl); split; [done|lia]|].
  rewrite <-He, <-Hq. by apply Htc2.
Qed.

(** ** What the coordinator does not check

    A share names its own public key, and neither the key nor the address is
    looked up among the validators: one key pair is enough to forge a
    certificate for any later round. *)

Definition forged_share (sk : BlsPrivKey) (r e : Z) (v : Address) : TimeoutShare :=
  let d := mkShareData r e 0 in mkTimeoutShare d v (to_pubkey sk) (bls_sign sk (share_hash d)).

Lemma coordinator_forged (sk : BlsPrivKey) now r vs : forall s acc,
  (forall m, verify_single (bls_sign sk m) (to_pubkey sk) m = true) ->
  NoDup vs -> (forall v, v ∈ vs -> ta_shares acc !! v = None) ->
  acc = default (tc_acc_new r (co_epoch s) (co_quorum s)) (tc_accumulators s !! r) ->
  acc_ok r (co_epoch s) (co_quorum s) acc ->
  Z.of_nat (size (ta_shares acc)) + zlen vs = co_quorum s -> vs <> [] ->
  current_round s <= r -> 0 <= r -> r + 1 < 2 ^ 64 ->
  current_round (coord_run (map (fun v => CShare now (forged_share sk r (co_epoch s) v)) vs) s).2 = r + 1.
Proof.
  induction vs as [|v vs IH]; intros s acc Hsig Hnd Hnew Hacc Hok Hsz Hne Hr H0 Hr1; [done|].
  apply list.NoDup_cons in Hnd as [Hv Hnd]. pose proof Hok as (Har & Hae & Haq & Has).
  set (sh := forged_share sk r (co_epoch s) v).
  set (acc' := mkTcAcc (ta_round acc) (ta_epoch acc) (ta_quorum acc) (<[v := sh]> (ta_shares acc))).
  assert (size (ta_shares acc') = S (size (ta_shares acc))) as Hsz'.
  { simpl. apply map_size_insert_None. apply Hnew. by left. }
  assert (share_valid sh = true) as Hvalid by apply Hsig.
  assert (acc_insert sh acc = (if Z.of_nat (size (ta_shares acc')) <? ta_quorum acc then (None, acc') else (Some (assemble acc'), acc')))
    as Hins.
  { unfold acc_insert. rewrite Hvalid, Har, Hae. change (ts_validator sh) with v. rewrite (Hnew v) by left.
    change (sd_epoch (ts_data sh)) with (co_epoch s). change (sd_round (ts_data sh)) with r. rewrite !Z.eqb_refl. simpl. subst acc'. rewrite Har, Hae. simpl. by destruct (_ <? _). }
  rewrite zlen_cons in Hsz. pose proof (zlen_nonneg vs) as Hzl.
  cbn [map coord_run coord_step]. fold sh. unfold on_timeout_share. open_call.
  change (sd_epoch (ts_data sh)) with (co_epoch s). change (sd_round (ts_data sh)) with r. rewrite Z.eqb_refl.
  cbn [negb]. cbv iota. rewrite <-Hacc, Hins, Hsz', Haq.
  destruct (Z.ltb_spec (Z.of_nat (S (size (ta_shares acc)))) (co_quorum s)) as [Hlt|Hge].
  - set (s1 := set_accumulators _ s). destruct vs as [|v' vs']; [rewrite zlen_nil in Hsz; lia|].
    specialize (IH s1 acc'). change (co_epoch s1) with (co_epoch s) in IH.
    change (current_round s1) with (current_round s) in IH. change (co_quorum s1) with (co_quorum s) in IH.
    destruct (coord_run _ s1) as [evs s2] eqn:Hrun. simpl in IH |- *. apply IH; try done.
    + intros x Hx. rewrite lookup_insert_ne by (intros ->; done). apply Hnew. by right.
    + unfold s1. simpl. by rewrite lookup_insert_eq.
    + split_and!; try done. intros w x. simpl. intros [[<- <-]|[_ Hx]]%lookup_insert_Some; [by split_and!|by apply Has].
    + simpl in Hsz'. rewrite Hsz'. lia.
  - destruct vs as [|v' vs']; [|rewrite zlen_cons in Hsz; pose proof (zlen_nonneg vs'); lia].
    simpl. unfold next_round. simpl. rewrite Har, wrap_small by (unfold in_range; lia).
    unfold advance_to_round. simpl. destruct (Z.ltb_spec (current_round s) (r + 1)); [done|lia].
Qed.

(** The quorum is not two thirds: of three validators one, of six three. *)
Lemma coordinator_quorum_small : coord_quorum 3 = 1 /\ coord_quorum 6 = 3 /\ coord_quorum 4 = 3.
Proof. done. Qed.

(** An expired timer stays expired: every tick broadcasts again. *)
Lemma coordinator_tick_repeats now later s : 0 <= now - started_at (current (inner s)) -> now <= later ->
  tick now s = BroadcastTimeout (build_timeout_share s) -> tick later s = BroadcastTimeout (build_timeout_share s).
Proof.
  unfold tick, pm_is_timed_out, round_is_timed_out, elapsed. intros H0 Hle.
  destruct (Z.leb_spec (timeout (current (inner s))) (Z.max 0 (now - started_at (current (inner s))))); [|done].
  intros _. destruct (Z.leb_spec (timeout (current (inner s))) (Z.max 0 (later - started_at (current (inner s))))); [done|lia].
Qed.
End coordinator.

(** * Proposer and committee election (crates/zbx-consensus/src/proposer.rs)

    A hash picks the proposer of a round and, draw by draw, the members of a
    committee.  [committee_sample]: the draws are a sample without
    replacement of the validators; [elect_is_driver]: the proposer is the one
    the HotStuff driver computes from the same seed. *)

(** ** Swapping two entries of a vector *)

(** [v.swap(i, j)]; it panics out of range. *)
Definition swap {A E} (l : list A) (i j : nat) : res E (list A) :=
  a ← unwrap (l !! i); b ← unwrap (l !! j); Ok (<[i := b]> (<[j := a]> l)).

Definition transpose (i j k : nat) : nat := if decide (k = i) then j else if decide (k = j) then i else k.

Lemma swap_Ok {A E} (l : list A) i j : (i < length l)%nat -> (j < length l)%nat ->
  exists l', @swap A E l i j = Ok l' /\ length l' = length l /\ forall k, l' !! k = l !! transpose i j k.
Proof.
  intros Hi Hj. unfold swap. destruct (lookup_lt_is_Some_2 l i Hi) as [a Ha].
  destruct (lookup_lt_is_Some_2 l j Hj) as [b Hb]. rewrite Ha, Hb. simpl.
  eexists. split; [done|]. rewrite !length_insert. split; [done|]. intros k. unfold transpose.
  destruct (decide (k = i)) as [->|Hki]; [by rewrite list_lookup_insert_eq by (by rewrite length_insert)|].
  rewrite list_lookup_insert_ne by done.
  destruct (decide (k = j)) as [->|Hkj]; [by rewrite list_lookup_insert_eq|by rewrite list_lookup_insert_ne].
Qed.

Lemma transpose_inj i j : Inj (=) (=) (transpose i j).
Proof. intros a b. unfold transpose. repeat case_decide; congruence. Qed.

Lemma swap_perm {A E} (l l' : list A) i j : @swap A E l i j = Ok l' -> l' ≡ₚ l.
Proof.
  intros H. assert ((i < length l)%nat /\ (j < length l)%nat) as [Hi Hj].
  { revert H. unfold swap. destruct (l !! i) eqn:Hi; [|done]. destruct (l !! j) eqn:Hj; [|done].
    intros _. split; by eapply lookup_lt_Some. }
  destruct (@swap_Ok A E l i j Hi Hj) as (l2 & H2 & Hlen & Hl). rewrite H in H2. injection H2 as <-.
  apply Permutation_inj. split; [done|]. exists (transpose i j). split; [apply transpose_inj|done].
Qed.

(** ** Election *)

Section election.
Context {CR : Crypto}.

Record ProposerElection : Type := mkElection { pe_validators : list Address }.

Definition update_validators (vs : list Address) (pe : ProposerElection) : ProposerElection := mkElection vs.

Definition pe_n (pe : ProposerElection) : Z := zlen (pe_validators pe).

(** [keccak256(input)[..8]] as a number, modulo the pool. *)
Definition hash_index (input : bytes) (pool : Z) : Z := be_val (take 8 (keccak256 input)) mod pool.

Definition vrf_index (seed : Hash) (round pool : Z) : Z := hash_index (seed ++ to_be 8 round) pool.

Definition elect {E} (round : Z) (qc_hash : Hash) (pe : ProposerElection) : res E (option Address) :=
  if pe_n pe =? 0 then Ok None
  else a ← index (pe_validators pe) (vrf_index qc_hash round (pe_n pe)); Ok (Some a).

Definition is_proposer {E} (a : Address) (round : Z) (qc_hash : Hash) (pe : ProposerElection) : res E bool :=
  p ← elect round qc_hash pe;
  Ok (match p with Some p => bool_decide (p = a) | None => false end).

(** Draw [i]: the entry at [i + pick] is selected and swapped to position [i]. *)
Definition draw {E} (pe : ProposerElection) (epoch_hash : Hash) (round : Z) (i : nat)
    (st : list nat * list Address) : res E (list nat * list Address) :=
  let '(indices, selected) := st in
  let pool := pe_n pe - Z.of_nat i in
  let pick := Z.to_nat (hash_index (epoch_hash ++ to_be 8 round ++ to_be 8 (Z.of_nat i)) pool) in
  k ← unwrap (indices !! (i + pick)%nat);
  a ← unwrap (pe_validators pe !! k);
  indices' ← swap indices i (i + pick)%nat;
  Ok (indices', selected ++ [a]).

Fixpoint draws {E} (pe : ProposerElection) (epoch_hash : Hash) (round : Z) (ixs : list nat)
    (st : list nat * list Address) : res E (list nat * list Address) :=
  match ixs with
  | [] => Ok st
  | i :: ixs => st' ← draw pe epoch_hash round i st; draws pe epoch_hash round ixs st'
  end.

Definition elect_committee {E} (round : Z) (epoch_hash : Hash) (size : Z) (pe : ProposerElection)
    : res E (list Address) :=
  let n := pe_n pe in
  if (n =? 0) || (size =? 0) then Ok []
  else if n <=? size then Ok (pe_validators pe)
  else
    st ← draws pe epoch_hash round (seq 0 (Z.to_nat size)) (seq 0 (Z.to_nat n), []);
    Ok st.2.

Fixpoint elect_batch {E} (rounds : list Z) (qc_hash : Hash) (pe : ProposerElection)
    : res E (list (Z * option Address)) :=
  match rounds with
  | [] => Ok []
  | r :: rs => p ← elect r qc_hash pe; rest ← elect_batch rs qc_hash pe; Ok ((r, p) :: rest)
  end.

(** The range ends at a sum that wraps; [filter_map] drops rounds without a proposer. *)
Definition lookahead {E} (start count : Z) (qc_hash : Hash) (pe : ProposerElection) : res E (list (Z * Address)) :=
  if pe_n pe =? 0 then Ok []
  else
    l ← elect_batch (seqZ start (u64 (start + count) - start)) qc_hash pe;
    Ok (omap (M := list) (fun x : Z * option Address => match x.2 with Some p => Some (x.1, p) | None => None end) l).

Lemma hash_index_bound x n : 0 < n -> 0 <= hash_index x n < n.
Proof. apply Z.mod_pos_bound. Qed.

(** ** The proposer *)

Lemma elect_Ok {E} round h pe : pe_validators pe <> [] ->
  exists a, @elect E round h pe = Ok (Some a) /\ a ∈ pe_validators pe.
Proof.
  intros Hne. unfold elect, pe_n. destruct (Z.eqb_spec (zlen (pe_validators pe)) 0) as [H0|H0].
  { destruct (pe_validators pe) as [|x l]; [done|]. rewrite zlen_cons in H0. pose proof (zlen_nonneg l). lia. }
  destruct (@index_Ok Address E (pe_validators pe) (vrf_index h round (zlen (pe_validators pe)))) as (a & Ha & ->).
  { pose proof (zlen_nonneg (pe_validators pe)). unfold vrf_index, hash_index. apply Z.mod_pos_bound. lia. }
  exists a. split; [done|]. by eapply list_elem_of_lookup_2.
Qed.

(** The driver of HotStuff.v computes the same proposer from a rotated seed. *)
Lemma elect_is_driver {E} round seed vs q : seed <> zero_hash ->
  @proposer_for_round CR E (mkVSet vs q seed) round
  = match @elect E round seed (mkElection vs) with Ok (Some a) => Ok a | Ok None => Panic | Err e => Err e | Panic => Panic end.
Proof.
  intros Hs. unfold proposer_for_round, elect, pe_n. simpl. destruct (zlen vs =? 0); [done|].
  rewrite bool_decide_false by done. unfold vrf_index, hash_index.
  by destruct (index vs _) as [a|e|].
Qed.

(** ** The committee *)

(** After some draws the members are the validators at the first indices. *)
Definition drawn (pe : ProposerElection) (i : nat) (st : list nat * list Address) : Prop :=
  st.1 ≡ₚ seq 0 (length (pe_validators pe)) /\
  omap (fun k => pe_validators pe !! k) (take i st.1) = st.2 /\ length st.2 = i.

Lemma draw_Ok {E} pe eh r i st : (i < length (pe_validators pe))%nat -> drawn pe i st ->
  exists st', @draw E pe eh r i st = Ok st' /\ drawn pe (S i) st'.
Proof.
  intros Hi (Hperm & Htake & Hlen). destruct st as [ind sel]. simpl in *. unfold draw, pe_n.
  set (vs := pe_validators pe) in *. pose proof (Permutation_length Hperm) as Hl. rewrite length_seq in Hl.
  set (pick := Z.to_nat _). assert (i + pick < length vs)%nat as Hpick.
  { unfold pick. match goal with |- context [hash_index ?x ?n] =>
      pose proof (hash_index_bound x n ltac:(unfold zlen; lia)) end. unfold zlen in *. lia. }
  destruct (lookup_lt_is_Some_2 ind (i + pick)) as [k Hk]; [lia|]. rewrite Hk. simpl.
  assert (k < length vs)%nat as Hkv.
  { apply list_elem_of_lookup_2 in Hk. rewrite Hperm in Hk. apply elem_of_seq in Hk. lia. }
  destruct (lookup_lt_is_Some_2 vs k Hkv) as [a Ha]. rewrite Ha. simpl.
  destruct (@swap_Ok nat E ind i (i + pick)) as (ind' & Hsw & Hlen' & Hlook); [lia|lia|]. rewrite Hsw. simpl.
  eexists. split; [done|]. split; simpl; [by rewrite (swap_perm _ _ _ _ Hsw)|].
  assert (take i ind' = take i ind) as Hpre.
  { apply list_eq. intros j. destruct (decide (j < i)%nat); [|by rewrite !lookup_take_ge by lia].
    rewrite !lookup_take_lt by done. rewrite Hlook. unfold transpose. by rewrite !decide_False by lia. }
  assert (ind' !! i = Some k) as Hik by (rewrite Hlook; unfold transpose; by rewrite decide_True).
  fold vs. rewrite (take_S_r _ _ _ Hik), Hpre, omap_app, Htake. simpl. rewrite Ha. split; [done|].
  rewrite length_app. simpl. lia.
Qed.

Lemma draws_Ok {E} pe eh r m : forall i st, (i + m <= length (pe_validators pe))%nat -> drawn pe i st ->
  exists st', @draws E pe eh r (seq i m) st = Ok st' /\ drawn pe (i + m) st'.
Proof.
  induction m as [|m IH]; intros i st Hle Hd; simpl; [exists st; by rewrite Nat.add_0_r|].
  destruct (@draw_Ok E pe eh r i st) as (st1 & -> & Hd1); [lia|done|]. simpl.
  destruct (IH (S i) st1) as (st2 & -> & Hd2); [lia|done|]. exists st2. split; [done|]. by rewrite Nat.add_succ_r.
Qed.

Lemma omap_perm_seq {A} (l : list A) : omap (fun k => l !! k) (seq 0 (length l)) = l.
Proof.
  assert (forall (x : A) l n i, omap (fun k => (x :: l) !! k) (seq (S i) n) = omap (fun k => l !! k) (seq i n)) as Hs.
  { intros x k n. induction n as [|n IH]; intros i; simpl; [done|]. by rewrite IH. }
  induction l as [|x l IH]; [done|]. cbn [length seq]. simpl. f_equal. by rewrite Hs.
Qed.

(** Electing a committee never panics.  It returns everyone when the size
    asked for is at least the number of validators, and otherwise exactly that
    many members, drawn without replacement: with those left out they are a
    permutation of the validators, so no entry of the set is drawn twice.
    The single proposer is a validator, too. *)
Theorem committee_sample {E} round eh size pe : 0 <= size ->
  exists members rest, @elect_committee E round eh size pe = Ok members /\
    members ++ rest ≡ₚ pe_validators pe /\ zlen members = Z.min size (pe_n pe) /\
    (NoDup (pe_validators pe) -> NoDup members) /\
    (pe_validators pe <> [] -> exists a, @elect E round eh pe = Ok (Some a) /\ a ∈ pe_validators pe).
Proof.
  intros Hs. assert (exists members rest, @elect_committee E round eh size pe = Ok members /\
    members ++ rest ≡ₚ pe_validators pe /\ zlen members = Z.min size (pe_n pe)) as (m & rest & H1 & H2 & H3).
  - unfold elect_committee, pe_n. pose proof (zlen_nonneg (pe_validators pe)).
    destruct (Z.eqb_spec (zlen (pe_validators pe)) 0) as [H0|H0]; simpl.
    { exists [], (pe_validators pe). rewrite zlen_nil. split_and!; [done|done|lia]. }
    destruct (Z.eqb_spec size 0) as [->|Hs0]; simpl.
    { exists [], (pe_validators pe). rewrite zlen_nil. split_and!; [done|done|lia]. }
    destruct (Z.leb_spec (zlen (pe_validators pe)) size).
    { exists (pe_validators pe), []. rewrite app_nil_r. split_and!; [done|done|lia]. }
    unfold zlen in *. rewrite Nat2Z.id.
    destruct (@draws_Ok E pe eh round (Z.to_nat size) 0 (seq 0 (length (pe_validators pe)), [])) as ([ind sel] & -> & Hd);
      [lia|by split_and!|].
    destruct Hd as (Hp & Ht & Hl). simpl in *.
    exists sel, (omap (fun k => pe_validators pe !! k) (drop (Z.to_nat size) ind)).
    split_and!; [done| |lia]. rewrite <-Ht, <-omap_app, take_drop, Hp. by rewrite omap_perm_seq.
  - exists m, rest. split_and!; [done..| |by apply elect_Ok]. intros Hnd. rewrite <-H2 in Hnd.
    by apply list.NoDup_app in Hnd as [? _].
Qed.

Lemma lookahead_rounds {E} start count h pe : pe_validators pe <> [] -> 0 <= start -> 0 <= count -> start + count < 2 ^ 64 ->
  exists l, @lookahead E start count h pe = Ok l /\ l.*1 = seqZ start count /\ Forall (fun x => x.2 ∈ pe_validators pe) l.
Proof.
  intros Hne Hs Hc Hr. unfold lookahead. destruct (Z.eqb_spec (pe_n pe) 0) as [H0|_].
  { unfold pe_n in H0. destruct (pe_validators pe) as [|x l]; [done|]. rewrite zlen_cons in H0.
    pose proof (zlen_nonneg l). lia. }
  rewrite wrap_small by (unfold in_range; lia). replace (start + count - start) with count by lia.
  induction (seqZ start count) as [|x xs IH]; simpl; [by exists []|].
  destruct (@elect_Ok E x h pe Hne) as (a & -> & Ha). simpl. destruct IH as (l & Hl & Hf & Hv).
  destruct (elect_batch xs h pe) as [b|e|]; try done. simpl in *. injection Hl as <-.
  eexists. split; [reflexivity|]. simpl. split; [by f_equal|by constructor].
Qed.
End election.

(** * The epoch manager (crates/zbx-consensus/src/epoch_manager.rs)

    The validator set of each epoch and its rotation at the epoch's last
    block.  [epochs_follow_blocks]: after any number of blocks the manager is
    in the epoch they fill, and remembers every earlier one as it was. *)

Definition EPOCH_LENGTH : Z := 172800.
Definition MAX_VALIDATORS : nat := 100.
Definition MIN_VALIDATOR_STAKE : Z := 100000 * 10 ^ 18.

Record ValidatorEntry : Type := mkEntry { v_address : Address; stake_wei : Z; v_bls_pubkey : bytes }.

Record EpochState : Type := mkEpoch {
  epoch : Z; start_block : Z; end_block : Z; validators : list ValidatorEntry;
  validator_hash : Hash; start_state_root : Hash }.

Definition validator_addresses (e : EpochState) : list Address := map v_address (validators e).
Definition total_stake (e : EpochState) : Z := u128 (foldr (fun v acc => stake_wei v + acc) 0 (validators e)).
Definition quorum (e : EpochState) : Z := zlen (validators e) * 2 / 3 + 1.
Definition is_last_block (b : Z) (e : EpochState) : bool := b =? end_block e.
Definition is_first_block (b : Z) (e : EpochState) : bool := b =? start_block e.

(** [sort_by(|a, b| b.stake_wei.cmp(&a.stake_wei))]: stable, by descending stake. *)
Fixpoint insert_entry (v : ValidatorEntry) (l : list ValidatorEntry) : list ValidatorEntry :=
  match l with
  | [] => [v]
  | w :: l' => if stake_wei w <=? stake_wei v then v :: l else w :: insert_entry v l'
  end.
Definition sort_entries (l : list ValidatorEntry) : list ValidatorEntry := foldr insert_entry [] l.

Inductive EpochEvent : Type :=
| EpochTransition (old_epoch new_epoch : Z) (new_state : EpochState)
| BlockProcessed (block_number epoch : Z).

Record EpochManager : Type := mkManager {
  current : EpochState; history : gmap Z EpochState; epoch_length : Z; pending_candidates : list ValidatorEntry }.

Section epochs.
Context {CR : Crypto}.

Definition compute_validator_hash (vs : list ValidatorEntry) : Hash :=
  keccak256 (concat (map (fun v => v_address v ++ to_be 16 (stake_wei v)) vs)).

Definition epoch_new (e len : Z) (vs : list ValidatorEntry) (root : Hash) : EpochState :=
  let vs := take MAX_VALIDATORS (sort_entries vs) in
  mkEpoch e (u64 (u64 (u64 (e - 1) * len) + 1)) (u64 (e * len)) vs (compute_validator_hash vs) root.

Definition manager_new (genesis : list ValidatorEntry) (len : Z) : EpochManager :=
  mkManager (epoch_new 1 len genesis zero_hash) ∅ len [].

Definition from_state (st : EpochState) (len : Z) : EpochManager := mkManager st ∅ len [].

Definition update_candidates (cs : list ValidatorEntry) (m : EpochManager) : EpochManager :=
  mkManager (current m) (history m) (epoch_length m) cs.

(** The candidates of the next epoch; an empty update keeps the current set. *)
Definition next_candidates (m : EpochManager) : list ValidatorEntry :=
  match pending_candidates m with
  | [] => validators (current m)
  | cs => List.filter (fun v => MIN_VALIDATOR_STAKE <=? stake_wei v) cs
  end.

Definition rotate (root : Hash) (m : EpochManager) : EpochEvent * EpochManager :=
  let old_epoch := epoch (current m) in
  let new_epoch := u64 (old_epoch + 1) in
  let new_state := epoch_new new_epoch (epoch_length m) (next_candidates m) root in
  (EpochTransition old_epoch new_epoch new_state,
   mkManager new_state (<[old_epoch := current m]> (history m)) (epoch_length m) []).

Definition on_block_committed (b : Z) (root : Hash) (m : EpochManager) : EpochEvent * EpochManager :=
  if is_last_block b (current m) then rotate root m else (BlockProcessed b (epoch (current m)), m).

Definition epoch_state (e : Z) (m : EpochManager) : option EpochState :=
  if e =? epoch (current m) then Some (current m) else history m !! e.
Definition next_epoch_boundary (m : EpochManager) : Z := u64 (end_block (current m) + 1).
Definition blocks_until_rotation (b : Z) (m : EpochManager) : Z := sat 64 (end_block (current m) - b).

(** ** The validators of an epoch *)

Definition heavier (a b : ValidatorEntry) : Prop := stake_wei b <= stake_wei a.

Lemma insert_entry_perm v l : insert_entry v l ≡ₚ v :: l.
Proof.
  induction l as [|w l IH]; simpl; [done|]. destruct (_ <=? _); [done|]. rewrite IH. by rewrite Permutation_swap.
Qed.

Lemma sort_entries_perm l : sort_entries l ≡ₚ l.
Proof. induction l as [|v l IH]; [done|]. simpl. by rewrite insert_entry_perm, IH. Qed.

Lemma insert_entry_sorted v l : StronglySorted heavier l -> StronglySorted heavier (insert_entry v l).
Proof.
  induction 1 as [|w l Hl IH Hw]; simpl; [by repeat constructor|].
  destruct (Z.leb_spec (stake_wei w) (stake_wei v)) as [Hle|Hgt].
  - constructor; [by constructor|]. constructor; [done|]. eapply List.Forall_impl; [|exact Hw].
    unfold heavier. simpl. intros. lia.
  - constructor; [done|]. rewrite insert_entry_perm. constructor; [unfold heavier; lia|done].
Qed.

Lemma sort_entries_sorted l : StronglySorted heavier (sort_entries l).
Proof. induction l as [|v l IH]; [constructor|]. by apply insert_entry_sorted. Qed.

Lemma sorted_take {A} (R : A -> A -> Prop) n l : StronglySorted R l -> StronglySorted R (take n l).
Proof.
  revert l. induction n as [|n IH]; intros l Hl; [constructor|]. destruct Hl as [|x l Hl Hx]; [constructor|].
  simpl. constructor; [by apply IH|]. by apply Forall_take.
Qed.

(** The set of an epoch: at most 100, by descending stake, none left out that
    is heavier than one taken. *)
Definition elected (vs cands : list ValidatorEntry) : Prop :=
  exists rest, vs ++ rest ≡ₚ cands /\ StronglySorted heavier (vs ++ rest) /\ (length vs <= MAX_VALIDATORS)%nat /\
    (rest <> [] -> length vs = MAX_VALIDATORS).

Lemma epoch_new_elected e len cands root : elected (validators (epoch_new e len cands root)) cands.
Proof.
  exists (drop MAX_VALIDATORS (sort_entries cands)). simpl validators. rewrite take_drop.
  split_and!; [apply sort_entries_perm|apply sort_entries_sorted|apply firstn_le_length|].
  intros Hne. rewrite length_take. destruct (decide (length (sort_entries cands) <= MAX_VALIDATORS)%nat) as [Hle|]; [|lia].
  by rewrite drop_ge in Hne.
Qed.

(** ** Blocks and epochs *)

(** [epoch e] holds the blocks [(e - 1) * len + 1] to [e * len]. *)
Definition covers (len e : Z) (st : EpochState) : Prop :=
  epoch st = e /\ start_block st = (e - 1) * len + 1 /\ end_block st = e * len /\
  StronglySorted heavier (validators st) /\ (length (validators st) <= MAX_VALIDATORS)%nat.

Lemma epoch_new_covers e len cands root : 1 <= e -> 1 <= len -> e * len < 2 ^ 64 -> covers len e (epoch_new e len cands root).
Proof.
  intros He Hl Hr. unfold covers. simpl. assert (e <= e * len) by nia. assert (0 <= (e - 1) * len < 2 ^ 64) by nia.
  assert ((e - 1) * len + 1 < 2 ^ 64) by nia.
  rewrite (wrap_small 64 (e - 1)), (wrap_small 64 ((e - 1) * len)), !wrap_small by (unfold in_range; lia).
  split_and!; try done. { apply sorted_take, sort_entries_sorted. } apply firstn_le_length.
Qed.

(** Block after block, with updates of the candidates in between. *)
Inductive epoch_op : Type := EUpdate (cs : list ValidatorEntry) | ECommit (root : Hash).

Fixpoint epoch_run (next : Z) (ops : list epoch_op) (m : EpochManager) : Z * EpochManager :=
  match ops with
  | [] => (next, m)
  | EUpdate cs :: ops => epoch_run next ops (update_candidates cs m)
  | ECommit root :: ops => epoch_run (next + 1) ops (snd (on_block_committed next root m))
  end.

(** The manager before block [next]. *)
Record epochs_ok (len next : Z) (m : EpochManager) : Prop := {
  eo_len : epoch_length m = len;
  eo_current : covers len ((next - 1) / len + 1) (current m);
  eo_history : forall e, is_Some (history m !! e) <-> 1 <= e < (next - 1) / len + 1;
  eo_covers : forall e st, history m !! e = Some st -> covers len e st }.

Lemma epochs_ok_new len genesis : 1 <= len < 2 ^ 64 -> epochs_ok len 1 (manager_new genesis len).
Proof.
  intros Hl. change ((1 - 1) / len + 1) with (0 / len + 1). split; simpl; [done| | |].
  - change (1 - 1) with 0. rewrite Z.div_0_l by lia. apply epoch_new_covers; lia.
  - intros e. change (1 - 1) with 0. rewrite Z.div_0_l, lookup_empty by lia. split; [by intros []|lia].
  - intros e st. by rewrite lookup_empty.
Qed.

(** When the quotient moves on. *)
Lemma next_epoch len b : 1 <= len -> 1 <= b ->
  b / len = if b =? ((b - 1) / len + 1) * len then (b - 1) / len + 1 else (b - 1) / len.
Proof.
  intros Hl Hb. pose proof (Z.div_mod (b - 1) len ltac:(lia)) as Hdm. pose proof (Z.mod_pos_bound (b - 1) len ltac:(lia)) as Hm.
  set (q := (b - 1) / len) in *. set (r := (b - 1) mod len) in *. destruct (Z.eqb_spec b ((q + 1) * len)) as [Heq|Hne].
  - rewrite Heq at 1. by rewrite Z.div_mul by lia.
  - symmetry. apply (Z.div_unique b len q (r + 1)); [|lia]. left. split; [lia|].
    destruct (decide (r + 1 = len)); [|lia]. exfalso. apply Hne. lia.
Qed.

Lemma commit_ok len b root m : 1 <= len -> 1 <= b -> ((b - 1) / len + 2) * len < 2 ^ 64 -> epochs_ok len b m ->
  epochs_ok len (b + 1) (snd (on_block_committed b root m)) /\
  (forall e st, history m !! e = Some st -> history (snd (on_block_committed b root m)) !! e = Some st).
Proof.
  intros Hl Hb Hr [Hlen Hcur Hhist Hcov]. pose proof Hcur as (He & Hs & Hend & _ & _).
  pose proof (next_epoch len b Hl Hb) as Hn. pose proof (Z.div_pos (b - 1) len ltac:(lia) ltac:(lia)) as Hq.
  unfold on_block_committed, is_last_block. rewrite Hend. replace (b + 1 - 1) with b in * by lia.
  destruct (Z.eqb_spec b (((b - 1) / len + 1) * len)) as [Heq|Hne].
  - unfold rotate. simpl snd. rewrite He. set (q := (b - 1) / len) in *.
    assert (u64 (q + 1 + 1) = q + 2) as Hw by (rewrite wrap_small; [lia|]; unfold in_range; nia).
    assert (history m !! (q + 1) = None) as Hnew.
    { destruct (history m !! (q + 1)) as [x|] eqn:Hx; [|done]. assert (is_Some (history m !! (q + 1))) as Hi by (by eexists).
      apply Hhist in Hi. lia. }
    split.
    + split; simpl; try (replace (b + 1 - 1) with b by lia; rewrite Hn).
      * done.
      * rewrite Hw, Hlen. replace (q + 1 + 1) with (q + 2) by lia. apply epoch_new_covers; lia.
      * intros e. rewrite lookup_insert_is_Some, Hhist. lia.
      * intros e st [[<- <-]|[Hne Hst]]%lookup_insert_Some; [done|by apply Hcov].
    + intros e st Hst. simpl. rewrite lookup_insert_ne; [done|congruence].
  - simpl snd. split; [|done]. split; try done; replace (b + 1 - 1) with b by lia; by rewrite Hn.
Qed.

(** Committing blocks 1, 2, ... with any updates of the candidates in
    between: before block [next] the manager is in the epoch that [next]
    belongs to, the epochs before it are all remembered with their block
    ranges, and nothing that was remembered is lost or changed. *)
Theorem epochs_follow_blocks len ops : forall next m next' m', 1 <= len -> 1 <= next -> epochs_ok len next m ->
  epoch_run next ops m = (next', m') -> (next' / len + 2) * len < 2 ^ 64 ->
  epochs_ok len next' m' /\ next <= next' /\
  (forall e st, history m !! e = Some st -> epoch_state e m' = Some st).
Proof.
  induction ops as [|[cs|root] ops IH]; intros next m next' m' Hl Hn Hok Hr Hb; simpl in Hr.
  - simplify_eq. split_and!; [done|lia|]. intros e st Hst. unfold epoch_state.
    destruct (Z.eqb_spec e (epoch (current m'))) as [->|]; [|done].
    destruct Hok as [_ (He & _) Hh _]. rewrite He in *. assert (is_Some (history m' !! ((next' - 1) / len + 1))) as Hi by (by eexists).
    apply Hh in Hi. lia.
  - apply (IH next (update_candidates cs m)); try done. destruct Hok. by split.
  - assert (next + 1 <= next') as Hle.
    { clear -Hr. revert Hr. generalize (snd (on_block_committed next root m)). generalize (next + 1). clear.
      induction ops as [|[cs|r] ops IH]; intros k m; simpl; [intros [= -> ->]; lia|apply IH|].
      intros H. apply IH in H. lia. }
    destruct (commit_ok len next root m Hl Hn) as [Hok1 Hh]; [|done|].
    { pose proof (Z.div_le_mono (next - 1) next' len ltac:(lia) ltac:(lia)). nia. }
    destruct (IH (next + 1) _ next' m' Hl ltac:(lia) Hok1 Hr Hb) as (H1 & H2 & H3).
    split_and!; [done|lia|]. intros e st Hst. by apply H3, Hh.
Qed.

(** ** What rotation and the hash leave out *)

(** Candidates that are all too light leave the chain without validators. *)
Lemma rotation_empties root m : pending_candidates m <> [] ->
  Forall (fun v => stake_wei v < MIN_VALIDATOR_STAKE) (pending_candidates m) ->
  validators (current (snd (rotate root m))) = [].
Proof.
  intros Hne Hl. simpl. unfold next_candidates. destruct (pending_candidates m) as [|c cs] eqn:Hp; [done|].
  assert (List.filter (fun v => MIN_VALIDATOR_STAKE <=? stake_wei v) (c :: cs) = []) as ->; [|done].
  clear -Hl. induction Hl as [|v l Hv Hl IH]; simpl; [done|].
  destruct (Z.leb_spec MIN_VALIDATOR_STAKE (stake_wei v)); [lia|done].
Qed.

(** The validator hash does not see the keys. *)
Lemma validator_hash_ignores_keys a s k1 k2 : compute_validator_hash [mkEntry a s k1] = compute_validator_hash [mkEntry a s k2].
Proof. done. Qed.

(** Of four validators three are a quorum; rounding two thirds up and adding one would ask for all. *)
Lemma quorum_of_four st : length (validators st) = 4%nat -> quorum st = 3.
Proof. intros H. unfold quorum, zlen. by rewrite H. Qed.
End epochs.
