(* ===== verification/Finality.v ===== *)
(** * The finality tracker (crates/zbx-consensus/src/finality.rs)

    Checkpoints that gather votes, and the tracker that declares them final.
    [finality_justified] says what stands behind a finalised block.

    Below: how consensus messages are forwarded (gossip.rs). *)

From Stdlib Require Import ZArith Lia.
From stdpp Require Import base tactics list gmap sets numbers option.
From S2P Require Import Prelude Bytes Crypto Vote Pacemaker Block Election Collections.

Local Open Scope Z_scope.

Record Checkpoint : Type := mkCheckpoint {
  cp_block_number : Z; cp_block_hash : Hash; cp_epoch : Z; finalized : bool;
  cp_votes : Z; required : Z; signers : list Address }.

Definition checkpoint_new (block : Z) (h : Hash) (e req : Z) : Checkpoint := mkCheckpoint block h e false 0 req [].

Definition cp_add_vote (signer : Address) (c : Checkpoint) : bool * Checkpoint :=
  if bool_decide (signer ∈ signers c) then (false, c)
  else
    let votes := u32 (cp_votes c + 1) in
    let fin := if required c <=? votes then true else finalized c in
    (fin, mkCheckpoint (cp_block_number c) (cp_block_hash c) (cp_epoch c) fin votes (required c) (signers c ++ [signer])).

Record FinalityTracker : Type := mkTracker {
  checkpoints : gmap Z Checkpoint; last_finalized : Z; finalized_hash : Hash;
  epoch_length : Z; validator_count : Z }.

Definition tracker_new (len n : Z) : FinalityTracker := mkTracker ∅ 0 zero_hash len n.

Definition required_votes (t : FinalityTracker) : Z := u32 (2 * (sat 32 (validator_count t - 1) / 3) + 1).

Definition set_checkpoints (m : gmap Z Checkpoint) (last : Z) (h : Hash) (t : FinalityTracker) : FinalityTracker :=
  mkTracker m last h (epoch_length t) (validator_count t).

(** An epoch length of zero divides by zero. *)
Definition on_block {E} (number : Z) (h : Hash) : M FinalityTracker E unit :=
  t ← get_st;
  if epoch_length t =? 0 then lift Panic
  else
    modify (fun t => set_checkpoints
      (<[number := checkpoint_new number h (number / epoch_length t) (required_votes t)]> (checkpoints t))
      (last_finalized t) (finalized_hash t) t).

Definition on_vote {E} (block : Z) (signer : Address) : M FinalityTracker E bool :=
  t ← get_st;
  match checkpoints t !! block with
  | Some cp =>
    let '(done, cp') := cp_add_vote signer cp in
    let m := <[block := cp']> (checkpoints t) in
    if done && (last_finalized t <? block) then
      _ ← put_st (set_checkpoints (filter (fun e => block <= e.1) m) block (cp_block_hash cp') t);
      mret true
    else
      _ ← put_st (set_checkpoints m (last_finalized t) (finalized_hash t) t);
      mret false
  | None => mret false
  end.

Definition is_finalized (block : Z) (t : FinalityTracker) : bool := block <=? last_finalized t.
Definition finality_lag (head : Z) (t : FinalityTracker) : Z := sat 64 (head - last_finalized t).

(** ** Justifications *)

Record Justification : Type := mkJustification {
  j_block_number : Z; j_block_hash : Hash; j_epoch : Z; j_validator : Address; j_signature : bytes }.

(** "ZBX_FINALITY_V1:" *)
Definition finality_tag : bytes := [90; 66; 88; 95; 70; 73; 78; 65; 76; 73; 84; 89; 95; 86; 49; 58].

Definition sign_payload (block : Z) (h : Hash) (e : Z) : bytes := finality_tag ++ to_be 8 block ++ h ++ to_be 8 e.

Definition just_is_valid (j : Justification) : bool :=
  negb (bool_decide (j_block_hash j = zero_hash)) && (0 <? j_block_number j) && (zlen (j_signature j) =? 65).

(** The signed bytes determine block, hash and epoch. *)
Lemma sign_payload_inj b1 h1 e1 b2 h2 e2 : in_range 64 b1 -> in_range 64 b2 -> in_range 64 e1 -> in_range 64 e2 ->
  length h1 = length h2 -> sign_payload b1 h1 e1 = sign_payload b2 h2 e2 -> b1 = b2 /\ h1 = h2 /\ e1 = e2.
Proof.
  intros Hb1 Hb2 He1 He2 Hh Heq. unfold sign_payload in Heq. apply app_inv_head in Heq.
  apply app_inj_length in Heq as [Hb Heq]; [|by rewrite !length_to_be].
  apply app_inj_length in Heq as [-> He]; [|done].
  split_and!; [by apply (to_be_inj 8)|done|by apply (to_be_inj 8)].
Qed.

(** ** Histories *)

Inductive fin_op : Type := FBlock (number : Z) (h : Hash) | FVote (block : Z) (signer : Address).
Inductive fin_event : Type := EBlock (number : Z) (h : Hash) | EVote (block : Z) (signer : Address) (done : bool).

Definition fin_call (o : fin_op) : FinalityTracker -> list fin_event * FinalityTracker :=
  match o with
  | FBlock n h => logged (on_block (E := unit) n h) (fun _ => EBlock n h)
  | FVote b s => logged (on_vote (E := unit) b s) (EVote b s)
  end.
Abbreviation fin_run := (history fin_call).

(** The hash last registered for a height and the signers that voted since. *)
Definition ballot (b : Z) (evs : list fin_event) : option (Hash * list Address) :=
  fold_left (fun acc e => match e with
    | EBlock n h => if n =? b then Some (h, []) else acc
    | EVote n s _ => if n =? b then match acc with
        | Some (h, ss) => Some (h, if bool_decide (s ∈ ss) then ss else ss ++ [s]) | None => None end else acc
    end) evs None.

Lemma ballot_snoc b evs e : ballot b (evs ++ [e]) =
  match e with
  | EBlock n h => if n =? b then Some (h, []) else ballot b evs
  | EVote n s _ => if n =? b then match ballot b evs with
      | Some (h, ss) => Some (h, if bool_decide (s ∈ ss) then ss else ss ++ [s]) | None => None end else ballot b evs
  end.
Proof. unfold ballot. by rewrite fold_left_app. Qed.

Lemma ballot_nodup b evs h ss : ballot b evs = Some (h, ss) -> NoDup ss /\ zlen ss <= zlen evs.
Proof.
  revert h ss. induction evs as [|e evs IH] using rev_ind; intros h ss; [done|]. rewrite ballot_snoc, zlen_app.
  pose proof (zlen_nonneg [e]). change (zlen [e]) with 1. pose proof (zlen_nonneg evs).
  assert (ballot b evs = Some (h, ss) -> NoDup ss /\ zlen ss <= zlen evs + 1) as Hkeep.
  { intros Hb. destruct (IH _ _ Hb). split; [done|lia]. }
  destruct e as [n h'|n s d]; (destruct (Z.eqb_spec n b); [|done]).
  - intros [= <- <-]. split; [constructor|]. rewrite zlen_nil. lia.
  - destruct (ballot b evs) as [[h' ss']|]; [|done]. case_bool_decide as Hin; intros [= <- <-]; [by apply Hkeep|].
    destruct (IH _ _ eq_refl) as [H1 H2]. split.
    + apply list.NoDup_app. split_and!; [done| |apply NoDup_singleton]. intros x Hx ->%list_elem_of_singleton. done.
    + rewrite zlen_app. change (zlen [s]) with 1. lia.
Qed.

(** ** The invariant *)

Record fin_inv (len n : Z) (evs : list fin_event) (t : FinalityTracker) : Prop := {
  fi_params : epoch_length t = len /\ validator_count t = n;
  fi_cps : forall b cp, checkpoints t !! b = Some cp ->
    ballot b evs = Some (cp_block_hash cp, signers cp) /\ cp_votes cp = zlen (signers cp) /\
    required cp = required_votes t /\ finalized cp = (required cp <=? cp_votes cp);
  fi_last : forall e, e ∈ evs -> match e with EVote b _ true => b <= last_finalized t | _ => True end }.

Lemma required_pos t : 1 <= required_votes t.
Proof.
  unfold required_votes. pose proof (sat_range 32 (validator_count t - 1) ltac:(lia)) as Hs. unfold in_range in Hs.
  assert (0 <= sat 32 (validator_count t - 1) / 3 < 2 ^ 31) as Hd.
  { split; [apply Z.div_pos; lia|]. apply Z.div_lt_upper_bound; lia. }
  rewrite wrap_small; [lia|]. unfold in_range. lia.
Qed.

Lemma fin_call_inv len n o evs t ev t' : fin_inv len n evs t -> zlen evs + 1 < 2 ^ 32 -> fin_call o t = (ev, t') ->
  fin_inv len n (evs ++ ev) t' /\ last_finalized t <= last_finalized t'.
Proof.
  intros I Hlen. pose proof I as [Hpar Hcps Hlast].
  assert (fin_inv len n (evs ++ []) t /\ last_finalized t <= last_finalized t) as I' by (rewrite app_nil_r; split; [done|lia]).
  destruct o as [b h|b s]; unfold fin_call, logged.
  - unfold on_block. open_call. destruct (epoch_length t =? 0); [by intros [= <- <-]|]. intros [= <- <-].
    split; [|simpl; lia]. split; simpl; [done| |].
    + intros b' cp [[<- <-]|[Hne Hcp]]%lookup_insert_Some; rewrite ballot_snoc.
      * rewrite Z.eqb_refl. split_and!; try done. simpl. symmetry. apply Z.leb_gt. pose proof (required_pos t). lia.
      * rewrite (proj2 (Z.eqb_neq b b')) by done. by apply Hcps.
    + intros e [He|He%list_elem_of_singleton]%elem_of_app; [by apply Hlast|by subst e].
  - unfold on_vote. open_call. destruct (checkpoints t !! b) as [cp|] eqn:Hcp.
    2:{ intros [= <- <-]. split; [|lia]. split; [done| |].
        - intros b' cp' Hcp'. rewrite ballot_snoc. destruct (Z.eqb_spec b b') as [->|]; [congruence|by apply Hcps].
        - intros e [He|He%list_elem_of_singleton]%elem_of_app; [by apply Hlast|by subst e]. }
    destruct (Hcps b cp Hcp) as (Hb & Hv & Hreq & Hfin). destruct (ballot_nodup _ _ _ _ Hb) as [Hnd Hsz].
    destruct (cp_add_vote s cp) as [done cp'] eqn:Hadd.
    assert (cp_block_hash cp' = cp_block_hash cp /\ required cp' = required cp /\
      signers cp' = (if bool_decide (s ∈ signers cp) then signers cp else signers cp ++ [s]) /\
      cp_votes cp' = zlen (signers cp') /\ finalized cp' = (required cp' <=? cp_votes cp')) as (H1 & H2 & H3 & H4 & H5).
    { unfold cp_add_vote in Hadd. case_bool_decide; injection Hadd as <- <-; [by split_and!|]. simpl.
      rewrite zlen_app, Hv. change (zlen [s]) with 1. rewrite wrap_small by (unfold in_range; pose proof (zlen_nonneg (signers cp)); lia).
      split_and!; try done. rewrite Hfin, Hv. destruct (Z.leb_spec (required cp) (zlen (signers cp) + 1)); [done|].
      by apply Z.leb_gt; lia. }
    assert (forall d last m, (forall b', m !! b' = <[b := cp']> (checkpoints t) !! b' \/ m !! b' = None) -> last_finalized t <= last ->
      (d = true -> b <= last) ->
      fin_inv len n (evs ++ [EVote b s d]) (set_checkpoints m last (if d then cp_block_hash cp' else finalized_hash t) t)) as Hgoal.
    { intros d last m Hm Hl Hd. split; simpl; [done| |].
      - intros b' x Hx. destruct (Hm b') as [Hm'|Hm']; rewrite Hm' in Hx; [|done].
        apply lookup_insert_Some in Hx as [[<- <-]|[Hne Hx]]; rewrite ballot_snoc.
        + rewrite Z.eqb_refl, Hb, H1, H3. split_and!; [done|by rewrite H4, H3|by rewrite H2|done].
        + rewrite (proj2 (Z.eqb_neq b b')) by done. by apply Hcps.
      - intros e [He|He%list_elem_of_singleton]%elem_of_app.
        + specialize (Hlast e He). destruct e as [|? ? []]; try done. lia.
        + subst e. destruct d; [by apply Hd|done]. }
    destruct done; simpl; [destruct (Z.ltb_spec (last_finalized t) b)|]; intros [= <- <-]; simpl; split; try lia.
    + apply (Hgoal true); [|lia|done]. intros b'. rewrite map_lookup_filter.
      destruct (<[b := cp']> (checkpoints t) !! b') as [x|]; simpl; [|by right]. case_guard; simpl; [by left|by right].
    + apply (Hgoal false); [by left|lia|done].
    + apply (Hgoal false); [by left|lia|done].
Qed.

Lemma fin_call_short o t : (length (fin_call o t).1 <= 1)%nat.
Proof. destruct o; apply logged_short. Qed.

Lemma fin_run_inv len n ops evs t : zlen ops < 2 ^ 32 -> fin_run ops (tracker_new len n) = (evs, t) -> fin_inv len n evs t.
Proof.
  intros Hlen Hr. apply (history_inv fin_call fin_call_short (fin_inv len n) (2 ^ 32)) with
    (ops := ops) (evs := []) (s := tracker_new len n); [|split|done|done].
  - intros o e s ev s' I Hl Hc. by eapply fin_call_inv.
  - done.
  - intros b cp H. simpl in H. by rewrite lookup_empty in H.
  - by intros e ?%elem_of_nil.
Qed.

(** The state when a vote finalises a block. *)
Lemma on_vote_true len n evs t b s t' : fin_inv len n evs t -> zlen evs + 1 < 2 ^ 32 ->
  on_vote (E := unit) b s t = (Ok true, t') ->
  last_finalized t < b /\ exists h ss, ballot b (evs ++ [EVote b s true]) = Some (h, ss) /\ NoDup ss /\
    required_votes t <= zlen ss /\ finalized_hash t' = h /\ last_finalized t' = b.
Proof.
  intros I Hlen Hv. assert (fin_call (FVote b s) t = ([EVote b s true], t')) as Hc by (unfold fin_call, logged; by rewrite Hv).
  destruct (fin_call_inv _ _ _ _ _ _ _ I Hlen Hc) as [[_ Hcps' _] _]. destruct I as [_ Hcps _].
  unfold on_vote in Hv. revert Hv. open_call. destruct (checkpoints t !! b) as [cp|] eqn:Hcp; [|done].
  destruct (cp_add_vote s cp) as [done cp'] eqn:Hadd. destruct done; simpl; [|done].
  destruct (Z.ltb_spec (last_finalized t) b) as [Hlt|]; [|done]. intros [= <-]. split; [done|].
  destruct (Hcps b cp Hcp) as (_ & _ & Hreq & _).
  assert (checkpoints (set_checkpoints (filter (fun e => b <= e.1) (<[b := cp']> (checkpoints t))) b (cp_block_hash cp') t) !! b
    = Some cp') as Hcp'.
  { simpl. apply map_lookup_filter_Some. rewrite lookup_insert_eq. simpl. split; [done|lia]. }
  destruct (Hcps' b cp' Hcp') as (Hb & Hvt & Hrq & Hfin).
  assert (finalized cp' = true) as Hft.
  { unfold cp_add_vote in Hadd. case_bool_decide; injection Hadd as Hf <-; [done|]. exact Hf. }
  rewrite Hft in Hfin. symmetry in Hfin. apply Z.leb_le in Hfin.
  exists (cp_block_hash cp'), (signers cp'). destruct (ballot_nodup _ _ _ _ Hb) as [Hnd _].
  split_and!; [done|done| |done|done]. rewrite <-Hvt. change (required_votes t) with (required_votes
    (set_checkpoints (filter (fun e => b <= e.1) (<[b := cp']> (checkpoints t))) b (cp_block_hash cp') t)). by rewrite <-Hrq.
Qed.

(** C35. A block is declared final only after as many distinct signers as the
    tracker requires voted for its height since its hash was registered, and
    heights become final in increasing order, each once. *)
Theorem finality_justified len n ops evs t : zlen ops < 2 ^ 32 -> fin_run ops (tracker_new len n) = (evs, t) ->
  forall e1 b s e2, evs = e1 ++ EVote b s true :: e2 ->
    (exists h ss, ballot b (e1 ++ [EVote b s true]) = Some (h, ss) /\ NoDup ss /\
       required_votes (tracker_new len n) <= zlen ss) /\
    (forall b' s', EVote b' s' true ∈ e1 -> b' < b).
Proof.
  intros Hlen Hrun e1 b s e2 ->. apply (history_split fin_call fin_call_short) in Hrun
    as (ops1 & o & ops2 & t1 & t2 & -> & H1 & Ho & _).
  rewrite zlen_app, zlen_cons in Hlen. pose proof (zlen_nonneg ops2).
  pose proof (fin_run_inv len n ops1 _ _ ltac:(lia) H1) as I1.
  pose proof (history_length fin_call fin_call_short ops1 (tracker_new len n)) as Hle. rewrite H1 in Hle. simpl in Hle.
  destruct o as [b' h|b' s']; unfold fin_call, logged in Ho.
  { destruct (on_block b' h t1) as [[?|?|] ?]; simplify_eq. }
  destruct (on_vote b' s' t1) as [[d|?|] t3] eqn:Hv; simplify_eq.
  destruct (on_vote_true len n e1 t1 b s t2 I1) as (Hlt & h & ss & Hb & Hnd & Hq & _); [unfold zlen in *; lia|done|].
  split.
  - exists h, ss. split_and!; [done..|]. destruct I1 as [[_ Hn] _ _]. unfold required_votes in *. by rewrite Hn in Hq.
  - intros b' s' Hin. destruct I1 as [_ _ Hlast]. specialize (Hlast _ Hin). simpl in Hlast. lia.
Qed.

(** ** What the tracker does not guarantee *)

Definition signer (k : Z) : Address := replicate 20 k.

(** With six validators three votes are enough, so two disjoint halves finalise
    two different blocks of one height. *)
Lemma finality_disjoint_quorums (h1 h2 : Hash) :
  let half a := snd (fin_run [FBlock 10 a] (tracker_new 100 6)) in
  let t1 := snd (fin_run [FVote 10 (signer 1); FVote 10 (signer 2); FVote 10 (signer 3)] (half h1)) in
  let t2 := snd (fin_run [FVote 10 (signer 4); FVote 10 (signer 5); FVote 10 (signer 6)] (half h2)) in
  last_finalized t1 = 10 /\ last_finalized t2 = 10 /\ finalized_hash t1 = h1 /\ finalized_hash t2 = h2.
Proof. by vm_compute. Qed.

(** A vote names a height, not a block, and any address may cast it: another
    block of the height takes over, and the same signers vote again. *)
Lemma finality_votes_reset (h1 h2 : Hash) :
  let t := snd (fin_run [FBlock 10 h1; FVote 10 (signer 1); FVote 10 (signer 2); FBlock 10 h2;
                         FVote 10 (signer 1); FVote 10 (signer 2); FVote 10 (signer 3)] (tracker_new 100 4)) in
  finalized_hash t = h2.
Proof. by vm_compute. Qed.

(** ** An example *)

Definition finality_ops : list fin_op :=
  [FBlock 10 zero_hash; FVote 10 (signer 1); FVote 10 (signer 2); FVote 10 (signer 2); FVote 10 (signer 3)].

Abbreviation finality_run := (fin_run finality_ops (tracker_new 100 4)).

Lemma finality_justified_witness :
  exists h ss, ballot 10 (fst finality_run) = Some (h, ss) /\ NoDup ss /\ 3 <= zlen ss.
Proof.
  destruct (finality_justified 100 4 finality_ops (fst finality_run) (snd finality_run) ltac:(done)
    (surjective_pairing _) (removelast (fst finality_run)) 10 (signer 3) [] ltac:(by vm_compute)) as [(h & ss & H) _].
  exists h, ss. exact H.
Defined.

(** * Consensus gossip (crates/zbx-consensus/src/gossip.rs)

    Which messages are forwarded to whom: rate limits, expiry, the set of
    messages seen, the shuffle that selects peers.  [gossip_forwards] says what
    a forwarded message satisfies. *)

Definition MIN_FANOUT : Z := 4.
Definition SEEN_CAPACITY : Z := 8192.
Definition EXPIRY_ROUNDS : Z := 10.
Definition RATE_LIMIT_PER_SEC : Z := 200.

(** [GossipPriority as u8]. *)
Inductive GossipPriority : Type := PTimeoutShare | PVote | PTc | PQc | PProposal.
Definition priority_byte (p : GossipPriority) : Z :=
  match p with PTimeoutShare => 0 | PVote => 1 | PTc => 2 | PQc => 3 | PProposal => 4 end.

Inductive GossipMessage (Body : Type) : Type :=
| GProposal (block : Block Body) (round epoch : Z) (proposer : Address)
| GVote (v : Vote)
| GQc (q : QuorumCertificate)
| GTc (t : TimeoutCertificate)
| GTimeoutShare (s : TimeoutShare).
Arguments GProposal {Body}.
Arguments GVote {Body}.
Arguments GQc {Body}.
Arguments GTc {Body}.
Arguments GTimeoutShare {Body}.

Section gossip.
Context {Body : Type}.
Abbreviation Message := (GossipMessage Body).

Definition priority (m : Message) : GossipPriority :=
  match m with
  | GProposal _ _ _ _ => PProposal | GQc _ => PQc | GTc _ => PTc | GVote _ => PVote | GTimeoutShare _ => PTimeoutShare
  end.

Definition msg_round (m : Message) : Z :=
  match m with
  | GProposal _ r _ _ => r
  | GVote v => block_number (data v)
  | GQc q => block_number (vote_data q)
  | GTc t => tc_round t
  | GTimeoutShare s => sd_round (ts_data s)
  end.

(** Byte 0 the priority, 1 to 9 the round, 21 to 41 the sender of votes and shares. *)
Definition dedup_key (m : Message) : bytes :=
  [priority_byte (priority m)] ++ to_be 8 (msg_round m) ++ replicate 12 0 ++
  match m with GVote v => voter v | GTimeoutShare s => ts_validator s | _ => replicate 20 0 end.

Record Envelope : Type := mkEnvelope { message : Message; recipients : list Address }.

Record PeerLimiter : Type := mkLimiter { count : Z; window_start_secs : Z }.
Definition limiter_new : PeerLimiter := mkLimiter 0 0.

Definition check_and_record (now_secs : Z) (l : PeerLimiter) : bool * PeerLimiter :=
  let l := if negb (now_secs =? window_start_secs l) then mkLimiter 0 now_secs else l in
  if RATE_LIMIT_PER_SEC <=? count l then (false, l)
  else (true, mkLimiter (u32 (count l + 1)) (window_start_secs l)).

Record GossipEngine : Type := mkEngine {
  self_addr : Address; validators : list Address; fan_out : Z; seen : list bytes; seen_set : gset bytes;
  rate_limiters : gmap Address PeerLimiter; current_round : Z }.

(** [(n as f64).sqrt().ceil()]: exact for the sizes of a validator set. *)
Definition fan_out_of (n : Z) : Z := Z.min (Z.max (Z.sqrt_up n) MIN_FANOUT) (sat 64 (n - 1)).

Definition engine_new (a : Address) (vs : list Address) : GossipEngine :=
  mkEngine a vs (fan_out_of (zlen vs)) [] ∅ ∅ 0.

Definition set_round (r : Z) (g : GossipEngine) : GossipEngine :=
  mkEngine (self_addr g) (validators g) (fan_out g) (seen g) (seen_set g) (rate_limiters g) r.
Definition set_limiters (m : gmap Address PeerLimiter) (g : GossipEngine) : GossipEngine :=
  mkEngine (self_addr g) (validators g) (fan_out g) (seen g) (seen_set g) m (current_round g).

Definition insert_seen (key : bytes) (g : GossipEngine) : GossipEngine :=
  let '(q, s) :=
    if SEEN_CAPACITY <=? zlen (seen g) then
      match seen g with old :: rest => (rest, seen_set g ∖ {[old]}) | [] => (seen g, seen_set g) end
    else (seen g, seen_set g) in
  mkEngine (self_addr g) (validators g) (fan_out g) (q ++ [key]) ({[key]} ∪ s) (rate_limiters g) (current_round g).

Definition update_validators (vs : list Address) (g : GossipEngine) : GossipEngine :=
  mkEngine (self_addr g) vs (fan_out_of (zlen vs)) (seen g) (seen_set g)
    (filter (fun e => e.1 ∈ vs) (rate_limiters g)) (current_round g).

(** ** Selecting peers *)

Definition lcg_next (x : Z) : Z := u64 (u64 (x * 6364136223846793005) + 1442695040888963407).

(** [for i in (1..n).rev()]: swap [i] with a pseudo-random [j <= i]. *)
Fixpoint shuffle {E} (ixs : list nat) (lcg : Z) (indices : list nat) : res E (list nat) :=
  match ixs with
  | [] => Ok indices
  | i :: ixs =>
    let lcg := lcg_next lcg in
    let j := Z.to_nat (lcg mod (Z.of_nat i + 1)) in
    indices ← swap indices i j; shuffle ixs lcg indices
  end.

Definition candidates (exclude : Address) (g : GossipEngine) : list Address :=
  List.filter (fun a => negb (bool_decide (a = self_addr g)) && negb (bool_decide (a = exclude))) (validators g).

Definition select_peers {E} (exclude : Address) (g : GossipEngine) : res E (list Address) :=
  let cs := candidates exclude g in
  match cs with
  | [] => Ok []
  | _ =>
    let n := length cs in
    indices ← shuffle (rev (seq 1 (n - 1))) (lcg_next (current_round g)) (seq 0 n);
    foldr (fun i acc => rest ← acc; c ← unwrap (cs !! i); Ok (c :: rest)) (Ok [])
      (take (Z.to_nat (fan_out g)) indices)
  end.

Definition on_inbound (sender : Address) (msg : Message) (now_secs : Z)
    : M GossipEngine ConsensusError (option Envelope) :=
  g ← get_st;
  let '(ok, l) := check_and_record now_secs (default limiter_new (rate_limiters g !! sender)) in
  _ ← modify (fun g => set_limiters (<[sender := l]> (rate_limiters g)) g);
  _ ← throw_if (negb ok) RateLimitExceeded;
  if u64 (msg_round msg + EXPIRY_ROUNDS) <? current_round g then mret None
  else
    let key := dedup_key msg in
    if bool_decide (key ∈ seen_set g) then mret None
    else
      _ ← modify (insert_seen key);
      g ← get_st;
      rs ← lift (select_peers sender g);
      match rs with [] => mret None | _ => mret (Some (mkEnvelope msg rs)) end.

Definition broadcast {E} (msg : Message) : M GossipEngine E Envelope :=
  _ ← modify (insert_seen (dedup_key msg));
  g ← get_st;
  rs ← lift (select_peers (self_addr g) g);
  mret (mkEnvelope msg rs).

(** ** The shuffle is a permutation *)

Lemma shuffle_perm {E} ixs : forall lcg ind, Forall (fun i => (i < length ind)%nat) ixs ->
  exists ind', @shuffle E ixs lcg ind = Ok ind' /\ ind' ≡ₚ ind.
Proof.
  induction ixs as [|i ixs IH]; intros lcg ind Hi; simpl; [by exists ind|].
  inversion Hi as [|? ? Hlt Hrest]; subst.
  assert (Z.to_nat (lcg_next lcg mod (Z.of_nat i + 1)) < length ind)%nat as Hj.
  { pose proof (Z.mod_pos_bound (lcg_next lcg) (Z.of_nat i + 1) ltac:(lia)). lia. }
  destruct (@swap_Ok nat E ind i _ Hlt Hj) as (ind1 & Hsw & Hlen & _). rewrite Hsw. simpl.
  destruct (IH (lcg_next lcg) ind1) as (ind2 & -> & Hp); [by rewrite Hlen|].
  exists ind2. split; [done|]. by rewrite Hp, (swap_perm _ _ _ _ Hsw).
Qed.

Lemma pick_all {E} (cs : list Address) l : Forall (fun i => (i < length cs)%nat) l ->
  foldr (fun i (acc : res E (list Address)) => rest ← acc; c ← unwrap (cs !! i); Ok (c :: rest)) (Ok []) l
  = Ok (omap (fun i => cs !! i) l).
Proof.
  induction 1 as [|i l Hi Hl IH]; [done|]. cbn [foldr]. rewrite IH. simpl.
  destruct (lookup_lt_is_Some_2 cs i Hi) as [c Hc]. by rewrite Hc.
Qed.

(** The recipients are a sample of the candidates. *)
Lemma select_peers_sample {E} exclude g : 0 <= fan_out g ->
  exists rs rest, @select_peers E exclude g = Ok rs /\ rs ++ rest ≡ₚ candidates exclude g /\
    zlen rs = Z.min (fan_out g) (zlen (candidates exclude g)).
Proof.
  intros Hf. unfold select_peers. set (cs := candidates exclude g). destruct cs as [|c cs'] eqn:Hcs.
  { exists [], []. rewrite zlen_nil. split_and!; [done|done|lia]. }
  rewrite <-Hcs. destruct (@shuffle_perm E (rev (seq 1 (length cs - 1))) (lcg_next (current_round g)) (seq 0 (length cs)))
    as (ind & -> & Hp).
  { apply Forall_rev. rewrite length_seq. apply Forall_seq. lia. }
  simpl. assert (Forall (fun i => (i < length cs)%nat) ind) as Hin.
  { rewrite Hp. apply Forall_seq. lia. }
  rewrite (pick_all cs) by (by apply Forall_take).
  exists (omap (fun i => cs !! i) (take (Z.to_nat (fan_out g)) ind)), (omap (fun i => cs !! i) (drop (Z.to_nat (fan_out g)) ind)).
  rewrite <-omap_app, take_drop. split_and!; [done|by rewrite Hp, omap_perm_seq|].
  assert (forall l, Forall (fun i => (i < length cs)%nat) l -> length (omap (fun i => cs !! i) l) = length l) as Hl.
  { induction 1 as [|i l Hi Hl IH]; [done|]. simpl. destruct (lookup_lt_is_Some_2 cs i Hi) as [x Hx]. rewrite Hx.
    simpl. f_equal. exact IH. }
  unfold zlen. rewrite Hl by (by apply Forall_take). rewrite length_take, (Permutation_length Hp), length_seq. lia.
Qed.
(** ** What an engine holds *)

Record gossip_ok (g : GossipEngine) : Prop := {
  go_len : zlen (seen g) <= SEEN_CAPACITY;
  go_set : forall k, k ∈ seen_set g -> k ∈ seen g;
  go_fan : 0 <= fan_out g }.

Lemma fan_out_nonneg n : 0 <= fan_out_of n.
Proof. unfold fan_out_of, MIN_FANOUT. pose proof (sat_range 64 (n - 1) ltac:(lia)) as Hs. unfold in_range in Hs. lia. Qed.

Lemma engine_new_ok a vs : gossip_ok (engine_new a vs).
Proof. split; simpl; [rewrite zlen_nil; unfold SEEN_CAPACITY; lia|set_solver|apply fan_out_nonneg]. Qed.

(** The queue drops its oldest entry when it is full. *)
Lemma insert_seen_cases k g :
  (zlen (seen g) < SEEN_CAPACITY /\ seen (insert_seen k g) = seen g ++ [k] /\ seen_set (insert_seen k g) = {[k]} ∪ seen_set g) \/
  (exists old rest, SEEN_CAPACITY <= zlen (seen g) /\ seen g = old :: rest /\ seen (insert_seen k g) = rest ++ [k] /\
     seen_set (insert_seen k g) = {[k]} ∪ (seen_set g ∖ {[old]})).
Proof.
  unfold insert_seen. destruct (Z.leb_spec SEEN_CAPACITY (zlen (seen g))) as [Hle|Hlt]; [|by left].
  destruct (seen g) as [|old rest] eqn:Hs; [exfalso; rewrite zlen_nil in Hle; by vm_compute in Hle|].
  right. by exists old, rest.
Qed.

Lemma insert_seen_ok k g : gossip_ok g -> gossip_ok (insert_seen k g) /\ k ∈ seen_set (insert_seen k g).
Proof.
  intros [Hl Hs Hf]. assert (fan_out (insert_seen k g) = fan_out g) as Hfan.
  { unfold insert_seen. destruct (_ <=? _); [|done]. by destruct (seen g). }
  destruct (insert_seen_cases k g) as [(Hlt & Hq & Hset)|(old & rest & Hge & Hseen & Hq & Hset)].
  - split; [|rewrite Hset; set_solver]. split; rewrite ?Hq, ?Hset, ?Hfan; [|set_solver|done].
    rewrite zlen_app, zlen_cons, zlen_nil. lia.
  - split; [|rewrite Hset; set_solver]. split; rewrite ?Hq, ?Hset, ?Hfan; [| |done].
    + rewrite Hseen, zlen_cons in Hl. rewrite zlen_app, zlen_cons, zlen_nil. lia.
    + intros x Hx. assert (x = k \/ (x ∈ seen_set g /\ x <> old)) as [->|[Hx' Hne]] by set_solver; [set_solver|].
      apply Hs in Hx'. rewrite Hseen in Hx'. set_solver.
Qed.

Lemma candidates_spec a e g : a ∈ candidates e g <-> a ∈ validators g /\ a <> self_addr g /\ a <> e.
Proof.
  unfold candidates. rewrite list_elem_of_In, filter_In, <-list_elem_of_In, andb_true_iff, !negb_true_iff, !bool_decide_eq_false.
  done.
Qed.

(** The budget of a peer in this second is used up. *)
Definition over_limit (now_secs : Z) (l : PeerLimiter) : Prop :=
  window_start_secs l = now_secs /\ RATE_LIMIT_PER_SEC <= count l.

Lemma check_and_record_ok now l : (check_and_record now l).1 = false <-> over_limit now l.
Proof.
  unfold check_and_record, over_limit. destruct (Z.eqb_spec now (window_start_secs l)) as [->|Hne]; simpl.
  - destruct (Z.leb_spec RATE_LIMIT_PER_SEC (count l)); simpl; split; try done; lia.
  - split; [done|]. intros [? _]. congruence.
Qed.

(** One inbound message on each branch. *)
Lemma on_inbound_cases sender msg now g : gossip_ok g ->
  let k := dedup_key msg in
  exists l, let g1 := set_limiters (<[sender := l]> (rate_limiters g)) g in
  (over_limit now (default limiter_new (rate_limiters g !! sender)) /\
     on_inbound sender msg now g = (Err RateLimitExceeded, g1)) \/
  (~ over_limit now (default limiter_new (rate_limiters g !! sender)) /\
   ((u64 (msg_round msg + EXPIRY_ROUNDS) < current_round g \/ k ∈ seen_set g) /\
      on_inbound sender msg now g = (Ok None, g1) \/
    current_round g <= u64 (msg_round msg + EXPIRY_ROUNDS) /\ (k ∉ seen_set g) /\
      exists rs rest, rs ++ rest ≡ₚ candidates sender g /\ zlen rs = Z.min (fan_out g) (zlen (candidates sender g)) /\
        on_inbound sender msg now g =
          (Ok (match rs with [] => None | _ => Some (mkEnvelope msg rs) end), insert_seen k g1))).
Proof.
  intros Hok k. subst k. unfold on_inbound. open_call. pose proof (check_and_record_ok now (default limiter_new (rate_limiters g !! sender))) as Hc.
  destruct (check_and_record now _) as [ok l] eqn:He. exists l. simpl in Hc.
  set (g1 := set_limiters (<[sender := l]> (rate_limiters g)) g).
  destruct ok; simpl negb; cbv iota; [|left; split; [by apply Hc|done]].
  right. split; [by intros Ho%Hc|]. change (current_round g1) with (current_round g).
  destruct (Z.ltb_spec (u64 (msg_round msg + EXPIRY_ROUNDS)) (current_round g)); [left; split; [by left|done]|].
  case_bool_decide as Hin; [left; split; [by right|done]|]. right. split; [done|]. split; [done|].
  assert (gossip_ok g1) as Hok1 by (destruct Hok; by split).
  destruct (insert_seen_ok (dedup_key msg) g1 Hok1) as [[_ _ Hf] _].
  assert (fan_out (insert_seen (dedup_key msg) g1) = fan_out g /\ candidates sender (insert_seen (dedup_key msg) g1) = candidates sender g) as [Hfan Hcan].
  { unfold insert_seen. destruct (_ <=? _); [|done]. by destruct (seen g1). }
  destruct (@select_peers_sample ConsensusError sender (insert_seen (dedup_key msg) g1) Hf) as (rs & rest & Hs & Hp & Hl).
  rewrite Hfan, Hcan in *. exists rs, rest. split_and!; [done|done|]. rewrite Hs. by destruct rs.
Qed.

(** An inbound message never panics and is refused exactly when its sender
    has used up the second's budget.  It is forwarded only when it is recent
    and its key was not among those seen, where it is from now on; the peers
    chosen are a sample without replacement of the validators other than this
    node and the sender, as many as the fan-out allows. *)
Theorem gossip_forwards sender msg now g r g' : gossip_ok g -> on_inbound sender msg now g = (r, g') ->
  gossip_ok g' /\ r <> Panic /\
  (r = Err RateLimitExceeded <-> over_limit now (default limiter_new (rate_limiters g !! sender))) /\
  forall env, r = Ok (Some env) ->
    message env = msg /\ recipients env <> [] /\ (dedup_key msg ∉ seen_set g) /\ (dedup_key msg ∈ seen_set g') /\
    current_round g <= u64 (msg_round msg + EXPIRY_ROUNDS) /\
    (forall a, a ∈ recipients env -> a ∈ validators g /\ a <> self_addr g /\ a <> sender) /\
    (NoDup (validators g) -> NoDup (recipients env)) /\
    zlen (recipients env) = Z.min (fan_out g) (zlen (candidates sender g)).
Proof.
  intros Hok Hr. destruct (on_inbound_cases sender msg now g Hok) as (l & [[Ho He]|[Ho [[_ He]|(Hexp & Hk & rs & rest & Hp & Hl & He)]]]);
    rewrite He in Hr; injection Hr as <- <-.
  - split_and!; [destruct Hok; by split|done|done|done].
  - split_and!; [destruct Hok; by split|done| |done]. split; [done|]. intros H. done.
  - assert (gossip_ok (set_limiters (<[sender := l]> (rate_limiters g)) g)) as Hok1 by (destruct Hok; by split).
    destruct (insert_seen_ok (dedup_key msg) _ Hok1) as [Hok2 Hin]. split_and!; [done|by destruct rs| |].
    { split; [by destruct rs|]. intros H. done. }
    intros env Henv. assert (env = mkEnvelope msg rs /\ rs <> []) as [-> Hne] by (destruct rs; by simplify_eq).
    simpl. split_and!; try done.
    + intros a Ha. apply candidates_spec. rewrite <-Hp. apply elem_of_app. by left.
    + intros Hnd. assert (NoDup (candidates sender g)) as Hc.
      { unfold candidates. by apply NoDup_ListNoDup, List.NoDup_filter, NoDup_ListNoDup. }
      rewrite <-Hp in Hc. by apply list.NoDup_app in Hc as [? _].
Qed.

(** ** Remembering *)

(** [k] was inserted at most [m] insertions ago, and nothing twice. *)
Definition recent (k : bytes) (m : Z) (g : GossipEngine) : Prop :=
  NoDup (seen g) /\ (forall x, x ∈ seen_set g <-> x ∈ seen g) /\
  exists l1 l2, seen g = l1 ++ k :: l2 /\ zlen l2 <= m.

Lemma recent_step k m g sender msg now : gossip_ok g -> recent k m g -> m + 1 < SEEN_CAPACITY ->
  recent k (m + 1) (on_inbound sender msg now g).2 /\
  (dedup_key msg = k -> forall env, (on_inbound sender msg now g).1 <> Ok (Some env)).
Proof.
  intros Hok (Hnd & Hset & l1 & l2 & Hl & Hm) Hc.
  assert (k ∈ seen_set g) as Hk by (apply Hset; rewrite Hl; set_solver).
  destruct (on_inbound_cases sender msg now g Hok) as (l & [[Ho He]|[Ho [[_ He]|(Hexp & Hnew & rs & rest & Hp & _ & He)]]]);
    rewrite He; cbn [fst snd].
  - split; [|done]. split_and!; [done|done|]. exists l1, l2. split; [done|lia].
  - split; [|done]. split_and!; [done|done|]. exists l1, l2. split; [done|lia].
  - split; [|intros Heq; by rewrite Heq in Hnew]. set (g1 := set_limiters _ g). set (x := dedup_key msg) in *.
    assert (x ∉ seen g) as Hx by (by rewrite <-Hset).
    destruct (insert_seen_cases x g1) as [(Hlt & Hq & Hs)|(old & rst & Hge & Hsn & Hq & Hs)];
      simpl in Hq, Hs; unfold recent; rewrite Hq, Hs.
    + split_and!.
      * apply list.NoDup_app. split_and!; [done| |apply NoDup_singleton]. intros y Hy ->%list_elem_of_singleton. done.
      * intros y. rewrite elem_of_union, elem_of_singleton, elem_of_app, list_elem_of_singleton, Hset. tauto.
      * exists l1, (l2 ++ [x]). rewrite Hl, <-app_assoc, zlen_app, zlen_cons, zlen_nil. split; [done|lia].
    + simpl in Hge, Hsn. rewrite Hsn in Hnd, Hl, Hset, Hx. apply list.NoDup_cons in Hnd as [Hold Hnd].
      apply not_elem_of_cons in Hx as [Hxo Hx]. split_and!.
      * apply list.NoDup_app. split_and!; [done| |apply NoDup_singleton]. intros y Hy ->%list_elem_of_singleton. done.
      * intros y. rewrite elem_of_union, elem_of_singleton, elem_of_difference, elem_of_singleton, elem_of_app,
          list_elem_of_singleton, Hset, elem_of_cons. split; [tauto|]. intros [Hy|Hy]; [|tauto]. right. split; [tauto|].
        intros ->. done.
      * destruct l1 as [|o l1]; injection Hl as -> ->.
        { exfalso. rewrite Hsn, zlen_cons in Hge. lia. }
        exists l1, (l2 ++ [x]). rewrite <-app_assoc, zlen_app, zlen_cons, zlen_nil. split; [done|lia].
Qed.

(** A run of inbound messages. *)
Fixpoint inbound_run (ms : list (Address * Message * Z)) (g : GossipEngine) : list (option Envelope) * GossipEngine :=
  match ms with
  | [] => ([], g)
  | (sender, msg, now) :: ms =>
    let '(r, g1) := on_inbound sender msg now g in
    let '(out, g2) := inbound_run ms g1 in
    (match r with Ok o => o | _ => None end :: out, g2)
  end.

(** Among fewer than 8192 inbound messages after a forwarded one no other
    message with its key is forwarded. *)
Theorem gossip_once sender msg now g env g' ms : gossip_ok g -> NoDup (seen g) -> (forall x, x ∈ seen_set g <-> x ∈ seen g) ->
  on_inbound sender msg now g = (Ok (Some env), g') -> zlen ms < SEEN_CAPACITY ->
  forall i env', (inbound_run ms g').1 !! i = Some (Some env') -> dedup_key (message env') <> dedup_key msg.
Proof.
  intros Hok Hnd Hset Hin Hlen. destruct (gossip_forwards _ _ _ _ _ _ Hok Hin) as (Hok' & _ & _ & Hfw).
  assert (recent (dedup_key msg) 0 g') as Hrec.
  { destruct (Hfw env eq_refl) as (_ & _ & Hnew & _).
    destruct (on_inbound_cases sender msg now g Hok) as (l & [[_ He]|[_ [[_ He]|(_ & _ & rs & rest & _ & _ & He)]]]);
      rewrite He in Hin; [done|done|]. injection Hin as _ <-. rewrite Hset in Hnew.
    set (g1 := set_limiters _ g). destruct (insert_seen_cases (dedup_key msg) g1) as [(_ & Hq & Hs)|(old & rst & _ & Hsn & Hq & Hs)];
      simpl in Hq, Hs; unfold recent; rewrite Hq, Hs.
    - split_and!; [| |by exists (seen g), []].
      + apply list.NoDup_app. split_and!; [done| |apply NoDup_singleton]. intros y Hy ->%list_elem_of_singleton. done.
      + intros y. rewrite elem_of_union, elem_of_singleton, elem_of_app, list_elem_of_singleton, Hset. tauto.
    - simpl in Hsn. rewrite Hsn in Hnd, Hset, Hnew. apply list.NoDup_cons in Hnd as [Hold Hnd].
      apply not_elem_of_cons in Hnew as [Hno Hnew]. split_and!; [| |by exists rst, []].
      + apply list.NoDup_app. split_and!; [done| |apply NoDup_singleton]. intros y Hy ->%list_elem_of_singleton. done.
      + intros y. rewrite elem_of_union, elem_of_singleton, elem_of_difference, elem_of_singleton, elem_of_app,
          list_elem_of_singleton, Hset, elem_of_cons. split; [tauto|]. intros [Hy|Hy]; [|tauto]. right. split; [tauto|].
        intros ->. done. }
  assert (0 + zlen ms < SEEN_CAPACITY) as Hb by lia. revert Hb Hrec Hok'. generalize 0 at 1 2 as m. generalize g'. clear.
  induction ms as [|[[s x] n] ms IH]; intros g m Hb Hrec Hok i env'; simpl; [done|].
  rewrite zlen_cons in Hb. pose proof (zlen_nonneg ms).
  destruct (recent_step (dedup_key msg) m g s x n Hok Hrec) as [Hrec1 Hno]; [lia|].
  destruct (on_inbound s x n g) as [r g1] eqn:Hr. simpl in Hrec1, Hno.
  destruct (gossip_forwards _ _ _ _ _ _ Hok Hr) as (Hok1 & _ & _ & Hfw).
  specialize (IH g1 (m + 1) ltac:(lia) Hrec1 Hok1). destruct (inbound_run ms g1) as [out g2]. simpl in *.
  destruct i as [|i]; [|apply IH]. simpl. intros [= Hrr].
  destruct r as [o|e|]; try done. subst o. destruct (Hfw env' eq_refl) as (-> & _). intros Hk. by eapply Hno.
Qed.

(** ** What the key leaves out *)

(** The key of a vote has neither the phase nor the block: the votes of one
    validator for the three phases of a block have one key, and of a vote for
    each of two blocks only the first is forwarded. *)
Lemma votes_share_key (v1 v2 : Vote) : voter v1 = voter v2 -> block_number (data v1) = block_number (data v2) ->
  dedup_key (GVote v1) = dedup_key (GVote v2).
Proof. intros Hv Hb. unfold dedup_key. simpl priority. simpl msg_round. by rewrite Hv, Hb. Qed.

(** Proposals have the key of their round alone: whoever is first decides
    which block of the round is passed on. *)
Lemma proposals_share_key b1 b2 r e1 e2 p1 p2 : dedup_key (GProposal b1 r e1 p1) = dedup_key (GProposal b2 r e2 p2).
Proof. done. Qed.

(** The later phases of a validator's vote are dropped. *)
Lemma later_phase_dropped v1 v2 sender sender' now now' g env g' : gossip_ok g ->
  voter v1 = voter v2 -> block_number (data v1) = block_number (data v2) ->
  on_inbound sender (GVote v1) now g = (Ok (Some env), g') ->
  forall env', (on_inbound sender' (GVote v2) now' g').1 <> Ok (Some env').
Proof.
  intros Hok Hv Hb H1 env' H2. destruct (gossip_forwards _ _ _ _ _ _ Hok H1) as (Hok' & _ & _ & Hf1).
  destruct (Hf1 env eq_refl) as (_ & _ & _ & Hin & _). destruct (on_inbound sender' (GVote v2) now' g') as [r g2] eqn:Hr.
  simpl in H2. subst r. destruct (gossip_forwards _ _ _ _ _ _ Hok' Hr) as (_ & _ & _ & Hf2).
  destruct (Hf2 env' eq_refl) as (_ & _ & Hnew & _). apply Hnew. by rewrite <-(votes_share_key v1 v2).
Qed.
End gossip.
