(* ===== verification/U256.v ===== *)
(** * EVM words (crates/zbx-evm/src/stack.rs)

    The 256-bit arithmetic of the interpreter over big-endian 32-byte arrays,
    byte loop by byte loop, and the operand stack.  A [for i in (0..32).rev()]
    loop that writes [out[i]] is a [foldr] that conses, a forward loop a
    [fold_left]; [alter f i] is the in-place update of a byte that exists. *)

From Stdlib Require Import ZArith Lia.
From stdpp Require Import base tactics list numbers option.
From S2P Require Import Prelude Bytes.

Local Open Scope Z_scope.

Abbreviation word := (list Z).
Definition zero_word : word := replicate 32 0.
Definition word_ok (a : word) : Prop := length a = 32%nat /\ Forall byte a.

(** [a[i]] for an index in range. *)
Definition byte_at (a : word) (i : Z) : Z := a !!! Z.to_nat i.
Definition u8_shl (x k : Z) : Z := u8 (Z.shiftl x k).
Definition u8_not (x : Z) : Z := Z.lxor x 255.

(** ** Arithmetic *)

Definition u256_from_u64 (v : Z) : word := replicate 24 0 ++ to_be 8 v.
Definition u256_to_u64 (a : word) : Z := be_val (drop 24 a).

Definition add_step (xy : Z * Z) (st : Z * word) : Z * word :=
  let sum := fst xy + snd xy + fst st in (Z.shiftr sum 8, u8 sum :: snd st).
Definition u256_add_carry (a b : word) : Z * word := foldr add_step (0, []) (zip a b).
Definition u256_add (a b : word) : word := snd (u256_add_carry a b).

Definition sub_step (xy : Z * Z) (st : Z * word) : Z * word :=
  let diff := fst xy - snd xy - fst st in ((if diff <? 0 then 1 else 0), u8 diff :: snd st).
Definition u256_sub (a b : word) : word := snd (foldr sub_step (0, []) (zip a b)).

(** Limbs, least significant first. *)
Definition to_le_limbs (a : word) : list Z :=
  [be_val (drop 24 a); be_val (take 8 (drop 16 a)); be_val (take 8 (drop 8 a)); be_val (take 8 a)].
Definition from_le_limbs (l : list Z) : word :=
  to_be 8 (l !!! 3%nat) ++ to_be 8 (l !!! 2%nat) ++ to_be 8 (l !!! 1%nat) ++ to_be 8 (l !!! 0%nat).

Definition mul_step (la lb : list Z) (i : nat) (st : list Z * Z) (j : nat) : list Z * Z :=
  let '(result, carry) := st in
  if (4 <=? i + j)%nat then st
  else
    let prod := u128 (la !!! i * lb !!! j + result !!! (i + j)%nat + carry) in
    (<[(i + j)%nat := u64 prod]> result, u64 (Z.shiftr prod 64)).
Definition mul_row (la lb : list Z) (result : list Z) (i : nat) : list Z :=
  fst (fold_left (mul_step la lb i) (seq 0 4) (result, 0)).
Definition u256_mul (a b : word) : word :=
  from_le_limbs (fold_left (mul_row (to_le_limbs a) (to_le_limbs b)) (seq 0 4) [0; 0; 0; 0]).

(** Arrays compare lexicographically. *)
Fixpoint u256_lt (a b : word) : bool :=
  match a, b with
  | x :: a, y :: b => if x =? y then u256_lt a b else x <? y
  | [], _ :: _ => true
  | _, [] => false
  end.
Definition u256_gt (a b : word) : bool := u256_lt b a.
Definition u256_eq (a b : word) : bool := bool_decide (a = b).
Definition u256_is_zero (a : word) : bool := bool_decide (a = zero_word).

Definition shl_one_step (x : Z) (st : Z * word) : Z * word :=
  (Z.shiftr x 7, Z.lor (u8_shl x 1) (fst st) :: snd st).
Definition u256_shl_one (a : word) : word := snd (foldr shl_one_step (0, []) a).

(** Bit [k] of [a], the most significant first. *)
Definition bit_at (a : word) (k : Z) : Z := Z.land (Z.shiftr (byte_at a (k / 8)) (7 - k mod 8)) 1.

(** Shift the next bit into the remainder. *)
Definition rem_shift (rem : word) (bit : Z) : word := alter (fun x => Z.lor x bit) 31%nat (u256_shl_one rem).
Definition rem_step (b : word) (rem : word) (bit : Z) : word :=
  let rem := rem_shift rem bit in if negb (u256_lt rem b) then u256_sub rem b else rem.

Definition div_step (a b : word) (st : word * word) (k : Z) : word * word :=
  let '(quotient, rem) := st in
  let rem := rem_shift rem (bit_at a k) in
  if negb (u256_lt rem b)
  then (alter (fun x => Z.lor x (u8_shl 1 (7 - k mod 8))) (Z.to_nat (k / 8)) quotient, u256_sub rem b)
  else (quotient, rem).
Definition u256_div (a b : word) : word :=
  if u256_is_zero b then zero_word
  else fst (fold_left (div_step a b) (seqZ 0 256) (zero_word, zero_word)).

Definition mod_loop (a b : word) (rem : word) : word :=
  fold_left (fun rem k => rem_step b rem (bit_at a k)) (seqZ 0 256) rem.
Definition u256_mod (a b : word) : word :=
  if u256_is_zero b then zero_word else mod_loop a b zero_word.

Definition is_negative (a : word) : bool := negb (Z.land (byte_at a 0) 128 =? 0).
Definition u256_not (a : word) : word := map u8_not a.
Definition negate (a : word) : word := u256_add (u256_not a) (u256_from_u64 1).
Definition min_int : word := 128 :: replicate 31 0.

Definition u256_sdiv (a b : word) : word :=
  if u256_is_zero b then zero_word
  else
    let neg_a := is_negative a in
    let neg_b := is_negative b in
    if bool_decide (a = min_int) && bool_decide (b = replicate 31 0 ++ [1]) then min_int
    else
      let abs_a := if neg_a then negate a else a in
      let abs_b := if neg_b then negate b else b in
      let q := u256_div abs_a abs_b in
      if negb (Bool.eqb neg_a neg_b) then negate q else q.

Definition u256_smod (a b : word) : word :=
  if u256_is_zero b then zero_word
  else
    let abs_a := if is_negative a then negate a else a in
    let abs_b := if is_negative b then negate b else b in
    let r := u256_mod abs_a abs_b in
    if is_negative a && negb (u256_is_zero r) then negate r else r.

(** With a carry the sum is a 257-bit number, reduced bit by bit. *)
Definition u256_addmod (a b n : word) : word :=
  if u256_is_zero n then zero_word
  else
    let '(carry, sum) := u256_add_carry a b in
    if carry =? 1 then mod_loop sum n (rem_step n zero_word 1) else u256_mod sum n.

Definition mulmod_step (a b n acc : word) (k : Z) : word :=
  let acc := u256_addmod acc acc n in
  if bit_at b k =? 1 then u256_addmod acc a n else acc.
Definition u256_mulmod (a b n : word) : word :=
  if u256_is_zero n then zero_word else fold_left (mulmod_step a b n) (seqZ 0 256) zero_word.

(** [e >>= 1] *)
Definition shr_one_step (st : Z * word) (x : Z) : Z * word :=
  (u8_shl x 7, snd st ++ [Z.lor (Z.shiftr x 1) (fst st)]).
Definition shr_one (e : word) : word := snd (fold_left shr_one_step e (0, [])).

(** The [while] loop of [u256_exp], on fuel; out of fuel is [Panic]. *)
Fixpoint exp_loop {E} (fuel : nat) (result b e : word) : res E word :=
  if u256_is_zero e then Ok result
  else match fuel with
       | O => Panic
       | S fuel =>
         exp_loop fuel (if Z.land (byte_at e 31) 1 =? 1 then u256_mul result b else result)
           (u256_mul b b) (shr_one e)
       end.
Definition u256_exp {E} (base exp : word) : res E word :=
  if u256_is_zero exp then Ok (u256_from_u64 1) else exp_loop 256 (u256_from_u64 1) base exp.

Definition u256_slt (a b : word) : bool :=
  let na := is_negative a in
  let nb := is_negative b in
  if negb (Bool.eqb na nb) then na else u256_lt a b.
Definition u256_sgt (a b : word) : bool :=
  let na := is_negative a in
  let nb := is_negative b in
  if negb (Bool.eqb na nb) then nb else u256_gt a b.

Fixpoint byte_len_from (n : Z) (a : word) : Z :=
  match a with
  | [] => 0
  | x :: a => if negb (x =? 0) then n else byte_len_from (n - 1) a
  end.
Definition u256_byte_len (a : word) : Z := byte_len_from 32 a.

(** ** Bits and bytes *)

Definition u256_and (a b : word) : word := zip_with Z.land a b.
Definition u256_or (a b : word) : word := zip_with Z.lor a b.
Definition u256_xor (a b : word) : word := zip_with Z.lxor a b.

(** The upper bytes are masked in a loop, then the sign byte. *)
Definition u256_signextend (b x : word) : word :=
  let b_val := u256_to_u64 b in
  if 31 <=? b_val then x
  else
    let byte_index := 31 - b_val in
    let sign_bit := negb (Z.land (byte_at x byte_index) 128 =? 0) in
    let out := fold_left (fun out i => <[Z.to_nat i := if sign_bit then 255 else 0]> out) (seqZ 0 byte_index) x in
    if sign_bit then alter (fun y => Z.lor y 255) (Z.to_nat byte_index) out
    else alter (fun y => Z.land y 127) (Z.to_nat byte_index) out.

Definition u256_byte (i x : word) : word :=
  let idx := u256_to_u64 i in
  if 32 <=? idx then zero_word else u256_from_u64 (byte_at x idx).

Definition u256_shl (shift val : word) : word :=
  let s := u256_to_u64 shift in
  if 256 <=? s then zero_word
  else if s =? 0 then val
  else
    let byte_shift := s / 8 in
    let bit_shift := s mod 8 in
    map (fun i =>
      let src := i + byte_shift in
      if src <? 32 then
        let o := u8_shl (byte_at val src) bit_shift in
        if (0 <? bit_shift) && (src + 1 <? 32)
        then Z.lor o (Z.shiftr (byte_at val (src + 1)) (8 - bit_shift)) else o
      else 0) (seqZ 0 32).

Definition u256_shr (shift val : word) : word :=
  let s := u256_to_u64 shift in
  if 256 <=? s then zero_word
  else if s =? 0 then val
  else
    let byte_shift := s / 8 in
    let bit_shift := s mod 8 in
    map (fun i =>
      let src := i - byte_shift in
      if 0 <=? src then
        let o := Z.shiftr (byte_at val src) bit_shift in
        if (0 <? bit_shift) && (0 <? src)
        then Z.lor o (u8_shl (byte_at val (src - 1)) (8 - bit_shift)) else o
      else 0) (seqZ 0 32).

Definition sar_fill (out : word) (bit : Z) : word :=
  alter (fun x => Z.lor x (Z.shiftr 128 (bit mod 8))) (Z.to_nat (bit / 8)) out.
Definition u256_sar (shift val : word) : word :=
  let sign := is_negative val in
  let s := u256_to_u64 shift in
  if 256 <=? s then (if sign then replicate 32 255 else zero_word)
  else if s =? 0 then val
  else
    let out := u256_shr shift val in
    if sign then fold_left sar_fill (seqZ 0 s) out else out.

(** ** Values *)

Definition W : Z := 2 ^ 256.

Lemma W_bytes : 256 ^ 32 = W.
Proof. reflexivity. Qed.

Lemma word_zlen a : word_ok a -> zlen a = 32.
Proof. unfold zlen. by intros [-> _]. Qed.

Lemma word_bound a : word_ok a -> 0 <= be_val a < W.
Proof. intros H. pose proof (be_val_bound a (proj2 H)) as Hb. by rewrite (word_zlen a H) in Hb. Qed.

Lemma word_inj a b : word_ok a -> word_ok b -> be_val a = be_val b -> a = b.
Proof. intros [La Ba] [Lb Bb]. apply be_val_inj; [done..|congruence]. Qed.

Lemma be_val_replicate0 n : be_val (replicate n 0) = 0.
Proof. induction n as [|n IH]; [done|]. simpl. by rewrite IH. Qed.

Lemma bytes_replicate n x : byte x -> Forall byte (replicate n x).
Proof. intros H. by apply Forall_replicate. Qed.

Lemma zero_word_ok : word_ok zero_word.
Proof. split; [done|]. by apply bytes_replicate. Qed.
Lemma zero_word_val : be_val zero_word = 0.
Proof. done. Qed.

Lemma is_zero_val a : word_ok a -> u256_is_zero a = (be_val a =? 0).
Proof.
  intros Ha. unfold u256_is_zero. destruct (Z.eqb_spec (be_val a) 0) as [H|H].
  - apply bool_decide_eq_true_2, word_inj; [done|apply zero_word_ok|done].
  - apply bool_decide_eq_false_2. by intros ->.
Qed.

Lemma from_u64_ok v : word_ok (u256_from_u64 v).
Proof.
  split; [unfold u256_from_u64; by rewrite length_app, length_replicate, length_to_be|].
  apply Forall_app. split; [by apply bytes_replicate|apply to_be_bytes].
Qed.
Lemma from_u64_val v : in_range 64 v -> be_val (u256_from_u64 v) = v.
Proof.
  intros Hv. unfold u256_from_u64. rewrite be_val_app, be_val_replicate0, be_val_to_be.
  rewrite Z.mod_small by done. lia.
Qed.

Lemma be_val_drop n a : Forall byte a -> be_val (drop n a) = be_val a mod 256 ^ zlen (drop n a).
Proof.
  intros Ha. rewrite <-(take_drop n a) at 2. rewrite be_val_app, Z.add_comm.
  pose proof (pow256_pos (zlen (drop n a)) (zlen_nonneg _)). rewrite Z.mod_add by lia.
  symmetry. apply Z.mod_small, be_val_bound. by apply Forall_drop.
Qed.

Lemma to_u64_val a : word_ok a -> u256_to_u64 a = be_val a mod 2 ^ 64.
Proof.
  intros [Hl Hb]. unfold u256_to_u64. rewrite be_val_drop by done. unfold zlen. by rewrite length_drop, Hl.
Qed.

(** [x | c] adds when [x] is a multiple of [2^k] above [c]. *)
Lemma lor_add x c k : 0 <= k -> 0 <= c < 2 ^ k -> x mod 2 ^ k = 0 -> Z.lor x c = x + c.
Proof.
  intros Hk Hc Hx. rewrite <-(Z.add_lor_land x c). assert (Z.land x c = 0) as ->; [|lia].
  apply Z.bits_inj'. intros n Hn. rewrite Z.land_spec, Z.bits_0.
  destruct (Z.ltb_spec n k).
  - rewrite <-(Z.mod_pow2_bits_low x k n), Hx, Z.bits_0 by lia. done.
  - destruct (Z.eq_dec c 0) as [->|]; [by rewrite Z.bits_0, andb_false_r|].
    rewrite (Z.bits_above_log2 c n), andb_false_r; [done|lia|].
    apply Z.log2_lt_pow2; [lia|]. pose proof (Z.pow_le_mono_r 2 k n ltac:(lia) ltac:(lia)). lia.
Qed.

(** ** Addition, subtraction, comparison, doubling *)

Lemma add_carry_spec a : forall b, length a = length b -> Forall byte a -> Forall byte b ->
  let '(c, out) := u256_add_carry a b in
  be_val out + c * 256 ^ zlen a = be_val a + be_val b /\ length out = length a /\ Forall byte out /\ 0 <= c <= 1.
Proof.
  induction a as [|x a IH]; intros [|y b] Hl Ha Hb; try done.
  apply Forall_cons_iff in Ha as [Hx Ha], Hb as [Hy Hb]. injection Hl as Hl. specialize (IH b Hl Ha Hb).
  unfold u256_add_carry in *. simpl. destruct (foldr add_step (0, []) (zip a b)) as [c out].
  destruct IH as (IH & Hlen & Hout & Hc). unfold add_step, byte in *. simpl.
  set (sum := x + y + c). rewrite Z.shiftr_div_pow2 by lia. change (2 ^ 8) with 256.
  pose proof (Z.div_mod sum 256 ltac:(lia)) as Hd. pose proof (Z.mod_pos_bound sum 256 ltac:(lia)) as Hm.
  assert (zlen out = zlen a) as Hz by (unfold zlen; by rewrite Hlen).
  assert (zlen b = zlen a) as Hz' by (unfold zlen; by rewrite Hl).
  rewrite Hz, Hz', zlen_cons, pow256_succ by apply zlen_nonneg. unfold wrap. change (2 ^ 8) with 256.
  split; [nia|]. split; [simpl; congruence|]. split; [by constructor|].
  assert (0 <= sum / 256 < 2); [|lia].
  split; [apply Z.div_pos; lia|apply Z.div_lt_upper_bound; lia].
Qed.

Lemma sub_spec a : forall b, length a = length b -> Forall byte a -> Forall byte b ->
  let '(c, out) := foldr sub_step (0, []) (zip a b) in
  be_val out = be_val a - be_val b + c * 256 ^ zlen a /\ length out = length a /\ Forall byte out /\ 0 <= c <= 1.
Proof.
  induction a as [|x a IH]; intros [|y b] Hl Ha Hb; try done.
  apply Forall_cons_iff in Ha as [Hx Ha], Hb as [Hy Hb]. injection Hl as Hl. specialize (IH b Hl Ha Hb).
  simpl. destruct (foldr sub_step (0, []) (zip a b)) as [c out].
  destruct IH as (IH & Hlen & Hout & Hc). unfold sub_step, byte in *. simpl.
  set (d := x - y - c). unfold wrap. change (2 ^ 8) with 256.
  assert (zlen out = zlen a) as Hz by (unfold zlen; by rewrite Hlen).
  assert (zlen b = zlen a) as Hz' by (unfold zlen; by rewrite Hl).
  rewrite Hz, Hz', zlen_cons, pow256_succ by apply zlen_nonneg.
  assert (d mod 256 = d + (if d <? 0 then 1 else 0) * 256) as ->.
  { destruct (Z.ltb_spec d 0); [|rewrite Z.mod_small; lia].
    rewrite <-(Z.mod_add d 1 256) by lia. rewrite Z.mod_small; lia. }
  destruct (Z.ltb_spec d 0); (split; [nia|]); (split; [simpl; congruence|]); (split; [constructor; [unfold byte; lia|done]|lia]).
Qed.

Lemma lt_spec a : forall b, length a = length b -> Forall byte a -> Forall byte b ->
  u256_lt a b = (be_val a <? be_val b).
Proof.
  induction a as [|x a IH]; intros [|y b] Hl Ha Hb; try done.
  apply Forall_cons_iff in Ha as [Hx Ha], Hb as [Hy Hb]. injection Hl as Hl. simpl.
  assert (zlen b = zlen a) as -> by (unfold zlen; by rewrite Hl).
  pose proof (be_val_bound a Ha) as Ba. pose proof (be_val_bound b Hb) as Bb.
  replace (zlen b) with (zlen a) in Bb by (unfold zlen; by rewrite Hl). unfold byte in *.
  destruct (Z.eqb_spec x y) as [->|Hne].
  - rewrite IH by done. apply Bool.eq_iff_eq_true. rewrite !Z.ltb_lt. lia.
  - apply Bool.eq_iff_eq_true. rewrite !Z.ltb_lt. nia.
Qed.

Lemma shl_one_spec a : Forall byte a ->
  let '(c, out) := foldr shl_one_step (0, []) a in
  be_val out + c * 256 ^ zlen a = 2 * be_val a /\ length out = length a /\ Forall byte out /\ 0 <= c <= 1.
Proof.
  induction 1 as [|x a Hx Ha IH]; simpl; [split_and!; [done|done|by constructor|lia|lia]|].
  destruct (foldr shl_one_step (0, []) a) as [c out]. destruct IH as (IH & Hlen & Hout & Hc).
  unfold shl_one_step, u8_shl, byte in *. simpl.
  assert (zlen out = zlen a) as Hz by (unfold zlen; by rewrite Hlen).
  rewrite Z.shiftr_div_pow2, Z.shiftl_mul_pow2 by lia. change (2 ^ 7) with 128. change (2 ^ 1) with 2.
  unfold wrap. change (2 ^ 8) with 256.
  assert ((x * 2) mod 256 = 2 * (x mod 128)) as Hm.
  { rewrite (Z.mul_comm x 2). change 256 with (2 * 128). by rewrite Z.mul_mod_distr_l by lia. }
  pose proof (Z.div_mod x 128 ltac:(lia)). pose proof (Z.mod_pos_bound x 128 ltac:(lia)).
  rewrite (lor_add _ c 1); [|lia|lia|].
  2:{ rewrite Hm. change (2 ^ 1) with 2. rewrite Z.mul_comm. by apply Z.mod_mul. }
  rewrite Hm, Hz, zlen_cons, pow256_succ by apply zlen_nonneg.
  split; [nia|]. split; [simpl; congruence|]. split; [constructor; [unfold byte; lia|done]|].
  assert (0 <= x / 128 < 2); [|lia].
  split; [apply Z.div_pos; lia|apply Z.div_lt_upper_bound; lia].
Qed.

(** The word-level consequences. *)
Lemma mod_unique_c x c m : 0 <= x < m -> forall y, x + c * m = y -> y mod m = x.
Proof. intros Hx y <-. rewrite Z.mod_add by lia. by apply Z.mod_small. Qed.

Lemma add_ok a b : word_ok a -> word_ok b ->
  word_ok (u256_add a b) /\ be_val (u256_add a b) = (be_val a + be_val b) mod W.
Proof.
  intros [La Ba] [Lb Bb]. pose proof (add_carry_spec a b ltac:(congruence) Ba Bb) as H.
  unfold u256_add. destruct (u256_add_carry a b) as [c out]. destruct H as (H & Hl & Hb & Hc). simpl.
  assert (word_ok out) as Ho by (split; [congruence|done]). split; [done|].
  symmetry. apply (mod_unique_c _ c); [by apply word_bound|]. unfold zlen in H. rewrite La in H. exact H.
Qed.

Lemma sub_ok a b : word_ok a -> word_ok b ->
  word_ok (u256_sub a b) /\ be_val (u256_sub a b) = (be_val a - be_val b) mod W.
Proof.
  intros [La Ba] [Lb Bb]. pose proof (sub_spec a b ltac:(congruence) Ba Bb) as H.
  unfold u256_sub. destruct (foldr sub_step (0, []) (zip a b)) as [c out]. destruct H as (H & Hl & Hb & Hc). simpl.
  assert (word_ok out) as Ho by (split; [congruence|done]). split; [done|].
  symmetry. apply (mod_unique_c _ (- c)); [by apply word_bound|]. unfold zlen in H. rewrite La in H.
  change (256 ^ Z.of_nat 32) with W in H. lia.
Qed.

Lemma lt_ok a b : word_ok a -> word_ok b -> u256_lt a b = (be_val a <? be_val b).
Proof. intros [La Ba] [Lb Bb]. apply lt_spec; [congruence|done..]. Qed.

Lemma shl_one_ok a : word_ok a ->
  word_ok (u256_shl_one a) /\ be_val (u256_shl_one a) = (2 * be_val a) mod W.
Proof.
  intros [La Ba]. pose proof (shl_one_spec a Ba) as H. unfold u256_shl_one.
  destruct (foldr shl_one_step (0, []) a) as [c out]. destruct H as (H & Hl & Hb & Hc). simpl.
  assert (word_ok out) as Ho by (split; [congruence|done]). split; [done|].
  symmetry. apply (mod_unique_c _ c); [by apply word_bound|]. unfold zlen in H. rewrite La in H. exact H.
Qed.

(** ** Multiplication *)

Definition limbs_ok (l : list Z) : Prop := length l = 4%nat /\ Forall (in_range 64) l.
Definition limb_val (l : list Z) : Z :=
  l !!! 0%nat + l !!! 1%nat * 2 ^ 64 + l !!! 2%nat * 2 ^ 128 + l !!! 3%nat * 2 ^ 192.

Lemma limbs_cases l : limbs_ok l -> exists a b c d, l = [a; b; c; d] /\
  in_range 64 a /\ in_range 64 b /\ in_range 64 c /\ in_range 64 d.
Proof.
  intros [Hl Hr]. destruct l as [|a [|b [|c [|d [|]]]]]; try done. exists a, b, c, d. split; [done|].
  rewrite !Forall_cons_iff in Hr. naive_solver.
Qed.

Lemma be_val_take_range n a : Forall byte a -> (n <= 8)%nat -> in_range 64 (be_val (take n a)).
Proof.
  intros Ha Hn. pose proof (be_val_bound (take n a) ltac:(by apply Forall_take)) as Hb.
  assert (zlen (take n a) <= 8) as Hz by (unfold zlen; rewrite length_take; lia).
  unfold in_range. pose proof (Z.pow_le_mono_r 256 (zlen (take n a)) 8 ltac:(lia) ltac:(lia)) as Hp.
  change (256 ^ 8) with (2 ^ 64) in Hp. lia.
Qed.

Lemma to_le_limbs_ok a : word_ok a -> limbs_ok (to_le_limbs a) /\ limb_val (to_le_limbs a) = be_val a.
Proof.
  intros [Hl Ha]. split.
  - split; [done|]. assert (drop 24 a = take 8 (drop 24 a)) as Ht.
    { rewrite take_ge; [done|]. rewrite length_drop. lia. }
    unfold to_le_limbs. rewrite Ht.
    repeat constructor; apply be_val_take_range; try lia; try apply Forall_drop; done.
  - unfold limb_val, to_le_limbs. simpl.
    assert (a = take 8 a ++ take 8 (drop 8 a) ++ take 8 (drop 16 a) ++ drop 24 a) as Hsplit.
    { rewrite <-(take_drop 8 a) at 1. f_equal. rewrite <-(take_drop 8 (drop 8 a)) at 1. rewrite drop_drop.
      f_equal. by rewrite <-(take_drop 8 (drop (8 + 8) a)), drop_drop at 1. }
    transitivity (be_val (take 8 a ++ take 8 (drop 8 a) ++ take 8 (drop 16 a) ++ drop 24 a)); [|by rewrite <-Hsplit].
    rewrite !be_val_app. unfold zlen. rewrite !length_app, !length_take, !length_drop, Hl. simpl.
    change (256 ^ Z.of_nat 24) with (2 ^ 192). change (256 ^ Z.of_nat 16) with (2 ^ 128).
    change (256 ^ Z.of_nat 8) with (2 ^ 64). ring.
Qed.

Lemma from_le_limbs_ok l : limbs_ok l -> word_ok (from_le_limbs l) /\ be_val (from_le_limbs l) = limb_val l.
Proof.
  intros Hl. destruct (limbs_cases l Hl) as (a & b & c & d & -> & Ha & Hb & Hc & Hd). unfold from_le_limbs, limb_val.
  cbn [lookup_total list_lookup_total]. split.
  - split; [by rewrite !length_app, !length_to_be|]. rewrite !Forall_app. split_and!; apply to_be_bytes.
  - rewrite !be_val_app, !be_val_to_be. unfold zlen. rewrite !length_app, !length_to_be.
    change (256 ^ Z.of_nat 8) with (2 ^ 64). rewrite !Z.mod_small by done.
    change (256 ^ Z.of_nat (8 + (8 + 8))) with (2 ^ 192). change (256 ^ Z.of_nat (8 + 8)) with (2 ^ 128). ring.
Qed.

(** One digit product: it fits u128 and splits into digit and carry. *)
Lemma mul_digit x y r c : in_range 64 x -> in_range 64 y -> in_range 64 r -> in_range 64 c ->
  let prod := u128 (x * y + r + c) in
  in_range 64 (u64 prod) /\ in_range 64 (u64 (Z.shiftr prod 64)) /\
  u64 prod + u64 (Z.shiftr prod 64) * 2 ^ 64 = x * y + r + c.
Proof.
  unfold in_range. intros Hx Hy Hr Hc.
  assert (0 <= x * y <= (2 ^ 64 - 1) * (2 ^ 64 - 1)) by nia.
  assert (u128 (x * y + r + c) = x * y + r + c) as ->.
  { apply wrap_small. unfold in_range. change (2 ^ 128) with (2 ^ 64 * 2 ^ 64). lia. }
  set (p := x * y + r + c). rewrite Z.shiftr_div_pow2 by lia.
  assert (0 <= p / 2 ^ 64 < 2 ^ 64) as Hq.
  { split; [apply Z.div_pos; lia|apply Z.div_lt_upper_bound; lia]. }
  rewrite (wrap_small 64 (p / 2 ^ 64)) by done.
  unfold wrap. pose proof (Z.mod_pos_bound p (2 ^ 64) ltac:(lia)). pose proof (Z.div_mod p (2 ^ 64) ltac:(lia)). lia.
Qed.

(** Names the digit and the carry of the innermost product of the goal. *)
Ltac name_digit x d e :=
  match goal with
  | Hx : in_range 64 x, Hy : in_range 64 ?y, Hr : in_range 64 ?r, Hc : in_range 64 ?c
    |- context [u128 (x * ?y + ?r + ?c)] =>
    let H := fresh in
    pose proof (mul_digit x y r c Hx Hy Hr Hc) as H; cbv zeta in H;
    set (d := u64 (u128 (x * y + r + c))) in *;
    set (e := u64 (Z.shiftr (u128 (x * y + r + c)) 64)) in *;
    clearbody d e; destruct H as (? & ? & ?)
  end.

(** Row [i] adds [la[i] * lb * 2^(64 i)], modulo 2^256. *)
Lemma mul_row_ok la lb r i : limbs_ok la -> limbs_ok lb -> limbs_ok r -> (i < 4)%nat ->
  limbs_ok (mul_row la lb r i) /\
  exists k, limb_val (mul_row la lb r i) = limb_val r + la !!! i * limb_val lb * 2 ^ (64 * Z.of_nat i) + k * W.
Proof.
  intros Hla Hlb Hr Hi. destruct (limbs_cases lb Hlb) as (b0 & b1 & b2 & b3 & -> & B0 & B1 & B2 & B3).
  destruct (limbs_cases r Hr) as (r0 & r1 & r2 & r3 & -> & R0 & R1 & R2 & R3).
  assert (in_range 64 (la !!! i)) as Hx.
  { destruct Hla as [Hl Hf]. rewrite Forall_lookup in Hf. apply (Hf i), list_lookup_lookup_total_lt. lia. }
  assert (in_range 64 0) as H0 by (unfold in_range; lia).
  unfold mul_row. cbn [fold_left seq]. unfold mul_step.
  set (x := la !!! i) in *. clearbody x. clear Hla.
  assert (forall a b c d, in_range 64 a -> in_range 64 b -> in_range 64 c -> in_range 64 d ->
    limbs_ok [a; b; c; d]) as Hok.
  { intros. split; [done|]. do 4 (apply Forall_cons_2; [done|]). constructor. }
  unfold limb_val, W.
  destruct i as [|[|[|[|i]]]]; [| | | |lia];
    cbn [Nat.leb Nat.add lookup_total list_lookup_total insert list_insert fst].
  - name_digit x d0 e0. name_digit x d1 e1. name_digit x d2 e2. name_digit x d3 e3.
    split; [by apply Hok|]. exists (- e3). change (2 ^ (64 * Z.of_nat 0)) with 1. lia.
  - name_digit x d0 e0. name_digit x d1 e1. name_digit x d2 e2.
    split; [by apply Hok|]. exists (- (e2 + x * b3)). change (2 ^ (64 * Z.of_nat 1)) with (2 ^ 64). lia.
  - name_digit x d0 e0. name_digit x d1 e1.
    split; [by apply Hok|]. exists (- (e1 + x * b2 + x * b3 * 2 ^ 64)). change (2 ^ (64 * Z.of_nat 2)) with (2 ^ 128). lia.
  - name_digit x d0 e0.
    split; [by apply Hok|]. exists (- (e0 + x * b1 + x * b2 * 2 ^ 64 + x * b3 * 2 ^ 128)).
    change (2 ^ (64 * Z.of_nat 3)) with (2 ^ 192). lia.
Qed.

Lemma mul_ok a b : word_ok a -> word_ok b ->
  word_ok (u256_mul a b) /\ be_val (u256_mul a b) = (be_val a * be_val b) mod W.
Proof.
  intros Ha Hb. destruct (to_le_limbs_ok a Ha) as [La Va], (to_le_limbs_ok b Hb) as [Lb Vb].
  unfold u256_mul. rewrite <-Va, <-Vb. set (la := to_le_limbs a) in *. set (lb := to_le_limbs b) in *.
  cbn [fold_left seq].
  assert (limbs_ok [0; 0; 0; 0]) as L0.
  { split; [done|]. assert (in_range 64 0) by (unfold in_range; lia).
    do 4 (apply Forall_cons_2; [done|]). constructor. }
  destruct (mul_row_ok la lb _ 0 La Lb L0 ltac:(lia)) as (L1 & k0 & V1).
  destruct (mul_row_ok la lb _ 1 La Lb L1 ltac:(lia)) as (L2 & k1 & V2).
  destruct (mul_row_ok la lb _ 2 La Lb L2 ltac:(lia)) as (L3 & k2 & V3).
  destruct (mul_row_ok la lb _ 3 La Lb L3 ltac:(lia)) as (L4 & k3 & V4).
  set (r := mul_row la lb (mul_row la lb (mul_row la lb (mul_row la lb [0; 0; 0; 0] 0) 1) 2) 3) in *.
  destruct (from_le_limbs_ok r L4) as [Ho Hv]. split; [done|]. symmetry.
  apply (mod_unique_c _ (- (k0 + k1 + k2 + k3))); [by apply word_bound|]. rewrite Hv, V4, V3, V2, V1.
  unfold limb_val at 1. cbn [lookup_total list_lookup_total].
  change (64 * Z.of_nat 0) with 0. change (64 * Z.of_nat 1) with 64.
  change (64 * Z.of_nat 2) with 128. change (64 * Z.of_nat 3) with 192.
  unfold limb_val at 5. ring.
Qed.

(** ** Bytes and bits *)

Lemma byte_mod x : byte x <-> x mod 256 = x.
Proof.
  unfold byte. split; [apply Z.mod_small|]. intros <-. by apply Z.mod_pos_bound.
Qed.

Lemma mod256_land x : x mod 256 = Z.land x 255.
Proof. change 256 with (2 ^ 8). change 255 with (Z.ones 8). by rewrite Z.land_ones. Qed.

Lemma byte_lor x y : byte x -> byte y -> byte (Z.lor x y).
Proof. rewrite !byte_mod, !mod256_land, Z.land_lor_distr_l. by intros -> ->. Qed.
Lemma byte_lxor x y : byte x -> byte y -> byte (Z.lxor x y).
Proof.
  rewrite !byte_mod, !mod256_land. intros Hx Hy. apply Z.bits_inj'. intros n _.
  rewrite <-Hx, <-Hy at 2. rewrite !Z.land_spec, !Z.lxor_spec, !Z.land_spec.
  by destruct (Z.testbit x n), (Z.testbit y n), (Z.testbit 255 n).
Qed.
Lemma byte_land x y : byte x -> byte (Z.land x y).
Proof. rewrite !byte_mod, !mod256_land. intros Hx. rewrite <-Hx at 2. by rewrite <-!Z.land_assoc, (Z.land_comm y). Qed.
Lemma byte_u8 x : byte (u8 x).
Proof. by apply Z.mod_pos_bound. Qed.

Lemma byte_bits_high x n : byte x -> 8 <= n -> Z.testbit x n = false.
Proof.
  rewrite byte_mod. intros <- Hn. change 256 with (2 ^ 8). by apply Z.mod_pow2_bits_high.
Qed.

Lemma byte_at_cons x l i : 0 <= i -> byte_at (x :: l) (1 + i) = byte_at l i.
Proof.
  intros Hi. unfold byte_at. replace (Z.to_nat (1 + i)) with (S (Z.to_nat i)) by lia. done.
Qed.

Lemma byte_at_byte l i : Forall byte l -> byte (byte_at l i).
Proof.
  intros Hl. unfold byte_at. rewrite list_lookup_total_alt.
  destruct (l !! Z.to_nat i) as [x|] eqn:Hx; [|done]. simpl. by eapply Forall_lookup_1.
Qed.

(** Bit [p] of the value, from the right, is bit [p mod 8] of its byte. *)
Lemma testbit_be_val l : Forall byte l -> forall p, 0 <= p < 8 * zlen l ->
  Z.testbit (be_val l) p = Z.testbit (byte_at l (zlen l - 1 - p / 8)) (p mod 8).
Proof.
  induction 1 as [|x l Hx Hl IH]; intros p Hp; [unfold zlen in Hp; simpl in Hp; lia|].
  rewrite zlen_cons in *. simpl. pose proof (zlen_nonneg l) as Hn. pose proof (be_val_bound l Hl) as Hv.
  replace (256 ^ zlen l) with (2 ^ (8 * zlen l)) in * by (by rewrite Z.pow_mul_r by lia).
  destruct (Z.lt_ge_cases p (8 * zlen l)) as [Hlt|Hge].
  - rewrite <-(Z.mod_pow2_bits_low _ (8 * zlen l) p) by lia.
    rewrite Z.add_comm, Z.mod_add by lia. rewrite Z.mod_small by lia. rewrite IH by lia.
    assert (p / 8 < zlen l) by (apply Z.div_lt_upper_bound; lia).
    replace (1 + zlen l - 1 - p / 8) with (1 + (zlen l - 1 - p / 8)) by lia. by rewrite byte_at_cons by lia.
  - assert (p / 8 = zlen l) as -> by (symmetry; apply (Z.div_unique p 8 (zlen l) (p - 8 * zlen l)); lia).
    rewrite Z.mod_eq by lia. replace (p / 8) with (zlen l) by
      (apply (Z.div_unique p 8 (zlen l) (p - 8 * zlen l)); lia).
    replace (1 + zlen l - 1 - zlen l) with 0 by lia. unfold byte_at. simpl.
    replace p with (p - 8 * zlen l + 8 * zlen l) at 1 by lia.
    rewrite <-Z.div_pow2_bits by lia. rewrite Z.div_add_l by lia. rewrite Z.div_small by lia. by rewrite Z.add_0_r.
Qed.

Lemma testbit_word a p : word_ok a -> 0 <= p < 256 ->
  Z.testbit (be_val a) p = Z.testbit (byte_at a (31 - p / 8)) (p mod 8).
Proof.
  intros Ha Hp. rewrite testbit_be_val; [|apply Ha|rewrite (word_zlen a Ha); lia].
  rewrite (word_zlen a Ha). f_equal.
Qed.

Lemma testbit_word_high a p : word_ok a -> 256 <= p -> Z.testbit (be_val a) p = false.
Proof.
  intros Ha Hp. pose proof (word_bound a Ha) as Hb. rewrite <-(Z.mod_small _ _ Hb). unfold W.
  by apply Z.mod_pow2_bits_high.
Qed.

(** Words are equal when their bits are. *)
Lemma word_val_bits a z : word_ok a -> 0 <= z < W ->
  (forall p, 0 <= p < 256 -> Z.testbit (be_val a) p = Z.testbit z p) -> be_val a = z.
Proof.
  intros Ha Hz H. apply Z.bits_inj'. intros p Hp. destruct (Z.lt_ge_cases p 256); [by apply H|].
  rewrite testbit_word_high by done. rewrite <-(Z.mod_small z W Hz). unfold W. by rewrite Z.mod_pow2_bits_high.
Qed.

Lemma bit_index k : 0 <= k < 256 -> 31 - (255 - k) / 8 = k / 8 /\ (255 - k) mod 8 = 7 - k mod 8.
Proof. intros Hk. Z.to_euclidean_division_equations. lia. Qed.

Lemma bit_at_val a k : word_ok a -> 0 <= k < 256 -> bit_at a k = Z.b2z (Z.testbit (be_val a) (255 - k)).
Proof.
  intros Ha Hk. destruct (bit_index k Hk) as [H1 H2]. rewrite testbit_word by (done || lia). rewrite H1, H2.
  unfold bit_at. assert (0 <= 7 - k mod 8) by (pose proof (Z.mod_pos_bound k 8 ltac:(lia)); lia).
  rewrite Z.testbit_spec', Z.shiftr_div_pow2 by done. change 1 with (Z.ones 1) at 1. by rewrite Z.land_ones by lia.
Qed.

(** Setting clear bits of one byte. *)
Lemma alter_or_val l : forall i x c, l !! i = Some x -> Z.lor x c = x + c ->
  be_val (alter (fun y => Z.lor y c) i l) = be_val l + c * 256 ^ (zlen l - 1 - Z.of_nat i).
Proof.
  induction l as [|y l IH]; intros [|i] x c Hx Hc; try done; simpl in *.
  - injection Hx as ->. rewrite Hc, zlen_cons. replace (1 + zlen l - 1 - Z.of_nat 0) with (zlen l) by lia. ring.
  - change (list_alter (fun y => Z.lor y c) i l) with (alter (fun y => Z.lor y c) i l).
    rewrite (IH i x c) by done. rewrite zlen_cons.
    replace (zlen (alter (fun y => Z.lor y c) i l)) with (zlen l) by (unfold zlen; by rewrite length_alter).
    replace (1 + zlen l - 1 - Z.of_nat (S i)) with (zlen l - 1 - Z.of_nat i) by lia. ring.
Qed.

Lemma alter_or_ok a i c : word_ok a -> byte c -> word_ok (alter (fun y => Z.lor y c) i a).
Proof.
  intros [Hl Ha] Hc. split; [by rewrite length_alter|].
  apply Forall_alter; [done|]. intros x Hx _. apply byte_lor; [|done]. by eapply Forall_lookup_1.
Qed.

Lemma word_lookup a i : word_ok a -> 0 <= i < 32 -> a !! Z.to_nat i = Some (byte_at a i).
Proof. intros [Hl _] Hi. unfold byte_at. apply list_lookup_lookup_total_lt. lia. Qed.

(** Setting bit [p], when clear, adds [2^p]. *)
Lemma set_bit_val a p : word_ok a -> 0 <= p < 256 -> Z.testbit (be_val a) p = false ->
  be_val (alter (fun y => Z.lor y (2 ^ (p mod 8))) (Z.to_nat (31 - p / 8)) a) = be_val a + 2 ^ p.
Proof.
  intros Ha Hp Hb. rewrite testbit_word in Hb by done. set (i := 31 - p / 8) in *.
  assert (0 <= i < 32) as Hi by (unfold i; Z.to_euclidean_division_equations; lia).
  pose proof (Z.mod_pos_bound p 8 ltac:(lia)) as Hm.
  rewrite (alter_or_val a _ (byte_at a i)); [|by apply word_lookup|].
  - rewrite (word_zlen a Ha). replace (32 - 1 - Z.of_nat (Z.to_nat i)) with (p / 8) by lia. f_equal.
    change 256 with (2 ^ 8). rewrite <-Z.pow_mul_r, <-Z.pow_add_r by (try apply Z.mul_nonneg_nonneg; try apply Z.div_pos; lia).
    f_equal. rewrite Z.add_comm. symmetry. apply Z.div_mod. lia.
  - rewrite <-(Z.add_lor_land (byte_at a i)). assert (Z.land (byte_at a i) (2 ^ (p mod 8)) = 0) as ->; [|lia].
    apply Z.bits_inj'. intros n Hn. rewrite Z.land_spec, Z.bits_0, Z.pow2_bits_eqb by lia.
    destruct (Z.eqb_spec (p mod 8) n) as [<-|]; [by rewrite Hb|apply andb_false_r].
Qed.

(** ** Long division *)

Lemma rem_shift_ok rem bit : word_ok rem -> 0 <= bit <= 1 -> 2 * be_val rem + bit < W ->
  word_ok (rem_shift rem bit) /\ be_val (rem_shift rem bit) = 2 * be_val rem + bit.
Proof.
  intros Hr Hb Hlt. destruct (shl_one_ok rem Hr) as [Ho Hv]. pose proof (word_bound rem Hr).
  rewrite Z.mod_small in Hv by lia. unfold rem_shift. split; [apply alter_or_ok; [done|unfold byte; lia]|].
  rewrite (alter_or_val _ _ (byte_at (u256_shl_one rem) 31)); [|by apply (word_lookup _ 31)|].
  { rewrite (word_zlen _ Ho), Hv. change (256 ^ (32 - 1 - Z.of_nat 31)) with 1. lia. }
  assert (Z.testbit (byte_at (u256_shl_one rem) 31) 0 = false) as H0.
  { transitivity (Z.testbit (be_val (u256_shl_one rem)) 0); [|by rewrite Hv, Z.testbit_even_0].
    symmetry. apply (testbit_word (u256_shl_one rem) 0 Ho). lia. }
  apply (lor_add _ _ 1); [lia|lia|]. change (2 ^ 1) with 2. by rewrite <-Z.bit0_mod, H0.
Qed.

(** One step of the division: shift in a bit, subtract if possible. *)
Lemma rem_step_ok b rem bit : word_ok b -> word_ok rem -> 0 <= bit <= 1 -> be_val rem < be_val b ->
  2 * be_val rem + bit < W ->
  word_ok (rem_step b rem bit) /\ be_val (rem_step b rem bit) = (2 * be_val rem + bit) mod be_val b.
Proof.
  intros Hb Hr Hbit Hlt Hw. destruct (rem_shift_ok rem bit Hr Hbit Hw) as [Ho Hv].
  pose proof (word_bound rem Hr). unfold rem_step. rewrite lt_ok, Hv by done.
  destruct (Z.ltb_spec (2 * be_val rem + bit) (be_val b)) as [Hl|Hge]; cbn [negb].
  - split; [done|]. by rewrite Hv, Z.mod_small by lia.
  - destruct (sub_ok _ b Ho Hb) as [Hs Hsv]. split; [done|]. rewrite Hsv, Hv.
    pose proof (word_bound b Hb). rewrite Z.mod_small by lia.
    apply (Z.mod_unique_pos _ _ 1); lia.
Qed.

(** The first [k] bits of a word. *)
Definition prefix (a : word) (k : Z) : Z := be_val a / 2 ^ (256 - k).

Lemma prefix_step a k : word_ok a -> 0 <= k < 256 ->
  prefix a (k + 1) = 2 * prefix a k + bit_at a k /\ 0 <= bit_at a k <= 1.
Proof.
  intros Ha Hk. rewrite bit_at_val by done. split; [|by destruct (Z.testbit _ _); simpl; lia].
  unfold prefix. rewrite Z.testbit_spec' by lia. replace (256 - (k + 1)) with (255 - k) by lia.
  replace (2 ^ (256 - k)) with (2 ^ (255 - k) * 2) by
    (rewrite <-(Z.pow_1_r 2) at 2; rewrite <-Z.pow_add_r by lia; f_equal; lia).
  assert (0 < 2 ^ (255 - k)) by (apply Z.pow_pos_nonneg; lia).
  rewrite <-Z.div_div by lia. apply Z.div_mod. lia.
Qed.

Lemma prefix_0 a : word_ok a -> prefix a 0 = 0.
Proof. intros Ha. unfold prefix. apply Z.div_small. apply (word_bound a Ha). Qed.
Lemma prefix_256 a : prefix a 256 = be_val a.
Proof. unfold prefix. change (2 ^ (256 - 256)) with 1. apply Z.div_1_r. Qed.
Lemma prefix_bound a k : word_ok a -> 0 <= k <= 256 -> 0 <= prefix a k < 2 ^ k.
Proof.
  intros Ha Hk. pose proof (word_bound a Ha). unfold prefix.
  assert (0 < 2 ^ (256 - k)) by (apply Z.pow_pos_nonneg; lia). split; [apply Z.div_pos; lia|].
  apply Z.div_lt_upper_bound; [done|]. rewrite <-Z.pow_add_r by lia. replace (256 - k + k) with 256 by lia. unfold W in *. lia.
Qed.

Lemma mod_shift x y m : 0 < m -> (2 * (x mod m) + y) mod m = (2 * x + y) mod m.
Proof.
  intros Hm. rewrite <-(Z.add_mod_idemp_l (2 * (x mod m))) by lia. rewrite Z.mul_mod_idemp_r by lia.
  by rewrite Z.add_mod_idemp_l by lia.
Qed.

(** After [n] bits the loop holds the first [n] bits below [p0], reduced, as
    long as no doubling overflowed the word. *)
Lemma mod_loop_upto a b p0 n rem0 : word_ok a -> word_ok b -> word_ok rem0 -> 0 < be_val b ->
  be_val rem0 = p0 mod be_val b -> (n <= 256)%nat ->
  (forall k, 0 <= k < Z.of_nat n -> 2 * ((p0 * 2 ^ k + prefix a k) mod be_val b) + bit_at a k < W) ->
  let r := fold_left (fun rem k => rem_step b rem (bit_at a k)) (seqZ 0 (Z.of_nat n)) rem0 in
  word_ok r /\ be_val r = (p0 * 2 ^ Z.of_nat n + prefix a (Z.of_nat n)) mod be_val b.
Proof.
  intros Ha Hb Hr0 Hpos Hv0. induction n as [|n IH]; intros Hn Hroom; cbv zeta.
  { simpl. split; [done|]. rewrite prefix_0, Hv0 by done. f_equal. lia. }
  replace (Z.of_nat (S n)) with (Z.of_nat n + 1) by lia. rewrite seqZ_app by lia. rewrite fold_left_app.
  destruct (IH ltac:(lia)) as [Hr Hv]; [intros k Hk; apply Hroom; lia|]. cbv zeta in Hr, Hv.
  set (r := fold_left _ (seqZ 0 (Z.of_nat n)) rem0) in *.
  change (seqZ (0 + Z.of_nat n) 1) with [0 + Z.of_nat n]. cbn [fold_left]. rewrite Z.add_0_l.
  destruct (prefix_step a (Z.of_nat n) Ha ltac:(lia)) as [Hp Hbit].
  pose proof (Z.mod_pos_bound (p0 * 2 ^ Z.of_nat n + prefix a (Z.of_nat n)) (be_val b) Hpos) as Hm.
  specialize (Hroom (Z.of_nat n) ltac:(lia)). rewrite <-Hv in Hroom.
  destruct (rem_step_ok b r _ Hb Hr Hbit ltac:(lia) Hroom) as [Ho Hov]. split; [done|]. rewrite Hov, Hv.
  rewrite mod_shift by done. f_equal. rewrite Hp, Z.pow_add_r by lia. lia.
Qed.

(** No doubling overflows when the divisor leaves a bit of room, or when
    there is nothing above the word. *)
Lemma mod_loop_room a b p0 k : word_ok a -> word_ok b -> 0 < be_val b -> 0 <= k < 256 ->
  (be_val b <= 2 ^ 255 \/ p0 = 0) ->
  2 * ((p0 * 2 ^ k + prefix a k) mod be_val b) + bit_at a k < W.
Proof.
  intros Ha Hb Hpos Hk Hroom. destruct (prefix_step a k Ha Hk) as [Hp Hbit].
  pose proof (Z.mod_pos_bound (p0 * 2 ^ k + prefix a k) (be_val b) Hpos) as Hm. unfold W.
  destruct Hroom as [?| ->]; [lia|].
  pose proof (prefix_bound a (k + 1) Ha ltac:(lia)) as Hpb. pose proof (prefix_bound a k Ha ltac:(lia)).
  pose proof (Z.pow_le_mono_r 2 (k + 1) 256 ltac:(lia) ltac:(lia)).
  rewrite Z.mul_0_l, Z.add_0_l in *. pose proof (Z.mod_le (prefix a k) (be_val b) ltac:(lia) ltac:(lia)). lia.
Qed.

Lemma mod_loop_ok a b p0 rem0 : word_ok a -> word_ok b -> word_ok rem0 -> 0 < be_val b ->
  (be_val b <= 2 ^ 255 \/ p0 = 0) -> be_val rem0 = p0 mod be_val b ->
  word_ok (mod_loop a b rem0) /\ be_val (mod_loop a b rem0) = (p0 * W + be_val a) mod be_val b.
Proof.
  intros Ha Hb Hr0 Hpos Hroom Hv0.
  destruct (mod_loop_upto a b p0 256 rem0) as [H1 H2]; [done..|intros k Hk; by apply mod_loop_room|].
  change (Z.of_nat 256) with 256 in H1, H2. rewrite prefix_256 in H2. by split.
Qed.

Lemma word_pos b : word_ok b -> u256_is_zero b = false -> 0 < be_val b.
Proof. intros Hb. rewrite is_zero_val by done. intros H%Z.eqb_neq. pose proof (word_bound b Hb). lia. Qed.

Lemma mod_ok a b : word_ok a -> word_ok b ->
  word_ok (u256_mod a b) /\ be_val (u256_mod a b) = if be_val b =? 0 then 0 else be_val a mod be_val b.
Proof.
  intros Ha Hb. unfold u256_mod. rewrite <-is_zero_val by done.
  destruct (u256_is_zero b) eqn:Hz; [split; [apply zero_word_ok|done]|].
  pose proof (word_pos b Hb Hz).
  destruct (mod_loop_ok a b 0 zero_word) as [H1 H2]; [done|done|apply zero_word_ok|done|by right| |].
  - rewrite zero_word_val. by rewrite Z.mod_0_l by lia.
  - split; [done|]. rewrite H2. f_equal.
Qed.

(** The quotient: each bit is set in its place. *)
Lemma div_loop_upto a b n : word_ok a -> word_ok b -> 0 < be_val b -> (n <= 256)%nat ->
  let '(q, r) := fold_left (div_step a b) (seqZ 0 (Z.of_nat n)) (zero_word, zero_word) in
  word_ok q /\ word_ok r /\ be_val r = prefix a (Z.of_nat n) mod be_val b /\
  be_val q = prefix a (Z.of_nat n) / be_val b * 2 ^ (256 - Z.of_nat n).
Proof.
  intros Ha Hb Hpos. induction n as [|n IH]; intros Hn.
  { simpl. rewrite prefix_0 by done. rewrite Z.mod_0_l, Z.div_0_l by lia.
    split_and!; [apply zero_word_ok|apply zero_word_ok|done|done]. }
  replace (Z.of_nat (S n)) with (Z.of_nat n + 1) by lia. rewrite seqZ_app by lia. rewrite fold_left_app.
  specialize (IH ltac:(lia)). set (k := Z.of_nat n) in *. assert (0 <= k < 256) as Hk by lia.
  destruct (fold_left (div_step a b) (seqZ 0 k) (zero_word, zero_word)) as [q r].
  destruct IH as (Hq & Hr & Hrv & Hqv).
  change (seqZ (0 + k) 1) with [k]. cbn [fold_left]. unfold div_step.
  destruct (prefix_step a k Ha Hk) as [Hp Hbit].
  pose proof (Z.mod_pos_bound (prefix a k) (be_val b) Hpos) as Hm. pose proof (word_bound b Hb).
  pose proof (prefix_bound a (k + 1) Ha ltac:(lia)) as Hpb. pose proof (prefix_bound a k Ha ltac:(lia)).
  assert (be_val r <= prefix a k) as Hle by (rewrite Hrv; apply Z.mod_le; lia).
  pose proof (Z.pow_le_mono_r 2 (k + 1) 256 ltac:(lia) ltac:(lia)). unfold W in *.
  destruct (rem_shift_ok r (bit_at a k) Hr Hbit) as [Ho Hov]; [unfold W; lia|].
  rewrite lt_ok, Hov by done. rewrite Hp.
  pose proof (Z.div_mod (prefix a k) (be_val b) ltac:(lia)) as Hdm. rewrite <-Hrv in Hdm.
  set (Q := prefix a k / be_val b) in *.
  assert (2 ^ (256 - k) = 2 * 2 ^ (256 - (k + 1))) as Hpow.
  { replace (256 - k) with (1 + (256 - (k + 1))) by lia. by rewrite Z.pow_add_r by lia. }
  destruct (Z.ltb_spec (2 * be_val r + bit_at a k) (be_val b)) as [Hl|Hge]; cbn [negb].
  - split; [done|]. split; [done|]. rewrite Hov.
    assert (2 * prefix a k + bit_at a k = be_val b * (2 * Q) + (2 * be_val r + bit_at a k)) as -> by lia.
    rewrite (Z.mul_comm (be_val b)), Z.div_add_l, (Z.add_comm (2 * Q * be_val b)), Z.mod_add by lia.
    rewrite Z.div_small, Z.mod_small by lia. split; [done|]. rewrite Hqv, Hpow. ring.
  - destruct (sub_ok _ b Ho Hb) as [Hs Hsv].
    assert (2 * prefix a k + bit_at a k = be_val b * (2 * Q + 1) + (2 * be_val r + bit_at a k - be_val b)) as -> by lia.
    rewrite (Z.mul_comm (be_val b)), Z.div_add_l, (Z.add_comm ((2 * Q + 1) * be_val b)), Z.mod_add by lia.
    set (X := 2 * be_val r + bit_at a k - be_val b). assert (0 <= X < be_val b) as HX by lia.
    rewrite (Z.div_small X), (Z.mod_small X) by done. rewrite Hsv, Hov. fold X. rewrite (Z.mod_small X) by (unfold W; lia).
    destruct (bit_index k Hk) as [E1 E2]. rewrite <-E1.
    assert (u8_shl 1 (7 - k mod 8) = 2 ^ ((255 - k) mod 8)) as ->.
    { rewrite E2. unfold u8_shl. rewrite Z.shiftl_mul_pow2, Z.mul_1_l by (pose proof (Z.mod_pos_bound k 8); lia).
      apply wrap_small. pose proof (Z.mod_pos_bound k 8 ltac:(lia)). unfold in_range.
      pose proof (Z.pow_le_mono_r 2 (7 - k mod 8) 7 ltac:(lia) ltac:(lia)).
      pose proof (Z.pow_pos_nonneg 2 (7 - k mod 8) ltac:(lia) ltac:(lia)). lia. }
    assert (Z.testbit (be_val q) (255 - k) = false) as Hbitq.
    { rewrite Hqv, <-Z.shiftl_mul_pow2 by lia. apply Z.shiftl_spec_low. lia. }
    split; [apply alter_or_ok; [done|]|split; [done|]].
    { rewrite E2. pose proof (Z.mod_pos_bound k 8 ltac:(lia)). unfold byte.
      pose proof (Z.pow_le_mono_r 2 (7 - k mod 8) 7 ltac:(lia) ltac:(lia)).
      pose proof (Z.pow_pos_nonneg 2 (7 - k mod 8) ltac:(lia) ltac:(lia)). lia. }
    split; [done|]. rewrite set_bit_val by (done || lia). rewrite Hqv, Hpow.
    replace (255 - k) with (256 - (k + 1)) by lia. ring.
Qed.

Lemma div_ok a b : word_ok a -> word_ok b ->
  word_ok (u256_div a b) /\ be_val (u256_div a b) = if be_val b =? 0 then 0 else be_val a / be_val b.
Proof.
  intros Ha Hb. unfold u256_div. rewrite <-is_zero_val by done.
  destruct (u256_is_zero b) eqn:Hz; [split; [apply zero_word_ok|done]|].
  pose proof (div_loop_upto a b 256 Ha Hb (word_pos b Hb Hz) ltac:(lia)) as H.
  change (Z.of_nat 256) with 256 in H.
  destruct (fold_left (div_step a b) (seqZ 0 256) (zero_word, zero_word)) as [q r].
  destruct H as (Hq & _ & _ & Hv). split; [done|]. rewrite prefix_256 in Hv. simpl fst. rewrite Hv.
  change (2 ^ (256 - 256)) with 1. lia.
Qed.

(** ** Two's complement *)

Lemma u8_not_val x : byte x -> u8_not x = 255 - x.
Proof.
  intros Hx. assert (forallb (fun x => u8_not x =? 255 - x) (seqZ 0 256) = true) as H by (vm_compute; done).
  rewrite forallb_forall in H. apply Z.eqb_eq, H, list_elem_of_In, elem_of_seqZ. unfold byte in Hx. lia.
Qed.

Lemma not_val l : Forall byte l -> be_val (map u8_not l) = 256 ^ zlen l - 1 - be_val l /\ Forall byte (map u8_not l).
Proof.
  induction 1 as [|x l Hx Hl [IH Hb]]; [done|]. simpl. rewrite IH, u8_not_val, zlen_cons, pow256_succ by (done || apply zlen_nonneg).
  split.
  - replace (zlen (map u8_not l)) with (zlen l) by (unfold zlen; by rewrite length_map). ring.
  - constructor; [unfold byte in *; lia|done].
Qed.

Lemma not_ok a : word_ok a -> word_ok (u256_not a) /\ be_val (u256_not a) = W - 1 - be_val a.
Proof.
  intros Ha. destruct (not_val a (proj2 Ha)) as [Hv Hb]. rewrite (word_zlen a Ha) in Hv. split; [|done].
  split; [|done]. unfold u256_not. rewrite length_map. apply Ha.
Qed.

Lemma negate_ok a : word_ok a -> word_ok (negate a) /\ be_val (negate a) = (- be_val a) mod W.
Proof.
  intros Ha. destruct (not_ok a Ha) as [Hn Hv].
  destruct (add_ok _ _ Hn (from_u64_ok 1)) as [Ho Hov]. split; [done|]. unfold negate.
  rewrite Hov, Hv, from_u64_val by done. replace (W - 1 - be_val a + 1) with (- be_val a + 1 * W) by ring.
  by rewrite Z.mod_add by done.
Qed.

Lemma land_128 x : (Z.land x 128 =? 0) = negb (Z.testbit x 7).
Proof.
  destruct (Z.testbit x 7) eqn:Hx; simpl.
  - apply Z.eqb_neq. intros H. apply (f_equal (fun z => Z.testbit z 7)) in H.
    rewrite Z.land_spec, Hx in H. done.
  - apply Z.eqb_eq, Z.bits_inj'. intros n Hn. change 128 with (2 ^ 7). rewrite Z.land_spec, Z.bits_0, Z.pow2_bits_eqb by lia.
    destruct (Z.eqb_spec 7 n) as [<-|]; [by rewrite Hx|apply andb_false_r].
Qed.

Lemma testbit_top v : 0 <= v < W -> Z.testbit v 255 = (2 ^ 255 <=? v).
Proof.
  intros Hv. unfold W in *. apply Bool.eq_iff_eq_true. rewrite Z.leb_le. rewrite <-Z.b2z_bit0 at 1.
  assert (v / 2 ^ 255 = Z.b2z (Z.testbit v 255)) as Hd.
  { rewrite Z.testbit_spec' by lia. rewrite Z.mod_small; [done|].
    split; [apply Z.div_pos; lia|apply Z.div_lt_upper_bound; lia]. }
  rewrite Z.b2z_bit0. destruct (Z.testbit v 255); simpl in Hd.
  - split; [|done]. intros _. pose proof (Z.mul_div_le v (2 ^ 255) ltac:(lia)). lia.
  - split; [done|]. intros Hle. pose proof (Z.div_le_lower_bound v (2 ^ 255) 1 ltac:(lia) ltac:(lia)). lia.
Qed.

Lemma is_negative_val a : word_ok a -> is_negative a = (2 ^ 255 <=? be_val a).
Proof.
  intros Ha. rewrite <-testbit_top by by apply word_bound. unfold is_negative. rewrite land_128, negb_involutive.
  by rewrite testbit_word by (done || lia).
Qed.

(** The signed value. *)
Definition sval (a : word) : Z := if be_val a <? 2 ^ 255 then be_val a else be_val a - W.

Lemma sval_cases a : word_ok a ->
  (is_negative a = false /\ sval a = be_val a /\ 0 <= sval a < 2 ^ 255) \/
  (is_negative a = true /\ sval a = be_val a - W /\ - 2 ^ 255 <= sval a < 0).
Proof.
  intros Ha. rewrite is_negative_val by done. pose proof (word_bound a Ha). unfold sval, W in *.
  destruct (Z.ltb_spec (be_val a) (2 ^ 255)); [left|right]; split_and!; lia.
Qed.

(** [if neg { negate(x) } else { x }] is the absolute value. *)
Lemma abs_ok a : word_ok a -> word_ok (if is_negative a then negate a else a) /\
  be_val (if is_negative a then negate a else a) = Z.abs (sval a).
Proof.
  intros Ha. pose proof (word_bound a Ha). destruct (sval_cases a Ha) as [(-> & -> & ?)|(-> & Hs & ?)].
  - split; [done|lia].
  - destruct (negate_ok a Ha) as [Hn Hv]. split; [done|]. rewrite Hv, Hs.
    replace (- be_val a) with (W - be_val a + (-1) * W) by ring. rewrite Z.mod_add by done.
    rewrite Z.mod_small; unfold W in *; lia.
Qed.

Lemma sval_mod a : word_ok a -> sval a mod W = be_val a.
Proof.
  intros Ha. pose proof (word_bound a Ha). unfold sval. destruct (_ <? _); [by apply Z.mod_small|].
  replace (be_val a - W) with (be_val a + (-1) * W) by ring. rewrite Z.mod_add by done. by apply Z.mod_small.
Qed.

Lemma sval_zero a : word_ok a -> (sval a =? 0) = (be_val a =? 0).
Proof.
  intros Ha. pose proof (word_bound a Ha). unfold sval. destruct (Z.ltb_spec (be_val a) (2 ^ 255)); [done|].
  unfold W in *. apply Bool.eq_iff_eq_true. rewrite !Z.eqb_eq. lia.
Qed.

Lemma min_int_ok : word_ok min_int /\ sval min_int = - 2 ^ 255.
Proof. split; [split; [done|]|done]. constructor; [unfold byte; lia|]. by apply bytes_replicate. Qed.

Lemma quot_sign x y : y <> 0 ->
  Z.quot x y = if Bool.eqb (x <? 0) (y <? 0) then Z.abs x / Z.abs y else - (Z.abs x / Z.abs y).
Proof.
  intros Hy. rewrite Z.quot_div by done.
  destruct (Z.ltb_spec x 0), (Z.ltb_spec y 0); simpl.
  - rewrite !Z.sgn_neg by lia. ring.
  - rewrite Z.sgn_neg, (Z.sgn_pos y) by lia. ring.
  - rewrite (Z.sgn_neg y) by lia. destruct (Z.eq_dec x 0) as [->|]; [by rewrite Z.div_0_l by lia|].
    rewrite Z.sgn_pos by lia. ring.
  - rewrite (Z.sgn_pos y) by lia. destruct (Z.eq_dec x 0) as [->|]; [by rewrite Z.div_0_l by lia|].
    rewrite Z.sgn_pos by lia. ring.
Qed.

Lemma is_negative_sval a : word_ok a -> is_negative a = (sval a <? 0).
Proof.
  intros Ha. destruct (sval_cases a Ha) as [(-> & -> & ?)|(-> & _ & ?)]; symmetry; [apply Z.ltb_ge|apply Z.ltb_lt]; lia.
Qed.

Lemma sdiv_ok a b : word_ok a -> word_ok b ->
  word_ok (u256_sdiv a b) /\
  be_val (u256_sdiv a b) = (if sval b =? 0 then 0 else Z.quot (sval a) (sval b)) mod W.
Proof.
  intros Ha Hb. unfold u256_sdiv. rewrite sval_zero, <-is_zero_val by done.
  destruct (u256_is_zero b) eqn:Hz; [split; [apply zero_word_ok|done]|].
  assert (sval b <> 0) as Hb0.
  { intros H%Z.eqb_eq. rewrite sval_zero, <-is_zero_val in H by done. congruence. }
  destruct (bool_decide (a = min_int) && bool_decide (b = replicate 31 0 ++ [1])) eqn:Hm.
  { apply andb_true_iff in Hm as [->%bool_decide_eq_true ->%bool_decide_eq_true].
    split; [apply min_int_ok|]. vm_compute. done. }
  destruct (abs_ok a Ha) as [Oa Va], (abs_ok b Hb) as [Ob Vb]. cbv zeta.
  destruct (div_ok _ _ Oa Ob) as [Oq Vq]. rewrite Va, Vb in Vq.
  rewrite (proj2 (Z.eqb_neq _ _)) in Vq by lia. rewrite quot_sign by done.
  rewrite !is_negative_sval in * by done.
  set (q := u256_div _ _) in *.
  destruct (Bool.eqb (sval a <? 0) (sval b <? 0)); cbn [negb].
  - split; [done|]. rewrite Vq. symmetry. rewrite <-Vq. apply Z.mod_small. by apply word_bound.
  - destruct (negate_ok q Oq) as [On Vn]. split; [done|]. by rewrite Vn, Vq.
Qed.

Lemma smod_ok a b : word_ok a -> word_ok b ->
  word_ok (u256_smod a b) /\
  be_val (u256_smod a b) = (if sval b =? 0 then 0 else Z.rem (sval a) (sval b)) mod W.
Proof.
  intros Ha Hb. unfold u256_smod. rewrite sval_zero, <-is_zero_val by done.
  destruct (u256_is_zero b) eqn:Hz; [split; [apply zero_word_ok|done]|].
  assert (sval b <> 0) as Hb0.
  { intros H%Z.eqb_eq. rewrite sval_zero, <-is_zero_val in H by done. congruence. }
  destruct (abs_ok a Ha) as [Oa Va], (abs_ok b Hb) as [Ob Vb]. cbv zeta.
  destruct (mod_ok _ _ Oa Ob) as [Or Vr]. rewrite Va, Vb in Vr.
  rewrite (proj2 (Z.eqb_neq _ _)) in Vr by lia. rewrite is_zero_val by done.
  rewrite Z.rem_mod by done. rewrite !is_negative_sval in * by done.
  set (r := u256_mod _ _) in *. pose proof (word_bound r Or) as Hr.
  destruct (Z.ltb_spec (sval a) 0) as [Hneg|Hpos]; cbn [andb].
  - rewrite Z.sgn_neg, <-Vr by done. destruct (Z.eqb_spec (be_val r) 0) as [H0|H0]; cbn [negb].
    + split; [done|]. by rewrite H0.
    + destruct (negate_ok r Or) as [On Vn]. split; [done|]. rewrite Vn. by f_equal.
  - split; [done|]. rewrite <-Vr. destruct (Z.eq_dec (sval a) 0) as [E|].
    + rewrite E in *. simpl in Vr. rewrite Z.mod_0_l in Vr by lia. by rewrite Vr.
    + rewrite Z.sgn_pos, Z.mul_1_l by lia. symmetry. by apply Z.mod_small.
Qed.
