(* ===== verification/U256Ops.v ===== *)
(** * Correctness of the EVM word operations

    The value-level specifications of U256.v put together as theorems, and
    the operations built on them: modular arithmetic, exponentiation, shifts,
    comparisons, bytes. *)

From Stdlib Require Import ZArith Lia.
From stdpp Require Import base tactics list numbers option.
From S2P Require Import Prelude Bytes U256.

Local Open Scope Z_scope.

(** ** Modular addition and multiplication *)

Lemma addmod_ok a b n : word_ok a -> word_ok b -> word_ok n ->
  be_val n <= 2 ^ 255 \/ be_val a + be_val b < W ->
  word_ok (u256_addmod a b n) /\
  be_val (u256_addmod a b n) = if be_val n =? 0 then 0 else (be_val a + be_val b) mod be_val n.
Proof.
  intros Ha Hb Hn Hroom. unfold u256_addmod. rewrite <-is_zero_val by done.
  destruct (u256_is_zero n) eqn:Hz; [split; [apply zero_word_ok|done]|].
  pose proof (word_pos n Hn Hz) as Hpos. pose proof (word_bound n Hn).
  pose proof Ha as [La Ba]. pose proof Hb as [Lb Bb].
  pose proof (add_carry_spec a b ltac:(congruence) Ba Bb) as Hadd. destruct (u256_add_carry a b) as [c sum].
  destruct Hadd as (Hs & Hl & Hbs & Hc). assert (word_ok sum) as Hsum by (split; [congruence|done]).
  pose proof (word_bound sum Hsum). unfold zlen in Hs. rewrite La in Hs. change (256 ^ Z.of_nat 32) with W in Hs.
  destruct (Z.eqb_spec c 1) as [->|Hne].
  - destruct (rem_step_ok n zero_word 1 Hn zero_word_ok) as [O1 V1];
      [lia|rewrite zero_word_val; lia|rewrite zero_word_val; unfold W; lia|].
    rewrite zero_word_val in V1. change (2 * 0 + 1) with 1 in V1.
    destruct (mod_loop_ok sum n 1 _ Hsum Hn O1) as [O2 V2]; [done|left; lia|done|].
    split; [done|]. rewrite V2. f_equal. lia.
  - assert (c = 0) as -> by lia. destruct (mod_ok sum n Hsum Hn) as [O V]. split; [done|]. rewrite V.
    rewrite (proj2 (Z.eqb_neq _ _)) by lia. f_equal. lia.
Qed.

Lemma mulmod_upto a b n k : word_ok a -> word_ok b -> word_ok n -> 0 < be_val n <= 2 ^ 255 -> (k <= 256)%nat ->
  let r := fold_left (mulmod_step a b n) (seqZ 0 (Z.of_nat k)) zero_word in
  word_ok r /\ be_val r = (be_val a * prefix b (Z.of_nat k)) mod be_val n.
Proof.
  intros Ha Hb Hn Hpos. induction k as [|k IH]; intros Hk; cbv zeta.
  { simpl. rewrite prefix_0, Z.mul_0_r, Z.mod_0_l by (done || lia). split; [apply zero_word_ok|done]. }
  replace (Z.of_nat (S k)) with (Z.of_nat k + 1) by lia. rewrite seqZ_app by lia. rewrite fold_left_app.
  destruct (IH ltac:(lia)) as [Hr Hv]. cbv zeta in Hr, Hv.
  set (r := fold_left _ (seqZ 0 (Z.of_nat k)) zero_word) in *.
  change (seqZ (0 + Z.of_nat k) 1) with [0 + Z.of_nat k]. cbn [fold_left]. rewrite Z.add_0_l.
  destruct (prefix_step b (Z.of_nat k) Hb ltac:(lia)) as [Hp Hbit]. rewrite Hp.
  set (P := prefix b (Z.of_nat k)) in *. set (bit := bit_at b (Z.of_nat k)) in *. unfold mulmod_step. fold bit.
  destruct (addmod_ok r r n Hr Hr Hn ltac:(left; lia)) as [O1 V1].
  rewrite (proj2 (Z.eqb_neq _ _)) in V1 by lia. rewrite Hv in V1.
  rewrite <-Z.add_mod in V1 by lia.
  destruct (Z.eqb_spec bit 1) as [Hb1|Hb1].
  - destruct (addmod_ok _ a n O1 Ha Hn ltac:(left; lia)) as [O2 V2].
    rewrite (proj2 (Z.eqb_neq _ _)) in V2 by lia. split; [done|]. rewrite V2, V1, Z.add_mod_idemp_l, Hb1 by lia.
    f_equal. lia.
  - split; [done|]. rewrite V1. replace bit with 0 by lia. f_equal. lia.
Qed.

Lemma mulmod_ok a b n : word_ok a -> word_ok b -> word_ok n -> be_val n <= 2 ^ 255 ->
  word_ok (u256_mulmod a b n) /\
  be_val (u256_mulmod a b n) = if be_val n =? 0 then 0 else (be_val a * be_val b) mod be_val n.
Proof.
  intros Ha Hb Hn Hle. unfold u256_mulmod. rewrite <-is_zero_val by done.
  destruct (u256_is_zero n) eqn:Hz; [split; [apply zero_word_ok|done]|].
  destruct (mulmod_upto a b n 256 Ha Hb Hn) as [H1 H2]; [split; [by apply word_pos|done]|lia|].
  change (Z.of_nat 256) with 256 in H1, H2. rewrite prefix_256 in H2. by split.
Qed.

(** ** Exponentiation *)

Lemma shr_one_spec l : Forall byte l -> forall c0 acc, 0 <= c0 <= 1 ->
  exists out r, snd (fold_left shr_one_step l (128 * c0, acc)) = acc ++ out /\ length out = length l /\
    Forall byte out /\ 0 <= r <= 1 /\ 2 * be_val out + r = be_val l + c0 * 256 ^ zlen l.
Proof.
  induction 1 as [|x l Hx Hl IH]; intros c0 acc Hc.
  { exists [], c0. simpl. rewrite app_nil_r. split; [done|]. split; [done|]. split; [by apply Forall_nil|].
    unfold zlen. simpl. lia. }
  cbn [fold_left]. unfold shr_one_step at 2. cbn [fst snd]. unfold byte in Hx.
  assert (u8_shl x 7 = 128 * (x mod 2)) as ->.
  { unfold u8_shl, wrap. rewrite Z.shiftl_mul_pow2 by lia. change (2 ^ 8) with (128 * 2).
    rewrite (Z.mul_comm x). change (2 ^ 7) with 128. by rewrite Z.mul_mod_distr_l. }
  pose proof (Z.mod_pos_bound x 2 ltac:(lia)). pose proof (Z.div_mod x 2 ltac:(lia)).
  assert (Z.lor (Z.shiftr x 1) (128 * c0) = x / 2 + 128 * c0) as ->.
  { rewrite Z.shiftr_div_pow2 by lia. change (2 ^ 1) with 2. rewrite Z.lor_comm, Z.add_comm.
    apply (lor_add _ _ 7); [lia|change (2 ^ 7) with 128; lia|]. change (2 ^ 7) with 128.
    rewrite Z.mul_comm. by apply Z.mod_mul. }
  destruct (IH (x mod 2) (acc ++ [x / 2 + 128 * c0]) ltac:(lia)) as (out & r & Ho & Hlen & Hb & Hr & Hv).
  exists ((x / 2 + 128 * c0) :: out), r. rewrite Ho, <-app_assoc. split; [done|].
  split; [simpl; congruence|]. split; [constructor; [unfold byte; lia|done]|]. split; [done|].
  simpl. replace (zlen out) with (zlen l) by (unfold zlen; by rewrite Hlen).
  rewrite zlen_cons, pow256_succ by apply zlen_nonneg. nia.
Qed.

Lemma shr_one_ok e : word_ok e -> word_ok (shr_one e) /\ be_val (shr_one e) = be_val e / 2.
Proof.
  intros [Hl Hb]. destruct (shr_one_spec e Hb 0 [] ltac:(lia)) as (out & r & Ho & Hlen & Hob & Hr & Hv).
  unfold shr_one. change (128 * 0) with 0 in Ho. rewrite Ho. simpl. split; [split; [congruence|done]|].
  apply (Z.div_unique_pos _ _ _ r); lia.
Qed.

Lemma exp_loop_ok {E} fuel : forall result b e, word_ok result -> word_ok b -> word_ok e ->
  be_val e < 2 ^ Z.of_nat fuel ->
  exists w, @exp_loop E fuel result b e = Ok w /\ word_ok w /\
    be_val w = (be_val result * be_val b ^ be_val e) mod W.
Proof.
  induction fuel as [|fuel IH]; intros result b e Hr Hb He Hlt; simpl; rewrite is_zero_val by done;
    pose proof (word_bound e He); pose proof (word_bound result Hr) as Hrb.
  - change (2 ^ Z.of_nat 0) with 1 in Hlt. assert (be_val e = 0) as -> by lia. simpl. exists result.
    split_and!; [done..|]. rewrite Z.mul_1_r. by rewrite Z.mod_small.
  - destruct (Z.eqb_spec (be_val e) 0) as [->|Hne].
    { exists result. split_and!; [done..|]. rewrite Z.mul_1_r. by rewrite Z.mod_small. }
    destruct (shr_one_ok e He) as [Oe Ve]. destruct (mul_ok b b Hb Hb) as [Ob Vb].
    assert (Z.land (byte_at e 31) 1 = be_val e mod 2) as ->.
    { rewrite <-Z.bit0_mod. rewrite (testbit_word e 0 He) by lia. change (31 - 0 / 8) with 31. change (0 mod 8) with 0.
      rewrite Z.bit0_mod. by rewrite (Z.land_ones _ 1). }
    set (result' := if be_val e mod 2 =? 1 then u256_mul result b else result).
    assert (word_ok result' /\ be_val result' = (be_val result * be_val b ^ (be_val e mod 2)) mod W) as [Or Vr].
    { unfold result'. pose proof (Z.mod_pos_bound (be_val e) 2 ltac:(lia)).
      destruct (Z.eqb_spec (be_val e mod 2) 1) as [->|].
      - rewrite Z.pow_1_r. by apply mul_ok.
      - replace (be_val e mod 2) with 0 by lia. rewrite Z.pow_0_r, Z.mul_1_r. by rewrite Z.mod_small. }
    destruct (IH result' (u256_mul b b) (shr_one e) Or Ob Oe) as (w & Hw & Ow & Vw).
    { rewrite Ve. apply Z.div_lt_upper_bound; [lia|]. rewrite Nat2Z.inj_succ, Z.pow_succ_r in Hlt by lia. lia. }
    exists w. split; [done|]. split; [done|]. rewrite Vw, Vr, Vb, Ve.
    rewrite Z.mul_mod_idemp_l by done. rewrite <-Z.mul_mod_idemp_r, Z.mod_pow_l, Z.mul_mod_idemp_r by done.
    rewrite <-Z.mul_assoc. f_equal. f_equal. rewrite (Z.div_mod (be_val e) 2) at 3 by lia.
    pose proof (Z.mod_pos_bound (be_val e) 2 ltac:(lia)). pose proof (Z.div_pos (be_val e) 2 ltac:(lia) ltac:(lia)).
    rewrite Z.pow_add_r, Z.pow_mul_r by lia. rewrite Z.pow_2_r. ring.
Qed.

(** ** Comparisons and bitwise operations *)

Lemma slt_ok a b : word_ok a -> word_ok b ->
  u256_slt a b = (sval a <? sval b) /\ u256_sgt a b = (sval b <? sval a).
Proof.
  intros Ha Hb. unfold u256_slt, u256_sgt, u256_gt. rewrite !lt_ok by done.
  pose proof (word_bound a Ha). pose proof (word_bound b Hb). unfold W in *.
  destruct (sval_cases a Ha) as [(-> & -> & ?)|(-> & -> & ?)], (sval_cases b Hb) as [(-> & -> & ?)|(-> & -> & ?)];
    simpl; unfold W in *; split; try done; apply Bool.eq_iff_eq_true; rewrite ?Z.ltb_lt; split; intros; try lia; done.
Qed.

Lemma zip_with_length (f : Z -> Z -> Z) a b : word_ok a -> word_ok b -> length (zip_with f a b) = 32%nat.
Proof. intros [La _] [Lb _]. rewrite length_zip_with. lia. Qed.

Lemma byte_at_zip (f : Z -> Z -> Z) a b i : word_ok a -> word_ok b -> 0 <= i < 32 ->
  byte_at (zip_with f a b) i = f (byte_at a i) (byte_at b i).
Proof.
  intros Ha Hb Hi. unfold byte_at at 1. apply list_lookup_total_correct.
  apply lookup_zip_with_Some. exists (byte_at a i), (byte_at b i). split; [done|].
  split; by apply word_lookup.
Qed.

(** A bytewise operation that commutes with [testbit] is bitwise on words. *)
Lemma bitwise_ok (f : Z -> Z -> Z) (g : bool -> bool -> bool) a b : word_ok a -> word_ok b ->
  (forall x y, byte x -> byte y -> byte (f x y)) ->
  (forall x y n, Z.testbit (f x y) n = g (Z.testbit x n) (Z.testbit y n)) -> g false false = false ->
  word_ok (zip_with f a b) /\ be_val (zip_with f a b) = f (be_val a) (be_val b).
Proof.
  intros Ha Hb Hbyte Hbit Hg. assert (word_ok (zip_with f a b)) as Ho.
  { split; [by apply zip_with_length|]. apply Forall_lookup. intros i z Hz.
    apply lookup_zip_with_Some in Hz as (x & y & -> & Hx & Hy).
    destruct Ha as [_ Ba], Hb as [_ Bb].
    apply Hbyte; [exact (Forall_lookup_1 _ _ _ _ Ba Hx)|exact (Forall_lookup_1 _ _ _ _ Bb Hy)]. }
  split; [done|]. apply Z.bits_inj'. intros p Hp. rewrite Hbit.
  destruct (Z.lt_ge_cases p 256).
  - rewrite !testbit_word by (done || lia).
    assert (0 <= 31 - p / 8 < 32) by (Z.to_euclidean_division_equations; lia).
    by rewrite byte_at_zip, Hbit by done.
  - by rewrite !testbit_word_high.
Qed.

(** ** Shifts *)

Lemma testbit_byte v k m : word_ok v -> 0 <= k < 32 -> 0 <= m < 8 ->
  Z.testbit (be_val v) (8 * k + m) = Z.testbit (byte_at v (31 - k)) m.
Proof.
  intros Hv Hk Hm. rewrite testbit_word by (done || lia).
  replace ((8 * k + m) / 8) with k by (apply (Z.div_unique _ _ _ m); lia).
  by replace ((8 * k + m) mod 8) with m by (apply (Z.mod_unique _ _ k); lia).
Qed.

(** A word is determined by the bits of its bytes. *)
Lemma word_val_bytes a z : word_ok a -> 0 <= z < W ->
  (forall k m, 0 <= k < 32 -> 0 <= m < 8 -> Z.testbit (byte_at a (31 - k)) m = Z.testbit z (8 * k + m)) ->
  be_val a = z.
Proof.
  intros Ha Hz H. apply word_val_bits; [done..|]. intros p Hp.
  pose proof (Z.mod_pos_bound p 8 ltac:(lia)). pose proof (Z.div_mod p 8 ltac:(lia)) as Hd.
  assert (0 <= p / 8 < 32) by (Z.to_euclidean_division_equations; lia).
  rewrite Hd, testbit_byte by done. by apply H.
Qed.

Lemma map_seqZ_ok f : (forall i, 0 <= i < 32 -> byte (f i)) -> word_ok (map f (seqZ 0 32)).
Proof.
  intros Hf. split; [by rewrite length_map, length_seqZ|]. apply Forall_lookup. intros i x Hx.
  change (map f (seqZ 0 32)) with (f <$> seqZ 0 32) in Hx. apply list_lookup_fmap_Some in Hx as (y & -> & Hy).
  apply lookup_seqZ in Hy as [-> ?]. apply Hf. lia.
Qed.

Lemma byte_at_map f i : 0 <= i < 32 -> byte_at (map f (seqZ 0 32)) i = f i.
Proof.
  intros Hi. unfold byte_at. apply list_lookup_total_correct. change (map f (seqZ 0 32)) with (f <$> seqZ 0 32).
  rewrite list_lookup_fmap, lookup_seqZ_lt by lia. simpl. f_equal. f_equal. lia.
Qed.

Lemma u8_shl_bits x k m : 0 <= k -> 0 <= m < 8 -> Z.testbit (u8_shl x k) m = Z.testbit x (m - k).
Proof.
  intros Hk Hm. unfold u8_shl, wrap. change (2 ^ 8) with (2 ^ 8). rewrite Z.mod_pow2_bits_low by lia.
  apply Z.shiftl_spec. lia.
Qed.

Lemma byte_shiftr x k : byte x -> 0 <= k -> byte (Z.shiftr x k).
Proof.
  unfold byte. intros Hx Hk. rewrite Z.shiftr_div_pow2 by done. pose proof (Z.pow_pos_nonneg 2 k ltac:(lia) Hk).
  split; [apply Z.div_pos; lia|]. apply Z.div_lt_upper_bound; nia.
Qed.

Lemma byte_bits_out x m : byte x -> m < 0 \/ 8 <= m -> Z.testbit x m = false.
Proof. intros Hx [H|H]; [by apply Z.testbit_neg_r|by apply byte_bits_high]. Qed.

Lemma split8 s : 0 <= s -> s = 8 * (s / 8) + s mod 8 /\ 0 <= s / 8 /\ 0 <= s mod 8 < 8.
Proof. intros Hs. Z.to_euclidean_division_equations. lia. Qed.

Lemma shl_ok sh v : word_ok sh -> word_ok v ->
  word_ok (u256_shl sh v) /\ be_val (u256_shl sh v) = (be_val v * 2 ^ u256_to_u64 sh) mod W.
Proof.
  intros Hsh Hv. unfold u256_shl. assert (0 <= u256_to_u64 sh) as Hs0.
  { rewrite to_u64_val by done. by apply Z.mod_pos_bound. }
  set (s := u256_to_u64 sh) in *. pose proof (word_bound v Hv).
  destruct (Z.leb_spec 256 s).
  { split; [apply zero_word_ok|]. replace s with (256 + (s - 256)) by lia. rewrite Z.pow_add_r by lia.
    rewrite zero_word_val. change (2 ^ 256) with W. symmetry.
    replace (be_val v * (W * 2 ^ (s - 256))) with (be_val v * 2 ^ (s - 256) * W) by ring. by apply Z.mod_mul. }
  destruct (Z.eqb_spec s 0) as [->|]. { split; [done|]. rewrite Z.mul_1_r. by rewrite Z.mod_small. }
  destruct (split8 s Hs0) as (Es & Hbs & Hb). set (bs := s / 8) in *. set (b := s mod 8) in *.
  set (f := fun i => _). assert (word_ok (map f (seqZ 0 32))) as Ho.
  { apply map_seqZ_ok. intros i Hi. unfold f. destruct (_ <? 32); [|done].
    destruct (_ && _); [apply byte_lor|]; try apply byte_u8. apply byte_shiftr; [by apply byte_at_byte, Hv|lia]. }
  split; [done|]. apply word_val_bytes; [done|by apply Z.mod_pos_bound|]. intros k m Hk Hm.
  rewrite byte_at_map by lia. unfold W. rewrite Z.mod_pow2_bits_low, Z.mul_pow2_bits by lia.
  unfold f. replace (8 * k + m - s) with (8 * (k - bs) + (m - b)) by lia.
  pose proof (fun i => byte_at_byte v i (proj2 Hv)) as Hbyte.
  destruct (Z.ltb_spec (31 - k + bs) 32).
  2:{ rewrite Z.bits_0. symmetry. apply Z.testbit_neg_r. lia. }
  assert (Z.testbit (u8_shl (byte_at v (31 - k + bs)) b) m = Z.testbit (byte_at v (31 - k + bs)) (m - b)) as E1
    by (apply u8_shl_bits; lia).
  destruct (Z.lt_ge_cases m b) as [Hlt|Hge].
  - rewrite (byte_bits_out _ (m - b)) in E1 by (auto; lia).
    destruct (Z.ltb_spec 0 b); [|lia]. destruct (Z.ltb_spec (31 - k + bs + 1) 32); cbn [andb].
    + rewrite Z.lor_spec, E1, Z.shiftr_spec by lia. simpl.
      replace (8 * (k - bs) + (m - b)) with (8 * (k - bs - 1) + (m + (8 - b))) by lia.
      rewrite testbit_byte by (done || lia). f_equal. f_equal. lia.
    + rewrite E1. symmetry. apply Z.testbit_neg_r. lia.
  - rewrite testbit_byte by (done || lia). replace (31 - (k - bs)) with (31 - k + bs) by lia.
    destruct (_ && _); [|done]. rewrite Z.lor_spec, E1, Z.shiftr_spec by lia.
    rewrite (byte_bits_out _ (m + (8 - b))) by (auto; lia). apply orb_false_r.
Qed.

Lemma shr_ok sh v : word_ok sh -> word_ok v ->
  word_ok (u256_shr sh v) /\ be_val (u256_shr sh v) = be_val v / 2 ^ u256_to_u64 sh.
Proof.
  intros Hsh Hv. unfold u256_shr. assert (0 <= u256_to_u64 sh) as Hs0.
  { rewrite to_u64_val by done. by apply Z.mod_pos_bound. }
  set (s := u256_to_u64 sh) in *. pose proof (word_bound v Hv) as Hvb.
  assert (0 < 2 ^ s) as Hpow by (by apply Z.pow_pos_nonneg).
  destruct (Z.leb_spec 256 s).
  { split; [apply zero_word_ok|]. rewrite zero_word_val. symmetry. apply Z.div_small.
    pose proof (Z.pow_le_mono_r 2 256 s ltac:(lia) ltac:(lia)). unfold W in *. lia. }
  destruct (Z.eqb_spec s 0) as [->|]. { split; [done|]. by rewrite Z.div_1_r. }
  destruct (split8 s Hs0) as (Es & Hbs & Hb). set (bs := s / 8) in *. set (b := s mod 8) in *.
  set (f := fun i => _). pose proof (fun i => byte_at_byte v i (proj2 Hv)) as Hbyte.
  assert (word_ok (map f (seqZ 0 32))) as Ho.
  { apply map_seqZ_ok. intros i Hi. unfold f. destruct (0 <=? _); [|done].
    destruct (_ && _); [apply byte_lor|]; try apply byte_u8; apply byte_shiftr; auto; lia. }
  split; [done|]. apply word_val_bytes; [done| |].
  { split; [apply Z.div_pos; lia|]. apply Z.div_lt_upper_bound; [lia|]. nia. }
  intros k m Hk Hm. rewrite byte_at_map by lia. rewrite Z.div_pow2_bits by lia. unfold f.
  replace (8 * k + m + s) with (8 * (k + bs) + (m + b)) by lia.
  destruct (Z.leb_spec 0 (31 - k - bs)).
  2:{ rewrite Z.bits_0. symmetry. apply testbit_word_high; [done|lia]. }
  assert (Z.testbit (Z.shiftr (byte_at v (31 - k - bs)) b) m = Z.testbit (byte_at v (31 - k - bs)) (m + b)) as E1
    by (apply Z.shiftr_spec; lia).
  destruct (Z.lt_ge_cases (m + b) 8) as [Hlt|Hge].
  - rewrite testbit_byte by (done || lia). replace (31 - (k + bs)) with (31 - k - bs) by lia.
    destruct (_ && _); [|done]. rewrite Z.lor_spec, E1, u8_shl_bits by lia.
    rewrite (byte_bits_out _ (m - (8 - b))) by (auto; lia). apply orb_false_r.
  - rewrite (byte_bits_out _ (m + b)) in E1 by (auto; lia).
    destruct (Z.ltb_spec 0 b); [|lia]. destruct (Z.ltb_spec 0 (31 - k - bs)); cbn [andb].
    + rewrite Z.lor_spec, E1, u8_shl_bits by lia. simpl.
      replace (8 * (k + bs) + (m + b)) with (8 * (k + bs + 1) + (m - (8 - b))) by lia.
      rewrite testbit_byte by (done || lia). f_equal. f_equal. lia.
    + rewrite E1. symmetry. apply testbit_word_high; [done|lia].
Qed.

(** Setting one bit of one byte. *)
Lemma set_bit_bits v q p : word_ok v -> 0 <= q < 256 -> 0 <= p < 256 ->
  Z.testbit (be_val (alter (fun x => Z.lor x (2 ^ (q mod 8))) (Z.to_nat (31 - q / 8)) v)) p =
    Z.testbit (be_val v) p || (p =? q).
Proof.
  intros Hv Hq Hp. pose proof (split8 q ltac:(lia)) as (Eq & Hq8 & Hqm). pose proof (split8 p ltac:(lia)) as (Ep & Hp8 & Hpm).
  assert (byte (2 ^ (q mod 8))) as Hb.
  { unfold byte. pose proof (Z.pow_le_mono_r 2 (q mod 8) 7 ltac:(lia) ltac:(lia)).
    pose proof (Z.pow_pos_nonneg 2 (q mod 8) ltac:(lia) ltac:(lia)). lia. }
  pose proof (alter_or_ok v (Z.to_nat (31 - q / 8)) _ Hv Hb) as Ho.
  rewrite !testbit_word by done. unfold byte_at at 1. rewrite list_lookup_total_alt.
  destruct (Z.eq_dec (p / 8) (q / 8)) as [E|E].
  - rewrite E, list_lookup_alter_eq, (word_lookup v) by (done || lia). simpl.
    rewrite Z.lor_spec. f_equal. rewrite Z.pow2_bits_eqb by lia. apply Bool.eq_iff_eq_true. rewrite !Z.eqb_eq. lia.
  - rewrite list_lookup_alter_ne, (word_lookup v) by (done || lia). simpl.
    rewrite (proj2 (Z.eqb_neq p q)) by lia. by rewrite orb_false_r.
Qed.

Lemma sar_fill_upto v n : word_ok v -> (n <= 256)%nat ->
  let r := fold_left sar_fill (seqZ 0 (Z.of_nat n)) v in
  word_ok r /\ forall p, 0 <= p < 256 ->
    Z.testbit (be_val r) p = Z.testbit (be_val v) p || (256 - Z.of_nat n <=? p).
Proof.
  intros Hv. induction n as [|n IH]; intros Hn; cbv zeta.
  { simpl. split; [done|]. intros p Hp. rewrite (proj2 (Z.leb_gt _ _)) by lia. by rewrite orb_false_r. }
  replace (Z.of_nat (S n)) with (Z.of_nat n + 1) by lia. rewrite seqZ_app by lia. rewrite fold_left_app.
  destruct (IH ltac:(lia)) as [Hr Hb]. cbv zeta in Hr, Hb. set (r := fold_left _ (seqZ 0 (Z.of_nat n)) v) in *.
  set (k := Z.of_nat n) in *. change (seqZ (0 + k) 1) with [0 + k]. cbn [fold_left]. rewrite Z.add_0_l.
  unfold sar_fill. destruct (bit_index k ltac:(lia)) as [E1 E2]. pose proof (Z.mod_pos_bound k 8 ltac:(lia)) as Hm.
  assert (Z.shiftr 128 (k mod 8) = 2 ^ ((255 - k) mod 8)) as ->.
  { rewrite E2, Z.shiftr_div_pow2 by lia. change 128 with (2 ^ 7). symmetry. apply Z.pow_sub_r; lia. }
  rewrite <-E1. split.
  - apply alter_or_ok; [done|]. rewrite E2. unfold byte.
    pose proof (Z.pow_le_mono_r 2 (7 - k mod 8) 7 ltac:(lia) ltac:(lia)).
    pose proof (Z.pow_pos_nonneg 2 (7 - k mod 8) ltac:(lia) ltac:(lia)). lia.
  - intros p Hp. rewrite set_bit_bits, Hb by (done || lia). rewrite <-orb_assoc. f_equal.
    apply Bool.eq_iff_eq_true. rewrite orb_true_iff, !Z.leb_le, Z.eqb_eq. lia.
Qed.

Lemma testbit_sval a q : word_ok a -> 0 <= q ->
  Z.testbit (sval a) q = if q <? 256 then Z.testbit (be_val a) q else is_negative a.
Proof.
  intros Ha Hq. pose proof (word_bound a Ha). destruct (Z.ltb_spec q 256) as [Hlt|Hge].
  - rewrite <-(sval_mod a Ha). unfold W. by rewrite Z.mod_pow2_bits_low.
  - destruct (sval_cases a Ha) as [(-> & -> & ?)|(-> & Hs & Hr)].
    + by apply testbit_word_high.
    + assert (Z.b2z (Z.testbit (sval a) q) = 1) as Hb; [|by destruct (Z.testbit (sval a) q)].
      rewrite Z.testbit_spec' by done. assert (sval a / 2 ^ q = -1) as ->; [|done].
      pose proof (Z.pow_le_mono_r 2 256 q ltac:(lia) ltac:(lia)).
      symmetry. apply (Z.div_unique_pos _ _ _ (sval a + 2 ^ q)); lia.
Qed.

Lemma sar_ok sh v : word_ok sh -> word_ok v ->
  word_ok (u256_sar sh v) /\ be_val (u256_sar sh v) = (sval v / 2 ^ u256_to_u64 sh) mod W.
Proof.
  intros Hsh Hv. destruct (shr_ok sh v Hsh Hv) as [Hr Hrv]. unfold u256_sar. cbv zeta.
  assert (0 <= u256_to_u64 sh) as Hs0. { rewrite to_u64_val by done. by apply Z.mod_pos_bound. }
  set (s := u256_to_u64 sh) in *. assert (0 < 2 ^ s) as Hpow by (by apply Z.pow_pos_nonneg).
  destruct (Z.leb_spec 256 s).
  { pose proof (Z.pow_le_mono_r 2 256 s ltac:(lia) ltac:(lia)).
    destruct (sval_cases v Hv) as [(-> & _ & ?)|(-> & _ & ?)].
    - split; [apply zero_word_ok|]. by rewrite Z.div_small by lia.
    - split; [split; [done|by apply bytes_replicate]|].
      assert (sval v / 2 ^ s = -1) as ->; [|by vm_compute].
      symmetry. apply (Z.div_unique_pos _ _ _ (sval v + 2 ^ s)); lia. }
  destruct (Z.eqb_spec s 0) as [->|]. { split; [done|]. rewrite Z.div_1_r. symmetry. by apply sval_mod. }
  assert (forall w, word_ok w -> (forall p, 0 <= p < 256 ->
    Z.testbit (be_val w) p = Z.testbit (be_val v) (p + s) || (is_negative v && (256 - s <=? p))) ->
    be_val w = (sval v / 2 ^ s) mod W) as Hspec.
  { intros w Hw Hb. apply word_val_bits; [done|by apply Z.mod_pos_bound|]. intros p Hp. rewrite Hb by done.
    unfold W. rewrite Z.mod_pow2_bits_low, Z.div_pow2_bits, testbit_sval by (done || lia).
    destruct (Z.ltb_spec (p + s) 256), (Z.leb_spec (256 - s) p); try lia.
    - by rewrite andb_false_r, orb_false_r.
    - by rewrite testbit_word_high, andb_true_r by (done || lia). }
  assert (forall p, 0 <= p < 256 -> Z.testbit (be_val (u256_shr sh v)) p = Z.testbit (be_val v) (p + s)) as Hshr.
  { intros p Hp. by rewrite Hrv, Z.div_pow2_bits by lia. }
  destruct (is_negative v) eqn:Hneg.
  - destruct (sar_fill_upto (u256_shr sh v) (Z.to_nat s) Hr ltac:(lia)) as [Ho Hb].
    rewrite Z2Nat.id in Ho, Hb by done. split; [done|]. apply Hspec; [done|]. intros p Hp.
    by rewrite Hb, Hshr by done.
  - split; [done|]. apply Hspec; [done|]. intros p Hp. by rewrite Hshr, orb_false_r.
Qed.

(** ** Bytes *)

Lemma byte_value v i : word_ok v -> 0 <= i < 32 -> byte_at v i = (be_val v / 2 ^ (8 * (31 - i))) mod 256.
Proof.
  intros Hv Hi. apply Z.bits_inj'. intros m Hm. change 256 with (2 ^ 8).
  destruct (Z.lt_ge_cases m 8).
  - rewrite Z.mod_pow2_bits_low, Z.div_pow2_bits by lia. rewrite Z.add_comm, testbit_byte by (done || lia).
    f_equal. f_equal. lia.
  - rewrite Z.mod_pow2_bits_high by lia. apply byte_bits_high; [|done]. by apply byte_at_byte, Hv.
Qed.

Lemma byte_op_ok i x : word_ok i -> word_ok x ->
  word_ok (u256_byte i x) /\
  be_val (u256_byte i x) =
    if u256_to_u64 i <? 32 then (be_val x / 2 ^ (8 * (31 - u256_to_u64 i))) mod 256 else 0.
Proof.
  intros Hi Hx. unfold u256_byte. assert (0 <= u256_to_u64 i) as H0.
  { rewrite to_u64_val by done. by apply Z.mod_pos_bound. }
  destruct (Z.leb_spec 32 (u256_to_u64 i)), (Z.ltb_spec (u256_to_u64 i) 32); try lia.
  - split; [apply zero_word_ok|done].
  - split; [apply from_u64_ok|]. pose proof (byte_at_byte x (u256_to_u64 i) (proj2 Hx)) as Hb.
    rewrite from_u64_val by (unfold byte, in_range in *; lia). by apply byte_value.
Qed.

Lemma fold_fill (c : Z) x n i : word_ok x -> byte c -> (n <= 32)%nat -> 0 <= i < 32 ->
  let out := fold_left (fun out j => <[Z.to_nat j := c]> out) (seqZ 0 (Z.of_nat n)) x in
  word_ok out /\ byte_at out i = if i <? Z.of_nat n then c else byte_at x i.
Proof.
  intros Hx Hc Hn Hi. induction n as [|n IH]; cbv zeta.
  { simpl. split; [done|]. by rewrite (proj2 (Z.ltb_ge _ _)) by lia. }
  replace (Z.of_nat (S n)) with (Z.of_nat n + 1) by lia. rewrite seqZ_app by lia. rewrite fold_left_app.
  destruct (IH ltac:(lia)) as [Ho Hb]. cbv zeta in Ho, Hb.
  set (out := fold_left _ (seqZ 0 (Z.of_nat n)) x) in *.
  change (seqZ (0 + Z.of_nat n) 1) with [0 + Z.of_nat n]. cbn [fold_left]. rewrite Z.add_0_l, Nat2Z.id. split.
  - destruct Ho as [Hl Hf]. split; [by rewrite length_insert|]. by apply Forall_insert.
  - unfold byte_at at 1. rewrite list_lookup_total_alt. destruct (Z.eq_dec i (Z.of_nat n)) as [->|].
    + rewrite Nat2Z.id, list_lookup_insert_eq by (destruct Ho; lia). simpl. by rewrite (proj2 (Z.ltb_lt _ _)) by lia.
    + rewrite list_lookup_insert_ne, (word_lookup out) by (done || lia). simpl. rewrite Hb.
      destruct (Z.ltb_spec i (Z.of_nat n)), (Z.ltb_spec i (Z.of_nat n + 1)); try lia; done.
Qed.

Lemma fill_alter f c x k : word_ok x -> byte c -> (forall y, byte y -> byte (f y)) -> 0 <= k < 31 ->
  let res := alter f (Z.to_nat (31 - k)) (fold_left (fun out j => <[Z.to_nat j := c]> out) (seqZ 0 (31 - k)) x) in
  word_ok res /\ forall j, 0 <= j < 32 -> byte_at res (31 - j) =
    if j =? k then f (byte_at x (31 - k)) else if k <? j then c else byte_at x (31 - j).
Proof.
  intros Hx Hc Hfb Hk.
  pose proof (fun i Hi => fold_fill c x (Z.to_nat (31 - k)) i Hx Hc ltac:(lia) Hi) as Hf. cbv zeta in *.
  rewrite Z2Nat.id in Hf by lia. set (out := fold_left _ (seqZ 0 _) x) in *. destruct (Hf 0 ltac:(lia)) as [Ho _].
  split.
  - destruct Ho as [Hl Hbs]. split; [by rewrite length_alter|].
    apply Forall_alter; [done|]. intros y Hy _. apply Hfb. by eapply Forall_lookup_1.
  - intros j Hj. unfold byte_at at 1. rewrite list_lookup_total_alt. destruct (Z.eqb_spec j k) as [->|Hne].
    + rewrite list_lookup_alter_eq, (word_lookup out (31 - k)) by (done || lia). simpl.
      by rewrite (proj2 (Hf (31 - k) ltac:(lia))), Z.ltb_irrefl.
    + rewrite list_lookup_alter_ne, (word_lookup out (31 - j)) by (done || lia). simpl.
      rewrite (proj2 (Hf (31 - j) ltac:(lia))).
      destruct (Z.ltb_spec (31 - j) (31 - k)), (Z.ltb_spec k j); try lia; done.
Qed.

(** The bits of [r - 2^n]: those of [r] below [n], ones above. *)
Lemma minus_pow_bits r n p : 0 <= n -> 0 <= r < 2 ^ n -> 0 <= p ->
  Z.testbit (r - 2 ^ n) p = if p <? n then Z.testbit r p else true.
Proof.
  intros Hn Hr Hp. destruct (Z.ltb_spec p n) as [Hlt|Hge].
  - rewrite <-(Z.mod_pow2_bits_low (r - 2 ^ n) n p) by lia.
    replace (r - 2 ^ n) with (r + (-1) * 2 ^ n) by ring. rewrite Z.mod_add, Z.mod_small by lia. done.
  - assert (Z.b2z (Z.testbit (r - 2 ^ n) p) = 1) as Hz; [|by destruct (Z.testbit _ p)].
    rewrite Z.testbit_spec' by lia. pose proof (Z.pow_le_mono_r 2 n p ltac:(lia) ltac:(lia)).
    assert ((r - 2 ^ n) / 2 ^ p = -1) as ->; [|done].
    symmetry. apply (Z.div_unique_pos _ _ _ (r - 2 ^ n + 2 ^ p)); lia.
Qed.

(** What [u256_signextend] computes: the sign byte is overwritten with ones
    when the sign bit is set. *)
Lemma signextend_ok b x : word_ok b -> word_ok x -> u256_to_u64 b < 31 ->
  let k := u256_to_u64 b in
  word_ok (u256_signextend b x) /\
  be_val (u256_signextend b x) =
    (if Z.testbit (be_val x) (8 * k + 7) then be_val x mod 2 ^ (8 * k) - 2 ^ (8 * k) else be_val x mod 2 ^ (8 * k + 7)) mod W.
Proof.
  intros Hb Hx Hlt k. assert (0 <= k) as H0.
  { unfold k. rewrite to_u64_val by done. by apply Z.mod_pos_bound. }
  fold k in Hlt. unfold u256_signextend. fold k. rewrite (proj2 (Z.leb_gt _ _)) by lia. rewrite land_128, negb_involutive.
  rewrite <-(testbit_byte x k 7) by (done || lia).
  pose proof (Z.pow_pos_nonneg 2 (8 * k) ltac:(lia) ltac:(lia)) as Hpow.
  pose proof (Z.mod_pos_bound (be_val x) (2 ^ (8 * k)) Hpow) as Hm.
  destruct (Z.testbit (be_val x) (8 * k + 7)) eqn:Hsign.
  - destruct (fill_alter (fun y => Z.lor y 255) 255 x k Hx) as [Hok Hby];
      [unfold byte; lia|intros y Hy; apply byte_lor; [done|unfold byte; lia]|lia|].
    split; [done|]. apply word_val_bytes; [done|by apply Z.mod_pos_bound|]. intros j m Hj Hjm.
    unfold W. rewrite Z.mod_pow2_bits_low, Hby, minus_pow_bits by lia. change 255 with (Z.ones 8).
    destruct (Z.eqb_spec j k) as [->|Hne]; [|destruct (Z.ltb_spec k j)].
    + rewrite (proj2 (Z.ltb_ge _ _)), Z.lor_spec, (Z.ones_spec_low 8 m) by lia. apply orb_true_r.
    + rewrite (proj2 (Z.ltb_ge _ _)) by lia. apply Z.ones_spec_low. lia.
    + rewrite (proj2 (Z.ltb_lt _ _)), Z.mod_pow2_bits_low by lia. symmetry. by apply testbit_byte.
  - destruct (fill_alter (fun y => Z.land y 127) 0 x k Hx) as [Hok Hby]; [done|intros y Hy; by apply byte_land|lia|].
    split; [done|]. apply word_val_bytes; [done|by apply Z.mod_pos_bound|]. intros j m Hj Hjm.
    unfold W. rewrite Z.mod_pow2_bits_low, Hby by lia. change 127 with (Z.ones 7).
    destruct (Z.eqb_spec j k) as [->|Hne]; [destruct (Z.eq_dec m 7) as [->|]|destruct (Z.ltb_spec k j)].
    + rewrite Z.land_spec, Z.ones_spec_high, andb_false_r by lia. symmetry. by apply Z.mod_pow2_bits_high; lia.
    + rewrite Z.land_spec, Z.ones_spec_low, andb_true_r, Z.mod_pow2_bits_low by lia. symmetry. by apply testbit_byte.
    + rewrite Z.mod_pow2_bits_high by lia. apply Z.bits_0.
    + rewrite Z.mod_pow2_bits_low by lia. symmetry. by apply testbit_byte.
Qed.

Lemma rem_shift_zero rem : word_ok rem ->
  word_ok (rem_shift rem 0) /\ be_val (rem_shift rem 0) = (2 * be_val rem) mod W.
Proof.
  intros Hr. destruct (shl_one_ok rem Hr) as [Ho Hv]. unfold rem_shift. split; [by apply alter_or_ok|].
  rewrite (alter_or_val _ _ (byte_at (u256_shl_one rem) 31)); [|by apply (word_lookup _ 31)|].
  - rewrite Hv. lia.
  - by rewrite Z.lor_0_r, Z.add_0_r.
Qed.

(** ** The operations of the interpreter *)

(** Addition, subtraction, multiplication and exponentiation are arithmetic
    modulo 2^256; the square-and-multiply loop of [EXP] ends within 256
    rounds for every exponent. *)
Theorem u256_ring {E} a b : word_ok a -> word_ok b ->
  be_val (u256_add a b) = (be_val a + be_val b) mod W /\
  be_val (u256_sub a b) = (be_val a - be_val b) mod W /\
  be_val (u256_mul a b) = (be_val a * be_val b) mod W /\
  exists w, @u256_exp E a b = Ok w /\ word_ok w /\ be_val w = (be_val a ^ be_val b) mod W.
Proof.
  intros Ha Hb. split_and!; [by apply add_ok|by apply sub_ok|by apply mul_ok|].
  assert (word_ok (u256_from_u64 1)) as H1 by apply from_u64_ok.
  assert (be_val (u256_from_u64 1) = 1) as V1 by (by apply from_u64_val).
  unfold u256_exp. rewrite is_zero_val by done. destruct (Z.eqb_spec (be_val b) 0) as [->|].
  - exists (u256_from_u64 1). split_and!; [done..|]. by rewrite V1, Z.pow_0_r.
  - destruct (@exp_loop_ok E 256 (u256_from_u64 1) a b H1 Ha Hb) as (w & Hw & Ow & Vw).
    { pose proof (word_bound b Hb). exact (proj2 H). }
    exists w. split_and!; [done..|]. by rewrite Vw, V1, Z.mul_1_l.
Qed.

(** The four divisions are the EVM's: floor and remainder on unsigned values,
    truncation with the dividend's sign on two's complement ones, zero for a
    zero divisor, and -2^255 / -1 wraps to -2^255. *)
Theorem u256_division a b : word_ok a -> word_ok b ->
  be_val (u256_div a b) = (if be_val b =? 0 then 0 else be_val a / be_val b) /\
  be_val (u256_mod a b) = (if be_val b =? 0 then 0 else be_val a mod be_val b) /\
  be_val (u256_sdiv a b) = (if sval b =? 0 then 0 else Z.quot (sval a) (sval b)) mod W /\
  be_val (u256_smod a b) = (if sval b =? 0 then 0 else Z.rem (sval a) (sval b)) mod W.
Proof. intros Ha Hb. split_and!; [by apply div_ok|by apply mod_ok|by apply sdiv_ok|by apply smod_ok]. Qed.

(** [ADDMOD] and [MULMOD] are exact when the modulus is at most 2^255. *)
Theorem u256_modular a b n : word_ok a -> word_ok b -> word_ok n -> be_val n <= 2 ^ 255 ->
  be_val (u256_addmod a b n) = (if be_val n =? 0 then 0 else (be_val a + be_val b) mod be_val n) /\
  be_val (u256_mulmod a b n) = (if be_val n =? 0 then 0 else (be_val a * be_val b) mod be_val n).
Proof. intros Ha Hb Hn Hle. split; [apply addmod_ok; auto|by apply mulmod_ok]. Qed.

(** Above 2^255 the last doubling of the remainder loses its top bit: for
    every such modulus [n], [ADDMOD(n-1, n-1, n)] is not [n - 2]. *)
Theorem u256_addmod_wrong a n : word_ok a -> word_ok n -> 2 ^ 255 < be_val n -> be_val a = be_val n - 1 ->
  be_val (u256_addmod a a n) = 2 * be_val n - 2 - W /\
  (be_val a + be_val a) mod be_val n = be_val n - 2 /\ 2 * be_val n - 2 - W <> be_val n - 2.
Proof.
  intros Ha Hn Hbig Hv. pose proof (word_bound n Hn) as Hnb. pose proof (word_bound a Ha) as Hab.
  assert (2 ^ 255 * 2 = W) as HW by reflexivity. split; [|split; [|lia]].
  2:{ replace (be_val a + be_val a) with (be_val n - 2 + 1 * be_val n) by lia. rewrite Z.mod_add by lia.
      apply Z.mod_small. lia. }
  unfold u256_addmod. rewrite is_zero_val, (proj2 (Z.eqb_neq (be_val n) 0)) by (done || lia).
  pose proof Ha as [La Ba]. pose proof (add_carry_spec a a eq_refl Ba Ba) as Hadd.
  destruct (u256_add_carry a a) as [c sum]. destruct Hadd as (Hs & Hl & Hbs & Hc).
  assert (word_ok sum) as Hsum by (split; [congruence|done]). pose proof (word_bound sum Hsum) as Hsb.
  unfold zlen in Hs. rewrite La in Hs. change (256 ^ Z.of_nat 32) with W in Hs.
  assert (c = 1) as ->. { destruct (Z.eq_dec c 0) as [->|]; lia. }
  rewrite Z.eqb_refl. set (P := prefix sum 255).
  assert (be_val sum = 2 * P + bit_at sum 255 /\ 0 <= bit_at sum 255 <= 1) as [HP Hbit].
  { destruct (prefix_step sum 255 Hsum ltac:(lia)) as [Hp Hb]. change (255 + 1) with 256 in Hp.
    rewrite prefix_256 in Hp. by split. }
  assert (word_ok (rem_step n zero_word 1) /\ be_val (rem_step n zero_word 1) = 1 mod be_val n) as [O1 V1].
  { destruct (rem_step_ok n zero_word 1 Hn zero_word_ok) as [O1 V1];
      [lia|rewrite zero_word_val; lia|rewrite zero_word_val; unfold W; lia|]. rewrite zero_word_val in V1. by split. }
  destruct (mod_loop_upto sum n 1 255 _ Hsum Hn O1 ltac:(lia) V1 ltac:(lia)) as [O2 V2].
  { intros k Hk. destruct (prefix_step sum k Hsum ltac:(lia)) as [Hp Hb].
    pose proof (prefix_bound sum (k + 1) Hsum ltac:(lia)) as Hpb. pose proof (prefix_bound sum k Hsum ltac:(lia)).
    pose proof (Z.pow_le_mono_r 2 (k + 1) 255 ltac:(lia) ltac:(lia)).
    rewrite Z.pow_add_r, Z.pow_1_r in * by lia.
    pose proof (Z.mod_le (1 * 2 ^ k + prefix sum k) (be_val n) ltac:(lia) ltac:(lia)). lia. }
  unfold mod_loop. change 256 with (Z.of_nat 255 + 1). rewrite seqZ_app by lia. rewrite fold_left_app.
  set (r := fold_left _ (seqZ 0 (Z.of_nat 255)) _) in *. change (seqZ (0 + Z.of_nat 255) 1) with [255]. cbn [fold_left].
  change (Z.of_nat 255) with 255 in V2. rewrite Z.mul_1_l in V2. fold P in V2.
  rewrite Z.mod_small in V2 by lia. assert (bit_at sum 255 = 0) as -> by lia.
  destruct (rem_shift_zero r O2) as [O3 V3]. unfold rem_step. rewrite lt_ok, V3, V2 by done.
  replace (2 * (2 ^ 255 + P)) with (2 * be_val n - 2 - W + 1 * W) by lia. rewrite Z.mod_add by done.
  rewrite Z.mod_small by lia. rewrite (proj2 (Z.ltb_lt _ _)) by lia. cbn [negb]. rewrite V3, V2.
  replace (2 * (2 ^ 255 + P)) with (2 * be_val n - 2 - W + 1 * W) by lia. rewrite Z.mod_add by done.
  apply Z.mod_small. lia.
Qed.

(** The shifts and [BYTE] act on the low 64 bits of their amount: for amounts
    that fit 64 bits they are the EVM's (also from 256 on), larger ones are
    truncated, so that a shift by 2^64 leaves the word as it is. *)
Theorem u256_shifts sh v : word_ok sh -> word_ok v ->
  let s := be_val sh mod 2 ^ 64 in
  be_val (u256_shl sh v) = (be_val v * 2 ^ s) mod W /\
  be_val (u256_shr sh v) = be_val v / 2 ^ s /\
  be_val (u256_sar sh v) = (sval v / 2 ^ s) mod W /\
  be_val (u256_byte sh v) = (if s <? 32 then (be_val v / 2 ^ (8 * (31 - s))) mod 256 else 0) /\
  (be_val sh < 2 ^ 64 -> s = be_val sh) /\
  (be_val sh = 2 ^ 64 -> u256_shl sh v = v /\ u256_shr sh v = v /\ u256_sar sh v = v).
Proof.
  intros Hsh Hv s. unfold s. rewrite <-to_u64_val by done.
  split; [by apply shl_ok|]. split; [by apply shr_ok|]. split; [by apply sar_ok|]. split; [by apply byte_op_ok|].
  split.
  - intros Hlt. pose proof (word_bound sh Hsh). rewrite to_u64_val by done. apply Z.mod_small. lia.
  - intros E. assert (u256_to_u64 sh = 0) as E0 by (rewrite to_u64_val, E by done; apply Z.mod_same; lia).
    unfold u256_sar, u256_shr, u256_shl. rewrite E0. done.
Qed.

(** [SIGNEXTEND] agrees with the EVM exactly when the sign bit is clear or
    the sign byte is 0xff: extending 0x80 from byte 0 gives -1, not -128. *)
Theorem u256_signextend_iff b x : word_ok b -> word_ok x -> be_val b < 31 ->
  let k := be_val b in
  let neg := Z.testbit (be_val x) (8 * k + 7) in
  be_val (u256_signextend b x) =
    (be_val x mod 2 ^ (8 * k + 8) - (if neg then 2 ^ (8 * k + 8) else 0)) mod W <->
  (neg = false \/ byte_at x (31 - k) = 255).
Proof.
  intros Hb Hx Hlt k neg. pose proof (word_bound b Hb) as Hbb.
  assert (u256_to_u64 b = k) as E. { rewrite to_u64_val by done. apply Z.mod_small. lia. }
  destruct (signextend_ok b x Hb Hx ltac:(lia)) as [_ V]. rewrite E in V. fold neg in V. rewrite V.
  pose proof (byte_at_byte x (31 - k) (proj2 Hx)) as Hbyte. unfold byte in Hbyte.
  pose proof (Z.pow_pos_nonneg 2 (8 * k) ltac:(lia) ltac:(lia)) as Hpow.
  assert (2 ^ (8 * k + 8) = 2 ^ (8 * k) * 256) as Hp8 by (by rewrite Z.pow_add_r by lia).
  assert (be_val x mod 2 ^ (8 * k + 8) = byte_at x (31 - k) * 2 ^ (8 * k) + be_val x mod 2 ^ (8 * k)) as Hx8.
  { rewrite byte_value by (done || lia). replace (8 * (31 - (31 - k))) with (8 * k) by lia.
    rewrite Hp8, Z.rem_mul_r by lia. ring. }
  pose proof (Z.mod_pos_bound (be_val x) (2 ^ (8 * k)) Hpow) as Hm.
  destruct neg eqn:Hneg.
  - split; [|].
    + intros Heq. right. rewrite Hx8, Hp8 in Heq.
      assert (2 ^ (8 * k) * 256 <= W) by (rewrite <-Hp8; apply Z.pow_le_mono_r; lia).
      set (A := be_val x mod 2 ^ (8 * k) - 2 ^ (8 * k)) in *.
      set (B := byte_at x (31 - k) * 2 ^ (8 * k) + be_val x mod 2 ^ (8 * k) - 2 ^ (8 * k) * 256) in *.
      assert (A mod W = A + W) as EA by (symmetry; apply (Z.mod_unique_pos _ _ (-1)); lia).
      assert (B mod W = B + W) as EB by (symmetry; apply (Z.mod_unique_pos _ _ (-1)); unfold B; nia).
      assert (A = B) as EAB by lia. unfold A, B in EAB. nia.
    + intros [?|H255]; [done|]. f_equal. rewrite Hx8, H255, Hp8. ring.
  - split; [by left|]. intros _. rewrite Z.sub_0_r. f_equal.
    apply Z.bits_inj'. intros p Hp. destruct (Z.lt_ge_cases p (8 * k + 7)).
    + by rewrite !Z.mod_pow2_bits_low by lia.
    + rewrite Z.mod_pow2_bits_high by lia. symmetry. destruct (Z.eq_dec p (8 * k + 7)) as [->|].
      * by rewrite Z.mod_pow2_bits_low by lia.
      * apply Z.mod_pow2_bits_high. lia.
Qed.

(** Comparisons are on the unsigned and the two's complement values, the
    bitwise operations on the bits of the whole word. *)
Theorem u256_compare_bits a b : word_ok a -> word_ok b ->
  u256_lt a b = (be_val a <? be_val b) /\ u256_gt a b = (be_val b <? be_val a) /\
  u256_slt a b = (sval a <? sval b) /\ u256_sgt a b = (sval b <? sval a) /\
  u256_eq a b = (be_val a =? be_val b) /\ u256_is_zero a = (be_val a =? 0) /\
  be_val (u256_and a b) = Z.land (be_val a) (be_val b) /\
  be_val (u256_or a b) = Z.lor (be_val a) (be_val b) /\
  be_val (u256_xor a b) = Z.lxor (be_val a) (be_val b) /\
  be_val (u256_not a) = W - 1 - be_val a.
Proof.
  intros Ha Hb. split; [by apply lt_ok|]. split; [by apply lt_ok|]. split; [by apply slt_ok|]. split; [by apply slt_ok|].
  split.
  { unfold u256_eq. apply Bool.eq_iff_eq_true. rewrite bool_decide_eq_true, Z.eqb_eq.
    split; [by intros ->|by apply word_inj]. }
  split; [by apply is_zero_val|].
  split; [by apply (bitwise_ok _ andb); auto using Z.land_spec, byte_land|].
  split; [by apply (bitwise_ok _ orb); auto using Z.lor_spec, byte_lor|].
  split; [by apply (bitwise_ok _ xorb); auto using Z.lxor_spec, byte_lxor|]. by apply not_ok.
Qed.
