(* ===== verification/EvmMachine.v ===== *)
(** * The EVM's stack, memory and gas (crates/zbx-evm/src/stack.rs, memory.rs, gas.rs)

    The operand stack (at most 1024 words), the byte-addressed memory that
    grows in 32-byte words, and the gas formulas that price the growth. *)

From Stdlib Require Import ZArith Lia String.
From stdpp Require Import base tactics list numbers option.
From S2P Require Import Prelude Bytes U256.

Local Open Scope Z_scope.

Inductive EvmError : Type :=
| OutOfGas
| StackUnderflow
| StackOverflow
| InvalidOpcode (op : Z)
| InvalidJump (dest : Z)
| MemoryOutOfBounds (offset size : Z)
| WriteProtection
| EvmRevert (reason : string)
| Precompile (reason : string)
| CallDepthExceeded
| StaticStateChange
| InsufficientBalance
| NonceOverflow
| InitcodeOversize (len : Z)
| InvalidDeployedCodePrefix
| CreateCollision.

(** ** Stack *)

Definition MAX_STACK : Z := 1024.
(** [data], the top last. *)
Record Stack : Type := mkStack { st_data : list word }.
Definition stack_new : Stack := mkStack [].
Definition stack_len (s : Stack) : Z := zlen (st_data s).

Definition push (w : word) : M Stack EvmError unit :=
  s ← get_st;
  _ ← throw_if (MAX_STACK <=? stack_len s) StackOverflow;
  put_st (mkStack (st_data s ++ [w])).

Definition pop : M Stack EvmError word := fun s =>
  match list.last (st_data s) with
  | Some w => (Ok w, mkStack (take (length (st_data s) - 1) (st_data s)))
  | None => (Err StackUnderflow, s)
  end.

Definition peek (depth : Z) (s : Stack) : res EvmError word :=
  if stack_len s <=? depth then Err StackUnderflow else index (st_data s) (stack_len s - 1 - depth).

(** [slice.swap(i, j)] *)
Definition swap_at {A} (i j : nat) (l : list A) : list A :=
  match l !! i, l !! j with
  | Some x, Some y => <[i := y]> (<[j := x]> l)
  | _, _ => l
  end.

Definition swap (depth : Z) : M Stack EvmError unit :=
  s ← get_st;
  _ ← throw_if (stack_len s <=? depth) StackUnderflow;
  let top := stack_len s - 1 in
  put_st (mkStack (swap_at (Z.to_nat top) (Z.to_nat (top - depth)) (st_data s))).

(** [depth - 1] wraps for [depth = 0]. *)
Definition dup (depth : Z) : M Stack EvmError unit :=
  s ← get_st;
  w ← lift (peek (usize (depth - 1)) s);
  push w.

(** ** Gas *)

Definition GAS_COPY_WORD : Z := 3.
Definition GAS_SHA3 : Z := 30.
Definition GAS_SHA3_WORD : Z := 6.
Definition GAS_LOG_BASE : Z := 375.
Definition GAS_LOG_DATA : Z := 8.
Definition GAS_LOG_TOPIC : Z := 375.

Definition word_cost (n : Z) : Z := sat 128 (sat 128 (3 * n) + sat 128 (n * n) / 512).
Definition memory_expansion_cost (old_words new_words : Z) : Z :=
  let diff := sat 128 (word_cost new_words - word_cost old_words) in
  if umax 64 <? diff then umax 64 else diff.

Definition copy_cost (size_bytes : Z) : Z := u64 (GAS_COPY_WORD * (u64 (size_bytes + 31) / 32)).
Definition sha3_cost (size_bytes : Z) : Z :=
  u64 (GAS_SHA3 + u64 (GAS_SHA3_WORD * (u64 (size_bytes + 31) / 32))).
Definition log_cost (data_size topic_count : Z) : Z :=
  u64 (u64 (GAS_LOG_BASE + u64 (GAS_LOG_DATA * data_size)) + u64 (GAS_LOG_TOPIC * topic_count)).
Definition initcode_cost (size : Z) : Z := u64 (2 * (u64 (size + 31) / 32)).

(** EIP-150: all but one 64th. *)
Definition forward_gas_eip150 (gas_remaining requested : Z) : Z :=
  let max_forwardable := sat 64 (gas_remaining - gas_remaining / 64) in
  Z.min requested max_forwardable.

(** ** Memory *)

Definition MAX_MEMORY : Z := 32 * 1024 * 1024.
Abbreviation Memory := (list Z).

(** [Vec::resize(n, 0)] *)
Definition resize (n : Z) (l : list Z) : list Z :=
  take (Z.to_nat n) l ++ replicate (Z.to_nat n - length l) 0.

Definition ensure (offset size : Z) : M Memory EvmError Z :=
  if size =? 0 then mret 0
  else
    m ← get_st;
    end_ ← lift_opt (checked 64 (offset + size)) (MemoryOutOfBounds offset size);
    _ ← throw_if (MAX_MEMORY <? end_) (MemoryOutOfBounds offset size);
    let old_words := (zlen m + 31) / 32 in
    let new_words := (end_ + 31) / 32 in
    if old_words <? new_words then
      _ ← put_st (resize (new_words * 32) m);
      mret (memory_expansion_cost old_words new_words)
    else mret 0.

(** [vec![0; n]] beyond [isize::MAX] panics. *)
Definition zeros {E} (n : Z) : res E (list Z) :=
  if 2 ^ 63 <=? n then Panic else Ok (replicate (Z.to_nat n) 0).

Definition mem_read {E} (offset size : Z) (m : Memory) : res E (list Z) :=
  if zlen m <=? offset then zeros size
  else
    let end_ := Z.min (usize (offset + size)) (zlen m) in
    out ← slice m offset end_;
    if 2 ^ 63 <=? size then Panic else Ok (resize size out).

Definition mem_write {E} (offset : Z) (data : list Z) (m : Memory) : res E Memory :=
  match data with
  | [] => Ok m
  | _ =>
    let end_ := sat 64 (offset + zlen data) in
    if MAX_MEMORY <? end_ then Panic
    else
      let m := if zlen m <? end_ then resize end_ m else m in
      Ok (take (Z.to_nat offset) m ++ data ++ drop (Z.to_nat end_) m)
  end.

(** ** The stack is a stack *)

Definition stack_ok (s : Stack) : Prop := stack_len s <= MAX_STACK.

(** Within the limit of 1024 words: [push] then [pop] is the identity, [pop]
    gives back what is on top, [SWAP]n exchanges the top with the n-th word
    below it and [DUP]n copies the n-th word, and each reports an overflow or
    an underflow and leaves the stack alone in exactly the remaining cases. *)
Theorem stack_ops s w (n : Z) : stack_ok s -> 1 <= n < 2 ^ 64 ->
  (stack_len s < MAX_STACK -> fst (push w s) = Ok tt /\ pop (snd (push w s)) = (Ok w, s)) /\
  (stack_len s = MAX_STACK -> push w s = (Err StackOverflow, s)) /\
  (st_data s = [] -> pop s = (Err StackUnderflow, s)) /\
  (n < stack_len s -> fst (swap n s) = Ok tt /\
     forall i : nat, st_data (snd (swap n s)) !! i =
       if Z.of_nat i =? stack_len s - 1 then st_data s !! Z.to_nat (stack_len s - 1 - n)
       else if Z.of_nat i =? stack_len s - 1 - n then list.last (st_data s) else st_data s !! i) /\
  (stack_len s <= n -> swap n s = (Err StackUnderflow, s)) /\
  (n <= stack_len s < MAX_STACK -> exists x, st_data s !! Z.to_nat (stack_len s - n) = Some x /\
     dup n s = (Ok tt, mkStack (st_data s ++ [x]))) /\
  (stack_len s < n -> dup n s = (Err StackUnderflow, s)).
Proof.
  intros Hs Hn. unfold stack_ok, stack_len, zlen in *. destruct s as [l]. simpl in *.
  unfold swap, dup, push, get_st, throw_if, put_st, lift, mbind, M_bind, stack_len, zlen. cbn [st_data].
  split_and!.
  - intros Hl. rewrite (proj2 (Z.leb_gt _ _)) by done. split; [done|]. unfold pop. simpl.
    by rewrite last_snoc, length_app, Nat.add_sub, take_app_length.
  - intros ->. done.
  - intros ->. done.
  - intros Hl. rewrite (proj2 (Z.leb_gt _ _)) by done. split; [done|]. intros i. cbn [snd st_data]. unfold swap_at.
    destruct (lookup_lt_is_Some_2 l (Z.to_nat (Z.of_nat (length l) - 1))) as [x Hx]; [lia|].
    destruct (lookup_lt_is_Some_2 l (Z.to_nat (Z.of_nat (length l) - 1 - n))) as [y Hy]; [lia|].
    rewrite Hx, Hy. rewrite last_lookup. replace (Nat.pred (length l)) with (Z.to_nat (Z.of_nat (length l) - 1)) by lia.
    destruct (Z.eqb_spec (Z.of_nat i) (Z.of_nat (length l) - 1)) as [E|E].
    + replace i with (Z.to_nat (Z.of_nat (length l) - 1)) by lia. rewrite list_lookup_insert_eq; [done|].
      rewrite length_insert. lia.
    + rewrite list_lookup_insert_ne by lia.
      destruct (Z.eqb_spec (Z.of_nat i) (Z.of_nat (length l) - 1 - n)) as [E2|E2].
      * replace i with (Z.to_nat (Z.of_nat (length l) - 1 - n)) by lia. rewrite list_lookup_insert_eq by lia. done.
      * by rewrite list_lookup_insert_ne by lia.
  - intros Hl. by rewrite (proj2 (Z.leb_le _ _)) by done.
  - intros Hl. unfold peek, stack_len, zlen. cbn [st_data]. rewrite wrap_small by (unfold in_range; lia).
    rewrite (proj2 (Z.leb_gt _ _)) by lia.
    destruct (@index_Ok _ EvmError l (Z.of_nat (length l) - 1 - (n - 1))) as (x & Hx & ->); [unfold zlen; lia|].
    exists x. replace (Z.of_nat (length l) - n) with (Z.of_nat (length l) - 1 - (n - 1)) by lia. split; [done|].
    by rewrite (proj2 (Z.leb_gt _ _)) by lia.
  - intros Hl. unfold peek, stack_len, zlen. cbn [st_data]. rewrite wrap_small by (unfold in_range; lia).
    by rewrite (proj2 (Z.leb_le _ _)) by lia.
Qed.

(** ** Memory grows, reads back what was written, and is paid for once *)

Lemma length_resize n l : 0 <= n -> zlen (resize n l) = n.
Proof.
  intros Hn. unfold resize, zlen. rewrite length_app, length_take, length_replicate. lia.
Qed.

(** The byte at [i], zero beyond the end. *)
Definition mem_at (m : Memory) (i : Z) : Z := default 0 (m !! Z.to_nat i).

Lemma mem_at_resize n m i : 0 <= i -> zlen m <= n -> mem_at (resize n m) i = mem_at m i.
Proof.
  intros Hi Hn. unfold mem_at, resize, zlen in *. rewrite take_ge by lia.
  destruct (decide (Z.to_nat i < length m)%nat).
  - by rewrite lookup_app_l.
  - rewrite lookup_app_r by lia. rewrite (lookup_ge_None_2 m) by lia.
    destruct (replicate _ 0 !! _) as [x|] eqn:Hx; [|done]. by apply lookup_replicate in Hx as [-> _].
Qed.

Definition words_of (m : Memory) : Z := zlen m / 32.

(** Memory in use by the interpreter: whole words, within the cap. *)
Definition mem_ok (m : Memory) : Prop := zlen m mod 32 = 0 /\ zlen m <= MAX_MEMORY.

Lemma mem_ok_words m : mem_ok m -> zlen m = 32 * words_of m /\ (zlen m + 31) / 32 = words_of m.
Proof. intros [H _]. unfold words_of. Z.to_euclidean_division_equations. lia. Qed.

Lemma ensure_spec off sz m : mem_ok m -> 0 <= off -> 0 < sz ->
  (off + sz <= MAX_MEMORY /\ exists m' gas, ensure off sz m = (Ok gas, m') /\ mem_ok m' /\
     off + sz <= zlen m' /\ zlen m <= zlen m' /\
     gas = memory_expansion_cost (words_of m) (words_of m') /\
     forall i, 0 <= i -> mem_at m' i = mem_at m i) \/
  (MAX_MEMORY < off + sz /\ ensure off sz m = (Err (MemoryOutOfBounds off sz), m)).
Proof.
  intros Hm Ho Hs. destruct (mem_ok_words m Hm) as [Hl Hw]. pose proof Hm as [_ Hcap].
  unfold ensure. rewrite (proj2 (Z.eqb_neq sz 0)) by lia.
  unfold get_st, lift_opt, throw_if, put_st, mbind, M_bind, mret, M_ret.
  destruct (Z.le_gt_cases (off + sz) MAX_MEMORY) as [Hle|Hgt]; [left|right].
  - split; [done|]. rewrite checked_in by (unfold in_range, MAX_MEMORY in *; lia). simpl.
    rewrite (proj2 (Z.ltb_ge _ _)) by lia. rewrite Hw.
    destruct (Z.ltb_spec (words_of m) ((off + sz + 31) / 32)) as [Hlt|Hge].
    + assert (off + sz <= (off + sz + 31) / 32 * 32 <= off + sz + 31) as Hr
        by (Z.to_euclidean_division_equations; lia).
      assert ((off + sz + 31) / 32 * 32 <= MAX_MEMORY).
      { unfold MAX_MEMORY in *. Z.to_euclidean_division_equations. lia. }
      pose proof (zlen_nonneg m). set (q := (off + sz + 31) / 32) in *.
      assert (zlen (resize (q * 32) m) = q * 32) as Hq by (apply length_resize; lia).
      exists (resize (q * 32) m), (memory_expansion_cost (words_of m) q). split; [done|].
      unfold mem_ok. rewrite Hq, Z.mod_mul by lia. split; [done|]. split; [lia|]. split; [lia|].
      split; [|intros i Hi; apply mem_at_resize; lia].
      unfold words_of at 3. by rewrite Hq, Z.div_mul by lia.
    + exists m, 0. split; [done|]. split; [done|]. assert (off + sz <= zlen m).
      { rewrite Hl. Z.to_euclidean_division_equations. lia. }
      split_and!; try lia; try done. unfold memory_expansion_cost. rewrite Z.sub_diag. done.
  - split; [done|]. destruct (checked 64 (off + sz)) as [e|] eqn:Hc; [|done].
    apply checked_Some in Hc as [-> _]. simpl. by rewrite (proj2 (Z.ltb_lt _ _)) by done.
Qed.

(** Writing within bounds. *)
Lemma mem_write_spec {E} off data m : 0 <= off -> off + zlen data <= zlen m -> zlen m <= MAX_MEMORY ->
  exists m', @mem_write E off data m = Ok m' /\ zlen m' = zlen m /\
    forall i, 0 <= i -> mem_at m' i =
      if (off <=? i) && (i <? off + zlen data) then mem_at data (i - off) else mem_at m i.
Proof.
  intros Ho Hd Hm. destruct data as [|b data].
  { exists m. split; [done|]. split; [done|]. intros i Hi. rewrite zlen_nil.
    destruct (Z.leb_spec off i), (Z.ltb_spec i (off + 0)); try lia; done. }
  unfold mem_write. set (d := b :: data) in *. pose proof (zlen_nonneg d).
  rewrite sat_small by (unfold in_range, MAX_MEMORY in *; lia). rewrite (proj2 (Z.ltb_ge _ _)) by lia.
  rewrite (proj2 (Z.ltb_ge (zlen m) _)) by lia. eexists. split; [done|]. unfold zlen in *. split.
  - rewrite !length_app, length_take, length_drop. lia.
  - intros i Hi. unfold mem_at.
    destruct (Z.leb_spec off i) as [Hoi|Hoi], (Z.ltb_spec i (off + Z.of_nat (length d))) as [Hid|Hid]; cbn [andb]; try lia.
    + rewrite lookup_app_r by (rewrite length_take; lia). rewrite length_take, lookup_app_l by lia.
      f_equal. f_equal. lia.
    + rewrite lookup_app_r by (rewrite length_take; lia). rewrite length_take, lookup_app_r by lia.
      rewrite lookup_drop. f_equal. f_equal. lia.
    + rewrite lookup_app_l by (rewrite length_take; lia). rewrite lookup_take_lt by lia. done.
Qed.

(** Reading within bounds. *)
Lemma mem_read_spec {E} off sz m : 0 <= off -> 0 <= sz -> off + sz <= zlen m -> zlen m <= MAX_MEMORY ->
  exists out, @mem_read E off sz m = Ok out /\ zlen out = sz /\
    forall i, 0 <= i < sz -> mem_at out i = mem_at m (off + i).
Proof.
  intros Ho Hs Hb Hm. unfold mem_read. unfold MAX_MEMORY in Hm. destruct (Z.leb_spec (zlen m) off) as [Hle|Hlt].
  - assert (sz = 0) as -> by lia. exists []. split; [done|]. split; [done|]. lia.
  - rewrite wrap_small by (unfold in_range; lia). rewrite Z.min_l by lia.
    rewrite slice_Ok by lia. cbn [mbind res_bind]. rewrite (proj2 (Z.leb_gt _ _)) by lia.
    eexists. split; [done|]. split; [by apply length_resize|]. intros i Hi. rewrite mem_at_resize; [|lia|].
    + unfold mem_at. rewrite lookup_take_lt, lookup_drop by lia. f_equal. f_equal. lia.
    + unfold zlen in *. rewrite length_take, length_drop. lia.
Qed.

(** A [MSTORE]-like access: expansion, then a write in the bounds it ensured,
    then a read.  It never panics, the bytes read back, the rest of the memory
    is untouched, fresh memory is zero. *)
Theorem memory_store_load off data m : mem_ok m -> 0 <= off -> data <> [] ->
  off + zlen data <= MAX_MEMORY ->
  exists gas m1 m2, ensure off (zlen data) m = (Ok gas, m1) /\
    @mem_write EvmError off data m1 = Ok m2 /\ mem_ok m2 /\
    @mem_read EvmError off (zlen data) m2 = Ok data /\
    (forall i, 0 <= i -> i < off \/ off + zlen data <= i -> mem_at m2 i = mem_at m i) /\
    zlen m <= zlen m2.
Proof.
  intros Hm Ho Hd Hle. assert (0 < zlen data) as Hpos by (unfold zlen; destruct data; [done|simpl; lia]).
  destruct (ensure_spec off (zlen data) m Hm Ho Hpos) as [(_ & m1 & gas & He & Hok & Hb & Hg & _ & Hsame)|[? _]]; [|lia].
  destruct (@mem_write_spec EvmError off data m1 Ho Hb (proj2 Hok)) as (m2 & Hw & Hl & Hat).
  assert (mem_ok m2) as Hok2 by (unfold mem_ok; by rewrite Hl).
  destruct (@mem_read_spec EvmError off (zlen data) m2 Ho ltac:(lia) ltac:(lia) (proj2 Hok2)) as (out & Hr & Hol & Hoat).
  exists gas, m1, m2. split; [done|]. split; [done|]. split; [done|]. split; [|split; [|lia]].
  - rewrite Hr. f_equal. apply list_eq_same_length with (n := length data); [done|unfold zlen in Hol; lia|].
    intros i x y Hi Hx Hy. specialize (Hoat (Z.of_nat i) ltac:(unfold zlen in *; lia)). rewrite Hat in Hoat by lia.
    rewrite (proj2 (Z.leb_le _ _)), (proj2 (Z.ltb_lt _ _)) in Hoat by (unfold zlen in *; lia). simpl in Hoat.
    replace (off + Z.of_nat i - off) with (Z.of_nat i) in Hoat by lia. unfold mem_at in Hoat.
    rewrite Nat2Z.id, Hx, Hy in Hoat. done.
  - intros i Hi Hout. rewrite Hat, Hsame by done.
    destruct (Z.leb_spec off i), (Z.ltb_spec i (off + zlen data)); try lia; done.
Qed.

(** ** Gas of memory growth *)

Lemma word_cost_exact n : 0 <= n < 2 ^ 32 -> word_cost n = 3 * n + n * n / 512.
Proof.
  intros Hn. assert (0 <= n * n < 2 ^ 64) by (change (2 ^ 64) with (2 ^ 32 * 2 ^ 32); nia).
  pose proof (Z.div_pos (n * n) 512 ltac:(lia) ltac:(lia)).
  pose proof (Z.div_le_upper_bound (n * n) 512 (n * n) ltac:(lia) ltac:(lia)).
  unfold word_cost. rewrite (sat_small 128 (3 * n)), (sat_small 128 (n * n)) by (unfold in_range; lia).
  apply sat_small. unfold in_range. lia.
Qed.

Lemma word_cost_mono a b : 0 <= a <= b -> b < 2 ^ 32 -> word_cost a <= word_cost b.
Proof.
  intros Hab Hb. rewrite !word_cost_exact by lia. pose proof (Z.div_le_mono (a * a) (b * b) 512 ltac:(lia) ltac:(nia)). lia.
Qed.

Lemma expansion_exact a b : 0 <= a <= b -> b < 2 ^ 32 -> memory_expansion_cost a b = word_cost b - word_cost a.
Proof.
  intros Hab Hb. pose proof (word_cost_mono a b Hab Hb). unfold memory_expansion_cost.
  assert (0 <= word_cost b - word_cost a < 2 ^ 64) as Hr.
  { rewrite !word_cost_exact in * by lia. assert (b * b < 2 ^ 64) by (change (2 ^ 64) with (2 ^ 32 * 2 ^ 32); nia).
    pose proof (Z.div_le_upper_bound (b * b) 512 (2 ^ 55) ltac:(lia) ltac:(lia)).
    pose proof (Z.div_pos (a * a) 512 ltac:(nia) ltac:(lia)). lia. }
  rewrite sat_small by (unfold in_range; lia). rewrite (proj2 (Z.ltb_ge _ _)); [done|]. unfold umax. lia.
Qed.

(** The gas charged by a sequence of accesses, and the memory it leaves. *)
Fixpoint ensure_all (l : list (Z * Z)) (m : Memory) : res EvmError Z * Memory :=
  match l with
  | [] => (Ok 0, m)
  | (off, sz) :: l =>
    match ensure off sz m with
    | (Ok g, m') => match ensure_all l m' with (Ok gs, m'') => (Ok (g + gs), m'') | r => r end
    | r => r
    end
  end.

(** Memory is paid for exactly once: whatever the order and overlap of the
    accesses, the total gas is the price of the final size less that of the
    initial one, with no saturation below the 32 MiB cap. *)
Theorem memory_gas_exact l : forall m g m', mem_ok m -> Forall (fun x => 0 <= fst x /\ 0 <= snd x) l ->
  ensure_all l m = (Ok g, m') ->
  g = 3 * words_of m' + words_of m' * words_of m' / 512 - (3 * words_of m + words_of m * words_of m / 512) /\
  mem_ok m' /\ zlen m <= zlen m'.
Proof.
  assert (forall m, mem_ok m -> 0 <= words_of m < 2 ^ 32) as Hrange.
  { intros m Hm. pose proof Hm as [_ Hc]. destruct (mem_ok_words m Hm). pose proof (zlen_nonneg m).
    unfold MAX_MEMORY in Hc. lia. }
  assert (forall l m g m', mem_ok m -> Forall (fun x => 0 <= fst x /\ 0 <= snd x) l ->
    ensure_all l m = (Ok g, m') -> g = word_cost (words_of m') - word_cost (words_of m) /\ mem_ok m' /\ zlen m <= zlen m') as Hall.
  { clear l. induction l as [|[off sz] l IH]; intros m g m' Hm Hl He; simpl in He.
    { injection He as <- <-. split; [lia|done]. }
    apply Forall_cons_iff in Hl as [[Ho Hsz] Hl]. simpl in Ho, Hsz.
    assert (exists g1 m1, ensure off sz m = (Ok g1, m1) /\ mem_ok m1 /\ zlen m <= zlen m1 /\
      g1 = word_cost (words_of m1) - word_cost (words_of m)) as (g1 & m1 & He1 & Hm1 & Hle1 & Hg1).
    { destruct (Z.eq_dec sz 0) as [->|Hne].
      - exists 0, m. split_and!; [done|done|lia|lia].
      - destruct (ensure_spec off sz m Hm Ho ltac:(lia)) as [(_ & m1 & g1 & E & Hm1 & _ & Hle & Hg & _)|[_ E]].
        + exists g1, m1. split_and!; [done..|]. rewrite Hg. destruct (mem_ok_words m Hm), (mem_ok_words m1 Hm1).
          apply expansion_exact; [|by apply Hrange]. pose proof (Hrange m Hm). lia.
        + rewrite E in He. done. }
    rewrite He1 in He. destruct (ensure_all l m1) as [[gs|e|] m2] eqn:E2; [|done..]. injection He as <- <-.
    destruct (IH m1 gs m2 Hm1 Hl E2) as (-> & Hm2 & Hle2). split; [lia|]. split; [done|lia]. }
  intros m g m' Hm Hl He. destruct (Hall l m g m' Hm Hl He) as (-> & Hm' & Hle).
  rewrite !word_cost_exact by by apply Hrange. done.
Qed.

(** The parent keeps at least a 64th of its gas, and nothing is created. *)
Theorem forward_gas_bound r q : in_range 64 r -> 0 <= q ->
  0 <= forward_gas_eip150 r q <= q /\ forward_gas_eip150 r q <= r - r / 64.
Proof.
  intros Hr Hq. unfold forward_gas_eip150. unfold in_range in Hr.
  pose proof (Z.div_pos r 64 ltac:(lia) ltac:(lia)). pose proof (Z.div_le_upper_bound r 64 r ltac:(lia) ltac:(lia)).
  rewrite sat_small by (unfold in_range; lia). lia.
Qed.
