(* ===== verification/EvmHost.v ===== *)
(** * The EVM's host (crates/zbx-evm/src/host.rs)

    [Host] is the trait the interpreter executes against: accounts, storage
    and nested snapshots.  [HostLaws] states what the interpreter relies on:
    the world a host shows, the stack of its open snapshots, which operations
    leave them alone and how a snapshot is closed.  [MockHost], the in-memory
    host, is an instance of both. *)

From Stdlib Require Import ZArith Lia String.
From stdpp Require Import base tactics list gmap sets numbers option strings.
From S2P Require Import Prelude Bytes U256 EvmMachine.

Local Open Scope Z_scope.

Abbreviation Address := (list Z).
Definition addr_ok (a : Address) : Prop := length a = 20%nat /\ Forall Bytes.byte a.
Definition code_ok (c : bytes) : Prop := Forall Bytes.byte c /\ zlen c < 2 ^ 63.

(** ** The trait *)

Class Host (H : Type) : Type := {
  balance : H -> Address -> word;
  nonce : H -> Address -> Z;
  code_of : H -> Address -> bytes;
  code_hash : H -> Address -> word;
  storage_load : H -> Address -> word -> word;
  storage_store : Address -> word -> word -> H -> H;
  set_code : Address -> bytes -> H -> H;
  inc_nonce : Address -> M H EvmError Z;
  host_transfer : Address -> Address -> word -> M H EvmError unit;
  host_is_empty : H -> Address -> bool;
  destruct_account : Address -> Address -> H -> H;
  mark_created_this_tx : Address -> H -> H;
  was_created_this_tx : H -> Address -> bool;
  snapshot : H -> Z * H;
  revert_to : Z -> H -> H;
  commit_snapshot : Z -> H -> H;
  block_hash : H -> Z -> word;
  resolve_pay_id_bytes : H -> bytes -> option Address;
  reverse_pay_id : H -> Address -> option bytes }.

(** What a host promises.  [world] is everything an execution can observe and
    [open_snaps] the snapshots that are neither committed nor reverted, the
    innermost first, each with the world it was taken in. *)
Class HostLaws (H : Type) `{Host H} : Type := {
  World : Type;
  world : H -> World;
  open_snaps : H -> list (Z * World);
  host_ok : H -> Prop;
  (** the world determines the reads *)
  read_world h1 h2 a k : world h1 = world h2 ->
    balance h1 a = balance h2 a /\ nonce h1 a = nonce h2 a /\ code_of h1 a = code_of h2 a /\
    storage_load h1 a k = storage_load h2 a k;
  (** snapshots nest *)
  snapshot_world h : world (snd (snapshot h)) = world h;
  snapshot_open h : open_snaps (snd (snapshot h)) = (fst (snapshot h), world h) :: open_snaps h;
  revert_top h id w rest : open_snaps h = (id, w) :: rest ->
    world (revert_to id h) = w /\ open_snaps (revert_to id h) = rest;
  commit_top h id w rest : open_snaps h = (id, w) :: rest ->
    world (commit_snapshot id h) = world h /\ open_snaps (commit_snapshot id h) = rest;
  (** the other operations neither open nor close a snapshot *)
  store_open h a k v : open_snaps (storage_store a k v h) = open_snaps h;
  set_code_open h a c : open_snaps (set_code a c h) = open_snaps h;
  inc_nonce_open h a : open_snaps (snd (inc_nonce a h)) = open_snaps h;
  transfer_open h a b v : open_snaps (snd (host_transfer a b v h)) = open_snaps h;
  destruct_open h a b : open_snaps (destruct_account a b h) = open_snaps h;
  mark_open h a : open_snaps (mark_created_this_tx a h) = open_snaps h;
  (** a fresh account's nonce can be incremented, and nothing panics *)
  inc_nonce_fresh h a : nonce h a = 0 -> is_ok (fst (inc_nonce a h)) = true;
  transfer_nonce h a b v c : nonce (snd (host_transfer a b v h)) c = nonce h c;
  inc_nonce_no_panic h a : no_panic (fst (inc_nonce a h));
  transfer_no_panic h a b v : no_panic (fst (host_transfer a b v h));
  (** types: the values read are words, u64s and byte strings *)
  host_ok_reads h a k n : host_ok h ->
    word_ok (balance h a) /\ in_range 64 (nonce h a) /\ code_ok (code_of h a) /\ word_ok (code_hash h a) /\
    word_ok (storage_load h a k) /\ word_ok (block_hash h n);
  resolve_ok h n a : host_ok h -> resolve_pay_id_bytes h n = Some a -> addr_ok a;
  reverse_ok h a n : host_ok h -> reverse_pay_id h a = Some n -> code_ok n /\ zlen n <= 32;
  host_ok_store h a k v : host_ok h -> word_ok v -> host_ok (storage_store a k v h);
  host_ok_set_code h a c : host_ok h -> code_ok c -> host_ok (set_code a c h);
  host_ok_inc_nonce h a : host_ok h -> host_ok (snd (inc_nonce a h));
  host_ok_transfer h a b v : host_ok h -> word_ok v -> host_ok (snd (host_transfer a b v h));
  host_ok_destruct h a b : host_ok h -> host_ok (destruct_account a b h);
  host_ok_mark h a : host_ok h -> host_ok (mark_created_this_tx a h);
  host_ok_snapshot h : host_ok h -> host_ok (snd (snapshot h));
  host_ok_revert h id : host_ok h -> host_ok (revert_to id h);
  host_ok_commit h id : host_ok h -> host_ok (commit_snapshot id h) }.

(** ** The in-memory host *)

Record MockAccount : Type := mkAccount {
  m_balance : word; m_nonce : Z; m_code : bytes; m_storage : gmap word word }.
Definition default_account : MockAccount := mkAccount zero_word 0 [] ∅.

Record MockSnapshot : Type := mkSnapshot {
  s_id : Z; s_accounts : gmap Address MockAccount; s_created : gset Address }.

Record MockHost : Type := mkMock {
  accounts : gmap Address MockAccount; created_this_tx : gset Address;
  snapshots : list MockSnapshot; next_snapshot_id : Z; block_hashes : gmap Z word }.

Definition mock_new : MockHost := mkMock ∅ ∅ [] 1 ∅.

Definition set_accounts (m : gmap Address MockAccount) (h : MockHost) : MockHost :=
  mkMock m (created_this_tx h) (snapshots h) (next_snapshot_id h) (block_hashes h).
(** [self.accounts.entry(addr).or_default()] and an update of the entry *)
Definition with_account (a : Address) (f : MockAccount -> MockAccount) (h : MockHost) : MockHost :=
  set_accounts (<[a := f (default default_account (accounts h !! a))]> (accounts h)) h.

(** The local big-endian helpers, on u16 and i16 digits. *)
Definition host_add_step (xy : Z * Z) (st : Z * word) : Z * word :=
  let s := u16 (u16 (fst xy + snd xy) + fst st) in (Z.shiftr s 8, u8 s :: snd st).
Definition host_u256_add (a b : word) : word := snd (foldr host_add_step (0, []) (zip a b)).
Definition host_sub_step (xy : Z * Z) (st : Z * word) : Z * word :=
  let d := fst xy - snd xy - fst st in ((if d <? 0 then 1 else 0), u8 d :: snd st).
Definition host_u256_sub (a b : word) : word := snd (foldr host_sub_step (0, []) (zip a b)).

Definition set_block_hash (n : Z) (hash : word) (h : MockHost) : MockHost :=
  mkMock (accounts h) (created_this_tx h) (snapshots h) (next_snapshot_id h) (<[n := hash]> (block_hashes h)).
Definition install_code (a : Address) (c : bytes) : MockHost -> MockHost :=
  with_account a (fun e => mkAccount (m_balance e) (m_nonce e) c (m_storage e)).
Definition credit (a : Address) (v : word) : MockHost -> MockHost :=
  with_account a (fun e => mkAccount (host_u256_add (m_balance e) v) (m_nonce e) (m_code e) (m_storage e)).
Definition set_nonce (a : Address) (n : Z) : MockHost -> MockHost :=
  with_account a (fun e => mkAccount (m_balance e) n (m_code e) (m_storage e)).

Definition mock_balance (h : MockHost) (a : Address) : word :=
  match accounts h !! a with Some e => m_balance e | None => zero_word end.
Definition mock_nonce (h : MockHost) (a : Address) : Z :=
  match accounts h !! a with Some e => m_nonce e | None => 0 end.
Definition mock_code (h : MockHost) (a : Address) : bytes :=
  match accounts h !! a with Some e => m_code e | None => [] end.
Definition mock_code_hash (keccak256 : bytes -> word) (h : MockHost) (a : Address) : word :=
  match mock_code h a with [] => zero_word | code => keccak256 code end.
Definition mock_storage_load (h : MockHost) (a : Address) (k : word) : word :=
  match accounts h !! a with Some e => default zero_word (m_storage e !! k) | None => zero_word end.
Definition mock_storage_store (a : Address) (k v : word) : MockHost -> MockHost :=
  with_account a (fun e => mkAccount (m_balance e) (m_nonce e) (m_code e) (<[k := v]> (m_storage e))).

Definition set_balance (a : Address) (v : word) : MockHost -> MockHost :=
  with_account a (fun e => mkAccount v (m_nonce e) (m_code e) (m_storage e)).

Definition mock_inc_nonce (a : Address) : M MockHost EvmError Z := fun h =>
  let e := default default_account (accounts h !! a) in
  match checked 64 (m_nonce e + 1) with
  | None => (Err NonceOverflow, with_account a id h)
  | Some n => (Ok n, set_nonce a n h)
  end.

Definition mock_transfer (from to : Address) (value : word) : M MockHost EvmError unit :=
  h ← get_st;
  if bool_decide (value = zero_word) then mret tt
  else
    let from_bal := mock_balance h from in
    _ ← throw_if (u256_lt from_bal value) InsufficientBalance;
    let new_from_bal := host_u256_sub from_bal value in
    let new_to_bal := host_u256_add (mock_balance h to) value in
    _ ← modify (set_balance from new_from_bal);
    modify (set_balance to new_to_bal).

Definition mock_is_empty (h : MockHost) (a : Address) : bool :=
  match accounts h !! a with
  | None => true
  | Some e => (m_nonce e =? 0) && bool_decide (m_balance e = zero_word) && bool_decide (m_code e = [])
  end.

Definition mock_was_created (h : MockHost) (a : Address) : bool := bool_decide (a ∈ created_this_tx h).
Definition mock_mark_created (a : Address) (h : MockHost) : MockHost :=
  mkMock (accounts h) ({[a]} ∪ created_this_tx h) (snapshots h) (next_snapshot_id h) (block_hashes h).

Definition mock_destruct (a b : Address) (h : MockHost) : MockHost :=
  let bal := mock_balance h a in
  let h := if negb (bool_decide (bal = zero_word)) && negb (bool_decide (a = b))
           then snd (mock_transfer a b bal h) else h in
  if mock_was_created h a then
    match accounts h !! a with
    | Some _ => with_account a (fun _ => default_account) h
    | None => h
    end
  else h.

Definition mock_snapshot (h : MockHost) : Z * MockHost :=
  (next_snapshot_id h,
   mkMock (accounts h) (created_this_tx h)
     (snapshots h ++ [mkSnapshot (next_snapshot_id h) (accounts h) (created_this_tx h)])
     (u64 (next_snapshot_id h + 1)) (block_hashes h)).

(** [iter().rposition(|s| s.id == id)]: the last snapshot with the id *)
Fixpoint rposition (id : Z) (l : list MockSnapshot) : option nat :=
  match l with
  | [] => None
  | s :: l => match rposition id l with
              | Some i => Some (S i)
              | None => if s_id s =? id then Some 0%nat else None
              end
  end.

Definition mock_revert_to (id : Z) (h : MockHost) : MockHost :=
  match rposition id (snapshots h) with
  | Some pos =>
    match snapshots h !! pos with
    | Some snap =>
      mkMock (s_accounts snap) (s_created snap) (take pos (delete pos (snapshots h)))
        (next_snapshot_id h) (block_hashes h)
    | None => h
    end
  | None => h
  end.

Definition mock_commit (id : Z) (h : MockHost) : MockHost :=
  match rposition id (snapshots h) with
  | Some pos =>
    mkMock (accounts h) (created_this_tx h) (delete pos (snapshots h)) (next_snapshot_id h) (block_hashes h)
  | None => h
  end.

Definition mock_block_hash (h : MockHost) (n : Z) : word := default zero_word (block_hashes h !! n).
