(* ===== verification/NativeReads.v ===== *)
(** * Primitives of the virtual machines and their precompiles

    The hash functions, signature schemes, curves and big-number arithmetic of
    third-party crates are the fields of [Primitives]; the elliptic-curve VRF
    of zbx-crypto is a field too.

    Below: the bodies of the price feed, vault and KZG precompiles that both
    machines share (oracle_state.rs, vault_state.rs, kzg.rs of zbx-crypto). *)

From Stdlib Require Import ZArith Lia.
From stdpp Require Import base tactics list numbers option.
From S2P Require Import Prelude Bytes U256.

Local Open Scope Z_scope.

Abbreviation Address := (list Z).

(** sha3, sha2, ripemd, secp256k1, ed25519-dalek, substrate-bn, bls12_381,
    num-bigint, and the VRF verifier. *)
Class Primitives : Type := {
  keccak256 : bytes -> word;
  sha256 : bytes -> bytes;
  ripemd160 : bytes -> bytes;
  (** hash, v, r, s *)
  recover_signer : word -> Z -> word -> word -> option Address;
  (** key, message, signature *)
  ed25519_check : bytes -> bytes -> bytes -> bool;
  (** key, alpha, proof *)
  vrf_check : bytes -> bytes -> bytes -> option bytes;
  modpow : Z -> Z -> Z -> Z;
  (** alt_bn128: field elements, scalars, points *)
  Fq : Type; Fr : Type; G1 : Type; G2 : Type;
  fq_from_slice : bytes -> option Fq; fq_is_zero : Fq -> bool;
  fr_from_slice : bytes -> option Fr;
  g1_zero : G1; g1_new : Fq -> Fq -> option G1; g1_add : G1 -> G1 -> G1; g1_mul : G1 -> Fr -> G1;
  (** big-endian coordinates, [None] at infinity *)
  g1_affine : G1 -> option (bytes * bytes);
  g2_zero : G2; g2_new : Fq * Fq -> Fq * Fq -> option G2;
  pairing_is_one : list (G1 * G2) -> bool;
  (** BLS12-381: scalars (little-endian, canonical), points, generators, and
      the equality of two pairings *)
  BlsScalar : Type; BlsG1 : Type; BlsG2 : Type;
  bls_scalar_from_bytes : bytes -> option BlsScalar;
  bls_g1_from_compressed : bytes -> option BlsG1;
  bls_g1_gen : BlsG1; bls_g1_mul : BlsG1 -> BlsScalar -> BlsG1; bls_g1_sub : BlsG1 -> BlsG1 -> BlsG1;
  bls_g2_gen : BlsG2; bls_g2_mul : BlsG2 -> BlsScalar -> BlsG2; bls_g2_sub : BlsG2 -> BlsG2 -> BlsG2;
  pairings_equal : BlsG1 * BlsG2 -> BlsG1 * BlsG2 -> bool;
  (** the process-wide trusted setup, if one was installed *)
  global_kzg_settings : option BlsG2 }.

(** * Precompile bodies shared by the two virtual machines
    (crates/zbx-crypto/src/oracle_state.rs, vault_state.rs, kzg.rs)

    The price feed read (0x0C), the ZUSD vault read (0x0F) and the KZG point
    evaluation (0x0B).  A state reader is the function that reads a storage
    slot.  The curve is BLS12-381 of [Primitives]. *)

Abbreviation Reader := (Address -> word -> word).

(** The loop from the last byte on that stops at the first byte without carry. *)
Fixpoint add_one_le (l : bytes) : bytes :=
  match l with
  | [] => []
  | b :: l => if b =? 255 then 0 :: add_one_le l else b + 1 :: l
  end.
Definition add_one_be (b : word) : word := rev (add_one_le (rev b)).

(** ** 0x0C: the price registry *)

Module Oracle.
Inductive OraclePrecompileError : Type := BadInputLength (got : Z) | OutOfGas.

Definition ORACLE_REGISTRY_ADDRESS : Address := replicate 19 0 ++ [0xCC].
Definition FEED_MAP_SLOT : word := zero_word.
Definition BASE_GAS : Z := 1000.
Definition PER_SLOT_GAS : Z := 100.
Definition TOTAL_GAS : Z := BASE_GAS + PER_SLOT_GAS * 2.

Section oracle.
Context `{Primitives}.

Definition keccak256_pair (a b : bytes) : word := keccak256 (a ++ b).

Definition slot_pair (symbol_hash : word) : word * word :=
  let base := keccak256_pair symbol_hash FEED_MAP_SLOT in (base, add_one_be base).

Definition do_price_oracle (input : bytes) (gas_limit : Z) (read_slot : Reader)
    : res OraclePrecompileError (bytes * Z) :=
  if negb (zlen input =? 32) then Err (BadInputLength (zlen input))
  else if gas_limit <? TOTAL_GAS then Err OutOfGas
  else
    let '(price_slot, ts_slot) := slot_pair input in
    Ok (read_slot ORACLE_REGISTRY_ADDRESS price_slot ++ read_slot ORACLE_REGISTRY_ADDRESS ts_slot, TOTAL_GAS).

(** The two writes, in order, through [writer]. *)
Definition write_feed {S} (symbol_hash price_e8_be updated_at_be : word) (writer : Address -> word -> word -> S -> S) (s : S) : S :=
  let '(price_slot, ts_slot) := slot_pair symbol_hash in
  writer ORACLE_REGISTRY_ADDRESS ts_slot updated_at_be (writer ORACLE_REGISTRY_ADDRESS price_slot price_e8_be s).
End oracle.

Definition encode_price_e8 (price_e8 : Z) : word := replicate 16 0 ++ to_be 16 price_e8.
Definition encode_timestamp (ts : Z) : word := replicate 24 0 ++ to_be 8 ts.
End Oracle.

(** ** 0x0F: the vault registry *)

Module Vault.
Import Oracle.
Inductive VaultPrecompileError : Type := BadInputLength (got : Z) | OutOfGas.

Definition ZUSD_VAULT_ADDRESS : Address := replicate 18 0 ++ [0x54; 0x55].
Definition CDPS_MAP_SLOT : word := zero_word.
(** "ZBX/USD" *)
Definition ZBX_USD_FEED_SYMBOL : bytes := [90; 66; 88; 47; 85; 83; 68].
Definition BASE_GAS : Z := 1500.
Definition PER_SLOT_GAS : Z := 200.
Definition SLOTS_READ : Z := 4.
Definition TOTAL_GAS : Z := BASE_GAS + PER_SLOT_GAS * SLOTS_READ.
Definition BPS_DENOM : Z := 10000.
Definition MAX_ORACLE_STALENESS : Z := 3600.

Definition u256_lower_u64 (be : word) : Z := be_val (drop 24 be).

(** [checked_mul], a division, and [U256::MAX] on overflow *)
Definition mul_div_or_max (a b d : Z) : Z := match checked 256 (a * b) with Some v => v / d | None => umax 256 end.

(** [c_ratio_bps] and [liq_price_e18]. *)
Definition derived (stale : bool) (collateral debt price_e8 : Z) : Z * Z :=
  if negb stale && negb (price_e8 =? 0) && negb (debt =? 0) && negb (collateral =? 0) then
    let price_e18 := sat 256 (price_e8 * 10 ^ 10) in
    let collateral_value_e18 := mul_div_or_max collateral price_e18 (10 ^ 18) in
    (mul_div_or_max collateral_value_e18 BPS_DENOM debt, mul_div_or_max debt (10 ^ 18) collateral)
  else (0, 0).

Section vault.
Context `{Primitives}.

Definition cdp_slots (owner : Address) : word * word :=
  let base := keccak256_pair (replicate 12 0 ++ owner) CDPS_MAP_SLOT in (base, add_one_be base).

Definition do_zusd_vault_read (input : bytes) (gas_limit : Z) (read_slot : Reader) (now : Z)
    : res VaultPrecompileError (bytes * Z) :=
  if negb (zlen input =? 32) then Err (BadInputLength (zlen input))
  else if gas_limit <? TOTAL_GAS then Err OutOfGas
  else
    let owner := drop 12 input in
    let '(collateral_slot, debt_slot) := cdp_slots owner in
    let collateral_be := read_slot ZUSD_VAULT_ADDRESS collateral_slot in
    let debt_be := read_slot ZUSD_VAULT_ADDRESS debt_slot in
    if bool_decide (collateral_be = zero_word) && bool_decide (debt_be = zero_word) then Ok (replicate 128 0, TOTAL_GAS)
    else
      let '(price_slot, ts_slot) := slot_pair (keccak256 ZBX_USD_FEED_SYMBOL) in
      let price_e8_be := read_slot ORACLE_REGISTRY_ADDRESS price_slot in
      let ts_be := read_slot ORACLE_REGISTRY_ADDRESS ts_slot in
      let oracle_ts := u256_lower_u64 ts_be in
      let stale := (0 <? now) && (MAX_ORACLE_STALENESS <? sat 64 (now - oracle_ts)) in
      let '(c_ratio_bps, liq_price_e18) := derived stale (be_val collateral_be) (be_val debt_be) (be_val price_e8_be) in
      Ok (collateral_be ++ debt_be ++ to_be 32 c_ratio_bps ++ to_be 32 liq_price_e18, TOTAL_GAS).

Definition write_cdp {S} (owner : Address) (collateral_be debt_be : word) (writer : Address -> word -> word -> S -> S) (s : S) : S :=
  let '(c_slot, d_slot) := cdp_slots owner in
  writer ZUSD_VAULT_ADDRESS d_slot debt_be (writer ZUSD_VAULT_ADDRESS c_slot collateral_be s).
End vault.

Definition encode_u128_be (value : Z) : word := replicate 16 0 ++ to_be 16 value.
(** [Ok] or [NotDeployed] *)
Definition assert_vault_deployed (code_at : Address -> bytes) : bool :=
  negb (bool_decide (code_at ZUSD_VAULT_ADDRESS = [])).
End Vault.

(** ** 0x0B: KZG point evaluation *)

Module Kzg.
Inductive KzgError : Type :=
| InputLength (got : Z) | VersionedHash | ScalarNotInField | BadCommitment | BadProof | PairingFailed
| OutOfGas (need have : Z).

Definition BLOB_COMMITMENT_VERSION_KZG : Z := 1.
Definition FIELD_ELEMENTS_PER_BLOB : Z := 4096.
Definition BLS_MODULUS_BE : word :=
  [0x73; 0xed; 0xa7; 0x53; 0x29; 0x9d; 0x7d; 0x48; 0x33; 0x39; 0xd8; 0x08; 0x09; 0xa1; 0xd8; 0x05;
   0x53; 0xbd; 0xa4; 0x02; 0xff; 0xfe; 0x5b; 0xfe; 0xff; 0xff; 0xff; 0xff; 0x00; 0x00; 0x00; 0x01].
Definition POINT_EVALUATION_PRECOMPILE_GAS : Z := 50000.
Definition point_evaluation_success_return : bytes :=
  replicate 24 0 ++ to_be 8 FIELD_ELEMENTS_PER_BLOB ++ BLS_MODULUS_BE.

Section kzg.
Context `{Primitives}.

Definition kzg_to_versioned_hash (commitment : bytes) : word := <[0%nat := BLOB_COMMITMENT_VERSION_KZG]> (sha256 commitment).
Definition scalar_from_be32 (b : word) : option BlsScalar := bls_scalar_from_bytes (rev b).

Definition verify_kzg_proof (commitment_48 z_be32 y_be32 proof_48 : bytes) (s_g2 : BlsG2) : res KzgError unit :=
  commitment ← ok_or (bls_g1_from_compressed commitment_48) BadCommitment;
  proof ← ok_or (bls_g1_from_compressed proof_48) BadProof;
  z ← ok_or (scalar_from_be32 z_be32) ScalarNotInField;
  y ← ok_or (scalar_from_be32 y_be32) ScalarNotInField;
  let lhs_g1 := bls_g1_sub commitment (bls_g1_mul bls_g1_gen y) in
  let rhs_g2 := bls_g2_sub s_g2 (bls_g2_mul bls_g2_gen z) in
  if pairings_equal (lhs_g1, bls_g2_gen) (proof, rhs_g2) then Ok tt else Err PairingFailed.

Definition do_kzg_point_eval (input : bytes) (gas : Z) (s_g2 : BlsG2) : res KzgError (bytes * Z) :=
  if negb (zlen input =? 192) then Err (InputLength (zlen input))
  else
    let cost := POINT_EVALUATION_PRECOMPILE_GAS in
    if gas <? cost then Err (OutOfGas cost gas)
    else
      commitment ← slice input 96 144;
      proof ← slice input 144 192;
      z ← slice input 32 64;
      y ← slice input 64 96;
      vh ← slice input 0 32;
      if negb (bool_decide (vh = kzg_to_versioned_hash commitment)) then Err VersionedHash
      else
        _ ← verify_kzg_proof commitment z y proof s_g2;
        Ok (point_evaluation_success_return, cost).
End kzg.
End Kzg.

(** ** A feed that was written is read back *)

Lemma add_one_le_ne l : (0 < length l)%nat -> Forall byte l -> add_one_le l <> l.
Proof.
  destruct l as [|b l]; simpl; [lia|]. intros _ Hb. destruct (Z.eqb_spec b 255) as [->|]; [done|]. intros [= He]. lia.
Qed.

(** The second slot is never the first. *)
Lemma add_one_be_ne w : word_ok w -> add_one_be w <> w.
Proof.
  intros [Hl Hb] He. apply (add_one_le_ne (rev w)); [rewrite length_rev; lia|by apply Forall_rev|].
  unfold add_one_be in He. apply (f_equal (@rev Z)) in He. by rewrite rev_involutive in He.
Qed.

Lemma length_add_one_le l : length (add_one_le l) = length l.
Proof. induction l as [|b l IH]; [done|]. simpl. destruct (b =? 255); simpl; congruence. Qed.
Lemma add_one_le_bytes l : Forall byte l -> Forall byte (add_one_le l).
Proof.
  induction 1 as [|b l Hb Hl IH]; [constructor|]. simpl. unfold byte in *.
  destruct (Z.eqb_spec b 255); constructor; done || lia.
Qed.
Lemma add_one_be_ok w : word_ok w -> word_ok (add_one_be w).
Proof.
  intros [Hl Hb]. unfold add_one_be. split; [by rewrite length_rev, length_add_one_le, length_rev|].
  by apply Forall_rev, add_one_le_bytes, Forall_rev.
Qed.

Section feeds.
Context `{Primitives} (keccak_word : forall b, word_ok (keccak256 b)).
(** A store of slots: reading after a write. *)
Context {S : Type} (read : S -> Reader) (writer : Address -> word -> word -> S -> S).
Context (read_same : forall s a k v, read (writer a k v s) a k = v).
Context (read_other : forall s a k v k', k' <> k -> read (writer a k v s) a k' = read s a k').

(** What [write_feed] stores for a symbol, the precompile 0x0C returns, whatever
    else the store holds. *)
Theorem oracle_roundtrip symbol price ts gas s : zlen symbol = 32 -> Oracle.TOTAL_GAS <= gas ->
  Oracle.do_price_oracle symbol gas (read (Oracle.write_feed symbol price ts writer s)) = Ok (price ++ ts, Oracle.TOTAL_GAS).
Proof.
  intros Hl Hg. unfold Oracle.do_price_oracle, Oracle.write_feed, Oracle.slot_pair. rewrite Hl.
  rewrite (proj2 (Z.ltb_ge gas _)) by done. cbn [negb Z.eqb]. cbv zeta. set (base := Oracle.keccak256_pair _ _).
  rewrite read_same, read_other, read_same; [done|]. intros He. by apply (add_one_be_ne base); [apply keccak_word|].
Qed.

(** What [write_cdp] stores for an owner, the precompile 0x0F returns first. *)
Theorem vault_roundtrip owner collateral debt gas now s : length owner = 20%nat -> Vault.TOTAL_GAS <= gas ->
  word_ok collateral -> word_ok debt ->
  exists rest, Vault.do_zusd_vault_read (replicate 12 0 ++ owner) gas (read (Vault.write_cdp owner collateral debt writer s)) now =
    Ok (collateral ++ debt ++ rest, Vault.TOTAL_GAS) /\ zlen rest = 64.
Proof.
  intros Hl Hg Hc Hd. unfold Vault.do_zusd_vault_read, Vault.write_cdp.
  assert (zlen (replicate 12 0 ++ owner) = 32) as -> by (unfold zlen; rewrite length_app, length_replicate; lia).
  rewrite (proj2 (Z.ltb_ge gas _)) by done. cbn [negb Z.eqb]. cbv zeta.
  rewrite drop_app_length' by (by rewrite length_replicate).
  destruct (Vault.cdp_slots owner) as [cs ds] eqn:Hcs. rewrite read_same, read_other, read_same.
  2:{ unfold Vault.cdp_slots in Hcs. injection Hcs as <- <-. intros He. by eapply add_one_be_ne; [apply keccak_word|]. }
  destruct (bool_decide (collateral = zero_word)) eqn:E1, (bool_decide (debt = zero_word)) eqn:E2; cbn [andb].
  1:{ bool_to_prop. subst. by exists (replicate 64 0). }
  all: destruct (Oracle.slot_pair _) as [ps tss]; destruct (Vault.derived _ _ _ _) as [r p]; eexists; (split; [done|]);
    by rewrite zlen_app, !zlen_to_be.
Qed.
End feeds.

(** The ratio is the exact quotient when nothing overflows, and the two derived
    fields are zero when the price is stale or a field is missing. *)
Lemma vault_derived_exact collateral debt price : 0 < collateral -> 0 < debt -> 0 < price ->
  collateral * (price * 10 ^ 10) < 2 ^ 256 -> collateral * (price * 10 ^ 10) * Vault.BPS_DENOM < 2 ^ 256 ->
  debt * 10 ^ 18 < 2 ^ 256 ->
  Vault.derived false collateral debt price =
    (collateral * (price * 10 ^ 10) / 10 ^ 18 * 10000 / debt, debt * 10 ^ 18 / collateral).
Proof.
  intros Hc Hd Hp H1 H2 H3. unfold Vault.derived, Vault.mul_div_or_max.
  rewrite !(proj2 (Z.eqb_neq _ 0)) by lia. cbn [negb andb]. cbv zeta.
  assert (price * 10 ^ 10 <= collateral * (price * 10 ^ 10)) by nia.
  rewrite sat_small by (unfold in_range; lia). rewrite (checked_in 256 (collateral * _)) by (unfold in_range; lia).
  rewrite (checked_in 256 (debt * _)) by (unfold in_range; lia).
  assert (0 <= collateral * (price * 10 ^ 10) / 10 ^ 18 <= collateral * (price * 10 ^ 10)).
  { split; [apply Z.div_pos; lia|apply Z.div_le_upper_bound; lia]. }
  unfold Vault.BPS_DENOM in *. rewrite checked_in by (unfold in_range; lia). done.
Qed.

(** ** None of the bodies panics, and what they return is short *)

Definition native_ok {E} (gas : Z) (r : res E (bytes * Z)) : Prop :=
  match r with
  | Ok (out, used) => Forall byte out /\ zlen out <= 128 /\ 0 <= used <= gas
  | Err _ => True
  | Panic => False
  end.

Section total.
Context `{Primitives}.

Lemma oracle_native input gas read : (forall a k, word_ok (read a k)) -> native_ok gas (Oracle.do_price_oracle input gas read).
Proof.
  intros Hr. unfold Oracle.do_price_oracle. destruct (negb _); [done|]. destruct (Z.ltb_spec gas Oracle.TOTAL_GAS) as [|Hg]; [done|].
  destruct (Oracle.slot_pair _) as [ps ts]. split_and!.
  - apply Forall_app_2; apply Hr.
  - rewrite zlen_app, !(word_zlen _ (Hr _ _)). done.
  - done.
  - done.
Qed.

Lemma vault_native input gas read now : (forall a k, word_ok (read a k)) -> native_ok gas (Vault.do_zusd_vault_read input gas read now).
Proof.
  intros Hr. unfold Vault.do_zusd_vault_read. destruct (negb _); [done|]. destruct (Z.ltb_spec gas Vault.TOTAL_GAS) as [|Hg]; [done|].
  cbv zeta. destruct (Vault.cdp_slots _) as [cs ds]. destruct (_ && _).
  - split_and!; [apply bytes_replicate; unfold byte; lia|done|done|done].
  - destruct (Oracle.slot_pair _) as [ps ts]. destruct (Vault.derived _ _ _ _) as [a b]. split_and!; [| |done|done].
    + rewrite !Forall_app. split_and!; try apply Hr; apply to_be_bytes.
    + by rewrite !zlen_app, !(word_zlen _ (Hr _ _)), !zlen_to_be.
Qed.

Lemma kzg_native input gas s : native_ok gas (Kzg.do_kzg_point_eval input gas s).
Proof.
  unfold Kzg.do_kzg_point_eval. destruct (Z.eqb_spec (zlen input) 192) as [Hl|]; [|done]. cbn [negb]. cbv zeta.
  destruct (Z.ltb_spec gas Kzg.POINT_EVALUATION_PRECOMPILE_GAS) as [|Hg]; [done|]. rewrite !slice_Ok by lia.
  cbn [mbind res_bind]. case_match; [done|]. unfold Kzg.verify_kzg_proof.
  unfold ok_or. repeat (case_match; try exact I; cbn [mbind res_bind]); try exact I.
  cbn [mbind res_bind native_ok]. split_and!; [|done|done|done].
  unfold Kzg.point_evaluation_success_return. rewrite !Forall_app. split_and!; [|apply to_be_bytes|].
  - apply bytes_replicate. unfold byte. lia.
  - unfold Kzg.BLS_MODULUS_BE. repeat apply Forall_cons_2; try apply Forall_nil_2; unfold byte; lia.
Qed.
End total.
