(* ===== verification/EvmPrecompiles.v ===== *)
(** * The precompiled contracts (crates/zbx-evm/src/precompiles.rs, crates/zbx-types/src/payid.rs)

    Addresses 0x01 to 0x0F.  The bodies written in the crate (identity,
    modular exponentiation and its gas schedule, BLAKE2 compression, the PayID
    registry lookup, every guard and cost) are translated; the hash functions,
    signature schemes, curve and big-number arithmetic of third-party crates
    are the fields of [Primitives], and the bodies shared with the second
    virtual machine are in NativeReads. *)

From Stdlib Require Import ZArith Lia String.
From stdpp Require Import base tactics list numbers option strings.
From S2P Require Import Prelude Bytes U256 EvmMachine EvmHost NativeReads.

Local Open Scope Z_scope.

Abbreviation P := (res EvmError (bytes * Z)).
Definition zeros32 : bytes := replicate 32 0.
(** [if gas < cost { return Err(OutOfGas) }] *)
Definition need_gas (gas cost : Z) : res EvmError unit := guard_err (gas <? cost) OutOfGas.
Definition words32 (input : bytes) : Z := u64 (zlen input + 31) / 32.

(** ** Utilities *)

Definition pad_right (input : bytes) (len : Z) : bytes :=
  if len <=? zlen input then take (Z.to_nat len) input
  else input ++ replicate (Z.to_nat len - length input) 0.

Definition read_u256_as_usize (b : bytes) : res unit Z :=
  if zlen b <? 32 then Err tt
  else if existsb (fun x => negb (x =? 0)) (take 28 b) then Err tt
  else Ok (Z.lor (Z.lor (Z.lor (Z.shiftl (b !!! 28%nat) 24) (Z.shiftl (b !!! 29%nat) 16)) (Z.shiftl (b !!! 30%nat) 8))
             (b !!! 31%nat)).

(** [BigUint::bits], [BigUint::to_bytes_be] (zero is one byte) *)
Definition big_bits (z : Z) : Z := if z =? 0 then 0 else Z.log2 z + 1.
Definition big_bytes (z : Z) : bytes := if z =? 0 then [0] else to_be (Z.to_nat ((big_bits z + 7) / 8)) z.

Section precompiles.
Context `{Primitives}.

(** ** Hashes, signatures *)

Definition ecrecover (input : bytes) (gas : Z) : P :=
  let cost := 3000 in
  _ ← need_gas gas cost;
  if zlen input <? 128 then Ok (zeros32, cost)
  else
    hash ← slice input 0 32;
    v ← index input 63;
    r ← slice input 64 96;
    s ← slice input 96 128;
    match recover_signer hash (if 1 <? v then u8 (v - 27) else v) r s with
    | Some addr => Ok (replicate 12 0 ++ addr, cost)
    | None => Ok (zeros32, cost)
    end.

Definition sha256_hash (input : bytes) (gas : Z) : P :=
  let cost := u64 (60 + u64 (12 * words32 input)) in
  _ ← need_gas gas cost; Ok (sha256 input, cost).

Definition ripemd160_hash (input : bytes) (gas : Z) : P :=
  let cost := u64 (600 + u64 (120 * words32 input)) in
  _ ← need_gas gas cost; Ok (replicate 12 0 ++ ripemd160 input, cost).

Definition identity (input : bytes) (gas : Z) : P :=
  let cost := u64 (15 + u64 (3 * words32 input)) in
  _ ← need_gas gas cost; Ok (input, cost).

Definition ed25519_verify (input : bytes) (gas : Z) : P :=
  let cost := 3000 in
  _ ← need_gas gas cost;
  if zlen input <? 128 then Ok (zeros32, cost)
  else
    pk ← slice input 0 32; msg ← slice input 32 64; sig ← slice input 64 128;
    Ok (if ed25519_check pk msg sig then replicate 31 0 ++ [1] else zeros32, cost).

Definition PUBKEY_LEN : Z := 32.
Definition PROOF_LEN : Z := 80.

Definition vrf_verify (input : bytes) (gas : Z) : P :=
  let cost := 5000 in
  _ ← need_gas gas cost;
  if zlen input <? PUBKEY_LEN + PROOF_LEN then Ok (zeros32, cost)
  else
    pk ← slice input 0 PUBKEY_LEN;
    let pi_start := PUBKEY_LEN + (zlen input - PUBKEY_LEN - PROOF_LEN) in
    if (pi_start <? PUBKEY_LEN) || (zlen input <? PUBKEY_LEN + PROOF_LEN) then Ok (zeros32, cost)
    else
      alpha ← slice input PUBKEY_LEN pi_start;
      pi ← slice input pi_start (pi_start + PROOF_LEN);
      match vrf_check pk alpha pi with
      | Some beta => Ok (beta, cost)
      | None => Ok (zeros32, cost)
      end.

(** ** Modular exponentiation *)

Definition modexp_gas_eip2565 (base_len exp_len mod_len exp : Z) : Z :=
  let max_len := Z.max base_len mod_len in
  let words := u64 (max_len + 7) / 8 in
  let multiplication_complexity := u64 (words * words) in
  let iteration_count :=
    if exp_len <=? 32 then
      let exp_bits := big_bits exp in if exp_bits =? 0 then 0 else sat 64 (exp_bits - 1)
    else
      let extra_bits := sat 64 (u64 (8 * (exp_len - 32)) - 1) in
      let eb := big_bytes exp in
      let top_word_bits := if 32 <? zlen eb then big_bits (be_val (take 32 eb)) else big_bits exp in
      sat 64 (extra_bits + sat 64 (top_word_bits - 1)) in
  Z.max (u64 (multiplication_complexity * Z.max iteration_count 1) / 3) 200.

Definition modexp (input : bytes) (gas : Z) : P :=
  let padded := pad_right input (Z.max 96 (zlen input)) in
  base_len ← map_err (fun _ => Precompile "modexp: base_len overflow") (w ← slice padded 0 32; read_u256_as_usize w);
  exp_len ← map_err (fun _ => Precompile "modexp: exp_len overflow") (w ← slice padded 32 64; read_u256_as_usize w);
  mod_len ← map_err (fun _ => Precompile "modexp: mod_len overflow") (w ← slice padded 64 96; read_u256_as_usize w);
  if mod_len =? 0 then (_ ← need_gas gas 200; Ok ([], 200))
  else
    total ← ok_or (l ← checked 64 (96 + base_len); l ← checked 64 (l + exp_len); checked 64 (l + mod_len))
              (Precompile "modexp: length overflow");
    let padded := pad_right padded total in
    let base_start := 96 in
    let exp_start := base_start + base_len in
    let mod_start := exp_start + exp_len in
    base ← slice padded base_start (base_start + base_len);
    exp ← slice padded exp_start (exp_start + exp_len);
    modulus ← slice padded mod_start (mod_start + mod_len);
    let exp := be_val exp in
    let modulus := be_val modulus in
    let cost := modexp_gas_eip2565 base_len exp_len mod_len exp in
    _ ← need_gas gas cost;
    if modulus =? 0 then Ok (replicate (Z.to_nat mod_len) 0, cost)
    else
      let result_bytes := big_bytes (modpow (be_val base) exp modulus) in
      let result_bytes := replicate (Z.to_nat mod_len - length result_bytes) 0 ++ result_bytes in
      Ok (take (Z.to_nat mod_len) result_bytes, cost).

(** ** alt_bn128 *)

Definition parse_fq (b : bytes) : res EvmError Fq :=
  a ← slice b 0 32; ok_or (fq_from_slice a) (Precompile "bn128: invalid Fq field element").

Definition parse_g1 (b : bytes) : res EvmError G1 :=
  x ← (w ← slice b 0 32; parse_fq w);
  y ← (w ← slice b 32 64; parse_fq w);
  if fq_is_zero x && fq_is_zero y then Ok g1_zero
  else ok_or (g1_new x y) (Precompile "bn128: point not on G1 curve").

Definition encode_g1 (p : G1) : res EvmError bytes :=
  match g1_affine p with
  | Some (x, y) => Ok (x ++ y)
  | None => Ok (replicate 64 0)
  end.

Definition bn128_add (input : bytes) (gas : Z) : P :=
  let cost := 150 in
  _ ← need_gas gas cost;
  let padded := pad_right input 128 in
  p1 ← (w ← slice padded 0 64; parse_g1 w);
  p2 ← (w ← slice padded 64 128; parse_g1 w);
  out ← encode_g1 (g1_add p1 p2); Ok (out, cost).

Definition bn128_mul (input : bytes) (gas : Z) : P :=
  let cost := 6000 in
  _ ← need_gas gas cost;
  let padded := pad_right input 96 in
  p ← (w ← slice padded 0 64; parse_g1 w);
  scalar_bytes ← slice padded 64 96;
  scalar ← ok_or (fr_from_slice scalar_bytes) (Precompile "bn128_mul: invalid scalar");
  out ← encode_g1 (g1_mul p scalar); Ok (out, cost).

Definition parse_pair (chunk : bytes) : res EvmError (G1 * G2) :=
  p1 ← (w ← slice chunk 0 64; parse_g1 w);
  x_im ← (w ← slice chunk 64 96; parse_fq w);
  x_re ← (w ← slice chunk 96 128; parse_fq w);
  y_im ← (w ← slice chunk 128 160; parse_fq w);
  y_re ← (w ← slice chunk 160 192; parse_fq w);
  p2 ← (if fq_is_zero x_im && fq_is_zero x_re && fq_is_zero y_im && fq_is_zero y_re then Ok g2_zero
        else ok_or (g2_new (x_im, x_re) (y_im, y_re)) (Precompile "bn128_pairing: invalid G2 point"));
  Ok (p1, p2).

Fixpoint parse_pairs (n : nat) (input : bytes) (i : Z) : res EvmError (list (G1 * G2)) :=
  match n with
  | O => Ok []
  | S n =>
    p ← (chunk ← slice input (i * 192) ((i + 1) * 192); parse_pair chunk);
    ps ← parse_pairs n input (i + 1);
    Ok (p :: ps)
  end.

Definition bn128_pairing (input : bytes) (gas : Z) : P :=
  if negb (zlen input mod 192 =? 0) then Err (Precompile "bn128_pairing: input length not multiple of 192")
  else
    let k := zlen input / 192 in
    let cost := u64 (45000 + u64 (34000 * k)) in
    _ ← need_gas gas cost;
    pairs ← parse_pairs (Z.to_nat k) input 0;
    Ok (if pairing_is_one pairs then replicate 31 0 ++ [1] else zeros32, cost).
End precompiles.

(** ** BLAKE2 compression *)

Definition SIGMA : list (list nat) := [
  [ 0;  1;  2;  3;  4;  5;  6;  7;  8;  9; 10; 11; 12; 13; 14; 15];
  [14; 10;  4;  8;  9; 15; 13;  6;  1; 12;  0;  2; 11;  7;  5;  3];
  [11;  8; 12;  0;  5;  2; 15; 13; 10; 14;  3;  6;  7;  1;  9;  4];
  [ 7;  9;  3;  1; 13; 12; 11; 14;  2;  6;  5; 10;  4;  0; 15;  8];
  [ 9;  0;  5;  7;  2;  4; 10; 15; 14;  1; 11; 12;  6;  8;  3; 13];
  [ 2; 12;  6; 10;  0; 11;  8;  3;  4; 13;  7;  5; 15; 14;  1;  9];
  [12;  5;  1; 15; 14; 13;  4; 10;  0;  7;  6;  3;  9;  2;  8; 11];
  [13; 11;  7; 14; 12;  1;  3;  9;  5;  0; 15;  4;  8;  6;  2; 10];
  [ 6; 15; 14;  9; 11;  3;  0;  8; 12;  2; 13;  7;  1;  4; 10;  5];
  [10;  2;  8;  4;  7;  6;  1;  5; 15; 11;  9; 14;  3; 12; 13;  0]]%nat.

Definition IV : list Z := [
  0x6A09E667F3BCC908; 0xBB67AE8584CAA73B; 0x3C6EF372FE94F82B; 0xA54FF53A5F1D36F1;
  0x510E527FADE682D1; 0x9B05688C2B3E6C1F; 0x1F83D9ABFB41BD6B; 0x5BE0CD19137E2179].

Definition rotate_right (x n : Z) : Z := Z.lor (Z.shiftr x n) (u64 (Z.shiftl x (64 - n))).

(** [g(&mut v, a, b, c, d, x, y)] *)
Definition g_mix (a b c d : nat) (x y : Z) (v : list Z) : list Z :=
  let v := <[a := u64 (u64 (v !!! a + v !!! b) + x)]> v in
  let v := <[d := rotate_right (Z.lxor (v !!! d) (v !!! a)) 32]> v in
  let v := <[c := u64 (v !!! c + v !!! d)]> v in
  let v := <[b := rotate_right (Z.lxor (v !!! b) (v !!! c)) 24]> v in
  let v := <[a := u64 (u64 (v !!! a + v !!! b) + y)]> v in
  let v := <[d := rotate_right (Z.lxor (v !!! d) (v !!! a)) 16]> v in
  let v := <[c := u64 (v !!! c + v !!! d)]> v in
  <[b := rotate_right (Z.lxor (v !!! b) (v !!! c)) 63]> v.

Definition blake_round (m : list Z) (r : Z) (v : list Z) : list Z :=
  let s := SIGMA !!! Z.to_nat (r mod 10) in
  let x i := m !!! (s !!! i) in
  let v := g_mix 0 4 8 12 (x 0%nat) (x 1%nat) v in
  let v := g_mix 1 5 9 13 (x 2%nat) (x 3%nat) v in
  let v := g_mix 2 6 10 14 (x 4%nat) (x 5%nat) v in
  let v := g_mix 3 7 11 15 (x 6%nat) (x 7%nat) v in
  let v := g_mix 0 5 10 15 (x 8%nat) (x 9%nat) v in
  let v := g_mix 1 6 11 12 (x 10%nat) (x 11%nat) v in
  let v := g_mix 2 7 8 13 (x 12%nat) (x 13%nat) v in
  g_mix 3 4 9 14 (x 14%nat) (x 15%nat) v.

Fixpoint blake_rounds (n : nat) (m : list Z) (r : Z) (v : list Z) : list Z :=
  match n with
  | O => v
  | S n => blake_rounds n m (r + 1) (blake_round m r v)
  end.

Definition blake2b_compress (rounds : Z) (h m : list Z) (t0 t1 : Z) (f : bool) : list Z :=
  let v := h ++ IV in
  let v := <[12%nat := Z.lxor (v !!! 12%nat) t0]> v in
  let v := <[13%nat := Z.lxor (v !!! 13%nat) t1]> v in
  let v := if f then <[14%nat := Z.lxor (v !!! 14%nat) (2 ^ 64 - 1)]> v else v in
  let v := blake_rounds (Z.to_nat rounds) m 0 v in
  zip_with Z.lxor h (zip_with Z.lxor (take 8 v) (drop 8 v)).

(** [u64::from_le_bytes] of each 8-byte chunk *)
Fixpoint le_u64s (n : nat) (b : bytes) : list Z :=
  match n with
  | O => []
  | S n => be_val (rev (take 8 b)) :: le_u64s n (drop 8 b)
  end.

Definition blake2f (input : bytes) (gas : Z) : P :=
  if negb (zlen input =? 213) then Err (Precompile "BLAKE2F: input must be 213 bytes")
  else
    rounds ← (w ← slice input 0 4; Ok (be_val w));
    let cost := rounds in
    _ ← need_gas gas cost;
    flag ← index input 212;
    f ← (if flag =? 0 then Ok false else if flag =? 1 then Ok true
         else Err (Precompile "BLAKE2F: invalid final flag"));
    hb ← slice input 4 68;
    mb ← slice input 68 196;
    t0 ← slice input 196 204;
    t1 ← slice input 204 212;
    let h := blake2b_compress rounds (le_u64s 8 hb) (le_u64s 16 mb) (be_val (rev t0)) (be_val (rev t1)) f in
    Ok (concat (map (fun w => rev (to_be 8 w)) h), cost).

(** ** PayID *)

Definition is_payid_char (c : Z) : bool :=
  ((97 <=? c) && (c <=? 122)) || ((48 <=? c) && (c <=? 57)) || (c =? 46) || (c =? 95) || (c =? 45).
Definition validate_payid_name (name : bytes) : bool :=
  if negb ((3 <=? zlen name) && (zlen name <=? 32)) then false else forallb is_payid_char name.

Definition to_ascii_lowercase (b : bytes) : bytes :=
  map (fun c => if (65 <=? c) && (c <=? 90) then c + 32 else c) b.
(** "@zbx" *)
Definition at_zbx : bytes := [64; 122; 98; 120].
(** [trim_end_matches(pat)] removes every occurrence of [pat] at the end; on
    the reversed string it is a loop at the front. *)
Fixpoint trim_front (fuel : nat) (pat b : bytes) : bytes :=
  match fuel with
  | O => b
  | S fuel => if bool_decide (take (length pat) b = pat) then trim_front fuel pat (drop (length pat) b) else b
  end.
Definition trim_end_matches (pat b : bytes) : bytes := rev (trim_front (length b) (rev pat) (rev b)).

Section dispatch.
Context `{Primitives}.

Definition payid_forward_slot (name : bytes) : word := keccak256 ([112; 97; 121; 105; 100; 47] ++ name).
Definition payid_reverse_slot (addr : Address) : word :=
  keccak256 ([112; 97; 121; 105; 100; 95; 114; 101; 118; 47] ++ addr).
Definition PAYID_REGISTRAR_ADDR : Address := replicate 19 0 ++ [192].

Definition do_payid (input : bytes) (gas : Z) (resolve : bytes -> option Address)
    (reverse : Address -> option bytes) : P :=
  if zlen input <? 96 then Err (Precompile "payid: input < 96 bytes")
  else if existsb (fun b => negb (b =? 0)) (take 31 input) then Err (Precompile "payid: op must fit in uint8")
  else
    op ← index input 31;
    if existsb (fun b => negb (b =? 0)) (take 28 (drop 64 input)) then Err (Precompile "payid: length too large")
    else
      let length_ := be_val (take 4 (drop 92 input)) in
      if (length_ =? 0) || (zlen input <? 96 + length_) then Err (Precompile "payid: payload length out of range")
      else
        payload ← slice input 96 (96 + length_);
        let cost := sat 64 (700 + sat 64 (50 * zlen payload)) in
        _ ← need_gas gas cost;
        if op =? 0 then
          if negb (utf8_ok payload) then Err (Precompile "payid: name not UTF-8")
          else
            let name := trim_end_matches at_zbx (to_ascii_lowercase payload) in
            if negb (validate_payid_name name) then Err (Precompile "payid: name violates [a-z0-9._-]{3,32}")
            else
              match resolve name with
              | Some addr => Ok (replicate 12 0 ++ addr, cost)
              | None => Ok (zeros32, cost)
              end
        else if op =? 1 then
          if negb (zlen payload =? 20) then
            Err (Precompile "payid: reverse-lookup payload must be exactly 20 bytes")
          else
            let name := default [] (reverse payload) in
            let padded := (zlen name + 31) / 32 * 32 in
            Ok (replicate 31 0 ++ [32] ++ replicate 28 0 ++ to_be 4 (zlen name) ++ name
                  ++ replicate (Z.to_nat (padded - zlen name)) 0, cost)
        else Err (Precompile "payid: unknown op (expected 0 or 1)").

(** ** The bodies shared with the second virtual machine *)

Definition do_kzg_with_settings (input : bytes) (gas : Z) (s_g2 : BlsG2) : P :=
  map_err (fun e => match e with Kzg.OutOfGas _ _ => OutOfGas | _ => Precompile "kzg" end) (Kzg.do_kzg_point_eval input gas s_g2).
Definition do_kzg_global (input : bytes) (gas : Z) : P :=
  s_g2 ← ok_or global_kzg_settings (Precompile "kzg (0x0B): trusted setup not initialised");
  do_kzg_with_settings input gas s_g2.

Definition do_price_oracle (input : bytes) (gas : Z) (read_slot : Reader) : P :=
  map_err (fun e => match e with Oracle.OutOfGas => OutOfGas | _ => Precompile "price_oracle" end)
    (Oracle.do_price_oracle input gas read_slot).

Definition do_zusd_vault (input : bytes) (gas : Z) (read_slot : Reader) (now : Z) : P :=
  map_err (fun e => match e with Vault.OutOfGas => OutOfGas | _ => Precompile "zusd_vault: input must be 32 bytes" end)
    (Vault.do_zusd_vault_read input gas read_slot now).

(** ** Dispatch *)

Definition is_precompile (addr : Address) : bool :=
  forallb (fun x => x =? 0) (take 19 addr) && (1 <=? addr !!! 19%nat) && (addr !!! 19%nat <=? 0x0F).

Definition call_precompile (addr : Address) (input : bytes) (gas : Z) : P :=
  let id := addr !!! 19%nat in
  if id =? 1 then ecrecover input gas
  else if id =? 2 then sha256_hash input gas
  else if id =? 3 then ripemd160_hash input gas
  else if id =? 4 then identity input gas
  else if id =? 5 then modexp input gas
  else if id =? 6 then bn128_add input gas
  else if id =? 7 then bn128_mul input gas
  else if id =? 8 then bn128_pairing input gas
  else if id =? 9 then blake2f input gas
  else if id =? 0x0A then Err (Precompile "payid (0x0A) requires host context; call via interpreter")
  else if id =? 0x0B then do_kzg_global input gas
  else if id =? 0x0C then Err (Precompile "price_oracle (0x0C) requires host context; call via interpreter")
  else if id =? 0x0D then ed25519_verify input gas
  else if id =? 0x0E then vrf_verify input gas
  else if id =? 0x0F then Err (Precompile "zusd_vault (0x0F) requires host context; call via interpreter")
  else Err (Precompile "unknown precompile").
End dispatch.

(** ** What every precompile promises its caller *)

(** An output that fits memory and a cost within the gas given; no panic. *)
Definition pre_ok (gas : Z) (r : P) : Prop :=
  match r with
  | Ok (out, used) => code_ok out /\ 0 <= used <= gas
  | Err _ => True
  | Panic => False
  end.

Class PrimitivesLaws `{Primitives} : Prop := {
  keccak_ok b : word_ok (keccak256 b);
  sha256_ok b : word_ok (sha256 b);
  ripemd_ok b : addr_ok (ripemd160 b);
  recover_ok h v r s a : recover_signer h v r s = Some a -> addr_ok a;
  vrf_ok pk a p b : vrf_check pk a p = Some b -> code_ok b;
  g1_ok p x y : g1_affine p = Some (x, y) -> word_ok x /\ word_ok y;
  modpow_spec b e m : 0 <= b -> 0 <= e -> 0 < m -> modpow b e m = b ^ e mod m }.

Lemma code_ok_short l n : Forall Bytes.byte l -> zlen l <= n -> n < 2 ^ 63 -> code_ok l.
Proof. intros Hl Hn Hb. split; [done|lia]. Qed.

Lemma zeros_ok n : (Z.of_nat n < 2 ^ 63) -> code_ok (replicate n 0).
Proof. intros Hn. split; [apply bytes_replicate; unfold Bytes.byte; lia|]. unfold zlen. by rewrite length_replicate. Qed.

Lemma word_code_ok w : word_ok w -> code_ok w.
Proof. intros [Hl Hb]. split; [done|]. unfold zlen. rewrite Hl. lia. Qed.

Lemma zeros32_ok : word_ok zeros32.
Proof. apply zero_word_ok. Qed.

Lemma addr_word_ok a : addr_ok a -> word_ok (replicate 12 0 ++ a).
Proof.
  intros [Hl Hb]. split; [by rewrite length_app, Hl|]. apply Forall_app. split; [|done].
  apply bytes_replicate. unfold Bytes.byte. lia.
Qed.

Lemma one_word_ok : word_ok (replicate 31 0 ++ [1]).
Proof.
  split; [done|]. apply Forall_app. split; [apply bytes_replicate; unfold Bytes.byte; lia|].
  repeat constructor; unfold Bytes.byte; lia.
Qed.

Lemma need_gas_pre gas cost (r : P) : (cost <= gas -> pre_ok gas r) -> pre_ok gas (_ ← need_gas gas cost; r).
Proof. intros Hr. unfold need_gas, guard_err. destruct (Z.ltb_spec gas cost); [done|]. by apply Hr. Qed.

(** A bind whose first part does not panic. *)
Lemma pre_bind {A} gas (m : res EvmError A) (k : A -> P) :
  m <> Panic -> (forall a, m = Ok a -> pre_ok gas (k a)) -> pre_ok gas (a ← m; k a).
Proof. intros Hp Hk. destruct m; [by apply Hk|done|done]. Qed.

Lemma pre_slice gas l a b (k : bytes -> P) : 0 <= a <= b -> b <= zlen l ->
  (forall x, x = take (Z.to_nat (b - a)) (drop (Z.to_nat a) l) -> zlen x = b - a -> pre_ok gas (k x)) ->
  pre_ok gas (x ← slice l a b; k x).
Proof.
  intros Ha Hb Hk. rewrite slice_Ok by done. apply Hk; [done|]. unfold zlen in *.
  rewrite length_take, length_drop. lia.
Qed.

Lemma slice_bytes (l : bytes) i j : Forall Bytes.byte l -> Forall Bytes.byte (take i (drop j l)).
Proof. intros Hl. by apply Forall_take, Forall_drop. Qed.

Lemma words32_bound input : zlen input < 2 ^ 63 -> 0 <= words32 input < 2 ^ 59.
Proof.
  intros Hl. pose proof (zlen_nonneg input). unfold words32. rewrite wrap_small by (unfold in_range; lia).
  split; [apply Z.div_pos|apply Z.div_lt_upper_bound]; lia.
Qed.
Ltac pre_word := match goal with |- pre_ok _ (Ok _) => split; [apply word_code_ok|lia] end.

Section pre_laws.
Context `{PrimitivesLaws}.

Lemma hash_pre input gas a b w : code_ok input -> 0 <= a < 2 ^ 30 -> 0 <= b < 2 ^ 30 -> code_ok w ->
  pre_ok gas (_ ← need_gas gas (u64 (a + u64 (b * words32 input))); Ok (w, u64 (a + u64 (b * words32 input)))).
Proof.
  intros Hi Ha Hb Hw. apply need_gas_pre. intros Hg. split; [done|].
  pose proof (wrap_range 64 (a + u64 (b * words32 input)) ltac:(lia)) as Hr. unfold in_range in Hr. lia.
Qed.

Lemma ecrecover_pre input gas : code_ok input -> pre_ok gas (ecrecover input gas).
Proof.
  intros [Hb Hl]. unfold ecrecover. apply need_gas_pre. intros Hg.
  destruct (Z.ltb_spec (zlen input) 128); [pre_word; apply zeros32_ok|].
  apply pre_slice; [lia..|]. intros hash _ _. destruct (index_Ok (E:=EvmError) input 63 ltac:(lia)) as (v & _ & ->).
  cbn [mbind res_bind]. apply pre_slice; [lia..|]. intros r _ _. apply pre_slice; [lia..|]. intros s _ _.
  destruct (recover_signer _ _ _ _) as [a|] eqn:Hr; pre_word; [|apply zeros32_ok].
  apply addr_word_ok. by eapply recover_ok.
Qed.

Lemma ed25519_pre input gas : code_ok input -> pre_ok gas (ed25519_verify input gas).
Proof.
  intros [Hb Hl]. unfold ed25519_verify. apply need_gas_pre. intros Hg.
  destruct (Z.ltb_spec (zlen input) 128); [pre_word; apply zeros32_ok|].
  do 3 (apply pre_slice; [lia..|]; intros ? _ _). case_match; pre_word; [apply one_word_ok|apply zeros32_ok].
Qed.

Lemma vrf_pre input gas : code_ok input -> pre_ok gas (vrf_verify input gas).
Proof.
  intros [Hb Hl]. unfold vrf_verify, PUBKEY_LEN, PROOF_LEN. apply need_gas_pre. intros Hg.
  destruct (Z.ltb_spec (zlen input) (32 + 80)); [pre_word; apply zeros32_ok|].
  apply pre_slice; [lia..|]. intros pk _ _. cbv zeta.
  destruct (Z.ltb_spec (32 + (zlen input - 32 - 80)) 32); [lia|]. cbn [orb].
  do 2 (apply pre_slice; [lia..|]; intros ? _ _).
  destruct (vrf_check _ _ _) eqn:Hv; [|pre_word; apply zeros32_ok]. split; [by eapply vrf_ok|lia].
Qed.

(** *** Padding and lengths *)

Lemma pad_right_len l n : 0 <= n -> zlen (pad_right l n) = n.
Proof.
  intros Hn. unfold pad_right, zlen. destruct (Z.leb_spec n (Z.of_nat (length l))).
  - rewrite length_take. lia.
  - rewrite length_app, length_replicate. lia.
Qed.

Lemma pad_right_bytes l n : Forall Bytes.byte l -> Forall Bytes.byte (pad_right l n).
Proof.
  intros Hl. unfold pad_right. case_match; [by apply Forall_take|]. apply Forall_app. split; [done|].
  apply bytes_replicate. unfold Bytes.byte. lia.
Qed.

(** A 4-byte big-endian length. *)
Lemma read_len_spec b : length b = 32%nat -> Forall Bytes.byte b -> forall n,
  read_u256_as_usize b = Ok n -> n = be_val b /\ 0 <= n < 2 ^ 32.
Proof.
  intros Hl Hb n. unfold read_u256_as_usize. destruct (Z.ltb_spec (zlen b) 32); [done|].
  destruct (existsb _ (take 28 b)) eqn:Hz; [done|]. intros [= <-].
  assert (H28 : take 28 b = replicate 28 0).
  { apply list_eq_same_length with 28%nat; [by rewrite length_replicate|rewrite length_take; lia|].
    intros i x y Hi Hx Hy. apply lookup_replicate in Hy as [-> _].
    destruct (decide (x = 0)) as [|Hne]; [done|]. exfalso.
    assert (Hex : existsb (fun x => negb (x =? 0)) (take 28 b) = true); [|congruence].
    apply existsb_exists. exists x. split; [by apply list_elem_of_In; eapply list_elem_of_lookup_2|].
    apply negb_true_iff, Z.eqb_neq. done. }
  destruct (drop 28 b) as [|b0 [|b1 [|b2 [|b3 [|]]]]] eqn:Hd; try (apply (f_equal length) in Hd; rewrite length_drop in Hd; simpl in Hd; lia).
  assert (Hbe : b = replicate 28 0 ++ [b0; b1; b2; b3]) by (rewrite <-H28, <-Hd; by rewrite take_drop).
  rewrite Hbe in Hb |- *. apply Forall_app in Hb as [_ Hb]. rewrite be_val_app, be_val_replicate0.
  rewrite !Forall_cons in Hb. destruct Hb as (B0 & B1 & B2 & B3 & _). unfold Bytes.byte in *.
  change ((replicate 28 0 ++ [b0; b1; b2; b3]) !!! 28%nat) with b0.
  change ((replicate 28 0 ++ [b0; b1; b2; b3]) !!! 29%nat) with b1.
  change ((replicate 28 0 ++ [b0; b1; b2; b3]) !!! 30%nat) with b2.
  change ((replicate 28 0 ++ [b0; b1; b2; b3]) !!! 31%nat) with b3.
  rewrite !Z.shiftl_mul_pow2 by lia.
  assert (Hor : Z.lor (Z.lor (Z.lor (b0 * 2 ^ 24) (b1 * 2 ^ 16)) (b2 * 2 ^ 8)) b3 =
    b0 * 2 ^ 24 + b1 * 2 ^ 16 + b2 * 2 ^ 8 + b3).
  { rewrite (lor_add (b0 * 2 ^ 24) (b1 * 2 ^ 16) 24), (lor_add _ (b2 * 2 ^ 8) 16), (lor_add _ b3 8); try lia;
      Z.to_euclidean_division_equations; lia. }
  rewrite Hor. cbn [be_val zlen length]. change (256 ^ zlen [b0; b1; b2; b3]) with (256 ^ 4).
  unfold zlen; simpl length. change (256 ^ Z.of_nat 3) with 16777216. change (256 ^ Z.of_nat 2) with 65536.
  change (256 ^ Z.of_nat 1) with 256. change (256 ^ Z.of_nat 0) with 1. lia.
Qed.

Lemma read_len_no_panic b : read_u256_as_usize b <> Panic.
Proof. unfold read_u256_as_usize. repeat case_match; done. Qed.

Lemma big_bytes_ok z : Forall Bytes.byte (big_bytes z).
Proof.
  unfold big_bytes. case_match; [repeat constructor; unfold Bytes.byte; lia|apply to_be_bytes].
Qed.

Lemma modexp_gas_range bl el ml e : 200 <= modexp_gas_eip2565 bl el ml e.
Proof. unfold modexp_gas_eip2565. lia. Qed.

(** One length field of the header. *)
Lemma pre_len gas l a b msg (k : Z -> P) : b = a + 32 -> 0 <= a -> b <= zlen l -> Forall Bytes.byte l ->
  (forall n, n = be_val (take 32 (drop (Z.to_nat a) l)) -> 0 <= n < 2 ^ 32 -> pre_ok gas (k n)) ->
  pre_ok gas (n ← map_err (fun _ => Precompile msg) (w ← slice l a b; read_u256_as_usize w); k n).
Proof.
  intros -> Ha Hb Hl Hk. rewrite slice_Ok by lia. cbn [mbind res_bind].
  replace (Z.to_nat (a + 32 - a)) with 32%nat by lia.
  set (w := take 32 (drop (Z.to_nat a) l)). pose proof (read_len_no_panic w) as Hp.
  assert (Hlw : length w = 32%nat). { unfold w, zlen in *. rewrite length_take, length_drop. lia. }
  destruct (read_u256_as_usize w) as [n| |] eqn:Hr; [|done|done].
  apply read_len_spec in Hr as [Hn Hr]; [|done|by apply slice_bytes]. cbn [map_err mbind res_bind]. auto.
Qed.

(** *** Modular exponentiation *)

(** Everything after the length fields. *)
Definition modexp_result (ml b e m : Z) : bytes :=
  let result_bytes := big_bytes (modpow b e m) in
  take (Z.to_nat ml) (replicate (Z.to_nat ml - length result_bytes) 0 ++ result_bytes).

Lemma modexp_result_ok ml b e m : 0 <= ml < 2 ^ 32 -> code_ok (modexp_result ml b e m).
Proof.
  intros Hml. unfold modexp_result. split.
  - apply Forall_take, Forall_app. split; [apply bytes_replicate; unfold Bytes.byte; lia|apply big_bytes_ok].
  - unfold zlen. rewrite length_take. lia.
Qed.

Lemma modexp_pre input gas : code_ok input -> pre_ok gas (modexp input gas).
Proof.
  intros [Hb Hl]. pose proof (zlen_nonneg input) as Hn. unfold modexp. cbv zeta.
  set (padded := pad_right input (Z.max 96 (zlen input))).
  assert (Hp : 96 <= zlen padded < 2 ^ 63) by (unfold padded; rewrite pad_right_len by lia; lia).
  assert (Hpb : Forall Bytes.byte padded) by by apply pad_right_bytes.
  apply pre_len; [lia..|done|]. intros bl _ Hbl. apply pre_len; [lia..|done|]. intros el _ Hel.
  apply pre_len; [lia..|done|]. intros ml _ Hml.
  destruct (Z.eqb_spec ml 0); [apply need_gas_pre; intros; split; [by apply (zeros_ok 0)|lia]|].
  apply pre_bind; [by destruct (checked 64 (96 + bl)) as [?|]; simpl; [|done]; destruct (checked 64 _); simpl; [|done]; destruct (checked 64 _)|].
  intros total Ht. rewrite !checked_in in Ht by (unfold in_range; lia). cbn [mbind option_bind] in Ht.
  rewrite !checked_in in Ht by (unfold in_range; lia). cbn [mbind option_bind] in Ht.
  rewrite !checked_in in Ht by (unfold in_range; lia). injection Ht as <-.
  set (q := pad_right padded _). assert (Hq : zlen q = 96 + bl + el + ml) by (apply pad_right_len; lia).
  apply pre_slice; [lia..|]. intros bb _ _. apply pre_slice; [lia..|]. intros eb _ _.
  apply pre_slice; [lia..|]. intros mb _ _. apply need_gas_pre. intros Hg.
  pose proof (modexp_gas_range bl el ml (be_val eb)). case_match.
  - split; [apply zeros_ok; lia|lia].
  - split; [apply modexp_result_ok; lia|lia].
Qed.

Lemma big_bytes_val z : 0 <= z -> be_val (big_bytes z) = z /\ zlen (big_bytes z) = Z.max 1 ((big_bits z + 7) / 8).
Proof.
  intros Hz. unfold big_bytes. destruct (Z.eqb_spec z 0) as [->|Hne]; [done|].
  assert (Hb : big_bits z = Z.log2 z + 1) by (unfold big_bits; by rewrite (proj2 (Z.eqb_neq z 0))).
  pose proof (Z.log2_nonneg z) as Hlog. pose proof (Z.log2_spec z ltac:(lia)) as [_ Hs].
  set (n := (big_bits z + 7) / 8). assert (Hn : Z.log2 z + 1 <= 8 * n /\ 1 <= n).
  { unfold n. rewrite Hb. Z.to_euclidean_division_equations. lia. }
  rewrite be_val_to_be, zlen_to_be, !Z2Nat.id by lia. split; [|lia]. apply Z.mod_small. split; [done|].
  eapply Z.lt_le_trans; [exact Hs|]. change 256 with (2 ^ 8). rewrite <-Z.pow_mul_r by lia.
  apply Z.pow_le_mono_r; lia.
Qed.

(** A value below [256 ^ n] takes at most [n] bytes. *)
Lemma big_bytes_len z n : 1 <= n -> 0 <= z < 256 ^ n -> zlen (big_bytes z) <= n.
Proof.
  intros Hn Hz. destruct (big_bytes_val z ltac:(lia)) as [_ ->]. unfold big_bits.
  destruct (Z.eqb_spec z 0); [change ((0 + 7) / 8) with 0; lia|].
  assert (Hl : Z.log2 z < 8 * n). { apply Z.log2_lt_pow2; [lia|]. rewrite Z.pow_mul_r by lia. change (2 ^ 8) with 256. lia. }
  apply Z.max_lub; [lia|]. Z.to_euclidean_division_equations. lia.
Qed.

Lemma modexp_result_val ml b e m : 0 < ml -> 0 <= b -> 0 <= e -> 0 < m < 256 ^ ml ->
  modexp_result ml b e m = to_be (Z.to_nat ml) (b ^ e mod m).
Proof.
  intros Hml Hb He Hm. unfold modexp_result. rewrite modpow_spec by lia.
  pose proof (Z.mod_pos_bound (b ^ e) m ltac:(lia)) as Hr. set (r := b ^ e mod m) in *.
  pose proof (big_bytes_len r ml ltac:(lia) ltac:(lia)) as Hlen. destruct (big_bytes_val r ltac:(lia)) as [Hv _].
  unfold zlen in Hlen. rewrite take_ge by (rewrite length_app, length_replicate; lia).
  apply be_val_inj.
  - apply Forall_app. split; [apply bytes_replicate; unfold Bytes.byte; lia|apply big_bytes_ok].
  - apply to_be_bytes.
  - rewrite length_app, length_replicate, length_to_be. lia.
  - rewrite be_val_app, be_val_replicate0, Hv, be_val_to_be, Z2Nat.id, Z.mod_small by lia. lia.
Qed.

Lemma read_len_small b : length b = 32%nat -> Forall Bytes.byte b -> be_val b < 2 ^ 32 ->
  read_u256_as_usize b = Ok (be_val b).
Proof.
  intros Hl Hb Hv. pose proof (read_len_spec b Hl Hb) as Hs. pose proof (read_len_no_panic b) as Hp.
  destruct (read_u256_as_usize b) as [n|[]|] eqn:Hr; [by destruct (Hs n eq_refl) as [-> _]| |done].
  exfalso. revert Hr. unfold read_u256_as_usize. destruct (Z.ltb_spec (zlen b) 32); [unfold zlen in *; lia|].
  destruct (existsb _ (take 28 b)) eqn:Hz; [intros _|done].
  assert (H28 : be_val (take 28 b) = 0).
  { rewrite <-(take_drop 28 b), be_val_app in Hv. pose proof (be_val_bound (drop 28 b) ltac:(by apply Forall_drop)).
    pose proof (be_val_bound (take 28 b) ltac:(by apply Forall_take)).
    assert (Hd : zlen (drop 28 b) = 4) by (unfold zlen; rewrite length_drop; lia). rewrite Hd in *.
    change (256 ^ 4) with (2 ^ 32) in *. nia. }
  apply be_val_zeros in H28; [|by apply Forall_take]. rewrite H28 in Hz.
  apply existsb_exists in Hz as (x & Hx & Hnz). apply list_elem_of_In, elem_of_replicate in Hx as [-> _]. done.
Qed.

Lemma read_len_to_be n : (Z.of_nat n < 2 ^ 32) -> read_u256_as_usize (to_be 32 (Z.of_nat n)) = Ok (Z.of_nat n).
Proof.
  intros Hn. assert (Hv : be_val (to_be 32 (Z.of_nat n)) = Z.of_nat n).
  { rewrite be_val_to_be. apply Z.mod_small. split; [lia|]. eapply Z.lt_le_trans; [exact Hn|]. done. }
  rewrite <-Hv at 2. apply read_len_small; [apply length_to_be|apply to_be_bytes|lia].
Qed.

Lemma pad_right_app l k n : n = zlen l -> pad_right (l ++ k) n = l.
Proof.
  intros ->. unfold pad_right. rewrite zlen_app. pose proof (zlen_nonneg k).
  rewrite (proj2 (Z.leb_le _ _)) by lia. unfold zlen. rewrite Nat2Z.id. apply take_app_length.
Qed.

(** MODEXP returns the modular power, as a big-endian number of exactly the
    modulus' length, for any lengths that fit the header, and charges the
    computed cost, never more than the gas given. *)
Theorem modexp_correct bl el ml B E N tail gas :
  length B = bl -> length E = el -> length N = ml -> (0 < ml)%nat -> Z.of_nat (Nat.max bl (Nat.max el ml)) < 2 ^ 32 ->
  Forall Bytes.byte (B ++ E ++ N ++ tail) -> zlen (B ++ E ++ N ++ tail) < 2 ^ 62 ->
  let cost := modexp_gas_eip2565 (Z.of_nat bl) (Z.of_nat el) (Z.of_nat ml) (be_val E) in
  modexp (to_be 32 (Z.of_nat bl) ++ to_be 32 (Z.of_nat el) ++ to_be 32 (Z.of_nat ml) ++ B ++ E ++ N ++ tail) gas =
    if gas <? cost then Err OutOfGas
    else Ok (to_be ml (if be_val N =? 0 then 0 else be_val B ^ be_val E mod be_val N), cost).
Proof.
  intros <- <- <- Hml Hmax Hbytes Hlen cost. rewrite !zlen_app in Hlen.
  set (L1 := to_be 32 (Z.of_nat (length B))). set (L2 := to_be 32 (Z.of_nat (length E))).
  set (L3 := to_be 32 (Z.of_nat (length N))).
  assert (HL : zlen L1 = 32 /\ zlen L2 = 32 /\ zlen L3 = 32) by (unfold zlen, L1, L2, L3; by rewrite !length_to_be).
  destruct HL as (H1 & H2 & H3). pose proof (zlen_nonneg tail). pose proof (zlen_nonneg B).
  pose proof (zlen_nonneg E). pose proof (zlen_nonneg N). unfold modexp. cbv zeta.
  assert (Hpad : pad_right (L1 ++ L2 ++ L3 ++ B ++ E ++ N ++ tail) (Z.max 96 (zlen (L1 ++ L2 ++ L3 ++ B ++ E ++ N ++ tail))) =
    L1 ++ L2 ++ L3 ++ B ++ E ++ N ++ tail).
  { rewrite <-(app_nil_r (L1 ++ _)) at 1. apply pad_right_app. rewrite !zlen_app. lia. }
  rewrite Hpad. rewrite (slice_prefix L1) by lia. cbn [mbind res_bind].
  rewrite (slice_app L1 L2 _ 32 64) by lia. cbn [mbind res_bind].
  rewrite (app_assoc L1 L2), (slice_app (L1 ++ L2) L3 _ 64 96) by (rewrite zlen_app; lia). cbn [mbind res_bind].
  unfold L1, L2, L3. rewrite !read_len_to_be by lia. fold L1 L2 L3. cbn [map_err mbind res_bind].
  destruct (Z.eqb_spec (Z.of_nat (length N)) 0); [lia|].
  rewrite !checked_in by (unfold in_range; lia). cbn [mbind option_bind].
  rewrite !checked_in by (unfold in_range; lia). cbn [mbind option_bind].
  rewrite !checked_in by (unfold in_range; lia). cbn [ok_or mbind res_bind].
  assert (Hpad2 : pad_right ((L1 ++ L2) ++ L3 ++ B ++ E ++ N ++ tail)
            (96 + Z.of_nat (length B) + Z.of_nat (length E) + Z.of_nat (length N)) = (L1 ++ L2 ++ L3) ++ B ++ E ++ N).
  { replace ((L1 ++ L2) ++ L3 ++ B ++ E ++ N ++ tail) with (((L1 ++ L2 ++ L3) ++ B ++ E ++ N) ++ tail)
      by (by rewrite <-!app_assoc). apply pad_right_app. rewrite !zlen_app. unfold zlen in *. lia. }
  rewrite Hpad2. assert (H96 : zlen (L1 ++ L2 ++ L3) = 96) by (rewrite !zlen_app; lia). unfold zlen in H96.
  rewrite (slice_app (L1 ++ L2 ++ L3) B _ 96 (96 + Z.of_nat (length B))) by (unfold zlen; lia). cbn [mbind res_bind].
  rewrite (app_assoc (L1 ++ L2 ++ L3) B), (slice_app ((L1 ++ L2 ++ L3) ++ B) E _
    (96 + Z.of_nat (length B)) (96 + Z.of_nat (length B) + Z.of_nat (length E))) by (unfold zlen; rewrite ?length_app in *; lia).
  cbn [mbind res_bind]. rewrite (app_assoc ((L1 ++ L2 ++ L3) ++ B) E).
  rewrite (slice_suffix (((L1 ++ L2 ++ L3) ++ B) ++ E) N) by (unfold zlen; rewrite ?length_app in *; lia).
  cbn [mbind res_bind]. unfold need_gas, guard_err. fold cost. destruct (gas <? cost); [done|]. cbn [mbind res_bind].
  apply Forall_app in Hbytes as [HB Hb]. apply Forall_app in Hb as [HE Hb]. apply Forall_app in Hb as [HN _].
  pose proof (be_val_bound N HN) as Hnb. pose proof (be_val_bound B HB). pose proof (be_val_bound E HE).
  unfold zlen in Hnb. destruct (Z.eqb_spec (be_val N) 0) as [|Hnz].
  - f_equal. f_equal. rewrite Nat2Z.id. apply be_val_inj; [apply bytes_replicate; unfold Bytes.byte; lia|apply to_be_bytes| |].
    + by rewrite length_replicate, length_to_be.
    + rewrite be_val_replicate0, be_val_to_be. by rewrite Zmod_0_l.
  - f_equal. f_equal. fold (modexp_result (Z.of_nat (length N)) (be_val B) (be_val E) (be_val N)).
    rewrite modexp_result_val by lia. by rewrite Nat2Z.id.
Qed.

(** The gas schedule's product is not checked: an exponent of 65 bits with a
    modulus of 2^32 - 1 bytes wraps to the minimum price. *)
Theorem modexp_gas_wraps bl el ml e : 0 <= bl <= ml -> ml = 2 ^ 32 - 1 -> 0 <= el <= 32 -> 2 ^ 64 <= e < 2 ^ 65 ->
  modexp_gas_eip2565 bl el ml e = 200.
Proof.
  intros Hbl -> Hel He. unfold modexp_gas_eip2565, big_bits. rewrite (proj2 (Z.leb_le el 32)) by lia.
  rewrite (proj2 (Z.eqb_neq e 0)) by lia. assert (Hlog : Z.log2 e = 64) by (apply Z.log2_unique; lia).
  rewrite Hlog, (Z.max_r bl (2 ^ 32 - 1)) by lia. vm_compute. reflexivity.
Qed.

(** *** alt_bn128 *)

Lemma parse_fq_no_panic b : 32 <= zlen b -> parse_fq b <> Panic.
Proof. intros Hb. unfold parse_fq. rewrite slice_Ok by lia. cbn [mbind res_bind]. by destruct (fq_from_slice _). Qed.

(** A part of a chunk handed to a parser that does not panic on it. *)
Lemma slice_parse {A} (f : bytes -> res EvmError A) l a b :
  0 <= a <= b -> b <= zlen l -> (forall w, zlen w = b - a -> f w <> Panic) -> (w ← slice l a b; f w) <> Panic.
Proof.
  intros Ha Hb Hf. rewrite slice_Ok by done. apply Hf. unfold zlen in *. rewrite length_take, length_drop. lia.
Qed.

Lemma parse_g1_no_panic b : 64 <= zlen b -> parse_g1 b <> Panic.
Proof.
  intros Hb. unfold parse_g1.
  pose proof (slice_parse parse_fq b 0 32 ltac:(lia) ltac:(lia) (fun w Hw => parse_fq_no_panic w ltac:(lia))) as Hx.
  destruct (w ← slice b 0 32; parse_fq w) as [x| |]; [|done|done]. cbn [mbind res_bind].
  pose proof (slice_parse parse_fq b 32 64 ltac:(lia) ltac:(lia) (fun w Hw => parse_fq_no_panic w ltac:(lia))) as Hy.
  destruct (w ← slice b 32 64; parse_fq w) as [y| |]; [|done|done]. cbn [mbind res_bind].
  case_match; [done|]. by destruct (g1_new x y).
Qed.

Lemma encode_g1_ok p out : encode_g1 p = Ok out -> code_ok out.
Proof.
  unfold encode_g1. destruct (g1_affine p) as [[x y]|] eqn:Hp; intros [= <-].
  - apply g1_ok in Hp as [[Hx Bx] [Hy By]]. split; [by apply Forall_app|]. unfold zlen. rewrite length_app, Hx, Hy. lia.
  - apply (zeros_ok 64). lia.
Qed.
Lemma encode_g1_no_panic p : encode_g1 p <> Panic.
Proof. unfold encode_g1. by destruct (g1_affine p) as [[]|]. Qed.

Lemma bn128_add_pre input gas : code_ok input -> pre_ok gas (bn128_add input gas).
Proof.
  intros [Hb Hl]. unfold bn128_add. apply need_gas_pre. intros Hg.
  assert (Hp : zlen (pad_right input 128) = 128) by by apply pad_right_len.
  apply pre_bind; [apply slice_parse; [lia..|]; intros; apply parse_g1_no_panic; lia|]. intros p1 _.
  apply pre_bind; [apply slice_parse; [lia..|]; intros; apply parse_g1_no_panic; lia|]. intros p2 _.
  apply pre_bind; [apply encode_g1_no_panic|]. intros out Ho. split; [by eapply encode_g1_ok|lia].
Qed.

Lemma bn128_mul_pre input gas : code_ok input -> pre_ok gas (bn128_mul input gas).
Proof.
  intros [Hb Hl]. unfold bn128_mul. apply need_gas_pre. intros Hg.
  assert (Hp : zlen (pad_right input 96) = 96) by by apply pad_right_len.
  apply pre_bind; [apply slice_parse; [lia..|]; intros; apply parse_g1_no_panic; lia|]. intros p1 _.
  apply pre_slice; [lia..|]. intros sb _ _. apply pre_bind; [by destruct (fr_from_slice sb)|]. intros sc _.
  apply pre_bind; [apply encode_g1_no_panic|]. intros out Ho. split; [by eapply encode_g1_ok|lia].
Qed.

Lemma parse_pair_no_panic chunk : zlen chunk = 192 -> parse_pair chunk <> Panic.
Proof.
  intros Hc. unfold parse_pair.
  pose proof (slice_parse parse_g1 chunk 0 64 ltac:(lia) ltac:(lia) (fun w Hw => parse_g1_no_panic w ltac:(lia))) as H0'.
  destruct (w ← slice chunk 0 64; parse_g1 w) as [p| |]; [|done|done]. cbn [mbind res_bind].
  pose proof (slice_parse parse_fq chunk 64 96 ltac:(lia) ltac:(lia) (fun w Hw => parse_fq_no_panic w ltac:(lia))) as H1'.
  destruct (w ← slice chunk 64 96; parse_fq w) as [a| |]; [|done|done]. cbn [mbind res_bind].
  pose proof (slice_parse parse_fq chunk 96 128 ltac:(lia) ltac:(lia) (fun w Hw => parse_fq_no_panic w ltac:(lia))) as H2'.
  destruct (w ← slice chunk 96 128; parse_fq w) as [b| |]; [|done|done]. cbn [mbind res_bind].
  pose proof (slice_parse parse_fq chunk 128 160 ltac:(lia) ltac:(lia) (fun w Hw => parse_fq_no_panic w ltac:(lia))) as H3'.
  destruct (w ← slice chunk 128 160; parse_fq w) as [c| |]; [|done|done]. cbn [mbind res_bind].
  pose proof (slice_parse parse_fq chunk 160 192 ltac:(lia) ltac:(lia) (fun w Hw => parse_fq_no_panic w ltac:(lia))) as H4'.
  destruct (w ← slice chunk 160 192; parse_fq w) as [d| |]; [|done|done]. cbn [mbind res_bind].
  destruct (_ && _ && _ && _); [done|]. by destruct (g2_new _ _).
Qed.

Lemma parse_pairs_no_panic n : forall input i, 0 <= i -> (i + Z.of_nat n) * 192 <= zlen input -> parse_pairs n input i <> Panic.
Proof.
  induction n as [|n IH]; intros input i Hi Hl; [done|]. cbn [parse_pairs].
  pose proof (slice_parse parse_pair input (i * 192) ((i + 1) * 192) ltac:(lia) ltac:(lia)
    (fun w Hw => parse_pair_no_panic w ltac:(lia))) as Hp.
  destruct (chunk ← _; _) as [p| |]; [|done|done]. cbn [mbind res_bind].
  specialize (IH input (i + 1) ltac:(lia) ltac:(lia)). by destruct (parse_pairs n input (i + 1)).
Qed.

Lemma bn128_pairing_pre input gas : code_ok input -> pre_ok gas (bn128_pairing input gas).
Proof.
  intros [Hb Hl]. pose proof (zlen_nonneg input). unfold bn128_pairing. destruct (negb _) eqn:Hm; [done|].
  bool_to_prop. apply need_gas_pre. intros Hg. set (k := zlen input / 192) in *.
  assert (Hk : 0 <= k < 2 ^ 56 /\ k * 192 = zlen input) by (unfold k; Z.to_euclidean_division_equations; lia).
  apply pre_bind; [apply parse_pairs_no_panic; lia|]. intros pairs _.
  pose proof (wrap_range 64 (45000 + u64 (34000 * k)) ltac:(lia)) as Hr. unfold in_range in Hr.
  case_match; pre_word; [apply one_word_ok|apply zeros32_ok].
Qed.

(** *** BLAKE2 *)

Lemma concat_bytes l : Forall (fun x => Forall Bytes.byte x /\ length x = 8%nat) l ->
  Forall Bytes.byte (concat l) /\ zlen (concat l) = 8 * zlen l.
Proof.
  induction 1 as [|x l [Hb Hx] _ [IH1 IH2]]; [done|]. cbn [concat]. split; [by apply Forall_app|].
  rewrite zlen_app, zlen_cons, IH2. unfold zlen at 1. lia.
Qed.

Lemma length_le_u64s n b : length (le_u64s n b) = n.
Proof. revert b. induction n; intros b; simpl; [done|]. by rewrite IHn. Qed.

Lemma blake2f_pre input gas : code_ok input -> pre_ok gas (blake2f input gas).
Proof.
  intros [Hb Hl]. unfold blake2f. destruct (negb _) eqn:Hm; [done|]. bool_to_prop.
  rewrite (slice_Ok input 0 4) by lia. cbn [mbind res_bind].
  change (take (Z.to_nat (4 - 0)) (drop (Z.to_nat 0) input)) with (take 4 input). set (rounds := be_val (take 4 input)).
  assert (Hr : 0 <= rounds). { pose proof (be_val_bound (take 4 input) ltac:(by apply Forall_take)). lia. }
  apply need_gas_pre. intros Hg. destruct (index_Ok (E:=EvmError) input 212 ltac:(lia)) as (fl & _ & ->).
  cbn [mbind res_bind]. apply pre_bind; [repeat case_match; done|]. intros f _.
  do 4 (apply pre_slice; [lia..|]; intros ? _ _).
  match goal with |- pre_ok _ (Ok (concat (map ?g ?h), _)) => set (hs := h); set (gf := g) end.
  assert (Hlen : (length hs <= 8)%nat).
  { unfold hs, blake2b_compress. rewrite length_zip_with, length_le_u64s. lia. }
  destruct (concat_bytes (map gf hs)) as [Hcb Hcl].
  { apply Forall_map, Forall_true. intros w. split; [by apply Forall_rev, to_be_bytes|]. unfold gf. by rewrite length_rev, length_to_be. }
  split; [|lia]. split; [done|]. rewrite Hcl. unfold zlen. rewrite length_map. lia.
Qed.

(** *** The shared bodies *)

Lemma native_pre {E} gas (f : E -> EvmError) (r : res E (bytes * Z)) : native_ok gas r -> pre_ok gas (map_err f r).
Proof. destruct r as [[out used]|e|]; [|done|done]. intros (Hb & Hl & Hu). split; [|done]. split; [done|lia]. Qed.

Lemma kzg_pre input gas : pre_ok gas (do_kzg_global input gas).
Proof. unfold do_kzg_global. destruct global_kzg_settings; [|done]. apply native_pre, kzg_native. Qed.
Lemma oracle_pre input gas rd : (forall a k, word_ok (rd a k)) -> pre_ok gas (do_price_oracle input gas rd).
Proof. intros Hr. by apply native_pre, oracle_native. Qed.
Lemma vault_pre input gas rd now : (forall a k, word_ok (rd a k)) -> pre_ok gas (do_zusd_vault input gas rd now).
Proof. intros Hr. by apply native_pre, vault_native. Qed.

(** *** PayID *)

Lemma do_payid_pre input gas resolve reverse : code_ok input ->
  (forall n a, resolve n = Some a -> addr_ok a) -> (forall a n, reverse a = Some n -> code_ok n /\ zlen n <= 32) ->
  pre_ok gas (do_payid input gas resolve reverse).
Proof.
  intros [Hb Hl] Hres Hrev. unfold do_payid. destruct (Z.ltb_spec (zlen input) 96); [done|].
  destruct (existsb _ _); [done|]. destruct (index_Ok (E:=EvmError) input 31 ltac:(lia)) as (op & _ & ->).
  cbn [mbind res_bind]. destruct (existsb _ _); [done|]. cbv zeta. set (len := be_val _).
  assert (Hlen : 0 <= len).
  { pose proof (be_val_bound (take 4 (drop 92 input)) ltac:(by apply slice_bytes)). unfold len. lia. }
  destruct (_ || _) eqn:Hr; [done|]. bool_to_prop. apply pre_slice; [lia..|]. intros payload _ Hp.
  apply need_gas_pre. intros Hg. pose proof (sat_range 64 (700 + sat 64 (50 * zlen payload)) ltac:(lia)) as Hs.
  unfold in_range in Hs. destruct (op =? 0).
  - destruct (negb _); [done|]. destruct (negb _); [done|].
    destruct (resolve _) as [a|] eqn:Ha; pre_word; [apply addr_word_ok; by eapply Hres|apply zeros32_ok].
  - destruct (op =? 1); [|done]. destruct (negb _); [done|].
    assert (Hn : code_ok (default [] (reverse payload)) /\ zlen (default [] (reverse payload)) <= 32).
    { destruct (reverse payload) as [n|] eqn:Hr; [by eapply Hrev|]. split; [by apply (zeros_ok 0)|done]. }
    destruct Hn as [[Hnb _] Hnl]. set (name := default [] _) in *. pose proof (zlen_nonneg name). split; [|lia]. split.
    + rewrite !Forall_app. split_and!; try (apply bytes_replicate; unfold Bytes.byte; lia); [|apply to_be_bytes|done].
      repeat constructor; unfold Bytes.byte; lia.
    + rewrite !zlen_app. unfold zlen in *. rewrite !length_replicate, length_to_be. simpl length.
      Z.to_euclidean_division_equations. lia.
Qed.

(** No precompile panics on any input, what it returns fits memory, and it never
    charges more than the gas it was given. *)
Theorem call_precompile_total addr input gas : code_ok input -> in_range 64 gas ->
  pre_ok gas (call_precompile addr input gas).
Proof.
  intros Hi Hg. pose proof Hi as [Hb Hl]. unfold call_precompile. cbv zeta.
  repeat match goal with |- context [if ?b then _ else _] => destruct b end; try done.
  - by apply ecrecover_pre.
  - unfold sha256_hash. apply hash_pre; [done|lia..|]. apply word_code_ok, sha256_ok.
  - unfold ripemd160_hash. apply hash_pre; [done|lia..|]. apply word_code_ok, addr_word_ok, ripemd_ok.
  - unfold identity. by apply hash_pre; [|lia..|].
  - by apply modexp_pre.
  - by apply bn128_add_pre.
  - by apply bn128_mul_pre.
  - by apply bn128_pairing_pre.
  - by apply blake2f_pre.
  - by apply kzg_pre.
  - by apply ed25519_pre.
  - by apply vrf_pre.
Qed.
End pre_laws.

(** The compression function on the fifth vector of EIP-152. *)
Definition eip152_input : bytes :=
  to_be 4 12 ++
  to_be 64 0x48c9bdf267e6096a3ba7ca8485ae67bb2bf894fe72f36e3cf1361d5f3af54fa5d182e6ad7f520e511f6c3e2b8c68059b6bbd41fbabd9831f79217e1319cde05b ++
  [0x61; 0x62; 0x63] ++ replicate 125 0 ++ [3] ++ replicate 15 0 ++ [1].

Example blake2f_vector5 : blake2f eip152_input 12 = Ok
  (to_be 64 0xba80a53f981c4d0d6a2797b69f12f6e94c212f14685ac4b74b12bb6fdbffa2d17d87c5392aab792dc252d5de4533cc9518d38aa8dbf1925ab92386edd4009923,
   12).
Proof. vm_compute. reflexivity. Qed.
