(* ===== verification/EvmInterp.v ===== *)
(** * The EVM interpreter (crates/zbx-evm/src/interpreter.rs, opcodes.rs, gas.rs)

    One call frame as a state, one instruction as a step, the CALL and CREATE
    families as steps that run a fresh frame on the same host.  [run] takes
    fuel for its loop and for the recursion into sub-frames; running out of it
    is the outcome [OutOfFuel], apart from the program's own errors. *)

From Stdlib Require Import ZArith Lia String.
From stdpp Require Import base tactics list gmap sets numbers option.
From S2P Require Import Prelude Bytes U256 EvmMachine EvmHost NativeReads EvmPrecompiles.

Local Open Scope Z_scope.

(** ** Opcodes and gas constants *)

Definition GAS_ZERO : Z := 0.
Definition GAS_VERY_LOW : Z := 3.
Definition GAS_LOW : Z := 5.
Definition GAS_MID : Z := 8.
Definition GAS_HIGH : Z := 10.
Definition GAS_JUMPDEST : Z := 1.
Definition GAS_SLOAD_WARM : Z := 100.
Definition GAS_SLOAD_COLD : Z := 2100.
Definition GAS_SSTORE_SET : Z := 20000.
Definition GAS_SSTORE_RESET : Z := 2900.
Definition GAS_CALL : Z := 100.
Definition GAS_CREATE : Z := 32000.
Definition GAS_COLD_ACCOUNT_ACCESS : Z := 2500.
Definition GAS_CALL_VALUE_TRANSFER : Z := 9000.
Definition GAS_NEW_ACCOUNT : Z := 25000.
Definition GAS_CALL_STIPEND : Z := 2300.
Definition CALL_DEPTH_LIMIT : Z := 1024.
Definition GAS_INITCODE_WORD : Z := 2.
Definition GAS_CODE_DEPOSIT_PER_BYTE : Z := 200.
Definition GAS_SELFDESTRUCT : Z := 5000.
Definition MAX_INITCODE_SIZE : Z := 49152.
Definition MAX_CONTRACT_CODE_SIZE : Z := 24576.
Definition MAX_RETURN_DATA : Z := 1024 * 1024.
Definition CHAIN_ID : Z := 8989.

Module Opcode.
Inductive Opcode : Type :=
| STOP | ADD | MUL | SUB | DIV | SDIV | MOD | SMOD | ADDMOD | MULMOD | EXP | SIGNEXTEND | LT | GT
| SLT | SGT | EQ | ISZERO | AND | OR | XOR | NOT | BYTE | SHL | SHR | SAR | SHA3 | ADDRESS
| BALANCE | ORIGIN | CALLER | CALLVALUE | CALLDATALOAD | CALLDATASIZE | CALLDATACOPY | CODESIZE
| CODECOPY | GASPRICE | EXTCODESIZE | EXTCODECOPY | RETURNDATASIZE | RETURNDATACOPY | EXTCODEHASH
| BLOCKHASH | COINBASE | TIMESTAMP | NUMBER | PREVRANDAO | GASLIMIT | CHAINID | SELFBALANCE
| BASEFEE | POP | MLOAD | MSTORE | MSTORE8 | SLOAD | SSTORE | JUMP | JUMPI | PC | MSIZE | GAS
| JUMPDEST | PUSH0 | PUSH1 | PUSH2 | PUSH3 | PUSH4 | PUSH5 | PUSH6 | PUSH7 | PUSH8 | PUSH9 | PUSH10
| PUSH11 | PUSH12 | PUSH13 | PUSH14 | PUSH15 | PUSH16 | PUSH17 | PUSH18 | PUSH19 | PUSH20 | PUSH21
| PUSH22 | PUSH23 | PUSH24 | PUSH25 | PUSH26 | PUSH27 | PUSH28 | PUSH29 | PUSH30 | PUSH31 | PUSH32
| DUP1 | DUP2 | DUP3 | DUP4 | DUP5 | DUP6 | DUP7 | DUP8 | DUP9 | DUP10 | DUP11 | DUP12 | DUP13
| DUP14 | DUP15 | DUP16 | SWAP1 | SWAP2 | SWAP3 | SWAP4 | SWAP5 | SWAP6 | SWAP7 | SWAP8 | SWAP9
| SWAP10 | SWAP11 | SWAP12 | SWAP13 | SWAP14 | SWAP15 | SWAP16 | LOG0 | LOG1 | LOG2 | LOG3 | LOG4
| CREATE | CALL | CALLCODE | RETURN | DELEGATECALL | CREATE2 | STATICCALL | REVERT | INVALID
| SELFDESTRUCT.

Definition from_u8 (b : Z) : option Opcode :=
  if (0x60 <=? b) && (b <=? 0x7f) then Some PUSH1
  else if (0x80 <=? b) && (b <=? 0x8f) then Some DUP1
  else if (0x90 <=? b) && (b <=? 0x9f) then Some SWAP1
  else
    match b with
    | 0x00 => Some STOP | 0x01 => Some ADD | 0x02 => Some MUL | 0x03 => Some SUB | 0x04 => Some DIV
    | 0x05 => Some SDIV | 0x06 => Some MOD | 0x07 => Some SMOD | 0x08 => Some ADDMOD | 0x09 => Some MULMOD
    | 0x0a => Some EXP | 0x0b => Some SIGNEXTEND | 0x10 => Some LT | 0x11 => Some GT | 0x12 => Some SLT
    | 0x13 => Some SGT | 0x14 => Some EQ | 0x15 => Some ISZERO | 0x16 => Some AND | 0x17 => Some OR
    | 0x18 => Some XOR | 0x19 => Some NOT | 0x1a => Some BYTE | 0x1b => Some SHL | 0x1c => Some SHR
    | 0x1d => Some SAR | 0x20 => Some SHA3 | 0x30 => Some ADDRESS | 0x31 => Some BALANCE
    | 0x32 => Some ORIGIN | 0x33 => Some CALLER | 0x34 => Some CALLVALUE | 0x35 => Some CALLDATALOAD
    | 0x36 => Some CALLDATASIZE | 0x37 => Some CALLDATACOPY | 0x38 => Some CODESIZE | 0x39 => Some CODECOPY
    | 0x3a => Some GASPRICE | 0x3b => Some EXTCODESIZE | 0x3c => Some EXTCODECOPY
    | 0x3d => Some RETURNDATASIZE | 0x3e => Some RETURNDATACOPY | 0x3f => Some EXTCODEHASH
    | 0x40 => Some BLOCKHASH | 0x41 => Some COINBASE | 0x42 => Some TIMESTAMP | 0x43 => Some NUMBER
    | 0x44 => Some PREVRANDAO | 0x45 => Some GASLIMIT | 0x46 => Some CHAINID | 0x47 => Some SELFBALANCE
    | 0x48 => Some BASEFEE | 0x50 => Some POP | 0x51 => Some MLOAD | 0x52 => Some MSTORE
    | 0x53 => Some MSTORE8 | 0x54 => Some SLOAD | 0x55 => Some SSTORE | 0x56 => Some JUMP
    | 0x57 => Some JUMPI | 0x58 => Some PC | 0x59 => Some MSIZE | 0x5a => Some GAS | 0x5b => Some JUMPDEST
    | 0x5f => Some PUSH0 | 0xa0 => Some LOG0 | 0xa1 => Some LOG1 | 0xa2 => Some LOG2 | 0xa3 => Some LOG3
    | 0xa4 => Some LOG4 | 0xf0 => Some CREATE | 0xf1 => Some CALL | 0xf2 => Some CALLCODE
    | 0xf3 => Some RETURN | 0xf4 => Some DELEGATECALL | 0xf5 => Some CREATE2 | 0xfa => Some STATICCALL
    | 0xfd => Some REVERT | 0xfe => Some INVALID | 0xff => Some SELFDESTRUCT
    | _ => None
    end.

Definition static_gas (op : Opcode) : Z :=
  match op with
  | STOP | RETURN | REVERT => GAS_ZERO
  | SHA3 | LOG0 | LOG1 | LOG2 | LOG3 | LOG4 => GAS_ZERO
  | ADD | SUB | NOT | LT | GT | SLT | SGT | EQ | ISZERO | AND | OR | XOR | BYTE | SHL | SHR | SAR
  | CALLDATALOAD | CALLDATASIZE | CODESIZE | RETURNDATASIZE | ADDRESS | CALLER | CALLVALUE
  | GASPRICE | COINBASE | TIMESTAMP | NUMBER | PREVRANDAO | GASLIMIT | CHAINID | BASEFEE | MLOAD
  | MSTORE | MSTORE8 | POP | PC | MSIZE | GAS | PUSH0 | PUSH1 => GAS_VERY_LOW
  | MUL | DIV | SDIV | MOD | SMOD | SIGNEXTEND => GAS_LOW
  | ADDMOD | MULMOD | JUMP => GAS_MID
  | EXP => GAS_ZERO
  | JUMPI | BLOCKHASH => GAS_HIGH
  | JUMPDEST => GAS_JUMPDEST
  | BALANCE | SELFBALANCE => GAS_SLOAD_WARM
  | ORIGIN | EXTCODESIZE | EXTCODEHASH => GAS_SLOAD_WARM
  | SLOAD => GAS_SLOAD_WARM
  | SSTORE => 0
  | EXTCODECOPY => GAS_SLOAD_WARM
  | CODECOPY | CALLDATACOPY | RETURNDATACOPY => GAS_VERY_LOW
  | CREATE | CREATE2 => GAS_CREATE
  | CALL | CALLCODE | DELEGATECALL | STATICCALL => GAS_CALL
  | SELFDESTRUCT | INVALID => 0
  | _ => GAS_VERY_LOW
  end.
End Opcode.

(** ** State *)

Inductive ExitStatus : Type := Succeeded | Reverted | Failed (e : EvmError).

Record EVMContext : Type := mkCtx {
  caller : Address; callee : Address; value : word; calldata : bytes; gas_limit : Z; is_static : bool;
  block_number : Z; timestamp : Z; coinbase : Address; base_fee : Z; gas_price : Z; tx_origin : Address;
  chain_id : Z; randao_mix : word }.

Definition effective_chain_id (c : EVMContext) : Z := if chain_id c =? 0 then CHAIN_ID else chain_id c.

Record EvmLog : Type := mkLog { log_address : Address; topics : list word; log_data : bytes }.
Record CallFrame : Type := mkFrame {
  frame_snapshot : Z; gas_at_entry : Z; created_address : option Address }.
Inductive CallKind : Type := Call | CallCode | DelegateCall | StaticCall.

Record EVMInterpreter (H : Type) : Type := mkInterp {
  ctx : EVMContext; code : bytes; jumpdests : list Z; pc : Z; stack : Stack; memory : Memory;
  gas_remaining : Z; return_data : bytes; host : H; frames : list CallFrame;
  warm_addresses : gset Address; warm_storage : gset (Address * word); logs : list EvmLog }.
Arguments mkInterp {H}.
Arguments ctx {H} _. Arguments code {H} _. Arguments jumpdests {H} _. Arguments pc {H} _. Arguments stack {H} _.
Arguments memory {H} _. Arguments gas_remaining {H} _. Arguments return_data {H} _. Arguments host {H} _.
Arguments frames {H} _. Arguments warm_addresses {H} _. Arguments warm_storage {H} _. Arguments logs {H} _.

(** The frame's errors, and the exhaustion of the model's fuel. *)
Inductive Stop : Type := Evm (e : EvmError) | OutOfFuel.
(** A match arm either falls through to [pc += 1] or returns from [step]. *)
Inductive flow : Type := Next | Return (r : option ExitStatus).

(** [bm\[pc / 8\] |= 1 << (pc % 8)] along the instructions, PUSH data skipped. *)
Fixpoint bitmap_loop (fuel : nat) (code : bytes) (pc : Z) (bm : list Z) : list Z :=
  match fuel with
  | O => bm
  | S fuel =>
    if pc <? zlen code then
      let op := code !!! Z.to_nat pc in
      if op =? 0x5b then
        bitmap_loop fuel code (pc + 1) (alter (fun b => Z.lor b (u8 (Z.shiftl 1 (pc mod 8)))) (Z.to_nat (pc / 8)) bm)
      else if (0x60 <=? op) && (op <=? 0x7f) then bitmap_loop fuel code (pc + (1 + (op - 0x5f))) bm
      else bitmap_loop fuel code (pc + 1) bm
    else bm
  end.
Definition build_jumpdest_bitmap (code : bytes) : list Z :=
  bitmap_loop (length code) code 0 (replicate (Z.to_nat ((zlen code + 7) / 8)) 0).

Section interp.
Context {H : Type} `{Host H} `{Primitives}.
Abbreviation St := (EVMInterpreter H).
Abbreviation FM := (M St Stop).

Definition precompile_addr (i : nat) : Address := replicate 19 0 ++ [Z.of_nat i].
Definition prewarmed (c : EVMContext) : gset Address :=
  {[caller c; callee c; coinbase c]} ∪ list_to_set (map precompile_addr (seq 1 9)).

Definition interp_new (c : EVMContext) (code : bytes) (h : H) : St :=
  mkInterp c code (build_jumpdest_bitmap code) 0 stack_new [] (gas_limit c) [] h [] (prewarmed c) ∅ [].

Definition set_pc (p : Z) (s : St) : St :=
  mkInterp (ctx s) (code s) (jumpdests s) p (stack s) (memory s) (gas_remaining s) (return_data s) (host s)
    (frames s) (warm_addresses s) (warm_storage s) (logs s).
Definition set_stack (st : Stack) (s : St) : St :=
  mkInterp (ctx s) (code s) (jumpdests s) (pc s) st (memory s) (gas_remaining s) (return_data s) (host s)
    (frames s) (warm_addresses s) (warm_storage s) (logs s).
Definition set_memory (m : Memory) (s : St) : St :=
  mkInterp (ctx s) (code s) (jumpdests s) (pc s) (stack s) m (gas_remaining s) (return_data s) (host s)
    (frames s) (warm_addresses s) (warm_storage s) (logs s).
Definition set_gas (g : Z) (s : St) : St :=
  mkInterp (ctx s) (code s) (jumpdests s) (pc s) (stack s) (memory s) g (return_data s) (host s)
    (frames s) (warm_addresses s) (warm_storage s) (logs s).
Definition set_return (d : bytes) (s : St) : St :=
  mkInterp (ctx s) (code s) (jumpdests s) (pc s) (stack s) (memory s) (gas_remaining s) d (host s)
    (frames s) (warm_addresses s) (warm_storage s) (logs s).
Definition set_host (h : H) (s : St) : St :=
  mkInterp (ctx s) (code s) (jumpdests s) (pc s) (stack s) (memory s) (gas_remaining s) (return_data s) h
    (frames s) (warm_addresses s) (warm_storage s) (logs s).
Definition set_frames (f : list CallFrame) (s : St) : St :=
  mkInterp (ctx s) (code s) (jumpdests s) (pc s) (stack s) (memory s) (gas_remaining s) (return_data s) (host s)
    f (warm_addresses s) (warm_storage s) (logs s).
Definition set_warm (w : gset Address) (ws : gset (Address * word)) (s : St) : St :=
  mkInterp (ctx s) (code s) (jumpdests s) (pc s) (stack s) (memory s) (gas_remaining s) (return_data s) (host s)
    (frames s) w ws (logs s).
Definition set_logs (l : list EvmLog) (s : St) : St :=
  mkInterp (ctx s) (code s) (jumpdests s) (pc s) (stack s) (memory s) (gas_remaining s) (return_data s) (host s)
    (frames s) (warm_addresses s) (warm_storage s) l.

(** ** Access to the parts *)

Definition on_stack {A} (m : M Stack EvmError A) : FM A := fun s =>
  let '(r, st) := m (stack s) in (map_err Evm r, set_stack st s).
Definition on_memory {A} (m : M Memory EvmError A) : FM A := fun s =>
  let '(r, mem) := m (memory s) in (map_err Evm r, set_memory mem s).
Definition on_host {A} (m : M H EvmError A) : FM A := fun s =>
  let '(r, h) := m (host s) in (map_err Evm r, set_host h s).
Definition mod_host (f : H -> H) : FM unit := modify (fun s => set_host (f (host s)) s).
Definition fail {A} (e : EvmError) : FM A := throw (Evm e).
Definition fail_if (b : bool) (e : EvmError) : FM unit := throw_if b (Evm e).

Definition spop : FM word := on_stack pop.
Definition spush (w : word) : FM unit := on_stack (push w).
Definition mem_ensure (off size : Z) : FM Z := on_memory (ensure off size).
Definition mread (off size : Z) : FM bytes := s ← get_st; lift (mem_read off size (memory s)).
Definition mwrite (off : Z) (data : bytes) : FM unit := fun s =>
  match mem_write (E := Stop) off data (memory s) with
  | Ok m => (Ok tt, set_memory m s)
  | Err e => (Err e, s)
  | Panic => (Panic, s)
  end.

Definition gas_used (s : St) : Z := sat 64 (gas_limit (ctx s) - gas_remaining s).
Definition consume_gas (amount : Z) : FM unit :=
  s ← get_st;
  _ ← fail_if (gas_remaining s <? amount) OutOfGas;
  put_st (set_gas (gas_remaining s - amount) s).
Definition refund_gas (amount : Z) : FM unit :=
  modify (fun s => set_gas (sat 64 (gas_remaining s + amount)) s).

Definition pop_address : FM Address := w ← spop; mret (drop 12 w).
Definition pop_u64_capped : FM Z := w ← spop; mret (u256_to_u64 w).
(** [w\[12..\].copy_from_slice(addr)] on a zero word *)
Definition addr_word (a : Address) : word := replicate 12 0 ++ a.
Definition bool_word (b : bool) : word := u256_from_u64 (if b then 1 else 0).

Definition is_valid_jumpdest (dest : Z) (s : St) : bool :=
  (dest <? zlen (code s))
  && negb (Z.land (jumpdests s !!! Z.to_nat (dest / 8)) (Z.shiftl 1 (dest mod 8)) =? 0).

(** EIP-2929: [if !warm.contains(addr) { consume(COLD); warm.insert(addr) }] *)
Definition warm_address (a : Address) : FM unit :=
  s ← get_st;
  if bool_decide (a ∈ warm_addresses s) then mret tt
  else _ ← consume_gas GAS_COLD_ACCOUNT_ACCESS;
       modify (fun s => set_warm ({[a]} ∪ warm_addresses s) (warm_storage s) s).
Definition warm_slot (slot : Address * word) : FM unit :=
  s ← get_st;
  if bool_decide (slot ∈ warm_storage s) then mret tt
  else _ ← consume_gas (sat 64 (GAS_SLOAD_COLD - GAS_SLOAD_WARM));
       modify (fun s => set_warm (warm_addresses s) ({[slot]} ∪ warm_storage s) s).

(** [memory.ensure] and the gas it costs, in every opcode that touches memory *)
Definition expand (off size : Z) : FM unit := expand_gas ← mem_ensure off size; consume_gas expand_gas.

(** ** Arithmetic, comparison, bitwise operations and SHA3 (0x01 to 0x20) *)

Definition alu1 (f : word -> word) : FM flow := a ← spop; _ ← spush (f a); mret Next.
Definition alu2 (f : word -> word -> word) : FM flow := a ← spop; b ← spop; _ ← spush (f a b); mret Next.
Definition alu3 (f : word -> word -> word -> word) : FM flow :=
  a ← spop; b ← spop; n ← spop; _ ← spush (f a b n); mret Next.
Definition push_next (w : word) : FM flow := _ ← spush w; mret Next.

Definition exec_arith (byte : Z) (other : FM flow) : FM flow :=
  if byte =? 0x00 then mret (Return (Some Succeeded))
  else if byte =? 0x01 then alu2 u256_add
  else if byte =? 0x02 then alu2 u256_mul
  else if byte =? 0x03 then alu2 u256_sub
  else if byte =? 0x04 then alu2 u256_div
  else if byte =? 0x05 then alu2 u256_sdiv
  else if byte =? 0x06 then alu2 u256_mod
  else if byte =? 0x07 then alu2 u256_smod
  else if byte =? 0x08 then alu3 u256_addmod
  else if byte =? 0x09 then alu3 u256_mulmod
  else if byte =? 0x0a then
    base ← spop; exp ← spop;
    _ ← consume_gas (10 + 50 * u256_byte_len exp);
    r ← lift (u256_exp base exp);
    push_next r
  else if byte =? 0x0b then alu2 u256_signextend
  else if byte =? 0x10 then alu2 (fun a b => bool_word (u256_lt a b))
  else if byte =? 0x11 then alu2 (fun a b => bool_word (u256_gt a b))
  else if byte =? 0x12 then alu2 (fun a b => bool_word (u256_slt a b))
  else if byte =? 0x13 then alu2 (fun a b => bool_word (u256_sgt a b))
  else if byte =? 0x14 then alu2 (fun a b => bool_word (u256_eq a b))
  else if byte =? 0x15 then alu1 (fun a => bool_word (u256_is_zero a))
  else if byte =? 0x16 then alu2 u256_and
  else if byte =? 0x17 then alu2 u256_or
  else if byte =? 0x18 then alu2 u256_xor
  else if byte =? 0x19 then alu1 u256_not
  else if byte =? 0x1a then alu2 u256_byte
  else if byte =? 0x1b then alu2 u256_shl
  else if byte =? 0x1c then alu2 u256_shr
  else if byte =? 0x1d then alu2 u256_sar
  else if byte =? 0x20 then
    offset ← pop_u64_capped; size ← pop_u64_capped;
    _ ← expand offset size;
    _ ← consume_gas (sha3_cost size);
    data ← mread offset size;
    push_next (keccak256 data)
  else other.

(** ** Environment and block (0x30 to 0x48) *)

(** [buf\[..copy_len\].copy_from_slice(&src\[off..off + copy_len\])] into [size] zero bytes *)
Definition copy_padded (src : bytes) (off size : Z) : FM bytes :=
  let avail := sat 64 (zlen src - off) in
  let copy_len := Z.min avail size in
  chunk ← lift (slice src off (usize (off + copy_len)));
  mret (chunk ++ replicate (Z.to_nat (size - copy_len)) 0).

(** CALLDATACOPY and CODECOPY on [src s]; also the tail of EXTCODECOPY *)
Definition copy_op (dest off size : Z) (src : St -> bytes) : FM flow :=
  _ ← expand dest size;
  _ ← consume_gas (copy_cost size);
  s ← get_st;
  _ ← (if 0 <? size then buf ← copy_padded (src s) off size; mwrite dest buf else mret tt);
  mret Next.

Definition calldata_load (data : bytes) (offset : Z) : FM word :=
  let available := sat 64 (zlen data - offset) in
  let len := Z.min available 32 in
  if 0 <? len then
    d ← lift (slice data offset (offset + len)); mret (d ++ replicate (Z.to_nat (32 - len)) 0)
  else mret zero_word.

Definition exec_env (byte : Z) (other : FM flow) : FM flow :=
  s ← get_st;
  let c := ctx s in
  if byte =? 0x30 then push_next (addr_word (callee c))
  else if byte =? 0x31 then
    addr ← pop_address; _ ← warm_address addr;
    s ← get_st; push_next (balance (host s) addr)
  else if byte =? 0x32 then push_next (addr_word (tx_origin c))
  else if byte =? 0x33 then push_next (addr_word (caller c))
  else if byte =? 0x34 then push_next (value c)
  else if byte =? 0x35 then
    offset ← pop_u64_capped; w ← calldata_load (calldata c) offset; push_next w
  else if byte =? 0x36 then push_next (u256_from_u64 (zlen (calldata c)))
  else if byte =? 0x37 then
    dest ← pop_u64_capped; src ← pop_u64_capped; size ← pop_u64_capped;
    copy_op dest src size (fun s => calldata (ctx s))
  else if byte =? 0x38 then push_next (u256_from_u64 (zlen (code s)))
  else if byte =? 0x39 then
    dest ← pop_u64_capped; src ← pop_u64_capped; size ← pop_u64_capped;
    copy_op dest src size code
  else if byte =? 0x3a then push_next (u256_from_u64 (gas_price c))
  else if byte =? 0x3b then
    addr ← pop_address; _ ← warm_address addr;
    s ← get_st; push_next (u256_from_u64 (zlen (code_of (host s) addr)))
  else if byte =? 0x3c then
    addr ← pop_address; dest ← pop_u64_capped; src ← pop_u64_capped; size ← pop_u64_capped;
    _ ← warm_address addr;
    copy_op dest src size (fun s => code_of (host s) addr)
  else if byte =? 0x3f then
    addr ← pop_address; _ ← warm_address addr;
    s ← get_st;
    if host_is_empty (host s) addr then push_next zero_word else push_next (code_hash (host s) addr)
  else if byte =? 0x3d then push_next (u256_from_u64 (zlen (return_data s)))
  else if byte =? 0x3e then
    dest ← pop_u64_capped; off ← pop_u64_capped; size ← pop_u64_capped;
    end_ ← lift_opt (checked 64 (off + size)) (Evm (MemoryOutOfBounds off size));
    _ ← fail_if (zlen (return_data s) <? end_) (MemoryOutOfBounds off size);
    _ ← expand dest size;
    _ ← consume_gas (u64 (3 * (u64 (size + 31) / 32)));
    _ ← (if 0 <? size then chunk ← lift (slice (return_data s) off (off + size)); mwrite dest chunk else mret tt);
    mret Next
  else if byte =? 0x40 then
    block_num ← pop_u64_capped;
    let current := block_number c in
    push_next (if (block_num <? current) && (sat 64 (current - block_num) <=? 256)
               then block_hash (host s) block_num else zero_word)
  else if byte =? 0x41 then push_next (addr_word (coinbase c))
  else if byte =? 0x42 then push_next (u256_from_u64 (timestamp c))
  else if byte =? 0x43 then push_next (u256_from_u64 (block_number c))
  else if byte =? 0x44 then push_next (randao_mix c)
  else if byte =? 0x45 then push_next (u256_from_u64 (gas_limit c))
  else if byte =? 0x46 then push_next (u256_from_u64 (effective_chain_id c))
  else if byte =? 0x47 then push_next (balance (host s) (callee c))
  else if byte =? 0x48 then push_next (u256_from_u64 (base_fee c))
  else other.

(** ** Memory, storage and control flow (0x50 to 0x5f) *)

Definition GAS_SSTORE_DIRTY : Z := 200.

Definition sstore : FM flow :=
  s ← get_st;
  _ ← fail_if (is_static (ctx s)) StaticStateChange;
  key ← spop; value ← spop;
  s ← get_st;
  let self := callee (ctx s) in
  let current := storage_load (host s) self key in
  _ ← warm_slot (self, key);
  s ← get_st;
  _ ← (if negb (bool_decide (current = value)) then
         let original := storage_load (host s) self key in
         if bool_decide (original = current) then
           if u256_is_zero current then consume_gas GAS_SSTORE_SET else consume_gas GAS_SSTORE_RESET
         else consume_gas GAS_SSTORE_DIRTY
       else mret tt);
  _ ← mod_host (storage_store self key value);
  mret Next.

Definition jump_to (dest : Z) : FM flow :=
  s ← get_st;
  _ ← fail_if (negb (is_valid_jumpdest dest s)) (InvalidJump dest);
  _ ← modify (set_pc dest);
  mret (Return None).

Definition exec_mem (byte : Z) (other : FM flow) : FM flow :=
  s ← get_st;
  if byte =? 0x50 then _ ← spop; mret Next
  else if byte =? 0x51 then
    offset ← pop_u64_capped; _ ← expand offset 32; val ← mread offset 32; push_next val
  else if byte =? 0x52 then
    offset ← pop_u64_capped; val ← spop; _ ← expand offset 32; _ ← mwrite offset val; mret Next
  else if byte =? 0x53 then
    offset ← pop_u64_capped; val ← spop; _ ← expand offset 1;
    b ← lift (index val 31); _ ← mwrite offset [b]; mret Next
  else if byte =? 0x54 then
    key ← spop; _ ← warm_slot (callee (ctx s), key);
    s ← get_st; push_next (storage_load (host s) (callee (ctx s)) key)
  else if byte =? 0x55 then sstore
  else if byte =? 0x58 then push_next (u256_from_u64 (pc s))
  else if byte =? 0x59 then push_next (u256_from_u64 (zlen (memory s)))
  else if byte =? 0x5a then push_next (u256_from_u64 (gas_remaining s))
  else if byte =? 0x56 then dest ← pop_u64_capped; jump_to dest
  else if byte =? 0x57 then
    dest ← pop_u64_capped; cond ← spop;
    if negb (u256_is_zero cond) then jump_to dest else mret Next
  else if byte =? 0x5b then mret Next
  else if byte =? 0x5f then push_next zero_word
  else other.

(** ** PUSH, DUP, SWAP and LOG *)

Definition push_bytes (n : Z) : FM flow :=
  s ← get_st;
  let start := pc s + 1 in
  let end_ := Z.min (start + n) (zlen (code s)) in
  let available := end_ - start in
  chunk ← lift (slice (code s) start end_);
  _ ← spush (replicate (Z.to_nat (32 - n)) 0 ++ chunk ++ replicate (Z.to_nat (n - available)) 0);
  _ ← modify (fun s => set_pc (pc s + n) s);
  mret Next.

Fixpoint pop_topics (n : nat) : FM (list word) :=
  match n with
  | O => mret []
  | S n => t ← spop; ts ← pop_topics n; mret (t :: ts)
  end.

Definition log_op (topic_count : Z) : FM flow :=
  s ← get_st;
  _ ← fail_if (is_static (ctx s)) StaticStateChange;
  offset ← pop_u64_capped; size ← pop_u64_capped;
  ts ← pop_topics (Z.to_nat topic_count);
  _ ← expand offset size;
  _ ← consume_gas (log_cost size topic_count);
  data ← mread offset size;
  _ ← modify (fun s => set_logs (logs s ++ [mkLog (callee (ctx s)) ts data]) s);
  mret Next.

Definition exec_push (byte : Z) (other : FM flow) : FM flow :=
  if (0x60 <=? byte) && (byte <=? 0x7f) then push_bytes (byte - 0x5f)
  else if (0x80 <=? byte) && (byte <=? 0x8f) then _ ← on_stack (dup (byte - 0x7f)); mret Next
  else if (0x90 <=? byte) && (byte <=? 0x9f) then _ ← on_stack (swap (byte - 0x8f)); mret Next
  else if (0xa0 <=? byte) && (byte <=? 0xa4) then log_op (byte - 0xa0)
  else other.

(** ** CALL, CALLCODE, DELEGATECALL, STATICCALL *)

Definition has_value_arg (k : CallKind) : bool := match k with Call | CallCode => true | _ => false end.
Definition is_call (k : CallKind) : bool := match k with Call => true | _ => false end.

(** The closure [push_zero_with_ret]: empty result, push 0. *)
Definition push_zero_with_ret (ret_off ret_len : Z) : FM unit :=
  _ ← modify (set_return []);
  _ ← expand ret_off ret_len;
  spush (u256_from_u64 0).

Definition precompile_result (h : H) (ts : Z) (target : Address) (calldata : bytes) (forwarded : Z)
    : res EvmError (bytes * Z) :=
  let id := target !!! 19%nat in
  if id =? 0x0A then do_payid calldata forwarded (resolve_pay_id_bytes h) (reverse_pay_id h)
  else if id =? 0x0C then do_price_oracle calldata forwarded (storage_load h)
  else if id =? 0x0F then do_zusd_vault calldata forwarded (storage_load h) ts
  else call_precompile target calldata forwarded.

Definition sub_context (k : CallKind) (c : EVMContext) (target : Address) (v : word) (data : bytes) (forwarded : Z)
    : EVMContext :=
  let mk cr ce v st := mkCtx cr ce v data forwarded st (block_number c) (timestamp c) (coinbase c) (base_fee c)
                         (gas_price c) (tx_origin c) (chain_id c) (randao_mix c) in
  match k with
  | Call => mk (callee c) target v (is_static c)
  | CallCode => mk (callee c) (callee c) v (is_static c)
  | DelegateCall => mk (caller c) (callee c) (value c) (is_static c)
  | StaticCall => mk (callee c) target zero_word true
  end.

(** The sub-interpreter: the parent's host, frames and warm set; what is
    left of it when its [run] ends. *)
Definition run_sub (sub : FM ExitStatus) (c : EVMContext) (sub_code : bytes) (frame : CallFrame)
    : FM (ExitStatus * St) := fun s =>
  let s1 := set_warm (warm_addresses s) ∅ (set_frames (frames s ++ [frame]) (interp_new c sub_code (host s))) in
  let '(r, s2) := sub s1 in
  (st ← r; Ok (st, s2), set_host (host s2) s).

(** The result of a precompile that succeeded, or failed. *)
Definition precompile_exit (r : res EvmError (bytes * Z)) (snap ret_off ret_len forwarded forwarded_billed : Z) : FM unit :=
  match r with
  | Ok (output, used) =>
    _ ← mod_host (commit_snapshot snap);
    _ ← modify (set_return output);
    _ ← expand ret_off ret_len;
    let copy := Z.min ret_len (zlen output) in
    _ ← (if 0 <? copy then chunk ← lift (slice output 0 copy); mwrite ret_off chunk else mret tt);
    let unused := Z.min (sat 64 (forwarded - used)) forwarded_billed in
    _ ← refund_gas unused;
    spush (u256_from_u64 1)
  | Err _ =>
    _ ← mod_host (revert_to snap);
    push_zero_with_ret ret_off ret_len
  | Panic => lift Panic
  end.

Definition is_succeeded (st : ExitStatus) : bool := match st with Succeeded => true | _ => false end.

(** Settlement of a sub-call that has run. *)
Definition call_exit (status : ExitStatus) (s2 : St) (snap ret_off ret_len forwarded forwarded_billed : Z) : FM unit :=
  let used := gas_used s2 in
  _ ← modify (fun s => set_warm (warm_addresses s2) (warm_storage s) s);
  let success := is_succeeded status in
  _ ← (if success then
         _ ← mod_host (commit_snapshot snap);
         modify (fun s => set_logs (logs s ++ logs s2) s)
       else mod_host (revert_to snap));
  let unused := Z.min (sat 64 (forwarded - used)) forwarded_billed in
  _ ← refund_gas unused;
  let sub_return := return_data s2 in
  _ ← modify (set_return sub_return);
  _ ← expand ret_off ret_len;
  let copy := Z.min ret_len (zlen sub_return) in
  _ ← (if 0 <? copy then chunk ← lift (slice sub_return 0 copy); mwrite ret_off chunk else mret tt);
  spush (u256_from_u64 (if success then 1 else 0)).

(** The precompile, the empty account, or the code of [target] in a frame of its own. *)
Definition call_target (sub : FM ExitStatus) (sub_ctx : EVMContext) (target : Address)
    (snap ret_off ret_len forwarded_billed : Z) : FM unit :=
  s ← get_st;
  let forwarded := gas_limit sub_ctx in
  if is_precompile target then
    precompile_exit (precompile_result (host s) (timestamp sub_ctx) target (calldata sub_ctx) forwarded)
      snap ret_off ret_len forwarded forwarded_billed
  else
    match code_of (host s) target with
    | [] =>
      _ ← mod_host (commit_snapshot snap);
      _ ← modify (set_return []);
      _ ← expand ret_off ret_len;
      _ ← refund_gas forwarded_billed;
      spush (u256_from_u64 1)
    | target_code =>
      '(status, s2) ← run_sub sub sub_ctx target_code (mkFrame snap forwarded None);
      call_exit status s2 snap ret_off ret_len forwarded forwarded_billed
    end.

Definition do_call (sub : FM ExitStatus) (kind : CallKind) : FM unit :=
  s0 ← get_st;
  let c := ctx s0 in
  gas_req ← pop_u64_capped;
  target ← pop_address;
  v ← match kind with
      | Call | CallCode => spop
      | DelegateCall => mret (value c)
      | StaticCall => mret zero_word
      end;
  _ ← fail_if (has_value_arg kind && is_static c && negb (u256_is_zero v)) StaticStateChange;
  args_off ← pop_u64_capped; args_len ← pop_u64_capped;
  ret_off ← pop_u64_capped; ret_len ← pop_u64_capped;
  _ ← expand args_off args_len;
  calldata ← mread args_off args_len;
  _ ← warm_address target;
  let actually_transfers := has_value_arg kind && negb (u256_is_zero v) in
  s ← get_st;
  _ ← (if actually_transfers then
         _ ← consume_gas GAS_CALL_VALUE_TRANSFER;
         if is_call kind && host_is_empty (host s) target then consume_gas GAS_NEW_ACCOUNT else mret tt
       else mret tt);
  s ← get_st;
  if CALL_DEPTH_LIMIT <=? zlen (frames s) then push_zero_with_ret ret_off ret_len
  else
    let forwarded_billed := forward_gas_eip150 (gas_remaining s) gas_req in
    let stipend := if actually_transfers then GAS_CALL_STIPEND else 0 in
    let forwarded := sat 64 (forwarded_billed + stipend) in
    _ ← consume_gas forwarded_billed;
    s ← get_st;
    let '(snap, h) := snapshot (host s) in
    _ ← modify (set_host h);
    if (is_call kind && actually_transfers) && u256_lt (balance h (callee c)) v then
      _ ← mod_host (revert_to snap);
      _ ← refund_gas forwarded_billed;
      push_zero_with_ret ret_off ret_len
    else
      _ ← (if is_call kind && actually_transfers
           then mod_host (fun h => snd (host_transfer (callee c) target v h)) else mret tt);
      call_target sub (sub_context kind c target v calldata forwarded) target snap ret_off ret_len forwarded_billed.

(** ** CREATE and CREATE2 *)

Definition rlp_encode_u64 (n : Z) : bytes :=
  if n =? 0 then [0x80]
  else if n <? 0x80 then [n]
  else let trimmed := strip_zeros (to_be 8 n) in u8 (0x80 + zlen trimmed) :: trimmed.

Definition create_address (sender : Address) (nonce : Z) : Address :=
  let payload := 0x94 :: sender ++ rlp_encode_u64 nonce in
  drop 12 (keccak256 (u8 (0xc0 + zlen payload) :: payload)).

Definition create2_address (sender : Address) (salt : word) (initcode : bytes) : Address :=
  drop 12 (keccak256 (0xff :: sender ++ salt ++ keccak256 initcode)).

Definition push_zero : FM unit := _ ← modify (set_return []); spush zero_word.

(** After the constructor has run. *)
Definition create_exit (status : ExitStatus) (s2 : St) (new_addr : Address) (snap forwarded : Z) : FM unit :=
  let deployed_code := return_data s2 in
  _ ← modify (fun s => set_warm (warm_addresses s2) (warm_storage s) s);
  _ ← refund_gas (sat 64 (forwarded - gas_used s2));
  let reject := _ ← mod_host (revert_to snap); push_zero in
  if negb (is_succeeded status) then
    _ ← mod_host (revert_to snap);
    _ ← modify (set_return deployed_code);
    spush zero_word
  else if MAX_CONTRACT_CODE_SIZE <? zlen deployed_code then reject
  else if bool_decide (head deployed_code = Some 0xEF) then reject
  else
    let deposit_cost := u64 (GAS_CODE_DEPOSIT_PER_BYTE * zlen deployed_code) in
    s ← get_st;
    if gas_remaining s <? deposit_cost then reject
    else
      _ ← consume_gas deposit_cost;
      _ ← mod_host (set_code new_addr deployed_code);
      _ ← mod_host (commit_snapshot snap);
      _ ← modify (fun s => set_logs (logs s ++ logs s2) s);
      _ ← modify (set_return []);
      spush (addr_word new_addr).

(** Snapshot, endow, and run the constructor. *)
Definition create_at (sub : FM ExitStatus) (v : word) (new_addr : Address) (initcode : bytes) : FM unit :=
  s ← get_st;
  let c := ctx s in
  let '(snap, h) := snapshot (host s) in
  _ ← modify (set_host h);
  _ ← (if negb (u256_is_zero v) then mod_host (fun h => snd (host_transfer (callee c) new_addr v h)) else mret tt);
  _ ← on_host (inc_nonce new_addr);
  _ ← mod_host (mark_created_this_tx new_addr);
  s ← get_st;
  let forwarded := forward_gas_eip150 (gas_remaining s) (gas_remaining s) in
  _ ← consume_gas forwarded;
  let sub_ctx := mkCtx (callee c) new_addr v [] forwarded false (block_number c) (timestamp c) (coinbase c)
                   (base_fee c) (gas_price c) (tx_origin c) (chain_id c) (randao_mix c) in
  '(status, s2) ← run_sub sub sub_ctx initcode (mkFrame snap forwarded (Some new_addr));
  create_exit status s2 new_addr snap forwarded.

Definition do_create (sub : FM ExitStatus) (with_salt : bool) : FM unit :=
  s0 ← get_st;
  let c := ctx s0 in
  _ ← fail_if (is_static c) StaticStateChange;
  v ← spop;
  off ← pop_u64_capped;
  len ← pop_u64_capped;
  salt_opt ← (if with_salt then w ← spop; mret (Some w) else mret None);
  _ ← fail_if (MAX_INITCODE_SIZE <? len) (InitcodeOversize len);
  _ ← expand off len;
  let initcode_words := u64 (len + 31) / 32 in
  _ ← consume_gas (u64 (GAS_INITCODE_WORD * initcode_words));
  _ ← (if with_salt then consume_gas (u64 (6 * initcode_words)) else mret tt);
  initcode ← mread off len;
  s ← get_st;
  if CALL_DEPTH_LIMIT <=? zlen (frames s) then push_zero
  else if u256_lt (balance (host s) (callee c)) v then push_zero
  else
    let new_addr := match salt_opt with
                    | Some salt => create2_address (callee c) salt initcode
                    | None => create_address (callee c) (nonce (host s) (callee c))
                    end in
    _ ← on_host (inc_nonce (callee c));
    s ← get_st;
    if (0 <? nonce (host s) new_addr) || negb (bool_decide (code_of (host s) new_addr = [])) then push_zero
    else
      create_at sub v new_addr initcode.

(** ** RETURN, REVERT, SELFDESTRUCT and the loop *)

Definition return_op (st : ExitStatus) : FM flow :=
  offset ← pop_u64_capped; size ← pop_u64_capped;
  _ ← fail_if (MAX_RETURN_DATA <? size) (MemoryOutOfBounds offset size);
  _ ← expand offset size;
  data ← mread offset size;
  _ ← modify (set_return data);
  mret (Return (Some st)).

Definition selfdestruct : FM flow :=
  s ← get_st;
  _ ← fail_if (is_static (ctx s)) StaticStateChange;
  beneficiary ← pop_address;
  _ ← consume_gas GAS_SELFDESTRUCT;
  _ ← warm_address beneficiary;
  _ ← mod_host (destruct_account (callee (ctx s)) beneficiary);
  mret (Return (Some Succeeded)).

Definition exec_system (sub : FM ExitStatus) (byte : Z) : FM flow :=
  if byte =? 0xf0 then _ ← do_create sub false; mret Next
  else if byte =? 0xf1 then _ ← do_call sub Call; mret Next
  else if byte =? 0xf2 then _ ← do_call sub CallCode; mret Next
  else if byte =? 0xf3 then return_op Succeeded
  else if byte =? 0xf4 then _ ← do_call sub DelegateCall; mret Next
  else if byte =? 0xf5 then _ ← do_create sub true; mret Next
  else if byte =? 0xfa then _ ← do_call sub StaticCall; mret Next
  else if byte =? 0xfd then return_op Reverted
  else if byte =? 0xfe then fail (InvalidOpcode 0xfe)
  else if byte =? 0xff then selfdestruct
  else fail (InvalidOpcode byte).

Definition dispatch (sub : FM ExitStatus) (byte : Z) : FM flow :=
  exec_arith byte (exec_env byte (exec_mem byte (exec_push byte (exec_system sub byte)))).

Definition step (sub : FM ExitStatus) : FM (option ExitStatus) :=
  s ← get_st;
  if zlen (code s) <=? pc s then mret (Some Succeeded)
  else
    byte ← lift (index (code s) (pc s));
    match Opcode.from_u8 byte with
    | None => fail (InvalidOpcode byte)
    | Some op =>
      _ ← consume_gas (Opcode.static_gas op);
      r ← dispatch sub byte;
      match r with
      | Next => _ ← modify (fun s => set_pc (pc s + 1) s); mret None
      | Return st => mret st
      end
    end.

Fixpoint run (fuel : nat) : FM ExitStatus := fun s =>
  match fuel with
  | O => (Err OutOfFuel, s)
  | S fuel =>
    match step (run fuel) s with
    | (Ok (Some status), s) => (Ok status, s)
    | (Ok None, s) => run fuel s
    | (Err (Evm e), s) => (Ok (Failed e), s)
    | (Err OutOfFuel, s) => (Err OutOfFuel, s)
    | (Panic, s) => (Panic, s)
    end
  end.

(** The outcome of executing [code] in context [c] on host [h]. *)
Definition execute (fuel : nat) (c : EVMContext) (code : bytes) (h : H) : res Stop ExitStatus * St :=
  run fuel (interp_new c code h).
End interp.
