(* ===== verification/EvmMock.v ===== *)
(** * The in-memory host implements the interface (crates/zbx-evm/src/host.rs)

    [MockHost] as an instance of [Host], and of [HostLaws]: nested snapshots
    restore exactly the accounts and the created set they were taken in. *)

From Stdlib Require Import ZArith Lia String.
From stdpp Require Import base tactics list gmap sets numbers option fin_maps.
From S2P Require Import Prelude Bytes U256 EvmMachine EvmHost NativeReads EvmPrecompiles.

Local Open Scope Z_scope.

Section mock.
Context `{Primitives}.

Definition mock_resolve (h : MockHost) (name : bytes) : option Address :=
  if negb (validate_payid_name name) then None
  else
    let word := mock_storage_load h PAYID_REGISTRAR_ADDR (payid_forward_slot name) in
    if forallb (fun b => b =? 0) word then None else Some (drop 12 word).

(** [iter().position(|&b| b == 0).unwrap_or(32)] *)
Fixpoint position_zero (w : word) : nat :=
  match w with
  | [] => 0
  | b :: w => if b =? 0 then 0 else S (position_zero w)
  end.

Definition mock_reverse (h : MockHost) (addr : Address) : option bytes :=
  let word := mock_storage_load h PAYID_REGISTRAR_ADDR (payid_reverse_slot addr) in
  if forallb (fun b => b =? 0) word then None else Some (take (position_zero word) word).

#[export] Instance mock_host : Host MockHost := {
  balance := mock_balance; nonce := mock_nonce; code_of := mock_code; code_hash := mock_code_hash keccak256;
  storage_load := mock_storage_load; storage_store := mock_storage_store;
  set_code a c := install_code a c; inc_nonce := mock_inc_nonce; host_transfer := mock_transfer;
  host_is_empty := mock_is_empty; destruct_account := mock_destruct; mark_created_this_tx := mock_mark_created;
  was_created_this_tx := mock_was_created; snapshot := mock_snapshot; revert_to := mock_revert_to;
  commit_snapshot := mock_commit; block_hash := mock_block_hash; resolve_pay_id_bytes := mock_resolve;
  reverse_pay_id := mock_reverse }.

(** ** Snapshots *)

Definition mock_world (h : MockHost) : gmap Address MockAccount * gset Address := (accounts h, created_this_tx h).
Definition snap_entry (s : MockSnapshot) : Z * (gmap Address MockAccount * gset Address) :=
  (s_id s, (s_accounts s, s_created s)).
(** Innermost first: the code pushes at the end of the vector. *)
Definition mock_open (h : MockHost) : list (Z * (gmap Address MockAccount * gset Address)) :=
  rev (map snap_entry (snapshots h)).

(** The snapshot opened last is the one [rposition] finds. *)
Lemma rposition_last id l s : s_id s = id -> rposition id (l ++ [s]) = Some (length l).
Proof.
  intros Hs. induction l as [|x l IH]; simpl; [by rewrite (proj2 (Z.eqb_eq _ _))|]. by rewrite IH.
Qed.

Lemma delete_last {A} (l : list A) x : delete (length l) (l ++ [x]) = l.
Proof. induction l as [|y l IH]; [done|]. simpl. f_equal. exact IH. Qed.

Lemma open_last h e rest : mock_open h = e :: rest ->
  exists l s, snapshots h = l ++ [s] /\ snap_entry s = e /\ rest = rev (map snap_entry l).
Proof.
  unfold mock_open. destruct (snapshots h) as [|s l _] using rev_ind; [done|].
  rewrite map_app, rev_app_distr. intros [= <- <-]. by exists l, s.
Qed.

Lemma mock_revert_top id h w rest : mock_open h = (id, w) :: rest ->
  mock_world (mock_revert_to id h) = w /\ mock_open (mock_revert_to id h) = rest.
Proof.
  intros (l & s & Hs & [= <- <-] & ->)%open_last. unfold mock_revert_to.
  rewrite Hs, rposition_last by done. rewrite lookup_app_r, Nat.sub_diag by done. cbn [lookup list_lookup].
  rewrite delete_last, take_ge by done. done.
Qed.

Lemma mock_commit_top id h w rest : mock_open h = (id, w) :: rest ->
  mock_world (mock_commit id h) = mock_world h /\ mock_open (mock_commit id h) = rest.
Proof.
  intros (l & s & Hs & [= <- <-] & ->)%open_last. unfold mock_commit.
  rewrite Hs, rposition_last by done. rewrite delete_last. done.
Qed.

(** ** Types *)

Definition account_ok (e : MockAccount) : Prop :=
  word_ok (m_balance e) /\ in_range 64 (m_nonce e) /\ code_ok (m_code e) /\ (forall k v, m_storage e !! k = Some v -> word_ok v).
Definition accounts_ok (m : gmap Address MockAccount) : Prop := forall a e, m !! a = Some e -> account_ok e.
Definition mock_ok (h : MockHost) : Prop :=
  accounts_ok (accounts h) /\ (forall s, s ∈ snapshots h -> accounts_ok (s_accounts s)) /\
  (forall n w, block_hashes h !! n = Some w -> word_ok w).

Lemma mock_new_ok : mock_ok mock_new.
Proof.
  split_and!; [intros a e Ha|intros s Hs|intros n w Hw]; [by destruct (lookup_empty_Some (M:=gmap Address) a e)|by apply elem_of_nil in Hs|by destruct (lookup_empty_Some (M:=gmap Z) n w)].
Qed.

Lemma default_ok : account_ok default_account.
Proof.
  split_and!; [apply zero_word_ok|unfold in_range; simpl; lia|by apply (zeros_ok 0)|].
  intros k v. cbn. by rewrite lookup_empty.
Qed.

Lemma entry_ok h a : accounts_ok (accounts h) -> account_ok (default default_account (accounts h !! a)).
Proof. intros Hm. destruct (accounts h !! a) eqn:He; [by eapply Hm|apply default_ok]. Qed.

Lemma with_account_ok h a f : mock_ok h -> (forall e, account_ok e -> account_ok (f e)) -> mock_ok (with_account a f h).
Proof.
  intros (Hm & Hs & Hb) Hf. split_and!; [|done|done]. cbn. intros b e.
  destruct (decide (a = b)) as [->|Hne].
  - rewrite lookup_insert_eq. intros [= <-]. by apply Hf, entry_ok.
  - rewrite lookup_insert_ne by done. apply Hm.
Qed.

Lemma digits_ok (step : Z * Z -> Z * word -> Z * word) :
  (forall xy st, Forall Bytes.byte (snd st) -> Forall Bytes.byte (snd (step xy st)) /\ length (snd (step xy st)) = S (length (snd st))) ->
  forall l, Forall Bytes.byte (snd (foldr step (0, []) l)) /\ length (snd (foldr step (0, []) l)) = length l.
Proof.
  intros Hstep l. induction l as [|xy l [IH1 IH2]]; [done|]. cbn [foldr].
  destruct (Hstep xy _ IH1) as [H1 H2]. split; [done|]. by rewrite H2, IH2.
Qed.

Lemma host_add_ok a b : word_ok a -> word_ok b -> word_ok (host_u256_add a b).
Proof.
  intros [Ha _] [Hb _]. destruct (digits_ok host_add_step ltac:(intros xy st Hs; split; [constructor; [apply byte_u8|done]|done]) (zip a b)) as [H1 H2].
  split; [|done]. unfold host_u256_add. rewrite H2, length_zip. lia.
Qed.

Lemma host_sub_ok a b : word_ok a -> word_ok b -> word_ok (host_u256_sub a b).
Proof.
  intros [Ha _] [Hb _]. destruct (digits_ok host_sub_step ltac:(intros xy st Hs; split; [constructor; [apply byte_u8|done]|done]) (zip a b)) as [H1 H2].
  split; [|done]. unfold host_u256_sub. rewrite H2, length_zip. lia.
Qed.

Lemma mock_balance_ok h a : mock_ok h -> word_ok (mock_balance h a).
Proof.
  intros (Hm & _). unfold mock_balance. destruct (accounts h !! a) eqn:He; [by apply (Hm _ _ He)|apply zero_word_ok].
Qed.
Lemma mock_storage_ok h a k : mock_ok h -> word_ok (mock_storage_load h a k).
Proof.
  intros (Hm & _). unfold mock_storage_load. destruct (accounts h !! a) as [e|] eqn:He; [|apply zero_word_ok].
  destruct (m_storage e !! k) as [v|] eqn:Hk; [by eapply (Hm _ _ He)|apply zero_word_ok].
Qed.

Lemma set_balance_ok h a v : mock_ok h -> word_ok v -> mock_ok (set_balance a v h).
Proof. intros Hh Hv. apply with_account_ok; [done|]. intros e (_ & H2 & H3 & H4). by split_and!. Qed.

Lemma mock_transfer_ok h a b v : mock_ok h -> word_ok v -> mock_ok (snd (mock_transfer a b v h)).
Proof.
  intros Hh Hv. unfold mock_transfer, get_st, throw_if, modify, mbind, M_bind, mret, M_ret. case_match; [done|].
  destruct (u256_lt _ _); [done|]. cbn [snd].
  apply set_balance_ok; [apply set_balance_ok; [done|]|]; [apply host_sub_ok|apply host_add_ok]; try done; by apply mock_balance_ok.
Qed.

Lemma set_balance_nonce a v h c : mock_nonce (set_balance a v h) c = mock_nonce h c.
Proof.
  unfold mock_nonce. cbn. destruct (decide (a = c)) as [->|]; [|by rewrite lookup_insert_ne].
  rewrite lookup_insert_eq. by destruct (accounts h !! c).
Qed.

Lemma mock_transfer_nonce h a b v c : mock_nonce (snd (mock_transfer a b v h)) c = mock_nonce h c.
Proof.
  unfold mock_transfer, get_st, throw_if, modify, mbind, M_bind, mret, M_ret. case_match; [done|].
  destruct (u256_lt _ _); [done|]. cbn [snd]. by rewrite !set_balance_nonce.
Qed.

Lemma mock_destruct_ok h a b : mock_ok h -> mock_ok (mock_destruct a b h).
Proof.
  intros Hh. unfold mock_destruct. cbv zeta. set (h1 := if _ && _ then _ else h).
  assert (H1 : mock_ok h1) by (unfold h1; case_match; [apply mock_transfer_ok; [done|by apply mock_balance_ok]|done]).
  case_match; [|done]. case_match; [|done]. apply with_account_ok; [done|]. intros. apply default_ok.
Qed.

Lemma mock_inc_nonce_ok h a : mock_ok h -> mock_ok (snd (mock_inc_nonce a h)).
Proof.
  intros Hh. unfold mock_inc_nonce. cbv zeta. destruct (checked 64 _) as [n|] eqn:Hc; cbn [snd].
  - apply checked_Some in Hc as [-> Hr]. apply with_account_ok; [done|]. intros e (H1 & _ & H3 & H4). by split_and!.
  - by apply with_account_ok.
Qed.

Lemma mock_snapshot_ok h : mock_ok h -> mock_ok (snd (mock_snapshot h)).
Proof.
  intros (Hm & Hs & Hb). split_and!; [done| |done]. intros s Hin. apply elem_of_app in Hin as [Hin|Hin]; [by apply Hs|].
  apply list_elem_of_singleton in Hin as ->. done.
Qed.

Lemma in_take {A} (l : list A) n x : x ∈ take n l -> x ∈ l.
Proof. intros Hx. rewrite <-(take_drop n l). apply elem_of_app. by left. Qed.

Lemma in_delete {A} (l : list A) i x : x ∈ delete i l -> x ∈ l.
Proof.
  rewrite list.delete_take_drop. intros [Hx|Hx]%elem_of_app; [by eapply in_take|].
  rewrite <-(take_drop (S i) l). apply elem_of_app. by right.
Qed.

Lemma mock_revert_ok h id : mock_ok h -> mock_ok (mock_revert_to id h).
Proof.
  intros Hh. pose proof Hh as (Hm & Hs & Hb). unfold mock_revert_to.
  destruct (rposition _ _) as [pos|]; [|done]. destruct (snapshots h !! pos) as [snap|] eqn:He; [|done].
  split_and!; [|intros s Hin|done].
  - apply Hs. by eapply list_elem_of_lookup_2.
  - apply Hs. by eapply in_delete, in_take.
Qed.

Lemma mock_commit_ok h id : mock_ok h -> mock_ok (mock_commit id h).
Proof.
  intros (Hm & Hs & Hb). unfold mock_commit. case_match; [|done]. split_and!; [done| |done].
  intros s Hin. apply Hs. by eapply in_delete.
Qed.

Lemma mock_resolve_ok h n a : mock_ok h -> mock_resolve h n = Some a -> addr_ok a.
Proof.
  intros Hh. unfold mock_resolve. case_match; [done|]. case_match; [done|]. intros [= <-].
  destruct (mock_storage_ok h PAYID_REGISTRAR_ADDR (payid_forward_slot n) Hh) as [Hl Hb].
  split; [by rewrite length_drop, Hl|by apply Forall_drop].
Qed.

Lemma mock_reverse_ok h a n : mock_ok h -> mock_reverse h a = Some n -> code_ok n /\ zlen n <= 32.
Proof.
  intros Hh. unfold mock_reverse. cbv zeta. case_match; [done|]. intros [= <-].
  destruct (mock_storage_ok h PAYID_REGISTRAR_ADDR (payid_reverse_slot a) Hh) as [Hl Hb].
  unfold code_ok, zlen. rewrite length_take, Hl. split_and!; [by apply Forall_take|lia|lia].
Qed.

#[export] Instance mock_laws `{!PrimitivesLaws} : HostLaws MockHost.
Proof.
  refine {| world := mock_world; open_snaps := mock_open; host_ok := mock_ok |}.
  - intros h1 h2 a k [= Ha Hc]. cbn. unfold mock_balance, mock_nonce, mock_code, mock_storage_load. by rewrite Ha.
  - done.
  - intros h. cbn. unfold mock_open. cbn [mock_snapshot snd snapshots]. by rewrite map_app, rev_app_distr.
  - intros h id w rest. apply mock_revert_top.
  - intros h id w rest. apply mock_commit_top.
  - done.
  - done.
  - intros h a. cbn. unfold mock_inc_nonce. cbv zeta. by destruct (checked 64 _).
  - intros h a b v. cbn. unfold mock_transfer, get_st, throw_if, modify, mbind, M_bind, mret, M_ret.
    case_match; [done|]. by destruct (u256_lt _ _).
  - intros h a b. cbn. unfold mock_destruct, mock_transfer, get_st, throw_if, modify, mbind, M_bind, mret, M_ret.
    repeat case_match; try done; repeat (case_match; simplify_eq); done.
  - done.
  - intros h a. cbn. unfold mock_inc_nonce, mock_nonce. intros Hn.
    destruct (accounts h !! a) as [e|]; simpl in *; [|done]. by rewrite Hn.
  - intros h a b v c. cbn. apply mock_transfer_nonce.
  - intros h a. cbn. unfold mock_inc_nonce, no_panic. by destruct (checked 64 _).
  - intros h a b v. cbn. unfold mock_transfer, get_st, throw_if, modify, mbind, M_bind, mret, M_ret, no_panic.
    case_match; [done|]. by destruct (u256_lt _ _).
  - intros h a k n Hh. cbn. pose proof Hh as (Hm & Hs & Hb).
    split_and!; [by apply mock_balance_ok|unfold mock_nonce|unfold mock_code|unfold mock_code_hash|by apply mock_storage_ok|].
    + destruct (accounts h !! a) eqn:He; [by apply (Hm _ _ He)|unfold in_range; lia].
    + destruct (accounts h !! a) eqn:He; [by apply (Hm _ _ He)|by apply (zeros_ok 0)].
    + case_match; [apply zero_word_ok|apply keccak_ok].
    + unfold mock_block_hash. destruct (block_hashes h !! n) eqn:He; [by eapply Hb|apply zero_word_ok].
  - intros h n a. apply mock_resolve_ok.
  - intros h a n. apply mock_reverse_ok.
  - intros h a k v Hh Hv. apply with_account_ok; [done|]. intros e (H1 & H2 & H3 & H4). split_and!; [done..|].
    intros k' v'. cbn. destruct (decide (k' = k)) as [->|]; [rewrite lookup_insert_eq; by intros [= <-]|].
    rewrite lookup_insert_ne by done. apply H4.
  - intros h a c Hh Hc. apply with_account_ok; [done|]. intros e (H1 & H2 & _ & H4). by split_and!.
  - intros h a. apply mock_inc_nonce_ok.
  - intros h a b v. apply mock_transfer_ok.
  - intros h a b. apply mock_destruct_ok.
  - intros h a Hh. done.
  - intros h. apply mock_snapshot_ok.
  - intros h id. apply mock_revert_ok.
  - intros h id. apply mock_commit_ok.
Defined.
End mock.
