(* ===== verification/EvmLogic.v ===== *)
(** * A program logic for the interpreter's methods

    [wp m Q E s] is the outcome of the method [m] on state [s]: [Q] of its
    result, [E] of the state it leaves with an error, and the section's [pan]
    and [oof] when it panics or exhausts the model's fuel.  [Inv] is what holds
    of one frame while it runs; the lemmas here are the rules of the
    primitives, one per access to the stack, the memory, the gas and the host. *)

From Stdlib Require Import ZArith Lia String.
From stdpp Require Import base tactics list gmap sets numbers option.
From S2P Require Import Prelude Bytes U256 U256Ops EvmMachine EvmHost NativeReads EvmPrecompiles EvmInterp.

Local Open Scope Z_scope.

(** ** Every operation on words yields a word *)

Definition closed1 (f : word -> word) : Prop := forall a, word_ok a -> word_ok (f a).
Definition closed2 (f : word -> word -> word) : Prop := forall a b, word_ok a -> word_ok b -> word_ok (f a b).
Definition closed3 (f : word -> word -> word -> word) : Prop :=
  forall a b c, word_ok a -> word_ok b -> word_ok c -> word_ok (f a b c).

Lemma foldl_ok {A} (f : word -> A -> word) l acc :
  (forall acc x, word_ok acc -> word_ok (f acc x)) -> word_ok acc -> word_ok (fold_left f l acc).
Proof. intros Hf. revert acc. induction l as [|x l IH]; intros acc Ha; [done|]. apply IH. by apply Hf. Qed.

Lemma bit_at_byte a k : byte (bit_at a k).
Proof.
  unfold bit_at. rewrite (Z.land_ones _ 1) by lia. pose proof (Z.mod_pos_bound (Z.shiftr (byte_at a (k / 8)) (7 - k mod 8)) (2 ^ 1)).
  unfold byte. lia.
Qed.

Lemma rem_step_word n r bit : word_ok n -> word_ok r -> byte bit -> word_ok (rem_step n r bit).
Proof.
  intros Hn Hr Hb. assert (Hs : word_ok (rem_shift r bit)) by (apply alter_or_ok; [by apply shl_one_ok|done]).
  unfold rem_step. cbv zeta. destruct (negb _); [|done]. by apply sub_ok.
Qed.

Lemma mod_loop_word a n r : word_ok n -> word_ok r -> word_ok (mod_loop a n r).
Proof. intros Hn Hr. apply foldl_ok; [|done]. intros acc k Hacc. apply rem_step_word; [done..|]. apply bit_at_byte. Qed.

Lemma addmod_word : closed3 u256_addmod.
Proof.
  intros a b n Ha Hb Hn. unfold u256_addmod. destruct (u256_is_zero n); [apply zero_word_ok|].
  pose proof (add_carry_spec a b ltac:(by rewrite (proj1 Ha), (proj1 Hb)) (proj2 Ha) (proj2 Hb)) as Hs.
  destruct (u256_add_carry a b) as [c sum]. destruct Hs as (_ & Hl & Hf & _).
  assert (Hsum : word_ok sum) by (split; [by rewrite Hl, (proj1 Ha)|done]).
  destruct (c =? 1); [|by apply mod_ok]. apply mod_loop_word; [done|]. apply rem_step_word; [done|apply zero_word_ok|].
  unfold byte. lia.
Qed.

Lemma mulmod_word : closed3 u256_mulmod.
Proof.
  intros a b n Ha Hb Hn. unfold u256_mulmod. destruct (u256_is_zero n); [apply zero_word_ok|].
  apply foldl_ok; [|apply zero_word_ok]. intros acc k Hacc. unfold mulmod_step.
  destruct (_ =? 1); repeat apply addmod_word; done.
Qed.

Lemma signextend_word : closed2 u256_signextend.
Proof.
  intros b x Hb Hx. destruct (Z.ltb_spec (u256_to_u64 b) 31) as [Hlt|Hge]; [by apply signextend_ok|].
  unfold u256_signextend. by rewrite (proj2 (Z.leb_le _ _)).
Qed.

Lemma bitwise_word f : (forall x y, byte x -> byte y -> byte (f x y)) -> closed2 (zip_with f).
Proof.
  intros Hf a b Ha Hb. split; [by apply zip_with_length|]. destruct Ha as [_ Ha], Hb as [_ Hb]. revert b Hb.
  induction Ha; intros b Hb; [constructor|]. destruct Hb; constructor; [by apply Hf|]. by apply IHHa.
Qed.

Lemma exp_word {E} a b : word_ok a -> word_ok b -> exists w, @u256_exp E a b = Ok w /\ word_ok w.
Proof.
  intros Ha Hb. unfold u256_exp. destruct (u256_is_zero b) eqn:Hz; [eexists; split; [done|apply from_u64_ok]|].
  destruct (@exp_loop_ok E 256 (u256_from_u64 1) a b (from_u64_ok 1) Ha Hb) as (w & -> & Hw & _); [|by eauto].
  exact (proj2 (word_bound b Hb)).
Qed.

Lemma bool_word_ok b : word_ok (bool_word b).
Proof. apply from_u64_ok. Qed.

Lemma byte_len_range a : word_ok a -> 0 <= u256_byte_len a <= 32.
Proof.
  intros [Hl _]. unfold u256_byte_len. replace 32 with (Z.of_nat (length a)) by (rewrite Hl; done). clear Hl.
  induction a as [|x a IH]; [done|]. simpl byte_len_from. simpl length. destruct (negb _); [lia|].
  replace (Z.of_nat (S (length a)) - 1) with (Z.of_nat (length a)) by lia. lia.
Qed.

Lemma to_u64_range a : word_ok a -> in_range 64 (u256_to_u64 a).
Proof. intros Ha. rewrite to_u64_val by done. by apply Z.mod_pos_bound. Qed.

Lemma word_addr_ok w : word_ok w -> addr_ok (drop 12 w).
Proof. intros [Hl Hb]. split; [by rewrite length_drop, Hl|by apply Forall_drop]. Qed.

(** ** Memory stays bytes *)

Lemma resize_bytes n l : Forall byte l -> Forall byte (resize n l).
Proof. intros Hl. apply Forall_app. split; [by apply Forall_take|]. apply bytes_replicate. unfold byte. lia. Qed.

Lemma slice_Ok_bytes {E} l a b out : Forall byte l -> @slice _ E l a b = Ok out -> Forall byte out /\ zlen out <= zlen l.
Proof.
  intros Hl Hs. unfold slice in Hs. case_match; [|done]. injection Hs as <-. split; [by apply Forall_take, Forall_drop|].
  unfold zlen. rewrite length_take, length_drop. lia.
Qed.

(** The memory in use: bytes, whole words, within the cap. *)
Definition memory_ok (m : Memory) : Prop := mem_ok m /\ Forall byte m.

Lemma ensure_memory off sz m : memory_ok m -> 0 <= off -> 0 <= sz ->
  (exists m' gas, ensure off sz m = (Ok gas, m') /\ memory_ok m' /\ (0 < sz -> off + sz <= zlen m') /\ 0 <= gas) \/
  (exists e, ensure off sz m = (Err e, m)).
Proof.
  intros [Hm Hb] Ho Hs. destruct (Z.eq_dec sz 0) as [->|Hne].
  { left. exists m, 0. split; [done|]. split; [done|]. split; [lia|done]. }
  destruct (ensure_spec off sz m Hm Ho ltac:(lia)) as [(_ & m' & gas & He & Hm' & Hl & _ & Hg & _)|(_ & He)]; [left|right; eauto].
  exists m', gas. split; [done|]. split; [split; [done|]|split; [done|]].
  - unfold ensure, get_st, lift_opt, throw_if, put_st, mbind, M_bind, mret, M_ret in He.
    break_in He; simplify_eq; try done; by apply resize_bytes.
  - rewrite Hg. unfold memory_expansion_cost. destruct (_ <? _); [unfold umax; lia|].
    by destruct (sat_range 128 (word_cost (words_of m') - word_cost (words_of m)) ltac:(lia)).
Qed.

Lemma mem_read_memory {E} off sz m : memory_ok m -> 0 <= off -> 0 <= sz < 2 ^ 63 -> (0 < sz -> off + sz <= zlen m) ->
  exists d, @mem_read E off sz m = Ok d /\ zlen d = sz /\ Forall byte d.
Proof.
  intros [Hm Hb] Ho Hs Hin. destruct (Z.eq_dec sz 0) as [->|Hne].
  - unfold mem_read. destruct (Z.leb_spec (zlen m) off); [by exists []|].
    rewrite wrap_small by (unfold in_range; destruct Hm as [_ Hc]; unfold MAX_MEMORY in Hc; lia).
    rewrite Z.min_l, slice_Ok by lia. cbn [mbind res_bind]. change (2 ^ 63 <=? 0) with false. eexists. split; [done|].
    replace (Z.to_nat (off + 0 - off)) with 0%nat by lia. by rewrite take_0.
  - destruct (@mem_read_spec E off sz m Ho ltac:(lia) ltac:(lia) (proj2 Hm)) as (d & Hd & Hl & _).
    exists d. split; [done|]. split; [done|]. unfold mem_read in Hd. destruct (Z.leb_spec (zlen m) off); [lia|].
    destruct (slice m off _) as [out| |] eqn:Hsl; try done. cbn [mbind res_bind] in Hd. case_match; [done|].
    injection Hd as <-. apply resize_bytes. by eapply slice_Ok_bytes.
Qed.

Lemma mem_write_memory {E} off d m : memory_ok m -> Forall byte d -> 0 <= off -> (0 < zlen d -> off + zlen d <= zlen m) ->
  exists m', @mem_write E off d m = Ok m' /\ memory_ok m'.
Proof.
  intros [Hm Hb] Hd Ho Hin. destruct (Z.eq_dec (zlen d) 0) as [Hz|Hne].
  { exists m. destruct d; [done|]. by rewrite zlen_cons in Hz; pose proof (zlen_nonneg d); lia. }
  pose proof (zlen_nonneg d). destruct (@mem_write_spec E off d m Ho ltac:(lia) (proj2 Hm)) as (m' & Hw & Hl & _).
  exists m'. split; [done|]. split; [unfold mem_ok; by rewrite Hl|]. unfold mem_write in Hw. destruct d as [|x d]; [done|].
  destruct (_ <? _); [done|]. injection Hw as <-. change (x :: d ++ ?l) with ((x :: d) ++ l). rewrite !Forall_app.
  split_and!; [apply Forall_take|done|apply Forall_drop]; (destruct (_ <? _); [by apply resize_bytes|done]).
Qed.

(** ** Weakest preconditions *)

Section wp.
Context {H : Type} (pan oof : Prop).
Abbreviation St := (EVMInterpreter H).
Abbreviation FM := (M St Stop).

Definition wp {A} (m : FM A) (Q : A -> St -> Prop) (E : St -> Prop) (s : St) : Prop :=
  match m s with
  | (Ok a, s') => Q a s'
  | (Err (Evm _), s') => E s'
  | (Err OutOfFuel, _) => oof
  | (Panic, _) => pan
  end.

Lemma wp_bind {A B} (m : FM A) (k : A -> FM B) Q E s :
  wp m (fun a s' => wp (k a) Q E s') E s -> wp (a ← m; k a) Q E s.
Proof. unfold wp, mbind, M_bind. by destruct (m s) as [[a|[e|]|] s']. Qed.

Lemma wp_ret {A} (a : A) Q E s : Q a s -> wp (mret a) Q E s.
Proof. done. Qed.
Lemma wp_get Q E s : Q s s -> wp get_st Q E s.
Proof. done. Qed.
Lemma wp_modify f Q E s : Q tt (f s) -> wp (modify f) Q E s.
Proof. done. Qed.
Lemma wp_lift {A} (r : res Stop A) Q E s :
  match r with Ok a => Q a s | Err (Evm _) => E s | Err OutOfFuel => oof | Panic => pan end -> wp (lift r) Q E s.
Proof. done. Qed.
Lemma wp_fail_if b e Q E s : E s -> (b = false -> Q tt s) -> wp (fail_if b e) Q E s.
Proof. intros He Hq. unfold wp, fail_if, throw_if. destruct b; [done|by apply Hq]. Qed.
Lemma wp_fail {A} e (Q : A -> St -> Prop) E s : E s -> wp (fail e) Q E s.
Proof. done. Qed.
Lemma wp_lift_opt {A} (o : option A) e Q (E : St -> Prop) s :
  E s -> (forall a, o = Some a -> Q a s) -> wp (lift_opt o (Evm e)) Q E s.
Proof. intros He Hq. unfold wp, lift_opt, ok_or. destruct o; [by apply Hq|done]. Qed.
Lemma wp_if {A} (b : bool) (m1 m2 : FM A) Q E s :
  (b = true -> wp m1 Q E s) -> (b = false -> wp m2 Q E s) -> wp (if b then m1 else m2) Q E s.
Proof. destruct b; auto. Qed.
Lemma wp_mono {A} (m : FM A) (Q Q' : A -> St -> Prop) (E E' : St -> Prop) s :
  wp m Q E s -> (forall a s', Q a s' -> Q' a s') -> (forall s', E s' -> E' s') -> wp m Q' E' s.
Proof. unfold wp. destruct (m s) as [[a|[e|]|] s']; auto. Qed.
End wp.
Arguments wp {H} pan oof {A} m Q E s.

(** [wp_step] goes one action into a method. *)
Ltac wp_step :=
  match goal with
  | |- wp _ _ (_ ← get_st; _) _ _ _ => apply wp_bind, wp_get
  | |- wp _ _ (_ ← modify _; _) _ _ _ => apply wp_bind, wp_modify
  | |- wp _ _ (_ ← mret _; _) _ _ _ => apply wp_bind, wp_ret
  | |- wp _ _ (_ ← _; _) _ _ _ => apply wp_bind
  | |- wp _ _ (mret _) _ _ _ => apply wp_ret
  | |- wp _ _ (modify _) _ _ _ => apply wp_modify
  end; cbv beta.

(** ** The state of one frame *)

Definition ctx_ok (c : EVMContext) : Prop :=
  (addr_ok (caller c) /\ addr_ok (callee c) /\ addr_ok (coinbase c) /\ addr_ok (tx_origin c)) /\
  (word_ok (value c) /\ word_ok (randao_mix c)) /\ code_ok (calldata c) /\ in_range 64 (gas_limit c).

Definition log_ok (l : EvmLog) : Prop :=
  addr_ok (log_address l) /\ Forall word_ok (topics l) /\ code_ok (log_data l).

(** [keep ro o]: a read-only step keeps what [o] fixes. *)
Definition keep {A} (ro : bool) (o : option A) : option A := if ro then o else None.
Definition fixed {A} (o : option A) (a : A) : Prop := forall x, o = Some x -> a = x.

Section inv.
Context {H : Type} `{HostLaws H} `{PrimitivesLaws} (pan oof : Prop).
Abbreviation St := (EVMInterpreter H).
Abbreviation FM := (M St Stop).
Abbreviation wp := (wp pan oof).

(** The frame [b] as it started, but for what execution changes. *)
Record frame_ok (b : St) : Prop := {
  f_ctx : ctx_ok (ctx b);
  f_code : code_ok (code b);
  f_jumpdests : jumpdests b = build_jumpdest_bitmap (code b);
  f_depth : zlen (frames b) <= CALL_DEPTH_LIMIT }.

(** A state [s] of the frame [b] at [pc = p]: it holds at most [g] gas, the
    snapshots [sn] are open, the world is [wo] and the logs are [lo] if these
    are fixed, and all values have their types. *)
Record Inv (b : St) (p g : Z) (sn : list (Z * World)) (wo : option World) (lo : option (list EvmLog)) (s : St)
    : Prop := {
  i_ctx : ctx s = ctx b;
  i_code : code s = code b;
  i_jumpdests : jumpdests s = jumpdests b;
  i_frames : frames s = frames b;
  i_pc : pc s = p /\ 0 <= p;
  i_gas : 0 <= gas_remaining s <= g /\ g < 2 ^ 64;
  i_stack : Forall word_ok (st_data (stack s)) /\ stack_ok (stack s);
  i_memory : memory_ok (memory s);
  i_return : code_ok (return_data s);
  i_host : host_ok (host s);
  i_logs : Forall log_ok (logs s);
  i_open : open_snaps (host s) = sn;
  i_world : fixed wo (world (host s));
  i_kept : fixed lo (logs s) }.

Lemma Inv_gas b p g g' sn wo lo s : Inv b p g sn wo lo s -> g <= g' -> g' < 2 ^ 64 -> Inv b p g' sn wo lo s.
Proof. intros [] Hg Hb. constructor; try done. lia. Qed.
Lemma Inv_keep b p g sn wo lo ro s : Inv b p g sn wo lo s -> Inv b p g sn (keep ro wo) (keep ro lo) s.
Proof. intros []. constructor; try done; destruct ro; done. Qed.
Lemma Inv_set_stack b p g sn wo lo s st :
  Inv b p g sn wo lo s -> Forall word_ok (st_data st) -> stack_ok st -> Inv b p g sn wo lo (set_stack st s).
Proof. intros [] ? ?. by constructor. Qed.
Lemma Inv_set_memory b p g sn wo lo s m : Inv b p g sn wo lo s -> memory_ok m -> Inv b p g sn wo lo (set_memory m s).
Proof. intros [] ?. by constructor. Qed.
Lemma Inv_set_gas b p g g' sn wo lo s x :
  Inv b p g sn wo lo s -> 0 <= x <= g' -> g' < 2 ^ 64 -> Inv b p g' sn wo lo (set_gas x s).
Proof. intros [] ? ?. by constructor. Qed.
Lemma Inv_set_return b p g sn wo lo s d : Inv b p g sn wo lo s -> code_ok d -> Inv b p g sn wo lo (set_return d s).
Proof. intros [] ?. by constructor. Qed.
Lemma Inv_set_warm b p g sn wo lo s w ws : Inv b p g sn wo lo s -> Inv b p g sn wo lo (set_warm w ws s).
Proof. intros []. by constructor. Qed.
Lemma Inv_set_pc b p p' g sn wo lo s : Inv b p g sn wo lo s -> 0 <= p' -> Inv b p' g sn wo lo (set_pc p' s).
Proof. intros [] ?. by constructor. Qed.
Lemma Inv_set_logs b p g sn wo lo lo' s l :
  Inv b p g sn wo lo s -> Forall log_ok l -> fixed lo' l -> Inv b p g sn wo lo' (set_logs l s).
Proof. intros [] ? ?. by constructor. Qed.
Lemma Inv_set_host b p g sn sn' wo wo' lo s h :
  Inv b p g sn wo lo s -> host_ok h -> open_snaps h = sn' -> fixed wo' (world h) -> Inv b p g sn' wo' lo (set_host h s).
Proof. intros [] ? ? ?. by constructor. Qed.

Lemma fixed_None {A} (a : A) : fixed None a.
Proof. by intros x. Qed.

(** ** The primitives *)

Section rules.
Context (b : St) (p g : Z) (sn : list (Z * World)) (wo : option World) (lo : option (list EvmLog)) (s : St)
  (Hi : Inv b p g sn wo lo s).

Lemma wp_spop (Q : word -> St -> Prop) (E : St -> Prop) : E s ->
  (forall w s', word_ok w -> Inv b p g sn wo lo s' -> Q w s') -> wp spop Q E s.
Proof.
  intros He Hq. destruct (i_stack _ _ _ _ _ _ _ Hi) as [Hw Hl]. unfold wp, spop, on_stack, pop.
  destruct (list.last (st_data (stack s))) as [w|] eqn:Hlast.
  - apply Hq; [|apply Inv_set_stack; [done|by apply Forall_take|]].
    + rewrite last_lookup in Hlast. by eapply Forall_lookup_1.
    + unfold stack_ok, stack_len, zlen in *. simpl. rewrite length_take. lia.
  - simpl. by destruct s.
Qed.

Lemma wp_spush w (Q : unit -> St -> Prop) (E : St -> Prop) : word_ok w -> E s ->
  (forall s', Inv b p g sn wo lo s' -> list.last (st_data (stack s')) = Some w -> Q tt s') -> wp (spush w) Q E s.
Proof.
  intros Hw He Hq. destruct (i_stack _ _ _ _ _ _ _ Hi) as [Hf Hl].
  unfold wp, spush, on_stack, push, get_st, throw_if, put_st, mbind, M_bind.
  destruct (Z.leb_spec MAX_STACK (stack_len (stack s))); simpl.
  - by destruct s.
  - apply Hq; [|simpl; apply last_snoc]. apply Inv_set_stack; [done|apply Forall_app_2; [done|by apply Forall_singleton]|].
    unfold stack_ok, stack_len, zlen in *. simpl. rewrite length_app. simpl. lia.
Qed.

Lemma wp_consume a (Q : unit -> St -> Prop) (E : St -> Prop) : 0 <= a -> E s ->
  (forall s', Inv b p (g - a) sn wo lo s' -> a <= g -> memory s' = memory s -> Q tt s') -> wp (consume_gas a) Q E s.
Proof.
  intros Ha He Hq. pose proof (i_gas _ _ _ _ _ _ _ Hi). unfold consume_gas. wp_step. wp_step. apply wp_fail_if; [done|].
  intros Hb%Z.ltb_ge. apply wp_modify. apply Hq; [|lia|done]. eapply Inv_set_gas; [done|lia..].
Qed.

Lemma wp_consume_enough a (Q : unit -> St -> Prop) (E : St -> Prop) : 0 <= a <= gas_remaining s ->
  (forall s', Inv b p (g - a) sn wo lo s' -> host s' = host s -> warm_addresses s' = warm_addresses s -> Q tt s') ->
  wp (consume_gas a) Q E s.
Proof.
  intros Ha Hq. pose proof (i_gas _ _ _ _ _ _ _ Hi). unfold consume_gas. wp_step. wp_step.
  unfold EvmLogic.wp, fail_if, throw_if. rewrite (proj2 (Z.ltb_ge _ _)) by lia.
  apply wp_modify. apply Hq; [|done|done]. eapply Inv_set_gas; [done|lia..].
Qed.

Lemma wp_refund a g' (Q : unit -> St -> Prop) (E : St -> Prop) : 0 <= a -> g + a <= g' < 2 ^ 64 ->
  (forall s', Inv b p g' sn wo lo s' -> Q tt s') -> wp (refund_gas a) Q E s.
Proof.
  intros Ha Hg Hq. pose proof (i_gas _ _ _ _ _ _ _ Hi). apply wp_modify, Hq. eapply Inv_set_gas; [done| |lia].
  unfold sat. lia.
Qed.

Lemma wp_expand off sz (Q : unit -> St -> Prop) (E : St -> Prop) : 0 <= off -> 0 <= sz ->
  (forall s', Inv b p g sn wo lo s' -> E s') ->
  (forall s', Inv b p g sn wo lo s' -> (0 < sz -> off + sz <= zlen (memory s')) -> Q tt s') -> wp (expand off sz) Q E s.
Proof.
  intros Ho Hs He Hq. unfold expand. wp_step. pose proof (i_memory _ _ _ _ _ _ _ Hi) as Hm.
  pose proof (i_gas _ _ _ _ _ _ _ Hi) as Hg. unfold EvmLogic.wp at 1, mem_ensure, on_memory.
  destruct (ensure_memory off sz (memory s) Hm Ho Hs) as [(m' & gas & -> & Hm' & Hin & Hgas)|(e & ->)]; simpl.
  - unfold consume_gas. wp_step. wp_step. apply wp_fail_if; [apply He; by apply Inv_set_memory|].
    intros Hb%Z.ltb_ge. simpl in Hb. apply wp_modify. apply Hq; [|done].
    eapply Inv_set_gas; [by apply Inv_set_memory|simpl; lia|lia].
  - apply He. by apply Inv_set_memory.
Qed.

Lemma wp_mread off sz (Q : bytes -> St -> Prop) (E : St -> Prop) : 0 <= off -> 0 <= sz < 2 ^ 63 ->
  (0 < sz -> off + sz <= zlen (memory s)) -> (forall d, code_ok d -> zlen d = sz -> Q d s) -> wp (mread off sz) Q E s.
Proof.
  intros Ho Hs Hin Hq. unfold mread. wp_step. apply wp_lift.
  destruct (@mem_read_memory Stop off sz (memory s) (i_memory _ _ _ _ _ _ _ Hi) Ho Hs Hin) as (d & -> & Hl & Hb).
  apply Hq; [|done]. split; [done|lia].
Qed.

Lemma wp_mwrite off d (Q : unit -> St -> Prop) (E : St -> Prop) : 0 <= off -> Forall byte d ->
  (0 < zlen d -> off + zlen d <= zlen (memory s)) -> (forall s', Inv b p g sn wo lo s' -> Q tt s') -> wp (mwrite off d) Q E s.
Proof.
  intros Ho Hd Hin Hq. unfold EvmLogic.wp, mwrite.
  destruct (@mem_write_memory Stop off d (memory s) (i_memory _ _ _ _ _ _ _ Hi) Hd Ho Hin) as (m' & -> & Hm).
  apply Hq. by apply Inv_set_memory.
Qed.
End rules.

Section derived.
Context (b : St) (p g : Z) (sn : list (Z * World)) (wo : option World) (lo : option (list EvmLog)) (s : St)
  (Hi : Inv b p g sn wo lo s).

Lemma wp_pop_u64 (Q : Z -> St -> Prop) (E : St -> Prop) : E s ->
  (forall v s', in_range 64 v -> Inv b p g sn wo lo s' -> Q v s') -> wp pop_u64_capped Q E s.
Proof.
  intros He Hq. unfold pop_u64_capped. wp_step. eapply wp_spop; [done..|]. intros w s' Hw Hi'. wp_step.
  apply Hq; [by apply to_u64_range|done].
Qed.

Lemma wp_pop_address (Q : Address -> St -> Prop) (E : St -> Prop) : E s ->
  (forall a s', addr_ok a -> Inv b p g sn wo lo s' -> Q a s') -> wp pop_address Q E s.
Proof.
  intros He Hq. unfold pop_address. wp_step. eapply wp_spop; [done..|]. intros w s' Hw Hi'. wp_step.
  apply Hq; [by apply word_addr_ok|done].
Qed.

Lemma wp_warm_address a (Q : unit -> St -> Prop) (E : St -> Prop) : E s ->
  (forall s', Inv b p g sn wo lo s' -> Q tt s') -> wp (warm_address a) Q E s.
Proof.
  intros He Hq. unfold warm_address. wp_step. apply wp_if; intros _; [by wp_step; apply Hq|].
  pose proof (i_gas _ _ _ _ _ _ _ Hi). wp_step. eapply wp_consume; [done|unfold GAS_COLD_ACCOUNT_ACCESS; lia|done|].
  intros s' Hi' _ _. wp_step. apply Hq. apply Inv_set_warm. eapply Inv_gas; [done|unfold GAS_COLD_ACCOUNT_ACCESS; lia|lia].
Qed.

Lemma wp_warm_slot a (Q : unit -> St -> Prop) (E : St -> Prop) : E s ->
  (forall s', Inv b p g sn wo lo s' -> Q tt s') -> wp (warm_slot a) Q E s.
Proof.
  intros He Hq. unfold warm_slot. wp_step. apply wp_if; intros _; [by wp_step; apply Hq|].
  change (sat 64 _) with 2000. pose proof (i_gas _ _ _ _ _ _ _ Hi). wp_step. eapply wp_consume; [done|lia|done|].
  intros s' Hi' _ _. wp_step. apply Hq. apply Inv_set_warm. eapply Inv_gas; [done|lia..].
Qed.

Lemma wp_dup n (Q : unit -> St -> Prop) (E : St -> Prop) : 1 <= n < 2 ^ 64 -> E s ->
  (forall s', Inv b p g sn wo lo s' -> Q tt s') -> wp (on_stack (dup n)) Q E s.
Proof.
  intros Hn He Hq. destruct (i_stack _ _ _ _ _ _ _ Hi) as [Hf Hl]. unfold EvmLogic.wp, on_stack, dup, get_st, lift, mbind, M_bind.
  unfold peek. rewrite wrap_small by (unfold in_range; lia).
  destruct (Z.leb_spec (stack_len (stack s)) (n - 1)); [simpl; by destruct s|].
  destruct (index_Ok (E:=EvmError) (st_data (stack s)) (stack_len (stack s) - 1 - (n - 1))) as (x & Hx & ->);
    [unfold stack_len in *; lia|].
  assert (Hwx : word_ok x) by by eapply Forall_lookup_1.
  pose proof (wp_spush b p g sn wo lo s Hi x Q E Hwx He) as Hp. unfold EvmLogic.wp, spush, on_stack in Hp.
  destruct (push x (stack s)) as [r st]. apply Hp. intros s' Hi' _. by apply Hq.
Qed.

Lemma swap_at_forall {A} (P : A -> Prop) i j l : Forall P l -> Forall P (swap_at i j l).
Proof.
  intros Hl. unfold swap_at. destruct (l !! i) eqn:Hx; [|done]. destruct (l !! j) eqn:Hy; [|done].
  apply Forall_insert; [apply Forall_insert; [done|]|]; by eapply Forall_lookup_1.
Qed.

Lemma length_swap_at {A} i j (l : list A) : length (swap_at i j l) = length l.
Proof. unfold swap_at. repeat case_match; by rewrite ?length_insert. Qed.

Lemma wp_swap n (Q : unit -> St -> Prop) (E : St -> Prop) : E s ->
  (forall s', Inv b p g sn wo lo s' -> Q tt s') -> wp (on_stack (swap n)) Q E s.
Proof.
  intros He Hq. destruct (i_stack _ _ _ _ _ _ _ Hi) as [Hf Hl].
  unfold EvmLogic.wp, on_stack, swap, get_st, throw_if, put_st, mbind, M_bind.
  destruct (_ <=? _); simpl; [by destruct s|]. apply Hq. apply Inv_set_stack; [done|by apply swap_at_forall|].
  unfold stack_ok, stack_len, zlen in *. simpl. by rewrite length_swap_at.
Qed.
End derived.
End inv.
Arguments Inv {H _ _} b p g sn wo lo s.
Arguments frame_ok {H} b.
