(* ===== verification/EvmOps.v ===== *)
(** * What one instruction preserves

    The groups of opcodes of EvmInterp, each against the rules of EvmLogic: an
    instruction keeps the types of the frame, never gains gas, leaves the open
    snapshots as they were and, in a static frame, the world and the logs; it
    moves the program counter forward unless it is a jump.

    Below: the CALL and CREATE families and the copies of call data, code and
    return data. *)

From Stdlib Require Import ZArith Lia String.
From stdpp Require Import base tactics list gmap sets numbers option.
From S2P Require Import Prelude Bytes U256 U256Ops EvmMachine EvmHost NativeReads EvmPrecompiles EvmInterp EvmLogic.

Local Open Scope Z_scope.

Section ops.
Context {H : Type} `{HostLaws H} `{PrimitivesLaws} (pan oof : Prop).
Abbreviation St := (EVMInterpreter H).
Abbreviation FM := (M St Stop).
Abbreviation wp := (wp pan oof).

(** Where a frame may stop. *)
Definition Done (b : St) (g : Z) sn (ro : bool) wo lo (s : St) : Prop :=
  exists p, Inv b p g sn (keep ro wo) (keep ro lo) s.

Definition flow_post (byte : Z) (b : St) (p g : Z) sn wo lo (r : flow) (s : St) : Prop :=
  match r with
  | Next => exists p', p <= p' /\ Inv b p' g sn (keep (is_static (ctx b)) wo) (keep (is_static (ctx b)) lo) s
  | Return None => (byte = 0x56 \/ byte = 0x57) /\ Done b g sn (is_static (ctx b)) wo lo s
  | Return (Some _) => Done b g sn (is_static (ctx b)) wo lo s
  end.

Definition op_ok (byte : Z) (b : St) (p : Z) (m : FM flow) : Prop := forall g sn wo lo s,
  Inv b p g sn wo lo s -> wp m (flow_post byte b p g sn wo lo) (Done b g sn (is_static (ctx b)) wo lo) s.

Lemma Inv_Done b p g sn ro wo lo s : Inv b p g sn wo lo s -> Done b g sn ro wo lo s.
Proof. exists p. by apply Inv_keep. Qed.
Lemma Done_gas b g g' sn ro wo lo s : Done b g sn ro wo lo s -> g <= g' -> g' < 2 ^ 64 -> Done b g' sn ro wo lo s.
Proof. intros [p Hp] ? ?. exists p. by eapply Inv_gas. Qed.
Lemma Inv_less b p g g' sn ro wo lo s : Inv b p g sn wo lo s -> g <= g' -> g' < 2 ^ 64 -> Done b g' sn ro wo lo s.
Proof. intros Hi ? ?. eapply Done_gas; [by eapply Inv_Done|done..]. Qed.
Lemma Inv_bound b p g sn wo lo s : Inv b p g sn wo lo s -> 0 <= g < 2 ^ 64.
Proof. intros []. lia. Qed.
Lemma Inv_memory b p g sn wo lo s : Inv b p g sn wo lo s -> 0 <= zlen (memory s) <= 33554432.
Proof. intros Hi. destruct (i_memory _ _ _ _ _ _ _ Hi) as [[_ Hm] _]. pose proof (zlen_nonneg (memory s)). by unfold MAX_MEMORY in Hm. Qed.
Lemma flow_next byte b p g g' sn wo lo s : Inv b p g sn wo lo s -> g <= g' -> g' < 2 ^ 64 ->
  flow_post byte b p g' sn wo lo Next s.
Proof. intros Hi ? ?. exists p. split; [done|]. apply Inv_keep. by eapply Inv_gas. Qed.

End ops.

(** [exits] closes an error path, [next] a path that falls through. *)
Ltac bounds := repeat match goal with Hi : Inv _ _ _ _ _ _ _ |- _ => learn_hyp (Inv_bound _ _ _ _ _ _ _ Hi) end.
Ltac exits := first [eapply Inv_Done; eassumption | bounds; eapply Inv_less; [eassumption|lia|lia]].
Ltac next := first [eapply flow_next; [eassumption|lia|lia] | bounds; eapply flow_next; [eassumption|lia|lia]].
Ltac mem_bounds :=
  repeat match goal with Hi : Inv _ _ _ _ _ _ _ |- _ => learn_hyp (Inv_memory _ _ _ _ _ _ _ Hi) end;
  repeat match goal with He : memory _ = memory _ |- _ => rewrite He in * end; lia.
(** One rule for the next action. *)
Ltac op_step :=
  match goal with
  | |- wp _ _ (mret _) _ _ _ => apply wp_ret
  | |- wp _ _ get_st _ _ _ => apply wp_get
  | |- wp _ _ spop _ _ _ => eapply wp_spop; [eassumption|exits|intros ? ? ? ?]
  | |- wp _ _ (spush _) _ _ _ => eapply wp_spush; [eassumption| |exits|intros ? ? _]
  | |- wp _ _ pop_u64_capped _ _ _ => eapply wp_pop_u64; [eassumption|exits|intros ? ? [? ?] ?]
  | |- wp _ _ pop_address _ _ _ => eapply wp_pop_address; [eassumption|exits|intros ? ? ? ?]
  | |- wp _ _ (warm_address _) _ _ _ => eapply wp_warm_address; [eassumption|exits|intros ? ?]
  | |- wp _ _ (warm_slot _) _ _ _ => eapply wp_warm_slot; [eassumption|exits|intros ? ?]
  | |- wp _ _ (expand _ _) _ _ _ => eapply wp_expand; [eassumption|lia|lia|intros; exits|intros ? ? ?]
  | |- wp _ _ (consume_gas _) _ _ _ => eapply wp_consume; [eassumption| |exits|intros ? ? ? ?]
  | |- wp _ _ (mread _ _) _ _ _ => eapply wp_mread; [eassumption|lia|mem_bounds|mem_bounds|intros ? ? ?]
  | |- wp _ _ (mwrite _ _) _ _ _ => eapply wp_mwrite; [eassumption|lia| | |intros ? ?]
  | |- wp _ _ (fail_if _ _) _ _ _ => apply wp_fail_if; [exits|intros ?]
  | |- wp _ _ (_ ← _; _) _ _ _ => wp_step
  end.

Section groups.
Context {H : Type} `{HostLaws H} `{PrimitivesLaws} (pan oof : Prop).
Abbreviation St := (EVMInterpreter H).
Abbreviation FM := (M St Stop).
Abbreviation wp := (wp pan oof).
Abbreviation op_ok := (op_ok pan oof).
Context (b : St) (Hb : frame_ok b) (p : Z) (Hp : p < zlen (code b)).

(** ** Arithmetic *)

Lemma push_next_ok byte w : word_ok w -> op_ok byte b p (push_next w).
Proof. intros Hw g sn wo lo s Hi. unfold push_next. repeat op_step; [done|]. next. Qed.
Lemma alu1_ok byte f : closed1 f -> op_ok byte b p (alu1 f).
Proof. intros Hf g sn wo lo s Hi. unfold alu1. repeat op_step; [by apply Hf|]. next. Qed.
Lemma alu2_ok byte f : closed2 f -> op_ok byte b p (alu2 f).
Proof. intros Hf g sn wo lo s Hi. unfold alu2. repeat op_step; [by apply Hf|]. next. Qed.
Lemma alu3_ok byte f : closed3 f -> op_ok byte b p (alu3 f).
Proof. intros Hf g sn wo lo s Hi. unfold alu3. repeat op_step; [by apply Hf|]. next. Qed.
Lemma bool2_ok byte f : op_ok byte b p (alu2 (fun x y => bool_word (f x y))).
Proof. apply alu2_ok. intros x y _ _. apply bool_word_ok. Qed.

(** A method whose invariant has less gas than the frame had. *)
Lemma op_ok_less byte m g g' sn wo lo s : op_ok byte b p m -> Inv b p g sn wo lo s -> g <= g' -> g' < 2 ^ 64 ->
  wp m (flow_post byte b p g' sn wo lo) (Done b g' sn (is_static (ctx b)) wo lo) s.
Proof.
  intros Hm Hi ? ?. eapply wp_mono; [by apply Hm| |intros s' Hd; by eapply Done_gas].
  intros r s' Hr. destruct r as [|[st|]]; simpl in *.
  - destruct Hr as (p' & Hle & Hi'). exists p'. split; [done|]. by eapply Inv_gas.
  - by eapply Done_gas.
  - destruct Hr as [? Hd]. split; [done|]. by eapply Done_gas.
Qed.

Lemma exp_ok byte : op_ok byte b p (base ← spop; exp ← spop; _ ← consume_gas (10 + 50 * u256_byte_len exp);
  r ← lift (u256_exp base exp); push_next r).
Proof.
  intros g sn wo lo s Hi. do 4 op_step. pose proof (byte_len_range w0 ltac:(eassumption)). repeat op_step; [lia|].
  apply wp_lift. destruct (exp_word (E:=Stop) w w0) as (r & -> & Hr); [done..|].
  bounds. eapply op_ok_less; [by apply push_next_ok|done|lia..].
Qed.

Lemma sha3_cost_pos size : 0 <= sha3_cost size.
Proof. by destruct (wrap_range 64 (GAS_SHA3 + u64 (GAS_SHA3_WORD * (u64 (size + 31) / 32))) ltac:(lia)). Qed.

Lemma sha3_ok byte : op_ok byte b p (offset ← pop_u64_capped; size ← pop_u64_capped; _ ← expand offset size;
  _ ← consume_gas (sha3_cost size); data ← mread offset size; push_next (keccak256 data)).
Proof.
  intros g sn wo lo s Hi. do 6 op_step. pose proof (sha3_cost_pos v0). repeat op_step; [done|]. bounds.
  eapply op_ok_less; [apply push_next_ok, keccak_ok|done|lia..].
Qed.
Lemma op_ok_if byte (c : bool) m1 m2 :
  (c = true -> op_ok byte b p m1) -> (c = false -> op_ok byte b p m2) -> op_ok byte b p (if c then m1 else m2).
Proof. destruct c; auto. Qed.

Lemma arith_ok byte other : op_ok byte b p other -> op_ok byte b p (exec_arith byte other).
Proof.
  intros Ho. unfold exec_arith.
  apply op_ok_if; intros _; [intros g sn wo lo s Hi; apply wp_ret; exits|].
  repeat (apply op_ok_if; intros _; [lazymatch goal with
    | |- EvmOps.op_ok _ _ _ _ _ (alu2 (fun x y => bool_word (@?f x y))) => apply bool2_ok
    | |- EvmOps.op_ok _ _ _ _ _ (alu1 _) => apply alu1_ok; intros x Hx
    | |- EvmOps.op_ok _ _ _ _ _ (alu2 _) => apply alu2_ok; intros x y Hx Hy
    | |- EvmOps.op_ok _ _ _ _ _ (alu3 _) => apply alu3_ok
    | |- EvmOps.op_ok _ _ _ _ _ (mbind _ spop) => apply exp_ok
    | |- EvmOps.op_ok _ _ _ _ _ (mbind _ pop_u64_capped) => apply sha3_ok
    end|]); [..|exact Ho].
  - by apply add_ok.
  - by apply mul_ok.
  - by apply sub_ok.
  - by apply div_ok.
  - by apply sdiv_ok.
  - by apply mod_ok.
  - by apply smod_ok.
  - apply addmod_word.
  - apply mulmod_word.
  - by apply signextend_word.
  - apply bool_word_ok.
  - apply bitwise_word; [|done..]. intros u v Hu _. by apply byte_land.
  - apply bitwise_word; [|done..]. apply byte_lor.
  - apply bitwise_word; [|done..]. apply byte_lxor.
  - by apply not_ok.
  - by apply byte_op_ok.
  - by apply shl_ok.
  - by apply shr_ok.
  - by apply sar_ok.
Qed.

(** ** Environment *)

Lemma Inv_reads p' g sn wo lo s a k n : Inv b p' g sn wo lo s ->
  word_ok (balance (host s) a) /\ in_range 64 (nonce (host s) a) /\ code_ok (code_of (host s) a) /\
  word_ok (code_hash (host s) a) /\ word_ok (storage_load (host s) a k) /\ word_ok (block_hash (host s) n).
Proof. intros Hi. apply host_ok_reads. by eapply i_host. Qed.

Lemma copy_op_ok byte dest off size src : pan -> 0 <= dest -> 0 <= off -> 0 <= size < 2 ^ 64 ->
  (forall p' g sn wo lo s, Inv b p' g sn wo lo s -> code_ok (src s)) -> op_ok byte b p (copy_op dest off size src).
Proof.
  intros Hpan Hd Ho Hs Hsrc g sn wo lo s Hi. unfold copy_op.
  assert (Hc : 0 <= copy_cost size) by (by destruct (wrap_range 64 (GAS_COPY_WORD * (u64 (size + 31) / 32)) ltac:(lia))).
  do 4 op_step; [done|]. wp_step. wp_step. apply wp_if; [intros Hpos%Z.ltb_lt|intros _; repeat op_step; next].
  pose proof (Hsrc _ _ _ _ _ _ ltac:(eassumption) : code_ok (src s'0)) as [Hb1 Hl1]. wp_step. unfold copy_padded. wp_step. apply wp_lift.
  destruct (slice (src s'0) off _) as [chunk|[]|] eqn:Hsl; [|unfold slice in Hsl; by case_match..|done].
  wp_step. pose proof (slice_Ok_bytes _ _ _ _ Hb1 Hsl) as [Hcb Hcl].
  assert (Hlen : zlen chunk <= Z.min (sat 64 (zlen (src s'0) - off)) size).
  { unfold slice in Hsl. destruct (_ && _) eqn:Hcond; [|done]. injection Hsl as <-. bool_to_prop.
    unfold zlen at 1. rewrite length_take. pose proof (wrap_range 64 (off + Z.min (sat 64 (zlen (src s'0) - off)) size) ltac:(lia)) as [Hw _].
    destruct (Z.leb_spec (zlen (src s'0)) off).
    - assert (sat 64 (zlen (src s'0) - off) = 0) as -> by (unfold sat; lia). rewrite Z.min_l by lia. rewrite Z.add_0_r in *.
      rewrite wrap_small in * by (unfold in_range; lia). lia.
    - rewrite wrap_small in * by (unfold in_range, sat; lia). lia. }
  set (n := Z.min _ size) in *. op_step.
  - apply Forall_app. split; [done|]. apply bytes_replicate. unfold Bytes.byte. lia.
  - intros _. rewrite zlen_app. unfold zlen at 2. rewrite length_replicate. mem_bounds.
  - next.
Qed.

Lemma calldata_load_ok d off (Q : word -> St -> Prop) (E : St -> Prop) s : code_ok d -> 0 <= off ->
  (forall w, word_ok w -> Q w s) -> wp (calldata_load d off) Q E s.
Proof.
  intros [Hb1 Hl] Ho Hq. unfold calldata_load. apply wp_if; [intros Hpos%Z.ltb_lt|intros _; apply wp_ret, Hq, zero_word_ok].
  set (n := Z.min _ 32) in *. assert (n <= zlen d - off /\ n <= 32) as [Hn1 Hn2] by (unfold n, sat in *; lia).
  wp_step. apply wp_lift. rewrite slice_Ok by lia. wp_step. apply Hq. split.
  - rewrite length_app, length_take, length_drop, length_replicate. unfold zlen in *. lia.
  - apply Forall_app. split; [by apply Forall_take, Forall_drop|]. apply bytes_replicate. unfold Bytes.byte. lia.
Qed.

Lemma addr_push_ok byte a : addr_ok a -> op_ok byte b p (push_next (addr_word a)).
Proof. intros Ha. by apply push_next_ok, addr_word_ok. Qed.
Lemma num_push_ok byte n : op_ok byte b p (push_next (u256_from_u64 n)).
Proof. apply push_next_ok, from_u64_ok. Qed.

(** RETURNDATACOPY checks its bounds before it slices. *)
Lemma returndatacopy_ok byte data : code_ok data -> op_ok byte b p (dest ← pop_u64_capped; off ← pop_u64_capped; size ← pop_u64_capped;
  end_ ← lift_opt (checked 64 (off + size)) (Evm (MemoryOutOfBounds off size));
  _ ← fail_if (zlen data <? end_) (MemoryOutOfBounds off size);
  _ ← expand dest size;
  _ ← consume_gas (u64 (3 * (u64 (size + 31) / 32)));
  _ ← (if 0 <? size then chunk ← lift (slice data off (off + size)); mwrite dest chunk else mret tt);
  mret Next).
Proof.
  intros [Hdb Hdl] g sn wo lo s Hi. do 6 op_step. wp_step. apply wp_lift_opt; [exits|].
  intros e [-> _]%checked_Some. do 5 op_step.
  assert (Hle : v0 + v1 <= zlen data) by by apply Z.ltb_ge.
  assert (Hc : 0 <= u64 (3 * (u64 (v1 + 31) / 32))) by by destruct (wrap_range 64 (3 * (u64 (v1 + 31) / 32)) ltac:(lia)).
  op_step; [done|]. wp_step. apply wp_if; [intros Hpos%Z.ltb_lt|intros _; repeat op_step; next].
  wp_step. apply wp_lift. rewrite slice_Ok by lia. op_step.
  - by apply Forall_take, Forall_drop.
  - unfold zlen at 1 2. rewrite length_take, length_drop. mem_bounds.
  - op_step. next.
Qed.

Lemma env_ok byte other : (byte = 0x37 \/ byte = 0x39 \/ byte = 0x3c -> pan) ->
  op_ok byte b p other -> op_ok byte b p (exec_env byte other).
Proof.
  intros Hpan Ho g sn wo lo s Hi. destruct (f_ctx b Hb) as ((Hca & Hce & Hco & Hor) & (Hv & Hr) & Hcd & Hgl).
  assert (Hctx : forall p g sn wo lo s, Inv b p g sn wo lo s -> code_ok (calldata (ctx s))) by
    (intros ?????? Hj; by rewrite (i_ctx _ _ _ _ _ _ _ Hj)).
  assert (Hcode : forall p g sn wo lo s, Inv b p g sn wo lo s -> code_ok (code s)) by
    (intros ?????? Hj; rewrite (i_code _ _ _ _ _ _ _ Hj); apply Hb).
  unfold exec_env. wp_step. cbv zeta. rewrite (i_ctx _ _ _ _ _ _ _ Hi).
  repeat (apply wp_if; [intros Hbyte%Z.eqb_eq; lazymatch goal with
    | |- EvmLogic.wp _ _ (push_next (addr_word _)) _ _ _ => by apply addr_push_ok
    | |- EvmLogic.wp _ _ (push_next (u256_from_u64 _)) _ _ _ => by apply num_push_ok
    | |- EvmLogic.wp _ _ (push_next (value _)) _ _ _ => by apply push_next_ok
    | |- EvmLogic.wp _ _ (push_next (randao_mix _)) _ _ _ => by apply push_next_ok
    | |- _ => lazymatch type of Hbyte with _ = 0x3e => idtac | _ => repeat op_step end
    end|intros _]); [..|by apply Ho].
  all: try (apply push_next_ok; [apply from_u64_ok|done]).
  - apply push_next_ok; [|done]. by eapply (Inv_reads _ _ _ _ _ _ _ zero_word 0).
  - eapply calldata_load_ok; [done|lia|]. intros w Hw. by apply push_next_ok.
  - apply copy_op_ok; [auto|lia|lia|lia|done|done].
  - apply copy_op_ok; [auto|lia|lia|lia|done|done].
  - apply copy_op_ok; [auto|lia|lia|lia| |done]. intros ?????? Hj. by eapply (Inv_reads _ _ _ _ _ _ _ zero_word 0).
  - apply wp_if; intros _; apply push_next_ok; try done; [apply zero_word_ok|].
    by eapply (Inv_reads _ _ _ _ _ _ _ zero_word 0).
  - eapply returndatacopy_ok; [|done]. by eapply i_return.
  - apply push_next_ok; [|done]. case_match; [|apply zero_word_ok].
    by eapply (Inv_reads _ _ _ _ _ _ (caller (ctx b)) zero_word).
  - apply push_next_ok; [|done]. by eapply (Inv_reads _ _ _ _ _ _ _ zero_word 0).
Qed.

(** ** Memory, storage, control flow *)

Lemma wp_mod_host g sn sn' wo wo' lo f (Q : unit -> St -> Prop) (E : St -> Prop) s : Inv b p g sn wo lo s ->
  host_ok (f (host s)) -> open_snaps (f (host s)) = sn' -> fixed wo' (world (f (host s))) ->
  (forall s', Inv b p g sn' wo' lo s' -> host s' = f (host s) -> Q tt s') -> wp (mod_host f) Q E s.
Proof. intros Hi Hh Ho Hw Hq. apply wp_modify, Hq; [|done]. by eapply Inv_set_host. Qed.

Lemma fail_static g sn wo lo s (Q : unit -> St -> Prop) E : Inv b p g sn wo lo s -> E s ->
  (is_static (ctx b) = false -> Q tt s) -> wp (fail_if (is_static (ctx s)) StaticStateChange) Q E s.
Proof. intros Hi He Hq. apply wp_fail_if; [done|]. rewrite (i_ctx _ _ _ _ _ _ _ Hi). apply Hq. Qed.

Lemma sstore_ok byte : op_ok byte b p sstore.
Proof.
  intros g sn wo lo s Hi. unfold sstore. do 2 wp_step. eapply fail_static; [done|exits|]. intros Hst.
  do 5 op_step. cbv zeta. do 2 op_step. wp_step. wp_step.
  set (cur := storage_load _ _ _). set (orig := storage_load _ _ _).
  assert (Hall : forall E Q, (forall s', Inv b p g sn wo lo s' -> E s') -> (forall s', Inv b p g sn wo lo s' -> Q tt s') ->
    forall c, 0 <= c -> wp (consume_gas c) Q E s'1).
  { intros E Q He Hq c Hc. eapply wp_consume; [done|done|by apply He|]. intros s3 Hi3 _ _. apply Hq. bounds. eapply Inv_gas; [done|lia..]. }
  assert (Hfin : forall s', Inv b p g sn wo lo s' ->
    wp (_ ← mod_host (storage_store (callee (ctx s'0)) w w0); mret Next) (flow_post byte b p g sn wo lo)
      (Done b g sn (is_static (ctx b)) wo lo) s').
  { intros s3 Hi3. wp_step. eapply (wp_mod_host g sn sn wo None lo); [done| | |apply fixed_None|].
    - apply host_ok_store; [by eapply i_host|done].
    - rewrite store_open. by eapply i_open.
    - intros s4 Hi4 _. apply wp_ret. exists p. split; [done|]. rewrite Hst. simpl.
      eapply Inv_set_logs in Hi4; [|by eapply i_logs|by apply fixed_None]. by destruct s4. }
  apply wp_if; intros _; [|by apply wp_ret, Hfin].
  repeat (apply wp_if; intros _); apply Hall; try done; intros; by eapply Inv_Done.
Qed.

Lemma jump_ok byte g sn wo lo s dest : byte = 0x56 \/ byte = 0x57 -> Inv b p g sn wo lo s -> 0 <= dest ->
  wp (jump_to dest) (flow_post byte b p g sn wo lo) (Done b g sn (is_static (ctx b)) wo lo) s.
Proof.
  intros Hbyte Hi Hd. unfold jump_to. repeat op_step. split; [done|].
  exists dest. apply Inv_keep. by apply (Inv_set_pc b p).
Qed.

Lemma mem_ops_ok byte other : op_ok byte b p other -> op_ok byte b p (exec_mem byte other).
Proof.
  intros Ho g sn wo lo s Hi. unfold exec_mem. wp_step.
  apply wp_if; [intros _; repeat op_step; next|intros _].
  apply wp_if; [intros _; repeat op_step|intros _].
  { match goal with Hx : code_ok d |- _ => destruct Hx as [Hd _] end. apply push_next_ok; [|done]. split; [|done]. unfold zlen in *. lia. }
  apply wp_if; [intros _; repeat op_step|intros _].
  { by match goal with Hx : word_ok w |- _ => destruct Hx end. }
  { intros _. rewrite word_zlen by done. mem_bounds. }
  { next. }
  apply wp_if; [intros _; do 6 op_step; wp_step; apply wp_lift|intros _].
  { match goal with Hx : word_ok w |- _ => destruct Hx as [Hl Hf] end. destruct (index_Ok (E:=Stop) w 31) as (x & Hx & ->); [unfold zlen; by rewrite Hl|].
    repeat op_step.
    - apply Forall_singleton. by eapply Forall_lookup_1.
    - intros _. unfold zlen at 1. simpl. lia.
    - next. }
  apply wp_if; [intros _; repeat op_step|intros _].
  { apply push_next_ok; [|done]. by eapply (Inv_reads _ _ _ _ _ _ _ w 0). }
  apply wp_if; [intros _; by apply sstore_ok|intros _].
  do 3 (apply wp_if; [intros _; by apply num_push_ok|intros _]).
  apply wp_if; [intros Hbyte%Z.eqb_eq; repeat op_step; apply jump_ok; [auto|done|lia]|intros _].
  apply wp_if; [intros Hbyte%Z.eqb_eq; repeat op_step|intros _].
  { apply wp_if; intros _; [apply jump_ok; [auto|done|lia]|]. repeat op_step. next. }
  apply wp_if; [intros _; repeat op_step; next|intros _].
  apply wp_if; [intros _; apply push_next_ok; [apply zero_word_ok|done]|intros _]. by apply Ho.
Qed.

(** ** PUSH, DUP, SWAP, LOG *)

Lemma push_bytes_ok byte n : 1 <= n <= 32 -> op_ok byte b p (push_bytes n).
Proof.
  intros Hn g sn wo lo s Hi. unfold push_bytes. wp_step. cbv zeta.
  destruct (i_pc _ _ _ _ _ _ _ Hi) as [-> Hp0]. rewrite (i_code _ _ _ _ _ _ _ Hi). destruct (f_code b Hb) as [Hcb Hcl].
  wp_step. apply wp_lift. set (e := Z.min _ _). rewrite slice_Ok by lia. wp_step. eapply wp_spush; [done| |exits|].
  - set (chunk := take _ _). assert (Hl : length chunk = Z.to_nat (e - (p + 1))).
    { unfold chunk. rewrite length_take, length_drop. unfold zlen in *. lia. }
    split; [rewrite !length_app, !length_replicate, Hl; lia|]. repeat (apply Forall_app; split).
    + apply bytes_replicate. unfold Bytes.byte. lia.
    + by apply Forall_take, Forall_drop.
    + apply bytes_replicate. unfold Bytes.byte. lia.
  - intros s' Hi' _. repeat op_step. exists (p + n). split; [lia|]. apply Inv_keep.
    destruct (i_pc _ _ _ _ _ _ _ Hi') as [-> _]. apply (Inv_set_pc b p); [done|lia].
Qed.

Lemma wp_pop_topics n : forall g sn wo lo s (Q : list word -> St -> Prop) E, Inv b p g sn wo lo s ->
  (forall s', Inv b p g sn wo lo s' -> E s') ->
  (forall ts s', Forall word_ok ts -> Inv b p g sn wo lo s' -> Q ts s') -> wp (pop_topics n) Q E s.
Proof.
  induction n as [|n IH]; intros g sn wo lo s Q E Hi He Hq; simpl; [apply wp_ret, Hq; [constructor|done]|].
  wp_step. eapply wp_spop; [done|by apply He|]. intros w s1 Hw Hi1. wp_step. eapply IH; [done..|].
  intros ts s2 Hts Hi2. wp_step. apply Hq; [by constructor|done].
Qed.

Lemma log_cost_pos d t : 0 <= log_cost d t.
Proof. apply (wrap_range 64 (u64 (GAS_LOG_BASE + u64 (GAS_LOG_DATA * d)) + u64 (GAS_LOG_TOPIC * t))). lia. Qed.

Lemma log_ok_op byte t : op_ok byte b p (log_op t).
Proof.
  intros g sn wo lo s Hi. unfold log_op. do 2 wp_step. eapply fail_static; [done|exits|]. intros Hst.
  do 4 op_step. wp_step. eapply wp_pop_topics; [done|intros; exits|]. intros ts s1 Hts Hi1. pose proof (log_cost_pos v0 t).
  repeat op_step; [done|]. exists p. split; [done|]. rewrite Hst. simpl.
  match goal with Hj : Inv b p (g - _) sn wo lo ?s' |- _ =>
    assert (Hl : Inv b p g sn wo lo s') by (bounds; eapply Inv_gas; [exact Hj|lia|lia]) end.
  eapply Inv_set_logs; [exact (Inv_keep _ _ _ _ _ _ false _ Hl)| |apply fixed_None].
  apply Forall_app_2; [by eapply i_logs|]. apply Forall_singleton.
  split_and!; [|done..]. rewrite (i_ctx _ _ _ _ _ _ _ Hl). apply Hb.
Qed.

Lemma push_ops_ok byte other : 0 <= byte -> op_ok byte b p other -> op_ok byte b p (exec_push byte other).
Proof.
  intros Hb0 Ho. unfold exec_push.
  apply op_ok_if; [intros Hr; bool_to_prop; apply push_bytes_ok; lia|intros _].
  apply op_ok_if; intros Hr1; [bool_to_prop; intros g sn wo lo s Hi; wp_step; eapply wp_dup; [done|lia|exits|intros; repeat op_step; next]|].
  apply op_ok_if; intros Hr2; [intros g sn wo lo s Hi; wp_step; eapply wp_swap; [done|exits|intros; repeat op_step; next]|].
  apply op_ok_if; intros _; [apply log_ok_op|done].
Qed.
End groups.

(** * CALL and CREATE families, and the loop

    The instructions that open a snapshot and run a frame of their own.  They
    close every snapshot they open; what a failed call did to the world is
    undone; what a parent gets back is at most what it forwarded. *)

Section calls.
Context {H : Type} `{HostLaws H} `{PrimitivesLaws} (pan oof : Prop).
Abbreviation St := (EVMInterpreter H).
Abbreviation FM := (M St Stop).
Abbreviation wp := (wp pan oof).
Abbreviation op_ok := (op_ok pan oof).
Context (b : St) (Hb : frame_ok b).

(** ** The frame below *)

(** A frame that [b] starts. *)
Definition fresh (s : St) : Prop :=
  frame_ok s /\ zlen (frames s) = zlen (frames b) + 1 /\ logs s = [] /\
  Inv s 0 (gas_limit (ctx s)) (open_snaps (host s)) (Some (world (host s))) (Some []) s.
Definition frame_done (s s2 : St) : Prop :=
  Done s (gas_limit (ctx s)) (open_snaps (host s)) (is_static (ctx s)) (Some (world (host s))) (Some []) s2.

Context (sub : FM ExitStatus)
  (Hsub : forall s, fresh s -> wp sub (fun _ => frame_done s) (fun _ => False) s).

Lemma wp_run_sub p g sn wo lo s c sub_code frame (Q : ExitStatus * St -> St -> Prop) (E : St -> Prop) :
  Inv b p g sn wo lo s -> zlen (frames b) < CALL_DEPTH_LIMIT -> ctx_ok c -> code_ok sub_code ->
  (forall st s2 s', Inv b p g sn (keep (is_static c) (Some (world (host s)))) lo s' ->
     code_ok (return_data s2) -> Forall log_ok (logs s2) -> (is_static c = true -> logs s2 = []) -> 0 <= gas_used s2 ->
     logs s' = logs s -> Q (st, s2) s') ->
  wp (run_sub sub c sub_code frame) Q E s.
Proof.
  intros Hi Hd Hc Hcode Hq. unfold EvmLogic.wp, run_sub. set (s1 := set_warm _ _ _).
  assert (Hfresh : fresh s1).
  { assert (Hlen : zlen (frames s1) = zlen (frames b) + 1).
    { unfold s1. simpl. by rewrite zlen_app, (i_frames _ _ _ _ _ _ _ Hi). }
    split; [split; try done; lia|]. split; [done|]. split; [done|]. destruct Hc as (_ & _ & _ & Hgl). unfold in_range in Hgl.
    constructor; try done; try (by intros x [= <-]); simpl; try lia.
    by eapply i_host. }
  pose proof (Hsub s1 Hfresh) as Hr. unfold EvmLogic.wp in Hr. destruct (sub s1) as [[st|[e|]|] s2]; try done.
  cbn [mbind res_bind]. destruct Hr as [p2 Hi2]. apply Hq.
  - eapply Inv_set_host; [exact Hi|by eapply i_host| |].
    + rewrite (i_open _ _ _ _ _ _ _ Hi2). exact (i_open _ _ _ _ _ _ _ Hi).
    + exact (i_world _ _ _ _ _ _ _ Hi2).
  - by eapply i_return.
  - by eapply i_logs.
  - intros Hst. pose proof (i_kept _ _ _ _ _ _ _ Hi2) as Hk. simpl in Hk. rewrite Hst in Hk. by apply Hk.
  - unfold gas_used. pose proof (sat_range 64 (gas_limit (ctx s2) - gas_remaining s2)) as Hr. unfold in_range in Hr. lia.
  - done.
Qed.

(** ** Closing a snapshot *)

Lemma wp_commit p g id w sn wo lo s (Q : unit -> St -> Prop) (E : St -> Prop) :
  Inv b p g ((id, w) :: sn) wo lo s -> (forall s', Inv b p g sn wo lo s' -> Q tt s') ->
  wp (mod_host (commit_snapshot id)) Q E s.
Proof.
  intros Hi Hq. destruct (commit_top (host s) id w sn) as [Hw Ho]; [by eapply i_open|]. apply wp_modify, Hq.
  eapply Inv_set_host; [done|apply host_ok_commit; by eapply i_host|done|]. rewrite Hw. by eapply i_world.
Qed.

Lemma wp_revert p g id w sn wo wo' lo s (Q : unit -> St -> Prop) (E : St -> Prop) :
  Inv b p g ((id, w) :: sn) wo lo s -> fixed wo' w -> (forall s', Inv b p g sn wo' lo s' -> Q tt s') ->
  wp (mod_host (revert_to id)) Q E s.
Proof.
  intros Hi Hf Hq. destruct (revert_top (host s) id w sn) as [Hw Ho]; [by eapply i_open|]. apply wp_modify, Hq.
  eapply Inv_set_host; [done|apply host_ok_revert; by eapply i_host|done|]. by rewrite Hw.
Qed.

(** ** CALL *)

(** A call that pushes 0 leaves the world and the logs as they were, and so
    does one that succeeds in a read-only context. *)
Definition call_post (ro : bool) p g sn wo lo (s : St) : Prop :=
  (list.last (st_data (stack s)) = Some (u256_from_u64 1) /\ Inv b p g sn (keep ro wo) (keep ro lo) s) \/
  (list.last (st_data (stack s)) = Some (u256_from_u64 0) /\ Inv b p g sn wo lo s).

Lemma Inv_ro p g g' sn ro ro' wo lo s : Inv b p g sn (keep ro wo) (keep ro lo) s -> (ro' = true -> ro = true) ->
  g <= g' -> g' < 2 ^ 64 -> Done b g' sn ro' wo lo s.
Proof.
  intros Hi Hr Hg Hg'. exists p. eapply Inv_gas; [|done..]. destruct Hi; constructor; try done; destruct ro'; try done;
    by rewrite Hr in *.
Qed.

Lemma push_zero_ret_ok ro ro' p g g' sn wo lo s ret_off ret_len : Inv b p g sn wo lo s -> 0 <= ret_off -> 0 <= ret_len ->
  g <= g' -> g' < 2 ^ 64 ->
  wp (push_zero_with_ret ret_off ret_len) (fun _ => call_post ro p g' sn wo lo) (Done b g' sn ro' wo lo) s.
Proof.
  intros Hi Ho Hl Hg Hg'. unfold push_zero_with_ret. wp_step. wp_step.
  eapply wp_expand; [apply Inv_set_return; [done|by apply (zeros_ok 0)]|lia|lia|intros; by eapply Inv_less|].
  intros s1 Hi1 _. eapply wp_spush; [done|apply from_u64_ok|by eapply Inv_less|]. intros s2 Hi2 Hl2. right.
  split; [done|]. by eapply Inv_gas.
Qed.

(** What follows a call that has run: the result data, the refund, the flag. *)
Lemma copy_out_ok p g sn wo lo s ret_off ret_len data (Q : unit -> St -> Prop) E : Inv b p g sn wo lo s ->
  0 <= ret_off -> 0 <= ret_len -> code_ok data -> (0 < ret_len -> ret_off + ret_len <= zlen (memory s)) ->
  (forall s', Inv b p g sn wo lo s' -> Q tt s') ->
  wp (let copy := Z.min ret_len (zlen data) in
      if 0 <? copy then chunk ← lift (slice data 0 copy); mwrite ret_off chunk else mret tt) Q E s.
Proof.
  intros Hi Ho Hl [Hdb Hdl] Hin Hq. cbv zeta. apply wp_if; [intros Hpos%Z.ltb_lt|intros _; by apply wp_ret, Hq].
  wp_step. apply wp_lift. rewrite slice_Ok by lia. eapply wp_mwrite; [done|done|by apply Forall_take, Forall_drop| |done].
  intros _. unfold zlen at 1. rewrite length_take, length_drop. unfold zlen in *. lia.
Qed.

Section settle.
Context (ro ro' : bool) (Hro : ro' = true -> ro = true) (p g : Z) (sn : list (Z * World)) (wo : option World)
  (lo : option (list EvmLog)) (snap : Z) (w : World) (Hw : fixed wo w) (ret_off ret_len forwarded billed : Z)
  (Hoff : 0 <= ret_off) (Hlen : 0 <= ret_len) (Hf : in_range 64 forwarded) (Hbill : 0 <= billed <= g) (Hg : g < 2 ^ 64).

(** Between the snapshot and its closing. *)
Definition during (s : St) : Prop := Inv b p (g - billed) ((snap, w) :: sn) (keep ro wo) lo s.

Lemma late g1 s : Inv b p g1 sn (keep ro wo) lo s -> g1 <= g -> Done b g sn ro' wo lo s.
Proof.
  intros Hi Hle. eapply (Inv_ro p g1 g sn ro ro'); [|done..]. destruct Hi. constructor; try done. by destruct ro.
Qed.

Lemma precompile_exit_ok r s : during s -> pre_ok forwarded r ->
  wp (precompile_exit r snap ret_off ret_len forwarded billed) (fun _ => call_post ro p g sn wo lo) (Done b g sn ro' wo lo) s.
Proof.
  intros Hi Hr. unfold precompile_exit. destruct r as [[out used]|e|]; [|..|done].
  - destruct Hr as [Hout Hu]. wp_step. eapply wp_commit; [done|]. intros s1 Hi1. wp_step. wp_step.
    eapply wp_expand; [by apply Inv_set_return|done|done|intros s' Hi'; eapply late; [done|lia]|]. intros s2 Hi2 Hin. cbv zeta. wp_step.
    eapply copy_out_ok; [done..|]. intros s3 Hi3. wp_step.
    eapply (wp_refund _ _ _ _ _ _ _ _ _ Hi3 _ g); [unfold sat; lia|unfold sat; lia|].
    intros s4 Hi4. eapply wp_spush; [done|apply from_u64_ok| |].
    + by eapply late.
    + intros s5 Hi5 Hl5. left. split; [done|]. destruct Hi5. constructor; try done. by destruct ro.
  - wp_step. eapply wp_revert; [done|done|]. intros s1 Hi1. eapply push_zero_ret_ok; [done|done|done|lia|lia].
Qed.

Lemma call_exit_ok st s2 s : during s -> code_ok (return_data s2) -> Forall log_ok (logs s2) -> (ro = true -> logs s2 = []) ->
  0 <= gas_used s2 ->
  wp (call_exit st s2 snap ret_off ret_len forwarded billed) (fun _ => call_post ro p g sn wo lo) (Done b g sn ro' wo lo) s.
Proof.
  intros Hi Hret Hlogs Hrl Hu. unfold call_exit. cbv zeta. wp_step. wp_step.
  set (ok := is_succeeded st). set (Wo := if ok then keep ro wo else wo). set (Lo := if ok then keep ro lo else lo).
  apply (wp_mono _ _ _ (fun _ s' => Inv b p (g - billed) sn Wo Lo s') _ (fun _ => False)); [| |done].
  { eapply Inv_set_warm in Hi. unfold Wo, Lo. destruct ok.
    - wp_step. eapply wp_commit; [exact Hi|]. intros s1 Hi1. wp_step. eapply Inv_set_logs; [exact Hi1| |].
      + apply Forall_app_2; [by eapply i_logs|done].
      + intros l Hl. destruct ro; [|done]. rewrite Hrl, app_nil_r by done. by eapply i_kept.
    - by eapply wp_revert; [exact Hi|..]. }
  intros _ s1 Hi1.
  assert (Hlate : forall s', Inv b p g sn Wo Lo s' -> Done b g sn ro' wo lo s').
  { unfold Wo, Lo. intros s' Hi'. destruct ok; [by eapply (Inv_ro p g)|by eapply Inv_Done]. }
  wp_step. eapply (wp_refund _ _ _ _ _ _ _ _ _ Hi1 _ g); [unfold sat; lia|unfold sat; lia|]. intros s3 Hi3. wp_step. wp_step.
  eapply wp_expand; [by apply Inv_set_return|done|done|done|]. intros s4 Hi4 Hin. wp_step.
  eapply copy_out_ok; [done..|]. intros s5 Hi5. eapply wp_spush; [done|apply from_u64_ok|by apply Hlate|].
  intros s6 Hi6 Hl6. unfold Wo, Lo in Hi6. destruct ok; [left|right]; by split.
Qed.

Lemma precompile_result_ok sn' s ts target data : Inv b p (g - billed) sn' (keep ro wo) lo s -> code_ok data ->
  pre_ok forwarded (precompile_result (host s) ts target data forwarded).
Proof.
  intros Hi Hd. unfold precompile_result. cbv zeta. pose proof (i_host _ _ _ _ _ _ _ Hi) as Hh.
  assert (Hrd : forall a k, word_ok (storage_load (host s) a k)) by (intros a k; by eapply (host_ok_reads _ a k 0)).
  destruct (_ =? 10); [|destruct (_ =? 12); [|destruct (_ =? 15)]].
  - apply do_payid_pre; [done| |]; intros; [by eapply resolve_ok|by eapply reverse_ok].
  - by apply oracle_pre.
  - by apply vault_pre.
  - by apply call_precompile_total.
Qed.

Lemma call_target_ok c target s : during s -> zlen (frames b) < CALL_DEPTH_LIMIT -> ctx_ok c -> gas_limit c = forwarded ->
  ro = is_static c ->
  wp (call_target sub c target snap ret_off ret_len billed) (fun _ => call_post ro p g sn wo lo) (Done b g sn ro' wo lo) s.
Proof.
  intros Hi Hd Hc Hgl Hst. unfold call_target. wp_step. cbv zeta. rewrite Hgl.
  assert (Hcode : code_ok (code_of (host s) target)).
  { eapply (host_ok_reads _ target zero_word 0). by eapply i_host. }
  destruct (is_precompile target).
  { apply precompile_exit_ok; [done|]. eapply precompile_result_ok; [done|]. apply Hc. }
  destruct (code_of (host s) target) as [|x code'] eqn:Hcd.
  - wp_step. eapply wp_commit; [done|]. intros s1 Hi1. do 2 wp_step.
    eapply wp_expand; [apply Inv_set_return; [done|by apply (zeros_ok 0)]|done|done|intros s' Hi'; eapply late; [done|lia]|].
    intros s2 Hi2 _. wp_step. eapply (wp_refund _ _ _ _ _ _ _ _ _ Hi2 _ g); [lia|lia|]. intros s3 Hi3.
    eapply wp_spush; [done|apply from_u64_ok|by eapply late|]. intros s4 Hi4 Hl4. left. split; [done|].
    destruct Hi4. constructor; try done. by destruct ro.
  - wp_step. eapply wp_run_sub; [exact Hi|done|done|done|]. intros st s2 s' Hi' Hr Hl Hsl Hu Hlogs. rewrite <-Hst in *.
    apply call_exit_ok; [|done..]. pose proof (i_world _ _ _ _ _ _ _ Hi') as Hw'.
    pose proof (i_world _ _ _ _ _ _ _ Hi) as Hw0. destruct Hi'. constructor; try done.
    destruct ro; [|done]. intros W HW. rewrite (Hw' _ eq_refl). by apply Hw0.
Qed.
End settle.

(** The kinds of call whose frame runs read-only. *)
Definition read_only (k : CallKind) (c : EVMContext) : bool :=
  is_static c || match k with StaticCall => true | _ => false end.

Lemma sub_context_ok k c target v data fwd : ctx_ok c -> addr_ok target -> word_ok v -> code_ok data -> in_range 64 fwd ->
  ctx_ok (sub_context k c target v data fwd) /\ gas_limit (sub_context k c target v data fwd) = fwd /\
  is_static (sub_context k c target v data fwd) = read_only k c.
Proof.
  intros ((? & ? & ? & ?) & (? & ?) & ? & ?) Ht Hv Hd Hf. unfold read_only.
  destruct k; rewrite ?orb_false_r, ?orb_true_r; (split; [|done]); split_and!; try done. apply zero_word_ok.
Qed.

Lemma value_arg_ok k p g sn wo lo s (Q : word -> St -> Prop) (E : St -> Prop) : Inv b p g sn wo lo s -> E s ->
  (forall v s', word_ok v -> Inv b p g sn wo lo s' -> Q v s') ->
  wp (match k with Call | CallCode => spop | DelegateCall => mret (value (ctx b)) | StaticCall => mret zero_word end) Q E s.
Proof.
  intros Hi He Hq. destruct k; try (by eapply wp_spop); apply wp_ret, Hq; try done; [apply (f_ctx b Hb)|apply zero_word_ok].
Qed.

Lemma forward_range r q : 0 <= r < 2 ^ 64 -> 0 <= q -> 0 <= forward_gas_eip150 r q <= r.
Proof.
  intros Hr Hq. unfold forward_gas_eip150. pose proof (Z.div_pos r 64 ltac:(lia) ltac:(lia)).
  pose proof (Z.div_le_upper_bound r 64 r ltac:(lia) ltac:(lia)). rewrite sat_small by (unfold in_range; lia). lia.
Qed.

(** [snapshot] and what it records. *)
Lemma snapshot_Inv p g sn wo lo s : Inv b p g sn wo lo s ->
  Inv b p g ((fst (snapshot (host s)), world (host s)) :: sn) wo lo (set_host (snd (snapshot (host s))) s).
Proof.
  intros Hi. eapply Inv_set_host; [exact Hi|apply host_ok_snapshot; by eapply i_host| |].
  - rewrite snapshot_open. f_equal. by eapply i_open.
  - rewrite snapshot_world. by eapply i_world.
Qed.

Lemma transfer_ok p g sn lo s a v (f := fun h : H => snd (host_transfer a (fst v) (snd v) h)) wo
  (Q : unit -> St -> Prop) (E : St -> Prop) : Inv b p g sn wo lo s -> word_ok (snd v) ->
  (forall s', Inv b p g sn None lo s' -> host s' = f (host s) -> Q tt s') -> wp (mod_host f) Q E s.
Proof.
  intros Hi Hv Hq. eapply wp_mod_host; [exact Hi| | |apply fixed_None|exact Hq].
  - apply host_ok_transfer; [by eapply i_host|done].
  - unfold f. rewrite transfer_open. by eapply i_open.
Qed.

(** The surcharges for a transfer. *)
Lemma surcharge_ok (c1 c2 : bool) p g sn wo lo s : Inv b p g sn wo lo s ->
  wp (if c1 then _ ← consume_gas GAS_CALL_VALUE_TRANSFER; if c2 then consume_gas GAS_NEW_ACCOUNT else mret tt else mret tt)
    (fun _ => Inv b p g sn wo lo) (Done b g sn (is_static (ctx b)) wo lo) s.
Proof.
  intros Hi. unfold GAS_CALL_VALUE_TRANSFER, GAS_NEW_ACCOUNT. apply wp_if; intros _; [|by apply wp_ret].
  wp_step. eapply wp_consume; [done|done|exits|]. intros s1 Hi1 _ _. bounds.
  apply wp_if; intros _; [|apply wp_ret; eapply Inv_gas; [done|lia..]].
  eapply wp_consume; [done|done|exits|]. intros s2 Hi2 _ _. bounds. eapply Inv_gas; [done|lia..].
Qed.

Lemma do_call_ok k p g sn wo lo s : Inv b p g sn wo lo s ->
  wp (do_call sub k) (fun _ => call_post (read_only k (ctx b)) p g sn wo lo) (Done b g sn (is_static (ctx b)) wo lo) s.
Proof.
  intros Hi. pose proof (f_ctx b Hb) as Hctx. unfold do_call. wp_step. cbv zeta. rewrite (i_ctx _ _ _ _ _ _ _ Hi).
  do 5 op_step. eapply value_arg_ok; [done|exits|]. intros w s1 Hw Hi1. do 16 op_step. do 2 wp_step.
  eapply wp_mono; [by eapply surcharge_ok| |done]. intros [] s2 Hi2. wp_step. cbv beta.
  set (acts := has_value_arg k && negb (u256_is_zero w)) in *.
  assert (Hro : read_only k (ctx b) = true -> is_call k && acts = false).
  { unfold acts, read_only in *. destruct k; try done; simpl in *. rewrite orb_false_r. intros Hst. by rewrite Hst in *. }
  assert (Hro' : is_static (ctx b) = true -> read_only k (ctx b) = true) by (unfold read_only; by intros ->).
  rewrite (i_frames _ _ _ _ _ _ _ Hi2). pose proof (i_gas _ _ _ _ _ _ _ Hi2) as Hg2.
  apply wp_if; intros Hdepth; bool_to_prop; [by eapply push_zero_ret_ok; [done|lia..]|].
  set (billed := forward_gas_eip150 _ _). assert (Hbill : 0 <= billed <= gas_remaining s2) by (apply forward_range; lia).
  wp_step. eapply wp_consume_enough; [done|done|]. intros s3 Hi3 _ _. wp_step.
  pose proof (i_world _ _ _ _ _ _ _ Hi3) as HfW. apply snapshot_Inv in Hi3. destruct (snapshot (host s3)) as [snap h]. cbn [fst snd] in Hi3.
  remember (world (host s3)) as W0 eqn:HW0. wp_step.
  apply wp_if; intros Hbal; [|clear Hbal].
  { wp_step. eapply wp_revert; [done|exact HfW|]. intros s4 Hi4. wp_step.
    eapply (wp_refund _ _ _ _ _ _ _ _ _ Hi4 _ g); [lia|lia|]. intros s5 Hi5. by eapply push_zero_ret_ok; [done|lia..]. }
  set (fwd := sat 64 _). assert (Hf : in_range 64 fwd) by (by apply sat_range).
  destruct (sub_context_ok k (ctx b) a w d fwd) as (Hc & Hcg & Hcs); [done..|].
  wp_step. apply (wp_mono _ _ _ (fun _ => during (read_only k (ctx b)) p g sn wo lo snap W0 billed) _ (fun _ => False)); [| |done].
  - unfold during. apply wp_if; intros Ht.
    + assert (Hn : read_only k (ctx b) = false) by (destruct (read_only k (ctx b)); [rewrite Hro in Ht|]; done).
      rewrite Hn. by eapply (transfer_ok _ _ _ _ _ (callee (ctx b)) (a, w)).
    + apply wp_ret. destruct Hi3. constructor; try done. by destruct (read_only k (ctx b)).
  - intros _ s4 Hi4. apply (call_target_ok _ _ Hro' p g sn wo lo snap W0 HfW v2 v3 fwd billed); first [done|lia].
Qed.

(** ** CREATE *)

Lemma create_address_ok a n : addr_ok (create_address a n).
Proof. apply word_addr_ok, keccak_ok. Qed.
Lemma create2_address_ok a salt code : addr_ok (create2_address a salt code).
Proof. apply word_addr_ok, keccak_ok. Qed.

Lemma push_zero_ok p g g' sn ro wo lo s : Inv b p g sn wo lo s -> g <= g' -> g' < 2 ^ 64 ->
  wp push_zero (fun _ => Inv b p g' sn (keep ro wo) (keep ro lo)) (Done b g' sn ro wo lo) s.
Proof.
  intros Hi Hg Hg'. unfold push_zero. wp_step.
  assert (Hi0 : Inv b p g sn wo lo (set_return [] s)) by (apply Inv_set_return; [done|by apply (zeros_ok 0)]).
  eapply wp_spush; [exact Hi0|apply zero_word_ok|by eapply Inv_less|].
  intros s1 Hi1 _. apply Inv_keep. by eapply Inv_gas.
Qed.

Lemma inc_nonce_ok p g sn wo lo s a (Q : Z -> St -> Prop) (E : St -> Prop) : Inv b p g sn wo lo s ->
  (forall s', Inv b p g sn None lo s' -> (is_ok (fst (inc_nonce a (host s))) = true -> False) -> E s') ->
  (forall n s', Inv b p g sn None lo s' -> host s' = snd (inc_nonce a (host s)) -> Q n s') -> wp (on_host (inc_nonce a)) Q E s.
Proof.
  intros Hi He Hq. unfold EvmLogic.wp, on_host. pose proof (inc_nonce_no_panic (host s) a) as Hp.
  pose proof (inc_nonce_open (host s) a) as Ho. pose proof (host_ok_inc_nonce (host s) a (i_host _ _ _ _ _ _ _ Hi)) as Hh.
  destruct (inc_nonce a (host s)) as [r h]. cbn [fst snd] in *.
  assert (Hi' : Inv b p g sn None lo (set_host h s)).
  { eapply Inv_set_host; [exact Hi|done| |apply fixed_None]. rewrite Ho. by eapply i_open. }
  destruct r as [n|e|]; [by apply Hq|by apply He|done].
Qed.

(** The snapshot is open, the constructor has run. *)
Lemma create_exit_ok p g sn lo snap w forwarded new_addr st s2 s : Inv b p (g - forwarded) ((snap, w) :: sn) None lo s ->
  is_static (ctx b) = false -> 0 <= forwarded <= g -> g < 2 ^ 64 -> addr_ok new_addr ->
  code_ok (return_data s2) -> Forall log_ok (logs s2) -> 0 <= gas_used s2 ->
  wp (create_exit st s2 new_addr snap forwarded) (fun _ => Inv b p g sn None None) (Done b g sn false None lo) s.
Proof.
  intros Hi Hst Hf Hg Ha Hret Hlogs Hu. unfold create_exit. cbv zeta. wp_step. wp_step.
  eapply Inv_set_warm in Hi. eapply (wp_refund _ _ _ _ _ _ _ _ _ Hi _ g); [unfold sat; lia|unfold sat; lia|]. clear Hi s.
  intros s Hi.
  assert (Hreject : wp (_ ← mod_host (revert_to snap); push_zero) (fun _ => Inv b p g sn None None) (Done b g sn false None lo) s).
  { wp_step. eapply wp_revert; [exact Hi|apply (fixed_None w)|]. intros s1 Hi1. by apply (push_zero_ok p g g sn false None lo). }
  apply wp_if; intros _.
  { wp_step. eapply wp_revert; [exact Hi|apply (fixed_None w)|]. intros s1 Hi1. wp_step.
    assert (Hi2 : Inv b p g sn None lo (set_return (return_data s2) s1)) by by apply Inv_set_return.
    eapply wp_spush; [exact Hi2|apply zero_word_ok|by eapply Inv_Done|]. intros s3 Hi3 _. by apply (Inv_keep b p g sn None lo false). }
  apply wp_if; intros Hsize; [done|]. apply wp_if; intros _; [done|]. wp_step.
  set (cost := u64 _). assert (Hcost : 0 <= cost) by (by apply wrap_range).
  pose proof (i_gas _ _ _ _ _ _ _ Hi). apply wp_if; intros Hlow; bool_to_prop; [done|]. wp_step.
  eapply wp_consume_enough; [done|lia|]. clear Hreject. intros s1 Hi1 _ _. wp_step.
  eapply (wp_mod_host _ _ b p _ _ _ _ None); [exact Hi1| | |apply fixed_None|].
  { apply host_ok_set_code; [by eapply i_host|done]. }
  { rewrite set_code_open. by eapply i_open. }
  intros s3 Hi3 _. wp_step. eapply wp_commit; [done|]. intros s4 Hi4. do 2 wp_step.
  assert (Hi5 : Inv b p (g - cost) sn None None (set_return [] (set_logs (logs s4 ++ logs s2) s4))).
  { apply Inv_set_return; [|by apply (zeros_ok 0)]. eapply Inv_set_logs; [done| |apply fixed_None].
    apply Forall_app_2; [by eapply i_logs|done]. }
  eapply wp_spush; [exact Hi5|by apply addr_word_ok|eapply (Inv_less b p _ g sn false None None); [done|lia|lia]|].
  intros s6 Hi6 _. eapply Inv_gas; [done|lia|lia].
Qed.

Lemma create_at_ok p g sn wo lo s v new_addr initcode : Inv b p g sn wo lo s -> is_static (ctx b) = false ->
  zlen (frames b) < CALL_DEPTH_LIMIT -> word_ok v -> addr_ok new_addr -> code_ok initcode -> nonce (host s) new_addr = 0 ->
  wp (create_at sub v new_addr initcode) (fun _ => Inv b p g sn None None) (Done b g sn false None lo) s.
Proof.
  intros Hi Hst Hd Hv Ha Hcode Hn. pose proof (f_ctx b Hb) as ((Hca & Hce & Hco & Hor) & (_ & Hra) & _ & _).
  unfold create_at. wp_step. cbv zeta. rewrite (i_ctx _ _ _ _ _ _ _ Hi). pose proof (i_gas _ _ _ _ _ _ _ Hi) as Hg.
  pose proof (snapshot_Inv _ _ _ _ _ _ Hi) as Hs. pose proof (snapshot_world (host s)) as Hw.
  destruct (snapshot (host s)) as [snap h]. cbn [fst snd] in *. remember (world (host s)) as W0 eqn:HW0. wp_step. wp_step.
  assert (Hnh : nonce h new_addr = 0).
  { rewrite HW0 in Hw. by destruct (read_world _ _ new_addr zero_word Hw) as (_ & -> & _). }
  apply (wp_mono _ _ _ (fun _ s' => Inv b p g ((snap, W0) :: sn) None lo s' /\ nonce (host s') new_addr = 0) _ (fun _ => False));
    [| |done].
  { apply wp_if; intros _; [|apply wp_ret; split; [destruct Hs; by constructor|done]].
    eapply (transfer_ok _ _ _ _ _ (callee (ctx b)) (new_addr, v)); [exact Hs|done|]. intros s' Hi' ->. split; [done|].
    by rewrite transfer_nonce. }
  intros [] s1 [Hi1 Hn1]. wp_step. eapply inc_nonce_ok; [exact Hi1|intros s' _ []; by apply inc_nonce_fresh|].
  intros n s3 Hi3 _. wp_step. eapply (wp_mod_host _ _ b p _ _ _ _ None); [exact Hi3| | |apply fixed_None|].
  { apply host_ok_mark. by eapply i_host. }
  { rewrite mark_open. by eapply i_open. }
  intros s4 Hi4 _. wp_step. pose proof (i_gas _ _ _ _ _ _ _ Hi4) as Hg4.
  set (fwd := forward_gas_eip150 _ _). assert (Hfwd : 0 <= fwd <= gas_remaining s4) by (apply forward_range; lia).
  wp_step. eapply wp_consume_enough; [done|done|]. intros s5 Hi5 _ _. wp_step.
  eapply wp_run_sub; [exact Hi5|done| |done|].
  { split_and!; try done; try apply (zeros_ok 0); try (unfold in_range; simpl; lia). }
  intros st s2 s' Hi' Hret Hlogs _ Hu _. eapply create_exit_ok; first [done|lia].
Qed.

Lemma do_create_ok salt p g sn wo lo s : Inv b p g sn wo lo s ->
  wp (do_create sub salt) (fun _ => Inv b p g sn (keep (is_static (ctx b)) wo) (keep (is_static (ctx b)) lo)) (Done b g sn (is_static (ctx b)) wo lo) s.
Proof.
  intros Hi. pose proof (f_ctx b Hb) as Hctx. unfold do_create. wp_step. cbv zeta.
  wp_step. eapply fail_static; [exact Hi|exits|]. intros Hst. rewrite (i_ctx _ _ _ _ _ _ _ Hi).
  do 6 op_step. wp_step.
  apply (wp_mono _ _ _ (fun _ => Inv b p g sn wo lo) _ (Done b g sn (is_static (ctx b)) wo lo)); [| |done].
  { apply wp_if; intros _; [repeat op_step; done|by apply wp_ret]. }
  intros salt_opt s1 Hi1. do 4 op_step. set (words := u64 _ / 32).
  pose proof (proj1 (wrap_range 64 (GAS_INITCODE_WORD * words) ltac:(lia))) as Hc1.
  pose proof (proj1 (wrap_range 64 (6 * words) ltac:(lia))) as Hc2. do 2 op_step; [done|]. bounds. wp_step.
  apply (wp_mono _ _ _ (fun _ s' => Inv b p g sn wo lo s' /\ memory s' = memory s'2) _ (Done b g sn (is_static (ctx b)) wo lo)); [| |done].
  { apply wp_if; intros _; [op_step; [done|]|apply wp_ret]; (split; [eapply Inv_gas; [done|bounds; lia..]|congruence]). }
  intros [] s2 [Hi2 Hmem]. do 2 op_step. wp_step. rewrite (i_frames _ _ _ _ _ _ _ Hi2).
  assert (Hpz : forall s', Inv b p g sn None lo s' -> wp push_zero (fun _ => Inv b p g sn (keep (is_static (ctx b)) wo) (keep (is_static (ctx b)) lo)) (Done b g sn (is_static (ctx b)) wo lo) s').
  { intros sx Hix. rewrite Hst. apply (push_zero_ok p g g sn false None lo); [done|lia|lia]. }
  assert (Hi2' : Inv b p g sn None lo s2) by (destruct Hi2; by constructor).
  apply wp_if; intros Hdepth; bool_to_prop; [by apply Hpz|]. apply wp_if; intros _; [by apply Hpz|].
  set (new_addr := match salt_opt with Some _ => _ | None => _ end).
  assert (Ha : addr_ok new_addr) by (unfold new_addr; destruct salt_opt; [apply create2_address_ok|apply create_address_ok]).
  wp_step. eapply inc_nonce_ok; [exact Hi2'|intros sx Hix _; rewrite Hst; by apply (Inv_Done b p g sn false None lo)|]. intros n s3 Hi3 _. wp_step.
  apply wp_if; intros Hcol; [by apply Hpz|]. bool_to_prop.
  rewrite Hst. apply (create_at_ok p g sn None lo); [exact Hi3|done|lia|done|done|done|].
  destruct (Inv_reads b p g sn None lo s3 new_addr zero_word 0 Hi3) as (_ & Hn & _). unfold in_range in Hn. lia.
Qed.

(** ** RETURN, REVERT, SELFDESTRUCT *)

Context (p : Z) (Hp : p < zlen (code b)).

Lemma return_op_ok byte st : op_ok byte b p (return_op st).
Proof.
  intros g sn wo lo s Hi. unfold return_op. repeat op_step. eapply Inv_Done. by apply Inv_set_return.
Qed.

Lemma selfdestruct_ok byte : op_ok byte b p selfdestruct.
Proof.
  intros g sn wo lo s Hi. unfold selfdestruct, GAS_SELFDESTRUCT. do 2 wp_step. eapply fail_static; [done|exits|]. intros Hst.
  do 3 op_step. op_step; [done|]. bounds. do 3 op_step.
  eapply (wp_mod_host _ _ b p _ _ _ _ None); [done| | |apply fixed_None|].
  - apply host_ok_destruct. by eapply i_host.
  - rewrite destruct_open. by eapply i_open.
  - intros s4 Hi4 _. apply wp_ret. unfold flow_post; rewrite Hst. eapply (Inv_less b p _ g sn false None lo); [exact Hi4|lia|lia].
Qed.

Lemma call_post_next byte ro g sn wo lo s : (is_static (ctx b) = true -> ro = true) -> call_post ro p g sn wo lo s ->
  flow_post byte b p g sn wo lo Next s.
Proof.
  intros Hro [[_ Hi]|[_ Hi]]; exists p; (split; [done|]); [|by apply Inv_keep].
  destruct Hi; constructor; try done; destruct (is_static (ctx b)); try done; by rewrite Hro in *.
Qed.

Lemma system_ok byte : op_ok byte b p (exec_system sub byte).
Proof.
  intros g sn wo lo s Hi. unfold exec_system. pose proof (Inv_Done _ _ _ _ (is_static (ctx b)) _ _ _ Hi) as Hd.
  assert (Hcall : forall k, wp (_ ← do_call sub k; mret Next) (flow_post byte b p g sn wo lo) (Done b g sn (is_static (ctx b)) wo lo) s).
  { intros k. wp_step. eapply wp_mono; [by eapply do_call_ok| |done]. intros [] s1 Hs1. apply wp_ret.
    eapply call_post_next; [|exact Hs1]. unfold read_only. by intros ->. }
  assert (Hcreate : forall salt, wp (_ ← do_create sub salt; mret Next) (flow_post byte b p g sn wo lo) (Done b g sn (is_static (ctx b)) wo lo) s).
  { intros salt. wp_step. eapply wp_mono; [by eapply do_create_ok| |done]. intros [] s1 Hs1. apply wp_ret. by exists p. }
  repeat (apply wp_if; intros _; [first [apply Hcall|apply Hcreate|by apply return_op_ok|by apply selfdestruct_ok|by apply wp_fail]|]).
  by apply wp_fail.
Qed.

Lemma dispatch_ok byte : 0 <= byte -> (byte = 0x37 \/ byte = 0x39 \/ byte = 0x3c -> pan) -> op_ok byte b p (dispatch sub byte).
Proof.
  intros Hb0 Hpan. apply arith_ok, env_ok; [done..|]. apply mem_ops_ok, push_ops_ok; [done..|]. apply system_ok.
Qed.
End calls.
