(* ===== verification/EvmRun.v ===== *)
(** * Running a frame

    One step and the loop preserve the frame's invariant; the fuel that an
    execution needs is bounded by its gas, its code and the depth limit, so
    that [execute] is a total function; and what follows for whole executions:
    types, gas, static frames, undone calls and panics.

    Below: the bitmap of jump destinations. *)

From Stdlib Require Import ZArith Lia String.
From stdpp Require Import base tactics list gmap sets numbers option.
From S2P Require Import Prelude Bytes U256 U256Ops EvmMachine EvmHost NativeReads EvmPrecompiles EvmInterp EvmLogic EvmOps.

Local Open Scope Z_scope.

(** The opcodes that slice their source without checking the offset. *)
Definition copy_byte (byte : Z) : Prop := byte = 0x37 \/ byte = 0x39 \/ byte = 0x3c.

(** Fuel: a frame takes at most [len] steps for each unit of gas, and calls
    nest at most [CALL_DEPTH_LIMIT] deep. *)
Definition LEN : Z := 2 ^ 63 + 1.
Definition FRAME_FUEL : Z := 2 ^ 64 * LEN + LEN + 2.
Definition fuel_needed (depth g rest : Z) : Z := g * LEN + Z.max 0 rest + 1 + (CALL_DEPTH_LIMIT - depth) * FRAME_FUEL.

Section run.
Context {H : Type} `{HostLaws H} `{PrimitivesLaws}.
Abbreviation St := (EVMInterpreter H).
Abbreviation FM := (M St Stop).

Section rules.
Context (pan oof : Prop).
Abbreviation wp := (wp pan oof).

Definition step_post (b : St) (p g : Z) sn wo lo (r : option ExitStatus) (s : St) : Prop :=
  match r with
  | None => exists p' g', Inv b p' g' sn (keep (is_static (ctx b)) wo) (keep (is_static (ctx b)) lo) s /\
              0 <= g' <= g /\ (g' < g \/ p < p') /\ p < zlen (code b)
  | Some _ => Done b g sn (is_static (ctx b)) wo lo s
  end.

Lemma static_gas_pos op : 0 <= Opcode.static_gas op.
Proof. by destruct op. Qed.

Lemma step_ok b (sub : FM ExitStatus) p g sn wo lo s : frame_ok b ->
  (forall s, fresh b s -> wp sub (fun _ => frame_done s) (fun _ => False) s) ->
  (forall byte, code b !! Z.to_nat p = Some byte -> copy_byte byte -> pan) -> Inv b p g sn wo lo s ->
  wp (step sub) (step_post b p g sn wo lo) (Done b g sn (is_static (ctx b)) wo lo) s.
Proof.
  intros Hb Hsub Hpan Hi. unfold step. wp_step. rewrite (i_code _ _ _ _ _ _ _ Hi).
  destruct (i_pc _ _ _ _ _ _ _ Hi) as [-> Hp0]. apply wp_if; intros Hpc; bool_to_prop.
  { apply wp_ret. by eapply Inv_Done. }
  wp_step. apply wp_lift. destruct (index_Ok (E:=Stop) (code b) p) as (byte & Hbyte & ->); [lia|].
  assert (Hb0 : 0 <= byte).
  { destruct (f_code b Hb) as [Hcb _]. apply (Forall_lookup_1 _ _ _ _ Hcb) in Hbyte. unfold Bytes.byte in Hbyte. lia. }
  destruct (Opcode.from_u8 byte) as [op|] eqn:Hop; [|apply wp_fail; by eapply Inv_Done].
  pose proof (static_gas_pos op) as Hsg. wp_step. eapply wp_consume; [done|done|by eapply Inv_Done|].
  intros s1 Hi1 Hle _. bounds. wp_step.
  eapply wp_mono; [by eapply (dispatch_ok pan oof b Hb sub Hsub p ltac:(lia) byte Hb0 (Hpan byte Hbyte))| |].
  - intros r s2 Hr. destruct r as [|[st|]]; simpl in Hr.
    + destruct Hr as (p' & Hp' & Hi2). wp_step. apply wp_ret. exists (p' + 1), (g - Opcode.static_gas op).
      destruct (i_pc _ _ _ _ _ _ _ Hi2) as [-> _]. split; [|lia]. apply (Inv_set_pc b p'); [done|lia].
    + apply wp_ret. eapply Done_gas; [exact Hr|lia|lia].
    + destruct Hr as [Hj [p' Hi2]]. apply wp_ret. exists p', (g - Opcode.static_gas op). split; [done|].
      assert (0 < Opcode.static_gas op) by by destruct Hj as [-> | ->]; injection Hop as <-. lia.
  - intros s2 Hs2. eapply Done_gas; [exact Hs2|lia|lia].
Qed.

Lemma keep_keep {A} ro (o : option A) : keep ro (keep ro o) = keep ro o.
Proof. by destruct ro. Qed.

(** What a frame needs, and what it leaves to the frames below. *)
Lemma fuel_rest fuel b p g : frame_ok b -> 0 <= g < 2 ^ 64 ->
  fuel_needed (zlen (frames b)) g (zlen (code b) - p) <= Z.of_nat (S fuel) ->
  (forall s, fresh b s -> fuel_needed (zlen (frames s)) (gas_limit (ctx s)) (zlen (code s)) <= Z.of_nat fuel) /\
  (forall p' g', 0 <= p' -> 0 <= g' <= g -> g' < g \/ p < p' -> p < zlen (code b) ->
     fuel_needed (zlen (frames b)) g' (zlen (code b) - p') <= Z.of_nat fuel).
Proof.
  intros Hb Hg Hf. destruct (f_code b Hb) as [_ Hl]. pose proof (f_depth b Hb) as Hd. unfold fuel_needed, FRAME_FUEL, LEN, CALL_DEPTH_LIMIT in *.
  split.
  - intros s (Hs & Hfr & _ & Hi). destruct (f_code s Hs) as [_ Hls]. pose proof (f_depth s Hs) as Hds. pose proof (zlen_nonneg (code s)).
    pose proof (i_gas _ _ _ _ _ _ _ Hi) as Hgs. rewrite Hfr in *. unfold CALL_DEPTH_LIMIT in *. nia.
  - intros p' g' Hp' Hg' Hor Hp. nia.
Qed.

Lemma run_ok fuel : pan -> forall b p g sn wo lo s, frame_ok b -> Inv b p g sn wo lo s ->
  (oof \/ fuel_needed (zlen (frames b)) g (zlen (code b) - p) <= Z.of_nat fuel) ->
  wp (run fuel) (fun _ => Done b g sn (is_static (ctx b)) wo lo) (fun _ => False) s.
Proof.
  intros Hpan. induction fuel as [|fuel IH]; intros b p g sn wo lo s Hb Hi Hfuel.
  { destruct Hfuel as [Ho|Hf]; [exact Ho|]. exfalso. pose proof (f_depth b Hb). pose proof (i_gas _ _ _ _ _ _ _ Hi).
    unfold fuel_needed, FRAME_FUEL, LEN in Hf. nia. }
  pose proof (i_gas _ _ _ _ _ _ _ Hi) as Hgas.
  assert (Hsub : forall s1, fresh b s1 -> wp (run fuel) (fun _ => frame_done s1) (fun _ => False) s1).
  { intros s1 Hs1. pose proof Hs1 as (Hf1 & _ & _ & Hi1). apply (IH s1 0); [done..|]. destruct Hfuel as [Ho|Hf]; [by left|right].
    rewrite Z.sub_0_r. by apply (fuel_rest fuel b p g Hb ltac:(lia) Hf). }
  pose proof (step_ok b (run fuel) p g sn wo lo s Hb Hsub (fun _ _ _ => Hpan) Hi) as Hstep.
  unfold EvmLogic.wp in *. cbn [run]. destruct (step (run fuel) s) as [[[st|]|[e|]|] s1]; [done| |done..].
  destruct Hstep as (p' & g' & Hi1 & Hg1 & Hless & Hp).
  assert (Hf' : oof \/ fuel_needed (zlen (frames b)) g' (zlen (code b) - p') <= Z.of_nat fuel).
  { destruct Hfuel as [Ho|Hf]; [by left|right]. destruct (i_pc _ _ _ _ _ _ _ Hi1) as [_ Hp'].
    by apply (fuel_rest fuel b p g Hb ltac:(lia) Hf). }
  pose proof (IH b p' g' sn _ _ s1 Hb Hi1 Hf') as Hrun. unfold EvmLogic.wp in Hrun. destruct (run fuel s1) as [[st|[e|]|] s2]; try done.
  destruct Hrun as [p2 Hi2]. rewrite !keep_keep in Hi2. exists p2. eapply Inv_gas; [exact Hi2|lia|lia].
Qed.
End rules.

(** ** More fuel does not change an outcome *)

Definition extends {A} (m m' : FM A) : Prop := forall s, fst (m s) = Err OutOfFuel \/ m' s = m s.

Lemma extends_refl {A} (m : FM A) : extends m m.
Proof. by right. Qed.
Lemma extends_bind {A B} (m m' : FM A) (k k' : A -> FM B) :
  extends m m' -> (forall a, extends (k a) (k' a)) -> extends (m ≫= k) (m' ≫= k').
Proof.
  intros Hm Hk s. unfold mbind, M_bind. destruct (Hm s) as [Ho| ->].
  - left. destruct (m s) as [[a|e|] s1]; simpl in *; congruence.
  - destruct (m s) as [[a|e|] s1]; [apply Hk|by right..].
Qed.
Lemma extends_run_sub sub sub' c code frame : extends sub sub' ->
  extends (run_sub sub c code frame) (run_sub sub' c code frame).
Proof.
  intros Hs s. unfold run_sub. set (s1 := set_warm _ _ _). destruct (Hs s1) as [Ho| ->]; [left|by right].
  destruct (sub s1) as [[a|e|] s2]; simpl in *; congruence.
Qed.

(** Only [run_sub] looks at the sub-interpreter. *)
Ltac extend := repeat match goal with
  | |- extends (run_sub _ _ _ _) _ => by apply extends_run_sub
  | |- extends ?m ?m => apply extends_refl
  | |- extends (_ ≫= _) (_ ≫= _) => apply extends_bind; [|intros]
  | |- extends (if ?c then _ else _) _ => destruct c
  | |- extends (match ?x with _ => _ end) _ => destruct x
  end.

Lemma extends_do_call sub sub' k : extends sub sub' -> extends (do_call sub k) (do_call sub' k).
Proof.
  intros Hs. unfold do_call. extend. unfold call_target. extend.
Qed.
Lemma extends_do_create sub sub' salt : extends sub sub' -> extends (do_create sub salt) (do_create sub' salt).
Proof.
  intros Hs. unfold do_create. extend; unfold create_at; extend.
Qed.
Lemma extends_dispatch sub sub' byte : extends sub sub' -> extends (dispatch sub byte) (dispatch sub' byte).
Proof.
  intros Hs. unfold dispatch.
  assert (Hsys : extends (exec_system sub byte) (exec_system sub' byte)).
  { unfold exec_system. extend; try (by apply extends_do_call); by apply extends_do_create. }
  revert Hsys. generalize (exec_system sub byte), (exec_system sub' byte). intros m m' Hm.
  assert (Hpush : extends (exec_push byte m) (exec_push byte m')) by (unfold exec_push; extend; done).
  revert Hpush. generalize (exec_push byte m), (exec_push byte m'). clear m m' Hm. intros m m' Hm.
  assert (Hmem : extends (exec_mem byte m) (exec_mem byte m')) by (unfold exec_mem; extend; done).
  revert Hmem. generalize (exec_mem byte m), (exec_mem byte m'). clear m m' Hm. intros m m' Hm.
  assert (Henv : extends (exec_env byte m) (exec_env byte m')) by (unfold exec_env; extend; done).
  revert Henv. generalize (exec_env byte m), (exec_env byte m'). clear m m' Hm. intros m m' Hm.
  unfold exec_arith. extend; done.
Qed.

Lemma extends_step sub sub' : extends sub sub' -> extends (step sub) (step sub').
Proof. intros Hs. unfold step. extend. by apply extends_dispatch. Qed.

Lemma run_more fuel : forall fuel', (fuel <= fuel')%nat -> extends (run fuel) (run fuel').
Proof.
  induction fuel as [|fuel IH]; intros fuel' Hle s; [by left|]. destruct fuel' as [|fuel']; [lia|].
  pose proof (IH fuel' ltac:(lia)) as Hext. cbn [run]. destruct (extends_step _ _ Hext s) as [Ho| ->].
  - left. destruct (step (run fuel) s) as [[a|e|] s1]; simpl in Ho; by simplify_eq.
  - destruct (step (run fuel) s) as [[[st|]|[e|]|] s1]; try (by right). apply Hext.
Qed.

(** ** Executions *)

(** A state the interpreter can be in: its values have their types. *)
Definition running (s : St) : Prop :=
  frame_ok s /\ Inv s (pc s) (gas_remaining s) (open_snaps (host s)) (Some (world (host s))) (Some (logs s)) s.

(** What [execute] is given. *)
Definition input_ok (c : EVMContext) (code : bytes) (h : H) : Prop := ctx_ok c /\ code_ok code /\ host_ok h.

Lemma interp_new_ok c code h : input_ok c code h -> frame_ok (interp_new c code h) /\
  Inv (interp_new c code h) 0 (gas_limit c) (open_snaps h) (Some (world h)) (Some []) (interp_new c code h).
Proof.
  intros (Hc & Hcode & Hh). pose proof Hc as (_ & _ & _ & Hg). unfold in_range in Hg. split; [by split|].
  constructor; try done; try (by intros x [= <-]); simpl; try lia.
Qed.

Definition fuel_bound (c : EVMContext) (code : bytes) : Z := fuel_needed 0 (gas_limit c) (zlen code).

Lemma execute_ok pan oof fuel c code h : pan -> input_ok c code h ->
  oof \/ fuel_bound c code <= Z.of_nat fuel ->
  wp pan oof (run fuel) (fun _ => Done (interp_new c code h) (gas_limit c) (open_snaps h) (is_static c) (Some (world h)) (Some []))
    (fun _ => False) (interp_new c code h).
Proof.
  intros Hpan Hin Hfuel. destruct (interp_new_ok c code h Hin) as [Hf Hi].
  apply (run_ok pan oof fuel Hpan _ 0 (gas_limit c) _ _ _ _ Hf Hi). simpl. by rewrite Z.sub_0_r.
Qed.

(** C14. Every execution ends: with [fuel_bound] steps it has an outcome, which is
    a status of the program or a panic and does not depend on the fuel. *)
Theorem evm_terminates c code h : input_ok c code h ->
  exists r s, (r = Panic \/ exists st, r = Ok st) /\
    forall fuel, fuel_bound c code <= Z.of_nat fuel -> execute fuel c code h = (r, s).
Proof.
  intros Hin. set (n := Z.to_nat (fuel_bound c code)).
  assert (Hn : fuel_bound c code <= Z.of_nat n) by lia.
  pose proof (execute_ok True False n c code h I Hin (or_intror Hn)) as Hwp. unfold wp in Hwp.
  destruct (run n (interp_new c code h)) as [r s] eqn:Hr. exists r, s. split.
  - destruct r as [st|[e|]|]; eauto; done.
  - intros fuel Hf. unfold execute. destruct (run_more n fuel ltac:(lia) (interp_new c code h)) as [Ho| ->]; [|done].
    rewrite Hr in Ho. simpl in Ho. subst r. done.
Qed.

(** C12. A finished execution is well typed, was not paid more gas than its limit,
    closed every snapshot it opened; a static one did not touch the world and
    logged nothing.  An error of the program is a status, never an error. *)
Theorem evm_execution fuel c code h r s : input_ok c code h -> execute fuel c code h = (r, s) ->
  match r with
  | Ok _ =>
    (Forall word_ok (st_data (stack s)) /\ stack_ok (stack s)) /\ memory_ok (memory s) /\ code_ok (return_data s) /\
    Forall log_ok (logs s) /\ host_ok (host s) /\ 0 <= gas_remaining s <= gas_limit c /\
    open_snaps (host s) = open_snaps h /\
    (is_static c = true -> world (host s) = world h /\ logs s = [])
  | Err e => e = OutOfFuel
  | Panic => True
  end.
Proof.
  intros Hin He. pose proof (execute_ok True True fuel c code h I Hin (or_introl I)) as Hwp. unfold wp in Hwp.
  unfold execute in He. rewrite He in Hwp. destruct r as [st|[e|]|]; try done. destruct Hwp as [p [Hc Hco Hj Hf Hpc Hg Hs Hm Hr Hh Hl Ho Hw Hk]].
  split_and!; try apply Hs; try done; try lia; intros Hst; rewrite Hst in *; by auto.
Qed.

Lemma run_sub_ok pan fuel b s : pan -> fresh b s -> wp pan True (run fuel) (fun _ => frame_done s) (fun _ => False) s.
Proof. intros Hpan (Hf & _ & _ & Hi). eapply run_ok; [done|done|exact Hi|by left]. Qed.

(** C13. CALL, CALLCODE, DELEGATECALL and STATICCALL push 1 or 0, close their
    snapshot and do not gain gas.  A failed call, and any call in a read-only
    context, leaves the world and the logs exactly as they were. *)
Theorem call_undone fuel k s s' : running s -> do_call (run fuel) k s = (Ok tt, s') ->
  exists flag : bool, list.last (st_data (stack s')) = Some (bool_word flag) /\
    open_snaps (host s') = open_snaps (host s) /\ 0 <= gas_remaining s' <= gas_remaining s /\
    (flag = false \/ read_only k (ctx s) = true -> world (host s') = world (host s) /\ logs s' = logs s).
Proof.
  intros [Hf Hi] Hcall. pose proof (do_call_ok True True s Hf (run fuel) (fun s1 => run_sub_ok True fuel s s1 I) k _ _ _ _ _ _ Hi) as Hwp.
  unfold wp in Hwp. rewrite Hcall in Hwp. destruct Hwp as [[Hl Hi']|[Hl Hi']]; [exists true|exists false];
    (split; [exact Hl|]; split; [by apply (i_open _ _ _ _ _ _ _ Hi')|]; split; [by apply (i_gas _ _ _ _ _ _ _ Hi')|]).
  - intros [|Hro]; [done|]. rewrite Hro in Hi'. split; [by apply (i_world _ _ _ _ _ _ _ Hi')|by apply (i_kept _ _ _ _ _ _ _ Hi')].
  - intros _. split; [by apply (i_world _ _ _ _ _ _ _ Hi')|by apply (i_kept _ _ _ _ _ _ _ Hi')].
Qed.

(** An instruction that starts in a good state and does not stop the frame
    leaves a good state of the same frame: with no more gas, the same open
    snapshots, and either less gas or a later program counter.  It panics only
    at an unchecked copy or where a frame below does. *)
Theorem step_preserves fuel s : running s ->
  match step (run fuel) s with
  | (Ok None, s') => running s' /\ gas_remaining s' <= gas_remaining s /\ open_snaps (host s') = open_snaps (host s) /\
      ctx s' = ctx s /\ code s' = code s /\ frames s' = frames s /\
      (is_static (ctx s) = true -> world (host s') = world (host s) /\ logs s' = logs s)
  | (Panic, _) => (exists byte, code s !! Z.to_nat (pc s) = Some byte /\ copy_byte byte) \/
      exists s1, fresh s s1 /\ fst (run fuel s1) = Panic
  | _ => True
  end.
Proof.
  intros [Hf Hi]. set (pan := _ \/ _).
  assert (Hsub : forall s1, fresh s s1 -> wp pan True (run fuel) (fun _ => frame_done s1) (fun _ => False) s1).
  { intros s1 Hs1. pose proof (run_sub_ok True fuel s s1 I Hs1) as Hwp. unfold wp in *.
    destruct (run fuel s1) as [[st|[e|]|] s2] eqn:Hr; try done. right. exists s1. by rewrite Hr. }
  assert (Hcopy : forall byte, code s !! Z.to_nat (pc s) = Some byte -> copy_byte byte -> pan) by (intros; left; eauto).
  pose proof (step_ok pan True s (run fuel) _ _ _ _ _ _ Hf Hsub Hcopy Hi) as Hwp. unfold wp in Hwp.
  destruct (step (run fuel) s) as [[[st|]|e|] s1]; try done.
  destruct Hwp as (p' & g' & Hi' & Hg & _). pose proof Hi' as [Hc Hco Hj Hfr Hpc Hgas Hs Hm Hr Hh Hl Ho Hw Hk].
  split_and!; try done; [|lia|intros Hst; rewrite Hst in *; by auto].
  split; [split; [rewrite Hc|rewrite Hco|rewrite Hj, Hco|rewrite Hfr]; apply Hf|].
  constructor; try done; try (by intros x [= <-]); lia.
Qed.

(** ** The copy opcodes *)

(** The memory they grow and the gas they pay. *)
Definition pay_copy (dest size : Z) : FM unit := _ ← expand dest size; consume_gas (copy_cost size).

Lemma bind_step {A B} (m : FM A) (k : A -> FM B) s a s' : m s = (Ok a, s') -> (m ≫= k) s = k a s'.
Proof. unfold mbind, M_bind. by intros ->. Qed.
Lemma bind_Ok {A B} (m : FM A) (k : A -> FM B) s c s' : (m ≫= k) s = (Ok c, s') ->
  exists a s1, m s = (Ok a, s1) /\ k a s1 = (Ok c, s').
Proof. unfold mbind, M_bind. destruct (m s) as [[a|e|] s1]; [eauto|done..]. Qed.

Lemma pay_copy_effect dest size s s1 : pay_copy dest size s = (Ok tt, s1) ->
  exists g m, s1 = set_gas g (set_memory m s).
Proof.
  unfold pay_copy, expand, consume_gas, mem_ensure, on_memory, fail_if, throw_if, put_st, get_st, mbind, M_bind.
  destruct (ensure dest size (memory s)) as [[a|e|] m]; simpl; [|done..].
  destruct (_ <? a); [done|]. simpl. destruct (_ <? _); [done|]. intros [= <-]. by exists (gas_remaining s - a - copy_cost size), m.
Qed.

Lemma pay_copy_ok b p g sn wo lo dest size s s1 : Inv b p g sn wo lo s -> 0 <= dest -> 0 <= size ->
  pay_copy dest size s = (Ok tt, s1) ->
  Inv b p g sn wo lo s1 /\ (0 < size -> dest + size <= zlen (memory s1)).
Proof.
  intros Hi Hd Hs Hp. assert (Hwp : wp True True (pay_copy dest size)
    (fun _ s1 => Inv b p g sn wo lo s1 /\ (0 < size -> dest + size <= zlen (memory s1))) (fun _ => True) s).
  { unfold pay_copy. wp_step. eapply wp_expand; [done..|]. intros s2 Hi2 Hin. eapply wp_consume; [done| |done|].
    - by apply (wrap_range 64 (GAS_COPY_WORD * (u64 (size + 31) / 32))).
    - intros s3 Hi3 Hle Hm. bounds. rewrite Hm. split; [|done].
      pose proof (proj1 (wrap_range 64 (GAS_COPY_WORD * (u64 (size + 31) / 32)) ltac:(lia))). eapply Inv_gas; [done| |lia].
      unfold copy_cost. lia. }
  unfold wp in Hwp. by rewrite Hp in Hwp.
Qed.

(** [buf] of a copy: the bytes of the source from [off] on, zeros beyond its end. *)
Lemma copy_padded_spec data off size (s : St) : code_ok data -> 0 <= off < 2 ^ 64 -> 0 <= size < 2 ^ 64 ->
  (off <= zlen data -> exists buf, copy_padded data off size s = (Ok buf, s) /\ zlen buf = size /\ Forall Bytes.byte buf /\
     forall j, 0 <= j < size -> mem_at buf j = mem_at data (off + j)) /\
  (zlen data < off -> copy_padded data off size s = (Panic, s)).
Proof.
  intros [Hb Hl] Ho Hs. unfold copy_padded. cbv zeta. unfold lift, mbind, M_bind. split; intros Hle.
  - rewrite (sat_small 64) by (unfold in_range; lia). set (n := Z.min (zlen data - off) size).
    rewrite wrap_small by (unfold in_range; lia). rewrite slice_Ok by lia.
    eexists. split; [done|]. replace (off + n - off) with n by lia.
    assert (Hn : zlen (take (Z.to_nat n) (drop (Z.to_nat off) data)) = n).
    { unfold zlen in *. rewrite length_take, length_drop. lia. }
    split; [rewrite zlen_app, Hn; unfold zlen at 1; rewrite length_replicate; lia|]. split.
    { apply Forall_app. split; [by apply Forall_take, Forall_drop|]. apply bytes_replicate. unfold Bytes.byte. lia. }
    intros j Hj. unfold mem_at. destruct (Z.lt_ge_cases j n).
    + rewrite lookup_app_l by (unfold zlen in Hn; lia). rewrite lookup_take_lt, lookup_drop by lia. f_equal. f_equal. lia.
    + rewrite lookup_app_r by (unfold zlen in Hn; lia). rewrite (lookup_ge_None_2 data) by (unfold zlen in *; lia).
      destruct (replicate _ 0 !! _) as [x|] eqn:Hx; [by apply lookup_replicate in Hx as [-> _]|done].
  - assert (sat 64 (zlen data - off) = 0) as -> by (unfold sat; lia). rewrite Z.min_l, Z.add_0_r by lia.
    rewrite wrap_small by (unfold in_range; lia). unfold slice. rewrite (proj2 (Z.leb_gt off (zlen data))) by lia.
    by rewrite andb_false_r.
Qed.

(** CALLDATACOPY, CODECOPY and EXTCODECOPY, once paid for: with the offset
    within the source, or nothing to copy, the bytes arrive, padded with zeros,
    and the rest of memory stays; an offset beyond the source panics. *)
Theorem copy_op_exact dest off size (src : St -> bytes) s s1 : running s -> 0 <= dest -> in_range 64 off -> in_range 64 size ->
  (forall g m, src (set_gas g (set_memory m s)) = src s) -> code_ok (src s) -> pay_copy dest size s = (Ok tt, s1) ->
  (size = 0 -> copy_op dest off size src s = (Ok Next, s1)) /\
  (0 < size -> off <= zlen (src s) -> exists m, copy_op dest off size src s = (Ok Next, set_memory m s1) /\
     forall i, 0 <= i -> mem_at m i =
       if (dest <=? i) && (i <? dest + size) then mem_at (src s) (off + (i - dest)) else mem_at (memory s1) i) /\
  (0 < size -> zlen (src s) < off -> fst (copy_op dest off size src s) = Panic).
Proof.
  intros [_ Hi] Hd Ho Hs Hsrc Hok Hpay. destruct (pay_copy_ok _ _ _ _ _ _ _ _ _ _ Hi Hd ltac:(apply Hs) Hpay) as [Hi1 Hin].
  destruct (pay_copy_effect _ _ _ _ Hpay) as (g & m0 & Hs1).
  assert (Hsrc1 : src s1 = src s) by (by rewrite Hs1).
  assert (Hc : copy_op dest off size src s =
    (_ ← (if 0 <? size then buf ← copy_padded (src s) off size; mwrite dest buf else mret tt); mret Next) s1).
  { rewrite <-Hsrc1. apply bind_Ok in Hpay as ([] & s2 & He & Hg). unfold copy_op.
    by rewrite (bind_step _ _ _ _ _ He), (bind_step _ _ _ _ _ Hg). }
  rewrite Hc. destruct (copy_padded_spec (src s) off size s1 Hok Ho Hs) as [Hin_src Hout_src]. unfold in_range in *.
  split_and!; intros Hsz.
  - by rewrite (proj2 (Z.ltb_ge 0 size)) by lia.
  - intros Hle. destruct (Hin_src Hle) as (buf & Hbuf & Hlen & Hbytes & Hat). rewrite (proj2 (Z.ltb_lt 0 size)) by lia.
    destruct (i_memory _ _ _ _ _ _ _ Hi1) as [Hmem _].
    destruct (@mem_write_spec Stop dest buf (memory s1) Hd ltac:(lia) (proj2 Hmem)) as (m & Hw & _ & Hm).
    exists m. split; [unfold mbind, M_bind; by rewrite Hbuf; unfold mwrite; rewrite Hw|]. intros i Hi0. rewrite Hm, Hlen by lia.
    destruct (_ && _) eqn:Hc2; [|done]. bool_to_prop. rewrite Hat by lia. done.
  - intros Hlt. rewrite (proj2 (Z.ltb_lt 0 size)) by lia. unfold mbind, M_bind. by rewrite (Hout_src Hlt).
Qed.
End run.

(** * Jump destinations (crates/zbx-evm/src/interpreter.rs)

    The bitmap the interpreter builds once per frame marks exactly the
    JUMPDEST bytes that start an instruction, never a byte of PUSH data. *)

(** The byte after the instruction at [i]: one, and the PUSH data. *)
Definition next_instr (code : bytes) (i : Z) : Z :=
  let op := code !!! Z.to_nat i in
  if (0x60 <=? op) && (op <=? 0x7f) then i + 1 + (op - 0x5f) else i + 1.

(** [j] is reached from [i] by whole instructions. *)
Inductive reaches (code : bytes) : Z -> Z -> Prop :=
| reaches_here i : reaches code i i
| reaches_next i j : i < zlen code -> reaches code (next_instr code i) j -> reaches code i j.

Definition bit (bm : list Z) (i : Z) : bool := Z.testbit (bm !!! Z.to_nat (i / 8)) (i mod 8).

Lemma next_instr_after code i : i < next_instr code i.
Proof. unfold next_instr. cbv zeta. destruct (_ && _) eqn:Hr; bool_to_prop; lia. Qed.

Lemma reaches_le code i j : reaches code i j -> i <= j.
Proof. induction 1 as [i|i j Hi _ IH]; [lia|]. pose proof (next_instr_after code i). lia. Qed.

Lemma reaches_inv code i j : j < zlen code -> reaches code i j <-> i = j \/ reaches code (next_instr code i) j.
Proof.
  intros Hj. split.
  - destruct 1; auto.
  - intros [->|Hr]; [apply reaches_here|]. apply reaches_next; [|done]. pose proof (reaches_le _ _ _ Hr).
    pose proof (next_instr_after code i). lia.
Qed.

Lemma set_bit bm i d : 0 <= i -> 0 <= d -> (Z.to_nat (i / 8) < length bm)%nat ->
  bit (alter (fun b => Z.lor b (u8 (Z.shiftl 1 (i mod 8)))) (Z.to_nat (i / 8)) bm) d = bit bm d || (i =? d).
Proof.
  intros Hi Hd Hlen. unfold bit. pose proof (Z.mod_pos_bound i 8 ltac:(lia)). pose proof (Z.mod_pos_bound d 8 ltac:(lia)).
  rewrite !list_lookup_total_alt. destruct (decide (Z.to_nat (i / 8) = Z.to_nat (d / 8))) as [He|Hne].
  - rewrite He, list_lookup_alter_eq. destruct (lookup_lt_is_Some_2 bm (Z.to_nat (d / 8))) as [x Hx]; [lia|]. rewrite Hx. simpl.
    rewrite Z.lor_spec. f_equal. unfold wrap. rewrite Z.shiftl_1_l, Z.mod_small.
    + assert (i / 8 = d / 8) by (pose proof (Z.div_pos i 8); pose proof (Z.div_pos d 8); lia).
      destruct (Z.eqb_spec i d) as [->|Hn]; [by rewrite Z.pow2_bits_true by lia|].
      rewrite Z.pow2_bits_false; [done|]. intros Hm. apply Hn. rewrite (Z.div_mod i 8), (Z.div_mod d 8) by lia. congruence.
    + split; [apply Z.pow_nonneg; lia|]. apply Z.pow_lt_mono_r; lia.
  - rewrite list_lookup_alter_ne by done. destruct (Z.eqb_spec i d) as [->|]; [done|]. by rewrite orb_false_r.
Qed.

Lemma bitmap_loop_spec code fuel : forall pc bm, 0 <= pc -> zlen code - pc <= Z.of_nat fuel ->
  Z.of_nat (length bm) = (zlen code + 7) / 8 -> forall d, 0 <= d < zlen code ->
  bit (bitmap_loop fuel code pc bm) d = true <-> bit bm d = true \/ (reaches code pc d /\ code !!! Z.to_nat d = 0x5b).
Proof.
  assert (Hout : forall pc d, d < zlen code -> zlen code <= pc -> ~ reaches code pc d).
  { intros pc d Hd Hp Hr. apply reaches_le in Hr. lia. }
  induction fuel as [|fuel IH]; intros pc bm Hpc Hfuel Hbm d Hd; simpl.
  { split; [by left|]. intros [|[Hr _]]; [done|]. exfalso. apply (Hout pc d); [lia|lia|done]. }
  destruct (Z.ltb_spec pc (zlen code)) as [Hlt|Hge].
  2:{ split; [by left|]. intros [|[Hr _]]; [done|]. exfalso. apply (Hout pc d); [lia|lia|done]. }
  rewrite (reaches_inv code pc d) by lia. unfold next_instr. cbv zeta.
  destruct (Z.eqb_spec (code !!! Z.to_nat pc) 0x5b) as [Hop|Hop].
  - rewrite Hop. rewrite IH; [|lia|lia|by rewrite length_alter|done]. change ((0x60 <=? 0x5b) && (0x5b <=? 0x7f)) with false. cbv iota.
    rewrite set_bit; [|lia|lia|]. 2:{ zify. Z.to_euclidean_division_equations. lia. }
    rewrite orb_true_iff, Z.eqb_eq. split; [intros [[?| <-]|?]; tauto|intros [?|[[<-|?] ?]]; tauto].
  - destruct ((0x60 <=? _) && _) eqn:Hpush; (rewrite IH; [|bool_to_prop; lia|bool_to_prop; lia|done|done]).
    + rewrite Z.add_assoc. split; [tauto|]. intros [?|[[<-|?] ?]]; tauto.
    + split; [tauto|]. intros [?|[[<-|?] ?]]; tauto.
Qed.

Lemma land_bit x k : 0 <= k -> (Z.land x (Z.shiftl 1 k) =? 0) = negb (Z.testbit x k).
Proof.
  intros Hk. rewrite Z.shiftl_1_l. destruct (Z.testbit x k) eqn:Hb; simpl.
  - apply Z.eqb_neq. intros H0. assert (Z.testbit (Z.land x (2 ^ k)) k = true) as Ht.
    { by rewrite Z.land_spec, Hb, Z.pow2_bits_true by lia. }
    by rewrite H0, Z.bits_0 in Ht.
  - apply Z.eqb_eq. apply Z.bits_inj'. intros n Hn. rewrite Z.land_spec, Z.bits_0.
    destruct (Z.eq_dec n k) as [->|]; [by rewrite Hb|]. rewrite Z.pow2_bits_false by lia. apply andb_false_r.
Qed.

Section jump.
Context {H : Type} `{HostLaws H}.

(** A jump is taken exactly to the JUMPDEST bytes of the code that are
    instructions: reached from its start by whole instructions, so never
    inside the data of a PUSH. *)
Theorem jumpdest_exact (s : EVMInterpreter H) (dest : Z) : jumpdests s = build_jumpdest_bitmap (code s) -> 0 <= dest ->
  is_valid_jumpdest dest s = true <->
  dest < zlen (code s) /\ code s !!! Z.to_nat dest = 0x5b /\ reaches (code s) 0 dest.
Proof.
  intros Hj Hd. unfold is_valid_jumpdest. rewrite andb_true_iff, Z.ltb_lt.
  rewrite land_bit, negb_involutive, Hj by by apply Z.mod_pos_bound. fold (bit (build_jumpdest_bitmap (code s)) dest).
  split; [intros [Hlt Hb]|intros (Hlt & Hop & Hr)]; (split; [done|]).
  - apply bitmap_loop_spec in Hb; [|lia|unfold zlen; lia|rewrite length_replicate; pose proof (zlen_nonneg (code s));
      Z.to_euclidean_division_equations; lia|lia].
    destruct Hb as [Hb|[? ?]]; [|done]. exfalso. unfold bit in Hb. rewrite list_lookup_total_alt in Hb.
    rewrite lookup_replicate_2 in Hb by (zify; Z.to_euclidean_division_equations; lia). simpl in Hb. by rewrite Z.bits_0 in Hb.
  - apply bitmap_loop_spec; [lia|unfold zlen; lia|rewrite length_replicate; pose proof (zlen_nonneg (code s));
      Z.to_euclidean_division_equations; lia|lia|]. by right.
Qed.
End jump.
