(* ===== verification/EvmExample.v ===== *)
(** * Concrete EVM words, stacks and memories

    The theorems of U256Ops.v and EvmMachine.v at concrete inputs.

    Below: hosts, frames and programs. *)

From Stdlib Require Import ZArith Lia String.
From stdpp Require Import base tactics list gmap sets numbers option.
From S2P Require Import Prelude Bytes U256 U256Ops EvmMachine EvmHost NativeReads EvmPrecompiles EvmInterp EvmMock EvmLogic EvmOps EvmRun.

Local Open Scope Z_scope.

Definition word_of (z : Z) : word := to_be 32 z.
Lemma word_of_ok z : word_ok (word_of z).
Proof. split; [apply length_to_be|apply to_be_bytes]. Qed.

Lemma u256_ring_witness :
  be_val (u256_sub (word_of 3) (word_of 5)) = W - 2 /\
  exists w, @u256_exp EvmError (word_of 3) (word_of 5) = Ok w /\ be_val w = 243.
Proof.
  destruct (@u256_ring EvmError (word_of 3) (word_of 5) (word_of_ok 3) (word_of_ok 5))
    as (_ & Hs & _ & w & Hw & _ & Hv).
  split; [rewrite Hs; vm_compute; reflexivity|]. exists w. split; [exact Hw|]. rewrite Hv. vm_compute. reflexivity.
Defined.

(** -7 / 2 = -3 and -7 rem 2 = -1. *)
Lemma u256_division_witness :
  be_val (u256_sdiv (word_of (-7)) (word_of 2)) = W - 3 /\ be_val (u256_smod (word_of (-7)) (word_of 2)) = W - 1.
Proof.
  destruct (u256_division (word_of (-7)) (word_of 2) (word_of_ok _) (word_of_ok _)) as (_ & _ & Hd & Hm).
  split; [rewrite Hd|rewrite Hm]; vm_compute; reflexivity.
Defined.

Lemma u256_modular_witness :
  be_val (u256_mulmod (word_of (W - 1)) (word_of (W - 1)) (word_of 12)) = 9.
Proof.
  destruct (u256_modular (word_of (W - 1)) (word_of (W - 1)) (word_of 12) (word_of_ok _) (word_of_ok _) (word_of_ok _))
    as (_ & Hm); [vm_compute; discriminate|]. rewrite Hm. vm_compute. reflexivity.
Defined.

(** The modulus 2^256 - 1. *)
Lemma u256_addmod_wrong_witness :
  be_val (u256_addmod (word_of (W - 2)) (word_of (W - 2)) (word_of (W - 1))) = W - 4 /\
  (W - 2 + (W - 2)) mod (W - 1) = W - 3.
Proof.
  assert (be_val (word_of (W - 1)) = W - 1) as E1 by (vm_compute; reflexivity).
  assert (be_val (word_of (W - 2)) = W - 2) as E2 by (vm_compute; reflexivity).
  destruct (u256_addmod_wrong (word_of (W - 2)) (word_of (W - 1)) (word_of_ok _) (word_of_ok _)) as (H1 & H2 & _).
  - rewrite E1. reflexivity.
  - rewrite E1, E2. reflexivity.
  - split; [rewrite H1, E1; reflexivity|]. rewrite E2, E1 in H2. rewrite H2. reflexivity.
Defined.

Lemma u256_shifts_witness :
  be_val (u256_sar (word_of 4) (word_of (-32))) = W - 2 /\ u256_shl (word_of (2 ^ 64)) (word_of 5) = word_of 5.
Proof.
  destruct (u256_shifts (word_of 4) (word_of (-32)) (word_of_ok _) (word_of_ok _)) as (_ & _ & Hs & _).
  destruct (u256_shifts (word_of (2 ^ 64)) (word_of 5) (word_of_ok _) (word_of_ok _)) as (_ & _ & _ & _ & _ & H0).
  split; [rewrite Hs; vm_compute; reflexivity|]. apply H0. vm_compute. reflexivity.
Defined.

(** Extending 0x7f is right, extending 0x80 is not. *)
Lemma u256_signextend_iff_witness :
  be_val (u256_signextend (word_of 0) (word_of 127)) = 127 /\
  be_val (u256_signextend (word_of 0) (word_of 128)) <> (128 - 256) mod W.
Proof.
  split.
  - refine (proj2 (u256_signextend_iff (word_of 0) (word_of 127) (word_of_ok _) (word_of_ok _) _) _);
      [vm_compute; reflexivity|left; vm_compute; reflexivity].
  - intros H. destruct (proj1 (u256_signextend_iff (word_of 0) (word_of 128) (word_of_ok _) (word_of_ok _) eq_refl) H)
      as [H1|H1]; vm_compute in H1; discriminate H1.
Defined.

Lemma u256_compare_bits_witness :
  u256_slt (word_of (-1)) (word_of 1) = true /\ u256_lt (word_of (-1)) (word_of 1) = false.
Proof.
  destruct (u256_compare_bits (word_of (-1)) (word_of 1) (word_of_ok _) (word_of_ok _)) as (H1 & _ & H2 & _).
  split; [rewrite H2|rewrite H1]; vm_compute; reflexivity.
Defined.

Definition stk : Stack := mkStack [word_of 1; word_of 2; word_of 3].
Lemma stack_ops_witness :
  st_data (snd (swap 2 stk)) !! 0%nat = Some (word_of 3) /\
  dup 4 stk = (Err StackUnderflow, stk).
Proof.
  destruct (stack_ops stk (word_of 0) 2) as (_ & _ & _ & Hs & _); [vm_compute; discriminate|lia|].
  destruct (stack_ops stk (word_of 0) 4) as (_ & _ & _ & _ & _ & _ & Hd); [vm_compute; discriminate|lia|].
  split; [|apply Hd; reflexivity]. destruct (Hs eq_refl) as [_ Hl]. rewrite Hl. reflexivity.
Defined.

Lemma memory_store_load_witness :
  exists gas m1 m2, ensure 40 3 [] = (Ok gas, m1) /\ @mem_write EvmError 40 [7; 8; 9] m1 = Ok m2 /\
    @mem_read EvmError 40 3 m2 = Ok [7; 8; 9].
Proof.
  destruct (memory_store_load 40 [7; 8; 9] []) as (gas & m1 & m2 & H1 & H2 & _ & H3 & _).
  - split; [reflexivity|vm_compute; discriminate].
  - lia.
  - discriminate.
  - vm_compute. discriminate.
  - exists gas, m1, m2. split; [exact H1|]. split; [exact H2|exact H3].
Defined.

Lemma memory_gas_exact_witness :
  exists m, ensure_all [(0, 32); (100, 1); (3, 50)] [] = (Ok 12, m) /\ words_of m = 4.
Proof.
  destruct (ensure_all [(0, 32); (100, 1); (3, 50)] []) as [r m] eqn:E.
  assert (r = Ok 12) as -> by (vm_compute in E; injection E; intros; subst; reflexivity).
  exists m. split; [reflexivity|].
  destruct (memory_gas_exact [(0, 32); (100, 1); (3, 50)] [] 12 m) as (_ & _ & _).
  - split; [reflexivity|vm_compute; discriminate].
  - repeat constructor; simpl; lia.
  - exact E.
  - vm_compute in E. injection E as <-. reflexivity.
Defined.

Lemma forward_gas_bound_witness : 0 <= forward_gas_eip150 6400 10000 <= 10000 /\ forward_gas_eip150 6400 10000 <= 6300.
Proof. refine (forward_gas_bound 6400 10000 _ _); [unfold in_range|]; lia. Defined.

(** * Executed EVM programs

    A concrete instance of the primitives and the in-memory host, programs run
    on them, and the theorems of EvmRun, EvmJump and EvmPrecompiles at them. *)

(** Primitives of the right types: a checksum for the hashes, no curve points. *)
Definition checksum (b : bytes) : Z := fold_left (fun a x => (a * 257 + x + 1) mod 2 ^ 256) b 7.
#[local] Instance toy : Primitives := {
  keccak256 b := to_be 32 (checksum b);
  sha256 b := to_be 32 (checksum b);
  ripemd160 b := to_be 20 (checksum b);
  recover_signer h v r s := if v =? 0 then Some (to_be 20 (be_val r)) else None;
  ed25519_check k m s := bool_decide (k = s);
  vrf_check k a p := Some (to_be 32 (checksum a));
  modpow b e m := b ^ e mod m;
  Fq := Z; Fr := Z; G1 := unit; G2 := unit;
  fq_from_slice b := Some (be_val b); fq_is_zero x := x =? 0; fr_from_slice b := Some (be_val b);
  g1_zero := tt; g1_new _ _ := Some tt; g1_add _ _ := tt; g1_mul _ _ := tt; g1_affine _ := None;
  g2_zero := tt; g2_new _ _ := Some tt; pairing_is_one _ := true;
  BlsScalar := Z; BlsG1 := Z; BlsG2 := Z; bls_scalar_from_bytes b := Some (be_val (rev b));
  bls_g1_from_compressed b := Some (be_val b); bls_g1_gen := 1; bls_g1_mul p k := p * k; bls_g1_sub p q := p - q;
  bls_g2_gen := 1; bls_g2_mul p k := p * k; bls_g2_sub p q := p - q;
  pairings_equal p q := fst p * snd p =? fst q * snd q; global_kzg_settings := Some 5 }.

Lemma to_be_word z : word_ok (to_be 32 z).
Proof. split; [apply length_to_be|apply to_be_bytes]. Qed.
Lemma to_be_addr z : addr_ok (to_be 20 z).
Proof. split; [apply length_to_be|apply to_be_bytes]. Qed.

#[local] Instance toy_laws : PrimitivesLaws.
Proof.
  split; try (intros; apply to_be_word); try done.
  - intros b. apply to_be_addr.
  - intros h v r s a. simpl. case_match; [|done]. intros [= <-]. apply to_be_addr.
  - intros pk a p b [= <-]. apply word_code_ok, to_be_word.
Qed.

(** ** A caller, a contract that stores and reverts, a context *)

Definition addr (n : Z) : Address := to_be 20 n.
Definition context (static : bool) (data : bytes) (gas : Z) : EVMContext :=
  mkCtx (addr 100) (addr 200) zero_word data gas static 7 1000 (addr 300) 10 20 (addr 100) 0 zero_word.

(** [SSTORE(0, 1)], then [REVERT(0, 0)], or [STOP]. *)
Definition store_then (last : bytes) : bytes := [0x60; 1; 0x60; 0; 0x55] ++ last.
Definition reverting : bytes := store_then [0x60; 0; 0x60; 0; 0xfd].
Definition stopping : bytes := store_then [0x00].
Definition host0 (code : bytes) : MockHost := install_code (addr 500) code mock_new.

(** CALL (0xf1) or STATICCALL (0xfa) of 500 with 50000 gas and no data. *)
Definition call_500 (op : Z) : bytes :=
  [0x60; 0; 0x60; 0; 0x60; 0; 0x60; 0] ++ (if op =? 0xf1 then [0x60; 0] else []) ++ [0x61; 0x01; 0xf4; 0x61; 0xc3; 0x50; op].

Definition run_it (code : bytes) (h : MockHost) := execute 40 (context false [] 100000) code h.
Definition top_of (s : EVMInterpreter MockHost) : option Z := be_val <$> list.last (st_data (stack s)).
Definition slot_500 (s : EVMInterpreter MockHost) : Z := be_val (storage_load (host s) (addr 500) zero_word).

(** A call that stops stores 1; one that reverts, or is static, does not. *)
Example call_stores : let '(r, s) := run_it (call_500 0xf1) (host0 stopping) in
  r = Ok Succeeded /\ top_of s = Some 1 /\ slot_500 s = 1.
Proof. vm_compute. auto. Qed.
Example call_reverts : let '(r, s) := run_it (call_500 0xf1) (host0 reverting) in
  r = Ok Succeeded /\ top_of s = Some 0 /\ slot_500 s = 0.
Proof. vm_compute. auto. Qed.
Example static_call_fails : let '(r, s) := run_it (call_500 0xfa) (host0 stopping) in
  r = Ok Succeeded /\ top_of s = Some 0 /\ slot_500 s = 0.
Proof. vm_compute. auto. Qed.

(** [CALLDATACOPY(0, 1, 1)] on empty calldata takes the process down. *)
Example copy_crash : fst (run_it [0x60; 1; 0x60; 1; 0x60; 0; 0x37] mock_new) = Panic.
Proof. vm_compute. reflexivity. Qed.
(** A jump into PUSH data is refused. *)
Example jump_into_push : fst (run_it [0x60; 4; 0x56; 0x60; 0x5b] mock_new) = Ok (Failed (InvalidJump 4)).
Proof. vm_compute. reflexivity. Qed.
(** [STOP] after a call returns the callee's data as its own. *)
Definition returning : bytes := [0x60; 9; 0x60; 0; 0x53; 0x60; 1; 0x60; 0; 0xf3].
Example stop_leaks : let '(r, s) := run_it (call_500 0xf1 ++ [0x00]) (host0 returning) in
  r = Ok Succeeded /\ return_data s = [9].
Proof. vm_compute. auto. Qed.

(** ** The hypotheses hold *)

Ltac bytes_ok := repeat first [apply Forall_nil_2 | apply Forall_cons_2; [unfold Bytes.byte; lia|]].

Lemma context_ok static data gas : code_ok data -> in_range 64 gas -> ctx_ok (context static data gas).
Proof. intros Hd Hg. split_and!; try apply to_be_addr; try apply zero_word_ok; done. Qed.

Lemma host0_ok code : code_ok code -> mock_ok (host0 code).
Proof. intros Hc. apply with_account_ok; [apply mock_new_ok|]. intros e (H1 & H2 & _ & H4). by split_and!. Qed.

Lemma input0_ok static data gas code h : code_ok data -> in_range 64 gas -> code_ok code -> mock_ok h ->
  input_ok (context static data gas) code h.
Proof. intros. split; [by apply context_ok|by split]. Qed.

Lemma reverting_ok : code_ok reverting.
Proof. split; [unfold reverting, store_then; simpl; bytes_ok|done]. Qed.
Lemma stopping_ok : code_ok stopping.
Proof. split; [unfold stopping, store_then; simpl; bytes_ok|done]. Qed.
Lemma call_code_ok : code_ok (call_500 0xf1).
Proof. split; [unfold call_500; simpl; bytes_ok|done]. Qed.

Definition input_call : input_ok (context false [] 100000) (call_500 0xf1) (host0 reverting).
Proof. apply input0_ok; [by apply (zeros_ok 0)|done|apply call_code_ok|apply host0_ok, reverting_ok]. Qed.

Lemma evm_terminates_witness : exists r s, (r = Panic \/ exists st, r = Ok st) /\
  forall fuel, fuel_bound (context false [] 100000) (call_500 0xf1) <= Z.of_nat fuel ->
    execute fuel (context false [] 100000) (call_500 0xf1) (host0 reverting) = (r, s).
Proof. exact (evm_terminates _ _ _ input_call). Defined.

(** The static frame that stores fails, with the world as it was. *)
Lemma evm_execution_witness :
  let '(r, s) := execute 40 (context true [] 100000) stopping (host0 stopping) in
  r = Ok (Failed StaticStateChange) /\ gas_remaining s <= 100000 /\ mock_world (host s) = mock_world (host0 stopping).
Proof.
  assert (Hin : input_ok (context true [] 100000) stopping (host0 stopping)).
  { apply input0_ok; [by apply (zeros_ok 0)|done|apply stopping_ok|apply host0_ok, stopping_ok]. }
  pose proof (evm_execution 40 _ _ _ _ _ Hin (surjective_pairing _)) as He.
  assert (Hr : fst (execute 40 (context true [] 100000) stopping (host0 stopping)) = Ok (Failed StaticStateChange)) by (vm_compute; reflexivity).
  destruct (execute 40 _ _ _) as [r s]. simpl in Hr, He. subst r. destruct He as (_ & _ & _ & _ & _ & Hg & _ & Hst).
  split; [reflexivity|]. split; [apply Hg|]. exact (proj1 (Hst eq_refl)).
Defined.

(** A frame about to call 500: the arguments are on the stack. *)
Definition words (l : list Z) : list word := map (to_be 32) l.
Definition about_to_call : EVMInterpreter MockHost :=
  set_stack (mkStack (words [0; 0; 0; 0; 0; 500; 50000])) (interp_new (context false [] 100000) (call_500 0xf1) (host0 reverting)).

Lemma stack_running (c : EVMContext) code (h : MockHost) l : input_ok c code h -> zlen l <= 1024 ->
  running (set_stack (mkStack (words l)) (interp_new c code h)).
Proof.
  intros Hin Hl. destruct (interp_new_ok c code h Hin) as [Hf Hi].
  apply (Inv_set_stack _ _ _ _ _ _ _ (mkStack (words l))) in Hi.
  - destruct Hf, Hi. split; [by constructor|]. constructor; try done; by intros x [= <-].
  - simpl. clear. induction l; constructor; [apply to_be_word|done].
  - unfold stack_ok, stack_len, zlen in *. simpl. unfold words. rewrite length_map. done.
Qed.

Lemma call_undone_witness :
  let '(r, s') := do_call (run 20) Call about_to_call in
  r = Ok tt /\ list.last (st_data (stack s')) = Some (bool_word false) /\
  mock_world (host s') = mock_world (host0 reverting) /\ logs s' = [].
Proof.
  assert (Hrun : running about_to_call) by (apply stack_running; [exact input_call|done]).
  assert (Hr : fst (do_call (run 20) Call about_to_call) = Ok tt) by (vm_compute; reflexivity).
  assert (Ht : list.last (st_data (stack (snd (do_call (run 20) Call about_to_call)))) = Some (bool_word false)) by (vm_compute; reflexivity).
  pose proof (call_undone 20 Call about_to_call (snd (do_call (run 20) Call about_to_call)) Hrun) as Hc.
  destruct (do_call (run 20) Call about_to_call) as [r s']. simpl in Hr, Ht. subst r.
  destruct (Hc eq_refl) as (flag & Hflag & _ & _ & Hw). simpl in Hflag. rewrite Ht in Hflag. injection Hflag as Hflag.
  split; [reflexivity|]. split; [exact Ht|]. apply Hw. left. destruct flag; [|reflexivity]. vm_compute in Hflag. discriminate.
Defined.

Lemma step_preserves_witness :
  match step (run 20) about_to_call with (Ok None, s') => running s' /\ gas_remaining s' <= 100000 | _ => False end.
Proof.
  assert (Hrun : running about_to_call) by (apply stack_running; [exact input_call|done]).
  pose proof (step_preserves 20 about_to_call Hrun) as Hs.
  assert (Hr : fst (step (run 20) about_to_call) = Ok None) by (vm_compute; reflexivity).
  destruct (step (run 20) about_to_call) as [r s']. simpl in Hr. subst r. destruct Hs as (Hs & Hg & _). split; [exact Hs|exact Hg].
Defined.

(** Position 1 holds 0x5b, but as the data of a PUSH1; position 2 is a JUMPDEST. *)
Lemma jumpdest_exact_witness :
  let s := interp_new (context false [] 0) [0x60; 0x5b; 0x5b] mock_new in
  is_valid_jumpdest 2 s = true /\ ~ reaches [0x60; 0x5b; 0x5b] 0 1 /\ reaches [0x60; 0x5b; 0x5b] 0 2.
Proof.
  set (s := interp_new _ _ _). split; [vm_compute; reflexivity|]. split.
  - intros Hr. assert (Hv : is_valid_jumpdest 1 s = true).
    { apply (proj2 (jumpdest_exact s 1 eq_refl ltac:(lia))). split; [vm_compute; reflexivity|]. split; [reflexivity|exact Hr]. }
    vm_compute in Hv. discriminate.
  - apply (proj1 (jumpdest_exact s 2 eq_refl ltac:(lia))). vm_compute. reflexivity.
Defined.

(** Two bytes of [7; 9] from offset 1: the 9, and a zero; from offset 3, a panic. *)
Definition copier : EVMInterpreter MockHost := interp_new (context false [7; 9] 100000) [] mock_new.
Lemma copy_op_exact_witness : exists s1,
  pay_copy 0 2 copier = (Ok tt, s1) /\
  (exists m, copy_op 0 1 2 (fun s => calldata (ctx s)) copier = (Ok Next, set_memory m s1) /\ mem_at m 0 = 9 /\ mem_at m 1 = 0) /\
  fst (copy_op 0 3 2 (fun s => calldata (ctx s)) copier) = Panic.
Proof.
  assert (Hin : input_ok (context false [7; 9] 100000) [] mock_new).
  { apply input0_ok; [split; [bytes_ok|done]|done|by apply (zeros_ok 0)|apply mock_new_ok]. }
  assert (Hrun : running copier) by (apply (stack_running _ _ _ []); [exact Hin|done]).
  assert (Hd : code_ok (calldata (ctx copier))) by (split; [simpl; bytes_ok|done]).
  pose proof (fun off s1 Ho => copy_op_exact 0 off 2 (fun s => calldata (ctx s)) copier s1 Hrun ltac:(lia) Ho
    ltac:(unfold in_range; lia) ltac:(reflexivity) Hd) as Hc.
  assert (Hp : fst (pay_copy 0 2 copier) = Ok tt) by (vm_compute; reflexivity).
  destruct (pay_copy 0 2 copier) as [r s1]. simpl in Hp. subst r. exists s1. split; [reflexivity|]. split.
  - destruct (Hc 1 s1 ltac:(unfold in_range; lia) eq_refl) as (_ & Hok & _). destruct (Hok ltac:(lia) ltac:(vm_compute; discriminate)) as (m & Hm & Hat).
    exists m. split; [exact Hm|]. split; [exact (Hat 0 ltac:(lia))|exact (Hat 1 ltac:(lia))].
  - destruct (Hc 3 s1 ltac:(unfold in_range; lia) eq_refl) as (_ & _ & Hpan). apply Hpan; [lia|reflexivity].
Defined.

(** 3^5 mod 7 = 5, as one byte, at the minimum price. *)
Lemma modexp_correct_witness :
  modexp (to_be 32 1 ++ to_be 32 1 ++ to_be 32 1 ++ [3] ++ [5] ++ [7] ++ []) 1000 = Ok ([5], 200).
Proof.
  pose proof (modexp_correct 1 1 1 [3] [5] [7] [] 1000 eq_refl eq_refl eq_refl ltac:(lia) ltac:(simpl; lia)
    ltac:(simpl; bytes_ok) ltac:(vm_compute; reflexivity)) as Hm.
  cbv zeta in Hm. change (Z.of_nat 1) with 1 in Hm. rewrite Hm. vm_compute. reflexivity.
Defined.
