(* ===== verification/Account.v ===== *)
(** * Accounts (crates/zbx-types/src/account.rs, crates/zbx-state/src/account.rs)

    The account record and its methods, the account leaf's hand-written RLP
    encoder of zbx-state, and the block's account views.  U256 (the
    primitive_types crate) is an integer below 2^256: [bits() > 128] is
    [2^128 <= balance] and [low_u128] the residue. *)

From Stdlib Require Import ZArith Lia.
From stdpp Require Import base tactics list numbers option.
From S2P Require Import Prelude Bytes Rlp TrieNode Trie.

Local Open Scope Z_scope.

Inductive VmKind : Type := Evm | Zvm.
#[export] Instance VmKind_eq_dec : EqDecision VmKind.
Proof. solve_decision. Defined.
(** [vm as u8] *)
Definition vm_byte (k : VmKind) : Z := match k with Evm => 0 | Zvm => 1 end.

Definition EMPTY_CODE_HASH : H256 :=
  [0xc5; 0xd2; 0x46; 0x01; 0x86; 0xf7; 0x23; 0x3c;
   0x92; 0x7e; 0x7d; 0xb2; 0xdc; 0xc7; 0x03; 0xc0;
   0xe5; 0x00; 0xb6; 0x53; 0xca; 0x82; 0x27; 0x3b;
   0x7b; 0xfa; 0xd8; 0x04; 0x5d; 0x85; 0xa4; 0x70].

Definition EMPTY_STORAGE_ROOT : H256 :=
  [0x56; 0xe8; 0x1f; 0x17; 0x1b; 0xcc; 0x55; 0xa6;
   0xff; 0x83; 0x45; 0xe6; 0x92; 0xc0; 0xf8; 0x6e;
   0x5b; 0x48; 0xe0; 0x1b; 0x99; 0x6c; 0xad; 0xc0;
   0x01; 0x62; 0x2f; 0xb5; 0xe3; 0x63; 0xb4; 0x21].

Definition zero_h256 : H256 := replicate 32 0.

Record AccountState : Type := mkAccount {
  nonce : Z; balance : Z; code_hash : H256; storage_root : H256; vm : VmKind }.
#[export] Instance AccountState_eq_dec : EqDecision AccountState.
Proof. solve_decision. Defined.

Definition default_account : AccountState :=
  mkAccount 0 0 EMPTY_CODE_HASH EMPTY_STORAGE_ROOT Evm.

Definition set_nonce (n : Z) (a : AccountState) : AccountState :=
  mkAccount n (balance a) (code_hash a) (storage_root a) (vm a).
Definition set_code_hash (h : H256) (a : AccountState) : AccountState :=
  mkAccount (nonce a) (balance a) h (storage_root a) (vm a).

Definition is_eoa (a : AccountState) : bool := bool_decide (code_hash a = EMPTY_CODE_HASH).
Definition is_contract (a : AccountState) : bool := negb (is_eoa a).
Definition is_empty (a : AccountState) : bool := (nonce a =? 0) && (balance a =? 0) && is_eoa a.

(** Saturates at [u128::MAX]. *)
Definition balance_u128 (a : AccountState) : Z :=
  if 2 ^ 128 <=? balance a then umax 128 else u128 (balance a).
Definition set_balance_u128 (wei : Z) (a : AccountState) : AccountState :=
  mkAccount (nonce a) wei (code_hash a) (storage_root a) (vm a).

(** [ZbxError::Overflow] is the only error [increment_nonce] returns. *)
Inductive NonceError : Type := NonceOverflow.
Definition increment_nonce : M AccountState NonceError unit := fun a =>
  match checked 64 (nonce a + 1) with
  | Some n => (Ok tt, set_nonce n a)
  | None => (Err NonceOverflow, a)
  end.

(** ** zbx-state: the hand-written leaf encoder *)

(** [bytes.iter().position(|&b| b != 0)] *)
Fixpoint position_nonzero (l : bytes) : option nat :=
  match l with
  | [] => None
  | b :: l => if b =? 0 then S <$> position_nonzero l else Some O
  end.

(** [&bytes[start..]] with the position's default. *)
Definition significant (d : nat) (l : bytes) : bytes := drop (default d (position_nonzero l)) l.

Definition rlp_encode_u64 (buf : bytes) (v : Z) : bytes :=
  if v =? 0 then buf ++ [128]
  else
    let sl := significant 7 (to_be 8 v) in
    if (zlen sl =? 1) && (hd 0 sl <? 128) then buf ++ [hd 0 sl]
    else buf ++ [u8 (128 + u8 (zlen sl))] ++ sl.

Definition rlp_encode_u128 (buf : bytes) (v : Z) : bytes :=
  if v =? 0 then buf ++ [128]
  else
    let sl := significant 15 (to_be 16 v) in
    buf ++ [u8 (128 + u8 (zlen sl))] ++ sl.

Definition rlp_encode_bytes (buf : bytes) (d : bytes) : bytes :=
  if (zlen d =? 1) && (hd 0 d <? 128) then buf ++ [hd 0 d]
  else if zlen d <=? 55 then buf ++ [u8 (128 + u8 (zlen d))] ++ d
  else
    let len_slice := significant 7 (to_be 8 (zlen d)) in
    buf ++ [u8 (183 + u8 (zlen len_slice))] ++ len_slice ++ d.

Definition rlp_list_wrap (inner : bytes) : bytes :=
  if zlen inner <=? 55 then u8 (192 + u8 (zlen inner)) :: inner
  else
    let len_slice := significant 7 (to_be 8 (zlen inner)) in
    u8 (247 + u8 (zlen len_slice)) :: len_slice ++ inner.

Definition encode_account_flat (a : AccountState) : bytes :=
  let out := rlp_encode_u64 [] (nonce a) in
  let out := rlp_encode_u128 out (balance_u128 a) in
  let out := rlp_encode_bytes out (storage_root a) in
  let out := rlp_encode_bytes out (code_hash a) in
  rlp_list_wrap out.

(** ** Views of an account *)

Record AccountInfo : Type := mkInfo {
  info_address : list Z; info_state : AccountState; info_is_contract : bool; staked_balance : Z }.

Definition account_info (addr : list Z) (st : AccountState) : AccountInfo :=
  mkInfo addr st (negb (bool_decide (code_hash st = EMPTY_CODE_HASH))) 0.
Definition account_info_empty (addr : list Z) : AccountInfo := account_info addr default_account.
Definition info_is_empty (i : AccountInfo) : bool :=
  (nonce (info_state i) =? 0) && (balance (info_state i) =? 0) &&
  bool_decide (code_hash (info_state i) = EMPTY_CODE_HASH).

Record AccountDiff : Type := mkDiff {
  diff_address : list Z; nonce_before : Z; nonce_after : Z; balance_before : Z; balance_after : Z;
  deployed_code_hash : option H256; self_destructed : bool }.

(** [as i128] and the [i128] subtraction. *)
Definition i128 (z : Z) : Z := let m := u128 z in if m <? 2 ^ 127 then m else m - 2 ^ 128.
Definition balance_delta (d : AccountDiff) : Z :=
  i128 (i128 (balance_after d) - i128 (balance_before d)).
Definition is_noop (d : AccountDiff) : bool :=
  (nonce_before d =? nonce_after d) && (balance_before d =? balance_after d) &&
  bool_decide (deployed_code_hash d = None) && negb (self_destructed d).

Record GenesisAccount : Type := mkGenesis {
  gen_address : list Z; gen_balance : Z; gen_nonce : Z; gen_code : option bytes;
  gen_storage : list (H256 * H256) }.

Section keccak.
Context (keccak : bytes -> H256).
Definition account_trie_key (addr : list Z) : H256 := keccak addr.
Definition to_account_state (g : GenesisAccount) : AccountState :=
  let code_hash := match gen_code g with Some code => keccak code | None => EMPTY_CODE_HASH end in
  mkAccount (gen_nonce g) (gen_balance g) code_hash zero_h256 Evm.
End keccak.

(** ** Types *)

Definition hash_ok (h : H256) : Prop := length h = 32%nat /\ Forall byte h.
Record account_ok (a : AccountState) : Prop := mkAccountOk {
  nonce_ok : in_range 64 (nonce a); balance_ok : in_range 256 (balance a);
  code_hash_ok : hash_ok (code_hash a); storage_root_ok : hash_ok (storage_root a) }.

Lemma default_account_ok : account_ok default_account.
Proof.
  split; [done|done|..]; (split; [done|]); apply List.Forall_forall; intros x Hx;
    vm_compute in Hx; unfold byte; intuition lia.
Qed.

Lemma is_empty_spec a : is_empty a = true <->
  nonce a = 0 /\ balance a = 0 /\ code_hash a = EMPTY_CODE_HASH.
Proof.
  unfold is_empty, is_eoa. rewrite !andb_true_iff, !Z.eqb_eq, bool_decide_eq_true. tauto.
Qed.

Lemma is_contract_spec a : is_contract a = true <-> code_hash a <> EMPTY_CODE_HASH.
Proof. unfold is_contract, is_eoa. rewrite negb_true_iff, bool_decide_eq_false. done. Qed.

Lemma balance_u128_range a : in_range 128 (balance_u128 a).
Proof. unfold balance_u128. case_match; [done|by apply wrap_range]. Qed.

Lemma balance_u128_exact a : in_range 256 (balance a) ->
  (balance_u128 a = balance a <-> in_range 128 (balance a)).
Proof.
  intros H. split; [intros <-; apply balance_u128_range|]. intros Hr. unfold balance_u128.
  rewrite (proj2 (Z.leb_gt _ _)) by apply Hr. by apply wrap_small.
Qed.

(** [i128] subtraction is exact while the difference fits. *)
Lemma balance_delta_exact d : - 2 ^ 127 <= balance_after d - balance_before d < 2 ^ 127 ->
  balance_delta d = balance_after d - balance_before d.
Proof.
  intros H. unfold balance_delta, i128, wrap. repeat case_match; bool_to_prop;
    Z.to_euclidean_division_equations; lia.
Qed.

(** ** Guarded updates

    What the [set_account] of the state and of the executor's view store over
    the account [prior]. *)
Definition guarded (prior st : AccountState) : AccountState :=
  if nonce st <? nonce prior then set_nonce (nonce prior) st
  else if is_contract prior && negb (bool_decide (code_hash st = EMPTY_CODE_HASH))
       then set_code_hash (code_hash prior) st
  else st.

Lemma set_code_hash_same st : set_code_hash (code_hash st) st = st.
Proof. by destruct st. Qed.

Lemma guarded_nonce prior st : nonce prior <= nonce (guarded prior st).
Proof. unfold guarded. destruct (Z.ltb_spec (nonce st) (nonce prior)); [simpl; lia|]. by case_match. Qed.

Lemma guarded_fields prior st :
  nonce (guarded prior st) = Z.max (nonce prior) (nonce st) /\ balance (guarded prior st) = balance st /\
  vm (guarded prior st) = vm st.
Proof.
  unfold guarded. destruct (Z.ltb_spec (nonce st) (nonce prior)); [split_and!; simpl; lia || done|].
  split_and!; repeat case_match; simpl; lia || done.
Qed.

Lemma guarded_fresh st : 0 <= nonce st -> guarded default_account st = st.
Proof. intros Hn. unfold guarded. rewrite (proj2 (Z.ltb_ge _ _)) by (simpl; lia). done. Qed.
