(* ===== verification/StateMpt.v ===== *)
(** * The state root (crates/zbx-state/src/mpt.rs)

    The world-state trie and the storage tries, built by iterating over hash
    maps.  A [HashMap] that is iterated is its listing, in whatever order the
    iterator gives it; the theorems show that the order does not matter and
    that the roots commit to the accounts and to the non-zero slots.

    Below: zbx-state's own account type (account.rs) and its encoder of
    leaves, compared with this one. *)

From Stdlib Require Import ZArith Lia.
From stdpp Require Import base tactics list gmap numbers option.
From S2P Require Import Prelude Bytes Rlp Nibbles TrieNode Trie TrieRepr TrieCorrect Account.

Local Open Scope Z_scope.

Abbreviation Address := (list Z).

(** ** Encodings *)

Definition strip_leading_zeros (b : bytes) : bytes := strip_zeros b.
Definition u64_min_be (n : Z) : bytes := if n =? 0 then [] else strip_zeros (to_be 8 n).

(** [RlpStream::out] returns its bytes. *)
Definition out_bytes {E} (s : RlpStream) : res E bytes :=
  match out s with Ok b => Ok b | _ => Panic end.

Definition encode_account_rlp {E} (st : AccountState) (storage_root : H256) : res E bytes :=
  let zvm := bool_decide (vm st = Zvm) in
  let s := begin_list stream_new in
  let s := append (u64_min_be (nonce st)) s in
  let s := append (strip_leading_zeros (to_be 32 (balance st))) s in
  let s := append storage_root s in
  let s := append (code_hash st) s in
  let s := if zvm then append [vm_byte Zvm] s else s in
  out_bytes s.

Definition is_zero_hash (h : H256) : bool := forallb (fun b => b =? 0) h.

(** [for x in l { body }] *)
Fixpoint for_each {S E A} (body : A -> M S E unit) (l : list A) : M S E unit :=
  match l with
  | [] => mret tt
  | x :: l => _ ← body x; for_each body l
  end.

(** [.expect(..)] *)
Definition expect {S E A} (m : M S E A) : M S E A := fun s =>
  match m s with (Err _, s') => (Panic, s') | r => r end.

Section mpt.
Context (keccak : bytes -> H256) {DB : Type} `{DBI : TrieDB DB}.

(** ** compute_storage_root *)

Definition storage_step (e : H256 * H256) : M (MutableTrie (DB := DB)) TrieError unit :=
  let '(slot, value) := e in
  if is_zero_hash value then mret tt
  else
    let key := keccak slot in
    encoded ← lift (out_bytes (append (strip_leading_zeros value) stream_new));
    expect (Trie.insert keccak key encoded).

Definition root_of (t : MutableTrie (DB := DB)) : H256 :=
  let r := root t in if bool_decide (r = EMPTY_ROOT) then EMPTY_STORAGE_ROOT else r.

Definition run_root {E} (m : M (MutableTrie (DB := DB)) E unit) (t : MutableTrie)
    (f : MutableTrie -> H256) : res E H256 :=
  match m t with
  | (Ok _, t') => Ok (f t')
  | (Err e, _) => Err e
  | (Panic, _) => Panic
  end.

(** ** compute_storage_root_with_db *)

Definition tolerate_missing (m : M (MutableTrie (DB := DB)) TrieError bool)
    : M (MutableTrie (DB := DB)) TrieError unit := fun t =>
  match m t with
  | (Ok _, t') => (Ok tt, t')
  | (Err KeyNotFound, t') => (Ok tt, t')
  | (Err e, t') => (Err e, t')
  | (Panic, t') => (Panic, t')
  end.

Definition storage_step_db (e : H256 * H256) : M (MutableTrie (DB := DB)) TrieError unit :=
  let '(slot, value) := e in
  let key := keccak slot in
  if is_zero_hash value then tolerate_missing (Trie.delete keccak key)
  else
    encoded ← lift (out_bytes (append (strip_leading_zeros value) stream_new));
    Trie.insert keccak key encoded.

Definition compute_storage_root_with_db (slots : list (H256 * H256)) (prev_root : H256) (d : DB)
    : res TrieError H256 :=
  run_root (for_each storage_step_db slots) (from_root prev_root d) root_of.

(** The body of the account loop; [storage_root_of] computes the storage root
    of an account with cached slots. *)
Definition account_step (storage : gmap Address (list (H256 * H256)))
    (storage_root_of : list (H256 * H256) -> H256 -> res TrieError H256)
    (insert_leaf : M (MutableTrie (DB := DB)) TrieError unit -> M (MutableTrie (DB := DB)) TrieError unit)
    (e : Address * AccountState) : M (MutableTrie (DB := DB)) TrieError unit :=
  let '(addr, state) := e in
  let acct_storage := storage !! addr in
  let cache_is_empty := match acct_storage with None | Some [] => true | _ => false end in
  if is_empty state && cache_is_empty then mret tt
  else
    sroot ← lift (match acct_storage with
                  | Some ((_ :: _) as slots) => storage_root_of slots (storage_root state)
                  | _ => Ok (storage_root state)
                  end);
    let key := keccak addr in
    value ← lift (encode_account_rlp state sroot);
    insert_leaf (Trie.insert keccak key value).

Definition compute_state_root_with_db (accounts : list (Address * AccountState))
    (storage : gmap Address (list (H256 * H256))) (d : DB) : res TrieError H256 :=
  run_root (for_each (account_step storage
    (fun slots prev => compute_storage_root_with_db slots prev d) id) accounts) (trie_new d) root.
End mpt.

(** ** The in-memory variants *)

Section memory.
Context (keccak : bytes -> H256).
Abbreviation MemTrie := (MutableTrie (DB := MemoryTrieDB)).
Abbreviation empty_db := (∅ : MemoryTrieDB).

Definition compute_storage_root (slots : list (H256 * H256)) : res TrieError H256 :=
  run_root (for_each (storage_step keccak) slots) (trie_new empty_db : MemTrie) root_of.

Definition compute_state_root (accounts : list (Address * AccountState))
    (storage : gmap Address (list (H256 * H256))) : res TrieError H256 :=
  run_root (for_each (account_step keccak storage
    (fun slots _ => compute_storage_root slots) expect) accounts) (trie_new empty_db : MemTrie) root.
End memory.

(** Cached slots, as listed. *)
Abbreviation storage_map := (gmap Address (list (H256 * H256))).

(** [base.clone()], then [dirty] on top, then [to_delete] removed. *)
Definition visible_accounts (base dirty : gmap Address AccountState) (to_delete : gset Address)
    : gmap Address AccountState :=
  let visible := map_fold (fun a st m => <[a := st]> m) base dirty in
  set_fold (fun a m => base.delete a m) visible to_delete.

(** The order in which the iterators list the maps. *)
Record Listing : Type := mkListing {
  list_accounts : gmap Address AccountState -> list (Address * AccountState);
  list_slots : Address -> gmap H256 H256 -> list (H256 * H256) }.

(** Every binding once. *)
Definition lists {K V} `{Countable K} (l : list (K * V)) (m : gmap K V) : Prop := l ≡ₚ map_to_list m.
Class Lists (L : Listing) : Prop := {
  list_accounts_ok : forall m, lists (list_accounts L m) m;
  list_slots_ok : forall a m, lists (list_slots L a m) m }.

Definition compute_state_root_filtered (keccak : bytes -> H256) (L : Listing)
    (base dirty : gmap Address AccountState) (storage : gmap Address (gmap H256 H256))
    (to_delete : gset Address) : res TrieError H256 :=
  compute_state_root keccak (list_accounts L (visible_accounts base dirty to_delete))
    (map_imap (fun a m => Some (list_slots L a m)) storage).

(** ** The visible accounts *)

Lemma visible_lookup base dirty del a :
  visible_accounts base dirty del !! a =
  if decide (a ∈ del) then None else match dirty !! a with Some st => Some st | None => base !! a end.
Proof.
  unfold visible_accounts.
  assert (forall m : gmap Address AccountState,
    set_fold (fun a m => base.delete a m) m del !! a = if decide (a ∈ del) then None else m !! a) as Hdel.
  { intros m. assert ((a ∈ del -> set_fold (fun a m => base.delete a m) m del !! a = None) /\
      (a ∉ del -> set_fold (fun a m => base.delete a m) m del !! a = m !! a)) as [? ?]; [|case_decide; auto].
    apply (set_fold_ind_L (fun (r : gmap Address AccountState) X =>
      (a ∈ X -> r !! a = None) /\ (a ∉ X -> r !! a = m !! a))); [set_solver|].
    intros x X r Hx [Hr1 Hr2]. destruct (decide (x = a)) as [->|Hne].
    - rewrite lookup_delete_eq. split; [done|set_solver].
    - rewrite lookup_delete_ne by done. split; intros; [apply Hr1|apply Hr2]; set_solver. }
  rewrite Hdel. case_decide; [done|].
  apply (map_fold_weak_ind (fun (r : gmap Address AccountState) m =>
    r !! a = match m !! a with Some st => Some st | None => base !! a end)); [done|].
  intros i st m r Hi Hr. destruct (decide (i = a)) as [->|Hne].
  - by rewrite !lookup_insert_eq.
  - by rewrite !lookup_insert_ne.
Qed.

(** The loops that skip the tombstones build the same map. *)
Lemma keep_folds (base dirty : gmap Address AccountState) (del : gset Address) :
  let keep a st m := if bool_decide (a ∈ del) then m else <[a := st]> m in
  map_fold keep (map_fold keep ∅ base) dirty = visible_accounts base dirty del.
Proof.
  intros keep. apply map_eq. intros a. rewrite visible_lookup.
  assert (forall m0 m, map_fold keep m0 m !! a =
    if decide (a ∈ del) then m0 !! a else match m !! a with Some st => Some st | None => m0 !! a end) as Hk.
  { intros m0. apply (map_fold_weak_ind (fun (r : gmap Address AccountState) m => r !! a =
      if decide (a ∈ del) then m0 !! a else match m !! a with Some st => Some st | None => m0 !! a end)).
    - rewrite lookup_empty. by case_decide.
    - intros i st m r Hi Hr. unfold keep. destruct (decide (i = a)) as [->|Hne].
      + case_bool_decide; [by rewrite decide_True in Hr |- *|]. rewrite decide_False in Hr |- * by done.
        by rewrite !lookup_insert_eq.
      + rewrite (lookup_insert_ne m) by done. case_bool_decide; [done|]. by rewrite lookup_insert_ne. }
  rewrite !Hk, lookup_empty. case_decide; [done|]. destruct (dirty !! a); [done|].
  by destruct (base !! a).
Qed.

(** ** Byte strings as RLP lists *)

Lemma enc_str_bytes d : Forall byte d -> zlen d < 2 ^ 63 -> Forall byte (enc_str d).
Proof.
  intros Hd Hl. pose proof (zlen_nonneg d).
  destruct (enc_str_cases d) as [[-> ->]|[(b & -> & _ & ->)|[[H55 ->]|[H55 He]]]]; [by repeat constructor|done| |].
  - constructor; [unfold byte; lia|done].
  - rewrite He by done. pose proof (zlen_minimal (zlen d) ltac:(lia)).
    constructor; [unfold byte; lia|]. apply Forall_app. split; [|done]. apply strip_zeros_bytes, to_be_bytes.
Qed.

Lemma enc_lst_bytes c : Forall byte c -> zlen c < 2 ^ 63 -> Forall byte (enc_lst c).
Proof.
  intros Hd Hl. pose proof (zlen_nonneg c). destruct (enc_lst_cases c) as [[H55 ->]|[H55 He]].
  - constructor; [unfold byte; lia|done].
  - rewrite He by done. pose proof (zlen_minimal (zlen c) ltac:(lia)).
    constructor; [unfold byte; lia|]. apply Forall_app. split; [|done]. apply strip_zeros_bytes, to_be_bytes.
Qed.

Lemma enc_str_nonempty d : enc_str d <> [].
Proof. unfold enc_str, encode_string, push_bytes. simpl. repeat case_match; done. Qed.

(** Strings this short, a few of them. *)
Definition short_strs (ds : list bytes) : Prop := Forall (fun d => Forall byte d /\ zlen d <= 32) ds.

Lemma short_strs_len ds : short_strs ds -> zlen (concat (map enc_str ds)) <= 41 * Z.of_nat (length ds).
Proof.
  induction 1 as [|d ds [_ Hd] _ IH]; [done|]. simpl concat. rewrite zlen_app.
  pose proof (zlen_enc_str_le d ltac:(lia)). simpl length. lia.
Qed.

Lemma enc_strs_at ds n d : short_strs ds -> (length ds <= 5)%nat -> ds !! n = Some d ->
  rlp_at (enc_lst (concat (map enc_str ds))) (Z.of_nat n) = Ok (enc_str d).
Proof.
  intros Hs Hl Hn. pose proof (short_strs_len ds Hs). rewrite rlp_at_enc; [|..|lia].
  - rewrite Nat2Z.id. change (map enc_str ds) with (enc_str <$> ds). by rewrite list_lookup_fmap, Hn.
  - apply List.Forall_map. eapply List.Forall_impl; [|exact Hs]. intros x [Hx ?]. apply enc_str_item; [done|lia].
  - lia.
Qed.

Lemma enc_strs_inj ds ds' : short_strs ds -> short_strs ds' -> (length ds <= 5)%nat -> (length ds' <= 5)%nat ->
  enc_lst (concat (map enc_str ds)) = enc_lst (concat (map enc_str ds')) -> ds = ds'.
Proof.
  intros Hs Hs' Hl Hl' He.
  assert (forall ds, short_strs ds -> (length ds <= 5)%nat ->
    item_count (enc_lst (concat (map enc_str ds))) = Ok (Z.of_nat (length ds))) as Hcount.
  { clear. intros ds Hs Hl. pose proof (short_strs_len ds Hs). rewrite item_count_enc; [by rewrite length_map| |lia].
    apply List.Forall_map. eapply List.Forall_impl; [|exact Hs]. intros x [Hx ?]. apply enc_str_item; [done|lia]. }
  assert (length ds = length ds') as Hlen.
  { pose proof (Hcount ds Hs Hl) as H1. rewrite He, (Hcount ds' Hs' Hl') in H1. injection H1. lia. }
  apply list_eq_same_length with (n := length ds); [done|done|].
  intros i d d' Hi Hd Hd'. pose proof (enc_strs_at _ _ _ Hs Hl Hd) as H1.
  rewrite He, (enc_strs_at _ _ _ Hs' Hl' Hd') in H1. injection H1 as H1.
  pose proof (proj1 (Forall_lookup _ _) Hs _ _ Hd) as [Hb Hz].
  pose proof (proj1 (Forall_lookup _ _) Hs' _ _ Hd') as [Hb' Hz'].
  pose proof (proj2 (as_bytes_enc d Hb ltac:(lia))) as E1.
  pose proof (proj2 (as_bytes_enc d' Hb' ltac:(lia))) as E2. congruence.
Qed.

(** ** The account leaf *)

Definition with_root (r : H256) (a : AccountState) : AccountState :=
  mkAccount (nonce a) (balance a) (code_hash a) r (vm a).

Definition account_fields (a : AccountState) : list bytes :=
  [u64_min_be (nonce a); strip_zeros (to_be 32 (balance a)); storage_root a; code_hash a] ++
  (if decide (vm a = Zvm) then [[1]] else []).
Definition account_leaf (a : AccountState) : bytes := enc_lst (concat (map enc_str (account_fields a))).

Lemma u64_min_be_strip n : u64_min_be n = strip_zeros (to_be 8 n).
Proof. unfold u64_min_be. destruct (Z.eqb_spec n 0) as [->|]; done. Qed.

Lemma stripped_ok k n : Forall byte (strip_zeros (to_be k n)) /\ zlen (strip_zeros (to_be k n)) <= Z.of_nat k.
Proof.
  split; [apply strip_zeros_bytes, to_be_bytes|].
  etrans; [apply strip_zeros_len|]. rewrite zlen_to_be. lia.
Qed.

Lemma byte_one : Forall byte [1].
Proof. apply List.Forall_cons; [unfold byte; lia|apply List.Forall_nil]. Qed.

Lemma account_fields_ok a : account_ok a -> short_strs (account_fields a) /\ (length (account_fields a) <= 5)%nat.
Proof.
  intros [_ _ [Hc1 Hc2] [Hs1 Hs2]]. unfold account_fields. rewrite u64_min_be_strip.
  pose proof (stripped_ok 8 (nonce a)) as [? ?]. pose proof (stripped_ok 32 (balance a)) as [? ?].
  split; [|case_decide; simpl; lia]. apply Forall_app. split.
  - repeat (apply List.Forall_cons; [split; [done|unfold zlen in *; lia]|]). apply List.Forall_nil.
  - case_decide; [|by apply List.Forall_nil].
    apply List.Forall_cons; [|apply List.Forall_nil]. split; [by apply byte_one|done].
Qed.

Lemma encode_account_rlp_leaf {E} a r : account_ok (with_root r a) ->
  encode_account_rlp (E := E) a r = Ok (account_leaf (with_root r a)).
Proof.
  intros Ha. destruct (account_fields_ok _ Ha) as [Hs Hl]. pose proof (short_strs_len _ Hs) as Hz.
  unfold encode_account_rlp, out_bytes, append, account_leaf, strip_leading_zeros.
  change (begin_list stream_new) with stream_new_list. rewrite !encode_string_push, !push_push.
  replace (if bool_decide (vm a = Zvm) then _ else _) with
    (push_bytes (concat (map enc_str (account_fields (with_root r a)))) stream_new_list).
  { rewrite out_open_list by lia. done. }
  unfold account_fields. simpl. case_bool_decide; rewrite ?decide_True, ?decide_False by done;
    rewrite ?push_push; simpl; by rewrite <-?app_assoc, ?app_nil_r.
Qed.

Lemma be_val_stripped k n : 0 <= n < 256 ^ Z.of_nat k -> be_val (strip_zeros (to_be k n)) = n.
Proof. intros H. rewrite strip_zeros_val, be_val_to_be. by apply Z.mod_small. Qed.

Lemma account_leaf_inj a b : account_ok a -> account_ok b -> account_leaf a = account_leaf b -> a = b.
Proof.
  intros Ha Hb He. destruct (account_fields_ok _ Ha), (account_fields_ok _ Hb).
  apply enc_strs_inj in He; [|done..]. unfold account_fields in He. rewrite !u64_min_be_strip in He.
  injection He as Hn Hbal Hr Hc Hv. destruct Ha, Hb.
  pose proof (be_val_stripped 8 (nonce a) ltac:(done)). pose proof (be_val_stripped 8 (nonce b) ltac:(done)).
  pose proof (be_val_stripped 32 (balance a) ltac:(done)). pose proof (be_val_stripped 32 (balance b) ltac:(done)).
  destruct a as [na ba ca ra va], b as [nb bb cb rb vb]. simpl in *. f_equal; try congruence.
  by destruct va, vb.
Qed.

Lemma account_leaf_value a : account_ok a -> value_ok (account_leaf a).
Proof.
  intros Ha. destruct (account_fields_ok _ Ha) as [Hs Hl]. pose proof (short_strs_len _ Hs) as Hz.
  unfold account_leaf. split_and!.
  - unfold enc_lst, list_prefix. by case_match.
  - apply enc_lst_bytes; [|lia]. apply Forall_concat, List.Forall_map.
    eapply List.Forall_impl; [|exact Hs]. intros d [Hd ?]. apply enc_str_bytes; [done|lia].
  - pose proof (zlen_enc_lst_le (concat (map enc_str (account_fields a))) ltac:(lia)). lia.
Qed.

(** ** Loops of insertions and deletions *)

(** [u] says of each key to bind it, to unbind it, or nothing. *)
Definition overlay (u : gmap bytes (option bytes)) (m : gmap bytes bytes) : gmap bytes bytes :=
  omap id u ∪ filter (fun kv => u !! kv.1 = None) m.

Lemma overlay_lookup u m k :
  overlay u m !! k = match u !! k with Some o => o | None => m !! k end.
Proof.
  unfold overlay. rewrite lookup_union, lookup_omap. destruct (u !! k) as [[v|]|] eqn:Hu; simpl.
  - by rewrite union_Some_l.
  - rewrite (left_id None union). apply map_lookup_filter_None. right. intros v _. simpl. by rewrite Hu.
  - rewrite (left_id None union). destruct (m !! k) as [v|] eqn:Hm.
    + by apply map_lookup_filter_Some.
    + apply map_lookup_filter_None. by left.
Qed.

Definition upd (e : option (bytes * option bytes)) (m : gmap bytes bytes) : gmap bytes bytes :=
  match e with
  | None => m
  | Some (k, Some v) => <[k := v]> m
  | Some (k, None) => base.delete k m
  end.

Lemma foldl_upd {A} (eff : A -> option (bytes * option bytes)) l m :
  NoDup (omap eff l).*1 ->
  foldl (fun m x => upd (eff x) m) m l = overlay (list_to_map (omap eff l)) m.
Proof.
  intros Hnd. apply map_eq. intros h. rewrite overlay_lookup. revert m Hnd.
  induction l as [|x l IH]; intros m Hnd; [done|]. simpl in *.
  destruct (eff x) as [[k o]|]; simpl in *; [|by rewrite IH].
  apply list.NoDup_cons in Hnd as [Hk Hnd]. rewrite IH by done.
  destruct (decide (k = h)) as [<-|Hne].
  - rewrite lookup_insert_eq, not_elem_of_list_to_map_1 by done.
    destruct o; [by rewrite lookup_insert_eq|by rewrite lookup_delete_eq].
  - rewrite lookup_insert_ne by done. destruct (list_to_map _ !! h); [done|].
    destruct o; [by rewrite lookup_insert_ne|by rewrite lookup_delete_ne].
Qed.

Lemma nodup_omap_keys {A} (f : A -> option (bytes * option bytes)) l :
  (forall x y a b, x ∈ l -> y ∈ l -> f x = Some a -> f y = Some b -> a.1 = b.1 -> x = y) ->
  NoDup l -> NoDup (omap f l).*1.
Proof.
  induction l as [|x l IH]; intros Hinj Hnd; [constructor|].
  apply list.NoDup_cons in Hnd as [Hx Hnd].
  assert (NoDup (omap f l).*1) by (apply IH; [set_solver|done]).
  simpl. destruct (f x) as [a|] eqn:Hfx; [|done]. simpl. apply list.NoDup_cons. split; [|done].
  intros (b & Hb & (y & Hy & Hfy)%list_elem_of_omap)%list_elem_of_fmap. apply Hx.
  assert (x = y) as ->; [|done]. eapply Hinj; [apply elem_of_cons; by left|apply elem_of_cons; by right|done..].
Qed.

Section loops.
Context (keccak : bytes -> H256) `{HK : !Hash256 keccak}.
Context {DB : Type} `{DBI : TrieDB DB} (Dom : bytes -> Prop) `{HC : !CollisionFree keccak Dom}.
Abbreviation trie := (MutableTrie (DB := DB)).

(** The method succeeds and does [e] to the map the trie denotes. *)
Definition performs (f : M trie TrieError unit) (e : option (bytes * option bytes)) : Prop :=
  mono Dom f /\ forall t m, denotes keccak Dom t m -> Forall Dom (written (snd (f t))) ->
    fst (f t) = Ok tt /\ denotes keccak Dom (snd (f t)) (upd e m).

Lemma mono_insert k v : mono Dom (Trie.insert (DB := DB) keccak k v).
Proof.
  unfold Trie.insert. apply mono_bind; [apply mono_gets|intros]. apply mono_bind; [case_match; mono|intros].
  apply mono_bind; [apply mono_insert_node|intros]. apply mono_bind; [apply mono_commit_root|intros].
  apply mono_set_root.
Qed.

Lemma mono_delete k : mono Dom (Trie.delete (DB := DB) keccak k).
Proof.
  unfold Trie.delete. apply mono_bind; [apply mono_gets|intros]. case_match; [apply mono_ret|].
  apply mono_bind; [mono|intros]. apply mono_bind; [apply mono_delete_node|intros [n b]].
  case_match; [apply mono_ret|]. apply mono_bind; [apply mono_commit_root|intros].
  apply mono_bind; [apply mono_set_root|intros; apply mono_ret].
Qed.

Lemma performs_skip : performs (mret tt) None.
Proof. split; [apply mono_ret|]. intros t m Ht _. by split. Qed.

Lemma performs_insert k v : key_ok k -> value_ok v ->
  performs (Trie.insert keccak k v) (Some (k, Some v)).
Proof. split; [apply mono_insert|]. intros t m Ht Hw. by apply denotes_insert. Qed.

Lemma performs_expect f e : performs f e -> performs (expect f) e.
Proof.
  intros [Hm Hf]. split.
  - intros t. specialize (Hm t). unfold expect. by destruct (f t) as [[]].
  - intros t m Ht Hw. specialize (Hf t m Ht). unfold expect in *.
    destruct (f t) as [[a|er|] t']; simpl in *; destruct Hf; done.
Qed.

Lemma performs_delete k : key_ok k -> performs (tolerate_missing (Trie.delete keccak k)) (Some (k, None)).
Proof.
  intros Hk. split.
  - intros t. pose proof (mono_delete k t). unfold tolerate_missing. by destruct (Trie.delete keccak k t) as [[|[]|]].
  - intros t m Ht Hw. pose proof (denotes_delete keccak Dom t m k Ht Hk) as Hd. unfold tolerate_missing in *.
    destruct (Trie.delete keccak k t) as [[b|[]|] t']; simpl in *; destruct Hd as [[=] Hd]; done.
Qed.

(** [lift]ed computations that succeed. *)
Lemma performs_lift {A} (r : res TrieError A) a f e : r = Ok a -> performs (f a) e ->
  performs (lift r ≫= f) e.
Proof. intros -> H. exact H. Qed.

Lemma for_each_performs {A} (body : A -> M trie TrieError unit) eff l :
  Forall (fun x => performs (body x) (eff x)) l ->
  forall t m, denotes keccak Dom t m -> Forall Dom (written (snd (for_each body l t))) ->
  fst (for_each body l t) = Ok tt /\
  denotes keccak Dom (snd (for_each body l t)) (foldl (fun m x => upd (eff x) m) m l).
Proof.
  assert (forall l, Forall (fun x => performs (body x) (eff x)) l -> mono Dom (for_each body l)) as Hmono.
  { induction 1 as [|x t [Hx _] _ IH]; [apply mono_ret|]. simpl. apply mono_bind; [done|]. by intros. }
  induction 1 as [|x l [Hmx Hx] Hl IH]; intros t m Ht Hw; [by split|].
  simpl in *. unfold mbind, M_bind in *. specialize (Hx t m Ht).
  destruct (body x t) as [[[]|er|] t'] eqn:Hb; simpl in *.
  - destruct Hx as [_ Hx]; [by apply (Hmono l Hl)|]. by apply IH.
  - by destruct Hx.
  - by destruct Hx.
Qed.

(** ** Keys hashed *)

Definition hash_keys {B} (m : gmap (list Z) B) : gmap bytes B :=
  list_to_map ((fun kb => (keccak kb.1, kb.2)) <$> map_to_list m).
Definition keys_in {B} (m : gmap (list Z) B) : Prop := forall k, is_Some (m !! k) -> Dom k.

Lemma hashed_nodup {B} (m : gmap (list Z) B) : keys_in m ->
  NoDup ((fun kb => (keccak kb.1, kb.2)) <$> map_to_list m).*1.
Proof.
  intros Hd. rewrite <-list_fmap_compose. apply NoDup_fmap_2_strong; [|apply NoDup_map_to_list].
  intros [k1 b1] [k2 b2] H1%elem_of_map_to_list H2%elem_of_map_to_list Heq. simpl in Heq.
  apply (keccak_inj (Dom := Dom)) in Heq; [|by apply Hd|by apply Hd]. subst. congruence.
Qed.

Lemma hash_keys_lookup {B} (m : gmap (list Z) B) h b : keys_in m ->
  hash_keys m !! h = Some b <-> exists k, m !! k = Some b /\ keccak k = h.
Proof.
  intros Hd. unfold hash_keys. rewrite <-elem_of_list_to_map by by apply hashed_nodup.
  rewrite list_elem_of_fmap. split.
  - intros ([k b'] & [= -> ->] & Hm%elem_of_map_to_list). by exists k.
  - intros (k & Hm & <-). exists (k, b). split; [done|]. by apply elem_of_map_to_list.
Qed.

Lemma hash_keys_at {B} (m : gmap (list Z) B) k : keys_in m -> Dom k -> hash_keys m !! keccak k = m !! k.
Proof.
  intros Hd Hk. apply option_eq. intros b. rewrite hash_keys_lookup by done. split; [|by exists k].
  intros (k' & Hm & Heq). apply (keccak_inj (Dom := Dom)) in Heq; [by subst|by apply Hd|done].
Qed.

Lemma hash_keys_inj {B} (m1 m2 : gmap (list Z) B) : keys_in m1 -> keys_in m2 ->
  hash_keys m1 = hash_keys m2 <-> m1 = m2.
Proof.
  intros H1 H2. split; [|by intros ->]. intros Heq. apply map_eq. intros k.
  assert (forall m m' : gmap (list Z) B, keys_in m -> keys_in m' -> hash_keys m = hash_keys m' ->
    forall b, m !! k = Some b -> m' !! k = Some b) as Hsub.
  { intros m m' Hm Hm' He b Hb. assert (Dom k) by by apply Hm.
    by rewrite <-hash_keys_at, <-He, hash_keys_at by done. }
  apply option_eq. intros b. split; by apply Hsub.
Qed.

(** A loop that lists a map and acts on hashed keys overlays what it does to
    each binding. *)
Lemma foldl_lists {A} (g : list Z -> A -> option (option bytes)) (l : list (list Z * A)) m m0 :
  lists l m -> keys_in m ->
  foldl (fun m x => upd ((fun o => (keccak x.1, o)) <$> g x.1 x.2) m) m0 l =
  overlay (hash_keys (map_imap g m)) m0.
Proof.
  intros Hl Hd. assert (keys_in (map_imap g m)) as Hd'.
  { intros k [o Ho]. rewrite map_lookup_imap in Ho. apply bind_Some in Ho as (a & Ha & _). by apply Hd. }
  assert (forall x, x ∈ omap (fun x => (fun o => (keccak x.1, o)) <$> g x.1 x.2) l <->
    exists k o, x = (keccak k, o) /\ map_imap g m !! k = Some o) as Hin.
  { intros [h o]. rewrite list_elem_of_omap. split.
    - intros ([k a] & Hx & Hg). apply fmap_Some in Hg as (o' & Hg & [= -> ->]). simpl in *.
      exists k, o'. split; [done|]. rewrite map_lookup_imap.
      rewrite Hl in Hx. apply elem_of_map_to_list in Hx. by rewrite Hx.
    - intros (k & o' & [= -> ->] & Hk). rewrite map_lookup_imap in Hk.
      apply bind_Some in Hk as (a & Ha & Hg). exists (k, a). simpl. rewrite Hg. split; [|done].
      rewrite Hl. by apply elem_of_map_to_list. }
  assert (NoDup (omap (fun x => (fun o => (keccak x.1, o)) <$> g x.1 x.2) l).*1) as Hnd.
  { apply nodup_omap_keys; [|rewrite Hl; apply NoDup_map_to_list].
    intros [k1 a1] [k2 a2] e1 e2 Hx1 Hx2 H1 H2 Heq. rewrite Hl in Hx1, Hx2.
    apply elem_of_map_to_list in Hx1, Hx2. simpl in *.
    apply fmap_Some in H1 as (o1 & _ & ->), H2 as (o2 & _ & ->). simpl in *.
    apply (keccak_inj (Dom := Dom)) in Heq; [|by apply Hd|by apply Hd]. subst. congruence. }
  rewrite foldl_upd by done. f_equal. apply map_eq. intros h. apply option_eq. intros o.
  rewrite hash_keys_lookup by done. rewrite <-elem_of_list_to_map by done. rewrite Hin. naive_solver.
Qed.


(** ** Storage roots *)

Definition storage_leaf (v : H256) : bytes := enc_str (strip_zeros v).
Definition storage_update (v : H256) : option bytes :=
  if is_zero_hash v then None else Some (storage_leaf v).

(** The slots of a map that are bound, as leaves. *)
Definition nonzero_leaves (m : gmap H256 H256) : gmap H256 bytes := map_imap (fun _ v => storage_update v) m.
Definition nonzero (m : gmap H256 H256) : gmap H256 H256 := filter (fun kv => is_zero_hash kv.2 = false) m.
Definition slots_ok (m : gmap H256 H256) : Prop := forall k v, m !! k = Some v -> hash_ok v.

Lemma out_bytes_str {E} d : out_bytes (E := E) (append d stream_new) = Ok (enc_str d).
Proof. unfold append. by rewrite encode_string_push. Qed.

Lemma storage_leaf_value v : hash_ok v -> value_ok (storage_leaf v).
Proof.
  intros [Hl Hb]. unfold storage_leaf. apply strip_zeros_bytes in Hb.
  pose proof (strip_zeros_len v) as Hs. assert (zlen v = 32) by (unfold zlen; lia).
  split_and!; [apply enc_str_nonempty|apply enc_str_bytes; [done|lia]|].
  pose proof (zlen_enc_str_le (strip_zeros v) ltac:(lia)). lia.
Qed.

Lemma storage_leaf_inj v w : hash_ok v -> hash_ok w -> storage_leaf v = storage_leaf w -> v = w.
Proof.
  intros [Hl Hb] [Hl' Hb'] He. unfold storage_leaf in He.
  pose proof (strip_zeros_len v). pose proof (strip_zeros_len w).
  assert (zlen v = 32) by (unfold zlen; lia). assert (zlen w = 32) by (unfold zlen; lia).
  destruct (as_bytes_enc (strip_zeros v)) as [_ E1]; [by apply strip_zeros_bytes|lia|].
  destruct (as_bytes_enc (strip_zeros w)) as [_ E2]; [by apply strip_zeros_bytes|lia|].
  rewrite He, E2 in E1. injection E1 as E1.
  apply be_val_inj; [done|done|congruence|]. by rewrite <-strip_zeros_val, <-E1, strip_zeros_val.
Qed.

Lemma nonzero_leaves_inj m1 m2 : slots_ok m1 -> slots_ok m2 ->
  nonzero_leaves m1 = nonzero_leaves m2 <-> nonzero m1 = nonzero m2.
Proof.
  intros H1 H2.
  assert (forall m k, nonzero_leaves m !! k = storage_leaf <$> nonzero m !! k) as Hl.
  { intros m k. unfold nonzero_leaves, nonzero, storage_update. rewrite map_lookup_imap, map_lookup_filter.
    destruct (m !! k) as [v|]; [|done]. simpl. by destruct (is_zero_hash v). }
  split; intros Heq; apply map_eq; intros k; [|by rewrite !Hl, Heq].
  pose proof (f_equal (.!! k) Heq) as Hk. simpl in Hk. rewrite !Hl in Hk.
  destruct (nonzero m1 !! k) as [v|] eqn:Hv, (nonzero m2 !! k) as [w|] eqn:Hw; try done.
  simpl in Hk. injection Hk as Hk. apply map_lookup_filter_Some in Hv as [Hv _], Hw as [Hw _].
  f_equal. apply storage_leaf_inj; [by eapply H1|by eapply H2|done].
Qed.

Lemma hashed_key_ok k : key_ok (keccak k).
Proof. destruct (keccak_h256 (keccak := keccak) k) as [Hl Hb]. split; [done|]. unfold zlen. lia. Qed.

Lemma performs_storage_step slot value : hash_ok value ->
  performs (storage_step keccak (slot, value))
    ((fun o => (keccak slot, o)) <$> (if is_zero_hash value then None else Some (Some (storage_leaf value)))).
Proof.
  intros Hv. unfold storage_step. case_match; [apply performs_skip|].
  apply (performs_lift _ (storage_leaf value)); [apply out_bytes_str|].
  apply performs_expect, performs_insert; [apply hashed_key_ok|by apply storage_leaf_value].
Qed.

Lemma performs_storage_step_db slot value : hash_ok value ->
  performs (storage_step_db keccak (slot, value))
    ((fun o => (keccak slot, o)) <$> Some (storage_update value)).
Proof.
  intros Hv. unfold storage_step_db, storage_update. case_match; simpl.
  - apply performs_delete, hashed_key_ok.
  - apply (performs_lift _ (storage_leaf value)); [apply out_bytes_str|].
    apply performs_insert; [apply hashed_key_ok|by apply storage_leaf_value].
Qed.

Lemma lists_elem {A} (l : list (list Z * A)) m x : lists l m -> x ∈ l -> m !! x.1 = Some x.2.
Proof. intros Hl Hx. rewrite Hl in Hx. destruct x. by apply elem_of_map_to_list. Qed.

Lemma overlay_bound {B} (u : gmap (list Z) B) (f : B -> bytes) : keys_in u ->
  overlay (hash_keys ((fun b => Some (f b)) <$> u)) ∅ = hash_keys (f <$> u).
Proof.
  intros Hd. apply map_eq. intros h. rewrite overlay_lookup, lookup_empty.
  assert (forall (C : Type) (g : B -> C), keys_in (g <$> u)) as Hd'.
  { intros C g k. rewrite lookup_fmap. intros [c Hc]. apply Hd. by destruct (u !! k). }
  apply option_eq. intros v. destruct (hash_keys (_ <$> u) !! h) as [o|] eqn:Ho.
  - apply hash_keys_lookup in Ho as (k & Hk & <-); [|apply Hd'].
    rewrite lookup_fmap in Hk. apply fmap_Some in Hk as (b & Hb & ->).
    rewrite hash_keys_at, lookup_fmap, Hb; [done|apply Hd'|by apply Hd].
  - split; [done|]. intros Hv. apply hash_keys_lookup in Hv as (k & Hk & <-); [|apply Hd'].
    rewrite lookup_fmap in Hk. apply fmap_Some in Hk as (b & Hb & ->).
    rewrite hash_keys_at, lookup_fmap, Hb in Ho; [done|apply Hd'|by apply Hd].
Qed.

Lemma root_of_root (t : trie) : root_of t = root t.
Proof. unfold root_of. case_bool_decide as H; [by rewrite H|done]. Qed.

Lemma fst_ok {S E A} (m : M S E A) s a : fst (m s) = Ok a -> m s = (Ok a, snd (m s)).
Proof. destruct (m s) as [r s']. simpl. by intros ->. Qed.

(** The reopened storage trie holds what it held with the slots on top. *)
Lemma storage_root_with_db l m prev d mp : lists l m -> slots_ok m -> keys_in m ->
  denotes keccak Dom (from_root prev d) mp ->
  Forall Dom (written (snd (for_each (storage_step_db keccak) l (from_root prev d)))) ->
  exists t, compute_storage_root_with_db keccak l prev d = Ok (root t) /\
    denotes keccak Dom t (overlay (hash_keys (storage_update <$> m)) mp).
Proof.
  intros Hl Hm Hd Ht Hw.
  destruct (for_each_performs (storage_step_db keccak)
    (fun x => (fun o => (keccak x.1, o)) <$> Some (storage_update x.2)) l) with (t := from_root prev d) (m := mp)
    as [Hok Hden]; [|done|done|].
  { apply List.Forall_forall. intros [k v] Hx%list_elem_of_In. apply performs_storage_step_db.
    eapply Hm. by apply (lists_elem l m (k, v)). }
  rewrite (foldl_lists (fun _ v => Some (storage_update v)) l m) in Hden by done.
  replace (map_imap (fun _ v => Some (storage_update v)) m) with (storage_update <$> m) in Hden.
  2:{ apply map_eq. intros k. rewrite map_lookup_imap, lookup_fmap. by destruct (m !! k). }
  eexists. split; [|exact Hden]. unfold compute_storage_root_with_db, run_root.
  rewrite (fst_ok _ _ _ Hok). by rewrite root_of_root.
Qed.

Lemma keys_in_nonzero m : keys_in m -> keys_in (nonzero_leaves m).
Proof.
  intros Hd k [b Hb]. unfold nonzero_leaves in Hb. rewrite map_lookup_imap in Hb.
  apply bind_Some in Hb as (v & Hv & _). by apply Hd.
Qed.

Lemma storage_root_memory d l m : lists l m -> slots_ok m -> keys_in m ->
  denotes keccak Dom (trie_new d) ∅ ->
  Forall Dom (written (snd (for_each (storage_step keccak) l (trie_new d)))) ->
  exists t, run_root (for_each (storage_step keccak) l) (trie_new d) root_of = Ok (root t) /\
    denotes keccak Dom t (hash_keys (nonzero_leaves m)).
Proof.
  intros Hl Hm Hd Ht Hw.
  destruct (for_each_performs (storage_step keccak) (fun x => (fun o => (keccak x.1, o)) <$>
      (if is_zero_hash x.2 then None else Some (Some (storage_leaf x.2)))) l)
    with (t := trie_new d) (m := (∅ : gmap bytes bytes)) as [Hok Hden]; [|done|done|].
  { apply List.Forall_forall. intros [k v] Hx%list_elem_of_In. apply performs_storage_step.
    eapply Hm. by apply (lists_elem l m (k, v)). }
  rewrite (foldl_lists (fun _ v => if is_zero_hash v then None else Some (Some (storage_leaf v))) l m) in Hden by done.
  replace (map_imap (fun _ v => if is_zero_hash v then None else Some (Some (storage_leaf v))) m)
    with ((fun b => Some (id b)) <$> nonzero_leaves m) in Hden.
  2:{ apply map_eq. intros k. unfold nonzero_leaves, storage_update. rewrite lookup_fmap, !map_lookup_imap.
      destruct (m !! k) as [v|]; [|done]. simpl. by destruct (is_zero_hash v). }
  rewrite overlay_bound, map_fmap_id in Hden by by apply keys_in_nonzero.
  eexists. split; [|exact Hden]. unfold run_root. rewrite (fst_ok _ _ _ Hok). by rewrite root_of_root.
Qed.

(** ** State roots *)

(** What the account loop commits for one account: nothing when it is empty
    and has no cached slots, its leaf over the storage root otherwise. *)
Definition committed (root_for : list (H256 * H256) -> H256 -> res TrieError H256)
    (storage : storage_map) (addr : Address) (a : AccountState) : option AccountState :=
  let cached := match storage !! addr with Some ((_ :: _) as l) => Some l | _ => None end in
  match cached with
  | None => if is_empty a then None else Some a
  | Some l => match root_for l (storage_root a) with Ok r => Some (with_root r a) | _ => None end
  end.

Lemma with_root_same a : with_root (storage_root a) a = a.
Proof. by destruct a. Qed.

(** Every cached storage has a root of the right type. *)
Definition roots_ok (root_for : list (H256 * H256) -> H256 -> res TrieError H256)
    (storage : storage_map) (accounts : gmap Address AccountState) : Prop :=
  forall addr a l, accounts !! addr = Some a -> storage !! addr = Some l -> l <> [] ->
    exists r, root_for l (storage_root a) = Ok r /\ hash_ok r.

Lemma performs_account_step root_for ins storage addr a :
  (forall f e, performs f e -> performs (ins f) e) -> account_ok a ->
  (forall l, storage !! addr = Some l -> l <> [] ->
     exists r, root_for l (storage_root a) = Ok r /\ hash_ok r) ->
  performs (account_step keccak storage root_for ins (addr, a))
    ((fun o => (keccak addr, o)) <$> ((fun a => Some (account_leaf a)) <$> committed root_for storage addr a)).
Proof.
  intros Hins Ha Hr.
  assert (forall r, account_ok (with_root r a) -> performs
    (value ← lift (encode_account_rlp a r); ins (Trie.insert keccak (keccak addr) value))
    (Some (keccak addr, Some (account_leaf (with_root r a))))) as Hleaf.
  { intros r Hok. apply (performs_lift _ (account_leaf (with_root r a))); [by apply encode_account_rlp_leaf|].
    apply Hins, performs_insert; [apply hashed_key_ok|by apply account_leaf_value]. }
  unfold account_step, committed. destruct (storage !! addr) as [[|x l]|] eqn:Hs.
  - rewrite andb_true_r. destruct (is_empty a); [apply performs_skip|].
    apply (performs_lift _ (storage_root a)); [done|]. simpl.
    rewrite <-(with_root_same a) at 3. apply Hleaf. by rewrite with_root_same.
  - rewrite andb_false_r. destruct (Hr (x :: l)) as (r & Hroot & Hh); [done..|].
    apply (performs_lift _ r); [done|]. rewrite Hroot. simpl. apply Hleaf. destruct Ha. by split.
  - rewrite andb_true_r. destruct (is_empty a); [apply performs_skip|].
    apply (performs_lift _ (storage_root a)); [done|]. simpl.
    rewrite <-(with_root_same a) at 3. apply Hleaf. by rewrite with_root_same.
Qed.

Definition accounts_ok (m : gmap Address AccountState) : Prop := forall k a, m !! k = Some a -> account_ok a.

(** The accounts a state root commits to. *)
Definition leaves (root_for : list (H256 * H256) -> H256 -> res TrieError H256)
    (storage : storage_map) (accounts : gmap Address AccountState) : gmap Address AccountState :=
  map_imap (committed root_for storage) accounts.

Lemma state_trie root_for ins storage l accounts d :
  (forall f e, performs f e -> performs (ins f) e) ->
  lists l accounts -> accounts_ok accounts -> keys_in accounts -> roots_ok root_for storage accounts ->
  denotes keccak Dom (trie_new d) ∅ ->
  Forall Dom (written (snd (for_each (account_step keccak storage root_for ins) l (trie_new d)))) ->
  exists t, run_root (for_each (account_step keccak storage root_for ins) l) (trie_new d) root = Ok (root t) /\
    denotes keccak Dom t (hash_keys (account_leaf <$> leaves root_for storage accounts)).
Proof.
  intros Hins Hl Ha Hd Hr Ht Hw.
  destruct (for_each_performs (account_step keccak storage root_for ins)
    (fun x => (fun o => (keccak x.1, o)) <$>
       ((fun a => Some (account_leaf a)) <$> committed root_for storage x.1 x.2)) l)
    with (t := trie_new d) (m := (∅ : gmap bytes bytes)) as [Hok Hden]; [|done|done|].
  { apply List.Forall_forall. intros [k a] Hx%list_elem_of_In. pose proof (lists_elem l accounts (k, a) Hl Hx) as Hk.
    apply performs_account_step; [done|by eapply Ha|]. intros sl Hs Hne. by eapply Hr. }
  rewrite (foldl_lists (fun k a => (fun a => Some (account_leaf a)) <$> committed root_for storage k a) l accounts)
    in Hden by done.
  replace (map_imap (fun k a => (fun a => Some (account_leaf a)) <$> committed root_for storage k a) accounts)
    with ((fun a => Some (account_leaf a)) <$> leaves root_for storage accounts) in Hden.
  2:{ apply map_eq. intros k. unfold leaves. rewrite lookup_fmap, !map_lookup_imap. by destruct (accounts !! k). }
  rewrite overlay_bound in Hden.
  - eexists. split; [|exact Hden]. unfold run_root. by rewrite (fst_ok _ _ _ Hok).
  - intros k [b Hb]. unfold leaves in Hb. rewrite map_lookup_imap in Hb.
    apply bind_Some in Hb as (v & Hv & _). by apply Hd.
Qed.
End loops.

(** ** The trie's methods leave the database alone *)

Section keeps_db.
Context (keccak : bytes -> H256) {DB : Type} `{DBI : TrieDB DB}.
Abbreviation trie := (MutableTrie (DB := DB)).

Definition keeps_db {A} (m : M trie TrieError A) : Prop := forall t, db (snd (m t)) = db t.

Lemma keeps_bind {A B} (m : M trie TrieError A) (f : A -> M trie TrieError B) :
  keeps_db m -> (forall a, keeps_db (f a)) -> keeps_db (m ≫= f).
Proof.
  intros Hm Hf t. unfold mbind, M_bind. specialize (Hm t). destruct (m t) as [[a|e|] t']; simpl in *; [|done..].
  by rewrite (Hf a t').
Qed.
Lemma keeps_base {A} (r : trie -> res TrieError A) : keeps_db (fun t => (r t, t)).
Proof. intros t. done. Qed.
Lemma keeps_cache_insert h e : keeps_db (cache_insert h e).
Proof. intros t. done. Qed.
Lemma keeps_set_root h : keeps_db (set_root h).
Proof. intros t. done. Qed.

Ltac keeps :=
  repeat match goal with
  | |- keeps_db (mbind _ _) => apply keeps_bind; [|intros]
  | |- keeps_db (cache_insert _ _) => apply keeps_cache_insert
  | |- keeps_db (set_root _) => apply keeps_set_root
  | |- keeps_db (mret _) => apply keeps_base
  | |- keeps_db (lift _) => apply keeps_base
  | |- keeps_db (gets _) => apply keeps_base
  | |- keeps_db (resolve _) => apply keeps_base
  | |- keeps_db (match _ with _ => _ end) => case_match
  | |- keeps_db (let '(_, _) := _ in _) => case_match
  | |- _ => solve [eauto with keeps]
  end.

Lemma keeps_store_node n : keeps_db (store_node keccak n).
Proof. unfold store_node. keeps. Qed.
Lemma keeps_commit_root n : keeps_db (commit_root keccak n).
Proof. unfold commit_root. keeps. Qed.
Create HintDb keeps.
#[local] Hint Resolve keeps_store_node keeps_commit_root : keeps.

Lemma keeps_place p cp v cs bv : keeps_db (place (DB := DB) keccak p cp v cs bv).
Proof. unfold place, at_path, set_slot. keeps. Qed.
Lemma keeps_wrap_branch kr cp cs bv : keeps_db (wrap_branch (DB := DB) keccak kr cp cs bv).
Proof. unfold wrap_branch. keeps. Qed.
#[local] Hint Resolve keeps_place keeps_wrap_branch : keeps.

Lemma keeps_insert_node fuel n key depth v : keeps_db (insert_node (DB := DB) keccak fuel n key depth v).
Proof.
  revert n depth. induction fuel as [|fuel IH]; intros n depth; [apply keeps_base|].
  unfold insert_node; fold (insert_node (DB := DB) keccak). unfold at_path, get_slot, set_slot. keeps.
Qed.
Lemma keeps_maybe_collapse cs bv : keeps_db (maybe_collapse_branch (DB := DB) keccak cs bv).
Proof. unfold maybe_collapse_branch, get_slot. keeps. Qed.
#[local] Hint Resolve keeps_insert_node keeps_maybe_collapse : keeps.

Lemma keeps_delete_node fuel n key depth : keeps_db (delete_node (DB := DB) keccak fuel n key depth).
Proof.
  revert n depth. induction fuel as [|fuel IH]; intros n depth; [apply keeps_base|].
  unfold delete_node; fold (delete_node (DB := DB) keccak). unfold at_path, get_slot, set_slot. keeps.
Qed.
#[local] Hint Resolve keeps_delete_node : keeps.

Lemma keeps_insert k v : keeps_db (Trie.insert keccak k v).
Proof. unfold Trie.insert. keeps. Qed.
Lemma keeps_delete k : keeps_db (Trie.delete keccak k).
Proof. unfold Trie.delete. keeps. Qed.

Lemma keeps_for_each {A} (body : A -> M trie TrieError unit) l :
  (forall x, keeps_db (body x)) -> keeps_db (for_each body l).
Proof. intros Hb. induction l as [|x l IH]; simpl; keeps; auto. Qed.

Lemma keeps_storage_step_db e : keeps_db (storage_step_db keccak e).
Proof.
  destruct e as [slot value]. unfold storage_step_db. case_match.
  - intros t. pose proof (keeps_delete (keccak slot) t) as Hk. unfold tolerate_missing.
    by destruct (Trie.delete keccak (keccak slot) t) as [[|[]|] t'].
  - apply keeps_bind; [apply keeps_base|]. intros. apply keeps_insert.
Qed.

Lemma insert_missing k v t : root t <> EMPTY_ROOT -> fetch t (root t) = None ->
  Trie.insert keccak k v t = (Err (MissingNode (root t)), t).
Proof.
  intros Hr Hf. unfold Trie.insert, mbind, M_bind, gets. rewrite bool_decide_eq_false_2 by done.
  unfold resolve, resolve_in. rewrite bool_decide_eq_false_2 by done. by rewrite Hf.
Qed.

Lemma delete_missing k t : root t <> EMPTY_ROOT -> fetch t (root t) = None ->
  Trie.delete keccak k t = (Err (MissingNode (root t)), t).
Proof.
  intros Hr Hf. unfold Trie.delete, mbind, M_bind, gets. rewrite bool_decide_eq_false_2 by done.
  unfold resolve, resolve_in. rewrite bool_decide_eq_false_2 by done. by rewrite Hf.
Qed.

(** Opening a storage trie that the database does not have. *)
Lemma reopen_missing l prev d : l <> [] -> prev <> EMPTY_ROOT -> db_get d prev = Ok None ->
  compute_storage_root_with_db keccak l prev d = Err (MissingNode prev).
Proof.
  intros Hl Hne Hd. destruct l as [|[slot value] l]; [done|].
  assert (fetch (from_root prev d) (root (from_root prev d)) = None) as Hf.
  { unfold fetch. simpl. by rewrite lookup_empty, Hd. }
  unfold compute_storage_root_with_db, run_root. cbn [for_each]. unfold mbind, M_bind, storage_step_db.
  destruct (is_zero_hash value).
  - unfold tolerate_missing. by rewrite delete_missing.
  - unfold lift, mbind, M_bind. rewrite out_bytes_str. by rewrite insert_missing.
Qed.
End keeps_db.

(** ** What the roots commit to *)

Section results.
Context (keccak : bytes -> H256) `{HK : !Hash256 keccak}.
Context (Dom : bytes -> Prop) `{HC : !CollisionFree keccak Dom}.
Abbreviation empty_trie := (trie_new (∅ : MemoryTrieDB)).

Lemma empty_trie_denotes : denotes keccak Dom empty_trie ∅.
Proof. by apply denotes_new. Qed.

Lemma denotes_root_ok {DB} `{TrieDB DB} (t : MutableTrie (DB := DB)) m : denotes keccak Dom t m -> hash_ok (root t).
Proof.
  intros (_ & ot & (_ & _ & Hr) & _). destruct ot as [u|]; [|rewrite Hr; apply default_account_ok].
  destruct Hr as [-> _]. apply keccak_h256.
Qed.

(** A listed map of slots whose hashes and trie nodes are in [Dom]. *)
Record slots_known (l : list (H256 * H256)) (m : gmap H256 H256) : Prop := mkSlotsKnown {
  slots_listed : lists l m; slots_typed : slots_ok m; slots_in_dom : keys_in Dom m;
  slots_nodes : Forall Dom (written (snd (for_each (storage_step keccak) l empty_trie))) }.

Lemma storage_root_spec l m : slots_known l m ->
  exists t : MutableTrie (DB := MemoryTrieDB), compute_storage_root keccak l = Ok (root t) /\
    denotes keccak Dom t (hash_keys keccak (nonzero_leaves m)).
Proof.
  intros [Hl Hs Hd Hw].
  exact (storage_root_memory keccak Dom _ l m Hl Hs Hd empty_trie_denotes Hw).
Qed.

(** The storage root, in whatever order the iterators list the slots, is a
    function of the non-zero slots and determines them. *)
Theorem storage_root_commits l1 l2 m1 m2 : slots_known l1 m1 -> slots_known l2 m2 ->
  exists r1 r2, compute_storage_root keccak l1 = Ok r1 /\ compute_storage_root keccak l2 = Ok r2 /\
    (r1 = r2 <-> nonzero m1 = nonzero m2).
Proof.
  intros H1 H2. destruct (storage_root_spec l1 m1 H1) as (t1 & E1 & D1), (storage_root_spec l2 m2 H2) as (t2 & E2 & D2).
  exists (root t1), (root t2). split_and!; [done..|].
  rewrite (denotes_root keccak Dom t1 t2) by done. destruct H1, H2.
  rewrite (hash_keys_inj keccak Dom) by by apply keys_in_nonzero. by apply nonzero_leaves_inj.
Qed.

(** With a database, the root is that of the stored slots with the cached ones
    on top (a zero removes a slot): the root of every trie with that content. *)
Theorem storage_root_overlays {DB} `{TrieDB DB} l m prev (d : DB) mp (t : MutableTrie (DB := DB)) :
  lists l m -> slots_ok m -> keys_in Dom m -> denotes keccak Dom (from_root prev d) mp ->
  Forall Dom (written (snd (for_each (storage_step_db keccak) l (from_root prev d)))) ->
  denotes keccak Dom t (overlay (hash_keys keccak (storage_update <$> m)) mp) ->
  compute_storage_root_with_db keccak l prev d = Ok (root t).
Proof.
  intros Hl Hm Hd Hp Hw Ht.
  destruct (storage_root_with_db keccak Dom l m prev d mp) as (t' & -> & Ht'); [done..|].
  f_equal. by apply (denotes_root keccak Dom t' t _ _ Ht' Ht).
Qed.

(** The nodes of a storage trie updated against a database stay in the dropped
    cache: the database is as before, and the root just computed cannot be
    opened on it again unless it was there already. *)
Theorem storage_root_lost {DB} `{TrieDB DB} l prev (d : DB) r l' :
  compute_storage_root_with_db keccak l prev d = Ok r -> r <> EMPTY_ROOT ->
  db_get d r = Ok None -> l' <> [] ->
  let t := snd (for_each (storage_step_db keccak) l (from_root prev d)) in
  db t = d /\ root t = r /\
  compute_storage_root_with_db keccak l' r (db t) = Err (MissingNode r).
Proof.
  intros Hc Hne Hd Hl t.
  assert (db t = d) as Hdb.
  { unfold t. rewrite (keeps_for_each (storage_step_db keccak) l); [done|]. intros. apply keeps_storage_step_db. }
  split_and!; [done| |rewrite Hdb; by apply reopen_missing].
  unfold compute_storage_root_with_db, run_root in Hc. unfold t.
  destruct (for_each _ l (from_root prev d)) as [[[]|e|] t']; [|done..]. injection Hc as <-. by rewrite root_of_root.
Qed.

(** ** States *)

(** A listed set of accounts with their cached slots, all nodes in [Dom]. *)
Record state_known (l : list (Address * AccountState)) (storage : storage_map)
    (accounts : gmap Address AccountState) : Prop := mkStateKnown {
  state_listed : lists l accounts; state_typed : accounts_ok accounts; state_in_dom : keys_in Dom accounts;
  state_slots : forall a sl, storage !! a = Some sl -> exists m, slots_known sl m;
  state_nodes : Forall Dom (written (snd (for_each (account_step keccak storage
    (fun slots _ => compute_storage_root keccak slots) expect) l empty_trie))) }.

Abbreviation mem_leaves := (leaves (fun slots _ => compute_storage_root keccak slots)).

Lemma state_root_spec l storage accounts : state_known l storage accounts ->
  exists t : MutableTrie (DB := MemoryTrieDB), compute_state_root keccak l storage = Ok (root t) /\
    denotes keccak Dom t (hash_keys keccak (account_leaf <$> mem_leaves storage accounts)).
Proof.
  intros [Hl Ha Hd Hs Hw].
  refine (state_trie keccak Dom (fun slots _ => compute_storage_root keccak slots) expect storage l accounts _
    (performs_expect keccak Dom) Hl Ha Hd _ empty_trie_denotes Hw).
  intros addr a sl _ Hsl _. destruct (Hs addr sl Hsl) as [m Hm].
  destruct (storage_root_spec sl m Hm) as (t & -> & Ht). eexists. split; [done|]. by eapply denotes_root_ok.
Qed.

Lemma leaves_ok l storage accounts : state_known l storage accounts ->
  accounts_ok (mem_leaves storage accounts) /\ keys_in Dom (mem_leaves storage accounts).
Proof.
  intros [Hl Ha Hd Hs Hw]. unfold leaves. split.
  - intros k a Hk. rewrite map_lookup_imap in Hk. apply bind_Some in Hk as (b & Hb & Hc).
    pose proof (Ha k b Hb) as Hok. unfold committed in Hc.
    destruct (storage !! k) as [[|x sl]|] eqn:Hsk.
    + destruct (is_empty b); by simplify_eq.
    + destruct (Hs k _ Hsk) as [m Hm]. destruct (storage_root_spec _ m Hm) as (t & Ht & Hden).
      rewrite Ht in Hc. injection Hc as <-. destruct Hok. split; try done. by eapply denotes_root_ok.
    + destruct (is_empty b); by simplify_eq.
  - intros k [a Hk]. rewrite map_lookup_imap in Hk. apply bind_Some in Hk as (b & Hb & _). by apply Hd.
Qed.

Lemma leaf_map_inj (m1 m2 : gmap Address AccountState) : accounts_ok m1 -> accounts_ok m2 ->
  account_leaf <$> m1 = account_leaf <$> m2 -> m1 = m2.
Proof.
  intros H1 H2 He. apply map_eq. intros k. pose proof (f_equal (.!! k) He) as Hk. simpl in Hk.
  rewrite !lookup_fmap in Hk. destruct (m1 !! k) eqn:E1, (m2 !! k) eqn:E2; try done.
  simpl in Hk. injection Hk as Hk. f_equal. apply account_leaf_inj; [by eapply H1|by eapply H2|done].
Qed.

Lemma keys_in_fmap {A B} (f : A -> B) m : keys_in Dom m -> keys_in Dom (f <$> m).
Proof. intros Hd k [b Hk]. rewrite lookup_fmap in Hk. apply fmap_Some in Hk as (a & Ha & _). by apply Hd. Qed.

Lemma state_roots_commit l1 l2 s1 s2 a1 a2 : state_known l1 s1 a1 -> state_known l2 s2 a2 ->
  exists r1 r2, compute_state_root keccak l1 s1 = Ok r1 /\ compute_state_root keccak l2 s2 = Ok r2 /\
    (r1 = r2 <-> mem_leaves s1 a1 = mem_leaves s2 a2).
Proof.
  intros H1 H2. destruct (state_root_spec _ _ _ H1) as (t1 & E1 & D1), (state_root_spec _ _ _ H2) as (t2 & E2 & D2).
  destruct (leaves_ok _ _ _ H1) as [O1 K1], (leaves_ok _ _ _ H2) as [O2 K2].
  exists (root t1), (root t2). split_and!; [done..|].
  rewrite (denotes_root keccak Dom t1 t2) by done. rewrite (hash_keys_inj keccak Dom) by by apply keys_in_fmap.
  split; [by apply leaf_map_inj|by intros ->].
Qed.
End results.

(** * The two encoders of an account leaf (crates/zbx-state/src/account.rs, mpt.rs)

    zbx-state has a hand-written RLP encoder of accounts beside the one the
    state root uses; this file says on which accounts they agree. *)

Lemma significant_strip d l : be_val l <> 0 -> significant d l = strip_zeros l.
Proof.
  unfold significant. induction l as [|b l IH]; intros Hl; [done|]. simpl in *.
  destruct (Z.eqb_spec b 0) as [->|]; [|done]. rewrite <-IH by lia.
  destruct (position_nonzero l) eqn:Hp; [done|]. exfalso. apply Hl. clear -Hp.
  assert (be_val l = 0); [|lia]. induction l as [|b l IH]; [done|]. simpl in *.
  destruct (Z.eqb_spec b 0) as [->|]; [|done]. destruct (position_nonzero l); [done|]. rewrite IH by done. lia.
Qed.

Lemma short_prefix d : 0 < zlen d <= 55 -> enc_str d =
  if (zlen d =? 1) && (hd 0 d <? 128) then [hd 0 d] else u8 (128 + u8 (zlen d)) :: d.
Proof.
  intros Hd. rewrite (u8_small (zlen d)) by lia. unfold enc_str, encode_string, push_bytes.
  destruct d as [|b [|c d]]; [done| |].
  - simpl. by destruct (b <? 128).
  - rewrite (proj2 (Z.leb_le _ _)) by lia. rewrite (proj2 (Z.eqb_neq _ 1)); [done|].
    unfold zlen. simpl length. lia.
Qed.

Lemma nonzero_bytes k n : 0 < n < 256 ^ Z.of_nat k ->
  be_val (to_be k n) <> 0 /\ 0 < zlen (strip_zeros (to_be k n)) <= Z.of_nat k.
Proof.
  intros Hn. pose proof (be_val_to_be k n) as Hv. rewrite Z.mod_small in Hv by lia.
  split; [lia|]. pose proof (stripped_ok k n) as [_ Hl]. split; [|done].
  pose proof (strip_zeros_val (to_be k n)) as Hs. destruct (strip_zeros (to_be k n)); [simpl in Hs; lia|].
  rewrite zlen_cons. pose proof (zlen_nonneg l). lia.
Qed.

Lemma rlp_encode_u64_enc buf v : in_range 64 v -> rlp_encode_u64 buf v = buf ++ enc_str (strip_zeros (to_be 8 v)).
Proof.
  intros Hv. unfold rlp_encode_u64, in_range in *. destruct (Z.eqb_spec v 0) as [->|Hne]; [done|].
  destruct (nonzero_bytes 8 v) as [Hz Hl]; [change (256 ^ Z.of_nat 8) with (2 ^ 64); lia|].
  rewrite significant_strip, short_prefix by (done || lia). by case_match.
Qed.

Lemma rlp_encode_hash buf h : hash_ok h -> rlp_encode_bytes buf h = buf ++ enc_str h.
Proof.
  intros [Hl _]. assert (zlen h = 32) as Hz by (unfold zlen; lia).
  unfold rlp_encode_bytes. rewrite short_prefix by lia. rewrite Hz. done.
Qed.

(** The balance field of the hand-written encoder: no single-byte form. *)
Definition flat_balance (b : Z) : bytes :=
  if (0 <? b) && (b <? 128) then [129; b] else enc_str (strip_zeros (to_be 16 b)).

Lemma flat_field s v : Forall byte s -> be_val s = v -> 0 < zlen s <= 16 -> (forall b t, s = b :: t -> b <> 0) ->
  [u8 (128 + u8 (zlen s))] ++ s = if (0 <? v) && (v <? 128) then [129; v] else enc_str s.
Proof.
  intros Hb Hv Hl Hh. destruct s as [|x l]; [by destruct Hl|]. apply Forall_cons_iff in Hb as [Hx Hb].
  unfold byte in Hx. specialize (Hh x l eq_refl). rewrite short_prefix by lia.
  simpl be_val in Hv. pose proof (be_val_bound l Hb). destruct l as [|y l].
  - change (zlen []) with 0 in Hv. change (be_val []) with 0 in Hv. assert (x = v) as -> by lia.
    change (zlen [v]) with 1. rewrite (proj2 (Z.ltb_lt 0 v)) by lia. cbn [hd Z.eqb Pos.eqb andb].
    by destruct (v <? 128).
  - rewrite !zlen_cons in *. pose proof (zlen_nonneg l).
    assert (256 ^ 1 <= 256 ^ (1 + zlen l)) by (apply Z.pow_le_mono_r; lia).
    rewrite (proj2 (Z.ltb_ge v 128)) by nia. rewrite andb_false_r.
    by rewrite (proj2 (Z.eqb_neq _ 1)) by lia.
Qed.

Lemma rlp_encode_u128_flat buf v : in_range 128 v -> rlp_encode_u128 buf v = buf ++ flat_balance v.
Proof.
  intros Hv. unfold rlp_encode_u128, flat_balance, in_range in *. destruct (Z.eqb_spec v 0) as [->|Hne]; [done|].
  destruct (nonzero_bytes 16 v) as [Hz Hl]; [change (256 ^ Z.of_nat 16) with (2 ^ 128); lia|].
  cbv zeta. rewrite significant_strip by done. f_equal. apply flat_field; [apply stripped_ok| |lia|].
  - apply be_val_stripped. change (256 ^ Z.of_nat 16) with (2 ^ 128). lia.
  - intros b t. apply strip_zeros_head.
Qed.

Lemma rlp_list_wrap_enc c : zlen c < 2 ^ 63 -> rlp_list_wrap c = enc_lst c.
Proof.
  intros Hc. pose proof (zlen_nonneg c). unfold rlp_list_wrap, enc_lst, list_prefix.
  destruct (Z.leb_spec (zlen c) 55); [by rewrite (u8_small (zlen c)) by lia|].
  cbv zeta. destruct (nonzero_bytes 8 (zlen c)) as [Hz Hl]; [change (256 ^ Z.of_nat 8) with (2 ^ 64); lia|].
  rewrite significant_strip by done. by rewrite (u8_small (zlen (strip_zeros _))) by lia.
Qed.

Lemma enc_lst_inj c d : zlen c < 2 ^ 63 -> zlen d < 2 ^ 63 -> enc_lst c = enc_lst d -> c = d.
Proof.
  intros Hc Hd He. pose proof (list_payload_enc c Hc) as H1. rewrite He, list_payload_enc in H1 by done. congruence.
Qed.

Lemma strip_zeros_pad k n m : 0 <= n < 256 ^ Z.of_nat k -> (k <= m)%nat ->
  strip_zeros (to_be m n) = strip_zeros (to_be k n).
Proof.
  intros Hn Hm. induction Hm as [|m Hm IH]; [done|]. simpl.
  rewrite Z.div_small; [done|]. split; [lia|]. eapply Z.lt_le_trans; [apply Hn|].
  apply Z.pow_le_mono_r; lia.
Qed.

(** The fields the hand-written encoder writes when the balance is not small. *)
Definition flat_fields (a : AccountState) : list bytes :=
  [strip_zeros (to_be 8 (nonce a)); strip_zeros (to_be 16 (balance_u128 a)); storage_root a; code_hash a].

Lemma flat_fields_ok a : account_ok a -> short_strs (flat_fields a).
Proof.
  intros [_ _ [Hc1 Hc2] [Hs1 Hs2]].
  pose proof (stripped_ok 8 (nonce a)) as [? ?]. pose proof (stripped_ok 16 (balance_u128 a)) as [? ?].
  repeat (apply List.Forall_cons; [split; [done|unfold zlen in *; lia]|]). apply List.Forall_nil.
Qed.

Lemma encode_account_flat_eq a : account_ok a ->
  encode_account_flat a = enc_lst (enc_str (strip_zeros (to_be 8 (nonce a))) ++ flat_balance (balance_u128 a) ++
    enc_str (storage_root a) ++ enc_str (code_hash a)) /\
  zlen (enc_str (strip_zeros (to_be 8 (nonce a))) ++ flat_balance (balance_u128 a) ++
    enc_str (storage_root a) ++ enc_str (code_hash a)) <= 164.
Proof.
  intros Ha. pose proof (short_strs_len _ (flat_fields_ok a Ha)) as Hz. destruct Ha as [Hn Hb Hc Hr].
  assert (zlen (enc_str (strip_zeros (to_be 8 (nonce a))) ++ flat_balance (balance_u128 a) ++
    enc_str (storage_root a) ++ enc_str (code_hash a)) <= 164) as Hlen.
  { unfold flat_fields in Hz. cbn [map concat length] in Hz. rewrite !zlen_app in *.
    change (zlen []) with 0 in Hz. unfold flat_balance. case_match eqn:Hs; [|lia].
    change (zlen [129; balance_u128 a]) with 2.
    pose proof (zlen_enc_str_le (storage_root a)). pose proof (zlen_enc_str_le (code_hash a)).
    pose proof (stripped_ok 8 (nonce a)) as [_ ?]. pose proof (zlen_enc_str_le (strip_zeros (to_be 8 (nonce a)))).
    destruct Hc as [Hc _], Hr as [Hr _]. unfold zlen in *. lia. }
  split; [|done]. unfold encode_account_flat. cbv zeta.
  rewrite rlp_encode_u64_enc, rlp_encode_u128_flat, !rlp_encode_hash; try done; [|apply balance_u128_range].
  rewrite app_nil_l, <-!app_assoc. apply rlp_list_wrap_enc. lia.
Qed.

(** The hand-written encoder of zbx-state gives the leaf the state root commits
    to exactly for EVM accounts with a balance that fits u128 and is not
    between 1 and 127 wei: it saturates larger balances, writes one-byte ones
    in a non-canonical form and leaves the VM out. *)
Theorem flat_encoder_agrees a : account_ok a ->
  encode_account_flat a = account_leaf a <->
  vm a = Evm /\ in_range 128 (balance a) /\ ~ (1 <= balance a < 128).
Proof.
  intros Ha. destruct (encode_account_flat_eq a Ha) as [-> Hflat].
  destruct (account_fields_ok a Ha) as [Hs Hl]. pose proof (short_strs_len _ Hs) as Hz.
  pose proof (balance_u128_range a) as Hb128. pose proof (balance_u128_exact a (balance_ok a Ha)) as Hex.
  pose proof (balance_ok a Ha) as Hb256. unfold in_range in *.
  destruct ((0 <? balance_u128 a) && (balance_u128 a <? 128)) eqn:Hsmall.
  - split; [|intros (_ & Hr & Hns); rewrite (proj2 Hex Hr) in Hsmall; bool_to_prop; lia].
    intros He. exfalso. apply enc_lst_inj in He; [|lia..]. unfold account_fields in He.
    rewrite u64_min_be_strip in He. cbn [map concat app] in He. apply app_inv_head in He.
    unfold flat_balance in He. rewrite Hsmall in He. bool_to_prop.
    assert (balance_u128 a = balance a) as Hbal.
    { assert (balance_u128 a < 128) as Hlt by lia. revert Hlt. unfold balance_u128, umax.
      destruct (Z.leb_spec (2 ^ 128) (balance a)); [lia|]. intros _. apply wrap_small. unfold in_range. lia. }
    rewrite (strip_zeros_pad 1) in He by (simpl; lia). simpl to_be in He.
    rewrite Z.div_1_r, Z.mod_small in He by lia. simpl strip_zeros in He.
    rewrite (proj2 (Z.eqb_neq (balance a) 0)) in He by lia.
    rewrite (short_prefix [balance a]) in He by (change (zlen [balance a]) with 1; lia). change (zlen [balance a]) with 1 in He. cbn [hd Z.eqb Pos.eqb andb] in He.
    rewrite (proj2 (Z.ltb_lt (balance a) 128)) in He by lia. injection He as He _. lia.
  - assert (forall r, enc_str (strip_zeros (to_be 8 (nonce a))) ++ flat_balance (balance_u128 a) ++
      enc_str (storage_root a) ++ enc_str (code_hash a) ++ r = concat (map enc_str (flat_fields a)) ++ r) as Hff.
    { intros r. unfold flat_balance, flat_fields. rewrite Hsmall. cbn [map concat]. by rewrite <-!app_assoc. }
    specialize (Hff []). rewrite !app_nil_r in Hff. rewrite Hff. unfold account_leaf. split.
    + intros He. apply enc_strs_inj in He; [|by apply flat_fields_ok|done|by simpl; lia|done].
      unfold flat_fields, account_fields in He. rewrite u64_min_be_strip in He. injection He as Hbal Hv.
      assert (balance_u128 a = balance a) as Heq.
      { rewrite <-(be_val_stripped 16 (balance_u128 a)), <-(be_val_stripped 32 (balance a)) by done. by f_equal. }
      split_and!; [by destruct (vm a)|by apply Hex|by apply Hex|]. rewrite Heq in Hsmall. bool_to_prop. lia.
    + intros (Hv & Hr & Hns). f_equal. f_equal. f_equal. unfold flat_fields, account_fields.
      rewrite (proj2 Hex Hr), u64_min_be_strip, decide_False by congruence.
      by rewrite (strip_zeros_pad 16 (balance a) 32) by (simpl; lia).
Qed.
