(* ===== verification/MptRoot.v ===== *)
(** * The header's transaction trie (crates/zbx-crypto/src/mpt.rs)

    A second implementation of the Merkle Patricia trie: a tree of boxes built
    once per block, with its own path and RLP encoders, that hashes the signing
    hashes of the transactions.  Its root is that of the trie of zbx-trie with
    the same bindings. *)

From Stdlib Require Import ZArith Lia.
From stdpp Require Import base tactics list gmap numbers option.
From S2P Require Import Prelude Bytes Rlp Nibbles TrieNode Trie TrieRepr TrieCorrect Account StateMpt.

Set Warnings "-register-all".
Local Open Scope Z_scope.

(** ** Nodes and insertion *)

Inductive Node : Type :=
| NEmpty
| NLeaf (p : path) (value : bytes)
| NExtension (p : path) (child : Node)
| NBranch (children : list Node) (value : option bytes).

(** [a.iter().zip(b).take_while(==).count()] *)
Definition common_len (a b : path) : nat := cpl a b.

Definition wrap_with_extension (cl : nat) (ep : path) (inner : Node) : Node :=
  if Nat.ltb 0 cl then NExtension (take cl ep) inner else inner.

(** [children\[i\] = c] on the array of 16 *)
Definition set_child {E} (i : Z) (c : Node) (children : list Node) : res E (list Node) :=
  if (0 <=? i) && (i <? zlen children) then Ok (<[Z.to_nat i := c]> children) else Panic.

(** [children\[idx\] = f(children\[idx\])] *)
Definition map_child {E} (f : Node -> res E Node) : list Node -> nat -> res E (list Node) :=
  fix go cs n :=
    match cs, n with
    | [], _ => Panic
    | c :: cs, O => c ← f c; Ok (c :: cs)
    | c :: cs, S n => cs ← go cs n; Ok (c :: cs)
    end.

Definition no_children : list Node := replicate 16 NEmpty.

Fixpoint insert {E} (node : Node) (p : path) (value : bytes) : res E Node :=
  match node with
  | NEmpty => Ok (NLeaf p value)
  | NLeaf ep ev =>
    let cl := common_len p ep in
    if Nat.eqb cl (length ep) && Nat.eqb cl (length p) then Ok (NLeaf ep value)
    else
      '(children, bval) ←
        (if Nat.eqb cl (length ep) then Ok (no_children, Some ev)
         else
           idx ← unwrap (ep !! cl);
           cs ← set_child idx (NLeaf (drop (S cl) ep) ev) no_children;
           Ok (cs, None));
      '(children, bval) ←
        (if Nat.eqb cl (length p) then Ok (children, Some value)
         else
           idx ← unwrap (p !! cl);
           cs ← set_child idx (NLeaf (drop (S cl) p) value) children;
           Ok (cs, bval));
      Ok (wrap_with_extension (common_len p ep) ep (NBranch children bval))
  | NExtension ep child =>
    let cl := common_len p ep in
    if Nat.eqb cl (length ep) then c ← insert child (drop cl p) value; Ok (NExtension ep c)
    else
      ext_idx ← unwrap (ep !! cl);
      let remainder := drop (S cl) ep in
      children ← set_child ext_idx (match remainder with [] => child | _ => NExtension remainder child end) no_children;
      let new_path := drop cl p in
      '(children, bval) ←
        match new_path with
        | [] => Ok (children, Some value)
        | idx :: rest => cs ← set_child idx (NLeaf rest value) children; Ok (cs, None)
        end;
      Ok (wrap_with_extension cl ep (NBranch children bval))
  | NBranch children bval =>
    match p with
    | [] => Ok (NBranch children (Some value))
    | idx :: rest =>
      if 0 <=? idx then
        cs ← map_child (fun c => insert c rest value) children (Z.to_nat idx); Ok (NBranch cs bval)
      else Panic
    end
  end.

(** ** Encoding *)

Definition be_minimal (n : Z) : bytes := significant 7 (to_be 8 n).

Definition rlp_bytes (data : bytes) : bytes :=
  match data with
  | [] => [128]
  | b :: rest =>
    if (match rest with [] => true | _ => false end) && (b <? 128) then [b]
    else if zlen data <=? 55 then u8 (128 + u8 (zlen data)) :: data
    else
      let len_enc := be_minimal (zlen data) in
      u8 (183 + u8 (zlen len_enc)) :: len_enc ++ data
  end.

Definition rlp_list (items : list bytes) : bytes :=
  let payload := concat items in
  if zlen payload <=? 55 then u8 (192 + u8 (zlen payload)) :: payload
  else
    let len_enc := be_minimal (zlen payload) in
    u8 (247 + u8 (zlen len_enc)) :: len_enc ++ payload.

(** [chunks(2)]; [pair\[1\]] of an odd last chunk panics. *)
Fixpoint pack_nibbles {E} (nibbles : path) : res E bytes :=
  match nibbles with
  | a :: b :: nibbles => t ← pack_nibbles nibbles; Ok (Z.lor (u8 (Z.shiftl a 4)) b :: t)
  | [_] => Panic
  | [] => Ok []
  end.

Definition hp_bytes {E} (nibbles : path) (is_leaf : bool) : res E bytes :=
  let prefix := if is_leaf then 2 else 0 in
  let odd := Nat.odd (length nibbles) in
  hp ← (if odd then
          first ← unwrap (nibbles !! 0%nat);
          t ← pack_nibbles (drop 1 nibbles);
          Ok (Z.lor (u8 (Z.shiftl (u8 (prefix + 1)) 4)) first :: t)
        else t ← pack_nibbles nibbles; Ok (u8 (Z.shiftl prefix 4) :: t));
  Ok (rlp_bytes hp).

Definition rlp_uint64 (n : Z) : bytes :=
  if n =? 0 then [128] else rlp_bytes (significant 7 (to_be 8 n)).

Section keccak.
Context (keccak : bytes -> H256).

(** What a node's parent holds: the encoding, or its hash. *)
Definition embed (rlp : bytes) : bytes :=
  if zlen rlp <? 32 then rlp else rlp_bytes (keccak rlp).

Fixpoint node_rlp {E} (node : Node) : res E bytes :=
  match node with
  | NEmpty => Ok [128]
  | NLeaf p value => hp ← hp_bytes p true; Ok (rlp_list [hp; rlp_bytes value])
  | NExtension p child => hp ← hp_bytes p false; c ← node_rlp child; Ok (rlp_list [hp; embed c])
  | NBranch children value =>
    items ← (fix go cs := match cs with
                          | [] => Ok []
                          | c :: cs => r ← node_rlp c; rs ← go cs; Ok (embed r :: rs)
                          end) children;
    Ok (rlp_list (items ++ [match value with Some v => rlp_bytes v | None => [128] end]))
  end.
Definition encode_node {E} (node : Node) : res E bytes := embed <$> node_rlp node.

Definition root_hash {E} (root : Node) : res E H256 := keccak <$> node_rlp root.

Fixpoint insert_pairs {E} (items : list (bytes * bytes)) (root : Node) : res E Node :=
  match items with
  | [] => Ok root
  | (key, value) :: items => root ← insert root (nibbles_of key) value; insert_pairs items root
  end.

Definition trie_root_from_pairs {E} (items : list (bytes * bytes)) : res E H256 :=
  match items with
  | [] => Ok (keccak [128])
  | _ => root ← insert_pairs items NEmpty; root_hash root
  end.

Definition tx_pairs (tx_hashes : list H256) : list (bytes * bytes) :=
  imap (fun i hash => (rlp_uint64 (Z.of_nat i), rlp_bytes hash)) tx_hashes.
Definition transactions_root_mpt {E} (tx_hashes : list H256) : res E H256 :=
  match tx_hashes with
  | [] => Ok (keccak [128])
  | _ => root ← insert_pairs (tx_pairs tx_hashes) NEmpty; root_hash root
  end.
End keccak.

(** ** Boxed trees and canonical trees *)

Fixpoint boxed (t : ptree) : Node :=
  match t with
  | PLeaf p v => NLeaf p v
  | PExt p t => NExtension p (boxed t)
  | PBranch cs bv => NBranch (map (fun o => match o with Some t => boxed t | None => NEmpty end) cs) bv
  end.
Definition oboxed (o : option ptree) : Node := match o with Some t => boxed t | None => NEmpty end.
Definition oboxes (cs : list (option ptree)) : list Node := map oboxed cs.

Lemma boxed_branch cs bv : boxed (PBranch cs bv) = NBranch (oboxes cs) bv.
Proof. reflexivity. Qed.

(** [place v rest]: the child or value that an insertion puts into a new
    branch, as the two halves of a split do. *)
Lemma set_child_box {E} i o cs : length cs = 16%nat -> nib i ->
  set_child (E := E) i (oboxed o) (oboxes cs) = Ok (oboxes (<[Z.to_nat i := o]> cs)).
Proof.
  intros Hl Hi. unfold set_child, nib in *.
  assert (zlen (oboxes cs) = 16) as -> by (unfold oboxes, zlen; rewrite length_map; lia).
  rewrite (proj2 (Z.leb_le 0 i)), (proj2 (Z.ltb_lt i 16)) by lia. simpl. f_equal. unfold oboxes.
  symmetry. apply (list_fmap_insert oboxed).
Qed.

Lemma oboxes_none : no_children = oboxes no_slots.
Proof. reflexivity. Qed.

(** One half of a split: the rest of a path after the common prefix. *)
Lemma place_half {E} (c rest : path) v cs bv : length cs = 16%nat -> Forall nib rest ->
  (if Nat.eqb (length c) (length (c ++ rest)) then Ok (oboxes cs, Some v)
   else
     idx ← unwrap ((c ++ rest) !! length c);
     cs ← set_child idx (NLeaf (drop (S (length c)) (c ++ rest)) v) (oboxes cs);
     Ok (cs, bv))
  = Ok (E := E) (oboxes (fst (pplace rest v (cs, bv))), snd (pplace rest v (cs, bv))).
Proof.
  intros Hl Hr. rewrite length_app. destruct rest as [|i r]; simpl.
  - by rewrite Nat.add_0_r, Nat.eqb_refl.
  - apply Forall_cons_iff in Hr as [Hi Hr]. rewrite (proj2 (Nat.eqb_neq _ _)) by lia.
    rewrite lookup_app_r, Nat.sub_diag by lia. simpl.
    replace (drop (S (length c)) (c ++ i :: r)) with r by (rewrite drop_app_ge by lia; by replace (S (length c) - length c)%nat with 1%nat by lia).
    change (NLeaf r v) with (oboxed (Some (PLeaf r v))). by rewrite set_child_box.
Qed.

Lemma wrap_box c ep cs bv : wrap_with_extension (length c) (c ++ ep) (NBranch (oboxes cs) bv) = boxed (pwrap c (cs, bv)).
Proof.
  unfold wrap_with_extension, pwrap. destruct c as [|a c]; [done|]. simpl. by rewrite take_app_length.
Qed.

Definition grown (D : Z) (ot : option ptree) (k : path) (v : bytes) (u : ptree) : Prop :=
  pwf D u /\ (forall w, ot = Some w -> is_branch w = true -> is_branch u = true) /\
  (forall q, plookup u q = if decide (q = k) then Some v else olookup ot q).

Lemma insert_leaf_box {E} D p old k v : pwf D (PLeaf p old) -> value_ok v -> Forall nib k -> zlen k <= D ->
  exists u, insert (E := E) (boxed (PLeaf p old)) k v = Ok (boxed u) /\ grown D (Some (PLeaf p old)) k v u.
Proof.
  intros Hw Hv Hk HkD. cbn [boxed insert]. unfold common_len.
  destruct (cpl_decomp k p) as (c & k' & p' & -> & -> & -> & Hd).
  apply Forall_app in Hk as [Hc Hk]. inversion Hw as [? ? ? Hp HpD Hold| |]; subst.
  apply Forall_app in Hp as [_ Hp]. destruct (decide (p' = k')) as [->|Hne].
  - assert (k' = []) as -> by (destruct k' as [|a k']; [done|]; by destruct (Hd a a)).
    rewrite app_nil_r in *. rewrite Nat.eqb_refl. exists (PLeaf c v). split; [done|].
    split_and!; [by inversion Hw; constructor|by intros ? [= <-]|]. intros q. simpl. by repeat case_decide.
  - assert (Nat.eqb (length c) (length (c ++ p')) && Nat.eqb (length c) (length (c ++ k')) = false) as ->.
    { rewrite !length_app. destruct p', k'; [done|..]; simpl; apply andb_false_iff; rewrite !Nat.eqb_neq; lia. }
    rewrite oboxes_none, (place_half c p' old no_slots None) by done.
    assert (length (fst (pplace p' old (no_slots, None))) = 16%nat) as Hl1
      by (destruct p'; simpl; [done|by rewrite length_insert]).
    exists (leaf_split c p' old k' v). unfold leaf_split. destruct (pplace p' old (no_slots, None)) as [cs1 bv1] eqn:Hpl.
    simpl. rewrite place_half by done. simpl. rewrite wrap_box, <-surjective_pairing. split; [done|].
    rewrite <-Hpl.
    split_and!; [by apply leaf_split_pwf|by intros ? [= <-]|]. intros q. by apply leaf_split_lookup.
Qed.

Lemma child_box rem w : oboxed (Some (prest rem w)) =
  match rem with [] => boxed w | _ => NExtension rem (boxed w) end.
Proof. by destruct rem. Qed.

Lemma insert_split_box {E} D c i rem w k' v : pwf D (PExt (c ++ i :: rem) w) -> value_ok v ->
  Forall nib (c ++ k') -> zlen (c ++ k') <= D -> head k' <> Some i -> cpl (c ++ k') (c ++ i :: rem) = length c ->
  exists u, insert (E := E) (boxed (PExt (c ++ i :: rem) w)) (c ++ k') v = Ok (boxed u) /\
    grown D (Some (PExt (c ++ i :: rem) w)) (c ++ k') v u.
Proof.
  intros Hw Hv Hk HkD Hd Hcp. cbn [boxed insert]. unfold common_len. rewrite Hcp.
  inversion Hw as [|? ? ? Hp _ Hwb Hww|]; subst. apply Forall_app in Hk as [Hc Hk].
  pose proof Hp as Hp'. apply Forall_app in Hp' as [_ Hp']. apply Forall_cons_iff in Hp' as [Hi Hrem].
  assert (Nat.eqb (length c) (length (c ++ i :: rem)) = false) as ->.
  { apply Nat.eqb_neq. rewrite length_app. simpl. lia. }
  rewrite lookup_app_r, Nat.sub_diag, drop_app_length by lia. simpl.
  assert (drop (S (length c)) (c ++ i :: rem) = rem) as ->.
  { rewrite drop_app_ge by lia. by replace (S (length c) - length c)%nat with 1%nat by lia. }
  rewrite <-child_box, oboxes_none, set_child_box by done. simpl.
  exists (ext_split c i rem w k' v). split.
  - destruct k' as [|j k']; simpl; [by rewrite wrap_box|]. apply Forall_cons_iff in Hk as [Hj Hk].
    change (NLeaf k' v) with (oboxed (Some (PLeaf k' v))). rewrite set_child_box by (done || by rewrite length_insert).
    simpl. by rewrite wrap_box.
  - split_and!; [by apply ext_split_pwf|by intros ? [= <-]|]. intros q. by apply ext_split_lookup.
Qed.

Lemma map_child_box {E} f cs n o : cs !! n = Some o -> map_child (E := E) f (oboxes cs) n =
  (c ← f (oboxed o); Ok (<[n := c]> (oboxes cs))).
Proof.
  revert n. induction cs as [|x cs IH]; intros [|n] Hn; simplify_eq/=; [done|].
  rewrite IH by done. by destruct (f (oboxed o)).
Qed.

Lemma insert_box {E} ot : forall D k v, opwf D ot -> value_ok v -> Forall nib k -> zlen k <= D ->
  exists u, insert (E := E) (oboxed ot) k v = Ok (boxed u) /\ grown D ot k v u.
Proof.
  assert (forall D k v, value_ok v -> Forall nib k -> zlen k <= D ->
    exists u, insert (E := E) NEmpty k v = Ok (boxed u) /\ grown D None k v u) as Hnone.
  { intros D k v Hv Hk HkD. exists (PLeaf k v). split; [done|]. split_and!; [by constructor|done..]. }
  destruct ot as [t|]; [|by intros; apply Hnone].
  induction t as [p old|p w IH|cs bv IH] using ptree_ind_nested; intros D k v Hw%opwf_some Hv Hk HkD.
  - by apply insert_leaf_box.
  - destruct (cpl_decomp k p) as (c & k' & p' & -> & -> & Hcp & Hdiv). destruct p' as [|i rem].
    + rewrite app_nil_r in *. inversion Hw as [|? ? ? Hp Hpn Hwb Hww|]; subst.
      apply Forall_app in Hk as [Hc Hk]. rewrite zlen_app in HkD.
      destruct (IH (D - zlen c) k' v) as (u & Hu & Hg1 & Hg2 & Hg3); [by apply opwf_some|done|done|lia|].
      cbn [boxed oboxed insert]. unfold common_len. rewrite Hcp, Nat.eqb_refl, drop_app_length.
      cbn [oboxed] in Hu. rewrite Hu. exists (PExt c u). split; [done|]. split_and!.
      * constructor; eauto.
      * by intros ? [= <-].
      * intros q. by apply (prefix_lookup c k' q v (plookup u) (plookup w) (plookup (PExt c w))).
    + apply insert_split_box; [done..| |done]. intros Hh. by eapply Hdiv.
  - inversion Hw as [| |? ? ? Hl Hcs Hbv He]; subst. cbn [oboxed]. rewrite boxed_branch. cbn [insert].
    destruct k as [|i k].
    + exists (PBranch cs (Some v)). split; [done|]. split_and!; [|done|].
      * constructor; [done..|by intros ? [= <-]|]. unfold entries in *. destruct bv; simpl in *; lia.
      * intros [|j q]; [done|]. rewrite decide_False by done. etrans; [apply plookup_branch|symmetry; apply plookup_branch].
    + apply Forall_cons_iff in Hk as [Hi Hk]. destruct (nib_to_nat i Hi) as [Hn _]. autorewrite with zlen in HkD.
      destruct (lookup_lt_is_Some_2 cs (Z.to_nat i) ltac:(lia)) as [o Ho].
      assert (slot cs i = o) as Hso by (unfold slot, nib in *; rewrite (proj2 (Z.leb_le 0 i)), Ho by lia; done).
      assert (exists u, insert (E := E) (oboxed o) k v = Ok (boxed u) /\ grown (D - 1) o k v u) as (u & Hu & Hg1 & Hg2 & Hg3).
      { destruct o as [w|]; [|apply Hnone; [done..|lia]]. apply (IH (Z.to_nat i) w Ho); [|done|done|lia].
        by apply opwf_some, (Hcs (Z.to_nat i)). }
      unfold nib in Hi. rewrite (proj2 (Z.leb_le 0 i)), (map_child_box _ _ _ o) by (done || lia). rewrite Hu. simpl.
      exists (PBranch (<[Z.to_nat i := Some u]> cs) bv). split.
      { rewrite boxed_branch. do 2 f_equal. symmetry. apply (list_fmap_insert oboxed). }
      split_and!; [by apply pwf_set_child|done|]. intros q. rewrite lookup_set_child by done.
      destruct q as [|j r]; [done|]. change (olookup (Some (PBranch cs bv)) (j :: r)) with (plookup (PBranch cs bv) (j :: r)).
      destruct (decide (j = i)) as [->|]; [|by rewrite (decide_False (P := j :: r = i :: k)) by congruence].
      change (olookup (Some u) r) with (plookup u r). rewrite Hg3, plookup_branch, Hso. repeat case_decide; by simplify_eq.
Qed.

(** ** The encoders *)

Lemma be_minimal_strip n : 0 < n < 2 ^ 63 -> be_minimal n = strip_zeros (to_be 8 n).
Proof.
  intros Hn. apply significant_strip. apply (nonzero_bytes 8). change (256 ^ Z.of_nat 8) with (2 ^ 64). lia.
Qed.

Lemma rlp_bytes_enc d : zlen d < 2 ^ 63 -> rlp_bytes d = enc_str d.
Proof.
  intros Hl. destruct d as [|b d]; [done|]. pose proof (zlen_nonneg d). rewrite zlen_cons in Hl. unfold rlp_bytes.
  destruct (Z.leb_spec (zlen (b :: d)) 55) as [H55|H55]; rewrite zlen_cons in H55.
  - rewrite short_prefix by (rewrite zlen_cons; lia). destruct d as [|x d].
    + simpl. by destruct (b <? 128).
    + cbn [andb]. rewrite (proj2 (Z.eqb_neq _ 1)); [done|]. rewrite !zlen_cons in *. pose proof (zlen_nonneg d). lia.
  - destruct d as [|x d]; [by rewrite zlen_nil in H55|]. cbn [andb].
    rewrite be_minimal_strip by (rewrite zlen_cons; lia).
    unfold enc_str, encode_string, push_bytes. rewrite (proj2 (Z.leb_gt _ _)) by (rewrite zlen_cons; lia). simpl andb. cbv zeta.
    assert (zlen (strip_zeros (to_be 8 (zlen (b :: x :: d)))) <= 8) by apply (proj2 (stripped_ok 8 _)).
    pose proof (zlen_nonneg (strip_zeros (to_be 8 (zlen (b :: x :: d))))). unfold minimal_bytes.
    rewrite (u8_small (zlen (strip_zeros _))) by lia. simpl. by rewrite <-?app_assoc.
Qed.

Lemma rlp_list_enc items : zlen (concat items) < 2 ^ 63 -> rlp_list items = enc_lst (concat items).
Proof. apply rlp_list_wrap_enc. Qed.

Lemma pack_nibbles_even {E} l : Nat.even (length l) = true -> pack_nibbles (E := E) l = Ok (pack l).
Proof.
  assert (forall n l, (length l <= n)%nat -> Nat.even (length l) = true -> pack_nibbles (E := E) l = Ok (pack l)) as H; [|by eapply H].
  clear l. induction n as [|n IH]; intros [|a [|b l]] Hl He; simpl in *; try done; try lia. by rewrite IH by (done || lia).
Qed.

Lemma hp_bytes_enc {E} p leaf : zlen p < 2 ^ 62 -> hp_bytes (E := E) p leaf = Ok (enc_str (hp_encode leaf p)).
Proof.
  intros Hl. pose proof (zlen_hp_encode leaf p). rewrite <-rlp_bytes_enc by lia. unfold hp_bytes.
  unfold hp_encode. destruct p as [|a p]; [by destruct leaf|]. cbn [length]. rewrite Nat.odd_succ.
  destruct (Nat.even (length p)) eqn:He.
  - cbn [lookup list_lookup unwrap mbind res_bind drop]. rewrite pack_nibbles_even by done. by destruct leaf.
  - rewrite pack_nibbles_even by (cbn [length]; rewrite Nat.even_succ, <-Nat.negb_even; by rewrite He). by destruct leaf.
Qed.

Section root.
Context (keccak : bytes -> H256) `{HK : !Hash256 keccak}.

Lemma embed_ref n : node_shape n -> node_fits n ->
  embed keccak (encode n) = enc (item_of_ref (ref_to keccak n)).
Proof.
  intros Hs Hf. unfold embed, ref_to. case_match; [by apply encode_enc|].
  cbn [item_of_ref enc]. apply rlp_bytes_enc. destruct (keccak_h256 (keccak := keccak) (encode n)) as [Hl _].
  unfold zlen. lia.
Qed.

(** The loop over a branch's children. *)
Definition child_items {E} : list Node -> res E (list bytes) :=
  fix go cs := match cs with
               | [] => Ok []
               | c :: cs => r ← node_rlp keccak c; rs ← go cs; Ok (embed keccak r :: rs)
               end.

Lemma child_items_box {E} cs :
  (forall i u, cs !! i = Some (Some u) -> node_rlp (E := E) keccak (boxed u) = Ok (encode (node_of keccak u)) /\
     node_shape (node_of keccak u) /\ node_fits (node_of keccak u)) ->
  child_items (E := E) (oboxes cs) = Ok (map enc (items_of (orefs keccak cs))).
Proof.
  induction cs as [|o cs IH]; intros Hcs; [done|]. cbn [oboxes map child_items].
  fold (oboxes cs) (child_items (E := E)). rewrite IH by (intros i; apply (Hcs (S i))).
  destruct o as [u|]; [|done]. destruct (Hcs 0%nat u eq_refl) as (Hr & Hs & Hf). cbn [oboxed]. rewrite Hr. simpl.
  by rewrite embed_ref.
Qed.

(** A list of items that fits. *)
Lemma rlp_items l : zlen (enc (Lst l)) < 2 ^ 63 -> rlp_list (map enc l) = enc (Lst l).
Proof. intros Hl. by apply rlp_list_enc, fits_lst. Qed.

Lemma node_rlp_box {E} t D : pwf D t -> D <= MAX_DEPTH ->
  node_rlp (E := E) keccak (boxed t) = Ok (encode (node_of keccak t)).
Proof.
  induction 1 as [D p v Hp HpD Hv|D p t Hp Hne Hb Ht IH|D cs bv Hl Hcs IH Hv He]; intros HD.
  - destruct (node_of_ok keccak D (PLeaf p v)) as [Hs Hf]; [by constructor|done|]. rewrite encode_enc by done.
    destruct Hv as (_ & _ & Hv). unfold MAX_DEPTH in HD. cbn [boxed node_rlp].
    rewrite hp_bytes_enc, rlp_bytes_enc by lia. cbn [mbind res_bind]. f_equal.
    apply (rlp_items [Str (hp_encode true p); Str v]), Hf.
  - pose proof (pwf_nonneg _ _ Ht). pose proof (zlen_nonneg p).
    destruct (node_of_ok keccak D (PExt p t)) as [Hs Hf]; [by constructor|done|]. rewrite encode_enc by done.
    destruct (node_of_ok keccak (D - zlen p) t) as [Hst Hft]; [done|lia|].
    cbn [boxed node_rlp]. rewrite hp_bytes_enc, IH by (unfold MAX_DEPTH in *; lia). cbn [mbind res_bind].
    rewrite embed_ref by done. f_equal.
    apply (rlp_items [Str (hp_encode false p); item_of_ref (ref_to keccak (node_of keccak t))]), Hf.
  - destruct (node_of_ok keccak D (PBranch cs bv)) as [Hs Hf]; [by constructor|done|]. rewrite encode_enc by done.
    rewrite boxed_branch. cbn [node_rlp]. fold (child_items (E := E)). rewrite child_items_box.
    2:{ intros i u Hu. pose proof (Hcs i u Hu). destruct (node_of_ok keccak (D - 1) u) as [Hsu Hfu]; [done|lia|].
        split_and!; [|done..]. apply (IH i u Hu). lia. }
    cbn [mbind res_bind]. f_equal. unfold node_fits in Hf. rewrite node_of_branch, item_of_branch in *.
    rewrite <-(rlp_items _ Hf), map_app. do 2 f_equal. destruct bv as [v|]; [|done]. simpl. f_equal.
    apply rlp_bytes_enc. destruct (Hv v eq_refl) as (_ & _ & ?). lia.
Qed.

(** ** The root *)

Lemma insert_pairs_map {E} items : forall ot m, opwf MAX_DEPTH ot -> same_map ot m ->
  Forall (fun e => key_ok (fst e) /\ value_ok (snd e)) items ->
  exists ot', insert_pairs (E := E) items (oboxed ot) = Ok (oboxed ot') /\ opwf MAX_DEPTH ot' /\
    (items <> [] -> ot' <> None) /\
    same_map ot' (foldl (fun m e => <[fst e := snd e]> m) m items).
Proof.
  induction items as [|[k v] items IH]; intros ot m Hw Hm Hi; [by exists ot|].
  apply Forall_cons_iff in Hi as [[Hk Hv] Hi]. simpl in Hk, Hv. destruct (key_ok_path k Hk) as (Hn & _ & _).
  destruct Hk as [_ Hkl]. destruct (insert_box (E := E) ot MAX_DEPTH (nibbles_of k) v) as (u & Hu & Hg & _ & Hq); [done..| |].
  { unfold zlen in *. rewrite length_nibbles_of. unfold MAX_DEPTH. lia. }
  destruct (IH (Some u) (<[k := v]> m)) as (ot' & Hins & Hw' & Hne & Hm'); [by apply opwf_some|by eapply same_map_insert|done|].
  exists ot'. cbn [insert_pairs]. rewrite Hu. split_and!; [done..| |done]. intros _.
  destruct items; [|by apply Hne]. injection Hins as Hins. by destruct ot'; [|destruct u].
Qed.

Context (Dom : bytes -> Prop) {DB : Type} `{TrieDB DB}.

Lemma pairs_root {E} items (t : MutableTrie (DB := DB)) : items <> [] ->
  Forall (fun e => key_ok (fst e) /\ value_ok (snd e)) items ->
  denotes keccak Dom t (foldl (fun m e => <[fst e := snd e]> m) ∅ items) ->
  (root ← insert_pairs items NEmpty; root_hash keccak root) = Ok (E := E) (root t).
Proof.
  intros Hne Hi (_ & ot & (Hw & _ & Hr) & Hm).
  destruct (insert_pairs_map (E := E) items None ∅) as (ot' & Hins & Hw' & Hsome & Hm'); [done| |done|].
  { intros q v. split; [done|]. intros (k & _ & Hk). by rewrite lookup_empty in Hk. }
  cbn [oboxed] in Hins. rewrite Hins. cbn [mbind res_bind].
  pose proof (same_map_unique _ _ _ Hw' Hw Hm' Hm) as <-. destruct ot' as [u|]; [|by destruct Hsome].
  unfold root_hash. cbn [oboxed]. rewrite (node_rlp_box u MAX_DEPTH) by (done || by apply opwf_some). by destruct Hr as [-> _].
Qed.

(** C39. The root of the block's trie, built from any list of bindings with later
    ones overriding earlier ones, is the root of every trie of zbx-trie that
    holds the same bindings. *)
Theorem trie_roots_agree {E} items (t : MutableTrie (DB := DB)) : items <> [] ->
  Forall (fun e => key_ok (fst e) /\ value_ok (snd e)) items ->
  denotes keccak Dom t (foldl (fun m e => <[fst e := snd e]> m) ∅ items) ->
  trie_root_from_pairs keccak items = Ok (E := E) (root t).
Proof. intros Hne Hi Hd. destruct items as [|e items]; [done|]. exact (pairs_root (e :: items) t Hne Hi Hd). Qed.

(** ** The transactions of a block *)

Definition bindings (items : list (bytes * bytes)) : gmap bytes bytes :=
  foldl (fun m e => <[fst e := snd e]> m) ∅ items.

Lemma enc_str_cancel a b : short_strs [a] -> short_strs [b] -> enc_str a = enc_str b -> a = b.
Proof.
  intros Ha Hb He. assert ([a] = [b]) as [= ->]; [|done]. apply enc_strs_inj; [done..|simpl; lia|simpl; lia|]. simpl. by rewrite He.
Qed.

Lemma rlp_uint64_enc n : in_range 64 n -> rlp_uint64 n = enc_str (strip_zeros (to_be 8 n)).
Proof.
  intros Hn. unfold rlp_uint64, in_range in *. destruct (Z.eqb_spec n 0) as [->|Hne]; [done|].
  destruct (nonzero_bytes 8 n) as [Hz Hl]; [change (256 ^ Z.of_nat 8) with (2 ^ 64); lia|].
  rewrite significant_strip by done. apply rlp_bytes_enc. lia.
Qed.

Lemma short_stripped k n : (k <= 32)%nat -> short_strs [strip_zeros (to_be k n)].
Proof. intros Hk. destruct (stripped_ok k n) as [Hb Hl]. repeat constructor; [done|lia]. Qed.

Lemma rlp_uint64_inj a b : in_range 64 a -> in_range 64 b -> rlp_uint64 a = rlp_uint64 b -> a = b.
Proof.
  intros Ha Hb He. rewrite !rlp_uint64_enc in He by done. apply enc_str_cancel in He; [|apply short_stripped; lia..].
  rewrite <-(be_val_stripped 8 a), <-(be_val_stripped 8 b) by done. by f_equal.
Qed.

Lemma rlp_hash_inj a b : hash_ok a -> hash_ok b -> rlp_bytes a = rlp_bytes b -> a = b.
Proof.
  intros [Ha1 Ha2] [Hb1 Hb2] He. rewrite !rlp_bytes_enc in He by (unfold zlen; lia).
  apply enc_str_cancel in He; [done|..]; (repeat constructor; [done|unfold zlen; lia]).
Qed.

Definition tx_map (hashes : list H256) : gmap bytes bytes := bindings (tx_pairs hashes).

Lemma tx_map_snoc hs h : tx_map (hs ++ [h]) = <[rlp_uint64 (zlen hs) := rlp_bytes h]> (tx_map hs).
Proof. unfold tx_map, bindings, tx_pairs. rewrite imap_app, foldl_app. simpl. by rewrite Nat.add_0_r. Qed.

Lemma tx_map_lookup hs i : zlen hs < 2 ^ 64 -> (Z.of_nat i < 2 ^ 64) ->
  tx_map hs !! rlp_uint64 (Z.of_nat i) = rlp_bytes <$> hs !! i.
Proof.
  induction hs as [|h hs IH] using rev_ind; intros Hl Hi; [done|].
  rewrite zlen_app in Hl. change (zlen [h]) with 1 in Hl. pose proof (zlen_nonneg hs). rewrite tx_map_snoc.
  destruct (decide (i = length hs)) as [->|Hne].
  - change (Z.of_nat (length hs)) with (zlen hs). rewrite lookup_insert_eq, lookup_app_r, Nat.sub_diag by lia. done.
  - rewrite lookup_insert_ne, IH by (lia || (intros He; apply Hne; apply rlp_uint64_inj in He; unfold in_range, zlen in *; lia)).
    destruct (decide (i < length hs)%nat); [by rewrite lookup_app_l|].
    rewrite (lookup_ge_None_2 hs), (lookup_ge_None_2 (hs ++ [h])) by (rewrite ?length_app; simpl; lia). done.
Qed.

Lemma key_value_ok hs : Forall hash_ok hs -> zlen hs < 2 ^ 64 ->
  Forall (fun e => key_ok (fst e) /\ value_ok (snd e)) (tx_pairs hs).
Proof.
  intros Hh Hl. apply Forall_lookup_2. intros i [k v] Hi. unfold tx_pairs in Hi. rewrite list_lookup_imap in Hi.
  destruct (hs !! i) as [h|] eqn:Hlk; [|done]. injection Hi as <- <-. pose proof (lookup_lt_Some _ _ _ Hlk).
  assert (hash_ok h) as [Hh1 Hh2] by (by eapply (proj1 (Forall_lookup _ _) Hh)). cbn [fst snd]. split.
  - rewrite rlp_uint64_enc by (unfold in_range, zlen in *; lia). destruct (stripped_ok 8 (Z.of_nat i)) as [Hb Hz].
    pose proof (zlen_enc_str_le (strip_zeros (to_be 8 (Z.of_nat i)))). split; [|lia]. apply enc_str_bytes; [done|lia].
  - rewrite rlp_bytes_enc by (unfold zlen; lia). pose proof (zlen_enc_str_le h ltac:(unfold zlen; lia)). split_and!.
    + apply enc_str_nonempty.
    + apply enc_str_bytes; [done|unfold zlen; lia].
    + unfold zlen in *. lia.
Qed.

Lemma tx_root_of {E} hs (t : MutableTrie (DB := DB)) : hs <> [] -> Forall hash_ok hs -> zlen hs < 2 ^ 64 ->
  denotes keccak Dom t (tx_map hs) -> transactions_root_mpt keccak hs = Ok (E := E) (root t).
Proof.
  intros Hne Hh Hl Hd. pose proof (pairs_root (E := E) (tx_pairs hs) t) as Hr.
  destruct hs as [|h hs]; [done|]. apply Hr; [done|by apply key_value_ok|done].
Qed.

(** The transactions root commits to the list of hashes, order and length
    included: no leaf can be repeated or moved. *)
Theorem tx_root_commits `{!CollisionFree keccak Dom} {E} hs1 hs2 (t1 t2 : MutableTrie (DB := DB)) :
  hs1 <> [] -> hs2 <> [] -> Forall hash_ok (hs1 ++ hs2) -> zlen (hs1 ++ hs2) < 2 ^ 64 ->
  denotes keccak Dom t1 (tx_map hs1) -> denotes keccak Dom t2 (tx_map hs2) ->
  transactions_root_mpt (E := E) keccak hs1 = transactions_root_mpt keccak hs2 <-> hs1 = hs2.
Proof.
  intros N1 N2 [H1 H2]%Forall_app Hl D1 D2. rewrite zlen_app in Hl. pose proof (zlen_nonneg hs1). pose proof (zlen_nonneg hs2).
  rewrite (tx_root_of hs1 t1), (tx_root_of hs2 t2) by (done || lia).
  pose proof (denotes_root keccak Dom t1 t2 _ _ D1 D2) as Hdr. split; [|intros ->; f_equal; by apply Hdr].
  intros [= Hr%Hdr]. apply list_eq. intros i.
  assert (Z.of_nat i < 2 ^ 64 \/ 2 ^ 64 <= Z.of_nat i) as [Hi|Hi] by lia.
  - pose proof (tx_map_lookup hs1 i ltac:(lia) Hi) as E1. pose proof (tx_map_lookup hs2 i ltac:(lia) Hi) as E2.
    rewrite Hr, E2 in E1. destruct (hs1 !! i) as [a|] eqn:Ha, (hs2 !! i) as [b|] eqn:Hb; simplify_eq/=; [|done].
    f_equal. symmetry. eapply rlp_hash_inj; [by eapply (proj1 (Forall_lookup _ _) H2)|by eapply (proj1 (Forall_lookup _ _) H1)|done].
  - by rewrite !lookup_ge_None_2 by (unfold zlen in *; lia).
Qed.
End root.
