(* ===== verification/Receipt.v ===== *)
(** * Binary Merkle trees (crates/zbx-crypto/src/merkle.rs)

    The tree over receipt hashes and its inclusion proofs.  Every proof the
    tree gives verifies; a proof of the tree's depth only verifies for the
    leaf it is about; and a list with an odd layer has the root of the list
    with its last element repeated.

    Below: logs, receipts and Bloom filters (zbx-types/src/receipt.rs,
    zbx-execution/src/bloom.rs). *)

From Stdlib Require Import ZArith Lia.
From stdpp Require Import base tactics list gmap numbers option.
From S2P Require Import Prelude Bytes TrieNode Trie TrieRepr.

Local Open Scope Z_scope.

Record InclusionProof : Type := mkInclusion {
  leaf_index : nat; leaf_count : nat; siblings : list H256 }.

Record MerkleTree : Type := mkTree { layers : list (list H256) }.

Section merkle.
Context (keccak : bytes -> H256).

Definition hash_leaf (data : bytes) : H256 := keccak (0 :: data).
Definition combine_hashes (left right : H256) : H256 := keccak (1 :: left ++ right).

(** ** Verification *)

Fixpoint verify_loop (sibs : list H256) (current : H256) (index : nat) : H256 :=
  match sibs with
  | [] => current
  | sibling :: sibs =>
    let current := if Nat.even index then combine_hashes current sibling else combine_hashes sibling current in
    verify_loop sibs current (index / 2)
  end.
Definition verify_inclusion (p : InclusionProof) (root leaf_hash : H256) : bool :=
  bool_decide (verify_loop (siblings p) leaf_hash (leaf_index p) = root).

(** ** Construction *)

(** [current.chunks(2).map(..)] *)
Fixpoint next_layer (l : list H256) : list H256 :=
  match l with
  | a :: b :: l => combine_hashes a b :: next_layer l
  | [a] => [combine_hashes a a]
  | [] => []
  end.

Fixpoint build_loop (fuel : nat) (current : list H256) (ls : list (list H256)) : list (list H256) :=
  match fuel with
  | O => ls
  | S fuel =>
    if Nat.ltb 1 (length current) then
      let next := next_layer current in
      build_loop fuel next (ls ++ [next])
    else ls
  end.

(** Every round halves the layer. *)
Definition build_from_hashes (current : list H256) : MerkleTree :=
  mkTree (build_loop (length current) current [current]).

Definition build {E} (leaves : list bytes) : res E MerkleTree :=
  if bool_decide (leaves = []) then Panic
  else Ok (build_from_hashes (map hash_leaf leaves)).

Definition tree_root (t : MerkleTree) : H256 :=
  default (replicate 32 0) (list.last (layers t) ≫= list.head).

Definition tree_len (t : MerkleTree) : nat :=
  match list.head (layers t) with Some l => length l | None => 0%nat end.

Fixpoint proof_loop {E} (ls : list (list H256)) (idx : nat) : res E (list H256) :=
  match ls with
  | [] => Ok []
  | layer :: ls =>
    let sibling_idx := if Nat.even idx then (idx + 1)%nat else (idx - 1)%nat in
    s ← (if Nat.ltb sibling_idx (length layer) then unwrap (layer !! sibling_idx) else unwrap (layer !! idx));
    rest ← proof_loop ls (idx / 2);
    Ok (s :: rest)
  end.

Definition tree_proof {E} (t : MerkleTree) (leaf_index : nat) : res E (option InclusionProof) :=
  let leaf_count := tree_len t in
  if Nat.leb leaf_count leaf_index then Ok None
  else
    sibs ← proof_loop (take (length (layers t) - 1) (layers t)) leaf_index;
    Ok (Some (mkInclusion leaf_index leaf_count sibs)).

Definition transactions_root (tx_hashes : list H256) : H256 :=
  match tx_hashes with
  | [] => replicate 32 0
  | _ => tree_root (build_from_hashes tx_hashes)
  end.

(** ** The layers of a list *)

Lemma length_next l : length (next_layer l) = Nat.div2 (S (length l)).
Proof.
  assert (forall n l, (length l <= n)%nat -> length (next_layer l) = Nat.div2 (S (length l))) as H; [|by eapply H].
  clear l. induction n as [|n IH]; intros [|a [|b l]] Hl; simpl in *; try lia. rewrite IH by lia. done.
Qed.

Lemma next_shorter l : (1 < length l)%nat -> (0 < length (next_layer l) < length l)%nat.
Proof. intros Hl. rewrite length_next, Nat.div2_div. split; [apply Nat.div_str_pos; lia|apply Nat.Div0.div_lt_upper_bound; lia]. Qed.

Lemma build_loop_app fuel l ls ls' : build_loop fuel l (ls' ++ ls) = ls' ++ build_loop fuel l ls.
Proof.
  revert l ls. induction fuel as [|fuel IH]; intros l ls; [done|]. simpl.
  destruct (Nat.ltb 1 (length l)); [|done]. by rewrite <-app_assoc, IH.
Qed.

Lemma build_loop_fuel fuel l ls : (length l <= fuel)%nat -> build_loop fuel l ls = build_loop (length l) l ls.
Proof.
  revert l ls. induction fuel as [fuel IH] using lt_wf_ind. intros l ls Hl.
  destruct fuel as [|fuel]; [destruct l; [done|simpl in Hl; lia]|]. destruct (length l) as [|n] eqn:Hn.
  - simpl. rewrite Hn. done.
  - simpl. rewrite Hn. destruct (Nat.ltb 1 (S n)) eqn:Hlt; [|done]. apply Nat.ltb_lt in Hlt.
    pose proof (next_shorter l ltac:(lia)).
    rewrite (IH fuel), (IH n) by lia. done.
Qed.

Definition layers_of (l : list H256) : list (list H256) := layers (build_from_hashes l).

Lemma layers_of_step l : (1 < length l)%nat -> layers_of l = l :: layers_of (next_layer l).
Proof.
  intros Hl. unfold layers_of, build_from_hashes. simpl. pose proof (next_shorter l Hl).
  destruct (length l) as [|n] eqn:Hn; [lia|]. cbn [build_loop]. rewrite Hn, (proj2 (Nat.ltb_lt _ _)) by done.
  change ([l] ++ [next_layer l]) with ([l] ++ [next_layer l]). rewrite build_loop_app. simpl. f_equal.
  apply build_loop_fuel. lia.
Qed.

Lemma layers_of_end l : (length l <= 1)%nat -> layers_of l = [l].
Proof. intros Hl. unfold layers_of, build_from_hashes. simpl. destruct l as [|a [|b l]]; [done|done|simpl in Hl; lia]. Qed.

Lemma layers_of_nonempty l : layers_of l <> [].
Proof.
  destruct (le_lt_dec (length l) 1); [by rewrite layers_of_end|by rewrite layers_of_step].
Qed.

Lemma layers_ind (P : list H256 -> Prop) :
  (forall l, (length l <= 1)%nat -> P l) -> (forall l, (1 < length l)%nat -> P (next_layer l) -> P l) -> forall l, P l.
Proof.
  intros H1 H2 l. induction l as [l IH] using (induction_ltof1 _ (@length H256)).
  destruct (le_lt_dec (length l) 1) as [Hl|Hl]; [by apply H1|].
  apply H2; [done|]. apply IH. unfold ltof. apply next_shorter. lia.
Qed.

Lemma root_step l : (1 < length l)%nat ->
  tree_root (build_from_hashes l) = tree_root (build_from_hashes (next_layer l)).
Proof.
  intros Hl. unfold tree_root. fold (layers_of l) (layers_of (next_layer l)). rewrite layers_of_step by done.
  pose proof (layers_of_nonempty (next_layer l)). by destruct (layers_of (next_layer l)).
Qed.

(** The pair of elements a node of the next layer is over. *)
Definition sibling_of (l : list H256) (i : nat) : option H256 :=
  let j := if Nat.even i then (i + 1)%nat else (i - 1)%nat in
  if Nat.ltb j (length l) then l !! j else l !! i.

Lemma sibling_skip a b l i s : sibling_of l i = Some s -> sibling_of (a :: b :: l) (S (S i)) = Some s.
Proof.
  unfold sibling_of. change (Nat.even (S (S i))) with (Nat.even i). destruct (Nat.even i) eqn:He.
  - by replace (S (S i) + 1)%nat with (S (S (i + 1))) by lia.
  - destruct i as [|i]; [done|]. simpl. by rewrite Nat.sub_0_r.
Qed.

Lemma next_lookup l i x : l !! i = Some x -> exists s, sibling_of l i = Some s /\
  next_layer l !! (i / 2)%nat = Some (if Nat.even i then combine_hashes x s else combine_hashes s x).
Proof.
  rewrite <-Nat.div2_div.
  assert (forall n l i, (length l <= n)%nat -> l !! i = Some x -> exists s, sibling_of l i = Some s /\
    next_layer l !! Nat.div2 i = Some (if Nat.even i then combine_hashes x s else combine_hashes s x)) as H;
    [|by eapply H].
  clear l i. induction n as [|n IH]; intros [|a [|b l]] i Hl Hi; try (by rewrite lookup_nil in Hi); simpl in Hl; try lia.
  - destruct i; [|done]. injection Hi as ->. by exists x.
  - destruct i as [|[|i]]; simpl in Hi.
    + injection Hi as ->. by exists b.
    + injection Hi as ->. by exists a.
    + destruct (IH l i ltac:(lia) Hi) as (s & Hs & Hn). exists s. split; [by apply sibling_skip|exact Hn].
Qed.

Lemma proof_loop_sibling {E} layer ls i s : sibling_of layer i = Some s ->
  proof_loop (E := E) (layer :: ls) i = (rest ← proof_loop ls (i / 2); Ok (s :: rest)).
Proof.
  unfold sibling_of. cbn [proof_loop]. destruct (Nat.even i); destruct (Nat.ltb _ _); intros ->; done.
Qed.

Lemma all_but_last_step l : (1 < length l)%nat ->
  take (length (layers_of l) - 1) (layers_of l) =
  l :: take (length (layers_of (next_layer l)) - 1) (layers_of (next_layer l)).
Proof.
  intros Hl. rewrite layers_of_step by done. pose proof (layers_of_nonempty (next_layer l)) as Hne.
  destruct (layers_of (next_layer l)) as [|y ls]; [done|]. simpl. by rewrite Nat.sub_0_r.
Qed.

Lemma proof_verifies {E} l : forall i x, l !! i = Some x ->
  exists sibs, proof_loop (E := E) (take (length (layers_of l) - 1) (layers_of l)) i = Ok sibs /\
    length sibs = (length (layers_of l) - 1)%nat /\
    verify_loop sibs x i = tree_root (build_from_hashes l).
Proof.
  induction l as [l Hl|l Hl IH] using layers_ind; intros i x Hi.
  - rewrite layers_of_end by done. exists []. split_and!; [done..|]. simpl.
    destruct l as [|a [|b l]]; [done| |simpl in Hl; lia]. destruct i; [|done]. injection Hi as ->. done.
  - destruct (next_lookup l i x Hi) as (s & Hs & Hn). destruct (IH _ _ Hn) as (sibs & Hp & Hlen & Hv).
    exists (s :: sibs). rewrite all_but_last_step, (proof_loop_sibling _ _ _ _ Hs), Hp by done.
    split_and!; [done| |].
    + rewrite layers_of_step by done. pose proof (layers_of_nonempty (next_layer l)).
      destruct (layers_of (next_layer l)); [done|]. simpl in *. lia.
    + cbn [verify_loop]. cbv zeta. rewrite Hv. by rewrite (root_step l).
Qed.

Lemma tree_len_of l : tree_len (build_from_hashes l) = length l.
Proof.
  unfold tree_len. fold (layers_of l). destruct (le_lt_dec (length l) 1); [by rewrite layers_of_end|by rewrite layers_of_step].
Qed.

(** The tree gives a proof for every leaf, and none beyond; the proof verifies
    against the root for that leaf, in trees with odd layers too. *)
Theorem merkle_complete {E} l i : 
  match l !! i with
  | None => tree_proof (E := E) (build_from_hashes l) i = Ok None
  | Some x => exists p, tree_proof (E := E) (build_from_hashes l) i = Ok (Some p) /\
      verify_inclusion p (tree_root (build_from_hashes l)) x = true
  end.
Proof.
  unfold tree_proof. rewrite tree_len_of. fold (layers_of l). destruct (l !! i) as [x|] eqn:Hi.
  - pose proof (lookup_lt_Some _ _ _ Hi). rewrite (proj2 (Nat.leb_gt _ _)) by done.
    destruct (proof_verifies (E := E) l i x Hi) as (sibs & -> & _ & Hv). eexists. split; [done|].
    unfold verify_inclusion. by apply bool_decide_eq_true_2.
  - apply lookup_ge_None in Hi. by rewrite (proj2 (Nat.leb_le _ _)).
Qed.

(** ** Soundness *)

(** The byte strings hashed by a verification and by the construction. *)
Fixpoint verify_pre (sibs : list H256) (current : H256) (index : nat) : list bytes :=
  match sibs with
  | [] => []
  | s :: sibs =>
    let p := if Nat.even index then 1 :: current ++ s else 1 :: s ++ current in
    p :: verify_pre sibs (keccak p) (index / 2)
  end.
Fixpoint layer_pre (l : list H256) : list bytes :=
  match l with
  | a :: b :: l => (1 :: a ++ b) :: layer_pre l
  | [a] => [1 :: a ++ a]
  | [] => []
  end.
Definition tree_pre (l : list H256) : list bytes := concat (map layer_pre (layers_of l)).

Definition is_hash (h : H256) : Prop := length h = 32%nat.

Lemma next_lookup_pre l i x : l !! i = Some x -> exists s, sibling_of l i = Some s /\
  (if Nat.even i then 1 :: x ++ s else 1 :: s ++ x) ∈ layer_pre l.
Proof.
  assert (forall n l i, (length l <= n)%nat -> l !! i = Some x -> exists s, sibling_of l i = Some s /\
    (if Nat.even i then 1 :: x ++ s else 1 :: s ++ x) ∈ layer_pre l) as H; [|by eapply H].
  clear l i. induction n as [|n IH]; intros [|a [|b l]] i Hl Hi; try (by rewrite lookup_nil in Hi); simpl in Hl; try lia.
  - destruct i; [|done]. injection Hi as ->. exists x. split; [done|]. simpl. set_solver.
  - destruct i as [|[|i]]; simpl in Hi.
    + injection Hi as ->. exists b. split; [done|]. simpl. set_solver.
    + injection Hi as ->. exists a. split; [done|]. simpl. set_solver.
    + destruct (IH l i ltac:(lia) Hi) as (s & Hs & Hn). exists s. split; [by apply sibling_skip|].
      change (Nat.even (S (S i))) with (Nat.even i). simpl layer_pre. set_solver.
Qed.

Lemma next_hashes `{!Hash256 keccak} l : Forall is_hash (next_layer l).
Proof.
  assert (forall n l, (length l <= n)%nat -> Forall is_hash (next_layer l)) as H; [|by eapply H].
  clear l. induction n as [|n IH]; intros [|a [|b l]] Hl; simpl in *; try lia; try (by apply List.Forall_nil).
  - constructor; [apply (keccak_h256 (keccak := keccak))|constructor].
  - constructor; [apply (keccak_h256 (keccak := keccak))|]. apply IH. lia.
Qed.

Lemma pair_inj (a b c d : H256) : is_hash a -> is_hash c -> 1 :: a ++ b = 1 :: c ++ d -> a = c /\ b = d.
Proof. unfold is_hash. intros Ha Hc [= H]. apply app_inj_1 in H; [done|congruence]. Qed.

Context `{HK : !Hash256 keccak} (Dom : bytes -> Prop) `{HC : !CollisionFree keccak Dom}.

Lemma verify_sound l : forall sibs i x, Forall is_hash l -> Forall is_hash sibs -> is_hash x ->
  length sibs = (length (layers_of l) - 1)%nat -> (i < length l)%nat ->
  Forall Dom (tree_pre l) -> Forall Dom (verify_pre sibs x i) ->
  verify_loop sibs x i = tree_root (build_from_hashes l) -> l !! i = Some x.
Proof.
  induction l as [l Hl|l Hl IH] using layers_ind; intros sibs i x Hh Hsh Hx Hlen Hi Ht Hv Heq.
  - rewrite layers_of_end in Hlen by done. destruct sibs; [|done]. simpl in Heq.
    destruct l as [|a [|b l]]; [simpl in Hi; lia| |simpl in Hl; lia]. destruct i; [|simpl in Hi; lia].
    simpl. f_equal. by rewrite Heq.
  - pose proof (layers_of_nonempty (next_layer l)) as Hne. rewrite layers_of_step in Hlen by done.
    destruct sibs as [|s sibs]; [destruct (layers_of (next_layer l)); simpl in *; done|].
    unfold tree_pre in Ht. rewrite layers_of_step in Ht by done. simpl in Ht. apply Forall_app in Ht as [Htl Ht].
    apply Forall_cons_iff in Hsh as [Hs Hsh]. cbn [verify_pre] in Hv. cbv zeta in Hv. apply Forall_cons_iff in Hv as [Hv0 Hv].
    destruct (lookup_lt_is_Some_2 l i Hi) as [y Hy]. destruct (next_lookup l i y Hy) as (s' & Hs' & Hn).
    destruct (next_lookup_pre l i y Hy) as (s'' & Hs'' & Hpre). rewrite Hs' in Hs''. injection Hs'' as <-.
    pose proof (proj1 (List.Forall_forall _ _) Htl _ (proj1 (list_elem_of_In _ _) Hpre)) as Hd.
    assert (is_hash y) as Hyh by (by eapply (proj1 (Forall_lookup _ _) Hh)).
    assert (is_hash s') as Hsh'.
    { unfold sibling_of in Hs'. destruct (Nat.even i), (Nat.ltb _ _); by eapply (proj1 (Forall_lookup _ _) Hh). }
    assert (next_layer l !! (i / 2)%nat =
      Some (keccak (if Nat.even i then 1 :: x ++ s else 1 :: s ++ x))) as Hx'.
    { apply (IH sibs); [apply next_hashes|done|apply (keccak_h256 (keccak := keccak))| | |done|done|].
      - destruct (layers_of (next_layer l)); simpl in *; [done|lia].
      - by eapply lookup_lt_Some.
      - rewrite (root_step l) in Heq by done. cbn [verify_loop] in Heq. cbv zeta in Heq. unfold combine_hashes in Heq. by destruct (Nat.even i). }
    rewrite Hn in Hx'. unfold combine_hashes in Hx'. rewrite Hy. f_equal. destruct (Nat.even i); injection Hx' as Hk.
    + apply (keccak_inj (Dom := Dom)) in Hk; [|done|done]. by apply pair_inj in Hk as [-> _].
    + apply (keccak_inj (Dom := Dom)) in Hk; [|done|done]. by apply pair_inj in Hk as [_ ->].
Qed.

(** A proof as long as the tree is deep, for an index within the tree, verifies
    only the leaf at that index. *)
Theorem merkle_sound l p x : Forall is_hash l -> Forall is_hash (siblings p) -> is_hash x ->
  length (siblings p) = (length (layers (build_from_hashes l)) - 1)%nat -> (leaf_index p < length l)%nat ->
  Forall Dom (tree_pre l ++ verify_pre (siblings p) x (leaf_index p)) ->
  verify_inclusion p (tree_root (build_from_hashes l)) x = true -> l !! leaf_index p = Some x.
Proof.
  intros Hl Hs Hx Hlen Hi [Ht Hv]%Forall_app Hver. apply bool_decide_eq_true_1 in Hver.
  by eapply verify_sound.
Qed.
End merkle.

(** The root does not determine the list: the last leaf of an odd layer can be
    repeated. *)
Lemma duplicate_last_leaf keccak l x : Nat.even (length l) = true -> l <> [] ->
  transactions_root keccak (l ++ [x]) = transactions_root keccak (l ++ [x; x]).
Proof.
  intros He Hl. assert (next_layer keccak (l ++ [x]) = next_layer keccak (l ++ [x; x])) as Hn.
  { clear Hl. revert He. assert (forall n l, (length l <= n)%nat -> Nat.even (length l) = true ->
      next_layer keccak (l ++ [x]) = next_layer keccak (l ++ [x; x])) as H; [|by eapply H].
    clear l. induction n as [|n IH]; intros [|a [|b l]] Hn He; simpl in *; try done; try lia. f_equal. apply IH; [lia|done]. }
  assert (forall k, transactions_root keccak (l ++ k) = tree_root (build_from_hashes keccak (l ++ k))) as Ht
    by (intros k; by destruct l).
  assert (0 < length l)%nat by (destruct l; simpl; [done|lia]).
  rewrite !Ht, (root_step keccak (l ++ [x])), (root_step keccak (l ++ [x; x])) by (rewrite length_app; simpl; lia).
  by rewrite Hn.
Qed.

(** * Receipts, logs and Bloom filters (crates/zbx-types/src/receipt.rs, crates/zbx-execution/src/bloom.rs)

    The Bloom filter over the addresses and topics of the logs, and the
    encoding of a receipt whose hashes the receipts root commits to. *)

Abbreviation Address := (list Z).

Record Log : Type := mkLog {
  log_address : Address; log_topics : list H256; log_data : bytes; log_block_number : Z;
  log_index : Z; log_transaction_hash : H256; log_transaction_index : Z }.

Inductive TxStatus : Type := Failure | Success.
Definition status_byte (s : TxStatus) : Z := match s with Failure => 0 | Success => 1 end.

Record TransactionReceipt : Type := mkReceipt {
  status : TxStatus;
  cumulative_gas_used : Z;
  logs_bloom : bytes;
  receipt_logs : list Log;
  transaction_hash : H256;
  transaction_index : Z;
  block_hash : H256;
  receipt_block_number : Z;
  receipt_from : Address;
  receipt_to : option Address;
  receipt_contract_address : option Address;
  gas_used : Z;
  effective_gas_price : Z }.

Definition empty_bloom : bytes := replicate 256 0.

Section keccak.
Context (keccak : bytes -> H256).

(** The bit that the byte pair of the hash at [v] selects. *)
Definition bloom_index (h : H256) (v : nat) : Z :=
  Z.land (Z.lor (u16 (Z.shiftl (nth v h 0) 8)) (nth (v + 1) h 0)) 2047.

Definition bloom_set (bloom : bytes) (bit : Z) : bytes :=
  let byte_idx := 256 - bit / 8 - 1 in
  alter (fun b => Z.lor b (u8 (Z.shiftl 1 (bit mod 8)))) (Z.to_nat byte_idx) bloom.

Definition bloom_add (bloom item : bytes) : bytes :=
  let h := keccak item in
  foldl (fun bloom v => bloom_set bloom (bloom_index h v)) bloom [0; 2; 4]%nat.

Definition compute_receipt_bloom (logs : list Log) : bytes :=
  foldl (fun bloom log =>
    foldl (fun bloom topic => bloom_add bloom topic) (bloom_add bloom (log_address log)) (log_topics log))
    empty_bloom logs.

(** [block_bloom[i] |= byte] for every byte of every receipt. *)
Definition aggregate_block_bloom (receipts : list TransactionReceipt) : bytes :=
  foldl (fun block r => zip_with Z.lor block (logs_bloom r)) empty_bloom receipts.

Definition encode_log (l : Log) : bytes :=
  log_address l ++ to_be 8 (zlen (log_topics l)) ++ concat (log_topics l) ++
  to_be 8 (zlen (log_data l)) ++ log_data l.

Definition receipt_bytes (r : TransactionReceipt) : bytes :=
  [status_byte (status r)] ++ to_be 8 (cumulative_gas_used r) ++ logs_bloom r ++
  to_be 8 (zlen (receipt_logs r)) ++ concat (map encode_log (receipt_logs r)).

Definition compute_receipt_hash (r : TransactionReceipt) : H256 := keccak (receipt_bytes r).

Definition compute_receipts_root (receipts : list TransactionReceipt) : H256 :=
  match receipts with
  | [] => replicate 32 0
  | _ => transactions_root keccak (map compute_receipt_hash receipts)
  end.
End keccak.

(** ** Bloom filters *)

(** Bit [n] of the 2048-bit big-endian number. *)
Definition bloom_bit (bloom : bytes) (n : Z) : bool :=
  Z.testbit (nth (Z.to_nat (255 - n / 8)) bloom 0) (n mod 8).

Definition bloom_ok (bloom : bytes) : Prop := length bloom = 256%nat.

Lemma bloom_index_range h v : 0 <= bloom_index h v < 2048.
Proof.
  unfold bloom_index. change 2047 with (Z.ones 11). rewrite Z.land_ones by lia.
  change 2048 with (2 ^ 11). apply Z.mod_pos_bound. lia.
Qed.

Lemma nth_alter (f : Z -> Z) i j l : (i < length l)%nat ->
  nth j (alter f i l) 0 = if decide (i = j) then f (nth j l 0) else nth j l 0.
Proof.
  intros Hi. rewrite !nth_lookup. case_decide as Hij.
  - subst. rewrite list_lookup_alter_eq. destruct (lookup_lt_is_Some_2 l j Hi) as [x ->]. done.
  - by rewrite list_lookup_alter_ne.
Qed.

Lemma bloom_set_bit bloom b n : bloom_ok bloom -> 0 <= b < 2048 -> 0 <= n < 2048 ->
  bloom_ok (bloom_set bloom b) /\ bloom_bit (bloom_set bloom b) n = bloom_bit bloom n || (n =? b).
Proof.
  unfold bloom_ok. intros Hl Hb Hn. unfold bloom_set, bloom_bit. split; [by rewrite length_alter|].
  assert (0 <= b / 8 < 256) by (Z.to_euclidean_division_equations; lia).
  assert (0 <= n / 8 < 256) by (Z.to_euclidean_division_equations; lia).
  pose proof (Z.mod_pos_bound b 8 ltac:(lia)). pose proof (Z.mod_pos_bound n 8 ltac:(lia)).
  rewrite nth_alter by lia. case_decide as Hi.
  - assert (n / 8 = b / 8) as Hd by lia. rewrite Z.lor_spec. f_equal.
    unfold wrap. rewrite Z.mod_pow2_bits_low, Z.shiftl_spec by lia.
    destruct (Z.eqb_spec n b) as [->|Hne].
    + by rewrite Z.sub_diag.
    + assert (n mod 8 <> b mod 8) by (intros He; apply Hne; rewrite (Z.div_mod n 8), (Z.div_mod b 8) by lia; congruence).
      destruct (Z.lt_trichotomy (n mod 8) (b mod 8)) as [Hlt|[?|Hlt]]; [|lia|].
      * by rewrite Z.testbit_neg_r by lia.
      * by rewrite Z.bits_above_log2 by (simpl; lia).
  - rewrite (proj2 (Z.eqb_neq n b)), orb_false_r; [done|]. intros ->. apply Hi. f_equal. lia.
Qed.

Section blooms.
Context (keccak : bytes -> H256).

Definition item_bits (item : bytes) : list Z := map (bloom_index (keccak item)) [0; 2; 4]%nat.
Definition log_items (l : Log) : list bytes := log_address l :: log_topics l.

Lemma bloom_add_bit bloom item n : bloom_ok bloom -> 0 <= n < 2048 ->
  bloom_ok (bloom_add keccak bloom item) /\
  bloom_bit (bloom_add keccak bloom item) n = bloom_bit bloom n || existsb (Z.eqb n) (item_bits item).
Proof.
  intros Hb Hn. unfold bloom_add, item_bits. cbn [foldl map existsb].
  set (b0 := bloom_index (keccak item) 0%nat). set (b2 := bloom_index (keccak item) 2%nat).
  set (b4 := bloom_index (keccak item) 4%nat).
  destruct (bloom_set_bit bloom b0 n Hb (bloom_index_range _ _) Hn) as [O1 E1].
  destruct (bloom_set_bit _ b2 n O1 (bloom_index_range _ _) Hn) as [O2 E2].
  destruct (bloom_set_bit _ b4 n O2 (bloom_index_range _ _) Hn) as [O3 E3].
  split; [done|]. rewrite E3, E2, E1. by rewrite orb_false_r, !orb_assoc.
Qed.

Lemma bloom_items_bit items bloom n : bloom_ok bloom -> 0 <= n < 2048 ->
  bloom_ok (foldl (bloom_add keccak) bloom items) /\
  bloom_bit (foldl (bloom_add keccak) bloom items) n =
    bloom_bit bloom n || existsb (fun it => existsb (Z.eqb n) (item_bits it)) items.
Proof.
  intros Hb Hn. revert bloom Hb. induction items as [|it items IH]; intros bloom Hb; [by rewrite orb_false_r|].
  simpl foldl. destruct (bloom_add_bit bloom it n Hb Hn) as [O1 E1]. destruct (IH _ O1) as [O2 E2].
  split; [done|]. rewrite E2, E1. symmetry. apply orb_assoc.
Qed.

Lemma receipt_bloom_items logs :
  compute_receipt_bloom keccak logs = foldl (bloom_add keccak) empty_bloom (concat (map log_items logs)).
Proof.
  unfold compute_receipt_bloom. generalize empty_bloom. induction logs as [|l logs IH]; intros b; [done|].
  simpl. rewrite IH, foldl_app. done.
Qed.

Lemma empty_bloom_bit n : bloom_ok empty_bloom /\ bloom_bit empty_bloom n = false.
Proof.
  split; [done|]. unfold bloom_bit. rewrite nth_lookup. destruct (empty_bloom !! _) as [x|] eqn:Hx.
  - apply lookup_replicate in Hx as [-> _]. apply Z.testbit_0_l.
  - apply Z.testbit_0_l.
Qed.

Lemma or_bit a b n : bloom_ok a -> bloom_ok b -> bloom_ok (zip_with Z.lor a b) /\
  bloom_bit (zip_with Z.lor a b) n = bloom_bit a n || bloom_bit b n.
Proof.
  unfold bloom_ok. intros Ha Hb. split; [rewrite length_zip_with; lia|]. unfold bloom_bit. rewrite !nth_lookup, lookup_zip_with.
  destruct (a !! _) as [x|] eqn:Hx.
  - destruct (lookup_lt_is_Some_2 b (Z.to_nat (255 - n / 8))) as [y Hy].
    { apply lookup_lt_Some in Hx. lia. }
    rewrite Hy. simpl. apply Z.lor_spec.
  - apply lookup_ge_None in Hx. rewrite (lookup_ge_None_2 b) by lia. simpl. by rewrite Z.testbit_0_l.
Qed.

(** A bit of the block's Bloom filter is set exactly when an address or a topic
    of one of its logs selects it: no log is missed by a filter, and no bit is
    set without cause. *)
Theorem bloom_exact receipts n : 0 <= n < 2048 ->
  Forall (fun r => logs_bloom r = compute_receipt_bloom keccak (receipt_logs r)) receipts ->
  bloom_bit (aggregate_block_bloom receipts) n = true <->
  exists r log item, In r receipts /\ In log (receipt_logs r) /\ In item (log_items log) /\ In n (item_bits item).
Proof.
  intros Hn Hr. unfold aggregate_block_bloom.
  assert (forall b, bloom_ok b -> bloom_bit (foldl (fun block r => zip_with Z.lor block (logs_bloom r)) b receipts) n =
    bloom_bit b n || existsb (fun r => bloom_bit (logs_bloom r) n) receipts) as Hfold.
  { induction Hr as [|r rs Hrb _ IH]; intros b Hb; [by rewrite orb_false_r|]. simpl.
    assert (bloom_ok (logs_bloom r)) as Hok.
    { rewrite Hrb, receipt_bloom_items. by apply (bloom_items_bit _ _ n (proj1 (empty_bloom_bit n))). }
    destruct (or_bit b (logs_bloom r) n Hb Hok) as [O E]. rewrite IH, E by done. by rewrite orb_assoc. }
  rewrite Hfold by apply (empty_bloom_bit n). rewrite (proj2 (empty_bloom_bit n)). simpl.
  rewrite existsb_exists. split.
  - intros (r & Hin & Hb). rewrite List.Forall_forall in Hr. rewrite Hr, receipt_bloom_items in Hb by done.
    rewrite (proj2 (bloom_items_bit _ _ n (proj1 (empty_bloom_bit n)) Hn)), (proj2 (empty_bloom_bit n)) in Hb.
    rewrite orb_false_l in Hb. apply existsb_exists in Hb as (it & Hit & Hb). apply in_concat in Hit as (its & Hits & Hit).
    apply in_map_iff in Hits as (l & <- & Hl). apply existsb_exists in Hb as (m & Hm & <-%Z.eqb_eq).
    by exists r, l, it.
  - intros (r & l & it & Hin & Hl & Hit & Hb). exists r. split; [done|]. rewrite List.Forall_forall in Hr.
    rewrite Hr, receipt_bloom_items by done.
    rewrite (proj2 (bloom_items_bit _ _ n (proj1 (empty_bloom_bit n)) Hn)), (proj2 (empty_bloom_bit n)), orb_false_l.
    apply existsb_exists. exists it. split.
    + apply in_concat. exists (log_items l). split; [by apply in_map|done].
    + apply existsb_exists. exists n. split; [done|]. by apply Z.eqb_eq.
Qed.
End blooms.

(** ** What a receipt's hash commits to *)

Definition committed_log (l : Log) : Address * list H256 * bytes := (log_address l, log_topics l, log_data l).
Definition committed_receipt (r : TransactionReceipt) : TxStatus * Z * bytes * list (Address * list H256 * bytes) :=
  (status r, cumulative_gas_used r, logs_bloom r, map committed_log (receipt_logs r)).

Record log_typed (l : Log) : Prop := mkLogTyped {
  log_address_len : length (log_address l) = 20%nat;
  log_topics_len : Forall (fun t => length t = 32%nat) (log_topics l);
  log_topics_count : in_range 64 (zlen (log_topics l));
  log_data_len : in_range 64 (zlen (log_data l)) }.
Record receipt_typed (r : TransactionReceipt) : Prop := mkReceiptTyped {
  receipt_gas_typed : in_range 64 (cumulative_gas_used r);
  receipt_bloom_typed : bloom_ok (logs_bloom r);
  receipt_logs_count : in_range 64 (zlen (receipt_logs r));
  receipt_logs_typed : Forall log_typed (receipt_logs r) }.

Lemma to_be_app_inj n x y (r s : bytes) : 0 <= x < 256 ^ Z.of_nat n -> 0 <= y < 256 ^ Z.of_nat n ->
  to_be n x ++ r = to_be n y ++ s -> x = y /\ r = s.
Proof.
  intros Hx Hy H. apply app_inj_1 in H as [H ->]; [|by rewrite !length_to_be]. split; [|done].
  pose proof (be_val_to_be n x) as E1. pose proof (be_val_to_be n y) as E2.
  rewrite Z.mod_small in E1, E2 by done. congruence.
Qed.

Lemma u64_app_inj x y (r s : bytes) : in_range 64 x -> in_range 64 y ->
  to_be 8 x ++ r = to_be 8 y ++ s -> x = y /\ r = s.
Proof. intros Hx Hy. by apply to_be_app_inj. Qed.

Lemma concat_app_inj (l k : list H256) r s : Forall (fun t => length t = 32%nat) l ->
  Forall (fun t => length t = 32%nat) k -> length l = length k ->
  concat l ++ r = concat k ++ s -> l = k /\ r = s.
Proof.
  intros Hl. revert k. induction Hl as [|t l Ht Hl IH]; intros [|u k] Hk Hlen H; try done.
  apply Forall_cons_iff in Hk as [Hu Hk]. simpl in H. rewrite <-!app_assoc in H.
  apply app_inj_1 in H as [-> H]; [|congruence]. injection Hlen as Hlen. by destruct (IH k Hk Hlen H) as [-> ->].
Qed.

Lemma zlen_inj {A B} (l : list A) (k : list B) : zlen l = zlen k -> length l = length k.
Proof. unfold zlen. lia. Qed.

Lemma encode_log_inj l k r s : log_typed l -> log_typed k ->
  encode_log l ++ r = encode_log k ++ s -> committed_log l = committed_log k /\ r = s.
Proof.
  intros [La Lt Ln Ld] [Ka Kt Kn Kd] H. unfold encode_log in H. rewrite <-!app_assoc in H.
  apply app_inj_1 in H as [Ha H]; [|congruence]. apply u64_app_inj in H as [Hn H]; [|done..].
  apply concat_app_inj in H as [Ht H]; [|done|done|by apply zlen_inj].
  apply u64_app_inj in H as [Hd H]; [|done..]. apply app_inj_1 in H as [Hd' ->]; [|by apply zlen_inj].
  split; [|done]. unfold committed_log. congruence.
Qed.

Lemma encode_logs_inj l k : Forall log_typed l -> Forall log_typed k -> length l = length k ->
  concat (map encode_log l) = concat (map encode_log k) -> map committed_log l = map committed_log k.
Proof.
  intros Hl. revert k. induction Hl as [|a l Ha Hl IH]; intros [|b k] Hk Hlen H; try done.
  apply Forall_cons_iff in Hk as [Hb Hk]. injection Hlen as Hlen. simpl in *.
  apply encode_log_inj in H as [-> H]; [|done..]. f_equal. by apply IH.
Qed.

Lemma encode_log_committed l k : committed_log l = committed_log k -> encode_log l = encode_log k.
Proof. unfold committed_log, encode_log. by intros [= -> -> ->]. Qed.

Lemma receipt_bytes_inj r s : receipt_typed r -> receipt_typed s ->
  receipt_bytes r = receipt_bytes s <-> committed_receipt r = committed_receipt s.
Proof.
  intros [Rg Rb Rn Rl] [Sg Sb Sn Sl]. unfold receipt_bytes, committed_receipt. split.
  - intros H. apply app_inj_1 in H as [Hst H]; [|done]. injection Hst as Hst. apply u64_app_inj in H as [Hg H]; [|done..].
    apply app_inj_1 in H as [Hb H]; [|unfold bloom_ok in *; congruence].
    apply u64_app_inj in H as [Hn H]; [|done..]. apply encode_logs_inj in H; [|done|done|by apply zlen_inj].
    assert (status r = status s) as -> by (destruct (status r), (status s); done). congruence.
  - intros [= -> -> -> Hl]. assert (map encode_log (receipt_logs r) = map encode_log (receipt_logs s)) as ->.
    { clear -Hl. revert Hl. generalize (receipt_logs s). induction (receipt_logs r) as [|a l IH]; intros [|b k] Hl; try done.
      assert (committed_log a = committed_log b /\ map committed_log l = map committed_log k) as [Hab Hl'].
      { simpl in Hl. split; congruence. }
      simpl. by rewrite (encode_log_committed a b), (IH k). }
    apply (f_equal length) in Hl. rewrite !length_map in Hl. unfold zlen. by rewrite Hl.
Qed.

(** The hash of a receipt commits to its status, its cumulative gas, its Bloom
    filter and the addresses, topics and data of its logs, and to nothing else:
    not to the transaction, the sender, the gas used or the contract created. *)
Theorem receipt_hash_commits keccak Dom `{!CollisionFree keccak Dom} r s : receipt_typed r -> receipt_typed s ->
  Dom (receipt_bytes r) -> Dom (receipt_bytes s) ->
  compute_receipt_hash keccak r = compute_receipt_hash keccak s <-> committed_receipt r = committed_receipt s.
Proof.
  intros Hr Hs Dr Ds. rewrite <-receipt_bytes_inj by done. unfold compute_receipt_hash. split.
  - by apply (keccak_inj (Dom := Dom)).
  - by intros ->.
Qed.
