(* ===== verification/StateDB.v ===== *)
(** * The world state of a block (crates/zbx-state/src/state_db.rs)

    [StateDB] overlays the accounts of the parent block with what the block
    changed: accounts, cached storage, code, tombstones, logs and refunds, with
    snapshots for reverted calls.  [set_account] is the release build's: a
    violated guard is corrected and logged, not a panic. *)

From Stdlib Require Import ZArith Lia.
From stdpp Require Import base tactics list gmap numbers option fin_maps.
From S2P Require Import Prelude Bytes Rlp Nibbles TrieNode Trie TrieRepr TrieCorrect Account StateMpt Receipt.

Set Warnings "-register-all".
Local Open Scope Z_scope.

Record StateDB : Type := mkState {
  base_accounts : gmap Address AccountState;
  dirty_accounts : gmap Address AccountState;
  code_cache : gmap H256 bytes;
  storage_cache : gmap Address (gmap H256 H256);
  dirty_storage : gmap Address (gset H256);
  to_delete : gset Address;
  logs : list Log;
  refund : Z }.

Definition state_new : StateDB := mkState ∅ ∅ ∅ ∅ ∅ ∅ [] 0.

Definition set_base m db := mkState m (dirty_accounts db) (code_cache db) (storage_cache db)
  (dirty_storage db) (to_delete db) (logs db) (refund db).
Definition set_dirty m db := mkState (base_accounts db) m (code_cache db) (storage_cache db)
  (dirty_storage db) (to_delete db) (logs db) (refund db).
Definition set_codes m db := mkState (base_accounts db) (dirty_accounts db) m (storage_cache db)
  (dirty_storage db) (to_delete db) (logs db) (refund db).
Definition set_slots c d db := mkState (base_accounts db) (dirty_accounts db) (code_cache db) c d
  (to_delete db) (logs db) (refund db).
Definition set_deleted s db := mkState (base_accounts db) (dirty_accounts db) (code_cache db)
  (storage_cache db) (dirty_storage db) s (logs db) (refund db).
Definition set_logs l db := mkState (base_accounts db) (dirty_accounts db) (code_cache db)
  (storage_cache db) (dirty_storage db) (to_delete db) l (refund db).
Definition set_refund r db := mkState (base_accounts db) (dirty_accounts db) (code_cache db)
  (storage_cache db) (dirty_storage db) (to_delete db) (logs db) r.

Definition seed_account (addr : Address) (st : AccountState) (db : StateDB) : StateDB :=
  set_base (<[addr := st]> (base_accounts db)) db.
Definition seed_code (h : H256) (code : bytes) (db : StateDB) : StateDB :=
  set_codes (<[h := code]> (code_cache db)) db.

Definition get_account (addr : Address) (db : StateDB) : AccountState :=
  match dirty_accounts db !! addr with
  | Some st => st
  | None => default default_account (base_accounts db !! addr)
  end.

Definition put_dirty (addr : Address) (st : AccountState) (db : StateDB) : StateDB :=
  set_dirty (<[addr := st]> (dirty_accounts db)) db.

Definition set_account (addr : Address) (state : AccountState) (db : StateDB) : StateDB :=
  let prior := if bool_decide (addr ∈ to_delete db) then default_account else get_account addr db in
  let db := if bool_decide (addr ∈ to_delete db) then set_deleted (to_delete db ∖ {[addr]}) db else db in
  if nonce state <? nonce prior then put_dirty addr (set_nonce (nonce prior) state) db
  else if negb (is_contract prior) then put_dirty addr state db
  else if bool_decide (code_hash state = code_hash prior) then put_dirty addr state db
  else if bool_decide (code_hash state = EMPTY_CODE_HASH) then put_dirty addr state db
  else put_dirty addr (set_code_hash (code_hash prior) state) db.

Definition set_account_unchecked (addr : Address) (state : AccountState) (db : StateDB) : StateDB :=
  put_dirty addr state db.

Definition get_storage (addr : Address) (slot : H256) (db : StateDB) : H256 :=
  default zero_h256 (storage_cache db !! addr ≫= fun m => m !! slot).

Definition set_storage (addr : Address) (slot value : H256) (db : StateDB) : StateDB :=
  set_slots (<[addr := <[slot := value]> (default ∅ (storage_cache db !! addr))]> (storage_cache db))
    (<[addr := {[slot]} ∪ default ∅ (dirty_storage db !! addr)]> (dirty_storage db)) db.

Definition get_code (h : H256) (db : StateDB) : bytes := default [] (code_cache db !! h).

Definition add_refund (amount : Z) (db : StateDB) : StateDB :=
  set_refund (sat 64 (refund db + amount)) db.

Definition selfdestruct (addr : Address) (db : StateDB) : StateDB :=
  set_dirty (base.delete addr (dirty_accounts db)) (set_deleted ({[addr]} ∪ to_delete db) db).

Definition emit_log (l : Log) (db : StateDB) : StateDB := set_logs (logs db ++ [l]) db.

Definition is_dirty (db : StateDB) : bool :=
  negb (bool_decide (dirty_accounts db = ∅)) || negb (bool_decide (dirty_storage db = ∅)).
Definition dirty_addresses (db : StateDB) : list Address := (map_to_list (dirty_accounts db)).*1.

(** ** Snapshots *)

Record StateSnapshot : Type := mkSnapshot {
  snap_dirty_accounts : gmap Address AccountState;
  snap_dirty_storage : gmap Address (gset H256);
  snap_storage_cache : gmap Address (gmap H256 H256);
  snap_to_delete : gset Address;
  snap_logs_len : nat;
  snap_refund : Z }.

Definition snapshot (db : StateDB) : StateSnapshot :=
  mkSnapshot (dirty_accounts db) (dirty_storage db) (storage_cache db) (to_delete db)
    (length (logs db)) (refund db).

Definition revert_to (snap : StateSnapshot) (db : StateDB) : StateDB :=
  mkState (base_accounts db) (snap_dirty_accounts snap) (code_cache db) (snap_storage_cache snap)
    (snap_dirty_storage snap) (snap_to_delete snap) (take (snap_logs_len snap) (logs db)) (snap_refund snap).

Section keccak.
Context (keccak : bytes -> H256).

Definition deploy_code (code : bytes) (db : StateDB) : H256 * StateDB :=
  let code_hash := keccak code in
  (code_hash, set_codes (<[code_hash := code]> (code_cache db)) db).

(** ** State roots *)

Definition state_root (L : Listing) (db : StateDB) : res TrieError H256 :=
  compute_state_root_filtered keccak L (base_accounts db) (dirty_accounts db) (storage_cache db) (to_delete db).

Definition listed_storage (L : Listing) (storage : gmap Address (gmap H256 H256)) : storage_map :=
  map_imap (fun a m => Some (list_slots L a m)) storage.

(** The two loops that fill the visible set, tombstones left out. *)
Definition visible_with_db (db : StateDB) : gmap Address AccountState :=
  let keep a st m := if bool_decide (a ∈ to_delete db) then m else <[a := st]> m in
  map_fold keep (map_fold keep ∅ (base_accounts db)) (dirty_accounts db).

Definition state_root_with_db {DB} `{TrieDB DB} (L : Listing) (db : StateDB) (d : DB) : res TrieError H256 :=
  compute_state_root_with_db keccak (list_accounts L (visible_with_db db))
    (listed_storage L (storage_cache db)) d.

(** ** Calls of a block's execution *)

(** A call frame takes a snapshot, runs, and reverts when it fails. *)
Inductive op : Type :=
| OSetAccount (addr : Address) (st : AccountState)
| OSetStorage (addr : Address) (slot value : H256)
| ODeploy (code : bytes)
| ORefund (amount : Z)
| OSelfdestruct (addr : Address)
| OLog (l : Log)
| OFrame (ops : list op) (reverts : bool).

Fixpoint exec (o : op) (db : StateDB) : StateDB :=
  match o with
  | OSetAccount a st => set_account a st db
  | OSetStorage a s v => set_storage a s v db
  | ODeploy code => snd (deploy_code code db)
  | ORefund n => add_refund n db
  | OSelfdestruct a => selfdestruct a db
  | OLog l => emit_log l db
  | OFrame ops reverts =>
    let db' := foldl (fun d o => exec o d) db ops in
    if reverts then revert_to (snapshot db) db' else db'
  end.
Definition exec_all (ops : list op) (db : StateDB) : StateDB := foldl (fun d o => exec o d) db ops.
End keccak.

Section op_ind.
Context (P : op -> Prop)
  (Hleaf : forall o, (forall ops r, o <> OFrame ops r) -> P o)
  (Hframe : forall ops r, Forall P ops -> P (OFrame ops r)).
Fixpoint op_ind_nested (o : op) : P o :=
  match o with
  | OFrame ops r => Hframe ops r
      ((fix go (l : list op) : Forall P l :=
          match l with [] => @List.Forall_nil _ P | o :: l => @List.Forall_cons _ P o l (op_ind_nested o) (go l) end) ops)
  | OSetAccount a st => Hleaf (OSetAccount a st) ltac:(done)
  | OSetStorage a s v => Hleaf (OSetStorage a s v) ltac:(done)
  | ODeploy c => Hleaf (ODeploy c) ltac:(done)
  | ORefund n => Hleaf (ORefund n) ltac:(done)
  | OSelfdestruct a => Hleaf (OSelfdestruct a) ltac:(done)
  | OLog l => Hleaf (OLog l) ltac:(done)
  end.
End op_ind.

(** ** set_account *)

(** The account the guards compare with. *)
Definition prior_of (addr : Address) (db : StateDB) : AccountState :=
  if bool_decide (addr ∈ to_delete db) then default_account else get_account addr db.

Lemma set_account_eq addr st db :
  set_account addr st db =
  set_dirty (<[addr := guarded (prior_of addr db) st]> (dirty_accounts db))
    (set_deleted (to_delete db ∖ {[addr]}) db).
Proof.
  unfold set_account, guarded. fold (prior_of addr db). set (prior := prior_of addr db).
  assert (forall x, put_dirty addr x (if bool_decide (addr ∈ to_delete db)
      then set_deleted (to_delete db ∖ {[addr]}) db else db) =
    set_dirty (<[addr := x]> (dirty_accounts db)) (set_deleted (to_delete db ∖ {[addr]}) db)) as Hput.
  { intros x. case_bool_decide as Hd; [done|]. unfold put_dirty, set_dirty, set_deleted. simpl.
    assert (to_delete db ∖ {[addr]} = to_delete db) as -> by (apply set_eq; set_solver). by destruct db. }
  rewrite !Hput. destruct (nonce st <? nonce prior); [done|]. destruct (is_contract prior); [|done]. simpl.
  destruct (decide (code_hash st = code_hash prior)) as [Hc|Hc].
  - rewrite bool_decide_eq_true_2 by done. rewrite <-Hc, set_code_hash_same.
    by destruct (bool_decide (code_hash st = EMPTY_CODE_HASH)).
  - rewrite (bool_decide_eq_false_2 _ Hc). by destruct (bool_decide (code_hash st = EMPTY_CODE_HASH)).
Qed.

Lemma get_set_account addr st db b :
  get_account b (set_account addr st db) =
  if decide (b = addr) then guarded (prior_of addr db) st else get_account b db.
Proof.
  rewrite set_account_eq. unfold get_account. simpl. case_decide as Hb.
  - subst. by rewrite lookup_insert_eq.
  - by rewrite lookup_insert_ne.
Qed.

(** [set_account] writes the account it is given, corrected where a guard is
    violated, and no other account: the nonce never goes back, the code of a
    contract is only kept or cleared, and a tombstone is lifted, the account
    then being judged as a fresh one. *)
Theorem set_account_guards addr st db :
  let db' := set_account addr st db in
  let prior := prior_of addr db in
  let now := get_account addr db' in
  (forall b, b <> addr -> get_account b db' = get_account b db) /\
  addr ∉ to_delete db' /\
  nonce now = Z.max (nonce prior) (nonce st) /\
  balance now = balance st /\ storage_root now = storage_root st /\ vm now = vm st /\
  (nonce prior <= nonce st -> code_hash now =
     if is_contract prior && is_contract st then code_hash prior else code_hash st) /\
  (nonce st < nonce prior -> code_hash now = code_hash st).
Proof.
  cbv zeta. rewrite get_set_account, decide_True by done.
  split_and!; [intros b Hb; by rewrite get_set_account, decide_False| |unfold guarded..].
  - rewrite set_account_eq. simpl. set_solver.
  - destruct (Z.ltb_spec (nonce st) (nonce (prior_of addr db))); [simpl; lia|]. case_match; simpl; lia.
  - by repeat case_match.
  - by repeat case_match.
  - by repeat case_match.
  - intros Hn. rewrite (proj2 (Z.ltb_ge _ _)) by done. unfold is_contract at 3, is_eoa. by case_match.
  - intros Hn. by rewrite (proj2 (Z.ltb_lt _ _)).
Qed.

(** ** Reverts *)

Definition log_prefix (db db' : StateDB) : Prop :=
  base_accounts db' = base_accounts db /\ exists l, logs db' = logs db ++ l.

Section reverts.
Context (keccak : bytes -> H256).

Lemma log_prefix_trans a b c : log_prefix a b -> log_prefix b c -> log_prefix a c.
Proof.
  intros [Hb [l Hl]] [Hb' [l' Hl']]. split; [congruence|]. exists (l ++ l').
  by rewrite Hl', Hl, app_assoc.
Qed.
Lemma log_prefix_same a b : base_accounts b = base_accounts a -> logs b = logs a -> log_prefix a b.
Proof. split; [done|]. exists []. by rewrite app_nil_r. Qed.

(** A frame that reverts leaves the state as it was, but for the code cache. *)
Lemma revert_frame db db' : log_prefix db db' -> revert_to (snapshot db) db' = set_codes (code_cache db') db.
Proof.
  intros [Hb [l Hl]]. unfold revert_to, snapshot, set_codes. simpl. rewrite Hb, Hl, take_app_length. done.
Qed.

Lemma exec_log_prefix o db : log_prefix db (exec keccak o db).
Proof.
  revert db. induction o as [o Ho|ops r IH] using op_ind_nested; intros db.
  - destruct o; try (by apply log_prefix_same).
    + apply log_prefix_same; simpl; by rewrite set_account_eq.
    + split; [done|]. by exists [l].
    + by destruct (Ho ops reverts).
  - simpl. assert (log_prefix db (foldl (fun d o => exec keccak o d) db ops)) as H.
    { clear r. revert db. induction IH as [|o ops Ho _ IHl]; intros db; [by apply log_prefix_same|].
      simpl. eapply log_prefix_trans; [apply Ho|apply IHl]. }
    destruct r; [|done]. rewrite revert_frame by done. by apply log_prefix_same.
Qed.

Lemma exec_all_log_prefix ops db : log_prefix db (exec_all keccak ops db).
Proof.
  revert db. induction ops as [|o ops IH]; intros db; [by apply log_prefix_same|].
  eapply log_prefix_trans; [apply exec_log_prefix|apply IH].
Qed.

(** Codes are stored under their hash, and no two known codes collide. *)
Context (Dom : bytes -> Prop) `{HC : !CollisionFree keccak Dom}.
Definition codes_ok (db : StateDB) : Prop :=
  forall h c, code_cache db !! h = Some c -> keccak c = h /\ Dom c.
Definition codes_grow (db db' : StateDB) : Prop := codes_ok db' /\ code_cache db ⊆ code_cache db'.

Fixpoint deploys_known (o : op) : Prop :=
  match o with
  | ODeploy c => Dom c
  | OFrame ops _ => (fix go l := match l with [] => True | o :: l => deploys_known o /\ go l end) ops
  | _ => True
  end.

Lemma codes_grow_same db db' : codes_ok db -> code_cache db' = code_cache db -> codes_grow db db'.
Proof. intros Hc He. split; [unfold codes_ok; by rewrite He|by rewrite He]. Qed.

Lemma deploy_grows c db : codes_ok db -> Dom c -> codes_grow db (snd (deploy_code keccak c db)).
Proof.
  intros Hc Hd. split; simpl.
  - intros h c'. simpl. rewrite lookup_insert_Some. intros [[<- <-]|[_ Hl]]; [done|by apply Hc].
  - apply map_subseteq_spec. intros h c' Hh. rewrite lookup_insert_Some.
    destruct (decide (keccak c = h)) as [<-|Hne]; [|by right]. left. split; [done|].
    destruct (Hc _ _ Hh) as [Hk Hd']. by apply (keccak_inj (Dom := Dom)).
Qed.

Lemma exec_grows o db : codes_ok db -> deploys_known o -> codes_grow db (exec keccak o db).
Proof.
  revert db. induction o as [o Ho|ops r IH] using op_ind_nested; intros db Hc Hd.
  - destruct o; try (by apply codes_grow_same); simpl in Hd.
    + apply codes_grow_same; [done|]. simpl. by rewrite set_account_eq.
    + by apply deploy_grows.
    + by destruct (Ho ops reverts).
  - simpl. assert (codes_grow db (foldl (fun d o => exec keccak o d) db ops)) as [H1 H2].
    { simpl in Hd. clear r. revert Hd db Hc. induction IH as [|o ops Ho _ IHl]; intros Hd db Hc;
        [by apply codes_grow_same|]. destruct Hd as [Hd1 Hd2]. destruct (Ho db Hc Hd1) as [Hc1 Hs1].
      destruct (IHl Hd2 _ Hc1) as [Hc2 Hs2]. split; [done|by etrans]. }
    by destruct r.
Qed.

Lemma deploys_known_all ops b : Forall deploys_known ops -> deploys_known (OFrame ops b).
Proof. induction 1; by split. Qed.

(** C38. Reverting a call frame, whatever nested frames it ran, restores the state
    it started from: accounts, storage, tombstones, logs, refunds and the state
    root; the code of every known hash is still there. *)
Theorem frame_reverted ops L db : codes_ok db -> Forall deploys_known ops ->
  let db' := exec keccak (OFrame ops true) db in
  (forall a, get_account a db' = get_account a db) /\
  (forall a s, get_storage a s db' = get_storage a s db) /\
  to_delete db' = to_delete db /\ logs db' = logs db /\ refund db' = refund db /\
  state_root keccak L db' = state_root keccak L db /\
  (forall h c, code_cache db !! h = Some c -> get_code h db' = c) /\
  snapshot db' = snapshot db.
Proof.
  intros Hc Hd db'. pose proof (exec_grows (OFrame ops true) db Hc (deploys_known_all ops true Hd)) as [_ Hsub].
  assert (db' = set_codes (code_cache (exec_all keccak ops db)) db) as He.
  { apply revert_frame, exec_all_log_prefix. }
  fold db' in Hsub. rewrite He in Hsub |- *. split_and!; try done.
  intros h c Hh. unfold get_code. by rewrite (lookup_weaken _ _ _ _ Hh Hsub).
Qed.
End reverts.

(** ** The state root *)

Lemma visible_with_db_eq db :
  visible_with_db db = visible_accounts (base_accounts db) (dirty_accounts db) (to_delete db).
Proof. apply keep_folds. Qed.

Section roots.
Context (keccak : bytes -> H256) `{HK : !Hash256 keccak}.
Context (Dom : bytes -> Prop) `{HC : !CollisionFree keccak Dom}.

Definition visible (db : StateDB) : gmap Address AccountState :=
  visible_accounts (base_accounts db) (dirty_accounts db) (to_delete db).

(** The accounts the root commits to: those that are visible and not empty, an
    account with cached slots with the root of these slots. *)
Definition world (L : Listing) (db : StateDB) : gmap Address AccountState :=
  leaves (fun slots _ => compute_storage_root keccak slots) (listed_storage L (storage_cache db)) (visible db).
Definition db_known (L : Listing) (db : StateDB) : Prop :=
  state_known keccak Dom (list_accounts L (visible db)) (listed_storage L (storage_cache db)) (visible db).

Lemma lists_inj {V} (l : list (list Z * V)) m m' : lists l m -> lists l m' -> m = m'.
Proof. unfold lists. intros H1 H2. apply map_to_list_inj. by rewrite <-H1, <-H2. Qed.

Lemma world_order L1 L2 `{!Lists L1, !Lists L2} db1 db2 : db_known L1 db1 -> db_known L2 db2 ->
  visible db1 = visible db2 -> storage_cache db1 = storage_cache db2 -> world L1 db1 = world L2 db2.
Proof.
  intros K1 K2 Hv Hs. unfold world, leaves. rewrite <-Hv. apply map_eq. intros a.
  rewrite !map_lookup_imap. destruct (visible db1 !! a) as [st|]; [|done]. simpl.
  pose proof (state_slots _ _ _ _ _ K1 a) as S1. pose proof (state_slots _ _ _ _ _ K2 a) as S2.
  unfold committed, listed_storage in *. rewrite !map_lookup_imap in *. rewrite <-Hs in *.
  destruct (storage_cache db1 !! a) as [m|] eqn:Hm; [|done]. simpl in *.
  destruct (S1 _ eq_refl) as [m1 H1], (S2 _ eq_refl) as [m2 H2].
  assert (m1 = m) as -> by (eapply lists_inj; [apply H1|apply list_slots_ok]).
  assert (m2 = m) as -> by (eapply lists_inj; [apply H2|apply list_slots_ok]).
  assert (list_slots L1 a m ≡ₚ list_slots L2 a m) as Hp by (by rewrite (slots_listed _ _ _ _ H1), (slots_listed _ _ _ _ H2)).
  destruct (storage_root_spec keccak Dom _ _ H1) as (t1 & E1 & D1), (storage_root_spec keccak Dom _ _ H2) as (t2 & E2 & D2).
  rewrite (proj2 (denotes_root keccak Dom t1 t2 _ _ D1 D2) eq_refl) in E1.
  pose proof (Permutation_length Hp).
  destruct (list_slots L1 a m) as [|x l], (list_slots L2 a m) as [|y k]; [done..|]. by rewrite E1, E2.
Qed.

(** ** The root over a database *)

Context {DB : Type} `{DBI : TrieDB DB}.

Lemma overlay_nothing m : keys_in Dom m ->
  overlay (hash_keys keccak (storage_update <$> m)) ∅ = hash_keys keccak (nonzero_leaves m).
Proof.
  intros Hd. apply map_eq. intros h. rewrite overlay_lookup, lookup_empty.
  pose proof (keys_in_fmap Dom storage_update m Hd) as Hd1. pose proof (keys_in_nonzero Dom m Hd) as Hd2.
  assert (forall k, nonzero_leaves m !! k = mjoin ((storage_update <$> m) !! k)) as Hnz.
  { intros k. unfold nonzero_leaves. rewrite map_lookup_imap, lookup_fmap. by destruct (m !! k). }
  apply option_eq. intros b. destruct (hash_keys keccak (storage_update <$> m) !! h) as [o|] eqn:Ho.
  - apply (hash_keys_lookup keccak Dom) in Ho as (k & Hk & <-); [|done].
    rewrite (hash_keys_at keccak Dom), Hnz, Hk; [done|done|]. apply Hd1. by rewrite Hk.
  - split; [done|]. intros Hb. apply (hash_keys_lookup keccak Dom) in Hb as (k & Hk & <-); [|done].
    rewrite (hash_keys_at keccak Dom) in Ho; [|done|by apply Hd2; eexists]. by rewrite Hnz, Ho in Hk.
Qed.

Lemma good_denotes_new (d : DB) : good keccak Dom (trie_new d) -> denotes keccak Dom (trie_new d) ∅.
Proof.
  intros Hg. split; [done|]. exists None. split; [by split_and!|].
  intros q v. split; [done|]. intros (k & _ & Hk). by rewrite lookup_empty in Hk.
Qed.

(** The database variant's encodings are in [Dom]. *)
Record with_db_known (L : Listing) (db : StateDB) (d : DB) : Prop := mkWithDbKnown {
  wdb_good : good keccak Dom (trie_new d);
  wdb_storage : forall a m, storage_cache db !! a = Some m -> slots_known keccak Dom (list_slots L a m) m /\
    Forall Dom (written (snd (for_each (storage_step_db keccak) (list_slots L a m) (from_root EMPTY_ROOT d))));
  wdb_nodes : Forall Dom (written (snd (for_each (account_step keccak (listed_storage L (storage_cache db))
    (fun slots prev => compute_storage_root_with_db keccak slots prev d) id)
    (list_accounts L (visible db)) (trie_new d)))) }.

(** No account with cached slots had storage before. *)
Definition fresh_storage (db : StateDB) : Prop := forall a st m,
  visible db !! a = Some st -> storage_cache db !! a = Some m -> storage_root st = EMPTY_ROOT.

Lemma fresh_root L db d a m : with_db_known L db d -> storage_cache db !! a = Some m ->
  compute_storage_root_with_db keccak (list_slots L a m) EMPTY_ROOT d =
  compute_storage_root keccak (list_slots L a m) /\
  exists r, compute_storage_root keccak (list_slots L a m) = Ok r /\ hash_ok r.
Proof.
  intros K Hm. destruct (wdb_storage _ _ _ K a m Hm) as [Hk Hw].
  destruct (storage_root_spec keccak Dom _ _ Hk) as (t & E & D). destruct Hk as [Hl Ht Hd _].
  destruct (storage_root_with_db keccak Dom (list_slots L a m) m EMPTY_ROOT d ∅) as (t' & E' & D');
    [done..|apply good_denotes_new; by eapply wdb_good|done|].
  rewrite overlay_nothing in D' by done. rewrite E', E. split.
  - f_equal. by apply (denotes_same_root keccak Dom t' t _ D' D).
  - eexists. split; [done|]. by eapply denotes_root_ok.
Qed.

(** On a database the state root is the in-memory one when no account with
    cached slots had storage before, whatever nodes the database holds. *)
Theorem state_roots_agree L db d : db_known L db -> with_db_known L db d -> fresh_storage db ->
  state_root_with_db keccak L db d = state_root keccak L db.
Proof.
  intros K Kd Hf. destruct (state_root_spec keccak Dom _ _ _ K) as (t & E & D).
  set (wroot := fun slots prev => compute_storage_root_with_db keccak slots prev d).
  assert (forall a st sl, visible db !! a = Some st -> listed_storage L (storage_cache db) !! a = Some sl ->
    exists m, sl = list_slots L a m /\ storage_cache db !! a = Some m /\ storage_root st = EMPTY_ROOT) as Hsl.
  { intros a st sl Ha Hs. unfold listed_storage in Hs. rewrite map_lookup_imap in Hs.
    apply bind_Some in Hs as (m & Hm & [= <-]). exists m. split_and!; [done..|by eapply Hf]. }
  destruct (state_trie keccak Dom wroot id (listed_storage L (storage_cache db)) (list_accounts L (visible db))
    (visible db) d) as (t' & E' & D'); [done|apply K|apply K|apply K| |apply good_denotes_new, Kd|apply Kd|].
  { intros a st sl Ha Hs _. destruct (Hsl a st sl Ha Hs) as (m & -> & Hm & ->). unfold wroot.
    destruct (fresh_root L db d a m Kd Hm) as [-> Hr]. exact Hr. }
  unfold state_root_with_db, compute_state_root_with_db. rewrite visible_with_db_eq. fold (visible db).
  unfold wroot in E'. rewrite E'. unfold state_root, compute_state_root_filtered. fold (visible db).
  fold (listed_storage L (storage_cache db)). rewrite E. f_equal. apply (denotes_same_root keccak Dom t' t _ D').
  replace (leaves wroot _ _) with (world L db); [exact D|]. apply map_eq. intros a.
  unfold world, leaves. rewrite !map_lookup_imap.
  destruct (visible db !! a) as [st|] eqn:Ha; [|done]. simpl. unfold committed.
  destruct (listed_storage L (storage_cache db) !! a) as [[|x l]|] eqn:Hs; [done| |done].
  destruct (Hsl a st _ Ha Hs) as (m & Hx & Hm & Hr). rewrite Hx, Hr. unfold wroot.
  by destruct (fresh_root L db d a m Kd Hm) as [-> _].
Qed.
End roots.
