(* ===== verification/StateView.v ===== *)
(** * The executor's view of the state (crates/zbx-execution/src/executor.rs, state_diff.rs)

    [StateView] reads the accounts of the parent block and accumulates the
    changes of the block in a [StateDiff].  It implements one map of visible
    accounts: tombstones hide, a write lifts them.  The release build's
    [set_account] corrects a violated guard. *)

From Stdlib Require Import ZArith Lia.
From stdpp Require Import base tactics list gmap numbers option fin_maps.
From S2P Require Import Prelude Bytes Rlp Nibbles TrieNode Trie TrieRepr TrieCorrect Account StateMpt Receipt.

Set Warnings "-register-all".
Local Open Scope Z_scope.

(** ** StateDiff *)

Record StateDiff : Type := mkStateDiff {
  diff_accounts : gmap Address AccountState;
  diff_storage : gmap Address (gmap H256 H256);
  new_code : gmap H256 bytes;
  deleted : list Address;
  diff_logs : list Log }.

Definition diff_new : StateDiff := mkStateDiff ∅ ∅ ∅ [] [].

Definition diff_set_account (addr : Address) (st : AccountState) (d : StateDiff) : StateDiff :=
  mkStateDiff (<[addr := st]> (diff_accounts d)) (diff_storage d) (new_code d) (deleted d) (diff_logs d).
Definition diff_set_storage (addr : Address) (slot value : H256) (d : StateDiff) : StateDiff :=
  mkStateDiff (diff_accounts d) (<[addr := <[slot := value]> (default ∅ (diff_storage d !! addr))]> (diff_storage d))
    (new_code d) (deleted d) (diff_logs d).
Definition add_code (h : H256) (code : bytes) (d : StateDiff) : StateDiff :=
  mkStateDiff (diff_accounts d) (diff_storage d) (<[h := code]> (new_code d)) (deleted d) (diff_logs d).
Definition delete_account (addr : Address) (d : StateDiff) : StateDiff :=
  mkStateDiff (base.delete addr (diff_accounts d)) (diff_storage d) (new_code d) (deleted d ++ [addr]) (diff_logs d).
Definition diff_emit_log (l : Log) (d : StateDiff) : StateDiff :=
  mkStateDiff (diff_accounts d) (diff_storage d) (new_code d) (deleted d) (diff_logs d ++ [l]).

(** [entry(addr).or_default().extend(slots)] for every address of the other map. *)
Definition extend_storage (m other : gmap Address (gmap H256 H256)) : gmap Address (gmap H256 H256) :=
  union_with (fun mine theirs => Some (theirs ∪ mine)) m other.

(** The other diff takes precedence. *)
Definition merge (d other : StateDiff) : StateDiff :=
  mkStateDiff (diff_accounts other ∪ diff_accounts d) (extend_storage (diff_storage d) (diff_storage other))
    (new_code other ∪ new_code d) (deleted d ++ deleted other) (diff_logs d ++ diff_logs other).

Definition diff_is_empty (d : StateDiff) : bool :=
  bool_decide (diff_accounts d = ∅) && bool_decide (diff_storage d = ∅) && bool_decide (new_code d = ∅) &&
  bool_decide (deleted d = []).

(** ** StateView *)

Record StateView : Type := mkView {
  view_base : gmap Address AccountState;
  codes : gmap H256 bytes;
  diffs : StateDiff;
  view_deleted : gset Address }.

Definition view_new : StateView := mkView ∅ ∅ diff_new ∅.

Definition set_diffs (d : StateDiff) (v : StateView) : StateView := mkView (view_base v) (codes v) d (view_deleted v).
Definition set_tombs (s : gset Address) (v : StateView) : StateView := mkView (view_base v) (codes v) (diffs v) s.

Definition selfdestruct (addr : Address) (v : StateView) : StateView :=
  let d := diffs v in
  set_tombs ({[addr]} ∪ view_deleted v)
    (set_diffs (mkStateDiff (base.delete addr (diff_accounts d)) (base.delete addr (diff_storage d)) (new_code d)
       (deleted d ++ [addr]) (diff_logs d)) v).

Definition is_deleted (addr : Address) (v : StateView) : bool := bool_decide (addr ∈ view_deleted v).

Definition seed_account (addr : Address) (st : AccountState) (v : StateView) : StateView :=
  mkView (<[addr := st]> (view_base v)) (codes v) (diffs v) (view_deleted v).
Definition seed_code (h : H256) (code : bytes) (v : StateView) : StateView :=
  mkView (view_base v) (<[h := code]> (codes v)) (diffs v) (view_deleted v).

Definition get_account (addr : Address) (v : StateView) : AccountState :=
  if bool_decide (addr ∈ view_deleted v) then default_account
  else match diff_accounts (diffs v) !! addr with
       | Some st => st
       | None => default default_account (view_base v !! addr)
       end.

Definition get_code (addr : Address) (v : StateView) : bytes :=
  let acct := get_account addr v in
  if negb (is_contract acct) then [] else default [] (codes v !! code_hash acct).

Definition put (addr : Address) (st : AccountState) (v : StateView) : StateView :=
  set_diffs (diff_set_account addr st (diffs v)) v.

(** [self.diffs.deleted.retain(|a| a != &addr)] *)
Definition retain_deleted (addr : Address) (d : StateDiff) : StateDiff :=
  mkStateDiff (diff_accounts d) (diff_storage d) (new_code d) (filter (fun a => a <> addr) (deleted d)) (diff_logs d).

Definition set_account (addr : Address) (state : AccountState) (v : StateView) : StateView :=
  if bool_decide (addr ∈ view_deleted v) then
    let v := set_tombs (view_deleted v ∖ {[addr]}) v in
    put addr state (set_diffs (retain_deleted addr (diffs v)) v)
  else
    let prior := match diff_accounts (diffs v) !! addr with
                 | Some st => st
                 | None => default default_account (view_base v !! addr)
                 end in
    if nonce state <? nonce prior then put addr (set_nonce (nonce prior) state) v
    else
      let prior_is_contract := negb (bool_decide (code_hash prior = EMPTY_CODE_HASH)) in
      if negb prior_is_contract then put addr state v
      else if bool_decide (code_hash state = code_hash prior) then put addr state v
      else if bool_decide (code_hash state = EMPTY_CODE_HASH) then put addr state v
      else put addr (set_code_hash (code_hash prior) state) v.

Definition get_storage (addr : Address) (slot : H256) (v : StateView) : H256 :=
  default zero_h256 (diff_storage (diffs v) !! addr ≫= fun m => m !! slot).
Definition set_storage (addr : Address) (slot value : H256) (v : StateView) : StateView :=
  set_diffs (diff_set_storage addr slot value (diffs v)) v.
Definition emit_log (l : Log) (v : StateView) : StateView := set_diffs (diff_emit_log l (diffs v)) v.
Definition into_diff (v : StateView) : StateDiff := diffs v.

Section keccak.
Context (keccak : bytes -> H256).

Definition state_root (L : Listing) (v : StateView) : res TrieError H256 :=
  compute_state_root_filtered keccak L (view_base v) (diff_accounts (diffs v)) (diff_storage (diffs v)) (view_deleted v).

(** The two loops that fill the visible set, tombstones left out. *)
Definition visible_with_db (v : StateView) : gmap Address AccountState :=
  let keep a st m := if bool_decide (a ∈ view_deleted v) then m else <[a := st]> m in
  map_fold keep (map_fold keep ∅ (view_base v)) (diff_accounts (diffs v)).

Definition state_root_with_db {DB} `{TrieDB DB} (L : Listing) (v : StateView) (d : DB) : res TrieError H256 :=
  compute_state_root_with_db keccak (list_accounts L (visible_with_db v))
    (map_imap (fun a m => Some (list_slots L a m)) (diff_storage (diffs v))) d.
End keccak.

(** ** Merging diffs *)

#[export] Instance merge_empty_l : LeftId (=) diff_new merge.
Proof. intros [a s c d l]. unfold merge, extend_storage, diff_new. simpl. f_equal; try apply (right_id_L ∅ (∪)). apply (left_id_L ∅ _). Qed.
#[export] Instance merge_empty_r : RightId (=) diff_new merge.
Proof. intros [a s c d l]. unfold merge, extend_storage, diff_new. simpl. f_equal; try apply (left_id_L ∅ (∪)); try apply app_nil_r. apply (right_id_L ∅ _). Qed.
#[export] Instance merge_assoc : Assoc (=) merge.
Proof.
  intros [a1 s1 c1 d1 l1] [a2 s2 c2 d2 l2] [a3 s3 c3 d3 l3]. unfold merge. simpl.
  f_equal; [by rewrite (assoc_L (∪))| |by rewrite (assoc_L (∪))|by rewrite app_assoc|by rewrite app_assoc].
  unfold extend_storage. apply map_eq. intros k. rewrite !lookup_union_with.
  destruct (s1 !! k), (s2 !! k), (s3 !! k); simpl; try done. by rewrite (assoc_L (∪)).
Qed.

(** ** One map of accounts *)

Definition visible (v : StateView) : gmap Address AccountState :=
  visible_accounts (view_base v) (diff_accounts (diffs v)) (view_deleted v).
Definition at_ (m : gmap Address AccountState) (a : Address) : AccountState := default default_account (m !! a).

Lemma visible_at v a : visible v !! a =
  if bool_decide (a ∈ view_deleted v) then None else diff_accounts (diffs v) !! a ∪ view_base v !! a.
Proof.
  unfold visible. rewrite visible_lookup. repeat case_match; try (by bool_to_prop); destruct (diff_accounts _ !! a), (view_base v !! a); done.
Qed.

Lemma get_visible a v : get_account a v = at_ (visible v) a.
Proof.
  unfold at_, get_account. rewrite visible_at. case_bool_decide; [done|]. by destruct (diff_accounts (diffs v) !! a), (view_base v !! a).
Qed.

Lemma set_visible a st v : 0 <= nonce st ->
  visible (set_account a st v) = <[a := guarded (get_account a v) st]> (visible v).
Proof.
  intros Hn. apply map_eq. intros b. rewrite visible_at. unfold set_account.
  unfold get_account. destruct (bool_decide (a ∈ view_deleted v)) eqn:Hd;
    [apply bool_decide_eq_true_1 in Hd|apply bool_decide_eq_false_1 in Hd].
  - rewrite guarded_fresh by done. simpl. destruct (decide (a = b)) as [<-|Hne].
    + rewrite !lookup_insert_eq, bool_decide_eq_false_2 by set_solver. by destruct (view_base v !! a).
    + rewrite !lookup_insert_ne, visible_at by done. by rewrite (bool_decide_ext (b ∈ view_deleted v ∖ {[a]}) (b ∈ view_deleted v)) by set_solver.
  - set (prior := match diff_accounts (diffs v) !! a with Some st => st | None => _ end).
    assert (forall x, (if bool_decide (b ∈ view_deleted (put a x v)) then None
        else diff_accounts (diffs (put a x v)) !! b ∪ view_base (put a x v) !! b) = <[a := x]> (visible v) !! b) as Hput.
    { intros x. simpl. destruct (decide (a = b)) as [<-|Hne].
      - rewrite !lookup_insert_eq, bool_decide_eq_false_2 by done. by destruct (view_base v !! a).
      - by rewrite !lookup_insert_ne, visible_at by done. }
    unfold guarded, is_contract, is_eoa. destruct (nonce st <? nonce prior); [apply Hput|].
    destruct (bool_decide (code_hash prior = EMPTY_CODE_HASH)); [apply Hput|]. simpl.
    destruct (decide (code_hash st = code_hash prior)) as [Hc|Hc].
    + rewrite (bool_decide_eq_true_2 (code_hash st = code_hash prior)) by done. rewrite <-Hc, set_code_hash_same. destruct (bool_decide (code_hash st = EMPTY_CODE_HASH)); apply Hput.
    + rewrite (bool_decide_eq_false_2 _ Hc). destruct (bool_decide (code_hash st = EMPTY_CODE_HASH)); apply Hput.
Qed.

Lemma selfdestruct_visible a v : visible (selfdestruct a v) = base.delete a (visible v).
Proof.
  apply map_eq. intros b. rewrite visible_at. simpl. destruct (decide (a = b)) as [<-|Hne].
  - by rewrite !lookup_delete_eq, bool_decide_eq_true_2 by set_solver.
  - rewrite !lookup_delete_ne, visible_at by done. by rewrite (bool_decide_ext (b ∈ {[a]} ∪ view_deleted v) (b ∈ view_deleted v)) by set_solver.
Qed.

(** C36. The view is one map of accounts: reads look it up, a write inserts the
    account the guards allow, a self-destruct removes it, and both state roots
    are taken over it. *)
Theorem view_refines a b st v : 0 <= nonce st ->
  get_account a v = at_ (visible v) a /\
  get_account b (set_account a st v) = (if decide (b = a) then guarded (get_account a v) st else get_account b v) /\
  visible (set_account a st v) = <[a := guarded (get_account a v) st]> (visible v) /\
  visible (selfdestruct a v) = base.delete a (visible v) /\
  get_account a (selfdestruct a v) = default_account /\
  visible_with_db v = visible v /\
  (forall keccak L, state_root keccak L v =
     compute_state_root keccak (list_accounts L (visible v)) (map_imap (fun a m => Some (list_slots L a m)) (diff_storage (diffs v)))).
Proof.
  intros Hn. split_and!; [apply get_visible| |by apply set_visible|apply selfdestruct_visible| |apply keep_folds|done].
  - rewrite (get_visible b), set_visible, (get_visible b) by done. unfold at_.
    case_decide as Hb; [by rewrite Hb, lookup_insert_eq|by rewrite lookup_insert_ne].
  - rewrite get_visible, selfdestruct_visible. unfold at_. by rewrite lookup_delete_eq.
Qed.
