(* ===== verification/StateExample.v ===== *)
(** * Concrete world states

    Two accounts with storage, listed in two orders, on the small hash function
    of TrieExample.v: the theorems of StateMpt.v and StateDB.v
    are applied to them, and what the code does at its edges is evaluated.

    Below: concrete receipts and lists of header transactions. *)

From Stdlib Require Import ZArith Lia.
From stdpp Require Import base tactics list gmap numbers option fin_maps.
From S2P Require Import Prelude Bytes Rlp TrieNode Trie TrieRepr TrieCorrect TrieExample Account StateMpt Receipt StateDB Nibbles MptRoot.

Local Open Scope Z_scope.

(** ** Two iteration orders *)

Definition forward : Listing := mkListing (fun m => map_to_list m) (fun _ m => map_to_list m).
Definition backward : Listing := mkListing (fun m => reverse (map_to_list m)) (fun _ m => reverse (map_to_list m)).
#[export] Instance forward_lists : Lists forward.
Proof. split; intros; unfold lists; simpl; reflexivity. Qed.
#[export] Instance backward_lists : Lists backward.
Proof. split; intros; unfold lists; simpl; apply reverse_Permutation. Qed.

(** ** A state: a contract with two slots, one of them cleared, and an EOA *)

Definition alice : StateMpt.Address := replicate 20 1.
Definition vault : StateMpt.Address := replicate 20 2.
Definition slot_a : H256 := to_be 32 1.
Definition slot_b : H256 := to_be 32 2.
Definition slot_c : H256 := to_be 32 3.
Definition code_1 : bytes := [96; 0].

Definition slots_1 : gmap H256 H256 := <[slot_a := to_be 32 77]> (<[slot_b := to_be 32 (2 ^ 200)]> (<[slot_c := zero_h256]> ∅)).
Definition slots_2 : gmap H256 H256 := <[slot_b := to_be 32 (2 ^ 200)]> (<[slot_a := to_be 32 77]> ∅).

Definition vault_account : AccountState := mkAccount 1 0 (toy code_1) EMPTY_STORAGE_ROOT Evm.
Definition db_0 : StateDB :=
  set_storage vault slot_a (to_be 32 77) (set_storage vault slot_b (to_be 32 (2 ^ 200))
    (set_account vault vault_account (snd (deploy_code toy code_1
      (seed_account alice (mkAccount 3 1000 EMPTY_CODE_HASH EMPTY_STORAGE_ROOT Evm) state_new))))).
(** The same world with a slot written and cleared again. *)
Definition db_1 : StateDB := set_storage vault slot_c zero_h256 db_0.

(** ** The hashed byte strings *)

Abbreviation E0 := (trie_new (∅ : MemoryTrieDB)).
Definition storage_nodes (l : list (H256 * H256)) : list bytes :=
  written (snd (for_each (storage_step toy) l E0)).
Definition storage_nodes_db (l : list (H256 * H256)) (r : H256) (d : MemoryTrieDB) : list bytes :=
  written (snd (for_each (storage_step_db toy) l (from_root r d))).
Definition state_nodes (L : Listing) (db : StateDB) : list bytes :=
  written (snd (for_each (account_step toy (listed_storage L (storage_cache db))
    (fun slots _ => compute_storage_root toy slots) expect) (list_accounts L (visible db)) E0)).
Definition state_nodes_db (L : Listing) (db : StateDB) : list bytes :=
  written (snd (for_each (account_step toy (listed_storage L (storage_cache db))
    (fun slots prev => compute_storage_root_with_db toy slots prev ∅) id) (list_accounts L (visible db)) E0)).

(** A stored trie with [slot_b] and [slot_c], and an update of it. *)
Abbreviation put t slot n := (snd (Trie.insert toy (toy slot) (storage_leaf (to_be 32 n)) t)).
Definition T_prev : MutableTrie := put (put E0 slot_b 5) slot_c 9.
Definition d_prev : MemoryTrieDB := db (snd (commit T_prev)).
Definition slots_3 : gmap H256 H256 := <[slot_a := to_be 32 77]> (<[slot_c := zero_h256]> ∅).
Definition T_after : MutableTrie := put (put E0 slot_b 5) slot_a 77.

Definition known : list bytes := Eval vm_compute in remove_dups (
  [alice; vault; slot_a; slot_b; slot_c; code_1] ++
  storage_nodes (map_to_list slots_1) ++ storage_nodes (map_to_list slots_2) ++
  storage_nodes (reverse (map_to_list slots_2)) ++
  state_nodes forward db_0 ++ state_nodes backward db_0 ++ state_nodes backward db_1 ++
  storage_nodes (reverse (map_to_list (default ∅ (storage_cache db_1 !! vault)))) ++
  state_nodes_db forward db_0 ++
  storage_nodes_db (map_to_list slots_2) EMPTY_ROOT ∅ ++
  written T_prev ++ written T_after ++ storage_nodes_db (map_to_list slots_3) (root T_prev) d_prev).
Definition Known (e : bytes) : Prop := e ∈ known.

Lemma known_distinct : bool_decide (NoDup (toy <$> known) /\ EMPTY_ROOT ∉ toy <$> known) = true.
Proof. vm_compute. reflexivity. Qed.

#[export] Instance known_free : CollisionFree toy Known.
Proof. exact (toy_list_free known known_distinct). Qed.

Definition all_known (l : list bytes) : bool := forallb (fun e => bool_decide (e ∈ known)) l.
Lemma known_check l : all_known l = true -> Forall Known l.
Proof.
  unfold all_known. rewrite forallb_forall. intros H. apply List.Forall_forall. intros e He.
  apply H in He. by apply bool_decide_eq_true in He.
Qed.

Definition hash_check (h : H256) : bool := (length h =? 32)%nat && forallb (fun x => (0 <=? x) && (x <? 256)) h.
Lemma hash_check_ok h : hash_check h = true -> hash_ok h.
Proof. unfold hash_check. intros [H1 H2]%andb_prop. split; [by apply Nat.eqb_eq|by apply byte_list]. Qed.

Lemma slots_check m : forallb (fun kv => hash_check kv.2) (map_to_list m) = true -> slots_ok m.
Proof.
  rewrite forallb_forall. intros H k v Hk. apply hash_check_ok. apply (H (k, v)).
  by apply list_elem_of_In, elem_of_map_to_list.
Qed.

Lemma keys_check {B} (m : gmap (list Z) B) : all_known (map_to_list m).*1 = true -> keys_in Known m.
Proof.
  intros H%known_check k [b Hb]. eapply (proj1 (List.Forall_forall _ _) H). apply list_elem_of_In.
  apply list_elem_of_fmap. exists (k, b). split; [done|]. by apply elem_of_map_to_list.
Qed.

Definition account_check (a : AccountState) : bool :=
  (0 <=? nonce a) && (nonce a <? 2 ^ 64) && (0 <=? balance a) && (balance a <? 2 ^ 256) &&
  hash_check (code_hash a) && hash_check (storage_root a).
Lemma account_check_ok a : account_check a = true -> account_ok a.
Proof.
  unfold account_check. rewrite !andb_true_iff. intros (((((? & ?) & ?) & ?) & ?) & ?). bool_to_prop.
  split; [unfold in_range; lia..|by apply hash_check_ok|by apply hash_check_ok].
Qed.

Lemma slots_known_check l m : lists l m -> forallb (fun kv => hash_check kv.2) (map_to_list m) = true ->
  all_known (map_to_list m).*1 = true -> all_known (storage_nodes l) = true -> slots_known toy Known l m.
Proof. split; [done|by apply slots_check|by apply keys_check|by apply known_check]. Qed.

Lemma listed_self {K V} `{Countable K} (m : gmap K V) : lists (map_to_list m) m.
Proof. unfold lists. reflexivity. Qed.

Lemma slots_1_known : slots_known toy Known (map_to_list slots_1) slots_1.
Proof. apply slots_known_check; [apply listed_self|vm_compute; reflexivity..]. Qed.
Lemma slots_2_known : slots_known toy Known (map_to_list slots_2) slots_2.
Proof. apply slots_known_check; [apply listed_self|vm_compute; reflexivity..]. Qed.

(** A slot cleared to zero does not count. *)
Lemma storage_root_commits_witness : exists r,
  compute_storage_root toy (map_to_list slots_1) = Ok r /\ compute_storage_root toy (map_to_list slots_2) = Ok r.
Proof.
  destruct (storage_root_commits toy Known (map_to_list slots_1) (map_to_list slots_2) slots_1 slots_2
    slots_1_known slots_2_known) as (r1 & r2 & E1 & E2 & Heq).
  exists r1. split; [exact E1|]. rewrite E2. f_equal. symmetry. apply Heq. vm_compute. reflexivity.
Defined.

(** [slot_c] is removed from the stored trie, [slot_a] added. *)
Abbreviation leaf n := (storage_leaf (to_be 32 n)).
Definition m_prev : gmap bytes bytes := <[toy slot_c := leaf 9]> (<[toy slot_b := leaf 5]> ∅).
Definition m_after : gmap bytes bytes := <[toy slot_a := leaf 77]> (<[toy slot_b := leaf 5]> ∅).

Lemma put_denotes (t : MutableTrie (DB := MemoryTrieDB)) m slot n : denotes toy Known t m ->
  all_known (written (put t slot n)) = true ->
  denotes toy Known (put t slot n) (<[toy slot := leaf n]> m).
Proof.
  intros Ht Hw. apply (denotes_insert toy Known t m); [done|exact (hashed_key_ok toy slot)| |by apply known_check].
  apply storage_leaf_value. split; [done|apply to_be_bytes].
Qed.

Lemma prev_denotes : denotes toy Known (from_root (root T_prev) d_prev) m_prev.
Proof.
  apply (denotes_commit toy Known T_prev m_prev).
  apply put_denotes; [apply put_denotes; [apply empty_trie_denotes|]|]; vm_compute; reflexivity.
Qed.

Lemma after_denotes : denotes toy Known T_after
  (overlay (hash_keys toy (storage_update <$> slots_3)) m_prev).
Proof.
  replace (overlay _ m_prev) with m_after by (vm_compute; reflexivity).
  apply put_denotes; [apply put_denotes; [apply empty_trie_denotes|]|]; vm_compute; reflexivity.
Qed.

Lemma storage_root_overlays_witness :
  compute_storage_root_with_db toy (map_to_list slots_3) (root T_prev) d_prev = Ok (root T_after).
Proof.
  refine (storage_root_overlays toy Known (map_to_list slots_3) slots_3 (root T_prev) d_prev m_prev T_after
    (listed_self _) _ _ prev_denotes _ after_denotes).
  - apply slots_check. vm_compute. reflexivity.
  - apply keys_check. vm_compute. reflexivity.
  - apply known_check. vm_compute. reflexivity.
Defined.

(** The trie updated against the database is not in the database. *)
Lemma storage_root_lost_witness :
  compute_storage_root_with_db toy [(slot_b, to_be 32 5)] (root T_after) d_prev = Err (MissingNode (root T_after)).
Proof.
  assert (db_get d_prev (root T_after) = Ok None) as Hmiss by (vm_compute; reflexivity).
  exact (proj2 (proj2 (storage_root_lost toy (map_to_list slots_3) (root T_prev) d_prev (root T_after)
    [(slot_b, to_be 32 5)] storage_root_overlays_witness ltac:(vm_compute; discriminate) Hmiss ltac:(done)))).
Defined.

(** ** States *)

(** What a check of the listing says of every binding. *)
Lemma map_check {B} (f : list Z * B -> bool) (m : gmap (list Z) B) k b :
  forallb f (map_to_list m) = true -> m !! k = Some b -> f (k, b) = true.
Proof. rewrite forallb_forall. intros H Hk. apply H. by apply list_elem_of_In, elem_of_map_to_list. Qed.

Lemma state_known_check L `{!Lists L} db : forallb (fun kv => account_check kv.2) (map_to_list (visible db)) = true ->
  all_known (map_to_list (visible db)).*1 = true ->
  forallb (fun kv => forallb (fun e => hash_check e.2) (map_to_list kv.2) && all_known (map_to_list kv.2).*1 &&
    all_known (storage_nodes (list_slots L kv.1 kv.2))) (map_to_list (storage_cache db)) = true ->
  all_known (state_nodes L db) = true -> db_known toy Known L db.
Proof.
  intros Ha Hk Hs Hw. split; [apply list_accounts_ok| |by apply keys_check| |by apply known_check].
  - intros k a Hka. apply account_check_ok. by apply (map_check _ _ _ _ Ha Hka).
  - intros a sl Hsl. unfold listed_storage in Hsl. rewrite map_lookup_imap in Hsl.
    apply bind_Some in Hsl as (m & Hm & [= <-]). exists m.
    pose proof (map_check _ _ _ _ Hs Hm) as Hc. rewrite !andb_true_iff in Hc. destruct Hc as [[? ?] ?].
    apply slots_known_check; [apply list_slots_ok|done..].
Qed.

Lemma with_db_known_check L `{!Lists L} db :
  forallb (fun kv => forallb (fun e => hash_check e.2) (map_to_list kv.2) && all_known (map_to_list kv.2).*1 &&
    all_known (storage_nodes (list_slots L kv.1 kv.2)) &&
    all_known (storage_nodes_db (list_slots L kv.1 kv.2) EMPTY_ROOT ∅)) (map_to_list (storage_cache db)) = true ->
  all_known (state_nodes_db L db) = true -> with_db_known toy Known L db (∅ : MemoryTrieDB).
Proof.
  intros Hs Hw. split; [by intros h e| |by apply known_check]. intros a m Hm.
  pose proof (map_check _ _ _ _ Hs Hm) as Hc. rewrite !andb_true_iff in Hc. destruct Hc as [[[? ?] ?] ?].
  split; [apply slots_known_check; [apply list_slots_ok|done..]|by apply known_check].
Qed.

Lemma fresh_storage_check db :
  forallb (fun kv => bool_decide (storage_root kv.2 = EMPTY_ROOT)) (map_to_list (visible db)) = true ->
  fresh_storage db.
Proof. intros H a st m Ha _. by apply (map_check _ _ _ _ H), bool_decide_eq_true_1 in Ha. Qed.

Lemma codes_check db :
  forallb (fun kv => bool_decide (toy kv.2 = kv.1 /\ kv.2 ∈ known)) (map_to_list (code_cache db)) = true ->
  codes_ok toy Known db.
Proof. intros H h c Hc. by apply (map_check _ _ _ _ H), bool_decide_eq_true_1 in Hc. Qed.

Lemma db_0_known : db_known toy Known forward db_0.
Proof. apply state_known_check; [apply _|vm_compute; reflexivity..]. Qed.
Lemma db_0_known_backward : db_known toy Known backward db_0.
Proof. apply state_known_check; [apply _|vm_compute; reflexivity..]. Qed.
Lemma db_1_known : db_known toy Known backward db_1.
Proof. apply state_known_check; [apply _|vm_compute; reflexivity..]. Qed.


Lemma state_roots_agree_witness :
  state_root_with_db toy forward db_0 (∅ : MemoryTrieDB) = state_root toy forward db_0.
Proof.
  refine (state_roots_agree toy Known forward db_0 (∅ : MemoryTrieDB) db_0_known _ _).
  - apply with_db_known_check; [apply _|vm_compute; reflexivity..].
  - apply fresh_storage_check. vm_compute. reflexivity.
Defined.

(** ** Guards, reverts, encoders *)

(** A lower nonce is refused, but then the code is not protected. *)
Definition hijack (n : Z) : AccountState := mkAccount n 0 (toy [1]) EMPTY_STORAGE_ROOT Evm.
Lemma set_account_guards_witness :
  get_account vault (set_account vault (hijack 1) db_0) = vault_account /\
  get_account vault (set_account vault (hijack 0) db_0) = mkAccount 1 0 (toy [1]) EMPTY_STORAGE_ROOT Evm.
Proof.
  split.
  - destruct (set_account_guards vault (hijack 1) db_0) as (_ & _ & Hn & Hb & Hr & Hv & Hc & _).
    destruct (get_account vault _). simpl in *. unfold vault_account. f_equal; [exact Hn|exact Hb| |exact Hr|exact Hv].
    rewrite Hc by (vm_compute; discriminate). vm_compute. reflexivity.
  - destruct (set_account_guards vault (hijack 0) db_0) as (_ & _ & Hn & Hb & Hr & Hv & _ & Hc).
    destruct (get_account vault _). simpl in *. f_equal; [exact Hn|exact Hb| |exact Hr|exact Hv].
    apply Hc. vm_compute. reflexivity.
Defined.

(** A reverted frame with a nested frame that destroys the vault. *)
Definition frame : list op :=
  [OSetStorage vault slot_a (to_be 32 1); OFrame [OSelfdestruct vault; ORefund 24000] false;
   OSetAccount vault (hijack 5); ODeploy code_1; OLog (mkLog vault [] [1] 1 0 zero_h256 0)].
Lemma frame_reverted_witness : state_root toy forward (exec toy (OFrame frame true) db_0) = state_root toy forward db_0.
Proof.
  refine (proj1 (proj2 (proj2 (proj2 (proj2 (proj2 (frame_reverted toy Known frame forward db_0 _ _))))))).
  - apply codes_check. vm_compute. reflexivity.
  - repeat constructor.
Defined.

Lemma flat_encoder_agrees_witness :
  encode_account_flat vault_account = account_leaf vault_account /\
  encode_account_flat (set_balance_u128 127 vault_account) <> account_leaf (set_balance_u128 127 vault_account).
Proof.
  split.
  - apply (flat_encoder_agrees vault_account); [apply account_check_ok; vm_compute; reflexivity|].
    split_and!; [reflexivity|unfold in_range; simpl; lia|simpl; lia].
  - intros H. apply (flat_encoder_agrees (set_balance_u128 127 vault_account)) in H as (_ & _ & H);
      [simpl in H; lia|apply account_check_ok; vm_compute; reflexivity].
Defined.

(** ** Edges *)

(** An empty account is left out of the trie until a zero is written to one of
    its slots. *)
Lemma zero_write_changes_root :
  state_root toy forward state_new = Ok EMPTY_ROOT /\
  state_root toy forward (set_storage alice slot_a zero_h256 (seed_account alice default_account state_new)) <>
    state_root toy forward (seed_account alice default_account state_new).
Proof. split; [vm_compute; reflexivity|vm_compute; discriminate]. Qed.

(** A destroyed account of the parent block is still read, with its balance. *)
Lemma destroyed_account_read :
  let db := selfdestruct alice db_0 in
  balance (get_account alice db) = 1000 /\ state_root toy forward db <> state_root toy forward db_0.
Proof. split; [vm_compute; reflexivity|vm_compute; discriminate]. Qed.

(** A contract created again after its destruction has its old slots. *)
Lemma destroyed_storage_kept :
  get_storage vault slot_a (set_account vault (hijack 1) (selfdestruct vault db_0)) = to_be 32 77.
Proof. vm_compute. reflexivity. Qed.

(** The storage of a genesis contract cannot be opened: its root is zero. *)
Lemma genesis_storage_missing :
  let st := to_account_state toy (mkGenesis vault 0 1 (Some code_1) []) in
  compute_storage_root_with_db toy [(slot_a, to_be 32 1)] (storage_root st) (∅ : MemoryTrieDB) =
  Err (MissingNode zero_h256).
Proof. vm_compute. reflexivity. Qed.

(** * Concrete receipts and Merkle trees

    Two receipts of one block and a tree of three leaves, under the hash
    function of TrieExample.v, to which the theorems of Receipt.v and
    Receipt.v are applied. *)

(** ** A tree of three leaves *)

Definition leaves3 : list H256 := [replicate 32 1; replicate 32 2; replicate 32 3].
Definition leaf3 : H256 := replicate 32 3.
Definition sib3 : list H256 := [leaf3; combine_hashes toy (replicate 32 1) (replicate 32 2)].
Definition proof3 : InclusionProof := mkInclusion 2 3 sib3.
Definition hashed3 : list bytes :=
  Eval vm_compute in remove_dups (tree_pre toy leaves3 ++ verify_pre toy sib3 leaf3 2).

Lemma hashed3_free : CollisionFree toy (fun e => e ∈ hashed3).
Proof. apply toy_list_free. vm_compute. reflexivity. Qed.

Definition sized_hash (h : H256) : bool := Nat.eqb (length h) 32.
Lemma hashes_check l : forallb sized_hash l = true -> Forall is_hash l.
Proof.
  rewrite forallb_forall. intros H. apply List.Forall_forall. intros h Hh. by apply Nat.eqb_eq, H.
Qed.

Lemma in_check (l d : list bytes) : forallb (fun e => bool_decide (e ∈ d)) l = true -> Forall (fun e : bytes => e ∈ d) l.
Proof.
  rewrite forallb_forall. intros H. apply List.Forall_forall. intros e He. apply H in He. by apply bool_decide_eq_true in He.
Qed.

Lemma proof3_verifies : verify_inclusion toy proof3 (tree_root (build_from_hashes toy leaves3)) leaf3 = true.
Proof. vm_compute. reflexivity. Qed.

(** The last leaf of a layer of three is proved with itself as its sibling. *)
Lemma merkle_sound_witness :
  verify_inclusion toy proof3 (tree_root (build_from_hashes toy leaves3)) leaf3 = true /\
  leaves3 !! leaf_index proof3 = Some leaf3.
Proof.
  split; [exact proof3_verifies|].
  apply (@merkle_sound toy toy_256 (fun e => e ∈ hashed3) hashed3_free leaves3 proof3 leaf3).
  - apply hashes_check. vm_compute. reflexivity.
  - apply hashes_check. vm_compute. reflexivity.
  - reflexivity.
  - reflexivity.
  - apply Nat.ltb_lt. reflexivity.
  - apply in_check. vm_compute. reflexivity.
  - exact proof3_verifies.
Defined.

(** ** Two receipts *)

Definition log1 : Log := mkLog (replicate 20 17) [replicate 32 5; replicate 32 6] [1; 2; 3] 7 0 (replicate 32 9) 0.
Definition receipt1 : TransactionReceipt :=
  mkReceipt Success 21000 (compute_receipt_bloom toy [log1]) [log1] (replicate 32 9) 0 (replicate 32 8) 7
    (replicate 20 1) (Some (replicate 20 17)) None 21000 3.
(** The same outcome of another sender's transaction. *)
Definition receipt2 : TransactionReceipt :=
  mkReceipt Success 21000 (compute_receipt_bloom toy [log1]) [log1] (replicate 32 10) 1 (replicate 32 8) 7
    (replicate 20 2) None (Some (replicate 20 4)) 10 99.

Definition log_typed_b (l : Log) : bool :=
  Nat.eqb (length (log_address l)) 20 && forallb sized_hash (log_topics l) &&
  (zlen (log_topics l) <? 2 ^ 64) && (zlen (log_data l) <? 2 ^ 64).
Definition receipt_typed_b (r : TransactionReceipt) : bool :=
  (0 <=? cumulative_gas_used r) && (cumulative_gas_used r <? 2 ^ 64) && Nat.eqb (length (logs_bloom r)) 256 &&
  (zlen (receipt_logs r) <? 2 ^ 64) && forallb log_typed_b (receipt_logs r).

Lemma log_check l : log_typed_b l = true -> log_typed l.
Proof.
  unfold log_typed_b. intros H. apply andb_prop in H as [[[Ha Ht]%andb_prop Hn]%andb_prop Hd].
  pose proof (zlen_nonneg (log_topics l)). pose proof (zlen_nonneg (log_data l)).
  split; [by apply Nat.eqb_eq|by apply hashes_check|unfold in_range; lia..].
Qed.

Lemma receipt_check r : receipt_typed_b r = true -> receipt_typed r.
Proof.
  unfold receipt_typed_b. intros H. apply andb_prop in H as [[[[Hl Hh]%andb_prop Hb]%andb_prop Hn]%andb_prop Hf].
  pose proof (zlen_nonneg (receipt_logs r)).
  split; [unfold in_range; lia|by apply Nat.eqb_eq|unfold in_range; lia|].
  apply List.Forall_forall. intros l Hin. apply log_check. by apply (proj1 (forallb_forall _ _) Hf).
Qed.

Definition receipt_pre : list bytes := Eval vm_compute in [receipt_bytes receipt1].
Lemma receipt_free : CollisionFree toy (fun e => e ∈ receipt_pre).
Proof. apply toy_list_free. vm_compute. reflexivity. Qed.
Lemma receipt_dom r : bool_decide (receipt_bytes r ∈ receipt_pre) = true -> receipt_bytes r ∈ receipt_pre.
Proof. apply bool_decide_eq_true_1. Qed.

(** Receipts of different transactions, senders and contracts hash alike. *)
Lemma receipt_hash_commits_witness :
  transaction_hash receipt1 <> transaction_hash receipt2 /\
  compute_receipt_hash toy receipt1 = compute_receipt_hash toy receipt2.
Proof.
  split; [discriminate|].
  refine (proj2 (@receipt_hash_commits toy (fun e => e ∈ receipt_pre) receipt_free receipt1 receipt2 _ _ _ _) _).
  - apply receipt_check. vm_compute. reflexivity.
  - apply receipt_check. vm_compute. reflexivity.
  - apply receipt_dom. vm_compute. reflexivity.
  - apply receipt_dom. vm_compute. reflexivity.
  - reflexivity.
Defined.

Lemma bloom_checks rs : forallb (fun r => bool_decide (logs_bloom r = compute_receipt_bloom toy (receipt_logs r))) rs = true ->
  Forall (fun r => logs_bloom r = compute_receipt_bloom toy (receipt_logs r)) rs.
Proof.
  rewrite forallb_forall. intros H. apply List.Forall_forall. intros r Hr. apply H in Hr. by apply bool_decide_eq_true in Hr.
Qed.

Definition topic_bit : Z := Eval vm_compute in nth 1 (item_bits toy (replicate 32 6)) 0.

Lemma bloom_exact_witness :
  bloom_bit (aggregate_block_bloom [receipt1; receipt2]) topic_bit = true.
Proof.
  refine (proj2 (bloom_exact toy [receipt1; receipt2] topic_bit _ _) _).
  - split; [by apply Z.leb_le|by apply Z.ltb_lt].
  - apply bloom_checks. vm_compute. reflexivity.
  - exists receipt1, log1, (replicate 32 6). split; [by left|split; [by left|split; [by right; right; left|]]].
    right. left. vm_compute. reflexivity.
Defined.

(** * Concrete transaction tries

    The tries of two blocks with the same two transactions in either order,
    under the hash function of TrieExample.v, to which the theorems of
    MptRoot.v are applied. *)

Definition hx : H256 := replicate 32 17.
Definition hy : H256 := replicate 32 34.

(** The trie of zbx-trie with the bindings of two hashes. *)
Definition key0 : bytes := rlp_uint64 0.
Definition key1 : bytes := rlp_uint64 1.
Abbreviation half h := (snd (Trie.insert toy key0 (rlp_bytes h) E0)).
Abbreviation full h1 h2 := (snd (Trie.insert toy key1 (rlp_bytes h2) (half h1))).

Definition LE : list bytes :=
  Eval vm_compute in remove_dups (written (full hx hy) ++ written (full hy hx)).
Definition DomE (e : bytes) : Prop := e ∈ LE.
#[local] Instance DomE_free : CollisionFree toy DomE.
Proof. apply (toy_list_free LE). vm_compute. reflexivity. Qed.

Lemma key_byte k : forallb (fun x => (0 <=? x) && (x <? 256)) k = true -> (zlen k <? 2 ^ 59) = true -> key_ok k.
Proof. intros Hb Hl%Z.ltb_lt. split; [by apply byte_list|done]. Qed.
Lemma mpt_key_check h : sized_hash h = true -> forallb (fun x => (0 <=? x) && (x <? 256)) h = true -> hash_ok h.
Proof. intros Hl%Nat.eqb_eq Hb. split; [done|by apply byte_list]. Qed.
Lemma value_byte v : (0 <? zlen v) && (zlen v <? 2 ^ 60) && forallb (fun x => (0 <=? x) && (x <? 256)) v = true -> value_ok v.
Proof.
  intros [[H0%Z.ltb_lt Hl%Z.ltb_lt]%andb_prop Hb]%andb_prop. split; [by intros ->|]. split; [by apply byte_list|done].
Qed.
Lemma dom_in l : forallb (fun e => bool_decide (e ∈ LE)) l = true -> Forall DomE l.
Proof. apply (in_check l LE). Qed.

Lemma hx_ok : hash_ok hx.
Proof. apply mpt_key_check; vm_compute; reflexivity. Qed.
Lemma hy_ok : hash_ok hy.
Proof. apply mpt_key_check; vm_compute; reflexivity. Qed.

Lemma half_denotes h : hash_ok h -> value_ok (rlp_bytes h) -> forallb (fun e => bool_decide (e ∈ LE)) (written (half h)) = true ->
  denotes toy DomE (half h) (<[key0 := rlp_bytes h]> ∅).
Proof.
  intros _ Hv Hd. apply (denotes_insert toy DomE E0 ∅ key0).
  - apply denotes_new. intros k. reflexivity.
  - apply key_byte; vm_compute; reflexivity.
  - done.
  - by apply dom_in.
Qed.

Lemma full_denotes h1 h2 : hash_ok h1 -> value_ok (rlp_bytes h1) -> value_ok (rlp_bytes h2) ->
  forallb (fun e => bool_decide (e ∈ LE)) (written (half h1) ++ written (full h1 h2)) = true ->
  denotes toy DomE (full h1 h2) (tx_map [h1; h2]).
Proof.
  intros H1 V1 V2 Hd. rewrite forallb_app in Hd. apply andb_prop in Hd as [Hd1 Hd2].
  apply (denotes_insert toy DomE (half h1) (<[key0 := rlp_bytes h1]> ∅) key1).
  - by apply half_denotes.
  - apply key_byte; vm_compute; reflexivity.
  - done.
  - by apply dom_in.
Qed.

Lemma full_xy : denotes toy DomE (full hx hy) (tx_map [hx; hy]).
Proof. apply full_denotes; [apply hx_ok|apply value_byte; vm_compute; reflexivity..|vm_compute; reflexivity]. Qed.
Lemma full_yx : denotes toy DomE (full hy hx) (tx_map [hy; hx]).
Proof. apply full_denotes; [apply hy_ok|apply value_byte; vm_compute; reflexivity..|vm_compute; reflexivity]. Qed.

Lemma pair_hashes a b : hash_ok a -> hash_ok b -> Forall hash_ok ([a; b] ++ [b; a]).
Proof. intros. by repeat apply List.Forall_cons; [..|apply List.Forall_nil]. Qed.

Lemma trie_roots_agree_witness :
  trie_root_from_pairs toy (tx_pairs [hx; hy]) = Ok (E := unit) (root (full hx hy)).
Proof.
  refine (@trie_roots_agree toy toy_256 DomE MemoryTrieDB _ unit (tx_pairs [hx; hy]) (full hx hy) _ _ full_xy).
  - discriminate.
  - apply key_value_ok; [apply (proj1 (proj1 (Forall_app hash_ok [hx; hy] [hy; hx]) (pair_hashes hx hy hx_ok hy_ok)))|reflexivity].
Defined.

Lemma tx_root_commits_witness :
  transactions_root_mpt (E := unit) toy [hx; hy] <> transactions_root_mpt toy [hy; hx].
Proof.
  intros He. refine (_ (proj1 (@tx_root_commits toy toy_256 DomE MemoryTrieDB _ DomE_free unit [hx; hy] [hy; hx]
    (full hx hy) (full hy hx) _ _ (pair_hashes hx hy hx_ok hy_ok) _ full_xy full_yx) He)); [discriminate|discriminate|discriminate|reflexivity].
Defined.
