(* ===== verification/Transaction.v ===== *)
(** * Transactions (crates/zbx-types/src/transaction.rs)

    The fields of a transaction, its intrinsic gas and its effective price.
    Below: the signing and transaction hashes, which go through the third-party
    [rlp] crate, and the recovery of the signer (zbx-crypto/src/secp256k1.rs);
    a signed transaction carries its hash as a field, and the executor takes the
    signing hash as an argument. *)

From Stdlib Require Import ZArith Lia.
From stdpp Require Import base tactics list numbers option.
From S2P Require Import Prelude Bytes TrieNode Rlp TrieRepr.

Local Open Scope Z_scope.

Abbreviation Address := (list Z).

Inductive TxType : Type := Legacy | AccessList | DynamicFee.

Record Transaction : Type := mkTx {
  tx_type : TxType;
  tx_nonce : Z;
  max_priority_fee_per_gas : Z;
  max_fee_per_gas : Z;
  gas_limit : Z;
  tx_to : option Address;
  tx_value : Z;
  tx_data : bytes;
  access_list : list (Address * list H256);
  tx_chain_id : Z }.

Record Signature : Type := mkSig { sig_v : Z; sig_r : H256; sig_s : H256 }.

Record SignedTransaction : Type := mkSigned {
  tx : Transaction; sig : Signature; tx_from : Address; tx_hash : H256 }.

(** [iter().sum::<u64>()] *)
Definition sum_u64 (l : list Z) : Z := foldl (fun a x => u64 (a + x)) 0 l.

Definition intrinsic_gas (t : Transaction) : Z :=
  let base := match tx_to t with None => 53000 | Some _ => 21000 end in
  let data_cost := sum_u64 (map (fun b => if b =? 0 then 4 else 16) (tx_data t)) in
  let al_cost := u64 (u64 (u64 (zlen (access_list t)) * 2400) +
    sum_u64 (map (fun e => u64 (zlen (snd e) * 1900)) (access_list t))) in
  u64 (u64 (base + data_cost) + al_cost).

Definition is_create (t : Transaction) : bool := bool_decide (tx_to t = None).

Definition effective_gas_price (t : SignedTransaction) (base_fee : Z) : Z :=
  let tip := max_priority_fee_per_gas (tx t) in
  let max := max_fee_per_gas (tx t) in
  u64 (base_fee + Z.min tip (sat 64 (max - base_fee))).

(** Signature::to_bytes, Signature::from_bytes *)
Definition sig_to_bytes (s : Signature) : bytes := sig_r s ++ sig_s s ++ [sig_v s].
Inductive SigError : Type := InvalidLength (expected got : Z).
Definition sig_from_bytes (b : bytes) : res SigError Signature :=
  if negb (zlen b =? 65) then Err (InvalidLength 65 (zlen b))
  else v ← index b 64; Ok (mkSig v (take 32 b) (take 32 (drop 32 b))).

Lemma sig_roundtrip s : length (sig_r s) = 32%nat -> length (sig_s s) = 32%nat ->
  sig_from_bytes (sig_to_bytes s) = Ok s.
Proof.
  intros Hr Hs. destruct s as [v r s]. simpl in *. unfold sig_from_bytes, sig_to_bytes, zlen. simpl.
  rewrite !length_app, Hr, Hs. simpl. unfold index. simpl.
  rewrite lookup_app_r, Hr by lia. rewrite lookup_app_r, Hs by lia. simpl.
  by rewrite take_app_length', drop_app_length', take_app_length' by lia.
Qed.

(** ** Types *)

Record tx_ok (t : Transaction) : Prop := mkTxOk {
  tx_nonce_ok : in_range 64 (tx_nonce t);
  tx_tip_ok : in_range 64 (max_priority_fee_per_gas t);
  tx_fee_ok : in_range 64 (max_fee_per_gas t);
  tx_gas_ok : in_range 64 (gas_limit t);
  tx_value_ok : in_range 256 (tx_value t);
  tx_data_ok : Forall byte (tx_data t) }.

(** The price is between the base fee and the larger of the base fee and the
    maximum fee, and does not overflow; the maximum fee does not bound it when
    it is below the base fee. *)
Lemma effective_price_spec t b : tx_ok (tx t) -> in_range 64 b ->
  effective_gas_price t b =
    b + Z.min (max_priority_fee_per_gas (tx t)) (Z.max 0 (max_fee_per_gas (tx t) - b)) /\
  b <= effective_gas_price t b <= Z.max b (max_fee_per_gas (tx t)).
Proof.
  intros [_ Ht Hf _ _ _] Hb. unfold effective_gas_price, sat, in_range in *.
  assert (Z.min (max_fee_per_gas (tx t) - b) (2 ^ 64 - 1) = max_fee_per_gas (tx t) - b) as -> by lia.
  assert (u64 (b + Z.min (max_priority_fee_per_gas (tx t)) (Z.max 0 (max_fee_per_gas (tx t) - b))) =
    b + Z.min (max_priority_fee_per_gas (tx t)) (Z.max 0 (max_fee_per_gas (tx t) - b))) as ->; [|lia].
  apply wrap_small. unfold in_range. lia.
Qed.

(** * Signing and identifying transactions

    The signing hash and the transaction hash of
    crates/zbx-types/src/transaction.rs and the recovery of a signer of
    crates/zbx-crypto/src/secp256k1.rs.  Keccak-256, the third-party [rlp]
    crate and the curve are parameters. *)

(** ** The [rlp] crate

    [crate_uint n] is the string that [append] writes for an unsigned integer;
    [crate_out] is the output of a stream of nested lists and strings.  A list
    encoded on its own and appended raw is a nested list.  The laws are those
    of the RLP format. *)
Class RlpCrate : Type := {
  crate_uint : Z -> bytes;
  crate_out : item -> bytes;
  crate_uint_bytes : forall n, Forall byte (crate_uint n);
  crate_uint_inj : forall m n, in_range 64 m -> in_range 64 n -> crate_uint m = crate_uint n -> m = n;
  crate_out_inj : forall a b, item_ok a -> item_ok b -> crate_out a = crate_out b -> a = b;
  crate_out_list : forall l, item_ok (Lst l) -> exists h t, crate_out (Lst l) = h :: t /\ 192 <= h }.

(** The crate's [Rlp] view of an encoding: [item_count], [at], [data] and
    [as_val] for an unsigned integer of the given width. *)
Class RlpView : Type := {
  rlp_item_count : bytes -> option Z;
  rlp_nth : bytes -> nat -> option bytes;
  rlp_data : bytes -> option bytes;
  rlp_uint : Z -> bytes -> option Z }.
(** What it reads from an encoding the crate made, and the range of what it
    reads from any bytes. *)
Class RlpViewLaws `{RlpCrate} `{RlpView} : Prop := {
  item_count_out : forall l, item_ok (Lst l) -> rlp_item_count (crate_out (Lst l)) = Some (zlen l);
  nth_out : forall l i x, item_ok (Lst l) -> l !! i = Some x -> rlp_nth (crate_out (Lst l)) i = Some (crate_out x);
  data_out : forall d, item_ok (Str d) -> rlp_data (crate_out (Str d)) = Some d;
  uint_out : forall w n, item_ok (Str (crate_uint n)) -> in_range w n -> w <= 64 -> rlp_uint w (crate_out (Str (crate_uint n))) = Some n;
  nth_bytes : forall b i x, Forall byte b -> rlp_nth b i = Some x -> Forall byte x;
  data_bytes : forall b x, Forall byte b -> rlp_data b = Some x -> Forall byte x;
  uint_range : forall w b n, rlp_uint w b = Some n -> in_range w n }.

(** [u256_rlp_bytes] *)
Definition u256_rlp_bytes (value : Z) : bytes := strip_zeros (to_be 32 value).

Definition rlp_access_list (al : list (Address * list H256)) : item :=
  Lst (map (fun '(addr, slots) => Lst [Str addr; Lst (map Str slots)]) al).

Definition to_item (to : option Address) : item := match to with Some a => Str a | None => Str [] end.

(** ** The curve (k256)

    [valid_scalars] is [Signature::from_slice], [high_s] whether
    [normalize_s] would change it; [recover_prehash] gives the uncompressed
    point. *)
Class Secp256k1 : Type := {
  valid_scalars : bytes -> bool;
  high_s : bytes -> bool;
  recover_prehash : H256 -> bytes -> Z -> option bytes }.

Inductive SignatureError : Type :=
| InvalidRecoveryId (v : Z)
| InvalidScalars
| NonCanonical
| RecoveryFailed
| PubkeyLength (len : Z).

Section hashing.
Context (keccak : bytes -> H256) `{RC : RlpCrate} `{EC : Secp256k1}.

Abbreviation uint n := (Str (crate_uint n)).

(** The byte put before the list of a typed transaction. *)
Definition type_prefix (t : Transaction) : bytes :=
  match tx_type t with Legacy => [] | AccessList => [1] | DynamicFee => [2] end.

Definition signing_items (t : Transaction) : list item :=
  let value_bytes := u256_rlp_bytes (tx_value t) in
  match tx_type t with
  | Legacy =>
    [uint (tx_nonce t); uint (max_fee_per_gas t); uint (gas_limit t); to_item (tx_to t); Str value_bytes;
     Str (tx_data t); uint (tx_chain_id t); uint 0; uint 0]
  | AccessList =>
    [uint (tx_chain_id t); uint (tx_nonce t); uint (max_fee_per_gas t); uint (gas_limit t); to_item (tx_to t);
     Str value_bytes; Str (tx_data t); rlp_access_list (access_list t)]
  | DynamicFee =>
    [uint (tx_chain_id t); uint (tx_nonce t); uint (max_priority_fee_per_gas t); uint (max_fee_per_gas t);
     uint (gas_limit t); to_item (tx_to t); Str value_bytes; Str (tx_data t); rlp_access_list (access_list t)]
  end.
Definition signing_payload (t : Transaction) : bytes := type_prefix t ++ crate_out (Lst (signing_items t)).
Definition signing_hash (t : Transaction) : H256 := keccak (signing_payload t).

Definition hash_items (s : SignedTransaction) : list item :=
  let t := tx s in
  let value_bytes := u256_rlp_bytes (tx_value t) in
  let r := strip_zeros (sig_r (sig s)) in
  let ss := strip_zeros (sig_s (sig s)) in
  match tx_type t with
  | Legacy =>
    let v := sat 64 (sat 64 (sat 64 (tx_chain_id t * 2) + 35) + sig_v (sig s)) in
    [uint (tx_nonce t); uint (max_fee_per_gas t); uint (gas_limit t); to_item (tx_to t); Str value_bytes;
     Str (tx_data t); uint v; Str r; Str ss]
  | AccessList =>
    [uint (tx_chain_id t); uint (tx_nonce t); uint (max_fee_per_gas t); uint (gas_limit t); to_item (tx_to t);
     Str value_bytes; Str (tx_data t); rlp_access_list (access_list t); uint (sig_v (sig s)); Str r; Str ss]
  | DynamicFee =>
    [uint (tx_chain_id t); uint (tx_nonce t); uint (max_priority_fee_per_gas t); uint (max_fee_per_gas t);
     uint (gas_limit t); to_item (tx_to t); Str value_bytes; Str (tx_data t); rlp_access_list (access_list t);
     uint (sig_v (sig s)); Str r; Str ss]
  end.
Definition hash_payload (s : SignedTransaction) : bytes := type_prefix (tx s) ++ crate_out (Lst (hash_items s)).
Definition compute_hash (s : SignedTransaction) : H256 := keccak (hash_payload s).
Definition verify_hash (s : SignedTransaction) : bool := bool_decide (compute_hash s = tx_hash s).

(** The signature type of secp256k1.rs has the same fields and parser. *)
Definition sig_parse (b : bytes) : res SigError Signature :=
  if negb (zlen b =? 65) then Err (InvalidLength 65 (zlen b))
  else v ← index b 64; Ok (mkSig v (take 32 b) (take 32 (drop 32 b))).

(** PubKey::to_address; the key is 65 bytes. *)
Definition pubkey_address (pubkey : bytes) : Address := drop 12 (keccak (drop 1 pubkey)).

Definition recover_pubkey (hash : H256) (g : Signature) : res SignatureError bytes :=
  if 1 <? sig_v g then Err (InvalidRecoveryId (sig_v g))
  else
    let rs := sig_r g ++ sig_s g in
    if negb (valid_scalars rs) then Err InvalidScalars
    else if high_s rs then Err NonCanonical
    else
      point ← ok_or (recover_prehash hash rs (sig_v g)) RecoveryFailed;
      if negb (zlen point =? 65) then Err (PubkeyLength (zlen point)) else Ok point.

Definition recover_signer (hash : H256) (g : Signature) : res SignatureError Address :=
  pubkey_address <$> recover_pubkey hash g.

Definition verify_signature (hash : H256) (g : Signature) (expected : Address) : bool :=
  match recover_signer hash g with Ok addr => bool_decide (addr = expected) | _ => false end.

(** ** Types *)

Definition address_ok (a : Address) : Prop := length a = 20%nat /\ Forall byte a.
Definition slot_ok (h : H256) : Prop := length h = 32%nat /\ Forall byte h.

Record tx_typed (t : Transaction) : Prop := mkTxTyped {
  typed_tx : tx_ok t;
  typed_to : forall a, tx_to t = Some a -> address_ok a;
  typed_chain : in_range 64 (tx_chain_id t);
  typed_al : Forall (fun e => address_ok e.1 /\ Forall slot_ok e.2) (access_list t) }.

Record sig_typed (g : Signature) : Prop := mkSigTyped {
  typed_v : in_range 8 (sig_v g); typed_r : slot_ok (sig_r g); typed_s : slot_ok (sig_s g) }.

(** What a signature covers, by type. *)
Definition same_signed (t u : Transaction) : Prop :=
  tx_type t = tx_type u /\ tx_nonce t = tx_nonce u /\ max_fee_per_gas t = max_fee_per_gas u /\
  gas_limit t = gas_limit u /\ tx_to t = tx_to u /\ tx_value t = tx_value u /\ tx_data t = tx_data u /\
  tx_chain_id t = tx_chain_id u /\ (tx_type t <> Legacy -> access_list t = access_list u) /\
  (tx_type t = DynamicFee -> max_priority_fee_per_gas t = max_priority_fee_per_gas u).

(** What the checks of the mempool establish. *)
Definition authentic (s : SignedTransaction) : Prop :=
  verify_hash s = true /\ recover_signer (signing_hash (tx s)) (sig s) = Ok (tx_from s).

(** ** Lemmas *)

Lemma crate_payload_inj t u l k : item_ok (Lst l) -> item_ok (Lst k) ->
  type_prefix t ++ crate_out (Lst l) = type_prefix u ++ crate_out (Lst k) -> tx_type t = tx_type u /\ l = k.
Proof.
  intros Hl Hk E. destruct (crate_out_list l Hl) as (h & b & El & Hh), (crate_out_list k Hk) as (h' & b' & Ek & Hh').
  assert (tx_type t = tx_type u /\ crate_out (Lst l) = crate_out (Lst k)) as [Et Eo].
  { unfold type_prefix in E. rewrite El, Ek in *. destruct (tx_type t), (tx_type u); simpl in E; injection E; intros; subst;
      solve [done|exfalso; lia|auto]. }
  split; [done|]. by apply crate_out_inj in Eo as [= ->].
Qed.

Lemma uint_inj m n : in_range 64 m -> in_range 64 n -> uint m = uint n -> m = n.
Proof. intros Hm Hn [= E]. by apply crate_uint_inj. Qed.

Lemma to_item_inj a b : (forall x, a = Some x -> address_ok x) -> (forall x, b = Some x -> address_ok x) ->
  to_item a = to_item b -> a = b.
Proof.
  intros Ha Hb. destruct a as [a|], b as [b|]; simpl; intros E; try done; injection E as E; subst; [done|..].
  - by destruct (Ha _ eq_refl).
  - by destruct (Hb _ eq_refl).
Qed.

Lemma u256_rlp_bytes_inj v w : in_range 256 v -> in_range 256 w -> u256_rlp_bytes v = u256_rlp_bytes w -> v = w.
Proof.
  unfold u256_rlp_bytes, in_range. intros Hv Hw E. apply (f_equal be_val) in E.
  rewrite !strip_zeros_val, !be_val_to_be in E. change (256 ^ Z.of_nat 32) with (2 ^ 256) in E.
  by rewrite !Z.mod_small in E.
Qed.

Lemma strip_zeros_slot_inj a b : slot_ok a -> slot_ok b -> strip_zeros a = strip_zeros b -> a = b.
Proof.
  intros [La Fa] [Lb Fb] E. apply (f_equal be_val) in E. rewrite !strip_zeros_val in E.
  apply be_val_inj; [done|done|congruence|done].
Qed.

Lemma access_list_inj a b : rlp_access_list a = rlp_access_list b -> a = b.
Proof.
  intros [= E]. revert b E. induction a as [|[x sl] a IH]; intros [|[y sl'] b] E; try done; simpl in E.
  injection E as -> Es E. f_equal; [|by apply IH]. f_equal.
  revert sl' Es. induction sl as [|z sl IHs]; intros [|w sl'] Es; try done; simpl in Es. injection Es as -> Es. f_equal. by apply IHs.
Qed.

Lemma same_signed_items t u : same_signed t u -> signing_items t = signing_items u /\ type_prefix t = type_prefix u.
Proof.
  intros (Et & En & Ef & Eg & Eto & Ev & Ed & Ec & Ea & Ep). unfold signing_items, type_prefix. rewrite <-Et, En, Ef, Eg, Eto, Ev, Ed, Ec.
  destruct (tx_type t); [done|by rewrite Ea|by rewrite Ea, Ep].
Qed.

Lemma signing_items_inj t u : tx_typed t -> tx_typed u -> tx_type t = tx_type u -> signing_items t = signing_items u -> same_signed t u.
Proof.
  intros [[? ? ? ? ? ?] ? ? ?] [[? ? ? ? ? ?] ? ? ?] Et E. unfold same_signed. unfold signing_items in E. rewrite <-Et in E.
  destruct (tx_type t); injection E; intros; split_and!; try done; intros; try done;
    solve [by apply crate_uint_inj|by apply to_item_inj|by apply u256_rlp_bytes_inj|apply access_list_inj; unfold rlp_access_list; by f_equal].
Qed.

Lemma hash_items_inj s s' : tx_typed (tx s) -> tx_typed (tx s') -> sig_typed (sig s) -> sig_typed (sig s') ->
  tx_chain_id (tx s) < 2 ^ 62 -> tx_chain_id (tx s') < 2 ^ 62 -> sig_v (sig s) <= 1 -> sig_v (sig s') <= 1 ->
  tx_type (tx s) = tx_type (tx s') -> hash_items s = hash_items s' -> same_signed (tx s) (tx s') /\ sig s = sig s'.
Proof.
  intros [[? ? ? ? ? ?] ? ? ?] [[? ? ? ? ? ?] ? ? ?] [Hv ? ?] [Hv' ? ?] Hc Hc' Hb Hb' Et E.
  assert (forall a b, in_range 64 a -> in_range 64 b -> uint a = uint b -> a = b) as Hu by (apply uint_inj).
  assert (forall v w, in_range 8 v -> v <= 1 -> in_range 8 w -> w <= 1 -> crate_uint v = crate_uint w -> v = w) as Hw.
  { unfold in_range. intros. apply crate_uint_inj; unfold in_range; lia || done. }
  enough (same_signed (tx s) (tx s') /\ sig_v (sig s) = sig_v (sig s') /\ sig_r (sig s) = sig_r (sig s') /\ sig_s (sig s) = sig_s (sig s')) as (? & ? & ? & ?)
    by (split; [done|]; destruct (sig s), (sig s'); simpl in *; by subst).
  unfold same_signed. unfold hash_items in E. rewrite <-Et in E. destruct (tx_type (tx s)); injection E; intros.
  1: match goal with H : crate_uint (sat _ _) = _ |- _ => apply crate_uint_inj in H; [|by apply sat_range|by apply sat_range]; revert H end;
     unfold in_range in *; unfold sat; intros Hs;
     assert (tx_chain_id (tx s) = tx_chain_id (tx s') /\ sig_v (sig s) = sig_v (sig s')) as [Ec Ev] by lia.
  all: split_and!; try done; intros; try done;
    solve [by apply crate_uint_inj|by apply to_item_inj|by apply u256_rlp_bytes_inj|apply access_list_inj; unfold rlp_access_list; by f_equal
          |by apply strip_zeros_slot_inj|by apply Hw].
Qed.

Lemma recover_v h g a : recover_signer h g = Ok a -> sig_v g <= 1.
Proof. unfold recover_signer, recover_pubkey. destruct (Z.ltb_spec 1 (sig_v g)); [done|lia]. Qed.

(** ** The properties *)

(** Two transactions have the same signing hash exactly when they agree on the
    type, the chain and every field that their type signs: the access list in
    typed transactions, the priority fee in dynamic-fee ones only.  No
    signature moves to another type, chain, nonce or payload. *)
Theorem signing_hash_commits Dom `{!CollisionFree keccak Dom} t u : tx_typed t -> tx_typed u ->
  item_ok (Lst (signing_items t)) -> item_ok (Lst (signing_items u)) -> Dom (signing_payload t) -> Dom (signing_payload u) ->
  signing_hash t = signing_hash u <-> same_signed t u.
Proof.
  intros Ht Hu Ot Ou Dt Du. unfold signing_hash, signing_payload in *. split.
  - intros E%keccak_inj; [|done|done]. apply crate_payload_inj in E as [Et Ei]; [|done|done]. by apply signing_items_inj.
  - intros [-> ->]%same_signed_items. done.
Qed.

(** C28. The hash of an authentic transaction identifies what was signed, the
    signature and the signer; what was not signed can be changed by anyone
    without the hash or the signature showing it. *)
Theorem tx_hash_identifies Dom `{!CollisionFree keccak Dom} s s' : tx_typed (tx s) -> tx_typed (tx s') ->
  sig_typed (sig s) -> sig_typed (sig s') -> tx_chain_id (tx s) < 2 ^ 62 -> tx_chain_id (tx s') < 2 ^ 62 ->
  item_ok (Lst (hash_items s)) -> item_ok (Lst (hash_items s')) -> Dom (hash_payload s) -> Dom (hash_payload s') ->
  authentic s ->
  (authentic s' /\ tx_hash s' = tx_hash s <->
   same_signed (tx s) (tx s') /\ sig s' = sig s /\ tx_from s' = tx_from s /\ tx_hash s' = tx_hash s).
Proof.
  intros Ht Ht' Hg Hg' Hc Hc' Ok1 Ok2 D1 D2 [Hv Hr]. unfold authentic, verify_hash in *. bool_to_prop.
  assert (forall t, same_signed (tx s) t -> signing_hash t = signing_hash (tx s)) as Hsame.
  { intros t [Ei Ep]%same_signed_items. unfold signing_hash, signing_payload. by rewrite Ei, Ep. }
  split.
  - intros [[Hv' Hr'] Eh]. bool_to_prop. pose proof Eh as Eh'. rewrite <-Hv, <-Hv' in Eh. unfold compute_hash, hash_payload in *.
    apply keccak_inj in Eh; [|done|done]. apply crate_payload_inj in Eh as [Et Ei]; [|done|done].
    destruct (hash_items_inj s s') as [Hs Eg]; [by eauto using recover_v..|].
    split_and!; [done|done| |done]. rewrite (Hsame (tx s') Hs), <-Eg, Hr in Hr'. by injection Hr' as ->.
  - intros (Hs & Eg & Ef & Eh). rewrite Eg, Ef, Eh, (Hsame _ Hs). split_and!; try done. apply bool_decide_eq_true.
    rewrite <-Hv. unfold compute_hash, hash_payload, hash_items. destruct (same_signed_items _ _ Hs) as [_ <-].
    destruct Hs as (Et & En & Efee & Egas & Eto & Ev & Ed & Ech & Ea & Epr). rewrite <-Et, <-En, <-Efee, <-Egas, <-Eto, <-Ev, <-Ed, <-Ech, Eg.
    destruct (tx_type (tx s)); [done|by rewrite Ea|by rewrite Ea, Epr].
Qed.
End hashing.
