(* ===== verification/Scheduler.v ===== *)
(** * The parallel scheduler (crates/zbx-execution/src/scheduler.rs)

    Transactions are grouped into lanes by their declared access sets.  Lanes
    are meant to run in parallel, the transactions of a lane in order. *)

From Stdlib Require Import ZArith Lia.
From stdpp Require Import base tactics list gmap numbers option sorting.
From S2P Require Import Prelude Bytes TrieNode Transaction.

Local Open Scope Z_scope.

Inductive AccessKey : Type :=
| KAccount (a : Address)
| KStorage (a : Address) (slot : H256)
| KWildcard.

#[export] Instance AccessKey_eq_dec : EqDecision AccessKey.
Proof. solve_decision. Defined.
#[export] Instance AccessKey_countable : Countable AccessKey.
Proof.
  refine (inj_countable'
    (fun k => match k with KAccount a => inl a | KStorage a s => inr (inl (a, s)) | KWildcard => inr (inr tt) end)
    (fun x => match x with inl a => KAccount a | inr (inl (a, s)) => KStorage a s | inr (inr _) => KWildcard end) _).
  by intros [].
Defined.

Record AccessSet : Type := mkAccess { reads : gset AccessKey; writes : gset AccessKey }.

Definition touches (s : AccessSet) (k : AccessKey) : bool := bool_decide (k ∈ reads s) || bool_decide (k ∈ writes s).

Definition conflicts_with (a b : AccessSet) : bool :=
  if bool_decide (KWildcard ∈ writes a) || bool_decide (KWildcard ∈ writes b) ||
     bool_decide (KWildcard ∈ reads a) || bool_decide (KWildcard ∈ reads b) then true
  else existsb (touches b) (elements (writes a)) ||
       existsb (fun w => bool_decide (w ∈ reads a)) (elements (writes b)).

Definition extend (a b : AccessSet) : AccessSet := mkAccess (reads a ∪ reads b) (writes a ∪ writes b).

Definition add_read (k : AccessKey) (s : AccessSet) : AccessSet := mkAccess ({[k]} ∪ reads s) (writes s).
Definition add_write (k : AccessKey) (s : AccessSet) : AccessSet := mkAccess (reads s) ({[k]} ∪ writes s).

Definition derive_access_set (t : SignedTransaction) : AccessSet :=
  let set := add_write (KAccount (tx_from t)) (add_read (KAccount (tx_from t)) (mkAccess ∅ ∅)) in
  match tx_to (tx t) with
  | Some to =>
    let set := add_write (KAccount to) (add_read (KAccount to) set) in
    let is_call := negb (bool_decide (tx_data (tx t) = [])) in
    let has_access_list := negb (bool_decide (access_list (tx t) = [])) in
    if is_call && negb has_access_list then add_write KWildcard set
    else
      foldl (fun set '(addr, slots) =>
        foldl (fun set slot => add_write (KStorage addr slot) (add_read (KStorage addr slot) set))
          (add_read (KAccount addr) set) slots) set (access_list (tx t))
  | None => add_write KWildcard set
  end.

Record Lanes : Type := mkLanes { lanes : list (list nat); lane_sets : list AccessSet }.

Definition lane_count (l : Lanes) : nat := length (lanes l).
Definition tx_count (l : Lanes) : nat := foldl Nat.add 0%nat (map length (lanes l)).

(** The loop's state: the lanes and the lane of each sender. *)
Record Sched : Type := mkSched { sched : Lanes; sender_lane : gmap Address nat }.

(** [lanes[i].push(idx)] and [lane_sets[i].extend(..)] *)
Definition push_lane (i idx : nat) (aset : AccessSet) (l : Lanes) : Lanes :=
  mkLanes (alter (fun lane => lane ++ [idx]) i (lanes l)) (alter (fun s => extend s aset) i (lane_sets l)).

(** [iter().enumerate().min_by_key(len)]: the first of the shortest lanes. *)
Definition smallest_lane (l : list (list nat)) : option nat :=
  match l with
  | [] => None
  | x :: l => Some (fst (foldl (fun '(best, n, i) lane =>
      if Nat.ltb (length lane) n then (i, length lane, S i) else (best, n, S i)) (O, length x, 1%nat) l).1)
  end.

Definition schedule_step (max_lanes : Z) (idx : nat) (t : SignedTransaction) (s : Sched) : res unit Sched :=
  let aset := derive_access_set t in
  match sender_lane s !! tx_from t with
  | Some i => Ok (mkSched (push_lane i idx aset (sched s)) (sender_lane s))
  | None =>
    match list_find (fun lset => conflicts_with lset aset = false) (lane_sets (sched s)) with
    | Some (i, _) => Ok (mkSched (push_lane i idx aset (sched s)) (<[tx_from t := i]> (sender_lane s)))
    | None =>
      if zlen (lanes (sched s)) <? max_lanes then
        let new_lane := length (lanes (sched s)) in
        Ok (mkSched (mkLanes (lanes (sched s) ++ [[idx]]) (lane_sets (sched s) ++ [aset]))
              (<[tx_from t := new_lane]> (sender_lane s)))
      else
        smallest ← unwrap (smallest_lane (lanes (sched s)));
        Ok (mkSched (push_lane smallest idx aset (sched s)) (<[tx_from t := smallest]> (sender_lane s)))
    end
  end.

Fixpoint schedule_loop (max_lanes : Z) (idx : nat) (txs : list SignedTransaction) (s : Sched) : res unit Sched :=
  match txs with
  | [] => Ok s
  | t :: txs => s ← schedule_step max_lanes idx t s; schedule_loop max_lanes (S idx) txs s
  end.

Definition schedule (txs : list SignedTransaction) (max_lanes : Z) : res unit Lanes :=
  s ← schedule_loop max_lanes 0 txs (mkSched (mkLanes [] []) ∅); Ok (sched s).

(** ** Conflicts *)

Definition sub_access (a b : AccessSet) : Prop := reads a ⊆ reads b /\ writes a ⊆ writes b.

#[export] Instance sub_access_preorder : PreOrder sub_access.
Proof. split; [by intros a|]. intros a b c [? ?] [? ?]. split; by etrans. Qed.

Definition conflict (a b : AccessSet) : Prop :=
  (exists s, (s = a \/ s = b) /\ (KWildcard ∈ reads s \/ KWildcard ∈ writes s)) \/
  (exists w, w ∈ writes a /\ (w ∈ reads b \/ w ∈ writes b)) \/
  (exists w, w ∈ writes b /\ w ∈ reads a).

Lemma touches_spec s k : touches s k = true <-> k ∈ reads s \/ k ∈ writes s.
Proof. unfold touches. by rewrite orb_true_iff, !bool_decide_eq_true. Qed.

Lemma conflicts_with_spec a b : conflicts_with a b = true <-> conflict a b.
Proof.
  unfold conflicts_with, conflict. destruct (_ || _ || _ || _) eqn:Hw.
  - rewrite !orb_true_iff, !bool_decide_eq_true in Hw. split; [|done]. intros _. left.
    destruct Hw as [[[?|?]|?]|?]; eauto 6.
  - rewrite !orb_false_iff, !bool_decide_eq_false in Hw. rewrite orb_true_iff, !existsb_exists.
    setoid_rewrite <-list_elem_of_In. setoid_rewrite elem_of_elements. setoid_rewrite touches_spec.
    setoid_rewrite bool_decide_eq_true. split; [by right|].
    intros [(s & [->| ->] & [?|?])|?]; tauto.
Qed.

Lemma conflict_sym a b : conflict a b -> conflict b a.
Proof. unfold conflict. naive_solver. Qed.

Lemma conflict_mono a a' b : sub_access a a' -> conflict a b -> conflict a' b.
Proof.
  intros [Hr Hw] [(s & [->| ->] & Hs)|[(w & H1 & H2)|(w & H1 & H2)]].
  - left. exists a'. split; [by left|]. set_solver.
  - left. exists b. split; [by right|done].
  - right. left. exists w. set_solver.
  - right. right. exists w. set_solver.
Qed.

Lemma extend_sub_l a b : sub_access a (extend a b).
Proof. split; simpl; set_solver. Qed.
Lemma extend_sub_r a b : sub_access b (extend a b).
Proof. split; simpl; set_solver. Qed.

(** ** What one placement keeps *)

Definition increasing (l : list nat) : Prop := StronglySorted lt l.

Lemma increasing_snoc l n : increasing l -> (forall i, i ∈ l -> (i < n)%nat) -> increasing (l ++ [n]).
Proof.
  induction 1 as [|x l Hs IH Hx]; intros Hn; simpl; [repeat constructor|].
  constructor; [apply IH; set_solver|]. apply Forall_app. split; [done|]. repeat constructor. apply Hn. set_solver.
Qed.

(** After the transactions [txs]: the lanes list each of them once, in order,
    and every sender has one lane. *)
Record placed (max_lanes : Z) (txs : list SignedTransaction) (s : Sched) : Prop := mkPlaced {
  placed_perm : concat (lanes (sched s)) ≡ₚ seq 0 (length txs);
  placed_order : Forall increasing (lanes (sched s));
  placed_sets : length (lane_sets (sched s)) = length (lanes (sched s));
  placed_budget : zlen (lanes (sched s)) <= Z.min max_lanes (zlen txs);
  placed_range : forall a k, sender_lane s !! a = Some k -> (k < length (lanes (sched s)))%nat;
  placed_senders : forall a, is_Some (sender_lane s !! a) -> a ∈ tx_from <$> txs;
  placed_sender : forall i t, txs !! i = Some t -> exists k lane,
    sender_lane s !! tx_from t = Some k /\ lanes (sched s) !! k = Some lane /\ i ∈ lane }.

Lemma concat_alter (l : list (list nat)) k idx : (k < length l)%nat ->
  concat (alter (fun lane => lane ++ [idx]) k l) ≡ₚ idx :: concat l.
Proof.
  revert k. induction l as [|x l IH]; intros [|k] Hk; simpl in *; [lia|lia| |].
  - rewrite <-app_assoc. simpl. by rewrite Permutation_middle.
  - change (x ++ concat (alter (fun lane => lane ++ [idx]) k l) ≡ₚ idx :: x ++ concat l).
    rewrite IH by lia. by rewrite Permutation_middle.
Qed.

Lemma in_placed m txs s k lane i : placed m txs s -> lanes (sched s) !! k = Some lane -> i ∈ lane ->
  (i < length txs)%nat.
Proof.
  intros P Hk Hi. assert (i ∈ concat (lanes (sched s))) as Hc.
  { apply list_elem_of_In, in_concat. exists lane. split; [|by apply list_elem_of_In].
    apply list_elem_of_In. by eapply list_elem_of_lookup_2. }
  rewrite (placed_perm _ _ _ P), elem_of_seq in Hc. lia.
Qed.

(** Pushing the next transaction on a lane, its sender's if it has one. *)
Lemma placed_push m txs s t k : placed m txs s -> (k < length (lanes (sched s)))%nat ->
  (forall k', sender_lane s !! tx_from t = Some k' -> k' = k) ->
  placed m (txs ++ [t]) (mkSched (push_lane k (length txs) (derive_access_set t) (sched s))
    (<[tx_from t := k]> (sender_lane s))).
Proof.
  intros P Hk Hs. pose proof P as [Hp Ho Hl Hb Hr Hd Hm]. split; simpl.
  - rewrite concat_alter by done. rewrite Hp, length_app, Nat.add_1_r, seq_S. simpl.
    by rewrite Permutation_cons_append.
  - apply Forall_alter; [done|]. intros lane Hlane Hinc. apply increasing_snoc; [done|].
    intros i. by apply (in_placed m txs s k).
  - by rewrite !length_alter.
  - unfold zlen in *. rewrite length_alter, length_app. simpl. lia.
  - intros a j. rewrite length_alter, lookup_insert_Some. intros [[<- <-]|[_ Hj]]; [done|by eapply Hr].
  - intros a [j Hj]. rewrite fmap_app, elem_of_app. apply lookup_insert_Some in Hj as [[<- _]|[_ Hj]].
    + right. simpl. set_solver.
    + left. apply Hd. by eexists.
  - intros i u Hi. apply lookup_app_Some in Hi as [Hi|[Hge Hi]].
    + destruct (Hm i u Hi) as (j & lane & Hj & Hlane & Hin).
      destruct (decide (tx_from u = tx_from t)) as [He|He].
      * rewrite He in Hj. rewrite (Hs _ Hj) in *. exists k, (lane ++ [length txs]).
        rewrite He, lookup_insert_eq, list_lookup_alter_eq, Hlane. simpl. set_solver.
      * destruct (decide (j = k)) as [->|Hjk].
        -- exists k, (lane ++ [length txs]). rewrite lookup_insert_ne, list_lookup_alter_eq, Hlane by done.
           simpl. set_solver.
        -- exists j, lane. by rewrite lookup_insert_ne, list_lookup_alter_ne by done.
    + apply list_lookup_singleton_Some in Hi as [Hi <-]. assert (i = length txs) as -> by lia.
      destruct (lookup_lt_is_Some_2 _ _ Hk) as [lane Hlane]. exists k, (lane ++ [length txs]).
      rewrite lookup_insert_eq, list_lookup_alter_eq, Hlane. simpl. set_solver.
Qed.

(** Opening a lane for it. *)
Lemma placed_new m txs s t : placed m txs s -> sender_lane s !! tx_from t = None -> zlen (lanes (sched s)) < m ->
  placed m (txs ++ [t]) (mkSched (mkLanes (lanes (sched s) ++ [[length txs]])
    (lane_sets (sched s) ++ [derive_access_set t])) (<[tx_from t := length (lanes (sched s))]> (sender_lane s))).
Proof.
  intros [Hp Ho Hl Hb Hr Hd Hm] Hn Hlt. split; simpl.
  - rewrite concat_app. simpl. rewrite Hp, length_app, Nat.add_1_r, seq_S. done.
  - apply Forall_app. split; [done|]. repeat constructor.
  - rewrite !length_app. simpl. lia.
  - unfold zlen in *. rewrite !length_app. simpl. lia.
  - intros a j. rewrite length_app. simpl. rewrite lookup_insert_Some.
    intros [[_ <-]|[_ Hj]]; [lia|]. apply Hr in Hj. lia.
  - intros a [j Hj]. rewrite fmap_app, elem_of_app. apply lookup_insert_Some in Hj as [[<- _]|[_ Hj]].
    + right. simpl. set_solver.
    + left. apply Hd. by eexists.
  - intros i u Hi. apply lookup_app_Some in Hi as [Hi|[Hge Hi]].
    + destruct (Hm i u Hi) as (j & lane & Hj & Hlane & Hin). exists j, lane.
      rewrite lookup_insert_ne by congruence. split_and!; [done| |done]. by apply lookup_app_l_Some.
    + apply list_lookup_singleton_Some in Hi as [Hi <-]. assert (i = length txs) as -> by lia.
      exists (length (lanes (sched s))), [length txs]. rewrite lookup_insert_eq, list_lookup_middle by done.
      split_and!; [done..|]. set_solver.
Qed.

Lemma smallest_lane_lt l : l <> [] -> exists k, smallest_lane l = Some k /\ (k < length l)%nat.
Proof.
  destruct l as [|x l]; [done|]. intros _. eexists. split; [done|].
  assert (forall l b n i, (b < i)%nat ->
    (fst (foldl (fun '(best, n, i) lane => if Nat.ltb (length lane) n then (i, length lane, S i) else (best, n, S i))
       (b, n, i) l).1 < i + length (l : list (list nat)))%nat) as H.
  { clear. induction l as [|y l IH]; intros b n i Hb; simpl; [lia|].
    destruct (Nat.ltb (length y) n); [specialize (IH i (length y) (S i))|specialize (IH b n (S i))]; lia. }
  specialize (H l 0%nat (length x) 1%nat ltac:(lia)). simpl. lia.
Qed.

Lemma schedule_step_placed m txs s t : 1 <= m -> placed m txs s ->
  exists s', schedule_step m (length txs) t s = Ok s' /\ placed m (txs ++ [t]) s'.
Proof.
  intros Hm P. unfold schedule_step. destruct (sender_lane s !! tx_from t) as [k|] eqn:Hs.
  - eexists. split; [done|]. rewrite <-(insert_id (sender_lane s) (tx_from t) k) by done.
    apply placed_push; [done|by eapply placed_range|congruence].
  - destruct (list_find _ _) as [[k lset]|] eqn:Hf.
    + eexists. split; [done|]. apply placed_push; [done| |congruence].
      apply list_find_Some in Hf as (Hk & _). apply lookup_lt_Some in Hk. by rewrite (placed_sets _ _ _ P) in Hk.
    + destruct (Z.ltb_spec (zlen (lanes (sched s))) m) as [Hlt|Hge].
      * eexists. split; [done|]. by apply placed_new.
      * destruct (smallest_lane_lt (lanes (sched s))) as (k & Hk & Hlt).
        { intros He. rewrite He in Hge. unfold zlen in Hge. simpl in Hge. lia. }
        rewrite Hk. eexists. split; [done|]. apply placed_push; [done..|congruence].
Qed.

Lemma schedule_loop_placed m rest txs s : 1 <= m -> placed m txs s ->
  exists s', schedule_loop m (length txs) rest s = Ok s' /\ placed m (txs ++ rest) s'.
Proof.
  intros Hm. revert txs s. induction rest as [|t rest IH]; intros txs s P.
  - exists s. by rewrite app_nil_r.
  - destruct (schedule_step_placed m txs s t Hm P) as (s1 & E1 & P1).
    destruct (IH _ _ P1) as (s2 & E2 & P2). exists s2. simpl. rewrite E1. simpl.
    rewrite length_app, Nat.add_1_r in E2. rewrite <-app_assoc in P2. by split.
Qed.

Lemma placed_empty m : 1 <= m -> placed m [] (mkSched (mkLanes [] []) ∅).
Proof.
  intros Hm. split; simpl; try done; [unfold zlen; simpl; lia|].
  intros a [k Hk]. by rewrite lookup_empty in Hk.
Qed.

(** With at least one lane the scheduler never panics; the lanes, at most
    [max_lanes] of them, list every transaction exactly once, each lane in
    submission order, and the transactions of a sender share a lane. *)
Theorem schedule_partition txs max_lanes : 1 <= max_lanes ->
  exists l, schedule txs max_lanes = Ok l /\
    concat (lanes l) ≡ₚ seq 0 (length txs) /\ Forall increasing (lanes l) /\
    Z.of_nat (lane_count l) <= max_lanes /\
    (forall i j t u, txs !! i = Some t -> txs !! j = Some u -> tx_from t = tx_from u ->
       exists k lane, lanes l !! k = Some lane /\ i ∈ lane /\ j ∈ lane).
Proof.
  intros Hm. destruct (schedule_loop_placed max_lanes txs [] _ Hm (placed_empty _ Hm)) as (s & E & [Hp Ho Hl Hb Hr Hd Hs]).
  exists (sched s). unfold schedule. simpl in E. rewrite E. simpl in *. split_and!; [done..| |].
  - unfold lane_count, zlen in *. lia.
  - intros i j t u Hi Hj He. destruct (Hs i t Hi) as (k & lane & Hk & Hlane & Hin).
    destruct (Hs j u Hj) as (k' & lane' & Hk' & Hlane' & Hin'). exists k, lane.
    rewrite He, Hk' in Hk. injection Hk as ->. rewrite Hlane in Hlane'. injection Hlane' as ->. done.
Qed.

(** ** Conflicts and lanes *)

Abbreviation access_of txs i := (derive_access_set <$> (txs : list SignedTransaction) !! (i : nat)).

(** A lane's set covers its transactions, which do not conflict. *)
Definition separated (txs : list SignedTransaction) (s : Lanes) : Prop :=
  forall k lane lset, lanes s !! k = Some lane -> lane_sets s !! k = Some lset ->
    (forall i a, i ∈ lane -> access_of txs i = Some a -> sub_access a lset) /\
    (forall i j a b, i ∈ lane -> j ∈ lane -> i <> j -> access_of txs i = Some a -> access_of txs j = Some b ->
       ~ conflict a b).

Lemma access_of_app txs t i a : access_of txs i = Some a -> access_of (txs ++ [t]) i = Some a.
Proof. intros (u & Hu & ->)%fmap_Some. apply fmap_Some. exists u. split; [by apply lookup_app_l_Some|done]. Qed.

Lemma access_of_before txs t i : (i < length txs)%nat -> access_of (txs ++ [t]) i = access_of txs i.
Proof. intros Hi. by rewrite lookup_app_l. Qed.

Lemma access_of_last txs t : access_of (txs ++ [t]) (length txs) = Some (derive_access_set t).
Proof. by rewrite list_lookup_middle. Qed.

Lemma separated_step m txs s t s' : placed m txs s -> separated txs (sched s) ->
  tx_from t ∉ tx_from <$> txs -> zlen txs < m ->
  schedule_step m (length txs) t s = Ok s' -> separated (txs ++ [t]) (sched s').
Proof.
  intros P Hsep Hnew Hroom. unfold schedule_step.
  assert (sender_lane s !! tx_from t = None) as ->.
  { apply eq_None_not_Some. intros Hs. by apply Hnew, (placed_senders _ _ _ P). }
  assert (forall k lane i, lanes (sched s) !! k = Some lane -> i ∈ lane -> (i < length txs)%nat) as Hin
    by (intros; by eapply in_placed).
  destruct (list_find _ _) as [[k0 lset0]|] eqn:Hf.
  - intros [= <-]. apply list_find_Some in Hf as (Hk0 & Hnc & _). simpl in Hnc.
    assert (~ conflict lset0 (derive_access_set t)) as Hc by (rewrite <-conflicts_with_spec; congruence).
    intros k lane lset Hlane Hlset. simpl in *. destruct (decide (k = k0)) as [->|Hne].
    2:{ rewrite list_lookup_alter_ne in Hlane by done. rewrite list_lookup_alter_ne in Hlset by done. destruct (Hsep k lane lset Hlane Hlset) as [H1 H2].
        split.
        - intros i a Hi. rewrite access_of_before by by eapply Hin. by apply H1.
        - intros i j a b Hi Hj. rewrite !access_of_before by by eapply Hin. by apply H2. }
    rewrite list_lookup_alter_eq in Hlane. rewrite list_lookup_alter_eq in Hlset. rewrite Hk0 in Hlset. injection Hlset as <-.
    apply fmap_Some in Hlane as (lane0 & Hlane0 & ->). destruct (Hsep k0 lane0 lset0 Hlane0 Hk0) as [H1 H2].
    assert (forall i a, i ∈ lane0 -> access_of (txs ++ [t]) i = Some a -> access_of txs i = Some a) as Hold.
    { intros i a Hi. by rewrite access_of_before by by eapply Hin. }
    split.
    + intros i a [Hi|Hi%list_elem_of_singleton]%elem_of_app Ha.
      * etrans; [by eapply H1, Hold|apply extend_sub_l].
      * subst. rewrite access_of_last in Ha. injection Ha as <-. apply extend_sub_r.
    + intros i j a b [Hi|Hi%list_elem_of_singleton]%elem_of_app [Hj|Hj%list_elem_of_singleton]%elem_of_app Hne Ha Hb.
      * by apply (H2 i j); try done; apply Hold.
      * subst. rewrite access_of_last in Hb. injection Hb as <-. intros Hcf. apply Hc.
        eapply conflict_mono; [|exact Hcf]. by eapply H1, Hold.
      * subst. rewrite access_of_last in Ha. injection Ha as <-. intros Hcf. apply Hc.
        eapply conflict_mono; [|apply conflict_sym, Hcf]. by eapply H1, Hold.
      * by subst.
  - pose proof (placed_budget _ _ _ P). rewrite (proj2 (Z.ltb_lt _ _)) by lia. intros [= <-].
    intros k lane lset Hlane Hlset. simpl in *. pose proof (placed_sets _ _ _ P) as Hlen.
    apply lookup_app_Some in Hlane as [Hlane|[Hk Hlane]].
    + rewrite lookup_app_l in Hlset by (rewrite Hlen; by eapply lookup_lt_Some).
      destruct (Hsep k lane lset Hlane Hlset) as [H1 H2]. split.
      * intros i a Hi. rewrite access_of_before by by eapply Hin. by apply H1.
      * intros i j a b Hi Hj. rewrite !access_of_before by by eapply Hin. by apply H2.
    + apply list_lookup_singleton_Some in Hlane as [Hk0 <-]. rewrite <-Hlen in *.
      rewrite lookup_app_r, Hk0 in Hlset by done. injection Hlset as <-. split.
      * intros i a ->%list_elem_of_singleton. rewrite access_of_last. by intros [= <-].
      * intros i j a b ->%list_elem_of_singleton ->%list_elem_of_singleton. done.
Qed.

Lemma separated_loop m rest txs s s' : placed m txs s -> separated txs (sched s) ->
  NoDup (tx_from <$> txs ++ rest) -> zlen (txs ++ rest) <= m ->
  schedule_loop m (length txs) rest s = Ok s' -> separated (txs ++ rest) (sched s').
Proof.
  revert txs s. induction rest as [|t rest IH]; intros txs s P Hsep Hnd Hm Hl.
  - injection Hl as <-. by rewrite app_nil_r.
  - simpl in Hl. assert (1 <= m) as Hm1. { unfold zlen in Hm. rewrite length_app in Hm. simpl in Hm. lia. }
    destruct (schedule_step_placed m txs s t Hm1 P) as (s1 & E1 & P1). rewrite E1 in Hl. simpl in Hl.
    rewrite (app_assoc txs [t] rest : txs ++ t :: rest = (txs ++ [t]) ++ rest) in Hnd, Hm |- *.
    apply (IH (txs ++ [t]) s1); [done| |done|done|by rewrite length_app, Nat.add_1_r].
    eapply separated_step; [exact P|done| | |exact E1].
    + rewrite <-app_assoc, fmap_app in Hnd. apply NoDup_app in Hnd as (_ & Hd & _). intros Hin.
      apply (Hd _ Hin). simpl. set_solver.
    + unfold zlen in *. rewrite !length_app in Hm. simpl in Hm. lia.
Qed.

(** Two conflicting transactions of different senders never share a lane, as
    long as the lanes suffice: they are the ones scheduled in parallel, while
    a lane is filled with transactions that do not conflict. *)
Theorem schedule_splits_conflicts txs max_lanes l : NoDup (tx_from <$> txs) ->
  1 <= max_lanes -> zlen txs <= max_lanes -> schedule txs max_lanes = Ok l ->
  forall i j t u k lane, txs !! i = Some t -> txs !! j = Some u -> i <> j ->
    conflicts_with (derive_access_set t) (derive_access_set u) = true ->
    lanes l !! k = Some lane -> ~ (i ∈ lane /\ j ∈ lane).
Proof.
  intros Hnd Hm Hlen Hs i j t u k lane Hi Hj Hne Hc Hlane [Hil Hjl]. unfold schedule in Hs.
  destruct (schedule_loop max_lanes 0 txs _) as [s| |] eqn:E; [|done..]. injection Hs as <-.
  assert (separated txs (sched s)) as Hsep.
  { apply (separated_loop max_lanes txs [] _ s (placed_empty _ Hm)); [|done..]. by intros [] lane' lset'. }
  destruct (schedule_loop_placed max_lanes txs [] _ Hm (placed_empty _ Hm)) as (s' & E' & P).
  simpl in E'. rewrite E in E'. injection E' as <-.
  destruct (lookup_lt_is_Some_2 (lane_sets (sched s)) k) as [lset Hlset].
  { rewrite (placed_sets _ _ _ P). by eapply lookup_lt_Some. }
  apply (proj2 (Hsep k lane lset Hlane Hlset) i j (derive_access_set t) (derive_access_set u)); try done.
  - by rewrite Hi.
  - by rewrite Hj.
  - by apply conflicts_with_spec.
Qed.

(** ** A block of three transfers *)

Definition transfer_tx (from to : Z) : SignedTransaction :=
  mkSigned (mkTx DynamicFee 0 0 1 21000 (Some (replicate 20 to)) 0 [] [] 8989) (mkSig 0 [] []) (replicate 20 from) [].

Definition three_txs : list SignedTransaction := [transfer_tx 1 99; transfer_tx 2 99; transfer_tx 3 4].

Lemma schedule_partition_witness : exists l, schedule three_txs 8 = Ok l /\ concat (lanes l) ≡ₚ seq 0 3.
Proof.
  destruct (schedule_partition three_txs 8) as (l & E & H & _); [lia|]. exists l. split; [exact E|exact H].
Defined.

(** The two payments to one account get a lane each, the unrelated transfer
    shares the first of them. *)
Lemma schedule_splits_conflicts_witness :
  schedule three_txs 8 = Ok (mkLanes [[0; 2]; [1]]%nat
    (match schedule three_txs 8 with Ok l => lane_sets l | _ => [] end)) /\
  ~ ((0 ∈ [0; 2])%nat /\ (1 ∈ [0; 2])%nat).
Proof.
  assert (schedule three_txs 8 = Ok (mkLanes [[0; 2]; [1]]%nat
    (match schedule three_txs 8 with Ok l => lane_sets l | _ => [] end))) as E by (vm_compute; reflexivity).
  split; [exact E|].
  refine (schedule_splits_conflicts three_txs 8 _ _ _ _ E 0%nat 1%nat (transfer_tx 1 99) (transfer_tx 2 99) 0%nat
    [0; 2]%nat eq_refl eq_refl _ _ eq_refl); [|lia|unfold zlen; simpl; lia|lia|vm_compute; reflexivity].
  apply (bool_decide_eq_true_1 (NoDup (tx_from <$> three_txs))). vm_compute. reflexivity.
Defined.
