(* ===== verification/Executor.v ===== *)
(** * Block execution (crates/zbx-execution/src/executor.rs, verifier.rs, error.rs)

    A block's transactions one after the other on a [StateView]: admission,
    the purchase of gas, the dispatch to a precompile, a plain transfer or the
    EVM, the refund and the transfer of value, the tip of the proposer, the
    block reward and the roots.  The branch for the second virtual machine
    (ZvmExec.v has it) and the transactions' signing hash are arguments; the
    staking variant of the loop is in StakingChain.v.  [fuel] is that of the EVM's loop. *)

From Stdlib Require Import ZArith Lia.
From stdpp Require Import base tactics list gmap numbers option.
From S2P Require Import Prelude Bytes Crypto Block EvmMachine EvmHost NativeReads EvmPrecompiles EvmInterp EvmMock TrieNode Trie Receipt Account StateMpt MptRoot Transaction StateView.

Set Warnings "-register-all".
Local Open Scope Z_scope.

(** ** Block reward (crates/zbx-types/src/lib.rs) *)

Definition INITIAL_BLOCK_REWARD : Z := 2 * 10 ^ 18.
Definition HALVING_INTERVAL : Z := 63072000.
Definition block_reward_at (height : Z) : Z :=
  let halvings := height / HALVING_INTERVAL in
  if 64 <=? halvings then 0 else Z.shiftr INITIAL_BLOCK_REWARD halvings.

(** ** Errors *)

(** What the texts of [State] and [Validation] report. *)
Inductive StateError : Type := OfNonce (e : NonceError) | OfTrie (e : TrieError).
Inductive ValidationError : Type :=
| GasLimitAboveMax (limit max : Z)
| OfHeader (e : HeaderError)
| TransactionsRootMismatch
| GasUsedMismatch (header execution : Z)
| StateRootMismatch (height : Z)
| ReceiptsRootMismatch (height : Z)
| LogsBloomMismatch (height : Z)
| GasUsedAboveLimit (used limit height : Z).

Inductive ExecutionError : Type :=
| OutOfGas (used limit : Z)
| InvalidNonce (expected got : Z)
| InsufficientBalance (balance cost : Z)
| IntrinsicGasTooLow (required provided : Z)
| CreateFailed
| Revert
| StackOverflow
| InvalidJump
| State (e : StateError)
| Validation (e : ValidationError).

(** The code's errors, and the exhaustion of the EVM's fuel. *)
Inductive ExecStop : Type := Fail (e : ExecutionError) | NoFuel.

Abbreviation V := (M StateView ExecStop).
Abbreviation TxBlock := (Block (list SignedTransaction)).

Record TxResult : Type := mkTxResult {
  r_gas_used : Z; r_effective_price : Z; r_success : bool; r_logs : list Log; r_contract_address : option Address }.

(** The account's balance grows by [amount], saturating. *)
Definition add_balance (addr : Address) (amount : Z) (v : StateView) : StateView :=
  let acct := get_account addr v in
  set_account addr (set_balance_u128 (sat 128 (balance_u128 acct + amount)) acct) v.

Definition set_vm (k : VmKind) (a : AccountState) : AccountState :=
  mkAccount (Account.nonce a) (Account.balance a) (Account.code_hash a) (storage_root a) k.

(** The call target of a transaction, and the code to run. *)
Record Target : Type := mkTarget {
  contract_address : option Address; code_to_run : bytes; t_callee : Address;
  is_pure_value_transfer : bool; callee_vm : VmKind }.

Definition ZVM_DEPLOY_DISCRIMINATOR : Z := 0x5A.

Section executor.
Context `{PR : Primitives} (fuel : nat).
Context (run_zvm : SignedTransaction -> BlockHeader -> Target -> Z -> V (ExitStatus * Z * list Log)).

(** Steps 1 and 2: nonce, balance and intrinsic gas; the gas is bought at the
    maximum fee, the value is set aside and the nonce bumped.  The value is the
    low 128 bits; the sum subtracted wraps. *)
Definition max_cost (t : Transaction) : Z := max_fee_per_gas t * gas_limit t.
Definition value_u128 (t : Transaction) : Z := be_val (drop 16 (to_be 32 (tx_value t))).

Definition buy_gas (t : SignedTransaction) : V unit :=
  v ← get_st;
  let sender := get_account (tx_from t) v in
  _ ← throw_if (negb (tx_nonce (tx t) =? Account.nonce sender))
        (Fail (InvalidNonce (Account.nonce sender) (tx_nonce (tx t))));
  let total_cost := sat 128 (max_cost (tx t) + value_u128 (tx t)) in
  let balance := balance_u128 sender in
  _ ← throw_if (balance <? total_cost) (Fail (InsufficientBalance balance total_cost));
  let intrinsic := intrinsic_gas (tx t) in
  _ ← throw_if (gas_limit (tx t) <? intrinsic) (Fail (IntrinsicGasTooLow intrinsic (gas_limit (tx t))));
  let sender := set_balance_u128 (sat 128 (balance - u128 (max_cost (tx t) + value_u128 (tx t)))) sender in
  match increment_nonce sender with
  | (Ok _, sender) => modify (set_account (tx_from t) sender)
  | (Err e, _) => lift (Err (Fail (State (OfNonce e))))
  | (Panic, _) => lift Panic
  end.

(** Step 3. *)
Definition create_address (t : SignedTransaction) : Address :=
  drop 12 (keccak256 (tx_from t ++ to_be 8 (tx_nonce (tx t)))).
(** The deploy-time choice of the virtual machine. *)
Definition init_code (data : bytes) : VmKind * bytes :=
  match data with
  | b :: rest => if b =? ZVM_DEPLOY_DISCRIMINATOR then (Zvm, rest) else (Evm, data)
  | [] => (Evm, data)
  end.

Definition deploy (new_addr : Address) (vm : VmKind) (code : bytes) (v : StateView) : StateView :=
  match code with
  | [] => v
  | _ =>
    let code_hash := keccak256 code in
    let v := seed_code code_hash code v in
    let acct := Account.set_code_hash code_hash (get_account new_addr v) in
    set_account new_addr (if bool_decide (vm = Zvm) then set_vm Zvm acct else acct) v
  end.

Definition resolve_target (t : SignedTransaction) : V Target :=
  match tx_to (tx t) with
  | None =>
    let new_addr := create_address t in
    let '(vm, code) := init_code (tx_data (tx t)) in
    _ ← modify (deploy new_addr vm code);
    mret (mkTarget (Some new_addr) code new_addr false vm)
  | Some to =>
    v ← get_st;
    let to_acct := get_account to v in
    if is_contract to_acct then mret (mkTarget None (get_code to v) to false (Account.vm to_acct))
    else mret (mkTarget None [] to true Evm)
  end.

(** Step 4. *)
Definition evm_context (t : SignedTransaction) (h : BlockHeader) (callee : Address) (gas : Z) : EVMContext :=
  mkCtx (tx_from t) callee (to_be 32 (tx_value (tx t))) (match tx_to (tx t) with Some _ => tx_data (tx t) | None => [] end)
    gas false (Block.number h) (Block.timestamp h) (Block.coinbase h) (Block.base_fee_per_gas h)
    (Transaction.effective_gas_price t (Block.base_fee_per_gas h)) (tx_from t) (tx_chain_id (tx t)) (Block.mix_hash h).

Definition receipt_log (h : BlockHeader) (l : EvmLog) : Log :=
  Receipt.mkLog (EvmInterp.log_address l) (EvmInterp.topics l) (EvmInterp.log_data l) (Block.number h) 0 (replicate 32 0) 0.

(** The interpreter starts on an empty host, whose writes are dropped. *)
Definition run_evm (t : SignedTransaction) (h : BlockHeader) (tgt : Target) (gas : Z) : V (ExitStatus * Z * list Log) :=
  match EvmInterp.execute fuel (evm_context t h (t_callee tgt) gas) (code_to_run tgt) mock_new with
  | (Ok status, s) =>
    mret (status, sat 64 (gas - EvmInterp.gas_remaining s), map (receipt_log h) (EvmInterp.logs s))
  | (Err _, _) => lift (Err NoFuel)
  | (Panic, _) => lift Panic
  end.

Definition run_target (t : SignedTransaction) (h : BlockHeader) (tgt : Target) : V (ExitStatus * Z * list Log) :=
  let forwarded := sat 64 (gas_limit (tx t) - intrinsic_gas (tx t)) in
  if negb (bool_decide (tx_to (tx t) = None)) && is_precompile (t_callee tgt) then
    match call_precompile (t_callee tgt) (tx_data (tx t)) forwarded with
    | Ok (_, used) => mret (Succeeded, used, [])
    | Err e => mret (Failed e, forwarded, [])
    | Panic => lift Panic
    end
  else if is_pure_value_transfer tgt || bool_decide (code_to_run tgt = []) then mret (Succeeded, 0, [])
  else if bool_decide (callee_vm tgt = Zvm) then run_zvm t h tgt forwarded
  else run_evm t h tgt forwarded.

(** Step 6. *)
Definition finish_create (new_addr : Address) (value : Z) (vm : VmKind) (v : StateView) : StateView :=
  if is_deleted new_addr v then v
  else
    let acct := get_account new_addr v in
    let acct := if 0 <? value then set_balance_u128 (sat 128 (balance_u128 acct + value)) acct else acct in
    set_account new_addr (if bool_decide (vm = Zvm) then set_vm Zvm acct else acct) v.

Definition settle_value (t : SignedTransaction) (tgt : Target) (success : bool) (v : StateView) : StateView :=
  let value := value_u128 (tx t) in
  if success then
    match tx_to (tx t), contract_address tgt with
    | Some to, _ => add_balance to value v
    | None, Some new_addr => finish_create new_addr value (callee_vm tgt) v
    | None, None => v
    end
  else add_balance (tx_from t) value v.

Definition execute_tx (t : SignedTransaction) (h : BlockHeader) : V TxResult :=
  let effective_price := Transaction.effective_gas_price t (Block.base_fee_per_gas h) in
  _ ← buy_gas t;
  tgt ← resolve_target t;
  '(exit_status, evm_gas_used, logs) ← run_target t h tgt;
  let gas_used := Z.min (sat 64 (intrinsic_gas (tx t) + evm_gas_used)) (gas_limit (tx t)) in
  let success := match exit_status with Succeeded => true | _ => false end in
  let fee_owed := gas_used * effective_price in
  let gas_refund := sat 128 (max_cost (tx t) - fee_owed) in
  _ ← modify (add_balance (tx_from t) gas_refund);
  _ ← modify (settle_value t tgt success);
  mret (mkTxResult gas_used effective_price success logs (contract_address tgt)).

(** ** The loop over a block *)

Record ExecutionResult : Type := mkResult {
  receipts : list TransactionReceipt; state_diff : StateDiff; block_gas_used : Z; new_state_root : H256;
  transactions_root : H256; receipts_root : H256; logs_bloom : bytes }.

Definition make_receipt (block_hash : H256) (h : BlockHeader) (idx : nat) (t : SignedTransaction) (r : TxResult) (cumulative : Z)
    : TransactionReceipt :=
  mkReceipt (if r_success r then Success else Failure) cumulative (compute_receipt_bloom keccak256 (r_logs r)) (r_logs r)
    (tx_hash t) (u32 (Z.of_nat idx)) block_hash (Block.number h) (tx_from t) (tx_to (tx t)) (r_contract_address r)
    (r_gas_used r) (r_effective_price r).

Definition tip_of (h : BlockHeader) (r : TxResult) : Z :=
  sat 64 (r_effective_price r - Block.base_fee_per_gas h) * r_gas_used r.

Fixpoint execute_txs (block_hash : H256) (h : BlockHeader) (idx : nat) (txs : list SignedTransaction) (cumulative : Z)
    (acc : list TransactionReceipt) : V (Z * list TransactionReceipt) :=
  match txs with
  | [] => mret (cumulative, acc)
  | t :: txs =>
    r ← execute_tx t h;
    let cumulative := u64 (cumulative + r_gas_used r) in
    _ ← modify (add_balance (Block.coinbase h) (tip_of h r));
    execute_txs block_hash h (S idx) txs cumulative (acc ++ [make_receipt block_hash h idx t r cumulative])
  end.

Context (signing_hash : Transaction -> H256) (L : Listing).

Definition compute_tx_root {E} (txs : list SignedTransaction) : res E H256 :=
  transactions_root_mpt keccak256 (map (fun t => signing_hash (tx t)) txs).

Definition execute_inner {DB} `{TrieDB DB} (block : TxBlock) (db : option DB) : V ExecutionResult :=
  let h := Block.header block in
  _ ← throw_if (Block.BLOCK_GAS_LIMIT <? Block.gas_limit h)
        (Fail (Validation (GasLimitAboveMax (Block.gas_limit h) Block.BLOCK_GAS_LIMIT)));
  let block_hash := keccak256 (canonical_encode h) in
  '(gas, receipts) ← execute_txs block_hash h 0 (Block.body block) 0 [];
  let reward := block_reward_at (Block.number h) in
  _ ← (if 0 <? reward then modify (add_balance (Block.coinbase h) reward) else mret tt);
  v ← get_st;
  new_state_root ← lift (map_err (fun e => Fail (State (OfTrie e)))
    match db with
    | Some d => state_root_with_db keccak256 L v d
    | None => StateView.state_root keccak256 L v
    end);
  transactions_root ← lift (compute_tx_root (Block.body block));
  let receipts_root := compute_receipts_root keccak256 receipts in
  let logs_bloom := aggregate_block_bloom receipts in
  mret (mkResult receipts (into_diff v) gas new_state_root transactions_root receipts_root logs_bloom).

(** The view is consumed. *)
Definition execute_with_db {DB} `{TrieDB DB} (block : TxBlock) (view : StateView) (db : DB) : res ExecStop ExecutionResult :=
  fst (execute_inner block (Some db) view).
Definition execute (block : TxBlock) (view : StateView) : res ExecStop ExecutionResult :=
  fst (execute_inner block (None : option MemoryTrieDB) view).
End executor.

(** ** Slashing *)

Definition apply_slash_burn (offender : Address) (amount_wei : Z) (v : StateView) : Z * StateView :=
  let acct := get_account offender v in
  let bal := balance_u128 acct in
  let actual := Z.min amount_wei bal in
  (actual, set_account offender (set_balance_u128 (u128 (bal - actual)) acct) v).

(** ** BlockVerifier *)

Section verifier.
Context {CR : Crypto} (signing_hash : Transaction -> H256).
Abbreviation Verdict := (res ExecutionError unit).

Definition check (ok : bool) (e : ValidationError) : Verdict := guard_err (negb ok) (Validation e).

Definition verify_header (h parent : BlockHeader) : Verdict :=
  map_err (fun e => Validation (OfHeader e)) (validate_against_parent h parent).
Definition verify_transactions_root (b : TxBlock) : Verdict :=
  computed ← transactions_root_mpt Crypto.keccak256 (map (fun t => signing_hash (tx t)) (Block.body b));
  check (bool_decide (computed = Block.transactions_root (Block.header b))) TransactionsRootMismatch.
Definition verify_gas_used (b : TxBlock) (actual_gas : Z) : Verdict :=
  check (Block.gas_used (Block.header b) =? actual_gas) (GasUsedMismatch (Block.gas_used (Block.header b)) actual_gas).
Definition verify_state_root (b : TxBlock) (computed : H256) : Verdict :=
  check (bool_decide (Block.state_root (Block.header b) = computed)) (StateRootMismatch (b_number b)).
Definition verify_receipts_root (b : TxBlock) (computed : H256) : Verdict :=
  check (bool_decide (Block.receipts_root (Block.header b) = computed)) (ReceiptsRootMismatch (b_number b)).
Definition verify_logs_bloom (b : TxBlock) (computed : bytes) : Verdict :=
  check (bool_decide (Block.logs_bloom (Block.header b) = computed)) (LogsBloomMismatch (b_number b)).
Definition verify_gas_limit_bound (b : TxBlock) : Verdict :=
  check (Block.gas_used (Block.header b) <=? Block.gas_limit (Block.header b))
    (GasUsedAboveLimit (Block.gas_used (Block.header b)) (Block.gas_limit (Block.header b)) (b_number b)).
End verifier.
