(* ===== verification/BlockExec.v ===== *)
(** * What executing a block does to the accounts (crates/zbx-execution/src/executor.rs)

    Balances, nonces and the total supply along the steps of Executor.v, for
    transactions that do not enter the second virtual machine. *)

From Stdlib Require Import ZArith Lia.
From stdpp Require Import base tactics list gmap numbers option.
From S2P Require Import Prelude Bytes Collections U256 Crypto Block EvmMachine EvmHost NativeReads EvmPrecompiles EvmInterp EvmMock EvmLogic EvmRun TrieNode Trie Receipt Account StateMpt MptRoot Transaction StateView Executor.

Set Warnings "-register-all".
Local Open Scope Z_scope.

(** ** Accounts of a view *)

Definition bal (a : Address) (v : StateView) : Z := Account.balance (get_account a v).
Definition nonce_of (a : Address) (v : StateView) : Z := Account.nonce (get_account a v).
Definition balances (v : StateView) : gmap Address Z := Account.balance <$> visible v.
Definition total (v : StateView) : Z := msum (balances v).

Definition acct_ok (st : AccountState) : Prop := in_range 64 (Account.nonce st) /\ 0 <= Account.balance st.
Record view_ok (v : StateView) : Prop := mkViewOk {
  view_accounts : forall a, acct_ok (get_account a v);
  view_vm : forall a, vm (get_account a v) = Evm;
  view_tombs : view_deleted v = ∅ }.

Lemma bal_mval a v : bal a v = mval (balances v) a.
Proof.
  unfold bal, mval, balances. rewrite get_visible, lookup_fmap. unfold at_. by destruct (visible v !! a).
Qed.

Lemma bal_le_total a v : view_ok v -> 0 <= bal a v <= total v.
Proof.
  intros Hv. split; [apply Hv|]. rewrite bal_mval. apply mval_le_msum. intros j. rewrite <-bal_mval. apply Hv.
Qed.

Lemma set_account_tombs a st v : view_deleted v = ∅ -> view_deleted (set_account a st v) = ∅.
Proof.
  intros Hv. unfold set_account. rewrite bool_decide_eq_false_2 by (rewrite Hv; set_solver). cbv zeta.
  by repeat case_match.
Qed.

(** One account was written. *)
Record wrote (a : Address) (st : AccountState) (v v' : StateView) : Prop := mkWrote {
  wrote_ok : view_ok v';
  wrote_at : forall b, get_account b v' = if decide (b = a) then guarded (get_account a v) st else get_account b v;
  wrote_total : total v' = total v - bal a v + Account.balance st }.

Lemma set_account_wrote a st v : view_ok v -> acct_ok st -> vm st = Evm -> wrote a st v (set_account a st v).
Proof.
  intros Hv [Hn Hb] Hvm. unfold in_range in *. assert (forall b, get_account b (set_account a st v) =
    if decide (b = a) then guarded (get_account a v) st else get_account b v) as Hat.
  { intros b. rewrite (get_visible b), set_visible, (get_visible b) by lia. unfold at_.
    case_decide as He; [by rewrite He, lookup_insert_eq|by rewrite lookup_insert_ne]. }
  destruct (guarded_fields (get_account a v) st) as (Gn & Gb & Gv).
  split; [|done|].
  - split; [intros b; rewrite Hat; case_decide; try apply Hv..|].
    + unfold acct_ok, in_range. rewrite Gn, Gb. pose proof (proj1 (view_accounts v Hv a)). unfold in_range in *. lia.
    + by rewrite Gv.
    + apply set_account_tombs, Hv.
  - unfold total, balances. rewrite set_visible, fmap_insert, msum_insert by lia.
    fold (balances v). rewrite <-bal_mval, Gb. done.
Qed.

Lemma guarded_same prior st : Account.nonce st = Account.nonce prior -> Account.code_hash st = Account.code_hash prior ->
  guarded prior st = st.
Proof.
  intros Hn Hc. unfold guarded. rewrite Hn, Z.ltb_irrefl, <-Hc, set_code_hash_same. by case_match.
Qed.

(** One account's balance changed by [d] and its nonce by [n]; the rest of the
    view shows the same money. *)
Record moved (a : Address) (d n : Z) (v v' : StateView) : Prop := mkMoved {
  mv_ok : view_ok v';
  mv_bal : forall b, bal b v' = bal b v + (if decide (b = a) then d else 0);
  mv_nonce : forall b, nonce_of b v' = nonce_of b v + (if decide (b = a) then n else 0);
  mv_total : total v' = total v + d }.

Lemma wrote_moved a st v d n : view_ok v -> acct_ok st -> vm st = Evm ->
  Account.balance st = bal a v + d -> Account.nonce st = nonce_of a v + n -> 0 <= n ->
  moved a d n v (set_account a st v).
Proof.
  intros Hv Hst Hvm Hb Hn Hn0. destruct (set_account_wrote a st v Hv Hst Hvm) as [Wok Wat Wt].
  destruct (guarded_fields (get_account a v) st) as (Gn & Gb & _). unfold nonce_of in *.
  split; [done|..].
  - intros b. unfold bal at 1. rewrite Wat. case_decide as He; [subst; lia|]. by rewrite Z.add_0_r.
  - intros b. unfold nonce_of. rewrite Wat. case_decide as He; [subst; lia|]. by rewrite Z.add_0_r.
  - rewrite Wt. lia.
Qed.

Lemma exact_balance a v : view_ok v -> total v < 2 ^ 128 -> balance_u128 (get_account a v) = bal a v.
Proof.
  intros Hv Ht. pose proof (bal_le_total a v Hv) as Hb. apply balance_u128_exact; unfold in_range; fold (bal a v); lia.
Qed.

Lemma add_balance_moved a amount v : view_ok v -> 0 <= amount -> total v + amount < 2 ^ 128 ->
  moved a amount 0 v (add_balance a amount v).
Proof.
  intros Hv Ha Ht. pose proof (bal_le_total a v Hv) as Hb. unfold add_balance. rewrite exact_balance by (done || lia).
  rewrite sat_small by (unfold in_range; lia).
  apply wrote_moved; [done| |apply Hv|done|simpl; unfold nonce_of; lia|lia].
  split; [apply Hv|simpl; lia].
Qed.

(** ** Running the monad backwards *)

Lemma bind_inv {S E A B} (m : M S E A) (k : A -> M S E B) s c s' : (m ≫= k) s = (Ok c, s') ->
  exists a s1, m s = (Ok a, s1) /\ k a s1 = (Ok c, s').
Proof. unfold mbind, M_bind. destruct (m s) as [[a|e|] s1]; [eauto|done..]. Qed.
Lemma throw_if_inv {S E} b (e : E) (s s' : S) u : throw_if b e s = (Ok u, s') -> b = false /\ s' = s.
Proof. unfold throw_if. destruct b; [done|]. by intros [= _ ->]. Qed.

(** ** Types *)

Record tx_typed (t : SignedTransaction) : Prop := mkTxTyped {
  typed_fields : tx_ok (tx t);
  (** A plain deployment: no ZVM code. *)
  typed_evm : fst (init_code (tx_data (tx t))) = Evm \/ tx_to (tx t) <> None }.

Lemma value_u128_range t : in_range 128 (value_u128 t).
Proof.
  unfold value_u128, in_range. pose proof (be_val_bound (drop 16 (to_be 32 (tx_value t)))) as Hb.
  assert (zlen (drop 16 (to_be 32 (tx_value t))) = 16) as Hl by (unfold zlen; rewrite length_drop, length_to_be; lia).
  rewrite Hl in Hb. change (256 ^ 16) with (2 ^ 128) in Hb. apply Hb. apply Forall_drop, to_be_bytes.
Qed.

Lemma max_cost_range t : tx_ok t -> 0 <= max_cost t <= (2 ^ 64 - 1) * (2 ^ 64 - 1).
Proof. intros [_ _ Hf Hg _ _]. unfold max_cost, in_range in *. nia. Qed.

Section exec.
Context `{PR : Primitives} (fuel : nat).
Context (run_zvm : SignedTransaction -> BlockHeader -> Target -> Z -> V (ExitStatus * Z * list Log)).

(** ** The steps of a transaction *)

Definition cost (t : SignedTransaction) : Z := max_cost (tx t) + value_u128 (tx t).

Lemma cost_range t : tx_ok (tx t) -> 0 <= cost t < 2 ^ 129.
Proof. intros Ht. pose proof (max_cost_range _ Ht). pose proof (value_u128_range (tx t)). unfold cost, in_range in *. lia. Qed.

Lemma buy_gas_moved t v u v' : view_ok v -> tx_typed t -> total v < 2 ^ 128 - 1 -> buy_gas t v = (Ok u, v') ->
  moved (tx_from t) (- cost t) 1 v v' /\ tx_nonce (tx t) = nonce_of (tx_from t) v /\
  cost t <= bal (tx_from t) v /\ intrinsic_gas (tx t) <= gas_limit (tx t).
Proof.
  intros Hv [Ht _] Htot Hb. pose proof (bal_le_total (tx_from t) v Hv) as Hbt. pose proof (cost_range t Ht) as Hc.
  unfold buy_gas in Hb. apply bind_inv in Hb as (w & s1 & Hg & Hb). injection Hg as <- <-.
  apply bind_inv in Hb as (x1 & s1 & [Hn ->]%throw_if_inv & Hb). apply bind_inv in Hb as (x2 & s1 & [Hbal ->]%throw_if_inv & Hb).
  apply bind_inv in Hb as (x3 & s1 & [Hi ->]%throw_if_inv & Hb). fold (cost t) in *.
  rewrite exact_balance in * by (done || lia). apply negb_false_iff, Z.eqb_eq in Hn. apply Z.ltb_ge in Hbal, Hi.
  assert (cost t <= bal (tx_from t) v) as Hle by (unfold sat in Hbal; lia).
  rewrite wrap_small, sat_small in Hb by (unfold in_range; lia).
  unfold increment_nonce in Hb. destruct (checked 64 _) as [n|] eqn:Hck; [|done]. apply checked_Some in Hck as [-> Hr].
  injection Hb as _ <-. fold (nonce_of (tx_from t) v) in *. split_and!; [|done|done|done].
  apply wrote_moved; simpl; [done| |apply Hv|lia|unfold nonce_of; lia|lia].
  split; simpl; [exact Hr|lia].
Qed.

(** The deployed code and nothing else changes. *)
Lemma deploy_moved a code v : view_ok v -> moved a 0 0 v (deploy a Evm code v).
Proof.
  intros Hv. unfold deploy. destruct code as [|b code].
  - split; [done| | |lia]; intros c; case_decide; lia.
  - set (w := seed_code _ _ v). assert (view_ok w) as Hw by (split; apply Hv).
    assert (moved a 0 0 w (set_account a (if bool_decide (Evm = Zvm)
      then set_vm Zvm (Account.set_code_hash (keccak256 (b :: code)) (get_account a w))
      else Account.set_code_hash (keccak256 (b :: code)) (get_account a w)) w)) as [M1 M2 M3 M4]; [|by split].
    rewrite bool_decide_eq_false_2 by done.
    apply wrote_moved; simpl; [done|apply Hw|apply Hw|unfold bal; lia|unfold nonce_of; lia|lia].
Qed.

(** Who receives the value. *)
Definition recipient (t : SignedTransaction) : Address := default (create_address t) (tx_to (tx t)).

Lemma resolve_moved t v tgt v' : view_ok v -> tx_typed t -> resolve_target t v = (Ok tgt, v') ->
  moved (recipient t) 0 0 v v' /\ callee_vm tgt = Evm /\
  contract_address tgt = (match tx_to (tx t) with Some _ => None | None => Some (create_address t) end).
Proof.
  intros Hv [_ Ht] Hr. unfold resolve_target in Hr. unfold recipient. destruct (tx_to (tx t)) as [to|] eqn:Hto.
  - assert (forall tg, (mret tg : V Target) v = (Ok tgt, v') -> callee_vm tg = Evm -> contract_address tg = None ->
      moved (default (create_address t) (Some to)) 0 0 v v' /\ callee_vm tgt = Evm /\ contract_address tgt = None) as Hret.
    { intros tg [= -> ->] He Hc. split_and!; [|done|done]. split; [done| | |lia]; intros b; case_decide; lia. }
    apply bind_inv in Hr as (w & s1 & Hg & Hr). injection Hg as <- <-.
    destruct (is_contract _); eapply Hret; try exact Hr; try done. simpl. apply Hv.
  - destruct Ht as [Ht|]; [|done]. destruct (init_code (tx_data (tx t))) as [k code]. simpl in Ht. subst k.
    apply bind_inv in Hr as (x & s1 & Hm & Hr). injection Hm as _ <-. injection Hr as <- <-. split_and!; [|done|done].
    by apply deploy_moved.
Qed.

(** Precompiles and the EVM do not touch the view. *)
Lemma run_target_view t h tgt v r v' : callee_vm tgt = Evm ->
  run_target fuel run_zvm t h tgt v = (Ok r, v') -> v' = v.
Proof.
  intros Hvm. unfold run_target. rewrite Hvm, (bool_decide_eq_false_2 (Evm = Zvm)) by done. case_match.
  - destruct (call_precompile _ _ _) as [[? ?]| |]; by intros [= _ ->] || done.
  - case_match; [by intros [= _ ->]|]. unfold run_evm. destruct (EvmInterp.execute _ _ _ _) as [[?|?|] ?]; by intros [= _ ->] || done.
Qed.

Lemma settle_moved t tgt (success : bool) v : view_ok v -> total v + value_u128 (tx t) < 2 ^ 128 -> callee_vm tgt = Evm ->
  contract_address tgt = (match tx_to (tx t) with Some _ => None | None => Some (create_address t) end) ->
  moved (if success then recipient t else tx_from t) (value_u128 (tx t)) 0 v (settle_value t tgt success v).
Proof.
  intros Hv Htot Hvm Hc. pose proof (value_u128_range (tx t)) as [Hval _]. unfold settle_value.
  destruct success; [|by apply add_balance_moved]. unfold recipient. rewrite Hc. destruct (tx_to (tx t)) as [to|]; simpl; [by apply add_balance_moved|].
  unfold finish_create, is_deleted. rewrite Hvm, (bool_decide_eq_false_2 (_ ∈ view_deleted v)) by (rewrite (view_tombs v Hv); set_solver).
  rewrite (bool_decide_eq_false_2 (Evm = Zvm)) by done.
  pose proof (bal_le_total (create_address t) v Hv). rewrite exact_balance, sat_small by (unfold in_range; done || lia).
  destruct (Z.ltb_spec 0 (value_u128 (tx t))); apply wrote_moved; simpl; try done; try apply Hv; try lia; unfold bal, nonce_of in *; try lia.
  split; [apply Hv|simpl; lia].
Qed.

(** A transaction leaves the cached storage and the code of the diff alone: what
    the EVM stores and what it deploys is not part of the block's changes. *)
Definition same_stores (v v' : StateView) : Prop :=
  diff_storage (diffs v') = diff_storage (diffs v) /\ new_code (diffs v') = new_code (diffs v).

Lemma set_account_stores a st v : same_stores v (set_account a st v).
Proof. unfold set_account, same_stores. by repeat case_match. Qed.

Lemma tx_keeps_stores t h v r v' : view_ok v -> tx_typed t -> total v < 2 ^ 128 - 1 ->
  execute_tx fuel run_zvm t h v = (Ok r, v') -> same_stores v v'.
Proof.
  intros Hv Ht Htot He. unfold execute_tx in He.
  assert (forall a b c, same_stores a b -> same_stores b c -> same_stores a c) as Htrans by (intros a b c [? ?] [? ?]; split; congruence).
  apply bind_inv in He as (u & v1 & Hbuy & He). destruct (buy_gas_moved t v u v1 Hv Ht Htot Hbuy) as ([O1 _ _ _] & _).
  apply bind_inv in He as (tgt & v2 & Hres & He). destruct (resolve_moved t v1 tgt v2 O1 Ht Hres) as (_ & Hvm & _).
  apply bind_inv in He as ([[st gas] ls] & v3 & Hrun & He). apply run_target_view in Hrun as ->; [|done].
  injection He as _ <-. apply Htrans with v2; [apply Htrans with v1|].
  - unfold buy_gas, get_st, throw_if, mbind, M_bind in Hbuy. repeat (destruct (if (_ : bool) then _ else _) eqn:? in Hbuy; try done).
    destruct (increment_nonce _) as [[?| |] ?]; try done. injection Hbuy as _ <-. apply set_account_stores.
  - unfold resolve_target in Hres. destruct (tx_to (tx t)).
    + unfold get_st, mbind, M_bind in Hres. cbv zeta in Hres. destruct (is_contract _); by injection Hres as _ <-.
    + destruct (init_code _) as [k code]. injection Hres as _ <-. unfold deploy. destruct code; [done|].
      eapply Htrans; [|apply set_account_stores]. done.
  - eapply Htrans; [apply set_account_stores|]. unfold settle_value. destruct (match st with Succeeded => true | _ => false end); [|apply set_account_stores].
    destruct (tx_to (tx t)); [apply set_account_stores|]. destruct (contract_address tgt); [|done]. unfold finish_create.
    destruct (is_deleted _ _); [done|apply set_account_stores].
Qed.

(** ** A transaction *)

Definition price (t : SignedTransaction) (h : BlockHeader) : Z := Transaction.effective_gas_price t (base_fee_per_gas h).
(** What the sender pays for gas: the price of the gas used, at most what was
    bought. *)
Definition fee (t : SignedTransaction) (h : BlockHeader) (r : TxResult) : Z :=
  Z.min (max_cost (tx t)) (r_gas_used r * price t h).

Lemma price_range t h : tx_ok (tx t) -> in_range 64 (base_fee_per_gas h) -> in_range 64 (price t h).
Proof. intros Ht Hb. unfold price, Transaction.effective_gas_price. by apply wrap_range. Qed.

Lemma tx_moves t h v r v' : view_ok v -> tx_typed t -> in_range 64 (base_fee_per_gas h) -> total v < 2 ^ 128 - 1 ->
  execute_tx fuel run_zvm t h v = (Ok r, v') ->
  let value := value_u128 (tx t) in
  view_ok v' /\ 0 <= r_gas_used r <= gas_limit (tx t) /\ r_effective_price r = price t h /\
  total v' = total v - fee t h r /\
  (forall b, nonce_of b v' = nonce_of b v + (if decide (b = tx_from t) then 1 else 0)) /\
  (forall b, bal b v' = bal b v
     - (if decide (b = tx_from t) then fee t h r + (if r_success r then value else 0) else 0)
     + (if decide (b = recipient t) then if r_success r then value else 0 else 0)).
Proof.
  intros Hv Ht Hbf Htot He. cbv zeta. pose proof (value_u128_range (tx t)) as Hval. pose proof (max_cost_range _ (typed_fields _ Ht)) as Hmc.
  unfold execute_tx in He. fold (price t h) in He. pose proof (price_range t h (typed_fields _ Ht) Hbf) as Hp.
  apply bind_inv in He as (u & v1 & Hbuy & He). destruct (buy_gas_moved t v u v1 Hv Ht Htot Hbuy) as ([O1 B1 N1 T1] & _ & Hc & _).
  apply bind_inv in He as (tgt & v2 & Hres & He). destruct (resolve_moved t v1 tgt v2 O1 Ht Hres) as ([O2 B2 N2 T2] & Hvm & Hca).
  apply bind_inv in He as ([[st gas] ls] & v3 & Hrun & He). apply run_target_view in Hrun as ->; [|done].
  set (used := Z.min (sat 64 (intrinsic_gas (tx t) + gas)) (gas_limit (tx t))) in *.
  set (ok := match st with Succeeded => true | _ => false end) in *.
  assert (0 <= used <= gas_limit (tx t)) as Hused.
  { pose proof (tx_gas_ok _ (typed_fields _ Ht)). pose proof (sat_range 64 (intrinsic_gas (tx t) + gas) ltac:(lia)).
    unfold used, in_range in *. lia. }
  assert (0 <= used * price t h) as Hfee by (unfold in_range in Hp; nia).
  assert (sat 128 (max_cost (tx t) - used * price t h) = max_cost (tx t) - Z.min (max_cost (tx t)) (used * price t h)) as Hrefund
    by (unfold sat; lia).
  unfold cost, in_range in *. apply bind_inv in He as (x & v4 & Hm & He). rewrite Hrefund in Hm. injection Hm as _ <-.
  set (f := Z.min (max_cost (tx t)) (used * price t h)) in *.
  destruct (add_balance_moved (tx_from t) (max_cost (tx t) - f) v2) as [O3 B3 N3 T3]; [done|lia|lia|].
  apply bind_inv in He as (x' & v5 & Hm & He). injection Hm as _ <-. injection He as <- <-. cbn [r_gas_used r_success r_effective_price].
  destruct (settle_moved t tgt ok (add_balance (tx_from t) (max_cost (tx t) - f) v2)) as [O4 B4 N4 T4]; [done|lia|done|done|].
  unfold fee. cbn [r_gas_used r_success]. fold f. split_and!; [done|lia|lia|done|lia| |].
  - intros b. rewrite N4, N3, N2, N1. repeat case_decide; lia.
  - intros b. rewrite B4, B3, B2, B1. destruct ok; repeat case_decide; subst; try congruence; lia.
Qed.


(** ** A block *)

(** The part of a fee that nobody receives: the base fee of the gas used. *)
Definition burned (h : BlockHeader) (t : SignedTransaction) (rc : TransactionReceipt) : Z :=
  Z.min (max_cost (tx t)) (gas_used rc * base_fee_per_gas h).
Definition sum_z (l : list Z) : Z := foldr Z.add 0 l.

(** The proposer's tip is the rest of the fee. *)
Lemma fee_split t h r : tx_ok (tx t) -> in_range 64 (base_fee_per_gas h) -> 0 <= r_gas_used r <= gas_limit (tx t) ->
  r_effective_price r = price t h ->
  0 <= tip_of h r /\ fee t h r = Z.min (max_cost (tx t)) (r_gas_used r * base_fee_per_gas h) + tip_of h r /\
  0 <= Z.min (max_cost (tx t)) (r_gas_used r * base_fee_per_gas h).
Proof.
  intros Ht Hb Hg He. destruct (effective_price_spec t _ Ht Hb) as [Hp Hr]. pose proof (price_range t h Ht Hb).
  unfold fee, tip_of. rewrite He. fold (price t h) in Hp, Hr.
  pose proof (tx_tip_ok _ Ht). pose proof (tx_fee_ok _ Ht). unfold max_cost, sat, in_range in *.
  set (p := price t h) in *. set (b := base_fee_per_gas h) in *. set (g := r_gas_used r) in *.
  set (m := max_fee_per_gas (tx t)) in *. set (l := gas_limit (tx t)) in *.
  assert (Z.max 0 (Z.min (p - b) (2 ^ 64 - 1)) = p - b) as -> by lia.
  assert (0 <= g * (p - b)) by nia. assert (0 <= m * l) by nia. assert (0 <= g * b) by nia.
  destruct (Z.le_gt_cases b m) as [Hbm|Hbm].
  - assert (p <= m) by lia. assert (g * p <= m * l) by nia. assert (g * b <= m * l) by nia. lia.
  - assert (p = b) as -> by lia. rewrite Z.sub_diag in *. lia.
Qed.

Lemma txs_moves bh h : in_range 64 (base_fee_per_gas h) -> forall txs idx cum acc v g rs v', view_ok v -> Forall tx_typed txs ->
  total v < 2 ^ 128 - 1 -> execute_txs fuel run_zvm bh h idx txs cum acc v = (Ok (g, rs), v') ->
  exists new, rs = acc ++ new /\ length new = length txs /\ view_ok v' /\
    total v' = total v - sum_z (zip_with (burned h) txs new) /\ 0 <= sum_z (zip_with (burned h) txs new) /\
    g = foldl (fun a rc => u64 (a + gas_used rc)) cum new /\
    forall b, nonce_of b v' = nonce_of b v + Z.of_nat (length (filter (fun t => tx_from t = b) txs)).
Proof.
  intros Hbf. induction txs as [|t txs IH]; intros idx cum acc v g rs v' Hv Ht Htot He.
  - injection He as <- <- <-. exists []. rewrite app_nil_r. split_and!; try done; [simpl; lia|intros b; simpl; lia].
  - apply Forall_cons_iff in Ht as [Ht Hts]. cbn [execute_txs] in He.
    apply bind_inv in He as (r & v1 & Hx & He). apply bind_inv in He as (u & v2 & Hm & He). injection Hm as _ <-.
    destruct (tx_moves t h v r v1 Hv Ht Hbf Htot Hx) as (O1 & Hg & Hp & T1 & N1 & _).
    destruct (fee_split t h r (typed_fields _ Ht) Hbf Hg Hp) as (Htip & Hfee & Hburn).
    destruct (add_balance_moved (Block.coinbase h) (tip_of h r) v1) as [O2 _ N2 T2]; [done|done|lia|].
    destruct (IH _ _ _ _ _ _ _ O2 Hts ltac:(lia) He) as (new & -> & Hl & O3 & T3 & S3 & -> & N3).
    eexists (_ :: new). rewrite <-app_assoc. split; [done|]. simpl length. simpl zip_with. cbn [sum_z foldr foldl].
    fold (sum_z (zip_with (burned h) txs new)). unfold burned at 1 3. cbn [make_receipt gas_used].
    split_and!; [by rewrite Hl|done|lia|lia|done|]. intros b. rewrite N3, N2, N1, filter_cons. repeat case_decide; simpl length; try done; lia.
Qed.

Context (signing_hash : Transaction -> H256) (L : Listing).

Lemma reward_range n : 0 <= n -> 0 <= block_reward_at n <= INITIAL_BLOCK_REWARD.
Proof.
  intros Hn. unfold block_reward_at. destruct (Z.leb_spec 64 (n / HALVING_INTERVAL)); [unfold INITIAL_BLOCK_REWARD; lia|].
  assert (0 <= n / HALVING_INTERVAL) by (apply Z.div_pos; unfold HALVING_INTERVAL; lia).
  rewrite Z.shiftr_div_pow2 by done. pose proof (Z.pow_pos_nonneg 2 (n / HALVING_INTERVAL) ltac:(lia) ltac:(lia)).
  split; [apply Z.div_pos; unfold INITIAL_BLOCK_REWARD; lia|]. apply Z.div_le_upper_bound; [lia|]. unfold INITIAL_BLOCK_REWARD. nia.
Qed.

End exec.

(** ** Which transactions a block accepts *)

Section admission.
Context `{PL : PrimitivesLaws} (fuel : nat).
Context (run_zvm : SignedTransaction -> BlockHeader -> Target -> Z -> V (ExitStatus * Z * list Log)).

(** Addresses, hashes and codes of their sizes. *)
Record inputs_ok (t : SignedTransaction) (h : BlockHeader) (v : StateView) : Prop := mkInputsOk {
  in_from : addr_ok (tx_from t); in_to : forall a, tx_to (tx t) = Some a -> addr_ok a;
  in_coinbase : addr_ok (Block.coinbase h); in_mix : word_ok (Block.mix_hash h);
  in_data : code_ok (tx_data (tx t)); in_codes : forall k c, codes v !! k = Some c -> code_ok c }.

(** Enough for every code and gas limit. *)
Definition TX_FUEL : Z := fuel_needed 0 (2 ^ 64) (2 ^ 63).

Lemma word_of_value x : word_ok (to_be 32 x).
Proof. split; [apply length_to_be|apply to_be_bytes]. Qed.

Lemma run_evm_total t h tgt gas v : inputs_ok t h v -> addr_ok (t_callee tgt) -> code_ok (code_to_run tgt) -> in_range 64 gas ->
  TX_FUEL <= Z.of_nat fuel ->
  (exists st used ls, run_evm fuel t h tgt gas v = (Ok (st, used, ls), v) /\ 0 <= used) \/ run_evm fuel t h tgt gas v = (Panic, v).
Proof.
  intros [Hf _ Hcb Hm Hd _] Hc Hcode Hg Hfuel. unfold run_evm. set (c := evm_context t h (t_callee tgt) gas).
  assert (input_ok c (code_to_run tgt) mock_new) as Hin.
  { split_and!; [|done|exact mock_new_ok]. unfold ctx_ok, c, evm_context.
    cbn [caller callee EvmInterp.coinbase tx_origin value randao_mix calldata EvmInterp.gas_limit].
    split_and!; try done; try apply Hg; destruct (tx_to (tx t)); try apply Hd; done || apply List.Forall_nil || apply word_of_value. }
  assert (fuel_bound c (code_to_run tgt) <= Z.of_nat fuel) as Hfb.
  { destruct Hcode as [_ Hl]. unfold fuel_bound, TX_FUEL, fuel_needed, FRAME_FUEL, LEN, in_range in *. simpl. lia. }
  pose proof (execute_ok True False fuel c (code_to_run tgt) mock_new I Hin (or_intror Hfb)) as Hwp.
  unfold wp in Hwp. unfold EvmInterp.execute. destruct (run fuel _) as [[st|[e|]|] s]; [left|done|done|by right].
  eexists _, _, _. split; [done|]. by apply sat_range.
Qed.

Lemma run_target_total t h tgt v : inputs_ok t h v -> tx_typed t -> callee_vm tgt = Evm -> addr_ok (t_callee tgt) ->
  code_ok (code_to_run tgt) -> TX_FUEL <= Z.of_nat fuel ->
  (exists st used ls, run_target fuel run_zvm t h tgt v = (Ok (st, used, ls), v) /\ 0 <= used) \/
  run_target fuel run_zvm t h tgt v = (Panic, v).
Proof.
  intros Hin Ht Hvm Hc Hcode Hfuel. unfold run_target. set (fw := sat 64 _).
  assert (in_range 64 fw) as Hfw by (by apply sat_range). rewrite Hvm, (bool_decide_eq_false_2 (Evm = Zvm)) by done. case_match.
  - left. pose proof (call_precompile_total (t_callee tgt) (tx_data (tx t)) fw (in_data _ _ _ Hin) Hfw) as Hp.
    unfold pre_ok in Hp. destruct (call_precompile _ _ _) as [[o u]|e|]; [|..|done].
    + eexists _, _, _. split; [done|]. lia.
    + eexists _, _, _. split; [done|]. apply Hfw.
  - case_match; [left; by eexists _, _, _|]. by apply run_evm_total.
Qed.

(** What an error says of the transaction and the view. *)
Definition reason (t : SignedTransaction) (v : StateView) (e : ExecutionError) : Prop :=
  let nonce_fits := tx_nonce (tx t) = nonce_of (tx_from t) v in
  let funded := cost t <= bal (tx_from t) v in
  match e with
  | InvalidNonce expected got => expected = nonce_of (tx_from t) v /\ got = tx_nonce (tx t) /\ expected <> got
  | InsufficientBalance b c => nonce_fits /\ b = bal (tx_from t) v /\ c = sat 128 (cost t) /\ ~ funded
  | IntrinsicGasTooLow required provided =>
    nonce_fits /\ funded /\ required = intrinsic_gas (tx t) /\ provided = gas_limit (tx t) /\ provided < required
  | State (OfNonce _) => nonce_fits /\ funded /\ intrinsic_gas (tx t) <= gas_limit (tx t) /\ tx_nonce (tx t) = 2 ^ 64 - 1
  | _ => False
  end.

Definition admitted (t : SignedTransaction) (v : StateView) : Prop :=
  tx_nonce (tx t) = nonce_of (tx_from t) v /\ cost t <= bal (tx_from t) v /\
  intrinsic_gas (tx t) <= gas_limit (tx t) /\ tx_nonce (tx t) < 2 ^ 64 - 1.

Lemma buy_gas_total t v : view_ok v -> tx_typed t -> total v < 2 ^ 128 - 1 ->
  (exists e, buy_gas t v = (Err (Fail e), v) /\ reason t v e) \/
  (admitted t v /\ exists v', buy_gas t v = (Ok tt, v') /\ codes v' = codes v).
Proof.
  intros Hv [Ht _] Htot. pose proof (bal_le_total (tx_from t) v Hv) as Hb. pose proof (cost_range t Ht) as Hc.
  unfold buy_gas. unfold get_st, mbind, M_bind, throw_if. cbv zeta. fold (cost t). rewrite exact_balance by (done || lia).
  fold (nonce_of (tx_from t) v). destruct (Z.eqb_spec (tx_nonce (tx t)) (nonce_of (tx_from t) v)) as [Hn|Hn]; [|left; eexists; by split]. simpl negb.
  destruct (Z.ltb_spec (bal (tx_from t) v) (sat 128 (cost t))) as [Hlt|Hle].
  { left. eexists. split; [done|]. simpl. unfold sat in *. split_and!; [done..|lia]. }
  assert (cost t <= bal (tx_from t) v) by (unfold sat in Hle; lia).
  destruct (Z.ltb_spec (gas_limit (tx t)) (intrinsic_gas (tx t))); [left; eexists; by split|].
  unfold increment_nonce. simpl. fold (nonce_of (tx_from t) v). destruct (checked 64 _) as [n|] eqn:Hck.
  - right. apply checked_Some in Hck as [-> Hr]. unfold in_range in Hr. split; [split_and!; lia|]. eexists. split; [done|].
    unfold set_account. by repeat case_match.
  - left. apply checked_None in Hck. eexists. split; [done|]. simpl. pose proof (tx_nonce_ok _ Ht). unfold in_range in *.
    split_and!; [done..|lia].
Qed.

Lemma set_account_codes a st v : codes (set_account a st v) = codes v.
Proof. unfold set_account. by repeat case_match. Qed.

Lemma created_addr_ok t : addr_ok (create_address t).
Proof.
  unfold create_address. destruct (keccak_ok (tx_from t ++ to_be 8 (tx_nonce (tx t)))) as [Hl Hb].
  split; [rewrite length_drop; lia|by apply Forall_drop].
Qed.

Lemma init_code_ok d : code_ok d -> code_ok (snd (init_code d)).
Proof.
  intros [Hb Hl]. destruct d as [|b d]; [done|]. simpl. destruct (b =? _); [|done]. apply Forall_cons_iff in Hb as [_ Hb].
  rewrite zlen_cons in Hl. split; [done|simpl; lia].
Qed.

Lemma resolve_total t h v : view_ok v -> inputs_ok t h v -> tx_typed t ->
  exists tgt v', resolve_target t v = (Ok tgt, v') /\ callee_vm tgt = Evm /\ addr_ok (t_callee tgt) /\
    code_ok (code_to_run tgt) /\ inputs_ok t h v'.
Proof.
  intros Hv Hin [_ Ht]. pose proof Hin as [Hf Hto Hcb Hm Hd Hcodes]. unfold resolve_target.
  destruct (tx_to (tx t)) as [to|] eqn:He.
  - unfold get_st, mbind, M_bind. cbv zeta. destruct (is_contract _); eexists _, _; (split; [done|]); simpl.
    + split; [apply Hv|]. split; [by apply Hto|]. split; [|done]. unfold get_code. destruct (negb _); [by apply (zeros_ok 0)|].
      destruct (codes v !! _) as [c|] eqn:Hc; [by eapply Hcodes|by apply (zeros_ok 0)].
    + split; [done|]. split; [by apply Hto|]. split; [by apply (zeros_ok 0)|done].
  - destruct Ht as [Ht|]; [|done]. pose proof (init_code_ok _ Hd) as Hc. destruct (init_code (tx_data (tx t))) as [k code]. simpl in Ht, Hc. subst k.
    eexists _, _. split; [done|]. split; [done|]. split; [apply created_addr_ok|]. split; [done|]. split; try done; [by rewrite He|].
    intros k c. unfold deploy. destruct code as [|b code]; [by apply Hcodes|]. rewrite set_account_codes. simpl.
    intros [[_ <-]|[_ Hk]]%lookup_insert_Some; [done|by eapply Hcodes].
Qed.

End admission.
