(* ===== verification/ZvmMachine.v ===== *)
(** * The ZVM's opcodes, gas schedule, stack and memory
    (crates/zbx-zvm/src/error.rs, opcodes.rs, gas.rs, stack.rs, memory.rs)

    The second virtual machine keeps words as 32-byte arrays and converts them
    to the integers of the primitive_types crate for arithmetic.  Sums of two
    [usize] wrap, as they do in the release build.

    Below: the arithmetic arms of interpreter.rs, compared with the EVM's. *)

From Stdlib Require Import ZArith Lia String.
From stdpp Require Import base tactics list gmap numbers option.
From S2P Require Import Prelude Bytes U256 EvmMachine NativeReads U256Ops EvmHost EvmPrecompiles EvmInterp EvmLogic.

Local Open Scope Z_scope.

Inductive ZvmError : Type :=
| StackOverflow
| StackUnderflow
| OutOfGas
| InvalidJump (dest : Z)
| InvalidOpcode (op : Z)
| StaticStateChange
| UnexpectedEnd
| InvalidUtf8
| InvalidInput (reason : string)
| InsufficientBalance
| PrecompileNotFound (a : Address)
| PayIdNotFound (name : bytes)
| Internal (reason : string).

(** ** Opcodes *)

Module Opcode.
Inductive Opcode : Type :=
| STOP | ADD | MUL | SUB | DIV | SDIV | MOD | SMOD | ADDMOD | MULMOD | EXP | SIGNEXTEND | LT | GT | SLT | SGT
| EQ | ISZERO | AND | OR | XOR | NOT | BYTE | SHL | SHR | SAR | KECCAK256 | ADDRESS | BALANCE | ORIGIN
| CALLER | CALLVALUE | CALLDATALOAD | CALLDATASIZE | CALLDATACOPY | CODESIZE | CODECOPY | GASPRICE
| EXTCODESIZE | EXTCODECOPY | RETURNDATASIZE | RETURNDATACOPY | EXTCODEHASH | BLOCKHASH | COINBASE
| TIMESTAMP | NUMBER | PREVRANDAO | GASLIMIT | CHAINID | SELFBALANCE | BASEFEE | BLOBHASH | BLOBBASEFEE | POP
| MLOAD | MSTORE | MSTORE8 | SLOAD | SSTORE | JUMP | JUMPI | PC | MSIZE | GAS | JUMPDEST | TLOAD | TSTORE
| MCOPY | PUSH0 | PUSH1 | PUSH2 | PUSH3 | PUSH4 | PUSH5 | PUSH6 | PUSH7 | PUSH8 | PUSH9 | PUSH10 | PUSH11
| PUSH12 | PUSH13 | PUSH14 | PUSH15 | PUSH16 | PUSH17 | PUSH18 | PUSH19 | PUSH20 | PUSH21 | PUSH22 | PUSH23
| PUSH24 | PUSH25 | PUSH26 | PUSH27 | PUSH28 | PUSH29 | PUSH30 | PUSH31 | PUSH32 | DUP1 | DUP2 | DUP3 | DUP4
| DUP5 | DUP6 | DUP7 | DUP8 | DUP9 | DUP10 | DUP11 | DUP12 | DUP13 | DUP14 | DUP15 | DUP16 | SWAP1 | SWAP2
| SWAP3 | SWAP4 | SWAP5 | SWAP6 | SWAP7 | SWAP8 | SWAP9 | SWAP10 | SWAP11 | SWAP12 | SWAP13 | SWAP14 | SWAP15
| SWAP16 | LOG0 | LOG1 | LOG2 | LOG3 | LOG4 | CREATE | CALL | CALLCODE | RETURN | DELEGATECALL | CREATE2
| STATICCALL | REVERT | INVALID | SELFDESTRUCT | PAYID | ZUSDBAL | ZBXPRICE | ZBXTIME | AASENDER | CHAINVER
| BLOBFEE | PAYIDSET | ZBXBURN | ZVMLOG.

#[export] Instance Opcode_eq_dec : EqDecision Opcode.
Proof. solve_decision. Defined.

(** [op as u8] *)
Definition as_u8 (op : Opcode) : Z :=
  match op with
  | STOP => 0x00 | ADD => 0x01 | MUL => 0x02 | SUB => 0x03 | DIV => 0x04 | SDIV => 0x05 | MOD => 0x06
  | SMOD => 0x07 | ADDMOD => 0x08 | MULMOD => 0x09 | EXP => 0x0a | SIGNEXTEND => 0x0b | LT => 0x10
  | GT => 0x11 | SLT => 0x12 | SGT => 0x13 | EQ => 0x14 | ISZERO => 0x15 | AND => 0x16 | OR => 0x17
  | XOR => 0x18 | NOT => 0x19 | BYTE => 0x1a | SHL => 0x1b | SHR => 0x1c | SAR => 0x1d | KECCAK256 => 0x20
  | ADDRESS => 0x30 | BALANCE => 0x31 | ORIGIN => 0x32 | CALLER => 0x33 | CALLVALUE => 0x34
  | CALLDATALOAD => 0x35 | CALLDATASIZE => 0x36 | CALLDATACOPY => 0x37 | CODESIZE => 0x38 | CODECOPY => 0x39
  | GASPRICE => 0x3a | EXTCODESIZE => 0x3b | EXTCODECOPY => 0x3c | RETURNDATASIZE => 0x3d
  | RETURNDATACOPY => 0x3e | EXTCODEHASH => 0x3f | BLOCKHASH => 0x40 | COINBASE => 0x41 | TIMESTAMP => 0x42
  | NUMBER => 0x43 | PREVRANDAO => 0x44 | GASLIMIT => 0x45 | CHAINID => 0x46 | SELFBALANCE => 0x47
  | BASEFEE => 0x48 | BLOBHASH => 0x49 | BLOBBASEFEE => 0x4a | POP => 0x50 | MLOAD => 0x51 | MSTORE => 0x52
  | MSTORE8 => 0x53 | SLOAD => 0x54 | SSTORE => 0x55 | JUMP => 0x56 | JUMPI => 0x57 | PC => 0x58
  | MSIZE => 0x59 | GAS => 0x5a | JUMPDEST => 0x5b | TLOAD => 0x5c | TSTORE => 0x5d | MCOPY => 0x5e
  | PUSH0 => 0x5f | PUSH1 => 0x60 | PUSH2 => 0x61 | PUSH3 => 0x62 | PUSH4 => 0x63 | PUSH5 => 0x64
  | PUSH6 => 0x65 | PUSH7 => 0x66 | PUSH8 => 0x67 | PUSH9 => 0x68 | PUSH10 => 0x69 | PUSH11 => 0x6a
  | PUSH12 => 0x6b | PUSH13 => 0x6c | PUSH14 => 0x6d | PUSH15 => 0x6e | PUSH16 => 0x6f | PUSH17 => 0x70
  | PUSH18 => 0x71 | PUSH19 => 0x72 | PUSH20 => 0x73 | PUSH21 => 0x74 | PUSH22 => 0x75 | PUSH23 => 0x76
  | PUSH24 => 0x77 | PUSH25 => 0x78 | PUSH26 => 0x79 | PUSH27 => 0x7a | PUSH28 => 0x7b | PUSH29 => 0x7c
  | PUSH30 => 0x7d | PUSH31 => 0x7e | PUSH32 => 0x7f | DUP1 => 0x80 | DUP2 => 0x81 | DUP3 => 0x82
  | DUP4 => 0x83 | DUP5 => 0x84 | DUP6 => 0x85 | DUP7 => 0x86 | DUP8 => 0x87 | DUP9 => 0x88 | DUP10 => 0x89
  | DUP11 => 0x8a | DUP12 => 0x8b | DUP13 => 0x8c | DUP14 => 0x8d | DUP15 => 0x8e | DUP16 => 0x8f
  | SWAP1 => 0x90 | SWAP2 => 0x91 | SWAP3 => 0x92 | SWAP4 => 0x93 | SWAP5 => 0x94 | SWAP6 => 0x95
  | SWAP7 => 0x96 | SWAP8 => 0x97 | SWAP9 => 0x98 | SWAP10 => 0x99 | SWAP11 => 0x9a | SWAP12 => 0x9b
  | SWAP13 => 0x9c | SWAP14 => 0x9d | SWAP15 => 0x9e | SWAP16 => 0x9f | LOG0 => 0xa0 | LOG1 => 0xa1
  | LOG2 => 0xa2 | LOG3 => 0xa3 | LOG4 => 0xa4 | CREATE => 0xf0 | CALL => 0xf1 | CALLCODE => 0xf2
  | RETURN => 0xf3 | DELEGATECALL => 0xf4 | CREATE2 => 0xf5 | STATICCALL => 0xfa | REVERT => 0xfd
  | INVALID => 0xfe | SELFDESTRUCT => 0xff | PAYID => 0xc0 | ZUSDBAL => 0xc1 | ZBXPRICE => 0xc2
  | ZBXTIME => 0xc3 | AASENDER => 0xc4 | CHAINVER => 0xc5 | BLOBFEE => 0xc6 | PAYIDSET => 0xc7
  | ZBXBURN => 0xc8 | ZVMLOG => 0xc9
  end.

(** The bytes of the PUSH, DUP, SWAP and LOG ranges are transmuted. *)
Definition from_u8 (byte : Z) : option Opcode :=
  match byte with
  | 0x00 => Some STOP | 0x01 => Some ADD | 0x02 => Some MUL | 0x03 => Some SUB | 0x04 => Some DIV
  | 0x05 => Some SDIV | 0x06 => Some MOD | 0x07 => Some SMOD | 0x08 => Some ADDMOD | 0x09 => Some MULMOD
  | 0x0a => Some EXP | 0x0b => Some SIGNEXTEND | 0x10 => Some LT | 0x11 => Some GT | 0x12 => Some SLT
  | 0x13 => Some SGT | 0x14 => Some EQ | 0x15 => Some ISZERO | 0x16 => Some AND | 0x17 => Some OR
  | 0x18 => Some XOR | 0x19 => Some NOT | 0x1a => Some BYTE | 0x1b => Some SHL | 0x1c => Some SHR
  | 0x1d => Some SAR | 0x20 => Some KECCAK256 | 0x30 => Some ADDRESS | 0x31 => Some BALANCE
  | 0x32 => Some ORIGIN | 0x33 => Some CALLER | 0x34 => Some CALLVALUE | 0x35 => Some CALLDATALOAD
  | 0x36 => Some CALLDATASIZE | 0x37 => Some CALLDATACOPY | 0x38 => Some CODESIZE | 0x39 => Some CODECOPY
  | 0x3a => Some GASPRICE | 0x3b => Some EXTCODESIZE | 0x3c => Some EXTCODECOPY | 0x3d => Some RETURNDATASIZE
  | 0x3e => Some RETURNDATACOPY | 0x3f => Some EXTCODEHASH | 0x40 => Some BLOCKHASH | 0x41 => Some COINBASE
  | 0x42 => Some TIMESTAMP | 0x43 => Some NUMBER | 0x44 => Some PREVRANDAO | 0x45 => Some GASLIMIT
  | 0x46 => Some CHAINID | 0x47 => Some SELFBALANCE | 0x48 => Some BASEFEE | 0x49 => Some BLOBHASH
  | 0x4a => Some BLOBBASEFEE | 0x50 => Some POP | 0x51 => Some MLOAD | 0x52 => Some MSTORE
  | 0x53 => Some MSTORE8 | 0x54 => Some SLOAD | 0x55 => Some SSTORE | 0x56 => Some JUMP | 0x57 => Some JUMPI
  | 0x58 => Some PC | 0x59 => Some MSIZE | 0x5a => Some GAS | 0x5b => Some JUMPDEST | 0x5c => Some TLOAD
  | 0x5d => Some TSTORE | 0x5e => Some MCOPY | 0x5f => Some PUSH0 | 0x60 => Some PUSH1 | 0x61 => Some PUSH2
  | 0x62 => Some PUSH3 | 0x63 => Some PUSH4 | 0x64 => Some PUSH5 | 0x65 => Some PUSH6 | 0x66 => Some PUSH7
  | 0x67 => Some PUSH8 | 0x68 => Some PUSH9 | 0x69 => Some PUSH10 | 0x6a => Some PUSH11 | 0x6b => Some PUSH12
  | 0x6c => Some PUSH13 | 0x6d => Some PUSH14 | 0x6e => Some PUSH15 | 0x6f => Some PUSH16
  | 0x70 => Some PUSH17 | 0x71 => Some PUSH18 | 0x72 => Some PUSH19 | 0x73 => Some PUSH20
  | 0x74 => Some PUSH21 | 0x75 => Some PUSH22 | 0x76 => Some PUSH23 | 0x77 => Some PUSH24
  | 0x78 => Some PUSH25 | 0x79 => Some PUSH26 | 0x7a => Some PUSH27 | 0x7b => Some PUSH28
  | 0x7c => Some PUSH29 | 0x7d => Some PUSH30 | 0x7e => Some PUSH31 | 0x7f => Some PUSH32 | 0x80 => Some DUP1
  | 0x81 => Some DUP2 | 0x82 => Some DUP3 | 0x83 => Some DUP4 | 0x84 => Some DUP5 | 0x85 => Some DUP6
  | 0x86 => Some DUP7 | 0x87 => Some DUP8 | 0x88 => Some DUP9 | 0x89 => Some DUP10 | 0x8a => Some DUP11
  | 0x8b => Some DUP12 | 0x8c => Some DUP13 | 0x8d => Some DUP14 | 0x8e => Some DUP15 | 0x8f => Some DUP16
  | 0x90 => Some SWAP1 | 0x91 => Some SWAP2 | 0x92 => Some SWAP3 | 0x93 => Some SWAP4 | 0x94 => Some SWAP5
  | 0x95 => Some SWAP6 | 0x96 => Some SWAP7 | 0x97 => Some SWAP8 | 0x98 => Some SWAP9 | 0x99 => Some SWAP10
  | 0x9a => Some SWAP11 | 0x9b => Some SWAP12 | 0x9c => Some SWAP13 | 0x9d => Some SWAP14
  | 0x9e => Some SWAP15 | 0x9f => Some SWAP16 | 0xa0 => Some LOG0 | 0xa1 => Some LOG1 | 0xa2 => Some LOG2
  | 0xa3 => Some LOG3 | 0xa4 => Some LOG4 | 0xf0 => Some CREATE | 0xf1 => Some CALL | 0xf2 => Some CALLCODE
  | 0xf3 => Some RETURN | 0xf4 => Some DELEGATECALL | 0xf5 => Some CREATE2 | 0xfa => Some STATICCALL
  | 0xfd => Some REVERT | 0xfe => Some INVALID | 0xff => Some SELFDESTRUCT | 0xc0 => Some PAYID
  | 0xc1 => Some ZUSDBAL | 0xc2 => Some ZBXPRICE | 0xc3 => Some ZBXTIME | 0xc4 => Some AASENDER
  | 0xc5 => Some CHAINVER | 0xc6 => Some BLOBFEE | 0xc7 => Some PAYIDSET | 0xc8 => Some ZBXBURN
  | 0xc9 => Some ZVMLOG
  | _ => None
  end.

Definition is_zvm_native (op : Opcode) : bool := (0xc0 <=? as_u8 op) && (as_u8 op <=? 0xc9).
End Opcode.

(** ** Gas *)

Section gas.
Import Opcode.

Definition evm_gas_cost (op : Opcode) : Z :=
  let byte := as_u8 op in
  match op with
  | STOP | RETURN | REVERT => 0
  | ADD | SUB | LT | GT | SLT | SGT | EQ | ISZERO | AND | OR | XOR | NOT | BYTE | SHL | SHR | SAR => 3
  | MUL | DIV | SDIV | MOD | SMOD | SIGNEXTEND => 5
  | ADDMOD | MULMOD => 8
  | EXP => 10
  | KECCAK256 => 30
  | ADDRESS | ORIGIN | CALLER | CALLVALUE | CALLDATASIZE | CODESIZE | GASPRICE | COINBASE | TIMESTAMP | NUMBER
  | PREVRANDAO | GASLIMIT | CHAINID | SELFBALANCE | BASEFEE | BLOBBASEFEE => 2
  | BALANCE | EXTCODESIZE | EXTCODEHASH => 100
  | BLOCKHASH => 20
  | CALLDATALOAD => 3
  | CALLDATACOPY | CODECOPY | RETURNDATACOPY => 3
  | EXTCODECOPY => 100
  | RETURNDATASIZE => 2
  | POP | PC | MSIZE | GAS => 2
  | MLOAD | MSTORE | MSTORE8 => 3
  | SLOAD => 100
  | SSTORE => 100
  | JUMP => 8
  | JUMPI => 10
  | JUMPDEST => 1
  | PUSH0 => 2
  | TLOAD | TSTORE => 100
  | MCOPY => 3
  | BLOBHASH => 3
  | CREATE => 32000
  | CREATE2 => 32000
  | CALL | CALLCODE | STATICCALL | DELEGATECALL => 100
  | SELFDESTRUCT => 5000
  | _ =>
    if (0x60 <=? byte) && (byte <=? 0x7f) then 3
    else if (0x80 <=? byte) && (byte <=? 0x8f) then 3
    else if (0x90 <=? byte) && (byte <=? 0x9f) then 3
    else if (0xa0 <=? byte) && (byte <=? 0xa4) then 375
    else 0
  end.

Definition zvm_gas_cost (op : Opcode) : Z :=
  match op with
  | PAYID => 200
  | ZUSDBAL => 100
  | ZBXPRICE => 50
  | ZBXTIME => 2
  | AASENDER => 2
  | CHAINVER => 2
  | BLOBFEE => 50
  | PAYIDSET => 100
  | ZBXBURN => 500
  | ZVMLOG => 600
  | _ => 0
  end.

Definition opcode_gas (op : Opcode) : Z := if is_zvm_native op then zvm_gas_cost op else evm_gas_cost op.
End gas.

Definition COLD_SLOAD_COST : Z := 2100.
Definition WARM_SLOAD_COST : Z := 100.
Definition COLD_ACCOUNT_COST : Z := 2600.
Definition WARM_ACCOUNT_COST : Z := 100.
Definition SSTORE_COLD_DELTA : Z := 2100.

(** [iter().take_while(|&&b| b == 0).count()] *)
Fixpoint leading_zeros (b : bytes) : Z :=
  match b with
  | x :: b => if x =? 0 then 1 + leading_zeros b else 0
  | [] => 0
  end.
Definition exp_dynamic_gas (exponent_be : word) : Z := sat 64 (50 * sat 64 (32 - leading_zeros exponent_be)).
Definition keccak256_dynamic_gas (len : Z) : Z := sat 64 (6 * (u64 (len + 31) / 32)).
Definition copy_dynamic_gas (len : Z) : Z := sat 64 (3 * (u64 (len + 31) / 32)).
Definition log_dynamic_gas (n_topics data_len : Z) : Z := sat 64 (sat 64 (375 * n_topics) + sat 64 (8 * data_len)).

Definition memory_cost (w : Z) : Z := sat 64 (sat 64 (3 * w) + sat 64 (w * w) / 512).
Definition memory_gas_delta (old_words new_words : Z) : Z :=
  if new_words <=? old_words then 0 else sat 64 (memory_cost new_words - memory_cost old_words).

(** ** Stack *)

Definition MAX_STACK_DEPTH : Z := 1024.
(** [inner], the top last. *)
Abbreviation ZvmStack := (list word).
Abbreviation SM := (M ZvmStack ZvmError).

Definition push (value : word) : SM unit :=
  s ← get_st;
  _ ← throw_if (MAX_STACK_DEPTH <=? zlen s) StackOverflow;
  put_st (s ++ [value]).
Definition push_u64 (value : Z) : SM unit := push (replicate 24 0 ++ to_be 8 value).
Definition push_u128 (value : Z) : SM unit := push (replicate 16 0 ++ to_be 16 value).
Definition push_address (addr : Address) : SM unit := push (replicate 12 0 ++ addr).
Definition push_u256 (value : Z) : SM unit := push (to_be 32 value).

Definition pop : SM word := fun s =>
  match list.last s with
  | Some w => (Ok w, take (length s - 1) s)
  | None => (Err StackUnderflow, s)
  end.
Definition pop_u64 : SM Z := w ← pop; mret (be_val (drop 24 w)).
Definition pop_u128 : SM Z := w ← pop; mret (be_val (drop 16 w)).
Definition pop_u256 : SM Z := w ← pop; mret (be_val w).
Definition pop_address : SM Address := w ← pop; mret (drop 12 w).

Definition peek (s : ZvmStack) : res ZvmError word := ok_or (list.last s) StackUnderflow.

(** [checked_sub] *)
Definition dup (n : Z) : SM unit :=
  s ← get_st;
  idx ← lift_opt (checked 64 (zlen s - n)) StackUnderflow;
  w ← lift (index s idx);
  push w.
Definition swap (n : Z) : SM unit :=
  s ← get_st;
  let len := zlen s in
  idx ← lift_opt (checked 64 (len - (n + 1))) StackUnderflow;
  put_st (swap_at (Z.to_nat (len - 1)) (Z.to_nat idx) s).

(** ** Memory *)

Abbreviation ZvmMemory := (list Z).
Abbreviation MM := (M ZvmMemory ZvmError).

(** A vector longer than [isize::MAX] panics. *)
Definition mem_resize (size : Z) : MM unit :=
  data ← get_st;
  if zlen data <? size then
    let new_size := usize (size + 31) / 32 * 32 in
    if 2 ^ 63 <=? new_size then lift Panic else put_st (resize new_size data)
  else mret tt.

Definition mem_size (data : ZvmMemory) : Z := zlen data.
Definition mem_words (data : ZvmMemory) : Z := (zlen data + 31) / 32.

Definition mem_slice (offset end_ : Z) : MM bytes := data ← get_st; lift (slice data offset end_).
(** [self.data\[offset..end\].copy_from_slice(src)] *)
Definition mem_splice (offset end_ : Z) (src : bytes) : MM unit :=
  data ← get_st;
  old ← lift (slice data offset end_);
  if zlen old =? zlen src then put_st (take (Z.to_nat offset) data ++ src ++ drop (Z.to_nat end_) data) else lift Panic.

Definition mem_load (offset : Z) : MM word :=
  _ ← mem_resize (usize (offset + 32)); mem_slice offset (usize (offset + 32)).
Definition mem_store (offset : Z) (w : word) : MM unit :=
  _ ← mem_resize (usize (offset + 32)); mem_splice offset (usize (offset + 32)) w.
Definition mem_store8 (offset byte : Z) : MM unit :=
  _ ← mem_resize (usize (offset + 1));
  data ← get_st;
  _ ← lift (index data offset);
  put_st (<[Z.to_nat offset := byte]> data).
Definition read_slice (offset len : Z) : MM bytes :=
  _ ← mem_resize (usize (offset + len)); mem_slice offset (usize (offset + len)).
Definition read_string (offset len : Z) : MM bytes :=
  b ← read_slice offset len;
  _ ← throw_if (negb (utf8_ok b)) InvalidUtf8;
  mret b.
Definition write_slice (offset : Z) (src : bytes) : MM unit :=
  match src with
  | [] => mret tt
  | _ => _ ← mem_resize (usize (offset + zlen src)); mem_splice offset (usize (offset + zlen src)) src
  end.
(** [copy_within(src..src + len, dst)] *)
Definition mem_copy (dst src len : Z) : MM unit :=
  if len =? 0 then mret tt
  else
    _ ← mem_resize (sat 64 (Z.max dst src + len));
    chunk ← mem_slice src (usize (src + len));
    mem_splice dst (dst + len) chunk.

(** * The ZVM's arithmetic (crates/zbx-zvm/src/interpreter.rs)

    The opcodes that only combine words of the stack.  The words are converted
    to the integers of primitive_types, whose operations are those of Z modulo
    [W]; the bitwise opcodes, BYTE and SIGNEXTEND work on the bytes.  The last
    part compares them with the EVM's opcodes. *)

(** [to_big_endian], [from_big_endian] *)
Definition of_u256 (x : Z) : word := to_be 32 x.

Definition is_negative_u256 (x : Z) : bool := negb (Z.land (byte_at (of_u256 x) 0) 128 =? 0).
Definition neg (x : Z) : Z := wrap 256 (W - 1 - x + 1).

Definition MIN_NEG : Z := 2 ^ 255.
Definition sdiv_u256 (a b : Z) : Z :=
  if b =? 0 then 0
  else if (a =? MIN_NEG) && (b =? W - 1) then MIN_NEG
  else
    let neg_a := is_negative_u256 a in
    let neg_b := is_negative_u256 b in
    let abs_a := if neg_a then neg a else a in
    let abs_b := if neg_b then neg b else b in
    let q := abs_a / abs_b in
    if xorb neg_a neg_b then neg q else q.
Definition smod_u256 (a b : Z) : Z :=
  if b =? 0 then 0
  else
    let neg_a := is_negative_u256 a in
    let neg_b := is_negative_u256 b in
    let abs_a := if neg_a then neg a else a in
    let abs_b := if neg_b then neg b else b in
    let r := abs_a mod abs_b in
    if r =? 0 then 0 else if neg_a then neg r else r.
Definition signed_lt (a b : Z) : bool :=
  match is_negative_u256 a, is_negative_u256 b with
  | true, false => true
  | false, true => false
  | _, _ => a <? b
  end.

(** [<<] and [>>] by less than 256 *)
Definition shl_u256 (x s : Z) : Z := wrap 256 (Z.shiftl x s).
Definition sar_u256 (value shift : Z) : Z :=
  let neg_v := is_negative_u256 value in
  if 256 <=? shift then (if neg_v then W - 1 else 0)
  else
    let s := u64 shift in
    let logical := Z.shiftr value s in
    if negb neg_v then logical
    else if s =? 0 then logical
    else Z.lor logical (shl_u256 (W - 1) (256 - s)).

(** [overflowing_pow(..).0]: by squaring, modulo [W] *)
Fixpoint pow_pos_u256 (b : Z) (e : positive) : Z :=
  match e with
  | xH => wrap 256 b
  | xO e => let r := pow_pos_u256 b e in wrap 256 (r * r)
  | xI e => let r := pow_pos_u256 b e in wrap 256 (wrap 256 (r * r) * b)
  end.
Definition pow_u256 (b e : Z) : Z := match e with Zpos p => pow_pos_u256 b p | _ => 1 end.

(** The word of x with the bytes above the sign byte filled with its sign. *)
Definition signextend (b x : Z) : word :=
  if 31 <=? b then of_u256 x
  else
    let bit := u64 b * 8 + 7 in
    let x_be := of_u256 x in
    let sign_byte := 31 - bit / 8 in
    let sign := Z.land (Z.shiftr (byte_at x_be sign_byte) 7) 1 =? 1 in
    fold_left (fun x_be i => <[Z.to_nat i := if sign then 255 else 0]> x_be) (seqZ 0 sign_byte) x_be.

Definition byte_op (i : Z) (x : word) : word :=
  if 32 <=? i then zero_word else replicate 31 0 ++ [byte_at x (u64 i)].

(** ** The opcodes *)

Section ops.
Import Opcode.

(** [push_u64] of a flag *)
Definition flag (b : bool) : word := replicate 24 0 ++ to_be 8 (if b then 1 else 0).
Definition on_u256 (f : Z -> Z -> Z) (a b : word) : word := of_u256 (f (be_val a) (be_val b)).

Definition op1 (op : Opcode) : option (word -> word) :=
  match op with
  | NOT => Some (map u8_not)
  | ISZERO => Some (fun a => flag (bool_decide (a = zero_word)))
  | _ => None
  end.

(** [a] is the word popped first. *)
Definition op2 (op : Opcode) : option (word -> word -> word) :=
  match op with
  | ADD => Some (on_u256 (fun a b => wrap 256 (a + b)))
  | MUL => Some (on_u256 (fun a b => wrap 256 (a * b)))
  | SUB => Some (on_u256 (fun a b => wrap 256 (a - b)))
  | DIV => Some (on_u256 (fun a b => if b =? 0 then 0 else a / b))
  | SDIV => Some (on_u256 sdiv_u256)
  | MOD => Some (on_u256 (fun a b => if b =? 0 then 0 else a mod b))
  | SMOD => Some (on_u256 smod_u256)
  | SIGNEXTEND => Some (fun b x => signextend (be_val b) (be_val x))
  | LT => Some (fun a b => flag (be_val a <? be_val b))
  | GT => Some (fun a b => flag (be_val b <? be_val a))
  | SLT => Some (fun a b => flag (signed_lt (be_val a) (be_val b)))
  | SGT => Some (fun a b => flag (signed_lt (be_val b) (be_val a)))
  | EQ => Some (fun a b => flag (bool_decide (a = b)))
  | AND => Some (zip_with Z.land)
  | OR => Some (zip_with Z.lor)
  | XOR => Some (zip_with Z.lxor)
  | BYTE => Some (fun i x => byte_op (be_val i) x)
  | SHL => Some (on_u256 (fun shift value => if 256 <=? shift then 0 else shl_u256 value (u64 shift)))
  | SHR => Some (on_u256 (fun shift value => if 256 <=? shift then 0 else Z.shiftr value (u64 shift)))
  | SAR => Some (on_u256 (fun shift value => sar_u256 value shift))
  | _ => None
  end.

(** The sum and the product are promoted to 512 bits. *)
Definition op3 (op : Opcode) : option (word -> word -> word -> word) :=
  match op with
  | ADDMOD => Some (fun a b n => of_u256 (if be_val n =? 0 then 0 else (be_val a + be_val b) mod be_val n))
  | MULMOD => Some (fun a b n => of_u256 (if be_val n =? 0 then 0 else (be_val a * be_val b) mod be_val n))
  | _ => None
  end.

Definition exec_alu (op : Opcode) : option (SM unit) :=
  match op1 op, op2 op, op3 op with
  | Some f, _, _ => Some (a ← pop; push (f a))
  | _, Some f, _ => Some (a ← pop; b ← pop; push (f a b))
  | _, _, Some f => Some (a ← pop; b ← pop; n ← pop; push (f a b n))
  | _, _, _ => None
  end.
End ops.

(** ** Values *)

Lemma of_u256_ok x : word_ok (of_u256 x).
Proof. split; [apply length_to_be|apply to_be_bytes]. Qed.
Lemma of_u256_val x : be_val (of_u256 x) = x mod W.
Proof. unfold of_u256. rewrite be_val_to_be. by change (256 ^ Z.of_nat 32) with W. Qed.
Lemma of_u256_be a : word_ok a -> of_u256 (be_val a) = a.
Proof. intros [Hl Hb]. unfold of_u256. rewrite <-Hl. by apply to_be_be_val. Qed.
Lemma of_u256_is w z : word_ok w -> be_val w = z mod W -> of_u256 z = w.
Proof. intros Hw Hv. apply word_inj; [apply of_u256_ok|done|]. by rewrite of_u256_val. Qed.
Lemma flag_bool b : flag b = bool_word b.
Proof. done. Qed.

Lemma is_negative_be a : word_ok a -> is_negative_u256 (be_val a) = is_negative a.
Proof. intros Ha. unfold is_negative_u256. by rewrite of_u256_be. Qed.
Lemma neg_val x : neg x = (- x) mod W.
Proof. unfold neg. change (wrap 256) with (fun z => z mod W). cbv beta. replace (W - 1 - x + 1) with (- x + 1 * W) by ring. by rewrite Z.mod_add. Qed.
Lemma abs_be a : word_ok a ->
  (if is_negative_u256 (be_val a) then neg (be_val a) else be_val a) = Z.abs (sval a).
Proof.
  intros Ha. rewrite is_negative_be by done. destruct (abs_ok a Ha) as [_ <-].
  destruct (is_negative a); [|done]. by rewrite neg_val, (proj2 (negate_ok a Ha)).
Qed.
Lemma sval_min a : word_ok a -> (be_val a =? MIN_NEG) = (sval a =? - 2 ^ 255).
Proof.
  intros Ha. pose proof (word_bound a Ha). unfold sval, MIN_NEG, W in *.
  destruct (Z.ltb_spec (be_val a) (2 ^ 255)); apply Bool.eq_iff_eq_true; rewrite !Z.eqb_eq; lia.
Qed.
Lemma sval_minus_one b : word_ok b -> (be_val b =? W - 1) = (sval b =? -1).
Proof.
  intros Hb. pose proof (word_bound b Hb). unfold sval, W in *.
  destruct (Z.ltb_spec (be_val b) (2 ^ 255)); apply Bool.eq_iff_eq_true; rewrite !Z.eqb_eq; lia.
Qed.

Lemma sdiv_val a b : word_ok a -> word_ok b ->
  sdiv_u256 (be_val a) (be_val b) = (if sval b =? 0 then 0 else Z.quot (sval a) (sval b)) mod W.
Proof.
  intros Ha Hb. unfold sdiv_u256. rewrite <-sval_zero, sval_min, sval_minus_one by done.
  destruct (Z.eqb_spec (sval b) 0) as [|Hb0]; [done|].
  destruct (Z.eqb_spec (sval a) (- 2 ^ 255)) as [Hm|Hm], (Z.eqb_spec (sval b) (-1)) as [Hn|Hn]; cbn [andb];
    [by rewrite Hm, Hn|..];
    (cbv zeta; rewrite !abs_be, !is_negative_be, quot_sign, <-!is_negative_sval by done;
     destruct (abs_ok a Ha) as [Oa Va], (abs_ok b Hb) as [Ob Vb]; destruct (div_ok _ _ Oa Ob) as [Oq Vq];
     rewrite Va, Vb in Vq; rewrite (proj2 (Z.eqb_neq _ 0)) in Vq by lia;
     pose proof (word_bound _ Oq) as Hq; rewrite Vq in Hq;
     destruct (is_negative a), (is_negative b); cbn [xorb Bool.eqb]; try apply neg_val; symmetry; by apply Z.mod_small).
Qed.

Lemma smod_val a b : word_ok a -> word_ok b ->
  smod_u256 (be_val a) (be_val b) = (if sval b =? 0 then 0 else Z.rem (sval a) (sval b)) mod W.
Proof.
  intros Ha Hb. unfold smod_u256. rewrite <-sval_zero by done.
  destruct (Z.eqb_spec (sval b) 0) as [|Hb0]; [done|]. cbv zeta.
  rewrite !abs_be, is_negative_be, Z.rem_mod, is_negative_sval by done.
  destruct (abs_ok a Ha) as [Oa Va], (abs_ok b Hb) as [Ob Vb]. destruct (mod_ok _ _ Oa Ob) as [Or Vr].
  rewrite Va, Vb in Vr. rewrite (proj2 (Z.eqb_neq _ 0)) in Vr by lia. pose proof (word_bound _ Or) as Hr. rewrite Vr in Hr.
  destruct (Z.eqb_spec (Z.abs (sval a) mod Z.abs (sval b)) 0) as [->|H0]; [by rewrite Z.mul_0_r|].
  destruct (Z.ltb_spec (sval a) 0) as [Hneg|Hpos].
  - rewrite Z.sgn_neg, neg_val by done. f_equal; ring.
  - destruct (Z.eq_dec (sval a) 0) as [He|]; [by rewrite He, Z.mod_0_l in H0 by lia|].
    rewrite Z.sgn_pos, Z.mul_1_l by lia. symmetry. by apply Z.mod_small.
Qed.

Lemma signed_lt_val a b : word_ok a -> word_ok b -> signed_lt (be_val a) (be_val b) = (sval a <? sval b).
Proof.
  intros Ha Hb. unfold signed_lt. rewrite !is_negative_be by done. pose proof (word_bound a Ha). pose proof (word_bound b Hb).
  destruct (sval_cases a Ha) as [(-> & -> & ?)|(-> & -> & ?)], (sval_cases b Hb) as [(-> & -> & ?)|(-> & -> & ?)]; unfold W in *;
    symmetry; try apply Z.ltb_lt; try apply Z.ltb_ge; try lia; apply Bool.eq_iff_eq_true; rewrite !Z.ltb_lt; lia.
Qed.

Lemma wrap256 x : wrap 256 x = x mod W.
Proof. done. Qed.

Lemma pow_pos_val b p : pow_pos_u256 b p = b ^ Zpos p mod W.
Proof.
  induction p as [p IH|p IH|]; simpl pow_pos_u256; cbv zeta; rewrite ?IH, ?wrap256; [..|by rewrite Z.pow_1_r].
  - rewrite <-Z.mul_mod by done. rewrite Z.mul_mod_idemp_l by done. f_equal.
    replace (Zpos p~1) with (Zpos p + Zpos p + 1) by lia. by rewrite !Z.pow_add_r, Z.pow_1_r by lia.
  - rewrite <-Z.mul_mod by done. f_equal. replace (Zpos p~0) with (Zpos p + Zpos p) by lia. by rewrite Z.pow_add_r by lia.
Qed.
Lemma pow_val b e : 0 <= e -> pow_u256 b e = b ^ e mod W.
Proof. intros He. unfold pow_u256. destruct e; [done|apply pow_pos_val|lia]. Qed.

Lemma sar_val v s : word_ok v -> 0 <= s < 2 ^ 64 -> sar_u256 (be_val v) s = (sval v / 2 ^ s) mod W.
Proof.
  intros Hv Hs. unfold sar_u256. rewrite is_negative_be by done. pose proof (word_bound v Hv) as Hb.
  pose proof (Z.pow_pos_nonneg 2 s ltac:(lia) ltac:(lia)) as Hp. destruct (Z.leb_spec 256 s) as [Hle|Hlt].
  - assert (2 ^ 256 <= 2 ^ s) by (apply Z.pow_le_mono_r; lia).
    destruct (sval_cases v Hv) as [(-> & _ & ?)|(-> & _ & ?)].
    + by rewrite Z.div_small by lia.
    + replace (sval v / 2 ^ s) with (-1); [done|]. apply (Z.div_unique_pos _ _ _ (sval v + 2 ^ s)); lia.
  - rewrite wrap_small by (unfold in_range; lia). cbv zeta. rewrite Z.shiftr_div_pow2 by lia.
    destruct (sval_cases v Hv) as [(-> & -> & ?)|(-> & -> & ?)]; cbn [negb].
    { symmetry. apply Z.mod_small. split; [apply Z.div_pos; lia|]. apply Z.div_lt_upper_bound; nia. }
    destruct (Z.eqb_spec s 0) as [->|Hs0].
    { rewrite !Z.div_1_r, <-Zminus_mod_idemp_r, Z.mod_same, Z.sub_0_r by done. symmetry. by apply Z.mod_small. }
    set (k := 256 - s). assert (HW : W = 2 ^ k * 2 ^ s) by (unfold k; rewrite <-Z.pow_add_r by lia; unfold W; f_equal; lia).
    pose proof (Z.pow_pos_nonneg 2 k ltac:(lia) ltac:(unfold k; lia)) as Hk.
    assert (2 ^ 1 <= 2 ^ s) by (apply Z.pow_le_mono_r; lia).
    assert (Hmask : shl_u256 (W - 1) k = (2 ^ s - 1) * 2 ^ k).
    { unfold shl_u256. rewrite wrap256, Z.shiftl_mul_pow2 by (unfold k; lia). symmetry.
      apply (Z.mod_unique_pos _ _ (2 ^ k - 1)); rewrite HW; nia. }
    assert (Hlog : 0 <= be_val v / 2 ^ s < 2 ^ k) by (split; [apply Z.div_pos; lia|apply Z.div_lt_upper_bound; lia]).
    rewrite Z.lor_comm, Hmask, (lor_add _ _ k); [|unfold k; lia|done|by apply Z.mod_mul; lia].
    replace (be_val v - W) with (be_val v + (- 2 ^ k) * 2 ^ s) by lia. rewrite Z.div_add by lia.
    apply (Z.mod_unique_pos _ _ (-1)); nia.
Qed.

Lemma byte_op_eq i x : word_ok i -> word_ok x -> be_val i < 2 ^ 64 -> byte_op (be_val i) x = u256_byte i x.
Proof.
  intros Hi Hx Hlt. pose proof (word_bound i Hi). unfold byte_op, u256_byte. rewrite to_u64_val, wrap_small, Z.mod_small by (done || (unfold in_range; lia)).
  destruct (32 <=? be_val i); [done|]. pose proof (byte_at_byte x (be_val i) (proj2 Hx)) as Hbyte.
  apply word_inj; [|apply from_u64_ok|].
  - split; [done|]. apply Forall_app. split; [by apply bytes_replicate|by constructor].
  - rewrite from_u64_val by (unfold in_range, byte in *; lia). rewrite be_val_app, be_val_replicate0. simpl. unfold zlen. simpl. lia.
Qed.

Lemma alter_id (f : Z -> Z) i (l : list Z) x : l !! i = Some x -> f x = x -> alter f i l = l.
Proof.
  intros Hl Hf. apply list_eq. intros j. destruct (decide (i = j)) as [<-|].
  - rewrite list_lookup_alter_eq, Hl. simpl. by rewrite Hf.
  - by rewrite list_lookup_alter_ne.
Qed.

(** Where the EVM's SIGNEXTEND leaves the sign byte alone the two are equal. *)
Lemma signextend_eq b x : word_ok b -> word_ok x -> be_val b < 2 ^ 64 ->
  be_val b < 31 -> Z.testbit (be_val x) (8 * be_val b + 7) = false \/ byte_at x (31 - be_val b) = 255 ->
  signextend (be_val b) (be_val x) = u256_signextend b x.
Proof.
  intros Hb Hx Hlt Hlt31 Hor. pose proof (word_bound b Hb). unfold signextend, u256_signextend.
  rewrite to_u64_val, wrap_small, Z.mod_small, of_u256_be by (done || (unfold in_range; lia)).
  rewrite (proj2 (Z.leb_gt 31 _)) by done. cbv zeta. set (k := be_val b) in *.
  assert (31 - (k * 8 + 7) / 8 = 31 - k) as -> by (f_equal; symmetry; apply (Z.div_unique_pos _ _ _ 7); lia).
  pose proof (byte_at_byte x (31 - k) (proj2 Hx)) as Hbyte. set (y := byte_at x (31 - k)) in *.
  assert (Hbit : Z.testbit (be_val x) (8 * k + 7) = Z.testbit y 7) by (apply testbit_byte; [done|lia..]).
  assert ((Z.land (Z.shiftr y 7) 1 =? 1) = Z.testbit y 7) as ->.
  { rewrite (Z.land_ones _ 1) by lia. rewrite <-Z.bit0_mod, Z.shiftr_spec by lia. by destruct (Z.testbit y _). }
  rewrite land_128, negb_involutive.
  pose proof (fold_fill (if Z.testbit y 7 then 255 else 0) x (Z.to_nat (31 - k)) (31 - k) Hx ltac:(destruct (Z.testbit y 7); unfold byte; lia) ltac:(lia) ltac:(lia)) as Hf.
  cbv zeta in Hf. rewrite Z2Nat.id, Z.ltb_irrefl in Hf by lia. destruct Hf as [Hout Hat].
  pose proof (word_lookup _ (31 - k) Hout ltac:(lia)) as Hl. rewrite Hat in Hl. fold y in Hl.
  destruct (Z.testbit y 7) eqn:Hs.
  - destruct Hor as [Hno|Hff]; [congruence|]. symmetry. eapply alter_id; [exact Hl|]. by rewrite Hff.
  - symmetry. eapply alter_id; [exact Hl|]. clear -Hbyte Hs.
    assert (forallb (fun y => implb (negb (Z.testbit y 7)) (Z.land y 127 =? y)) (seqZ 0 256) = true) as H by (vm_compute; done).
    rewrite forallb_forall in H. specialize (H y ltac:(apply list_elem_of_In, elem_of_seqZ; unfold byte in Hbyte; lia)).
    rewrite Hs in H. by apply Z.eqb_eq.
Qed.

(** ** Agreement with the EVM *)

Section agree.
Import Opcode.

Definition evm_op1 (op : Opcode) : option (word -> word) :=
  match op with NOT => Some u256_not | ISZERO => Some (fun a => bool_word (u256_is_zero a)) | _ => None end.
Definition evm_op2 (op : Opcode) : option (word -> word -> word) :=
  match op with
  | ADD => Some u256_add | MUL => Some u256_mul | SUB => Some u256_sub | DIV => Some u256_div | SDIV => Some u256_sdiv
  | MOD => Some u256_mod | SMOD => Some u256_smod | SIGNEXTEND => Some u256_signextend
  | LT => Some (fun a b => bool_word (u256_lt a b)) | GT => Some (fun a b => bool_word (u256_gt a b))
  | SLT => Some (fun a b => bool_word (u256_slt a b)) | SGT => Some (fun a b => bool_word (u256_sgt a b))
  | EQ => Some (fun a b => bool_word (u256_eq a b))
  | AND => Some u256_and | OR => Some u256_or | XOR => Some u256_xor
  | BYTE => Some u256_byte | SHL => Some u256_shl | SHR => Some u256_shr | SAR => Some u256_sar
  | _ => None
  end.
Definition evm_op3 (op : Opcode) : option (word -> word -> word -> word) :=
  match op with ADDMOD => Some u256_addmod | MULMOD => Some u256_mulmod | _ => None end.

(** Operands on which the two machines compute the same: a modulus of at most
    [2^255], a shift or index below [2^64], and a SIGNEXTEND that the EVM gets
    right. *)
Definition comparable2 (op : Opcode) (a b : word) : Prop :=
  match op with
  | SHL | SHR | SAR | BYTE => be_val a < 2 ^ 64
  | SIGNEXTEND => be_val a < 2 ^ 64 /\
      (be_val a < 31 -> Z.testbit (be_val b) (8 * be_val a + 7) = false \/ byte_at b (31 - be_val a) = 255)
  | _ => True
  end.
Definition comparable (op : Opcode) (st : ZvmStack) : Prop :=
  (forall rest a b, st = rest ++ [b; a] -> comparable2 op a b) /\
  (forall rest a b n, st = rest ++ [n; b; a] -> is_Some (op3 op) -> be_val n <= 2 ^ 255).

Lemma op1_agree op f g a : op1 op = Some f -> evm_op1 op = Some g -> word_ok a -> f a = g a.
Proof. intros Hf Hg Ha. destruct op; try discriminate; injection Hf as <-; injection Hg as <-; done. Qed.

Lemma op2_agree op f g a b : op2 op = Some f -> evm_op2 op = Some g -> word_ok a -> word_ok b -> comparable2 op a b ->
  f a b = g a b.
Proof.
  intros Hf Hg Ha Hb Hc. pose proof (word_bound a Ha). pose proof (word_bound b Hb).
  destruct op; try discriminate; injection Hf as <-; injection Hg as <-; unfold on_u256; simpl in Hc.
  - apply of_u256_is; [by apply add_ok|]. by rewrite (proj2 (add_ok a b Ha Hb)), wrap256, Z.mod_mod.
  - apply of_u256_is; [by apply mul_ok|]. by rewrite (proj2 (mul_ok a b Ha Hb)), wrap256, Z.mod_mod.
  - apply of_u256_is; [by apply sub_ok|]. by rewrite (proj2 (sub_ok a b Ha Hb)), wrap256, Z.mod_mod.
  - destruct (div_ok a b Ha Hb) as [Hw <-]. by apply of_u256_be.
  - destruct (sdiv_ok a b Ha Hb) as [Hw Hv]. by rewrite sdiv_val, <-Hv, of_u256_be.
  - destruct (mod_ok a b Ha Hb) as [Hw <-]. by apply of_u256_be.
  - destruct (smod_ok a b Ha Hb) as [Hw Hv]. by rewrite smod_val, <-Hv, of_u256_be.
  - destruct Hc as [Hlt Hc]. destruct (Z.lt_ge_cases (be_val a) 31); [apply signextend_eq; auto|].
    unfold signextend, u256_signextend. rewrite to_u64_val, Z.mod_small by (done || lia).
    rewrite (proj2 (Z.leb_le _ _)) by done. by apply of_u256_be.
  - by rewrite flag_bool, lt_ok.
  - unfold u256_gt. by rewrite flag_bool, lt_ok.
  - by rewrite flag_bool, signed_lt_val, (proj1 (slt_ok a b Ha Hb)).
  - by rewrite flag_bool, signed_lt_val, (proj2 (slt_ok a b Ha Hb)).
  - done.
  - done.
  - done.
  - done.
  - by apply byte_op_eq.
  - assert (Hs : u256_to_u64 a = be_val a) by (rewrite to_u64_val by done; apply Z.mod_small; lia).
    destruct (shl_ok a b Ha Hb) as [Hw Hv]. apply of_u256_is; [done|]. rewrite Hv, Hs.
    rewrite wrap_small by (unfold in_range; lia). destruct (Z.leb_spec 256 (be_val a)).
    + replace (be_val a) with (be_val a - 256 + 256) by lia. rewrite Z.pow_add_r by lia. change (2 ^ 256) with W.
      by rewrite Z.mul_assoc, Z.mod_mul.
    + unfold shl_u256. by rewrite wrap256, Z.shiftl_mul_pow2, Z.mod_mod by (done || lia).
  - destruct (shr_ok a b Ha Hb) as [Hw Hv]. pose proof (word_bound _ Hw) as Hbd. rewrite to_u64_val, Z.mod_small in Hv by (done || lia).
    rewrite wrap_small by (unfold in_range; lia). apply of_u256_is; [done|]. rewrite Hv in *. destruct (Z.leb_spec 256 (be_val a)).
    + assert (W <= 2 ^ be_val a) by (apply Z.pow_le_mono_r; lia). by rewrite Z.div_small by lia.
    + rewrite Z.shiftr_div_pow2 by lia. symmetry. by apply Z.mod_small.
  - assert (Hs : u256_to_u64 a = be_val a) by (rewrite to_u64_val by done; apply Z.mod_small; lia).
    destruct (sar_ok a b Ha Hb) as [Hw Hv]. rewrite Hs in Hv. rewrite sar_val by (done || lia). by rewrite <-Hv, of_u256_be.
Qed.

Lemma op3_agree op f g a b n : op3 op = Some f -> evm_op3 op = Some g -> word_ok a -> word_ok b -> word_ok n ->
  be_val n <= 2 ^ 255 -> f a b n = g a b n.
Proof.
  intros Hf Hg Ha Hb Hn Hle. destruct op; try discriminate; injection Hf as <-; injection Hg as <-.
  - destruct (addmod_ok a b n Ha Hb Hn (or_introl Hle)) as [Hw <-]. by apply of_u256_be.
  - destruct (mulmod_ok a b n Ha Hb Hn Hle) as [Hw <-]. by apply of_u256_be.
Qed.
End agree.

(** ** The two machines on one stack *)

Section machines.
Context {H : Type} `{Host H} `{Primitives}.
Abbreviation EvmSt := (EVMInterpreter H).
Abbreviation FM := (M EvmSt Stop).

(** The EVM method [k] does to the stack of [s] what [m] does to the ZVM's. *)
Definition agree (m : SM unit) (k : FM flow) (s : EvmSt) : Prop :=
  match m (st_data (stack s)) with
  | (Ok _, st) => k s = (Ok Next, set_stack (mkStack st) s)
  | (Err _, _) => exists e s', k s = (Err (Evm e), s')
  | (Panic, _) => False
  end.

Lemma agree_push w s : agree (push w) (push_next w) s.
Proof.
  unfold agree, push_next, spush, on_stack, push, EvmMachine.push, get_st, throw_if, put_st, mbind, M_bind.
  change (EvmMachine.MAX_STACK <=? stack_len (stack s)) with (MAX_STACK_DEPTH <=? zlen (st_data (stack s))).
  destruct (MAX_STACK_DEPTH <=? _); simpl; eauto.
Qed.

Lemma agree_pop (m : word -> SM unit) (k : word -> FM flow) s : Forall word_ok (st_data (stack s)) ->
  (forall a rest, st_data (stack s) = rest ++ [a] -> word_ok a -> Forall word_ok rest ->
     agree (m a) (k a) (set_stack (mkStack rest) s)) ->
  agree (a ← pop; m a) (a ← spop; k a) s.
Proof.
  intros Hw Hk. unfold agree, spop, on_stack, pop, EvmMachine.pop, mbind, M_bind.
  destruct (list.last (st_data (stack s))) as [a|] eqn:Hlast; [|simpl; by eauto].
  apply last_Some in Hlast as [rest Hst]. pose proof Hw as Hw'. rewrite Hst, Forall_app in Hw'. destruct Hw' as [Hr Ha%Forall_inv].
  pose proof (Hk a rest Hst Ha Hr) as Hag. unfold agree in Hag. cbn [stack set_stack st_data] in Hag.
  assert (take (length (st_data (stack s)) - 1) (st_data (stack s)) = rest) as ->.
  { rewrite Hst, length_app. simpl. rewrite Nat.add_sub. by rewrite take_app_length. }
  simpl. destruct (m a rest) as [[[]|e|] st]; done.
Qed.

Lemma evm_arith op other :
  (forall f, evm_op1 op = Some f -> exec_arith (H := H) (Opcode.as_u8 op) other = alu1 f) /\
  (forall f, evm_op2 op = Some f -> exec_arith (H := H) (Opcode.as_u8 op) other = alu2 f) /\
  (forall f, evm_op3 op = Some f -> exec_arith (H := H) (Opcode.as_u8 op) other = alu3 f).
Proof. split_and!; intros f Hf; destruct op; try discriminate; injection Hf as <-; done. Qed.

Lemma exec_alu_cases op m : exec_alu op = Some m ->
  (exists f g, op1 op = Some f /\ evm_op1 op = Some g /\ m = (a ← pop; push (f a))) \/
  (exists f g, op2 op = Some f /\ evm_op2 op = Some g /\ m = (a ← pop; b ← pop; push (f a b))) \/
  (exists f g, op3 op = Some f /\ evm_op3 op = Some g /\ m = (a ← pop; b ← pop; n ← pop; push (f a b n))).
Proof.
  intros Hm. destruct op; try discriminate; injection Hm as <-;
    (by left; do 2 eexists) || (by right; left; do 2 eexists) || (by right; right; do 2 eexists).
Qed.

End machines.

Lemma exp_agrees {E} a b : word_ok a -> word_ok b -> @u256_exp E a b = Ok (of_u256 (pow_u256 (be_val a) (be_val b))).
Proof.
  intros Ha Hb. destruct (word_bound b Hb) as [H0 Hlt]. rewrite pow_val by done. unfold u256_exp. rewrite is_zero_val by done.
  destruct (Z.eqb_spec (be_val b) 0) as [->|Hne]; [by rewrite Z.pow_0_r|].
  destruct (@exp_loop_ok E 256 (u256_from_u64 1) a b (from_u64_ok 1) Ha Hb Hlt) as (w & -> & Hw & Hv).
  f_equal. symmetry. apply of_u256_is; [done|]. rewrite Hv, from_u64_val, Z.mul_1_l, Z.mod_mod by done. done.
Qed.

(** Outside those bounds the machines differ. *)
Lemma vm_arithmetic_differs :
  let addmod f := f (of_u256 (W - 2)) (of_u256 (W - 2)) (of_u256 (W - 1)) : word in
  let two a b f := f (of_u256 a) (of_u256 b) : word in
  addmod <$> op3 Opcode.ADDMOD <> addmod <$> evm_op3 Opcode.ADDMOD /\
  two (2 ^ 64) 1 <$> op2 Opcode.SHL <> two (2 ^ 64) 1 <$> evm_op2 Opcode.SHL /\
  two 0 0x80 <$> op2 Opcode.SIGNEXTEND <> two 0 0x80 <$> evm_op2 Opcode.SIGNEXTEND.
Proof.
  split_and!; apply (bool_decide_unpack _); vm_compute; exact I.
Qed.
