(* ===== verification/ZvmHost.v ===== *)
(** * The ZVM's host (crates/zbx-zvm/src/host.rs, crates/zbx-state/src/host_zvm.rs,
    crates/zbx-execution/src/host_zvm.rs)

    [ZvmHost] is the trait the second virtual machine executes against, with
    its default methods as definitions where no modelled host overrides them.
    [ProductionZvmHost] implements it over any [ZvmStateAccess]: the world
    state of a block or the executor's view.  There are no snapshots.

    Below: the precompiles (crates/zbx-zvm/src/precompiles.rs). *)

From Stdlib Require Import ZArith Lia String.
From stdpp Require Import base tactics list gmap sets numbers option strings.
From S2P Require Import Prelude Bytes U256 Crypto Block EvmMachine EvmHost NativeReads EvmPrecompiles EvmMock TrieNode Trie Receipt Account StateMpt StateDB StateView ZvmMachine.

Local Open Scope Z_scope.

(** ** The trait *)

Class ZvmHost (H : Type) : Type := {
  z_balance : H -> Address -> Z;
  z_storage_load : H -> Address -> word -> word;
  z_storage_store : Address -> word -> word -> H -> H;
  z_code : H -> Address -> bytes;
  z_code_hash : H -> Address -> word;
  z_block_hash : H -> Z -> word;
  z_transfer : Address -> Address -> Z -> M H ZvmError unit;
  z_nonce : H -> Address -> Z;
  z_inc_nonce : Address -> H -> Z * H;
  z_set_code : Address -> bytes -> H -> H;
  z_resolve_pay_id : H -> bytes -> option Address;
  z_resolve_pay_id_bytes : H -> bytes -> option Address;
  z_reverse_pay_id : H -> Address -> option bytes;
  z_zusd_balance : H -> Address -> Z;
  z_zbx_price_usd : H -> Z;
  z_blob_base_fee : H -> Z;
  z_burn_zbx : Address -> Z -> M H ZvmError unit;
  z_emit_zvm_log : bytes -> bytes -> H -> H;
  z_transient_load : H -> Address -> word -> word;
  z_transient_store : Address -> word -> word -> H -> H;
  z_coinbase : H -> Address;
  z_block_gas_limit : H -> Z;
  z_prevrandao : H -> word;
  z_gas_price : H -> Z;
  z_blob_hash : H -> Z -> word;
  z_is_call_allowed : H -> Address -> bool;
  z_mark_created_this_tx : Address -> H -> H;
  z_was_created_this_tx : H -> Address -> bool;
  z_selfdestruct : Address -> Address -> H -> H;
  z_emit_log : Address -> list word -> bytes -> H -> H }.

Definition z_code_size {H} `{ZvmHost H} (h : H) (a : Address) : Z := zlen (z_code h a).
Definition z_has_pay_id {H} `{ZvmHost H} (h : H) (a : Address) : bool := false.

(** What a host promises.  [z_step] relates a host to what an operation makes
    of it; [z_world] is what a static frame may not change, which an operation
    may change in any way that [z_rel] allows. *)
Class ZvmHostLaws (H : Type) `{ZvmHost H} : Type := {
  ZWorld : Type;
  z_world : H -> ZWorld;
  z_ok : H -> Prop;
  z_rel : relation H;
  z_rel_preorder : PreOrder z_rel;
  z_reads h a k n : z_ok h ->
    (in_range 128 (z_balance h a) /\ in_range 64 (z_nonce h a) /\ code_ok (z_code h a) /\ word_ok (z_code_hash h a)) /\
    (word_ok (z_storage_load h a k) /\ word_ok (z_transient_load h a k) /\ word_ok (z_block_hash h n)) /\
    (addr_ok (z_coinbase h) /\ word_ok (z_prevrandao h) /\ word_ok (z_blob_hash h n));
  z_resolve_ok h n a : z_ok h -> z_resolve_pay_id h n = Some a -> addr_ok a;
  z_resolve_bytes_ok h n a : z_ok h -> z_resolve_pay_id_bytes h n = Some a -> addr_ok a;
  z_reverse_ok h a n : z_ok h -> z_reverse_pay_id h a = Some n -> code_ok n /\ zlen n <= 32;
  z_no_panic h a b v : no_panic (fst (z_transfer a b v h)) /\ no_panic (fst (z_burn_zbx a v h));
  z_log_world h k v : z_world (z_emit_zvm_log k v h) = z_world h;
  z_step_store h a k v : z_ok h -> word_ok v -> z_ok (z_storage_store a k v h) /\ z_rel h (z_storage_store a k v h);
  z_step_transient h a k v : z_ok h -> word_ok v -> z_ok (z_transient_store a k v h) /\ z_rel h (z_transient_store a k v h);
  z_step_transfer h a b v : z_ok h -> 0 <= v -> let h' := snd (z_transfer a b v h) in z_ok h' /\ z_rel h h';
  z_step_burn h a v : z_ok h -> 0 <= v -> let h' := snd (z_burn_zbx a v h) in z_ok h' /\ z_rel h h';
  z_step_inc h a : z_ok h -> let h' := snd (z_inc_nonce a h) in z_ok h' /\ z_rel h h';
  z_step_code h a c : z_ok h -> code_ok c -> z_ok (z_set_code a c h) /\ z_rel h (z_set_code a c h);
  z_step_zvm_log h k v : z_ok h -> z_ok (z_emit_zvm_log k v h) /\ z_rel h (z_emit_zvm_log k v h);
  z_step_mark h a : z_ok h -> z_ok (z_mark_created_this_tx a h) /\ z_rel h (z_mark_created_this_tx a h);
  z_step_destruct h a b : z_ok h -> z_ok (z_selfdestruct a b h) /\ z_rel h (z_selfdestruct a b h);
  z_step_log h a ts d : z_ok h -> z_ok (z_emit_log a ts d h) /\ z_rel h (z_emit_log a ts d h) }.
#[export] Existing Instance z_rel_preorder.

(** ** The state behind the production host *)

Class ZvmStateAccess (S : Type) : Type := {
  sa_get_account : Address -> S -> AccountState;
  sa_set_account : Address -> AccountState -> S -> S;
  sa_get_storage_word : Address -> word -> S -> word;
  sa_set_storage_word : Address -> word -> word -> S -> S;
  sa_get_code_for : Address -> S -> bytes;
  sa_seed_code : H256 -> bytes -> S -> S;
  sa_emit_log : Log -> S -> S }.

#[export] Instance statedb_access : ZvmStateAccess StateDB := {
  sa_get_account := StateDB.get_account; sa_set_account := StateDB.set_account;
  sa_get_storage_word := StateDB.get_storage; sa_set_storage_word := StateDB.set_storage;
  sa_get_code_for a db := StateDB.get_code (Account.code_hash (StateDB.get_account a db)) db;
  sa_seed_code := StateDB.seed_code; sa_emit_log := StateDB.emit_log }.

#[export] Instance stateview_access : ZvmStateAccess StateView := {
  sa_get_account := StateView.get_account; sa_set_account := StateView.set_account;
  sa_get_storage_word := StateView.get_storage; sa_set_storage_word := StateView.set_storage;
  sa_get_code_for := StateView.get_code;
  sa_seed_code := StateView.seed_code; sa_emit_log := StateView.emit_log }.

(** ** The production host *)

Record ZvmBlockEnv : Type := mkEnv {
  env_coinbase : Address; env_block_gas_limit : Z; env_prevrandao : word; env_gas_price : Z; env_blob_hashes : list word }.

Definition from_header_with_blob_hashes (h : BlockHeader) (blob_hashes : list word) : ZvmBlockEnv :=
  mkEnv (Block.coinbase h) (Block.gas_limit h) (Block.mix_hash h) (Block.base_fee_per_gas h) blob_hashes.
Definition from_header (h : BlockHeader) : ZvmBlockEnv := from_header_with_blob_hashes h [].

Abbreviation TransientScratchpad := (gmap (Address * word) word).

Record ProductionZvmHost (S : Type) : Type := mkHost {
  state : S; env : ZvmBlockEnv; transient : TransientScratchpad; caller_vm : VmKind;
  created_this_tx : gset Address; pending_destructs : list (Address * Address) }.
Arguments mkHost {S}. Arguments state {S} _. Arguments env {S} _. Arguments transient {S} _.
Arguments caller_vm {S} _. Arguments created_this_tx {S} _. Arguments pending_destructs {S} _.

Definition host_new {S} (s : S) (e : ZvmBlockEnv) (t : TransientScratchpad) : ProductionZvmHost S :=
  mkHost s e t Zvm ∅ [].

Section production.
Context {S : Type} `{ZvmStateAccess S} `{Primitives}.
Abbreviation HostSt := (ProductionZvmHost S).

Definition set_state (s : S) (h : HostSt) : HostSt :=
  mkHost s (env h) (transient h) (caller_vm h) (created_this_tx h) (pending_destructs h).
Definition take_pending_destructs (h : HostSt) : list (Address * Address) * HostSt :=
  (pending_destructs h, mkHost (state h) (env h) (transient h) (caller_vm h) (created_this_tx h) []).

Definition p_account (h : HostSt) (a : Address) : AccountState := sa_get_account a (state h).
Definition p_balance (h : HostSt) (a : Address) : Z := balance_u128 (p_account h a).
Definition p_write (a : Address) (st : AccountState) (h : HostSt) : HostSt := set_state (sa_set_account a st (state h)) h.

(** The receiver is read after the sender was written. *)
Definition p_transfer (from to : Address) (amount : Z) : M HostSt ZvmError unit :=
  h ← get_st;
  let from_acct := p_account h from in
  let from_bal := balance_u128 from_acct in
  _ ← throw_if (from_bal <? amount) InsufficientBalance;
  _ ← modify (p_write from (set_balance_u128 (from_bal - amount) from_acct));
  h ← get_st;
  let to_acct := p_account h to in
  modify (p_write to (set_balance_u128 (sat 128 (balance_u128 to_acct + amount)) to_acct)).

Definition p_inc_nonce (a : Address) (h : HostSt) : Z * HostSt :=
  let acct := p_account h a in
  let n := sat 64 (Account.nonce acct + 1) in
  (n, p_write a (Account.set_nonce n acct) h).

Definition with_code (code_hash : H256) (acct : AccountState) : AccountState :=
  mkAccount (Account.nonce acct) (Account.balance acct) code_hash (storage_root acct) Zvm.
Definition p_set_code (a : Address) (code : bytes) (h : HostSt) : HostSt :=
  let code_hash := keccak256 code in
  let h := set_state (sa_seed_code code_hash code (state h)) h in
  p_write a (with_code code_hash (p_account h a)) h.

Definition p_storage_load (h : HostSt) (a : Address) (k : word) : word := sa_get_storage_word a k (state h).

Definition p_resolve_bytes (h : HostSt) (name : bytes) : option Address :=
  if negb (validate_payid_name name) then None
  else
    let word := p_storage_load h PAYID_REGISTRAR_ADDR (payid_forward_slot name) in
    if forallb (fun b => b =? 0) word then None else Some (drop 12 word).
Definition p_resolve (h : HostSt) (pay_id : bytes) : option Address :=
  p_resolve_bytes h (trim_end_matches at_zbx (to_ascii_lowercase pay_id)).
Definition p_reverse (h : HostSt) (a : Address) : option bytes :=
  let word := p_storage_load h PAYID_REGISTRAR_ADDR (payid_reverse_slot a) in
  if forallb (fun b => b =? 0) word then None else Some (take (position_zero word) word).

Definition p_burn (a : Address) (amount : Z) : M HostSt ZvmError unit :=
  h ← get_st;
  let acct := p_account h a in
  let bal := balance_u128 acct in
  _ ← throw_if (bal <? amount) InsufficientBalance;
  modify (p_write a (set_balance_u128 (bal - amount) acct)).

Definition p_transient_load (h : HostSt) (a : Address) (k : word) : word := default zero_word (transient h !! (a, k)).
Definition p_transient_store (a : Address) (k v : word) (h : HostSt) : HostSt :=
  mkHost (state h) (env h) (<[(a, k) := v]> (transient h)) (caller_vm h) (created_this_tx h) (pending_destructs h).

Definition p_blob_hash (h : HostSt) (i : Z) : word := default zero_word (env_blob_hashes (env h) !! Z.to_nat i).

Definition p_is_call_allowed (h : HostSt) (target : Address) : bool :=
  let acct := p_account h target in
  if negb (is_contract acct) then true else bool_decide (vm acct = caller_vm h).

Definition p_mark_created (a : Address) (h : HostSt) : HostSt :=
  mkHost (state h) (env h) (transient h) (caller_vm h) ({[a]} ∪ created_this_tx h) (pending_destructs h).
Definition p_was_created (h : HostSt) (a : Address) : bool := bool_decide (a ∈ created_this_tx h).

(** A failed sweep is ignored. *)
Definition p_selfdestruct (contract beneficiary : Address) (h : HostSt) : HostSt :=
  let bal := p_balance h contract in
  let h := if 0 <? bal then snd (p_transfer contract beneficiary bal h) else h in
  mkHost (state h) (env h) (transient h) (caller_vm h) (created_this_tx h) (pending_destructs h ++ [(contract, beneficiary)]).

Definition p_emit_log (a : Address) (topics : list word) (data : bytes) (h : HostSt) : HostSt :=
  set_state (sa_emit_log (Receipt.mkLog a topics data 0 0 (replicate 32 0) 0) (state h)) h.

#[export] Instance production_host : ZvmHost HostSt := {
  z_balance := p_balance; z_storage_load := p_storage_load;
  z_storage_store a k v h := set_state (sa_set_storage_word a k v (state h)) h;
  z_code h a := sa_get_code_for a (state h); z_code_hash h a := Account.code_hash (p_account h a);
  z_block_hash _ _ := zero_word; z_transfer := p_transfer; z_nonce h a := Account.nonce (p_account h a);
  z_inc_nonce := p_inc_nonce; z_set_code := p_set_code; z_resolve_pay_id := p_resolve;
  z_resolve_pay_id_bytes := p_resolve_bytes; z_reverse_pay_id := p_reverse; z_zusd_balance _ _ := 0;
  z_zbx_price_usd _ := 0; z_blob_base_fee _ := 1; z_burn_zbx := p_burn; z_emit_zvm_log _ _ h := h;
  z_transient_load := p_transient_load; z_transient_store := p_transient_store;
  z_coinbase h := env_coinbase (env h); z_block_gas_limit h := env_block_gas_limit (env h);
  z_prevrandao h := env_prevrandao (env h); z_gas_price h := env_gas_price (env h); z_blob_hash := p_blob_hash;
  z_is_call_allowed := p_is_call_allowed; z_mark_created_this_tx := p_mark_created;
  z_was_created_this_tx := p_was_created; z_selfdestruct := p_selfdestruct; z_emit_log := p_emit_log }.
End production.

(** * The ZVM's precompiled contracts (crates/zbx-zvm/src/precompiles.rs)

    The second virtual machine has bodies of its own for the addresses 0x01 to
    0x0F.  Helpers whose text is the EVM's (padding, lengths, the gas of
    modular exponentiation, BLAKE2 compression, the PayID name rules) and the
    state reads of NativeReads are shared here; the last part relates the two
    sets of precompiles. *)

Abbreviation ZP := (res ZvmError (bytes * Z)).
Definition zneed_gas (gas cost : Z) : res ZvmError unit := guard_err (gas <? cost) OutOfGas.

Section precompiles.
Context `{Primitives}.

(** ** Hashes, signatures *)

(** The padded input has the bytes of the input up to 128. *)
Definition ecrecover (input : bytes) (gas : Z) : ZP :=
  let cost := 3000 in
  _ ← zneed_gas gas cost;
  let n := Z.min (zlen input) 128 in
  let padded := take (Z.to_nat n) input ++ replicate (128 - Z.to_nat n) 0 in
  hash ← slice padded 0 32;
  high ← slice padded 32 63;
  if existsb (fun b => negb (b =? 0)) high then Ok (zeros32, cost)
  else
    v_byte ← index padded 63;
    r ← slice padded 64 96;
    s ← slice padded 96 128;
    let v_norm := if (v_byte =? 27) || (v_byte =? 28) then Some (v_byte - 27)
                  else if (v_byte =? 0) || (v_byte =? 1) then Some v_byte else None in
    match v_norm with
    | None => Ok (zeros32, cost)
    | Some v =>
      match recover_signer hash v r s with
      | Some addr => Ok (replicate 12 0 ++ addr, cost)
      | None => Ok (zeros32, cost)
      end
    end.

Definition sha256_hash (input : bytes) (gas : Z) : ZP :=
  let cost := u64 (60 + u64 (12 * words32 input)) in
  _ ← zneed_gas gas cost; Ok (sha256 input, cost).

Definition ripemd160_hash (input : bytes) (gas : Z) : ZP :=
  let cost := u64 (600 + u64 (120 * words32 input)) in
  _ ← zneed_gas gas cost; Ok (replicate 12 0 ++ ripemd160 input, cost).

Definition identity (input : bytes) (gas : Z) : ZP :=
  let cost := u64 (15 + u64 (3 * words32 input)) in
  _ ← zneed_gas gas cost; Ok (input, cost).

Definition ed25519_verify (input : bytes) (gas : Z) : ZP :=
  let cost := 3000 in
  _ ← zneed_gas gas cost;
  if zlen input <? 128 then Err (InvalidInput "ed25519_verify needs 128 bytes")
  else
    pk ← slice input 0 32; msg ← slice input 32 64; sig ← slice input 64 128;
    Ok (if ed25519_check pk msg sig then replicate 31 0 ++ [1] else zeros32, cost).

Definition vrf_verify (input : bytes) (gas : Z) : ZP :=
  let cost := 5000 in
  _ ← zneed_gas gas cost;
  let min_len := PUBKEY_LEN + PROOF_LEN in
  if zlen input <? min_len then Ok (zeros32, cost)
  else
    pk ← slice input 0 PUBKEY_LEN;
    let pi_start := zlen input - PROOF_LEN in
    alpha ← slice input PUBKEY_LEN pi_start;
    pi ← slice input pi_start (zlen input);
    match vrf_check pk alpha pi with
    | Some beta => Ok (beta, cost)
    | None => Ok (zeros32, cost)
    end.

(** ** Modular exponentiation *)

Definition modexp (input : bytes) (gas : Z) : ZP :=
  let padded := pad_right input (Z.max 96 (zlen input)) in
  base_len ← map_err (fun _ => InvalidInput "modexp: base_len overflow") (w ← slice padded 0 32; read_u256_as_usize w);
  exp_len ← map_err (fun _ => InvalidInput "modexp: exp_len overflow") (w ← slice padded 32 64; read_u256_as_usize w);
  mod_len ← map_err (fun _ => InvalidInput "modexp: mod_len overflow") (w ← slice padded 64 96; read_u256_as_usize w);
  if mod_len =? 0 then (_ ← zneed_gas gas 200; Ok ([], 200))
  else
    total ← ok_or (l ← checked 64 (96 + base_len); l ← checked 64 (l + exp_len); checked 64 (l + mod_len))
              (InvalidInput "modexp: length overflow");
    let padded := pad_right padded total in
    let base_start := 96 in
    let exp_start := base_start + base_len in
    let mod_start := exp_start + exp_len in
    base ← slice padded base_start (base_start + base_len);
    exp ← slice padded exp_start (exp_start + exp_len);
    modulus ← slice padded mod_start (mod_start + mod_len);
    let exp := be_val exp in
    let modulus := be_val modulus in
    let cost := modexp_gas_eip2565 base_len exp_len mod_len exp in
    _ ← zneed_gas gas cost;
    if modulus =? 0 then Ok (replicate (Z.to_nat mod_len) 0, cost)
    else
      let result_bytes := big_bytes (modpow (be_val base) exp modulus) in
      let result_bytes := replicate (Z.to_nat mod_len - length result_bytes) 0 ++ result_bytes in
      Ok (take (Z.to_nat mod_len) result_bytes, cost).

(** ** alt_bn128 *)

Definition parse_fq (b : bytes) : res ZvmError Fq :=
  a ← slice b 0 32; ok_or (fq_from_slice a) (InvalidInput "bn128: invalid Fq field element").

Definition parse_g1 (b : bytes) : res ZvmError G1 :=
  x ← (w ← slice b 0 32; parse_fq w);
  y ← (w ← slice b 32 64; parse_fq w);
  if fq_is_zero x && fq_is_zero y then Ok g1_zero
  else ok_or (g1_new x y) (InvalidInput "bn128: point not on G1 curve").

Definition encode_g1 (p : G1) : res ZvmError bytes :=
  match g1_affine p with
  | Some (x, y) => Ok (x ++ y)
  | None => Ok (replicate 64 0)
  end.

Definition bn128_add (input : bytes) (gas : Z) : ZP :=
  let cost := 150 in
  _ ← zneed_gas gas cost;
  let padded := pad_right input 128 in
  p1 ← (w ← slice padded 0 64; parse_g1 w);
  p2 ← (w ← slice padded 64 128; parse_g1 w);
  out ← encode_g1 (g1_add p1 p2); Ok (out, cost).

Definition bn128_mul (input : bytes) (gas : Z) : ZP :=
  let cost := 6000 in
  _ ← zneed_gas gas cost;
  let padded := pad_right input 96 in
  p ← (w ← slice padded 0 64; parse_g1 w);
  scalar_bytes ← slice padded 64 96;
  scalar ← ok_or (fr_from_slice scalar_bytes) (InvalidInput "bn128_mul: invalid scalar");
  out ← encode_g1 (g1_mul p scalar); Ok (out, cost).

Definition parse_pair (chunk : bytes) : res ZvmError (G1 * G2) :=
  p1 ← (w ← slice chunk 0 64; parse_g1 w);
  x_im ← (w ← slice chunk 64 96; parse_fq w);
  x_re ← (w ← slice chunk 96 128; parse_fq w);
  y_im ← (w ← slice chunk 128 160; parse_fq w);
  y_re ← (w ← slice chunk 160 192; parse_fq w);
  p2 ← (if fq_is_zero x_im && fq_is_zero x_re && fq_is_zero y_im && fq_is_zero y_re then Ok g2_zero
        else ok_or (g2_new (x_im, x_re) (y_im, y_re)) (InvalidInput "bn128_pairing: invalid G2 point"));
  Ok (p1, p2).

Fixpoint parse_pairs (n : nat) (input : bytes) (i : Z) : res ZvmError (list (G1 * G2)) :=
  match n with
  | O => Ok []
  | S n =>
    p ← (chunk ← slice input (i * 192) ((i + 1) * 192); parse_pair chunk);
    ps ← parse_pairs n input (i + 1);
    Ok (p :: ps)
  end.

Definition bn128_pairing (input : bytes) (gas : Z) : ZP :=
  if negb (zlen input mod 192 =? 0) then Err (InvalidInput "bn128_pairing: input length not multiple of 192")
  else
    let k := zlen input / 192 in
    let cost := u64 (45000 + u64 (34000 * k)) in
    _ ← zneed_gas gas cost;
    pairs ← parse_pairs (Z.to_nat k) input 0;
    Ok (if pairing_is_one pairs then replicate 31 0 ++ [1] else zeros32, cost).

(** ** BLAKE2 *)

Definition blake2f (input : bytes) (gas : Z) : ZP :=
  if negb (zlen input =? 213) then Err (InvalidInput "BLAKE2F: input must be 213 bytes")
  else
    rounds ← (w ← slice input 0 4; Ok (be_val w));
    let cost := rounds in
    _ ← zneed_gas gas cost;
    flag ← index input 212;
    f ← (if flag =? 0 then Ok false else if flag =? 1 then Ok true
         else Err (InvalidInput "BLAKE2F: invalid final flag"));
    hb ← slice input 4 68;
    mb ← slice input 68 196;
    t0 ← slice input 196 204;
    t1 ← slice input 204 212;
    let h := blake2b_compress rounds (le_u64s 8 hb) (le_u64s 16 mb) (be_val (rev t0)) (be_val (rev t1)) f in
    Ok (concat (map (fun w => rev (to_be 8 w)) h), cost).

(** ** The stateful precompiles *)

Definition payid_resolve_with (input : bytes) (gas : Z) (resolve : bytes -> option Address)
    (reverse : Address -> option bytes) : ZP :=
  if zlen input <? 96 then Err (InvalidInput "payid: input < 96 bytes (need uint8 op + bytes header)")
  else if existsb (fun b => negb (b =? 0)) (take 31 input) then Err (InvalidInput "payid: op must fit in uint8")
  else
    op ← index input 31;
    if existsb (fun b => negb (b =? 0)) (take 28 (drop 64 input)) then Err (InvalidInput "payid: length too large")
    else
      let length_ := be_val (take 4 (drop 92 input)) in
      if (length_ =? 0) || (zlen input <? 96 + length_) then Err (InvalidInput "payid: payload length out of range")
      else
        payload ← slice input 96 (96 + length_);
        let cost := sat 64 (700 + sat 64 (50 * zlen payload)) in
        _ ← zneed_gas gas cost;
        if op =? 0 then
          if negb (utf8_ok payload) then Err (InvalidInput "payid: name not UTF-8")
          else
            let name := trim_end_matches at_zbx (to_ascii_lowercase payload) in
            if negb (validate_payid_name name) then Err (InvalidInput "payid: name violates [a-z0-9._-]{3,32}")
            else
              match resolve name with
              | Some addr => Ok (replicate 12 0 ++ addr, cost)
              | None => Ok (zeros32, cost)
              end
        else if op =? 1 then
          if negb (zlen payload =? 20) then
            Err (InvalidInput "payid: reverse-lookup payload must be exactly 20 bytes")
          else
            let name := default [] (reverse payload) in
            let padded := (zlen name + 31) / 32 * 32 in
            Ok (replicate 31 0 ++ [32] ++ replicate 28 0 ++ to_be 4 (zlen name) ++ name
                  ++ replicate (Z.to_nat (padded - zlen name)) 0, cost)
        else Err (InvalidInput "payid: unknown op (expected 0 or 1)").

Definition do_kzg_with_settings (input : bytes) (gas : Z) (s_g2 : BlsG2) : ZP :=
  map_err (fun e => match e with Kzg.OutOfGas _ _ => OutOfGas | _ => InvalidInput "kzg" end) (Kzg.do_kzg_point_eval input gas s_g2).
Definition kzg_verify (input : bytes) (gas : Z) : ZP :=
  s_g2 ← ok_or global_kzg_settings (InvalidInput "kzg (0x0B): trusted setup not initialised");
  do_kzg_with_settings input gas s_g2.

Definition price_oracle_with (input : bytes) (gas : Z) (read_slot : Reader) : ZP :=
  map_err (fun e => match e with Oracle.OutOfGas => OutOfGas | _ => InvalidInput "price_oracle" end)
    (Oracle.do_price_oracle input gas read_slot).

Definition zusd_vault_with (input : bytes) (gas : Z) (read_slot : Reader) (now : Z) : ZP :=
  map_err (fun e => match e with Vault.OutOfGas => OutOfGas | _ => InvalidInput "zusd_vault: input must be 32 bytes" end)
    (Vault.do_zusd_vault_read input gas read_slot now).

Definition zusd_balance (input : bytes) (gas : Z) : ZP :=
  _ ← zneed_gas gas 100;
  if zlen input <? 32 then Err (InvalidInput "zusd_balance needs 32 bytes")
  else Err (InvalidInput "zusd_balance precompile superseded by Task #7 zusd_vault_with").

(** ** Dispatch *)

Definition call_precompile (addr : Address) (input : bytes) (gas_limit : Z) : ZP :=
  let id := addr !!! 19%nat in
  if id =? 1 then ecrecover input gas_limit
  else if id =? 2 then sha256_hash input gas_limit
  else if id =? 3 then ripemd160_hash input gas_limit
  else if id =? 4 then identity input gas_limit
  else if id =? 5 then modexp input gas_limit
  else if id =? 6 then bn128_add input gas_limit
  else if id =? 7 then bn128_mul input gas_limit
  else if id =? 8 then bn128_pairing input gas_limit
  else if id =? 9 then blake2f input gas_limit
  else if id =? 0x0A then Err (InvalidInput "payid (0x0A) requires host context; call via interpreter")
  else if id =? 0x0B then kzg_verify input gas_limit
  else if id =? 0x0C then Err (InvalidInput "price_oracle (0x0C) requires host context; call via interpreter")
  else if id =? 0x0D then ed25519_verify input gas_limit
  else if id =? 0x0E then vrf_verify input gas_limit
  else if id =? 0x0F then Err (InvalidInput "zusd_vault (0x0F) requires host context; call via interpreter")
  else Err (PrecompileNotFound addr).
End precompiles.

(** ** The two sets of precompiles *)

(** The same output and cost, a panic, or an error that is out-of-gas on both
    sides or on neither. *)
Definition same {A} (r : res ZvmError A) (r' : res EvmError A) : Prop :=
  match r, r' with
  | Ok a, Ok b => a = b
  | Err e, Err e' => e = OutOfGas <-> e' = EvmMachine.OutOfGas
  | Panic, Panic => True
  | _, _ => False
  end.

Lemma same_ok {A} (a : A) : same (Ok a) (Ok a).
Proof. done. Qed.
Lemma same_err {A} s s' : same (A := A) (Err (InvalidInput s)) (Err (Precompile s')).
Proof. done. Qed.
Lemma same_bind {A B} (m : res ZvmError A) (m' : res EvmError A) (k : A -> res ZvmError B) k' :
  same m m' -> (forall a, same (k a) (k' a)) -> same (m ≫= k) (m' ≫= k').
Proof. intros Hm Hk. destruct m, m'; try done. simpl in Hm. subst. apply Hk. Qed.
Lemma same_gas gas cost : same (zneed_gas gas cost) (need_gas gas cost).
Proof. unfold zneed_gas, need_gas, guard_err. by destruct (_ <? _). Qed.
Lemma same_slice {A} (l : list A) a b : same (slice l a b) (slice l a b).
Proof. unfold slice. by destruct (_ && _). Qed.
Lemma same_index {A} (l : list A) i : same (index l i) (index l i).
Proof. unfold index. destruct (0 <=? i); [|done]. by destruct (l !! _). Qed.
Lemma same_ok_or {A} (o : option A) s s' : same (ok_or o (InvalidInput s)) (ok_or o (Precompile s')).
Proof. by destruct o. Qed.
Lemma same_map_err {E A} f g (r : res E A) : (forall e, f e = OutOfGas <-> g e = EvmMachine.OutOfGas) ->
  same (map_err f r) (map_err g r).
Proof. intros Hf. destruct r; [done|apply Hf|done]. Qed.

Ltac same_step :=
  match goal with
  | |- same (_ ≫= _) (_ ≫= _) => apply same_bind; [|intros ?; cbv beta]
  | |- same (Ok _) (Ok _) => apply same_ok
  | |- same (Err (InvalidInput _)) (Err (Precompile _)) => apply same_err
  | |- same (zneed_gas _ _) _ => apply same_gas
  | |- same (slice _ _ _) _ => apply same_slice
  | |- same (index _ _) _ => apply same_index
  | |- same (ok_or _ _) _ => apply same_ok_or
  | |- same (map_err _ _) (map_err _ _) => apply same_map_err; intros ?
  | |- same (if ?c then _ else _) _ => destruct c
  | |- same (match ?o with Some _ => _ | None => _ end) _ => destruct o
  end.
Ltac same_all := repeat (cbv zeta; same_step); try done.

Section agree.
Context `{Primitives}.

Lemma sha256_same input gas : same (sha256_hash input gas) (EvmPrecompiles.sha256_hash input gas).
Proof. unfold sha256_hash, EvmPrecompiles.sha256_hash. same_all. Qed.
Lemma ripemd160_same input gas : same (ripemd160_hash input gas) (EvmPrecompiles.ripemd160_hash input gas).
Proof. unfold ripemd160_hash, EvmPrecompiles.ripemd160_hash. same_all. Qed.
Lemma identity_same input gas : same (identity input gas) (EvmPrecompiles.identity input gas).
Proof. unfold identity, EvmPrecompiles.identity. same_all. Qed.
Lemma modexp_same input gas : same (modexp input gas) (EvmPrecompiles.modexp input gas).
Proof. unfold modexp, EvmPrecompiles.modexp. same_all. Qed.
Lemma parse_fq_same b : same (parse_fq b) (EvmPrecompiles.parse_fq b).
Proof. unfold parse_fq, EvmPrecompiles.parse_fq. same_all. Qed.
Lemma parse_g1_same b : same (parse_g1 b) (EvmPrecompiles.parse_g1 b).
Proof. unfold parse_g1, EvmPrecompiles.parse_g1. same_all; apply parse_fq_same. Qed.
Lemma encode_g1_same p : same (encode_g1 p) (EvmPrecompiles.encode_g1 p).
Proof. unfold encode_g1, EvmPrecompiles.encode_g1. by destruct (g1_affine p) as [[x y]|]. Qed.
Lemma parse_pair_same b : same (parse_pair b) (EvmPrecompiles.parse_pair b).
Proof. unfold parse_pair, EvmPrecompiles.parse_pair. same_all; apply parse_fq_same || apply parse_g1_same. Qed.
Lemma parse_pairs_same n : forall input i, same (parse_pairs n input i) (EvmPrecompiles.parse_pairs n input i).
Proof. induction n as [|n IH]; intros input i; [done|]. cbn [parse_pairs EvmPrecompiles.parse_pairs]. same_all; apply parse_pair_same || apply IH. Qed.
Lemma bn128_add_same input gas : same (bn128_add input gas) (EvmPrecompiles.bn128_add input gas).
Proof. unfold bn128_add, EvmPrecompiles.bn128_add. same_all; apply parse_g1_same || apply encode_g1_same. Qed.
Lemma bn128_mul_same input gas : same (bn128_mul input gas) (EvmPrecompiles.bn128_mul input gas).
Proof. unfold bn128_mul, EvmPrecompiles.bn128_mul. same_all; apply parse_g1_same || apply encode_g1_same. Qed.
Lemma bn128_pairing_same input gas : same (bn128_pairing input gas) (EvmPrecompiles.bn128_pairing input gas).
Proof. unfold bn128_pairing, EvmPrecompiles.bn128_pairing. same_all. apply parse_pairs_same. Qed.
Lemma blake2f_same input gas : same (blake2f input gas) (EvmPrecompiles.blake2f input gas).
Proof. unfold blake2f, EvmPrecompiles.blake2f. same_all. Qed.
Lemma kzg_same input gas : same (kzg_verify input gas) (do_kzg_global input gas).
Proof.
  unfold kzg_verify, do_kzg_global, do_kzg_with_settings, EvmPrecompiles.do_kzg_with_settings. same_all.
  by match goal with e : Kzg.KzgError |- _ => destruct e end.
Qed.
Lemma payid_same input gas resolve reverse :
  same (payid_resolve_with input gas resolve reverse) (do_payid input gas resolve reverse).
Proof. unfold payid_resolve_with, do_payid. same_all. Qed.
Lemma oracle_same input gas rd : same (price_oracle_with input gas rd) (EvmPrecompiles.do_price_oracle input gas rd).
Proof. unfold price_oracle_with, EvmPrecompiles.do_price_oracle. same_all. by match goal with e : Oracle.OraclePrecompileError |- _ => destruct e end. Qed.
Lemma vault_same input gas rd now : same (zusd_vault_with input gas rd now) (EvmPrecompiles.do_zusd_vault input gas rd now).
Proof. unfold zusd_vault_with, EvmPrecompiles.do_zusd_vault. same_all. by match goal with e : Vault.VaultPrecompileError |- _ => destruct e end. Qed.

Lemma vrf_same input gas : same (vrf_verify input gas) (EvmPrecompiles.vrf_verify input gas).
Proof.
  unfold vrf_verify, EvmPrecompiles.vrf_verify, PUBKEY_LEN, PROOF_LEN. cbv zeta. same_step; [apply same_gas|].
  destruct (Z.ltb_spec (zlen input) (32 + 80)) as [|Hl]; [done|].
  replace (32 + (zlen input - 32 - 80)) with (zlen input - 80) by lia. rewrite (proj2 (Z.ltb_ge (zlen input - 80) 32)) by lia.
  cbn [orb]. replace (zlen input - 80 + 80) with (zlen input) by lia. same_all.
Qed.
Lemma ed25519_same input gas : 128 <= zlen input -> same (ed25519_verify input gas) (EvmPrecompiles.ed25519_verify input gas).
Proof.
  intros Hl. unfold ed25519_verify, EvmPrecompiles.ed25519_verify. rewrite (proj2 (Z.ltb_ge (zlen input) 128)) by done. same_all.
Qed.

(** A well-formed input of ECRECOVER: all four words, and a recovery id of 0,
    1, 27 or 28. *)
Definition recover_formed (input : bytes) : Prop :=
  128 <= zlen input /\ Forall (fun b => b = 0) (take 31 (drop 32 input)) /\
  exists v, input !! 63%nat = Some v /\ (v = 0 \/ v = 1 \/ v = 27 \/ v = 28).

Lemma ecrecover_same input gas : recover_formed input -> same (ecrecover input gas) (EvmPrecompiles.ecrecover input gas).
Proof.
  intros (Hl & Hz & v & Hv & Hcases). unfold ecrecover, EvmPrecompiles.ecrecover. cbv zeta. same_step; [apply same_gas|].
  rewrite (proj2 (Z.ltb_ge (zlen input) 128)), Z.min_r, Nat.sub_diag, app_nil_r by done.
  set (p := take (Z.to_nat 128) input).
  assert (Hp : zlen p = 128) by (unfold p, zlen in *; rewrite length_take; lia).
  assert (Hsl : forall a b, 0 <= a <= b -> b <= 128 -> @slice Z ZvmError p a b = Ok (take (Z.to_nat (b - a)) (drop (Z.to_nat a) input))).
  { intros i j Hab Hb. rewrite slice_Ok by lia. f_equal. unfold p. rewrite skipn_firstn_comm, take_take. f_equal. lia. }
  rewrite !Hsl, !slice_Ok by lia. cbn [mbind res_bind].
  assert (existsb (fun b => negb (b =? 0)) (take (Z.to_nat (63 - 32)) (drop (Z.to_nat 32) input)) = false) as ->.
  { apply not_true_is_false. intros (x & Hx & Hne)%existsb_exists. rewrite Forall_forall in Hz. apply list_elem_of_In in Hx. rewrite (Hz x Hx) in Hne. done. }
  assert (@index Z ZvmError p 63 = Ok v /\ @index Z EvmError input 63 = Ok v) as [-> ->].
  { unfold index. simpl. unfold p. rewrite lookup_take_lt by lia. change (Z.to_nat 63) with 63%nat. by rewrite Hv. }
  cbn [mbind res_bind]. destruct Hcases as [->|[->|[->| ->]]]; simpl; by destruct (recover_signer _ _ _ _).
Qed.

(** Inputs on which the two machines run the same precompile. *)
Definition comparable_input (id : Z) (input : bytes) : Prop :=
  (id = 1 -> recover_formed input) /\ (id = 0x0D -> 128 <= zlen input).

End agree.

(** ** What a precompile promises the interpreter *)

Definition zpre_ok (gas : Z) (r : ZP) : Prop :=
  match r with
  | Ok (out, used) => code_ok out /\ 0 <= used <= gas
  | Err _ => True
  | Panic => False
  end.

Lemma same_pre gas r r' : same r r' -> pre_ok gas r' -> zpre_ok gas r.
Proof. intros Hs Hp. destruct r as [[]| |], r' as [[]| |]; try done. by injection Hs as -> ->. Qed.

Section laws.
Context `{PrimitivesLaws}.

Lemma zneed_gas_pre gas cost (r : ZP) : (cost <= gas -> zpre_ok gas r) -> zpre_ok gas (_ ← zneed_gas gas cost; r).
Proof. intros Hr. unfold zneed_gas, guard_err. destruct (Z.ltb_spec gas cost); [done|]. by apply Hr. Qed.

Lemma ecrecover_zpre input gas : zpre_ok gas (ecrecover input gas).
Proof.
  unfold ecrecover. cbv zeta. apply zneed_gas_pre. intros Hg. pose proof (zlen_nonneg input).
  set (p := _ ++ _). assert (Hp : zlen p = 128).
  { unfold p. rewrite zlen_app. unfold zlen in *. rewrite length_take, length_replicate. lia. }
  rewrite !slice_Ok by lia. cbn [mbind res_bind]. destruct (existsb _ _); [split; [apply word_code_ok, zeros32_ok|lia]|].
  destruct (index_Ok (E:=ZvmError) p 63 ltac:(lia)) as (v & _ & ->). cbn [mbind res_bind].
  destruct (if _ || _ then _ else _) as [v'|]; [|split; [apply word_code_ok, zeros32_ok|lia]].
  destruct (recover_signer _ _ _ _) as [a|] eqn:Hr; (split; [|lia]); [|apply word_code_ok, zeros32_ok].
  apply word_code_ok, addr_word_ok. by eapply recover_ok.
Qed.

Lemma ed25519_zpre input gas : zpre_ok gas (ed25519_verify input gas).
Proof.
  unfold ed25519_verify. apply zneed_gas_pre. intros Hg. destruct (Z.ltb_spec (zlen input) 128); [done|].
  rewrite !slice_Ok by lia. cbn [mbind res_bind]. split; [|lia]. apply word_code_ok.
  destruct (ed25519_check _ _ _); [apply one_word_ok|apply zeros32_ok].
Qed.

Lemma call_precompile_zpre addr input gas : code_ok input -> zpre_ok gas (call_precompile addr input gas).
Proof.
  intros Hi. unfold call_precompile. cbv zeta.
  repeat match goal with |- zpre_ok _ (if ?c then _ else _) => destruct c end;
    try exact I; try apply ecrecover_zpre; try apply ed25519_zpre; eapply same_pre;
    eauto using sha256_same, ripemd160_same, identity_same, modexp_same, bn128_add_same, bn128_mul_same,
      bn128_pairing_same, blake2f_same, kzg_same, vrf_same;
    first [by apply modexp_pre|by apply bn128_add_pre|by apply bn128_mul_pre|by apply bn128_pairing_pre
          |by apply blake2f_pre|by apply kzg_pre|by apply vrf_pre|idtac].
  all: first [apply hash_pre; [done|lia..|] |idtac].
  - apply word_code_ok, sha256_ok.
  - apply word_code_ok, addr_word_ok, ripemd_ok.
  - done.
Qed.
Lemma payid_zpre input gas resolve reverse : code_ok input ->
  (forall n a, resolve n = Some a -> addr_ok a) -> (forall a n, reverse a = Some n -> code_ok n /\ zlen n <= 32) ->
  zpre_ok gas (payid_resolve_with input gas resolve reverse).
Proof. intros Hi Hr Hv. eapply same_pre; [apply payid_same|]. by apply do_payid_pre. Qed.
Lemma oracle_zpre input gas rd : (forall a k, word_ok (rd a k)) -> zpre_ok gas (price_oracle_with input gas rd).
Proof. intros Hr. eapply same_pre; [apply oracle_same|]. by apply oracle_pre. Qed.
Lemma vault_zpre input gas rd now : (forall a k, word_ok (rd a k)) -> zpre_ok gas (zusd_vault_with input gas rd now).
Proof. intros Hr. eapply same_pre; [apply vault_same|]. by apply vault_pre. Qed.
End laws.
