(* ===== verification/ZvmInterp.v ===== *)
(** * The ZVM interpreter (crates/zbx-zvm/src/context.rs, interpreter.rs, executor.rs)

    One call frame as a state, one opcode as a step, the CALL and CREATE
    families as steps that run a fresh frame on the same host.  [run] takes
    fuel for its loop and for the recursion into sub-frames; running out of it
    is the outcome [OutOfFuel], apart from the program's own errors, which end
    a frame with a status.  Nothing undoes what a failed frame did to the host. *)

From Stdlib Require Import ZArith Lia String.
From stdpp Require Import base tactics list gmap sets numbers option.
From S2P Require Import Prelude Bytes U256 EvmMachine EvmHost NativeReads EvmPrecompiles ZvmMachine ZvmHost.

Local Open Scope Z_scope.

(** ** Contexts and results *)

Record ZvmContext : Type := mkCtx {
  bytecode : bytes; calldata : bytes; caller : Address; contract : Address; value : Z; gas_limit : Z;
  block_number : Z; block_timestamp : Z; base_fee : Z; blob_base_fee : Z; chain_id : Z; is_static : bool;
  aa_sender : option Address; zbx_price_usd : Z; origin : Address }.

Module Status.
Inductive ExecutionStatus : Type :=
| Success | Revert | OutOfGas | InvalidOpcode (op : Z) | StackOverflow | Failed (e : ZvmError).
End Status.

Record ZvmLog : Type := mkLog { log_address : Address; log_topics : list word; log_data : bytes }.
Record ZvmStructuredLog : Type := mkStructured { sl_key : bytes; sl_value : bytes; sl_block : Z; sl_index : Z }.

Record ZvmResult : Type := mkResult {
  status : Status.ExecutionStatus; r_return_data : bytes; gas_remaining : Z; gas_used : Z;
  r_logs : list ZvmLog; r_zvm_logs : list ZvmStructuredLog }.

Inductive ZvmCallKind : Type := Call | CallCode | DelegateCall | StaticCall.
#[export] Instance ZvmCallKind_eq_dec : EqDecision ZvmCallKind.
Proof. solve_decision. Defined.

Definition CALL_DEPTH_LIMIT : Z := 1024.
Definition MAX_INITCODE_SIZE : Z := 2 * 24576.
Definition ZVM_VERSION : Z := 1.

(** ** The state of a frame *)

Record ZvmInterpreter (H : Type) : Type := mkZ {
  ctx : ZvmContext; host : H; stack : ZvmStack; memory : ZvmMemory; pc : Z; gas : Z; logs : list ZvmLog;
  zvm_logs : list ZvmStructuredLog; return_data : bytes; log_index : Z; depth : Z;
  accessed_addresses : gset Address; accessed_slots : gset (Address * word); jumpdests : list bool }.
Arguments mkZ {H}. Arguments ctx {H} _. Arguments host {H} _. Arguments stack {H} _. Arguments memory {H} _.
Arguments pc {H} _. Arguments gas {H} _. Arguments logs {H} _. Arguments zvm_logs {H} _. Arguments return_data {H} _.
Arguments log_index {H} _. Arguments depth {H} _. Arguments accessed_addresses {H} _. Arguments accessed_slots {H} _.
Arguments jumpdests {H} _.

(** The frame's errors, and the exhaustion of the model's fuel. *)
Inductive ZStop : Type := Zvm (e : ZvmError) | OutOfFuel.
(** A match arm either falls through to [pc += 1] or returns from [dispatch]. *)
Inductive flow : Type := Next | Return (r : option ZvmResult).

Fixpoint bitmap_loop (fuel : nat) (code : bytes) (i : Z) (dests : list bool) : list bool :=
  match fuel with
  | O => dests
  | S fuel =>
    if i <? zlen code then
      let op := code !!! Z.to_nat i in
      if op =? 0x5B then bitmap_loop fuel code (i + 1) (<[Z.to_nat i := true]> dests)
      else if (0x60 <=? op) && (op <=? 0x7F) then bitmap_loop fuel code (sat 64 (i + (1 + (op - 0x5F)))) dests
      else bitmap_loop fuel code (i + 1) dests
    else dests
  end.
Definition build_jumpdest_bitmap (code : bytes) : list bool :=
  bitmap_loop (length code) code 0 (replicate (length code) false).

Section interp.
Context {H : Type} `{ZvmHost H} `{Primitives}.
Abbreviation St := (ZvmInterpreter H).
Abbreviation FM := (M St ZStop).

Definition interp_new (c : ZvmContext) (h : H) : St := mkZ c h [] [] 0 (gas_limit c) [] [] [] 0 0 ∅ ∅ [].

Definition set_host (h : H) (s : St) : St :=
  mkZ (ctx s) h (stack s) (memory s) (pc s) (gas s) (logs s) (zvm_logs s) (return_data s) (log_index s) (depth s)
    (accessed_addresses s) (accessed_slots s) (jumpdests s).
Definition set_stack (st : ZvmStack) (s : St) : St :=
  mkZ (ctx s) (host s) st (memory s) (pc s) (gas s) (logs s) (zvm_logs s) (return_data s) (log_index s) (depth s)
    (accessed_addresses s) (accessed_slots s) (jumpdests s).
Definition set_memory (m : ZvmMemory) (s : St) : St :=
  mkZ (ctx s) (host s) (stack s) m (pc s) (gas s) (logs s) (zvm_logs s) (return_data s) (log_index s) (depth s)
    (accessed_addresses s) (accessed_slots s) (jumpdests s).
Definition set_pc (p : Z) (s : St) : St :=
  mkZ (ctx s) (host s) (stack s) (memory s) p (gas s) (logs s) (zvm_logs s) (return_data s) (log_index s) (depth s)
    (accessed_addresses s) (accessed_slots s) (jumpdests s).
Definition set_gas (g : Z) (s : St) : St :=
  mkZ (ctx s) (host s) (stack s) (memory s) (pc s) g (logs s) (zvm_logs s) (return_data s) (log_index s) (depth s)
    (accessed_addresses s) (accessed_slots s) (jumpdests s).
Definition set_logs (l : list ZvmLog) (z : list ZvmStructuredLog) (i : Z) (s : St) : St :=
  mkZ (ctx s) (host s) (stack s) (memory s) (pc s) (gas s) l z (return_data s) i (depth s)
    (accessed_addresses s) (accessed_slots s) (jumpdests s).
Definition set_return (d : bytes) (s : St) : St :=
  mkZ (ctx s) (host s) (stack s) (memory s) (pc s) (gas s) (logs s) (zvm_logs s) d (log_index s) (depth s)
    (accessed_addresses s) (accessed_slots s) (jumpdests s).
Definition set_accessed (a : gset Address) (sl : gset (Address * word)) (s : St) : St :=
  mkZ (ctx s) (host s) (stack s) (memory s) (pc s) (gas s) (logs s) (zvm_logs s) (return_data s) (log_index s) (depth s)
    a sl (jumpdests s).
Definition set_jumpdests (j : list bool) (s : St) : St :=
  mkZ (ctx s) (host s) (stack s) (memory s) (pc s) (gas s) (logs s) (zvm_logs s) (return_data s) (log_index s) (depth s)
    (accessed_addresses s) (accessed_slots s) j.

(** ** Access to the parts *)

Definition on_stack {A} (m : SM A) : FM A := fun s =>
  let '(r, st) := m (stack s) in (map_err Zvm r, set_stack st s).
Definition on_memory {A} (m : MM A) : FM A := fun s =>
  let '(r, mem) := m (memory s) in (map_err Zvm r, set_memory mem s).
Definition on_host {A} (m : M H ZvmError A) : FM A := fun s =>
  let '(r, h) := m (host s) in (map_err Zvm r, set_host h s).
Definition mod_host (f : H -> H) : FM unit := modify (fun s => set_host (f (host s)) s).
Definition fail_if (b : bool) (e : ZvmError) : FM unit := throw_if b (Zvm e).

Definition spop : FM word := on_stack pop.
Definition spop_u64 : FM Z := on_stack pop_u64.
Definition spop_u128 : FM Z := on_stack pop_u128.
Definition spop_address : FM Address := on_stack pop_address.
Definition spush (w : word) : FM unit := on_stack (push w).
(** The last action of an arm. *)
Definition next (m : FM unit) : FM flow := _ ← m; mret Next.
Definition push_next (w : word) : FM flow := next (spush w).
Definition u64_next (v : Z) : FM flow := next (on_stack (push_u64 v)).
Definition u128_next (v : Z) : FM flow := next (on_stack (push_u128 v)).
Definition address_next (a : Address) : FM flow := next (on_stack (push_address a)).

Definition charge_gas (amt : Z) : FM unit :=
  s ← get_st;
  if gas s <? amt then _ ← put_st (set_gas 0 s); throw (Zvm OutOfGas)
  else put_st (set_gas (gas s - amt) s).

Definition charge_mem_expansion (new_size : Z) : FM unit :=
  if new_size =? 0 then mret tt
  else
    s ← get_st;
    let old_words := mem_words (memory s) in
    let new_words := u64 (new_size + 31) / 32 in
    let delta := memory_gas_delta old_words new_words in
    if delta =? 0 then mret tt else charge_gas delta.

(** [if accessed.insert(..) { extra } else { 0 }], charged *)
Definition touch_address (a : Address) : FM unit :=
  s ← get_st;
  let extra := if bool_decide (a ∈ accessed_addresses s) then 0 else sat 64 (COLD_ACCOUNT_COST - WARM_ACCOUNT_COST) in
  _ ← put_st (set_accessed ({[a]} ∪ accessed_addresses s) (accessed_slots s) s);
  charge_gas extra.
Definition touch_slot (k : word) (cold : Z) : FM unit :=
  s ← get_st;
  let slot_id := (contract (ctx s), k) in
  let extra := if bool_decide (slot_id ∈ accessed_slots s) then 0 else cold in
  _ ← put_st (set_accessed (accessed_addresses s) ({[slot_id]} ∪ accessed_slots s) s);
  charge_gas extra.

Definition finish (st : Status.ExecutionStatus) (s : St) : ZvmResult :=
  mkResult st (return_data s) (gas s) (sat 64 (gas_limit (ctx s) - gas s)) (logs s) (zvm_logs s).
Definition stop_with (st : Status.ExecutionStatus) : FM flow := s ← get_st; mret (Return (Some (finish st s))).

(** [vec![0; len]] with the bytes of [src] from [off] on. *)
Definition copy_padded (src : bytes) (off len : Z) : FM bytes :=
  if 2 ^ 63 <=? len then lift Panic
  else if off <? zlen src then
    let take_ := Z.min (zlen src - off) len in
    chunk ← lift (slice src off (off + take_));
    mret (chunk ++ replicate (Z.to_nat (len - take_)) 0)
  else mret (replicate (Z.to_nat len) 0).

(** [for i in 0..n { memory.store8(off + i, data\[i\])? }] *)
Fixpoint store_bytes (off : Z) (data : bytes) : FM unit :=
  match data with
  | [] => mret tt
  | b :: data => _ ← on_memory (mem_store8 off b); store_bytes (usize (off + 1)) data
  end.
Definition copy_out (ret_off ret_len : Z) (data : bytes) : FM unit :=
  store_bytes ret_off (take (Z.to_nat (Z.min ret_len (zlen data))) data).

(** ** Arithmetic, hashing, calldata, code and return data *)

Section dispatch.
Import Opcode.

(** The arms guarded by a range of bytes, and those of [exec_alu]. *)
Definition exec_range (op : Opcode) : option (FM flow) :=
  let n := as_u8 op in
  if (0x60 <=? n) && (n <=? 0x7F) then Some (
    let n := n - 0x5F in
    s ← get_st;
    let start := pc s + 1 in
    let end_ := start + n in
    let code := bytecode (ctx s) in
    _ ← fail_if (zlen code <? end_) UnexpectedEnd;
    imm ← lift (slice code start end_);
    _ ← spush (replicate (Z.to_nat (32 - n)) 0 ++ imm);
    next (modify (fun s => set_pc (pc s + n) s)))
  else if (0x80 <=? n) && (n <=? 0x8F) then Some (next (on_stack (dup (n - 0x7F))))
  else if (0x90 <=? n) && (n <=? 0x9F) then Some (next (on_stack (swap (n - 0x8F))))
  else (fun m => next (on_stack m)) <$> exec_alu op.

Definition exec_stack (op : Opcode) : option (FM flow) :=
  match op with
  | PUSH0 => Some (push_next zero_word)
  | POP => Some (next (_ ← spop; mret tt))
  | EXP => Some (
      base ← on_stack pop_u256; exp ← on_stack pop_u256;
      _ ← charge_gas (exp_dynamic_gas (of_u256 exp));
      push_next (of_u256 (pow_u256 base exp)))
  | _ => exec_range op
  end.

(** CALLDATACOPY and CODECOPY on [src s] *)
Definition copy_op (src : St -> bytes) : FM flow :=
  dest_off ← spop_u64; src_off ← spop_u64; len ← spop_u64;
  _ ← charge_gas (copy_dynamic_gas len);
  _ ← charge_mem_expansion (sat 64 (dest_off + len));
  s ← get_st;
  buf ← copy_padded (src s) src_off len;
  next (on_memory (write_slice dest_off buf)).

Definition exec_data (op : Opcode) : option (FM flow) :=
  match op with
  | KECCAK256 => Some (
      offset ← spop_u64; length_ ← spop_u64;
      _ ← charge_gas (keccak256_dynamic_gas length_);
      _ ← charge_mem_expansion (sat 64 (offset + length_));
      data ← on_memory (read_slice offset length_);
      push_next (keccak256 data))
  | CALLDATALOAD => Some (
      offset ← on_stack pop_u256;
      s ← get_st;
      let data := calldata (ctx s) in
      w ← (if offset <? zlen data then
             let off := u64 offset in
             let take_ := Z.min (zlen data - off) 32 in
             chunk ← lift (slice data off (off + take_));
             mret (chunk ++ replicate (Z.to_nat (32 - take_)) 0)
           else mret zero_word);
      push_next w)
  | CALLDATASIZE => Some (s ← get_st; u64_next (zlen (calldata (ctx s))))
  | CALLDATACOPY => Some (copy_op (fun s => calldata (ctx s)))
  | CODESIZE => Some (s ← get_st; u64_next (zlen (bytecode (ctx s))))
  | CODECOPY => Some (copy_op (fun s => bytecode (ctx s)))
  | RETURNDATASIZE => Some (s ← get_st; u64_next (zlen (return_data s)))
  | RETURNDATACOPY => Some (
      dest_off ← spop_u64; src_off ← spop_u64; len ← spop_u64;
      _ ← charge_gas (copy_dynamic_gas len);
      _ ← charge_mem_expansion (sat 64 (dest_off + len));
      s ← get_st;
      _ ← fail_if (zlen (return_data s) <? sat 64 (src_off + len)) (InvalidInput "RETURNDATACOPY out of bounds");
      buf ← lift (slice (return_data s) src_off (usize (src_off + len)));
      next (on_memory (write_slice dest_off buf)))
  | _ => None
  end.

(** ** Block and call context *)

Definition exec_env (op : Opcode) : option (FM flow) :=
  match op with
  | BLOCKHASH => Some (n ← spop_u64; s ← get_st; push_next (z_block_hash (host s) n))
  | COINBASE => Some (s ← get_st; address_next (z_coinbase (host s)))
  | PREVRANDAO => Some (s ← get_st; push_next (z_prevrandao (host s)))
  | GASLIMIT => Some (s ← get_st; u64_next (z_block_gas_limit (host s)))
  | GASPRICE => Some (s ← get_st; u128_next (z_gas_price (host s)))
  | SELFBALANCE => Some (s ← get_st; u128_next (z_balance (host s) (contract (ctx s))))
  | BLOBHASH => Some (i ← spop_u64; s ← get_st; push_next (z_blob_hash (host s) i))
  | NUMBER => Some (s ← get_st; u64_next (block_number (ctx s)))
  | TIMESTAMP => Some (s ← get_st; u64_next (block_timestamp (ctx s)))
  | CHAINID => Some (s ← get_st; u64_next (chain_id (ctx s)))
  | BASEFEE => Some (s ← get_st; u128_next (base_fee (ctx s)))
  | BLOBBASEFEE => Some (s ← get_st; u128_next (blob_base_fee (ctx s)))
  | CALLER => Some (s ← get_st; address_next (caller (ctx s)))
  | ADDRESS => Some (s ← get_st; address_next (contract (ctx s)))
  | CALLVALUE => Some (s ← get_st; u128_next (value (ctx s)))
  | GAS => Some (s ← get_st; u64_next (gas s))
  | ORIGIN => Some (s ← get_st; address_next (origin (ctx s)))
  | _ => None
  end.

(** ** Memory, storage and other accounts *)

Definition exec_memory (op : Opcode) : option (FM flow) :=
  match op with
  | MSIZE => Some (s ← get_st; u64_next ((mem_size (memory s) + 31) / 32 * 32))
  | MCOPY => Some (
      dest_off ← spop_u64; src_off ← spop_u64; len ← spop_u64;
      _ ← charge_gas (copy_dynamic_gas len);
      _ ← charge_mem_expansion (sat 64 (Z.max dest_off src_off + len));
      next (on_memory (mem_copy dest_off src_off len)))
  | MLOAD => Some (
      offset ← spop_u64;
      _ ← charge_mem_expansion (sat 64 (offset + 32));
      w ← on_memory (mem_load offset);
      push_next w)
  | MSTORE => Some (
      offset ← spop_u64; w ← spop;
      _ ← charge_mem_expansion (sat 64 (offset + 32));
      next (on_memory (mem_store offset w)))
  | MSTORE8 => Some (
      offset ← spop_u64; w ← spop;
      byte ← lift (index w 31);
      _ ← charge_mem_expansion (sat 64 (offset + 1));
      next (on_memory (mem_store8 offset byte)))
  | _ => None
  end.

Definition exec_storage (op : Opcode) : option (FM flow) :=
  match op with
  | TLOAD => Some (key ← spop; s ← get_st; push_next (z_transient_load (host s) (contract (ctx s)) key))
  | TSTORE => Some (
      s ← get_st;
      _ ← fail_if (is_static (ctx s)) StaticStateChange;
      key ← spop; val ← spop;
      next (mod_host (z_transient_store (contract (ctx s)) key val)))
  | SLOAD => Some (
      key ← spop;
      _ ← touch_slot key (sat 64 (COLD_SLOAD_COST - WARM_SLOAD_COST));
      s ← get_st;
      push_next (z_storage_load (host s) (contract (ctx s)) key))
  | SSTORE => Some (
      s ← get_st;
      _ ← fail_if (is_static (ctx s)) StaticStateChange;
      key ← spop; val ← spop;
      _ ← touch_slot key SSTORE_COLD_DELTA;
      next (mod_host (z_storage_store (contract (ctx s)) key val)))
  | BALANCE => Some (addr ← spop_address; _ ← touch_address addr; s ← get_st; u128_next (z_balance (host s) addr))
  | EXTCODESIZE => Some (addr ← spop_address; _ ← touch_address addr; s ← get_st; u64_next (z_code_size (host s) addr))
  | EXTCODEHASH => Some (addr ← spop_address; _ ← touch_address addr; s ← get_st; push_next (z_code_hash (host s) addr))
  | EXTCODECOPY => Some (
      addr ← spop_address; dest_off ← spop_u64; code_off ← spop_u64; len ← spop_u64;
      _ ← touch_address addr;
      _ ← charge_gas (copy_dynamic_gas len);
      _ ← charge_mem_expansion (sat 64 (dest_off + len));
      s ← get_st;
      buf ← copy_padded (z_code (host s) addr) code_off len;
      next (on_memory (write_slice dest_off buf)))
  | SELFDESTRUCT => Some (
      s ← get_st;
      _ ← fail_if (is_static (ctx s)) StaticStateChange;
      beneficiary ← spop_address;
      _ ← mod_host (z_selfdestruct (contract (ctx s)) beneficiary);
      stop_with Status.Success)
  | _ => None
  end.

(** ** Control flow *)

Definition valid_dest (dest : Z) (s : St) : bool :=
  (dest <? zlen (bytecode (ctx s))) && default false (jumpdests s !! Z.to_nat dest).
Definition jump_to (dest : Z) : FM flow :=
  s ← get_st;
  _ ← fail_if (negb (valid_dest dest s)) (InvalidJump dest);
  _ ← put_st (set_pc dest s);
  mret (Return None).
Definition return_with (st : Status.ExecutionStatus) : FM flow :=
  offset ← spop_u64; len ← spop_u64;
  _ ← charge_mem_expansion (sat 64 (offset + len));
  data ← on_memory (read_slice offset len);
  _ ← modify (set_return data);
  stop_with st.

Definition exec_flow (op : Opcode) : option (FM flow) :=
  match op with
  | STOP => Some (stop_with Status.Success)
  | JUMP => Some (dest ← spop_u64; jump_to dest)
  | JUMPI => Some (dest ← spop_u64; cond ← spop; if bool_decide (cond = zero_word) then mret Next else jump_to dest)
  | JUMPDEST => Some (mret Next)
  | PC => Some (s ← get_st; u64_next (pc s))
  | RETURN => Some (return_with Status.Success)
  | REVERT => Some (return_with Status.Revert)
  | INVALID => Some (stop_with (Status.InvalidOpcode 0xFE))
  | _ => None
  end.

(** ** Logs and native opcodes *)

Fixpoint pop_topics (n : nat) : FM (list word) :=
  match n with
  | O => mret []
  | S n => w ← spop; ws ← pop_topics n; mret (w :: ws)
  end.
Definition log_op (n_topics : Z) : FM flow :=
  s ← get_st;
  let c := ctx s in
  _ ← fail_if (is_static c) StaticStateChange;
  offset ← spop_u64; length_ ← spop_u64;
  _ ← charge_gas (log_dynamic_gas n_topics length_);
  _ ← charge_mem_expansion (sat 64 (offset + length_));
  topics ← pop_topics (Z.to_nat n_topics);
  data ← on_memory (read_slice offset length_);
  _ ← modify (fun s => set_logs (logs s ++ [mkLog (contract c) topics data]) (zvm_logs s) (log_index s) s);
  next (mod_host (z_emit_log (contract c) topics data)).

Definition exec_native (op : Opcode) : option (FM flow) :=
  match op with
  | LOG0 | LOG1 | LOG2 | LOG3 | LOG4 => Some (log_op (as_u8 op - as_u8 LOG0))
  | PAYID => Some (
      ptr ← spop_u64; len ← spop_u64;
      pay_id ← on_memory (read_string ptr len);
      s ← get_st;
      address_next (default (replicate 20 0) (z_resolve_pay_id (host s) pay_id)))
  | ZUSDBAL => Some (addr ← spop_address; s ← get_st; u128_next (z_zusd_balance (host s) addr))
  | ZBXPRICE => Some (s ← get_st; u128_next (z_zbx_price_usd (host s)))
  | ZBXTIME => Some (u64_next 5000)
  | AASENDER => Some (s ← get_st; address_next (default (caller (ctx s)) (aa_sender (ctx s))))
  | CHAINVER => Some (u64_next ZVM_VERSION)
  | BLOBFEE => Some (s ← get_st; u128_next (z_blob_base_fee (host s)))
  | PAYIDSET => Some (addr ← spop_address; s ← get_st; u64_next (if z_has_pay_id (host s) addr then 1 else 0))
  | ZBXBURN => Some (
      s ← get_st;
      _ ← fail_if (is_static (ctx s)) StaticStateChange;
      amount ← spop_u128;
      next (on_host (z_burn_zbx (caller (ctx s)) amount)))
  | ZVMLOG => Some (
      key_ptr ← spop_u64; key_len ← spop_u64; val_ptr ← spop_u64; val_len ← spop_u64;
      key ← on_memory (read_string key_ptr key_len);
      val ← on_memory (read_string val_ptr val_len);
      _ ← mod_host (z_emit_zvm_log key val);
      next (modify (fun s => set_logs (logs s)
        (zvm_logs s ++ [mkStructured key val (block_number (ctx s)) (log_index s)]) (u32 (log_index s + 1)) s)))
  | _ => None
  end.
End dispatch.

(** ** Calls *)

(** [clear], push 0, [return Ok(())] *)
Definition call_failed : FM unit := _ ← modify (set_return []); on_stack (push_u64 0).
(** The four tails of [do_precompile_call]. *)
Definition precompile_result (r : res ZvmError (bytes * Z)) (ret_off ret_len : Z) : FM unit :=
  match r with
  | Ok (output, used) =>
    _ ← modify (fun s => set_gas (sat 64 (gas s - used)) s);
    _ ← copy_out ret_off ret_len output;
    _ ← modify (set_return output);
    on_stack (push_u64 1)
  | Err _ => call_failed
  | Panic => lift Panic
  end.

(** Also the dispatch of [ZvmExecutor::execute_precompile_with_host]. *)
Definition precompile_with_host (h : H) (target : Address) (timestamp : Z) (data : bytes) (g : Z)
    : res ZvmError (bytes * Z) :=
  let id := target !!! 19%nat in
  if id =? 0x0A then payid_resolve_with data g (z_resolve_pay_id_bytes h) (z_reverse_pay_id h)
  else if id =? 0x0C then price_oracle_with data g (z_storage_load h)
  else if id =? 0x0F then zusd_vault_with data g (z_storage_load h) timestamp
  else ZvmHost.call_precompile target data g.

Definition do_precompile_call (target : Address) (data : bytes) (gas_req ret_off ret_len : Z) : FM unit :=
  s ← get_st;
  let avail := Z.min gas_req (gas s) in
  precompile_result (precompile_with_host (host s) target (block_timestamp (ctx s)) data avail) ret_off ret_len.

(** The literal of the sub-interpreter, run and merged back. *)
Definition sub_frame (s : St) (c : ZvmContext) (forwarded : Z) : St :=
  mkZ c (host s) [] [] 0 forwarded [] [] [] 0 (depth s + 1) (accessed_addresses s) (accessed_slots s) [].
Definition run_sub (sub : FM ZvmResult) (c : ZvmContext) (forwarded : Z) : FM ZvmResult := fun s =>
  let '(r, s') := sub (sub_frame s c forwarded) in
  (r, set_accessed (accessed_addresses s ∪ accessed_addresses s') (accessed_slots s ∪ accessed_slots s') (set_host (host s') s)).

(** The context of a sub-frame: the block and the origin are the parent's. *)
Definition sub_context (c : ZvmContext) (code data : bytes) (from to : Address) (v g : Z) (st : bool) : ZvmContext :=
  mkCtx code data from to v g (block_number c) (block_timestamp c) (base_fee c) (blob_base_fee c) (chain_id c) st None
    (zbx_price_usd c) (origin c).

Definition is_success (r : ZvmResult) : bool := match status r with Status.Success => true | _ => false end.

Section calls.
Context (sub : FM ZvmResult).

Definition call_target (kind : ZvmCallKind) (gas_req : Z) (target : Address) (v ret_off ret_len : Z) (data : bytes) : FM unit :=
  s ← get_st;
  let c := ctx s in
  let code := z_code (host s) target in
  let '(sub_caller, sub_contract) :=
    match kind with DelegateCall => (caller c, contract c) | _ => (contract c, target) end in
  let sub_static := is_static c || bool_decide (kind = StaticCall) in
  if bool_decide (kind = Call) && (0 <? v) && (z_balance (host s) (contract c) <? v) then call_failed
  else
    _ ← (if bool_decide (kind = Call) && (0 <? v) then on_host (z_transfer (contract c) target v) else mret tt);
    s ← get_st;
    let forwarded := Z.min gas_req (gas s / 64 * 63) in
    _ ← put_st (set_gas (sat 64 (gas s - forwarded)) s);
    let sub_value := match kind with DelegateCall => value c | _ => v end in
    r ← run_sub sub (sub_context c code data sub_caller sub_contract sub_value forwarded sub_static) forwarded;
    _ ← modify (fun s => set_return (r_return_data r) (set_gas (sat 64 (gas s + gas_remaining r)) s));
    _ ← copy_out ret_off ret_len (r_return_data r);
    on_stack (push_u64 (if is_success r then 1 else 0)).

Definition do_call (kind : ZvmCallKind) : FM unit :=
  gas_req ← spop_u64;
  target ← spop_address;
  v ← match kind with Call | CallCode => spop_u128 | _ => mret 0 end;
  s ← get_st;
  _ ← fail_if ((bool_decide (kind = Call) || bool_decide (kind = CallCode)) && is_static (ctx s) && (0 <? v)) StaticStateChange;
  args_off ← spop_u64; args_len ← spop_u64; ret_off ← spop_u64; ret_len ← spop_u64;
  _ ← touch_address target;
  _ ← charge_mem_expansion (sat 64 (args_off + args_len));
  _ ← charge_mem_expansion (sat 64 (ret_off + ret_len));
  s ← get_st;
  if CALL_DEPTH_LIMIT <=? depth s then call_failed
  else
    data ← on_memory (read_slice args_off args_len);
    if is_precompile target then do_precompile_call target data gas_req ret_off ret_len
    else
      s ← get_st;
      if negb (z_is_call_allowed (host s) target) then call_failed
      else call_target kind gas_req target v ret_off ret_len data.

(** ** Creation *)

(** The leading zero bytes dropped, but never the last byte. *)
Definition nonce_compact (nonce : Z) : bytes :=
  let nonce_bytes := to_be 8 nonce in drop (Z.to_nat (Z.min (leading_zeros nonce_bytes) 7)) nonce_bytes.
Definition create_address (creator : Address) (nonce : Z) : Address :=
  let compact := nonce_compact nonce in
  let creator_rlp := (0x80 + 20) :: creator in
  let nonce_rlp :=
    if nonce =? 0 then [0x80]
    else if (zlen compact =? 1) && (compact !!! 0%nat <? 0x80) then [compact !!! 0%nat]
    else u8 (0x80 + zlen compact) :: compact in
  let payload_len := zlen creator_rlp + zlen nonce_rlp in
  drop 12 (keccak256 (u8 (0xC0 + payload_len) :: creator_rlp ++ nonce_rlp)).
Definition create2_address (creator : Address) (salt : word) (initcode : bytes) : Address :=
  drop 12 (keccak256 ([0xFF] ++ creator ++ salt ++ keccak256 initcode)).

Definition push_zero : FM unit := spush zero_word.

Definition deploy_code (new_addr : Address) (deployed : bytes) : FM unit :=
  if 24576 <? zlen deployed then push_zero
  else if bool_decide (head deployed = Some 0xEF) then push_zero
  else
    let deposit_cost := u64 (200 * zlen deployed) in
    s ← get_st;
    if gas s <? deposit_cost then push_zero
    else
      _ ← put_st (set_gas (gas s - deposit_cost) s);
      _ ← mod_host (z_set_code new_addr deployed);
      _ ← mod_host (z_mark_created_this_tx new_addr);
      _ ← modify (set_return []);
      spush (replicate 12 0 ++ new_addr).

Definition create_at (new_addr : Address) (v : Z) (initcode : bytes) : FM unit :=
  s ← get_st;
  let c := ctx s in
  _ ← mod_host (fun h => snd (z_inc_nonce (contract c) h));
  s ← get_st;
  if negb (bool_decide (z_code (host s) new_addr = [])) || (0 <? z_nonce (host s) new_addr) then push_zero
  else
    _ ← (if 0 <? v then on_host (z_transfer (contract c) new_addr v) else mret tt);
    _ ← mod_host (fun h => snd (z_inc_nonce new_addr h));
    s ← get_st;
    let forwarded := gas s / 64 * 63 in
    _ ← put_st (set_gas (sat 64 (gas s - forwarded)) s);
    r ← run_sub sub (sub_context c initcode [] (contract c) new_addr v forwarded false) forwarded;
    _ ← modify (fun s => set_gas (sat 64 (gas s + gas_remaining r)) s);
    if negb (is_success r) then _ ← modify (set_return (r_return_data r)); push_zero
    else deploy_code new_addr (r_return_data r).

Definition do_create (with_salt : bool) : FM unit :=
  s ← get_st;
  let c := ctx s in
  _ ← fail_if (is_static c) StaticStateChange;
  v ← spop_u128; off ← spop_u64; len ← spop_u64;
  salt ← (if with_salt then w ← spop; mret (Some w) else mret None);
  if MAX_INITCODE_SIZE <? len then _ ← modify (set_return []); push_zero
  else
    _ ← charge_gas (sat 64 (2 * (u64 (len + 31) / 32)));
    _ ← (if with_salt then charge_gas (keccak256_dynamic_gas len) else mret tt);
    _ ← charge_mem_expansion (sat 64 (off + len));
    s ← get_st;
    if CALL_DEPTH_LIMIT <=? depth s then _ ← modify (set_return []); push_zero
    else if z_balance (host s) (contract c) <? v then push_zero
    else
      initcode ← on_memory (read_slice off len);
      s ← get_st;
      let creator_nonce := z_nonce (host s) (contract c) in
      let new_addr := match salt with
                      | Some w => create2_address (contract c) w initcode
                      | None => create_address (contract c) creator_nonce
                      end in
      create_at new_addr v initcode.

Definition exec_call (op : Opcode.Opcode) : option (FM flow) :=
  match op with
  | Opcode.CALL => Some (next (do_call Call))
  | Opcode.CALLCODE => Some (next (do_call CallCode))
  | Opcode.DELEGATECALL => Some (next (do_call DelegateCall))
  | Opcode.STATICCALL => Some (next (do_call StaticCall))
  | Opcode.CREATE => Some (next (do_create false))
  | Opcode.CREATE2 => Some (next (do_create true))
  | _ => None
  end.

(** ** One step, and the loop *)

(** The last arm is for opcodes without an arm of their own. *)
Definition dispatch (op : Opcode.Opcode) : FM flow :=
  default (stop_with (Status.InvalidOpcode (Opcode.as_u8 op)))
    (exec_stack op ∪ exec_data op ∪ exec_env op ∪ exec_memory op ∪ exec_storage op ∪ exec_flow op ∪ exec_native op ∪ exec_call op).

(** An opcode's error is the frame's status. *)
Definition end_op (m : FM flow) : FM (option ZvmResult) := fun s =>
  match m s with
  | (Ok Next, s') => (Ok None, set_pc (pc s' + 1) s')
  | (Ok (Return r), s') => (Ok r, s')
  | (Err (Zvm e), s') => (Ok (Some (finish (Status.Failed e) s')), s')
  | (Err OutOfFuel, s') => (Err OutOfFuel, s')
  | (Panic, s') => (Panic, s')
  end.
(** The loop's body. *)
Definition step : FM (option ZvmResult) :=
  s ← get_st;
  if zlen (bytecode (ctx s)) <=? pc s then mret (Some (finish Status.Success s))
  else
    byte ← lift (index (bytecode (ctx s)) (pc s));
    match Opcode.from_u8 byte with
    | None => mret (Some (finish (Status.InvalidOpcode byte) s))
    | Some op =>
      let cost := opcode_gas op in
      if gas s <? cost then mret (Some (finish Status.OutOfGas s))
      else
        _ ← put_st (set_gas (gas s - cost) s);
        end_op (dispatch op)
    end.
End calls.

(** [run]: the bitmap once, then the loop. *)
Definition build_bitmap (s : St) : St :=
  if bool_decide (length (jumpdests s) = length (bytecode (ctx s))) then s
  else set_jumpdests (build_jumpdest_bitmap (bytecode (ctx s))) s.
Fixpoint run_loop (fuel : nat) : FM ZvmResult :=
  match fuel with
  | O => throw OutOfFuel
  | S fuel =>
    r ← step (fun s => run_loop fuel (build_bitmap s));
    match r with
    | Some result => mret result
    | None => run_loop fuel
    end
  end.
Definition run (fuel : nat) : FM ZvmResult := fun s => run_loop fuel (build_bitmap s).

(** ** ZvmExecutor *)

Definition precompile_outcome (c : ZvmContext) (r : res ZvmError (bytes * Z)) : FM ZvmResult :=
  match r with
  | Ok (output, used) => mret (mkResult Status.Success output (sat 64 (gas_limit c - used)) used [] [])
  | Err e => mret (mkResult (Status.Failed e) [] 0 (gas_limit c) [] [])
  | Panic => lift Panic
  end.
Definition execute (fuel : nat) (c : ZvmContext) (h : H) : res ZStop ZvmResult * H :=
  let m := if is_precompile (contract c)
           then precompile_outcome c (precompile_with_host h (contract c) (block_timestamp c) (calldata c) (gas_limit c))
           else run fuel in
  let '(r, s) := m (interp_new c h) in (r, host s).
End interp.
