(* ===== verification/ZvmLogic.v ===== *)
(** * A program logic for the ZVM's methods

    [wp m Q E s] is the outcome of the method [m] on state [s]: [Q] of its
    result, [E] of the state it leaves with an error, [oof] when the fuel runs
    out; a panic is always allowed.  [Inv] is what holds of one frame while it
    runs; the lemmas here are the rules of the primitives.

    Below: the groups of opcodes against these rules. *)

From Stdlib Require Import ZArith Lia String.
From stdpp Require Import base tactics list gmap sets numbers option.
From S2P Require Import Prelude Bytes U256 U256Ops EvmMachine EvmHost NativeReads EvmPrecompiles ZvmMachine ZvmHost ZvmInterp.

Local Open Scope Z_scope.

(** ** Types of the stack and the memory *)

Definition zstack_ok (st : ZvmStack) : Prop := Forall word_ok st /\ zlen st <= MAX_STACK_DEPTH.

(** A method of a part of the state keeps the part's type and yields a typed
    result. *)
Definition part_ok {S A} (T : S -> Prop) (m : M S ZvmError A) (P : A -> Prop) : Prop :=
  forall st, T st -> match m st with (Ok a, st') => P a /\ T st' | (Err _, st') => T st' | (Panic, _) => True end.

Section parts.
Context {S : Type} (T : S -> Prop).

Lemma part_bind {A B} (m : M S ZvmError A) (k : A -> M S ZvmError B) P Q :
  part_ok T m P -> (forall a, P a -> part_ok T (k a) Q) -> part_ok T (m ≫= k) Q.
Proof.
  intros Hm Hk st Hst. unfold mbind, M_bind. specialize (Hm st Hst). destruct (m st) as [[a|e|] st']; [|done|done].
  destruct Hm as [Ha Hst']. by apply Hk.
Qed.
Lemma part_ret {A} (a : A) (P : A -> Prop) : P a -> part_ok T (mret a) P.
Proof. by intros Ha st Hst. Qed.
Lemma part_get : part_ok T get_st T.
Proof. by intros st Hst. Qed.
Lemma part_put st : T st -> part_ok T (put_st st) (fun _ => True).
Proof. by intros Hst st' _. Qed.
Lemma part_lift {A} (r : res ZvmError A) (P : A -> Prop) : (forall a, r = Ok a -> P a) -> part_ok T (lift r) P.
Proof. intros Hr st Hst. unfold lift. destruct r; auto. Qed.
Lemma part_throw_if b e : part_ok T (throw_if b e) (fun _ => b = false).
Proof. intros st Hst. unfold throw_if. by destruct b. Qed.
Lemma part_mono {A} (m : M S ZvmError A) (P Q : A -> Prop) : part_ok T m P -> (forall a, P a -> Q a) -> part_ok T m Q.
Proof. intros Hm HPQ st Hst. specialize (Hm st Hst). destruct (m st) as [[a|e|] st']; naive_solver. Qed.
End parts.

Lemma push_part w : word_ok w -> part_ok zstack_ok (push w) (fun _ => True).
Proof.
  intros Hw. unfold push. eapply part_bind; [apply part_get|]. intros st [Hf Hl]. eapply part_bind; [apply part_throw_if|].
  intros _ Hlt%Z.leb_gt. apply part_put. split; [apply Forall_app_2; [done|by apply Forall_singleton]|].
  rewrite zlen_app. unfold zlen at 2. simpl. unfold zlen in *. lia.
Qed.
Lemma padded_word n w : word_ok (replicate (32 - n) 0 ++ w) <-> (length w = 32 - (32 - n))%nat /\ Forall byte w.
Proof.
  unfold word_ok. rewrite length_app, length_replicate, Forall_app. split.
  - intros [Hl [_ Hb]]. split; [lia|done].
  - intros [Hl Hb]. split; [lia|]. split; [by apply bytes_replicate|done].
Qed.
Lemma push_u64_part v : part_ok zstack_ok (push_u64 v) (fun _ => True).
Proof. apply push_part, (padded_word 8). split; [apply length_to_be|apply to_be_bytes]. Qed.
Lemma push_u128_part v : part_ok zstack_ok (push_u128 v) (fun _ => True).
Proof. apply push_part, (padded_word 16). split; [apply length_to_be|apply to_be_bytes]. Qed.
Lemma push_address_part (a : Address) : addr_ok a -> part_ok zstack_ok (push_address a) (fun _ => True).
Proof. intros [Hl Hb]. by apply push_part, (padded_word 20). Qed.

Lemma zstack_take n st : zstack_ok st -> zstack_ok (take n st).
Proof. intros [Hf Hl]. split; [by apply Forall_take|]. unfold zlen in *. rewrite length_take. lia. Qed.
Lemma pop_part : part_ok zstack_ok pop word_ok.
Proof.
  intros st Hst. unfold pop. destruct (list.last st) as [w|] eqn:Hl; [|done]. split; [|by apply zstack_take].
  rewrite last_lookup in Hl. by eapply Forall_lookup_1; [apply Hst|].
Qed.
Lemma be_drop_range w n : word_ok w -> (n <= 32)%nat -> 0 <= be_val (drop n w) < 256 ^ (32 - Z.of_nat n).
Proof.
  intros [Hl Hb] Hn. pose proof (be_val_bound (drop n w) (Forall_drop _ _ _ Hb)) as Hv.
  assert (zlen (drop n w) = 32 - Z.of_nat n) as Hz by (unfold zlen; rewrite length_drop; lia). by rewrite Hz in Hv.
Qed.
Lemma pop_u64_part : part_ok zstack_ok pop_u64 (in_range 64).
Proof. eapply part_bind; [apply pop_part|]. intros w Hw. apply part_ret. exact (be_drop_range w 24 Hw ltac:(lia)). Qed.
Lemma pop_u128_part : part_ok zstack_ok pop_u128 (in_range 128).
Proof. eapply part_bind; [apply pop_part|]. intros w Hw. apply part_ret. exact (be_drop_range w 16 Hw ltac:(lia)). Qed.
Lemma pop_u256_part : part_ok zstack_ok pop_u256 (fun v => 0 <= v < W).
Proof. eapply part_bind; [apply pop_part|]. intros w Hw. apply part_ret. by apply word_bound. Qed.
Lemma pop_address_part : part_ok zstack_ok pop_address addr_ok.
Proof.
  eapply part_bind; [apply pop_part|]. intros w [Hl Hb]. apply part_ret.
  split; [by rewrite length_drop, Hl|by apply Forall_drop].
Qed.

Lemma index_inv {A E} (l : list A) i x : @index A E l i = Ok x -> l !! Z.to_nat i = Some x.
Proof. unfold index, unwrap. destruct (0 <=? i); [|done]. destruct (l !! _); [|done]. by intros [= ->]. Qed.

Lemma part_lift_opt {S A} (T : S -> Prop) (o : option A) e (P : A -> Prop) : (forall a, o = Some a -> P a) ->
  part_ok T (lift_opt o e) P.
Proof. intros Ho st Hst. unfold lift_opt, ok_or. destruct o; auto. Qed.

Lemma dup_part n : part_ok zstack_ok (dup n) (fun _ => True).
Proof.
  unfold dup. eapply part_bind; [apply part_get|]. intros st [Hf Hl]. eapply part_bind; [by apply (part_lift_opt _ _ _ (fun _ => True))|].
  intros idx _. eapply part_bind; [apply (part_lift _ _ word_ok)|intros w Hw; by apply push_part].
  intros w Hw%index_inv. by eapply Forall_lookup_1.
Qed.
Lemma swap_part n : part_ok zstack_ok (swap n) (fun _ => True).
Proof.
  unfold swap. eapply part_bind; [apply part_get|]. intros st [Hf Hl]. cbv zeta.
  eapply part_bind; [by apply (part_lift_opt _ _ _ (fun _ => True))|]. intros idx _. apply part_put.
  unfold swap_at. destruct (st !! _) eqn:Hx; [|done]. destruct (st !! Z.to_nat idx) eqn:Hy; [|done].
  split; [apply Forall_insert; [apply Forall_insert; [done|]|]; by eapply Forall_lookup_1|].
  unfold zlen in *. by rewrite !length_insert.
Qed.

(** Every opcode on words yields a word. *)
Lemma flag_ok b : word_ok (flag b).
Proof. apply from_u64_ok. Qed.
Lemma fold_fill_ok c l : forall x, word_ok x -> byte c -> word_ok (fold_left (fun x i => <[Z.to_nat i := c]> x) l x).
Proof.
  induction l as [|i l IH]; intros x [Hl Hb] Hc; [done|]. simpl. apply IH; [|done].
  split; [by rewrite length_insert|by apply Forall_insert].
Qed.
Lemma zsignextend_word b x : word_ok (signextend b x).
Proof.
  unfold signextend. destruct (31 <=? b); [apply of_u256_ok|]. cbv zeta. apply fold_fill_ok; [apply of_u256_ok|].
  destruct (_ =? 1); unfold byte; lia.
Qed.
Lemma byte_op_word i x : word_ok x -> word_ok (byte_op i x).
Proof.
  intros [Hl Hb]. unfold byte_op. destruct (32 <=? i); [apply zero_word_ok|]. apply (padded_word 1).
  split; [done|]. apply Forall_singleton. by apply byte_at_byte.
Qed.
Lemma zip_word f a b : (forall x y, byte x -> byte y -> byte (f x y)) -> word_ok a -> word_ok b -> word_ok (zip_with f a b).
Proof.
  intros Hf Ha Hb. split; [by apply zip_with_length|]. destruct Ha as [_ Ha], Hb as [_ Hb]. revert b Hb.
  induction Ha; intros b Hb; [constructor|]. destruct Hb; constructor; [by apply Hf|]. by apply IHHa.
Qed.
Lemma op2_word op f a b : op2 op = Some f -> word_ok a -> word_ok b -> word_ok (f a b).
Proof.
  intros Hf Ha Hb. destruct op; try discriminate; injection Hf as <-;
    try apply of_u256_ok; try apply flag_ok; [apply zsignextend_word|..|by apply byte_op_word];
    apply zip_word; auto using byte_land, byte_lor, byte_lxor.
Qed.

Lemma exec_alu_part op m : exec_alu op = Some m -> part_ok zstack_ok m (fun _ => True).
Proof.
  intros Hm. destruct (exec_alu_cases op m Hm) as [(f & g & Hf & _ & ->)|[(f & g & Hf & _ & ->)|(f & g & Hf & _ & ->)]].
  - eapply part_bind; [apply pop_part|]. intros a Ha. apply push_part.
    destruct op; try discriminate; injection Hf as <-; [apply flag_ok|]. by apply not_ok.
  - eapply part_bind; [apply pop_part|]. intros a Ha. eapply part_bind; [apply pop_part|]. intros b Hb.
    apply push_part. by eapply op2_word.
  - eapply part_bind; [apply pop_part|]. intros a Ha. eapply part_bind; [apply pop_part|]. intros b Hb.
    eapply part_bind; [apply pop_part|]. intros n Hn. apply push_part.
    destruct op; try discriminate; injection Hf as <-; apply of_u256_ok.
Qed.

(** ** Memory *)

Lemma resize_code n l : code_ok l -> 0 <= n < 2 ^ 63 -> code_ok (resize n l).
Proof.
  intros [Hb Hl] Hn. split; [|rewrite length_resize by lia; lia]. unfold resize. apply Forall_app_2; [by apply Forall_take|].
  apply bytes_replicate. unfold byte. lia.
Qed.
Lemma slice_code {E} l a b d : code_ok l -> @slice Z E l a b = Ok d -> code_ok d /\ zlen d = b - a.
Proof.
  intros [Hb Hl] Hs. unfold slice in Hs. destruct (_ && _) eqn:Hc; [|done]. bool_to_prop. injection Hs as <-.
  assert (Hz : zlen (take (Z.to_nat (b - a)) (drop (Z.to_nat a) l)) = b - a).
  { unfold zlen in *. rewrite length_take, length_drop. lia. }
  split; [|done]. split; [by apply Forall_take, Forall_drop|lia].
Qed.

Lemma mem_resize_part n : part_ok code_ok (mem_resize n) (fun _ => True).
Proof.
  unfold mem_resize. eapply part_bind; [apply part_get|]. intros m Hm. destruct (Z.ltb_spec (zlen m) n); [|by apply part_ret].
  cbv zeta. pose proof (proj1 (wrap_range 64 (n + 31) ltac:(lia))) as Hw. set (k := usize (n + 31) / 32 * 32) in *.
  assert (0 <= k) by (unfold k; apply Z.mul_nonneg_nonneg; [apply Z.div_pos|]; lia).
  destruct (Z.leb_spec (2 ^ 63) k); [by apply part_lift|]. apply part_put. apply resize_code; [done|lia].
Qed.
Lemma mem_slice_part a b : part_ok code_ok (mem_slice a b) (fun d => code_ok d /\ zlen d = b - a).
Proof.
  unfold mem_slice. eapply part_bind; [apply part_get|]. intros m Hm. apply part_lift. intros d. by apply slice_code.
Qed.
Lemma mem_splice_part a b src : Forall byte src -> part_ok code_ok (mem_splice a b src) (fun _ => True).
Proof.
  intros Hs. unfold mem_splice. eapply part_bind; [apply part_get|]. intros m Hm.
  eapply part_bind; [apply (part_lift _ _ (fun old => zlen old = b - a /\ 0 <= a <= b /\ b <= zlen m))|].
  { intros old Ho. pose proof (slice_code _ _ _ _ Hm Ho) as [_ Hz]. unfold slice in Ho. destruct (_ && _) eqn:Hc; [|done]. bool_to_prop. lia. }
  intros old (Hz & Hab & Hbl). destruct (Z.eqb_spec (zlen old) (zlen src)) as [He|]; [|by apply part_lift].
  destruct Hm as [Hb Hl]. apply part_put. split.
  - apply Forall_app_2; [by apply Forall_take|]. apply Forall_app_2; [done|by apply Forall_drop].
  - unfold zlen in *. rewrite !length_app, length_take, length_drop. lia.
Qed.
Lemma mem_store8_part a x : byte x -> part_ok code_ok (mem_store8 a x) (fun _ => True).
Proof.
  intros Hx. unfold mem_store8. eapply part_bind; [apply mem_resize_part|]. intros _ _. eapply part_bind; [apply part_get|]. intros m [Hb Hl].
  eapply part_bind; [by apply (part_lift _ _ (fun _ => True))|]. intros _ _. apply part_put.
  split; [by apply Forall_insert|]. unfold zlen in *. by rewrite length_insert.
Qed.
Lemma code_word d : code_ok d -> zlen d = 32 -> word_ok d.
Proof. intros [Hb _] Hl. split; [unfold zlen in Hl; lia|done]. Qed.
Lemma mem_load_part a : in_range 64 a -> part_ok code_ok (mem_load a) word_ok.
Proof.
  intros Ha. unfold in_range in Ha. unfold mem_load. eapply part_bind; [apply mem_resize_part|]. intros _ _.
  eapply part_mono; [apply mem_slice_part|]. intros d [Hd Hz]. apply code_word; [done|]. pose proof (zlen_nonneg d).
  destruct (Z.lt_ge_cases (a + 32) (2 ^ 64)); [rewrite wrap_small in Hz by (unfold in_range; lia); lia|].
  assert (usize (a + 32) = a + 32 - 2 ^ 64) as Hw; [|lia].
  unfold wrap. symmetry. apply (Z.mod_unique_pos _ _ 1); lia.
Qed.
Lemma mem_store_part a w : word_ok w -> part_ok code_ok (mem_store a w) (fun _ => True).
Proof.
  intros [_ Hw]. unfold mem_store. eapply part_bind; [apply mem_resize_part|]. intros _ _. by apply mem_splice_part.
Qed.
Lemma read_slice_part a n : part_ok code_ok (read_slice a n) code_ok.
Proof.
  unfold read_slice. eapply part_bind; [apply mem_resize_part|]. intros _ _.
  eapply part_mono; [apply mem_slice_part|]. by intros d [Hd _].
Qed.
Lemma read_string_part a n : part_ok code_ok (read_string a n) code_ok.
Proof.
  unfold read_string. eapply part_bind; [apply read_slice_part|]. intros d Hd.
  eapply part_bind; [apply part_throw_if|]. intros _ _. by apply part_ret.
Qed.
Lemma write_slice_part a src : Forall byte src -> part_ok code_ok (write_slice a src) (fun _ => True).
Proof.
  intros Hs. unfold write_slice. destruct src as [|x src]; [by apply part_ret|].
  eapply part_bind; [apply mem_resize_part|]. intros _ _. by apply mem_splice_part.
Qed.
Lemma mem_copy_part d a n : part_ok code_ok (mem_copy d a n) (fun _ => True).
Proof.
  unfold mem_copy. destruct (n =? 0); [by apply part_ret|]. eapply part_bind; [apply mem_resize_part|]. intros _ _.
  eapply part_bind; [apply mem_slice_part|]. intros c [[Hc _] _]. by apply mem_splice_part.
Qed.

(** ** Weakest preconditions *)

Section wp.
Context {H : Type} (oof : Prop).
Abbreviation St := (ZvmInterpreter H).
Abbreviation FM := (M St ZStop).

Definition wp {A} (m : FM A) (Q : A -> St -> Prop) (E : St -> Prop) (s : St) : Prop :=
  match m s with
  | (Ok a, s') => Q a s'
  | (Err (Zvm _), s') => E s'
  | (Err OutOfFuel, _) => oof
  | (Panic, _) => True
  end.

Lemma zwp_bind {A B} (m : FM A) (k : A -> FM B) Q E s :
  wp m (fun a s' => wp (k a) Q E s') E s -> wp (a ← m; k a) Q E s.
Proof. unfold wp, mbind, M_bind. by destruct (m s) as [[a|[e|]|] s']. Qed.
Lemma zwp_ret {A} (a : A) Q E s : Q a s -> wp (mret a) Q E s.
Proof. done. Qed.
Lemma zwp_get Q E s : Q s s -> wp get_st Q E s.
Proof. done. Qed.
Lemma wp_put s' Q E s : Q tt s' -> wp (put_st s') Q E s.
Proof. done. Qed.
Lemma zwp_modify f Q E s : Q tt (f s) -> wp (modify f) Q E s.
Proof. done. Qed.
Lemma zwp_lift {A} (r : res ZStop A) (Q : A -> St -> Prop) E s : (forall e, r <> Err e) -> (forall a, r = Ok a -> Q a s) -> wp (lift r) Q E s.
Proof. intros Hn Hr. unfold wp, lift. destruct r; [by apply Hr|by destruct (Hn e)|done]. Qed.
Lemma zwp_fail_if b e Q (E : St -> Prop) s : E s -> (b = false -> Q tt s) -> wp (fail_if b e) Q E s.
Proof. intros He Hq. unfold wp, fail_if, throw_if. destruct b; [done|by apply Hq]. Qed.
Lemma zwp_if {A} (b : bool) (m1 m2 : FM A) Q E s :
  (b = true -> wp m1 Q E s) -> (b = false -> wp m2 Q E s) -> wp (if b then m1 else m2) Q E s.
Proof. destruct b; auto. Qed.
Lemma zwp_mono {A} (m : FM A) (Q Q' : A -> St -> Prop) (E E' : St -> Prop) s :
  wp m Q E s -> (forall a s', Q a s' -> Q' a s') -> (forall s', E s' -> E' s') -> wp m Q' E' s.
Proof. unfold wp. destruct (m s) as [[a|[e|]|] s']; auto. Qed.
End wp.
Arguments wp {H} oof {A} m Q E s.

(** ** The state of one frame *)

Definition ctx_ok (c : ZvmContext) : Prop :=
  (code_ok (bytecode c) /\ code_ok (calldata c) /\ in_range 64 (gas_limit c)) /\
  (addr_ok (caller c) /\ addr_ok (contract c) /\ addr_ok (origin c)) /\ (forall a, aa_sender c = Some a -> addr_ok a).

Definition log_ok (l : ZvmLog) : Prop :=
  addr_ok (log_address l) /\ Forall word_ok (log_topics l) /\ code_ok (log_data l).

Section inv.
Context {H : Type} `{ZvmHostLaws H} `{PrimitivesLaws} (oof : Prop).
Abbreviation St := (ZvmInterpreter H).
Abbreviation FM := (M St ZStop).
Abbreviation wp := (wp oof).

(** A state [s] of the frame that started as [b] and holds at most [g] gas. *)
Record Inv (b : St) (g : Z) (s : St) : Prop := {
  i_ctx : ctx s = ctx b;
  i_depth : depth s = depth b;
  i_pc : 0 <= pc s;
  i_gas : 0 <= gas s <= g /\ g < 2 ^ 64;
  i_stack : zstack_ok (stack s);
  i_memory : code_ok (memory s);
  i_return : code_ok (return_data s);
  i_host : z_ok (host s);
  i_rel : z_rel (host b) (host s);
  i_logs : Forall log_ok (logs s);
  i_static : is_static (ctx b) = true -> z_world (host s) = z_world (host b) /\ logs s = logs b }.

Lemma zInv_gas b g g' s : Inv b g s -> g <= g' -> g' < 2 ^ 64 -> Inv b g' s.
Proof. intros [] Hg Hb. constructor; try done. lia. Qed.
Lemma zInv_set_stack b g s st : Inv b g s -> zstack_ok st -> Inv b g (set_stack st s).
Proof. intros [] ?. by constructor. Qed.
Lemma zInv_set_memory b g s m : Inv b g s -> code_ok m -> Inv b g (set_memory m s).
Proof. intros [] ?. by constructor. Qed.
Lemma zInv_set_gas b g g' s x : Inv b g s -> 0 <= x <= g' -> g' < 2 ^ 64 -> Inv b g' (set_gas x s).
Proof. intros [] ? ?. by constructor. Qed.
Lemma zInv_set_pc b g s p : Inv b g s -> 0 <= p -> Inv b g (set_pc p s).
Proof. intros [] ?. by constructor. Qed.
Lemma zInv_set_return b g s d : Inv b g s -> code_ok d -> Inv b g (set_return d s).
Proof. intros [] ?. by constructor. Qed.
Lemma Inv_set_accessed b g s a k : Inv b g s -> Inv b g (set_accessed a k s).
Proof. intros []. by constructor. Qed.
Lemma Inv_set_jumpdests b g s j : Inv b g s -> Inv b g (set_jumpdests j s).
Proof. intros []. by constructor. Qed.
Lemma zInv_set_logs b g s l z i : Inv b g s -> Forall log_ok l -> (is_static (ctx b) = true -> l = logs b) ->
  Inv b g (set_logs l z i s).
Proof. intros [] ? Hst. constructor; try done. naive_solver. Qed.
(** The host after an operation. *)
Lemma zInv_set_host b g s h : Inv b g s -> z_ok h /\ z_rel (host s) h ->
  (is_static (ctx b) = true -> z_world h = z_world (host s)) -> Inv b g (set_host h s).
Proof.
  intros [? ? ? ? ? ? ? ? Hrel ? Hst] [Hh Hr] Hw. constructor; try done; [by transitivity (host s)|].
  intros Hb. destruct (Hst Hb) as [Hs Hl]. split; [|done]. by rewrite <-Hs, <-Hw.
Qed.

Section rules.
Context (b : St) (g : Z) (s : St) (Hi : Inv b g s).

Lemma wp_stack {A} (m : SM A) P (Q : A -> St -> Prop) (E : St -> Prop) : part_ok zstack_ok m P ->
  (forall s', Inv b g s' -> E s') -> (forall a s', P a -> Inv b g s' -> gas s' = gas s -> Q a s') -> wp (on_stack m) Q E s.
Proof.
  intros Hm He Hq. unfold ZvmLogic.wp, on_stack. specialize (Hm (stack s) (i_stack _ _ _ Hi)).
  destruct (m (stack s)) as [[a|e|] st]; simpl; [|apply He; by apply zInv_set_stack|done].
  apply Hq; [apply Hm| |done]. apply zInv_set_stack; [done|apply Hm].
Qed.
Lemma wp_memory {A} (m : MM A) P (Q : A -> St -> Prop) (E : St -> Prop) : part_ok code_ok m P ->
  (forall s', Inv b g s' -> E s') -> (forall a s', P a -> Inv b g s' -> gas s' = gas s -> Q a s') -> wp (on_memory m) Q E s.
Proof.
  intros Hm He Hq. unfold ZvmLogic.wp, on_memory. specialize (Hm (memory s) (i_memory _ _ _ Hi)).
  destruct (m (memory s)) as [[a|e|] mem]; simpl; [|apply He; by apply zInv_set_memory|done].
  apply Hq; [apply Hm| |done]. apply zInv_set_memory; [done|apply Hm].
Qed.
Lemma wp_host {A} (m : M H ZvmError A) (Q : A -> St -> Prop) (E : St -> Prop) : is_static (ctx b) = false ->
  (let h' := snd (m (host s)) in z_ok h' /\ z_rel (host s) h') ->
  (forall s', Inv b g s' -> E s') -> (forall a s', Inv b g s' -> gas s' = gas s -> Q a s') -> wp (on_host m) Q E s.
Proof.
  intros Hst Hm He Hq. unfold ZvmLogic.wp, on_host. cbv zeta in Hm. destruct (m (host s)) as [r h]. simpl in Hm.
  assert (Inv b g (set_host h s)) by (apply zInv_set_host; [done|done|congruence]).
  destruct r as [a|e|]; simpl; auto.
Qed.
Lemma zwp_mod_host (f : H -> H) (Q : unit -> St -> Prop) (E : St -> Prop) : is_static (ctx b) = false ->
  (z_ok (f (host s)) /\ z_rel (host s) (f (host s))) ->
  (forall s', Inv b g s' -> gas s' = gas s -> Q tt s') -> wp (mod_host f) Q E s.
Proof.
  intros Hst Hm Hq. apply zwp_modify, Hq; [|done]. apply zInv_set_host; [done|done|congruence].
Qed.

(** A charge; on failure the gas is gone. *)
Lemma wp_charge a (Q : unit -> St -> Prop) (E : St -> Prop) : 0 <= a ->
  (forall s', Inv b g s' -> E s') -> (forall s', Inv b g s' -> gas s' <= gas s -> Q tt s') -> wp (charge_gas a) Q E s.
Proof.
  intros Ha He Hq. destruct (i_gas _ _ _ Hi) as [Hg Hg64]. unfold charge_gas. apply zwp_bind, zwp_get.
  apply zwp_if; intros Hlt; bool_to_prop.
  - apply zwp_bind, wp_put. apply He. eapply zInv_set_gas; [done|lia|done].
  - apply wp_put, Hq; [|simpl; lia]. eapply zInv_set_gas; [done|lia|done].
Qed.
End rules.

Lemma sat_nonneg w x : 0 <= w -> 0 <= sat w x.
Proof. intros Hw. by apply sat_range. Qed.
Lemma memory_gas_delta_nonneg o n : 0 <= memory_gas_delta o n.
Proof. unfold memory_gas_delta. destruct (_ <=? _); [done|]. by apply sat_nonneg. Qed.

Section derived.
Context (b : St) (g : Z) (s : St) (Hi : Inv b g s).

Lemma wp_charge_mem n (Q : unit -> St -> Prop) (E : St -> Prop) :
  (forall s', Inv b g s' -> E s') -> (forall s', Inv b g s' -> gas s' <= gas s -> Q tt s') -> wp (charge_mem_expansion n) Q E s.
Proof.
  intros He Hq. unfold charge_mem_expansion. apply zwp_if; intros _; [by apply zwp_ret, Hq|]. apply zwp_bind, zwp_get. cbv zeta.
  apply zwp_if; intros _; [by apply zwp_ret, Hq|]. eapply wp_charge; [done|apply memory_gas_delta_nonneg|done|done].
Qed.
Lemma wp_touch_address a (Q : unit -> St -> Prop) (E : St -> Prop) :
  (forall s', Inv b g s' -> E s') -> (forall s', Inv b g s' -> gas s' <= gas s -> Q tt s') -> wp (touch_address a) Q E s.
Proof.
  intros He Hq. unfold touch_address. apply zwp_bind, zwp_get. cbv zeta. apply zwp_bind, wp_put.
  eapply wp_charge; [by apply Inv_set_accessed| |done|done]. case_bool_decide; [done|by apply sat_nonneg].
Qed.
Lemma wp_touch_slot k cold (Q : unit -> St -> Prop) (E : St -> Prop) : 0 <= cold ->
  (forall s', Inv b g s' -> E s') -> (forall s', Inv b g s' -> gas s' <= gas s -> Q tt s') -> wp (touch_slot k cold) Q E s.
Proof.
  intros Hc He Hq. unfold touch_slot. apply zwp_bind, zwp_get. cbv zeta. apply zwp_bind, wp_put.
  eapply wp_charge; [by apply Inv_set_accessed| |done|done]. by case_bool_decide.
Qed.

Lemma wp_copy_padded src off len (Q : bytes -> St -> Prop) (E : St -> Prop) : code_ok src -> 0 <= off -> 0 <= len ->
  (forall d, code_ok d -> Q d s) -> wp (copy_padded src off len) Q E s.
Proof.
  intros [Hb Hl] Ho Hn Hq. unfold copy_padded. apply zwp_if; intros Hbig; bool_to_prop; [done|].
  assert (Hz : forall n, code_ok (replicate (Z.to_nat (len - n)) 0) \/ len - n < 0 \/ n < 0).
  { intros n. destruct (Z.lt_ge_cases (len - n) 0); [tauto|]. destruct (Z.lt_ge_cases n 0); [tauto|]. left. apply zeros_ok. lia. }
  apply zwp_if; intros Hoff; bool_to_prop.
  - cbv zeta. set (n := Z.min (zlen src - off) len). apply zwp_bind, zwp_lift; [unfold slice; by destruct (_ && _)|].
    intros d Hd. destruct (slice_code _ _ _ _ (conj Hb Hl) Hd) as [[Hdb _] Hdl]. apply zwp_ret, Hq. split.
    + apply Forall_app_2; [done|]. apply bytes_replicate. unfold byte. lia.
    + rewrite zlen_app, Hdl. unfold zlen. rewrite length_replicate. lia.
  - apply zwp_ret, Hq. apply zeros_ok. lia.
Qed.

Lemma wp_store_bytes d : forall off s0 (Q : unit -> St -> Prop) (E : St -> Prop), Inv b g s0 -> Forall byte d ->
  (forall s', Inv b g s' -> E s') -> (forall s', Inv b g s' -> Q tt s') -> wp (store_bytes off d) Q E s0.
Proof.
  induction d as [|x d IH]; intros off s0 Q E Hs Hd He Hq; [by apply zwp_ret, Hq|]. inversion_clear Hd as [|? ? Hx Hd'].
  apply zwp_bind. eapply wp_memory; [done|by apply mem_store8_part|done|]. intros _ s1 _ Hs1 _. by apply IH.
Qed.
Lemma wp_copy_out off len d (Q : unit -> St -> Prop) (E : St -> Prop) : Forall byte d ->
  (forall s', Inv b g s' -> E s') -> (forall s', Inv b g s' -> Q tt s') -> wp (copy_out off len d) Q E s.
Proof. intros Hd He Hq. apply wp_store_bytes; [done|by apply Forall_take|done..]. Qed.
End derived.
End inv.
Arguments Inv {H _ _} b g s.

(** * What one opcode of the ZVM preserves

    The groups of opcodes of ZvmInterp against the rules of ZvmLogic: an opcode
    keeps the types of the frame, never gains gas, changes the host only in the
    ways [z_rel] allows and, in a static frame, leaves the world and the logs
    as they were. *)

Section ops.
Context {H : Type} `{ZvmHostLaws H} `{PrimitivesLaws} (oof : Prop).
Abbreviation St := (ZvmInterpreter H).
Abbreviation FM := (M St ZStop).
Abbreviation wp := (wp oof).

(** Where an opcode may leave the frame. *)
Definition flow_post (b : St) (g : Z) (r : flow) (s : St) : Prop :=
  Inv b g s /\ match r with Return (Some res) => exists st, res = finish st s | _ => True end.

Definition op_ok (b : St) (m : FM flow) : Prop := forall g s, Inv b g s -> wp m (flow_post b g) (Inv b g) s.
Definition unit_ok (b : St) (m : FM unit) : Prop := forall g s, Inv b g s -> wp m (fun _ => Inv b g) (Inv b g) s.

Lemma next_ok b m : unit_ok b m -> op_ok b (next m).
Proof. intros Hm g s Hi. apply zwp_bind. eapply zwp_mono; [by apply Hm| |done]. intros [] s' Hi'. by apply zwp_ret. Qed.
Lemma stack_ok b (m : SM unit) P : part_ok zstack_ok m P -> unit_ok b (on_stack m).
Proof. intros Hm g s Hi. eapply wp_stack; [done|done|done|]. by intros. Qed.
Lemma memory_ok b (m : MM unit) P : part_ok code_ok m P -> unit_ok b (on_memory m).
Proof. intros Hm g s Hi. eapply wp_memory; [done|done|done|]. by intros. Qed.
Lemma zpush_next_ok b w : word_ok w -> op_ok b (push_next w).
Proof. intros Hw. apply next_ok. by eapply stack_ok, push_part. Qed.
Lemma u64_next_ok b v : op_ok b (u64_next v).
Proof. apply next_ok. eapply stack_ok, push_u64_part. Qed.
Lemma u128_next_ok b v : op_ok b (u128_next v).
Proof. apply next_ok. eapply stack_ok, push_u128_part. Qed.
Lemma address_next_ok b (a : Address) : addr_ok a -> op_ok b (address_next a).
Proof. intros Ha. apply next_ok. by eapply stack_ok, push_address_part. Qed.
Lemma stop_with_ok b st : op_ok b (stop_with st).
Proof. intros g s Hi. apply zwp_bind, zwp_get, zwp_ret. split; [done|]. by exists st. Qed.
End ops.
Arguments op_ok {H _ _} oof b m.
Arguments unit_ok {H _ _} oof b m.

(** One rule for the next action; [zdone] for an opcode's last action. *)
Ltac zop :=
  match goal with
  | |- wp _ (_ ← _; _) _ _ _ => apply zwp_bind
  | |- wp _ (mret _) _ _ _ => apply zwp_ret
  | |- wp _ get_st _ _ _ => apply zwp_get
  | |- wp _ spop _ _ _ => eapply wp_stack; [eassumption|apply pop_part|done|intros ? ? ? ? ?]
  | |- wp _ spop_u64 _ _ _ => eapply wp_stack; [eassumption|apply pop_u64_part|done|intros ? ? ? ? ?]
  | |- wp _ spop_u128 _ _ _ => eapply wp_stack; [eassumption|apply pop_u128_part|done|intros ? ? ? ? ?]
  | |- wp _ spop_address _ _ _ => eapply wp_stack; [eassumption|apply pop_address_part|done|intros ? ? ? ? ?]
  | |- wp _ (on_stack pop_u256) _ _ _ => eapply wp_stack; [eassumption|apply pop_u256_part|done|intros ? ? ? ? ?]
  | |- wp _ (spush _) _ _ _ => eapply wp_stack; [eassumption|apply push_part|done|intros ? ? ? ? ?]
  | |- wp _ (on_memory (read_slice _ _)) _ _ _ => eapply wp_memory; [eassumption|apply read_slice_part|done|intros ? ? ? ? ?]
  | |- wp _ (on_memory (read_string _ _)) _ _ _ => eapply wp_memory; [eassumption|apply read_string_part|done|intros ? ? ? ? ?]
  | |- wp _ (on_memory (mem_load _)) _ _ _ => eapply wp_memory; [eassumption|apply mem_load_part; eassumption|done|intros ? ? ? ? ?]
  | |- wp _ (charge_gas _) _ _ _ => eapply wp_charge; [eassumption|by apply sat_nonneg|done|intros ? ? ?]
  | |- wp _ (charge_mem_expansion _) _ _ _ => eapply wp_charge_mem; [eassumption|done|intros ? ? ?]
  | |- wp _ (touch_address _) _ _ _ => eapply wp_touch_address; [eassumption|done|intros ? ? ?]
  | |- wp _ (touch_slot _ _) _ _ _ => eapply wp_touch_slot; [eassumption| |done|intros ? ? ?]
  | |- wp _ (fail_if _ _) _ _ _ => eapply zwp_fail_if; [eassumption|intros ?]
  end; cbv beta.
Ltac zdone :=
  match goal with
  | |- wp _ (u64_next _) _ _ _ => eapply u64_next_ok; eassumption
  | |- wp _ (u128_next _) _ _ _ => eapply u128_next_ok; eassumption
  | |- wp _ (push_next _) _ _ _ => eapply zpush_next_ok; [|eassumption]
  | |- wp _ (address_next _) _ _ _ => eapply address_next_ok; [|eassumption]
  | |- wp _ (stop_with _) _ _ _ => eapply stop_with_ok; eassumption
  | |- flow_post _ _ _ _ => split; [eassumption|done]
  end.

Section groups.
Context {H : Type} `{ZvmHostLaws H} `{PrimitivesLaws} (oof : Prop).
Abbreviation St := (ZvmInterpreter H).
Abbreviation FM := (M St ZStop).
Abbreviation wp := (wp oof).
Abbreviation op_ok := (op_ok oof).
Context (b : St) (Hb : ctx_ok (ctx b)).

Lemma ctx_reads g s : Inv b g s -> ctx_ok (ctx s).
Proof. intros Hi. by rewrite (i_ctx _ _ _ Hi). Qed.
Lemma host_reads g s a k n : Inv b g s ->
  (in_range 128 (z_balance (host s) a) /\ in_range 64 (z_nonce (host s) a) /\ code_ok (z_code (host s) a) /\ word_ok (z_code_hash (host s) a)) /\
  (word_ok (z_storage_load (host s) a k) /\ word_ok (z_transient_load (host s) a k) /\ word_ok (z_block_hash (host s) n)) /\
  (addr_ok (z_coinbase (host s)) /\ word_ok (z_prevrandao (host s)) /\ word_ok (z_blob_hash (host s) n)).
Proof. intros Hi. apply z_reads. by eapply i_host. Qed.
Lemma not_static g s : Inv b g s -> is_static (ctx s) = false -> is_static (ctx b) = false.
Proof. intros Hi. by rewrite (i_ctx _ _ _ Hi). Qed.

Definition table_ok (t : option (FM flow)) : Prop := forall m, t = Some m -> op_ok b m.

Lemma slice_none {A E} (l : list A) i j (e : E) : slice l i j <> Err e.
Proof. unfold slice. by destruct (_ && _). Qed.

Lemma push_op_ok n : 1 <= n <= 32 -> op_ok b (
    s ← get_st;
    let start := pc s + 1 in
    let end_ := start + n in
    let code := bytecode (ctx s) in
    _ ← fail_if (zlen code <? end_) UnexpectedEnd;
    imm ← lift (slice code start end_);
    _ ← spush (replicate (Z.to_nat (32 - n)) 0 ++ imm);
    next (modify (fun s => set_pc (pc s + n) s))).
Proof.
  intros Hn g s Hi. zop. zop. cbv zeta. zop. zop. zop. apply zwp_lift; [intros ?; apply slice_none|]. intros imm Himm.
  destruct (ctx_reads _ _ Hi) as ((Hc & _ & _) & _). destruct (slice_code _ _ _ _ Hc Himm) as [[Hib _] Hil].
  zop. zop.
  { split; [rewrite length_app, length_replicate; unfold zlen in *; lia|].
    apply Forall_app_2; [apply bytes_replicate; unfold byte; lia|done]. }
  eapply next_ok; [|eassumption]. intros g1 s1 Hi1. apply zwp_modify. apply zInv_set_pc; [done|].
  pose proof (i_pc _ _ _ Hi1). lia.
Qed.

Lemma exec_range_ok op : table_ok (exec_range op).
Proof.
  intros m. unfold exec_range. cbv zeta. repeat (destruct (_ && _) eqn:Hr; bool_to_prop; [intros [= <-]|clear Hr]).
  - apply push_op_ok. lia.
  - eapply next_ok, stack_ok, dup_part.
  - eapply next_ok, stack_ok, swap_part.
  - destruct (exec_alu op) eqn:Ha; [|done]. intros [= <-]. by eapply next_ok, stack_ok, exec_alu_part.
Qed.
Lemma exec_stack_ok op : table_ok (exec_stack op).
Proof.
  assert (Hc : op = Opcode.PUSH0 \/ op = Opcode.POP \/ op = Opcode.EXP \/ exec_stack (H:=H) op = exec_range op) by (destruct op; auto).
  intros m. destruct Hc as [->|[->|[->| ->]]]; [intros [= <-]..|apply exec_range_ok].
  - apply zpush_next_ok, zero_word_ok.
  - apply next_ok. intros g s Hi. repeat zop. done.
  - intros g s Hi. repeat zop. zdone. apply of_u256_ok.
Qed.

(** ** Data, environment, memory *)

Lemma zcopy_op_ok src : (forall g s, Inv b g s -> code_ok (src s)) -> op_ok b (copy_op src).
Proof.
  intros Hsrc g s Hi. unfold copy_op. repeat zop. eapply (wp_copy_padded oof b); [by eapply Hsrc|unfold in_range in *; lia..|].
  intros d [Hd _]. eapply next_ok; [|eassumption]. by eapply memory_ok, write_slice_part.
Qed.

Lemma exec_data_ok op : table_ok (exec_data op).
Proof.
  intros m Hm. destruct op; try discriminate; injection Hm as <-; try (intros g s Hi; repeat zop; try zdone).
  - apply keccak_ok.
  - match goal with Hi : Inv b g ?s1 |- wp _ _ _ ?s1 =>
      apply (zwp_mono _ _ (fun w s' => word_ok w /\ s' = s1) _ (Inv b g)); [|intros w ? [Hw ->]; by zdone|done];
      destruct (ctx_reads _ _ Hi) as ((_ & Hc & _) & _) end.
    cbv zeta. apply zwp_if; intros Hlt; bool_to_prop.
    + zop. apply zwp_lift; [intros ?; apply slice_none|]. intros d Hd. destruct (slice_code _ _ _ _ Hc Hd) as [[Hdb _] Hdl].
      apply zwp_ret. split; [|done]. split.
      * rewrite length_app, length_replicate. unfold zlen in *. lia.
      * apply Forall_app_2; [done|]. apply bytes_replicate. unfold byte. lia.
    + apply zwp_ret. split; [apply zero_word_ok|done].
  - eapply zcopy_op_ok; [|exact Hi]. intros g1 s1 Hi1. apply (ctx_reads _ _ Hi1).
  - eapply zcopy_op_ok; [|exact Hi]. intros g1 s1 Hi1. apply (ctx_reads _ _ Hi1).
  - apply zwp_lift; [intros ?; apply slice_none|]. intros d Hd.
    match goal with Hi : Inv b g ?s |- wp _ _ _ ?s => destruct (slice_code _ _ _ _ (i_return _ _ _ Hi) Hd) as [[Hdb _] _] end.
    eapply next_ok; [|eassumption]. by eapply memory_ok, write_slice_part.
Qed.

Lemma exec_env_ok op : table_ok (exec_env op).
Proof.
  intros m Hm. destruct op; try discriminate; injection Hm as <-; intros g s Hi; repeat zop; zdone.
  all: match goal with
    | Hi : Inv b ?g1 ?s |- context [z_block_hash (host ?s) ?n] => apply (host_reads _ _ [] [] n Hi)
    | Hi : Inv b ?g1 ?s |- context [z_blob_hash (host ?s) ?n] => apply (host_reads _ _ [] [] n Hi)
    | Hi : Inv b ?g1 ?s |- context [host ?s] => apply (host_reads _ _ [] [] 0 Hi)
    | Hi : Inv b ?g1 ?s |- context [ctx ?s] => destruct (ctx_reads _ _ Hi) as (_ & (? & ? & ?) & _); done
    end.
Qed.

Lemma exec_memory_ok op : table_ok (exec_memory op).
Proof.
  intros m Hm. destruct op; try discriminate; injection Hm as <-; intros g s Hi; repeat zop; try zdone.
  - done.
  - eapply next_ok; [|eassumption]. by eapply memory_ok, mem_store_part.
  - apply zwp_lift; [intros e; unfold index, unwrap; destruct (0 <=? 31); [by destruct (_ !! _)|done]|].
    intros x Hx%index_inv. repeat zop. eapply next_ok; [|eassumption]. eapply memory_ok, mem_store8_part.
    match goal with Hw : word_ok ?w, Hx : ?w !! _ = Some x |- _ => by eapply Forall_lookup_1; [apply Hw|] end.
  - eapply next_ok; [|eassumption]. eapply memory_ok, mem_copy_part.
Qed.

(** ** Storage, accounts *)

Ltac static_case := match goal with Hi : Inv b _ ?s, Hs : is_static (ctx ?s) = false |- _ => exact (not_static _ _ Hi Hs) end.

Lemma mod_host_next (f : H -> H) g s : Inv b g s -> is_static (ctx b) = false -> (z_ok (f (host s)) /\ z_rel (host s) (f (host s))) ->
  wp (next (mod_host f)) (flow_post b g) (Inv b g) s.
Proof.
  intros Hi Hst Hf. apply zwp_bind. eapply zwp_mod_host; [exact Hi|done|done|]. intros s' Hi' _. by apply zwp_ret.
Qed.

Lemma exec_storage_ok op : table_ok (exec_storage op).
Proof.
  intros m Hm. destruct op; try discriminate; injection Hm as <-; intros g s Hi; repeat zop; try zdone; try done.
  all: try match goal with
    | Hi : Inv b ?g1 ?s |- word_ok (z_code_hash (host ?s) ?a) => apply (host_reads _ _ a [] 0 Hi)
    | Hi : Inv b ?g1 ?s |- word_ok (z_storage_load (host ?s) ?a ?k) => apply (host_reads _ _ a k 0 Hi)
    | Hi : Inv b ?g1 ?s |- word_ok (z_transient_load (host ?s) ?a ?k) => apply (host_reads _ _ a k 0 Hi)
    end.
  - eapply (wp_copy_padded oof b); [|unfold in_range in *; lia..|].
    + match goal with Hi : Inv b ?g1 ?s |- code_ok (z_code (host ?s) ?a) => apply (host_reads _ _ a [] 0 Hi) end.
    + intros d [Hd _]. eapply next_ok; [|eassumption]. by eapply memory_ok, write_slice_part.
  - eapply mod_host_next; [eassumption|static_case|]. apply z_step_store; [by eapply i_host|done].
  - eapply mod_host_next; [eassumption|static_case|]. apply z_step_transient; [by eapply i_host|done].
  - eapply zwp_mod_host; [eassumption|static_case|apply z_step_destruct; by eapply i_host|]. intros s2 Hi2 _. zdone.
Qed.

(** ** Control flow, logs, native opcodes *)

Lemma jump_to_ok dest : 0 <= dest -> op_ok b (jump_to dest).
Proof. intros Hd g s Hi. unfold jump_to. repeat zop. apply wp_put, zwp_ret. split; [by apply zInv_set_pc|done]. Qed.
Lemma return_with_ok st : op_ok b (return_with st).
Proof.
  intros g s Hi. unfold return_with. repeat zop. apply zwp_modify. eapply stop_with_ok. by apply zInv_set_return.
Qed.
Lemma exec_flow_ok op : table_ok (exec_flow op).
Proof.
  intros m Hm. destruct op; try discriminate; injection Hm as <-; try (by apply return_with_ok || apply stop_with_ok);
    intros g s Hi; repeat zop; try zdone.
  - eapply jump_to_ok; [|eassumption]. unfold in_range in *. lia.
  - apply zwp_if; intros _; [zop; zdone|]. eapply jump_to_ok; [|eassumption]. unfold in_range in *. lia.
Qed.

Lemma zwp_pop_topics n : forall g s (Q : list word -> St -> Prop), Inv b g s ->
  (forall ws s', Forall word_ok ws -> Inv b g s' -> Q ws s') -> wp (pop_topics n) Q (Inv b g) s.
Proof.
  induction n as [|n IH]; intros g s Q Hi Hq; [by apply zwp_ret, Hq|]. cbn [pop_topics]. zop. zop. zop.
  eapply IH; [eassumption|]. intros ws s1 Hws Hi1. apply zwp_ret, Hq; [by constructor|done].
Qed.
Lemma log_op_ok n : op_ok b (log_op n).
Proof.
  intros g s Hi. unfold log_op. do 2 zop. cbv zeta. do 10 zop. zop. eapply zwp_pop_topics; [eassumption|].
  intros ws s1 Hws Hi1. do 2 zop. zop. apply zwp_modify. pose proof (ctx_reads _ _ Hi) as (_ & (_ & Hc & _) & _).
  eapply mod_host_next; [|static_case|].
  - apply zInv_set_logs; [eassumption| |intros; exfalso; pose proof (not_static _ _ Hi ltac:(eassumption)); congruence].
    apply Forall_app_2; [by eapply i_logs|]. by apply Forall_singleton.
  - cbn [host set_logs]. apply z_step_log. by eapply i_host.
Qed.

Lemma default_addr (o : option Address) d : (forall a, o = Some a -> addr_ok a) -> addr_ok d -> addr_ok (default d o).
Proof. intros Ho Hd. destruct o; [by apply Ho|done]. Qed.
Lemma exec_native_ok op : table_ok (exec_native op).
Proof.
  intros m Hm. destruct op; try discriminate; injection Hm as <-; try apply log_op_ok; intros g s Hi; repeat zop; try zdone.
  - apply default_addr; [|split; [done|by repeat constructor]]. intros ?. apply z_resolve_ok. by eapply i_host.
  - pose proof (ctx_reads _ _ Hi) as (_ & (Hc & _) & Ha). by apply default_addr.
  - apply zwp_bind. eapply wp_host; [eassumption|static_case|apply z_step_burn; [by eapply i_host|unfold in_range in *; lia]|done|].
    intros [] s1 Hi1 _. zop. zdone.
  - apply zwp_modify, zwp_bind, zwp_modify. zop.
    match goal with Hi : Inv b g ?s |- flow_post _ _ _ (set_logs _ _ _ (set_host _ ?s)) => rename Hi into Hlast end. split; [|done].
    apply zInv_set_logs; [|exact (i_logs _ _ _ Hlast)|intros Hst; by apply (i_static _ _ _ Hlast)].
    apply zInv_set_host; [done|apply z_step_zvm_log; by eapply i_host|intros _; apply z_log_world].
Qed.
End groups.
