(* ===== verification/ZvmRun.v ===== *)
(** * Running a ZVM frame

    The CALL and CREATE families, one step and the loop preserve the frame's
    invariant.  Every opcode that does not end its frame costs gas and a
    sub-frame gets at most 63/64 of what is left, so the gas limit bounds the
    fuel of an execution, sub-frames included. *)

From Stdlib Require Import ZArith Lia String.
From stdpp Require Import base tactics list gmap sets numbers option.
From S2P Require Import Prelude Bytes U256 U256Ops EvmMachine EvmHost NativeReads EvmPrecompiles ZvmMachine ZvmHost ZvmInterp ZvmLogic.

Local Open Scope Z_scope.

Section calls.
Context {H : Type} `{ZvmHostLaws H} `{PrimitivesLaws} (oof : Prop).
Abbreviation St := (ZvmInterpreter H).
Abbreviation FM := (M St ZStop).
Abbreviation wp := (wp oof).
Abbreviation op_ok := (op_ok oof).

(** A frame about to run, and how it ends. *)
Definition start_ok (s : St) : Prop := ctx_ok (ctx s) /\ Inv s (gas s) s.
Definition frame_done (s : St) (r : ZvmResult) (s' : St) : Prop := Inv s (gas s) s' /\ exists st, r = finish st s'.

Context (b : St) (Hb : ctx_ok (ctx b)) (sub : FM ZvmResult) (G : Z).
Context (Hsub : forall s, start_ok s -> gas s <= G -> wp sub (frame_done s) (fun _ => False) s).
Abbreviation Exit := (Inv b G).

Lemma exit_of g s : g <= G -> G < 2 ^ 64 -> Inv b g s -> Exit s.
Proof. intros ? ? Hi. by eapply zInv_gas. Qed.

(** ** Precompiles *)

Lemma call_failed_ok : unit_ok oof b call_failed.
Proof.
  intros g s Hi. apply zwp_bind, zwp_modify. eapply stack_ok; [apply push_u64_part|]. apply zInv_set_return; [done|].
  split; [constructor|done].
Qed.

Lemma precompile_zpre g s target ts d n : Inv b g s -> code_ok d ->
  zpre_ok n (precompile_with_host (host s) target ts d n).
Proof.
  intros Hi Hd. pose proof (i_host _ _ _ Hi) as Hh. unfold precompile_with_host. cbv zeta.
  repeat match goal with |- zpre_ok _ (if ?c then _ else _) => destruct c end.
  - apply payid_zpre; [done|intros ? ?; by apply z_resolve_bytes_ok|intros ? ?; by apply z_reverse_ok].
  - apply oracle_zpre. intros a k. apply (z_reads _ a k 0 Hh).
  - apply vault_zpre. intros a k. apply (z_reads _ a k 0 Hh).
  - by apply call_precompile_zpre.
Qed.

Lemma do_precompile_ok target d gas_req off len : code_ok d -> 0 <= gas_req ->
  unit_ok oof b (do_precompile_call target d gas_req off len).
Proof.
  intros Hd Hg g s Hi. unfold do_precompile_call. apply zwp_bind, zwp_get. cbv zeta. destruct (i_gas _ _ _ Hi) as [Hgas Hlt].
  pose proof (precompile_zpre g s target (block_timestamp (ctx s)) d (Z.min gas_req (gas s)) Hi Hd) as Hp.
  destruct (precompile_with_host _ _ _ _ _) as [[out used]|e|]; [|by apply call_failed_ok|done].
  destruct Hp as [Hout Hused]. unfold precompile_result. apply zwp_bind, zwp_modify.
  assert (Hi1 : Inv b g (set_gas (sat 64 (gas s - used)) s)) by (eapply zInv_set_gas; [done|unfold sat; lia|done]).
  apply zwp_bind. eapply wp_copy_out; [exact Hi1|apply Hout|done|]. intros s2 Hi2.
  apply zwp_bind, zwp_modify. eapply stack_ok; [apply push_u64_part|]. by apply zInv_set_return.
Qed.

(** ** Sub-frames *)

Lemma zsub_context_ok g s code d (from to : Address) v f st : Inv b g s -> code_ok code -> code_ok d -> addr_ok from -> addr_ok to ->
  in_range 64 f -> ctx_ok (sub_context (ctx s) code d from to v f st).
Proof. intros Hi Hc Hd Hf Ht Hg. destruct (ctx_reads b Hb _ _ Hi) as (_ & (_ & _ & Ho) & _). by split_and!. Qed.

Lemma zwp_run_sub g s c f (Q : ZvmResult -> St -> Prop) (E : St -> Prop) : Inv b g s -> ctx_ok c -> gas_limit c = f ->
  0 <= f <= G -> G < 2 ^ 64 -> (is_static (ctx b) = true -> is_static c = true) ->
  (forall r s', Inv b g s' -> gas s' = gas s -> 0 <= gas_remaining r <= f -> code_ok (r_return_data r) -> Q r s') ->
  wp (run_sub sub c f) Q E s.
Proof.
  intros Hi Hc Hf HfG HG Hst Hq. set (s1 := sub_frame s c f).
  assert (Hs1 : start_ok s1).
  { split; [done|]. destruct (i_gas _ _ _ Hi). constructor; try done; simpl; try lia; try (split; [by constructor|done]); try constructor.
    by eapply i_host. }
  specialize (Hsub s1 Hs1 ltac:(simpl; lia)). unfold ZvmLogic.wp, run_sub in *. fold s1.
  destruct (sub s1) as [[r|[e|]|] s2]; [|done|done|done]. destruct Hsub as [Hi2 [st ->]].
  destruct (i_gas _ _ _ Hi2) as [Hg2 _]. apply Hq; [|done|exact Hg2|by apply (i_return _ _ _ Hi2)].
  apply Inv_set_accessed, zInv_set_host; [done|split; [by eapply i_host|exact (i_rel _ _ _ Hi2)]|].
  intros Hbs. by apply (i_static _ _ _ Hi2), Hst.
Qed.

Lemma sub_range x y : 0 <= x -> 0 <= y <= x -> sat 64 (x - y) <= x - y /\ 0 <= sat 64 (x - y).
Proof. unfold sat. lia. Qed.

(** Giving gas to a sub-frame and taking the rest back. *)
Lemma Inv_forward g s f : Inv b g s -> 0 <= f <= gas s -> Inv b (gas s - f) (set_gas (sat 64 (gas s - f)) s).
Proof. intros Hi Hf. destruct (i_gas _ _ _ Hi). eapply zInv_set_gas; [done|unfold sat; lia|lia]. Qed.
Lemma forwarded_range g s req : Inv b g s -> 0 <= req -> 0 <= Z.min req (gas s / 64 * 63) <= gas s.
Proof.
  intros Hi Hr. destruct (i_gas _ _ _ Hi). pose proof (Z.div_pos (gas s) 64). pose proof (Z.mul_div_le (gas s) 64). lia.
Qed.

(** ** The CALL family *)

Section call.
Context (HG : G < 2 ^ 64).

Lemma zcall_target_ok kind gas_req (target : Address) v off len d g s : Inv b g s -> g <= G ->
  0 <= gas_req -> addr_ok target -> code_ok d -> 0 <= v -> (is_static (ctx b) = true -> kind = Call -> v <= 0) ->
  wp (call_target sub kind gas_req target v off len d) (fun _ => Exit) Exit s.
Proof.
  intros Hi Hg Hreq Ht Hd Hv Hval. unfold call_target. apply zwp_bind, zwp_get. cbv zeta.
  destruct (host_reads b _ _ target [] 0 Hi) as ((_ & _ & Hcode & _) & _).
  destruct (ctx_reads b Hb _ _ Hi) as (_ & (Hcal & Hcon & _) & _).
  destruct (match kind with DelegateCall => _ | _ => _ end) as [from to] eqn:Hft.
  assert (Hfrom : addr_ok from /\ addr_ok to) by (destruct kind; injection Hft as <- <-; done).
  apply zwp_if; intros Hlow.
  { eapply zwp_mono; [by eapply call_failed_ok|intros []|]; intros s'; by apply exit_of. }
  apply zwp_bind. eapply (zwp_mono _ _ (fun _ => Inv b g) _ (Inv b g)).
  { apply zwp_if; intros Hsend; [|by apply zwp_ret]. apply andb_true_iff in Hsend as [Hk%bool_decide_eq_true Hpos%Z.ltb_lt].
    eapply wp_host; [exact Hi| |apply z_step_transfer; [by eapply i_host|done]|done|by intros].
    destruct (is_static (ctx b)); [|done]. specialize (Hval eq_refl Hk). lia. }
  2: { intros s'. by apply exit_of. }
  intros [] s1 Hi1. apply zwp_bind, zwp_get. pose proof (forwarded_range g s1 gas_req Hi1 Hreq) as Hf.
  set (f := Z.min _ _) in *. destruct (i_gas _ _ _ Hi1) as [Hg1 _]. apply zwp_bind, wp_put. pose proof (Inv_forward g s1 f Hi1 Hf) as Hi2.
  rewrite (i_ctx _ _ _ Hi), <-(i_ctx _ _ _ Hi1) at 1.
  apply zwp_bind. eapply zwp_run_sub; [exact Hi2| |done|lia|done| |].
  { destruct Hfrom. eapply (zsub_context_ok _ s1); try done. unfold in_range. lia. }
  { intros Hst. simpl. rewrite (i_ctx _ _ _ Hi), Hst. done. }
  intros r s3 Hi3 Hg3 Hr Hret. apply zwp_bind, zwp_modify.
  assert (Hi4 : Inv b G (set_return (r_return_data r) (set_gas (sat 64 (gas s3 + gas_remaining r)) s3))).
  { apply zInv_set_return; [|done]. destruct (i_gas _ _ _ Hi3). eapply zInv_set_gas; [done|unfold sat; lia|done]. }
  apply zwp_bind. eapply wp_copy_out; [exact Hi4|apply Hret|done|]. intros s5 Hi5. eapply stack_ok; [apply push_u64_part|done].
Qed.

Lemma zdo_call_ok kind : forall g s, Inv b g s -> g <= G -> wp (do_call sub kind) (fun _ => Exit) Exit s.
Proof.
  intros g s Hi Hg. unfold do_call. eapply (zwp_mono _ _ (fun _ => Exit) _ (fun s' => exists g', g' <= G /\ Inv b g' s')); [|done|].
  2: { intros s' (g' & Hle & Hi'). by eapply exit_of. }
  assert (He : forall s', Inv b g s' -> exists g', g' <= G /\ Inv b g' s') by eauto.
  apply zwp_bind. eapply wp_stack; [exact Hi|apply pop_u64_part|done|]. intros gas_req s1 Hreq Hi1 _.
  apply zwp_bind. eapply wp_stack; [exact Hi1|apply pop_address_part|done|]. intros target s2 Ht Hi2 _.
  apply zwp_bind. apply (zwp_mono _ _ (fun v s' => 0 <= v /\ Inv b g s') _ (Inv b g)); [|..].
  { destruct kind; try (eapply wp_stack; [exact Hi2|apply pop_u128_part|done|]; intros v s3 [Hv _] Hi3 _; done); by apply zwp_ret. }
  2: { eauto. }
  intros v s3 [Hv Hi3]. apply zwp_bind, zwp_get. apply zwp_bind, zwp_fail_if; [eauto|]. intros Hguard.
  assert (Hval : is_static (ctx b) = true -> kind = Call -> v <= 0).
  { intros Hst ->. rewrite (i_ctx _ _ _ Hi3), Hst in Hguard. simpl in Hguard. by apply Z.ltb_ge. }
  apply zwp_bind. eapply wp_stack; [exact Hi3|apply pop_u64_part|done|]. intros ao s4 _ Hi4 _.
  apply zwp_bind. eapply wp_stack; [exact Hi4|apply pop_u64_part|done|]. intros al s5 _ Hi5 _.
  apply zwp_bind. eapply wp_stack; [exact Hi5|apply pop_u64_part|done|]. intros ro s6 _ Hi6 _.
  apply zwp_bind. eapply wp_stack; [exact Hi6|apply pop_u64_part|done|]. intros rl s7 _ Hi7 _.
  apply zwp_bind. eapply wp_touch_address; [exact Hi7|done|]. intros s8 Hi8 _.
  apply zwp_bind. eapply wp_charge_mem; [exact Hi8|done|]. intros s9 Hi9 _.
  apply zwp_bind. eapply wp_charge_mem; [exact Hi9|done|]. intros s10 Hi10 _.
  assert (Hfail : forall s', Inv b g s' -> wp call_failed (fun _ => Exit) (fun s' => exists g', g' <= G /\ Inv b g' s') s').
  { intros s' Hi'. eapply zwp_mono; [by eapply call_failed_ok|intros [] s'' Hi''; by eapply exit_of|done]. }
  apply zwp_bind, zwp_get. apply zwp_if; intros _; [by apply Hfail|].
  apply zwp_bind. eapply wp_memory; [exact Hi10|apply read_slice_part|done|]. intros d s11 Hd Hi11 _.
  apply zwp_if; intros _.
  { eapply zwp_mono; [eapply do_precompile_ok; [exact Hd|apply Hreq|exact Hi11]|intros [] s'' Hi''; by eapply exit_of|done]. }
  apply zwp_bind, zwp_get. apply zwp_if; intros _; [by apply Hfail|].
  eapply zwp_mono; [eapply zcall_target_ok; [exact Hi11|exact Hg|apply Hreq|exact Ht|exact Hd|exact Hv|exact Hval]|done|].
  intros s' Hi'. by exists G.
Qed.

(** ** Creation *)

Lemma zpush_zero_ok : unit_ok oof b push_zero.
Proof. eapply stack_ok, push_part, zero_word_ok. Qed.
Lemma set_return_zero_ok d : code_ok d -> unit_ok oof b (_ ← modify (set_return d); push_zero).
Proof. intros Hd g s Hi. apply zwp_bind, zwp_modify, zpush_zero_ok. by apply zInv_set_return. Qed.
Lemma nil_code : code_ok [].
Proof. by split; [constructor|]. Qed.

Lemma unit_exit (m : FM unit) g s : unit_ok oof b m -> Inv b g s -> g <= G -> wp m (fun _ => Exit) Exit s.
Proof. intros Hm Hi Hg. eapply zwp_mono; [by eapply Hm|intros []|]; intros s'; by apply exit_of. Qed.

Lemma deploy_code_ok (a : Address) d : is_static (ctx b) = false -> addr_ok a -> code_ok d -> unit_ok oof b (deploy_code a d).
Proof.
  intros Hst Ha Hd g s Hi. unfold deploy_code. apply zwp_if; intros _; [by apply zpush_zero_ok|].
  apply zwp_if; intros _; [by apply zpush_zero_ok|]. cbv zeta. apply zwp_bind, zwp_get. apply zwp_if; intros Hgas; [by apply zpush_zero_ok|].
  bool_to_prop. destruct (i_gas _ _ _ Hi). pose proof (proj1 (wrap_range 64 (200 * zlen d) ltac:(lia))).
  apply zwp_bind, wp_put. assert (Hi1 : Inv b g (set_gas (gas s - u64 (200 * zlen d)) s)) by (eapply zInv_set_gas; [done|lia|done]).
  apply zwp_bind. eapply zwp_mod_host; [exact Hi1|done|apply z_step_code; [by eapply i_host|done]|]. intros s2 Hi2 _.
  apply zwp_bind. eapply zwp_mod_host; [exact Hi2|done|apply z_step_mark; by eapply i_host|]. intros s3 Hi3 _.
  apply zwp_bind, zwp_modify. eapply stack_ok; [by apply push_part, addr_word_ok|]. apply zInv_set_return; [done|apply nil_code].
Qed.

Lemma zcreate_at_ok (a : Address) v d g s : Inv b g s -> g <= G -> is_static (ctx b) = false -> addr_ok a -> 0 <= v -> code_ok d ->
  wp (create_at sub a v d) (fun _ => Exit) Exit s.
Proof.
  intros Hi Hg Hst Ha Hv Hd. unfold create_at. apply zwp_bind, zwp_get. cbv zeta.
  destruct (ctx_reads b Hb _ _ Hi) as (_ & (_ & Hcon & _) & _).
  apply zwp_bind. eapply zwp_mod_host; [exact Hi|done|apply z_step_inc; by eapply i_host|]. intros s1 Hi1 _.
  apply zwp_bind, zwp_get. apply zwp_if; intros _; [by eapply unit_exit; [apply zpush_zero_ok|..]|].
  apply zwp_bind. eapply (zwp_mono _ _ (fun _ => Inv b g) _ (Inv b g)).
  { apply zwp_if; intros _; [|by apply zwp_ret].
    eapply wp_host; [exact Hi1|done|apply z_step_transfer; [by eapply i_host|done]|done|by intros]. }
  2: { intros s'. by apply exit_of. }
  intros [] s2 Hi2. apply zwp_bind. eapply zwp_mod_host; [exact Hi2|done|apply z_step_inc; by eapply i_host|]. intros s3 Hi3 _.
  apply zwp_bind, zwp_get. destruct (i_gas _ _ _ Hi3) as [Hg3 _].
  pose proof (Z.div_pos (gas s3) 64). pose proof (Z.mul_div_le (gas s3) 64). set (f := gas s3 / 64 * 63) in *.
  assert (Hf : 0 <= f <= gas s3) by (unfold f; lia).
  apply zwp_bind, wp_put. pose proof (Inv_forward g s3 f Hi3 Hf) as Hi4. apply zwp_bind.
  rewrite (i_ctx _ _ _ Hi), <-(i_ctx _ _ _ Hi3) at 1.
  eapply zwp_run_sub; [exact Hi4| |done|lia|done|congruence|].
  { eapply (zsub_context_ok _ s3); try done; first [apply nil_code|unfold in_range; lia]. }
  intros r s5 Hi5 Hg5 Hr Hret. apply zwp_bind, zwp_modify.
  assert (Hi6 : Inv b G (set_gas (sat 64 (gas s5 + gas_remaining r)) s5)).
  { destruct (i_gas _ _ _ Hi5). eapply zInv_set_gas; [done|unfold sat; lia|done]. }
  apply zwp_if; intros _; [by apply set_return_zero_ok|by apply deploy_code_ok].
Qed.

Lemma keccak_addr_ok d : addr_ok (drop 12 (keccak256 d)).
Proof. destruct (keccak_ok d) as [Hl Hd]. split; [by rewrite length_drop, Hl|by apply Forall_drop]. Qed.

Lemma zdo_create_ok with_salt g s : Inv b g s -> g <= G -> wp (do_create sub with_salt) (fun _ => Exit) Exit s.
Proof.
  intros Hi Hg. assert (He : forall s', Inv b g s' -> Exit s') by (intros s'; by apply exit_of).
  unfold do_create. apply zwp_bind, zwp_get. cbv zeta. apply zwp_bind, zwp_fail_if; [eauto|]. intros Hst.
  assert (Hbst : is_static (ctx b) = false) by (by rewrite <-(i_ctx _ _ _ Hi)).
  apply zwp_bind. eapply wp_stack; [exact Hi|apply pop_u128_part|done|]. intros v s1 [Hv _] Hi1 _.
  apply zwp_bind. eapply wp_stack; [exact Hi1|apply pop_u64_part|done|]. intros off s2 _ Hi2 _.
  apply zwp_bind. eapply wp_stack; [exact Hi2|apply pop_u64_part|done|]. intros len s3 _ Hi3 _.
  apply zwp_bind, (zwp_mono _ _ (fun _ => Inv b g) _ (Inv b g)); [|intros salt s4 Hi4|done].
  { apply zwp_if; intros _; [|by apply zwp_ret]. apply zwp_bind. eapply wp_stack; [exact Hi3|apply pop_part|done|].
    intros w s4 _ Hi4 _. by apply zwp_ret. }
  apply zwp_if; intros _; [by eapply unit_exit; [apply set_return_zero_ok, nil_code|..]|].
  apply zwp_bind. eapply wp_charge; [exact Hi4|by apply sat_nonneg|done|]. intros s5 Hi5 _.
  apply zwp_bind, (zwp_mono _ _ (fun _ => Inv b g) _ (Inv b g)); [|intros [] s6 Hi6|done].
  { apply zwp_if; intros _; [|by apply zwp_ret]. eapply wp_charge; [exact Hi5|by apply sat_nonneg|done|done]. }
  apply zwp_bind. eapply wp_charge_mem; [exact Hi6|done|]. intros s7 Hi7 _.
  apply zwp_bind, zwp_get. apply zwp_if; intros _; [by eapply unit_exit; [apply set_return_zero_ok, nil_code|..]|].
  apply zwp_if; intros _; [by eapply unit_exit; [apply zpush_zero_ok|..]|].
  apply zwp_bind. eapply wp_memory; [exact Hi7|apply read_slice_part|done|]. intros d s8 Hd Hi8 _.
  apply zwp_bind, zwp_get. eapply zcreate_at_ok; [done..| |done|done].
  destruct salt; apply keccak_addr_ok.
Qed.
End call.
End calls.

(** ** One step *)

Lemma default_union_l {A} (d m : A) t : default d (Some m ∪ t) = m.
Proof. by destruct t. Qed.
Lemma default_union_r {A} (d : A) t : default d (None ∪ t) = default d t.
Proof. by destruct t. Qed.

Section step.
Context {H : Type} `{ZvmHostLaws H} `{PrimitivesLaws} (oof : Prop).
Abbreviation St := (ZvmInterpreter H).
Abbreviation FM := (M St ZStop).
Abbreviation wp := (wp oof).
Abbreviation op_ok := (op_ok oof).

Context (b : St) (Hb : ctx_ok (ctx b)) (sub : FM ZvmResult).

Definition ended (g : Z) (r : flow) (s : St) : Prop := Inv b g s /\ exists st, r = Return (Some (finish st s)).

Lemma stop_ended g s st : Inv b g s -> wp (stop_with st) (ended g) (Inv b g) s.
Proof. intros Hi. apply zwp_bind, zwp_get, zwp_ret. split; [done|]. by exists st. Qed.
Lemma return_ended g s st : Inv b g s -> wp (return_with st) (ended g) (Inv b g) s.
Proof.
  intros Hi. unfold return_with. repeat zop. apply zwp_modify. apply stop_ended. by apply zInv_set_return.
Qed.

(** The opcodes that cost nothing end the frame. *)
Lemma free_opcode op : 1 <= opcode_gas op \/ (opcode_gas op = 0 /\ exists m, dispatch sub op = m /\
  forall g s, Inv b g s -> wp m (ended g) (Inv b g) s).
Proof.
  destruct op; try (left; by vm_compute); right; (split; [done|]); eexists; (split; [reflexivity|]); intros g s Hi;
    first [by apply stop_ended|by apply return_ended].
Qed.

Lemma zdispatch_ok op g s : Inv b g s -> (forall s1, start_ok s1 -> gas s1 <= g -> wp sub (frame_done s1) (fun _ => False) s1) ->
  wp (dispatch sub op) (flow_post b g) (Inv b g) s.
Proof.
  intros Hi Hsub. destruct (i_gas _ _ _ Hi) as [_ Hg]. unfold dispatch.
  assert (Hun : forall t1 t2 : option (FM flow), table_ok oof b t1 -> table_ok oof b t2 -> table_ok oof b (t1 ∪ t2)).
  { intros t1 t2 Ht1 Ht2 m Hm. destruct t1; [apply Ht1|apply Ht2]; by destruct t2. }
  set (t := _ ∪ exec_native op). assert (Ht : table_ok oof b t).
  { unfold t. repeat apply Hun; first [by apply exec_stack_ok|by apply exec_data_ok|by apply exec_env_ok|by apply exec_memory_ok
      |by apply exec_storage_ok|by apply exec_flow_ok|by apply exec_native_ok]. }
  clearbody t. destruct t as [m|]; [rewrite default_union_l; by apply (Ht m)|].
  rewrite default_union_r. destruct (exec_call sub op) as [m|] eqn:Hc; [|by apply stop_with_ok].
  cbn [default from_option]. assert (Hnext : forall m', wp m' (fun _ => Inv b g) (Inv b g) s -> wp (next m') (flow_post b g) (Inv b g) s).
  { intros m' Hm. apply zwp_bind. eapply zwp_mono; [exact Hm|intros [] s' Hi'; by apply zwp_ret|done]. }
  destruct op; try discriminate; injection Hc as <-; apply Hnext;
    first [by eapply zdo_call_ok|by eapply zdo_create_ok].
Qed.

Definition step_post (g : Z) (r : option ZvmResult) (s : St) : Prop :=
  match r with Some res => Inv b g s /\ exists st, res = finish st s | None => Inv b (g - 1) s end.

Lemma opcode_gas_nonneg op : 0 <= opcode_gas op.
Proof. destruct op; by vm_compute. Qed.

Lemma zstep_ok g s : Inv b g s -> (forall s1, start_ok s1 -> gas s1 <= g - 1 -> wp sub (frame_done s1) (fun _ => False) s1) ->
  wp (step sub) (step_post g) (fun _ => False) s.
Proof.
  intros Hi Hsub. unfold step. apply zwp_bind, zwp_get. destruct (i_gas _ _ _ Hi) as [Hgas Hg].
  apply zwp_if; intros Hpc; [apply zwp_ret; split; [done|by eexists]|]. apply zwp_bind, zwp_lift.
  { intros e. unfold index, unwrap. destruct (0 <=? _); [|done]. by destruct (_ !! _). }
  intros byte _. destruct (Opcode.from_u8 byte) as [op|]; [|apply zwp_ret; split; [done|by eexists]].
  cbv zeta. apply zwp_if; intros Hcost; [apply zwp_ret; split; [done|by eexists]|]. bool_to_prop. apply zwp_bind, wp_put.
  pose proof (opcode_gas_nonneg op). unfold ZvmLogic.wp, end_op. destruct (free_opcode op) as [Hpos|(Hz & m & -> & Hm)].
  - assert (Hi1 : Inv b (g - 1) (set_gas (gas s - opcode_gas op) s)) by (eapply zInv_set_gas; [done|lia|lia]).
    pose proof (zdispatch_ok op _ _ Hi1 Hsub) as Hd. unfold ZvmLogic.wp in Hd.
    destruct (dispatch sub op _) as [[[|[r|]]|[e|]|] s2]; try done.
    + destruct Hd as [Hi2 _]. apply zInv_set_pc; [done|]. pose proof (i_pc _ _ _ Hi2). lia.
    + destruct Hd as [Hi2 Hr]. split; [eapply zInv_gas; [done|lia|lia]|done].
    + apply Hd.
    + split; [eapply zInv_gas; [done|lia|lia]|by eexists].
  - assert (Hi1 : Inv b g (set_gas (gas s - opcode_gas op) s)) by (eapply zInv_set_gas; [done|lia|lia]).
    pose proof (Hm _ _ Hi1) as Hd. unfold ZvmLogic.wp in Hd. destruct (m _) as [[r|[e|]|] s2]; try done.
    + destruct Hd as [Hi2 [st ->]]. split; [done|by exists st].
    + split; [done|by eexists].
Qed.
End step.

(** ** The loop *)

Section loop.
Context {H : Type} `{ZvmHostLaws H} `{PrimitivesLaws}.
Abbreviation St := (ZvmInterpreter H).
Abbreviation FM := (M St ZStop).

Lemma Inv_build b g s : Inv b g s -> Inv b g (build_bitmap s).
Proof. intros Hi. unfold build_bitmap. case_bool_decide; [done|]. by apply Inv_set_jumpdests. Qed.
Lemma Inv_base b b' g s : ctx b' = ctx b -> depth b' = depth b -> host b' = host b -> logs b' = logs b ->
  Inv b g s -> Inv b' g s.
Proof. intros Hc Hd Hh Hl []. constructor; rewrite ?Hc, ?Hd, ?Hh, ?Hl; done. Qed.

Lemma run_loop_ok oof fuel : forall b g s, ctx_ok (ctx b) -> Inv b g s -> (oof \/ g < Z.of_nat fuel) ->
  wp oof (run_loop fuel) (fun r s' => Inv b g s' /\ exists st, r = finish st s') (fun _ => False) s.
Proof.
  induction fuel as [|fuel IH]; intros b g s Hb Hi Hfuel.
  { destruct Hfuel as [Ho|Hf]; [exact Ho|]. destruct (i_gas _ _ _ Hi). lia. }
  cbn [run_loop]. apply zwp_bind. destruct (i_gas _ _ _ Hi) as [Hgas Hg].
  eapply zwp_mono; [eapply (zstep_ok oof b Hb _ g s Hi)| |done].
  - intros s1 [Hc1 Hi1] Hle. pose proof (IH s1 (gas s1) (build_bitmap s1) Hc1 (Inv_build _ _ _ Hi1)) as Hr.
    unfold wp in *. apply Hr. destruct Hfuel; [by left|right; lia].
  - intros [r|] s1 Hs1; [exact Hs1|]. simpl in Hs1. eapply zwp_mono; [apply (IH b (g - 1) s1 Hb Hs1)| |done].
    + destruct Hfuel; [by left|right; lia].
    + intros r s2 [Hi2 Hr]. split; [|done]. eapply zInv_gas; [done|lia|lia].
Qed.

(** ** More fuel does not change an outcome *)

Definition extends {A} (m m' : FM A) : Prop := forall s, fst (m s) = Err OutOfFuel \/ m' s = m s.

Lemma zextends_refl {A} (m : FM A) : extends m m.
Proof. by right. Qed.
Lemma zextends_bind {A B} (m m' : FM A) (k k' : A -> FM B) :
  extends m m' -> (forall a, extends (k a) (k' a)) -> extends (m ≫= k) (m' ≫= k').
Proof.
  intros Hm Hk s. unfold mbind, M_bind. destruct (Hm s) as [Ho| ->].
  - left. destruct (m s) as [[a|e|] s1]; simpl in *; congruence.
  - destruct (m s) as [[a|e|] s1]; [apply Hk|by right..].
Qed.
Lemma zextends_run_sub sub sub' c f : extends sub sub' -> extends (run_sub sub c f) (run_sub sub' c f).
Proof.
  intros Hs s. unfold run_sub. destruct (Hs (sub_frame s c f)) as [Ho| ->]; [left|by right].
  destruct (sub _) as [[a|e|] s2]; simpl in *; congruence.
Qed.

(** Only [run_sub] looks at the sub-interpreter. *)
Ltac extend := repeat match goal with
  | |- extends (run_sub _ _ _) _ => by apply zextends_run_sub
  | |- extends ?m ?m => apply zextends_refl
  | |- extends (_ ≫= _) (_ ≫= _) => apply zextends_bind; [|intros]
  | |- extends (if ?c then _ else _) _ => destruct c
  | |- extends (match ?x with _ => _ end) _ => destruct x
  end.

Lemma zextends_do_call sub sub' k : extends sub sub' -> extends (do_call sub k) (do_call sub' k).
Proof. intros Hs. unfold do_call. extend; unfold call_target; extend. Qed.
Lemma zextends_do_create sub sub' salt : extends sub sub' -> extends (do_create sub salt) (do_create sub' salt).
Proof. intros Hs. unfold do_create. extend; unfold create_at; extend. Qed.

Lemma zextends_dispatch sub sub' op : extends sub sub' -> extends (dispatch sub op) (dispatch sub' op).
Proof.
  intros Hs. unfold dispatch. generalize (exec_stack op ∪ exec_data op ∪ exec_env op ∪ exec_memory op ∪ exec_storage op ∪ exec_flow op ∪ exec_native op).
  intros [m|]; [rewrite !default_union_l; apply zextends_refl|]. rewrite !default_union_r.
  destruct op; try (apply zextends_refl); cbn [exec_call default from_option]; (apply zextends_bind; [|intros; apply zextends_refl]);
    first [by apply zextends_do_call|by apply zextends_do_create].
Qed.

Lemma zextends_step sub sub' : extends sub sub' -> extends (step sub) (step sub').
Proof.
  intros Hs. unfold step. extend. intros s. unfold end_op.
  match goal with |- context [dispatch sub ?op] => destruct (zextends_dispatch sub sub' op Hs s) as [Ho| ->]; [left|by right];
    destruct (dispatch sub op s) as [[?|?|] ?] end; simpl in *; try congruence. by injection Ho as ->.
Qed.

Lemma zrun_more fuel : forall fuel', (fuel <= fuel')%nat -> extends (run_loop fuel) (run_loop fuel').
Proof.
  induction fuel as [|fuel IH]; intros fuel' Hle s; [by left|]. destruct fuel' as [|fuel']; [lia|].
  pose proof (IH fuel' ltac:(lia)) as Hext. cbn [run_loop]. revert s. apply zextends_bind.
  - apply zextends_step. intros s. apply Hext.
  - intros [r|]; [apply zextends_refl|exact Hext].
Qed.
End loop.

(** ** Executions *)

Section execute.
Context {H : Type} `{ZvmHostLaws H} `{PrimitivesLaws}.
Abbreviation St := (ZvmInterpreter H).

(** What [execute] is given. *)
Definition input_ok (c : ZvmContext) (h : H) : Prop := ctx_ok c /\ z_ok h.

Lemma zinterp_new_ok c h : input_ok c h -> Inv (interp_new c h) (gas_limit c) (interp_new c h).
Proof.
  intros [((_ & _ & Hg) & _) Hh]. unfold in_range in Hg. constructor; try done; simpl; try lia; try (split; [by constructor|done]).
Qed.

(** A run of the interpreter, from a context and a host. *)
Lemma run_new_ok oof fuel c h : input_ok c h -> (oof \/ gas_limit c < Z.of_nat fuel) ->
  wp oof (run fuel) (fun r s' => Inv (interp_new c h) (gas_limit c) s' /\ exists st, r = finish st s') (fun _ => False) (interp_new c h).
Proof.
  intros Hin Hfuel. pose proof (zinterp_new_ok c h Hin) as Hi.
  exact (run_loop_ok oof fuel (interp_new c h) (gas_limit c) (build_bitmap (interp_new c h)) (proj1 Hin) (Inv_build _ _ _ Hi) Hfuel).
Qed.

(** What holds of a finished frame's result and host. *)
Definition result_ok (c : ZvmContext) (h : H) (r : ZvmResult) (h' : H) : Prop :=
  0 <= gas_remaining r <= gas_limit c /\ gas_used r = gas_limit c - gas_remaining r /\
  code_ok (r_return_data r) /\ Forall log_ok (r_logs r) /\ z_ok h' /\ z_rel h h' /\
  (is_static c = true -> z_world h' = z_world h /\ r_logs r = []).

Lemma run_result oof fuel c h : input_ok c h -> (oof \/ gas_limit c < Z.of_nat fuel) ->
  match run fuel (interp_new c h) with
  | (Ok r, s) => result_ok c h r (host s)
  | (Err e, _) => e = OutOfFuel /\ oof
  | (Panic, _) => True
  end.
Proof.
  intros Hin Hfuel. pose proof (run_new_ok oof fuel c h Hin Hfuel) as Hr. unfold wp in Hr.
  destruct (run fuel (interp_new c h)) as [[r|[e|]|] s]; try done. destruct Hr as [Hi [st ->]].
  destruct (i_gas _ _ _ Hi) as [Hg Hlt]. unfold result_ok, finish. cbn [gas_remaining gas_used r_return_data r_logs].
  rewrite (i_ctx _ _ _ Hi). change (ctx (interp_new c h)) with c. split_and!; try lia; try apply Hi.
  unfold sat. lia.
Qed.

Lemma zprecompile_result_ok c h : input_ok c h ->
  match precompile_outcome c (precompile_with_host h (contract c) (block_timestamp c) (calldata c) (gas_limit c)) (interp_new c h) with
  | (Ok r, s) => result_ok c h r (host s)
  | (Err e, _) => False
  | (Panic, _) => False
  end.
Proof.
  intros Hin. pose proof Hin as [((_ & Hd & Hg) & _) Hh]. unfold in_range in Hg.
  pose proof (precompile_zpre (interp_new c h) (gas_limit c) (interp_new c h) (contract c) (block_timestamp c) (calldata c)
    (gas_limit c) (zinterp_new_ok c h Hin) Hd) as Hp.
  change (host (interp_new c h)) with h in Hp. destruct (precompile_with_host _ _ _ _ _) as [[out used]|e|]; [| |done].
  - destruct Hp as [Hout Hu]. unfold result_ok. cbn. rewrite sat_small by (unfold in_range; lia).
    split; [lia|]. split; [lia|]. split; [done|]. split; [by constructor|]. split; [done|]. split; [reflexivity|done].
  - cbn. unfold result_ok. cbn. split; [lia|]. split; [lia|]. split; [apply nil_code|]. split; [by constructor|]. split; [done|]. split; [reflexivity|done].
Qed.


(** C16. Every execution of the second virtual machine ends: its gas limit bounds the
    steps of all its frames together, and the outcome, a result or a panic, does
    not depend on the fuel above it. *)
Theorem zvm_terminates c h : input_ok c h ->
  exists r h', (r = Panic \/ exists res, r = Ok res) /\
    forall fuel, gas_limit c < Z.of_nat fuel -> execute fuel c h = (r, h').
Proof.
  intros Hin. unfold execute. destruct (is_precompile (contract c)).
  - pose proof (zprecompile_result_ok c h Hin) as Hp. destruct (precompile_outcome _ _ _) as [q s].
    exists q, (host s). split; [|done]. destruct q; [right; by eexists|done|done].
  - set (n := S (Z.to_nat (gas_limit c))). assert (Hg : 0 <= gas_limit c)
      by (destruct Hin as [((_ & _ & Hg) & _) _]; unfold in_range in Hg; lia).
    assert (Hn : gas_limit c < Z.of_nat n) by (unfold n; lia).
    assert (Hle : forall fuel, gas_limit c < Z.of_nat fuel -> (n <= fuel)%nat) by (intros fuel Hf; unfold n; lia).
    pose proof (run_result False n c h Hin (or_intror Hn)) as Hr.
    destruct (run n (interp_new c h)) as [q s] eqn:Hrun. exists q, (host s). split.
    + destruct q; [right; by eexists|by destruct Hr|by left].
    + intros fuel Hf. unfold run in *. destruct (zrun_more n fuel (Hle fuel Hf) (build_bitmap (interp_new c h))) as [Ho| ->].
      * rewrite Hrun in Ho. simpl in Ho. subst q. by destruct Hr.
      * by rewrite Hrun.
Qed.
End execute.
