(* ===== verification/ZvmExec.v ===== *)
(** * ZVM transactions (crates/zbx-execution/src/executor.rs)

    The production host over the executor's view keeps the laws of [ZvmHost]:
    its operations never increase the total of all balances.  [run_zvm] is the
    executor's branch for a ZVM target; a block whose transactions run code of
    either machine creates no money but its reward. *)

From Stdlib Require Import ZArith Lia.
From stdpp Require Import base tactics list gmap sets numbers option.
From S2P Require Import Prelude Bytes Collections U256 U256Ops Crypto Block EvmMachine EvmHost NativeReads EvmPrecompiles EvmInterp EvmMock EvmLogic EvmRun TrieNode Trie Receipt Account StateMpt MptRoot Transaction StateDB ZvmMachine ZvmHost ZvmInterp ZvmLogic ZvmRun StateView Executor BlockExec.

Set Warnings "-register-all".
Local Open Scope Z_scope.

(** ** Typed views *)

(** [view_ok] of BlockExec.v without its restriction to the first machine. *)
Record funds_ok (v : StateView) : Prop := mkFunds {
  funds_acct : forall a, acct_ok (get_account a v) /\ word_ok (Account.code_hash (get_account a v));
  funds_storage : forall a k, word_ok (StateView.get_storage a k v);
  funds_codes : forall k c, codes v !! k = Some c -> code_ok c }.

Lemma balance_u128_le st : 0 <= Account.balance st -> balance_u128 st <= Account.balance st.
Proof.
  intros Hb. unfold balance_u128, umax, wrap. destruct (Z.leb_spec (2 ^ 128) (Account.balance st)); [lia|].
  rewrite Z.mod_small by lia. lia.
Qed.

Lemma bal_nonneg a v : funds_ok v -> 0 <= bal a v.
Proof. intros Hv. apply (funds_acct v Hv a). Qed.

Lemma total_nonneg v : funds_ok v -> 0 <= total v.
Proof. intros Hv. apply msum_nonneg. intros k. rewrite <-bal_mval. by apply bal_nonneg. Qed.

Lemma guarded_hash prior st : word_ok (Account.code_hash prior) -> word_ok (Account.code_hash st) ->
  word_ok (Account.code_hash (guarded prior st)).
Proof. intros Hp Hs. unfold guarded. by repeat case_match. Qed.

Lemma set_account_funds a st v : funds_ok v -> acct_ok st -> word_ok (Account.code_hash st) ->
  funds_ok (set_account a st v) /\ total (set_account a st v) = total v - bal a v + Account.balance st.
Proof.
  intros Hv [Hn Hb] Hh. unfold in_range in *. destruct (guarded_fields (get_account a v) st) as (Gn & Gb & _). split; [split|].
  - intros b. rewrite (get_visible b), set_visible by lia. unfold at_. destruct (decide (a = b)) as [<-|Hne].
    + rewrite lookup_insert_eq. simpl. split; [|apply guarded_hash; [apply Hv|done]].
      unfold acct_ok, in_range. rewrite Gn, Gb. pose proof (proj1 (proj1 (funds_acct v Hv a))). unfold in_range in *. lia.
    + rewrite lookup_insert_ne by done. change (default _ _) with (at_ (visible v) b). rewrite <-get_visible. apply Hv.
  - intros b k. unfold StateView.get_storage. rewrite (proj1 (set_account_stores a st v)). apply (funds_storage v Hv).
  - intros k c. assert (codes (set_account a st v) = codes v) as -> by (unfold set_account; by repeat case_match). apply (funds_codes v Hv).
  - unfold total, balances. rewrite set_visible, fmap_insert, msum_insert by lia.
    fold (balances v). rewrite <-bal_mval, Gb. done.
Qed.

(** Writing back an account whose balance alone is new. *)
Lemma set_balance_funds a b v : funds_ok v -> 0 <= b ->
  let v' := set_account a (set_balance_u128 b (get_account a v)) v in funds_ok v' /\ total v' = total v - bal a v + b.
Proof. intros Hv Hb. apply set_account_funds; [done| |apply Hv]. split; [apply (funds_acct v Hv a)|done]. Qed.

Lemma seed_code_funds h c v : funds_ok v -> code_ok c -> funds_ok (StateView.seed_code h c v) /\ total (StateView.seed_code h c v) = total v.
Proof.
  intros [Ha Hs Hc] Hok. split; [|done]. split; [done|done|]. intros k d. simpl.
  intros [[_ <-]|[_ Hk]]%lookup_insert_Some; [done|by eapply Hc].
Qed.

Lemma set_storage_funds a k w v : funds_ok v -> word_ok w ->
  funds_ok (StateView.set_storage a k w v) /\ total (StateView.set_storage a k w v) = total v.
Proof.
  intros [Ha Hs Hc] Hw. split; [|done]. split; [done| |done]. intros b j. specialize (Hs b j). unfold StateView.get_storage in *. simpl.
  destruct (decide (a = b)) as [<-|Hne]; [|by rewrite lookup_insert_ne].
  rewrite lookup_insert_eq. simpl. destruct (decide (k = j)) as [<-|Hk]; [by rewrite lookup_insert_eq|].
  rewrite lookup_insert_ne by done. by destruct (diff_storage (diffs v) !! a).
Qed.

Lemma zero_h256_ok : word_ok zero_h256.
Proof. apply zero_word_ok. Qed.
Lemma empty_hash_ok : word_ok EMPTY_CODE_HASH.
Proof. apply default_account_ok. Qed.

Lemma selfdestruct_funds a v : funds_ok v -> funds_ok (selfdestruct a v) /\ total (selfdestruct a v) <= total v.
Proof.
  intros Hv. pose proof (bal_nonneg a v Hv) as Hb. split; [split|].
  - intros b. rewrite (get_visible b), selfdestruct_visible. unfold at_. destruct (decide (a = b)) as [<-|Hne].
    + rewrite lookup_delete_eq. split; [done|apply empty_hash_ok].
    + rewrite lookup_delete_ne by done. change (default _ _) with (at_ (visible v) b). rewrite <-get_visible. apply Hv.
  - intros b k. unfold StateView.get_storage. simpl. destruct (decide (a = b)) as [<-|Hne].
    + rewrite lookup_delete_eq. apply zero_h256_ok.
    + rewrite lookup_delete_ne by done. apply (funds_storage v Hv).
  - apply (funds_codes v Hv).
  - rewrite bal_mval in Hb. unfold total, balances. rewrite selfdestruct_visible, fmap_delete. fold (balances v).
    pose proof (msum_insert (base.delete a (balances v)) a (mval (balances v) a)) as Hm.
    rewrite insert_delete_eq in Hm. unfold mval at 2 in Hm. rewrite lookup_delete_eq in Hm. simpl in Hm.
    assert (msum (<[a := mval (balances v) a]> (balances v)) = msum (balances v)) as He by (rewrite msum_insert; lia).
    lia.
Qed.

Lemma emit_log_funds l v : funds_ok v -> funds_ok (StateView.emit_log l v) /\ total (StateView.emit_log l v) = total v.
Proof. intros [? ? ?]. by split. Qed.

(** ** The production host's laws *)

Section host.
Context `{PL : PrimitivesLaws}.
Abbreviation Host := (ProductionZvmHost StateView).

Definition env_ok (e : ZvmBlockEnv) : Prop :=
  addr_ok (env_coinbase e) /\ word_ok (env_prevrandao e) /\ Forall word_ok (env_blob_hashes e).
Definition host_ok (h : Host) : Prop :=
  funds_ok (ZvmHost.state h) /\ env_ok (ZvmHost.env h) /\ forall k, word_ok (default zero_word (ZvmHost.transient h !! k)).
(** No money appears. *)
Definition no_mint (h h' : Host) : Prop := total (ZvmHost.state h') <= total (ZvmHost.state h).

#[local] Instance no_mint_preorder : PreOrder no_mint.
Proof. split; [intros h|intros a b c]; unfold no_mint; lia. Qed.

Lemma set_state_ok v h : host_ok h -> funds_ok v -> host_ok (set_state v h).
Proof. by intros (_ & ? & ?) ?. Qed.
Lemma set_state_step v h : host_ok h -> funds_ok v /\ total v <= total (ZvmHost.state h) -> host_ok (set_state v h) /\ no_mint h (set_state v h).
Proof. intros Hh [Hv Ht]. split; [by apply set_state_ok|done]. Qed.

Lemma p_write_ok a b h : host_ok h -> 0 <= b ->
  let h' := p_write a (set_balance_u128 b (p_account h a)) h in
  host_ok h' /\ total (ZvmHost.state h') = total (ZvmHost.state h) - bal a (ZvmHost.state h) + b.
Proof.
  intros Hh Hb. destruct (set_balance_funds a b _ (proj1 Hh) Hb) as [Hf Ht]. cbv zeta. split; [|exact Ht].
  by apply set_state_ok.
Qed.

Lemma p_balance_le a h : host_ok h -> 0 <= balance_u128 (p_account h a) <= bal a (ZvmHost.state h).
Proof.
  intros Hh. split; [apply balance_u128_range|]. apply balance_u128_le. apply (funds_acct _ (proj1 Hh) a).
Qed.

Lemma p_transfer_ok a b v h : host_ok h -> 0 <= v -> host_ok (snd (p_transfer a b v h)) /\ no_mint h (snd (p_transfer a b v h)).
Proof.
  intros Hh Hv. pose proof (p_balance_le a h Hh) as Ha.
  unfold p_transfer, get_st, throw_if, modify, mbind, M_bind. cbv beta iota zeta.
  destruct (Z.ltb_spec (balance_u128 (p_account h a)) v); [by split|]. cbn [snd].
  assert (0 <= balance_u128 (p_account h a) - v) as Hr by lia.
  destruct (p_write_ok a (balance_u128 (p_account h a) - v) h Hh Hr) as [H1 T1].
  set (h1 := p_write a _ h) in *. pose proof (p_balance_le b h1 H1) as Hb.
  assert (0 <= sat 128 (balance_u128 (p_account h1 b) + v) <= balance_u128 (p_account h1 b) + v) as Hs by (unfold sat; lia).
  destruct (p_write_ok b (sat 128 (balance_u128 (p_account h1 b) + v)) h1 H1 (proj1 Hs)) as [H2 T2].
  split; [exact H2|]. unfold no_mint. lia.
Qed.

Lemma p_burn_ok a v h : host_ok h -> 0 <= v -> host_ok (snd (p_burn a v h)) /\ no_mint h (snd (p_burn a v h)).
Proof.
  intros Hh Hv. pose proof (p_balance_le a h Hh) as Ha.
  unfold p_burn, get_st, throw_if, modify, mbind, M_bind. cbv beta iota zeta.
  destruct (Z.ltb_spec (balance_u128 (p_account h a)) v); [by split|]. cbn [snd].
  assert (0 <= balance_u128 (p_account h a) - v) as Hr by lia.
  destruct (p_write_ok a (balance_u128 (p_account h a) - v) h Hh Hr) as [H1 T1]. split; [exact H1|]. unfold no_mint. lia.
Qed.

Lemma p_inc_nonce_ok a h : host_ok h -> host_ok (snd (p_inc_nonce a h)) /\ no_mint h (snd (p_inc_nonce a h)).
Proof.
  intros Hh. destruct (funds_acct _ (proj1 Hh) a) as [[Hn Hb] Hc]. apply set_state_step; [done|].
  assert (in_range 64 (sat 64 (Account.nonce (p_account h a) + 1))) as Hs by (by apply sat_range).
  assert (acct_ok (Account.set_nonce (sat 64 (Account.nonce (p_account h a) + 1)) (p_account h a))) as Ha by (split; [exact Hs|exact Hb]).
  destruct (set_account_funds a _ _ (proj1 Hh) Ha Hc) as [Hf Ht]. split; [exact Hf|].
  refine (Z.le_trans _ _ _ (Z.eq_le_incl _ _ Ht) _). unfold bal, p_account. simpl. lia.
Qed.

Lemma p_set_code_ok a c h : host_ok h -> code_ok c -> host_ok (p_set_code a c h) /\ no_mint h (p_set_code a c h).
Proof.
  intros Hh Hc. destruct (seed_code_funds (keccak256 c) c _ (proj1 Hh) Hc) as [Hf Ht].
  set (v1 := StateView.seed_code (keccak256 c) c (ZvmHost.state h)) in *.
  destruct (funds_acct v1 Hf a) as [Ha _].
  destruct (set_account_funds a (with_code (keccak256 c) (get_account a v1)) v1 Hf Ha (keccak_ok c)) as [Hf2 Ht2].
  split; [exact (conj Hf2 (proj2 Hh))|]. unfold no_mint.
  change (ZvmHost.state (p_set_code a c h)) with (set_account a (with_code (keccak256 c) (get_account a v1)) v1).
  rewrite Ht2, Ht. unfold bal. simpl. lia.
Qed.

Lemma p_selfdestruct_ok a b h : host_ok h -> host_ok (p_selfdestruct a b h) /\ no_mint h (p_selfdestruct a b h).
Proof.
  intros Hh. unfold p_selfdestruct. cbv zeta. destruct (Z.ltb_spec 0 (p_balance h a)) as [Hp|];
    [|split; [exact Hh|unfold no_mint; simpl; lia]].
  destruct (p_transfer_ok a b (p_balance h a) h Hh (Z.lt_le_incl _ _ Hp)) as [H1 H2]. split; [exact H1|exact H2].
Qed.

Lemma p_transient_ok a k w h : host_ok h -> word_ok w -> host_ok (p_transient_store a k w h).
Proof.
  intros (Hf & He & Ht) Hw. split; [done|]. split; [done|]. intros j. simpl. destruct (decide ((a, k) = j)) as [<-|Hne].
  - by rewrite lookup_insert_eq.
  - by rewrite lookup_insert_ne.
Qed.

Lemma code_for_ok a h : host_ok h -> code_ok (StateView.get_code a (ZvmHost.state h)).
Proof.
  intros [Hf _]. unfold StateView.get_code. destruct (negb _); [by apply (zeros_ok 0)|].
  destruct (codes _ !! _) as [c|] eqn:Hc; [by eapply (funds_codes _ Hf)|by apply (zeros_ok 0)].
Qed.

Lemma p_load_ok h a k : host_ok h -> word_ok (p_storage_load h a k).
Proof. intros [Hf _]. apply (funds_storage _ Hf). Qed.

Lemma resolve_bytes_ok h n a : host_ok h -> p_resolve_bytes h n = Some a -> addr_ok a.
Proof.
  intros Hh. unfold p_resolve_bytes. destruct (negb _); [done|]. cbv zeta. destruct (forallb _ _); [done|]. intros [= <-].
  apply word_addr_ok, p_load_ok, Hh.
Qed.

Lemma reverse_ok h a n : host_ok h -> p_reverse h a = Some n -> code_ok n /\ zlen n <= 32.
Proof.
  intros Hh. unfold p_reverse. cbv zeta. set (w := p_storage_load _ _ _). assert (word_ok w) as [Hl Hb] by (by apply p_load_ok).
  destruct (forallb _ _); [done|]. intros [= <-]. assert (zlen (take (position_zero w) w) <= 32) as Hz.
  { unfold zlen. rewrite length_take, Hl. lia. }
  split; [|done]. split; [by apply Forall_take|lia].
Qed.

Lemma transfer_no_panic a b v h : no_panic (fst (p_transfer a b v h)).
Proof. unfold p_transfer, get_st, throw_if, modify, mbind, M_bind. cbv zeta. by destruct (_ <? _). Qed.
Lemma burn_no_panic a v h : no_panic (fst (p_burn a v h)).
Proof. unfold p_burn, get_st, throw_if, modify, mbind, M_bind. cbv zeta. by destruct (_ <? _). Qed.

#[local] Obligation Tactic := idtac.
#[export] Program Instance production_laws : ZvmHostLaws Host := {
  ZWorld := Host; z_world h := h; z_ok := host_ok; z_rel := no_mint; z_rel_preorder := no_mint_preorder }.
Next Obligation.
  intros h a k n Hh. simpl. split; [|split].
  - split; [apply balance_u128_range|]. split; [apply (funds_acct _ (proj1 Hh) a)|]. split; [by apply code_for_ok|apply (funds_acct _ (proj1 Hh) a)].
  - split; [by apply p_load_ok|]. split; [apply Hh|apply zero_word_ok].
  - destruct Hh as (_ & (Hc & Hr & Hb) & _). split; [done|]. split; [done|]. unfold p_blob_hash.
    destruct (_ !! _) as [w|] eqn:Hw; [by eapply Forall_lookup_1|apply zero_word_ok].
Qed.
Next Obligation. intros h n a Hh Hr. exact (resolve_bytes_ok h _ a Hh Hr). Qed.
Next Obligation. intros h n a Hh Hr. exact (resolve_bytes_ok h _ a Hh Hr). Qed.
Next Obligation. intros h a n Hh Hr. exact (reverse_ok h a n Hh Hr). Qed.
Next Obligation. intros h a b v. split; [apply transfer_no_panic|apply burn_no_panic]. Qed.
Next Obligation. done. Qed.
Next Obligation.
  intros h a k w Hh Hw. destruct (set_storage_funds a k w _ (proj1 Hh) Hw) as [Hf Ht]. apply set_state_step; [done|]. split; [exact Hf|].
  simpl. lia.
Qed.
Next Obligation. intros h a k w Hh Hw. split; [by apply p_transient_ok|]. unfold no_mint. simpl. lia. Qed.
Next Obligation. intros h a b w Hh Hw. by apply p_transfer_ok. Qed.
Next Obligation. intros h a w Hh Hw. by apply p_burn_ok. Qed.
Next Obligation. intros h a Hh. by apply p_inc_nonce_ok. Qed.
Next Obligation. intros h a c Hh Hc. by apply p_set_code_ok. Qed.
Next Obligation. intros h k w Hh. by split. Qed.
Next Obligation. intros h a Hh. split; [exact Hh|]. unfold no_mint. simpl. lia. Qed.
Next Obligation. intros h a b Hh. by apply p_selfdestruct_ok. Qed.
Next Obligation.
  intros h a ts d Hh. apply set_state_step; [done|]. split; [by apply emit_log_funds, Hh|].
  by apply Z.eq_le_incl.
Qed.
End host.

(** ** The executor's ZVM branch *)

Section executor.
Context `{PR : Primitives} (fuel : nat).

Definition zvm_context (t : SignedTransaction) (h : BlockHeader) (tgt : Target) (gas : Z) : ZvmContext :=
  ZvmInterp.mkCtx (code_to_run tgt) (match tx_to (tx t) with Some _ => tx_data (tx t) | None => [] end)
    (tx_from t) (t_callee tgt) (value_u128 (tx t)) gas (Block.number h) (Block.timestamp h) (Block.base_fee_per_gas h)
    1 (tx_chain_id (tx t)) false None 0 (tx_from t).

(** A top-level creation is marked for the self-destruct rule. *)
Definition start_host (t : SignedTransaction) (h : BlockHeader) (tgt : Target) (v : StateView) : ProductionZvmHost StateView :=
  let host := host_new v (from_header h) ∅ in
  match contract_address tgt with Some new_addr => p_mark_created new_addr host | None => host end.

Definition exit_status (s : Status.ExecutionStatus) : ExitStatus :=
  match s with
  | Status.Success => Succeeded
  | Status.Revert => Reverted
  | Status.OutOfGas => Failed EvmMachine.OutOfGas
  | Status.InvalidOpcode op => Failed (EvmMachine.InvalidOpcode op)
  | Status.StackOverflow => Failed EvmMachine.StackOverflow
  | Status.Failed _ => Failed EvmMachine.OutOfGas
  end.

(** Deleted are the contracts this transaction created. *)
Definition apply_destructs (pending : list (Address * Address)) (created : gset Address) (v : StateView) : StateView :=
  foldl (fun v '(contract, _) => if bool_decide (contract ∈ created) then selfdestruct contract v else v) v pending.

(** [view.diffs.logs.drain(pre_log_len..)] *)
Definition drain_logs (n : nat) (v : StateView) : list Log * StateView :=
  let d := diffs v in
  (drop n (diff_logs d),
   set_diffs (mkStateDiff (diff_accounts d) (diff_storage d) (new_code d) (deleted d) (take n (diff_logs d))) v).

Definition run_zvm (t : SignedTransaction) (h : BlockHeader) (tgt : Target) (gas : Z) : V (ExitStatus * Z * list Log) := fun v =>
  let pre_log_len := length (diff_logs (diffs v)) in
  match ZvmInterp.run fuel (interp_new (zvm_context t h tgt gas) (start_host t h tgt v)) with
  | (Ok result, s) =>
    let '(pending, host) := take_pending_destructs (ZvmInterp.host s) in
    let created := created_this_tx host in
    let v := ZvmHost.state host in
    let v := match status result with Status.Success => apply_destructs pending created v | _ => v end in
    let '(drained, v) := drain_logs pre_log_len v in
    (Ok (exit_status (status result), ZvmInterp.gas_used result, drained), v)
  | (Err _, s) => (Err NoFuel, ZvmHost.state (ZvmInterp.host s))
  | (Panic, s) => (Panic, ZvmHost.state (ZvmInterp.host s))
  end.
End executor.

(** ** The supply *)

Section supply.
Context `{PL : PrimitivesLaws} (fuel : nat).

(** A transaction and a header of their types. *)
Record tx_inputs (t : SignedTransaction) : Prop := mkTxInputs {
  ti_fields : tx_ok (tx t); ti_from : addr_ok (tx_from t); ti_to : forall a, tx_to (tx t) = Some a -> addr_ok a;
  ti_data : code_ok (tx_data (tx t)) }.
Definition header_inputs (h : BlockHeader) : Prop :=
  in_range 64 (Block.base_fee_per_gas h) /\ addr_ok (Block.coinbase h) /\ word_ok (Block.mix_hash h).

(** At least [d] is gone. *)
Definition lost (d : Z) (v v' : StateView) : Prop := funds_ok v' /\ total v' <= total v - d.

Lemma lost_trans d e v1 v2 v3 : lost d v1 v2 -> lost e v2 v3 -> lost (d + e) v1 v3.
Proof. intros [? ?] [? ?]. split; [done|lia]. Qed.

Lemma bal_exact a v : funds_ok v -> total v < 2 ^ 128 -> balance_u128 (get_account a v) = bal a v.
Proof.
  intros Hv Ht. pose proof (bal_nonneg a v Hv) as Hb.
  assert (bal a v <= total v) by (rewrite bal_mval; apply mval_le_msum; intros j; rewrite <-bal_mval; by apply bal_nonneg).
  apply balance_u128_exact; unfold in_range; fold (bal a v); lia.
Qed.

Lemma add_balance_lost a d v : funds_ok v -> 0 <= d -> lost (- d) v (add_balance a d v).
Proof.
  intros Hv Hd. pose proof (balance_u128_le (get_account a v) (bal_nonneg a v Hv)) as Hle. fold (bal a v) in Hle.
  pose proof (balance_u128_range (get_account a v)) as [H0 _].
  assert (0 <= sat 128 (balance_u128 (get_account a v) + d) <= balance_u128 (get_account a v) + d) as Hs by (unfold sat; lia).
  destruct (set_balance_funds a _ v Hv (proj1 Hs)) as [Hf Ht]. split; [exact Hf|]. unfold add_balance. rewrite Ht. lia.
Qed.

Lemma buy_gas_lost t v u v' : funds_ok v -> tx_ok (tx t) -> total v < 2 ^ 128 - 1 -> buy_gas t v = (Ok u, v') -> lost (cost t) v v'.
Proof.
  intros Hv Ht Htot Hb. pose proof (cost_range t Ht) as Hc. pose proof (bal_nonneg (tx_from t) v Hv) as H0.
  assert (bal (tx_from t) v <= total v) as Hle
    by (rewrite bal_mval; apply mval_le_msum; intros j; rewrite <-bal_mval; by apply bal_nonneg).
  unfold buy_gas in Hb. apply bind_inv in Hb as (w & s1 & Hg & Hb). injection Hg as <- <-.
  apply bind_inv in Hb as (x1 & s1 & [Hn ->]%throw_if_inv & Hb). apply bind_inv in Hb as (x2 & s1 & [Hbal ->]%throw_if_inv & Hb).
  apply bind_inv in Hb as (x3 & s1 & [Hi ->]%throw_if_inv & Hb). fold (cost t) in *.
  rewrite bal_exact in * by (done || lia). apply Z.ltb_ge in Hbal, Hi.
  assert (cost t <= bal (tx_from t) v) as Hfit by (unfold sat in Hbal; lia).
  rewrite wrap_small, sat_small in Hb by (unfold in_range; lia).
  unfold increment_nonce in Hb. destruct (checked 64 _) as [n|] eqn:Hck; [|done]. apply checked_Some in Hck as [-> Hr].
  injection Hb as _ <-.
  match goal with |- lost _ _ (set_account _ ?st _) =>
    destruct (set_account_funds (tx_from t) st v Hv) as [Hf Htt]; [split; [exact Hr|simpl; lia]|apply (funds_acct v Hv)|] end.
  split; [exact Hf|]. rewrite Htt. simpl. lia.
Qed.

Lemma set_vm_funds a k st v : funds_ok v -> acct_ok st -> word_ok (Account.code_hash st) ->
  lost (bal a v - Account.balance st) v (set_account a (if bool_decide (k = Account.Zvm) then set_vm Account.Zvm st else st) v).
Proof.
  intros Hv Ha Hh. destruct (set_account_funds a (if bool_decide (k = Account.Zvm) then set_vm Account.Zvm st else st) v Hv) as [Hf Ht];
    [by destruct (bool_decide _)..|]. split; [exact Hf|]. rewrite Ht. destruct (bool_decide _); simpl; lia.
Qed.

Lemma deploy_lost a k c v : funds_ok v -> code_ok c -> lost 0 v (deploy a k c v).
Proof.
  intros Hv Hc. unfold deploy. destruct c as [|b c]; [split; [done|lia]|]. cbv zeta.
  destruct (seed_code_funds (keccak256 (b :: c)) (b :: c) v Hv Hc) as [Hf Ht]. set (w := StateView.seed_code _ _ v) in *.
  destruct (set_vm_funds a k (Account.set_code_hash (keccak256 (b :: c)) (get_account a w)) w Hf) as [Hf2 Ht2];
    [apply (funds_acct w Hf a)|apply keccak_ok|]. split; [exact Hf2|]. unfold bal in Ht2. simpl in Ht2. lia.
Qed.

Lemma get_code_ok a v : funds_ok v -> code_ok (StateView.get_code a v).
Proof.
  intros Hf. unfold StateView.get_code. destruct (negb _); [by apply (zeros_ok 0)|].
  destruct (codes v !! _) as [c|] eqn:Hc; [by eapply (funds_codes _ Hf)|by apply (zeros_ok 0)].
Qed.

Definition target_ok (tgt : Target) : Prop := addr_ok (t_callee tgt) /\ code_ok (code_to_run tgt).

Lemma resolve_lost t v tgt v' : funds_ok v -> tx_inputs t -> resolve_target t v = (Ok tgt, v') -> lost 0 v v' /\ target_ok tgt.
Proof.
  intros Hv [_ Hf Hto Hd] Hr. assert (lost 0 v v) as Hsame by (split; [done|lia]). unfold resolve_target in Hr.
  destruct (tx_to (tx t)) as [to|].
  - apply bind_inv in Hr as (w & s1 & Hg & Hr). injection Hg as <- <-.
    destruct (is_contract _); injection Hr as <- <-; (split; [done|]); (split; [by apply Hto|]);
      [by apply get_code_ok|by apply (zeros_ok 0)].
  - pose proof (init_code_ok _ Hd) as Hc. destruct (init_code (tx_data (tx t))) as [k code].
    apply bind_inv in Hr as (x & s1 & Hm & Hr). injection Hm as _ <-. injection Hr as <- <-.
    split; [by apply deploy_lost|]. split; [apply created_addr_ok|exact Hc].
Qed.

Lemma destructs_lost pending created : forall v, funds_ok v -> lost 0 v (apply_destructs pending created v).
Proof.
  induction pending as [|[c b] pending IH]; intros v Hv; [split; [done|simpl; lia]|]. unfold apply_destructs. simpl.
  destruct (bool_decide _); [|by apply IH]. destruct (selfdestruct_funds c v Hv) as [Hf Ht].
  destruct (IH _ Hf) as [Hf2 Ht2]. split; [exact Hf2|]. unfold apply_destructs in Ht2. lia.
Qed.

Lemma start_host_ok t h tgt v : funds_ok v -> header_inputs h -> host_ok (start_host t h tgt v).
Proof.
  intros Hv (_ & Hc & Hm). assert (host_ok (host_new v (from_header h) ∅)) as Hh.
  { split; [done|]. split; [|intros k; simpl; rewrite lookup_empty; apply zero_word_ok].
    split; [done|]. split; [done|by constructor]. }
  unfold start_host. by destruct (contract_address tgt).
Qed.

Lemma zvm_context_ok t h tgt gas : tx_inputs t -> target_ok tgt -> in_range 64 gas -> ctx_ok (zvm_context t h tgt gas).
Proof.
  intros [_ Hf Hto Hd] [Hc Hcode] Hg. split; [|by split]. split; [exact Hcode|]. split; [|exact Hg].
  unfold zvm_context. cbn [ZvmInterp.calldata]. destruct (tx_to (tx t)); [exact Hd|by apply (zeros_ok 0)].
Qed.

Lemma run_zvm_lost t h tgt gas v r v' : funds_ok v -> tx_inputs t -> header_inputs h -> target_ok tgt -> in_range 64 gas ->
  run_zvm fuel t h tgt gas v = (Ok r, v') -> lost 0 v v' /\ 0 <= snd (fst r) <= gas.
Proof.
  intros Hv Ht Hh Htgt Hg Hr. pose proof (run_result True fuel (zvm_context t h tgt gas) (start_host t h tgt v)
    (conj (zvm_context_ok t h tgt gas Ht Htgt Hg) (start_host_ok t h tgt v Hv Hh)) (or_introl I)) as Hres.
  unfold run_zvm in Hr. destruct (ZvmInterp.run fuel _) as [[res|e|] s]; [|done|done].
  destruct Hres as (Hrem & Hused & _ & _ & Hok & Hrel & _). change (gas_limit (zvm_context t h tgt gas)) with gas in *.
  assert (lost 0 v (ZvmHost.state (host s))) as Hl.
  { split; [apply Hok|]. unfold z_rel in Hrel. simpl in Hrel. unfold no_mint in Hrel.
    replace (ZvmHost.state (start_host t h tgt v)) with v in Hrel by (unfold start_host; by destruct (contract_address tgt)). lia. }
  unfold take_pending_destructs, drain_logs in Hr. cbv zeta in Hr. injection Hr as <- <-. split; [|simpl; lia].
  assert (forall w, lost 0 v w -> lost 0 v (match status res with Status.Success =>
    apply_destructs (pending_destructs (host s)) (created_this_tx (host s)) w | _ => w end)) as Hd.
  { intros w Hw. destruct (status res); try done. apply (lost_trans 0 0 v w); [done|]. apply destructs_lost, Hw. }
  destruct (Hd _ Hl) as [[Ha Hs Hc] Htot]. split; [|exact Htot]. by split.
Qed.

(** Precompiles and the first machine leave the view alone. *)
Lemma run_target_lost t h tgt v r v' : funds_ok v -> tx_inputs t -> header_inputs h -> target_ok tgt ->
  run_target fuel (run_zvm fuel) t h tgt v = (Ok r, v') -> lost 0 v v'.
Proof.
  intros Hv Ht Hh Htgt. assert (lost 0 v v) as Hsame by (split; [done|lia]). unfold run_target. set (fw := sat 64 _).
  assert (in_range 64 fw) as Hfw by (by apply sat_range). case_match.
  - destruct (EvmPrecompiles.call_precompile _ _ _) as [[? ?]| |]; [by intros [= _ <-]..|done].
  - case_match; [by intros [= _ <-]|]. destruct (bool_decide (callee_vm tgt = Account.Zvm)).
    + intros Hr. by apply (run_zvm_lost t h tgt fw v r v') in Hr as [? _].
    + unfold run_evm. destruct (EvmInterp.execute _ _ _ _) as [[?|?|] ?]; [by intros [= _ <-]|done|done].
Qed.

Lemma settle_lost t tgt ok v : funds_ok v -> lost (- value_u128 (tx t)) v (settle_value t tgt ok v).
Proof.
  intros Hv. pose proof (value_u128_range (tx t)) as [Hval _]. assert (lost (- value_u128 (tx t)) v v) as Hsame by (split; [done|lia]).
  unfold settle_value. destruct ok; [|by apply add_balance_lost]. destruct (tx_to (tx t)); [by apply add_balance_lost|].
  destruct (contract_address tgt) as [a|]; [|done]. unfold finish_create. destruct (is_deleted a v); [done|]. cbv zeta.
  destruct (funds_acct v Hv a) as [[Hn Hb] Hc]. pose proof (balance_u128_le (get_account a v) Hb) as Hle.
  pose proof (balance_u128_range (get_account a v)) as [H0 _].
  assert (0 <= sat 128 (balance_u128 (get_account a v) + value_u128 (tx t)) <= balance_u128 (get_account a v) + value_u128 (tx t)) as Hs
    by (unfold sat; lia).
  match goal with |- lost _ _ (set_account _ (if _ then set_vm _ ?st else _) _) => set (acct := st) end.
  assert (acct_ok acct /\ word_ok (Account.code_hash acct) /\ Account.balance acct <= bal a v + value_u128 (tx t)) as (A1 & A2 & A3).
  { unfold acct. destruct (0 <? value_u128 (tx t)); unfold bal; simpl; [|split; [done|split; [done|lia]]].
    split; [split; [exact Hn|exact (proj1 Hs)]|]. split; [done|lia]. }
  destruct (set_vm_funds a (callee_vm tgt) acct v Hv A1 A2) as [Hf Ht]. split; [exact Hf|lia].
Qed.

(** ** Transactions and blocks *)

Lemma tx_lost t h v r v' : funds_ok v -> tx_inputs t -> header_inputs h -> total v < 2 ^ 128 - 1 ->
  execute_tx fuel (run_zvm fuel) t h v = (Ok r, v') ->
  lost (fee t h r) v v' /\ 0 <= r_gas_used r <= Transaction.gas_limit (tx t) /\ r_effective_price r = price t h.
Proof.
  intros Hv Ht Hh Htot He. pose proof (value_u128_range (tx t)) as Hval. pose proof (max_cost_range _ (ti_fields _ Ht)) as Hmc.
  unfold execute_tx in He. fold (price t h) in He. pose proof (price_range t h (ti_fields _ Ht) (proj1 Hh)) as Hp.
  apply bind_inv in He as (u & v1 & Hbuy & He). pose proof (buy_gas_lost t v u v1 Hv (ti_fields _ Ht) Htot Hbuy) as L1.
  apply bind_inv in He as (tgt & v2 & Hres & He). destruct (resolve_lost t v1 tgt v2 (proj1 L1) Ht Hres) as [L2 Htgt].
  apply bind_inv in He as ([[st gas] ls] & v3 & Hrun & He). pose proof (run_target_lost t h tgt v2 _ v3 (proj1 L2) Ht Hh Htgt Hrun) as L3.
  set (used := Z.min (sat 64 (intrinsic_gas (tx t) + gas)) (Transaction.gas_limit (tx t))) in *.
  set (ok := match st with Succeeded => true | _ => false end) in *.
  assert (0 <= used <= Transaction.gas_limit (tx t)) as Hused.
  { pose proof (tx_gas_ok _ (ti_fields _ Ht)). pose proof (sat_range 64 (intrinsic_gas (tx t) + gas) ltac:(lia)).
    unfold used, in_range in *. lia. }
  assert (0 <= used * price t h) as Hfee by (unfold in_range in Hp; nia).
  set (refund := sat 128 (max_cost (tx t) - used * price t h)) in *.
  assert (refund = max_cost (tx t) - Z.min (max_cost (tx t)) (used * price t h)) as Hrefund by (unfold refund, sat; lia).
  apply bind_inv in He as (x & v4 & Hm & He). injection Hm as _ <-.
  pose proof (add_balance_lost (tx_from t) refund v3 (proj1 L3) ltac:(unfold refund, sat; lia)) as L4.
  apply bind_inv in He as (x' & v5 & Hm & He). injection Hm as _ <-. injection He as <- <-. cbn [r_gas_used r_effective_price].
  pose proof (settle_lost t tgt ok _ (proj1 L4)) as L5. split; [|by split].
  split; [apply L5|]. unfold fee. cbn [r_gas_used]. unfold lost, cost in *. lia.
Qed.

Lemma txs_lost bh h : header_inputs h -> forall txs idx cum acc v g rs v', funds_ok v -> Forall tx_inputs txs ->
  total v < 2 ^ 128 - 1 -> execute_txs fuel (run_zvm fuel) bh h idx txs cum acc v = (Ok (g, rs), v') ->
  exists new, rs = acc ++ new /\ length new = length txs /\ lost (sum_z (zip_with (burned h) txs new)) v v' /\
    0 <= sum_z (zip_with (burned h) txs new).
Proof.
  intros Hh. induction txs as [|t txs IH]; intros idx cum acc v g rs v' Hv Ht Htot He.
  - injection He as <- <- <-. exists []. rewrite app_nil_r. split; [done|]. split; [done|]. split; [split; [done|simpl; lia]|done].
  - apply Forall_cons_iff in Ht as [Ht Hts]. cbn [execute_txs] in He.
    apply bind_inv in He as (r & v1 & Hx & He). apply bind_inv in He as (u & v2 & Hm & He). injection Hm as _ <-.
    destruct (tx_lost t h v r v1 Hv Ht Hh Htot Hx) as ([O1 T1] & Hg & Hp).
    destruct (fee_split t h r (ti_fields _ Ht) (proj1 Hh) Hg Hp) as (Htip & Hfee & Hburn).
    destruct (add_balance_lost (Block.coinbase h) (tip_of h r) v1 O1 Htip) as [O2 T2].
    destruct (IH _ _ _ _ _ _ _ O2 Hts ltac:(lia) He) as (new & -> & Hl & [O3 T3] & S3).
    eexists (_ :: new). rewrite <-app_assoc. split; [done|]. simpl length. simpl zip_with. cbn [sum_z foldr].
    fold (sum_z (zip_with (burned h) txs new)). unfold burned at 1 3. cbn [make_receipt Receipt.gas_used].
    split; [by rewrite Hl|]. split; [split; [done|lia]|lia].
Qed.

Context (signing_hash : Transaction -> H256) (L : Listing).

End supply.
