(* ===== verification/ExecExample.v ===== *)
(** * Executed blocks

    A view of four accounts, one with EVM code, a block of a transfer and a
    call, and the theorems of StateView.v and BlockExec.v at them; and runs
    that show what the executor loses.

    Below: programs of the second virtual machine and the hosts they run on. *)

From Stdlib Require Import ZArith Lia String.
From stdpp Require Import base tactics list gmap sets numbers option.
From S2P Require Import Prelude Bytes Collections U256 Block EvmMachine EvmHost NativeReads EvmPrecompiles EvmInterp EvmMock EvmLogic EvmRun EvmExample TrieNode Trie Receipt Account StateMpt MptRoot Transaction StateDB ZvmMachine ZvmHost ZvmInterp ZvmLogic ZvmRun ZvmExec StateView Executor BlockExec.

Local Open Scope Z_scope.

#[local] Existing Instance EvmExample.toy.
#[local] Existing Instance EvmExample.toy_laws.

Definition alice : Address := to_be 20 1001.
Definition bob : Address := to_be 20 1002.
Definition proposer : Address := to_be 20 1003.
Definition contract : Address := to_be 20 4096.

(** [SSTORE(0, 1)], then [STOP]. *)
Definition contract_hash : H256 := keccak256 stopping.
Definition money (n : Z) : AccountState := mkAccount 0 n EMPTY_CODE_HASH EMPTY_STORAGE_ROOT Evm.
Definition base0 : gmap Address AccountState :=
  <[alice := money (10 ^ 18)]> (<[bob := money 5]> (<[contract := mkAccount 1 0 contract_hash EMPTY_STORAGE_ROOT Evm]> ∅)).
Definition view0 : StateView := mkView base0 {[contract_hash := stopping]} diff_new ∅.

Definition call_to (n : Z) (to : option Address) (data : bytes) : SignedTransaction :=
  mkSigned (mkTx DynamicFee n 2 50 100000 to 1000 data [] 8989) (mkSig 0 zero_h256 zero_h256) alice (to_be 32 n).
Definition tx_transfer := call_to 0 (Some bob) [].
Definition tx_call := call_to 1 (Some contract) [].
(** A deployment of the same code. *)
Definition tx_deploy := call_to 0 None stopping.

Definition header0 : BlockHeader :=
  mkHeader zero_h256 zero_h256 proposer zero_h256 zero_h256 zero_h256 (replicate 256 0) 0 7 30000000 0 1000 []
    zero_h256 0 10 [] 0 None.
Definition block0 : TxBlock := mkBlock (list SignedTransaction) header0 [tx_transfer; tx_call].

Definition no_zvm : SignedTransaction -> BlockHeader -> Target -> Z -> V (ExitStatus * Z * list Log) :=
  fun _ _ _ _ => lift (Err NoFuel).
Definition signing (t : Transaction) : H256 := to_be 32 (tx_nonce t).
Definition listing0 : Listing := mkListing map_to_list (fun _ m => map_to_list m).

Abbreviation run_tx t := (execute_tx 40 no_zvm t header0 view0).
Abbreviation run_block := (execute_inner 40 no_zvm signing listing0 block0 (None : option MemoryTrieDB) view0).

Definition got {E A} (d : A) (r : res E A) : A := match r with Ok a => a | _ => d end.
Lemma run_ok_eq {S E A} (d : A) (m : res E A * S) : is_ok (fst m) = true -> m = (Ok (got d (fst m)), snd m).
Proof. destruct m as [[a|e|] s]; done. Qed.

(** ** The hypotheses hold *)

Definition acct_ok_b (st : AccountState) : bool :=
  (0 <=? Account.nonce st) && (Account.nonce st <? 2 ^ 64) && (0 <=? Account.balance st) && bool_decide (vm st = Evm).
Lemma base_view_ok m c : bool_decide (map_Forall (fun _ st => acct_ok_b st = true) m) = true -> view_ok (mkView m c diff_new ∅).
Proof.
  intros Hm%bool_decide_eq_true_1. assert (forall a, acct_ok_b (StateView.get_account a (mkView m c diff_new ∅)) = true) as H.
  { intros a. unfold StateView.get_account. rewrite bool_decide_eq_false_2 by set_solver. simpl. rewrite lookup_empty.
    destruct (m !! a) as [st|] eqn:Ha; [by apply (Hm a)|done]. }
  split; [..|done]; intros a; specialize (H a); unfold acct_ok_b in H; bool_to_prop.
  - unfold acct_ok, in_range. lia.
  - done.
Qed.

Lemma view0_ok : view_ok view0.
Proof. apply base_view_ok. vm_compute. reflexivity. Qed.
Lemma total0 : total view0 = 10 ^ 18 + 5.
Proof. vm_compute. reflexivity. Qed.
Lemma total0_small : total view0 < 2 ^ 128 - 1.
Proof. rewrite total0. reflexivity. Qed.

Lemma tx_check n to data : in_range 64 n -> Forall byte data -> fst (init_code data) = Evm \/ to <> None -> tx_typed (call_to n to data).
Proof. intros Hn Hd Ht. split; [|done]. split; unfold in_range in *; simpl; lia || done. Qed.
Lemma transfer_typed : tx_typed tx_transfer.
Proof. apply tx_check; [by unfold in_range|apply List.Forall_nil|by left]. Qed.
Lemma call_typed : tx_typed tx_call.
Proof. apply tx_check; [by unfold in_range|apply List.Forall_nil|by left]. Qed.
Lemma fee0 : in_range 64 (base_fee_per_gas header0).
Proof. by unfold in_range. Qed.
Lemma block0_typed : Forall tx_typed (body block0).
Proof. apply List.Forall_cons; [apply transfer_typed|]. apply List.Forall_cons; [apply call_typed|apply List.Forall_nil]. Qed.

Definition res0 : TxResult := got (mkTxResult 0 0 false [] None) (fst (run_tx tx_transfer)).
Lemma run_transfer : run_tx tx_transfer = (Ok res0, snd (run_tx tx_transfer)).
Proof. apply run_ok_eq. vm_compute. reflexivity. Qed.
Lemma res0_is : res0 = mkTxResult 21000 12 true [] None.
Proof. vm_compute. reflexivity. Qed.


Definition dummy : ExecutionResult := Executor.mkResult [] diff_new 0 [] [] [] [].
Definition outcome0 := Eval vm_compute in run_block.
Definition result0 : ExecutionResult := Eval vm_compute in got dummy (fst outcome0).
Definition final0 : StateView := Eval vm_compute in snd outcome0.
Lemma run_block_ok : run_block = (Ok result0, final0).
Proof. vm_compute. reflexivity. Qed.
Lemma gas_of_block : map Receipt.gas_used (receipts result0) = [21000; 43006].
Proof. vm_compute. reflexivity. Qed.
Lemma reward0_small : total view0 + INITIAL_BLOCK_REWARD < 2 ^ 128.
Proof. rewrite total0. reflexivity. Qed.


(** A nonce that does not fit is refused with any fuel, a plain transfer is
    accepted with any fuel. *)
Definition tx_bad := call_to 5 (Some bob) [].
Lemma bad_run fuel : execute_tx fuel no_zvm tx_bad header0 view0 = (Err (Fail (InvalidNonce 0 5)), view0).
Proof. vm_compute. reflexivity. Qed.
Lemma good_run fuel : is_ok (fst (execute_tx fuel no_zvm tx_transfer header0 view0)) = true.
Proof. vm_compute. reflexivity. Qed.
Lemma bad_typed : tx_typed tx_bad.
Proof. apply tx_check; [by unfold in_range|apply List.Forall_nil|by left]. Qed.

Definition big_fuel : nat := Z.to_nat TX_FUEL.
Lemma big_enough : TX_FUEL <= Z.of_nat big_fuel.
Proof. unfold big_fuel. rewrite Z2Nat.id; [done|]. by apply Z.leb_le. Qed.

Lemma inputs0 n : inputs_ok (call_to n (Some bob) []) header0 view0.
Proof.
  split; try apply to_be_addr.
  - intros a [= <-]. apply to_be_addr.
  - apply zero_word_ok.
  - by apply (zeros_ok 0).
  - intros k c. simpl. intros [_ <-]%lookup_singleton_Some. apply stopping_ok.
Qed.


Lemma view_refines_witness :
  StateView.get_account alice (StateView.set_account alice (money 3) view0) = money 3 /\
  StateView.get_account alice (StateView.selfdestruct alice view0) = Account.default_account.
Proof.
  destruct (view_refines alice alice (money 3) view0 ltac:(discriminate)) as (_ & Hs & _ & _ & Hd & _).
  split; [|exact Hd]. rewrite Hs. vm_compute. reflexivity.
Defined.

(** ** What is lost *)

(** A successful call that stores 1 leaves no slot in the block's changes. *)
Lemma evm_store_lost : let '(r, v) := execute_txs 40 no_zvm zero_h256 header0 0 [tx_transfer; tx_call] 0 [] view0 in
  (exists g rs, r = Ok (g, rs) /\ map Receipt.status rs = [Success; Success]) /\ diff_storage (diffs v) = ∅.
Proof. vm_compute. split; [eexists _, _; done|done]. Qed.

(** A deployed contract's account is written; its code is in no diff. *)
Lemma deployed_code_lost : let '(r, v) := execute_tx 40 no_zvm tx_deploy header0 view0 in
  is_ok r = true /\ Account.code_hash (StateView.get_account (create_address tx_deploy) v) = contract_hash /\
  new_code (into_diff v) = ∅.
Proof. vm_compute. done. Qed.

(** A transaction whose maximum fee is below the base fee is accepted, and pays
    less than the base fee of its gas. *)
Definition tx_cheap : SignedTransaction :=
  mkSigned (mkTx DynamicFee 0 0 1 21000 (Some bob) 0 [] [] 8989) (mkSig 0 zero_h256 zero_h256) alice zero_h256.
Lemma below_base_fee : let '(r, v) := execute_tx 40 no_zvm tx_cheap header0 view0 in
  is_ok r = true /\ bal alice view0 - bal alice v = 21000 * 1 /\ base_fee_per_gas header0 = 10.
Proof. vm_compute. done. Qed.

(** After a self-destruct the state database still reads the old account, the
    executor's view reads none; an account created again has its old slots in
    the database only, and the same four operations give two state roots. *)
Definition db0 : StateDB := StateDB.set_base base0 StateDB.state_new.
Definition slot0 : H256 := to_be 32 0.
Definition reborn_db : StateDB :=
  StateDB.set_account contract (money 7) (StateDB.selfdestruct contract (StateDB.set_storage contract slot0 (to_be 32 1) db0)).
Definition reborn_view : StateView :=
  StateView.set_account contract (money 7)
    (StateView.selfdestruct contract (StateView.set_storage contract slot0 (to_be 32 1) view0)).
Lemma db_and_view_disagree :
  (StateDB.get_account alice (StateDB.selfdestruct alice db0) = money (10 ^ 18) /\
   StateView.get_account alice (StateView.selfdestruct alice view0) = Account.default_account) /\
  StateDB.state_root keccak256 listing0 db0 = StateView.state_root keccak256 listing0 view0 /\
  StateDB.state_root keccak256 listing0 reborn_db <> StateView.state_root keccak256 listing0 reborn_view.
Proof. split; [vm_compute; done|]. split; [vm_compute; reflexivity|vm_compute; discriminate]. Qed.

(** * Executed ZVM programs

    ZVM programs on the production host over the executor's view, a block with
    one, and the theorems of the Zvm files at them. *)

#[local] Existing Instance EvmExample.toy.
#[local] Existing Instance EvmExample.toy_laws.

(** ** Programs *)

(** The seven operands of a CALL of [to] with [value] and 50000 gas. *)
Definition call_with (value to : Z) : bytes :=
  [0x60; 0; 0x60; 0; 0x60; 0; 0x60; 0; 0x60; value; 0x61] ++ to_be 2 to ++ [0x61; 0xc3; 0x50; 0xf1].
(** Pay bob 7, store the outcome, burn 3 of the caller, log, stop. *)
Definition paying : bytes :=
  call_with 7 1002 ++ [0x60; 0; 0x55] ++ [0x60; 3; 0xc8] ++ [0x60; 0; 0x60; 0; 0xa0; 0x00].
(** [SSTORE(0, 1); REVERT(0, 0)] *)
Definition store_revert : bytes := [0x60; 1; 0x60; 0; 0x55; 0x60; 0; 0x60; 0; 0xfd].
(** [PAYID] of 2^63 bytes at 0. *)
Definition payid_crash : bytes := [0x60; 1; 0x60; 63; 0x1b; 0x60; 0; 0xc0].
(** [SELFDESTRUCT(bob)] *)
Definition destroying : bytes := [0x61; 0x03; 0xea; 0xff].

Definition zhash (c : bytes) : H256 := keccak256 c.
Definition zvm_account (c : bytes) (n : Z) : AccountState := mkAccount 1 n (zhash c) EMPTY_STORAGE_ROOT Account.Zvm.
Definition zview (c : bytes) : StateView :=
  mkView (<[alice := money (10 ^ 18)]> (<[bob := money 5]> (<[contract := zvm_account c 100]> ∅))) {[zhash c := c]} diff_new ∅.

Definition zcontext (c : bytes) (gas : Z) : ZvmContext :=
  ZvmInterp.mkCtx c [] alice contract 0 gas 7 1000 10 1 8989 false None 0 alice.
Definition zhost (c : bytes) : ProductionZvmHost StateView := host_new (zview c) (from_header header0) ∅.
Abbreviation zrun c gas := (ZvmInterp.execute 60 (zcontext c gas) (zhost c)).

Definition status_of (r : res ZStop ZvmResult) : option Status.ExecutionStatus :=
  match r with Ok x => Some (status x) | _ => None end.
Definition zvm_slot0 (h : ProductionZvmHost StateView) : Z := be_val (z_storage_load h contract zero_word).
Definition money_of (a : Address) (h : ProductionZvmHost StateView) : Z := z_balance h a.

Example paying_runs : let '(r, h) := zrun paying 100000 in
  status_of r = Some Status.Success /\ zvm_slot0 h = 1 /\ money_of bob h = 12 /\ money_of contract h = 93 /\
  money_of alice h = 10 ^ 18 - 3 /\ length (diff_logs (diffs (ZvmHost.state h))) = 1%nat.
Proof. vm_compute. auto 10. Qed.
Example out_of_gas : status_of (fst (zrun paying 5000)) = Some Status.OutOfGas.
Proof. vm_compute. reflexivity. Qed.

(** Nothing is undone when a frame reverts. *)
Lemma zvm_revert_keeps : let '(r, h) := zrun store_revert 100000 in status_of r = Some Status.Revert /\ zvm_slot0 h = 1.
Proof. vm_compute. auto. Qed.
(** A contract that names a huge string takes the node down. *)
Lemma zvm_payid_panics : fst (zrun payid_crash 1000) = Panic.
Proof. vm_compute. reflexivity. Qed.

(** CALLCODE runs the code on the target's storage. *)
Definition other : Address := to_be 20 4097.
Definition callcoding : bytes := [0x60; 0; 0x60; 0; 0x60; 0; 0x60; 0; 0x60; 0; 0x61; 0x10; 0x01; 0x61; 0xc3; 0x50; 0xf2].
Definition two_contracts : StateView :=
  let v := zview callcoding in
  mkView (<[other := zvm_account stopping 0]> (view_base v)) (<[zhash stopping := stopping]> (codes v)) diff_new ∅.
Lemma zvm_callcode_context :
  let '(r, h) := ZvmInterp.execute 60 (zcontext callcoding 100000) (host_new two_contracts (from_header header0) ∅) in
  status_of r = Some Status.Success /\ zvm_slot0 h = 0 /\ be_val (z_storage_load h other zero_word) = 1.
Proof. vm_compute. auto. Qed.

(** [RETURN(65535, 0)] pays for the memory up to 65535. *)
Lemma zvm_empty_window_charged :
  status_of (fst (zrun [0x60; 0; 0x61; 0xff; 0xff; 0xf3] 1000)) = Some (Status.Failed ZvmMachine.OutOfGas).
Proof. vm_compute. reflexivity. Qed.

(** A recovery id with a byte set above the last: one machine recovers a signer,
    the other returns zeros. *)
Definition odd_recovery : bytes := replicate 32 0 ++ [1] ++ replicate 30 0 ++ [27] ++ to_be 32 5 ++ replicate 32 0.
Lemma ecrecover_differs :
  ZvmHost.call_precompile (to_be 20 1) odd_recovery 10000 = Ok (replicate 32 0, 3000) /\
  EvmPrecompiles.call_precompile (to_be 20 1) odd_recovery 10000 = Ok (to_be 32 5, 3000).
Proof. vm_compute. auto. Qed.

(** ** The hypotheses hold *)

Definition bytes_okb (b : bytes) : bool := forallb (fun x => (0 <=? x) && (x <? 256)) b && (zlen b <? 2 ^ 63).
Lemma code_check b : bytes_okb b = true -> code_ok b.
Proof.
  unfold bytes_okb. intros [Hb Hl]%andb_true_iff. apply Z.ltb_lt in Hl. split; [|exact Hl].
  apply List.Forall_forall. intros x Hx. rewrite forallb_forall in Hb. pose proof (Hb x Hx) as Hr.
  unfold byte. bool_to_prop. lia.
Qed.

Lemma alice_ok : addr_ok alice. Proof. apply to_be_addr. Qed.
Lemma contract_ok : addr_ok contract. Proof. apply to_be_addr. Qed.

Lemma zcontext_ok c gas : bytes_okb c = true -> in_range 64 gas -> ctx_ok (zcontext c gas).
Proof.
  intros Hc Hg. split; [|split; [|done]]; [split; [by apply code_check|split; [by apply (zeros_ok 0)|exact Hg]]|].
  split; [apply alice_ok|split; [apply contract_ok|apply alice_ok]].
Qed.

Definition funds_b (st : AccountState) : bool :=
  (0 <=? Account.nonce st) && (Account.nonce st <? 2 ^ 64) && (0 <=? Account.balance st) &&
  (length (Account.code_hash st) =? 32)%nat && bytes_okb (Account.code_hash st).
Lemma base_funds_ok m cs : bool_decide (map_Forall (fun _ st => funds_b st = true) m) = true ->
  bool_decide (map_Forall (fun _ c => bytes_okb c = true) cs) = true -> funds_ok (mkView m cs diff_new ∅).
Proof.
  intros Hm%bool_decide_eq_true_1 Hc%bool_decide_eq_true_1.
  assert (forall a, funds_b (StateView.get_account a (mkView m cs diff_new ∅)) = true) as H.
  { intros a. unfold StateView.get_account. rewrite bool_decide_eq_false_2 by set_solver. simpl. rewrite lookup_empty.
    destruct (m !! a) as [st|] eqn:Ha; [by apply (Hm a)|vm_compute; reflexivity]. }
  split.
  - intros a. specialize (H a). unfold funds_b in H. apply andb_true_iff in H as [H Hh]. apply andb_true_iff in H as [H Hl].
    split; [unfold acct_ok, in_range; bool_to_prop; lia|]. split; [by apply Nat.eqb_eq|by apply code_check].
  - intros a k. unfold StateView.get_storage. simpl. rewrite lookup_empty. apply zero_h256_ok.
  - intros k c Hk. apply code_check. by apply (Hc k).
Qed.

Lemma zview_ok : funds_ok (zview paying).
Proof. apply base_funds_ok; vm_compute; reflexivity. Qed.
Lemma header0_inputs : header_inputs header0.
Proof. split; [by unfold in_range|]. split; [apply to_be_addr|apply zero_word_ok]. Qed.

Lemma zhost_ok : host_ok (zhost paying).
Proof. apply (start_host_ok tx_call header0 (mkTarget None [] contract false Account.Zvm)); [apply zview_ok|apply header0_inputs]. Qed.

Lemma zinput gas : in_range 64 gas -> ZvmRun.input_ok (zcontext paying gas) (zhost paying).
Proof. intros Hg. split; [apply zcontext_ok; [vm_compute; reflexivity|done]|exact zhost_ok]. Qed.

Lemma pair_is {A B} (x : A * B) a : fst x = a -> x = (a, snd x).
Proof. destruct x. simpl. by intros ->. Qed.
Definition zres0 : ZvmResult :=
  Eval vm_compute in got (ZvmInterp.mkResult Status.Success [] 0 0 [] []) (fst (zrun paying 100000)).
Definition zhost0 : ProductionZvmHost StateView := snd (zrun paying 100000).
Lemma zrun_is : zrun paying 100000 = (Ok zres0, zhost0).
Proof. unfold zhost0. apply pair_is. vm_compute. reflexivity. Qed.

(** ** Witnesses *)


Lemma zvm_terminates_witness : exists r h', (r = Panic \/ exists res, r = Ok res) /\
  ZvmInterp.execute 1001 (zcontext paying 1000) (zhost paying) = (r, h').
Proof.
  destruct (zvm_terminates (zcontext paying 1000) (zhost paying) (zinput 1000 ltac:(by unfold in_range)))
    as (r & h' & Hr & Hf). exists r, h'. split; [exact Hr|]. apply Hf. reflexivity.
Defined.

(** SDIV of -8 by 3. *)
Definition zstack : ZvmStack := [to_be 32 3; to_be 32 (2 ^ 256 - 8)].
Definition evm_state : EVMInterpreter MockHost :=
  EvmInterp.set_stack (mkStack zstack) (EvmInterp.interp_new (context false [] 1000) [] mock_new).
Definition go_on : M (EVMInterpreter MockHost) EvmInterp.Stop EvmInterp.flow := mret EvmInterp.Next.
Lemma zstack_comparable : comparable Opcode.SDIV zstack.
Proof. split; [done|]. intros rest a b n _ [x Hx]. discriminate Hx. Qed.
Lemma zstack_words : Forall word_ok zstack.
Proof. apply List.Forall_cons; [apply to_be_word|]. apply List.Forall_cons; [apply to_be_word|apply List.Forall_nil]. Qed.


(** A block with a call of [paying]. *)
Definition zblock : TxBlock := mkBlock (list SignedTransaction) header0 [call_to 0 (Some contract) []].
Abbreviation run_zblock := (execute_inner 60 (run_zvm 60) signing listing0 zblock (None : option MemoryTrieDB) (zview paying)).
Definition zoutcome := Eval vm_compute in run_zblock.
Definition zresult : ExecutionResult := Eval vm_compute in got dummy (fst zoutcome).
Definition zfinal : StateView := Eval vm_compute in snd zoutcome.
Lemma run_zblock_ok : run_zblock = (Ok zresult, zfinal).
Proof. vm_compute. reflexivity. Qed.
Lemma zblock_inputs : Forall tx_inputs (body zblock).
Proof.
  apply List.Forall_cons; [|apply List.Forall_nil]. split.
  - split; unfold in_range; simpl; try lia. apply List.Forall_nil.
  - apply alice_ok.
  - intros a [= <-]. apply contract_ok.
  - by apply (zeros_ok 0).
Qed.
Lemma ztotal_small : total (zview paying) + INITIAL_BLOCK_REWARD < 2 ^ 128.
Proof. vm_compute. reflexivity. Qed.


(** The three burned by the program are gone too. *)
Example zblock_exact : total zfinal =
  total (zview paying) + INITIAL_BLOCK_REWARD - 3 - sum_z (zip_with (burned header0) (body zblock) (receipts zresult)).
Proof. vm_compute. reflexivity. Qed.
