(* ===== verification/Zrc20.v ===== *)
(** * The ZRC-20 token (crates/zbx-contracts/src/zrc20_token.rs)

    The whole token state machine: balances, allowances, minting with its
    pause and its one-way kill switch, burning, freezing, time locks, the
    transfer pause, the transfer cap and the two-step ownership.

    At the end: concrete tokens, and the theorems at them. *)

From Stdlib Require Import ZArith Lia String.
From stdpp Require Import base tactics list gmap sets numbers option.
From S2P Require Import Prelude Collections.

Local Open Scope Z_scope.

Abbreviation Address := (list Z).
Definition zero_addr : Address := replicate 20 0.

Definition MAX_BATCH_SIZE : Z := 512.
Definition UNLIMITED_CAP : Z := umax 128.

Inductive Zrc20Error : Type :=
| ZeroAddress
| NotOwner
| NotMinter
| InsufficientBalance (have need : Z)
| InsufficientAllowance (have need : Z)
| MintCapExceeded (cap would_be : Z)
| MintingPaused
| MintingFinalized
| TransferPaused
| AccountFrozen (account : Address)
| TokensLocked (transferable : Z)
| ExceedsMaxTransfer (value max : Z)
| BatchLengthMismatch
| BatchEmpty
| BatchTooLarge (max : Z)
| AlreadyFrozen
| NotFrozen
| ActiveLockExists
| LockMustGrow
| LockNotFound
| LockExpired
| UnlockTimeInPast
| InsufficientBalanceForLock (have need : Z)
| MintingAlreadyPaused
| MintingNotPaused
| AlreadyFinalized
| InvalidMinterOp
| ArithmeticOverflow.

Record LockInfo : Type := mkLock { amount : Z; unlock_time : Z }.

Record Zrc20Token : Type := mkToken {
  name : string; symbol : string; decimals : Z; logo_uri : string;
  total_supply : Z; total_burned : Z; mint_cap : Z;
  balances : gmap Address Z; allowances : gmap (Address * Address) Z;
  owner : Address; pending_owner : option Address; minters : gset Address;
  minting_paused : bool; minting_finalized : bool; transfer_paused : bool;
  max_transfer_amount : Z; frozen : gset Address; locks : gmap Address LockInfo }.

(** The three groups of fields that change together. *)
Definition set_ledger (supply burned : Z) (b : gmap Address Z) (al : gmap (Address * Address) Z)
    (t : Zrc20Token) : Zrc20Token :=
  mkToken (name t) (symbol t) (decimals t) (logo_uri t) supply burned (mint_cap t) b al
    (owner t) (pending_owner t) (minters t) (minting_paused t) (minting_finalized t) (transfer_paused t)
    (max_transfer_amount t) (frozen t) (locks t).
Definition set_roles (o : Address) (p : option Address) (ms : gset Address) (uri : string)
    (t : Zrc20Token) : Zrc20Token :=
  mkToken (name t) (symbol t) (decimals t) uri (total_supply t) (total_burned t) (mint_cap t)
    (balances t) (allowances t) o p ms (minting_paused t) (minting_finalized t) (transfer_paused t)
    (max_transfer_amount t) (frozen t) (locks t).
Definition set_controls (mp mf tp : bool) (mx : Z) (fr : gset Address) (lk : gmap Address LockInfo)
    (t : Zrc20Token) : Zrc20Token :=
  mkToken (name t) (symbol t) (decimals t) (logo_uri t) (total_supply t) (total_burned t) (mint_cap t)
    (balances t) (allowances t) (owner t) (pending_owner t) (minters t) mp mf tp mx fr lk.

Definition set_balances (b : gmap Address Z) (t : Zrc20Token) : Zrc20Token :=
  set_ledger (total_supply t) (total_burned t) b (allowances t) t.
Definition set_allowances (al : gmap (Address * Address) Z) (t : Zrc20Token) : Zrc20Token :=
  set_ledger (total_supply t) (total_burned t) (balances t) al t.
Definition set_minting (mp mf : bool) (t : Zrc20Token) : Zrc20Token :=
  set_controls mp mf (transfer_paused t) (max_transfer_amount t) (frozen t) (locks t) t.
Definition set_paused (tp : bool) (t : Zrc20Token) : Zrc20Token :=
  set_controls (minting_paused t) (minting_finalized t) tp (max_transfer_amount t) (frozen t) (locks t) t.
Definition set_max (mx : Z) (t : Zrc20Token) : Zrc20Token :=
  set_controls (minting_paused t) (minting_finalized t) (transfer_paused t) mx (frozen t) (locks t) t.
Definition set_frozen (fr : gset Address) (t : Zrc20Token) : Zrc20Token :=
  set_controls (minting_paused t) (minting_finalized t) (transfer_paused t) (max_transfer_amount t) fr (locks t) t.
Definition set_locks (lk : gmap Address LockInfo) (t : Zrc20Token) : Zrc20Token :=
  set_controls (minting_paused t) (minting_finalized t) (transfer_paused t) (max_transfer_amount t) (frozen t) lk t.

(** ** Views *)

Definition balance_of (a : Address) (t : Zrc20Token) : Z := mval (balances t) a.
Definition allowance (o s : Address) (t : Zrc20Token) : Z := mval (allowances t) (o, s).
Definition is_minter (a : Address) (t : Zrc20Token) : bool := bool_decide (a ∈ minters t).
Definition is_frozen (a : Address) (t : Zrc20Token) : bool := bool_decide (a ∈ frozen t).
Definition frozen_balance (a : Address) (t : Zrc20Token) : Z := if is_frozen a t then balance_of a t else 0.

Definition locked_balance_of (a : Address) (now : Z) (t : Zrc20Token) : Z :=
  match locks t !! a with
  | Some l => if (0 <? amount l) && (now <? unlock_time l) then amount l else 0
  | None => 0
  end.
Definition transferable_balance (a : Address) (now : Z) (t : Zrc20Token) : Z :=
  sat 128 (balance_of a t - locked_balance_of a now t).
Definition lock_info (a : Address) (t : Zrc20Token) : Z * Z :=
  match locks t !! a with Some l => (amount l, unlock_time l) | None => (0, 0) end.

(** ** Internal helpers *)

Abbreviation T := (M Zrc20Token Zrc20Error).
Definition is_zero (a : Address) : bool := bool_decide (a = zero_addr).

Definition before_transfer (from to : Address) (value now : Z) (t : Zrc20Token) : res Zrc20Error unit :=
  _ ← guard_err (transfer_paused t) TransferPaused;
  _ ← guard_err (negb (is_zero from) && is_frozen from t) (AccountFrozen from);
  _ ← guard_err (negb (is_zero to) && is_frozen to t) (AccountFrozen to);
  let locked := locked_balance_of from now t in
  let bal := balance_of from t in
  _ ← guard_err (negb (is_zero from) && (0 <? locked) && ((bal <? locked) || (bal - locked <? value)))
        (TokensLocked (if locked <? bal then bal - locked else 0));
  guard_err ((0 <? max_transfer_amount t) && negb (is_zero from) && negb (is_zero to)
             && (max_transfer_amount t <? value)) (ExceedsMaxTransfer value (max_transfer_amount t)).

Definition internal_transfer (from to : Address) (value now : Z) : T unit :=
  _ ← throw_if (is_zero from) ZeroAddress;
  _ ← throw_if (is_zero to) ZeroAddress;
  t ← get_st;
  _ ← lift (before_transfer from to value now t);
  let from_bal := balance_of from t in
  _ ← throw_if (from_bal <? value) (InsufficientBalance from_bal value);
  _ ← modify (fun t => set_balances (<[from := from_bal - value]> (balances t)) t);
  t ← get_st;
  let to_bal := balance_of to t in
  modify (fun t => set_balances (<[to := sat 128 (to_bal + value)]> (balances t)) t).

Definition internal_mint (to : Address) (value now : Z) : T unit :=
  _ ← throw_if (is_zero to) ZeroAddress;
  t ← get_st;
  _ ← lift (before_transfer zero_addr to value now t);
  new_supply ← lift_opt (checked 128 (total_supply t + value)) ArithmeticOverflow;
  _ ← throw_if (mint_cap t <? new_supply) (MintCapExceeded (mint_cap t) new_supply);
  modify (fun t => set_ledger new_supply (total_burned t)
    (<[to := sat 128 (balance_of to t + value)]> (balances t)) (allowances t) t).

Definition internal_burn (from : Address) (value now : Z) : T unit :=
  _ ← throw_if (is_zero from) ZeroAddress;
  t ← get_st;
  _ ← lift (before_transfer from zero_addr value now t);
  let bal := balance_of from t in
  _ ← throw_if (bal <? value) (InsufficientBalance bal value);
  modify (fun t => set_ledger (sat 128 (total_supply t - value)) (sat 128 (total_burned t + value))
    (<[from := bal - value]> (balances t)) (allowances t) t).

Definition spend_allowance (o s : Address) (value : Z) : T unit :=
  t ← get_st;
  let current := allowance o s t in
  if current =? umax 128 then mret tt
  else
    _ ← throw_if (current <? value) (InsufficientAllowance current value);
    modify (fun t => set_allowances (<[(o, s) := current - value]> (allowances t)) t).

(** ** Constructor *)

Definition token_new (nm sy : string) (dec initial_supply cap : Z) (uri : string) (o : Address) (now : Z)
    : res Zrc20Error Zrc20Token :=
  _ ← guard_err (is_zero o) ZeroAddress;
  let resolved_cap := if cap =? 0 then UNLIMITED_CAP else cap in
  _ ← guard_err (resolved_cap <? initial_supply) (MintCapExceeded resolved_cap initial_supply);
  let t := mkToken nm sy dec uri 0 0 resolved_cap ∅ ∅ o None {[o]} false false false 0 ∅ ∅ in
  if 0 <? initial_supply then
    match internal_mint o initial_supply now t with
    | (Ok _, t) => Ok t
    | (Err e, _) => Err e
    | (Panic, _) => Panic
    end
  else Ok t.

(** ** Operations *)

Definition transfer (from to : Address) (value now : Z) : T unit := internal_transfer from to value now.

Definition approve (o s : Address) (value : Z) : T unit :=
  _ ← throw_if (is_zero o) ZeroAddress;
  _ ← throw_if (is_zero s) ZeroAddress;
  modify (fun t => set_allowances (<[(o, s) := value]> (allowances t)) t).

Definition transfer_from (spender from to : Address) (value now : Z) : T unit :=
  _ ← spend_allowance from spender value;
  internal_transfer from to value now.

Fixpoint batch_loop (from : Address) (legs : list (Address * Z)) (now : Z) : T unit :=
  match legs with
  | [] => mret tt
  | (to, value) :: legs => _ ← internal_transfer from to value now; batch_loop from legs now
  end.

Definition batch_transfer (from : Address) (to : list Address) (values : list Z) (now : Z) : T unit :=
  _ ← throw_if (negb (zlen to =? zlen values)) BatchLengthMismatch;
  _ ← throw_if (zlen to =? 0) BatchEmpty;
  _ ← throw_if (MAX_BATCH_SIZE <? zlen to) (BatchTooLarge MAX_BATCH_SIZE);
  batch_loop from (zip to values) now.

Definition mint (caller to : Address) (value now : Z) : T unit :=
  t ← get_st;
  _ ← throw_if (negb (is_minter caller t)) NotMinter;
  _ ← throw_if (minting_finalized t) MintingFinalized;
  _ ← throw_if (minting_paused t) MintingPaused;
  internal_mint to value now.

(** [if caller != self.owner { return Err(NotOwner) }] *)
Definition only_owner (caller : Address) : T unit :=
  t ← get_st; throw_if (negb (bool_decide (caller = owner t))) NotOwner.

Definition add_minter (caller account : Address) : T unit :=
  _ ← only_owner caller;
  _ ← throw_if (is_zero account) ZeroAddress;
  modify (fun t => set_roles (owner t) (pending_owner t) ({[account]} ∪ minters t) (logo_uri t) t).

Definition remove_minter (caller account : Address) : T unit :=
  _ ← only_owner caller;
  modify (fun t => set_roles (owner t) (pending_owner t) (minters t ∖ {[account]}) (logo_uri t) t).

Definition burn (from : Address) (value now : Z) : T unit := internal_burn from value now.

Definition burn_from (spender from : Address) (value now : Z) : T unit :=
  _ ← spend_allowance from spender value;
  internal_burn from value now.

Definition pause_minting (caller : Address) : T unit :=
  _ ← only_owner caller;
  t ← get_st;
  _ ← throw_if (minting_finalized t) MintingFinalized;
  _ ← throw_if (minting_paused t) MintingAlreadyPaused;
  modify (set_minting true (minting_finalized t)).

Definition resume_minting (caller : Address) : T unit :=
  _ ← only_owner caller;
  t ← get_st;
  _ ← throw_if (minting_finalized t) MintingFinalized;
  _ ← throw_if (negb (minting_paused t)) MintingNotPaused;
  modify (set_minting false (minting_finalized t)).

Definition finalize_minting (caller : Address) : T unit :=
  _ ← only_owner caller;
  t ← get_st;
  _ ← throw_if (minting_finalized t) AlreadyFinalized;
  modify (set_minting (minting_paused t) true).

Definition pause_transfers (caller : Address) : T unit := _ ← only_owner caller; modify (set_paused true).
Definition unpause_transfers (caller : Address) : T unit := _ ← only_owner caller; modify (set_paused false).
Definition set_max_transfer_amount (caller : Address) (mx : Z) : T unit :=
  _ ← only_owner caller; modify (set_max mx).

Definition freeze (caller account : Address) : T unit :=
  _ ← only_owner caller;
  _ ← throw_if (is_zero account) ZeroAddress;
  t ← get_st;
  _ ← throw_if (is_frozen account t) AlreadyFrozen;
  modify (fun t => set_frozen ({[account]} ∪ frozen t) t).

Definition unfreeze (caller account : Address) : T unit :=
  _ ← only_owner caller;
  t ← get_st;
  _ ← throw_if (negb (is_frozen account t)) NotFrozen;
  modify (fun t => set_frozen (frozen t ∖ {[account]}) t).

Definition lock_tokens (caller account : Address) (amt unlock now : Z) : T unit :=
  _ ← only_owner caller;
  _ ← throw_if (is_zero account) ZeroAddress;
  _ ← throw_if (amt =? 0) (InsufficientBalanceForLock 0 1);
  _ ← throw_if (unlock <=? now) UnlockTimeInPast;
  t ← get_st;
  let bal := balance_of account t in
  _ ← throw_if (bal <? amt) (InsufficientBalanceForLock bal amt);
  _ ← throw_if (match locks t !! account with
                | Some l => (0 <? amount l) && (now <? unlock_time l) | None => false end) ActiveLockExists;
  modify (fun t => set_locks (<[account := mkLock amt unlock]> (locks t)) t).

Definition extend_lock (caller account : Address) (new_amount new_unlock now : Z) : T unit :=
  _ ← only_owner caller;
  t ← get_st;
  l ← lift_opt (locks t !! account) LockNotFound;
  _ ← throw_if (amount l =? 0) LockNotFound;
  _ ← throw_if (unlock_time l <=? now) LockExpired;
  _ ← throw_if (new_amount <? amount l) LockMustGrow;
  _ ← throw_if (new_unlock <? unlock_time l) LockMustGrow;
  let bal := balance_of account t in
  _ ← throw_if (bal <? new_amount) (InsufficientBalanceForLock bal new_amount);
  modify (fun t => set_locks (<[account := mkLock new_amount new_unlock]> (locks t)) t).

Definition transfer_ownership (caller new_owner : Address) : T unit :=
  _ ← only_owner caller;
  _ ← throw_if (is_zero new_owner) ZeroAddress;
  modify (fun t => set_roles (owner t) (Some new_owner) (minters t) (logo_uri t) t).

Definition accept_ownership (caller : Address) : T unit :=
  t ← get_st;
  _ ← throw_if (negb (bool_decide (pending_owner t = Some caller))) NotOwner;
  modify (fun t => set_roles caller None (minters t) (logo_uri t) t).

Definition renounce_ownership (caller : Address) : T unit :=
  _ ← only_owner caller;
  modify (fun t => set_roles zero_addr (pending_owner t) (minters t) (logo_uri t) t).

Definition update_logo_uri (caller : Address) (new_uri : string) : T string :=
  _ ← only_owner caller;
  t ← get_st;
  _ ← modify (set_roles (owner t) (pending_owner t) (minters t) new_uri);
  mret (logo_uri t).

(** ** Calls *)

Inductive token_op : Type :=
| OTransfer (from to : Address) (v now : Z)
| OApprove (o s : Address) (v : Z)
| OTransferFrom (s from to : Address) (v now : Z)
| OBatch (from : Address) (to : list Address) (vs : list Z) (now : Z)
| OMint (c to : Address) (v now : Z)
| OAddMinter (c a : Address)
| ORemoveMinter (c a : Address)
| OBurn (from : Address) (v now : Z)
| OBurnFrom (s from : Address) (v now : Z)
| OPauseMinting (c : Address)
| OResumeMinting (c : Address)
| OFinalizeMinting (c : Address)
| OPause (c : Address)
| OUnpause (c : Address)
| OSetMax (c : Address) (m : Z)
| OFreeze (c a : Address)
| OUnfreeze (c a : Address)
| OLock (c a : Address) (amt unlock now : Z)
| OExtend (c a : Address) (amt unlock now : Z)
| OTransferOwnership (c a : Address)
| OAcceptOwnership (c : Address)
| ORenounce (c : Address)
| OUri (c : Address) (u : string).

Definition token_call (o : token_op) : T unit :=
  match o with
  | OTransfer f t v n => transfer f t v n
  | OApprove o s v => approve o s v
  | OTransferFrom s f t v n => transfer_from s f t v n
  | OBatch f ts vs n => batch_transfer f ts vs n
  | OMint c t v n => mint c t v n
  | OAddMinter c a => add_minter c a
  | ORemoveMinter c a => remove_minter c a
  | OBurn f v n => burn f v n
  | OBurnFrom s f v n => burn_from s f v n
  | OPauseMinting c => pause_minting c
  | OResumeMinting c => resume_minting c
  | OFinalizeMinting c => finalize_minting c
  | OPause c => pause_transfers c
  | OUnpause c => unpause_transfers c
  | OSetMax c m => set_max_transfer_amount c m
  | OFreeze c a => freeze c a
  | OUnfreeze c a => unfreeze c a
  | OLock c a x u n => lock_tokens c a x u n
  | OExtend c a x u n => extend_lock c a x u n
  | OTransferOwnership c a => transfer_ownership c a
  | OAcceptOwnership c => accept_ownership c
  | ORenounce c => renounce_ownership c
  | OUri c u => _ ← update_logo_uri c u; mret tt
  end.

(** Amounts are u128 values. *)
Definition op_ok (o : token_op) : Prop :=
  match o with
  | OTransfer _ _ v _ | OApprove _ _ v | OTransferFrom _ _ _ v _ | OMint _ _ v _ | OBurn _ v _
  | OBurnFrom _ _ v _ => in_range 128 v
  | OBatch _ _ vs _ => Forall (in_range 128) vs
  | _ => True
  end.

(** A failed call keeps the changes it made. *)
Definition token_run (ops : list token_op) (t : Zrc20Token) : Zrc20Token :=
  fold_left (fun t o => snd (token_call o t)) ops t.

(** ** The elementary effects of a call *)

Definition moved (from to : Address) (v : Z) (t : Zrc20Token) : Zrc20Token :=
  let b := <[from := balance_of from t - v]> (balances t) in
  set_balances (<[to := sat 128 (mval b to + v)]> b) t.
Definition minted (to : Address) (v : Z) (t : Zrc20Token) : Zrc20Token :=
  set_ledger (total_supply t + v) (total_burned t) (<[to := sat 128 (balance_of to t + v)]> (balances t)) (allowances t) t.
Definition burned (from : Address) (v : Z) (t : Zrc20Token) : Zrc20Token :=
  set_ledger (sat 128 (total_supply t - v)) (sat 128 (total_burned t + v))
    (<[from := balance_of from t - v]> (balances t)) (allowances t) t.

(** The time a call claims. *)
Definition op_time (o : token_op) : option Z :=
  match o with
  | OTransfer _ _ _ n | OTransferFrom _ _ _ _ n | OBatch _ _ _ n | OMint _ _ _ n | OBurn _ _ n
  | OBurnFrom _ _ _ n | OLock _ _ _ _ n | OExtend _ _ _ _ n => Some n
  | _ => None
  end.

(** A lock survives, or grows within the balance, or had expired. *)
Definition lock_kept (o : token_op) (t : Zrc20Token) (lk : gmap Address LockInfo) : Prop :=
  forall a l, locks t !! a = Some l -> 0 < amount l ->
    (exists l', lk !! a = Some l' /\ amount l <= amount l' /\ unlock_time l <= unlock_time l' /\
       (l' = l \/ amount l' <= balance_of a t)) \/
    (exists now, op_time o = Some now /\ unlock_time l <= now).

Inductive effect (o : token_op) (t : Zrc20Token) : Zrc20Token -> Prop :=
| eff_move from to v now : op_time o = Some now -> in_range 128 v -> is_zero from = false -> is_zero to = false ->
    before_transfer from to v now t = Ok tt -> v <= balance_of from t -> effect o t (moved from to v t)
| eff_mint to v now : op_time o = Some now -> in_range 128 v -> is_zero to = false ->
    before_transfer zero_addr to v now t = Ok tt -> minting_finalized t = false -> minting_paused t = false ->
    in_range 128 (total_supply t + v) -> total_supply t + v <= mint_cap t -> effect o t (minted to v t)
| eff_burn from v now : op_time o = Some now -> in_range 128 v -> is_zero from = false ->
    before_transfer from zero_addr v now t = Ok tt -> v <= balance_of from t -> effect o t (burned from v t)
| eff_allow al : effect o t (set_allowances al t)
| eff_roles ow p ms uri : effect o t (set_roles ow p ms uri t)
| eff_controls mp mf tp mx fr lk : (minting_finalized t = true -> mf = true) ->
    (forall a, a ∈ frozen t -> a ∈ fr \/ exists c, o = OUnfreeze c a) ->
    (zero_addr ∉ frozen t -> zero_addr ∉ fr) -> lock_kept o t lk ->
    effect o t (set_controls mp mf tp mx fr lk t).

Lemma is_zero_false a : is_zero a = false <-> a <> zero_addr.
Proof. unfold is_zero. apply bool_decide_eq_false. Qed.

(** What one internal movement does, on each branch. *)
Lemma internal_transfer_cases from to v now t :
  (exists e, internal_transfer from to v now t = (Err e, t)) \/
  (is_zero from = false /\ is_zero to = false /\ before_transfer from to v now t = Ok tt /\
   v <= balance_of from t /\ internal_transfer from to v now t = (Ok tt, moved from to v t)).
Proof.
  unfold internal_transfer. open_call.
  destruct (is_zero from) eqn:Hf; [left; by eexists|]. destruct (is_zero to) eqn:Ht; [left; by eexists|].
  destruct (before_transfer from to v now t) as [[]|e|] eqn:Hb; [|left; by eexists|].
  - destruct (Z.ltb_spec (balance_of from t) v); [left; by eexists|]. right. done.
  - exfalso. revert Hb. unfold before_transfer, guard_err.
    repeat (match goal with |- context [if ?b then _ else _] => destruct b end; simpl; try done).
Qed.

Lemma internal_mint_cases to v now t :
  (exists e, internal_mint to v now t = (Err e, t)) \/
  (is_zero to = false /\ before_transfer zero_addr to v now t = Ok tt /\ in_range 128 (total_supply t + v) /\
   total_supply t + v <= mint_cap t /\ internal_mint to v now t = (Ok tt, minted to v t)).
Proof.
  unfold internal_mint. open_call.
  destruct (is_zero to) eqn:Ht; [left; by eexists|].
  destruct (before_transfer zero_addr to v now t) as [[]|e|] eqn:Hb; [|left; by eexists|].
  - destruct (checked 128 (total_supply t + v)) as [s|] eqn:Hc; simpl; [|left; by eexists].
    apply checked_Some in Hc as [-> Hr]. destruct (Z.ltb_spec (mint_cap t) (total_supply t + v)); [left; by eexists|].
    right. done.
  - exfalso. revert Hb. unfold before_transfer, guard_err.
    repeat (match goal with |- context [if ?b then _ else _] => destruct b end; simpl; try done).
Qed.

Lemma internal_burn_cases from v now t :
  (exists e, internal_burn from v now t = (Err e, t)) \/
  (is_zero from = false /\ before_transfer from zero_addr v now t = Ok tt /\ v <= balance_of from t /\
   internal_burn from v now t = (Ok tt, burned from v t)).
Proof.
  unfold internal_burn. open_call.
  destruct (is_zero from) eqn:Ht; [left; by eexists|].
  destruct (before_transfer from zero_addr v now t) as [[]|e|] eqn:Hb; [|left; by eexists|].
  - destruct (Z.ltb_spec (balance_of from t) v); [left; by eexists|]. right. done.
  - exfalso. revert Hb. unfold before_transfer, guard_err.
    repeat (match goal with |- context [if ?b then _ else _] => destruct b end; simpl; try done).
Qed.

Lemma spend_cases ow s v t :
  (exists e, spend_allowance ow s v t = (Err e, t)) \/
  (spend_allowance ow s v t = (Ok tt, t) /\ allowance ow s t = umax 128) \/
  (v <= allowance ow s t /\ allowance ow s t <> umax 128 /\
   spend_allowance ow s v t = (Ok tt, set_allowances (<[(ow, s) := allowance ow s t - v]> (allowances t)) t)).
Proof.
  unfold spend_allowance. open_call. destruct (Z.eqb_spec (allowance ow s t) (umax 128)); [right; by left|].
  destruct (Z.ltb_spec (allowance ow s t) v); [left; by eexists|]. right. by right.
Qed.

Lemma eff1 o t t' : effect o t t' -> star (effect o) t t'.
Proof. intros H. eapply star_snoc; [apply star_refl|done]. Qed.

Lemma star_app {A} (R : A -> A -> Prop) a b c : star R a b -> star R b c -> star R a c.
Proof. intros Hab Hbc. induction Hbc; [done|]. eapply star_snoc; [|done]. auto. Qed.

Lemma transfer_effect o from to v now t : op_time o = Some now -> in_range 128 v ->
  star (effect o) t (snd (internal_transfer from to v now t)).
Proof.
  intros Ho Hv. destruct (internal_transfer_cases from to v now t) as [[e ->]|(H1 & H2 & H3 & H4 & ->)];
    [apply star_refl|]. by eapply eff1, eff_move.
Qed.

Lemma burn_effect o from v now t : op_time o = Some now -> in_range 128 v ->
  star (effect o) t (snd (internal_burn from v now t)).
Proof.
  intros Ho Hv. destruct (internal_burn_cases from v now t) as [[e ->]|(H1 & H2 & H3 & ->)];
    [apply star_refl|]. by eapply eff1, eff_burn.
Qed.

Lemma batch_effect o from legs now : op_time o = Some now -> Forall (fun x => in_range 128 (snd x)) legs ->
  forall t, star (effect o) t (snd (batch_loop from legs now t)).
Proof.
  intros Ho. induction 1 as [|[to v] legs Hv Hl IH]; intros t; [apply star_refl|]. simpl.
  pose proof (transfer_effect o from to v now t Ho Hv) as He. unfold mbind, M_bind.
  destruct (internal_transfer from to v now t) as [[[]|e|] t1]; [|done..]. eapply star_app; [done|apply IH].
Qed.

Lemma lock_kept_refl o t : lock_kept o t (locks t).
Proof. intros a l Hl _. left. exists l. split_and!; [done|lia|lia|by left]. Qed.

Ltac role_call := open_call; repeat (match goal with |- context [if ?b then _ else _] => destruct b eqn:? end);
  try apply star_refl; apply eff1.

(** Every call, successful or not, is a sequence of elementary effects. *)
Lemma call_effects o t : op_ok o -> star (effect o) t (snd (token_call o t)).
Proof.
  intros Hok. destruct o as [f to v n|ow s v|s f to v n|f ts vs n|c to v n|c a|c a|f v n|s f v n|c|c|c|c|c|c m|c a|c a
    |c a x u n|c a x u n|c a|c|c|c u]; simpl in Hok; cbn [token_call].
  - by apply transfer_effect.
  - unfold approve. role_call. apply eff_allow.
  - unfold transfer_from, mbind, M_bind. destruct (spend_cases f s v t) as [[e ->]|[[-> _]|(_ & _ & ->)]];
      [apply star_refl|by apply transfer_effect|].
    eapply star_app; [apply eff1, eff_allow|by apply transfer_effect].
  - unfold batch_transfer. open_call. repeat (match goal with |- context [if ?b then _ else _] => destruct b end);
      try apply star_refl. apply batch_effect; [done|]. apply Forall_lookup. intros i [a b] Hi.
    apply lookup_zip_Some in Hi as [_ Hb]. by eapply Forall_lookup_1.
  - unfold mint. open_call. destruct (negb _); [apply star_refl|]. destruct (minting_finalized t) eqn:Hf; [apply star_refl|].
    destruct (minting_paused t) eqn:Hp; [apply star_refl|].
    destruct (internal_mint_cases to v n t) as [[e ->]|(H1 & H2 & H3 & H4 & ->)]; [apply star_refl|].
    by eapply eff1, eff_mint.
  - unfold add_minter, only_owner. role_call. apply eff_roles.
  - unfold remove_minter, only_owner. role_call. apply eff_roles.
  - by apply burn_effect.
  - unfold burn_from, mbind, M_bind. destruct (spend_cases f s v t) as [[e ->]|[[-> _]|(_ & _ & ->)]];
      [apply star_refl|by apply burn_effect|].
    eapply star_app; [apply eff1, eff_allow|by apply burn_effect].
  - unfold pause_minting, only_owner. role_call. apply eff_controls; [congruence|by left|done|apply lock_kept_refl].
  - unfold resume_minting, only_owner. role_call. apply eff_controls; [congruence|by left|done|apply lock_kept_refl].
  - unfold finalize_minting, only_owner. role_call. apply eff_controls; [congruence|by left|done|apply lock_kept_refl].
  - unfold pause_transfers, only_owner. role_call. apply eff_controls; [done|by left|done|apply lock_kept_refl].
  - unfold unpause_transfers, only_owner. role_call. apply eff_controls; [done|by left|done|apply lock_kept_refl].
  - unfold set_max_transfer_amount, only_owner. role_call. apply eff_controls; [done|by left|done|apply lock_kept_refl].
  - unfold freeze, only_owner. role_call. apply eff_controls; [done|intros; left; set_solver| |apply lock_kept_refl].
    intros Hz. apply is_zero_false in Heqb0. set_solver.
  - unfold unfreeze, only_owner. role_call. apply eff_controls; [done| |set_solver|apply lock_kept_refl].
    intros b Hb. destruct (decide (b = a)) as [->|]; [right; by eexists|left; set_solver].
  - unfold lock_tokens, only_owner. open_call.
    repeat (match goal with |- context [if ?b then _ else _] =>
      match b with context [match _ with _ => _ end] => fail 1 | _ => destruct b eqn:? end end); try apply star_refl.
    destruct (match locks t !! a with Some _ => _ | None => _ end) eqn:Hact; [apply star_refl|].
    apply eff1, eff_controls; [done|by left|done|]. intros b l Hl Hpos.
    destruct (decide (b = a)) as [->|Hne].
    + rewrite Hl in Hact. right. exists n. split; [done|]. bool_to_prop. lia.
    + left. exists l. rewrite lookup_insert_ne by done. split_and!; [done|lia|lia|by left].
  - unfold extend_lock, only_owner. open_call. destruct (negb _); [apply star_refl|].
    destruct (locks t !! a) as [l|] eqn:Hl; simpl; [|apply star_refl].
    repeat (match goal with |- context [if ?b then _ else _] => destruct b eqn:? end); try apply star_refl.
    bool_to_prop. apply eff1, eff_controls; [done|by left|done|]. intros b l' Hl' Hpos. left.
    destruct (decide (b = a)) as [->|Hne].
    + rewrite Hl in Hl'. injection Hl' as <-. exists (mkLock x u). rewrite lookup_insert_eq. simpl.
      split_and!; [done|lia|lia|right; lia].
    + exists l'. rewrite lookup_insert_ne by done. split_and!; [done|lia|lia|by left].
  - unfold transfer_ownership, only_owner. role_call. apply eff_roles.
  - unfold accept_ownership. role_call. apply eff_roles.
  - unfold renounce_ownership, only_owner. role_call. apply eff_roles.
  - unfold update_logo_uri, only_owner. role_call. apply eff_roles.
Qed.

Lemma token_run_star (P : Zrc20Token -> Prop) ops t :
  (forall o x y, o ∈ ops -> P x -> effect o x y -> P y) ->
  Forall op_ok ops -> P t -> P (token_run ops t).
Proof.
  intros Hstep. revert t. induction ops as [|o ops IH]; intros t Hok Ht; [done|].
  inversion Hok as [|? ? Ho Hops]; subst. cbn [token_run fold_left]. apply IH; [|done|].
  - intros o' x y Hin. apply Hstep. by right.
  - eapply star_invariant; [|done|by apply call_effects]. intros x y. apply Hstep. by left.
Qed.

Lemma sat_id w x : in_range w x -> sat w x = x.
Proof. unfold in_range, sat. lia. Qed.

(** ** The ledger invariant *)

Record ledger_wf (cap : Z) (t : Zrc20Token) : Prop := {
  wf_nonneg : forall a, 0 <= balance_of a t;
  wf_sum : msum (balances t) = total_supply t;
  wf_cap : total_supply t <= mint_cap t;
  wf_cap_same : mint_cap t = cap;
  wf_zero : balance_of zero_addr t = 0;
  wf_unfrozen : zero_addr ∉ frozen t }.

Lemma wf_balance_le cap t a : ledger_wf cap t -> balance_of a t <= total_supply t.
Proof. intros [Hn Hs _ _ _ _]. rewrite <-Hs. by apply mval_le_msum. Qed.

Lemma balance_moved from to v cap t a : ledger_wf cap t -> cap <= umax 128 -> 0 <= v <= balance_of from t ->
  balance_of a (moved from to v t) =
    balance_of a t - (if decide (a = from) then v else 0) + (if decide (a = to) then v else 0).
Proof.
  intros Hwf Hcap Hv. pose proof (wf_nonneg _ _ Hwf) as Hn. pose proof (wf_sum _ _ Hwf) as Hs.
  pose proof (wf_cap _ _ Hwf) as Hc. rewrite (wf_cap_same _ _ Hwf) in Hc.
  pose proof (mval_le_msum (balances t) from Hn) as Hf. unfold balance_of in *.
  unfold moved, set_balances, set_ledger, balance_of. cbn [balances]. rewrite !mval_insert.
  rewrite sat_id; [repeat case_decide; subst; try done; lia|].
  case_decide as Hd; [subst; unfold in_range; pose proof (Hn from); unfold umax in *; lia|].
  pose proof (mval_pair_le_msum (balances t) from to Hn ltac:(done)). pose proof (Hn to).
  unfold in_range, umax in *. lia.
Qed.

Lemma moved_wf cap from to v t : cap <= umax 128 -> in_range 128 v -> is_zero from = false -> is_zero to = false ->
  v <= balance_of from t -> ledger_wf cap t -> ledger_wf cap (moved from to v t).
Proof.
  intros Hcap [Hv _] Hf Ht Hle Hwf. apply is_zero_false in Hf, Ht.
  pose proof (fun a => balance_moved from to v cap t a Hwf Hcap (conj Hv Hle)) as Hb.
  destruct Hwf as [Hn Hs Hc Hcs Hz Hfr]. constructor; try done.
  - intros a. rewrite Hb. pose proof (Hn a). repeat case_decide; subst; lia.
  - pose proof (Hb to) as Hto. unfold moved, set_balances, set_ledger, balance_of in *. cbn [balances total_supply] in *.
    rewrite mval_insert, decide_True in Hto by done. rewrite Hto, !msum_insert, mval_insert.
    rewrite (decide_True _ _ eq_refl). repeat case_decide; subst; try done; lia.
  - rewrite Hb, Hz. by rewrite !decide_False by congruence.
Qed.

Lemma minted_balance cap to v t a : cap <= umax 128 -> 0 <= v -> total_supply t + v <= cap -> ledger_wf cap t ->
  balance_of a (minted to v t) = balance_of a t + (if decide (a = to) then v else 0).
Proof.
  intros Hcap Hv Hle Hwf. pose proof (wf_balance_le cap t to Hwf). pose proof (wf_nonneg _ _ Hwf to).
  unfold minted, set_ledger, balance_of in *. cbn [balances]. rewrite mval_insert, sat_id.
  - case_decide; subst; lia.
  - unfold in_range, umax in *. lia.
Qed.

Lemma minted_wf cap to v t : cap <= umax 128 -> in_range 128 v -> is_zero to = false ->
  total_supply t + v <= mint_cap t -> ledger_wf cap t -> ledger_wf cap (minted to v t).
Proof.
  intros Hcap [Hv _] Ht Hle Hwf. apply is_zero_false in Ht. rewrite (wf_cap_same _ _ Hwf) in Hle.
  pose proof (fun a => minted_balance cap to v t a Hcap Hv Hle Hwf) as Hb.
  destruct Hwf as [Hn Hs Hc Hcs Hz Hfr]. constructor; try done.
  - intros a. rewrite Hb. pose proof (Hn a). case_decide; lia.
  - pose proof (Hb to) as Hto. unfold minted, set_ledger, balance_of in *. cbn [balances total_supply] in *.
    rewrite mval_insert, decide_True in Hto by done. rewrite (decide_True _ _ eq_refl) in Hto.
    rewrite Hto, msum_insert. lia.
  - cbn. lia.
  - rewrite Hb, Hz, decide_False by congruence. lia.
Qed.

Lemma burned_wf cap from v t : cap <= umax 128 -> in_range 128 v -> is_zero from = false ->
  v <= balance_of from t -> ledger_wf cap t -> ledger_wf cap (burned from v t) /\
  total_supply (burned from v t) = total_supply t - v.
Proof.
  intros Hcap [Hv _] Hf Hle Hwf. apply is_zero_false in Hf. pose proof (wf_balance_le cap t from Hwf).
  destruct Hwf as [Hn Hs Hc Hcs Hz Hfr].
  assert (Hsup : total_supply (burned from v t) = total_supply t - v).
  { unfold burned, set_ledger. cbn [total_supply]. apply sat_id. unfold in_range, umax in *. lia. }
  split; [|done]. constructor; try done.
  - intros a. unfold burned, set_ledger, balance_of in *. cbn [balances]. rewrite mval_insert.
    pose proof (Hn a). case_decide; subst; lia.
  - rewrite Hsup. unfold burned, set_ledger, balance_of in *. cbn [balances]. rewrite msum_insert. lia.
  - rewrite Hsup. cbn. lia.
  - unfold burned, set_ledger, balance_of in *. cbn [balances]. rewrite mval_insert, decide_False by congruence. done.
Qed.

Lemma effect_wf cap o t t' : cap <= umax 128 -> effect o t t' -> ledger_wf cap t -> ledger_wf cap t'.
Proof.
  intros Hcap He Hwf. destruct He; [by apply moved_wf|by apply minted_wf|by apply burned_wf|..];
    destruct Hwf; by constructor; auto.
Qed.

Definition resolved_cap (cap : Z) : Z := if cap =? 0 then UNLIMITED_CAP else cap.

Lemma token_new_wf nm sy dec s cap uri o now t : in_range 128 s -> in_range 128 cap ->
  token_new nm sy dec s cap uri o now = Ok t -> ledger_wf (resolved_cap cap) t.
Proof.
  intros Hs Hcap. unfold token_new. fold (resolved_cap cap).
  destruct (is_zero o) eqn:Ho; [done|]. cbn [guard_err mbind res_bind].
  destruct (resolved_cap cap <? s) eqn:Hc; [done|]. cbn [guard_err mbind res_bind].
  set (t0 := mkToken _ _ _ _ _ _ _ _ _ _ _ _ _ _ _ _ _ _).
  assert (H0 : ledger_wf (resolved_cap cap) t0).
  { assert (Hb : forall a, balance_of a t0 = 0) by (intros a; apply mval_empty).
    constructor; try done. unfold t0, resolved_cap, UNLIMITED_CAP, umax, in_range in *.
    cbn [total_supply mint_cap]. case_match; lia. }
  assert (Hle : resolved_cap cap <= umax 128).
  { unfold resolved_cap, UNLIMITED_CAP, umax, in_range in *. case_match; lia. }
  destruct (0 <? s); [|by intros [= <-]].
  destruct (internal_mint_cases o s now t0) as [[e ->]|(_ & _ & _ & Hm & ->)]; [done|].
  intros [= <-]. by apply minted_wf.
Qed.


(** ** The controls: minting finality, freezes and locks *)

Definition active_lock (a : Address) (l : LockInfo) (t : Zrc20Token) : Prop :=
  exists l', locks t !! a = Some l' /\ amount l <= amount l' /\ unlock_time l <= unlock_time l' /\
    amount l' <= balance_of a t.

Lemma before_transfer_ok from to v now t : before_transfer from to v now t = Ok tt ->
  transfer_paused t = false /\ (is_zero from = false -> from ∉ frozen t) /\ (is_zero to = false -> to ∉ frozen t) /\
  (is_zero from = false -> 0 < locked_balance_of from now t ->
     locked_balance_of from now t + v <= balance_of from t) /\
  (is_zero from = false -> is_zero to = false -> 0 < max_transfer_amount t -> v <= max_transfer_amount t).
Proof.
  unfold before_transfer. cbv zeta. unfold is_frozen.
  destruct (transfer_paused t); [done|]. cbn [guard_err mbind res_bind].
  destruct (is_zero from), (is_zero to); cbn [negb andb]; rewrite ?andb_true_r, ?andb_false_r;
    cbn [guard_err mbind res_bind]; repeat case_bool_decide; cbn [guard_err mbind res_bind]; try done;
    repeat (match goal with |- context [guard_err ?b _] => destruct b eqn:? end;
            cbn [guard_err mbind res_bind]; try done); intros _; split_and!; try done; bool_to_prop; lia.
Qed.

Lemma locked_now a now t l : locks t !! a = Some l -> 0 < amount l -> now < unlock_time l ->
  locked_balance_of a now t = amount l.
Proof.
  intros Hl Ha Hn. unfold locked_balance_of. rewrite Hl.
  by rewrite (proj2 (Z.ltb_lt 0 _) Ha), (proj2 (Z.ltb_lt now _) Hn).
Qed.

(** Nothing leaves below an active lock. *)
Lemma lock_spend a l from to v now t : 0 < amount l -> now < unlock_time l -> active_lock a l t ->
  is_zero from = false -> before_transfer from to v now t = Ok tt -> from = a ->
  exists l', locks t !! a = Some l' /\ amount l <= amount l' /\ unlock_time l <= unlock_time l' /\
    amount l' + v <= balance_of a t.
Proof.
  intros Ha Hn (l' & Hl & Hle & Hu & Hb) Hz Hok ->. apply before_transfer_ok in Hok as (_ & _ & _ & H & _).
  rewrite (locked_now a now t l') in H by (done || lia). exists l'. split_and!; try done. apply H; [done|lia].
Qed.

Lemma effect_lock cap a l o t t' : cap <= umax 128 -> ledger_wf cap t -> 0 < amount l ->
  (forall now, op_time o = Some now -> now < unlock_time l) ->
  effect o t t' -> active_lock a l t -> active_lock a l t'.
Proof.
  intros Hcap Hwf Ha Ht He Hl. destruct He as [from to v now Ho [Hv _] Hf Hto Hb Hle|to v now Ho [Hv _] Hto Hb Hmf Hmp Hr Hle
    |from v now Ho [Hv _] Hf Hb Hle|al|ow p ms uri|mp mf tp mx fr lk Hmf Hfr Hzf Hk]; try done.
  - specialize (Ht now Ho). pose proof (balance_moved from to v cap t a Hwf Hcap (conj Hv Hle)) as Hba.
    destruct (decide (from = a)) as [->|Hne].
    + destruct (lock_spend a l a to v now t Ha Ht Hl Hf Hb eq_refl) as (l' & H1 & H2 & H3 & H4).
      exists l'. split_and!; try done. rewrite Hba, decide_True by done. clear Hba. case_decide; lia.
    + destruct Hl as (l' & H1 & H2 & H3 & H4). exists l'. split_and!; try done. rewrite Hba.
      rewrite decide_False by done. clear Hba. case_decide; lia.
  - destruct Hl as (l' & H1 & H2 & H3 & H4). exists l'. split_and!; try done.
    rewrite (minted_balance cap) by (done || rewrite <-(wf_cap_same _ _ Hwf); lia). case_decide; lia.
  - specialize (Ht now Ho). unfold active_lock, burned, set_ledger, balance_of. cbn [locks balances].
    destruct (decide (from = a)) as [->|Hne].
    + destruct (lock_spend a l a zero_addr v now t Ha Ht Hl Hf Hb eq_refl) as (l' & H1 & H2 & H3 & H4).
      exists l'. split_and!; try done. rewrite mval_insert, decide_True by done. unfold balance_of in *. lia.
    + destruct Hl as (l' & H1 & H2 & H3 & H4). exists l'. split_and!; try done. by rewrite mval_insert, decide_False.
  - destruct Hl as (l0 & H1 & H2 & H3 & H4). destruct (Hk a l0 H1 ltac:(lia)) as [(l' & H5 & H6 & H7 & H8)|(now & Hn & Hle)].
    + exists l'. split_and!; [done|lia|lia|]. change (balance_of a _) with (balance_of a t). destruct H8 as [->|]; lia.
    + specialize (Ht now Hn). lia.
Qed.

Lemma effect_frozen cap a o t t' : cap <= umax 128 -> ledger_wf cap t -> (forall c, o <> OUnfreeze c a) ->
  effect o t t' -> a ∈ frozen t -> a ∈ frozen t' /\ balance_of a t' = balance_of a t.
Proof.
  intros Hcap Hwf Ho He Ha. assert (Hz : a <> zero_addr).
  { intros ->. by apply (wf_unfrozen _ _ Hwf). }
  destruct He as [from to v now _ [Hv _] Hf Hto Hb Hle|to v now _ [Hv _] Hto Hb _ _ Hr Hle
    |from v now _ [Hv _] Hf Hb Hle|al|ow p ms uri|mp mf tp mx fr lk Hmf Hfr Hzf Hk]; try done;
    try (apply before_transfer_ok in Hb as (_ & Hnf & Hnt & _)).
  - split; [done|]. rewrite (balance_moved from to v cap) by done.
    rewrite !decide_False; [lia|intros ->; by apply Hnt|intros ->; by apply Hnf].
  - split; [done|]. rewrite (minted_balance cap) by (done || rewrite <-(wf_cap_same _ _ Hwf); lia).
    rewrite decide_False; [lia|]. intros ->. by apply Hnt.
  - split; [done|]. unfold burned, set_ledger, balance_of. cbn [balances].
    rewrite mval_insert, decide_False; [done|]. intros ->. by apply Hnf.
  - split; [|done]. destruct (Hfr a Ha) as [|[c Hc]]; [done|]. by destruct (Ho c).
Qed.

Lemma effect_final cap o t t' : cap <= umax 128 -> ledger_wf cap t -> effect o t t' -> minting_finalized t = true ->
  minting_finalized t' = true /\ total_supply t' <= total_supply t.
Proof.
  intros Hcap Hwf He Hm. destruct He as [| |from v now _ Hv Hf Hb Hle| | |mp mf tp mx fr lk Hmf]; try done; try congruence.
  - pose proof (burned_wf cap from v t Hcap Hv Hf Hle Hwf) as [_ ->]. split; [done|]. destruct Hv. lia.
  - split; [auto|done].
Qed.

(** C20. The token's controls hold against any sequence of calls. Once minting
    is finalized it stays so and the supply never grows again, whatever
    the owner and the minters call. A frozen account keeps its exact balance
    until a call to [unfreeze] names it. A lock covered by the balance keeps
    at least the locked amount in the account for as long as the calls'
    times are before its unlock time, extensions included. *)
Theorem zrc20_controls cap t ops : cap <= umax 128 -> ledger_wf cap t -> Forall op_ok ops ->
  let t' := token_run ops t in
  (minting_finalized t = true -> minting_finalized t' = true /\ total_supply t' <= total_supply t) /\
  (forall a, a ∈ frozen t -> (forall c, OUnfreeze c a ∉ ops) ->
     a ∈ frozen t' /\ balance_of a t' = balance_of a t) /\
  (forall a l, 0 < amount l -> locks t !! a = Some l -> amount l <= balance_of a t ->
     (forall o now, o ∈ ops -> op_time o = Some now -> now < unlock_time l) ->
     amount l <= balance_of a t' /\ exists l', locks t' !! a = Some l' /\
       amount l <= amount l' /\ unlock_time l <= unlock_time l').
Proof.
  intros Hcap Hwf Hok t'. split_and!.
  - intros Hm. apply (token_run_star (fun x => ledger_wf cap x /\ minting_finalized x = true /\ total_supply x <= total_supply t));
      [|done|done]. intros o x y _ (Hx & Hxm & Hxs) He. split; [by eapply effect_wf|].
    destruct (effect_final cap o x y Hcap Hx He Hxm). split; [done|lia].
  - intros a Ha Hno.
    apply (token_run_star (fun x => ledger_wf cap x /\ a ∈ frozen x /\ balance_of a x = balance_of a t)); [|done|done].
    intros o x y Ho (Hx & Hxa & Hxb) He. split; [by eapply effect_wf|]. rewrite <-Hxb.
    eapply effect_frozen; try done. intros c ->. by apply (Hno c).
  - intros a l Ha Hl Hb Ht.
    assert (H : ledger_wf cap t' /\ active_lock a l t').
    { apply (token_run_star (fun x => ledger_wf cap x /\ active_lock a l x)); [|done|].
      - intros o x y Ho [Hx Hxl] He. split; [by eapply effect_wf|]. eapply effect_lock; try done. intros now. by apply Ht.
      - split; [done|]. exists l. split_and!; try done. }
    destruct H as [_ (l' & H1 & H2 & H3 & H4)]. split; [lia|]. by exists l'.
Qed.

(** What [transfer] does, on every branch: it succeeds exactly when
    both addresses are non-zero, transfers are not paused, neither account is
    frozen, the amount fits the balance less an active lock and, when
    set, the transfer cap; success moves the amount and nothing else, a
    transfer to oneself included, and a failure changes nothing. *)
Theorem zrc20_transfer cap from to v now t : cap <= umax 128 -> ledger_wf cap t -> in_range 128 v ->
  let '(r, t') := transfer from to v now t in
  (is_ok r = true <->
    from <> zero_addr /\ to <> zero_addr /\ transfer_paused t = false /\ from ∉ frozen t /\ to ∉ frozen t /\
    (0 < locked_balance_of from now t -> locked_balance_of from now t + v <= balance_of from t) /\
    (0 < max_transfer_amount t -> v <= max_transfer_amount t) /\ v <= balance_of from t) /\
  (is_ok r = false -> t' = t) /\
  (is_ok r = true -> t' = set_balances (balances t') t /\
     forall a, balance_of a t' =
       balance_of a t - (if decide (a = from) then v else 0) + (if decide (a = to) then v else 0)).
Proof.
  intros Hcap Hwf [Hv Hv2]. unfold transfer.
  destruct (internal_transfer_cases from to v now t) as [[e He]|(Hf & Ht & Hb & Hle & ->)].
  - rewrite He. cbn [is_ok]. split_and!; [|done|done]. split; [done|]. intros (Hf & Ht & Hp & Hff & Hft & Hl & Hm & Hle).
    exfalso. apply is_zero_false in Hf, Ht. revert He. unfold internal_transfer. open_call. rewrite Hf, Ht.
    assert (Hbt : before_transfer from to v now t = Ok tt); [|rewrite Hbt; by rewrite (proj2 (Z.ltb_ge _ _) Hle)].
    unfold before_transfer, is_frozen. cbv zeta. rewrite Hf, Ht, Hp.
    rewrite !bool_decide_eq_false_2 by done. cbn [negb andb guard_err mbind res_bind].
    rewrite !andb_true_r, ?andb_true_l. destruct (Z.ltb_spec 0 (locked_balance_of from now t)) as [Hpos|Hneg].
    + specialize (Hl Hpos).
      rewrite (proj2 (Z.ltb_ge (balance_of from t) (locked_balance_of from now t))) by lia. cbn [orb andb].
      rewrite (proj2 (Z.ltb_ge (balance_of from t - locked_balance_of from now t) v)) by lia.
      cbn [guard_err mbind res_bind].
      destruct (Z.ltb_spec 0 (max_transfer_amount t)); [|done]. cbn [andb]. by rewrite (proj2 (Z.ltb_ge _ _)) by auto.
    + cbn [andb guard_err mbind res_bind].
      destruct (Z.ltb_spec 0 (max_transfer_amount t)); [|done]. cbn [andb]. by rewrite (proj2 (Z.ltb_ge _ _)) by auto.
  - cbn [is_ok]. split_and!; [|done|].
    + split; [intros _|done]. apply before_transfer_ok in Hb as (H1 & H2 & H3 & H4 & H5).
      split_and!; try (by apply is_zero_false); auto.
    + intros _. split; [done|]. intros a. by apply (balance_moved from to v cap).
Qed.

(** A failed [transfer_from] has already spent the allowance. *)
Theorem zrc20_transfer_from_spends spender from to v now t e :
  allowance from spender t <> umax 128 -> v <= allowance from spender t ->
  internal_transfer from to v now t = (Err e, t) ->
  exists e' t', transfer_from spender from to v now t = (Err e', t') /\
    allowance from spender t' = allowance from spender t - v /\ balances t' = balances t.
Proof.
  intros Hne Hle He. unfold transfer_from, mbind, M_bind.
  destruct (spend_cases from spender v t) as [[e0 He0]|[[_ ?]|(_ & _ & ->)]]; [|done|].
  - exfalso. revert He0. unfold spend_allowance. open_call. rewrite (proj2 (Z.eqb_neq _ _) Hne).
    by rewrite (proj2 (Z.ltb_ge _ _) Hle).
  - set (t1 := set_allowances _ t). exists e, t1. split; [|split; [unfold allowance, t1; cbn; by rewrite mval_insert, decide_True|done]].
    destruct (internal_transfer_cases from to v now t1) as [[e1 He1]|(Hf & Ht & Hb & Hl & _)].
    + rewrite He1. f_equal. revert He He1. unfold internal_transfer. open_call.
      change (before_transfer from to v now t1) with (before_transfer from to v now t).
      change (balance_of from t1) with (balance_of from t).
      destruct (is_zero from), (is_zero to); try congruence.
      destruct (before_transfer from to v now t) as [[]| |]; try congruence. case_match; congruence.
    + exfalso. revert He. unfold internal_transfer. open_call. rewrite Hf, Ht.
      change (before_transfer from to v now t1) with (before_transfer from to v now t) in Hb.
      change (balance_of from t1) with (balance_of from t) in Hl. rewrite Hb.
      by rewrite (proj2 (Z.ltb_ge _ _) Hl).
Qed.

(** Renouncing leaves the pending owner: an earlier nominee can still take
    the ownership of a token that has been renounced. *)
Theorem zrc20_renounce_regained c n t : pending_owner t = Some n -> c = owner t ->
  let t1 := snd (renounce_ownership c t) in
  owner t1 = zero_addr /\ fst (accept_ownership n t1) = Ok tt /\ owner (snd (accept_ownership n t1)) = n.
Proof.
  intros Hp ->. unfold renounce_ownership, only_owner, accept_ownership. open_call.
  rewrite bool_decide_eq_true_2 by done. cbn [negb snd]. cbn [pending_owner set_roles]. rewrite Hp.
  by rewrite bool_decide_eq_true_2.
Qed.

(** * Concrete token runs

    A deployed token and short call sequences at which the token's theorems
    apply. *)

Definition alice : Address := replicate 20 1.
Definition bob : Address := replicate 20 2.
Definition carol : Address := replicate 20 3.

Definition deployed : res Zrc20Error Zrc20Token :=
  token_new "Zebvix" "ZBX" 18 1000 5000 "ipfs://logo" alice 100.
Definition token0 : Zrc20Token :=
  match deployed with Ok t => t | _ => mkToken "" "" 0 "" 0 0 0 ∅ ∅ [] None ∅ false false false 0 ∅ ∅ end.

(** Transfers, an over-spend, a mint past the cap and a burn. *)
Definition ops1 : list token_op :=
  [OTransfer alice bob 300 100; OTransfer bob carol 400 101; OMint alice carol 4500 102; OMint alice carol 50 103;
   OApprove bob carol 100; OTransferFrom carol bob alice 60 104; OBatch alice [bob; zero_addr] [1; 2] 105; OBurn carol 20 106].

(** Finalize, freeze carol, lock 200 of bob, and then try to get around each. *)
Definition setup : list token_op :=
  [OTransfer alice bob 300 100; OTransfer alice carol 50 100; OFinalizeMinting alice; OFreeze alice carol;
   OLock alice bob 200 500 101].
Definition ops2 : list token_op :=
  [OMint alice bob 1 102; OTransfer bob alice 150 103; OTransfer bob alice 100 104; OTransfer carol alice 1 105;
   OExtend alice bob 200 600 106; OBurn bob 1 107].

Example ops1_result :
  let t := token_run ops1 token0 in
  (balance_of alice t, balance_of bob t, balance_of carol t, total_supply t) = (759, 241, 30, 1030).
Proof. vm_compute. reflexivity. Qed.


Definition token1 : Zrc20Token := token_run setup token0.

Lemma token0_wf : ledger_wf 5000 token0.
Proof.
  apply (token_new_wf "Zebvix" "ZBX" 18 1000 5000 "ipfs://logo" alice 100); [unfold in_range; lia..|].
  vm_compute. reflexivity.
Qed.

Lemma ops_ok_dec ops : forallb (fun o => match o with
    | OTransfer _ _ v _ | OApprove _ _ v | OTransferFrom _ _ _ v _ | OMint _ _ v _ | OBurn _ v _
    | OBurnFrom _ _ v _ => (0 <=? v) && (v <? 2 ^ 128)
    | OBatch _ _ _ _ => false
    | _ => true end) ops = true -> Forall op_ok ops.
Proof.
  induction ops as [|o ops IH]; [done|]. cbn [forallb]. intros [Ho H]%andb_prop. constructor; [|auto].
  destruct o; cbn [op_ok]; try done; bool_to_prop; split; lia.
Qed.

Lemma token1_wf : ledger_wf 5000 token1.
Proof.
  apply (token_run_star (ledger_wf 5000)); [|apply ops_ok_dec; vm_compute; reflexivity|exact token0_wf].
  intros o x y _ Hx He. eapply effect_wf; try done.
Qed.

Lemma zrc20_controls_witness :
  minting_finalized token1 = true /\ carol ∈ frozen token1 /\ locks token1 !! bob = Some (mkLock 200 500) /\
  total_supply (token_run ops2 token1) <= total_supply token1 /\
  balance_of carol (token_run ops2 token1) = balance_of carol token1 /\ 200 <= balance_of bob (token_run ops2 token1).
Proof.
  destruct (zrc20_controls 5000 token1 ops2) as (H1 & H2 & H3);
    [vm_compute; discriminate|exact token1_wf|apply ops_ok_dec; vm_compute; reflexivity|].
  assert (Hm : minting_finalized token1 = true) by (vm_compute; reflexivity).
  assert (Hc : carol ∈ frozen token1) by (apply (bool_decide_eq_true_1 (carol ∈ frozen token1)); vm_compute; reflexivity).
  assert (Hl : locks token1 !! bob = Some (mkLock 200 500)) by (vm_compute; reflexivity).
  split; [exact Hm|]. split; [exact Hc|]. split; [exact Hl|].
  split; [exact (proj2 (H1 Hm))|]. split.
  - apply (H2 carol Hc). intros c Hin. unfold ops2 in Hin. repeat (apply elem_of_cons in Hin as [Hin|Hin]; [discriminate|]).
    destruct (proj1 (elem_of_nil _) Hin).
  - refine (proj1 (H3 bob (mkLock 200 500) _ Hl _ _)); [simpl; lia|vm_compute; discriminate|].
    intros o now Hin Ho. cbn [unlock_time]. unfold ops2 in Hin.
    repeat (apply elem_of_cons in Hin as [->|Hin]; [cbn in Ho; injection Ho as <-; lia|]). destruct (proj1 (elem_of_nil _) Hin).
Defined.

Lemma zrc20_transfer_witness :
  balance_of bob (snd (transfer alice bob 300 100 token0)) = balance_of bob token0 + 300.
Proof.
  pose proof (zrc20_transfer 5000 alice bob 300 100 token0 ltac:(vm_compute; discriminate) token0_wf
    ltac:(unfold in_range; lia)) as H.
  assert (Hr : is_ok (fst (transfer alice bob 300 100 token0)) = true) by (vm_compute; reflexivity).
  destruct (transfer alice bob 300 100 token0) as [r t']. destruct H as (_ & _ & H).
  cbn [fst snd] in *. destruct (H Hr) as [_ Hb]. rewrite (Hb bob).
  destruct (decide (bob = alice)) as [E|_]; [discriminate E|]. destruct (decide (bob = bob)); [lia|done].
Defined.
