(* ===== verification/Timelock.v ===== *)
(** * The timelock of governance (crates/zbx-contracts/src/timelock.rs)

    Operations queued with a delay, executed once, vetoed by the guardian.
    SHA3-256 is a parameter.  A method either fails and changes nothing or
    does what its cases lemma says. *)

From Stdlib Require Import ZArith Lia.
From stdpp Require Import base tactics list gmap numbers option.
From S2P Require Import Prelude Bytes Crypto.

Local Open Scope Z_scope.

Definition MIN_DELAY_SECS : Z := 2 * 24 * 3600.
Definition MAX_DELAY_SECS : Z := 30 * 24 * 3600.

Record Call : Type := mkCall { target : Address; calldata : bytes; value : Z }.

Inductive OperationState : Type :=
| Pending (eta : Z)
| Ready
| Done
| Cancelled.

#[export] Instance OperationState_eq_dec : EqDecision OperationState.
Proof. solve_decision. Defined.

Record TimelockOperation : Type := mkOperation {
  op_id : Hash; op_calls : list Call; predecessor : option Hash; op_salt : Hash;
  op_state : OperationState; op_proposer : Address }.

Inductive TimelockError : Type :=
| AlreadyQueued (id : Hash)
| NotFound (id : Hash)
| NotReady (now eta : Z)
| PredecessorPending (id : Hash)
| NotPending
| AlreadyDone
| CancelledError
| NotGuardian
| NotAdmin
| InvalidDelay (delay min max : Z).

Record TimelockController : Type := mkTimelock {
  operations : gmap Hash TimelockOperation; delay : Z; guardian : Address; admin : Address }.

Definition set_operations (m : gmap Hash TimelockOperation) (t : TimelockController) : TimelockController :=
  mkTimelock m (delay t) (guardian t) (admin t).
Definition with_state (st : OperationState) (o : TimelockOperation) : TimelockOperation :=
  mkOperation (op_id o) (op_calls o) (predecessor o) (op_salt o) st (op_proposer o).

Definition delay_ok (d : Z) : bool := (MIN_DELAY_SECS <=? d) && (d <=? MAX_DELAY_SECS).

Definition timelock_new (d : Z) (g a : Address) : res TimelockError TimelockController :=
  _ ← guard_err ((d <? MIN_DELAY_SECS) || (MAX_DELAY_SECS <? d)) (InvalidDelay d MIN_DELAY_SECS MAX_DELAY_SECS);
  Ok (mkTimelock ∅ d g a).

Abbreviation TL := (M TimelockController TimelockError).

Section timelock.
Context {SH : Sha3}.

(** The bytes that the hasher is fed, call after call. *)
Definition operation_bytes (calls : list Call) (pred : option Hash) (salt : Hash) : bytes :=
  concat (map (fun c => target c ++ calldata c ++ to_be 16 (value c)) calls)
  ++ default (replicate 32 0) pred ++ salt.

Definition hash_operation (calls : list Call) (pred : option Hash) (salt : Hash) : Hash :=
  sha3_256 (operation_bytes calls pred salt).

Definition schedule (proposer : Address) (calls : list Call) (pred : option Hash) (salt : Hash) (now : Z) : TL Hash :=
  let id := hash_operation calls pred salt in
  t ← get_st;
  _ ← throw_if (bool_decide (is_Some (operations t !! id))) (AlreadyQueued id);
  let eta := u64 (now + delay t) in
  _ ← modify (fun t => set_operations
        (<[id := mkOperation id calls pred salt (Pending eta) proposer]> (operations t)) t);
  mret id.

(** The checks of [execute] on the operation found. *)
Definition may_execute (t : TimelockController) (o : TimelockOperation) (now : Z) : res TimelockError unit :=
  match op_state o with
  | Pending eta =>
    _ ← guard_err (now <? eta) (NotReady now eta);
    match predecessor o with
    | Some pred =>
      let pred_done := match operations t !! pred with
                       | Some p => bool_decide (op_state p = Done) | None => false end in
      guard_err (negb pred_done) (PredecessorPending pred)
    | None => Ok tt
    end
  | Done => Err AlreadyDone
  | Cancelled => Err CancelledError
  | Ready => Ok tt
  end.

Definition tl_execute (id : Hash) (now : Z) : TL (list Call) :=
  t ← get_st;
  o ← lift_opt (operations t !! id) (NotFound id);
  _ ← lift (may_execute t o now);
  _ ← modify (fun t => set_operations (<[id := with_state Done o]> (operations t)) t);
  mret (op_calls o).

Definition tl_cancel (id : Hash) (caller : Address) : TL unit :=
  t ← get_st;
  _ ← throw_if (negb (bool_decide (caller = guardian t))) NotGuardian;
  o ← lift_opt (operations t !! id) (NotFound id);
  match op_state o with
  | Pending _ | Ready => modify (fun t => set_operations (<[id := with_state Cancelled o]> (operations t)) t)
  | Done => throw AlreadyDone
  | Cancelled => throw CancelledError
  end.

Definition update_delay (caller : Address) (new_delay : Z) : TL unit :=
  t ← get_st;
  _ ← throw_if (negb (bool_decide (caller = admin t))) NotAdmin;
  _ ← throw_if ((new_delay <? MIN_DELAY_SECS) || (MAX_DELAY_SECS <? new_delay))
        (InvalidDelay new_delay MIN_DELAY_SECS MAX_DELAY_SECS);
  modify (fun t => mkTimelock (operations t) new_delay (guardian t) (admin t)).

Definition tl_state (id : Hash) (t : TimelockController) : option OperationState :=
  op_state <$> operations t !! id.

Definition is_ready (id : Hash) (now : Z) (t : TimelockController) : bool :=
  match operations t !! id with
  | Some o => match op_state o with Pending eta => eta <=? now | _ => false end
  | None => false
  end.

(** ** The outcomes of the methods *)

Lemma schedule_cases proposer calls pred salt now t :
  let id := hash_operation calls pred salt in
  (is_Some (operations t !! id) /\ schedule proposer calls pred salt now t = (Err (AlreadyQueued id), t)) \/
  (operations t !! id = None /\ schedule proposer calls pred salt now t =
     (Ok id, set_operations (<[id := mkOperation id calls pred salt (Pending (u64 (now + delay t))) proposer]>
                               (operations t)) t)).
Proof.
  intros id. unfold schedule. fold id. open_call. case_bool_decide as Hs; [by left|]. right.
  split; [by apply eq_None_not_Some|done].
Qed.

Lemma execute_cases id now t :
  (exists e, tl_execute id now t = (Err e, t)) \/
  (exists o, operations t !! id = Some o /\ may_execute t o now = Ok tt /\
     tl_execute id now t = (Ok (op_calls o), set_operations (<[id := with_state Done o]> (operations t)) t)).
Proof.
  unfold tl_execute. open_call. destruct (operations t !! id) as [o|] eqn:Ho; [|left; by eexists].
  cbn. destruct (may_execute t o now) as [[]|e|] eqn:Hm; cbn; [right; by exists o|left; by eexists|].
  exfalso. revert Hm. unfold may_execute, guard_err. clear. repeat (case_goal; try done).
Qed.

(** An operation may run only when pending with its time come, or [Ready]. *)
Lemma may_execute_state t o now : may_execute t o now = Ok tt ->
  (exists eta, op_state o = Pending eta /\ eta <= now) \/ op_state o = Ready.
Proof.
  unfold may_execute, guard_err. destruct (op_state o) as [eta| | |]; try done; [|by right].
  destruct (Z.ltb_spec now eta); [done|]. intros _. left. by exists eta.
Qed.

Lemma cancel_cases id caller t :
  (exists e, tl_cancel id caller t = (Err e, t)) \/
  (exists o, operations t !! id = Some o /\ caller = guardian t /\
     (op_state o = Ready \/ exists eta, op_state o = Pending eta) /\
     tl_cancel id caller t = (Ok tt, set_operations (<[id := with_state Cancelled o]> (operations t)) t)).
Proof.
  unfold tl_cancel. open_call. case_bool_decide as Hc; cbn; [|left; by eexists].
  destruct (operations t !! id) as [o|] eqn:Ho; [|left; by eexists]. cbn.
  destruct (op_state o) eqn:Hs; try (left; by eexists); right; exists o; rewrite Hs; eauto 10.
Qed.

Lemma update_delay_cases caller d t :
  (exists e, update_delay caller d t = (Err e, t)) \/
  (delay_ok d = true /\ caller = admin t /\
     update_delay caller d t = (Ok tt, mkTimelock (operations t) d (guardian t) (admin t))).
Proof.
  unfold update_delay. open_call. case_bool_decide as Hc; cbn; [|left; by eexists].
  unfold delay_ok. destruct (Z.ltb_spec d MIN_DELAY_SECS); [left; by eexists|].
  destruct (Z.ltb_spec MAX_DELAY_SECS d); [left; by eexists|]. right.
  rewrite (proj2 (Z.leb_le _ _)), (proj2 (Z.leb_le _ _)) by lia. done.
Qed.

(** Readiness is what [execute] asks for, the predecessor apart. *)
Lemma is_ready_executes id now t o : operations t !! id = Some o -> predecessor o = None -> is_ready id now t = true ->
  tl_execute id now t = (Ok (op_calls o), set_operations (<[id := with_state Done o]> (operations t)) t).
Proof.
  intros Ho Hp. unfold is_ready, tl_execute, may_execute. open_call. rewrite Ho. cbn. rewrite Hp.
  destruct (op_state o) as [eta| | |]; try done. intros Hr. apply Z.leb_le in Hr.
  unfold guard_err. destruct (Z.ltb_spec now eta); [lia|done].
Qed.
End timelock.
