(* ===== verification/Governor.v ===== *)
(** * On-chain governance (crates/zbx-contracts/src/governor_v2.rs)

    Delegated votes, proposals with the calls they carry, the snapshot of the
    voting power, and the way of an accepted proposal through the timelock of
    Timelock.v.  [governor_dispatches] says what stands behind every call that
    governance hands out. *)

From Stdlib Require Import ZArith Lia String.
From stdpp Require Import base tactics list gmap numbers option.
From S2P Require Import Prelude Bytes Crypto Collections Timelock.

Local Open Scope Z_scope.

Inductive ProposalState : Type :=
| Pending
| Active (vote_start vote_end : Z)
| Succeeded
| Defeated
| Queued (timelock_id : Hash)
| Executed
| Cancelled.

#[export] Instance ProposalState_eq_dec : EqDecision ProposalState.
Proof. solve_decision. Defined.

Inductive VoteSupport : Type := Against | For | Abstain.

#[export] Instance VoteSupport_eq_dec : EqDecision VoteSupport.
Proof. solve_decision. Defined.

Definition try_from (v : Z) : option VoteSupport :=
  if v =? 0 then Some Against else if v =? 1 then Some For else if v =? 2 then Some Abstain else None.

Record ProposalV2 : Type := mkProposal {
  pr_id : Z; proposer : Address; description : string; snapshot_block : Z; pr_state : ProposalState;
  votes_for : Z; votes_against : Z; votes_abstain : Z; calls : list Call; salt : Hash }.

Inductive GovError : Type :=
| InsufficientProposerPower (need got : Z)
| UnknownProposal (id : Z)
| NotActive
| AlreadyVoted (id : Z)
| NotSucceeded
| NotQueued
| CannotCancel
| Timelock (e : TimelockError)
| InvalidSupport.

Record GovernorV2 : Type := mkGovernor {
  proposals : gmap Z ProposalV2; next_id : Z; delegations : gmap Address (gmap Address Z);
  vote_snapshots : gmap Z (gmap Address Z); votes_cast : gmap (Z * Address) VoteSupport;
  proposal_threshold : Z; quorum_bps : Z; voting_delay_blocks : Z; voting_period_blocks : Z }.

Definition set_proposals (m : gmap Z ProposalV2) (g : GovernorV2) : GovernorV2 :=
  mkGovernor m (next_id g) (delegations g) (vote_snapshots g) (votes_cast g)
    (proposal_threshold g) (quorum_bps g) (voting_delay_blocks g) (voting_period_blocks g).
Definition set_delegations (m : gmap Address (gmap Address Z)) (g : GovernorV2) : GovernorV2 :=
  mkGovernor (proposals g) (next_id g) m (vote_snapshots g) (votes_cast g)
    (proposal_threshold g) (quorum_bps g) (voting_delay_blocks g) (voting_period_blocks g).
Definition set_cast (m : gmap (Z * Address) VoteSupport) (g : GovernorV2) : GovernorV2 :=
  mkGovernor (proposals g) (next_id g) (delegations g) (vote_snapshots g) m
    (proposal_threshold g) (quorum_bps g) (voting_delay_blocks g) (voting_period_blocks g).
Definition set_next (n : Z) (snaps : gmap Z (gmap Address Z)) (g : GovernorV2) : GovernorV2 :=
  mkGovernor (proposals g) n (delegations g) snaps (votes_cast g)
    (proposal_threshold g) (quorum_bps g) (voting_delay_blocks g) (voting_period_blocks g).
Definition set_pr_state (st : ProposalState) (p : ProposalV2) : ProposalV2 :=
  mkProposal (pr_id p) (proposer p) (description p) (snapshot_block p) st
    (votes_for p) (votes_against p) (votes_abstain p) (calls p) (salt p).
Definition set_votes (f a b : Z) (p : ProposalV2) : ProposalV2 :=
  mkProposal (pr_id p) (proposer p) (description p) (snapshot_block p) (pr_state p) f a b (calls p) (salt p).

Definition governor_new : GovernorV2 :=
  mkGovernor ∅ 0 ∅ ∅ ∅ (100000 * 1000000000000000000) 400 1 43200.

(** ** Delegation and voting power

    A sum of u128 values wraps, in whatever order the map lists them. *)

Definition delegate (delegator dg : Address) (amount : Z) (g : GovernorV2) : GovernorV2 :=
  set_delegations (put2 dg delegator amount (delegations g)) g.

Definition undelegate (delegator dg : Address) (g : GovernorV2) : GovernorV2 :=
  match delegations g !! dg with
  | Some inner => set_delegations (<[dg := base.delete delegator inner]> (delegations g)) g
  | None => g
  end.

Definition power_of (delegators : gmap Address Z) : Z := u128 (msum delegators).

Definition voting_power (a : Address) (g : GovernorV2) : Z :=
  match delegations g !! a with Some m => power_of m | None => 0 end.

Definition snapshot_all (g : GovernorV2) : gmap Address Z := power_of <$> delegations g.

Definition votes_at_snapshot (id : Z) (a : Address) (g : GovernorV2) : Z :=
  match vote_snapshots g !! id with Some snap => mval snap a | None => 0 end.

Definition total_snapshot (id : Z) (g : GovernorV2) : Z :=
  match vote_snapshots g !! id with Some snap => power_of snap | None => 0 end.

(** ** Proposals *)

Abbreviation G := (M GovernorV2 GovError).

Definition proposal_salt (id : Z) : Hash := to_be 8 id ++ replicate 24 0.

Definition propose (pr : Address) (desc : string) (cs : list Call) (current_block : Z) : G Z :=
  g ← get_st;
  let power := voting_power pr g in
  _ ← throw_if (power <? proposal_threshold g) (InsufficientProposerPower (proposal_threshold g) power);
  let id := next_id g in
  let snapshot := snapshot_all g in
  _ ← modify (fun g => set_next (u64 (id + 1)) (<[id := snapshot]> (vote_snapshots g)) g);
  let vote_start := u64 (current_block + voting_delay_blocks g) in
  let vote_end := u64 (vote_start + voting_period_blocks g) in
  _ ← modify (fun g => set_proposals
        (<[id := mkProposal id pr desc current_block (Active vote_start vote_end) 0 0 0 cs (proposal_salt id)]>
           (proposals g)) g);
  mret id.

(** [self.proposals.get_mut(&id).unwrap()] and an update of what it finds. *)
Definition update_proposal (id : Z) (f : ProposalV2 -> ProposalV2) : G unit :=
  g ← get_st;
  p ← lift (unwrap (proposals g !! id));
  modify (fun g => set_proposals (<[id := f p]> (proposals g)) g).

Definition count_vote (sup : VoteSupport) (weight : Z) (p : ProposalV2) : ProposalV2 :=
  match sup with
  | For => set_votes (u128 (votes_for p + weight)) (votes_against p) (votes_abstain p) p
  | Against => set_votes (votes_for p) (u128 (votes_against p + weight)) (votes_abstain p) p
  | Abstain => set_votes (votes_for p) (votes_against p) (u128 (votes_abstain p + weight)) p
  end.

Definition cast_vote (id : Z) (voter : Address) (sup : Z) (current_block : Z) : G Z :=
  support ← lift_opt (try_from sup) InvalidSupport;
  g ← get_st;
  prop ← lift_opt (proposals g !! id) (UnknownProposal id);
  _ ← match pr_state prop with
      | Active vote_start vote_end => throw_if ((current_block <? vote_start) || (vote_end <? current_block)) NotActive
      | _ => throw NotActive
      end;
  _ ← throw_if (bool_decide (is_Some (votes_cast g !! (id, voter)))) (AlreadyVoted id);
  let weight := votes_at_snapshot id voter g in
  _ ← update_proposal id (count_vote support weight);
  _ ← modify (fun g => set_cast (<[(id, voter) := support]> (votes_cast g)) g);
  mret weight.

(** The quorum and the majority; sums and products wrap. *)
Definition passes (total_snap bps : Z) (p : ProposalV2) : bool :=
  let quorum := u128 (total_snap * bps) / 10000 in
  let total_votes := u128 (u128 (votes_for p + votes_against p) + votes_abstain p) in
  (quorum <=? total_votes) && (votes_against p <? votes_for p).

Definition finalise (id current_block : Z) : G ProposalState :=
  g ← get_st;
  prop ← lift_opt (proposals g !! id) (UnknownProposal id);
  _ ← match pr_state prop with
      | Active _ vote_end => throw_if (current_block <=? vote_end) NotActive
      | _ => throw NotActive
      end;
  let new_state := if passes (total_snapshot id g) (quorum_bps g) prop then Succeeded else Defeated in
  _ ← update_proposal id (set_pr_state new_state);
  mret new_state.

(** ** The way through the timelock *)

Abbreviation GT := (M (GovernorV2 * TimelockController) GovError).

Definition on_governor {A} (m : G A) : GT A := fun s =>
  let '(r, g') := m (fst s) in (r, (g', snd s)).

(** [timelock.m(..).map_err(|e| GovError::Timelock(..))?] *)
Definition on_timelock {A} (m : TL A) : GT A := fun s =>
  let '(r, t') := m (snd s) in (map_err Timelock r, (fst s, t')).

Section governor.
Context {SH : Sha3}.

Definition queue (id : Z) (queuer : Address) (now : Z) : GT Hash :=
  s ← get_st;
  prop ← lift_opt (proposals (fst s) !! id) (UnknownProposal id);
  _ ← throw_if (negb (bool_decide (pr_state prop = Succeeded))) NotSucceeded;
  tl_id ← on_timelock (schedule queuer (calls prop) None (salt prop) now);
  _ ← on_governor (update_proposal id (set_pr_state (Queued tl_id)));
  mret tl_id.

Definition execute (id now : Z) : GT (list Call) :=
  s ← get_st;
  prop ← lift_opt (proposals (fst s) !! id) (UnknownProposal id);
  tl_id ← match pr_state prop with Queued h => mret h | _ => throw NotQueued end;
  cs ← on_timelock (tl_execute tl_id now);
  _ ← on_governor (update_proposal id (set_pr_state Executed));
  mret cs.

Definition cancel (id : Z) (caller : Address) : GT unit :=
  s ← get_st;
  prop ← lift_opt (proposals (fst s) !! id) (UnknownProposal id);
  tl_id ← match pr_state prop with Queued h => mret h | _ => throw CannotCancel end;
  _ ← on_timelock (tl_cancel tl_id caller);
  on_governor (update_proposal id (set_pr_state Cancelled)).

(** ** Histories

    What anyone may call, in any order and with any times, and what the
    calls that succeed leave in the history.  The timelock is operated by the
    governor; its admin may change the delay. *)

Inductive gov_op : Type :=
| GDelegate (delegator dg : Address) (amount : Z)
| GUndelegate (delegator dg : Address)
| GPropose (pr : Address) (desc : string) (cs : list Call) (block : Z)
| GVote (id : Z) (voter : Address) (sup block : Z)
| GFinalise (id block : Z)
| GQueue (id : Z) (queuer : Address) (now : Z)
| GExecute (id now : Z)
| GCancel (id : Z) (caller : Address)
| GDelay (caller : Address) (new_delay : Z).

Inductive gov_event : Type :=
| EProposed (id : Z) (pr : Address) (cs : list Call) (snap : gmap Address Z)
| EVoted (id : Z) (voter : Address) (sup : VoteSupport) (weight : Z)
| EFinalised (id : Z) (st : ProposalState)
| EQueued (id : Z) (tl_id : Hash) (now d : Z)
| EExecuted (id now : Z) (cs : list Call)
| ECancelled (id : Z) (caller : Address).

Definition Sys : Type := (GovernorV2 * TimelockController)%type.

Definition gov_call (o : gov_op) (s : Sys) : list gov_event * Sys :=
  match o with
  | GDelegate a b x => ([], (delegate a b x (fst s), snd s))
  | GUndelegate a b => ([], (undelegate a b (fst s), snd s))
  | GPropose pr desc cs block =>
    logged (on_governor (propose pr desc cs block)) (fun id => EProposed id pr cs (snapshot_all (fst s))) s
  | GVote id v sup block =>
    logged (on_governor (cast_vote id v sup block)) (fun w => EVoted id v (default Abstain (try_from sup)) w) s
  | GFinalise id block => logged (on_governor (finalise id block)) (EFinalised id) s
  | GQueue id q now => logged (queue id q now) (fun h => EQueued id h now (delay (snd s))) s
  | GExecute id now => logged (execute id now) (EExecuted id now) s
  | GCancel id c => logged (cancel id c) (fun _ => ECancelled id c) s
  | GDelay c d => ([], snd (on_timelock (update_delay c d) s))
  end.

End governor.

Abbreviation gov_run := (history gov_call).
