(* ===== verification/GovernorCorrect.v ===== *)
(** * What governance hands out

    [governor_dispatches]: the calls that the governor returns for execution
    were proposed by someone with the power to, won their vote on the powers
    of the snapshot, waited out the delay of the timelock, and are handed out
    once and never after a veto, whatever calls anyone makes. *)

From Stdlib Require Import ZArith Lia String.
From stdpp Require Import base tactics list gmap numbers option.
From S2P Require Import Prelude Bytes Crypto Collections Timelock Governor.

Local Open Scope Z_scope.

(** ** Reading a history *)

Definition ev_id (e : gov_event) : Z :=
  match e with
  | EProposed id _ _ _ | EVoted id _ _ _ | EFinalised id _ | EQueued id _ _ _ | EExecuted id _ _ | ECancelled id _ => id
  end.

(** The voters on a proposal, and the weight of the votes of one kind. *)
Definition voters (id : Z) (evs : list gov_event) : list Address :=
  omap (fun e => match e with EVoted i v _ _ => if i =? id then Some v else None | _ => None end) evs.

Definition weight_in (sup : VoteSupport) (id : Z) (e : gov_event) : Z :=
  match e with EVoted i _ s w => if (i =? id) && bool_decide (s = sup) then w else 0 | _ => 0 end.
Definition tally (sup : VoteSupport) (id : Z) (evs : list gov_event) : Z :=
  foldr (fun e acc => weight_in sup id e + acc) 0 evs.

(** An execution or a veto of the proposal. *)
Definition ends (id : Z) (e : gov_event) : bool :=
  match e with EExecuted i _ _ | ECancelled i _ => i =? id | _ => false end.
Definition ended (id : Z) (evs : list gov_event) : Z :=
  foldr (fun e acc => (if ends id e then 1 else 0) + acc) 0 evs.

Lemma voters_app id a b : voters id (a ++ b) = voters id a ++ voters id b.
Proof. apply omap_app. Qed.
Lemma tally_app sup id a b : tally sup id (a ++ b) = tally sup id a + tally sup id b.
Proof. unfold tally. induction a as [|e a IH]; simpl; [lia|]. rewrite IH. lia. Qed.
Lemma ended_app id a b : ended id (a ++ b) = ended id a + ended id b.
Proof. unfold ended. induction a as [|e a IH]; simpl; [lia|]. rewrite IH. lia. Qed.
Lemma ended_nonneg id a : 0 <= ended id a.
Proof. unfold ended. induction a as [|e a IH]; simpl; [lia|]. destruct (ends id e); lia. Qed.

Lemma ended_0 id a e : ended id a = 0 -> e ∈ a -> ends id e = false.
Proof.
  intros H [b [c ->]]%list_elem_of_split. rewrite ended_app in H. simpl in H.
  pose proof (ended_nonneg id b). pose proof (ended_nonneg id c). destruct (ends id e); [lia|done].
Qed.

Lemma other_event id e : ev_id e <> id ->
  voters id [e] = [] /\ (forall sup, tally sup id [e] = 0) /\ ended id [e] = 0.
Proof.
  intros Hne. unfold voters, tally, ended. simpl. rewrite !Z.add_0_r.
  destruct e as [i ? ? ?|i v s w|i ?|i ? ? ?|i ? ?|i ?]; simpl in *; try done;
    rewrite (proj2 (Z.eqb_neq i id)) by done; done.
Qed.

(** ** The outcomes of the governor's methods *)

Lemma lookup_update id f g p : proposals g !! id = Some p ->
  update_proposal id f g = (Ok tt, set_proposals (<[id := f p]> (proposals g)) g).
Proof. intros Hp. unfold update_proposal. open_call. by rewrite Hp. Qed.

Lemma propose_cases pr desc cs block g :
  (exists e, propose pr desc cs block g = (Err e, g)) \/
  (proposal_threshold g <= voting_power pr g /\ exists vs ve,
     propose pr desc cs block g = (Ok (next_id g),
       set_proposals (<[next_id g := mkProposal (next_id g) pr desc block (Active vs ve) 0 0 0 cs
                                      (proposal_salt (next_id g))]> (proposals g))
         (set_next (u64 (next_id g + 1)) (<[next_id g := snapshot_all g]> (vote_snapshots g)) g))).
Proof.
  unfold propose. open_call. destruct (Z.ltb_spec (voting_power pr g) (proposal_threshold g)); [left; by eexists|].
  right. split; [done|]. by do 2 eexists.
Qed.

Lemma cast_vote_cases id v sup block g :
  (exists e, cast_vote id v sup block g = (Err e, g)) \/
  (exists support p vs ve, try_from sup = Some support /\ proposals g !! id = Some p /\ pr_state p = Active vs ve /\
     vs <= block <= ve /\ votes_cast g !! (id, v) = None /\
     cast_vote id v sup block g = (Ok (votes_at_snapshot id v g),
       set_cast (<[(id, v) := support]> (votes_cast g))
         (set_proposals (<[id := count_vote support (votes_at_snapshot id v g) p]> (proposals g)) g))).
Proof.
  unfold cast_vote. open_call. destruct (try_from sup) as [support|]; [|left; by eexists]. cbn.
  destruct (proposals g !! id) as [p|] eqn:Hp; [|left; by eexists]. cbn.
  destruct (pr_state p) as [|vs ve| | | | |] eqn:Hs; try (left; by eexists).
  destruct (Z.ltb_spec block vs); [left; by eexists|]. destruct (Z.ltb_spec ve block); [left; by eexists|]. cbn.
  case_bool_decide as Hc; cbn; [left; by eexists|]. rewrite (lookup_update _ _ _ p Hp). right.
  exists support, p, vs, ve. split_and!; try done. by apply eq_None_not_Some.
Qed.

Lemma finalise_cases id block g :
  (exists e, finalise id block g = (Err e, g)) \/
  (exists p vs ve, proposals g !! id = Some p /\ pr_state p = Active vs ve /\ ve < block /\
     let st := if passes (total_snapshot id g) (quorum_bps g) p then Succeeded else Defeated in
     finalise id block g = (Ok st, set_proposals (<[id := set_pr_state st p]> (proposals g)) g)).
Proof.
  unfold finalise. open_call. destruct (proposals g !! id) as [p|] eqn:Hp; [|left; by eexists]. cbn.
  destruct (pr_state p) as [|vs ve| | | | |] eqn:Hs; try (left; by eexists).
  destruct (Z.leb_spec block ve); [left; by eexists|]. rewrite (lookup_update _ _ _ p Hp). right.
  by exists p, vs, ve.
Qed.

Section through_timelock.
Context {SH : Sha3}.

Lemma queue_cases id q now g t :
  (exists e, queue id q now (g, t) = (Err e, (g, t))) \/
  (exists p h, proposals g !! id = Some p /\ pr_state p = Succeeded /\ operations t !! h = None /\
     queue id q now (g, t) = (Ok h,
       (set_proposals (<[id := set_pr_state (Queued h) p]> (proposals g)) g,
        set_operations (<[h := mkOperation h (calls p) None (salt p) (Timelock.Pending (u64 (now + delay t))) q]>
                          (operations t)) t))).
Proof.
  unfold queue, on_timelock, on_governor. open_call. simpl fst; simpl snd.
  destruct (proposals g !! id) as [p|] eqn:Hp; [|left; by eexists]. cbn [ok_or].
  case_bool_decide as Hs; [|left; by eexists]. cbn [negb].
  destruct (schedule_cases q (calls p) None (salt p) now t) as [[_ ->]|[Hn ->]]; [left; by eexists|].
  cbn [map_err]. rewrite (lookup_update _ _ _ p Hp). right. exists p. by eexists.
Qed.

Lemma gexecute_cases id now g t :
  (exists e, execute id now (g, t) = (Err e, (g, t))) \/
  (exists p h o, proposals g !! id = Some p /\ pr_state p = Queued h /\ operations t !! h = Some o /\
     may_execute t o now = Ok tt /\
     execute id now (g, t) = (Ok (op_calls o),
       (set_proposals (<[id := set_pr_state Executed p]> (proposals g)) g,
        set_operations (<[h := with_state Done o]> (operations t)) t))).
Proof.
  unfold execute, on_timelock, on_governor. open_call. simpl fst; simpl snd.
  destruct (proposals g !! id) as [p|] eqn:Hp; [|left; by eexists]. cbn [ok_or].
  destruct (pr_state p) as [| | | |h| |] eqn:Hs; try (left; by eexists).
  cbn. destruct (execute_cases h now t) as [[e ->]|(o & Ho & Hm & ->)]; [left; by eexists|].
  cbn [map_err]. rewrite (lookup_update _ _ _ p Hp). right. by exists p, h, o.
Qed.

Lemma gcancel_cases id c g t :
  (exists e, cancel id c (g, t) = (Err e, (g, t))) \/
  (exists p h o, proposals g !! id = Some p /\ pr_state p = Queued h /\ operations t !! h = Some o /\
     c = guardian t /\
     cancel id c (g, t) = (Ok tt,
       (set_proposals (<[id := set_pr_state Cancelled p]> (proposals g)) g,
        set_operations (<[h := with_state Timelock.Cancelled o]> (operations t)) t))).
Proof.
  unfold cancel, on_timelock, on_governor. open_call. simpl fst; simpl snd.
  destruct (proposals g !! id) as [p|] eqn:Hp; [|left; by eexists]. cbn [ok_or].
  destruct (pr_state p) as [| | | |h| |] eqn:Hs; try (left; by eexists).
  cbn. destruct (cancel_cases h c t) as [[e ->]|(o & Ho & Hg & _ & ->)]; [left; by eexists|].
  cbn [map_err]. rewrite (lookup_update _ _ _ p Hp). right. by exists p, h, o.
Qed.
End through_timelock.

(** ** The invariant of governance *)

Definition passed (g : GovernorV2) (id : Z) (p : ProposalV2) : Prop :=
  passes (total_snapshot id g) (quorum_bps g) p = true.

Definition state_inv (evs : list gov_event) (g : GovernorV2) (t : TimelockController) (id : Z) (p : ProposalV2) : Prop :=
  match pr_state p with
  | Succeeded => ended id evs = 0 /\ passed g id p
  | Queued h => ended id evs = 0 /\ passed g id p /\ exists o q d, operations t !! h = Some o /\
      op_calls o = calls p /\ EQueued id h q d ∈ evs /\ delay_ok d = true /\
      op_state o = Timelock.Pending (u64 (q + d))
  | Executed | Cancelled => ended id evs = 1
  | _ => ended id evs = 0
  end.

Record prop_inv (evs : list gov_event) (g : GovernorV2) (t : TimelockController) (id : Z) (p : ProposalV2) : Prop := {
  pi_proposed : exists snap, EProposed id (proposer p) (calls p) snap ∈ evs /\ vote_snapshots g !! id = Some snap /\
    proposal_threshold g <= mval snap (proposer p) /\ (forall a, 0 <= mval snap a) /\
    (forall v s w, EVoted id v s w ∈ evs -> w = mval snap v);
  pi_for : votes_for p = u128 (tally For id evs);
  pi_against : votes_against p = u128 (tally Against id evs);
  pi_abstain : votes_abstain p = u128 (tally Abstain id evs);
  pi_state : state_inv evs g t id p }.

Record gov_inv (thr bps : Z) (evs : list gov_event) (g : GovernorV2) (t : TimelockController) : Prop := {
  gi_params : proposal_threshold g = thr /\ quorum_bps g = bps;
  gi_next : 0 <= next_id g <= zlen evs;
  gi_events : forall e, e ∈ evs -> is_Some (proposals g !! ev_id e);
  gi_props : forall id p, proposals g !! id = Some p -> id < next_id g /\ prop_inv evs g t id p;
  gi_cast : forall id v, is_Some (votes_cast g !! (id, v)) <-> v ∈ voters id evs;
  gi_nodup : forall id, NoDup (voters id evs);
  gi_inj : forall i j p q h, proposals g !! i = Some p -> pr_state p = Queued h ->
    proposals g !! j = Some q -> pr_state q = Queued h -> i = j;
  gi_delay : delay_ok (delay t) = true }.

Lemma snapshot_power a g : mval (snapshot_all g) a = voting_power a g.
Proof. unfold mval, snapshot_all, voting_power. rewrite lookup_fmap. by destruct (delegations g !! a). Qed.

Lemma snapshot_nonneg g a : 0 <= mval (snapshot_all g) a.
Proof.
  rewrite snapshot_power. unfold voting_power, power_of. destruct (delegations g !! a); [|lia].
  apply (wrap_range 128). lia.
Qed.

Lemma others_event id l : Forall (fun e => ev_id e <> id) l ->
  voters id l = [] /\ (forall sup, tally sup id l = 0) /\ ended id l = 0.
Proof.
  induction 1 as [|e l He Hl (IH1 & IH2 & IH3)]; [done|]. destruct (other_event id e He) as (H1 & H2 & H3).
  change (e :: l) with ([e] ++ l). rewrite voters_app, ended_app, H1, H3, IH1, IH3. split_and!; [done| |done].
  intros sup. by rewrite tally_app, H2, IH2.
Qed.

(** What does not concern a proposal leaves it as it was. *)
Lemma prop_inv_frame evs l g t g' t' id p : prop_inv evs g t id p -> Forall (fun e => ev_id e <> id) l ->
  vote_snapshots g' !! id = vote_snapshots g !! id ->
  proposal_threshold g' = proposal_threshold g -> quorum_bps g' = quorum_bps g ->
  (forall h o, pr_state p = Queued h -> operations t !! h = Some o -> operations t' !! h = Some o) ->
  prop_inv (evs ++ l) g' t' id p.
Proof.
  intros [Hp Hf Ha Hb Hs] Hl Hsn Ht Hq Ho. destruct (others_event id l Hl) as (Hv & Hw & He).
  split.
  - destruct Hp as (snap & H1 & H2 & H3 & H4 & H5). exists snap. rewrite Hsn, Ht, elem_of_app.
    split_and!; [by left|done..|]. intros v s w [Hin|Hin]%elem_of_app; [by eapply H5|]. by pose proof (proj1 (list.Forall_forall _ _) Hl _ Hin).
  - by rewrite tally_app, Hw, Z.add_0_r.
  - by rewrite tally_app, Hw, Z.add_0_r.
  - by rewrite tally_app, Hw, Z.add_0_r.
  - assert (passed g id p -> passed g' id p) as Hps by (unfold passed, total_snapshot; by rewrite Hsn, Hq).
    revert Hs Ho. unfold state_inv. rewrite ended_app, He, Z.add_0_r. destruct (pr_state p); try done.
    + intros [H1 H2] _. auto.
    + intros (H1 & H2 & o & q & d & H3 & H4 & H5 & H6 & H7) Ho. split_and!; [done|auto|].
      exists o, q, d. split_and!; [by apply Ho|done|apply elem_of_app; by left|done..].
Qed.

(** A call that changes one proposal. *)
Lemma gov_inv_update thr bps evs l g t g' t' id p p' : gov_inv thr bps evs g t -> proposals g !! id = Some p ->
  Forall (fun e => ev_id e = id) l ->
  proposals g' = <[id := p']> (proposals g) -> next_id g' = next_id g -> vote_snapshots g' = vote_snapshots g ->
  proposal_threshold g' = proposal_threshold g -> quorum_bps g' = quorum_bps g -> delay t' = delay t ->
  (forall h o, pr_state p <> Queued h -> operations t !! h = Some o -> operations t' !! h = Some o) ->
  (forall h, pr_state p' = Queued h -> operations t !! h = None) ->
  (forall v, is_Some (votes_cast g' !! (id, v)) <-> v ∈ voters id (evs ++ l)) ->
  (forall j v, j <> id -> votes_cast g' !! (j, v) = votes_cast g !! (j, v)) ->
  NoDup (voters id (evs ++ l)) -> prop_inv (evs ++ l) g' t' id p' ->
  gov_inv thr bps (evs ++ l) g' t'.
Proof.
  intros I Hid Hl Hp Hn Hsn Ht Hq Hd Ho Hnew Hc Hc' Hnd Hpi. destruct I as [Ipar Inx Iev Ipr Ica Ind Iinj Idl].
  assert (forall j, j <> id -> Forall (fun e => ev_id e <> j) l) as Hlj.
  { intros j Hj. eapply Forall_impl; [|exact Hl]. simpl. intros e He He'. congruence. }
  assert (forall j q h, j <> id -> proposals g !! j = Some q -> pr_state q = Queued h ->
            pr_state p <> Queued h /\ is_Some (operations t !! h)) as Hqd.
  { intros j q h Hj Hjq Hh. split; [intros Hph; by apply Hj, (Iinj j id q p h)|].
    destruct (Ipr j q Hjq) as [_ [_ _ _ _ Hs]]. revert Hs. unfold state_inv. rewrite Hh.
    intros (_ & _ & o & _ & _ & -> & _). by eexists. }
  split.
  - by rewrite Ht, Hq.
  - rewrite Hn, zlen_app. pose proof (zlen_nonneg l). lia.
  - rewrite Hp. intros e [He|He]%elem_of_app.
    + apply lookup_insert_is_Some. destruct (decide (id = ev_id e)); [by left|right; by auto].
    + rewrite (proj1 (list.Forall_forall _ _) Hl _ He), lookup_insert_eq. by eexists.
  - rewrite Hp, Hn. intros j q [[<- <-]|[Hj Hjq]]%lookup_insert_Some; [by split; [apply (Ipr id p)|]|].
    destruct (Ipr j q Hjq) as [Hjn Hjp]. split; [done|].
    eapply prop_inv_frame; [done|by apply Hlj|by rewrite Hsn|done..|].
    intros h o Hh Hho. apply Ho; [|done]. by eapply Hqd.
  - intros j v. destruct (decide (j = id)) as [->|Hj]; [apply Hc|]. rewrite Hc', Ica by done.
    rewrite voters_app. by rewrite (proj1 (others_event j l (Hlj j Hj))), app_nil_r.
  - intros j. destruct (decide (j = id)) as [->|Hj]; [done|].
    rewrite voters_app. by rewrite (proj1 (others_event j l (Hlj j Hj))), app_nil_r.
  - rewrite Hp. intros i j q r h [[<- <-]|[Hi Hiq]]%lookup_insert_Some Hqh [[<- <-]|[Hj Hjr]]%lookup_insert_Some Hrh.
    + done.
    + destruct (Hqd j r h) as [_ Hs]; [done..|]. rewrite (Hnew h Hqh) in Hs. by destruct Hs.
    + destruct (Hqd i q h) as [_ Hs]; [done..|]. rewrite (Hnew h Hrh) in Hs. by destruct Hs.
    + by eapply Iinj.
  - by rewrite Hd.
Qed.

(** A call that changes delegations or the delay only. *)
Lemma gov_inv_quiet thr bps evs g t g' t' : gov_inv thr bps evs g t ->
  g' = set_delegations (delegations g') g -> operations t' = operations t -> delay_ok (delay t') = true ->
  gov_inv thr bps evs g' t'.
Proof.
  intros [Ipar Inx Iev Ipr Ica Ind Iinj Idl] -> Ho Hd. split; try done. simpl. intros id p Hp.
  destruct (Ipr id p Hp) as [Hi Hpi]. split; [done|]. rewrite <-(app_nil_r evs).
  eapply prop_inv_frame; [done|constructor|done..|]. intros h o _ Hh. by rewrite Ho.
Qed.

Lemma no_event_of id evs n : (forall e, e ∈ evs -> ev_id e < n) -> n <= id -> Forall (fun e => ev_id e <> id) evs.
Proof.
  intros Hev Hid. induction evs as [|e evs IH]; constructor.
  - pose proof (Hev e ltac:(left)). lia.
  - apply IH. intros e' He'. apply Hev. by right.
Qed.

Lemma gov_inv_propose thr bps evs g t pr desc cs block vs ve : gov_inv thr bps evs g t -> zlen evs + 1 < 2 ^ 64 ->
  proposal_threshold g <= voting_power pr g ->
  let id := next_id g in
  gov_inv thr bps (evs ++ [EProposed id pr cs (snapshot_all g)])
    (set_proposals (<[id := mkProposal id pr desc block (Active vs ve) 0 0 0 cs (proposal_salt id)]> (proposals g))
       (set_next (u64 (id + 1)) (<[id := snapshot_all g]> (vote_snapshots g)) g)) t.
Proof.
  intros [Ipar Inx Iev Ipr Ica Ind Iinj Idl] Hlen Hpow id.
  assert (u64 (id + 1) = id + 1) as Hw by (apply wrap_small; unfold in_range; lia).
  assert (forall e, e ∈ evs -> ev_id e < id) as Hlt.
  { intros e He. destruct (Iev e He) as [p Hp]. by apply (Ipr _ p). }
  destruct (others_event id evs) as (Hv & Ht & He); [by apply (no_event_of id evs id)|].
  assert (forall j, voters j (evs ++ [EProposed id pr cs (snapshot_all g)]) = voters j evs) as Hvs.
  { intros j. rewrite voters_app. simpl. apply app_nil_r. }
  split; simpl; rewrite ?Hw.
  - done.
  - rewrite zlen_app. unfold zlen at 2. simpl. subst id. lia.
  - intros e [Hin|Hin]%elem_of_app.
    + apply lookup_insert_is_Some. destruct (decide (id = ev_id e)); [by left|right; by auto].
    + apply list_elem_of_singleton in Hin as ->. simpl. rewrite lookup_insert_eq. by eexists.
  - intros j p [[<- <-]|[Hj Hp]]%lookup_insert_Some.
    + split; [lia|]. split; simpl; try (by rewrite tally_app, Ht).
      * exists (snapshot_all g). rewrite lookup_insert_eq, snapshot_power. split_and!.
        { apply elem_of_app. right. by left. } { done. } { done. } { apply snapshot_nonneg. }
        intros v s w [Hin|Hin]%elem_of_app; [specialize (Hlt _ Hin); simpl in Hlt; lia|].
        by apply list_elem_of_singleton in Hin.
      * unfold state_inv. simpl. by rewrite ended_app, He.
    + destruct (Ipr j p Hp) as [Hj' Hpi]. split; [lia|].
      eapply prop_inv_frame; [done|repeat constructor; done| |done..|auto].
      simpl. by rewrite lookup_insert_ne by done.
  - intros j v. by rewrite Ica, Hvs.
  - intros j. by rewrite Hvs.
  - intros i j p q h [[<- <-]|[Hi Hp]]%lookup_insert_Some Hph [[<- <-]|[Hj Hq]]%lookup_insert_Some Hqh; try done.
    by eapply Iinj.
  - done.
Qed.

Lemma tally_vote sup id evs v s w : tally sup id (evs ++ [EVoted id v s w])
  = tally sup id evs + if decide (s = sup) then w else 0.
Proof.
  rewrite tally_app. unfold tally at 2. simpl. rewrite Z.eqb_refl, Z.add_0_r. simpl. by case_bool_decide; case_decide.
Qed.

Lemma u128_add_l a b : u128 (u128 a + b) = u128 (a + b).
Proof. unfold wrap. apply Zplus_mod_idemp_l. Qed.

Lemma gov_inv_vote thr bps evs g t id v support p vs ve : gov_inv thr bps evs g t ->
  proposals g !! id = Some p -> pr_state p = Active vs ve -> votes_cast g !! (id, v) = None ->
  let w := votes_at_snapshot id v g in
  gov_inv thr bps (evs ++ [EVoted id v support w])
    (set_cast (<[(id, v) := support]> (votes_cast g))
       (set_proposals (<[id := count_vote support w p]> (proposals g)) g)) t.
Proof.
  intros I Hp Hs Hc w. pose proof I as [Ipar Inx Iev Ipr Ica Ind Iinj Idl].
  destruct (Ipr id p Hp) as [Hid [(snap & H1 & H2 & H3 & H4 & H5) Hf Ha Hb Hst]].
  assert (w = mval snap v) as Hw by (unfold w, votes_at_snapshot; by rewrite H2).
  assert (voters id (evs ++ [EVoted id v support w]) = voters id evs ++ [v]) as Hv.
  { rewrite voters_app. simpl. by rewrite Z.eqb_refl. }
  eapply (gov_inv_update _ _ _ _ _ _ _ _ id p); try done.
  - by repeat constructor.
  - intros h. by destruct support; simpl; rewrite Hs.
  - intros a. simpl. rewrite Hv, elem_of_app, list_elem_of_singleton, <-Ica. destruct (decide (a = v)) as [->|Hne].
    + rewrite lookup_insert_eq. split; [intros _; by right|by eexists].
    + rewrite lookup_insert_ne by congruence. tauto.
  - intros j a Hj. simpl. by rewrite lookup_insert_ne by congruence.
  - rewrite Hv. apply list.NoDup_app. split_and!; [done| |apply NoDup_singleton].
    intros a Ha' Hin%list_elem_of_singleton. subst a. apply Ica in Ha'. rewrite Hc in Ha'. by destruct Ha'.
  - split; try (rewrite tally_vote; destruct support; simpl; rewrite ?Hf, ?Ha, ?Hb, ?u128_add_l, ?Z.add_0_r; done).
    + assert (proposer (count_vote support w p) = proposer p /\ calls (count_vote support w p) = calls p) as [-> ->]
        by (by destruct support).
      exists snap. split_and!; try done; [apply elem_of_app; by left|].
      intros a s x [Hin|Hin]%elem_of_app; [by eapply H5|]. apply list_elem_of_singleton in Hin. by simplify_eq.
    + revert Hst. unfold state_inv. replace (pr_state (count_vote support w p)) with (pr_state p) by (by destruct support).
      rewrite Hs, ended_app. by intros ->.
Qed.

(** Events that are not votes leave the votes. *)
Definition is_vote (e : gov_event) : bool := match e with EVoted _ _ _ _ => true | _ => false end.

Lemma not_vote id e : is_vote e = false -> voters id [e] = [] /\ forall sup, tally sup id [e] = 0.
Proof. by destruct e. Qed.

Lemma prop_inv_state evs e g t g' t' id p st : prop_inv evs g t id p -> is_vote e = false ->
  vote_snapshots g' = vote_snapshots g -> proposal_threshold g' = proposal_threshold g ->
  state_inv (evs ++ [e]) g' t' id (set_pr_state st p) -> prop_inv (evs ++ [e]) g' t' id (set_pr_state st p).
Proof.
  intros [(snap & H1 & H2 & H3 & H4 & H5) Hf Ha Hb _] He Hsn Ht Hst.
  destruct (not_vote id e He) as [_ Hw].
  split; simpl; try (by rewrite tally_app, Hw, Z.add_0_r); [|done].
  exists snap. rewrite Hsn, Ht. split_and!; try done; [apply elem_of_app; by left|].
  intros v s w [Hin|Hin%list_elem_of_singleton]%elem_of_app; [by eapply H5|]. by subst e.
Qed.

(** A call that moves a proposal to another state. *)
Lemma gov_inv_move thr bps evs e g t t' id p st : gov_inv thr bps evs g t -> proposals g !! id = Some p ->
  ev_id e = id -> is_vote e = false -> delay t' = delay t ->
  (forall h o, pr_state p <> Queued h -> operations t !! h = Some o -> operations t' !! h = Some o) ->
  (forall h, st = Queued h -> operations t !! h = None) ->
  (state_inv evs g t id p ->
   state_inv (evs ++ [e]) (set_proposals (<[id := set_pr_state st p]> (proposals g)) g) t' id (set_pr_state st p)) ->
  gov_inv thr bps (evs ++ [e]) (set_proposals (<[id := set_pr_state st p]> (proposals g)) g) t'.
Proof.
  intros I Hp He Hnv Hd Ho Hnew Hst. pose proof I as [_ _ _ Ipr Ica Ind _ _]. destruct (not_vote id e Hnv) as [Hv _].
  destruct (Ipr id p Hp) as [_ Hpi].
  eapply (gov_inv_update _ _ _ _ _ _ _ _ id p); try done.
  - by repeat constructor.
  - intros v. simpl. by rewrite Ica, voters_app, Hv, app_nil_r.
  - by rewrite voters_app, Hv, app_nil_r.
  - eapply prop_inv_state; [done..|]. apply Hst. by destruct Hpi.
Qed.

Section steps.
Context {SH : Sha3}.

Lemma gov_inv_finalise thr bps evs g t id p vs ve : gov_inv thr bps evs g t -> proposals g !! id = Some p ->
  pr_state p = Active vs ve ->
  let st := if passes (total_snapshot id g) (quorum_bps g) p then Succeeded else Defeated in
  gov_inv thr bps (evs ++ [EFinalised id st]) (set_proposals (<[id := set_pr_state st p]> (proposals g)) g) t.
Proof.
  intros I Hp Hs st. eapply gov_inv_move; try done; [subst st; by destruct (passes _ _ _)|].
  unfold state_inv. rewrite Hs. simpl. rewrite ended_app. intros ->. unfold passed. subst st.
  destruct (passes (total_snapshot id g) (quorum_bps g) p) eqn:Hpass; [|done]. split; [done|exact Hpass].
Qed.

Lemma gov_inv_queue thr bps evs g t id p h q now : gov_inv thr bps evs g t -> proposals g !! id = Some p ->
  pr_state p = Succeeded -> operations t !! h = None ->
  gov_inv thr bps (evs ++ [EQueued id h now (delay t)])
    (set_proposals (<[id := set_pr_state (Queued h) p]> (proposals g)) g)
    (set_operations (<[h := mkOperation h (calls p) None (salt p) (Timelock.Pending (u64 (now + delay t))) q]>
                       (operations t)) t).
Proof.
  intros I Hp Hs Hn. eapply gov_inv_move; try done.
  - intros h' o _ Ho. simpl. by rewrite lookup_insert_ne by congruence.
  - by intros ? [= <-].
  - unfold state_inv. rewrite Hs. simpl. rewrite ended_app. intros [-> Hpass]. split_and!; [done|exact Hpass|].
    do 3 eexists. rewrite lookup_insert_eq. split_and!; [done|done|apply elem_of_app; right; by left|apply I|done].
Qed.

(** The two ends of a queued proposal: its operation is closed too. *)
Lemma gov_inv_end thr bps evs g t id p h o e st ost : gov_inv thr bps evs g t -> proposals g !! id = Some p ->
  pr_state p = Queued h -> ends id e = true -> st = Executed \/ st = Cancelled ->
  gov_inv thr bps (evs ++ [e]) (set_proposals (<[id := set_pr_state st p]> (proposals g)) g)
    (set_operations (<[h := with_state ost o]> (operations t)) t).
Proof.
  intros I Hp Hs He Hst. eapply gov_inv_move; try done.
  - destruct e; simpl in *; try done; by apply Z.eqb_eq.
  - by destruct e.
  - intros h' o' Hne Ho. simpl. rewrite lookup_insert_ne; [done|congruence].
  - intros h'. by destruct Hst as [-> | ->].
  - unfold state_inv. rewrite Hs. simpl. rewrite ended_app. intros [-> _].
    destruct Hst as [-> | ->]; unfold ended; simpl; by rewrite He.
Qed.

Lemma gov_call_inv thr bps o evs g t ev g' t' : gov_inv thr bps evs g t -> zlen evs + 1 < 2 ^ 64 ->
  gov_call o (g, t) = (ev, (g', t')) -> gov_inv thr bps (evs ++ ev) g' t'.
Proof.
  intros I Hlen Hcall. assert (gov_inv thr bps (evs ++ []) g t) as I' by (by rewrite app_nil_r).
  destruct o as [a b x|a b|pr desc cs block|id v sup block|id block|id q now|id now|id c|c d];
    unfold gov_call, logged, on_governor in Hcall; simpl fst in Hcall; simpl snd in Hcall.
  - simplify_eq. rewrite app_nil_r. eapply gov_inv_quiet; [done|done|done|apply I].
  - simplify_eq. rewrite app_nil_r. eapply gov_inv_quiet; [done| |done|apply I].
    unfold undelegate. destruct (delegations g !! b); [done|]. by destruct g.
  - destruct (propose_cases pr desc cs block g) as [[e He]|(Hpow & vs & ve & He)]; rewrite He in Hcall; simplify_eq/=;
      [done|by apply gov_inv_propose].
  - destruct (cast_vote_cases id v sup block g) as [[e He]|(s & p & vs & ve & Hs & Hp & Ha & _ & Hc & He)];
      rewrite He in Hcall; simplify_eq/=; [done|]. rewrite Hs. by eapply gov_inv_vote.
  - destruct (finalise_cases id block g) as [[e He]|(p & vs & ve & Hp & Ha & _ & He)];
      cbn zeta in He; rewrite He in Hcall; simplify_eq/=; [done|]. by eapply gov_inv_finalise.
  - destruct (queue_cases id q now g t) as [[e He]|(p & h & Hp & Hs & Hn & He)]; rewrite He in Hcall; simplify_eq/=;
      [done|by apply gov_inv_queue].
  - destruct (gexecute_cases id now g t) as [[e He]|(p & h & o & Hp & Hs & Ho & Hm & He)]; rewrite He in Hcall;
      simplify_eq/=; [done|]. eapply gov_inv_end; [done|done|done| |by left]. simpl. apply Z.eqb_refl.
  - destruct (gcancel_cases id c g t) as [[e He]|(p & h & o & Hp & Hs & Ho & Hm & He)]; rewrite He in Hcall;
      simplify_eq/=; [done|]. eapply gov_inv_end; [done|done|done| |by right]. simpl. apply Z.eqb_refl.
  - unfold on_timelock in Hcall. simpl in Hcall.
    destruct (update_delay_cases c d t) as [[e He]|(Hd & _ & He)]; rewrite He in Hcall; simplify_eq/=; [done|].
    rewrite app_nil_r. eapply gov_inv_quiet; [done|by destruct g'|done..].
Qed.

Lemma gov_call_short o s : (length (gov_call o s).1 <= 1)%nat.
Proof. destruct o; try apply logged_short; simpl; lia. Qed.

Lemma gov_run_inv thr bps ops g t evs' g' t' : gov_inv thr bps [] g t -> zlen ops < 2 ^ 64 ->
  gov_run ops (g, t) = (evs', (g', t')) -> gov_inv thr bps evs' g' t'.
Proof.
  intros I Hlen Hr. apply (history_inv gov_call gov_call_short (fun evs s => gov_inv thr bps evs (fst s) (snd s)) (2 ^ 64)
    ) with (ops := ops) (evs := []) (s := (g, t)) (s' := (g', t')); try done.
  intros o evs [g1 t1] ev [g2 t2]. apply gov_call_inv.
Qed.
End steps.

(** ** Tallies against the snapshot *)

Lemma msum_keys `{Countable K} (l : list K) : forall m : gmap K Z, NoDup l -> (forall k, 0 <= mval m k) ->
  foldr (fun k acc => mval m k + acc) 0 l <= msum m.
Proof.
  induction l as [|k l IH]; intros m Hl Hm; simpl; [by apply msum_nonneg|].
  apply list.NoDup_cons in Hl as [Hk Hl]. specialize (IH (<[k := 0]> m) Hl). rewrite msum_insert in IH.
  assert (foldr (fun j acc => mval (<[k := 0]> m) j + acc) 0 l = foldr (fun j acc => mval m j + acc) 0 l) as Heq.
  { clear -Hk. induction l as [|j l IH]; [done|]. simpl. apply not_elem_of_cons in Hk as [Hne Hk].
    rewrite IH, mval_insert by done. by destruct (decide (j = k)). }
  assert (forall j, 0 <= mval (<[k := 0]> m) j) as Hm'.
  { intros j. rewrite mval_insert. by destruct (decide (j = k)). }
  specialize (IH Hm'). lia.
Qed.

Lemma tally_nonneg (sup : VoteSupport) (id : Z) (snap : gmap Address Z) evs : (forall a, 0 <= mval snap a) ->
  (forall v s w, EVoted id v s w ∈ evs -> w = mval snap v) -> 0 <= tally sup id evs.
Proof.
  intros Hs. induction evs as [|e evs IH]; intros Hw; [done|].
  change (0 <= weight_in sup id e + tally sup id evs).
  assert (0 <= tally sup id evs) by (apply IH; intros v s w Hin; apply (Hw v s w); by right).
  assert (0 <= weight_in sup id e); [|lia]. destruct e as [|i v s w| | | |]; try done. simpl.
  destruct (Z.eqb_spec i id) as [->|]; [|done]. simpl. case_bool_decide; [|done].
  rewrite (Hw v s w) by left. apply Hs.
Qed.

Lemma tally_voters (id : Z) (snap : gmap Address Z) evs : (forall v s w, EVoted id v s w ∈ evs -> w = mval snap v) ->
  tally For id evs + tally Against id evs + tally Abstain id evs
  = foldr (fun v acc => mval snap v + acc) 0 (voters id evs).
Proof.
  induction evs as [|e evs IH]; intros Hw; [done|].
  assert (forall sup, tally sup id (e :: evs) = weight_in sup id e + tally sup id evs) as Hc by done.
  rewrite !Hc. specialize (IH ltac:(intros v s w Hin; apply (Hw v s w); by right)).
  destruct e as [|i v s w| | | |]; try exact IH. simpl. destruct (Z.eqb_spec i id) as [->|]; [|exact IH]. simpl.
  rewrite <-(Hw v s w) by left. fold (voters id evs).
  destruct s; repeat case_bool_decide; try done; lia.
Qed.

(** What [passes] computes when nothing wraps. *)
Lemma passed_exact evs g t id p snap : prop_inv evs g t id p -> vote_snapshots g !! id = Some snap ->
  (forall a, 0 <= mval snap a) -> (forall v s w, EVoted id v s w ∈ evs -> w = mval snap v) ->
  NoDup (voters id evs) -> in_range 32 (quorum_bps g) -> msum snap < 2 ^ 96 -> passed g id p ->
  tally Against id evs < tally For id evs /\
  msum snap * quorum_bps g / 10000 <= tally For id evs + tally Against id evs + tally Abstain id evs.
Proof.
  intros [_ Hf Ha Hb _] Hsn Hpos Hw Hnd Hq Hsum. unfold passed, passes, total_snapshot, power_of. rewrite Hsn.
  pose proof (msum_nonneg _ Hpos) as Hs0. pose proof (msum_keys _ snap Hnd Hpos) as Hle.
  rewrite <-(tally_voters id snap evs Hw) in Hle.
  pose proof (tally_nonneg For id snap evs Hpos Hw). pose proof (tally_nonneg Against id snap evs Hpos Hw).
  pose proof (tally_nonneg Abstain id snap evs Hpos Hw). unfold in_range in Hq.
  assert (forall x, 0 <= x < 2 ^ 128 -> u128 x = x) as Hsm by (intros x Hx; by apply wrap_small).
  assert (0 <= msum snap * quorum_bps g < 2 ^ 128) as Hprod.
  { split; [nia|]. change (2 ^ 128) with (2 ^ 96 * 2 ^ 32). nia. }
  rewrite Hf, Ha, Hb, !(Hsm (tally _ _ _)), (Hsm (msum snap)), (Hsm _ Hprod) by lia.
  rewrite !Hsm by (rewrite ?Hsm; lia). intros [Hquo%Z.leb_le Hmaj%Z.ltb_lt]%andb_true_iff. done.
Qed.

(** ** The theorem *)

(** A governor before its first proposal; powers may have been delegated. *)
Definition governor_fresh (g : GovernorV2) : Prop :=
  proposals g = ∅ /\ next_id g = 0 /\ votes_cast g = ∅ /\ in_range 32 (quorum_bps g).
Definition timelock_fresh (t : TimelockController) : Prop := operations t = ∅ /\ delay_ok (delay t) = true.

Lemma gov_inv_fresh g t : governor_fresh g -> timelock_fresh t ->
  gov_inv (proposal_threshold g) (quorum_bps g) [] g t.
Proof.
  intros (Hp & Hn & Hc & _) [_ Hd]. split; try done.
  - by rewrite Hn.
  - intros e He. by apply elem_of_nil in He.
  - intros id p. by rewrite Hp, lookup_empty.
  - intros id v. rewrite Hc, lookup_empty. split; [by intros []|by intros ?%elem_of_nil].
  - intros id. constructor.
  - intros i j p q h. by rewrite Hp, lookup_empty.
Qed.

(** A proposal ends once. *)
Lemma ended_le thr bps evs g t id : gov_inv thr bps evs g t -> ended id evs <= 1.
Proof.
  intros I. destruct (decide (ended id evs = 0)) as [->|Hne]; [done|].
  destruct (proposals g !! id) as [p|] eqn:Hp.
  - destruct (gi_props _ _ _ _ _ I id p Hp) as [_ [_ _ _ _ Hs]]. revert Hs. unfold state_inv.
    destruct (pr_state p); lia || (intros [? _]; lia).
  - destruct Hne. apply others_event, list.Forall_forall. intros e He Heq.
    destruct (gi_events _ _ _ _ _ I e He) as [q Hq]. by rewrite Heq, Hp in Hq.
Qed.


(** ** A run, and what delegation and the operation hash allow *)

Definition id_sha3 : Sha3 := {| sha3_256 := fun b => b |}.

Definition alice : Address := replicate 20 1.
Definition bob : Address := replicate 20 2.
Definition payment : Call := mkCall (replicate 20 9) [171; 205] 5.
Definition gov0 : GovernorV2 := mkGovernor ∅ 0 ∅ ∅ ∅ 100 400 1 43200.
Definition tl0 : TimelockController := mkTimelock ∅ MIN_DELAY_SECS bob alice.

(** Two voters, a refused second vote, and attempts to execute too early and twice. *)
Definition example_ops : list gov_op :=
  [GDelegate alice alice 150; GDelegate bob bob 60; GPropose alice "pay" [payment] 10;
   GVote 0 bob 0 20; GVote 0 alice 1 30; GVote 0 alice 1 30; GFinalise 0 43212;
   GExecute 0 5; GQueue 0 bob 1000; GExecute 0 1001; GExecute 0 200000; GExecute 0 200001; GCancel 0 bob].
Abbreviation example_run := (history (@gov_call id_sha3) example_ops (gov0, tl0)).
Definition before_execution : list gov_event := removelast (fst example_run).


(** One holder's amount counts for every delegate it names: delegating it to
    a second one takes nothing from the first. *)
Lemma power_of_one (a : Address) x : in_range 128 x -> power_of (<[a := x]> ∅) = x.
Proof.
  intros Hx. unfold power_of. rewrite (msum_insert ∅ a), (mval_empty a), Z.add_0_l.
  by apply wrap_small.
Qed.

Lemma delegate_multiplies (a d1 d2 : Address) x g : d1 <> d2 -> in_range 128 x -> delegations g = ∅ ->
  let g' := delegate a d2 x (delegate a d1 x g) in voting_power d1 g' = x /\ voting_power d2 g' = x.
Proof.
  intros Hne Hx Hg g'. unfold g', delegate, voting_power, put2, row. simpl. rewrite Hg, lookup_empty. simpl.
  rewrite lookup_insert_ne, !lookup_insert_eq, lookup_insert_ne, lookup_empty by done.
  split; by apply power_of_one.
Qed.

(** A batch has the id of a single call that has the rest of the batch in its calldata. *)
Lemma batch_hash_collides {SH : Sha3} (a b : Call) pred salt :
  hash_operation [a; b] pred salt
  = hash_operation [mkCall (target a) (calldata a ++ to_be 16 (value a) ++ target b ++ calldata b) (value b)] pred salt.
Proof. unfold hash_operation, operation_bytes. cbn [map concat target calldata value]. by rewrite !app_nil_r, <-!app_assoc. Qed.
