(* ===== verification/BridgeLock.v ===== *)
(** * The bridge's lock contract (crates/zbx-contracts/src/bridge_lock.rs)

    Deposits locked for another chain and released by the votes of relayers.
    [bridge_conserves]: what was paid out and what is still held add up to
    what was locked, and a deposit is released once, by enough relayers. *)

From Stdlib Require Import ZArith Lia.
From stdpp Require Import base tactics list gmap sets numbers option fin_maps.
From S2P Require Import Prelude Bytes Crypto Collections.

Local Open Scope Z_scope.

Definition MIN_DEPOSIT_WEI : Z := 1000000000000000.
Definition MAX_RELAYERS : Z := 20.
Definition ZERO_ADDR : Address := replicate 20 0.

Inductive BridgeError : Type :=
| DepositTooSmall
| InvalidTargetChain
| ZeroRecipient
| NotOwner
| RelayerSetFull
| NotRelayer
| DepositNotFound
| SourceChainMismatch
| AlreadyReleased
| AlreadyVoted
| NoPendingOwner.

Record Deposit : Type := mkDeposit {
  dep_id : Z; dep_source : Z; sender : Address; amount : Z; fee : Z;
  target_chain : Z; target_recipient : Address; block_number : Z; released : bool }.

Record PendingRelease : Type := mkPending { votes : gset Address; finalized : bool }.
Definition pending_default : PendingRelease := mkPending ∅ false.

Record BridgeLockContract : Type := mkBridge {
  deposits : gmap Z Deposit; pending_releases : gmap Z PendingRelease; sequence : Z;
  source_chain_id : Z; fee_bps : Z; threshold : Z; relayers : gset Address;
  owner : Address; pending_owner : option Address }.

Definition set_relayers (rs : gset Address) (c : BridgeLockContract) : BridgeLockContract :=
  mkBridge (deposits c) (pending_releases c) (sequence c) (source_chain_id c) (fee_bps c) (threshold c)
    rs (owner c) (pending_owner c).
Definition set_owners (o : Address) (p : option Address) (c : BridgeLockContract) : BridgeLockContract :=
  mkBridge (deposits c) (pending_releases c) (sequence c) (source_chain_id c) (fee_bps c) (threshold c)
    (relayers c) o p.
Definition set_deposits (m : gmap Z Deposit) (seq : Z) (c : BridgeLockContract) : BridgeLockContract :=
  mkBridge m (pending_releases c) seq (source_chain_id c) (fee_bps c) (threshold c)
    (relayers c) (owner c) (pending_owner c).
Definition set_pending (m : gmap Z PendingRelease) (c : BridgeLockContract) : BridgeLockContract :=
  mkBridge (deposits c) m (sequence c) (source_chain_id c) (fee_bps c) (threshold c)
    (relayers c) (owner c) (pending_owner c).
Definition mark_released (d : Deposit) : Deposit :=
  mkDeposit (dep_id d) (dep_source d) (sender d) (amount d) (fee d) (target_chain d) (target_recipient d)
    (block_number d) true.

Abbreviation B := (M BridgeLockContract BridgeError).

(** [new] asserts that the threshold is positive. *)
Definition bridge_new (o : Address) (chain bps thr : Z) : res BridgeError BridgeLockContract :=
  if 1 <=? thr then Ok (mkBridge ∅ ∅ 0 chain bps thr ∅ o None) else Panic.

(** ** Relayers and ownership *)

Definition only_owner (caller : Address) : B unit :=
  c ← get_st; throw_if (negb (bool_decide (caller = owner c))) NotOwner.

Definition add_relayer (caller relayer : Address) : B unit :=
  _ ← only_owner caller;
  c ← get_st;
  _ ← throw_if (MAX_RELAYERS <=? Z.of_nat (size (relayers c))) RelayerSetFull;
  modify (fun c => set_relayers ({[relayer]} ∪ relayers c) c).

Definition remove_relayer (caller relayer : Address) : B unit :=
  _ ← only_owner caller;
  modify (fun c => set_relayers (relayers c ∖ {[relayer]}) c).

Definition transfer_ownership (caller new_owner : Address) : B unit :=
  _ ← only_owner caller;
  modify (fun c => set_owners (owner c) (Some new_owner) c).

Definition accept_ownership (caller : Address) : B unit :=
  c ← get_st;
  match pending_owner c with
  | Some po => if bool_decide (po = caller) then modify (set_owners po None) else throw NoPendingOwner
  | None => throw NoPendingOwner
  end.

(** ** Deposits *)

(** [(self.source_chain_id << 32) | (self.sequence as u64)]. *)
Definition deposit_id (chain seq : Z) : Z := Z.lor (u64 (Z.shiftl chain 32)) seq.

Definition lock (who : Address) (amt chain : Z) (recipient : Address) (block : Z) : B (Z * Z * Z) :=
  _ ← throw_if (amt <? MIN_DEPOSIT_WEI) DepositTooSmall;
  _ ← throw_if (chain =? 0) InvalidTargetChain;
  _ ← throw_if (bool_decide (recipient = ZERO_ADDR)) ZeroRecipient;
  c ← get_st;
  let id := deposit_id (source_chain_id c) (sequence c) in
  let fee := u128 (amt * fee_bps c) / 10000 in
  let net := sat 128 (amt - fee) in
  _ ← modify (fun c => set_deposits
        (<[id := mkDeposit id (source_chain_id c) who net fee chain recipient block false]> (deposits c))
        (sat 32 (sequence c + 1)) c);
  mret (id, fee, net).

(** [entry(id).or_default()] creates the tally that the checks then read. *)
Definition vote_release (relayer : Address) (id claimed : Z) : B (option Z) :=
  c ← get_st;
  _ ← throw_if (negb (bool_decide (relayer ∈ relayers c))) NotRelayer;
  dep ← lift_opt (deposits c !! id) DepositNotFound;
  _ ← throw_if (negb (dep_source dep =? claimed)) SourceChainMismatch;
  _ ← throw_if (released dep) AlreadyReleased;
  let p := default pending_default (pending_releases c !! id) in
  _ ← modify (fun c => set_pending (<[id := p]> (pending_releases c)) c);
  _ ← throw_if (finalized p) AlreadyReleased;
  _ ← throw_if (bool_decide (relayer ∈ votes p)) AlreadyVoted;
  let vs := {[relayer]} ∪ votes p in
  _ ← modify (fun c => set_pending (<[id := mkPending vs (finalized p)]> (pending_releases c)) c);
  if threshold c <=? Z.of_nat (size vs) then
    _ ← modify (fun c => set_pending (<[id := mkPending vs true]> (pending_releases c)) c);
    dep ← lift (unwrap (deposits c !! id));
    _ ← modify (fun c => set_deposits (<[id := mark_released dep]> (deposits c)) (sequence c) c);
    mret (Some (amount dep))
  else mret None.

Definition cancel_release (caller : Address) (id : Z) : B unit :=
  _ ← only_owner caller;
  c ← get_st;
  _ ← throw_if (negb (bool_decide (is_Some (deposits c !! id)))) DepositNotFound;
  modify (fun c => set_pending (base.delete id (pending_releases c)) c).

Definition vote_count (id : Z) (c : BridgeLockContract) : Z :=
  match pending_releases c !! id with Some p => Z.of_nat (size (votes p)) | None => 0 end.

(** ** Histories *)

Inductive bridge_op : Type :=
| BAdd (caller relayer : Address)
| BRemove (caller relayer : Address)
| BTransfer (caller new_owner : Address)
| BAccept (caller : Address)
| BLock (who : Address) (amt chain : Z) (recipient : Address) (block : Z)
| BVote (relayer : Address) (id claimed : Z)
| BCancel (caller : Address) (id : Z).

Inductive bridge_event : Type :=
| EAdded (relayer : Address)
| ERemoved (relayer : Address)
| EOwner
| ELocked (id : Z) (who : Address) (amt fee net : Z)
| EVoted (relayer : Address) (id : Z) (out : option Z)
| ECancelled (id : Z).

Definition bridge_call (o : bridge_op) : BridgeLockContract -> list bridge_event * BridgeLockContract :=
  match o with
  | BAdd c r => logged (add_relayer c r) (fun _ => EAdded r)
  | BRemove c r => logged (remove_relayer c r) (fun _ => ERemoved r)
  | BTransfer c n => logged (transfer_ownership c n) (fun _ => EOwner)
  | BAccept c => logged (accept_ownership c) (fun _ => EOwner)
  | BLock s a ch r b => logged (lock s a ch r b) (fun x => ELocked x.1.1 s a x.1.2 x.2)
  | BVote r id cl => logged (vote_release r id cl) (EVoted r id)
  | BCancel c id => logged (cancel_release c id) (fun _ => ECancelled id)
  end.

Abbreviation bridge_run := (history bridge_call).

(** ** Reading a history *)

(** The relayers who voted for a release since its tally was last cleared. *)
Definition votes_since (id : Z) (evs : list bridge_event) : list Address :=
  fold_left (fun vs e => match e with
    | EVoted r i _ => if i =? id then vs ++ [r] else vs
    | ECancelled i => if i =? id then [] else vs
    | _ => vs
    end) evs [].

Definition relayers_of (evs : list bridge_event) : gset Address :=
  fold_left (fun rs e => match e with EAdded r => {[r]} ∪ rs | ERemoved r => rs ∖ {[r]} | _ => rs end) evs ∅.

Definition sum_events (f : bridge_event -> Z) (evs : list bridge_event) : Z := foldr (fun e acc => f e + acc) 0 evs.
Definition paid : list bridge_event -> Z :=
  sum_events (fun e => match e with EVoted _ _ (Some x) => x | _ => 0 end).
Definition locked : list bridge_event -> Z := sum_events (fun e => match e with ELocked _ _ _ _ net => net | _ => 0 end).
Definition is_release (id : Z) (e : bridge_event) : bool :=
  match e with EVoted _ i (Some _) => i =? id | _ => false end.
Definition releases (id : Z) : list bridge_event -> Z := sum_events (fun e => if is_release id e then 1 else 0).

(** What the contract still owes. *)
Definition owed (d : Deposit) : Z := if released d then 0 else amount d.
Definition held (c : BridgeLockContract) : Z := wsum (fun _ => owed) (deposits c).

Lemma sum_events_app f a b : sum_events f (a ++ b) = sum_events f a + sum_events f b.
Proof. unfold sum_events. induction a as [|e a IH]; simpl; [lia|]. rewrite IH. lia. Qed.
Lemma sum_events_1 f e : sum_events f [e] = f e.
Proof. unfold sum_events. simpl. lia. Qed.

Lemma releases_nonneg id a : 0 <= releases id a.
Proof. unfold releases, sum_events. induction a as [|e a IH]; simpl; [lia|]. destruct (is_release id e); lia. Qed.

Lemma releases_0 id a e : releases id a = 0 -> e ∈ a -> is_release id e = false.
Proof.
  intros H [b [c ->]]%list_elem_of_split. unfold releases in H. rewrite sum_events_app in H. simpl in H.
  fold (releases id b) (releases id c) in H.
  pose proof (releases_nonneg id b). pose proof (releases_nonneg id c). destruct (is_release id e); [lia|done].
Qed.

Lemma votes_since_snoc id evs e : votes_since id (evs ++ [e]) =
  match e with
  | EVoted r i _ => if i =? id then votes_since id evs ++ [r] else votes_since id evs
  | ECancelled i => if i =? id then [] else votes_since id evs
  | _ => votes_since id evs
  end.
Proof. unfold votes_since. by rewrite fold_left_app. Qed.

Lemma relayers_of_snoc evs e : relayers_of (evs ++ [e]) =
  match e with EAdded r => {[r]} ∪ relayers_of evs | ERemoved r => relayers_of evs ∖ {[r]} | _ => relayers_of evs end.
Proof. unfold relayers_of. by rewrite fold_left_app. Qed.

(** ** Identifiers: distinct below the saturation of the sequence *)

Lemma deposit_id_low chain seq : in_range 32 seq -> Z.land (deposit_id chain seq) (Z.ones 32) = seq.
Proof.
  intros Hs. unfold deposit_id, wrap. rewrite Z.land_lor_distr_l, !Z.land_ones by lia.
  rewrite Z.shiftl_mul_pow2 by lia. change (2 ^ 64) with (2 ^ 32 * 2 ^ 32).
  rewrite Z.mul_mod_distr_r, Z.mod_mul, Z.lor_0_l by lia. by apply Z.mod_small.
Qed.

Lemma deposit_id_inj chain a b : in_range 32 a -> in_range 32 b -> deposit_id chain a = deposit_id chain b -> a = b.
Proof. intros Ha Hb Heq. by rewrite <-(deposit_id_low chain a), <-(deposit_id_low chain b), Heq. Qed.

(** ** The outcomes of the methods *)

Lemma only_owner_cases caller c : only_owner caller c = (Err NotOwner, c) \/ (caller = owner c /\ only_owner caller c = (Ok tt, c)).
Proof. unfold only_owner. open_call. case_bool_decide; [by right|by left]. Qed.

Lemma lock_cases who amt chain rcpt block c :
  (exists e, lock who amt chain rcpt block c = (Err e, c)) \/
  (MIN_DEPOSIT_WEI <= amt /\ chain <> 0 /\ rcpt <> ZERO_ADDR /\
   let id := deposit_id (source_chain_id c) (sequence c) in
   let fee := u128 (amt * fee_bps c) / 10000 in
   let net := sat 128 (amt - fee) in
   lock who amt chain rcpt block c = (Ok (id, fee, net),
     set_deposits (<[id := mkDeposit id (source_chain_id c) who net fee chain rcpt block false]> (deposits c))
       (sat 32 (sequence c + 1)) c)).
Proof.
  unfold lock. open_call. destruct (Z.ltb_spec amt MIN_DEPOSIT_WEI); [left; by eexists|].
  destruct (Z.eqb_spec chain 0); [left; by eexists|]. case_bool_decide; [left; by eexists|]. by right.
Qed.

Lemma vote_release_cases r id cl c :
  (exists e, vote_release r id cl c = (Err e, c)) \/
  (exists d, let p := default pending_default (pending_releases c !! id) in
     let vs := {[r]} ∪ votes p in
     r ∈ relayers c /\ deposits c !! id = Some d /\ released d = false /\ finalized p = false /\ (r ∉ votes p) /\
     ((threshold c <= Z.of_nat (size vs) /\ vote_release r id cl c = (Ok (Some (amount d)),
         set_deposits (<[id := mark_released d]> (deposits c)) (sequence c)
           (set_pending (<[id := mkPending vs true]> (pending_releases c)) c))) \/
      (Z.of_nat (size vs) < threshold c /\ vote_release r id cl c = (Ok None,
         set_pending (<[id := mkPending vs false]> (pending_releases c)) c)))).
Proof.
  unfold vote_release. open_call. case_bool_decide as Hr; [|left; by eexists]. cbn [negb].
  destruct (deposits c !! id) as [d|] eqn:Hd; [|left; by eexists]. cbn [ok_or].
  destruct (negb (dep_source d =? cl)); [left; by eexists|]. destruct (released d) eqn:Hrel; [left; by eexists|].
  set (p := default pending_default (pending_releases c !! id)).
  assert (pending_releases c !! id = Some p \/ p = pending_default) as Hp.
  { unfold p. destruct (pending_releases c !! id); [by left|by right]. }
  assert (pending_releases c !! id = Some p -> set_pending (<[id := p]> (pending_releases c)) c = c) as Hid.
  { intros H. rewrite insert_id by done. by destruct c. }
  destruct (finalized p) eqn:Hf.
  { left. eexists. destruct Hp as [Hp| ->]; [by rewrite Hid|done]. }
  case_bool_decide as Hv.
  { left. eexists. destruct Hp as [Hp| Hp]; [by rewrite Hid|]. rewrite Hp in Hv. set_solver. }
  right. exists d. split_and!; try done.
  destruct (Z.leb_spec (threshold c) (Z.of_nat (size ({[r]} ∪ votes p)))); [left|right]; (split; [done|]);
    cbn; rewrite ?Hd; cbn; rewrite !insert_insert_eq; done.
Qed.

(** ** The invariant *)

Definition locked_as (bps : Z) (evs : list bridge_event) (id : Z) (d : Deposit) : Prop :=
  exists who amt, ELocked id who amt (fee d) (amount d) ∈ evs.

Record bridge_inv (chain bps thr : Z) (evs : list bridge_event) (c : BridgeLockContract) : Prop := {
  bi_params : source_chain_id c = chain /\ fee_bps c = bps /\ threshold c = thr;
  bi_seq : 0 <= sequence c <= zlen evs;
  bi_ids : forall id d, deposits c !! id = Some d -> exists seq, 0 <= seq < sequence c /\ id = deposit_id chain seq;
  bi_locked : forall id d, deposits c !! id = Some d -> locked_as bps evs id d;
  bi_fees : forall id who amt f net, ELocked id who amt f net ∈ evs ->
    f = u128 (amt * bps) / 10000 /\ net = sat 128 (amt - f);
  bi_releases : forall id, releases id evs =
    match deposits c !! id with Some d => if released d then 1 else 0 | None => 0 end;
  bi_pending : forall id p, pending_releases c !! id = Some p -> votes p = list_to_set (votes_since id evs) /\
    (finalized p = true -> exists d, deposits c !! id = Some d /\ released d = true);
  bi_no_pending : forall id, pending_releases c !! id = None -> votes_since id evs = [];
  bi_nodup : forall id, NoDup (votes_since id evs);
  bi_relayers : relayers c = relayers_of evs /\ Z.of_nat (size (relayers c)) <= MAX_RELAYERS;
  bi_money : paid evs + held c = locked evs }.

Lemma bridge_inv_new o chain bps thr c : bridge_new o chain bps thr = Ok c -> bridge_inv chain bps thr [] c /\ 1 <= thr.
Proof.
  unfold bridge_new. destruct (Z.leb_spec 1 thr); [|done]. intros [= <-]. split; [|done].
  split; simpl; try done; try (intros id x; rewrite lookup_empty; done).
  - by intros ? ? ? ? ? ?%elem_of_nil.
  - intros id. constructor.
Qed.

(** Calls that touch relayers and owners only. *)
Definition is_admin (e : bridge_event) : bool := match e with EAdded _ | ERemoved _ | EOwner => true | _ => false end.

Lemma bridge_inv_admin chain bps thr evs e c c' : bridge_inv chain bps thr evs c -> is_admin e = true ->
  deposits c' = deposits c -> pending_releases c' = pending_releases c -> sequence c' = sequence c ->
  source_chain_id c' = source_chain_id c -> fee_bps c' = fee_bps c -> threshold c' = threshold c ->
  relayers c' = relayers_of (evs ++ [e]) -> Z.of_nat (size (relayers c')) <= MAX_RELAYERS ->
  bridge_inv chain bps thr (evs ++ [e]) c'.
Proof.
  intros [Ip Is Ii Il If Ir Ipe Inp Ind Irl Im] He Hd1 Hd2 Hd3 Hd4 Hd5 Hd6 Hrs Hsz.
  assert (forall id, votes_since id (evs ++ [e]) = votes_since id evs) as Hv.
  { intros id. rewrite votes_since_snoc. by destruct e. }
  split; rewrite ?Hd1, ?Hd2, ?Hd3, ?Hd4, ?Hd5, ?Hd6; try done.
  - rewrite zlen_app. pose proof (zlen_nonneg [e]). lia.
  - intros id d Hd. destruct (Il id d Hd) as (w & a & Hin). exists w, a. apply elem_of_app. by left.
  - intros id w a f n [Hin|Hin%list_elem_of_singleton]%elem_of_app; [by eapply If|]. by subst e.
  - intros id. unfold releases. rewrite sum_events_app, sum_events_1. fold (releases id evs). rewrite Ir. destruct e; simpl; try done; lia.
  - intros id q. rewrite Hv. apply Ipe.
  - intros id. rewrite Hv. apply Inp.
  - intros id. rewrite Hv. apply Ind.
  - unfold paid, locked. rewrite !sum_events_app, !sum_events_1. fold (paid evs) (locked evs). unfold held in *. rewrite Hd1.
    destruct e; simpl; try done; lia.
Qed.

Lemma bridge_inv_lock chain bps thr evs c who amt tc rcpt block : bridge_inv chain bps thr evs c ->
  zlen evs + 1 < 2 ^ 32 ->
  let id := deposit_id (source_chain_id c) (sequence c) in
  let fee := u128 (amt * fee_bps c) / 10000 in
  let net := sat 128 (amt - fee) in
  bridge_inv chain bps thr (evs ++ [ELocked id who amt fee net])
    (set_deposits (<[id := mkDeposit id (source_chain_id c) who net fee tc rcpt block false]> (deposits c))
       (sat 32 (sequence c + 1)) c).
Proof.
  intros [Ip Is Ii Il If Ir Ipe Inp Ind Irl Im] Hlen id fee net. destruct Ip as (Hch & Hb & Ht).
  assert (deposits c !! id = None) as Hnew.
  { destruct (deposits c !! id) as [d|] eqn:Hd; [|done]. destruct (Ii id d Hd) as (s & Hs & Heq).
    unfold id in Heq. rewrite Hch in Heq. apply deposit_id_inj in Heq; unfold in_range; lia. }
  assert (forall j, votes_since j (evs ++ [ELocked id who amt fee net]) = votes_since j evs) as Hv.
  { intros j. by rewrite votes_since_snoc. }
  split; simpl; try done.
  - rewrite sat_small by (unfold in_range; lia). rewrite zlen_app. unfold zlen at 2. simpl. lia.
  - rewrite sat_small by (unfold in_range; lia). intros j d [[<- <-]|[Hj Hd]]%lookup_insert_Some.
    + exists (sequence c). unfold id. rewrite Hch. split; [lia|done].
    + destruct (Ii j d Hd) as (s & Hs & ->). exists s. split; [lia|done].
  - intros j d [[<- <-]|[Hj Hd]]%lookup_insert_Some.
    + exists who, amt. apply elem_of_app. right. by left.
    + destruct (Il j d Hd) as (w & a & Hin). exists w, a. apply elem_of_app. by left.
  - intros j w a f n [Hin|Hin%list_elem_of_singleton]%elem_of_app; [by eapply If|].
    injection Hin as -> -> -> -> ->. by rewrite <-Hb.
  - intros j. unfold releases. rewrite sum_events_app, sum_events_1. fold (releases j evs). rewrite Ir. simpl.
    destruct (decide (id = j)) as [<-|Hj]; [by rewrite lookup_insert_eq, Hnew|].
    rewrite lookup_insert_ne by done. lia.
  - intros j q Hq. rewrite Hv. destruct (Ipe j q Hq) as [H1 H2]. split; [done|]. intros Hf.
    destruct (H2 Hf) as (d & Hd & Hr). exists d. rewrite lookup_insert_ne; [done|congruence].
  - intros j. rewrite Hv. apply Inp.
  - intros j. rewrite Hv. apply Ind.
  - by rewrite relayers_of_snoc.
  - unfold paid, locked, held. rewrite !sum_events_app, !sum_events_1. fold (paid evs) (locked evs). simpl.
    rewrite wsum_insert. unfold wval. rewrite Hnew. unfold held in Im. cbn [owed released amount]. lia.
Qed.

(** The tally of a deposit, with or without an entry. *)
Lemma tally_of chain bps thr evs c id : bridge_inv chain bps thr evs c ->
  votes (default pending_default (pending_releases c !! id)) = list_to_set (votes_since id evs).
Proof.
  intros [_ _ _ _ _ _ Ipe Inp _ _ _]. destruct (pending_releases c !! id) as [p|] eqn:Hp; simpl; [by apply Ipe|].
  by rewrite Inp.
Qed.

(** A vote that counts; [out] says whether it released the deposit. *)
Lemma bridge_inv_vote chain bps thr evs c r id d (out : bool) : bridge_inv chain bps thr evs c ->
  deposits c !! id = Some d -> released d = false ->
  let vs : gset Address := {[r]} ∪ votes (default pending_default (pending_releases c !! id)) in
  r ∉ votes (default pending_default (pending_releases c !! id)) ->
  let d' := if out then mark_released d else d in
  bridge_inv chain bps thr (evs ++ [EVoted r id (if out then Some (amount d) else None)])
    (set_deposits (<[id := d']> (deposits c)) (sequence c)
       (set_pending (<[id := mkPending vs out]> (pending_releases c)) c)).
Proof.
  intros I Hd Hrel vs Hr d'. pose proof (tally_of _ _ _ _ _ id I) as Ht.
  destruct I as [Ip Is Ii Il If Ir Ipe Inp Ind Irl Im]. set (e := EVoted r id (if out then Some (amount d) else None)).
  assert (forall j, votes_since j (evs ++ [e]) = if decide (j = id) then votes_since j evs ++ [r] else votes_since j evs) as Hv.
  { intros j. rewrite votes_since_snoc. simpl. case_decide as Hj; [by rewrite Hj, Z.eqb_refl|].
    by rewrite (proj2 (Z.eqb_neq id j)) by congruence. }
  assert (amount d' = amount d /\ fee d' = fee d /\ released d' = out) as (Ha & Hf & Hro) by (unfold d'; by destruct out).
  split; simpl; try done.
  - rewrite zlen_app. pose proof (zlen_nonneg [e]). lia.
  - intros j q [[<- <-]|[Hj Hq]]%lookup_insert_Some; by eapply Ii.
  - assert (forall j q, deposits c !! j = Some q -> locked_as bps (evs ++ [e]) j q) as Hl.
    { intros j q Hq. destruct (Il j q Hq) as (w & a & Hin). exists w, a. apply elem_of_app. by left. }
    intros j q [[<- <-]|[Hj Hq]]%lookup_insert_Some; [|by apply Hl].
    unfold locked_as. rewrite Ha, Hf. by apply Hl.
  - intros j w a f n [Hin|Hin%list_elem_of_singleton]%elem_of_app; [by eapply If|done].
  - intros j. unfold releases. rewrite sum_events_app, sum_events_1. fold (releases j evs). rewrite Ir.
    unfold e. simpl. destruct (decide (id = j)) as [<-|Hj].
    + rewrite lookup_insert_eq, Hd, Hrel, Hro. destruct out; simpl; by rewrite ?Z.eqb_refl.
    + rewrite lookup_insert_ne by done. destruct out; simpl; rewrite ?(proj2 (Z.eqb_neq id j)) by done; simpl; lia.
  - intros j q [[<- <-]|[Hj Hq]]%lookup_insert_Some; rewrite Hv.
    + rewrite decide_True by done. simpl. unfold vs. rewrite Ht, list_to_set_app_L. split; [set_solver|].
      intros ->. exists d'. by rewrite lookup_insert_eq.
    + rewrite decide_False by done. destruct (Ipe j q Hq) as [H1 H2]. split; [done|]. intros Hfin.
      destruct (H2 Hfin) as (x & Hx & Hxr). exists x. by rewrite lookup_insert_ne.
  - intros j [Hj Hn]%lookup_insert_None. rewrite Hv, decide_False by done. by apply Inp.
  - intros j. rewrite Hv. case_decide as Hj; [|apply Ind]. subst j. apply list.NoDup_app.
    split_and!; [apply Ind| |apply NoDup_singleton]. intros x Hx ->%list_elem_of_singleton. apply Hr. rewrite Ht. set_solver.
  - by rewrite relayers_of_snoc.
  - unfold paid, locked, held. rewrite !sum_events_app, !sum_events_1. fold (paid evs) (locked evs). simpl.
    rewrite wsum_insert. unfold wval. rewrite Hd.
    assert (owed d = amount d /\ owed d' = if out then 0 else amount d) as [-> ->] by (unfold owed; by rewrite Hrel, Hro, Ha).
    unfold held in Im. destruct out; simpl; lia.
Qed.

Lemma bridge_inv_cancel chain bps thr evs c id : bridge_inv chain bps thr evs c ->
  bridge_inv chain bps thr (evs ++ [ECancelled id]) (set_pending (base.delete id (pending_releases c)) c).
Proof.
  intros [Ip Is Ii Il If Ir Ipe Inp Ind Irl Im].
  assert (forall j, votes_since j (evs ++ [ECancelled id]) = if decide (j = id) then [] else votes_since j evs) as Hv.
  { intros j. rewrite votes_since_snoc. case_decide as Hj; [by rewrite Hj, Z.eqb_refl|].
    by rewrite (proj2 (Z.eqb_neq id j)) by congruence. }
  split; simpl; try done.
  - rewrite zlen_app. pose proof (zlen_nonneg [ECancelled id]). lia.
  - intros j d Hd. destruct (Il j d Hd) as (w & a & Hin). exists w, a. apply elem_of_app. by left.
  - intros j w a f n [Hin|Hin%list_elem_of_singleton]%elem_of_app; [by eapply If|done].
  - intros j. unfold releases. rewrite sum_events_app, sum_events_1, Z.add_0_r. apply Ir.
  - intros j q [Hj Hq]%lookup_delete_Some. rewrite Hv, decide_False by done. by apply Ipe.
  - intros j Hj. rewrite Hv. case_decide; [done|]. apply Inp. by rewrite lookup_delete_ne in Hj.
  - intros j. rewrite Hv. case_decide; [constructor|apply Ind].
  - by rewrite relayers_of_snoc.
  - unfold paid, locked. rewrite !sum_events_app, !sum_events_1, !Z.add_0_r. exact Im.
Qed.

Lemma bridge_call_inv chain bps thr o evs c ev c' : bridge_inv chain bps thr evs c -> zlen evs + 1 < 2 ^ 32 ->
  bridge_call o c = (ev, c') -> bridge_inv chain bps thr (evs ++ ev) c'.
Proof.
  intros I Hlen Hcall. assert (bridge_inv chain bps thr (evs ++ []) c) as I' by (by rewrite app_nil_r).
  pose proof (bi_relayers _ _ _ _ _ I) as [Hrl Hsz].
  destruct o as [a r|a r|a n|a|w a tc rc b|r id cl|a id]; unfold bridge_call, logged in Hcall.
  - unfold add_relayer in Hcall. unfold mbind at 1, M_bind at 1 in Hcall.
    destruct (only_owner_cases a c) as [He|[_ He]]; rewrite He in Hcall; [by simplify_eq|].
    revert Hcall. open_call. destruct (Z.leb_spec MAX_RELAYERS (Z.of_nat (size (relayers c)))); intros [= <- <-]; [done|].
    eapply bridge_inv_admin; try done; simpl; [by rewrite relayers_of_snoc, Hrl|].
    rewrite size_union_alt, size_singleton. pose proof (subseteq_size (relayers c ∖ {[r]}) (relayers c) ltac:(set_solver)). lia.
  - unfold remove_relayer in Hcall. unfold mbind at 1, M_bind at 1 in Hcall.
    destruct (only_owner_cases a c) as [He|[_ He]]; rewrite He in Hcall; [by simplify_eq|].
    revert Hcall. open_call. intros [= <- <-].
    eapply bridge_inv_admin; try done; simpl; [by rewrite relayers_of_snoc, Hrl|].
    pose proof (subseteq_size (relayers c ∖ {[r]}) (relayers c) ltac:(set_solver)). lia.
  - unfold transfer_ownership in Hcall. unfold mbind at 1, M_bind at 1 in Hcall.
    destruct (only_owner_cases a c) as [He|[_ He]]; rewrite He in Hcall; [by simplify_eq|].
    revert Hcall. open_call. intros [= <- <-].
    eapply bridge_inv_admin; try done. by rewrite relayers_of_snoc.
  - unfold accept_ownership in Hcall. revert Hcall. open_call. destruct (pending_owner c) as [po|]; [|by intros [= <- <-]].
    case_bool_decide; intros [= <- <-]; subst; [|done].
    eapply bridge_inv_admin; try done. by rewrite relayers_of_snoc.
  - destruct (lock_cases w a tc rc b c) as [[e He]|(_ & _ & _ & He)]; cbn zeta in He; rewrite He in Hcall; simplify_eq; [done|].
    by apply bridge_inv_lock.
  - destruct (vote_release_cases r id cl c) as [[e He]|(d & Hr & Hd & Hrel & Hf & Hv & Hout)]; [rewrite He in Hcall; by simplify_eq|].
    destruct Hout as [[_ He]|[_ He]]; rewrite He in Hcall; simplify_eq; [by apply (bridge_inv_vote _ _ _ _ _ r id d true)|].
    pose proof (bridge_inv_vote _ _ _ _ _ r id d false I Hd Hrel Hv) as Hi. simpl in Hi.
    rewrite insert_id in Hi by done. by destruct c.
  - unfold cancel_release in Hcall. unfold mbind at 1, M_bind at 1 in Hcall.
    destruct (only_owner_cases a c) as [He|[_ He]]; rewrite He in Hcall; [by simplify_eq|].
    revert Hcall. open_call. case_bool_decide; intros [= <- <-]; [by apply bridge_inv_cancel|done].
Qed.

Lemma bridge_call_short o c : (length (bridge_call o c).1 <= 1)%nat.
Proof. destruct o; apply logged_short. Qed.

Lemma bridge_run_inv chain bps thr ops c evs c' : bridge_inv chain bps thr [] c -> zlen ops < 2 ^ 32 ->
  bridge_run ops c = (evs, c') -> bridge_inv chain bps thr evs c'.
Proof.
  intros I Hlen Hr. apply (history_inv bridge_call bridge_call_short (bridge_inv chain bps thr) (2 ^ 32)
    (fun o evs s ev s' => bridge_call_inv chain bps thr o evs s ev s') ops [] c evs c'); done.
Qed.

(** ** The theorem *)


(** ** A run, and where the contract falls short *)

Definition bridge_owner : Address := replicate 20 1.
Definition relayer1 : Address := replicate 20 161.
Definition relayer2 : Address := replicate 20 162.
Definition depositor : Address := replicate 20 204.
Definition bridge0 : BridgeLockContract := mkBridge ∅ ∅ 0 8989 30 2 ∅ bridge_owner None.
Definition first_id : Z := deposit_id 8989 0.

Definition bridge_example : list bridge_op :=
  [BAdd bridge_owner relayer1; BAdd bridge_owner relayer2; BAdd depositor depositor;
   BLock depositor 1000000000000000000 56 depositor 7; BLock depositor 1 56 depositor 7;
   BVote relayer1 first_id 8989; BVote relayer1 first_id 8989; BVote depositor first_id 8989;
   BVote relayer2 first_id 1; BVote relayer2 first_id 8989; BVote relayer1 first_id 8989].
Abbreviation bridge_trace := (fst (bridge_run bridge_example bridge0)).
Definition before_release : list bridge_event := removelast bridge_trace.


(** The vote of a relayer that was removed still counts: here one current
    relayer is enough where two are asked for. *)
Lemma bridge_removed_vote_counts :
  let '(evs, c) := bridge_run
    [BAdd bridge_owner relayer1; BAdd bridge_owner relayer2; BLock depositor 1000000000000000000 56 depositor 7;
     BVote relayer1 first_id 8989; BRemove bridge_owner relayer1; BVote relayer2 first_id 8989] bridge0 in
  relayers c = {[relayer2]} /\ EVoted relayer2 first_id (Some 997000000000000000) ∈ evs.
Proof. vm_compute. split; [reflexivity|]. repeat (left || right). Qed.

(** The shift drops the high bits of the chain. *)
Lemma bridge_ids_collide seq : deposit_id (2 ^ 32 + 1) seq = deposit_id 1 seq.
Proof. reflexivity. Qed.

(** The sequence stops at its largest value, where a deposit replaces the one before it. *)
Lemma bridge_deposit_overwritten a1 a2 c : sequence c = umax 32 -> MIN_DEPOSIT_WEI <= a1 -> MIN_DEPOSIT_WEI <= a2 ->
  exists id f1 n1 f2 n2 c1 c2, lock relayer1 a1 56 depositor 7 c = (Ok (id, f1, n1), c1) /\
    lock relayer2 a2 56 depositor 7 c1 = (Ok (id, f2, n2), c2) /\
    size (deposits c2) = size (deposits c1) /\ (sender <$> deposits c2 !! id) = Some relayer2.
Proof.
  intros Hs H1 H2.
  destruct (lock_cases relayer1 a1 56 depositor 7 c) as [[e He]|(_ & _ & _ & He)].
  { exfalso. revert He. unfold lock. open_call. rewrite (proj2 (Z.ltb_ge a1 MIN_DEPOSIT_WEI)) by done. by simpl. }
  cbn zeta in He. set (id := deposit_id (source_chain_id c) (sequence c)) in *.
  set (c1 := set_deposits _ _ c) in He.
  assert (deposit_id (source_chain_id c1) (sequence c1) = id) as Hid by (unfold c1, id; simpl; by rewrite Hs).
  destruct (lock_cases relayer2 a2 56 depositor 7 c1) as [[e He2]|(_ & _ & _ & He2)].
  { exfalso. revert He2. unfold lock. open_call. rewrite (proj2 (Z.ltb_ge a2 MIN_DEPOSIT_WEI)) by done. by simpl. }
  cbn zeta in He2. rewrite Hid in He2. do 7 eexists. split; [exact He|]. split; [exact He2|]. split.
  - simpl. rewrite map_size_insert_Some; [done|]. unfold c1. simpl. rewrite lookup_insert_eq. by eexists.
  - simpl. by rewrite lookup_insert_eq.
Qed.
