(* ===== verification/Amm.v ===== *)
(** * The automated market maker (crates/zbx-pool: pair.rs, security.rs, fee.rs, error.rs)

    One liquidity pair: its guards, the fee tiers, the constant-product swap,
    deposits and withdrawals of liquidity, quotes and the integer square root
    of the first deposit. *)

From Stdlib Require Import ZArith Lia.
From stdpp Require Import base tactics list gmap countable numbers option.
From S2P Require Import Prelude Bytes.

Local Open Scope Z_scope.

Abbreviation Address := (list Z).

(** ** Errors (error.rs) *)

Inductive AmmError : Type :=
| Reentrancy
| PoolPaused (reason : bytes)
| PriceImpactTooHigh (impact_bps max_bps : Z)
| SlippageExceeded (got min : Z)
| DeadlineExpired (now deadline : Z)
| ReserveDrainExceeded (drain_bps max_bps : Z)
| OraclePriceDeviation (deviation_bps max_bps : Z)
| Overflow
| DivisionByZero
| InvariantOverflow
| PoolAlreadyExists
| IdenticalTokens
| InsufficientCreationFee (have need : Z)
| EmptyReserve
| InsufficientLiquidityBurned
| InsufficientLpBalance
| BelowMinLiquidity
| ZeroAmount
| ZeroOutput
| InvariantViolation
| ZeroAddressTransfer
| PairNotFound.

#[export] Instance AmmError_eq_dec : EqDecision AmmError.
Proof. solve_decision. Defined.

(** ** Fees (fee.rs) *)

Inductive FeeTier : Type := Lowest | Standard | High.

#[export] Instance FeeTier_eq_dec : EqDecision FeeTier.
Proof. solve_decision. Defined.

Definition bps (t : FeeTier) : Z := match t with Lowest => 5 | Standard => 30 | High => 100 end.
Definition protocol_bps (t : FeeTier) : Z := bps t / 5.
Definition lp_bps (t : FeeTier) : Z := bps t - protocol_bps t.

(** The products wrap.  Returns the liquidity providers' and the protocol's
    share. *)
Definition split_fee (amount_in : Z) (tier : FeeTier) : Z * Z :=
  let total_fee := u128 (amount_in * bps tier) / 10000 in
  let protocol := u128 (amount_in * protocol_bps tier) / 10000 in
  (sat 128 (total_fee - protocol), protocol).

(** ** Guards (security.rs) *)

Definition MIN_LIQUIDITY : Z := 1000.
Definition MAX_PRICE_IMPACT_BPS : Z := 3000.
Definition MAX_ORACLE_DEVIATION_BPS : Z := 1500.
Definition MAX_RESERVE_DRAIN_BPS : Z := 3000.

Abbreviation Checked := (res AmmError unit).

Definition check_price_impact (amount_in reserve_in : Z) : Checked :=
  if reserve_in =? 0 then Err EmptyReserve
  else
    let denom := sat 128 (reserve_in + amount_in) in
    let impact_bps := sat 128 (amount_in * 10000) / denom in
    guard_err (MAX_PRICE_IMPACT_BPS <? u32 impact_bps) (PriceImpactTooHigh (u32 impact_bps) MAX_PRICE_IMPACT_BPS).

Definition check_slippage (amount_out min_amount_out : Z) : Checked :=
  guard_err (amount_out <? min_amount_out) (SlippageExceeded amount_out min_amount_out).

Definition check_deadline (block_timestamp deadline : Z) : Checked :=
  guard_err (deadline <? block_timestamp) (DeadlineExpired block_timestamp deadline).

Definition check_reserve_drain (amount_out reserve_out : Z) : Checked :=
  if reserve_out =? 0 then Err EmptyReserve
  else
    let drain_bps := sat 128 (amount_out * 10000) / reserve_out in
    guard_err (MAX_RESERVE_DRAIN_BPS <? u32 drain_bps) (ReserveDrainExceeded (u32 drain_bps) MAX_RESERVE_DRAIN_BPS).

Definition check_oracle_deviation (pool_spot oracle_price : Z) : Checked :=
  if oracle_price =? 0 then Ok tt
  else if pool_spot =? 0 then Err (OraclePriceDeviation 10000 MAX_ORACLE_DEVIATION_BPS)
  else
    let diff := if oracle_price <? pool_spot then pool_spot - oracle_price else oracle_price - pool_spot in
    let deviation_bps := sat 128 (diff * 10000) / oracle_price in
    guard_err (MAX_ORACLE_DEVIATION_BPS <? u32 deviation_bps)
      (OraclePriceDeviation (u32 deviation_bps) MAX_ORACLE_DEVIATION_BPS).

Definition safe_mul_div (a b c : Z) : res AmmError Z :=
  if c =? 0 then Err DivisionByZero
  else num ← ok_or (checked 128 (a * b)) Overflow; Ok (num / c).

Record CircuitBreaker : Type := mkBreaker { paused : bool; reason : option bytes; since_block : Z }.
Definition breaker_new : CircuitBreaker := mkBreaker false None 0.
Definition trip (why : bytes) (block : Z) (c : CircuitBreaker) : CircuitBreaker := mkBreaker true (Some why) block.
Definition clear (c : CircuitBreaker) : CircuitBreaker := mkBreaker false None 0.
Definition breaker_check (c : CircuitBreaker) : Checked :=
  guard_err (paused c) (PoolPaused (default [] (reason c))).

(** ** The pair (pair.rs) *)

Record PairId : Type := mkPairId { token_a : Address; token_b : Address }.

#[export] Instance PairId_eq_dec : EqDecision PairId.
Proof. solve_decision. Defined.
#[export] Instance PairId_countable : Countable PairId :=
  inj_countable' (fun p => (token_a p, token_b p)) (fun '(a, b) => mkPairId a b) (fun '(mkPairId a b) => eq_refl).

(** Comparison of byte strings, [a.as_bytes() < b.as_bytes()]. *)
Fixpoint bytes_ltb (a b : bytes) : bool :=
  match a, b with
  | _, [] => false
  | [], _ => true
  | x :: a, y :: b => (x <? y) || (x =? y) && bytes_ltb a b
  end.

Definition pair_id (a b : Address) : PairId := if bytes_ltb a b then mkPairId a b else mkPairId b a.

Record SwapParams : Type := mkSwap {
  a_to_b : bool; amount_in : Z; min_amount_out : Z; swap_deadline : Z; oracle_twap : Z; swap_timestamp : Z }.
Record AddLiquidityParams : Type := mkAdd {
  amount_a : Z; amount_b : Z; min_lp_out : Z; add_deadline : Z; add_timestamp : Z }.
Record RemoveLiquidityParams : Type := mkRemove {
  lp_amount : Z; min_a_out : Z; min_b_out : Z; remove_deadline : Z; remove_timestamp : Z }.
Record SwapResult : Type := mkSwapResult {
  amount_out : Z; lp_fee : Z; protocol_fee : Z; new_reserve_a : Z; new_reserve_b : Z }.
Record AddLiquidityResult : Type := mkAddResult { lp_minted : Z; used_a : Z; used_b : Z }.
Record RemoveLiquidityResult : Type := mkRemoveResult { out_a : Z; out_b : Z }.

(** [locked] is the flag of the [ReentrancyGuard]. *)
Record Pair : Type := mkPair {
  id : PairId; reserve_a : Z; reserve_b : Z; total_lp : Z; fee_a : Z; fee_b : Z;
  fee_tier : FeeTier; locked : bool; circuit : CircuitBreaker }.

Definition pair_new (i : PairId) (tier : FeeTier) : Pair := mkPair i 0 0 0 0 0 tier false breaker_new.

Definition set_reserves (a b : Z) (p : Pair) : Pair :=
  mkPair (id p) a b (total_lp p) (fee_a p) (fee_b p) (fee_tier p) (locked p) (circuit p).
Definition set_total_lp (l : Z) (p : Pair) : Pair :=
  mkPair (id p) (reserve_a p) (reserve_b p) l (fee_a p) (fee_b p) (fee_tier p) (locked p) (circuit p).
Definition set_fees (a b : Z) (p : Pair) : Pair :=
  mkPair (id p) (reserve_a p) (reserve_b p) (total_lp p) a b (fee_tier p) (locked p) (circuit p).
Definition set_locked (b : bool) (p : Pair) : Pair :=
  mkPair (id p) (reserve_a p) (reserve_b p) (total_lp p) (fee_a p) (fee_b p) (fee_tier p) b (circuit p).

Abbreviation P := (M Pair AmmError).

Definition acquire : P unit :=
  fun p => if locked p then (Err Reentrancy, p) else (Ok tt, set_locked true p).
Definition release (p : Pair) : Pair := set_locked false p.

(** The lock is released on success and on error. *)
Definition unlocking {A} (inner : P A) : P A := fun p =>
  match inner p with
  | (Panic, p) => (Panic, p)
  | (r, p) => (r, release p)
  end.

(** The three entry points: breaker, lock, body, unlock. *)
Definition guarded {A} (inner : P A) : P A :=
  p ← get_st;
  _ ← lift (breaker_check (circuit p));
  _ ← acquire;
  unlocking inner.

Definition spot_price_a_in_b (p : Pair) : Z :=
  if reserve_a p =? 0 then 0
  else
    match checked 128 (reserve_b p * 10 ^ 18) with
    | Some v => v / reserve_a p
    | None =>
      let scaled := sat 128 (reserve_b p / 1000000 * 10 ^ 12) in
      sat 128 (scaled / reserve_a p * 1000000)
    end.

Definition k (p : Pair) : option Z := checked 128 (reserve_a p * reserve_b p).

(** The numerator and the denominator of the output, [None] on overflow. *)
Definition quote_parts (fee_mult amount_in r_in r_out : Z) : option (Z * Z) :=
  dx_fee ← checked 128 (amount_in * fee_mult);
  numerator ← checked 128 (dx_fee * r_out);
  scaled ← checked 128 (r_in * 10000);
  denom ← checked 128 (scaled + dx_fee);
  Some (numerator, denom).

Definition reserves (ab : bool) (p : Pair) : Z * Z :=
  if ab then (reserve_a p, reserve_b p) else (reserve_b p, reserve_a p).

Definition swap_inner (s : SwapParams) : P SwapResult :=
  _ ← lift (check_deadline (swap_timestamp s) (swap_deadline s));
  _ ← throw_if (amount_in s =? 0) ZeroAmount;
  p ← get_st;
  let '(r_in, r_out) := reserves (a_to_b s) p in
  _ ← throw_if ((r_in =? 0) || (r_out =? 0)) EmptyReserve;
  _ ← lift (check_oracle_deviation (spot_price_a_in_b p) (oracle_twap s));
  _ ← lift (check_price_impact (amount_in s) r_in);
  '(numerator, denom) ← lift_opt (quote_parts (10000 - bps (fee_tier p)) (amount_in s) r_in r_out) Overflow;
  let out := numerator / denom in
  _ ← throw_if (out =? 0) ZeroOutput;
  _ ← lift (check_reserve_drain out r_out);
  _ ← lift (check_slippage out (min_amount_out s));
  let '(lp_fee, protocol_fee) := split_fee (amount_in s) (fee_tier p) in
  old_k ← lift_opt (checked 128 (reserve_a p * reserve_b p)) InvariantOverflow;
  '(new_ra, new_rb) ←
    (if a_to_b s then
       a ← lift_opt (checked 128 (reserve_a p + amount_in s)) Overflow;
       b ← lift_opt (checked 128 (reserve_b p - out)) InsufficientLiquidityBurned;
       _ ← modify (set_fees (u128 (fee_a p + protocol_fee)) (fee_b p));
       mret (a, b)
     else
       b ← lift_opt (checked 128 (reserve_b p + amount_in s)) Overflow;
       a ← lift_opt (checked 128 (reserve_a p - out)) InsufficientLiquidityBurned;
       _ ← modify (set_fees (fee_a p) (u128 (fee_b p + protocol_fee)));
       mret (a, b));
  new_k ← lift_opt (checked 128 (new_ra * new_rb)) InvariantOverflow;
  _ ← throw_if (new_k <? old_k) InvariantViolation;
  _ ← modify (set_reserves new_ra new_rb);
  mret (mkSwapResult out lp_fee protocol_fee new_ra new_rb).

Definition swap (s : SwapParams) : P SwapResult := guarded (swap_inner s).

(** *** Integer square root

    Newton's iteration; [x + 1] wraps for the largest [n], after which the
    division is by zero. *)
Fixpoint sqrt_loop (fuel : nat) (n x y : Z) : option (res AmmError Z) :=
  match fuel with
  | O => None
  | S fuel =>
    if y <? x then
      let x := y in
      if x =? 0 then Some Panic
      else sqrt_loop fuel n x (u128 (x + n / x) / 2)
    else Some (Ok x)
  end.

(** Every round halves the distance to the root. *)
Definition SQRT_FUEL : nat := 131.
Definition integer_sqrt (n : Z) : res AmmError Z :=
  if n =? 0 then Ok 0 else default Panic (sqrt_loop SQRT_FUEL n n (u128 (n + 1) / 2)).

(** *** Liquidity *)

(** The shares to mint and the amounts to take. *)
Definition shares_for (p : Pair) (amount_a amount_b : Z) : res AmmError (Z * Z * Z) :=
  if total_lp p =? 0 then
    product ← ok_or (checked 128 (amount_a * amount_b)) Overflow;
    sqrt ← integer_sqrt product;
    if sqrt <=? MIN_LIQUIDITY then Err BelowMinLiquidity
    else Ok (sqrt - MIN_LIQUIDITY, amount_a, amount_b)
  else
    lp_a ← safe_mul_div amount_a (total_lp p) (reserve_a p);
    lp_b ← safe_mul_div amount_b (total_lp p) (reserve_b p);
    let lp := Z.min lp_a lp_b in
    ua ← safe_mul_div lp (reserve_a p) (total_lp p);
    ub ← safe_mul_div lp (reserve_b p) (total_lp p);
    Ok (lp, ua, ub).

Definition add_liquidity_inner (a : AddLiquidityParams) : P AddLiquidityResult :=
  _ ← lift (check_deadline (add_timestamp a) (add_deadline a));
  _ ← throw_if ((amount_a a =? 0) || (amount_b a =? 0)) ZeroAmount;
  p ← get_st;
  '(lp, ua, ub) ← lift (shares_for p (amount_a a) (amount_b a));
  _ ← throw_if (lp <? min_lp_out a) (SlippageExceeded lp (min_lp_out a));
  ra ← lift_opt (checked 128 (reserve_a p + ua)) Overflow;
  _ ← modify (set_reserves ra (reserve_b p));
  rb ← lift_opt (checked 128 (reserve_b p + ub)) Overflow;
  _ ← modify (set_reserves ra rb);
  l ← lift_opt (checked 128 (total_lp p + lp)) Overflow;
  _ ← modify (set_total_lp l);
  mret (mkAddResult lp ua ub).

Definition add_liquidity (a : AddLiquidityParams) : P AddLiquidityResult := guarded (add_liquidity_inner a).

Definition remove_liquidity_inner (r : RemoveLiquidityParams) : P RemoveLiquidityResult :=
  _ ← lift (check_deadline (remove_timestamp r) (remove_deadline r));
  _ ← throw_if (lp_amount r =? 0) ZeroAmount;
  p ← get_st;
  _ ← throw_if (total_lp p <? lp_amount r) InsufficientLpBalance;
  a ← lift (safe_mul_div (lp_amount r) (reserve_a p) (total_lp p));
  b ← lift (safe_mul_div (lp_amount r) (reserve_b p) (total_lp p));
  _ ← throw_if ((a =? 0) || (b =? 0)) InsufficientLiquidityBurned;
  _ ← lift (check_slippage a (min_a_out r));
  _ ← lift (check_slippage b (min_b_out r));
  ra ← lift_opt (checked 128 (reserve_a p - a)) InsufficientLiquidityBurned;
  _ ← modify (set_reserves ra (reserve_b p));
  rb ← lift_opt (checked 128 (reserve_b p - b)) InsufficientLiquidityBurned;
  _ ← modify (set_reserves ra rb);
  l ← lift_opt (checked 128 (total_lp p - lp_amount r)) InsufficientLpBalance;
  _ ← modify (set_total_lp l);
  mret (mkRemoveResult a b).

Definition remove_liquidity (r : RemoveLiquidityParams) : P RemoveLiquidityResult := guarded (remove_liquidity_inner r).

(** Quote without the checks. *)
Definition get_amount_out (amount_in : Z) (ab : bool) (p : Pair) : Z :=
  let '(r_in, r_out) := reserves ab p in
  if (r_in =? 0) || (r_out =? 0) || (amount_in =? 0) then 0
  else
    match quote_parts (10000 - bps (fee_tier p)) amount_in r_in r_out with
    | Some (numerator, denom) => numerator / denom
    | None => 0
    end.

(** ** The square root *)

Lemma newton_step n s x : s = Z.sqrt n -> 0 <= n -> 0 < x -> s <= x ->
  s <= (x + n / x) / 2 /\ (s < x -> (x + n / x) / 2 - s <= (x - s) / 2).
Proof.
  intros -> Hn Hx Hs. destruct (Z.sqrt_spec n Hn) as [Hl Hu]. set (r := Z.sqrt n) in *.
  pose proof (Z.mul_div_le n x Hx) as Hd. pose proof (Z.mul_succ_div_gt n x Hx) as Hd'.
  set (q := n / x) in *. split.
  - apply Z.div_le_lower_bound; [lia|]. assert (2 * r - 1 < x + q); [|lia]. nia.
  - intros Hlt. assert (q <= r) by nia.
    enough ((x + q) / 2 <= (x + r) / 2) by (pose proof (Z.div_add_l r 2 (x - r) ltac:(lia)); replace (r * 2 + (x - r)) with (x + r) in * by lia; lia).
    apply Z.div_le_mono; lia.
Qed.

Lemma sqrt_loop_ok f n x : 0 < n < 2 ^ 128 - 1 -> 0 < x <= n -> Z.sqrt n <= x -> x - Z.sqrt n < 2 ^ Z.of_nat f ->
  sqrt_loop (S f) n x ((x + n / x) / 2) = Some (Ok (Z.sqrt n)).
Proof.
  intros Hn. revert x. induction f as [|f IH]; intros x Hx Hs Hd;
    destruct (newton_step n (Z.sqrt n) x) as [Hlo Hhi]; try lia; cbn [sqrt_loop].
  - replace x with (Z.sqrt n) in * by (simpl in Hd; lia). by rewrite (proj2 (Z.ltb_ge _ _)) by lia.
  - destruct (Z.ltb_spec ((x + n / x) / 2) x) as [Hlt|Hge].
    + set (y := (x + n / x) / 2) in *. assert (0 < Z.sqrt n) by (apply Z.sqrt_pos; lia). assert (y <> 0) as Hy%Z.eqb_neq by lia. rewrite Hy. apply Z.eqb_neq in Hy.
      assert (y + n / y <= n + 1) as Hw.
      { pose proof (Z.mul_div_le n y ltac:(lia)). assert (1 <= n / y) by (apply Z.div_le_lower_bound; lia). nia. }
      rewrite wrap_small by (unfold in_range; pose proof (Z.div_pos n y); lia).
      apply IH; [lia..|]. rewrite Nat2Z.inj_succ, Z.pow_succ_r in Hd by lia. specialize (Hhi ltac:(lia)).
      pose proof (Z.div_lt_upper_bound (x - Z.sqrt n) 2 (2 ^ Z.of_nat f)). lia.
    + destruct (decide (Z.sqrt n = x)) as [->|Hne]; [done|]. specialize (Hhi ltac:(lia)).
      pose proof (Z.div_lt (x - Z.sqrt n) 2). lia.
Qed.

(** The square root of a first deposit is exact for every product of 128 bits
    but the largest, for which the iteration divides by zero. *)
Lemma integer_sqrt_spec n : in_range 128 n ->
  integer_sqrt n = if n =? umax 128 then Panic else Ok (Z.sqrt n).
Proof.
  intros [Hn0 Hn]. destruct (Z.eqb_spec n (umax 128)) as [->|Hne]; [by vm_compute|].
  unfold integer_sqrt. destruct (Z.eqb_spec n 0) as [->|Hnz]; [done|]. unfold umax in Hne.
  rewrite wrap_small by (unfold in_range; lia). unfold SQRT_FUEL.
  pose proof (sqrt_loop_ok 130 n n) as H. rewrite Z.div_same in H by lia. rewrite H; [done|lia..| |].
  - apply Z.sqrt_le_lin. lia.
  - pose proof (Z.sqrt_nonneg n). change (2 ^ Z.of_nat 130) with (4 * 2 ^ 128). lia.
Qed.

(** ** Swaps *)

(** An empty pair, or one with shares and both reserves. *)
Definition pair_ok (p : Pair) : Prop :=
  in_range 128 (reserve_a p) /\ in_range 128 (reserve_b p) /\ in_range 128 (total_lp p) /\
  (total_lp p = 0 /\ reserve_a p = 0 /\ reserve_b p = 0 \/ 0 < total_lp p /\ 0 < reserve_a p /\ 0 < reserve_b p).

(** The constant-product output after the fee. *)
Definition swap_out (f x r_in r_out : Z) : Z := x * f * r_out / (r_in * 10000 + x * f).
Definition fee_mult (p : Pair) : Z := 10000 - bps (fee_tier p).

Lemma fee_mult_range p : 9900 <= fee_mult p <= 9995.
Proof. unfold fee_mult. destruct (fee_tier p); simpl; lia. Qed.

Lemma quote_parts_Some f x ri ro num den : 0 <= x -> 0 <= f -> 0 <= ri -> 0 <= ro ->
  quote_parts f x ri ro = Some (num, den) -> num = x * f * ro /\ den = ri * 10000 + x * f.
Proof.
  intros Hx Hf Hri Hro. unfold quote_parts. intros H.
  repeat (apply bind_Some in H as (? & Hc & H); apply checked_Some in Hc as [-> ?]).
  injection H as <- <-. done.
Qed.

(** The output leaves the product of the reserves at least as large. *)
Lemma swap_out_bounds f x ri ro : 0 < x -> 0 < f <= 10000 -> 0 < ri -> 0 < ro ->
  0 <= swap_out f x ri ro < ro /\ swap_out f x ri ro * (ri + x) <= x * ro.
Proof.
  intros Hx Hf Hri Hro. unfold swap_out. set (d := ri * 10000 + x * f). assert (0 < d) by (unfold d; nia).
  pose proof (Z.mul_div_le (x * f * ro) d ltac:(lia)) as Hle. set (o := x * f * ro / d) in *.
  assert (0 <= o) by (apply Z.div_pos; [nia|lia]).
  assert (o < ro) by (unfold d in Hle; nia). split; [done|].
  unfold d in Hle. assert (0 <= x * (10000 - f) * (ro - o)) by (apply Z.mul_nonneg_nonneg; nia). nia.
Qed.

(** What a successful swap does. *)
Record swapped (s : SwapParams) (p : Pair) (r : SwapResult) (q : Pair) : Prop := {
  sw_out : let '(ri, ro) := reserves (a_to_b s) p in amount_out r = swap_out (fee_mult p) (amount_in s) ri ro;
  sw_min : 0 < amount_out r /\ min_amount_out s <= amount_out r;
  sw_fees : (lp_fee r, protocol_fee r) = split_fee (amount_in s) (fee_tier p);
  sw_reserves : let '(ri, ro) := reserves (a_to_b s) p in
    reserves (a_to_b s) q = (ri + amount_in s, ro - amount_out r) /\
    0 < ri /\ amount_out r < ro /\ ri * ro <= (ri + amount_in s) * (ro - amount_out r) < 2 ^ 128;
  sw_rest : exists fa fb, q = set_reserves (reserve_a q) (reserve_b q) (set_fees fa fb p) }.

(** [split_fee] within a swap, where nothing wraps. *)
Lemma set_fees_same p : set_fees (fee_a p) (fee_b p) p = p.
Proof. by destruct p. Qed.
Lemma unlock_locked p : locked p = false -> release (set_locked true p) = p.
Proof. destruct p; simpl. intros ->. done. Qed.

Lemma guarded_unlocked {A} (inner : P A) p : locked p = false ->
  guarded inner p =
  if paused (circuit p) then (Err (PoolPaused (default [] (reason (circuit p)))), p)
  else unlocking inner (set_locked true p).
Proof.
  intros Hl. unfold guarded, mbind, M_bind, get_st, lift, breaker_check, guard_err, acquire. rewrite Hl.
  by destruct (paused (circuit p)).
Qed.

Definition swap_ok (s : SwapParams) : Prop := in_range 128 (amount_in s).

Lemma reserves_range b p : pair_ok p -> in_range 128 (reserves b p).1 /\ in_range 128 (reserves b p).2.
Proof. intros (? & ? & _). by destruct b. Qed.

Lemma checked_or w x : checked w x = Some x /\ in_range w x \/ checked w x = None /\ ~ in_range w x.
Proof. destruct (checked w x) eqn:E; [apply checked_Some in E as [-> ?]|apply checked_None in E]; eauto. Qed.

(** The errors that a swap cannot end with. *)
Definition internal (e : AmmError) : Prop :=
  e = InvariantViolation \/ e = InsufficientLiquidityBurned \/ e = Reentrancy.

Definition external (c : Checked) : Prop :=
  match c with Ok _ => True | Err e => ~ internal e | Panic => False end.

Lemma guards_external x r :
  external (check_price_impact x r) /\ external (check_reserve_drain x r) /\ external (check_oracle_deviation x r).
Proof.
  unfold check_price_impact, check_reserve_drain, check_oracle_deviation, guard_err, external, internal.
  split_and!; repeat case_match; simplify_eq; intuition discriminate.
Qed.

(** The reserves after a swap, in the direction of the swap. *)
Lemma swap_reserves s p num den : pair_ok p -> swap_ok s -> amount_in s <> 0 ->
  let '(ri, ro) := reserves (a_to_b s) p in
  0 < ri -> 0 < ro -> quote_parts (10000 - bps (fee_tier p)) (amount_in s) ri ro = Some (num, den) ->
  num / den = swap_out (fee_mult p) (amount_in s) ri ro /\ 0 <= num / den < ro /\
  ri * ro <= (ri + amount_in s) * (ro - num / den).
Proof.
  intros Hp [Hs ?] Hnz. destruct (reserves (a_to_b s) p) as [ri ro]. intros Hri Hro Hq.
  pose proof (fee_mult_range p) as Hf. unfold fee_mult in *.
  apply quote_parts_Some in Hq as [-> ->]; [|lia..]. change (_ / _) with (swap_out (10000 - bps (fee_tier p)) (amount_in s) ri ro).
  destruct (swap_out_bounds (10000 - bps (fee_tier p)) (amount_in s) ri ro); [lia..|]. split_and!; [done|lia..|nia].
Qed.

Lemma swap_inner_cases s p : pair_ok p -> swap_ok s ->
  match swap_inner s p with
  | (Ok r, q) => swapped s p r q
  | (Err e, q) => ~ internal e /\ (q = p \/ e = InvariantOverflow /\ exists fa fb, q = set_fees fa fb p)
  | (Panic, _) => False
  end.
Proof.
  intros Hp Hs. unfold swap_inner, mbind, M_bind, get_st, lift, lift_opt, ok_or, throw_if, modify, mret, M_ret.
  unfold check_deadline, check_slippage, guard_err.
  destruct (reserves (a_to_b s) p) as [ri ro] eqn:Hr.
  pose proof (swap_reserves s p) as Hout. rewrite Hr in Hout.
  pose proof (fun x r => proj1 (guards_external x r)) as G1.
  pose proof (fun x r => proj1 (proj2 (guards_external x r))) as G2.
  pose proof (fun x r => proj2 (proj2 (guards_external x r))) as G3.
  destruct Hp as (Ha & Hb & Hp'). assert (pair_ok p) as Hp by (unfold pair_ok; tauto).
  repeat (case_goal; try done; try (solve [split; [unfold internal; intuition discriminate|eauto]]));
    try match goal with
    | H : check_price_impact ?x ?r = _ |- ~ _ /\ _ => specialize (G1 x r); rewrite H in G1; by auto
    | H : check_reserve_drain ?x ?r = _ |- ~ _ /\ _ => specialize (G2 x r); rewrite H in G2; by auto
    | H : check_oracle_deviation ?x ?r = _ |- ~ _ /\ _ => specialize (G3 x r); rewrite H in G3; by auto
    | H : check_price_impact ?x ?r = Panic |- _ => specialize (G1 x r); by rewrite H in G1
    | H : check_reserve_drain ?x ?r = Panic |- _ => specialize (G2 x r); by rewrite H in G2
    | H : check_oracle_deviation ?x ?r = Panic |- _ => specialize (G3 x r); by rewrite H in G3
    end.
  all: injection Hr as <- <-; bool_to_prop; unfold in_range in Ha, Hb;
    destruct (Hout _ _ Hp Hs ltac:(lia) ltac:(lia) ltac:(lia) eq_refl) as (E & Hro & Hk);
    repeat match goal with
    | H : checked _ _ = Some _ |- _ => apply checked_Some in H as [-> H]
    | H : checked _ _ = None |- _ => apply checked_None in H
    end; unfold in_range in *; try (exfalso; lia).
  all: rename select (a_to_b s = _) into Hdir; split; rewrite ?Hdir; cbn [reserves amount_out lp_fee protocol_fee set_reserves set_fees reserve_a reserve_b]; auto with lia;
    try (split_and!; first [done|lia]); eauto.
Qed.

(** ** Liquidity *)

Lemma safe_mul_div_cases a b c : 
  match safe_mul_div a b c with
  | Ok v => v = a * b / c /\ c <> 0 /\ in_range 128 (a * b)
  | Err e => e = DivisionByZero \/ e = Overflow
  | Panic => False
  end.
Proof.
  unfold safe_mul_div, mbind, res_bind, ok_or. destruct (Z.eqb_spec c 0); [auto|].
  destruct (checked_or 128 (a * b)) as [[-> ?]|[-> ?]]; auto.
Qed.

(** A share of a reserve is at most the whole, and what it was computed from. *)
Lemma share_le lp r l : 0 <= lp <= l -> 0 <= r -> 0 < l -> 0 <= lp * r / l <= r.
Proof. intros. split; [apply Z.div_pos; nia|]. apply Z.div_le_upper_bound; nia. Qed.
Lemma share_back x l r lp : 0 <= x -> 0 < l -> 0 < r -> lp <= x * l / r -> 0 <= lp -> lp * r / l <= x.
Proof.
  intros. pose proof (Z.mul_div_le (x * l) r ltac:(lia)).
  enough (lp * r / l < x + 1) by lia. apply Z.div_lt_upper_bound; nia.
Qed.

Lemma div_share x l : 0 < l -> x / l * l <= x < (x / l + 1) * l.
Proof. intros Hl. pose proof (Z.mul_div_le x l Hl). pose proof (Z.mul_succ_div_gt x l Hl). nia. Qed.

Definition add_ok (a : AddLiquidityParams) : Prop := in_range 128 (amount_a a) /\ in_range 128 (amount_b a).

(** What a deposit and a withdrawal do. *)
Record added (a : AddLiquidityParams) (p : Pair) (r : AddLiquidityResult) (q : Pair) : Prop := {
  ad_q : q = set_total_lp (total_lp p + lp_minted r) (set_reserves (reserve_a p + used_a r) (reserve_b p + used_b r) p);
  ad_range : in_range 128 (total_lp q) /\ in_range 128 (reserve_a q) /\ in_range 128 (reserve_b q);
  ad_nonzero : amount_a a <> 0 /\ amount_b a <> 0;
  ad_min : 0 <= lp_minted r /\ min_lp_out a <= lp_minted r;
  ad_used : 0 <= used_a r <= amount_a a /\ 0 <= used_b r <= amount_b a;
  ad_first : total_lp p = 0 ->
    lp_minted r = Z.sqrt (amount_a a * amount_b a) - 1000 /\ 0 < lp_minted r /\ used_a r = amount_a a /\ used_b r = amount_b a;
  ad_share : total_lp p <> 0 ->
    lp_minted r = Z.min (amount_a a * total_lp p / reserve_a p) (amount_b a * total_lp p / reserve_b p) /\
    used_a r = lp_minted r * reserve_a p / total_lp p /\ used_b r = lp_minted r * reserve_b p / total_lp p }.

Record removed (x : RemoveLiquidityParams) (p : Pair) (r : RemoveLiquidityResult) (q : Pair) : Prop := {
  re_q : q = set_total_lp (total_lp p - lp_amount x) (set_reserves (reserve_a p - out_a r) (reserve_b p - out_b r) p);
  re_lp : 0 < lp_amount x <= total_lp p;
  re_out : out_a r = lp_amount x * reserve_a p / total_lp p /\ out_b r = lp_amount x * reserve_b p / total_lp p;
  re_bounds : 0 < out_a r <= reserve_a p /\ 0 < out_b r <= reserve_b p /\ min_a_out x <= out_a r /\ min_b_out x <= out_b r }.

(** [shares_for] at every pair that is in order. *)
Lemma shares_for_cases p a b : pair_ok p -> in_range 128 a -> in_range 128 b -> a <> 0 -> b <> 0 ->
  match shares_for p a b with
  | Ok (lp, ua, ub) =>
    0 <= lp /\ 0 <= ua <= a /\ 0 <= ub <= b /\
    (total_lp p = 0 -> lp = Z.sqrt (a * b) - 1000 /\ 0 < lp /\ ua = a /\ ub = b) /\
    (total_lp p <> 0 -> lp = Z.min (a * total_lp p / reserve_a p) (b * total_lp p / reserve_b p) /\
       ua = lp * reserve_a p / total_lp p /\ ub = lp * reserve_b p / total_lp p)
  | Err e => e <> Reentrancy
  | Panic => total_lp p = 0 /\ a * b = umax 128
  end.
Proof.
  intros (Hra & Hrb & Hl & Hw) Ha Hb Hna Hnb. unfold shares_for, in_range in *. destruct (Z.eqb_spec (total_lp p) 0) as [Hz|Hz].
  - unfold mbind, res_bind, ok_or. destruct (checked_or 128 (a * b)) as [[-> Hab]|[-> _]]; [|done].
    rewrite integer_sqrt_spec by done. destruct (Z.eqb_spec (a * b) (umax 128)); [done|].
    destruct (Z.leb_spec (Z.sqrt (a * b)) MIN_LIQUIDITY) as [|Hgt]; [done|]. unfold MIN_LIQUIDITY in *. split_and!; try lia.
  - assert (0 < total_lp p /\ 0 < reserve_a p /\ 0 < reserve_b p) as (Hl0 & Ha0 & Hb0) by lia.
    unfold mbind, res_bind.
    repeat match goal with |- context [safe_mul_div ?a ?b ?c] =>
      let H := fresh "S" in pose proof (safe_mul_div_cases a b c) as H; destruct (safe_mul_div a b c);
      [destruct H as (-> & _ & _)|by destruct H as [-> | ->]|by destruct H] end.
    set (lp := Z.min _ _). assert (0 <= lp) by (unfold lp; apply Z.min_glb; apply Z.div_pos; nia).
    assert (lp * reserve_a p / total_lp p <= a) by (apply share_back; unfold lp; lia).
    assert (lp * reserve_b p / total_lp p <= b) by (apply share_back; unfold lp; lia).
    split_and!; try lia; apply Z.div_pos; nia.
Qed.

(** An error inside a deposit can leave reserves already raised. *)
Definition raised (p q : Pair) : Prop :=
  q = set_reserves (reserve_a q) (reserve_b q) p /\ reserve_a p <= reserve_a q < 2 ^ 128 /\
  reserve_b p <= reserve_b q < 2 ^ 128 /\ (total_lp p = 0 -> q = p).

Lemma raised_refl p : pair_ok p -> raised p p.
Proof. intros ((_ & ?) & (_ & ?) & _). unfold raised. split_and!; auto; [by destruct p|lia..]. Qed.

Lemma add_inner_cases a p : pair_ok p -> add_ok a ->
  match add_liquidity_inner a p with
  | (Ok r, q) => added a p r q
  | (Err e, q) => e <> Reentrancy /\ raised p q
  | (Panic, _) => total_lp p = 0 /\ amount_a a * amount_b a = umax 128
  end.
Proof.
  intros Hp [Ha Hb]. pose proof (raised_refl p Hp) as Hr.
  unfold add_liquidity_inner, mbind, M_bind, get_st, lift, lift_opt, ok_or, throw_if, modify, mret, M_ret.
  unfold check_deadline, guard_err.
  destruct (add_deadline a <? add_timestamp a); [done|].
  destruct ((amount_a a =? 0) || (amount_b a =? 0)) eqn:Hz; [done|]. bool_to_prop.
  pose proof (shares_for_cases p _ _ Hp Ha Hb ltac:(lia) ltac:(lia)) as Hs.
  destruct (shares_for p (amount_a a) (amount_b a)) as [[[lp ua] ub]|e|]; [|done|done].
  destruct Hs as (Hlp & Hua & Hub & Hfirst & Hnext).
  destruct (Z.ltb_spec lp (min_lp_out a)); [done|].
  destruct Hp as (Hra & Hrb & Hl & Hw). unfold in_range in *.
  destruct (checked_or 128 (reserve_a p + ua)) as [[-> Ra]|[-> Ra]]; [|done]. unfold in_range in Ra.
  assert (total_lp p = 0 -> in_range 128 (reserve_b p + ub) /\ in_range 128 (total_lp p + lp)) as Hfit.
  { intros Hz0. specialize (Hfirst Hz0). unfold in_range. pose proof (Z.sqrt_nonneg (amount_a a * amount_b a)).
    assert (Z.sqrt (amount_a a * amount_b a) < 2 ^ 128); [|lia]. apply Z.sqrt_lt_square; nia. }
  destruct (checked_or 128 (reserve_b p + ub)) as [[-> Rb]|[-> Rb]]; unfold in_range in *.
  2: { unfold raised; simpl; split_and!; try done; try lia; by intros [? _]%Hfit. }
  destruct (checked_or 128 (total_lp p + lp)) as [[-> Rl]|[-> Rl]]; unfold in_range in *.
  2: { unfold raised; simpl; split_and!; try done; try lia; by intros [_ ?]%Hfit. }
  split; simpl; unfold in_range; auto with lia.
Qed.

Definition remove_ok (x : RemoveLiquidityParams) : Prop := in_range 128 (lp_amount x).

Lemma remove_inner_cases x p : pair_ok p -> remove_ok x ->
  match remove_liquidity_inner x p with
  | (Ok r, q) => removed x p r q
  | (Err e, q) => e <> Reentrancy /\ q = p
  | (Panic, _) => False
  end.
Proof.
  intros (Hra & Hrb & Hl & Hw) Hx. unfold remove_ok, in_range in *.
  unfold remove_liquidity_inner, mbind, M_bind, get_st, lift, lift_opt, ok_or, throw_if, modify, mret, M_ret.
  unfold check_deadline, check_slippage, guard_err.
  destruct (remove_deadline x <? remove_timestamp x); [done|].
  destruct (Z.eqb_spec (lp_amount x) 0); [done|]. destruct (Z.ltb_spec (total_lp p) (lp_amount x)); [done|].
  do 2 match goal with |- context [safe_mul_div ?a ?b ?c] =>
    let H := fresh "S" in pose proof (safe_mul_div_cases a b c) as H; destruct (safe_mul_div a b c);
    [destruct H as (-> & _ & _)|by destruct H as [-> | ->]|by destruct H] end.
  pose proof (share_le (lp_amount x) (reserve_a p) (total_lp p) ltac:(lia) ltac:(lia) ltac:(lia)).
  pose proof (share_le (lp_amount x) (reserve_b p) (total_lp p) ltac:(lia) ltac:(lia) ltac:(lia)).
  set (oa := lp_amount x * reserve_a p / total_lp p) in *. set (ob := lp_amount x * reserve_b p / total_lp p) in *.
  destruct ((oa =? 0) || (ob =? 0)) eqn:Hz; [done|]. bool_to_prop.
  destruct (Z.ltb_spec oa (min_a_out x)); [done|]. destruct (Z.ltb_spec ob (min_b_out x)); [done|].
  rewrite !checked_in by (unfold in_range; lia).
  split; simpl; unfold oa, ob in *; auto with lia.
Qed.

(** ** The entry points *)

Lemma swapped_unlock s p r q : locked p = false -> swapped s (set_locked true p) r q -> swapped s p r (release q).
Proof.
  intros Hl [H1 H2 H3 H4 (fa & fb & H5)]. split; [done|done|done| |].
  - destruct (a_to_b s); exact H4.
  - exists fa, fb. rewrite H5. simpl. unfold set_reserves, set_fees. simpl. by rewrite Hl.
Qed.
Lemma added_unlock a p r q : locked p = false -> added a (set_locked true p) r q -> added a p r (release q).
Proof.
  intros Hl [H1 ? ? ? ? ? ?]. split; [|done..]. rewrite H1. unfold set_total_lp, set_reserves. simpl. by rewrite Hl.
Qed.
Lemma removed_unlock x p r q : locked p = false -> removed x (set_locked true p) r q -> removed x p r (release q).
Proof.
  intros Hl [H1 ? ? ?]. split; [|done..]. rewrite H1. unfold set_total_lp, set_reserves. simpl. by rewrite Hl.
Qed.
Lemma raised_unlock p q : locked p = false -> raised (set_locked true p) q -> raised p (release q).
Proof.
  intros Hl (H1 & Ha & Hb & H2). split; [|split; [exact Ha|split; [exact Hb|]]].
  - rewrite H1. unfold set_reserves. simpl. by rewrite Hl.
  - intros Hz. rewrite (H2 Hz). by apply unlock_locked.
Qed.

(** *** What the three calls do, on every branch *)

Lemma swap_cases s p : pair_ok p -> locked p = false -> swap_ok s ->
  match swap s p with
  | (Ok r, q) => swapped s p r q
  | (Err e, q) => ~ internal e /\ (q = p \/ e = InvariantOverflow /\ exists fa fb, q = set_fees fa fb p)
  | (Panic, _) => False
  end.
Proof.
  intros Hp Hl Hs. unfold swap. rewrite guarded_unlocked by done.
  destruct (paused (circuit p)); [split; [unfold internal; intuition discriminate|by left]|].
  unfold unlocking. pose proof (swap_inner_cases s (set_locked true p) Hp Hs) as H.
  destruct (swap_inner s (set_locked true p)) as [[r|e|] q]; [by apply swapped_unlock| |done].
  destruct H as [He H]. split; [done|]. destruct H as [->|(-> & fa & fb & ->)].
  - left. by apply unlock_locked.
  - right. split; [done|]. exists fa, fb. destruct p; simpl in *. by subst.
Qed.

Lemma add_cases a p : pair_ok p -> locked p = false -> add_ok a ->
  match add_liquidity a p with
  | (Ok r, q) => added a p r q
  | (Err e, q) => e <> Reentrancy /\ raised p q
  | (Panic, _) => total_lp p = 0 /\ amount_a a * amount_b a = umax 128
  end.
Proof.
  intros Hp Hl Ha. unfold add_liquidity. rewrite guarded_unlocked by done.
  destruct (paused (circuit p)); [split; [done|by apply raised_refl]|].
  unfold unlocking. pose proof (add_inner_cases a (set_locked true p) Hp Ha) as H.
  destruct (add_liquidity_inner a (set_locked true p)) as [[r|e|] q]; [by apply added_unlock| |done].
  destruct H. split; [done|by apply raised_unlock].
Qed.

Lemma remove_cases x p : pair_ok p -> locked p = false -> remove_ok x ->
  match remove_liquidity x p with
  | (Ok r, q) => removed x p r q
  | (Err e, q) => e <> Reentrancy /\ q = p
  | (Panic, _) => False
  end.
Proof.
  intros Hp Hl Hx. unfold remove_liquidity. rewrite guarded_unlocked by done.
  destruct (paused (circuit p)); [done|].
  unfold unlocking. pose proof (remove_inner_cases x (set_locked true p) Hp Hx) as H.
  destruct (remove_liquidity_inner x (set_locked true p)) as [[r|e|] q]; [by apply removed_unlock| |done].
  destruct H as [? ->]. split; [done|by apply unlock_locked].
Qed.

(** ** Reachable pairs *)

Inductive PairOp : Type :=
| OSwap (s : SwapParams)
| OAdd (a : AddLiquidityParams)
| ORemove (x : RemoveLiquidityParams)
| OTrip (why : bytes) (block : Z)
| OClear.

Definition op_ok (o : PairOp) : Prop :=
  match o with OSwap s => swap_ok s | OAdd a => add_ok a | ORemove x => remove_ok x | _ => True end.

Definition set_circuit (c : CircuitBreaker) (p : Pair) : Pair :=
  mkPair (id p) (reserve_a p) (reserve_b p) (total_lp p) (fee_a p) (fee_b p) (fee_tier p) (locked p) c.

Definition run_op (o : PairOp) : P unit :=
  match o with
  | OSwap s => _ ← swap s; mret tt
  | OAdd a => _ ← add_liquidity a; mret tt
  | ORemove x => _ ← remove_liquidity x; mret tt
  | OTrip why block => modify (fun p => set_circuit (trip why block (circuit p)) p)
  | OClear => modify (fun p => set_circuit (clear (circuit p)) p)
  end.

(** One call, failed or not; a panic ends the program. *)
Definition pair_step (p q : Pair) : Prop := exists o r, op_ok o /\ run_op o p = (r, q) /\ r <> Panic.
Definition swap_step (p q : Pair) : Prop := exists s r, swap_ok s /\ swap s p = (r, q).

Definition pair_wf (p : Pair) : Prop := pair_ok p /\ locked p = false.

Lemma swapped_wf s p r q : pair_wf p -> swap_ok s -> swapped s p r q ->
  pair_wf q /\ total_lp q = total_lp p /\ reserve_a p * reserve_b p <= reserve_a q * reserve_b q /\
  0 < reserve_a p /\ 0 < reserve_b p /\ id q = id p.
Proof.
  intros [(Ha & Hb & Hl & Hw) Hlk] [Hs _] [_ _ _ H4 (fa & fb & H5)]. unfold reserves, in_range in *.
  assert (total_lp q = total_lp p /\ locked q = locked p /\ id q = id p) as (El & Ek & Ei) by (by rewrite H5).
  unfold pair_wf, pair_ok, in_range. destruct (a_to_b s); destruct H4 as (Hq & Hri & Ho & Hk); injection Hq as Ha' Hb';
    rewrite El, Ek, Ha', Hb'; split_and!; try nia; try done; right; nia.
Qed.

Lemma raised_wf p q : pair_wf p -> raised p q -> pair_wf q.
Proof.
  intros [(Ha & Hb & Hl & Hw) Hlk] (H1 & ? & ? & H2). unfold pair_wf, pair_ok, in_range in *.
  assert (total_lp q = total_lp p /\ locked q = locked p) as [El Ek] by (by rewrite H1).
  rewrite El, Ek. destruct Hw as [(Hz & ? & ?)|?]; [rewrite (H2 Hz) in *; split_and!; auto; lia|].
  split_and!; try lia; done.
Qed.

Lemma added_wf a p r q : pair_wf p -> add_ok a -> added a p r q -> pair_wf q.
Proof.
  intros [(Ha & Hb & Hl & Hw) Hlk] [Hwa Hwb] [H1 (? & ? & ?) [Hna Hnb] [H3 _] [H4 H4'] H5 _]. unfold pair_wf, pair_ok, in_range in *.
  assert (locked q = locked p /\ total_lp q = total_lp p + lp_minted r /\ reserve_a q = reserve_a p + used_a r /\
    reserve_b q = reserve_b p + used_b r) as (-> & Eq & Ea & Eb) by (by rewrite H1).
  destruct Hw as [(Hz & ? & ?)|?]; [specialize (H5 Hz)|]; split_and!; auto; lia.
Qed.

Lemma removed_wf x p r q : pair_wf p -> removed x p r q -> pair_wf q.
Proof.
  intros [(Ha & Hb & Hl & Hw) Hlk] [H1 H2 [Hoa Hob] [(? & ?) (? & ?)]]. unfold pair_wf, pair_ok, in_range in *.
  destruct Hw as [?|(Hl0 & Ha0 & Hb0)]; [lia|]. rewrite H1. simpl.
  assert (lp_amount x = total_lp p -> out_a r = reserve_a p /\ out_b r = reserve_b p) as Hall.
  { intros E. rewrite E in *. rewrite Hoa, Hob, !Z.mul_comm with (n := total_lp p), !Z.div_mul by lia. done. }
  assert (lp_amount x < total_lp p -> out_a r < reserve_a p /\ out_b r < reserve_b p) as Hpart.
  { intros E. rewrite Hoa, Hob. split; apply Z.div_lt_upper_bound; nia. }
  split_and!; try lia; try done.
Qed.

Lemma pair_step_wf p q : pair_wf p -> pair_step p q -> pair_wf q.
Proof.
  intros Hp (o & r & Ho & Hrun & Hr). pose proof Hp as [Hok Hl]. destruct o as [s|a|x|why b|]; simpl in Hrun, Ho.
  - unfold mbind, M_bind in Hrun. pose proof (swap_cases s p Hok Hl Ho) as H.
    destruct (swap s p) as [[w|e|] p']; [|destruct H as [_ [->|(_ & fa & fb & ->)]]|done]; injection Hrun as <- <-; [|done|done].
    by destruct (swapped_wf s p w p') as [? _].
  - unfold mbind, M_bind in Hrun. pose proof (add_cases a p Hok Hl Ho) as H.
    destruct (add_liquidity a p) as [[w|e|] p']; [|destruct H as [_ H]|]; injection Hrun as <- <-; [|by eapply raised_wf|done].
    by eapply added_wf.
  - unfold mbind, M_bind in Hrun. pose proof (remove_cases x p Hok Hl Ho) as H.
    destruct (remove_liquidity x p) as [[w|e|] p']; [|destruct H as [_ ->]|done]; injection Hrun as <- <-; [by eapply removed_wf|done].
  - by injection Hrun as <- <-.
  - by injection Hrun as <- <-.
Qed.

Lemma pair_new_wf i t : pair_wf (pair_new i t).
Proof. unfold pair_wf, pair_ok, in_range. simpl. lia. Qed.

Lemma reachable_wf i t p : star pair_step (pair_new i t) p -> pair_wf p.
Proof. apply star_invariant; [apply pair_step_wf|apply pair_new_wf]. Qed.

(** The quote is the amount that a swap pays. *)
Lemma quote_exact s p r q : pair_ok p -> locked p = false -> swap_ok s -> swap s p = (Ok r, q) ->
  get_amount_out (amount_in s) (a_to_b s) p = amount_out r.
Proof.
  intros Hp Hl Hs. unfold swap. rewrite guarded_unlocked by done. destruct (paused (circuit p)); [done|].
  unfold unlocking, get_amount_out. change (reserves (a_to_b s) p) with (reserves (a_to_b s) (set_locked true p)).
  change (fee_tier p) with (fee_tier (set_locked true p)).
  unfold swap_inner, mbind, M_bind, get_st, lift, lift_opt, ok_or, throw_if, modify, mret, M_ret.
  destruct (check_deadline _ _); [|done..]. destruct (amount_in s =? 0); [done|].
  destruct (reserves (a_to_b s) (set_locked true p)) as [ri ro]. destruct ((ri =? 0) || (ro =? 0)) eqn:Hz; [done|].
  destruct (check_oracle_deviation _ _); [|done..]. destruct (check_price_impact _ _); [|done..].
  destruct (quote_parts _ _ _ _) as [[num den]|]; [|done]. simpl. intros H.
  repeat (case_match; try done); simplify_eq; done.
Qed.

(** ** The properties *)

(** A swap on a reachable pair pays exactly the constant-product amount after
    the fee, at least what the trader asked for and less than the reserve, and
    the product of the reserves does not shrink; the liquidity shares are not
    touched.  A refused swap leaves reserves, shares and lock as they were; the
    checks of the invariant, of the output reserve and of the lock never fire,
    and nothing panics. *)
Theorem amm_swap_exact i t p s : star pair_step (pair_new i t) p -> swap_ok s ->
  match swap s p with
  | (Ok r, q) => swapped s p r q
  | (Err e, q) => ~ internal e /\ (q = p \/ e = InvariantOverflow /\ exists fa fb, q = set_fees fa fb p)
  | (Panic, _) => False
  end.
Proof. intros [Hp Hl]%reachable_wf Hs. by apply swap_cases. Qed.

Lemma swap_step_product p q : pair_wf p -> swap_step p q ->
  pair_wf q /\ total_lp q = total_lp p /\ reserve_a p * reserve_b p <= reserve_a q * reserve_b q /\
  (reserve_a q = reserve_a p /\ reserve_b q = reserve_b p \/ 0 < reserve_a p /\ 0 < reserve_b p).
Proof.
  intros Hp (s & r & Hs & E). pose proof Hp as [Hok Hl]. pose proof (swap_cases s p Hok Hl Hs) as H. rewrite E in H.
  destruct r as [r|e|]; [|destruct H as [_ [->|(_ & fa & fb & ->)]]; (split; [exact Hp|]); simpl; lia|done].
  destruct (swapped_wf s p r q Hp Hs H) as (? & ? & ? & ? & ? & _). auto 6.
Qed.

(** C23. No sequence of swaps, by anyone and however it fails, takes value out of a
    pair: the product of the reserves never shrinks, so whoever brings one
    reserve back to where it was has not lowered the other.  The shares stay. *)
Theorem amm_no_arbitrage i t p q : star pair_step (pair_new i t) p -> star swap_step p q ->
  total_lp q = total_lp p /\ reserve_a p * reserve_b p <= reserve_a q * reserve_b q /\
  (reserve_b q <= reserve_b p -> reserve_a p <= reserve_a q) /\
  (reserve_a q <= reserve_a p -> reserve_b p <= reserve_b q).
Proof.
  intros Hp%reachable_wf Hs.
  assert (pair_wf q /\ total_lp q = total_lp p /\ reserve_a p * reserve_b p <= reserve_a q * reserve_b q) as (Hq & El & Hk).
  { induction Hs as [|p x y Hs IH Hst]; [done|]. destruct (IH Hp) as (Hx & El & Hk).
    destruct (swap_step_product x y Hx Hst) as (? & ? & ? & _). split_and!; [done|lia|lia]. }
  destruct Hp as [(Ha & Hb & _ & Hw) _], Hq as [(Ha' & Hb' & _ & Hw') _]. unfold in_range in *.
  split_and!; [done|done|intros Hle..]; destruct Hw as [|(? & ? & ?)]; try lia; nia.
Qed.

(** Deposits and withdrawals are fair.  A deposit takes at most what was
    offered; withdrawing what it minted, at once and in any part, never pays
    back more than it took; it lowers what the others' shares are worth by less
    than one unit of each reserve; a withdrawal never lowers it. *)
Theorem amm_liquidity_fair i t p : star pair_step (pair_new i t) p ->
  (forall a r q, add_ok a -> add_liquidity a p = (Ok r, q) ->
    used_a r <= amount_a a /\ used_b r <= amount_b a /\
    (total_lp p <> 0 -> reserve_a p * total_lp q < (reserve_a q + 1) * total_lp p /\
                        reserve_b p * total_lp q < (reserve_b q + 1) * total_lp p) /\
    forall x r' q', remove_ok x -> lp_amount x <= lp_minted r -> remove_liquidity x q = (Ok r', q') ->
      out_a r' <= used_a r /\ out_b r' <= used_b r) /\
  (forall x r q, remove_ok x -> remove_liquidity x p = (Ok r, q) ->
    reserve_a p * total_lp q <= reserve_a q * total_lp p /\ reserve_b p * total_lp q <= reserve_b q * total_lp p).
Proof.
  intros Hp%reachable_wf. pose proof Hp as [Hok Hl]. split.
  - intros a r q Ha E. pose proof (add_cases a p Hok Hl Ha) as H. rewrite E in H.
    pose proof (added_wf a p r q Hp Ha H) as [Hok' Hl']. destruct H as [H1 _ _ [Hm _] [Hua Hub] Hf Hs].
    destruct Hok as (Hra & Hrb & Hl0 & Hw). unfold in_range in *.
    assert (total_lp p <> 0 -> used_a r * total_lp p <= lp_minted r * reserve_a p < (used_a r + 1) * total_lp p /\
      used_b r * total_lp p <= lp_minted r * reserve_b p < (used_b r + 1) * total_lp p) as Hsh.
    { intros Hne. destruct (Hs Hne) as (_ & -> & ->). assert (0 < total_lp p) as Hpos by lia.
      destruct (div_share (lp_minted r * reserve_a p) _ Hpos), (div_share (lp_minted r * reserve_b p) _ Hpos). lia. }
    split_and!; [lia|lia| |].
    + intros Hne. specialize (Hsh Hne). rewrite H1. simpl. nia.
    + intros x r' q' Hx Hle E'. pose proof (remove_cases x q Hok' Hl' Hx) as H. rewrite E' in H.
      destruct H as [_ Hlx [-> ->] _]. rewrite H1 in *. simpl in *.
      destruct (decide (total_lp p = 0)) as [Hz|Hne].
      * destruct Hw as [(_ & -> & ->)|]; [|lia]. rewrite Hz in *. split; apply Z.div_le_upper_bound; nia.
      * specialize (Hsh Hne). split; apply Z.lt_succ_r, Z.div_lt_upper_bound; nia.
  - intros x r q Hx E. pose proof (remove_cases x p Hok Hl Hx) as H. rewrite E in H. destruct H as [-> Hlx [-> ->] _]. simpl.
    assert (0 < total_lp p) as Hpos by lia.
    destruct (div_share (lp_amount x * reserve_a p) _ Hpos), (div_share (lp_amount x * reserve_b p) _ Hpos). nia.
Qed.
