(* ===== verification/Dex.v ===== *)
(** * The exchange's ledgers (crates/zbx-pool: approval.rs, lp_token.rs)

    Token balances with allowances, and the balances of liquidity shares.

    Below: created tokens (registry.rs, token_factory.rs), and the pairs, routes
    and engine on top of them (factory.rs, canonical_pairs.rs, router.rs, dex.rs). *)

From Stdlib Require Import ZArith Lia.
From stdpp Require Import base tactics list gmap numbers option.
From S2P Require Import Prelude Bytes Collections Amm.

Local Open Scope Z_scope.

Definition zero_address : Address := replicate 20 0.

(** ** Balances and allowances (approval.rs) *)

Record Approval : Type := mkApproval { approved : Z; expire_at_block : Z }.

Inductive ApprovalError : Type :=
| SelfApproval
| ZeroAddressSpender
| ZeroAddressRecipient
| AllowanceUnderflow
| InsufficientAllowance (have need : Z)
| ApprovalExpired (expired_at current : Z)
| InsufficientBalance (have need : Z).

(** Token, owner, spender; token, owner. *)
Record AllowanceRegistry : Type := mkRegistry {
  allowances : gmap Address (gmap Address (gmap Address Approval));
  balances : gmap Address (gmap Address Z) }.
Definition registry_new : AllowanceRegistry := mkRegistry ∅ ∅.

Abbreviation R := (M AllowanceRegistry ApprovalError).

Definition set_balances (b : gmap Address (gmap Address Z)) (r : AllowanceRegistry) : AllowanceRegistry :=
  mkRegistry (allowances r) b.
Definition set_allowances (a : gmap Address (gmap Address (gmap Address Approval))) (r : AllowanceRegistry) : AllowanceRegistry :=
  mkRegistry a (balances r).

Definition set_balance (token owner : Address) (balance : Z) (r : AllowanceRegistry) : AllowanceRegistry :=
  set_balances (put2 token owner balance (balances r)) r.
Definition balance_of (token owner : Address) (r : AllowanceRegistry) : Z := mval2 (balances r) token owner.
Definition add_balance (token owner : Address) (amount : Z) (r : AllowanceRegistry) : AllowanceRegistry :=
  set_balance token owner (sat 128 (balance_of token owner r + amount)) r.

(** The entry is created, with zero, before the check. *)
Definition sub_balance (token owner : Address) (amount : Z) : R unit := fun r =>
  let b := balance_of token owner r in
  if b <? amount then (Err (InsufficientBalance b amount), set_balance token owner b r)
  else (Ok tt, set_balance token owner (b - amount) r).

Definition spenders (token owner : Address) (r : AllowanceRegistry) : gmap Address Approval :=
  default ∅ (default ∅ (allowances r !! token) !! owner).
Definition put_approval (token owner spender : Address) (a : Approval) (r : AllowanceRegistry) : AllowanceRegistry :=
  set_allowances (<[token := <[owner := <[spender := a]> (spenders token owner r)]> (default ∅ (allowances r !! token))]> (allowances r)) r.

Definition approve (token owner spender : Address) (amount expire : Z) : R unit :=
  _ ← throw_if (bool_decide (owner = spender)) SelfApproval;
  _ ← throw_if (bool_decide (spender = zero_address)) ZeroAddressSpender;
  modify (put_approval token owner spender (mkApproval amount expire)).

(** [entry(spender).or_insert(Approval { amount: 0, expire_at_block: 0 })] *)
Definition entry_or_zero (token owner spender : Address) (r : AllowanceRegistry) : Approval :=
  default (mkApproval 0 0) (spenders token owner r !! spender).

Definition increase_allowance (token owner spender : Address) (delta current_block : Z) : R unit :=
  modify (fun r =>
    let e := entry_or_zero token owner spender r in
    put_approval token owner spender (mkApproval (sat 128 (approved e + delta)) (expire_at_block e)) r).

Definition decrease_allowance (token owner spender : Address) (delta : Z) : R unit := fun r =>
  let e := entry_or_zero token owner spender r in
  if approved e <? delta then (Err AllowanceUnderflow, put_approval token owner spender e r)
  else (Ok tt, put_approval token owner spender (mkApproval (approved e - delta) (expire_at_block e)) r).

Definition expired (a : Approval) (current_block : Z) : bool :=
  negb (expire_at_block a =? 0) && (expire_at_block a <? current_block).

Definition allowance (token owner spender : Address) (current_block : Z) (r : AllowanceRegistry) : Z :=
  match spenders token owner r !! spender with
  | Some a => if expired a current_block then 0 else approved a
  | None => 0
  end.

Definition spend_allowance (token owner spender : Address) (amount current_block : Z) : R unit :=
  r ← get_st;
  entry ← lift_opt (spenders token owner r !! spender) (InsufficientAllowance 0 amount);
  _ ← throw_if (expired entry current_block) (ApprovalExpired (expire_at_block entry) current_block);
  _ ← throw_if (approved entry <? amount) (InsufficientAllowance (approved entry) amount);
  if approved entry =? umax 128 then mret tt
  else modify (put_approval token owner spender (mkApproval (approved entry - amount) (expire_at_block entry))).

Definition transfer_from (token owner to spender : Address) (amount current_block : Z) : R unit :=
  _ ← throw_if (bool_decide (to = zero_address)) ZeroAddressRecipient;
  if amount =? 0 then mret tt
  else
    _ ← spend_allowance token owner spender amount current_block;
    _ ← sub_balance token owner amount;
    modify (add_balance token to amount).

Definition transfer (token owner to : Address) (amount : Z) : R unit :=
  _ ← throw_if (bool_decide (to = zero_address)) ZeroAddressRecipient;
  if amount =? 0 then mret tt
  else
    _ ← sub_balance token owner amount;
    modify (add_balance token to amount).

Definition revoke_all (token owner : Address) (r : AllowanceRegistry) : AllowanceRegistry :=
  match allowances r !! token with
  | Some m => set_allowances (<[token := base.delete owner m]> (allowances r)) r
  | None => r
  end.
Definition revoke (token owner spender : Address) (r : AllowanceRegistry) : AllowanceRegistry :=
  match allowances r !! token with
  | Some owners =>
    match owners !! owner with
    | Some sp => set_allowances (<[token := <[owner := base.delete spender sp]> owners]> (allowances r)) r
    | None => r
    end
  | None => r
  end.

(** ** Liquidity shares (lp_token.rs) *)

Inductive LpError : Type :=
| LpInsufficientBalance (have need : Z)
| LpZeroAddressTransfer.

Record LpRegistry : Type := mkLp { lp_balances : gmap PairId (gmap Address Z); lp_supply : gmap PairId Z }.
Definition lp_new : LpRegistry := mkLp ∅ ∅.

Definition lp_balance (pair : PairId) (owner : Address) (r : LpRegistry) : Z := mval2 (lp_balances r) pair owner.
Definition lp_total_supply (pair : PairId) (r : LpRegistry) : Z := mval (lp_supply r) pair.

(** The additions wrap. *)
Definition lp_mint (pair : PairId) (to : Address) (amount : Z) (r : LpRegistry) : LpRegistry :=
  if amount =? 0 then r
  else mkLp (put2 pair to (u128 (lp_balance pair to r + amount)) (lp_balances r))
            (<[pair := u128 (lp_total_supply pair r + amount)]> (lp_supply r)).

Definition lp_burn (pair : PairId) (from : Address) (amount : Z) : M LpRegistry LpError unit := fun r =>
  let bal := lp_balance pair from r in
  if bal <? amount then (Err (LpInsufficientBalance bal amount), mkLp (put2 pair from bal (lp_balances r)) (lp_supply r))
  else (Ok tt, mkLp (put2 pair from (bal - amount) (lp_balances r))
                    (<[pair := sat 128 (lp_total_supply pair r - amount)]> (lp_supply r))).

Definition lp_transfer (pair : PairId) (from to : Address) (amount : Z) : M LpRegistry LpError unit :=
  _ ← throw_if (bool_decide (to = zero_address)) LpZeroAddressTransfer;
  _ ← lp_burn pair from amount;
  modify (lp_mint pair to amount).

(** * Token and fee registries of the exchange (crates/zbx-pool: token_factory.rs, registry.rs)

    The platform's fees and their governance, and the factory of custom
    tokens with its mint switches, freezes and time locks. *)

(** ** Fees (registry.rs) *)

Inductive DexOperation : Type :=
| SwapDirect | SwapTwoHop | AddLiquidity | RemoveLiquidity | CreatePool | CreateToken | MintTokens | PauseToken
| RegisterMetadata | Approve | TransferFrom | BridgeTransfer | RegisterName | ClaimRewards.

Definition estimated_gas (op : DexOperation) : Z :=
  match op with
  | SwapDirect => 120000 | SwapTwoHop => 200000 | AddLiquidity => 150000 | RemoveLiquidity => 130000
  | CreatePool => 300000 | CreateToken => 500000 | MintTokens => 80000 | PauseToken => 50000
  | RegisterMetadata => 60000 | Approve => 45000 | TransferFrom => 65000 | BridgeTransfer => 250000
  | RegisterName => 100000 | ClaimRewards => 90000
  end.

Definition gas_cost_wei (gas_price_gwei : Z) (op : DexOperation) : Z :=
  u128 (estimated_gas op * u128 (gas_price_gwei * 10 ^ 9)).

Record FeeRegistry : Type := mkFees {
  f_pool_creation : Z; f_token_creation : Z; f_token_mint : Z; f_token_pause : Z; f_metadata : Z;
  bridge_fee_bps : Z; f_name_registration : Z; f_swap_surcharge : Z; governance : Address; treasury : Address }.

Definition fees_new (gov tr : Address) : FeeRegistry :=
  mkFees (500 * 10 ^ 18) (100 * 10 ^ 18) (10 ^ 18) (5 * 10 ^ 18) (10 * 10 ^ 18) 5 (50 * 10 ^ 18) 0 gov tr.
Definition fees_default : FeeRegistry := fees_new zero_address zero_address.

Definition bridge_fee (amount : Z) (f : FeeRegistry) : Z := u128 (amount * bridge_fee_bps f) / 10000.

Definition platform_fee_for (op : DexOperation) (amount : Z) (f : FeeRegistry) : Z :=
  match op with
  | CreatePool => f_pool_creation f
  | CreateToken => f_token_creation f
  | MintTokens => f_token_mint f
  | PauseToken => f_token_pause f
  | RegisterMetadata => f_metadata f
  | RegisterName => f_name_registration f
  | BridgeTransfer => bridge_fee amount f
  | SwapDirect | SwapTwoHop => f_swap_surcharge f
  | _ => 0
  end.

Record FeeEstimate : Type := mkEstimate { e_operation : DexOperation; e_platform_fee : Z; e_gas_cost_wei : Z; e_total_wei : Z }.
Definition estimate_total_cost (op : DexOperation) (gas_price_gwei amount : Z) (f : FeeRegistry) : FeeEstimate :=
  let platform_fee := platform_fee_for op amount f in
  let gas_cost := gas_cost_wei gas_price_gwei op in
  mkEstimate op platform_fee gas_cost (sat 128 (platform_fee + gas_cost)).

Inductive GovernanceError : Type := NotGovernance | BridgeFeeTooHigh.

Definition only_governance (caller : Address) : M FeeRegistry GovernanceError unit :=
  f ← get_st; throw_if (negb (bool_decide (caller = governance f))) NotGovernance.
Definition set_creation_fees (pool token : Z) (bps : Z) (f : FeeRegistry) : FeeRegistry :=
  mkFees pool token (f_token_mint f) (f_token_pause f) (f_metadata f) bps (f_name_registration f) (f_swap_surcharge f)
    (governance f) (treasury f).
Definition update_pool_creation_fee (caller : Address) (fee : Z) : M FeeRegistry GovernanceError unit :=
  _ ← only_governance caller; modify (fun f => set_creation_fees fee (f_token_creation f) (bridge_fee_bps f) f).
Definition update_token_creation_fee (caller : Address) (fee : Z) : M FeeRegistry GovernanceError unit :=
  _ ← only_governance caller; modify (fun f => set_creation_fees (f_pool_creation f) fee (bridge_fee_bps f) f).
Definition update_bridge_fee_bps (caller : Address) (bps : Z) : M FeeRegistry GovernanceError unit :=
  _ ← only_governance caller;
  _ ← throw_if (1000 <? bps) BridgeFeeTooHigh;
  modify (fun f => set_creation_fees (f_pool_creation f) (f_token_creation f) bps f).

(** ** Tokens (token_factory.rs) *)

Definition MAX_TOKEN_SUPPLY : Z := 10 ^ 36.

Inductive TokenFactoryError : Type :=
| InvalidName | InvalidSymbol | InvalidDecimals | SupplyTooLarge
| InsufficientFee (have need : Z)
| TokenNotFound | Unauthorized | TokenPaused | NotMintable | MintExceedsMaxSupply | SymbolAlreadyExists
| AccountFrozen | AccountNotFrozen | AccountAlreadyFrozen
| MintingPaused | MintingFinalized | MintingAlreadyPaused | MintingNotPaused | MintingAlreadyFinalized
| ActiveLockExists | LockMustGrow | LockNotFound | LockExpired | UnlockTimeInPast
| InsufficientBalanceForLock (have need : Z)
| TokensLocked (transferable : Z).

Record LockEntry : Type := mkLock { lock_amount : Z; unlock_time : Z }.

Record TokenRecord : Type := mkToken {
  t_address : Address; t_name : bytes; t_symbol : bytes; t_decimals : Z; total_supply : Z; max_supply : Z;
  t_owner : Address; mintable : bool; t_paused : bool; created_at : Z; metadata_uri : option bytes;
  logo_uri : option bytes; minting_paused : bool; minting_finalized : bool }.

Record CreateTokenParams : Type := mkCreate {
  c_name : bytes; c_symbol : bytes; c_decimals : Z; c_total_supply : Z; c_max_supply : Z; c_mintable : bool;
  creator : Address; creator_zbx_balance : Z; c_block_number : Z; c_logo_uri : option bytes }.

Record TokenFactory : Type := mkFactory {
  tokens : gmap Address TokenRecord; symbol_index : gmap bytes Address; creator_nonces : gmap Address Z;
  treasury_balance : Z; fee_registry : FeeRegistry;
  frozen_accounts : gmap (Address * Address) bool; token_locks : gmap (Address * Address) LockEntry }.

Definition token_factory_new : TokenFactory := mkFactory ∅ ∅ ∅ 0 fees_default ∅ ∅.

Abbreviation F := (M TokenFactory TokenFactoryError).

Definition set_tokens (t : gmap Address TokenRecord) (f : TokenFactory) : TokenFactory :=
  mkFactory t (symbol_index f) (creator_nonces f) (treasury_balance f) (fee_registry f) (frozen_accounts f) (token_locks f).
Definition put_token (addr : Address) (t : TokenRecord) (f : TokenFactory) : TokenFactory :=
  set_tokens (<[addr := t]> (tokens f)) f.
Definition collect (fee : Z) (f : TokenFactory) : TokenFactory :=
  mkFactory (tokens f) (symbol_index f) (creator_nonces f) (sat 128 (treasury_balance f + fee)) (fee_registry f)
    (frozen_accounts f) (token_locks f).
Definition set_controls (fr : gmap (Address * Address) bool) (l : gmap (Address * Address) LockEntry) (f : TokenFactory)
    : TokenFactory :=
  mkFactory (tokens f) (symbol_index f) (creator_nonces f) (treasury_balance f) (fee_registry f) fr l.

(** The two kinds of change to a record. *)
Definition set_supply (s : Z) (t : TokenRecord) : TokenRecord :=
  mkToken (t_address t) (t_name t) (t_symbol t) (t_decimals t) s (max_supply t) (t_owner t) (mintable t) (t_paused t)
    (created_at t) (metadata_uri t) (logo_uri t) (minting_paused t) (minting_finalized t).
Definition set_switches (paused mpaused mfinal : bool) (t : TokenRecord) : TokenRecord :=
  mkToken (t_address t) (t_name t) (t_symbol t) (t_decimals t) (total_supply t) (max_supply t) (t_owner t) (mintable t)
    paused (created_at t) (metadata_uri t) (logo_uri t) mpaused mfinal.
Definition set_uris (meta logo : option bytes) (t : TokenRecord) : TokenRecord :=
  mkToken (t_address t) (t_name t) (t_symbol t) (t_decimals t) (total_supply t) (max_supply t) (t_owner t) (mintable t)
    (t_paused t) (created_at t) meta logo (minting_paused t) (minting_finalized t).

(** The record of a token and the check that the caller owns it. *)
Definition get_record (token : Address) : F TokenRecord :=
  f ← get_st; lift_opt (tokens f !! token) TokenNotFound.
Definition only_owner (caller : Address) (t : TokenRecord) : F unit :=
  throw_if (negb (bool_decide (t_owner t = caller))) Unauthorized.
Definition pay (balance : Z) (fee : FeeRegistry -> Z) : F Z :=
  f ← get_st;
  let fee := fee (fee_registry f) in
  _ ← throw_if (balance <? fee) (InsufficientFee balance fee); mret fee.

Section sha3.
Context (sha3 : bytes -> bytes).

(** Little-endian bytes of a 64-bit integer. *)
Definition derive_token_address (c : Address) (nonce : Z) : Address := take 20 (sha3 (c ++ reverse (to_be 8 nonce))).

Definition create_token (p : CreateTokenParams) : F Address :=
  _ ← throw_if (bool_decide (c_name p = []) || (64 <? zlen (c_name p))) InvalidName;
  _ ← throw_if (bool_decide (c_symbol p = []) || (12 <? zlen (c_symbol p))) InvalidSymbol;
  _ ← throw_if (18 <? c_decimals p) InvalidDecimals;
  _ ← throw_if (MAX_TOKEN_SUPPLY <? c_total_supply p) SupplyTooLarge;
  f ← get_st;
  _ ← throw_if (bool_decide (is_Some (symbol_index f !! c_symbol p))) SymbolAlreadyExists;
  fee ← pay (creator_zbx_balance p) f_token_creation;
  let nonce := default 0 (creator_nonces f !! creator p) in
  let token_addr := derive_token_address (creator p) nonce in
  let record := mkToken token_addr (c_name p) (c_symbol p) (c_decimals p) (c_total_supply p) (c_max_supply p) (creator p)
    (c_mintable p) false (c_block_number p) None (c_logo_uri p) false false in
  _ ← modify (fun f => mkFactory (<[token_addr := record]> (tokens f)) (<[c_symbol p := token_addr]> (symbol_index f))
        (<[creator p := u64 (nonce + 1)]> (creator_nonces f)) (sat 128 (treasury_balance f + fee)) (fee_registry f)
        (frozen_accounts f) (token_locks f));
  mret token_addr.
End sha3.

Definition mint (token caller : Address) (amount caller_zbx_balance : Z) : F unit :=
  fee ← pay caller_zbx_balance f_token_mint;
  r ← get_record token;
  _ ← only_owner caller r;
  _ ← throw_if (negb (mintable r)) NotMintable;
  _ ← throw_if (minting_finalized r) MintingFinalized;
  _ ← throw_if (minting_paused r) MintingPaused;
  _ ← throw_if (t_paused r) TokenPaused;
  let new_supply := sat 128 (total_supply r + amount) in
  _ ← throw_if ((0 <? max_supply r) && (max_supply r <? new_supply)) MintExceedsMaxSupply;
  modify (fun f => collect fee (put_token token (set_supply new_supply r) f)).

Definition pause_minting (token caller : Address) : F unit :=
  r ← get_record token;
  _ ← only_owner caller r;
  _ ← throw_if (minting_finalized r) MintingFinalized;
  _ ← throw_if (minting_paused r) MintingAlreadyPaused;
  modify (put_token token (set_switches (t_paused r) true (minting_finalized r) r)).
Definition resume_minting (token caller : Address) : F unit :=
  r ← get_record token;
  _ ← only_owner caller r;
  _ ← throw_if (minting_finalized r) MintingFinalized;
  _ ← throw_if (negb (minting_paused r)) MintingNotPaused;
  modify (put_token token (set_switches (t_paused r) false (minting_finalized r) r)).
Definition finalize_minting (token caller : Address) : F unit :=
  r ← get_record token;
  _ ← only_owner caller r;
  _ ← throw_if (minting_finalized r) MintingAlreadyFinalized;
  modify (put_token token (set_switches (t_paused r) (minting_paused r) true r)).

Definition pause_token (token caller : Address) (caller_zbx_balance : Z) : F unit :=
  fee ← pay caller_zbx_balance f_token_pause;
  r ← get_record token;
  _ ← only_owner caller r;
  modify (fun f => collect fee (put_token token (set_switches true (minting_paused r) (minting_finalized r) r) f)).
Definition unpause_token (token caller : Address) : F unit :=
  r ← get_record token;
  _ ← only_owner caller r;
  modify (put_token token (set_switches false (minting_paused r) (minting_finalized r) r)).

Definition is_frozen (token account : Address) (f : TokenFactory) : bool :=
  default false (frozen_accounts f !! (token, account)).
Definition freeze_account (token caller account : Address) : F unit :=
  r ← get_record token;
  _ ← only_owner caller r;
  f ← get_st;
  _ ← throw_if (is_frozen token account f) AccountAlreadyFrozen;
  modify (set_controls (<[(token, account) := true]> (frozen_accounts f)) (token_locks f)).
Definition unfreeze_account (token caller account : Address) : F unit :=
  r ← get_record token;
  _ ← only_owner caller r;
  f ← get_st;
  _ ← throw_if (negb (is_frozen token account f)) AccountNotFrozen;
  modify (set_controls (<[(token, account) := false]> (frozen_accounts f)) (token_locks f)).
Definition frozen_balance (token account : Address) (balance : Z) (f : TokenFactory) : Z :=
  if is_frozen token account f then balance else 0.

Definition active (l : LockEntry) (now : Z) : bool := (0 <? lock_amount l) && (now <? unlock_time l).

Definition lock_tokens (token caller account : Address) (amount until now balance : Z) : F unit :=
  r ← get_record token;
  _ ← only_owner caller r;
  _ ← throw_if (amount =? 0) (InsufficientBalanceForLock 0 1);
  _ ← throw_if (until <=? now) UnlockTimeInPast;
  _ ← throw_if (balance <? amount) (InsufficientBalanceForLock balance amount);
  f ← get_st;
  _ ← throw_if (match token_locks f !! (token, account) with Some l => active l now | None => false end) ActiveLockExists;
  modify (set_controls (frozen_accounts f) (<[(token, account) := mkLock amount until]> (token_locks f))).

Definition extend_lock (token caller account : Address) (new_amount new_until now balance : Z) : F unit :=
  r ← get_record token;
  _ ← only_owner caller r;
  f ← get_st;
  l ← lift_opt (token_locks f !! (token, account)) LockNotFound;
  _ ← throw_if (lock_amount l =? 0) LockNotFound;
  _ ← throw_if (unlock_time l <=? now) LockExpired;
  _ ← throw_if (new_amount <? lock_amount l) LockMustGrow;
  _ ← throw_if (new_until <? unlock_time l) LockMustGrow;
  _ ← throw_if (balance <? new_amount) (InsufficientBalanceForLock balance new_amount);
  modify (set_controls (frozen_accounts f) (<[(token, account) := mkLock new_amount new_until]> (token_locks f))).

Definition locked_balance_of (token account : Address) (now : Z) (f : TokenFactory) : Z :=
  match token_locks f !! (token, account) with Some l => if active l now then lock_amount l else 0 | None => 0 end.
Definition transferable_balance (token account : Address) (now balance : Z) (f : TokenFactory) : Z :=
  sat 128 (balance - locked_balance_of token account now f).
Definition lock_info (token account : Address) (f : TokenFactory) : Z * Z :=
  match token_locks f !! (token, account) with Some l => (lock_amount l, unlock_time l) | None => (0, 0) end.

Definition register_metadata (token caller : Address) (uri : bytes) (caller_zbx_balance : Z) : F unit :=
  fee ← pay caller_zbx_balance f_metadata;
  r ← get_record token;
  _ ← only_owner caller r;
  modify (fun f => collect fee (put_token token (set_uris (Some uri) (logo_uri r) r) f)).
Definition update_logo_uri (token caller : Address) (uri : bytes) : F (option bytes) :=
  r ← get_record token;
  _ ← only_owner caller r;
  _ ← modify (put_token token (set_uris (metadata_uri r) (Some uri) r));
  mret (logo_uri r).

Definition find_by_symbol (symbol : bytes) (f : TokenFactory) : option TokenRecord :=
  addr ← symbol_index f !! symbol; tokens f !! addr.

(** * The exchange (crates/zbx-pool: factory.rs, canonical_pairs.rs, router.rs, dex.rs)

    The registry of pairs, routes of one or two hops and their execution, and
    the engine that ties pairs, balances, liquidity shares and tokens
    together.  SHA3-256 is an argument. *)

(** ** Canonical pairs *)

Definition wzbx : Address := to_be 20 1.
Definition zusd : Address := to_be 20 0x231D0001.
Definition POOL_ZBX_ZUSD_ADDR : Address := [0xAA; 0xBB; 0; 1] ++ replicate 15 0 ++ [1].
Record CanonicalPool : Type := mkCanonical { cp_pair : PairId; cp_tier : FeeTier; contract_address : Address }.
Definition canonical_pools : list CanonicalPool := [mkCanonical (pair_id wzbx zusd) Standard POOL_ZBX_ZUSD_ADDR].

(** ** Routes (router.rs) *)

Record SwapStep : Type := mkStep { st_pair : PairId; st_a_to_b : bool }.
Record SwapRoute : Type := mkRoute { steps : list SwapStep; route_in : Z }.

Abbreviation Pairs := (gmap PairId Pair).

Fixpoint simulate_steps (l : list SwapStep) (pairs : Pairs) (amount : Z) : Z :=
  match l with
  | [] => amount
  | step :: l =>
    match pairs !! st_pair step with
    | Some pr =>
      let amount := get_amount_out amount (st_a_to_b step) pr in
      if amount =? 0 then 0 else simulate_steps l pairs amount
    | None => 0
    end
  end.
Definition simulate (pairs : Pairs) (r : SwapRoute) : Z := simulate_steps (steps r) pairs (route_in r).
Definition hops (r : SwapRoute) : Z := zlen (steps r).

Definition has_pair (pid : PairId) (pairs : Pairs) : bool := bool_decide (is_Some (pairs !! pid)).

Definition build_direct (from to : Address) (amount_in : Z) (pairs : Pairs) : option SwapRoute :=
  let pid := pair_id from to in
  if has_pair pid pairs then Some (mkRoute [mkStep pid (bool_decide (token_a pid = from))] amount_in) else None.

Definition build_two_hop (from mid to : Address) (amount_in : Z) (pairs : Pairs) : option SwapRoute :=
  let pid1 := pair_id from mid in
  let pid2 := pair_id mid to in
  if negb (has_pair pid1 pairs) || negb (has_pair pid2 pairs) then None
  else Some (mkRoute [mkStep pid1 (bool_decide (token_a pid1 = from)); mkStep pid2 (bool_decide (token_a pid2 = mid))] amount_in).

(** [Iterator::max_by_key]: the last of the largest. *)
Definition max_by_key {A} (key : A -> Z) (l : list A) : option A :=
  foldl (fun best x => match best with Some b => if key b <=? key x then Some x else Some b | None => Some x end) None l.

Definition via (mid from to : Address) (amount_in : Z) (pairs : Pairs) : option SwapRoute :=
  if negb (bool_decide (from = mid)) && negb (bool_decide (to = mid)) then build_two_hop from mid to amount_in pairs else None.

Definition candidates (from to : Address) (amount_in : Z) (pairs : Pairs) : list SwapRoute :=
  omap (fun o => o) [build_direct from to amount_in pairs; via wzbx from to amount_in pairs; via zusd from to amount_in pairs].

Definition find_best_route (from to : Address) (amount_in : Z) (pairs : Pairs) : option SwapRoute :=
  if bool_decide (from = to) || (amount_in =? 0) then None
  else max_by_key (simulate pairs) (candidates from to amount_in pairs).

Definition find_direct_route (from to : Address) (amount_in : Z) (pairs : Pairs) : option SwapRoute :=
  build_direct from to amount_in pairs.

(** The pair of a step is changed in place, on errors too. *)
Definition swap_at (pid : PairId) (s : SwapParams) : M Pairs AmmError SwapResult := fun pairs =>
  match pairs !! pid with
  | Some pr => let '(r, pr) := swap s pr in (r, <[pid := pr]> pairs)
  | None => (Err EmptyReserve, pairs)
  end.

Fixpoint execute_steps (l : list SwapStep) (min_amount_out deadline now amount total_protocol_fee : Z)
    : M Pairs AmmError (Z * Z) :=
  match l with
  | [] => mret (amount, total_protocol_fee)
  | step :: l =>
    let min_out := match l with [] => min_amount_out | _ => 0 end in
    r ← swap_at (st_pair step) (mkSwap (st_a_to_b step) amount min_out deadline 0 now);
    execute_steps l min_amount_out deadline now (amount_out r) (sat 128 (total_protocol_fee + protocol_fee r))
  end.
Definition execute_route (route : SwapRoute) (min_amount_out deadline now : Z) : M Pairs AmmError (Z * Z) :=
  execute_steps (steps route) min_amount_out deadline now (route_in route) 0.

(** ** The registry of pairs (factory.rs) *)

Record PoolCreatedEvent : Type := mkPoolCreated {
  pe_pair : PairId; pe_tier : FeeTier; pe_address : Address; pe_creator : Address; pe_fee : Z; pe_block : Z }.
Record PoolRecord : Type := mkPoolRecord {
  pr_pair : PairId; pr_tier : FeeTier; pool_address : Address; pr_creator : Address; pr_created_at : Z; total_volume : Z }.

Record PoolFactory : Type := mkPools {
  pairs : Pairs; pool_records : gmap PairId PoolRecord; events : list PoolCreatedEvent; pool_treasury : Z;
  pool_fees : FeeRegistry }.
Definition pool_factory_new : PoolFactory := mkPools ∅ ∅ [] 0 fees_default.
Definition set_pairs (p : Pairs) (f : PoolFactory) : PoolFactory :=
  mkPools p (pool_records f) (events f) (pool_treasury f) (pool_fees f).

Definition record_volume (pid : PairId) (volume : Z) (f : PoolFactory) : PoolFactory :=
  mkPools (pairs f)
    (alter (fun r => mkPoolRecord (pr_pair r) (pr_tier r) (pool_address r) (pr_creator r) (pr_created_at r)
                       (sat 128 (total_volume r + volume))) pid (pool_records f))
    (events f) (pool_treasury f) (pool_fees f).

Section sha3.
Context (sha3 : bytes -> bytes).

Definition derive_pool_address (pid : PairId) (tier : FeeTier) : Address :=
  take 20 (sha3 (token_a pid ++ token_b pid ++ [u8 (Z.land (bps tier) 255)])).

Definition factory_create_pool (ta tb : Address) (tier : FeeTier) (creator : Address) (creator_balance block : Z)
    : M PoolFactory AmmError (Address * Z) :=
  _ ← throw_if (bool_decide (ta = tb)) IdenticalTokens;
  let pid := pair_id ta tb in
  f ← get_st;
  _ ← throw_if (has_pair pid (pairs f)) PoolAlreadyExists;
  let creation_fee := f_pool_creation (pool_fees f) in
  _ ← throw_if (creator_balance <? creation_fee) (InsufficientCreationFee creator_balance creation_fee);
  let addr := derive_pool_address pid tier in
  _ ← put_st (mkPools (<[pid := pair_new pid tier]> (pairs f))
        (<[pid := mkPoolRecord pid tier addr creator block 0]> (pool_records f))
        (events f ++ [mkPoolCreated pid tier addr creator creation_fee block])
        (sat 128 (pool_treasury f + creation_fee)) (pool_fees f));
  mret (addr, creation_fee).

(** ** The engine (dex.rs) *)

Inductive DexError : Type :=
| OfAmm (e : AmmError)
| OfApproval (e : ApprovalError)
| OfToken (e : TokenFactoryError)
| NoRoute
| InsufficientInputBalance (have need : Z)
| LpTransferFailed (e : LpError).

Record SwapEvent : Type := mkSwapEvent {
  trader : Address; token_in : Address; token_out : Address; ev_amount_in : Z; ev_amount_out : Z; ev_hops : Z;
  protocol_fee_collected : Z; ev_block : Z }.
Record LiquidityEvent : Type := mkLiquidityEvent {
  provider : Address; le_pair : PairId; le_lp_minted : Z; le_used_a : Z; le_used_b : Z; le_block : Z }.
Record QuoteResult : Type := mkQuote { q_amount_in : Z; q_amount_out : Z; q_hops : Z; price_impact_bps : Z }.

Record DexEngine : Type := mkDex {
  pool_factory : PoolFactory; token_factory : TokenFactory; ledger : AllowanceRegistry; lp_registry : LpRegistry;
  swap_events : list SwapEvent; pool_events : list PoolCreatedEvent; protocol_fees : gmap Address Z }.
Definition dex_new : DexEngine := mkDex pool_factory_new token_factory_new registry_new lp_new [] [] ∅.

Abbreviation D := (M DexEngine DexError).

Definition set_pools (p : PoolFactory) (d : DexEngine) : DexEngine :=
  mkDex p (token_factory d) (ledger d) (lp_registry d) (swap_events d) (pool_events d) (protocol_fees d).
Definition set_token_factory (t : TokenFactory) (d : DexEngine) : DexEngine :=
  mkDex (pool_factory d) t (ledger d) (lp_registry d) (swap_events d) (pool_events d) (protocol_fees d).
Definition set_ledger (l : AllowanceRegistry) (d : DexEngine) : DexEngine :=
  mkDex (pool_factory d) (token_factory d) l (lp_registry d) (swap_events d) (pool_events d) (protocol_fees d).
Definition set_lp (l : LpRegistry) (d : DexEngine) : DexEngine :=
  mkDex (pool_factory d) (token_factory d) (ledger d) l (swap_events d) (pool_events d) (protocol_fees d).
Definition set_logs (s : list SwapEvent) (p : list PoolCreatedEvent) (f : gmap Address Z) (d : DexEngine) : DexEngine :=
  mkDex (pool_factory d) (token_factory d) (ledger d) (lp_registry d) s p f.

(** A method of a part of the engine, run in place. *)
Definition zoom {S E A} (proj : DexEngine -> S) (upd : S -> DexEngine -> DexEngine) (err : E -> DexError) (m : M S E A) : D A :=
  fun d => let '(r, s) := m (proj d) in (map_err err r, upd s d).
Definition on_pools {A} : M PoolFactory AmmError A -> D A := zoom pool_factory set_pools OfAmm.
Definition on_pairs {A} : M Pairs AmmError A -> D A :=
  zoom (fun d => pairs (pool_factory d)) (fun p d => set_pools (set_pairs p (pool_factory d)) d) OfAmm.
Definition on_tokens {A} : M TokenFactory TokenFactoryError A -> D A := zoom token_factory set_token_factory OfToken.
Definition on_ledger {A} : M AllowanceRegistry ApprovalError A -> D A := zoom ledger set_ledger OfApproval.
Definition on_lp {A} : M LpRegistry LpError A -> D A := zoom lp_registry set_lp LpTransferFailed.
(** A method of one pair, which must exist. *)
Definition on_pair {A} (pid : PairId) (m : P A) : D A :=
  on_pairs (fun ps => match ps !! pid with
                      | Some pr => let '(r, pr) := m pr in (r, <[pid := pr]> ps)
                      | None => (Err PairNotFound, ps)
                      end).

Definition create_pool (ta tb : Address) (tier : FeeTier) (creator : Address) (creator_balance block : Z) : D Address :=
  '(addr, _) ← on_pools (factory_create_pool ta tb tier creator creator_balance block);
  d ← get_st;
  _ ← match list.last (events (pool_factory d)) with
      | Some evt => modify (set_logs (swap_events d) (pool_events d ++ [evt]) (protocol_fees d))
      | None => mret tt
      end;
  mret addr.

Definition create_dex_token (params : CreateTokenParams) : D Address :=
  token_addr ← on_tokens (create_token sha3 params);
  _ ← modify (fun d => set_ledger (add_balance token_addr (creator params) (c_total_supply params) (ledger d)) d);
  mret token_addr.

Definition buy (who ti to : Address) (amount_in min_amount_out deadline now block : Z) : D SwapEvent :=
  d ← get_st;
  let balance := balance_of ti who (ledger d) in
  _ ← throw_if (balance <? amount_in) (InsufficientInputBalance balance amount_in);
  route ← lift_opt (find_best_route ti to amount_in (pairs (pool_factory d))) NoRoute;
  '(amount_out, total_protocol_fee) ← on_pairs (execute_route route min_amount_out deadline now);
  _ ← on_ledger (sub_balance ti who amount_in);
  _ ← modify (fun d => set_ledger (add_balance to who amount_out (ledger d)) d);
  _ ← modify (fun d => set_logs (swap_events d) (pool_events d)
        (<[ti := u128 (mval (protocol_fees d) ti + total_protocol_fee)]> (protocol_fees d)) d);
  _ ← modify (fun d => set_pools (foldl (fun f step => record_volume (st_pair step) amount_in f) (pool_factory d) (steps route)) d);
  let event := mkSwapEvent who ti to amount_in amount_out (hops route) total_protocol_fee block in
  _ ← modify (fun d => set_logs (swap_events d ++ [event]) (pool_events d) (protocol_fees d) d);
  mret event.

Definition sell (who ti to : Address) (amount_in min_amount_out deadline now block : Z) : D SwapEvent :=
  buy who ti to amount_in min_amount_out deadline now block.

Definition dex_add_liquidity (who ta tb : Address) (a : AddLiquidityParams) (block : Z)
    : D (AddLiquidityResult * LiquidityEvent) :=
  let pid := pair_id ta tb in
  d ← get_st;
  let bal_a := balance_of (token_a pid) who (ledger d) in
  let bal_b := balance_of (token_b pid) who (ledger d) in
  _ ← throw_if (bal_a <? amount_a a) (InsufficientInputBalance bal_a (amount_a a));
  _ ← throw_if (bal_b <? amount_b a) (InsufficientInputBalance bal_b (amount_b a));
  result ← on_pair pid (add_liquidity a);
  _ ← on_ledger (sub_balance (token_a pid) who (used_a result));
  _ ← on_ledger (sub_balance (token_b pid) who (used_b result));
  _ ← modify (fun d => set_lp (lp_mint pid who (lp_minted result) (lp_registry d)) d);
  mret (result, mkLiquidityEvent who pid (lp_minted result) (used_a result) (used_b result) block).

Definition dex_remove_liquidity (who ta tb : Address) (x : RemoveLiquidityParams) : D RemoveLiquidityResult :=
  let pid := pair_id ta tb in
  d ← get_st;
  _ ← throw_if (lp_balance pid who (lp_registry d) <? lp_amount x) (OfAmm InsufficientLpBalance);
  result ← on_pair pid (remove_liquidity x);
  _ ← on_lp (lp_burn pid who (lp_amount x));
  _ ← modify (fun d => set_ledger (add_balance (token_a pid) who (out_a result) (ledger d)) d);
  _ ← modify (fun d => set_ledger (add_balance (token_b pid) who (out_b result) (ledger d)) d);
  mret result.

Definition dex_approve (token owner spender : Address) (amount expire : Z) : D unit :=
  on_ledger (approve token owner spender amount expire).
Definition dex_transfer_from (token owner to spender : Address) (amount current_block : Z) : D unit :=
  on_ledger (transfer_from token owner to spender amount current_block).
Definition dex_transfer (token owner to : Address) (amount : Z) : D unit := on_ledger (transfer token owner to amount).

(** The loop of the price impact, with the amount simulated so far. *)
Fixpoint impact_loop (l : list SwapStep) (ps : Pairs) (cumulative_remaining sim_amount : Z) : Z :=
  match l with
  | [] => cumulative_remaining
  | step :: l =>
    match ps !! st_pair step with
    | Some pr =>
      let r_in := (reserves (st_a_to_b step) pr).1 in
      let denom := Z.max (sat 128 (r_in + sim_amount)) 1 in
      let remaining_bps := sat 128 (r_in * 10000) / denom in
      let cumulative_remaining := sat 128 (cumulative_remaining * remaining_bps) / 10000 in
      let sim_amount := get_amount_out sim_amount (st_a_to_b step) pr in
      if sim_amount =? 0 then cumulative_remaining else impact_loop l ps cumulative_remaining sim_amount
    | None => impact_loop l ps cumulative_remaining sim_amount
    end
  end.

Definition quote (ti to : Address) (amount_in : Z) (d : DexEngine) : option QuoteResult :=
  let ps := pairs (pool_factory d) in
  route ← find_best_route ti to amount_in ps;
  let amount_out := simulate ps route in
  if amount_out =? 0 then None
  else
    let cumulative_remaining := impact_loop (steps route) ps 10000 (route_in route) in
    Some (mkQuote amount_in amount_out (hops route) (sat 32 (10000 - u32 cumulative_remaining))).

Definition estimate_fee (op : DexOperation) (gas_price_gwei amount : Z) (d : DexEngine) : FeeEstimate :=
  estimate_total_cost op gas_price_gwei amount (pool_fees (pool_factory d)).
Definition dex_balance_of (token owner : Address) (d : DexEngine) : Z := balance_of token owner (ledger d).
Definition dex_lp_balance (ta tb owner : Address) (d : DexEngine) : Z := lp_balance (pair_id ta tb) owner (lp_registry d).
Definition protocol_fees_collected (token : Address) (d : DexEngine) : Z := mval (protocol_fees d) token.
End sha3.
