(* ===== verification/DexCorrect.v ===== *)
(** * The exchange is solvent (proofs about Dex.v)

    Successful operations conserve every token between accounts and pairs,
    liquidity shares are always those the pairs have issued, and a purchase
    pays what the best route quotes. *)

From Stdlib Require Import ZArith Lia.
From stdpp Require Import base tactics list gmap numbers option.
From S2P Require Import Prelude Bytes Collections Amm Dex.

Local Open Scope Z_scope.

(** ** Totals *)

(** What a pair holds of a token. *)
Definition reserve_of (tok : Address) (pid : PairId) (p : Pair) : Z :=
  (if decide (token_a pid = tok) then reserve_a p else 0) + (if decide (token_b pid = tok) then reserve_b p else 0).
Definition pool_holding (tok : Address) (ps : Pairs) : Z := wsum (reserve_of tok) ps.
Definition accounts (tok : Address) (l : AllowanceRegistry) : Z := msum (row (balances l) tok).
Definition token_total (tok : Address) (d : DexEngine) : Z :=
  accounts tok (ledger d) + pool_holding tok (pairs (pool_factory d)).

Definition pairs_ok (ps : Pairs) : Prop :=
  map_Forall (fun pid p => pair_wf p /\ token_a pid <> token_b pid) ps.
Definition ledger_ok (l : AllowanceRegistry) : Prop := forall tok who, in_range 128 (balance_of tok who l).

Lemma reserve_of_nonneg tok pid p : pair_wf p -> 0 <= reserve_of tok pid p.
Proof. intros [((? & _) & (? & _) & _) _]. unfold reserve_of. case_decide; case_decide; lia. Qed.

Lemma holding_nonneg tok ps : pairs_ok ps -> map_Forall (fun pid p => 0 <= reserve_of tok pid p) ps.
Proof. intros Hps. eapply map_Forall_impl; [exact Hps|]. intros pid p [? _]. by apply reserve_of_nonneg. Qed.

Lemma accounts_ge tok who l : ledger_ok l -> 0 <= balance_of tok who l <= accounts tok l.
Proof.
  intros Hl. split; [apply Hl|]. apply mval_le_msum. intros j. apply (Hl tok j).
Qed.

(** *** Balances *)

Lemma balance_set tok who v l tok' who' :
  balance_of tok' who' (set_balance tok who v l) = if decide (tok' = tok /\ who' = who) then v else balance_of tok' who' l.
Proof. unfold balance_of, set_balance. simpl. apply mval2_put2. Qed.

Lemma accounts_set tok who v l tok' :
  accounts tok' (set_balance tok who v l) = accounts tok' l + if decide (tok' = tok) then v - balance_of tok who l else 0.
Proof. unfold accounts, set_balance. simpl. rewrite msum_put2. done. Qed.

Lemma ledger_set_ok tok who v l : ledger_ok l -> in_range 128 v -> ledger_ok (set_balance tok who v l).
Proof. intros Hl Hv tok' who'. rewrite balance_set. by case_decide. Qed.

Lemma add_balance_exact tok who n l : ledger_ok l -> 0 <= n -> accounts tok l + n < 2 ^ 128 ->
  ledger_ok (add_balance tok who n l) /\ forall tok', accounts tok' (add_balance tok who n l) = accounts tok' l + if decide (tok' = tok) then n else 0.
Proof.
  intros Hl Hn Hfit. pose proof (accounts_ge tok who l Hl). unfold add_balance. rewrite sat_small by (unfold in_range; lia).
  split; [apply ledger_set_ok; [done|unfold in_range; lia]|]. intros tok'. rewrite accounts_set. case_decide; lia.
Qed.

Lemma add_balance_ok tok who n l : ledger_ok l -> ledger_ok (add_balance tok who n l).
Proof. intros Hl. apply ledger_set_ok; [done|]. by apply sat_range. Qed.

Lemma sub_balance_cases tok who n l : ledger_ok l -> 0 <= n ->
  match sub_balance tok who n l with
  | (Ok _, l') => n <= balance_of tok who l /\ ledger_ok l' /\
      forall tok', accounts tok' l' = accounts tok' l - if decide (tok' = tok) then n else 0
  | (Err _, l') => balance_of tok who l < n /\ ledger_ok l' /\
      (forall tok', accounts tok' l' = accounts tok' l) /\ forall tok' who', balance_of tok' who' l' = balance_of tok' who' l
  | (Panic, _) => False
  end.
Proof.
  intros Hl Hn. unfold sub_balance. pose proof (Hl tok who) as Hb. unfold in_range in Hb.
  destruct (Z.ltb_spec (balance_of tok who l) n); split_and!; try done.
  - by apply ledger_set_ok.
  - intros tok'. rewrite accounts_set. case_decide; lia.
  - intros tok' who'. rewrite balance_set. by case_decide as Hd; [destruct Hd as [-> ->]|].
  - apply ledger_set_ok; [done|]. unfold in_range. lia.
  - intros tok'. rewrite accounts_set. case_decide; lia.
Qed.

Lemma sub_balance_ok tok who n l : ledger_ok l -> 0 <= n <= balance_of tok who l ->
  exists l', sub_balance tok who n l = (Ok tt, l') /\ ledger_ok l' /\
    (forall tok', accounts tok' l' = accounts tok' l - if decide (tok' = tok) then n else 0) /\
    forall tok' who', tok' <> tok -> balance_of tok' who' l' = balance_of tok' who' l.
Proof.
  intros Hl Hn. pose proof (sub_balance_cases tok who n l Hl ltac:(lia)) as H. unfold sub_balance in *.
  destruct (Z.ltb_spec (balance_of tok who l) n); [lia|]. destruct H as (_ & Hl' & Ha). eexists. split_and!; [done..|].
  intros tok' who' Hne. rewrite balance_set. rewrite decide_False; [done|]. by intros [? _].
Qed.

(** *** Pairs *)

(** Shares issued by a pair; none when there is no pair. *)
Definition issued (pid : PairId) (ps : Pairs) : Z := match ps !! pid with Some p => total_lp p | None => 0 end.

Lemma pairs_ok_insert pid p ps : pairs_ok ps -> pair_wf p -> token_a pid <> token_b pid -> pairs_ok (<[pid := p]> ps).
Proof. intros. by apply map_Forall_insert_2. Qed.

Lemma holding_insert tok pid p q ps : ps !! pid = Some p ->
  pool_holding tok (<[pid := q]> ps) = pool_holding tok ps - reserve_of tok pid p + reserve_of tok pid q.
Proof. intros Hp. unfold pool_holding. rewrite wsum_insert. unfold wval. by rewrite Hp. Qed.

Lemma issued_insert pid q ps pid' : issued pid' (<[pid := q]> ps) = if decide (pid' = pid) then total_lp q else issued pid' ps.
Proof.
  unfold issued. case_decide as Hd; [subst; by rewrite lookup_insert_eq|by rewrite lookup_insert_ne].
Qed.

Lemma issued_same pid p q ps : ps !! pid = Some p -> total_lp q = total_lp p -> forall pid', issued pid' (<[pid := q]> ps) = issued pid' ps.
Proof. intros Hp Hq pid'. rewrite issued_insert. case_decide; [subst; unfold issued; by rewrite Hp|done]. Qed.

Lemma pair_id_tokens a b : token_a (pair_id a b) = a /\ token_b (pair_id a b) = b \/ token_a (pair_id a b) = b /\ token_b (pair_id a b) = a.
Proof. unfold pair_id. destruct (bytes_ltb a b); auto. Qed.

(** What flows into and out of the pairs. *)
Definition flow (a : Address) (n : Z) (tok : Address) : Z := if decide (tok = a) then n else 0.

Lemma reserve_of_swapped a b s p r q tok :
  let pid := pair_id a b in token_a pid <> token_b pid -> a_to_b s = bool_decide (token_a pid = a) -> swapped s p r q ->
  reserve_of tok pid q = reserve_of tok pid p + flow a (amount_in s) tok - flow b (amount_out r) tok.
Proof.
  cbv zeta. intros Hne Hdir [_ _ _ H4 _]. unfold reserves in H4. rewrite Hdir in H4. unfold reserve_of, flow.
  destruct (pair_id_tokens a b) as [[Ea Eb]|[Ea Eb]]; rewrite Ea, Eb in *.
  - rewrite bool_decide_eq_true_2 in H4 by done. destruct H4 as ([= -> ->] & _). repeat case_decide; subst; try done; lia.
  - rewrite bool_decide_eq_false_2 in H4 by done. destruct H4 as ([= -> ->] & _). repeat case_decide; subst; try done; lia.
Qed.

(** Pairs whose reserves and shares are those of others: only fees differ. *)
Definition same_pools (ps ps' : Pairs) : Prop :=
  pairs_ok ps' /\ (forall tok, pool_holding tok ps' = pool_holding tok ps) /\ forall pid, issued pid ps' = issued pid ps.

Lemma same_pools_refl ps : pairs_ok ps -> same_pools ps ps.
Proof. done. Qed.

Lemma same_pools_insert pid p q ps : pairs_ok ps -> ps !! pid = Some p -> pair_wf q ->
  reserve_a q = reserve_a p -> reserve_b q = reserve_b p -> total_lp q = total_lp p -> same_pools ps (<[pid := q]> ps).
Proof.
  intros Hps Hp Hq Ha Hb Hl. destruct (Hps pid p Hp) as [_ Hne]. split_and!; [by apply pairs_ok_insert| |by eapply issued_same].
  intros tok. rewrite (holding_insert tok pid p) by done. unfold reserve_of. rewrite Ha, Hb. lia.
Qed.

Lemma swap_at_cases pid s ps : pairs_ok ps -> swap_ok s ->
  match swap_at pid s ps with
  | (Ok r, ps') => exists p q, ps !! pid = Some p /\ ps' = <[pid := q]> ps /\ swapped s p r q /\ pairs_ok ps' /\
      (forall pid', issued pid' ps' = issued pid' ps) /\ in_range 128 (amount_out r) /\ amount_out r <> 0 /\
      token_a pid <> token_b pid /\ get_amount_out (amount_in s) (a_to_b s) p = amount_out r
  | (Err _, ps') => same_pools ps ps'
  | (Panic, _) => False
  end.
Proof.
  intros Hps Hs. unfold swap_at. destruct (ps !! pid) as [p|] eqn:Hp; [|done].
  destruct (Hps pid p Hp) as [Hwf Hne]. pose proof Hwf as [Hok Hl]. pose proof (swap_cases s p Hok Hl Hs) as H.
  destruct (swap s p) as [[r|e|] q] eqn:E; [| |done].
  - destruct (swapped_wf s p r q Hwf Hs H) as (Hq & El & _). exists p, q.
    split_and!; try done; [by apply pairs_ok_insert|by eapply issued_same| | |by eapply quote_exact].
    + destruct H as [_ [? _] _ H4 _]. destruct (reserves_range (a_to_b s) p Hok). unfold in_range in *.
      destruct (reserves (a_to_b s) p). simpl in *. lia.
    + destruct H as [_ [? _] _ _ _]. lia.
  - destruct H as [_ [->|(_ & fa & fb & ->)]]; by eapply same_pools_insert.
Qed.

(** ** Routes *)

(** The steps lead from one token to another. *)
Inductive path : Address -> list SwapStep -> Address -> Prop :=
| path_nil a : path a [] a
| path_cons a b c l : path b l c -> path a (mkStep (pair_id a b) (bool_decide (token_a (pair_id a b) = a)) :: l) c.

Lemma execute_steps_cases l a c min dl now amt fee ps : path a l c -> pairs_ok ps -> in_range 128 amt ->
  match execute_steps l min dl now amt fee ps with
  | (Ok (out, _), ps') => pairs_ok ps' /\ in_range 128 out /\ (forall pid, issued pid ps' = issued pid ps) /\
      (forall tok, pool_holding tok ps' = pool_holding tok ps + flow a amt tok - flow c out tok) /\
      (l <> [] -> min <= out /\ 0 < out) /\ (NoDup (map st_pair l) -> simulate_steps l ps amt = out)
  | (Err _, ps') => pairs_ok ps' /\ (forall pid, issued pid ps' = issued pid ps) /\
      exists b o, (b = a /\ o = amt \/ (1 < length l)%nat) /\
        forall tok, pool_holding tok ps' = pool_holding tok ps + flow a amt tok - flow b o tok
  | (Panic, _) => False
  end.
Proof.
  intros Hpath. revert amt fee ps. induction Hpath as [a|a b c l Hl IH]; intros amt fee ps Hps Hamt.
  - simpl. split_and!; try done. intros tok. unfold flow. case_decide; lia.
  - cbn [execute_steps st_pair st_a_to_b]. unfold mbind, M_bind. set (step := mkSwap _ _ _ _ _ _).
    pose proof (swap_at_cases (pair_id a b) step ps Hps Hamt) as H. destruct (swap_at _ step ps) as [[r|e|] ps1]; [| |done].
    2: { destruct H as (? & Hh & ?). split_and!; [done|done|]. exists a, amt. split; [by left|]. intros tok. rewrite Hh. lia. }
    destruct H as (p & q & Hp & -> & Hsw & Hps1 & Hiss & Hout & Hnz & Hne & Hquote).
    assert (forall tok, pool_holding tok (<[pair_id a b := q]> ps) = pool_holding tok ps + flow a amt tok - flow b (amount_out r) tok) as Hhold.
    { intros tok. rewrite (holding_insert tok _ p) by done. rewrite (reserve_of_swapped a b step p r q) by done. simpl. lia. }
    specialize (IH (amount_out r) (sat 128 (fee + protocol_fee r)) _ Hps1 Hout).
    destruct (execute_steps l _ _ _ _ _ _) as [[[out f]|e|] ps'] eqn:Eex; [| |done].
    + destruct IH as (? & ? & Hi & Hh & Hmin & Hsim). split_and!; [done|done| | | |].
      * intros pid. by rewrite Hi, Hiss.
      * intros tok. rewrite Hh, Hhold. lia.
      * intros _. destruct l; [|by apply Hmin]. inversion Hl; subst. destruct Hsw as [_ [_ Hm] _ _ _]. simpl in Hm.
        pose proof (Hsim ltac:(constructor)) as Hs. simpl in Hs. unfold in_range in *. lia.
      * intros [Hnin Hnd]%list.NoDup_cons. cbn [simulate_steps st_pair st_a_to_b]. rewrite Hp.
        simpl in Hquote. rewrite Hquote, (proj2 (Z.eqb_neq _ _)) by done. rewrite <-(Hsim Hnd). clear -Hnin.
        generalize (amount_out r). induction l as [|st l IH]; [done|]. intros n. cbn [simulate_steps].
        simpl in Hnin. rewrite lookup_insert_ne by set_solver. destruct (ps !! st_pair st); [|done].
        destruct (_ =? 0); [done|]. apply IH. set_solver.
    + destruct IH as (? & Hi & b' & o & Hbo & Hh). split_and!; [done|intros pid; by rewrite Hi, Hiss|].
      exists b', o. split; [right; destruct l; [done|simpl; lia]|]. intros tok. rewrite Hh, Hhold. lia.
Qed.

(** *** The routes that are tried *)

Definition route_ok (from to : Address) (n : Z) (r : SwapRoute) : Prop :=
  path from (steps r) to /\ route_in r = n /\ steps r <> [] /\ NoDup (map st_pair (steps r)) /\ hops r <= 2.

Lemma pair_id_inj_mid a m b : a <> b -> pair_id a m <> pair_id m b.
Proof.
  intros Hne Heq. destruct (pair_id_tokens a m) as [[Ha Hb]|[Ha Hb]], (pair_id_tokens m b) as [[Ha' Hb']|[Ha' Hb']];
    rewrite Heq in *; congruence.
Qed.

Lemma candidates_ok from to n ps r : from <> to -> r ∈ candidates from to n ps -> route_ok from to n r.
Proof.
  intros Hne. unfold candidates. rewrite list_elem_of_omap. intros (o & Ho & Hr).
  assert (forall mid, via mid from to n ps = Some r -> route_ok from to n r) as Hvia.
  { intros mid. unfold via, build_two_hop. case_match; [|done]. case_match; [done|]. intros [= <-].
    split_and!; simpl; [apply path_cons, path_cons, path_nil|done|done| |by unfold hops, zlen].
    apply list.NoDup_cons. split; [|by apply NoDup_singleton]. rewrite list_elem_of_singleton. by apply pair_id_inj_mid. }
  repeat (apply elem_of_cons in Ho as [->|Ho]); [|by eauto|by eauto|by apply elem_of_nil in Ho].
  unfold build_direct in Hr. case_match; [|done]. injection Hr as <-.
  split_and!; simpl; [apply path_cons, path_nil|done|done|by apply NoDup_singleton|by unfold hops, zlen].
Qed.

Lemma max_by_key_spec {A} (key : A -> Z) l b : max_by_key key l = Some b -> b ∈ l /\ forall x, x ∈ l -> key x <= key b.
Proof.
  unfold max_by_key. revert b. induction l as [|x l IH] using rev_ind; intros b; [done|].
  rewrite foldl_snoc. destruct (foldl _ None l) as [y|] eqn:E.
  - destruct (IH y eq_refl) as [Hin Hmax]. destruct (Z.leb_spec (key y) (key x)); intros [= <-]; (split; [set_solver|]);
      intros z [Hz|Hz]%elem_of_app; try (apply list_elem_of_singleton in Hz as ->); try lia; specialize (Hmax z Hz); lia.
  - intros [= <-]. split; [set_solver|]. destruct l as [|y l'] using rev_ind; [set_solver by lia|].
    rewrite foldl_snoc in E. by destruct (foldl _ None l') as [w|]; [destruct (key w <=? key y)|].
Qed.

Lemma best_route_ok from to n ps r : find_best_route from to n ps = Some r ->
  from <> to /\ n <> 0 /\ route_ok from to n r /\ forall r', r' ∈ candidates from to n ps -> simulate ps r' <= simulate ps r.
Proof.
  unfold find_best_route. destruct (bool_decide (from = to) || (n =? 0)) eqn:E; [done|]. bool_to_prop.
  intros [Hin Hmax]%max_by_key_spec. split_and!; auto. by eapply candidates_ok.
Qed.

(** ** The engine's invariant *)

Definition lp_ok (l : LpRegistry) (ps : Pairs) : Prop :=
  (forall pid who, 0 <= lp_balance pid who l) /\
  forall pid, lp_total_supply pid l = issued pid ps /\ msum (row (lp_balances l) pid) = issued pid ps /\ in_range 128 (issued pid ps).

Record dex_ok (d : DexEngine) : Prop := {
  do_pairs : pairs_ok (pairs (pool_factory d));
  do_ledger : ledger_ok (ledger d);
  do_lp : lp_ok (lp_registry d) (pairs (pool_factory d)) }.

Lemma issued_range pid ps : pairs_ok ps -> in_range 128 (issued pid ps).
Proof.
  intros Hps. unfold issued. destruct (ps !! pid) as [p|] eqn:Hp; [|by unfold in_range].
  by destruct (Hps pid p Hp) as [[(_ & _ & ? & _) _] _].
Qed.

Lemma lp_ok_same l ps ps' : (forall pid, issued pid ps' = issued pid ps) -> lp_ok l ps -> lp_ok l ps'.
Proof. intros Hi [Hb Hs]. split; [done|]. intros pid. rewrite Hi. apply Hs. Qed.

Lemma lp_balance_le l ps pid who : lp_ok l ps -> lp_balance pid who l <= issued pid ps.
Proof. intros [Hb Hs]. destruct (Hs pid) as (_ & <- & _). apply mval_le_msum. intros j. apply Hb. Qed.

Lemma lp_mint_ok l ps ps' pid who n : lp_ok l ps -> 0 <= n -> issued pid ps + n < 2 ^ 128 ->
  (forall pid', issued pid' ps' = if decide (pid' = pid) then issued pid ps + n else issued pid' ps) -> lp_ok (lp_mint pid who n l) ps'.
Proof.
  intros Hl Hn Hfit Hi. pose proof (lp_balance_le l ps pid who Hl) as Hle. destruct Hl as [Hb Hs]. unfold lp_mint. destruct (Z.eqb_spec n 0) as [->|Hnz].
  - apply (lp_ok_same _ ps); [|done]. intros pid'. rewrite Hi. case_decide; subst; lia.
  - pose proof (Hb pid who). destruct (Hs pid) as (Ht & Hm & Hr). unfold in_range in Hr. rewrite Ht.
    rewrite !wrap_small by (unfold in_range; lia). split.
    + intros pid' who'. unfold lp_balance in *. simpl. rewrite mval2_put2. case_decide; [lia|apply Hb].
    + intros pid'. rewrite Hi. unfold lp_total_supply. simpl. rewrite mval_insert, msum_put2. fold (lp_balance pid who l).
      case_decide; subst; [unfold in_range; lia|]. rewrite Z.add_0_r. apply Hs.
Qed.

Lemma lp_burn_ok l ps ps' pid who n : lp_ok l ps -> 0 <= n <= lp_balance pid who l ->
  (forall pid', issued pid' ps' = if decide (pid' = pid) then issued pid ps - n else issued pid' ps) ->
  exists l', lp_burn pid who n l = (Ok tt, l') /\ lp_ok l' ps'.
Proof.
  intros Hl Hn Hi. pose proof (lp_balance_le l ps pid who Hl) as Hle. destruct Hl as [Hb Hs]. unfold lp_burn.
  destruct (Z.ltb_spec (lp_balance pid who l) n); [lia|]. eexists. split; [done|].
  destruct (Hs pid) as (Ht & Hm & Hr). unfold in_range in Hr. rewrite Ht, sat_small by (unfold in_range; lia). split.
  - intros pid' who'. unfold lp_balance in *. simpl. rewrite mval2_put2. case_decide; [lia|apply Hb].
  - intros pid'. rewrite Hi. unfold lp_total_supply. simpl. rewrite mval_insert, msum_put2. fold (lp_balance pid who l).
    case_decide; subst; [unfold in_range; lia|]. rewrite Z.add_0_r. apply Hs.
Qed.

Lemma lp_transfer_ok l ps pid from to n : lp_ok l ps -> 0 <= n ->
  let '(r, l') := lp_transfer pid from to n l in r <> Panic /\ lp_ok l' ps.
Proof.
  intros Hl Hn. unfold lp_transfer, throw_if, mbind, M_bind, modify. destruct (bool_decide (to = zero_address)); [done|].
  destruct (Z.le_gt_cases n (lp_balance pid from l)) as [Hle|Hgt].
  - set (ps' := partial_alter (fun _ => Some (set_total_lp (issued pid ps - n) (pair_new pid Lowest))) pid ps).
    assert (forall pid', issued pid' ps' = if decide (pid' = pid) then issued pid ps - n else issued pid' ps) as Hi'.
    { intros pid'. unfold ps'. apply issued_insert. }
    destruct (lp_burn_ok l ps ps' pid from n Hl ltac:(lia) Hi') as (l' & -> & Hl'). split; [done|].
    destruct Hl as [_ Hs]. destruct (Hs pid) as (_ & _ & Hr). unfold in_range in Hr.
    apply (lp_mint_ok l' ps' ps pid to n Hl'); [lia| |]; [rewrite Hi'; by destruct (decide (pid = pid)); [lia|]|].
    intros pid'. rewrite !Hi'. destruct (decide (pid = pid)); [|done]. case_decide; [subst; lia|done].
  - unfold lp_burn. destruct (Z.ltb_spec (lp_balance pid from l) n); [|lia]. split; [done|]. destruct Hl as [Hb Hs]. split.
    + intros pid' who'. unfold lp_balance in *. simpl. rewrite mval2_put2. case_decide; apply Hb.
    + intros pid'. unfold lp_total_supply. simpl. rewrite msum_put2. fold (lp_balance pid from l). rewrite Z.sub_diag.
      case_decide; rewrite ?Z.add_0_r; apply Hs.
Qed.

(** *** The ledger's operations *)

(** Moving tokens within the ledger: nothing is lost, refusals change no
    balance. *)
Definition moved (l : AllowanceRegistry) (r : res ApprovalError unit) (l' : AllowanceRegistry) : Prop :=
  ledger_ok l' /\ r <> Panic /\
  (is_ok r = false -> forall tok who, balance_of tok who l' = balance_of tok who l) /\
  ((forall tok, accounts tok l < 2 ^ 128) -> forall tok, accounts tok l' = accounts tok l).

Lemma moved_same l r l' : ledger_ok l -> balances l' = balances l -> r <> Panic -> moved l r l'.
Proof.
  intros Hl Hb Hr. unfold moved, ledger_ok, balance_of, accounts in *. rewrite Hb. by split_and!.
Qed.

Lemma moved_trans l1 l2 r2 l3 : balances l2 = balances l1 -> ledger_ok l1 -> moved l2 r2 l3 -> moved l1 r2 l3.
Proof. intros Hb Hl. unfold moved, ledger_ok, balance_of, accounts. rewrite Hb. done. Qed.

Lemma move_moved tok from to n l : ledger_ok l -> 0 <= n ->
  let '(r, l') := (_ ← sub_balance tok from n; modify (add_balance tok to n)) l in moved l r l'.
Proof.
  intros Hl Hn. unfold mbind, M_bind, modify. pose proof (sub_balance_cases tok from n l Hl Hn) as H.
  destruct (sub_balance tok from n l) as [[[]|e|] l1]; [| |done].
  - destruct H as (Hle & Hl1 & Ha). split_and!; [by apply add_balance_ok|done|done|]. intros Hfit tok'.
    destruct (add_balance_exact tok to n l1 Hl1 Hn) as [_ Hadd].
    { rewrite Ha. destruct (decide (tok = tok)); [|done]. specialize (Hfit tok). lia. }
    rewrite Hadd, Ha. case_decide; lia.
  - destruct H as (Hlt & Hl1 & Ha & Hb). by split_and!.
Qed.

Lemma transfer_moved tok from to n l : ledger_ok l -> 0 <= n -> let '(r, l') := transfer tok from to n l in moved l r l'.
Proof.
  intros Hl Hn. unfold transfer. unfold mbind at 1, M_bind at 1, throw_if.
  destruct (bool_decide (to = zero_address)); [by apply moved_same|].
  destruct (n =? 0); [by apply moved_same|]. by apply move_moved.
Qed.

Lemma spend_same tok owner sp n b l : 
  let '(r, l') := spend_allowance tok owner sp n b l in balances l' = balances l /\ r <> Panic.
Proof.
  unfold spend_allowance, mbind, M_bind, get_st, lift_opt, ok_or, throw_if, modify, mret, M_ret.
  repeat (case_match; simplify_eq; try done).
Qed.

Lemma transfer_from_moved tok owner to sp n b l : ledger_ok l -> 0 <= n ->
  let '(r, l') := transfer_from tok owner to sp n b l in moved l r l'.
Proof.
  intros Hl Hn. unfold transfer_from. unfold mbind at 1, M_bind at 1, throw_if.
  destruct (bool_decide (to = zero_address)); [by apply moved_same|].
  destruct (n =? 0); [by apply moved_same|]. unfold mbind at 1, M_bind at 1.
  pose proof (spend_same tok owner sp n b l) as H. destruct (spend_allowance _ _ _ _ _ l) as [[[]|e|] l1]; destruct H as [Hb Hr]; [|by apply moved_same|done].
  assert (ledger_ok l1) as Hl1 by (unfold ledger_ok, balance_of in *; by rewrite Hb).
  pose proof (move_moved tok owner to n l1 Hl1 Hn) as H. destruct ((_ ← sub_balance tok owner n; modify (add_balance tok to n)) l1) as [r l2].
  by eapply moved_trans.
Qed.

(** ** Operations *)

Inductive DexOp : Type :=
| DCreatePool (ta tb : Address) (tier : FeeTier) (creator : Address) (balance block : Z)
| DCreateToken (p : CreateTokenParams)
| DBuy (who ti to : Address) (amount_in min_amount_out deadline now block : Z)
| DAdd (who ta tb : Address) (a : AddLiquidityParams) (block : Z)
| DRemove (who ta tb : Address) (x : RemoveLiquidityParams)
| DApprove (tok owner spender : Address) (amount expire : Z)
| DTransferFrom (tok owner to spender : Address) (amount block : Z)
| DTransfer (tok owner to : Address) (amount : Z)
| DLpTransfer (pid : PairId) (from to : Address) (amount : Z)
| DDeposit (tok who : Address) (amount : Z)
| DWithdraw (tok who : Address) (amount : Z)
| DTrip (pid : PairId) (why : bytes) (block : Z)
| DClear (pid : PairId).

Definition dex_op_ok (o : DexOp) : Prop :=
  match o with
  | DCreateToken p => 0 <= c_total_supply p
  | DBuy _ _ _ n _ _ _ _ => in_range 128 n
  | DAdd _ _ _ a _ => add_ok a
  | DRemove _ _ _ x => remove_ok x
  | DTransferFrom _ _ _ _ n _ | DTransfer _ _ _ n | DLpTransfer _ _ _ n | DDeposit _ _ n | DWithdraw _ _ n => in_range 128 n
  | _ => True
  end.

Section engine.
Context (sha3 : bytes -> bytes).

Definition unit_of {A} (m : M DexEngine DexError A) : M DexEngine DexError unit := _ ← m; mret tt.
Definition run_dex (o : DexOp) : M DexEngine DexError unit :=
  match o with
  | DCreatePool ta tb tier c b blk => unit_of (create_pool sha3 ta tb tier c b blk)
  | DCreateToken p => unit_of (create_dex_token sha3 p)
  | DBuy who ti to n mn dl now blk => unit_of (buy who ti to n mn dl now blk)
  | DAdd who ta tb a blk => unit_of (dex_add_liquidity who ta tb a blk)
  | DRemove who ta tb x => unit_of (dex_remove_liquidity who ta tb x)
  | DApprove tok ow sp n ex => dex_approve tok ow sp n ex
  | DTransferFrom tok ow to sp n blk => dex_transfer_from tok ow to sp n blk
  | DTransfer tok ow to n => dex_transfer tok ow to n
  | DLpTransfer pid from to n => on_lp (lp_transfer pid from to n)
  | DDeposit tok who n => on_ledger (modify (add_balance tok who n))
  | DWithdraw tok who n => on_ledger (sub_balance tok who n)
  | DTrip pid why blk => on_pair pid (run_op (OTrip why blk))
  | DClear pid => on_pair pid (run_op OClear)
  end.

(** The supply that an operation brings in or takes out. *)
Definition minted (o : DexOp) (d : DexEngine) : Address -> Z :=
  match o with
  | DCreateToken p =>
    flow (derive_token_address sha3 (creator p) (default 0 (creator_nonces (token_factory d) !! creator p))) (c_total_supply p)
  | DDeposit tok _ n => flow tok n
  | DWithdraw tok _ n => flow tok (- n)
  | _ => fun _ => 0
  end.

(** What every operation guarantees. *)
Definition sound {A} (gain : Address -> Z) (d : DexEngine) (out : res DexError A * DexEngine) : Prop :=
  match out with
  | (Ok _, d') => dex_ok d' /\
      ((forall tok, token_total tok d + gain tok < 2 ^ 128) -> forall tok, token_total tok d' = token_total tok d + gain tok)
  | (Err _, d') => dex_ok d'
  | (Panic, _) => True
  end.

Arguments sound {A} gain d out : simpl never.

Lemma sound_unit {A} gain d (m : M DexEngine DexError A) : sound gain d (m d) -> sound gain d (unit_of m d).
Proof. unfold unit_of, mbind, M_bind, sound. by destruct (m d) as [[a|e|] d']. Qed.

Lemma sound_pairs {A} gain d (r : res DexError A) ps' l' lp' tf sw pe pf f :
  pairs f = ps' -> pairs_ok ps' -> ledger_ok l' -> lp_ok lp' ps' -> r <> Panic ->
  ((forall tok, token_total tok d + gain tok < 2 ^ 128) ->
   is_ok r = true -> forall tok, accounts tok l' + pool_holding tok ps' = token_total tok d + gain tok) ->
  sound gain d (r, mkDex f tf l' lp' sw pe pf).
Proof. intros <- Hp Hl Hlp Hr Ht. unfold sound. destruct r; [split; [by split|intros; by apply Ht]|by split|done]. Qed.

Lemma buy_sound who ti to n mn dl now blk d : dex_ok d -> in_range 128 n ->
  sound (fun _ => 0) d (buy who ti to n mn dl now blk d).
Proof.
  intros [Hp Hl Hlp] Hn. unfold buy, mbind, M_bind, get_st, throw_if, lift_opt, ok_or, modify, mret, M_ret.
  destruct (Z.ltb_spec (balance_of ti who (ledger d)) n) as [|Hbal]; [by split|].
  destruct (find_best_route ti to n (pairs (pool_factory d))) as [route|] eqn:Hr; [|by split].
  apply best_route_ok in Hr as (Hne & Hnz & (Hpath & Hrn & _) & _).
  unfold on_pairs, zoom at 1. unfold execute_route. rewrite Hrn.
  pose proof (execute_steps_cases (steps route) ti to mn dl now n 0 _ Hpath Hp Hn) as H.
  destruct (execute_steps _ _ _ _ _ _ _) as [[[out f]|e|] ps']; simpl; [| |done].
  - destruct H as (Hps' & Hout & Hi & Hh & _). unfold on_ledger, zoom. simpl.
    pose proof (sub_balance_cases ti who n (ledger d) Hl ltac:(destruct Hn; lia)) as H.
    destruct (sub_balance ti who n (ledger d)) as [[[]|e|] l1]; [|lia|done]. destruct H as (_ & Hl1 & Ha). simpl.
    unfold set_pools, set_logs, set_ledger, set_pairs. simpl. unfold in_range in *.
    assert (forall s f0, pairs (foldl (fun f step => record_volume (st_pair step) n f) f0 s) = pairs f0) as Hvol.
    { intros s. induction s as [|st s IH]; intros f0; [done|]. simpl. by rewrite IH. }
    apply (sound_pairs _ _ _ ps'); [by rewrite Hvol|done|by apply add_balance_ok|by eapply lp_ok_same|done|].
    intros Hfit _ tok. pose proof (holding_nonneg to ps' Hps') as Hnn.
    destruct (add_balance_exact to who out l1 Hl1 ltac:(lia)) as [_ Hadd].
    { rewrite Ha. pose proof (wsum_nonneg _ _ Hnn) as Hw. fold (pool_holding to ps') in Hw. rewrite Hh in Hw.
      specialize (Hfit to). unfold token_total in Hfit. unfold flow in Hw.
      repeat case_decide; try congruence; lia. }
    rewrite Hadd, Ha, Hh. unfold token_total, flow. repeat case_decide; lia.
  - destruct H as (Hps' & Hi & _). split; simpl; [done|done|by eapply lp_ok_same].
Qed.

(** One pair is changed. *)
Lemma reserve_of_total tok pid p q : token_a pid <> token_b pid ->
  reserve_of tok pid q - reserve_of tok pid p =
  flow (token_a pid) (reserve_a q - reserve_a p) tok + flow (token_b pid) (reserve_b q - reserve_b p) tok.
Proof. intros Hne. unfold reserve_of, flow. repeat case_decide; subst; try done; lia. Qed.

Lemma flow_opp a n tok : flow a (- n) tok = - flow a n tok.
Proof. unfold flow. case_decide; lia. Qed.

Lemma add_sound who ta tb a blk d : dex_ok d -> add_ok a ->
  sound (fun _ => 0) d (dex_add_liquidity who ta tb a blk d).
Proof.
  intros [Hp Hl Hlp] Ha. unfold dex_add_liquidity, mbind, M_bind, get_st, throw_if, modify, mret, M_ret.
  set (pid := pair_id ta tb). destruct (Z.ltb_spec (balance_of (token_a pid) who (ledger d)) (amount_a a)); [by split|].
  destruct (Z.ltb_spec (balance_of (token_b pid) who (ledger d)) (amount_b a)); [by split|].
  unfold on_pair, on_pairs, zoom at 1. destruct (pairs (pool_factory d) !! pid) as [p|] eqn:Hpid; [|by split].
  destruct (Hp pid p Hpid) as [Hwf Hne]. pose proof Hwf as [Hok Hlk].
  pose proof (add_cases a p Hok Hlk Ha) as H'. destruct (add_liquidity a p) as [[r|e|] q]; [| |done]; simpl.
  - pose proof (added_wf a p r q Hwf Ha H') as Hwq. destruct H' as [Hq (Hrl & _) _ [Hlp0 _] [Hua Hub] _ _].
    assert (total_lp q = total_lp p + lp_minted r /\ reserve_a q = reserve_a p + used_a r /\ reserve_b q = reserve_b p + used_b r)
      as (Eql & Eqa & Eqb) by (by rewrite Hq). clear Hq.
    unfold on_ledger, zoom. simpl. destruct Ha as [Haa Hab]. unfold in_range in *.
    destruct (sub_balance_ok (token_a pid) who (used_a r) (ledger d) Hl ltac:(lia)) as (l1 & -> & Hl1 & Ha1 & Hb1). simpl.
    destruct (sub_balance_ok (token_b pid) who (used_b r) l1 Hl1) as (l2 & -> & Hl2 & Ha2 & _); [rewrite Hb1 by congruence; lia|]. simpl.
    set (ps' := <[pid := q]> (pairs (pool_factory d))).
    apply (sound_pairs _ _ _ ps'); [done|by apply pairs_ok_insert|done| |done|].
    + eapply lp_mint_ok; [exact Hlp|lia| |]; [unfold issued; rewrite Hpid; lia|].
      intros pid'. unfold ps'. rewrite issued_insert, Eql. unfold issued. by rewrite Hpid.
    + intros _ _ tok. unfold ps', token_total. rewrite (holding_insert tok pid p) by done. rewrite Ha2, Ha1.
        pose proof (reserve_of_total tok pid p q Hne) as Hro. rewrite Eqa, Eqb in Hro.
        unfold flow in Hro. repeat case_decide; lia.
  - destruct H' as [_ Hr]. split; simpl; [apply pairs_ok_insert; [done|by eapply raised_wf|done]|done|].
    eapply lp_ok_same; [|exact Hlp]. eapply issued_same; [done|]. destruct Hr as [-> _]. done.
Qed.

Lemma remove_sound who ta tb x d : dex_ok d -> remove_ok x -> sound (fun _ => 0) d (dex_remove_liquidity who ta tb x d).
Proof.
  intros [Hp Hl Hlp] Hx. unfold dex_remove_liquidity, mbind, M_bind, get_st, throw_if, modify, mret, M_ret.
  set (pid := pair_id ta tb). destruct (Z.ltb_spec (lp_balance pid who (lp_registry d)) (lp_amount x)); [by split|].
  unfold on_pair, on_pairs, zoom at 1. destruct (pairs (pool_factory d) !! pid) as [p|] eqn:Hpid; [|by split].
  destruct (Hp pid p Hpid) as [Hwf Hne]. pose proof Hwf as [Hok Hlk].
  pose proof (remove_cases x p Hok Hlk Hx) as H'. destruct (remove_liquidity x p) as [[r|e|] q]; [| |done]; simpl.
  - pose proof (removed_wf x p r q Hwf H') as Hwq. destruct H' as [Hq Hlx _ (Hoa & Hob & _)].
    assert (total_lp q = total_lp p - lp_amount x /\ reserve_a q = reserve_a p - out_a r /\ reserve_b q = reserve_b p - out_b r)
      as (Eql & Eqa & Eqb) by (by rewrite Hq). clear Hq.
    set (ps' := <[pid := q]> (pairs (pool_factory d))).
    destruct (lp_burn_ok (lp_registry d) (pairs (pool_factory d)) ps' pid who (lp_amount x) Hlp) as (lp' & Eb & Hlp'); [lia| |].
    { intros pid'. unfold ps'. rewrite issued_insert, Eql. unfold issued. by rewrite Hpid. }
    unfold on_lp, zoom. simpl. rewrite Eb. simpl.
    apply (sound_pairs _ _ _ ps'); [done|by apply pairs_ok_insert|by do 2 apply add_balance_ok|done|done|].
    assert (forall tok, pool_holding tok ps' = pool_holding tok (pairs (pool_factory d)) - flow (token_a pid) (out_a r) tok - flow (token_b pid) (out_b r) tok) as Hh.
    { intros tok. unfold ps'. rewrite (holding_insert tok pid p) by done. pose proof (reserve_of_total tok pid p q Hne) as Hro.
      rewrite Eqa, Eqb in Hro. unfold flow in *. repeat case_decide; lia. }
    intros Hfit _ tok. pose proof (fun tok => wsum_nonneg _ _ (holding_nonneg tok ps' (pairs_ok_insert _ _ _ Hp Hwq Hne))) as Hnn.
    assert (forall tok, accounts tok (ledger d) + flow (token_a pid) (out_a r) tok + flow (token_b pid) (out_b r) tok < 2 ^ 128) as Hfit'.
    { intros t. specialize (Hfit t). specialize (Hnn t). fold (pool_holding t ps') in Hnn. rewrite Hh in Hnn. unfold token_total in Hfit. lia. }
    destruct (add_balance_exact (token_a pid) who (out_a r) (ledger d) Hl ltac:(lia)) as [Hl1 Ha1].
    { specialize (Hfit' (token_a pid)). unfold flow in Hfit'. repeat case_decide; try congruence; lia. }
    destruct (add_balance_exact (token_b pid) who (out_b r) _ Hl1 ltac:(lia)) as [Hl2 Ha2].
    { rewrite Ha1. specialize (Hfit' (token_b pid)). unfold flow in Hfit'. repeat case_decide; try congruence; lia. }
    rewrite Ha2, Ha1, Hh. unfold token_total, flow. repeat case_decide; lia.
  - destruct H' as [_ ->]. split; simpl; [by apply pairs_ok_insert|done|]. eapply lp_ok_same; [|exact Hlp]. by eapply issued_same.
Qed.

Lemma create_pool_sound ta tb tier c b blk d : dex_ok d -> sound (fun _ => 0) d (create_pool sha3 ta tb tier c b blk d).
Proof.
  intros [Hp Hl Hlp]. unfold create_pool, on_pools, zoom, factory_create_pool, mbind, M_bind, get_st, throw_if, put_st, modify, mret, M_ret.
  destruct (bool_decide (ta = tb)) eqn:Hne; [by split|]. bool_to_prop. set (pid := pair_id ta tb).
  destruct (has_pair pid _) eqn:Hh; [by split|]. unfold has_pair in Hh. bool_to_prop. apply eq_None_not_Some in Hh.
  destruct (b <? _); [by split|]. simpl. rewrite list.last_snoc. set (ps' := <[pid := pair_new pid tier]> (pairs (pool_factory d))).
  apply (sound_pairs _ _ _ ps'); [done| |done| |done|].
  - apply pairs_ok_insert; [done|apply pair_new_wf|]. unfold pid. destruct (pair_id_tokens ta tb) as [[-> ->]|[-> ->]]; congruence.
  - eapply lp_ok_same; [|exact Hlp]. intros pid'. unfold ps'. rewrite issued_insert. case_decide; [subst; unfold issued; by rewrite Hh|done].
  - intros _ _ tok. unfold token_total, pool_holding, ps'. rewrite wsum_insert. unfold wval. rewrite Hh. simpl.
    unfold reserve_of. simpl. repeat case_decide; lia.
Qed.

Lemma create_token_sound p d : dex_ok d -> 0 <= c_total_supply p -> sound (minted (DCreateToken p) d) d (create_dex_token sha3 p d).
Proof.
  intros [Hp Hl Hlp] Hs. unfold create_dex_token, on_tokens, zoom, create_token, pay, mbind, M_bind, get_st, throw_if, modify, mret, M_ret.
  repeat (case_match; simplify_eq; try by split). simpl.
  rename select (map_err _ _ = Ok _) into Ea. simpl in Ea. injection Ea as <-.
  set (addr := derive_token_address _ _ _).
  apply (sound_pairs _ _ _ (pairs (pool_factory d))); [done|done|by apply add_balance_ok|done|done|].
  intros Hfit _ tok. pose proof (wsum_nonneg _ _ (holding_nonneg addr _ Hp)) as Hnn. fold (pool_holding addr (pairs (pool_factory d))) in Hnn.
  destruct (add_balance_exact addr (creator p) (c_total_supply p) (ledger d) Hl Hs) as [_ Hadd].
  { specialize (Hfit addr). unfold token_total, minted, flow in Hfit. fold addr in Hfit. case_decide; [lia|done]. }
  rewrite Hadd. unfold token_total, minted, flow. fold addr. case_decide; lia.
Qed.

Lemma ledger_sound m d : dex_ok d -> (let '(r, l') := m (ledger d) in moved (ledger d) r l') ->
  sound (fun _ => 0) d (on_ledger m d).
Proof.
  intros [Hp Hl Hlp] Hm. unfold on_ledger, zoom. destruct (m (ledger d)) as [r l']. destruct Hm as (Hl' & Hr & _ & Ht).
  apply (sound_pairs _ _ _ (pairs (pool_factory d))); [done|done|done|done|by destruct r|].
  intros Hfit Hok tok. unfold token_total in *. rewrite Ht; [lia|]. intros t. specialize (Hfit t).
  pose proof (wsum_nonneg _ _ (holding_nonneg t _ Hp)) as Hnn. fold (pool_holding t (pairs (pool_factory d))) in Hnn. lia.
Qed.

Lemma deposit_sound tok who n d : dex_ok d -> 0 <= n -> sound (flow tok n) d (on_ledger (modify (add_balance tok who n)) d).
Proof.
  intros [Hp Hl Hlp] Hn. unfold on_ledger, zoom, modify. simpl.
  apply (sound_pairs _ _ _ (pairs (pool_factory d))); [done|done|by apply add_balance_ok|done|done|].
  intros Hfit _ t. pose proof (wsum_nonneg _ _ (holding_nonneg tok _ Hp)) as Hnn. fold (pool_holding tok (pairs (pool_factory d))) in Hnn.
  destruct (add_balance_exact tok who n (ledger d) Hl Hn) as [_ Hadd].
  { specialize (Hfit tok). unfold token_total, flow in Hfit. case_decide; [lia|done]. }
  rewrite Hadd. unfold token_total, flow. case_decide; lia.
Qed.

Lemma withdraw_sound tok who n d : dex_ok d -> 0 <= n -> sound (flow tok (- n)) d (on_ledger (sub_balance tok who n) d).
Proof.
  intros [Hp Hl Hlp] Hn. unfold on_ledger, zoom. pose proof (sub_balance_cases tok who n (ledger d) Hl Hn) as H.
  destruct (sub_balance tok who n (ledger d)) as [[[]|e|] l']; [destruct H as (_ & Hl' & Ha)|destruct H as (_ & Hl' & _)|done].
  - apply (sound_pairs _ _ _ (pairs (pool_factory d))); [done|done|done|done|done|]. intros _ _ t. rewrite Ha.
    unfold token_total, flow. case_decide; lia.
  - by split.
Qed.

Lemma circuit_sound pid o d : dex_ok d -> (forall p, exists c, run_op o p = (Ok tt, set_circuit c p)) ->
  sound (fun _ => 0) d (on_pair pid (run_op o) d).
Proof.
  intros [Hp Hl Hlp] Ho. unfold on_pair, on_pairs, zoom. destruct (pairs (pool_factory d) !! pid) as [p|] eqn:Hpid; [|by split].
  destruct (Ho p) as [c ->]. simpl. destruct (Hp pid p Hpid) as [Hwf Hne].
  destruct (same_pools_insert pid p (set_circuit c p) _ Hp Hpid Hwf eq_refl eq_refl eq_refl) as (Hp' & Hh & Hi).
  apply (sound_pairs _ _ _ (<[pid := set_circuit c p]> (pairs (pool_factory d)))); [done|done|done|by eapply lp_ok_same|done|].
  intros _ _ tok. unfold token_total. rewrite Hh. simpl. lia.
Qed.

Lemma approve_same tok ow sp n ex l : let '(r, l') := approve tok ow sp n ex l in balances l' = balances l /\ r <> Panic.
Proof. unfold approve, mbind, M_bind, throw_if, modify. by repeat (case_match; simplify_eq). Qed.

Lemma run_dex_sound o d : dex_ok d -> dex_op_ok o -> sound (minted o d) d (run_dex o d).
Proof.
  intros Hd Ho. destruct o; simpl in Ho; cbn [run_dex minted].
  - by apply sound_unit, create_pool_sound.
  - by apply sound_unit, create_token_sound.
  - by apply sound_unit, buy_sound.
  - by apply sound_unit, add_sound.
  - by apply sound_unit, remove_sound.
  - apply ledger_sound; [done|]. pose proof (approve_same tok owner spender amount expire (ledger d)) as H.
    destruct (approve _ _ _ _ _ _) as [r l']. destruct H. by apply moved_same; [apply Hd| |].
  - apply ledger_sound; [done|]. apply transfer_from_moved; [apply Hd|apply Ho].
  - apply ledger_sound; [done|]. apply transfer_moved; [apply Hd|apply Ho].
  - destruct Hd as [Hp Hl Hlp]. unfold on_lp, zoom. pose proof (lp_transfer_ok _ _ pid from to amount Hlp ltac:(apply Ho)) as H.
    destruct (lp_transfer _ _ _ _ _) as [r l']. destruct H as [Hr Hlp'].
    apply (sound_pairs _ _ _ (pairs (pool_factory d))); [done|done|done|done|by destruct r|]. intros _ _ tok. unfold token_total. lia.
  - apply deposit_sound; [done|apply Ho].
  - apply withdraw_sound; [done|apply Ho].
  - apply circuit_sound; [done|]. intros p. by eexists.
  - apply circuit_sound; [done|]. intros p. by eexists.
Qed.

(** One operation, accepted or refused; a panic ends the program. *)
Definition dex_step (d d' : DexEngine) : Prop := exists o r, dex_op_ok o /\ run_dex o d = (r, d') /\ r <> Panic.

Lemma dex_new_ok : dex_ok dex_new.
Proof.
  split; simpl; [apply map_Forall_empty| |].
  - intros tok who. unfold balance_of. simpl. rewrite mval2_empty. by unfold in_range.
  - split.
    + intros pid who. unfold lp_balance. simpl. by rewrite mval2_empty.
    + intros pid. unfold lp_total_supply, issued. simpl. rewrite mval_empty. unfold row. rewrite !lookup_empty. by unfold in_range.
Qed.

Lemma dex_reachable d : star dex_step dex_new d -> dex_ok d.
Proof.
  apply star_invariant; [|apply dex_new_ok]. intros x y Hx (o & r & Ho & E & Hr).
  pose proof (run_dex_sound o x Hx Ho) as H. rewrite E in H. unfold sound in H. destruct r; [apply H|done|done].
Qed.

(** ** The properties *)


(** The shares of liquidity that the accounts hold are at all times, whatever
    was refused or transferred, exactly those the pair counts with: nobody can
    be paid out of shares that were not issued. *)
Theorem dex_shares_backed d pid : star dex_step dex_new d ->
  msum (row (lp_balances (lp_registry d)) pid) = issued pid (pairs (pool_factory d)) /\
  lp_total_supply pid (lp_registry d) = issued pid (pairs (pool_factory d)) /\
  forall who, 0 <= lp_balance pid who (lp_registry d) <= issued pid (pairs (pool_factory d)).
Proof.
  intros [Hp Hl Hlp]%dex_reachable. pose proof Hlp as [Hb Hs]. destruct (Hs pid) as (? & ? & _). split_and!; try done.
  intros who. split; [apply Hb|]. by apply (lp_balance_le _ _ pid who Hlp).
Qed.

(** A purchase pays exactly what was quoted, at least what was asked for, and
    no route that was considered would have paid more. *)
Theorem dex_buy_quoted d who ti to n mn dl now blk ev d' : star dex_step dex_new d -> in_range 128 n ->
  buy who ti to n mn dl now blk d = (Ok ev, d') ->
  (exists q, quote ti to n d = Some q /\ q_amount_out q = ev_amount_out ev /\ q_hops q = ev_hops ev /\ ev_hops ev <= 2) /\
  mn <= ev_amount_out ev /\ 0 < ev_amount_out ev /\
  forall r, r ∈ candidates ti to n (pairs (pool_factory d)) -> simulate (pairs (pool_factory d)) r <= ev_amount_out ev.
Proof.
  intros [Hp Hl Hlp]%dex_reachable Hn. unfold buy, mbind, M_bind, get_st, throw_if, lift_opt, ok_or, modify, mret, M_ret, quote.
  destruct (balance_of ti who (ledger d) <? n); [done|].
  destruct (find_best_route ti to n (pairs (pool_factory d))) as [route|] eqn:Hr; [|done].
  apply best_route_ok in Hr as (Hne & Hnz & (Hpath & Hrn & Hnil & Hnd & Hhops) & Hbest).
  unfold on_pairs, zoom at 1. unfold execute_route. rewrite Hrn.
  pose proof (execute_steps_cases (steps route) ti to mn dl now n 0 _ Hpath Hp Hn) as H.
  destruct (execute_steps _ _ _ _ _ _ _) as [[[out f]|e|] ps']; simpl; [|done|done].
  destruct H as (_ & _ & _ & _ & Hmin & Hsim). specialize (Hsim Hnd). destruct (Hmin Hnil) as [Hmn Hpos].
  unfold on_ledger, zoom. simpl. destruct (sub_balance ti who n (ledger d)) as [[u|e|] l1]; simpl; [|done|done].
  intros [= <- _]. simpl. assert (simulate (pairs (pool_factory d)) route = out) as Hso by (unfold simulate; by rewrite Hrn).
  split_and!; [|done| |].
  - exists (mkQuote n out (hops route) (sat 32 (10000 - u32 (impact_loop (steps route) (pairs (pool_factory d)) 10000 (route_in route))))).
    rewrite Hso. by rewrite (proj2 (Z.eqb_neq out 0)) by lia.
  - lia.
  - intros r Hin. rewrite <-Hso. by apply Hbest.
Qed.

(** A refused purchase takes nothing from anyone's account and pays nothing.
    The pairs are as they were when the route has one hop; with two, the first
    pair may have taken the tokens sold, which nobody paid, and lost the tokens
    it was to pass on. *)
Theorem dex_refused_buy d who ti to n mn dl now blk e d' : star dex_step dex_new d -> in_range 128 n ->
  buy who ti to n mn dl now blk d = (Err e, d') ->
  (forall tok a, balance_of tok a (ledger d') = balance_of tok a (ledger d)) /\
  exists b o, (b = ti /\ o = n \/ exists r, find_best_route ti to n (pairs (pool_factory d)) = Some r /\ hops r = 2) /\
    forall tok, token_total tok d' = token_total tok d + flow ti n tok - flow b o tok.
Proof.
  intros [Hp Hl Hlp]%dex_reachable Hn. unfold buy, mbind, M_bind, get_st, throw_if, lift_opt, ok_or, modify, mret, M_ret.
  assert (forall tok, token_total tok d = token_total tok d + flow ti n tok - flow ti n tok) as Hsame by (intros; lia).
  destruct (Z.ltb_spec (balance_of ti who (ledger d)) n) as [|Hbal]; [intros [= _ <-]; split; [done|]; exists ti, n; auto|].
  destruct (find_best_route ti to n (pairs (pool_factory d))) as [route|] eqn:Hr;
    [|intros [= _ <-]; split; [done|]; exists ti, n; auto].
  apply best_route_ok in Hr as Hr'. destruct Hr' as (Hne & Hnz & (Hpath & Hrn & _ & _ & Hhops) & _).
  unfold on_pairs, zoom at 1. unfold execute_route. rewrite Hrn.
  pose proof (execute_steps_cases (steps route) ti to mn dl now n 0 _ Hpath Hp Hn) as H.
  destruct (execute_steps _ _ _ _ _ _ _) as [[[out f]|e'|] ps']; simpl; [| |done].
  - unfold on_ledger, zoom. simpl. destruct (sub_balance_ok ti who n (ledger d) Hl) as (l1 & -> & _); [destruct Hn; lia|done].
  - destruct H as (_ & _ & b & o & Hbo & Hh). intros [= _ <-]. split; [done|]. exists b, o. split.
    + destruct Hbo as [Hbo|Hlen]; [by left|]. right. exists route. split; [done|]. unfold hops, zlen in *. lia.
    + intros tok. unfold token_total. simpl. rewrite Hh. lia.
Qed.
End engine.
