(* ===== verification/DexExample.v ===== *)
(** * A running exchange

    Pairs and an engine with three tokens, the theorems of Amm.v and
    DexCorrect.v at them, and runs that show where the exchange does not do
    what it means to. *)

From Stdlib Require Import ZArith Lia.
From stdpp Require Import base tactics list gmap numbers option.
From S2P Require Import Prelude Bytes Collections Amm Dex DexCorrect.

Local Open Scope Z_scope.

(** ** Pairs *)

Definition ta : Address := to_be 20 11.
Definition tb : Address := to_be 20 12.
Definition ab : PairId := pair_id ta tb.

Definition is_panic {E A} (r : res E A) : bool := match r with Panic => true | _ => false end.

Definition op_ok_b (o : PairOp) : bool :=
  let ok n := (0 <=? n) && (n <? 2 ^ 128) in
  match o with
  | OSwap s => ok (amount_in s) | OAdd a => ok (amount_a a) && ok (amount_b a) | ORemove x => ok (lp_amount x) | _ => true
  end.
Lemma op_ok_check o : op_ok_b o = true -> op_ok o.
Proof. destruct o; simpl; intros; bool_to_prop; unfold swap_ok, add_ok, remove_ok, in_range; lia. Qed.

Fixpoint run_ops (ops : list PairOp) (p : Pair) : option Pair :=
  match ops with
  | [] => Some p
  | o :: ops => let '(r, q) := run_op o p in if op_ok_b o && negb (is_panic r) then run_ops ops q else None
  end.
Lemma run_ops_star ops p q : run_ops ops p = Some q -> forall p0, star pair_step p0 p -> star pair_step p0 q.
Proof.
  revert p. induction ops as [|o ops IH]; intros p H p0 Hs; simpl in H; [by injection H as <-|].
  destruct (run_op o p) as [r q'] eqn:E. destruct (op_ok_b o && negb (is_panic r)) eqn:Hok; [|done]. bool_to_prop.
  apply (IH q' H). eapply star_snoc; [done|]. exists o, r. split_and!; [by apply op_ok_check|done|by destruct r].
Qed.

Definition deposit (a b : Z) : AddLiquidityParams := mkAdd a b 0 10 5.
Definition sell_a (n : Z) : SwapParams := mkSwap true n 1 10 0 5.
Definition sell_b (n : Z) : SwapParams := mkSwap false n 1 10 0 5.
Definition withdraw (n : Z) : RemoveLiquidityParams := mkRemove n 0 0 10 5.

Definition opening : list PairOp := [OAdd (deposit (10 ^ 9) (4 * 10 ^ 9)); OSwap (sell_a (10 ^ 7))].
Definition got_pair (o : option Pair) : Pair := default (pair_new ab Standard) o.
Definition pair1 : Pair := got_pair (run_ops opening (pair_new ab Standard)).
Definition pair2 : Pair := snd (swap (sell_b (10 ^ 6)) pair1).

Lemma pair1_reached : star pair_step (pair_new ab Standard) pair1.
Proof. eapply (run_ops_star opening (pair_new ab Standard)); [by vm_compute|apply star_refl]. Qed.

Abbreviation sold := (mkSwapResult 254188 2400 600 1009745812 3961513679).
Lemma sold_ok : swap (sell_b (10 ^ 6)) pair1 = (Ok sold, pair2).
Proof. vm_compute. reflexivity. Qed.

Lemma amm_swap_exact_witness : swapped (sell_b (10 ^ 6)) pair1 sold pair2.
Proof.
  pose proof (amm_swap_exact ab Standard pair1 (sell_b (10 ^ 6)) pair1_reached) as H.
  rewrite sold_ok in H. apply H. by apply (op_ok_check (OSwap _)).
Defined.

Lemma pair2_swapped : star swap_step pair1 pair2.
Proof.
  eapply star_snoc; [apply star_refl|]. exists (sell_b (10 ^ 6)), (Ok sold). split; [by apply (op_ok_check (OSwap _))|apply sold_ok].
Qed.

Lemma amm_no_arbitrage_witness : reserve_a pair1 * reserve_b pair1 <= reserve_a pair2 * reserve_b pair2.
Proof. destruct (amm_no_arbitrage ab Standard pair1 pair2 pair1_reached pair2_swapped) as (_ & H & _). exact H. Defined.

(** A deposit of 1000 of either token, and the withdrawal of its shares. *)
Definition pair3 : Pair := snd (add_liquidity (deposit 1000 1000) pair1).
Lemma deposit_runs : add_liquidity (deposit 1000 1000) pair1 = (Ok (mkAddResult 504 254 998), pair3).
Proof. vm_compute. reflexivity. Qed.
Lemma withdraw_runs : remove_liquidity (withdraw 504) pair3 = (Ok (mkRemoveResult 254 998), snd (remove_liquidity (withdraw 504) pair3)).
Proof. vm_compute. reflexivity. Qed.

Lemma amm_liquidity_fair_witness : 254 <= 1000 /\ out_a (mkRemoveResult 254 998) <= used_a (mkAddResult 504 254 998).
Proof.
  destruct (amm_liquidity_fair ab Standard pair1 pair1_reached) as [H _].
  destruct (H (deposit 1000 1000) _ _ ltac:(by apply (op_ok_check (OAdd _))) deposit_runs) as (Hu & _ & _ & Hr). split; [exact Hu|].
  destruct (Hr (withdraw 504) _ _ ltac:(by apply (op_ok_check (ORemove _))) (Z.le_refl 504) withdraw_runs) as [Ha _]. exact Ha.
Defined.

(** ** What the pair loses *)

(** A first deposit whose product is the largest integer divides by zero, with
    the pair locked. *)
Lemma first_deposit_panics :
  fst (add_liquidity (deposit (2 ^ 64 - 1) (2 ^ 64 + 1)) (pair_new ab Standard)) = Panic.
Proof. vm_compute. reflexivity. Qed.

(** The 1000 shares kept back are nobody's: the first depositor can withdraw
    everything, and no liquidity stays. *)
Lemma min_liquidity_not_locked :
  let '(r, p) := add_liquidity (deposit (10 ^ 6) (10 ^ 6)) (pair_new ab Standard) in
  let '(r', q) := remove_liquidity (withdraw 999000) p in
  r = Ok (mkAddResult 999000 (10 ^ 6) (10 ^ 6)) /\ r' = Ok (mkRemoveResult (10 ^ 6) (10 ^ 6)) /\ reserve_a q = 0 /\ total_lp q = 0.
Proof. vm_compute. done. Qed.

(** A swap refused because the product would not fit has counted its fee. *)
Lemma refused_swap_counts_fee :
  let p := got_pair (run_ops [OAdd (deposit (2 ^ 64 - 1) (2 ^ 64 - 1))] (pair_new ab Standard)) in
  let '(r, q) := swap (sell_a (10 ^ 15)) p in r = Err InvariantOverflow /\ fee_a p = 0 /\ fee_a q = 6 * 10 ^ 11.
Proof. vm_compute. done. Qed.

(** A deviation of 2^32 basis points is cut to none. *)
Lemma oracle_check_wraps : check_oracle_deviation (10000 + 2 ^ 32) 10000 = Ok tt.
Proof. vm_compute. reflexivity. Qed.

(** ** The engine *)

Definition toy_sha3 : bytes -> bytes := fun b => reverse b.
Definition alice : Address := to_be 20 1.
Definition bob : Address := to_be 20 2.

Definition dex_op_ok_b (o : DexOp) : bool :=
  let ok n := (0 <=? n) && (n <? 2 ^ 128) in
  match o with
  | DCreateToken p => 0 <=? c_total_supply p
  | DBuy _ _ _ n _ _ _ _ => ok n
  | DAdd _ _ _ a _ => ok (amount_a a) && ok (amount_b a)
  | DRemove _ _ _ x => ok (lp_amount x)
  | DTransferFrom _ _ _ _ n _ | DTransfer _ _ _ n | DLpTransfer _ _ _ n | DDeposit _ _ n | DWithdraw _ _ n => ok n
  | _ => true
  end.
Lemma dex_op_ok_check o : dex_op_ok_b o = true -> dex_op_ok o.
Proof. destruct o; simpl; intros; bool_to_prop; unfold add_ok, remove_ok, in_range; auto; lia. Qed.

Fixpoint run_dex_ops (ops : list DexOp) (d : DexEngine) : option DexEngine :=
  match ops with
  | [] => Some d
  | o :: ops => let '(r, d') := run_dex toy_sha3 o d in if dex_op_ok_b o && negb (is_panic r) then run_dex_ops ops d' else None
  end.
Lemma run_dex_ops_star ops d d' : run_dex_ops ops d = Some d' ->
  forall d0, star (dex_step toy_sha3) d0 d -> star (dex_step toy_sha3) d0 d'.
Proof.
  revert d. induction ops as [|o ops IH]; intros d H d0 Hs; simpl in H; [by injection H as <-|].
  destruct (run_dex toy_sha3 o d) as [r d1] eqn:E. destruct (dex_op_ok_b o && negb (is_panic r)) eqn:Hok; [|done]. bool_to_prop.
  apply (IH d1 H). eapply star_snoc; [done|]. exists o, r. split_and!; [by apply dex_op_ok_check|done|by destruct r].
Qed.

(** Alice brings three tokens and opens two pairs with [wzbx] in common; Bob
    has one of them. *)
Definition e18 : Z := 10 ^ 18.
Definition tz : Address := to_be 20 99.
Definition setup : list DexOp :=
  [DDeposit ta alice (10 ^ 9); DDeposit wzbx alice (10 ^ 9); DDeposit tz alice (10 ^ 9); DDeposit ta bob (10 ^ 6);
   DCreatePool ta wzbx Standard alice (1000 * e18) 1; DCreatePool wzbx tz High alice (1000 * e18) 1;
   DAdd alice wzbx ta (deposit (10 ^ 8) (10 ^ 8)) 1; DAdd alice wzbx tz (deposit (10 ^ 8) (10 ^ 8)) 1].
Definition dex1 : DexEngine := default dex_new (run_dex_ops setup dex_new).
Lemma setup_runs : is_Some (run_dex_ops setup dex_new).
Proof. vm_compute. eauto. Qed.
Lemma dex1_reached : star (dex_step toy_sha3) dex_new dex1.
Proof.
  destruct setup_runs as [d Hd]. unfold dex1. rewrite Hd. eapply run_dex_ops_star; [exact Hd|apply star_refl].
Qed.

Definition purchase : DexOp := DBuy bob ta tz (10 ^ 6) 1 10 5 7.
Definition dex2 : DexEngine := snd (run_dex toy_sha3 purchase dex1).
Lemma purchase_runs : run_dex toy_sha3 purchase dex1 = (Ok tt, dex2).
Proof. vm_compute. reflexivity. Qed.

(** Totals fit when those of the tokens there are fit. *)
Definition tokens_of (d : DexEngine) : list Address :=
  (map_to_list (balances (ledger d))).*1 ++ concat (map (fun '(pid, _) => [token_a pid; token_b pid]) (map_to_list (pairs (pool_factory d)))).
Lemma total_bound d : forallb (fun t => token_total t d <? 2 ^ 128) (tokens_of d) = true ->
  forall tok, token_total tok d + 0 < 2 ^ 128.
Proof.
  intros Hb tok. destruct (decide (tok ∈ tokens_of d)) as [Hin|Hnin].
  - rewrite forallb_forall in Hb. apply list_elem_of_In in Hin. specialize (Hb tok Hin). bool_to_prop. lia.
  - unfold tokens_of in Hnin. rewrite elem_of_app in Hnin. unfold token_total, accounts.
    assert (balances (ledger d) !! tok = None) as Hnone.
    { destruct (balances (ledger d) !! tok) as [m|] eqn:Hm; [|done]. exfalso. apply Hnin. left.
      apply list_elem_of_fmap. exists (tok, m). split; [done|]. by apply elem_of_map_to_list. }
    unfold row. rewrite Hnone. simpl. change (msum ∅) with 0. enough (pool_holding tok (pairs (pool_factory d)) = 0) by lia.
    assert (map_Forall (fun pid (_ : Pair) => token_a pid <> tok /\ token_b pid <> tok) (pairs (pool_factory d))) as Hall.
    { intros pid p Hp. assert (forall t, t ∈ [token_a pid; token_b pid] -> t <> tok) as Hne; [|by split; apply Hne; set_solver].
      intros t Ht ->. apply Hnin. right. apply list_elem_of_In, in_concat. exists [token_a pid; token_b pid]. split; [|by apply list_elem_of_In].
      apply in_map_iff. exists (pid, p). split; [done|]. apply list_elem_of_In. by apply elem_of_map_to_list. }
    revert Hall. generalize (pairs (pool_factory d)). intros ps. unfold pool_holding.
    induction ps as [|pid p ps Hp IH] using map_ind; intros Hall; [done|]. apply map_Forall_insert in Hall as [[Ha Hb'] Hall]; [|done].
    rewrite wsum_insert_new, IH by done. unfold reserve_of. by repeat case_decide.
Qed.


Lemma dex_shares_backed_witness : lp_balance (pair_id ta wzbx) alice (lp_registry dex1) <= issued (pair_id ta wzbx) (pairs (pool_factory dex1)).
Proof. destruct (dex_shares_backed toy_sha3 dex1 (pair_id ta wzbx) dex1_reached) as (_ & _ & H). apply H. Defined.

Abbreviation bought := (mkSwapEvent bob ta tz (10 ^ 6) 967827 2 2574 7).
Lemma buy_runs : buy bob ta tz (10 ^ 6) 1 10 5 7 dex1 = (Ok bought, dex2).
Proof. vm_compute. reflexivity. Qed.

Lemma dex_buy_quoted_witness : 1 <= ev_amount_out bought.
Proof.
  destruct (dex_buy_quoted toy_sha3 dex1 bob ta tz (10 ^ 6) 1 10 5 7 bought dex2 dex1_reached) as (_ & H & _);
    [unfold in_range; lia|exact buy_runs|exact H].
Defined.

(** A purchase whose second hop pays too little. *)
Definition dex3 : DexEngine := snd (buy bob ta tz (10 ^ 6) (10 ^ 9) 10 5 7 dex1).
Lemma refused_runs : buy bob ta tz (10 ^ 6) (10 ^ 9) 10 5 7 dex1 = (Err (OfAmm (SlippageExceeded 967827 (10 ^ 9))), dex3).
Proof. vm_compute. reflexivity. Qed.

Lemma dex_refused_buy_witness : balance_of ta bob (ledger dex3) = balance_of ta bob (ledger dex1).
Proof.
  destruct (dex_refused_buy toy_sha3 dex1 bob ta tz (10 ^ 6) (10 ^ 9) 10 5 7 (OfAmm (SlippageExceeded 967827 (10 ^ 9))) dex3 dex1_reached) as [H _];
    [unfold in_range; lia|exact refused_runs|apply H].
Defined.

(** ** What the engine loses *)

(** The refused purchase has created a million of one token and destroyed as
    much of the other as the first hop paid. *)
Lemma refused_purchase_unbalances :
  map (fun t => token_total t dex3 - token_total t dex1) [ta; wzbx; tz] = [10 ^ 6; - 987158; 0].
Proof. vm_compute. reflexivity. Qed.

(** A deposit's amounts go with the tokens' canonical order, not the caller's:
    here 100 of [tz] and 7000 of [ta] were offered. *)
Lemma deposit_order_ignored :
  let d := default dex1 (run_dex_ops [DCreatePool ta tz Standard alice (1000 * e18) 1] dex1) in
  let '(r, d') := dex_add_liquidity alice tz ta (deposit 1000 7000) 1 d in
  is_ok r = true /\ balance_of tz alice (ledger d) - balance_of tz alice (ledger d') = 7000 /\
  balance_of ta alice (ledger d) - balance_of ta alice (ledger d') = 1000.
Proof. vm_compute. done. Qed.

(** A transfer that fails for lack of funds has used up the allowance. *)
Lemma failed_transfer_spends_allowance :
  let d := snd (run_dex toy_sha3 (DApprove ta bob alice (2 * 10 ^ 6) 0) dex1) in
  let '(r, d') := run_dex toy_sha3 (DTransferFrom ta bob tz alice (2 * 10 ^ 6) 1) d in
  is_ok r = false /\ allowance ta bob alice 1 (ledger d) = 2 * 10 ^ 6 /\ allowance ta bob alice 1 (ledger d') = 0.
Proof. vm_compute. done. Qed.

(** The controls of a token do not reach the ledger: a frozen account of a
    paused token sends its tokens. *)
Definition coin : CreateTokenParams := mkCreate [67] [67] 18 1000 10 true alice (1000 * e18) 1 None.
Definition coin_addr : Address := derive_token_address toy_sha3 alice 0.
Lemma frozen_account_transfers :
  let d := snd (run_dex toy_sha3 (DCreateToken coin) dex1) in
  let '(r1, f1) := freeze_account coin_addr alice alice (token_factory d) in
  let '(r2, f2) := pause_token coin_addr alice (1000 * e18) f1 in
  let '(r, d') := run_dex toy_sha3 (DTransfer coin_addr alice bob 1000) (set_token_factory f2 d) in
  r1 = Ok tt /\ r2 = Ok tt /\ r = Ok tt /\ balance_of coin_addr bob (ledger d') = 1000.
Proof. vm_compute. done. Qed.

(** The initial supply of that token is a hundred times its maximum. *)
Lemma initial_supply_uncapped :
  let f := token_factory (snd (run_dex toy_sha3 (DCreateToken coin) dex1)) in
  exists t, tokens f !! coin_addr = Some t /\ total_supply t = 1000 /\ max_supply t = 10.
Proof. eexists. split; [vm_compute; reflexivity|done]. Qed.

(** Anyone who calls as the zero address governs the default fees. *)
Lemma zero_address_governs : fst (update_pool_creation_fee zero_address 0 fees_default) = Ok tt.
Proof. reflexivity. Qed.
