(* ===== verification/Mempool.v ===== *)
(** * The transaction pool (crates/zbx-mempool: pool.rs, nonce_tracker.rs, error.rs)

    Admission, replacement, promotion of queued transactions, selection for a
    block and pruning after it.  Logging is left out. *)

From Stdlib Require Import ZArith Lia.
From stdpp Require Import base tactics list gmap countable numbers option fin_map_dom.
From S2P Require Import Prelude Bytes Collections Rlp TrieNode TrieRepr Transaction Block.

Local Open Scope Z_scope.

(** ** Errors *)

Inductive SignatureFault : Type :=
| HashMismatch
| SigParse (e : SigError)
| RecoverFailed (e : SignatureError)
| SignerMismatch (recovered from : Address).

Inductive MempoolError : Type :=
| AlreadyKnown (h : H256)
| NonceTooLow (addr : Address) (expected got : Z)
| InsufficientBalance (balance cost : Z)
| GasLimitTooHigh (gas block_limit : Z)
| FeeTooLow (tip min : Z)
| PendingFull (n : Z)
| QueuedFull (n : Z)
| InvalidSignature (f : SignatureFault)
| TooManySlotsPerSender (addr : Address) (slots max : Z)
| CumulativeBalanceExceeded (addr : Address) (reserved balance : Z)
| ReplacementUnderpriced (addr : Address) (nonce new_tip required : Z)
| IntrinsicGasTooLow (addr : Address) (gas intrinsic : Z)
| NonceGapTooLarge (addr : Address) (nonce on_chain max_gap : Z).

(** ** The nonce tracker (nonce_tracker.rs) *)

Record NonceTracker : Type := mkTracker { on_chain : gmap Address Z; pending_max : gmap Address Z }.
Definition tracker_new : NonceTracker := mkTracker ∅ ∅.

Definition set_on_chain (addr : Address) (nonce : Z) (t : NonceTracker) : NonceTracker :=
  mkTracker (<[addr := nonce]> (on_chain t))
    (match pending_max t !! addr with
     | Some max => if max <=? nonce then delete addr (pending_max t) else pending_max t
     | None => pending_max t
     end).
Definition on_chain_nonce (addr : Address) (t : NonceTracker) : Z := default 0 (on_chain t !! addr).
Definition next_nonce (addr : Address) (t : NonceTracker) : Z :=
  match pending_max t !! addr with Some n => u64 (n + 1) | None => on_chain_nonce addr t end.
Definition record_pending (addr : Address) (nonce : Z) (t : NonceTracker) : NonceTracker :=
  let entry := default 0 (pending_max t !! addr) in
  mkTracker (on_chain t) (<[addr := if entry <? nonce then nonce else entry]> (pending_max t)).
Definition remove_pending (addr : Address) (t : NonceTracker) : NonceTracker :=
  mkTracker (on_chain t) (delete addr (pending_max t)).

(** ** The pool (pool.rs) *)

Record MempoolConfig : Type := mkPoolConfig {
  max_pending : Z; max_queued : Z; min_gas_tip : Z; max_tx_size : Z; max_slots_per_sender : Z; max_nonce_gap : Z }.
Definition config_default : MempoolConfig := mkPoolConfig 5000 2000 1000000 (128 * 1024) 64 256.

Record PendingSlot : Type := mkSlot { slot_tx : SignedTransaction; priority : Z }.

Abbreviation Key := (Address * Z)%type.

Record TransactionPool : Type := mkPool {
  config : MempoolConfig;
  pending : gmap Key PendingSlot;
  queued : gmap Key SignedTransaction;
  known : gmap H256 Key;
  tracker : NonceTracker;
  base_fee : Z }.

Definition pool_new (c : MempoolConfig) : TransactionPool := mkPool c ∅ ∅ ∅ tracker_new 1000000000.

Definition set_tracker (t : NonceTracker) (p : TransactionPool) : TransactionPool :=
  mkPool (config p) (pending p) (queued p) (known p) t (base_fee p).
Definition set_known (k : gmap H256 Key) (p : TransactionPool) : TransactionPool :=
  mkPool (config p) (pending p) (queued p) k (tracker p) (base_fee p).
Definition set_pending (m : gmap Key PendingSlot) (p : TransactionPool) : TransactionPool :=
  mkPool (config p) m (queued p) (known p) (tracker p) (base_fee p).
Definition set_queued (m : gmap Key SignedTransaction) (p : TransactionPool) : TransactionPool :=
  mkPool (config p) (pending p) m (known p) (tracker p) (base_fee p).

Definition pending_count (p : TransactionPool) : Z := Z.of_nat (size (pending p)).
Definition queued_count (p : TransactionPool) : Z := Z.of_nat (size (queued p)).
Definition total_count (p : TransactionPool) : Z := pending_count p + queued_count p.

Definition update_base_fee (header : BlockHeader) (p : TransactionPool) : TransactionPool :=
  mkPool (config p) (pending p) (queued p) (known p) (tracker p) (base_fee_per_gas header).

Definition value_u128 (v : Z) : Z := if v <? 2 ^ 128 then v else umax 128.
Definition slot_cost (t : SignedTransaction) : Z :=
  let max_cost := sat 128 (max_fee_per_gas (tx t) * Transaction.gas_limit (tx t)) in
  sat 128 (max_cost + value_u128 (tx_value (tx t))).
(** The closure of [sender_cumulative_cost] and the cost check: a plain product. *)
Definition cost_of (t : SignedTransaction) : Z :=
  let max_cost := u128 (max_fee_per_gas (tx t) * Transaction.gas_limit (tx t)) in
  sat 128 (max_cost + value_u128 (tx_value (tx t))).

Definition sender_slot_count (addr : Address) (p : TransactionPool) : Z :=
  Z.of_nat (size (filter (fun kv => kv.1.1 = addr) (pending p))) +
  Z.of_nat (size (filter (fun kv => kv.1.1 = addr) (queued p))).

Definition add_costs {A} (cost : A -> Z) (addr : Address) (m : gmap Key A) (total : Z) : Z :=
  foldl (fun total kv => if bool_decide (kv.1.1 = addr) then sat 128 (total + cost kv.2) else total) total (map_to_list m).
Definition sender_cumulative_cost (addr : Address) (p : TransactionPool) : Z :=
  add_costs cost_of addr (queued p) (add_costs (fun s => cost_of (slot_tx s)) addr (pending p) 0).

(** The tip per gas above the base fee. *)
Definition tip_at (base_fee : Z) (t : SignedTransaction) : Z := sat 64 (effective_gas_price t base_fee - base_fee).

(** ** Promotion *)

Definition promote_one (addr : Address) (p : TransactionPool) : option TransactionPool :=
  let expected := next_nonce addr (tracker p) in
  match queued p !! (addr, expected) with
  | Some t =>
    Some (mkPool (config p) (<[(addr, expected) := mkSlot t (tip_at (base_fee p) t)]> (pending p))
            (delete (addr, expected) (queued p)) (known p) (record_pending addr expected (tracker p)) (base_fee p))
  | None => None
  end.

Definition MAX_PROMOTE_PER_CALL : nat := 256.
Fixpoint promote_loop (n : nat) (addr : Address) (p : TransactionPool) : TransactionPool :=
  match n with
  | O => p
  | S n => match promote_one addr p with Some p => promote_loop n addr p | None => p end
  end.
Definition promote_queued (addr : Address) (p : TransactionPool) : TransactionPool :=
  promote_loop MAX_PROMOTE_PER_CALL addr p.

(** ** Pruning and selection *)

Definition remove_one (p : TransactionPool) (t : SignedTransaction) : TransactionPool :=
  let key := (tx_from t, tx_nonce (tx t)) in
  mkPool (config p) (delete key (pending p)) (delete key (queued p)) (delete (tx_hash t) (known p))
    (set_on_chain (tx_from t) (u64 (tx_nonce (tx t) + 1)) (tracker p)) (base_fee p).
Definition remove_confirmed (txs : list SignedTransaction) (p : TransactionPool) : TransactionPool :=
  foldl (fun p addr => promote_queued addr p) (foldl remove_one p txs) (map tx_from txs).

(** [sort_by] is stable: a slot goes before those of no larger priority that
    come after it. *)
Fixpoint insert_slot (s : PendingSlot) (l : list PendingSlot) : list PendingSlot :=
  match l with
  | [] => [s]
  | x :: l => if priority x <=? priority s then s :: x :: l else x :: insert_slot s l
  end.
Definition sort_slots (l : list PendingSlot) : list PendingSlot := foldr insert_slot [] l.

Fixpoint take_fitting (gas_limit total_gas : Z) (l : list PendingSlot) : list SignedTransaction :=
  match l with
  | [] => []
  | s :: l =>
    let gas := Transaction.gas_limit (tx (slot_tx s)) in
    if gas_limit <? u64 (total_gas + gas) then take_fitting gas_limit total_gas l
    else slot_tx s :: take_fitting gas_limit (u64 (total_gas + gas)) l
  end.
(** [slots] are the values of [pending] as the hash map lists them. *)
Definition select_transactions (slots : list PendingSlot) (gas_limit : Z) : list SignedTransaction :=
  take_fitting gas_limit 0 (sort_slots slots).

(** ** Admission *)

(** The tip that a replacement has to beat, when there is something to replace. *)
Definition prior_tip (key : Key) (p : TransactionPool) : option Z :=
  match pending p !! key with
  | Some slot => Some (priority slot)
  | None => tip_at (base_fee p) <$> queued p !! key
  end.
Definition required_tip (old : Z) : Z := u64 (sat 64 (old * 1125) / 1000 + 1).

Definition is_replacement (key : Key) (p : TransactionPool) : bool :=
  bool_decide (is_Some (pending p !! key)) || bool_decide (is_Some (queued p !! key)).

Definition forget_replaced (key : Key) (p : TransactionPool) : gmap H256 Key :=
  let k1 := match pending p !! key with Some slot => delete (tx_hash (slot_tx slot)) (known p) | None => known p end in
  match queued p !! key with Some old => delete (tx_hash old) k1 | None => k1 end.

Section pool.
Context (keccak : bytes -> H256) `{RC : RlpCrate} `{EC : Secp256k1}.

(** The checks that only read the transaction; returns its tip and its cost. *)
Definition check_transaction (t : SignedTransaction) (sender_balance : Z) (p : TransactionPool) : res MempoolError (Z * Z) :=
  let hash := tx_hash t in
  _ ← guard_err (bool_decide (is_Some (known p !! hash))) (AlreadyKnown hash);
  _ ← guard_err (negb (verify_hash keccak t)) (InvalidSignature HashMismatch);
  let signing := signing_hash keccak (tx t) in
  crypto_sig ← map_err (fun e => InvalidSignature (SigParse e)) (sig_parse (sig_to_bytes (sig t)));
  recovered ← map_err (fun e => InvalidSignature (RecoverFailed e)) (recover_signer keccak signing crypto_sig);
  _ ← guard_err (negb (bool_decide (recovered = tx_from t))) (InvalidSignature (SignerMismatch recovered (tx_from t)));
  let gas := Transaction.gas_limit (tx t) in
  _ ← guard_err (BLOCK_GAS_LIMIT <? gas) (GasLimitTooHigh gas BLOCK_GAS_LIMIT);
  let tip := tip_at (base_fee p) t in
  _ ← guard_err (tip <? min_gas_tip (config p)) (FeeTooLow tip (min_gas_tip (config p)));
  let intrinsic := intrinsic_gas (tx t) in
  _ ← guard_err (gas <? intrinsic) (IntrinsicGasTooLow (tx_from t) gas intrinsic);
  let total_cost := cost_of t in
  _ ← guard_err (sender_balance <? total_cost) (InsufficientBalance sender_balance total_cost);
  Ok (tip, total_cost).

(** The checks against the sender's other transactions. *)
Definition check_slot (t : SignedTransaction) (tip total_cost sender_balance sender_on_chain_nonce : Z)
    (p : TransactionPool) : res MempoolError unit :=
  let addr := tx_from t in
  let nonce := tx_nonce (tx t) in
  let key := (addr, nonce) in
  _ ← guard_err (nonce <? sender_on_chain_nonce) (NonceTooLow addr sender_on_chain_nonce nonce);
  let gap := sat 64 (nonce - sender_on_chain_nonce) in
  let max_gap := max_nonce_gap (config p) in
  _ ← guard_err (max_gap <? gap) (NonceGapTooLarge addr nonce sender_on_chain_nonce max_gap);
  let used := sender_slot_count addr p in
  let max := max_slots_per_sender (config p) in
  _ ← guard_err (negb (is_replacement key p) && (max <=? used)) (TooManySlotsPerSender addr (used + 1) max);
  let other_reserved := sender_cumulative_cost addr p in
  let other_reserved :=
    match pending p !! key with
    | Some slot => sat 128 (other_reserved - slot_cost (slot_tx slot))
    | None =>
      match queued p !! key with
      | Some old => sat 128 (other_reserved - slot_cost old)
      | None => other_reserved
      end
    end in
  let projected := sat 128 (other_reserved + total_cost) in
  _ ← guard_err (sender_balance <? projected) (CumulativeBalanceExceeded addr projected sender_balance);
  match prior_tip key p with
  | Some old => guard_err (tip <? required_tip old) (ReplacementUnderpriced addr nonce tip (required_tip old))
  | None => Ok tt
  end.

(** Placing an admitted transaction. *)
Definition place_transaction (t : SignedTransaction) (tip expected : Z) : M TransactionPool MempoolError H256 :=
  let hash := tx_hash t in
  let addr := tx_from t in
  let nonce := tx_nonce (tx t) in
  let key := (addr, nonce) in
  p ← get_st;
  let replacement := is_replacement key p in
  _ ← put_st (set_known (<[hash := key]> (forget_replaced key p)) p);
  p ← get_st;
  if nonce =? expected then
    _ ← (if negb replacement && (max_pending (config p) <=? pending_count p) then
           _ ← put_st (set_known (delete hash (known p)) p);
           throw (PendingFull (pending_count p))
         else mret tt);
    _ ← modify (fun p => set_tracker (record_pending addr nonce (tracker p)) p);
    _ ← modify (fun p => set_pending (<[key := mkSlot t tip]> (pending p)) p);
    _ ← modify (promote_queued addr);
    mret hash
  else
    _ ← (if negb replacement && (max_queued (config p) <=? queued_count p) then
           _ ← put_st (set_known (delete hash (known p)) p);
           throw (QueuedFull (queued_count p))
         else mret tt);
    _ ← modify (fun p => set_queued (<[key := t]> (queued p)) p);
    mret hash.

Definition add_transaction (t : SignedTransaction) (sender_balance sender_on_chain_nonce : Z)
    : M TransactionPool MempoolError H256 :=
  p ← get_st;
  '(tip, total_cost) ← lift (check_transaction t sender_balance p);
  let addr := tx_from t in
  _ ← modify (fun p => set_tracker (set_on_chain addr sender_on_chain_nonce (tracker p)) p);
  p ← get_st;
  let expected := next_nonce addr (tracker p) in
  _ ← lift (check_slot t tip total_cost sender_balance sender_on_chain_nonce p);
  place_transaction t tip expected.
End pool.
