(* ===== verification/MempoolCorrect.v ===== *)
(** * The transaction pool keeps its promises (proofs about Mempool.v)

    What gets in, what a refusal leaves behind, how queued transactions become
    pending and what a block is filled with. *)

From Stdlib Require Import ZArith Lia Sorting.Sorted.
From stdpp Require Import base tactics list gmap countable numbers option fin_map_dom fin_sets.
From S2P Require Import Prelude Bytes Collections Rlp TrieNode TrieRepr Transaction Block Mempool.

Local Open Scope Z_scope.

(** ** What transactions reserve *)

(** Exact, without saturation. *)
Definition reserved (addr : Address) (p : TransactionPool) : Z :=
  wsum (fun k s => if decide (k.1 = addr) then cost_of (slot_tx s) else 0) (pending p) +
  wsum (fun k t => if decide (k.1 = addr) then cost_of t else 0) (queued p).

Lemma cost_of_nonneg t : 0 <= cost_of t.
Proof. unfold cost_of, sat. lia. Qed.

Lemma slot_cost_eq t : tx_ok (tx t) -> slot_cost t = cost_of t.
Proof.
  intros [_ _ Hf Hg _ _]. unfold slot_cost, cost_of.
  assert (in_range 128 (max_fee_per_gas (tx t) * Transaction.gas_limit (tx t))) as Hp.
  { unfold in_range in *. change (2 ^ 128) with (2 ^ 64 * 2 ^ 64). split; [|apply Z.mul_lt_mono_nonneg]; lia. }
  by rewrite (sat_small 128 (max_fee_per_gas _ * _)), (wrap_small 128 (max_fee_per_gas _ * _)).
Qed.

Lemma add_costs_spec {A} (cost : A -> Z) (addr : Address) (m : gmap Key A) total : (forall x, 0 <= cost x) -> 0 <= total ->
  add_costs cost addr m (Z.min total (umax 128)) =
    Z.min (total + wsum (fun k v => if decide (k.1 = addr) then cost v else 0) m) (umax 128).
Proof.
  intros Hc. unfold add_costs, wsum. rewrite map_fold_foldr. generalize (map_to_list m). intros l. revert total.
  induction l as [|[k v] l IH]; intros total Ht; simpl; [f_equal; lia|]. pose proof (Hc v).
  destruct (decide (k.1 = addr)) as [Hd|Hd].
  - rewrite bool_decide_eq_true_2 by done. replace (sat 128 (Z.min total (umax 128) + cost v)) with (Z.min (total + cost v) (umax 128))
      by (unfold sat, umax; lia). rewrite IH by lia. f_equal. lia.
  - rewrite bool_decide_eq_false_2 by done. by rewrite IH.
Qed.

Lemma cumulative_cost addr p : sender_cumulative_cost addr p = Z.min (reserved addr p) (umax 128).
Proof.
  unfold sender_cumulative_cost, reserved. change 0 with (Z.min 0 (umax 128)) at 1.
  assert (forall x, 0 <= cost_of (slot_tx x)) as Hc by (intros; apply cost_of_nonneg).
  rewrite (add_costs_spec (fun s => cost_of (slot_tx s))) by (done || lia). apply add_costs_spec; [apply cost_of_nonneg|].
  apply wsum_nonneg. intros k v _. case_decide; [done|lia].
Qed.

(** ** Slots of a sender *)

Definition slots_of (addr : Address) (p : TransactionPool) : gset Key :=
  filter (fun k => k.1 = addr) (dom (pending p) ∪ dom (queued p)).

Lemma size_filter_dom {A} (addr : Address) (m : gmap Key A) :
  size (filter (fun k : Key => k.1 = addr) (dom m)) = size (filter (fun kv => kv.1.1 = addr) m).
Proof.
  rewrite <-(size_dom (D := gset Key) (filter _ m)). f_equal. apply set_eq. intros k.
  rewrite elem_of_filter, !elem_of_dom. split.
  - intros [Hk [v Hv]]. exists v. by apply map_lookup_filter_Some.
  - intros [v [Hv Hk]%map_lookup_filter_Some]. eauto.
Qed.

Lemma slots_counted addr p : Z.of_nat (size (slots_of addr p)) <= sender_slot_count addr p.
Proof.
  unfold slots_of, sender_slot_count. rewrite <-!size_filter_dom.
  set (X := filter _ (dom (pending p))). set (Y := filter _ (dom (queued p))).
  assert (filter (fun k : Key => k.1 = addr) (dom (pending p) ∪ dom (queued p)) = X ∪ Y) as -> by (unfold X, Y; set_solver).
  assert (size (X ∪ Y) = size X + size (Y ∖ X))%nat as -> by apply size_union_alt.
  assert (size (Y ∖ X) <= size Y)%nat by (apply subseteq_size; set_solver). lia.
Qed.

(** ** Promotion *)

Section tracker.
Context (addr : Address).

Lemma next_after_record e t : 0 <= e < 2 ^ 64 - 1 -> next_nonce addr t = e -> (forall m, pending_max t !! addr = Some m -> 0 <= m < 2 ^ 64 - 1) ->
  next_nonce addr (record_pending addr e t) = e + 1 /\ pending_max (record_pending addr e t) !! addr = Some e.
Proof.
  intros He Hn Hm. unfold next_nonce, record_pending in *. simpl. rewrite lookup_insert_eq.
  destruct (pending_max t !! addr) as [m|] eqn:E; simpl.
  - specialize (Hm m eq_refl). rewrite wrap_small in Hn by (unfold in_range; lia).
    destruct (Z.ltb_spec m e); [|lia]. rewrite wrap_small by (unfold in_range; lia). done.
  - destruct (Z.ltb_spec 0 e); [|replace e with 0 by lia]; rewrite wrap_small by (unfold in_range; lia); done.
Qed.

Lemma next_other e t a : a <> addr -> next_nonce a (record_pending addr e t) = next_nonce a t.
Proof. intros Ha. unfold next_nonce, record_pending, on_chain_nonce. simpl. by rewrite lookup_insert_ne. Qed.
End tracker.

(** [q] is [p] after promoting the nonces [m .. m + k - 1] of [addr]. *)
Record promoted (addr : Address) (m k : Z) (p q : TransactionPool) : Prop := mkPromoted {
  promoted_config : config q = config p;
  promoted_known : known q = known p;
  promoted_fee : base_fee q = base_fee p;
  promoted_run : forall n, m <= n < m + k -> exists t, queued p !! (addr, n) = Some t /\
    queued q !! (addr, n) = None /\ pending q !! (addr, n) = Some (mkSlot t (tip_at (base_fee p) t));
  promoted_rest : forall a n, ~ (a = addr /\ m <= n < m + k) ->
    queued q !! (a, n) = queued p !! (a, n) /\ pending q !! (a, n) = pending p !! (a, n);
  promoted_next : next_nonce addr (tracker q) = m + k;
  promoted_others : forall a, a <> addr -> next_nonce a (tracker q) = next_nonce a (tracker p) }.

Lemma promote_loop_spec addr f p m : next_nonce addr (tracker p) = m -> 0 <= m -> m + Z.of_nat f < 2 ^ 64 ->
  (forall x, pending_max (tracker p) !! addr = Some x -> 0 <= x < 2 ^ 64 - 1) ->
  exists k, 0 <= k <= Z.of_nat f /\ promoted addr m k p (promote_loop f addr p) /\
    (k = Z.of_nat f \/ queued p !! (addr, m + k) = None).
Proof.
  revert p m. induction f as [|f IH]; intros p m Hn Hm Hb Hx; cbn [promote_loop].
  { exists 0. split; [lia|]. split; [|by left]. split; try done; intros; [lia|done..|by rewrite Z.add_0_r]. }
  unfold promote_one. rewrite Hn. destruct (queued p !! (addr, m)) as [t|] eqn:Hq.
  2: { exists 0. split; [lia|]. split; [|right; by rewrite Z.add_0_r]. split; try done; intros; [lia|done..|by rewrite Z.add_0_r]. }
  set (p1 := mkPool _ _ _ _ _ _).
  destruct (next_after_record addr m (tracker p) ltac:(lia) Hn Hx) as [Hn1 Hm1].
  destruct (IH p1 (m + 1)) as (k & Hk & [H1 H2 H3 H4 H5 H6 H7] & Hend); [done|lia|lia| |].
  { intros x. change (tracker p1) with (record_pending addr m (tracker p)). rewrite Hm1. intros [= <-]. lia. }
  assert (forall a n, (a, n) <> (addr, m) -> queued p1 !! (a, n) = queued p !! (a, n) /\ pending p1 !! (a, n) = pending p !! (a, n)) as Hother.
  { intros a n Hne. subst p1. simpl. by rewrite lookup_delete_ne, lookup_insert_ne by done. }
  exists (k + 1). split; [lia|]. split.
  - split; [done..| | | |].
    + intros n Hin. destruct (decide (n = m)) as [->|Hne].
      * exists t. split; [done|]. destruct (H5 addr m) as [-> ->]; [lia|]. subst p1. simpl. by rewrite lookup_delete_eq, lookup_insert_eq.
      * destruct (H4 n ltac:(lia)) as (t' & Hq' & Hr). exists t'. destruct (Hother addr n) as [E _]; [congruence|]. rewrite <-E. done.
    + intros a n Hnot. destruct (H5 a n) as [-> ->]; [intros [-> ?]; apply Hnot; split; [done|lia]|]. apply Hother. intros [= -> ->]. apply Hnot. split; [done|lia].
    + rewrite H6. lia.
    + intros a Ha. rewrite H7 by done. subst p1. by apply next_other.
  - destruct Hend as [->|Hend]; [left; lia|right]. destruct (Hother addr (m + 1 + k)) as [E _]; [intros [=]; lia|].
    rewrite E in Hend. by replace (m + (k + 1)) with (m + 1 + k) by lia.
Qed.

(** ** What is in the pool *)

Lemma elem_of_slots addr p k : k ∈ slots_of addr p <-> k.1 = addr /\ (is_Some (pending p !! k) \/ is_Some (queued p !! k)).
Proof. unfold slots_of. rewrite elem_of_filter, elem_of_union, !elem_of_dom. done. Qed.

Section pool.
Context (keccak : bytes -> H256) `{RC : RlpCrate} `{EC : Secp256k1}.

(** Signed by its sender, and worth executing. *)
Definition admitted (t : SignedTransaction) : Prop :=
  authentic keccak t /\ intrinsic_gas (tx t) <= Transaction.gas_limit (tx t) <= BLOCK_GAS_LIMIT.

(** Nonces stay away from the end of their range by more than one call of
    [promote_queued] can count. *)
Definition nonce_ok (n : Z) : Prop := 0 <= n < 2 ^ 64 - 257.

Record signed_ok (t : SignedTransaction) : Prop := mkSignedOk {
  signed_tx : tx_ok (tx t);
  signed_nonce : nonce_ok (tx_nonce (tx t));
  signed_r : length (sig_r (sig t)) = 32%nat;
  signed_s : length (sig_s (sig t)) = 32%nat }.

Definition kept (k : Key) (t : SignedTransaction) : Prop :=
  k = (tx_from t, tx_nonce (tx t)) /\ admitted t /\ signed_ok t.

Record pool_kept (p : TransactionPool) : Prop := mkKept {
  kept_pending : map_Forall (fun k s => kept k (slot_tx s)) (pending p);
  kept_queued : map_Forall kept (queued p);
  kept_tracker : map_Forall (fun _ => nonce_ok) (pending_max (tracker p)) }.

Lemma set_on_chain_kept addr n t : map_Forall (fun _ => nonce_ok) (pending_max t) ->
  map_Forall (fun _ => nonce_ok) (pending_max (set_on_chain addr n t)).
Proof. intros H. unfold set_on_chain. simpl. case_match; [case_match|]; [by apply map_Forall_delete|done..]. Qed.

Lemma record_pending_kept addr n t : nonce_ok n -> map_Forall (fun _ => nonce_ok) (pending_max t) ->
  map_Forall (fun _ => nonce_ok) (pending_max (record_pending addr n t)).
Proof.
  intros Hn H. unfold record_pending. simpl. apply map_Forall_insert_2; [|done].
  destruct (pending_max t !! addr) as [m|] eqn:E; simpl; case_match; try done. by apply (H addr).
Qed.

(** Nothing is added. *)
Record shrinks (p q : TransactionPool) : Prop := mkShrinks {
  shrinks_config : config q = config p;
  shrinks_kept : pool_kept p -> pool_kept q;
  shrinks_slots : forall a, slots_of a q ⊆ slots_of a p;
  shrinks_reserved : forall a, reserved a q <= reserved a p }.

Lemma shrinks_refl p : shrinks p p.
Proof. by split. Qed.
Lemma shrinks_trans p q r : shrinks p q -> shrinks q r -> shrinks p r.
Proof.
  intros [H1 H2 H3 H4] [J1 J2 J3 J4]. split; [congruence|auto|intros a; by rewrite J3|intros a; specialize (H4 a); specialize (J4 a); lia].
Qed.

Lemma wval_cost_nonneg {A} (cost : A -> Z) (a : Address) (m : gmap Key A) k : (forall x, 0 <= cost x) ->
  0 <= wval (fun k v => if decide (k.1 = a) then cost v else 0) m k.
Proof. intros Hc. unfold wval. destruct (m !! k); [case_decide|]; done || lia. Qed.

Lemma promote_one_shrinks addr p q : promote_one addr p = Some q -> shrinks p q.
Proof.
  unfold promote_one. set (key := (addr, _)). destruct (queued p !! key) as [t|] eqn:Hq; [|done]. intros [= <-]. split; [done|..].
  - intros [Hp Hk Ht]. pose proof (Hk key t Hq) as Hkt. split; simpl; [|by apply map_Forall_delete|].
    + by apply map_Forall_insert_2.
    + apply (record_pending_kept addr); [|done]. destruct Hkt as ([= _ ->] & _ & []). done.
  - intros a k. rewrite !elem_of_slots. simpl. intros [Ha Hs]. split; [done|].
    destruct (decide (k = key)) as [->|Hne]; [right; by rewrite Hq|]. by rewrite lookup_insert_ne, lookup_delete_ne in Hs by done.
  - intros a. unfold reserved. simpl. rewrite wsum_insert, wsum_delete. unfold wval at 2. rewrite Hq. simpl.
    pose proof (wval_cost_nonneg (fun s => cost_of (slot_tx s)) a (pending p) key ltac:(intros; apply cost_of_nonneg)). lia.
Qed.

Lemma promote_loop_shrinks n addr p : shrinks p (promote_loop n addr p).
Proof.
  revert p. induction n as [|n IH]; intros p; simpl; [apply shrinks_refl|].
  destruct (promote_one addr p) as [q|] eqn:E; [|apply shrinks_refl]. eapply shrinks_trans; [by eapply promote_one_shrinks|apply IH].
Qed.

Lemma remove_one_shrinks p t : shrinks p (remove_one p t).
Proof.
  unfold remove_one. set (key := (_, _)). split; [done|..].
  - intros [Hp Hk Ht]. split; [by apply map_Forall_delete..|]. by apply set_on_chain_kept.
  - intros a k. rewrite !elem_of_slots. simpl. intros [Ha Hs]. split; [done|].
    destruct (decide (k = key)) as [->|Hne]; [rewrite !lookup_delete_eq in Hs; by destruct Hs as [[]|[]]|].
    by rewrite !lookup_delete_ne in Hs by done.
  - intros a. unfold reserved. simpl. rewrite !wsum_delete.
    pose proof (wval_cost_nonneg (fun s => cost_of (slot_tx s)) a (pending p) key ltac:(intros; apply cost_of_nonneg)).
    pose proof (wval_cost_nonneg cost_of a (queued p) key cost_of_nonneg). lia.
Qed.

Lemma remove_confirmed_shrinks txs p : shrinks p (remove_confirmed txs p).
Proof.
  unfold remove_confirmed. apply (shrinks_trans _ (foldl remove_one p txs)).
  - revert p. induction txs as [|t txs IH]; intros p; simpl; [apply shrinks_refl|].
    eapply shrinks_trans; [apply remove_one_shrinks|apply IH].
  - generalize (foldl remove_one p txs). induction (map tx_from txs) as [|a l IH]; intros q; simpl; [apply shrinks_refl|].
    eapply shrinks_trans; [apply promote_loop_shrinks|apply IH].
Qed.

(** ** Admission *)

Lemma recover_no_panic h g : recover_signer keccak h g <> Panic.
Proof.
  unfold recover_signer, recover_pubkey. repeat case_match; simpl; try done.
  destruct (recover_prehash _ _ _); simpl; [case_match|]; done.
Qed.

Lemma check_transaction_cases t bal p : signed_ok t ->
  match check_transaction keccak t bal p with
  | Ok (tip, cost) =>
    admitted t /\ tip = tip_at (base_fee p) t /\ min_gas_tip (config p) <= tip /\ cost = cost_of t /\ cost <= bal /\
    known p !! tx_hash t = None
  | Err _ => True
  | Panic => False
  end.
Proof.
  intros [_ _ Hr Hs]. unfold check_transaction, guard_err. pose proof (sig_roundtrip (sig t) Hr Hs) as Hp.
  change (sig_from_bytes (sig_to_bytes (sig t))) with (sig_parse (sig_to_bytes (sig t))) in Hp. rewrite Hp.
  pose proof (recover_no_panic (signing_hash keccak (tx t)) (sig t)) as Hn.
  destruct (bool_decide (is_Some _)) eqn:H1; [done|]. destruct (verify_hash keccak t) eqn:H2; [|done]. simpl.
  destruct (recover_signer keccak _ _) as [a|e|] eqn:H3; simpl; [|done|done].
  destruct (bool_decide (a = tx_from t)) eqn:H4; [|done]. simpl. destruct (BLOCK_GAS_LIMIT <? _) eqn:H5; [done|]. simpl.
  destruct (_ <? min_gas_tip _) eqn:H6; [done|]. simpl. destruct (_ <? intrinsic_gas _) eqn:H7; [done|]. simpl.
  destruct (bal <? cost_of t) eqn:H8; [done|]. simpl. bool_to_prop. subst a. unfold admitted, authentic.
  split_and!; try done. by apply eq_None_not_Some.
Qed.

Lemma check_slot_cases t tip cost bal oc p : signed_ok t -> 0 <= oc -> 0 <= bal < umax 128 -> 0 <= cost -> pool_kept p ->
  let key := (tx_from t, tx_nonce (tx t)) in
  match check_slot t tip cost bal oc p with
  | Ok _ =>
    oc <= tx_nonce (tx t) <= oc + max_nonce_gap (config p) /\
    (is_replacement key p = false -> sender_slot_count (tx_from t) p < max_slots_per_sender (config p)) /\
    (forall old, prior_tip key p = Some old -> required_tip old <= tip) /\
    (reserved (tx_from t) p < 2 ^ 128 -> is_replacement key p = true ->
       reserved (tx_from t) p - (match pending p !! key with Some s => cost_of (slot_tx s) | None => match queued p !! key with Some o => cost_of o | None => 0 end end) + cost <= bal) /\
    (is_replacement key p = false -> reserved (tx_from t) p + cost <= bal)
  | Err _ => True
  | Panic => False
  end.
Proof.
  intros [[Hn _ _ _ _ _] _ _ _] Hoc Hbal Hcost [Hp Hq _] key. unfold check_slot, guard_err. fold key. cbv zeta.
  destruct (_ <? oc) eqn:H1; [done|]. simpl. destruct (max_nonce_gap _ <? _) eqn:H2; [done|]. simpl.
  destruct (negb (is_replacement key p) && _) eqn:H3; [done|]. simpl.
  destruct (bal <? _) eqn:H4; [done|]. simpl. bool_to_prop. rewrite cumulative_cost in H4.
  assert (sat 64 (tx_nonce (tx t) - oc) = tx_nonce (tx t) - oc) as Hgap by (apply sat_small; unfold in_range in *; lia).
  rewrite Hgap in H2.
  assert (reserved (tx_from t) p < 2 ^ 128 -> is_replacement key p = true ->
    reserved (tx_from t) p - (match pending p !! key with Some s => cost_of (slot_tx s) | None => match queued p !! key with Some o => cost_of o | None => 0 end end) + cost <= bal) as Hrep.
  { intros HR _. unfold sat, umax in *.
    destruct (pending p !! key) as [s|] eqn:E; [|destruct (queued p !! key) as [o|] eqn:Eq; [|lia]].
    - rewrite slot_cost_eq in H4 by (apply (Hp key s E)). lia.
    - rewrite slot_cost_eq in H4 by (apply (Hq key o Eq)). lia. }
  assert (is_replacement key p = false -> reserved (tx_from t) p + cost <= bal) as Hfresh.
  { unfold is_replacement. intros [H5 H6]%orb_false_iff. bool_to_prop. apply eq_None_not_Some in H5, H6. rewrite H5, H6 in H4.
    unfold sat, umax in *. lia. }
  assert (is_replacement key p = false -> sender_slot_count (tx_from t) p < max_slots_per_sender (config p)) as Hused.
  { intros E. rewrite E in H3. destruct H3 as [H3|H3]; bool_to_prop; [done|lia]. }
  destruct (prior_tip key p) as [old|] eqn:E; simpl; [destruct (tip <? _) eqn:H5; [done|]; bool_to_prop|];
    (split_and!; [lia|lia|done| |done|done]; intros old' [= <-]; done).
Qed.

(** The pool with [t] at its key, before promotion. *)
Definition placed (t : SignedTransaction) (tip expected : Z) (p : TransactionPool) : TransactionPool :=
  let key := (tx_from t, tx_nonce (tx t)) in
  let known := <[tx_hash t := key]> (forget_replaced key p) in
  if tx_nonce (tx t) =? expected
  then mkPool (config p) (<[key := mkSlot t tip]> (pending p)) (queued p) known
         (record_pending (tx_from t) (tx_nonce (tx t)) (tracker p)) (base_fee p)
  else mkPool (config p) (pending p) (<[key := t]> (queued p)) known (tracker p) (base_fee p).

Lemma place_cases t tip expected p : known p !! tx_hash t = None ->
  match place_transaction t tip expected p with
  | (Ok h, q) => h = tx_hash t /\
      q = (if tx_nonce (tx t) =? expected then promote_queued (tx_from t) (placed t tip expected p) else placed t tip expected p)
  | (Err e, q) => q = p
  | (Panic, _) => False
  end.
Proof.
  intros Hk. unfold place_transaction, placed, is_replacement, forget_replaced, mbind, M_bind, get_st, put_st, modify, mret, M_ret, throw.
  set (key := (tx_from t, tx_nonce (tx t))). destruct (pending p !! key) as [s|], (queued p !! key) as [o|]; simpl;
    destruct (_ =? expected); simpl; try (split; reflexivity).
  all: case_goal; [|split; reflexivity]; unfold set_known; simpl; rewrite delete_insert_id by done; by destruct p.
Qed.

Lemma placed_reserved t tip expected p a :
  reserved a (placed t tip expected p) = reserved a p +
    (if decide (tx_from t = a) then
       cost_of t - (if tx_nonce (tx t) =? expected then match pending p !! (tx_from t, tx_nonce (tx t)) with Some s => cost_of (slot_tx s) | None => 0 end
                    else match queued p !! (tx_from t, tx_nonce (tx t)) with Some o => cost_of o | None => 0 end)
     else 0).
Proof.
  unfold reserved, placed. destruct (_ =? expected); simpl; rewrite wsum_insert; unfold wval; simpl; repeat case_match; lia.
Qed.

Lemma placed_slots t tip expected p a : slots_of a (placed t tip expected p) ⊆
  slots_of a p ∪ (if decide (tx_from t = a) then {[(tx_from t, tx_nonce (tx t))]} else ∅).
Proof.
  intros k. rewrite elem_of_union, !elem_of_slots. intros [<- Hs].
  destruct (decide (k = (tx_from t, tx_nonce (tx t)))) as [->|Hne].
  - right. simpl. rewrite decide_True by done. set_solver.
  - left. split; [done|]. unfold placed in Hs. destruct (_ =? expected); simpl in Hs; by rewrite lookup_insert_ne in Hs.
Qed.

Lemma placed_kept t tip expected p : admitted t -> signed_ok t -> pool_kept p -> pool_kept (placed t tip expected p).
Proof.
  intros Ha Ht [Hp Hq Hk]. unfold placed. destruct (_ =? expected); split; simpl; try done; try (apply map_Forall_insert_2; [split_and!|]; done).
  apply (record_pending_kept (tx_from t)); [|done]. apply Ht.
Qed.

Lemma pool_add_cases t bal oc p : signed_ok t -> 0 <= oc -> 0 <= bal < umax 128 -> pool_kept p ->
  let key := (tx_from t, tx_nonce (tx t)) in
  let p1 := set_tracker (set_on_chain (tx_from t) oc (tracker p)) p in
  let expected := next_nonce (tx_from t) (tracker p1) in
  let tip := tip_at (base_fee p) t in
  match add_transaction keccak t bal oc p with
  | (Ok h, q) =>
    h = tx_hash t /\ known p !! h = None /\ admitted t /\ min_gas_tip (config p) <= tip /\ cost_of t <= bal /\
    check_slot t tip (cost_of t) bal oc p1 = Ok tt /\ pool_kept p1 /\
    q = (if tx_nonce (tx t) =? expected then promote_queued (tx_from t) (placed t tip expected p1) else placed t tip expected p1)
  | (Err e, q) => q = p \/ q = p1
  | (Panic, _) => False
  end.
Proof.
  intros Ht Hoc Hbal Hp key p1 expected tip. unfold add_transaction, mbind, M_bind, get_st, lift, modify.
  pose proof (check_transaction_cases t bal p Ht) as Hc. destruct (check_transaction keccak t bal p) as [[tip' cost]|e|]; [|by left|done].
  destruct Hc as (Ha & -> & Htip & -> & Hcost & Hk). fold p1 tip. fold expected.
  assert (pool_kept p1) as Hp1 by (destruct Hp; split; [done..|]; by apply set_on_chain_kept).
  pose proof (check_slot_cases t tip (cost_of t) bal oc p1 Ht Hoc Hbal (cost_of_nonneg t) Hp1) as Hs.
  destruct (check_slot t tip (cost_of t) bal oc p1) as [[]|e|] eqn:Es; [|by right|done].
  pose proof (place_cases t tip expected p1 Hk) as Hpl. destruct (place_transaction t tip expected p1) as [[h|e|] q]; [|by right|done].
  destruct Hpl as [-> ->]. split_and!; done.
Qed.

(** Promotion starts above the nonce just placed. *)
Lemma placed_found t tip expected p : nonce_ok (tx_nonce (tx t)) -> expected = next_nonce (tx_from t) (tracker p) -> pool_kept p ->
  let key := (tx_from t, tx_nonce (tx t)) in
  if tx_nonce (tx t) =? expected
  then pending (promote_queued (tx_from t) (placed t tip expected p)) !! key = Some (mkSlot t tip)
  else queued (placed t tip expected p) !! key = Some t.
Proof.
  intros Hn He [_ _ Hk] key. unfold placed. fold key. destruct (Z.eqb_spec (tx_nonce (tx t)) expected) as [E|E]; [|simpl; by rewrite lookup_insert_eq].
  set (p1 := mkPool _ _ _ _ _ _). assert (forall m, pending_max (tracker p) !! tx_from t = Some m -> 0 <= m < 2 ^ 64 - 1) as Hm.
  { intros m Hm. specialize (Hk _ _ Hm). unfold nonce_ok in Hk. simpl in Hk. lia. }
  unfold nonce_ok in Hn. destruct (next_after_record (tx_from t) (tx_nonce (tx t)) (tracker p)) as [Hn1 Hm1]; [lia|congruence|done|].
  destruct (promote_loop_spec (tx_from t) MAX_PROMOTE_PER_CALL p1 (tx_nonce (tx t) + 1)) as (k & _ & [_ _ _ _ Hrest _ _] & _).
  - done.
  - lia.
  - change (Z.of_nat MAX_PROMOTE_PER_CALL) with 256. lia.
  - intros x. change (tracker p1) with (record_pending (tx_from t) (tx_nonce (tx t)) (tracker p)). rewrite Hm1. intros [= <-]. lia.
  - unfold promote_queued, key. destruct (Hrest (tx_from t) (tx_nonce (tx t))) as [_ ->]; [lia|]. subst p1. simpl. by rewrite lookup_insert_eq.
Qed.

Lemma placed_fits t tip expected p bal :
  let key := (tx_from t, tx_nonce (tx t)) in
  (reserved (tx_from t) p < 2 ^ 128 -> is_replacement key p = true ->
   reserved (tx_from t) p - (match pending p !! key with Some s => cost_of (slot_tx s) | None => match queued p !! key with Some o => cost_of o | None => 0 end end) + cost_of t <= bal) ->
  (is_replacement key p = false -> reserved (tx_from t) p + cost_of t <= bal) ->
  is_replacement key p = false \/
    reserved (tx_from t) p < 2 ^ 128 /\ (if tx_nonce (tx t) =? expected then is_Some (pending p !! key) else pending p !! key = None) ->
  reserved (tx_from t) (placed t tip expected p) <= bal.
Proof.
  intros key Hrep Hfresh Hor. rewrite placed_reserved, decide_True by done. fold key. unfold is_replacement in *.
  destruct (pending p !! key) as [s|], (queued p !! key) as [o|]; simpl in *; destruct (_ =? expected);
    destruct Hor as [Hor|[HR Hor]]; try done; try (destruct Hor; done);
    repeat match goal with H : context [bool_decide ?P] |- _ => first [rewrite (bool_decide_eq_true_2 P) in H by eauto|rewrite (bool_decide_eq_false_2 P) in H by (intros []; done)] end;
    try specialize (Hrep HR eq_refl); try specialize (Hfresh eq_refl); try done; lia.
Qed.

(** ** Selection *)

Lemma take_fitting_in limit total l t : t ∈ take_fitting limit total l -> exists s, s ∈ l /\ slot_tx s = t.
Proof.
  revert total. induction l as [|s l IH]; intros total; simpl; [by intros []%elem_of_nil|].
  case_match; [intros (x & ? & ?)%IH; exists x; set_solver|]. intros [->|(x & ? & ?)%IH]%elem_of_cons; [|exists x; set_solver].
  exists s. set_solver.
Qed.

Lemma insert_slot_perm s l : insert_slot s l ≡ₚ s :: l.
Proof. induction l as [|x l IH]; simpl; [done|]. case_match; [done|]. rewrite IH. apply Permutation_swap. Qed.

Lemma sort_slots_perm l : sort_slots l ≡ₚ l.
Proof. induction l as [|s l IH]; simpl; [done|]. by rewrite insert_slot_perm, IH. Qed.

Lemma selected_in slots limit t : t ∈ select_transactions slots limit -> exists s, s ∈ slots /\ slot_tx s = t.
Proof. intros (s & Hs & E)%take_fitting_in. rewrite sort_slots_perm in Hs. eauto. Qed.

Definition by_priority (a b : PendingSlot) : Prop := priority b <= priority a.
Definition slot_gas (s : PendingSlot) : Z := Transaction.gas_limit (tx (slot_tx s)).
Definition sum_gas (l : list PendingSlot) : Z := foldr (fun s n => slot_gas s + n) 0 l.

Lemma insert_slot_sorted s l : StronglySorted by_priority l -> StronglySorted by_priority (insert_slot s l).
Proof.
  induction 1 as [|x l Hl IH Hx]; simpl; [repeat constructor|]. destruct (Z.leb_spec (priority x) (priority s)).
  - constructor; [by constructor|]. constructor; [done|]. eapply Forall_impl; [exact Hx|]. unfold by_priority. intros y ?. lia.
  - constructor; [done|]. rewrite insert_slot_perm. constructor; [unfold by_priority; lia|done].
Qed.

Lemma sort_slots_sorted l : StronglySorted by_priority (sort_slots l).
Proof. induction l; simpl; [constructor|]. by apply insert_slot_sorted. Qed.

Lemma StronglySorted_sublist {A} (R : A -> A -> Prop) l k : StronglySorted R l -> k `sublist_of` l -> StronglySorted R k.
Proof.
  intros Hl Hk. induction Hk as [|x k l Hk IH|x k l Hk IH]; [done|..]; apply StronglySorted_inv in Hl as [Hl Hx]; [|by apply IH].
  constructor; [by apply IH|]. rewrite Forall_forall in Hx |- *. intros y Hy. apply Hx. by eapply elem_of_submseteq; [|apply sublist_submseteq].
Qed.

Lemma sum_gas_nonneg l : Forall (fun s => 0 <= slot_gas s) l -> 0 <= sum_gas l.
Proof. induction 1; simpl; lia. Qed.

Lemma take_fitting_spec limit l total : StronglySorted by_priority l -> 0 <= total <= limit -> limit + BLOCK_GAS_LIMIT < 2 ^ 64 ->
  Forall (fun s => 0 <= slot_gas s <= BLOCK_GAS_LIMIT) l ->
  exists taken, take_fitting limit total l = map slot_tx taken /\ taken `sublist_of` l /\ total + sum_gas taken <= limit /\
    forall s, s ∈ l -> s ∉ taken -> limit < total + slot_gas s + sum_gas (filter (fun x => priority s <= priority x) taken).
Proof.
  intros Hl. revert total. induction Hl as [|x l Hl IH Hx]; intros total Ht Hlim Hg; simpl.
  - exists []. split_and!; [done..|simpl; lia|]. by intros s []%elem_of_nil.
  - apply Forall_cons in Hg as [Hgx Hg]. fold (slot_gas x). rewrite wrap_small by (unfold in_range; lia).
    destruct (Z.ltb_spec limit (total + slot_gas x)) as [Hno|Hyes].
    + destruct (IH total Ht Hlim Hg) as (taken & E & Hsub & Hsum & Hrest). exists taken. split_and!; [done|by constructor|done|].
      intros s [->|Hs]%elem_of_cons Hns; [|by apply Hrest].
      assert (0 <= sum_gas (filter (fun y => priority x <= priority y) taken)); [|lia].
      apply sum_gas_nonneg, Forall_forall. intros y [_ Hy]%list_elem_of_filter. rewrite Forall_forall in Hg.
      apply Hg. by eapply elem_of_submseteq; [|by apply sublist_submseteq].
    + destruct (IH (total + slot_gas x) ltac:(lia) Hlim Hg) as (taken & E & Hsub & Hsum & Hrest). exists (x :: taken).
      split_and!; [simpl; by rewrite E|by constructor|simpl; lia|].
      intros s [->|Hs]%elem_of_cons Hns; [set_solver|]. rewrite not_elem_of_cons in Hns. destruct Hns as [_ Hns].
      specialize (Hrest s Hs Hns). rewrite filter_cons_True by (rewrite Forall_forall in Hx; by apply (Hx s)). simpl. lia.
Qed.

(** ** Runs of the pool *)

Inductive PoolOp : Type :=
| PAdd (t : SignedTransaction) (sender_balance sender_on_chain_nonce : Z)
| PBaseFee (header : BlockHeader)
| PRemove (txs : list SignedTransaction).

Definition run_pool (o : PoolOp) (p : TransactionPool) : TransactionPool :=
  match o with
  | PAdd t bal oc => snd (add_transaction keccak t bal oc p)
  | PBaseFee header => update_base_fee header p
  | PRemove txs => remove_confirmed txs p
  end.

Definition pool_op_ok (o : PoolOp) : Prop :=
  match o with PAdd t bal oc => signed_ok t /\ 0 <= oc /\ 0 <= bal < umax 128 | _ => True end.

Definition pool_step (p q : TransactionPool) : Prop := exists o, pool_op_ok o /\ q = run_pool o p.

Record pool_ok (p : TransactionPool) : Prop := mkPoolOk {
  ok_kept : pool_kept p;
  ok_slots : forall a, Z.of_nat (size (slots_of a p)) <= Z.max 0 (max_slots_per_sender (config p)) }.

Lemma pool_new_ok c : pool_ok (pool_new c).
Proof.
  split; [split; apply map_Forall_empty|]. intros a. enough (slots_of a (pool_new c) = ∅) as -> by (rewrite size_empty; lia).
  apply set_eq. intros k. rewrite elem_of_slots. simpl. rewrite !lookup_empty. split; [intros [_ [[]|[]]]; done|set_solver].
Qed.

Lemma shrinks_ok p q : shrinks p q -> pool_ok p -> pool_ok q.
Proof.
  intros [Hc Hk Hs _] [H1 H2]. split; [by apply Hk|]. intros a. rewrite Hc.
  pose proof (subseteq_size _ _ (Hs a)). specialize (H2 a). lia.
Qed.

Lemma slots_fresh p a n : is_replacement (a, n) p = false -> (a, n) ∉ slots_of a p.
Proof.
  unfold is_replacement. intros [H1 H2]%orb_false_iff. bool_to_prop. rewrite elem_of_slots. by intros [_ [|]].
Qed.

Lemma pool_add_ok t bal oc p : signed_ok t -> 0 <= oc -> 0 <= bal < umax 128 -> pool_ok p ->
  pool_ok (snd (add_transaction keccak t bal oc p)) /\ config (snd (add_transaction keccak t bal oc p)) = config p.
Proof.
  intros Ht Hoc Hbal [Hk Hs]. pose proof (pool_add_cases t bal oc p Ht Hoc Hbal Hk) as H. cbv zeta in H.
  set (p1 := set_tracker _ p) in *. destruct (add_transaction keccak t bal oc p) as [[h|e|] q]; [| |done]; simpl.
  2: { destruct H as [->| ->]; [done|]. split; [|done]. split; [|done]. destruct Hk. split; [done..|]. by apply set_on_chain_kept. }
  destruct H as (-> & Hn & Ha & Htip & Hcost & Hcs & Hk1 & ->). set (expected := next_nonce _ _).
  pose proof (check_slot_cases t (tip_at (base_fee p) t) (cost_of t) bal oc p1 Ht Hoc Hbal (cost_of_nonneg t) Hk1) as Hcc.
  cbv zeta in Hcc. rewrite Hcs in Hcc. destruct Hcc as (_ & Hused & _).
  assert (pool_ok (placed t (tip_at (base_fee p) t) expected p1)) as Hpl.
  { split; [by apply placed_kept|]. intros a.
    replace (config (placed _ _ _ _)) with (config p) by (unfold placed; by destruct (_ =? expected)).
    pose proof (subseteq_size _ _ (placed_slots t (tip_at (base_fee p) t) expected p1 a)) as Hsz. specialize (Hs a).
    change (slots_of a p1) with (slots_of a p) in Hsz. destruct (decide (tx_from t = a)) as [<-|]; [|rewrite union_empty_r_L in Hsz; lia].
    destruct (is_replacement (tx_from t, tx_nonce (tx t)) p1) eqn:Er.
    - assert ((tx_from t, tx_nonce (tx t)) ∈ slots_of (tx_from t) p) as Hin.
      { rewrite elem_of_slots. split; [done|]. unfold is_replacement in Er. bool_to_prop. destruct Er as [Er|Er]; bool_to_prop; auto. }
      assert (slots_of (tx_from t) p ∪ {[(tx_from t, tx_nonce (tx t))]} = slots_of (tx_from t) p) as Eq by set_solver. rewrite Eq in Hsz. lia.
    - specialize (Hused eq_refl). pose proof (slots_counted (tx_from t) p1). rewrite size_union_alt in Hsz.
      assert (size ({[(tx_from t, tx_nonce (tx t))]} ∖ slots_of (tx_from t) p) <= 1)%nat.
      { etrans; [apply subseteq_size, subseteq_difference_l; reflexivity|]. by rewrite size_singleton. }
      change (slots_of (tx_from t) p1) with (slots_of (tx_from t) p) in *. change (config p1) with (config p) in *. lia. }
  assert (config (placed t (tip_at (base_fee p) t) expected p1) = config p) as Ec by (unfold placed; by destruct (_ =? expected)).
  destruct (_ =? expected); [|done]. split; [by eapply shrinks_ok; [apply promote_loop_shrinks|]|].
  unfold promote_queued. rewrite (shrinks_config _ _ (promote_loop_shrinks _ _ _)). done.
Qed.

Lemma pool_reachable c p : star pool_step (pool_new c) p -> pool_ok p /\ config p = c.
Proof.
  intros Hs. apply (star_invariant pool_step (fun p => pool_ok p /\ config p = c) (pool_new c)); [|split; [apply pool_new_ok|done]|done].
  intros x y [Hx <-] (o & Ho & ->). destruct o as [t bal oc|header|txs]; simpl.
  - destruct Ho as (? & ? & ?). by apply pool_add_ok.
  - split; [|done]. destruct Hx as [[] ?]. by split.
  - split; [eapply shrinks_ok; [apply remove_confirmed_shrinks|done]|]. apply remove_confirmed_shrinks.
Qed.

(** ** The properties *)

(** C26. In every state the pool can reach, whatever was offered to it: each pooled
    transaction sits under its own sender and nonce, its hash is its own, its
    signature recovers to its sender, and its gas covers the intrinsic cost
    within a block's limit; no sender occupies more distinct nonces than its
    slots; and what a block is filled with is of that kind. *)
Theorem pool_authentic c p : star pool_step (pool_new c) p ->
  (forall k s, pending p !! k = Some s -> k = (tx_from (slot_tx s), tx_nonce (tx (slot_tx s))) /\ admitted (slot_tx s)) /\
  (forall k t, queued p !! k = Some t -> k = (tx_from t, tx_nonce (tx t)) /\ admitted t) /\
  (forall a, Z.of_nat (size (slots_of a p)) <= Z.max 0 (max_slots_per_sender c)) /\
  forall slots limit t, slots ≡ₚ (map_to_list (pending p)).*2 -> t ∈ select_transactions slots limit -> admitted t.
Proof.
  intros [[[Hp Hq Ht] Hs] <-]%pool_reachable. split_and!; [by intros k s (? & ? & _)%Hp|by intros k t (? & ? & _)%Hq|done|].
  intros slots limit t Hl (s & Hs' & <-)%selected_in. rewrite Hl in Hs'. apply list_elem_of_fmap in Hs' as ([k s'] & -> & Hin).
  apply elem_of_map_to_list in Hin. by apply Hp in Hin as (_ & ? & _).
Qed.

(** C25. Admission.  An accepted transaction was not known, is authentic, pays the
    minimum tip and, where it replaces another, what the replacement rule
    asks; its nonce lies in the window; it is found under its key in the
    pending map exactly when its nonce is the expected one; and unless it
    lands beside what it replaces, all the sender has in the pool fits its
    balance.  A refused one leaves both maps, the known hashes and the base fee
    as they were.  Nothing panics. *)
Theorem pool_admission c p t bal oc : star pool_step (pool_new c) p -> signed_ok t -> 0 <= oc -> 0 <= bal < umax 128 ->
  let key := (tx_from t, tx_nonce (tx t)) in
  let expected := next_nonce (tx_from t) (set_on_chain (tx_from t) oc (tracker p)) in
  let tip := tip_at (base_fee p) t in
  match add_transaction keccak t bal oc p with
  | (Ok h, q) =>
    h = tx_hash t /\ known p !! h = None /\ admitted t /\ min_gas_tip c <= tip /\ cost_of t <= bal /\
    oc <= tx_nonce (tx t) <= oc + max_nonce_gap c /\
    (forall old, prior_tip key p = Some old -> required_tip old <= tip) /\
    (if tx_nonce (tx t) =? expected then pending q !! key = Some (mkSlot t tip) else queued q !! key = Some t) /\
    (is_replacement key p = false \/
     reserved (tx_from t) p < 2 ^ 128 /\ (if tx_nonce (tx t) =? expected then is_Some (pending p !! key) else pending p !! key = None) ->
     reserved (tx_from t) q <= bal)
  | (Err e, q) => pending q = pending p /\ queued q = queued p /\ known q = known p /\ base_fee q = base_fee p
  | (Panic, _) => False
  end.
Proof.
  intros [[Hk Hs] <-]%pool_reachable Ht Hoc Hbal key expected tip. pose proof (pool_add_cases t bal oc p Ht Hoc Hbal Hk) as H. cbv zeta in H.
  fold key in H. set (p1 := set_tracker _ p) in *. change (next_nonce _ (tracker p1)) with expected in H. fold tip in H.
  destruct (add_transaction keccak t bal oc p) as [[h|e|] q]; [|by destruct H as [->| ->]|done].
  destruct H as (-> & Hn & Ha & Htip & Hcost & Hcs & Hk1 & ->).
  pose proof (check_slot_cases t tip (cost_of t) bal oc p1 Ht Hoc Hbal (cost_of_nonneg t) Hk1) as Hcc.
  cbv zeta in Hcc. fold key in Hcc. rewrite Hcs in Hcc. destruct Hcc as (Hwin & _ & Hreq & Hrep & Hfresh).
  change (config p1) with (config p) in Hwin.
  do 5 (split; [done|]). split; [done|]. split; [exact Hreq|]. split.
  - pose proof (placed_found t tip expected p1 (signed_nonce t Ht) eq_refl Hk1) as Hf. cbv zeta in Hf. by destruct (_ =? expected).
  - intros Hor. etrans; [|exact (placed_fits t tip expected p1 bal Hrep Hfresh Hor)].
    destruct (_ =? expected); [|done]. apply (promote_loop_shrinks MAX_PROMOTE_PER_CALL).
Qed.

(** A block is filled greedily: the selected transactions come in order of
    their tips, their gas fits the limit, and each one left out would not have
    fitted beside those of at least its tip.  The order in which the hash map
    lists its slots does not matter for this. *)
Theorem pool_selection c p slots limit : star pool_step (pool_new c) p -> slots ≡ₚ (map_to_list (pending p)).*2 ->
  0 <= limit -> limit + BLOCK_GAS_LIMIT < 2 ^ 64 ->
  exists taken, select_transactions slots limit = map slot_tx taken /\ taken ⊆+ slots /\ StronglySorted by_priority taken /\
    sum_gas taken <= limit /\
    forall s, s ∈ slots -> s ∉ taken -> limit < slot_gas s + sum_gas (filter (fun x => priority s <= priority x) taken).
Proof.
  intros [[[Hp _ _] _] _]%pool_reachable Hl H0 Hlim.
  assert (Forall (fun s => 0 <= slot_gas s <= BLOCK_GAS_LIMIT) (sort_slots slots)) as Hg.
  { rewrite sort_slots_perm, Hl. apply Forall_forall. intros s Hs. apply list_elem_of_fmap in Hs as ([k s'] & -> & Hin).
    apply elem_of_map_to_list in Hin. apply Hp in Hin as (_ & [_ Hgas] & [[_ _ _ Hr _ _] _ _ _]). unfold slot_gas, in_range in *. simpl. lia. }
  destruct (take_fitting_spec limit (sort_slots slots) 0 (sort_slots_sorted _) ltac:(lia) Hlim Hg) as (taken & E & Hsub & Hsum & Hrest).
  exists taken. split_and!; [done| | |done|].
  - rewrite <-(sort_slots_perm slots). by apply sublist_submseteq.
  - eapply StronglySorted_sublist; [apply sort_slots_sorted|exact Hsub].
  - intros s Hs. rewrite <-(sort_slots_perm slots) in Hs. by apply Hrest.
Qed.

End pool.
