(* ===== verification/MempoolExample.v ===== *)
(** * A running transaction pool

    The RLP codec of Rlp.v as the [rlp] crate, a toy curve whose signatures are
    the message and the key, signed transactions, the theorems of Transaction.v and
    MempoolCorrect.v at them, and runs that show where the pool does not do
    what it means to. *)

From Stdlib Require Import ZArith Lia Sorting.Sorted.
From stdpp Require Import base tactics list gmap numbers option.
From S2P Require Import Prelude Bytes Collections Rlp TrieNode Trie TrieRepr TrieExample Transaction Block Mempool MempoolCorrect.

Local Open Scope Z_scope.

(** ** The codec of Rlp.v satisfies the laws of the crate *)

Lemma item_children l : item_ok (Lst l) -> Forall item_ok l.
Proof. intros H. apply List.Forall_forall. intros it Hin. by eapply item_ok_child. Qed.

Lemma enc_inj a b : item_ok a -> item_ok b -> enc a = enc b -> a = b.
Proof.
  revert b. induction a as [d|l IH] using item_ind_nested; intros b Ha Hb E.
  - pose proof Ha as [Hd Hs]. inversion Hd; subst. simpl in Hs, E. destruct (as_bytes_enc d) as [H1 H2]; [done|by apply zlen_str_lt|].
    rewrite E in H1, H2. destruct b as [d'|l']; simpl in *.
    + destruct Hb as [Hd' Hs']. inversion Hd'; subst. simpl in Hs'. destruct (as_bytes_enc d') as [_ Hx]; [done|by apply zlen_str_lt|]. congruence.
    + destruct (item_ok_children l' Hb) as [_ Hc]. destruct (enc_lst_is_list _ Hc) as [_ (h & t & Eh & Hh)].
      rewrite Eh in H1. simpl in H1. apply Z.ltb_lt in H1. lia.
  - destruct (item_ok_children l Ha) as [Hes Hc]. simpl in E. destruct b as [d'|l']; simpl in E.
    + destruct Hb as [Hd' Hs']. inversion Hd'; subst. simpl in Hs'. destruct (as_bytes_enc d') as [H1 _]; [done|by apply zlen_str_lt|].
      destruct (enc_lst_is_list _ Hc) as [_ (h & t & Eh & Hh)]. rewrite <-E, Eh in H1. simpl in H1. apply Z.ltb_lt in H1. lia.
    + destruct (item_ok_children l' Hb) as [Hes' Hc']. f_equal.
      pose proof (item_count_enc _ Hes Hc) as N. rewrite E, item_count_enc in N by done. injection N as N. rewrite !length_map in N.
      apply item_children in Ha, Hb. rewrite Forall_forall in Ha, Hb. rewrite List.Forall_forall in IH.
      apply list_eq. intros i. destruct (l !! i) as [x|] eqn:Ex.
      * destruct (lookup_lt_is_Some_2 l' i) as [y Ey]; [apply lookup_lt_Some in Ex; lia|]. rewrite Ey. f_equal.
        assert (In x l) by by eapply list_elem_of_In, list_elem_of_lookup_2.
        assert (In y l') by by eapply list_elem_of_In, list_elem_of_lookup_2. apply IH; auto.
        pose proof (rlp_at_enc _ (Z.of_nat i) Hes Hc ltac:(lia)) as R. rewrite E, rlp_at_enc in R by (done || lia).
        rewrite Nat2Z.id in R. change (map enc l) with (enc <$> l) in R. change (map enc l') with (enc <$> l') in R.
        rewrite !list_lookup_fmap, Ex, Ey in R. simpl in R. congruence.
      * apply lookup_ge_None in Ex. symmetry. apply lookup_ge_None. lia.
Qed.

#[export] Instance enc_crate : RlpCrate.
Proof.
  refine {| crate_uint := fun n => strip_zeros (to_be 8 n); crate_out := enc |}.
  - intros n. apply strip_zeros_bytes, to_be_bytes.
  - unfold in_range. intros m n Hm Hn E. apply (f_equal be_val) in E. rewrite !strip_zeros_val, !be_val_to_be in E.
    change (256 ^ Z.of_nat 8) with (2 ^ 64) in E. by rewrite !Z.mod_small in E.
  - exact enc_inj.
  - intros l Hl. destruct (item_ok_children l Hl) as [_ Hc]. apply (enc_lst_is_list _ Hc).
Defined.

#[export] Instance toy_curve : Secp256k1 := {
  valid_scalars := fun _ => true;
  high_s := fun _ => false;
  recover_prehash := fun h rs _ => if bool_decide (take 32 rs = h) then Some (4 :: drop 32 rs ++ replicate 32 0) else None }.

Definition key_of (who : Z) : H256 := to_be 32 who.
Definition address_of (who : Z) : Address := pubkey_address toy (4 :: key_of who ++ replicate 32 0).
Definition sign (who : Z) (t : Transaction) : SignedTransaction :=
  let g := mkSig 0 (signing_hash toy t) (key_of who) in
  mkSigned t g (address_of who) (compute_hash toy (mkSigned t g (address_of who) [])).

Definition dest : Address := to_be 20 7.
Definition pay (nonce tip value : Z) : Transaction :=
  mkTx DynamicFee nonce tip (2 * 10 ^ 9) 21000 (Some dest) value [] [] 8989.
Definition legacy (chain tip : Z) : Transaction := mkTx Legacy 0 tip (2 * 10 ^ 9) 21000 (Some dest) 5 [] [] chain.

(** ** Types, by evaluation *)

Definition bytes_b (n : nat) (b : bytes) : bool := Nat.eqb (length b) n && forallb (fun x => (0 <=? x) && (x <? 256)) b.
Definition range_b (w x : Z) : bool := (0 <=? x) && (x <? 2 ^ w).
Definition tx_typed_b (t : Transaction) : bool :=
  range_b 64 (tx_nonce t) && range_b 64 (max_priority_fee_per_gas t) && range_b 64 (max_fee_per_gas t) &&
  range_b 64 (Transaction.gas_limit t) && range_b 256 (tx_value t) && forallb (range_b 8) (tx_data t) &&
  match tx_to t with Some a => bytes_b 20 a | None => true end && range_b 62 (tx_chain_id t) &&
  match access_list t with [] => true | _ => false end.

Lemma range_check w x : range_b w x = true -> in_range w x.
Proof. unfold range_b. intros. bool_to_prop. by split. Qed.
Lemma bytes_check n b : bytes_b n b = true -> length b = n /\ Forall byte b.
Proof.
  unfold bytes_b. intros. bool_to_prop. split; [by apply Nat.eqb_eq|]. rewrite forallb_forall in *. apply List.Forall_forall.
  intros x Hx. match goal with H : forall y, _ |- _ => specialize (H x Hx) end. bool_to_prop. by split.
Qed.

Lemma tx_typed_check t : tx_typed_b t = true -> tx_typed t /\ tx_chain_id t < 2 ^ 62.
Proof.
  unfold tx_typed_b. intros H. bool_to_prop. repeat match goal with H : range_b _ _ = true |- _ => apply range_check in H end.
  split; [|unfold in_range in *; lia]. split; [split; try done| | |].
  - rewrite forallb_forall in *. apply List.Forall_forall. intros x Hx.
    match goal with H : forall y, _ |- _ => specialize (H x Hx) end. by apply (range_check 8).
  - intros a Ha. rewrite Ha in *. by apply bytes_check.
  - unfold in_range in *. lia.
  - destruct (access_list t); [constructor|done].
Qed.

Lemma sig_typed_check g : range_b 8 (sig_v g) && bytes_b 32 (sig_r g) && bytes_b 32 (sig_s g) = true -> sig_typed g.
Proof. intros. bool_to_prop. split; [by apply range_check|by apply bytes_check..]. Qed.

Fixpoint item_bytes_b (it : item) : bool :=
  match it with
  | Str d => forallb (range_b 8) d
  | Lst l => forallb item_bytes_b l
  end.
Lemma item_bytes_check it : item_bytes_b it = true -> item_bytes it.
Proof.
  induction it as [d|l IH] using item_ind_nested; simpl; rewrite forallb_forall; intros H; constructor.
  - apply List.Forall_forall. intros x Hx. by apply (range_check 8), H.
  - rewrite List.Forall_forall in IH |- *. intros x Hx. apply IH; [done|by apply H].
Qed.
Lemma item_check it : item_bytes_b it && (zlen (enc it) <? 2 ^ 63) = true -> item_ok it.
Proof. intros. bool_to_prop. split; [by apply item_bytes_check|done]. Qed.

(** ** Signing *)

Abbreviation sent := (sign 1 (legacy 8989 (10 ^ 9))).
(** The same with no tip: nobody had to sign it. *)
Abbreviation untipped := (mkSigned (legacy 8989 0) (sig sent) (tx_from sent) (tx_hash sent)).

Definition signed_pre : list bytes :=
  Eval vm_compute in [signing_payload (legacy 8989 5); signing_payload (legacy 1 5); hash_payload sent].
Lemma signed_free : CollisionFree toy (fun e => e ∈ signed_pre).
Proof. apply toy_list_free. vm_compute. reflexivity. Qed.
Lemma signed_dom e : bool_decide (e ∈ signed_pre) = true -> e ∈ signed_pre.
Proof. apply bool_decide_eq_true_1. Qed.

Lemma legacy_typed chain tip : tx_typed_b (legacy chain tip) = true -> tx_typed (legacy chain tip).
Proof. intros H. apply (proj1 (tx_typed_check _ H)). Qed.

Lemma signing_hash_commits_witness : signing_hash toy (legacy 8989 5) <> signing_hash toy (legacy 1 5).
Proof.
  intros E. enough (8989 = 1) as [=].
  refine (match proj1 (@signing_hash_commits toy enc_crate (fun e => e ∈ signed_pre) signed_free (legacy 8989 5) (legacy 1 5) _ _ _ _ _ _) E with
          | conj _ (conj _ (conj _ (conj _ (conj _ (conj _ (conj _ (conj H _))))))) => H end).
  - by apply legacy_typed.
  - by apply legacy_typed.
  - apply item_check. vm_compute. reflexivity.
  - apply item_check. vm_compute. reflexivity.
  - apply signed_dom. vm_compute. reflexivity.
  - apply signed_dom. vm_compute. reflexivity.
Defined.

Definition authentic_b (s : SignedTransaction) : bool :=
  verify_hash toy s && match recover_signer toy (signing_hash toy (tx s)) (sig s) with Ok a => bool_decide (a = tx_from s) | _ => false end.
Lemma authentic_check s : authentic_b s = true -> authentic toy s.
Proof. unfold authentic_b, authentic. intros. bool_to_prop. split; [done|]. case_match; [by bool_to_prop; subst|done..]. Qed.

Lemma tx_hash_identifies_witness : authentic toy untipped /\ effective_gas_price untipped (10 ^ 9) < effective_gas_price sent (10 ^ 9).
Proof.
  split; [|vm_compute; reflexivity].
  refine (proj1 (proj2 (@tx_hash_identifies toy enc_crate toy_curve (fun e => e ∈ signed_pre) signed_free sent untipped _ _ _ _ _ _ _ _ _ _ _) _)).
  - by apply legacy_typed.
  - by apply legacy_typed.
  - apply sig_typed_check. vm_compute. reflexivity.
  - apply sig_typed_check. vm_compute. reflexivity.
  - reflexivity.
  - reflexivity.
  - apply item_check. vm_compute. reflexivity.
  - apply item_check. vm_compute. reflexivity.
  - apply signed_dom. vm_compute. reflexivity.
  - apply signed_dom. vm_compute. reflexivity.
  - apply authentic_check. vm_compute. reflexivity.
  - unfold same_signed. split_and!; try reflexivity; discriminate.
Defined.

(** ** A pool *)

Definition signed_ok_b (s : SignedTransaction) : bool :=
  tx_typed_b (tx s) && (tx_nonce (tx s) <? 2 ^ 64 - 257) && Nat.eqb (length (sig_r (sig s))) 32 && Nat.eqb (length (sig_s (sig s))) 32.
Lemma signed_ok_check s : signed_ok_b s = true -> signed_ok s.
Proof.
  unfold signed_ok_b. intros. bool_to_prop. repeat match goal with H : Nat.eqb _ _ = true |- _ => apply Nat.eqb_eq in H end.
  match goal with H : tx_typed_b _ = true |- _ => apply tx_typed_check in H as [[[] ? ? ?] ?] end.
  split; try done. unfold nonce_ok, in_range in *. lia.
Qed.

Definition pool_op_ok_b (o : PoolOp) : bool :=
  match o with PAdd t bal oc => signed_ok_b t && (0 <=? oc) && (0 <=? bal) && (bal <? umax 128) | _ => true end.
Lemma pool_op_ok_check o : pool_op_ok_b o = true -> pool_op_ok o.
Proof. destruct o; simpl; intros; bool_to_prop; [|done..]. split_and!; [by apply signed_ok_check|done..]. Qed.

Definition run_all (ops : list PoolOp) (p : TransactionPool) : TransactionPool := foldl (fun p o => run_pool toy o p) p ops.
Lemma run_all_star ops p0 p : star (pool_step toy) p0 p -> forallb pool_op_ok_b ops = true -> star (pool_step toy) p0 (run_all ops p).
Proof.
  revert p. induction ops as [|o ops IH]; intros p Hp H; simpl in *; [done|]. apply andb_prop in H as [Ho H].
  apply IH; [|done]. eapply star_snoc; [done|]. exists o. split; [by apply pool_op_ok_check|done].
Qed.

Definition cfg : MempoolConfig := mkPoolConfig 1 2 1 (128 * 1024) 4 16.
Definition rich : Z := 10 ^ 20.
Definition a0 : SignedTransaction := sign 1 (pay 0 (10 ^ 6) 5).
Definition a1 : SignedTransaction := sign 1 (pay 1 (10 ^ 6) 5).
Definition a2 : SignedTransaction := sign 1 (pay 2 (10 ^ 8) 5).
Definition alice : Address := address_of 1.

Definition opening : list PoolOp := [PAdd a0 rich 0; PAdd a1 rich 0; PAdd a2 rich 0].
Definition pool2 : TransactionPool := run_all (take 2 opening) (pool_new cfg).
Definition pool3 : TransactionPool := run_all opening (pool_new cfg).
(** After the block with [a0]: both others are pending. *)
Definition pool4 : TransactionPool := remove_confirmed [a0] pool3.

Lemma pool2_reached : star (pool_step toy) (pool_new cfg) pool2.
Proof. apply run_all_star; [apply star_refl|]. vm_compute. reflexivity. Qed.
Lemma pool3_reached : star (pool_step toy) (pool_new cfg) pool3.
Proof. apply run_all_star; [apply star_refl|]. vm_compute. reflexivity. Qed.
Lemma pool4_reached : star (pool_step toy) (pool_new cfg) pool4.
Proof. eapply star_snoc; [exact pool3_reached|]. exists (PRemove [a0]). split; [exact I|reflexivity]. Qed.

Definition pending_b (k : Key) (p : TransactionPool) : option SignedTransaction := slot_tx <$> pending p !! k.

(** The second transaction of a sender waits in the queue although the first is
    pending: the tracker forgets the pending nonce when it equals the nonce on
    the chain. *)
Lemma second_transaction_queued :
  pending_b (alice, 0) pool3 = Some a0 /\ queued pool3 !! (alice, 1) = Some a1 /\ queued pool3 !! (alice, 2) = Some a2 /\
  next_nonce alice (tracker pool3) = 0.
Proof. vm_compute. done. Qed.


Lemma pool_authentic_witness : admitted toy a2.
Proof.
  refine (proj2 (proj1 (@pool_authentic toy enc_crate toy_curve cfg pool4 pool4_reached) (alice, 2) (mkSlot a2 (10 ^ 8)) _)).
  vm_compute. reflexivity.
Defined.

Definition pool1 : TransactionPool := run_all (take 1 opening) (pool_new cfg).
Lemma pool1_reached : star (pool_step toy) (pool_new cfg) pool1.
Proof. apply run_all_star; [apply star_refl|]. vm_compute. reflexivity. Qed.
Lemma a1_added : add_transaction toy a1 rich 0 pool1 = (Ok (tx_hash a1), pool2).
Proof. vm_compute. reflexivity. Qed.

Lemma pool_admission_witness : admitted toy a1 /\ reserved alice pool2 <= rich.
Proof.
  pose proof (@pool_admission toy enc_crate toy_curve cfg pool1 a1 rich 0 pool1_reached) as H. rewrite a1_added in H.
  destruct H as (_ & _ & Ha & _ & _ & _ & _ & _ & Hr).
  - apply signed_ok_check. vm_compute. reflexivity.
  - reflexivity.
  - split; [discriminate|reflexivity].
  - split; [exact Ha|]. apply Hr. left. vm_compute. reflexivity.
Defined.

Definition slots4 : list PendingSlot := (map_to_list (pending pool4)).*2.
Lemma pool_selection_witness : exists taken, select_transactions slots4 42000 = map slot_tx taken /\ sum_gas taken <= 42000.
Proof.
  destruct (@pool_selection toy enc_crate toy_curve cfg pool4 slots4 42000 pool4_reached) as (taken & H1 & _ & _ & H2 & _).
  - reflexivity.
  - discriminate.
  - reflexivity.
  - exists taken. exact (conj H1 H2).
Defined.

(** ** What the pool loses *)

(** Nonce 2 pays more than nonce 1 and is put before it in the block. *)
Lemma selection_ignores_nonces : map (fun t => tx_nonce (tx t)) (select_transactions slots4 42000) = [2; 1].
Proof. vm_compute. reflexivity. Qed.

(** Promotion does not look at the size of the pending pool. *)
Lemma promotion_overfills : max_pending (config pool4) = 1 /\ pending_count pool4 = 2.
Proof. vm_compute. done. Qed.

(** A replacement of a pending transaction whose nonce is below the next one
    goes to the queue: the old one stays pending and is no longer known, and
    together they cost more than the balance. *)
Definition a1' : SignedTransaction := sign 1 (pay 1 (10 ^ 9) 5).
Lemma replacement_lands_in_queue :
  let bal := reserved alice pool4 in
  let '(r, q) := add_transaction toy a1' bal 1 pool4 in
  r = Ok (tx_hash a1') /\ pending_b (alice, 1) q = Some a1 /\ queued q !! (alice, 1) = Some a1' /\ known q !! tx_hash a1 = None /\
  (bal <? reserved alice q) = true.
Proof. vm_compute. done. Qed.

(** A block with another transaction of the same sender and nonce removes the
    pooled one, whose hash stays known: it is refused ever after. *)
Definition a0' : SignedTransaction := sign 1 (pay 0 (10 ^ 7) 6).
Lemma confirmed_other_leaks_known :
  let p := remove_confirmed [a0'] pool1 in
  pending_count p = 0 /\ queued_count p = 0 /\ fst (add_transaction toy a0 rich 1 p) = Err (AlreadyKnown (tx_hash a0)).
Proof. vm_compute. done. Qed.

(** The tip of a legacy transaction is whatever the last hand it went through
    wrote: it decides on admission, and no check of hash or signature sees it. *)
Lemma unsigned_tip_decides :
  let p := pool_new cfg in
  let priority_of (s : SignedTransaction) := priority <$> pending (snd (add_transaction toy s rich 0 p)) !! (alice, 0) in
  tx_hash sent = tx_hash untipped /\ priority_of sent = Some (10 ^ 9) /\
  fst (add_transaction toy untipped rich 0 p) = Err (FeeTooLow 0 1).
Proof. vm_compute. done. Qed.
