(* ===== verification/StakingDb.v ===== *)
(** * Staking rows on disk and their write-set
      (crates/zbx-staking/src/delta.rs, error.rs, crates/zbx-storage/src/db.rs)

    The delegation and unbonding columns of the node's database, at the level
    of the keys and values stored, and the write-set that a block accumulates
    over them.  RocksDB's column families are maps of byte strings whose
    iterator lists the keys in lexicographic order; its I/O errors are not
    modelled.  The theorems show that the two columns seen through the
    write-set are one map of rows, and that committing the block stores that
    map. *)

From Stdlib Require Import ZArith Lia Sorting.Sorted.
From stdpp Require Import base tactics list gmap countable numbers option fin_maps fin_map_dom.
From S2P Require Import Prelude Bytes Collections Crypto.

Local Open Scope Z_scope.

(** ** Errors (error.rs)

    [EvidenceFault], [PersistenceFault] and [PayloadFault] tell apart the texts
    the code formats into the three string-carrying errors. *)

Inductive PersistenceFault : Type := WrongLength (n : Z) | Corrupt | RecordVanished.
Inductive EvidenceFault : Type := BadBlsPubkey | BadBlsPop | PopDoesNotVerify | NoOffender | EquivocationNotVerified.
Inductive PayloadFault : Type :=
| BadCodec | AppealMisrouted | ModuleNameNotUtf8 | ModuleNameLength (n : Z) | ActivationNotFuture (activation height : Z)
| ProposalInvalid | ProposalExists (id : Z) | ProposalNotFound (id : Z) | ProposalNotPending.

Inductive StakingError : Type :=
| AlreadyRegistered (a : Address)
| NotFound (a : Address)
| InsufficientSelfStake (have need : Z)
| UnbondingPeriod (remaining : Z)
| Jailed_
| DelegationTooSmall (minimum : Z)
| NoPendingRewards (a : Address)
| EpochNotComplete
| InvalidEvidence (why : EvidenceFault)
| DuplicateEvidence
| EvidenceNotFound
| AppealNotAllowed
| AppealWindowExpired
| Persistence (why : PersistenceFault)
| InvalidAmount
| InsufficientStake
| UnknownValidator
| NoDelegation
| UnexpectedValue (got expected : Z)
| InsufficientDelegation (have requested : Z)
| NothingToWithdraw
| NotAValidator (a : Address)
| BadPayload (why : PayloadFault)
| EscrowUnderflow (have need : Z)
| AppealNotByOffender
| AppealBondMismatch (got need : Z)
| OverturnNotAllowed.

(** ** The columns (db.rs) *)

Abbreviation Column := (gmap bytes bytes).
(** The columns the staking code uses. *)
Record ZbxDb : Type := mkDb {
  Delegations : Column; Unbonding : Column; Metadata : Column;
  SlashingEvidence : Column; SlashingRecords : Column; SlashingBonds : Column }.

(** [u128::to_le_bytes], [u128::from_le_bytes]. *)
Definition le16 (x : Z) : bytes := reverse (to_be 16 x).
Definition le_val (b : bytes) : Z := be_val (reverse b).

Definition delegation_key (validator delegator : Address) : bytes := validator ++ delegator.
Definition unbonding_key (unlock_height : Z) (delegator validator : Address) : bytes :=
  to_be 8 unlock_height ++ delegator ++ validator.

Definition db_get_delegation (validator delegator : Address) (db : ZbxDb) : res StakingError Z :=
  match Delegations db !! delegation_key validator delegator with
  | None => Ok 0
  | Some b => if zlen b =? 16 then Ok (le_val b) else Err (Persistence (WrongLength (zlen b)))
  end.

Definition db_get_unbonding_entry (unlock_height : Z) (delegator validator : Address) (db : ZbxDb) : Z :=
  match Unbonding db !! unbonding_key unlock_height delegator validator with
  | Some v => if zlen v =? 16 then le_val v else 0
  | None => 0
  end.

(** [iterator_cf(.., IteratorMode::Start)]: the keys in ascending order. *)
Definition key_leb (a b : bytes * bytes) : bool := bytes_leb (fst a) (fst b).
Definition iterator_cf (c : Column) : list (bytes * bytes) := sort_by key_leb (map_to_list c).

(** The loop stops at the first row that is not mature. *)
Fixpoint matured_loop (who : Address) (current_height : Z) (items : list (bytes * bytes)) : list (Z * Address * Z) :=
  match items with
  | [] => []
  | (k, v) :: items =>
    if negb ((zlen k =? 48) && (zlen v =? 16)) then matured_loop who current_height items
    else
      let unlock_height := be_val (take 8 k) in
      if current_height <? unlock_height then []
      else if negb (bool_decide (take 20 (drop 8 k) = who)) then matured_loop who current_height items
      else (unlock_height, drop 28 k, le_val v) :: matured_loop who current_height items
  end.
Definition db_iter_matured_unbondings_for (who : Address) (current_height : Z) (db : ZbxDb) : list (Z * Address * Z) :=
  matured_loop who current_height (iterator_cf (Unbonding db)).

Definition set_delegations (c : Column) (db : ZbxDb) : ZbxDb :=
  mkDb c (Unbonding db) (Metadata db) (SlashingEvidence db) (SlashingRecords db) (SlashingBonds db).
Definition set_unbonding (c : Column) (db : ZbxDb) : ZbxDb :=
  mkDb (Delegations db) c (Metadata db) (SlashingEvidence db) (SlashingRecords db) (SlashingBonds db).
Definition put_metadata (k v : bytes) (db : ZbxDb) : ZbxDb :=
  mkDb (Delegations db) (Unbonding db) (<[k := v]> (Metadata db)) (SlashingEvidence db) (SlashingRecords db) (SlashingBonds db).

(** A [WriteBatch] on one column: puts and deletes applied in order. *)
Abbreviation WriteOp := (bytes * option bytes)%type.
Definition write_batch (ops : list WriteOp) (c : Column) : Column :=
  foldl (fun c '(k, o) => partial_alter (fun _ => o) k c) c ops.

Definition apply_staking_delta (delegations : list (Address * Address * Z)) (unbonding_puts : list (Z * Address * Address * Z))
    (unbonding_deletes : list (Z * Address * Address)) (db : ZbxDb) : ZbxDb :=
  let delegation_ops := map (fun '(validator, delegator, amount) =>
    (delegation_key validator delegator, if amount =? 0 then None else Some (le16 amount))) delegations in
  let put_ops := map (fun '(unlock, delegator, validator, amount) =>
    (unbonding_key unlock delegator validator, Some (le16 amount))) unbonding_puts in
  let delete_ops := map (fun '(unlock, delegator, validator) =>
    (unbonding_key unlock delegator validator, None)) unbonding_deletes in
  set_unbonding (write_batch (put_ops ++ delete_ops) (Unbonding db))
    (set_delegations (write_batch delegation_ops (Delegations db)) db).

(** ** The write-set (delta.rs) *)

(** (unlock height, delegator, validator) *)
Abbreviation UnbondKey := (Z * Address * Address)%type.

Record StakingDelta : Type := mkDelta {
  delegations : gmap (Address * Address) Z; unbonding_puts : gmap UnbondKey Z; unbonding_deletes : gset UnbondKey }.

Definition delta_new : StakingDelta := mkDelta ∅ ∅ ∅.
Definition delta_is_empty (d : StakingDelta) : bool :=
  bool_decide (delegations d = ∅) && bool_decide (unbonding_puts d = ∅) && bool_decide (unbonding_deletes d = ∅).

Definition get_delegation (db : ZbxDb) (validator delegator : Address) (d : StakingDelta) : res StakingError Z :=
  match delegations d !! (validator, delegator) with
  | Some v => Ok v
  | None => db_get_delegation validator delegator db
  end.
Definition put_delegation (validator delegator : Address) (amount : Z) (d : StakingDelta) : StakingDelta :=
  mkDelta (<[(validator, delegator) := amount]> (delegations d)) (unbonding_puts d) (unbonding_deletes d).

Definition get_unbonding_entry (db : ZbxDb) (unlock : Z) (delegator validator : Address) (d : StakingDelta) : Z :=
  let key := (unlock, delegator, validator) in
  if bool_decide (key ∈ unbonding_deletes d) then default 0 (unbonding_puts d !! key)
  else match unbonding_puts d !! key with
  | Some v => v
  | None => db_get_unbonding_entry unlock delegator validator db
  end.
Definition put_unbonding_entry (unlock : Z) (delegator validator : Address) (amount : Z) (d : StakingDelta) : StakingDelta :=
  let key := (unlock, delegator, validator) in
  mkDelta (delegations d) (<[key := amount]> (unbonding_puts d)) (unbonding_deletes d ∖ {[key]}).
Definition delete_unbonding_entry (unlock : Z) (delegator validator : Address) (d : StakingDelta) : StakingDelta :=
  let key := (unlock, delegator, validator) in
  mkDelta (delegations d) (delete key (unbonding_puts d)) ({[key]} ∪ unbonding_deletes d).
Definition delete_unbonding_entries (delegator : Address) (entries : list (Z * Address)) (d : StakingDelta) : StakingDelta :=
  foldl (fun d '(h, v) => delete_unbonding_entry h delegator v d) d entries.

(** The order in which the hash maps of the write-set are iterated. *)
Class DeltaOrder : Type := {
  order_puts : gmap UnbondKey Z -> list (UnbondKey * Z);
  order_delegations : gmap (Address * Address) Z -> list (Address * Address * Z);
  order_deletes : gset UnbondKey -> list UnbondKey }.
Class DeltaOrderLaws `{DeltaOrder} : Prop := {
  order_puts_ok : forall m, order_puts m ≡ₚ map_to_list m;
  order_delegations_ok : forall m, order_delegations m ≡ₚ map_to_list m;
  order_deletes_ok : forall s, order_deletes s ≡ₚ elements s }.

(** Unlock heights and validators already listed are skipped. *)
Fixpoint push_new_puts (who : Address) (current_height : Z) (puts : list (UnbondKey * Z)) (seen : gset (Z * Address))
    : list (Z * Address * Z) :=
  match puts with
  | [] => []
  | ((unlock, delegator, validator), amt) :: puts =>
    if negb (bool_decide (delegator = who)) then push_new_puts who current_height puts seen
    else if current_height <? unlock then push_new_puts who current_height puts seen
    else if bool_decide ((unlock, validator) ∈ seen) then push_new_puts who current_height puts seen
    else (unlock, validator, amt) :: push_new_puts who current_height puts ({[(unlock, validator)]} ∪ seen)
  end.

Definition iter_matured_unbondings_for `{DeltaOrder} (db : ZbxDb) (who : Address) (current_height : Z) (d : StakingDelta)
    : list (Z * Address * Z) :=
  let on_disk := db_iter_matured_unbondings_for who current_height db in
  let on_disk := filter (fun '(h, v, _) => (h, who, v) ∉ unbonding_deletes d) on_disk in
  let on_disk := map (fun '(h, v, amt) => (h, v, default amt (unbonding_puts d !! (h, who, v)))) on_disk in
  let seen := list_to_set (map fst on_disk) in
  on_disk ++ push_new_puts who current_height (order_puts (unbonding_puts d)) seen.

(** The producer's flush (block_producer.rs): nothing is written for an empty
    write-set. *)
Definition flush_delta `{DeltaOrder} (d : StakingDelta) (db : ZbxDb) : ZbxDb :=
  if delta_is_empty d then db
  else apply_staking_delta (order_delegations (delegations d)) (order_puts (unbonding_puts d)) (order_deletes (unbonding_deletes d)) db.

(** ** The unbonding column as a map of rows *)

Definition addr20 (a : Address) : Prop := length a = 20%nat /\ Forall byte a.
Definition key_ok (k : UnbondKey) : Prop := let '(u, d, v) := k in in_range 64 u /\ addr20 d /\ addr20 v.
Definition col_ok (c : Column) : Prop := map_Forall (fun k v => Forall byte k /\ Forall byte v) c.

(** What the iterator makes of a stored row. *)
Definition parse_row (kv : bytes * bytes) : option (UnbondKey * Z) :=
  let '(k, v) := kv in
  if (zlen k =? 48) && (zlen v =? 16) then Some ((be_val (take 8 k), take 20 (drop 8 k), drop 28 k), le_val v) else None.
Definition rows_of (c : Column) : gmap UnbondKey Z := list_to_map (omap parse_row (map_to_list c)).

(** The column through the write-set. *)
Definition rows (db : ZbxDb) (d : StakingDelta) : gmap UnbondKey Z :=
  unbonding_puts d ∪ filter (fun kv => fst kv ∉ unbonding_deletes d) (rows_of (Unbonding db)).

Lemma le_val_le16 x : in_range 128 x -> le_val (le16 x) = x.
Proof.
  intros Hx. unfold le_val, le16. rewrite reverse_involutive, be_val_to_be. apply Z.mod_small. exact Hx.
Qed.
Lemma zlen_le16 x : zlen (le16 x) = 16.
Proof. unfold le16, zlen. by rewrite length_reverse, length_to_be. Qed.

Lemma uk_parts (u : Z) d v : key_ok (u, d, v) ->
  be_val (take 8 (unbonding_key u d v)) = u /\ take 20 (drop 8 (unbonding_key u d v)) = d /\
  drop 28 (unbonding_key u d v) = v /\ zlen (unbonding_key u d v) = 48.
Proof.
  intros (Hu & [Ld _] & [Lv _]). unfold unbonding_key, zlen. assert (length (to_be 8 u) = 8%nat) as L8 by apply length_to_be.
  rewrite take_app_length' by done. rewrite drop_app_length' by done. rewrite take_app_length' by done.
  rewrite (app_assoc (to_be 8 u)), drop_app_length' by (rewrite length_app; lia).
  split_and!; [|done..|rewrite !length_app; lia]. rewrite be_val_to_be. by apply Z.mod_small.
Qed.

Lemma parse_key u d v b : key_ok (u, d, v) -> zlen b = 16 -> parse_row (unbonding_key u d v, b) = Some ((u, d, v), le_val b).
Proof.
  intros Hk Hb. destruct (uk_parts u d v Hk) as (E1 & E2 & E3 & E4). unfold parse_row.
  by rewrite E4, Hb, E1, E2, E3.
Qed.

Lemma parse_inv k b uk a : Forall byte k -> parse_row (k, b) = Some (uk, a) ->
  key_ok uk /\ k = (let '(u, d, v) := uk in unbonding_key u d v) /\ zlen b = 16 /\ a = le_val b.
Proof.
  unfold parse_row. intros Hk Hp. destruct (Z.eqb_spec (zlen k) 48) as [Lk|]; [|done].
  destruct (Z.eqb_spec (zlen b) 16) as [Lb|]; [|done]. injection Hp as <- <-. unfold zlen in *.
  assert (length (take 8 k) = 8%nat) as L8 by (rewrite length_take; lia).
  assert (length (take 20 (drop 8 k)) = 20%nat) as L20 by (rewrite length_take, length_drop; lia).
  assert (length (drop 28 k) = 20%nat) as L28 by (rewrite length_drop; lia).
  pose proof (be_val_bound (take 8 k) (Forall_take _ _ _ Hk)) as B8. unfold zlen in B8. rewrite L8 in B8.
  split_and!; try done.
  - split; [exact B8|]. split; (split; [done|]); auto using Forall_take, Forall_drop.
  - unfold unbonding_key. rewrite <-L8 at 1. rewrite to_be_be_val by auto using Forall_take.
    rewrite <-(take_drop 8 k) at 1. f_equal. rewrite <-(take_drop 20 (drop 8 k)) at 1. f_equal. by rewrite drop_drop.
Qed.

(** Distinct keys stay distinct through a partial map that is injective on them. *)
Lemma omap_keys_nodup {K A J B} (f : K * A -> option (J * B)) (l : list (K * A)) : NoDup l.*1 ->
  (forall k1 a1 k2 a2 j b1 b2, (k1, a1) ∈ l -> (k2, a2) ∈ l -> f (k1, a1) = Some (j, b1) -> f (k2, a2) = Some (j, b2) -> k1 = k2) ->
  NoDup (omap f l).*1.
Proof.
  induction l as [|[k a] l IH]; [constructor|]. rewrite fmap_cons. intros [Hni Hnd]%list.NoDup_cons Hinj.
  assert (NoDup (omap f l).*1) as Hl.
  { apply IH; [done|]. intros. eapply Hinj; by try apply list_elem_of_further. }
  change (omap f ((k, a) :: l)) with (match f (k, a) with Some y => y :: omap f l | None => omap f l end).
  destruct (f (k, a)) as [[j b]|] eqn:E; [|done]. rewrite fmap_cons. apply list.NoDup_cons. split; [|done].
  intros ([j' b'] & Ej & ([k' a'] & Hin & E')%list_elem_of_omap)%list_elem_of_fmap. simpl in *. subst j'. apply Hni.
  apply list_elem_of_fmap. exists (k', a'). split; [|done]. simpl.
  eapply (Hinj k a k' a'); [apply list_elem_of_here|by apply list_elem_of_further|done..].
Qed.

Lemma parse_nodup c : col_ok c -> NoDup (omap parse_row (map_to_list c)).*1.
Proof.
  intros Hc. apply omap_keys_nodup; [apply NoDup_fst_map_to_list|].
  intros k1 b1 k2 b2 uk a1 a2 H1%elem_of_map_to_list H2%elem_of_map_to_list P1 P2.
  destruct (parse_inv _ _ _ _ (proj1 (Hc _ _ H1)) P1) as (_ & -> & _).
  by destruct (parse_inv _ _ _ _ (proj1 (Hc _ _ H2)) P2) as (_ & -> & _).
Qed.

Lemma rows_of_spec c uk a : col_ok c ->
  rows_of c !! uk = Some a <->
  key_ok uk /\ exists b, c !! (let '(u, d, v) := uk in unbonding_key u d v) = Some b /\ zlen b = 16 /\ a = le_val b.
Proof.
  intros Hc. unfold rows_of. rewrite <-elem_of_list_to_map.
  - rewrite list_elem_of_omap. split.
    + intros ([k b] & Hin%elem_of_map_to_list & Hp). destruct (Hc k b Hin) as [Hk _].
      destruct (parse_inv _ _ _ _ Hk Hp) as (Hok & -> & Lb & ->). eauto.
    + intros (Hok & b & Hb & Lb & ->). destruct uk as [[u d] v]. eexists. split; [by apply elem_of_map_to_list|].
      by apply parse_key.
  - by apply parse_nodup.
Qed.

(** ** Matured rows *)

Definition matured_row (who : Address) (current_height : Z) (r : UnbondKey * Z) : option (Z * Address * Z) :=
  let '((u, d, v), a) := r in if (u <=? current_height) && bool_decide (d = who) then Some (u, v, a) else None.
Definition matured (who : Address) (current_height : Z) (m : gmap UnbondKey Z) : list (Z * Address * Z) :=
  omap (matured_row who current_height) (map_to_list m).

Lemma omap_omap {A B C} (f : A -> option B) (g : B -> option C) (l : list A) : omap g (omap f l) = omap (fun x => f x ≫= g) l.
Proof. induction l as [|x l IH]; [done|]. csimpl. destruct (f x); csimpl; by rewrite IH. Qed.
Lemma omap_none {A B} (f : A -> option B) (l : list A) : Forall (fun x => f x = None) l -> omap f l = [].
Proof. induction 1 as [|x l Hx _ IH]; [done|]. csimpl. by rewrite Hx. Qed.

Lemma key_leb_total : le_total key_leb.
Proof. intros [] []. apply bytes_leb_total. Qed.
Lemma key_leb_trans : le_trans key_leb.
Proof. intros [] [] []. apply bytes_leb_trans. Qed.

Lemma matured_loop_spec who h items : StronglySorted (fun x y => key_leb x y = true) items ->
  Forall (fun kv => Forall byte (fst kv)) items ->
  matured_loop who h items = omap (fun kv => parse_row kv ≫= matured_row who h) items.
Proof.
  induction items as [|[k b] items IH]; [done|]. intros [Hs Hle]%StronglySorted_inv [Hk Hb]%Forall_cons_iff.
  specialize (IH Hs Hb). simpl in Hk. unfold parse_row at 1. simpl. rewrite IH.
  destruct (Z.eqb_spec (zlen k) 48) as [Lk|]; simpl; [|done]. destruct (Z.eqb_spec (zlen b) 16) as [Lb|]; simpl; [|done].
  destruct (Z.ltb_spec h (be_val (take 8 k))) as [Hlt|Hge]; simpl.
  - rewrite (proj2 (Z.leb_gt _ _)) by done. simpl. symmetry. apply omap_none.
    apply list_relations.list.Forall_forall. intros [k' b'] Hin.
    pose proof (proj1 (list_relations.list.Forall_forall _ _) Hle _ Hin) as Hkk.
    pose proof (proj1 (list_relations.list.Forall_forall _ _) Hb _ Hin) as Hk'. unfold key_leb in Hkk. simpl in *.
    unfold parse_row. destruct (Z.eqb_spec (zlen k') 48) as [Lk'|]; simpl; [|done]. destruct (zlen b' =? 16); simpl; [|done].
    rewrite (proj2 (Z.leb_gt _ _)); [done|]. apply bytes_leb_le in Hkk.
    rewrite <-(take_drop 8 k), <-(take_drop 8 k') in Hkk. unfold zlen in *.
    apply (bytes_cmp_be 8) in Hkk; [lia|rewrite length_take; lia|rewrite length_take; lia|by apply Forall_take..].
  - rewrite (proj2 (Z.leb_le _ _)) by done. simpl. by destruct (bool_decide (take 20 (drop 8 k) = who)).
Qed.

Lemma db_matured who h db : col_ok (Unbonding db) ->
  db_iter_matured_unbondings_for who h db ≡ₚ matured who h (rows_of (Unbonding db)).
Proof.
  intros Hc. unfold db_iter_matured_unbondings_for, iterator_cf, matured. rewrite matured_loop_spec.
  - rewrite (sort_by_perm key_leb), <-omap_omap. unfold rows_of. by rewrite map_to_list_to_map by (by apply parse_nodup).
  - apply sort_by_sorted; [apply key_leb_total|apply key_leb_trans].
  - rewrite (sort_by_perm key_leb). apply list_relations.list.Forall_forall. intros [k b] Hin%elem_of_map_to_list. apply (Hc _ _ Hin).
Qed.

(** ** The write-set over the column *)

Lemma rows_lookup db d k : rows db d !! k =
  match unbonding_puts d !! k with
  | Some v => Some v
  | None => if decide (k ∈ unbonding_deletes d) then None else rows_of (Unbonding db) !! k
  end.
Proof.
  unfold rows. rewrite lookup_union, map_lookup_filter. destruct (unbonding_puts d !! k); simpl; [by destruct (_ ≫= _)|].
  rewrite (left_id_L None (∪)). case_decide; destruct (rows_of (Unbonding db) !! k) as [x|]; simpl; try done.
  - by rewrite option_guard_False by (simpl; tauto).
  - by rewrite option_guard_True.
Qed.

Lemma matured_elem who h m u v a : (u, v, a) ∈ matured who h m <-> m !! (u, who, v) = Some a /\ u <= h.
Proof.
  unfold matured. rewrite list_elem_of_omap. split.
  - intros ([[[u' d'] v'] a'] & Hin%elem_of_map_to_list & Hm). unfold matured_row in Hm.
    destruct (Z.leb_spec u' h); simpl in Hm; [|done]. case_bool_decide; [|done]. by simplify_eq.
  - intros [Hm Hu]. exists ((u, who, v), a). split; [by apply elem_of_map_to_list|]. simpl.
    by rewrite (proj2 (Z.leb_le _ _)), bool_decide_eq_true_2.
Qed.

Lemma matured_row_inv who h u d v a r : matured_row who h ((u, d, v), a) = Some r -> r = (u, v, a) /\ d = who /\ u <= h.
Proof.
  simpl. destruct (Z.leb_spec u h); simpl; [|done]. case_bool_decide; [|done]. intros [= <-]. done.
Qed.

Lemma matured_keys_nodup who h m : NoDup (matured who h m).*1.
Proof.
  apply omap_keys_nodup; [apply NoDup_fst_map_to_list|].
  intros [[u1 d1] v1] a1 [[u2 d2] v2] a2 j b1 b2 _ _ H1%matured_row_inv H2%matured_row_inv.
  destruct H1 as (E1 & -> & _), H2 as (E2 & -> & _). by simplify_eq.
Qed.

Lemma filter_ext_in {A} (P Q : A -> Prop) `{!forall x, Decision (P x), !forall x, Decision (Q x)} (l : list A) :
  (forall x, x ∈ l -> P x <-> Q x) -> filter P l = filter Q l.
Proof.
  induction l as [|x l IH]; intros Hl; [done|]. rewrite !filter_cons, IH by (intros; apply Hl; by apply list_elem_of_further).
  pose proof (Hl x (list_elem_of_here _ _)). by repeat case_decide; try tauto.
Qed.

Lemma nodup_keys_filter {K A} (P : K * A -> Prop) `{!forall x, Decision (P x)} (l : list (K * A)) :
  NoDup l.*1 -> NoDup (filter P l).*1.
Proof.
  induction l as [|x l IH]; [done|]. rewrite fmap_cons, filter_cons. intros [Hni Hnd]%list.NoDup_cons.
  case_decide; [|auto]. rewrite fmap_cons. apply list.NoDup_cons. split; [|auto]. intros Hin. apply Hni.
  apply list_elem_of_fmap in Hin as (y & -> & [_ Hy]%list_elem_of_filter). by apply list_elem_of_fmap_2.
Qed.

Lemma push_new_spec who h puts seen : NoDup puts.*1 ->
  push_new_puts who h puts seen = filter (fun r => fst r ∉ seen) (omap (matured_row who h) puts).
Proof.
  revert seen. induction puts as [|[[[u d] v] a] puts IH]; intros seen; [done|]. rewrite fmap_cons.
  intros [Hni Hnd]%list.NoDup_cons. csimpl. destruct (Z.leb_spec u h) as [Hu|Hu]; simpl.
  2: { rewrite IH, (proj2 (Z.ltb_lt _ _)) by done. by destruct (bool_decide (d = who)). }
  rewrite (proj2 (Z.ltb_ge _ _)) by done. case_bool_decide as Hd; simpl; [subst d|by apply IH].
  rewrite filter_cons. case_bool_decide as Hin.
  - rewrite decide_False by (simpl; tauto). by apply IH.
  - rewrite decide_True by done. f_equal. rewrite IH by done. apply filter_ext_in.
    intros [[u' v'] a'] ([[[u2 d2] v2] a2] & Hin2 & E)%list_elem_of_omap.
    apply matured_row_inv in E as (E & -> & _). injection E as -> -> ->. simpl.
    assert ((u2, v2) <> (u, v)); [|set_solver]. intros [= -> ->]. apply Hni, list_elem_of_fmap. by exists ((u, who, v), a2).
Qed.

Section overlay.
Context `{DeltaOrderLaws}.

Lemma order_puts_nodup m : NoDup (order_puts m).*1.
Proof. rewrite order_puts_ok. apply NoDup_fst_map_to_list. Qed.

(** The listing of the matured rows is that of the rows seen. *)
Lemma iter_matured_rows db who h d : col_ok (Unbonding db) ->
  iter_matured_unbondings_for db who h d ≡ₚ matured who h (rows db d).
Proof.
  intros Hc. unfold iter_matured_unbondings_for.
  set (disk := db_iter_matured_unbondings_for who h db). pose proof (db_matured who h db Hc) as Hdisk. fold disk in Hdisk.
  set (g := fun '(h', v, amt) => (h', v, default amt (unbonding_puts d !! (h', who, v)))).
  set (kept := filter _ disk). set (over := map g kept).
  rewrite push_new_spec by apply order_puts_nodup. fold (matured who h).
  assert (forall u v a, (u, v, a) ∈ over <-> u <= h /\ (u, who, v) ∉ unbonding_deletes d /\
    exists a0, rows_of (Unbonding db) !! (u, who, v) = Some a0 /\ a = default a0 (unbonding_puts d !! (u, who, v))) as Hover.
  { intros u v a. unfold over. split.
    - intros ([[u' v'] a'] & E & Hin%list_elem_of_filter)%list_elem_of_fmap. injection E as -> -> ->.
      destruct Hin as [Hnd Hin]. rewrite Hdisk in Hin. apply matured_elem in Hin as [Hr Hu]. eauto.
    - intros (Hu & Hnd & a0 & Hr & ->). apply list_elem_of_fmap. exists (u, v, a0). split; [done|].
      apply list_elem_of_filter. split; [done|]. rewrite Hdisk. by apply matured_elem. }
  assert (NoDup over.*1) as Hnd.
  { unfold over. assert (map g kept = g <$> kept) as -> by done. rewrite <-list_fmap_compose.
    replace (fst ∘ g <$> kept) with kept.*1 by (apply list_fmap_ext; intros ? [[? ?] ?] _; done).
    apply nodup_keys_filter. rewrite Hdisk. apply matured_keys_nodup. }
  assert (forall u v a, (u, v, a) ∈ filter (fun r => r.1 ∉ (list_to_set over.*1 : gset (Z * Address)))
      (omap (matured_row who h) (order_puts (unbonding_puts d))) <->
    u <= h /\ unbonding_puts d !! (u, who, v) = Some a /\ (u, v) ∉ over.*1) as Hnew.
  { intros u v a. rewrite list_elem_of_filter, order_puts_ok. fold (matured who h (unbonding_puts d)).
    rewrite matured_elem, elem_of_list_to_set. simpl. tauto. }
  apply NoDup_Permutation; [| |].
  - apply NoDup_fmap_1 with fst. rewrite fmap_app. apply NoDup_app. split; [done|]. split.
    + intros [u v] Hin ([[u' v'] a'] & E & Hin')%list_elem_of_fmap. simpl in E. subst. injection E as -> ->.
      by apply Hnew in Hin' as (_ & _ & Hni).
    + apply nodup_keys_filter. rewrite order_puts_ok. apply matured_keys_nodup.
  - eapply NoDup_fmap_1, matured_keys_nodup.
  - intros [[u v] a]. rewrite elem_of_app, Hover, Hnew, matured_elem, rows_lookup. split.
    + intros [(Hu & Hnd' & a0 & Hr & ->)|(Hu & -> & _)]; [|done]. destruct (unbonding_puts d !! _); simpl; [done|].
      by rewrite decide_False, Hr.
    + intros [Hr Hu]. destruct (unbonding_puts d !! (u, who, v)) as [x|] eqn:Hp.
      * injection Hr as ->. destruct (decide ((u, v) ∈ over.*1)) as [Hin|]; [left|right; done].
        apply list_elem_of_fmap in Hin as ([[u' v'] a'] & E & Hin). injection E as -> ->.
        apply Hover in Hin as (_ & Hnd' & a0 & Hr & _). eauto 6.
      * case_decide; [done|]. left. split; [done|]. split; [done|]. eauto.
Qed.
End overlay.

(** ** Committing the write-set *)

Lemma write_batch_app l k c : write_batch (l ++ k) c = write_batch k (write_batch l c).
Proof. apply foldl_app. Qed.
Lemma write_batch_other ops c k : k ∉ ops.*1 -> write_batch ops c !! k = c !! k.
Proof.
  revert c. induction ops as [|[k' o] ops IH]; intros c Hk; [done|]. rewrite fmap_cons, not_elem_of_cons in Hk.
  destruct Hk as [Hne Hk]. simpl in *. rewrite IH by done. by apply lookup_partial_alter_ne.
Qed.
Lemma write_batch_at ops c k o : NoDup ops.*1 -> (k, o) ∈ ops -> write_batch ops c !! k = o.
Proof.
  revert c. induction ops as [|[k' o'] ops IH]; intros c; [by intros _ ?%elem_of_nil|].
  rewrite fmap_cons. intros [Hni Hnd]%list.NoDup_cons [E|Hin]%elem_of_cons; simpl; [|by apply IH].
  injection E as -> ->. rewrite write_batch_other by done. apply lookup_partial_alter_eq.
Qed.
Lemma write_batch_ok ops c : col_ok c ->
  Forall (fun op => Forall byte (fst op) /\ match snd op with Some b => Forall byte b | None => True end) ops ->
  col_ok (write_batch ops c).
Proof.
  intros Hc Hops. revert c Hc. induction Hops as [|[k o] ops [Hk Ho] _ IH]; intros c Hc; [done|]. simpl. apply IH.
  intros k' b. destruct (decide (k' = k)) as [->|]; [rewrite lookup_partial_alter_eq|rewrite lookup_partial_alter_ne by done; apply Hc].
  simpl in *. intros ->. done.
Qed.

Definition pair_ok (p : Address * Address) : Prop := addr20 (fst p) /\ addr20 (snd p).
Record delta_ok (d : StakingDelta) : Prop := mkDeltaOk {
  puts_ok : map_Forall (fun k a => key_ok k /\ in_range 128 a) (unbonding_puts d);
  deletes_ok : set_Forall key_ok (unbonding_deletes d);
  puts_kept : forall k, k ∈ unbonding_deletes d -> unbonding_puts d !! k = None;
  dels_ok : map_Forall (fun p a => pair_ok p /\ in_range 128 a) (delegations d) }.
(** Delegation rows hold 16 bytes. *)
Definition del_ok (c : Column) : Prop := map_Forall (fun _ b => zlen b = 16) c.

Definition uk_key (k : UnbondKey) : bytes := let '(u, d, v) := k in unbonding_key u d v.

Lemma uk_key_inj k k' : key_ok k -> key_ok k' -> uk_key k = uk_key k' -> k = k'.
Proof.
  destruct k as [[u d] v], k' as [[u' d'] v']. simpl. intros Hk Hk' E.
  destruct (uk_parts _ _ _ Hk) as (E1 & E2 & E3 & _). destruct (uk_parts _ _ _ Hk') as (F1 & F2 & F3 & _).
  rewrite E in E1, E2, E3. congruence.
Qed.
Lemma uk_key_bytes k : key_ok k -> Forall byte (uk_key k).
Proof. destruct k as [[u d] v]. intros (_ & [_ ?] & [_ ?]). unfold uk_key, unbonding_key. apply Forall_app_2; [apply to_be_bytes|by apply Forall_app_2]. Qed.
Lemma delegation_key_inj p p' : pair_ok p -> pair_ok p' ->
  delegation_key (fst p) (snd p) = delegation_key (fst p') (snd p') -> p = p'.
Proof.
  destruct p, p'. intros [[L _] _] [[L' _] _]. unfold delegation_key. simpl in *. intros [-> ->]%app_inj_length; [done|lia].
Qed.

Section commit.
Context `{DeltaOrderLaws}.

Definition put_op (kv : UnbondKey * Z) : WriteOp := (uk_key (fst kv), Some (le16 (snd kv))).
Definition unb_ops (d : StakingDelta) : list WriteOp :=
  map put_op (order_puts (unbonding_puts d)) ++ map (fun k => (uk_key k, None)) (order_deletes (unbonding_deletes d)).
Definition del_op (pv : Address * Address * Z) : WriteOp :=
  (delegation_key (fst (fst pv)) (snd (fst pv)), if snd pv =? 0 then None else Some (le16 (snd pv))).

Lemma apply_delta_ops d db : apply_staking_delta (order_delegations (delegations d)) (order_puts (unbonding_puts d))
    (order_deletes (unbonding_deletes d)) db =
  set_unbonding (write_batch (unb_ops d) (Unbonding db))
    (set_delegations (write_batch (map del_op (order_delegations (delegations d))) (Delegations db)) db).
Proof.
  unfold apply_staking_delta, unb_ops. cbv zeta. f_equal.
  - do 2 f_equal; apply map_ext; by intros [[[? ?] ?] ?] || intros [[? ?] ?].
  - f_equal. f_equal. apply map_ext. by intros [[? ?] ?].
Qed.

Lemma flush_ops d db : flush_delta d db =
  set_unbonding (write_batch (unb_ops d) (Unbonding db))
    (set_delegations (write_batch (map del_op (order_delegations (delegations d))) (Delegations db)) db).
Proof.
  unfold flush_delta. destruct (delta_is_empty d) eqn:E; [|apply apply_delta_ops].
  unfold delta_is_empty in E. rewrite !andb_true_iff, !bool_decide_eq_true in E. destruct E as [[E1 E2] E3].
  unfold unb_ops. rewrite E1, E2, E3. assert (order_puts ∅ = []) as -> by (apply Permutation_nil_r; rewrite order_puts_ok, map_to_list_empty; done).
  assert (order_deletes ∅ = []) as -> by (apply Permutation_nil_r; rewrite order_deletes_ok, elements_empty; done).
  assert (order_delegations ∅ = []) as -> by (apply Permutation_nil_r; rewrite order_delegations_ok, map_to_list_empty; done).
  by destruct db.
Qed.

Lemma unb_ops_elem d k o : (k, o) ∈ unb_ops d <->
  (exists uk a, unbonding_puts d !! uk = Some a /\ k = uk_key uk /\ o = Some (le16 a)) \/
  (exists uk, uk ∈ unbonding_deletes d /\ k = uk_key uk /\ o = None).
Proof.
  unfold unb_ops. rewrite elem_of_app. split.
  - intros [([uk a] & [= -> ->] & Hin)%list_elem_of_fmap|(uk & [= -> ->] & Hin)%list_elem_of_fmap]; [left|right].
    + rewrite order_puts_ok, elem_of_map_to_list in Hin. eauto.
    + rewrite order_deletes_ok, elem_of_elements in Hin. eauto.
  - intros [(uk & a & Hin & -> & ->)|(uk & Hin & -> & ->)]; [left|right]; apply list_elem_of_fmap.
    + exists (uk, a). split; [done|]. by rewrite order_puts_ok, elem_of_map_to_list.
    + exists uk. split; [done|]. by rewrite order_deletes_ok, elem_of_elements.
Qed.

Lemma unb_ops_nodup d : delta_ok d -> NoDup (unb_ops d).*1.
Proof.
  intros [Hp Hd Hk _]. unfold unb_ops. rewrite fmap_app. apply NoDup_app.
  assert ((map put_op (order_puts (unbonding_puts d))).*1 = uk_key <$> (order_puts (unbonding_puts d)).*1) as ->.
  { rewrite <-!list_fmap_compose. apply list_fmap_ext. by intros. }
  assert ((map (fun k => (uk_key k, None)) (order_deletes (unbonding_deletes d))).*1 = uk_key <$> order_deletes (unbonding_deletes d)) as ->.
  { rewrite <-list_fmap_compose. apply list_fmap_ext. by intros. }
  assert (forall uk, uk ∈ (order_puts (unbonding_puts d)).*1 -> key_ok uk /\ is_Some (unbonding_puts d !! uk)) as Hin1.
  { intros uk ([uk' a] & -> & Hin)%list_elem_of_fmap. rewrite order_puts_ok, elem_of_map_to_list in Hin. simpl. split; [by apply (Hp _ _ Hin)|eauto]. }
  assert (forall uk, uk ∈ order_deletes (unbonding_deletes d) -> key_ok uk /\ unbonding_puts d !! uk = None) as Hin2.
  { intros uk Hin. rewrite order_deletes_ok, elem_of_elements in Hin. split; [by apply Hd|by apply Hk]. }
  split; [|split].
  - apply NoDup_fmap_2_strong; [|apply order_puts_nodup]. intros x y [Hx _]%Hin1 [Hy _]%Hin1. by apply uk_key_inj.
  - intros k (x & -> & [Hx Sx]%Hin1)%list_elem_of_fmap (y & E & [Hy Ny]%Hin2)%list_elem_of_fmap.
    apply uk_key_inj in E as ->; [|done..]. rewrite Ny in Sx. by destruct Sx.
  - apply NoDup_fmap_2_strong; [|rewrite order_deletes_ok; apply NoDup_elements]. intros x y [Hx _]%Hin2 [Hy _]%Hin2. by apply uk_key_inj.
Qed.
End commit.

Section refinement.
Context `{DeltaOrderLaws}.
Implicit Types (db : ZbxDb) (d : StakingDelta).

(** The write-set keeps to the columns' format. *)
Record db_ok db : Prop := mkDbOk {
  unb_col : col_ok (Unbonding db); del_col : col_ok (Delegations db); del_rows : del_ok (Delegations db) }.

Lemma le16_bytes x : Forall byte (le16 x).
Proof. unfold le16. apply Forall_reverse, to_be_bytes. Qed.

Lemma flush_col_ok db d : db_ok db -> delta_ok d -> col_ok (write_batch (unb_ops d) (Unbonding db)).
Proof.
  intros [Hc _ _] Hd. apply write_batch_ok; [done|]. apply list_relations.list.Forall_forall. intros [k o] Hin. apply unb_ops_elem in Hin. simpl.
  destruct Hin as [(uk & a & Hp & -> & ->)|(uk & Hp & -> & ->)].
  - split; [apply uk_key_bytes, (puts_ok d Hd _ _ Hp)|apply le16_bytes].
  - split; [by apply uk_key_bytes, (deletes_ok d Hd)|done].
Qed.

Lemma flush_ok db d : db_ok db -> delta_ok d -> db_ok (flush_delta d db).
Proof.
  intros Hdb Hd. destruct Hdb as [Hu Hc Hr]. rewrite flush_ops.
  assert (forall k o, (k, o) ∈ map del_op (order_delegations (delegations d)) ->
    Forall byte k /\ (o = None \/ exists x, o = Some (le16 x))) as Hops.
  { intros k o ([[v dl] a] & [= -> ->] & Hin)%list_elem_of_fmap. rewrite order_delegations_ok, elem_of_map_to_list in Hin.
    destruct (dels_ok d Hd _ _ Hin) as [[[_ Hv] [_ Hdl]] _]. simpl. split; [by apply Forall_app|]. destruct (a =? 0); eauto. }
  split; simpl.
  - apply flush_col_ok; [by split|done].
  - apply write_batch_ok; [done|]. apply list_relations.list.Forall_forall. intros [k o] Hin.
    destruct (Hops k o Hin) as [Hk [->|(x & ->)]]; split; try done. apply le16_bytes.
  - revert Hr Hops. generalize (Delegations db), (map del_op (order_delegations (delegations d))). clear. intros c ops. revert c.
    induction ops as [|[k o] ops IH]; intros c Hr Hops; [done|]. simpl. apply IH; [|intros; apply Hops; by right].
    intros k' b. destruct (decide (k' = k)) as [->|]; [rewrite lookup_partial_alter_eq|rewrite lookup_partial_alter_ne by done; apply Hr].
    destruct (Hops k o) as [_ [->|(x & ->)]]; [by left|done|]. intros [= <-]. apply zlen_le16.
Qed.

Lemma flush_rows db d : db_ok db -> delta_ok d -> rows (flush_delta d db) delta_new = rows db d.
Proof.
  intros Hdb Hd. pose proof (flush_col_ok db d Hdb Hd) as Hc'. destruct Hdb as [Hc _ _]. rewrite flush_ops.
  apply map_eq. intros uk. rewrite !rows_lookup. change (unbonding_puts delta_new) with (∅ : gmap UnbondKey Z).
  rewrite lookup_empty. rewrite decide_False by (simpl; set_solver). simpl. apply option_eq. intros a. rewrite rows_of_spec by done.
  pose proof (unb_ops_nodup d Hd) as Hnd. fold (uk_key uk).
  destruct (unbonding_puts d !! uk) as [x|] eqn:Hp; [|case_decide as Hin].
  - destruct (puts_ok d Hd _ _ Hp) as [Hk Hx]. rewrite (write_batch_at _ _ _ (Some (le16 x)) Hnd); [|apply unb_ops_elem; eauto 10]. split.
    + intros (_ & b & [= <-] & _ & ->). by rewrite le_val_le16.
    + intros [= ->]. split; [done|]. eexists. rewrite zlen_le16, le_val_le16 by done. done.
  - rewrite (write_batch_at _ _ _ None Hnd) by (apply unb_ops_elem; eauto 10). split; [|done]. by intros (_ & b & ? & _).
  - rewrite rows_of_spec by done. fold (uk_key uk). split; intros (Hk & b & Hb); (split; [done|]; exists b); revert Hb; rewrite write_batch_other; try done;
      intros ([k o] & E & Ho)%list_elem_of_fmap; simpl in E; subst k; apply unb_ops_elem in Ho as [(uk' & y & Hp' & E & _)|(uk' & Hp' & E & _)].
    all: apply uk_key_inj in E as ->; [|done|]; try congruence; try by apply (deletes_ok d Hd).
    all: by apply (puts_ok d Hd _ _ Hp').
Qed.

Lemma get_delegation_ok db v dl d : db_ok db -> exists a, get_delegation db v dl d = Ok a.
Proof.
  intros [_ _ Hr]. unfold get_delegation, db_get_delegation. destruct (delegations d !! _); [eauto|].
  destruct (Delegations db !! _) eqn:E; [|eauto]. rewrite (Hr _ _ E). eauto.
Qed.

Lemma flush_delegation db v dl d : db_ok db -> delta_ok d -> addr20 v -> addr20 dl ->
  get_delegation (flush_delta d db) v dl delta_new = get_delegation db v dl d.
Proof.
  intros [_ _ Hr] Hd Hv Hdl. rewrite flush_ops. unfold get_delegation. change (delegations delta_new) with (∅ : gmap (Address * Address) Z).
  rewrite lookup_empty. unfold db_get_delegation. simpl.
  assert (pair_ok (v, dl)) as Hp by done.
  assert (NoDup (map del_op (order_delegations (delegations d))).*1) as Hnd.
  { change (map del_op ?l) with (del_op <$> l). rewrite <-list_fmap_compose.
    replace (fst ∘ del_op <$> order_delegations (delegations d)) with ((fun p => delegation_key (fst p) (snd p)) <$> (order_delegations (delegations d)).*1).
    2: { rewrite <-list_fmap_compose. apply list_fmap_ext. by intros ? [[? ?] ?] _. }
    apply NoDup_fmap_2_strong; [|rewrite order_delegations_ok; apply NoDup_fst_map_to_list].
    intros x y ([x' a] & -> & Hx)%list_elem_of_fmap ([y' b] & -> & Hy)%list_elem_of_fmap.
    rewrite order_delegations_ok, elem_of_map_to_list in Hx, Hy. apply delegation_key_inj; [apply (dels_ok d Hd _ _ Hx)|apply (dels_ok d Hd _ _ Hy)]. }
  destruct (delegations d !! (v, dl)) as [a|] eqn:E.
  - destruct (dels_ok d Hd _ _ E) as [_ Ha]. erewrite write_batch_at; [|done|].
    2: { apply list_elem_of_fmap. exists ((v, dl), a). split; [reflexivity|]. by rewrite order_delegations_ok, elem_of_map_to_list. }
    simpl. destruct (Z.eqb_spec a 0) as [->|]; [done|]. by rewrite zlen_le16, le_val_le16.
  - rewrite write_batch_other; [done|]. intros ([k o] & Ek & ([[v' dl'] a] & [= -> ->] & Hin)%list_elem_of_fmap)%list_elem_of_fmap.
    rewrite order_delegations_ok, elem_of_map_to_list in Hin. simpl in Ek.
    assert ((v, dl) = (v', dl')) as E' by (apply delegation_key_inj; [done|apply (dels_ok d Hd _ _ Hin)|done]). rewrite E' in E. congruence.
Qed.

Lemma get_unbonding_row db u who v d : db_ok db -> key_ok (u, who, v) ->
  get_unbonding_entry db u who v d = default 0 (rows db d !! (u, who, v)).
Proof.
  intros [Hc _ _] Hk. unfold get_unbonding_entry. rewrite rows_lookup. case_bool_decide as Hin.
  - rewrite decide_True by done. by destruct (unbonding_puts d !! _).
  - rewrite decide_False by done. destruct (unbonding_puts d !! _); [done|]. unfold db_get_unbonding_entry.
    destruct (rows_of (Unbonding db) !! (u, who, v)) as [a|] eqn:E; simpl.
    + apply rows_of_spec in E as (_ & b & -> & -> & ->); done.
    + destruct (Unbonding db !! unbonding_key u who v) as [b|] eqn:Eb; [|done]. destruct (Z.eqb_spec (zlen b) 16); [|done].
      assert (rows_of (Unbonding db) !! (u, who, v) = Some (le_val b)) as E' by (apply rows_of_spec; eauto). congruence.
Qed.

Lemma rows_put db u who v a d : rows db (put_unbonding_entry u who v a d) = <[(u, who, v) := a]> (rows db d).
Proof.
  apply map_eq. intros k. rewrite rows_lookup. simpl. destruct (decide (k = (u, who, v))) as [->|Hne].
  - by rewrite !lookup_insert_eq.
  - rewrite !lookup_insert_ne, rows_lookup by done. destruct (unbonding_puts d !! k); [done|].
    by repeat case_decide; try set_solver.
Qed.
Lemma rows_delete db u who v d : rows db (delete_unbonding_entry u who v d) = delete (u, who, v) (rows db d).
Proof.
  apply map_eq. intros k. rewrite rows_lookup. simpl. destruct (decide (k = (u, who, v))) as [->|Hne].
  - rewrite !lookup_delete_eq, decide_True by set_solver. done.
  - rewrite !lookup_delete_ne, rows_lookup by done. destruct (unbonding_puts d !! k); [done|].
    by repeat case_decide; try set_solver.
Qed.

Lemma delta_new_ok : delta_ok delta_new.
Proof. by split. Qed.
Lemma put_unbonding_ok u who v a d : delta_ok d -> key_ok (u, who, v) -> in_range 128 a -> delta_ok (put_unbonding_entry u who v a d).
Proof.
  intros [Hp Hd Hk Hl] Ho Ha. split; simpl; [by apply map_Forall_insert_2|set_solver| |done].
  intros k [Hin Hne%not_elem_of_singleton]%elem_of_difference. rewrite lookup_insert_ne by done. by apply Hk.
Qed.
Lemma delete_unbonding_ok u who v d : delta_ok d -> key_ok (u, who, v) -> delta_ok (delete_unbonding_entry u who v d).
Proof.
  intros [Hp Hd Hk Hl] Ho. split; simpl; [by apply map_Forall_delete| | |done].
  - intros k [->%elem_of_singleton|]%elem_of_union; [done|by apply Hd].
  - intros k Hin. destruct (decide (k = (u, who, v))) as [->|]; [apply lookup_delete_eq|]. rewrite lookup_delete_ne by done.
    apply Hk. set_solver.
Qed.
Lemma put_delegation_ok v dl a d : delta_ok d -> pair_ok (v, dl) -> in_range 128 a -> delta_ok (put_delegation v dl a d).
Proof. intros [Hp Hd Hk Hl] Ho Ha. split; simpl; try done. by apply map_Forall_insert_2. Qed.

End refinement.
