(* ===== verification/Staking.v ===== *)
(** * Validators, delegation and rewards
      (crates/zbx-staking/src/validator.rs, rewards.rs, lib.rs)

    The validator registry with its elections, the block rewards split between
    validators and the pools of their delegators, and the claims on them.
    Amounts are 128-bit.  Registration's elliptic-curve checks are operations of
    [Crypto] and [BlsPoints]. *)

From Stdlib Require Import ZArith Lia Sorting.Sorted.
From stdpp Require Import base tactics list gmap countable numbers option fin_maps fin_map_dom.
From S2P Require Import Prelude Bytes Collections Crypto Executor StakingDb.

Local Open Scope Z_scope.

(** ** Parameters (lib.rs) *)

Definition ZBX : Z := 10 ^ 18.
Definition MIN_SELF_STAKE : Z := 100000 * ZBX.
Definition MAX_VALIDATORS : nat := 100.
Definition REWARD_INTERVAL : Z := 100.
Definition UNBONDING_PERIOD_BLOCKS : Z := 907200.
Definition STAKING_PRECOMPILE_ADDR : Address := replicate 18 0 ++ [0x08; 0x88].

(** ** Validators (validator.rs) *)

Inductive ValidatorStatus : Type :=
| VPending | VActive | VJailed | VUnbonding (until_block : Z) | VInactive | VTombstoned.
#[export] Instance ValidatorStatus_eq_dec : EqDecision ValidatorStatus.
Proof. solve_decision. Defined.

Record Validator : Type := mkValidator {
  v_address : Address; bls_pubkey : BlsPubKey; self_stake : Z; delegated_stake : Z; commission_bps : Z;
  status : ValidatorStatus; last_signed_block : Z; pending_rewards : Z; delegator_reward_pool : Z;
  pool_denominator : Z; registered_epoch : Z }.

Definition set_status (s : ValidatorStatus) (v : Validator) : Validator :=
  mkValidator (v_address v) (bls_pubkey v) (self_stake v) (delegated_stake v) (commission_bps v) s
    (last_signed_block v) (pending_rewards v) (delegator_reward_pool v) (pool_denominator v) (registered_epoch v).
Definition set_self_stake (x : Z) (v : Validator) : Validator :=
  mkValidator (v_address v) (bls_pubkey v) x (delegated_stake v) (commission_bps v) (status v)
    (last_signed_block v) (pending_rewards v) (delegator_reward_pool v) (pool_denominator v) (registered_epoch v).
Definition set_delegated_stake (x : Z) (v : Validator) : Validator :=
  mkValidator (v_address v) (bls_pubkey v) (self_stake v) x (commission_bps v) (status v)
    (last_signed_block v) (pending_rewards v) (delegator_reward_pool v) (pool_denominator v) (registered_epoch v).
Definition set_pending (x : Z) (v : Validator) : Validator :=
  mkValidator (v_address v) (bls_pubkey v) (self_stake v) (delegated_stake v) (commission_bps v) (status v)
    (last_signed_block v) x (delegator_reward_pool v) (pool_denominator v) (registered_epoch v).
Definition set_pool (pool denominator : Z) (v : Validator) : Validator :=
  mkValidator (v_address v) (bls_pubkey v) (self_stake v) (delegated_stake v) (commission_bps v) (status v)
    (last_signed_block v) (pending_rewards v) pool denominator (registered_epoch v).

Definition total_stake (v : Validator) : Z := sat 128 (self_stake v + delegated_stake v).
Definition is_active (v : Validator) : bool := bool_decide (status v = VActive).
Definition is_eligible (v : Validator) : bool :=
  (MIN_SELF_STAKE <=? self_stake v) &&
  match status v with VJailed | VInactive | VUnbonding _ | VTombstoned => false | _ => true end.

Definition commission_of (v : Validator) (reward : Z) : Z :=
  match checked 128 (reward * commission_bps v) with
  | Some p => p / 10000
  | None => u128 (reward / 10000 * commission_bps v)
  end.

(** The share is paid out of the pool and the denominator decays by the stake
    that was paid. *)
Definition claim_delegator_share (delegator_stake : Z) (v : Validator) : Z * Validator :=
  if delegator_reward_pool v =? 0 then (0, v)
  else
    let share :=
      if 0 <? pool_denominator v then
        match checked 128 (delegator_reward_pool v * delegator_stake) with
        | Some p => p / pool_denominator v
        | None => sat 128 (delegator_reward_pool v / pool_denominator v * delegator_stake)
        end
      else delegator_reward_pool v in
    let share := Z.min share (delegator_reward_pool v) in
    (share, set_pool (sat 128 (delegator_reward_pool v - share)) (sat 128 (pool_denominator v - delegator_stake)) v).

(** ** The registry *)

Record ValidatorSet : Type := mkSet {
  validators : gmap Address Validator; active_set : list Address; current_epoch : Z }.
Definition vs_new : ValidatorSet := mkSet ∅ [] 0.
Definition set_validators (m : gmap Address Validator) (vs : ValidatorSet) : ValidatorSet :=
  mkSet m (active_set vs) (current_epoch vs).
(** [if let Some(v) = self.validators.get_mut(addr)] *)
Definition alter_validator (f : Validator -> Validator) (a : Address) (vs : ValidatorSet) : ValidatorSet :=
  set_validators (alter f a (validators vs)) vs.

Abbreviation VS := (M ValidatorSet StakingError).

Definition get_mut (a : Address) (e : StakingError) : VS Validator :=
  vs ← get_st; lift_opt (validators vs !! a) e.

Definition register (address : Address) (pk : BlsPubKey) (self_stake commission_bps : Z) : VS unit :=
  vs ← get_st;
  _ ← throw_if (bool_decide (is_Some (validators vs !! address))) (AlreadyRegistered address);
  _ ← throw_if (self_stake <? MIN_SELF_STAKE) (InsufficientSelfStake self_stake MIN_SELF_STAKE);
  let v := mkValidator address pk self_stake 0 (Z.min commission_bps 2000) VPending 0 0 0 0 (current_epoch vs) in
  put_st (set_validators (<[address := v]> (validators vs)) vs).

(** The decompression checks of the bls12_381 crate. *)
Class BlsPoints : Type := { g1_compressed : bytes -> bool; g2_compressed : bytes -> bool }.

(** "zbx-bls-pop-v1" *)
Definition POP_DOMAIN : bytes := [122; 98; 120; 45; 98; 108; 115; 45; 112; 111; 112; 45; 118; 49].

Section registration.
Context `{Crypto} `{BlsPoints}.

Definition pubkey_from_bytes (b : bytes) : option BlsPubKey :=
  if (zlen b =? 48) && g1_compressed b then Some b else None.
Definition signature_from_bytes (b : bytes) : option BlsSignature :=
  if (zlen b =? 96) && g2_compressed b then Some b else None.
Definition verify_pop (pk : BlsPubKey) (pop : BlsSignature) (validator : Address) : bool :=
  verify_single pop pk (keccak256 (validator ++ POP_DOMAIN)).

Definition register_with_pop (address : Address) (pk : BlsPubKey) (pop : BlsSignature) (self_stake commission_bps : Z) : VS unit :=
  _ ← throw_if (negb (verify_pop pk pop address)) (InvalidEvidence PopDoesNotVerify);
  register address pk self_stake commission_bps.
End registration.

Definition closed_to_delegation (s : ValidatorStatus) : bool :=
  match s with VJailed | VInactive | VUnbonding _ | VTombstoned => true | _ => false end.

Definition delegate (to : Address) (amount : Z) : VS unit :=
  v ← get_mut to (NotFound to);
  _ ← throw_if (closed_to_delegation (status v)) Jailed_;
  modify (alter_validator (set_delegated_stake (sat 128 (delegated_stake v + amount))) to).

Definition undelegate (from : Address) (amount : Z) : VS unit :=
  v ← get_mut from (NotFound from);
  _ ← throw_if (delegated_stake v <? amount) (InsufficientDelegation (delegated_stake v) amount);
  modify (alter_validator (set_delegated_stake (delegated_stake v - amount)) from).

(** [ValidatorSet::claim_rewards]. *)
Definition claim_rewards (validator : Address) : VS Z :=
  v ← get_mut validator (NotAValidator validator);
  _ ← modify (alter_validator (set_pending 0) validator);
  mret (pending_rewards v).

(** *** Election

    [listing] is the order in which the hash map yields its values. *)
Definition elect_before (a b : Address * Z) : bool :=
  match snd b ?= snd a with
  | Lt => true
  | Gt => false
  | Eq => bytes_leb (fst a) (fst b)
  end.

Definition ranking (listing : list Validator) : list (Address * Z) :=
  sort_by elect_before (map (fun v => (v_address v, total_stake v)) (filter (fun v => is_eligible v = true) listing)).
Definition elected (listing : list Validator) : list Address := map fst (take MAX_VALIDATORS (ranking listing)).

Definition deactivate (v : Validator) : Validator :=
  if bool_decide (status v = VActive) then set_status VPending v else v.
Definition activate (v : Validator) : Validator :=
  if bool_decide (status v = VTombstoned) then v else set_status VActive v.

Definition elect_active_set (listing : list Validator) (vs : ValidatorSet) : list Address * ValidatorSet :=
  let new_set := elected listing in
  let m := foldl (fun m a => if bool_decide (a ∈ new_set) then m else alter deactivate a m) (validators vs) (active_set vs) in
  let m := foldl (fun m a => alter activate a m) m new_set in
  (new_set, mkSet m new_set (u64 (current_epoch vs + 1))).

Definition is_active_validator (a : Address) (vs : ValidatorSet) : bool :=
  bool_decide (a ∈ active_set vs) &&
  match validators vs !! a with
  | Some v => match status v with VJailed | VTombstoned | VInactive => false | _ => true end
  | None => false
  end.
Definition total_stake_of (a : Address) (vs : ValidatorSet) : option Z := total_stake <$> validators vs !! a.
Definition active_bls_keys (vs : ValidatorSet) : list BlsPubKey :=
  omap (fun a => bls_pubkey <$> validators vs !! a) (active_set vs).

(** ** Rewards (rewards.rs) *)

(** [(window_start..=block_height).map(block_reward_at).sum()] *)
Definition interval_base (block_height : Z) : Z :=
  let window_start := sat 64 (block_height - (REWARD_INTERVAL - 1)) in
  foldl (fun acc k => u128 (acc + block_reward_at (window_start + Z.of_nat k))) 0 (seq 0 (Z.to_nat (block_height - window_start + 1))).

(** The reward of one committee member: self share and commission against the
    delegators' pool. *)
Definition share_reward (committee_share total_active_stake : Z) (v : Validator) : Validator :=
  let weight := total_stake v in
  let total_reward := u128 (committee_share * weight) / total_active_stake in
  if total_reward =? 0 then v
  else if delegated_stake v =? 0 then set_pending (sat 128 (pending_rewards v + total_reward)) v
  else
    let self_share := match checked 128 (total_reward * self_stake v) with
      | Some p => p / weight
      | None => u128 (total_reward / weight * self_stake v)
      end in
    let deleg_gross := sat 128 (total_reward - self_share) in
    let commission := commission_of v deleg_gross in
    let net_deleg := sat 128 (deleg_gross - commission) in
    let v' := set_pending (sat 128 (sat 128 (pending_rewards v + self_share) + commission)) v in
    set_pool (sat 128 (delegator_reward_pool v + net_deleg)) (delegated_stake v) v'.

(** [iter().filter_map(get).map(total_stake).sum()] *)
Definition active_stake (vs : ValidatorSet) : Z :=
  foldl (fun acc a => match validators vs !! a with Some v => u128 (acc + total_stake v) | None => acc end) 0 (active_set vs).

Definition distribute_block_reward (block_height : Z) (proposer : Address) (accumulated_fees : Z) (vs : ValidatorSet) : ValidatorSet :=
  if negb (block_height mod REWARD_INTERVAL =? 0) then vs
  else
    let total := sat 128 (interval_base block_height + accumulated_fees) in
    if total =? 0 then vs
    else
      let proposer_bonus := total / 10 in
      let committee_share := total - proposer_bonus in
      let total_active_stake := active_stake vs in
      if total_active_stake =? 0 then vs
      else
        let vs := alter_validator (fun v => set_pending (sat 128 (pending_rewards v + proposer_bonus)) v) proposer vs in
        foldl (fun vs a => alter_validator (share_reward committee_share total_active_stake) a vs) vs (active_set vs).

Definition interval_escrow_mint (block_height accumulated_fees : Z) : Z :=
  if negb (block_height mod REWARD_INTERVAL =? 0) then 0
  else sat 128 (interval_base block_height + accumulated_fees).

(** [RewardDistributor::claim_delegator_reward]: the pool is debited even when
    the share is zero. *)
Definition claim_delegator_reward (validator delegator : Address) (delegator_stake : Z) : VS Z :=
  _ ← throw_if (delegator_stake =? 0) (NoPendingRewards delegator);
  v ← get_mut validator (NotFound validator);
  let '(share, v') := claim_delegator_share delegator_stake v in
  _ ← modify (alter_validator (fun _ => v') validator);
  _ ← throw_if (share =? 0) (NoPendingRewards delegator);
  mret share.
(** [RewardDistributor::claim_rewards]. *)
Definition claim_own_rewards (validator : Address) : VS Z :=
  v ← get_mut validator (NotFound validator);
  _ ← throw_if (pending_rewards v =? 0) (NoPendingRewards validator);
  _ ← modify (alter_validator (set_pending 0) validator);
  mret (pending_rewards v).
