(* ===== verification/Governance.v ===== *)
(** * Upgrade governance
      (crates/zbx-types/src/governance.rs, crates/zbx-staking/src/governance.rs,
       the proposal counter of delta.rs, the two arms of tx_handler.rs)

    Upgrade proposals, their votes and their life cycle, the registry kept in
    the metadata column, and the two staking calls on it.  bincode is a class;
    the checks of the code's own [Deserialize] are not part of it.

    The proofs follow; the RLP form of proposals is in UpgradeTypes.v. *)

From Stdlib Require Import ZArith Lia Sorting.Sorted.
From stdpp Require Import base tactics list gmap countable numbers option fin_maps fin_map_dom.
From S2P Require Import Prelude Bytes Crypto Collections StakingDb Staking.

Local Open Scope Z_scope.

(** ** Proposals (zbx-types) *)

Inductive BallotVote : Type := Yes | No | Abstain.
Inductive ProposalStatus : Type := Pending | Approved | Rejected | Scheduled | Executed | Failed.
#[export] Instance BallotVote_eq_dec : EqDecision BallotVote.
Proof. solve_decision. Defined.
#[export] Instance ProposalStatus_eq_dec : EqDecision ProposalStatus.
Proof. solve_decision. Defined.

Definition is_pending (s : ProposalStatus) : bool := bool_decide (s = Pending).
Definition is_terminal (s : ProposalStatus) : bool :=
  match s with Rejected | Executed | Failed => true | _ => false end.

(** [\[a-z0-9_-\]+] *)
Definition name_byte (b : Z) : bool :=
  ((97 <=? b) && (b <=? 122)) || ((48 <=? b) && (b <=? 57)) || (b =? 95) || (b =? 45).
Definition validate_module_name (name : bytes) : bool := negb (bool_decide (name = [])) && forallb name_byte name.

Record UpgradeProposal : Type := mkProposal {
  p_id : Z; module_name : bytes; new_version : Z; activation_block : Z; proposer : Address;
  votes : gmap Address BallotVote; p_status : ProposalStatus }.

Definition proposal_new (id : Z) (name : bytes) (version activation : Z) (proposer : Address) : option UpgradeProposal :=
  if validate_module_name name then Some (mkProposal id name version activation proposer ∅ Pending) else None.

Definition set_p_status (s : ProposalStatus) (p : UpgradeProposal) : UpgradeProposal :=
  mkProposal (p_id p) (module_name p) (new_version p) (activation_block p) (proposer p) (votes p) s.
Definition cast_vote (validator : Address) (vote : BallotVote) (p : UpgradeProposal) : option UpgradeProposal :=
  if negb (is_pending (p_status p)) then None
  else Some (mkProposal (p_id p) (module_name p) (new_version p) (activation_block p) (proposer p)
    (<[validator := vote]> (votes p)) (p_status p)).

Record VoteTally : Type := mkTally { t_yes : Z; t_no : Z; t_abstain : Z; validator_set_size : Z }.
Definition count_vote (kind : BallotVote) (active : gset Address) (p : UpgradeProposal) : Z :=
  Z.of_nat (length (filter (fun '(voter, vote) => voter ∈ active /\ vote = kind) (map_to_list (votes p)))).
(** The counters are 32-bit. *)
Definition tally (active : gset Address) (p : UpgradeProposal) : VoteTally :=
  mkTally (u32 (count_vote Yes active p)) (u32 (count_vote No active p)) (u32 (count_vote Abstain active p))
    (u32 (Z.of_nat (size active))).
Definition has_majority (t : VoteTally) : bool := validator_set_size t <? t_yes t * 2.

Definition try_finalize (active : gset Address) (current_block : Z) (p : UpgradeProposal) : ProposalStatus * UpgradeProposal :=
  if negb (is_pending (p_status p)) then (p_status p, p)
  else
    let new_status := if has_majority (tally active p) && (current_block <? activation_block p) then Scheduled else Rejected in
    (new_status, set_p_status new_status p).

Definition mark (target : ProposalStatus) (p : UpgradeProposal) : option UpgradeProposal :=
  if bool_decide (p_status p = Scheduled) then Some (set_p_status target p) else None.
Definition mark_executed : UpgradeProposal -> option UpgradeProposal := mark Executed.
Definition mark_failed : UpgradeProposal -> option UpgradeProposal := mark Failed.

(** ** The registry

    A [BTreeMap]; its iterators list the identifiers in ascending order. *)

Abbreviation ProposalRegistry := (gmap Z UpgradeProposal).

Definition registry_insert (p : UpgradeProposal) (preg : ProposalRegistry) : option ProposalRegistry :=
  if bool_decide (is_Some (preg !! p_id p)) then None else Some (<[p_id p := p]> preg).
Definition registry_values (preg : ProposalRegistry) : list UpgradeProposal :=
  map snd (sort_by (fun a b => fst a <=? fst b) (map_to_list preg)).
Definition registry_pending (preg : ProposalRegistry) : list UpgradeProposal :=
  filter (fun p => is_pending (p_status p) = true) (registry_values preg).
Definition ready_to_execute (current_block : Z) (preg : ProposalRegistry) : list UpgradeProposal :=
  filter (fun p => p_status p = Scheduled /\ activation_block p <= current_block) (registry_values preg).

(** ** The staking crate's helpers *)

Definition create_proposal (id : Z) (name : bytes) (version activation : Z) (proposer : Address) (preg : ProposalRegistry)
    : res StakingError ProposalRegistry :=
  p ← ok_or (proposal_new id name version activation proposer) (BadPayload ProposalInvalid);
  ok_or (registry_insert p preg) (BadPayload (ProposalExists id)).

Definition active_of (vs : ValidatorSet) : gset Address := list_to_set (active_set vs).

Definition cast_and_maybe_finalize (id : Z) (voter : Address) (approve : bool) (vs : ValidatorSet) (current_block : Z)
    (preg : ProposalRegistry) : res StakingError (ProposalStatus * ProposalRegistry) :=
  p ← ok_or (preg !! id) (BadPayload (ProposalNotFound id));
  p ← ok_or (cast_vote voter (if approve then Yes else No) p) (BadPayload ProposalNotPending);
  let '(status, p) := try_finalize (active_of vs) current_block p in
  Ok (status, <[id := p]> preg).

(** The end-of-block sweep. *)
Definition try_finalize_all_pending (vs : ValidatorSet) (current_block : Z) (preg : ProposalRegistry) : bool * ProposalRegistry :=
  foldl (fun '(changed, preg) id =>
    match preg !! id with
    | None => (changed, preg)
    | Some p =>
      let '(status, p') := try_finalize (active_of vs) current_block p in
      (changed || negb (bool_decide (status = p_status p)), <[id := p']> preg)
    end) (false, preg) (map p_id (registry_pending preg)).

(** ** Storage *)

(** bincode on the registry's map. *)
Class Bincode : Type := {
  bincode_serialize : ProposalRegistry -> bytes;
  bincode_deserialize : bytes -> option ProposalRegistry }.
Class BincodeLaws `{Bincode} : Prop := {
  bincode_roundtrip : forall preg, bincode_deserialize (bincode_serialize preg) = Some preg }.

(** "governance/proposal_registry" and "gov/proposal_counter" *)
Definition META_PROPOSAL_REGISTRY : bytes :=
  [103; 111; 118; 101; 114; 110; 97; 110; 99; 101; 47; 112; 114; 111; 112; 111; 115; 97; 108; 95; 114; 101; 103; 105; 115; 116; 114; 121].
Definition PROPOSAL_COUNTER : bytes :=
  [103; 111; 118; 47; 112; 114; 111; 112; 111; 115; 97; 108; 95; 99; 111; 117; 110; 116; 101; 114].

Section storage.
Context `{Bincode}.
Abbreviation DB := (M ZbxDb StakingError).

(** The registry's own [Deserialize]: every name is valid and every proposal
    sits under its identifier. *)
Definition registry_valid (preg : ProposalRegistry) : bool :=
  forallb (fun '(k, p) => validate_module_name (module_name p) && (k =? p_id p)) (map_to_list preg).
Definition load_proposal_registry : DB ProposalRegistry :=
  db ← get_st;
  match Metadata db !! META_PROPOSAL_REGISTRY with
  | None => mret ∅
  | Some b =>
    match bincode_deserialize b with
    | Some preg => if registry_valid preg then mret preg else throw (Persistence Corrupt)
    | None => throw (Persistence Corrupt)
    end
  end.
Definition persist_proposal_registry (preg : ProposalRegistry) : DB unit :=
  modify (put_metadata META_PROPOSAL_REGISTRY (bincode_serialize preg)).

(** [StakingDelta::next_proposal_id]: written through at once. *)
Definition next_proposal_id : DB Z :=
  db ← get_st;
  let current := match Metadata db !! PROPOSAL_COUNTER with
    | Some v => if 8 <=? zlen v then be_val (take 8 v) else 0
    | None => 0
    end in
  let next := u64 (current + 1) in
  _ ← modify (put_metadata PROPOSAL_COUNTER (to_be 8 next));
  mret next.

(** The [ProposeUpgrade] and [CastVote] arms of [dispatch_staking_tx]. *)
Definition propose_upgrade (name : bytes) (version activation_height : Z) (sender : Address) (sent_value_wei current_height : Z)
    (vs : ValidatorSet) : DB unit :=
  _ ← throw_if (negb (sent_value_wei =? 0)) (UnexpectedValue sent_value_wei 0);
  _ ← throw_if (negb (is_active_validator sender vs)) (NotAValidator sender);
  _ ← throw_if (negb (utf8_ok name)) (BadPayload ModuleNameNotUtf8);
  _ ← throw_if (bool_decide (name = []) || (64 <? zlen name)) (BadPayload (ModuleNameLength (zlen name)));
  _ ← throw_if (activation_height <=? current_height) (BadPayload (ActivationNotFuture activation_height current_height));
  proposal_id ← next_proposal_id;
  preg ← load_proposal_registry;
  preg ← lift (create_proposal proposal_id name version activation_height sender preg);
  persist_proposal_registry preg.

Definition governance_vote (proposal_id : Z) (approve : bool) (sender : Address) (sent_value_wei current_height : Z) (vs : ValidatorSet) : DB unit :=
  _ ← throw_if (negb (sent_value_wei =? 0)) (UnexpectedValue sent_value_wei 0);
  _ ← throw_if (negb (is_active_validator sender vs)) (NotAValidator sender);
  preg ← load_proposal_registry;
  '(_, preg) ← lift (cast_and_maybe_finalize proposal_id sender approve vs current_height preg);
  persist_proposal_registry preg.
End storage.

(** * Upgrade governance, theorems (crates/zbx-staking/src/governance.rs, crates/zbx-types/src/governance.rs)

    The proposal registry over every sequence of its operations, and what a
    vote decides. *)

Implicit Types (preg : ProposalRegistry) (p : UpgradeProposal) (vs : ValidatorSet).

Inductive registry_step : ProposalRegistry -> ProposalRegistry -> Prop :=
| registry_create id name version activation proposer preg preg' :
    create_proposal id name version activation proposer preg = Ok preg' -> registry_step preg preg'
| registry_vote id voter approve vs h st preg preg' :
    cast_and_maybe_finalize id voter approve vs h preg = Ok (st, preg') -> registry_step preg preg'
| registry_sweep vs h preg : registry_step preg (snd (try_finalize_all_pending vs h preg))
| registry_mark target id p p' preg : target = Executed \/ target = Failed -> preg !! id = Some p -> mark target p = Some p' ->
    registry_step preg (<[id := p']> preg).
Inductive registry_reached : ProposalRegistry -> Prop :=
| registry_empty : registry_reached ∅
| registry_next preg preg' : registry_reached preg -> registry_step preg preg' -> registry_reached preg'.

(** A pending proposal has no vote yet. *)
Record proposal_ok (id : Z) p : Prop := mkProposalOk {
  po_id : p_id p = id; po_name : validate_module_name (module_name p) = true; po_votes : is_pending (p_status p) = true -> votes p = ∅ }.

Lemma count_nil kind active p : votes p = ∅ -> count_vote kind active p = 0.
Proof. intros E. unfold count_vote. by rewrite E, map_to_list_empty. Qed.

Lemma finalize_no_votes active h p : votes p = ∅ -> is_pending (p_status p) = true -> try_finalize active h p = (Rejected, set_p_status Rejected p).
Proof.
  intros Hv Hp. unfold try_finalize, has_majority, tally. rewrite Hp. cbn [negb t_yes validator_set_size]. rewrite (count_nil Yes) by done.
  destruct (Z.ltb_spec (u32 (Z.of_nat (size active))) (u32 0 * 2)) as [Hlt|]; [|done].
  pose proof (wrap_range 32 (Z.of_nat (size active)) ltac:(lia)) as Hr. unfold in_range in Hr. change (u32 0) with 0 in Hlt. lia.
Qed.

Lemma one_vote voter vote active h p : voter ∈ active -> votes p = ∅ -> is_pending (p_status p) = true -> Z.of_nat (size active) < 2 ^ 32 ->
  exists q, cast_vote voter vote p = Some q /\
    fst (try_finalize active h q) = (if bool_decide (vote = Yes) && (Z.of_nat (size active) =? 1) && (h <? activation_block p) then Scheduled else Rejected).
Proof.
  intros Hin Hv Hp Hsz. unfold cast_vote. rewrite Hp. cbn [negb]. eexists. split; [reflexivity|].
  unfold try_finalize. cbn [p_status]. rewrite Hp. cbn [negb fst activation_block]. unfold has_majority, tally. cbn [t_yes validator_set_size].
  unfold count_vote. cbn [votes]. rewrite Hv, insert_empty, map_to_list_singleton.
  assert (0 < Z.of_nat (size active)) as Hpos.
  { assert (size active <> 0%nat); [|lia]. intros E%size_empty_inv. set_solver. }
  rewrite (wrap_small 32 (Z.of_nat (size active))) by (unfold in_range; lia).
  assert (filter (fun '(v, w) => v ∈ active /\ w = Yes) [(voter, vote)] = if bool_decide (vote = Yes) then [(voter, vote)] else []) as ->.
  { destruct (bool_decide_reflect (vote = Yes)) as [->|Hne].
    - by rewrite filter_cons_True.
    - by rewrite filter_cons_False by tauto. }
  destruct (bool_decide (vote = Yes)); cbn [andb length].
  - change (u32 (Z.of_nat 1) * 2) with 2. destruct (Z.ltb_spec (Z.of_nat (size active)) 2), (Z.eqb_spec (Z.of_nat (size active)) 1); try lia; done.
  - change (u32 (Z.of_nat 0) * 2) with 0. by rewrite (proj2 (Z.ltb_ge _ _)) by lia.
Qed.

Definition registry_ok preg : Prop := map_Forall proposal_ok preg.

Lemma insert_ok id p preg : registry_ok preg -> proposal_ok id p -> registry_ok (<[id := p]> preg).
Proof. intros Hr Hp. by apply map_Forall_insert_2. Qed.
Lemma decided_ok id p s : proposal_ok id p -> is_pending s = false -> proposal_ok id (set_p_status s p).
Proof. intros [Hid Hn _] Hs. split; cbn; [done|done|congruence]. Qed.

Lemma finalize_decides active h p st q : is_pending (p_status p) = true -> try_finalize active h p = (st, q) ->
  q = set_p_status st p /\ (st = Scheduled \/ st = Rejected).
Proof.
  intros Hp E. unfold try_finalize in E. rewrite Hp in E. cbn [negb] in E. injection E as <- <-. split; [done|].
  destruct (_ && _); [by left|by right].
Qed.

(** *** The sweep *)

Definition sweep_one vs h : bool * ProposalRegistry -> Z -> bool * ProposalRegistry := fun '(changed, preg) id =>
  match preg !! id with
  | None => (changed, preg)
  | Some p =>
    let '(status, p') := try_finalize (active_of vs) h p in
    (changed || negb (bool_decide (status = p_status p)), <[id := p']> preg)
  end.

Definition swept p : UpgradeProposal := if is_pending (p_status p) then set_p_status Rejected p else p.

Lemma swept_ok id p : proposal_ok id p -> proposal_ok id (swept p).
Proof. intros Hp. unfold swept. destruct (is_pending (p_status p)); [by apply decided_ok|done]. Qed.
Lemma swept_done p : is_pending (p_status (swept p)) = false.
Proof. unfold swept. by destruct (is_pending (p_status p)) eqn:E. Qed.

Lemma sweep_one_spec vs h changed preg id : registry_ok preg ->
  exists changed', sweep_one vs h (changed, preg) id = (changed', alter swept id preg).
Proof.
  intros Hr. unfold sweep_one. destruct (preg !! id) as [p|] eqn:Ep.
  - assert (try_finalize (active_of vs) h p = (p_status (swept p), swept p)) as ->.
    { unfold swept. destruct (is_pending (p_status p)) eqn:E.
      - apply finalize_no_votes; [by apply (po_votes _ _ (Hr _ _ Ep))|done].
      - unfold try_finalize. by rewrite E. }
    eexists. f_equal. apply map_eq. intros i. destruct (decide (i = id)) as [->|].
    + by rewrite lookup_alter_eq, lookup_insert_eq, Ep.
    + by rewrite lookup_alter_ne, lookup_insert_ne by done.
  - exists changed. f_equal. apply map_eq. intros i. destruct (decide (i = id)) as [->|]; [by rewrite lookup_alter_eq, Ep|by rewrite lookup_alter_ne].
Qed.

Lemma sweep_lookup vs h ids changed preg : registry_ok preg ->
  registry_ok (snd (foldl (sweep_one vs h) (changed, preg) ids)) /\
  forall i, snd (foldl (sweep_one vs h) (changed, preg) ids) !! i = (fun p => if bool_decide (i ∈ ids) then swept p else p) <$> preg !! i.
Proof.
  revert changed preg. induction ids as [|id ids IH]; intros changed preg Hr.
  - split; [done|]. intros i. cbn. by destruct (preg !! i).
  - cbn [foldl]. destruct (sweep_one_spec vs h changed preg id Hr) as [changed' ->].
    assert (registry_ok (alter swept id preg)) as Hr'.
    { intros i p. rewrite lookup_alter. case_decide as E; [subst|apply Hr]. intros (q & Hq & ->)%fmap_Some. by apply swept_ok, Hr. }
    destruct (IH changed' _ Hr') as [Hok Hl]. split; [done|]. intros i. rewrite Hl, lookup_alter. destruct (preg !! i) as [p|] eqn:Ep.
    + case_decide as E; [subst; rewrite Ep|]; cbn; f_equal.
      * rewrite (bool_decide_true (i ∈ i :: ids)) by (by left). case_bool_decide; [|done]. unfold swept. by destruct (is_pending (p_status p)) eqn:Es; cbn; rewrite ?Es.
      * do 2 case_bool_decide; try done; exfalso; set_solver.
    + case_decide; [subst; by rewrite Ep|done].
Qed.

Lemma pending_ids preg i p : registry_ok preg -> preg !! i = Some p -> is_pending (p_status p) = true -> i ∈ map p_id (registry_pending preg).
Proof.
  intros Hr Hi Hp. apply list_elem_of_fmap. exists p. split; [by rewrite (po_id _ _ (Hr _ _ Hi))|]. apply list_elem_of_filter. split; [done|].
  unfold registry_values. apply list_elem_of_fmap. exists (i, p). split; [done|]. rewrite (sort_by_perm (fun a b => fst a <=? fst b)). by apply elem_of_map_to_list.
Qed.

Lemma sweep_all vs h preg : registry_ok preg ->
  registry_ok (snd (try_finalize_all_pending vs h preg)) /\
  forall i, snd (try_finalize_all_pending vs h preg) !! i = swept <$> preg !! i.
Proof.
  intros Hr. change (try_finalize_all_pending vs h preg) with (foldl (sweep_one vs h) (false, preg) (map p_id (registry_pending preg))).
  destruct (sweep_lookup vs h (map p_id (registry_pending preg)) false preg Hr) as [Hok Hl]. split; [done|]. intros i. rewrite Hl.
  destruct (preg !! i) as [p|] eqn:Ep; [|done]. cbn. f_equal. case_bool_decide as Hin; [done|]. unfold swept.
  destruct (is_pending (p_status p)) eqn:E; [|done]. exfalso. apply Hin. by eapply pending_ids.
Qed.

(** ** Every sequence *)

Lemma create_ok id name version activation proposer preg preg' : registry_ok preg ->
  create_proposal id name version activation proposer preg = Ok preg' ->
  registry_ok preg' /\ preg !! id = None /\ exists p, preg' = <[id := p]> preg /\ p_status p = Pending.
Proof.
  intros Hr E. unfold create_proposal, proposal_new, registry_insert in E. destruct (validate_module_name name) eqn:En; cbn in E; [|done].
  case_bool_decide as Hs; [done|]. apply eq_None_not_Some in Hs. injection E as <-. split; [|by eauto]. apply insert_ok; [done|]. by split.
Qed.

Lemma vote_spec id voter approve vs h st preg preg' : registry_ok preg -> cast_and_maybe_finalize id voter approve vs h preg = Ok (st, preg') ->
  exists p q, preg !! id = Some p /\ is_pending (p_status p) = true /\ cast_vote voter (if approve then Yes else No) p = Some q /\
    try_finalize (active_of vs) h q = (st, set_p_status st q) /\ preg' = <[id := set_p_status st q]> preg /\
    (st = Scheduled \/ st = Rejected) /\ registry_ok preg'.
Proof.
  intros Hr E. unfold cast_and_maybe_finalize in E. destruct (preg !! id) as [p|] eqn:Ep; cbn in E; [|done].
  destruct (cast_vote voter _ p) as [q|] eqn:Ec; cbn in E; [|done]. unfold cast_vote in Ec. destruct (is_pending (p_status p)) eqn:Es; [|done].
  destruct (try_finalize (active_of vs) h q) as [st' q'] eqn:Ef. injection E as <- <-.
  assert (is_pending (p_status q) = true) as Eq by (injection Ec as <-; exact Es).
  destruct (finalize_decides _ _ _ _ _ Eq Ef) as [-> Hst]. exists p, q. split_and!; try done. { unfold cast_vote. by rewrite Es. }
  apply insert_ok; [done|]. injection Ec as <-. destruct (Hr _ _ Ep) as [Hid Hn _]. split; [done|done|]. cbn. destruct Hst as [-> | ->]; done.
Qed.

Lemma registry_step_ok preg preg' : registry_ok preg -> registry_step preg preg' -> registry_ok preg'.
Proof.
  intros Hr Hst. destruct Hst as [id name version activation proposer preg preg' E|id voter approve vs h st preg preg' E|vs h preg|target id p p' preg Ht Ep Em].
  - by eapply create_ok.
  - destruct (vote_spec _ _ _ _ _ _ _ _ Hr E) as (p & q & _ & _ & _ & _ & _ & _ & Hok). done.
  - by apply sweep_all.
  - apply insert_ok; [done|]. unfold mark in Em. case_bool_decide; [|done]. injection Em as <-. apply decided_ok; [by apply Hr|].
    by destruct Ht as [-> | ->].
Qed.

Lemma registry_reached_ok preg : registry_reached preg -> registry_ok preg.
Proof. induction 1; [apply map_Forall_empty|by eapply registry_step_ok]. Qed.

(** The life cycle: what may follow a status. *)
Definition may_become (s t : ProposalStatus) : Prop :=
  s = t \/ match s with Pending => t = Scheduled \/ t = Rejected | Scheduled => t = Executed \/ t = Failed | _ => False end.

Lemma registry_moves preg preg' id p : registry_ok preg -> registry_step preg preg' -> preg !! id = Some p ->
  exists p', preg' !! id = Some p' /\ may_become (p_status p) (p_status p') /\ module_name p' = module_name p /\
    new_version p' = new_version p /\ activation_block p' = activation_block p.
Proof.
  intros Hr Hst. destruct Hst as [i name version activation proposer preg preg' E|i voter approve vs h st preg preg' E|vs h preg|target i q q' preg Ht Eq Em]; intros Hp.
  - destruct (create_ok _ _ _ _ _ _ _ Hr E) as (_ & Hnone & q & -> & _). exists p. rewrite lookup_insert_ne by congruence. split_and!; try done. by left.
  - destruct (vote_spec _ _ _ _ _ _ _ _ Hr E) as (p0 & q & Hp0 & Hpend & Hc & _ & -> & Hst & _). destruct (decide (id = i)) as [->|].
    + rewrite lookup_insert_eq. rewrite Hp0 in Hp. injection Hp as ->. eexists. split; [done|]. unfold cast_vote in Hc. rewrite Hpend in Hc. injection Hc as <-.
      split_and!; try done. cbn. right. unfold is_pending in Hpend. apply bool_decide_eq_true in Hpend. by rewrite Hpend.
    + rewrite lookup_insert_ne by done. exists p. split_and!; try done. by left.
  - destruct (sweep_all vs h preg Hr) as [_ ->]. rewrite Hp. eexists. split; [done|]. unfold swept. destruct (is_pending (p_status p)) eqn:E; split_and!; try done; [|by left].
    right. unfold is_pending in E. apply bool_decide_eq_true in E. rewrite E. by right.
  - unfold mark in Em. case_bool_decide as Es; [|done]. injection Em as <-. destruct (decide (id = i)) as [->|].
    + rewrite lookup_insert_eq. rewrite Eq in Hp. injection Hp as ->. eexists. split; [done|]. split_and!; try done. right. by rewrite Es.
    + rewrite lookup_insert_ne by done. exists p. split_and!; try done. by left.
Qed.

