(* ===== verification/StakingTx.v ===== *)
(** * Staking transactions
      (crates/zbx-types/src/staking_tx.rs, crates/zbx-staking/src/tx_handler.rs)

    The nine staking calls, their RLP encoding through the third-party [rlp]
    crate, and the dispatcher that applies a call to the validators, the
    write-set, the database and the balances of the accounts.

    Below: the codec of the calls on the laws of the crate. *)

From Stdlib Require Import ZArith Lia.
From stdpp Require Import base tactics list gmap countable numbers option fin_maps fin_map_dom.
From S2P Require Import Prelude Bytes Collections Crypto Rlp TrieNode TrieRepr Transaction StakingDb Staking Governance.

Local Open Scope Z_scope.

Inductive StakingTx : Type :=
| RegisterValidator (pubkey bls_pubkey bls_pop : bytes) (self_stake commission_bps : Z)
| Delegate (validator : Address) (amount : Z)
| Undelegate (validator : Address) (amount : Z)
| Withdraw (validator : Address)
| ClaimRewards (validator : Address)
| ClaimDelegatorRewards (validator : Address)
| FileAppeal (evidence_id : Hash)
| ProposeUpgrade (module_name : bytes) (new_version activation_height : Z)
| CastVote (proposal_id : Z) (approve : bool).

Definition APPEAL_BOND_WEI : Z := 1000 * 10 ^ 18.

(** ** Codec *)

Section codec.
Context `{RC : RlpCrate} `{RV : RlpView}.

Abbreviation uint n := (Str (crate_uint n)).
Definition u128_be (v : Z) : bytes := to_be 16 v.

Definition staking_items (t : StakingTx) : list item :=
  match t with
  | RegisterValidator pubkey bls_pubkey bls_pop self_stake commission_bps =>
    [uint 0; Str pubkey; Str bls_pubkey; Str bls_pop; Str (u128_be self_stake); uint commission_bps]
  | Delegate validator amount => [uint 1; Str validator; Str (u128_be amount)]
  | Undelegate validator amount => [uint 2; Str validator; Str (u128_be amount)]
  | Withdraw validator => [uint 3; Str validator]
  | ClaimRewards validator => [uint 4; Str validator]
  | ClaimDelegatorRewards validator => [uint 5; Str validator]
  | FileAppeal evidence_id => [uint 6; Str evidence_id]
  | ProposeUpgrade module_name new_version activation_height =>
    [uint 7; Str module_name; uint new_version; uint activation_height]
  | CastVote proposal_id approve => [uint 8; uint proposal_id; uint (if approve then 1 else 0)]
  end.
Definition encode (t : StakingTx) : bytes := crate_out (Lst (staking_items t)).

Definition fixed_bytes (n : Z) (rlp : bytes) : option bytes :=
  b ← rlp_data rlp; if zlen b =? n then Some b else None.
Definition address_at (rlp : bytes) : option Address := fixed_bytes 20 rlp.
(** At most 16 bytes, right-aligned. *)
Definition u128_from_be (rlp : bytes) : option Z :=
  b ← rlp_data rlp; if 16 <? zlen b then None else Some (be_val b).
Definition bytes_at (data : bytes) (i : nat) : option bytes := x ← rlp_nth data i; rlp_data x.

Definition decode (data : bytes) : option StakingTx :=
  n ← rlp_item_count data;
  if n =? 0 then None
  else
    tag ← rlp_nth data 0 ≫= rlp_uint 8;
    if (tag =? 0) && (n =? 6) then
      pubkey ← rlp_nth data 1 ≫= fixed_bytes 33;
      bls_pubkey ← rlp_nth data 2 ≫= fixed_bytes 48;
      bls_pop ← rlp_nth data 3 ≫= fixed_bytes 96;
      self_stake ← rlp_nth data 4 ≫= u128_from_be;
      commission_bps ← rlp_nth data 5 ≫= rlp_uint 16;
      Some (RegisterValidator pubkey bls_pubkey bls_pop self_stake commission_bps)
    else if (tag =? 1) && (n =? 3) then
      validator ← rlp_nth data 1 ≫= address_at; amount ← rlp_nth data 2 ≫= u128_from_be; Some (Delegate validator amount)
    else if (tag =? 2) && (n =? 3) then
      validator ← rlp_nth data 1 ≫= address_at; amount ← rlp_nth data 2 ≫= u128_from_be; Some (Undelegate validator amount)
    else if (tag =? 3) && (n =? 2) then Withdraw <$> (rlp_nth data 1 ≫= address_at)
    else if (tag =? 4) && (n =? 2) then ClaimRewards <$> (rlp_nth data 1 ≫= address_at)
    else if (tag =? 5) && (n =? 2) then ClaimDelegatorRewards <$> (rlp_nth data 1 ≫= address_at)
    else if (tag =? 6) && (n =? 2) then FileAppeal <$> (rlp_nth data 1 ≫= fixed_bytes 32)
    else if (tag =? 7) && (n =? 4) then
      module_name ← bytes_at data 1; new_version ← rlp_nth data 2 ≫= rlp_uint 32;
      activation_height ← rlp_nth data 3 ≫= rlp_uint 64; Some (ProposeUpgrade module_name new_version activation_height)
    else if (tag =? 8) && (n =? 3) then
      proposal_id ← rlp_nth data 1 ≫= rlp_uint 64; approve_byte ← rlp_nth data 2 ≫= rlp_uint 8;
      Some (CastVote proposal_id (negb (approve_byte =? 0)))
    else None.

Definition decode_staking_call (data : bytes) : res StakingError StakingTx := ok_or (decode data) (BadPayload BadCodec).
End codec.

(** ** The dispatcher *)

Definition STAKING_GAS_REGISTER : Z := 200000.
Definition STAKING_GAS_DELEGATE : Z := 60000.
Definition STAKING_GAS_UNDELEGATE : Z := 80000.
Definition STAKING_GAS_WITHDRAW : Z := 50000.
Definition STAKING_GAS_CLAIM : Z := 40000.
Definition STAKING_GAS_CLAIM_DELEGATOR : Z := 50000.
Definition STAKING_GAS_FILE_APPEAL : Z := 150000.
Definition STAKING_GAS_PROPOSE_UPGRADE : Z := 120000.
Definition STAKING_GAS_CAST_VOTE : Z := 80000.

Class BalanceAccess (B : Type) : Type := { get_balance : Address -> B -> Z; set_balance : Address -> Z -> B -> B }.

Record StakingState (B : Type) : Type := mkStakingState {
  st_vs : ValidatorSet; st_db : ZbxDb; st_delta : StakingDelta; st_balances : B }.
Arguments mkStakingState {B} _ _ _ _.
Arguments st_vs {B} _.
Arguments st_db {B} _.
Arguments st_delta {B} _.
Arguments st_balances {B} _.

Section dispatch.
Context `{Crypto} `{BlsPoints} `{Bincode} `{DeltaOrder} {B : Type} `{BalanceAccess B}.

Abbreviation D := (M (StakingState B) StakingError).

Definition on_vs {A} (m : VS A) : D A := fun s =>
  let '(r, vs) := m (st_vs s) in (r, mkStakingState vs (st_db s) (st_delta s) (st_balances s)).
Definition on_db {A} (m : M ZbxDb StakingError A) : D A := fun s =>
  let '(r, db) := m (st_db s) in (r, mkStakingState (st_vs s) db (st_delta s) (st_balances s)).
Definition on_delta (f : StakingDelta -> StakingDelta) : D unit :=
  modify (fun s => mkStakingState (st_vs s) (st_db s) (f (st_delta s)) (st_balances s)).
Definition on_balances (f : B -> B) : D unit :=
  modify (fun s => mkStakingState (st_vs s) (st_db s) (st_delta s) (f (st_balances s))).

Definition value_is (got expected : Z) : D unit := throw_if (negb (got =? expected)) (UnexpectedValue got expected).

(** The escrow pays [amount] to [to]. *)
Definition pay_from_escrow (to : Address) (amount : Z) : D unit :=
  s ← get_st;
  let escrow := get_balance STAKING_PRECOMPILE_ADDR (st_balances s) in
  _ ← throw_if (escrow <? amount) (EscrowUnderflow escrow amount);
  _ ← on_balances (set_balance STAKING_PRECOMPILE_ADDR (escrow - amount));
  on_balances (fun b => set_balance to (sat 128 (get_balance to b + amount)) b).

Definition dispatch_register (bls_pubkey bls_pop : bytes) (self_stake commission_bps : Z) (sender : Address) (value : Z) : D Z :=
  _ ← value_is value self_stake;
  pk ← lift (ok_or (pubkey_from_bytes bls_pubkey) (InvalidEvidence BadBlsPubkey));
  pop ← lift (ok_or (signature_from_bytes bls_pop) (InvalidEvidence BadBlsPop));
  _ ← on_vs (register_with_pop sender pk pop self_stake commission_bps);
  mret STAKING_GAS_REGISTER.

(** The check before any mutation does not know tombstoned validators. *)
Definition dispatch_delegate (validator : Address) (amount : Z) (sender : Address) (value : Z) : D Z :=
  _ ← value_is value amount;
  _ ← throw_if (amount =? 0) (DelegationTooSmall 1);
  s ← get_st;
  v ← lift_opt (validators (st_vs s) !! validator) (NotFound validator);
  _ ← throw_if (match status v with VJailed | VInactive | VUnbonding _ => true | _ => false end) Jailed_;
  prior ← lift (get_delegation (st_db s) validator sender (st_delta s));
  _ ← on_delta (put_delegation validator sender (sat 128 (prior + amount)));
  _ ← on_vs (delegate validator amount);
  mret STAKING_GAS_DELEGATE.

Definition dispatch_undelegate (validator : Address) (amount : Z) (sender : Address) (value current_height : Z) : D Z :=
  _ ← value_is value 0;
  s ← get_st;
  v ← lift_opt (validators (st_vs s) !! validator) (NotFound validator);
  _ ← throw_if (delegated_stake v <? amount) (InsufficientDelegation (delegated_stake v) amount);
  prior ← lift (get_delegation (st_db s) validator sender (st_delta s));
  _ ← throw_if (prior <? amount) (InsufficientDelegation prior amount);
  let unlock := sat 64 (current_height + UNBONDING_PERIOD_BLOCKS) in
  let existing := get_unbonding_entry (st_db s) unlock sender validator (st_delta s) in
  let combined := sat 128 (existing + amount) in
  _ ← on_delta (put_delegation validator sender (prior - amount));
  _ ← on_delta (put_unbonding_entry unlock sender validator combined);
  _ ← on_vs (undelegate validator amount);
  mret STAKING_GAS_UNDELEGATE.

(** [iter().sum()] wraps. *)
Definition sum_wei (l : list (Z * Address * Z)) : Z := foldl (fun acc '(_, _, a) => u128 (acc + a)) 0 l.

Definition of_validator (validator : Address) (l : list (Z * Address * Z)) : list (Z * Address * Z) :=
  filter (fun '(_, v, _) => v = validator) l.

Definition dispatch_withdraw (validator : Address) (sender : Address) (value current_height : Z) : D Z :=
  _ ← value_is value 0;
  s ← get_st;
  let matured_all := iter_matured_unbondings_for (st_db s) sender current_height (st_delta s) in
  let matured := of_validator validator matured_all in
  _ ← throw_if (bool_decide (matured = [])) NothingToWithdraw;
  let total := sum_wei matured in
  let escrow := get_balance STAKING_PRECOMPILE_ADDR (st_balances s) in
  _ ← throw_if (escrow <? total) (EscrowUnderflow escrow total);
  _ ← on_delta (delete_unbonding_entries sender (map fst matured));
  _ ← on_balances (set_balance STAKING_PRECOMPILE_ADDR (escrow - total));
  _ ← on_balances (fun b => set_balance sender (sat 128 (get_balance sender b + total)) b);
  mret STAKING_GAS_WITHDRAW.

Definition dispatch_claim (validator : Address) (sender : Address) (value : Z) : D Z :=
  _ ← value_is value 0;
  _ ← throw_if (negb (bool_decide (sender = validator))) (NotAValidator sender);
  s ← get_st;
  _ ← lift_opt (validators (st_vs s) !! validator) (NotAValidator validator);
  amt ← on_vs (claim_rewards validator);
  _ ← (if 0 <? amt then pay_from_escrow validator amt else mret tt);
  mret STAKING_GAS_CLAIM.

Definition dispatch_claim_delegator (validator : Address) (sender : Address) (value : Z) : D Z :=
  _ ← value_is value 0;
  s ← get_st;
  delegator_stake ← lift (get_delegation (st_db s) validator sender (st_delta s));
  _ ← throw_if (delegator_stake =? 0) (NoPendingRewards sender);
  amt ← on_vs (claim_delegator_reward validator sender delegator_stake);
  _ ← (if 0 <? amt then pay_from_escrow sender amt else mret tt);
  mret STAKING_GAS_CLAIM_DELEGATOR.

Definition dispatch_staking_tx (call : StakingTx) (sender : Address) (value current_height : Z) : D Z :=
  match call with
  | RegisterValidator _ pk pop self_stake commission_bps => dispatch_register pk pop self_stake commission_bps sender value
  | Delegate validator amount => dispatch_delegate validator amount sender value
  | Undelegate validator amount => dispatch_undelegate validator amount sender value current_height
  | Withdraw validator => dispatch_withdraw validator sender value current_height
  | ClaimRewards validator => dispatch_claim validator sender value
  | FileAppeal _ => throw (BadPayload AppealMisrouted)
  | ClaimDelegatorRewards validator => dispatch_claim_delegator validator sender value
  | ProposeUpgrade name version activation =>
    s ← get_st;
    _ ← on_db (propose_upgrade name version activation sender value current_height (st_vs s));
    mret STAKING_GAS_PROPOSE_UPGRADE
  | CastVote id approve =>
    s ← get_st;
    _ ← on_db (governance_vote id approve sender value current_height (st_vs s));
    mret STAKING_GAS_CAST_VOTE
  end.
End dispatch.

Definition is_staking_destination (to : option Address) : bool :=
  match to with Some a => bool_decide (a = STAKING_PRECOMPILE_ADDR) | None => false end.

(** * The staking calls' encoding, theorems (crates/zbx-types/src/staking_tx.rs) *)

Section codec.
Context `{RlpViewLaws}.

(** The sizes and ranges of a call's fields. *)
Definition call_shape (t : StakingTx) : Prop :=
  match t with
  | RegisterValidator pubkey bls_pubkey bls_pop self_stake commission_bps =>
    zlen pubkey = 33 /\ zlen bls_pubkey = 48 /\ zlen bls_pop = 96 /\ in_range 128 self_stake /\ in_range 16 commission_bps
  | Delegate validator amount | Undelegate validator amount => zlen validator = 20 /\ in_range 128 amount
  | Withdraw validator | ClaimRewards validator | ClaimDelegatorRewards validator => zlen validator = 20
  | FileAppeal evidence_id => zlen evidence_id = 32
  | ProposeUpgrade _ new_version activation_height => in_range 32 new_version /\ in_range 64 activation_height
  | CastVote proposal_id _ => in_range 64 proposal_id
  end.

Lemma nth_str t i d : item_ok (Lst (staking_items t)) -> staking_items t !! i = Some (Str d) ->
  rlp_nth (encode t) i ≫= rlp_data = Some d.
Proof.
  intros Hok Hi. unfold encode. rewrite (nth_out _ _ _ Hok Hi). simpl. apply data_out.
  eapply item_ok_child; [exact Hok|]. apply list_elem_of_In. by eapply list_elem_of_lookup_2.
Qed.
Lemma nth_fixed t i d n : item_ok (Lst (staking_items t)) -> staking_items t !! i = Some (Str d) -> zlen d = n ->
  rlp_nth (encode t) i ≫= fixed_bytes n = Some d.
Proof.
  intros Hok Hi Hn. pose proof (nth_str t i d Hok Hi) as E. destruct (rlp_nth (encode t) i) as [x|]; [|done]. simpl in *.
  unfold fixed_bytes. rewrite E. simpl. by rewrite Hn, Z.eqb_refl.
Qed.
Lemma nth_u128 t i v : item_ok (Lst (staking_items t)) -> staking_items t !! i = Some (Str (u128_be v)) -> in_range 128 v ->
  rlp_nth (encode t) i ≫= u128_from_be = Some v.
Proof.
  intros Hok Hi Hv. pose proof (nth_str t i _ Hok Hi) as E. destruct (rlp_nth (encode t) i) as [x|]; [|done]. cbn [mbind option_bind] in *.
  unfold u128_from_be. rewrite E. cbn [mbind option_bind]. unfold u128_be.
  assert (zlen (to_be 16 v) = 16) as -> by (unfold zlen; by rewrite length_to_be). rewrite be_val_to_be. cbn. f_equal. by apply Z.mod_small.
Qed.
Lemma nth_uint t i w n : item_ok (Lst (staking_items t)) -> staking_items t !! i = Some (Str (crate_uint n)) -> in_range w n -> w <= 64 ->
  rlp_nth (encode t) i ≫= rlp_uint w = Some n.
Proof.
  intros Hok Hi Hn Hw. unfold encode. rewrite (nth_out _ _ _ Hok Hi). simpl. apply uint_out; [|done..].
  eapply item_ok_child; [exact Hok|]. apply list_elem_of_In. by eapply list_elem_of_lookup_2.
Qed.

Lemma decoded_shape data t : Forall byte data -> decode data = Some t -> call_shape t.
Proof.
  intros Hb Hd. unfold decode in Hd.
  assert (forall i n x, rlp_nth data i ≫= fixed_bytes n = Some x -> zlen x = n) as Hfix.
  { intros i n x (y & Hy & E)%bind_Some. unfold fixed_bytes in E. apply bind_Some in E as (b & Hbb & E).
    destruct (Z.eqb_spec (zlen b) n) as [L|]; [|done]. by injection E as <-. }
  assert (forall i x, rlp_nth data i ≫= u128_from_be = Some x -> in_range 128 x) as Hamt.
  { intros i x (y & Hy & E)%bind_Some. unfold u128_from_be in E. apply bind_Some in E as (b & Hbb & E).
    destruct (Z.ltb_spec 16 (zlen b)) as [|L]; [done|]. injection E as <-.
    assert (Forall byte b) as Hbytes by (eapply data_bytes; [|exact Hbb]; by eapply nth_bytes).
    pose proof (be_val_bound b Hbytes) as Hv. pose proof (zlen_nonneg b). unfold in_range. split; [lia|].
    eapply Z.lt_le_trans; [apply Hv|]. change (2 ^ 128) with (256 ^ 16). apply Z.pow_le_mono_r; lia. }
  assert (forall i w x, rlp_nth data i ≫= rlp_uint w = Some x -> in_range w x) as Huint.
  { intros i w x (y & _ & E)%bind_Some. by eapply uint_range. }
  repeat match type of Hd with
  | _ ≫= _ = Some _ => apply bind_Some in Hd as (? & ? & Hd)
  | (if ?b then _ else _) = Some _ => destruct b; [try discriminate Hd|try discriminate Hd]
  | _ <$> _ = Some _ => apply fmap_Some in Hd as (? & ? & ->)
  end; try (by injection Hd as <-); try injection Hd as <-; simpl; unfold address_at in *; split_and?; eauto.
Qed.

(** The codec of the staking calls loses nothing and accepts nothing else:
    a call with fields of their sizes and ranges is decoded from its encoding,
    and what any bytes decode to has such fields. *)
Theorem staking_codec t : call_shape t -> item_ok (Lst (staking_items t)) ->
  decode (encode t) = Some t /\ forall data u, Forall byte data -> decode data = Some u -> call_shape u.
Proof.
  intros Hs Hok. split; [|apply decoded_shape].
  assert (rlp_item_count (encode t) = Some (zlen (staking_items t))) as Hn by by apply item_count_out.
  unfold decode. rewrite Hn. cbn [mbind option_bind].
  destruct t; cbn [call_shape] in Hs; destruct_and?;
    (rewrite (nth_uint _ 0 8 _ Hok eq_refl) by done); cbn [mbind option_bind];
    repeat match goal with |- context [zlen (staking_items ?t)] => let k := eval vm_compute in (zlen (staking_items t)) in change (zlen (staking_items t)) with k end;
    cbn [Z.eqb Pos.eqb andb]; change address_at with (fixed_bytes 20); change (bytes_at (encode ?t) ?i) with (rlp_nth (encode t) i ≫= rlp_data);
    repeat match goal with
    | |- context [rlp_nth _ ?i ≫= fixed_bytes _] => rewrite (nth_fixed _ i _ _ Hok eq_refl) by done
    | |- context [rlp_nth _ ?i ≫= u128_from_be] => rewrite (nth_u128 _ i _ Hok eq_refl) by done
    | |- context [rlp_nth _ ?i ≫= rlp_uint _] => rewrite (nth_uint _ i _ _ Hok eq_refl) by (done || by destruct approve)
    | |- context [rlp_nth _ ?i ≫= rlp_data] => rewrite (nth_str _ i _ Hok eq_refl)
    end; try done.
  by destruct approve.
Qed.
End codec.
