(* ===== verification/StakingCorrect.v ===== *)
(** * What the staking escrow owes (crates/zbx-staking/src)

    The stakes, rewards, pools and unbonding rows the escrow account has to pay
    out, how each operation changes their total, and the election. *)

From Stdlib Require Import ZArith Lia Sorting.Sorted.
From stdpp Require Import base tactics list gmap countable numbers option fin_maps fin_map_dom.
From S2P Require Import Prelude Bytes Collections Crypto Executor StakingDb Staking Governance StakingTx.

Local Open Scope Z_scope.

(** ** Obligations *)

Definition owed_to (_ : Address) (v : Validator) : Z :=
  self_stake v + delegated_stake v + pending_rewards v + delegator_reward_pool v.
Definition owed_vs (vs : ValidatorSet) : Z := wsum owed_to (validators vs).
Definition owed_rows (db : ZbxDb) (d : StakingDelta) : Z := msum (rows db d).

Record validator_ok (v : Validator) : Prop := mkValidatorOk {
  self_range : in_range 128 (self_stake v); delegated_range : in_range 128 (delegated_stake v);
  pending_range : in_range 128 (pending_rewards v); pool_range : in_range 128 (delegator_reward_pool v);
  denominator_range : in_range 128 (pool_denominator v); commission_range : 0 <= commission_bps v <= 2000 }.
Record vs_ok (vs : ValidatorSet) : Prop := mkVsOk {
  validators_ok : map_Forall (fun a v => v_address v = a /\ validator_ok v) (validators vs);
  active_nodup : NoDup (active_set vs) }.

Lemma owed_nonneg a v : validator_ok v -> 0 <= owed_to a v.
Proof. intros [? ? ? ? _ _]. unfold owed_to, in_range in *. lia. Qed.
Lemma owed_vs_nonneg vs : vs_ok vs -> 0 <= owed_vs vs.
Proof. intros [Hv _]. apply wsum_nonneg. intros a v Ha. by apply owed_nonneg, (Hv a v). Qed.

Lemma alter_is_insert {A} (f : A -> A) (m : gmap Address A) a v : m !! a = Some v -> alter f a m = <[a := f v]> m.
Proof.
  intros Ha. apply map_eq. intros b. destruct (decide (b = a)) as [->|].
  - by rewrite lookup_alter_eq, Ha, lookup_insert_eq.
  - by rewrite lookup_alter_ne, lookup_insert_ne by done.
Qed.
Lemma alter_absent {A} (f : A -> A) (m : gmap Address A) a : m !! a = None -> alter f a m = m.
Proof.
  intros Ha. apply map_eq. intros b. destruct (decide (b = a)) as [->|].
  - by rewrite lookup_alter_eq, Ha.
  - by rewrite lookup_alter_ne.
Qed.

Lemma owed_alter vs a v f : validators vs !! a = Some v ->
  owed_vs (alter_validator f a vs) = owed_vs vs - owed_to a v + owed_to a (f v).
Proof.
  intros Ha. unfold owed_vs, alter_validator, set_validators. simpl. rewrite (alter_is_insert _ _ _ v) by done.
  rewrite wsum_insert. unfold wval. by rewrite Ha.
Qed.
Lemma alter_missing vs a f : validators vs !! a = None -> alter_validator f a vs = vs.
Proof. intros Ha. unfold alter_validator, set_validators. rewrite alter_absent by done. by destruct vs. Qed.

(** An update of one validator keeps the registry well formed. *)
Lemma alter_ok f a vs : vs_ok vs -> (forall v, validator_ok v -> v_address (f v) = v_address v /\ validator_ok (f v)) ->
  vs_ok (alter_validator f a vs).
Proof.
  intros [Hv Ha] Hf. split; [|done]. intros b v. simpl. rewrite lookup_alter. case_decide as E; [|apply Hv].
  subst. destruct (validators vs !! b) as [w|] eqn:Hw; [|done]. intros [= <-]. destruct (Hv _ _ Hw) as [<- Hok].
  split; by apply Hf.
Qed.

(** ** Rewards *)

Lemma floor_le c w t : 0 <= c -> 0 <= w -> 0 < t -> u128 (c * w) / t <= c * w / t.
Proof.
  intros Hc Hw Ht. apply Z.div_le_mono; [lia|]. unfold wrap. apply Z.mod_le; nia.
Qed.

Lemma commission_bound v r : validator_ok v -> in_range 128 r -> 0 <= commission_of v r <= r.
Proof.
  intros Hv Hr. destruct Hv as [_ _ _ _ _ Hb]. unfold commission_of, in_range in *. destruct (checked 128 (r * commission_bps v)) as [p|] eqn:E.
  - apply checked_Some in E as [-> _]. split; [apply Z.div_pos; nia|]. apply Z.div_le_upper_bound; nia.
  - assert (0 <= r / 10000 * commission_bps v <= r).
    { pose proof (Z.div_pos r 10000 ltac:(lia) ltac:(lia)). pose proof (Z.mul_div_le r 10000 ltac:(lia)). nia. }
    unfold wrap. rewrite Z.mod_small by lia. lia.
Qed.

Lemma self_share_bound tr w self : 0 <= tr < 2 ^ 128 -> 0 < w -> 0 <= self <= w ->
  0 <= match checked 128 (tr * self) with Some p => p / w | None => u128 (tr / w * self) end <= tr.
Proof.
  intros Ht Hw Hs. destruct (checked 128 (tr * self)) as [p|] eqn:E.
  - apply checked_Some in E as [-> _]. split; [apply Z.div_pos; nia|]. apply Z.div_le_upper_bound; nia.
  - assert (0 <= tr / w * self <= tr).
    { pose proof (Z.div_pos tr w ltac:(lia) ltac:(lia)). pose proof (Z.mul_div_le tr w ltac:(lia)). nia. }
    unfold wrap. rewrite Z.mod_small by lia. lia.
Qed.

(** A committee member is owed at most its share by weight, the rest of its
    record is kept. *)
Lemma share_reward_spec c t v : validator_ok v -> in_range 128 c -> 0 < t ->
  let v' := share_reward c t v in
  v_address v' = v_address v /\ validator_ok v' /\ self_stake v' = self_stake v /\ delegated_stake v' = delegated_stake v /\
  forall a, owed_to a v <= owed_to a v' <= owed_to a v + c * total_stake v / t.
Proof.
  intros Hv Hc Ht. cbv zeta. unfold share_reward. cbv zeta. set (w := total_stake v). set (tr := u128 (c * w) / t).
  assert (0 <= w < 2 ^ 128 /\ (self_stake v <= w) /\ (delegated_stake v <> 0 -> 0 < w)) as (Hw & Hself & Hpos).
  { destruct Hv as [Hs Hd _ _ _ _]. unfold w, total_stake, sat, in_range in *. lia. }
  assert (0 <= tr <= c * w / t) as Htr.
  { split; [|apply floor_le; unfold in_range in *; lia]. apply Z.div_pos; [|done]. pose proof (wrap_range 128 (c * w)). unfold in_range in *. lia. }
  assert (tr < 2 ^ 128) as Htr2.
  { unfold tr. pose proof (wrap_range 128 (c * w) ltac:(lia)) as Hr. unfold in_range in Hr.
    pose proof (Z.div_le_upper_bound (u128 (c * w)) t (u128 (c * w)) Ht). nia. }
  assert (forall p d pool, in_range 128 p -> in_range 128 d -> in_range 128 pool -> validator_ok (set_pool pool d (set_pending p v))) as Hok.
  { intros p d pool Hp Hd Hpl. destruct Hv. by split. }
  pose proof (fun x => sat_range 128 x ltac:(lia)) as Hsat.
  destruct (Z.eqb_spec tr 0) as [E|E]; [split_and!; try done; intros; lia|].
  destruct (Z.eqb_spec (delegated_stake v) 0) as [Hd|Hd].
  { split_and!; try done.
    - destruct Hv. split; simpl; try done.
    - intros a. unfold owed_to. simpl. destruct Hv as [? ? ? ? ? ?]. unfold sat, in_range in *. lia. }
  pose proof (self_share_bound tr w (self_stake v) ltac:(lia) (Hpos Hd) ltac:(destruct Hv as [Hs ? ? ? ? ?]; unfold in_range in Hs; lia)) as Hss.
  set (ss := match checked 128 _ with Some _ => _ | None => _ end) in *.
  rewrite (sat_small 128 (tr - ss)) by (unfold in_range; lia).
  pose proof (commission_bound v (tr - ss) Hv ltac:(unfold in_range; lia)) as Hcm. set (cm := commission_of v (tr - ss)) in *.
  rewrite (sat_small 128 (tr - ss - cm)) by (unfold in_range; lia).
  split_and!; try done.
  - apply Hok; [apply Hsat|apply Hv|apply Hsat].
  - intros a. unfold owed_to. simpl. destruct Hv as [? ? ? ? ? ?]. unfold sat, in_range in *. lia.
Qed.

(** *** The committee *)

Definition weight_of (_ : Address) (v : Validator) : Z := total_stake v.
Definition weights (m : gmap Address Validator) (l : list Address) : Z := foldr (fun a acc => wval weight_of m a + acc) 0 l.

Lemma total_stake_range v : validator_ok v -> 0 <= total_stake v <= self_stake v + delegated_stake v.
Proof. intros [? ? ? ? ? ?]. unfold total_stake, sat, in_range in *. lia. Qed.

Lemma weights_le m l : map_Forall (fun _ v => validator_ok v) m -> NoDup l -> 0 <= weights m l <= wsum owed_to m.
Proof.
  intros Hm Hl. revert m Hm. induction Hl as [|a l Hni Hnd IH]; intros m Hm; simpl.
  - split; [done|]. apply wsum_nonneg. intros a v Ha. by apply owed_nonneg, (Hm a v).
  - assert (weights m l = weights (delete a m) l) as ->.
    { clear IH Hnd. induction l as [|b l IH]; [done|]. apply not_elem_of_cons in Hni as [Hne Hni]. simpl.
      rewrite IH by done. f_equal. unfold wval. by rewrite lookup_delete_ne. }
    specialize (IH (delete a m) (map_Forall_delete _ _ _ Hm)). pose proof (wsum_delete owed_to m a) as Hd.
    unfold wval in *. destruct (m !! a) as [v|] eqn:Ha; [|lia]. pose proof (total_stake_range v (Hm _ _ Ha)).
    destruct (Hm _ _ Ha) as [? ? Hp Hpl ? ?]. unfold owed_to in Hd at 3. unfold weight_of, in_range in *. lia.
Qed.

Lemma active_stake_weights vs : vs_ok vs -> owed_vs vs < 2 ^ 128 -> active_stake vs = weights (validators vs) (active_set vs).
Proof.
  intros [Hv Hn] Ho.
  assert (map_Forall (fun _ v => validator_ok v) (validators vs)) as Hm by (intros a v Ha; by apply (Hv a v)).
  pose proof (weights_le _ _ Hm Hn) as Hw. unfold owed_vs in Ho. unfold active_stake.
  assert (forall l acc, 0 <= acc -> 0 <= weights (validators vs) l -> acc + weights (validators vs) l < 2 ^ 128 ->
    foldl (fun acc a => match validators vs !! a with Some v => u128 (acc + total_stake v) | None => acc end) acc l =
    acc + weights (validators vs) l) as Hf; [|rewrite Hf; lia].
  clear Hw Hn. induction l as [|a l IH]; intros acc Ha Hw Hlt; simpl in *; [lia|].
  unfold wval in *. destruct (validators vs !! a) as [v|] eqn:Hav; [|by apply IH].
  pose proof (total_stake_range v (Hm _ _ Hav)) as Ht. unfold weight_of in *.
  assert (0 <= weights (validators vs) l) as Hwl.
  { clear -Hm. induction l as [|b l IH]; simpl; [lia|]. unfold wval. destruct (validators vs !! b) eqn:E; [|lia].
    pose proof (total_stake_range _ (Hm _ _ E)). unfold weight_of. lia. }
  rewrite wrap_small by (unfold in_range; lia). rewrite IH; lia.
Qed.

Lemma share_alter_ok c t a vs : vs_ok vs -> in_range 128 c -> 0 < t -> vs_ok (alter_validator (share_reward c t) a vs).
Proof. intros Hv Hc Ht. apply alter_ok; [done|]. intros v Hok. by destruct (share_reward_spec c t v Hok Hc Ht) as (? & ? & _). Qed.

Lemma share_alter_weights c t a vs l : vs_ok vs -> in_range 128 c -> 0 < t ->
  weights (validators (alter_validator (share_reward c t) a vs)) l = weights (validators vs) l.
Proof.
  intros [Hv _] Hc Ht. induction l as [|b l IH]; [done|]. simpl in *. rewrite IH. f_equal. unfold wval. rewrite lookup_alter.
  case_decide as E; [subst b|done]. destruct (validators vs !! a) as [v|] eqn:Ha; [|done]. simpl.
  destruct (Hv _ _ Ha) as [_ Hok]. destruct (share_reward_spec c t v Hok Hc Ht) as (_ & _ & E1 & E2 & _).
  unfold weight_of, total_stake. by rewrite E1, E2.
Qed.

Lemma committee_owed c t l vs : vs_ok vs -> in_range 128 c -> 0 < t ->
  let vs' := foldl (fun vs a => alter_validator (share_reward c t) a vs) vs l in
  vs_ok vs' /\ owed_vs vs <= owed_vs vs' /\ t * (owed_vs vs' - owed_vs vs) <= c * weights (validators vs) l.
Proof.
  intros Hv Hc Ht. cbv zeta. revert vs Hv. induction l as [|a l IH]; intros vs Hv; simpl; [split; [done|]; split; [lia|]; by rewrite Z.sub_diag, !Z.mul_0_r|].
  destruct (IH _ (share_alter_ok c t a vs Hv Hc Ht)) as (Ok' & Lo & Hi). rewrite share_alter_weights in Hi by done.
  split; [done|]. unfold wval. destruct (validators vs !! a) as [v|] eqn:Ha.
  - rewrite (owed_alter _ _ v) in Lo, Hi by done. destruct (validators_ok vs Hv _ _ Ha) as [_ Hok].
    destruct (share_reward_spec c t v Hok Hc Ht) as (_ & _ & _ & _ & Hb). specialize (Hb a).
    pose proof (Z.mul_div_le (c * total_stake v) t Ht). unfold weight_of in *. nia.
  - rewrite alter_missing in Lo, Hi |- * by done. by rewrite Z.add_0_l.
Qed.

Lemma interval_base_range h : in_range 128 (interval_base h).
Proof.
  unfold interval_base. generalize (seq 0 (Z.to_nat (h - sat 64 (h - (REWARD_INTERVAL - 1)) + 1))). intros l.
  assert (in_range 128 0) as H0 by done. revert H0. generalize 0. induction l as [|k l IH]; intros z Hz; simpl; [done|].
  apply IH, wrap_range. lia.
Qed.

Lemma bonus_ok x vs a : vs_ok vs -> 0 <= x ->
  let vs' := alter_validator (fun v => set_pending (sat 128 (pending_rewards v + x)) v) a vs in
  vs_ok vs' /\ owed_vs vs <= owed_vs vs' <= owed_vs vs + x /\
  active_set vs' = active_set vs /\ forall l, weights (validators vs') l = weights (validators vs) l.
Proof.
  intros Hv Hx. cbv zeta. split_and!; try done.
  - apply alter_ok; [done|]. intros v []. split; [done|]. split; try done. simpl. by apply sat_range.
  - destruct (validators vs !! a) as [v|] eqn:Ha; [|rewrite alter_missing by done; lia].
    rewrite (owed_alter _ _ v) by done. destruct (validators_ok vs Hv _ _ Ha) as [_ [? ? Hp ? ? ?]].
    unfold owed_to. simpl. unfold sat, in_range in *. lia.
  - destruct (validators vs !! a) as [v|] eqn:Ha; [|rewrite alter_missing by done; lia].
    rewrite (owed_alter _ _ v) by done. destruct (validators_ok vs Hv _ _ Ha) as [_ [? ? Hp ? ? ?]].
    unfold owed_to. simpl. unfold sat, in_range in *. lia.
  - intros l. induction l as [|b l IH]; [done|]. simpl in *. rewrite IH. f_equal. unfold wval. rewrite lookup_alter.
    case_decide as E; [subst b|done]. by destruct (validators vs !! a).
Qed.

(** What a distribution adds to the obligations is at most what is minted. *)
Lemma distribution_owed h proposer fees vs : vs_ok vs -> owed_vs vs < 2 ^ 128 -> 0 <= fees ->
  let vs' := distribute_block_reward h proposer fees vs in
  vs_ok vs' /\ owed_vs vs <= owed_vs vs' <= owed_vs vs + interval_escrow_mint h fees.
Proof.
  intros Hv Ho Hf. cbv zeta. unfold distribute_block_reward, interval_escrow_mint.
  destruct (h mod REWARD_INTERVAL =? 0); simpl; [|split; [done|lia]].
  pose proof (interval_base_range h) as Hb. set (total := sat 128 (interval_base h + fees)).
  assert (in_range 128 total) as Ht by (by apply sat_range). unfold in_range in Ht.
  destruct (Z.eqb_spec total 0) as [E|E]; [split; [done|lia]|].
  pose proof (Z.div_pos total 10 ltac:(lia) ltac:(lia)) as D1. pose proof (Z.mul_div_le total 10 ltac:(lia)) as D2.
  rewrite active_stake_weights by done. destruct (Z.eqb_spec (weights (validators vs) (active_set vs)) 0) as [Ew|Ew]; [split; [done|lia]|].
  destruct (bonus_ok (total / 10) vs proposer Hv D1) as (Hv1 & Ho1 & Ha1 & Hw1).
  set (vs1 := alter_validator _ proposer vs) in *.
  assert (0 < weights (validators vs) (active_set vs)) as Hpos.
  { destruct (weights_le (validators vs) (active_set vs)); [intros a v Ha; by apply (validators_ok vs Hv a v)|apply Hv|lia]. }
  destruct (committee_owed (total - total / 10) (weights (validators vs) (active_set vs)) (active_set vs1) vs1 Hv1) as (Hv2 & Lo & Hi);
    [unfold in_range; lia|done|].
  change (active_set vs) with (active_set vs1). split; [done|]. rewrite Hw1, Ha1 in Hi. rewrite Ha1 in Lo |- *. nia.
Qed.

(** ** Elections *)

Lemma elect_before_spec a b : elect_before a b = true <-> snd b < snd a \/ (snd a = snd b /\ bytes_leb (fst a) (fst b) = true).
Proof.
  unfold elect_before. destruct (Z.compare_spec (snd b) (snd a)); (split; [intros H'|intros [?|[? H']]]); try done; try lia; auto.
Qed.
Lemma elect_total : le_total elect_before.
Proof.
  intros a b Hn. apply elect_before_spec. destruct (Z.lt_trichotomy (snd a) (snd b)) as [|[E|]]; [by left| |].
  - right. split; [done|]. apply bytes_leb_total. destruct (bytes_leb (fst a) (fst b)) eqn:El; [|done].
    assert (elect_before a b = true) by (apply elect_before_spec; auto). congruence.
  - assert (elect_before a b = true) by (apply elect_before_spec; auto). congruence.
Qed.
Lemma elect_trans : le_trans elect_before.
Proof.
  intros a b c [H1|[H1 H1']]%elect_before_spec [H2|[H2 H2']]%elect_before_spec; apply elect_before_spec; try (left; lia).
  right. split; [lia|]. by eapply bytes_leb_trans.
Qed.
Lemma elect_antisym : le_antisym elect_before.
Proof.
  intros [a x] [b y] [H1|[H1 H1']]%elect_before_spec [H2|[H2 H2']]%elect_before_spec; simpl in *; try lia.
  by rewrite (bytes_leb_antisym a b), H1.
Qed.

(** The values of the registry in some order. *)
Definition lists_validators (listing : list Validator) (vs : ValidatorSet) : Prop := listing ≡ₚ (map_to_list (validators vs)).*2.
Definition candidate (vs : ValidatorSet) (c : Address * Z) : Prop :=
  exists v, validators vs !! fst c = Some v /\ is_eligible v = true /\ snd c = total_stake v.

Lemma ranking_elem listing vs c : vs_ok vs -> lists_validators listing vs -> c ∈ ranking listing <-> candidate vs c.
Proof.
  intros [Hv _] Hl. unfold ranking, candidate. rewrite (sort_by_perm elect_before). change (map ?f ?l) with (f <$> l).
  rewrite list_elem_of_fmap. split.
  - intros (v & -> & [He Hin]%list_elem_of_filter). rewrite Hl in Hin. apply list_elem_of_fmap in Hin as ([a w] & -> & Hin%elem_of_map_to_list).
    simpl in *. destruct (Hv _ _ Hin) as [-> _]. eauto.
  - intros (v & Hav & He & Hc). exists v. destruct (Hv _ _ Hav) as [Ha _]. split; [by destruct c; simpl in *; subst|].
    apply list_elem_of_filter. split; [done|]. rewrite Hl. apply list_elem_of_fmap. exists (fst c, v). split; [done|]. by apply elem_of_map_to_list.
Qed.

Lemma ranking_nodup listing vs : vs_ok vs -> lists_validators listing vs -> NoDup (ranking listing).*1.
Proof.
  intros [Hv _] Hl. unfold ranking. rewrite (sort_by_perm elect_before). change (map ?f ?l) with (f <$> l). rewrite <-list_fmap_compose.
  apply NoDup_fmap_2_strong.
  - intros v w Hin1 Hin2 E. simpl in E.
    assert (forall u, u ∈ filter (fun v => is_eligible v = true) listing -> validators vs !! v_address u = Some u) as Hlk.
    { intros u [_ Hin]%list_elem_of_filter. rewrite Hl in Hin. apply list_elem_of_fmap in Hin as ([a x] & -> & Hin%elem_of_map_to_list).
      simpl. by destruct (Hv _ _ Hin) as [-> _]. }
    apply Hlk in Hin1, Hin2. rewrite E in Hin1. congruence.
  - apply NoDup_filter. rewrite Hl. apply NoDup_fmap_2_strong; [|apply NoDup_map_to_list].
    intros [a v] [b w] Ha%elem_of_map_to_list Hb%elem_of_map_to_list E. simpl in E. subst w.
    destruct (Hv _ _ Ha) as [<- _], (Hv _ _ Hb) as [<- _]. done.
Qed.

Lemma elected_nodup listing vs : vs_ok vs -> lists_validators listing vs -> NoDup (elected listing).
Proof.
  intros Hv Hl. unfold elected. change (map ?f ?l) with (f <$> l). rewrite fmap_take.
  eapply sublist_NoDup; [by eapply ranking_nodup|apply sublist_take].
Qed.

(** Statuses after an election. *)
Definition status_after (old_active new_set : list Address) (a : Address) (s : ValidatorStatus) : ValidatorStatus :=
  if bool_decide (a ∈ new_set) then if bool_decide (s = VTombstoned) then VTombstoned else VActive
  else if bool_decide (a ∈ old_active) && bool_decide (s = VActive) then VPending else s.

Lemma foldl_alter {P : Address -> Prop} `{!forall a, Decision (P a)} (f : Validator -> Validator) (m : gmap Address Validator) l a :
  (forall v, f (f v) = f v) ->
  foldl (fun m a => if decide (P a) then m else alter f a m) m l !! a =
  (if decide (a ∈ l /\ ~ P a) then f else id) <$> m !! a.
Proof.
  intros Hf. revert m. induction l as [|b l IH]; intros m; cbn [foldl].
  - rewrite decide_False by (intros [?%elem_of_nil _]; done). by destruct (m !! a).
  - rewrite IH. destruct (decide (P b)) as [Hb|Hb].
    + rewrite (decide_ext (a ∈ b :: l /\ ~ P a) (a ∈ l /\ ~ P a)) by (rewrite elem_of_cons; naive_solver). done.
    + rewrite lookup_alter. destruct (decide (b = a)) as [->|Hne].
      * rewrite (decide_True _ _ (P := a ∈ a :: l /\ ~ P a)) by (split; [constructor|done]).
        destruct (m !! a); simpl; [|done]. case_decide; simpl; by rewrite ?Hf.
      * rewrite (decide_ext (a ∈ b :: l /\ ~ P a) (a ∈ l /\ ~ P a)) by (rewrite elem_of_cons; naive_solver). done.
Qed.

Lemma deactivate_idem v : deactivate (deactivate v) = deactivate v.
Proof. unfold deactivate. repeat case_bool_decide; done. Qed.
Lemma activate_idem v : activate (activate v) = activate v.
Proof. unfold activate. repeat case_bool_decide; simpl in *; done. Qed.

Lemma foldl_pointwise {A B} (f g : A -> B -> A) l m : (forall m b, f m b = g m b) -> foldl f m l = foldl g m l.
Proof. intros Hfg. revert m. induction l as [|b l IH]; intros m; simpl; [done|]. by rewrite Hfg. Qed.

Lemma elect_lookup listing vs a : validators (snd (elect_active_set listing vs)) !! a =
  (fun v => set_status (status_after (active_set vs) (elected listing) a (status v)) v) <$> validators vs !! a.
Proof.
  unfold elect_active_set. cbn [snd validators].
  rewrite (foldl_pointwise _ (fun m a => if decide (False : Prop) then m else alter activate a m)) by (intros; by rewrite decide_False by tauto).
  rewrite (foldl_alter (P := fun _ => False)) by apply activate_idem.
  rewrite (foldl_pointwise (fun m b => if bool_decide (b ∈ elected listing) then m else alter deactivate b m)
    (fun m b => if decide (b ∈ elected listing) then m else alter deactivate b m)) by (intros; by case_bool_decide; case_decide).
  rewrite (foldl_alter (P := fun b => b ∈ elected listing)) by apply deactivate_idem.
  destruct (validators vs !! a) as [v|]; [|done]. simpl. f_equal. unfold status_after.
  assert (set_status (status v) v = v) as Hid by (by destruct v).
  destruct (decide (a ∈ elected listing)) as [Hin|Hni].
  - rewrite !(decide_True (P := a ∈ elected listing /\ ~ False)), decide_False, bool_decide_eq_true_2 by tauto. simpl. unfold activate.
    case_bool_decide as E; [by rewrite <-E, Hid|done].
  - rewrite !(decide_False (P := a ∈ elected listing /\ ~ False)), bool_decide_eq_false_2 by tauto. simpl.
    destruct (decide (a ∈ active_set vs)) as [Ha|Ha].
    + rewrite decide_True, bool_decide_eq_true_2 by done. unfold deactivate. simpl. case_bool_decide; [done|by rewrite Hid].
    + rewrite decide_False, bool_decide_eq_false_2 by tauto. simpl. by rewrite Hid.
Qed.

Lemma elect_ok listing vs : vs_ok vs -> lists_validators listing vs -> vs_ok (snd (elect_active_set listing vs)).
Proof.
  intros Hv Hl. split; [|by eapply elected_nodup].
  intros a v. rewrite elect_lookup. destruct (validators vs !! a) as [w|] eqn:Ha; [|done]. intros [= <-].
  destruct (validators_ok vs Hv _ _ Ha) as [<- []]. by split.
Qed.

Lemma elect_owed listing vs : owed_vs (snd (elect_active_set listing vs)) = owed_vs vs.
Proof.
  unfold owed_vs.
  assert (validators (snd (elect_active_set listing vs)) =
    map_imap (fun a v => Some (set_status (status_after (active_set vs) (elected listing) a (status v)) v)) (validators vs)) as ->.
  { apply map_eq. intros a. rewrite elect_lookup, map_lookup_imap. by destruct (validators vs !! a). }
  generalize (validators vs). intros m. induction m as [|a v m Ha IH] using map_ind; [by rewrite map_imap_empty|].
  rewrite map_imap_insert_Some with (y := set_status (status_after (active_set vs) (elected listing) a (status v)) v) by done.
  rewrite !wsum_insert_new; [|done|by rewrite map_lookup_imap, Ha]. by rewrite IH.
Qed.

(** C33. An election depends on the registered validators only, not on the order
    in which the hash map lists them: it takes the eligible ones of the largest
    total stake, ties broken by the smaller address, at most a hundred; they
    become active, the active ones that were not elected become pending, and
    every other status - jailed, unbonding, tombstoned - is kept.  Nothing that
    is owed changes. *)
Theorem election_exact vs l1 l2 new vs' : vs_ok vs -> lists_validators l1 vs -> lists_validators l2 vs ->
  elect_active_set l1 vs = (new, vs') ->
  elect_active_set l2 vs = (new, vs') /\ vs_ok vs' /\ owed_vs vs' = owed_vs vs /\ active_set vs' = new /\
  (exists ranked, StronglySorted (fun a b => elect_before a b = true) ranked /\ NoDup ranked /\
    (forall c, c ∈ ranked <-> candidate vs c) /\ new = (take MAX_VALIDATORS ranked).*1) /\
  (forall a, validators vs' !! a =
    (fun v => set_status (status_after (active_set vs) new a (status v)) v) <$> validators vs !! a).
Proof.
  intros Hv H1 H2 E. assert (new = elected l1) as -> by (by injection E). 
  assert (ranking l2 = ranking l1) as Er.
  { apply sort_by_canonical; [apply elect_total|apply elect_trans|apply elect_antisym|].
    change (map ?f ?l) with (f <$> l). by rewrite H1, H2. }
  assert (vs' = snd (elect_active_set l1 vs)) as -> by (by rewrite E). split_and!.
  - unfold elect_active_set, elected. rewrite Er. done.
  - by apply elect_ok.
  - apply elect_owed.
  - done.
  - exists (ranking l1). split_and!; [apply sort_by_sorted; [apply elect_total|apply elect_trans]| |intros c; by apply ranking_elem|done].
    eapply NoDup_fmap_1. by apply (ranking_nodup l1 vs).
  - intros a. apply elect_lookup.
Qed.

(** ** Balances

    What the dispatcher relies on: a ledger whose supply fits in 128 bits. *)
Class BalanceLaws (B : Type) `{BalanceAccess B} : Type := {
  ledger_ok : B -> Prop;
  supply : B -> Z;
  supply_range : forall b, ledger_ok b -> supply b < 2 ^ 128;
  balance_le : forall a b, ledger_ok b -> 0 <= get_balance a b <= supply b;
  set_balance_spec : forall a x b, ledger_ok b -> 0 <= x -> supply b - get_balance a b + x < 2 ^ 128 ->
    ledger_ok (set_balance a x b) /\ supply (set_balance a x b) = supply b - get_balance a b + x /\
    forall a', get_balance a' (set_balance a x b) = if decide (a' = a) then x else get_balance a' b }.

Section solvency.
Context `{Crypto} `{BlsPoints} `{Bincode} `{DeltaOrderLaws} {B : Type} `{BL : BalanceLaws B}.
Implicit Types (s : StakingState B).

Definition escrow s : Z := get_balance STAKING_PRECOMPILE_ADDR (st_balances s).
Definition owed s : Z := owed_vs (st_vs s) + owed_rows (st_db s) (st_delta s).
Record staked_ok s : Prop := mkStakedOk {
  so_vs : vs_ok (st_vs s); so_db : db_ok (st_db s); so_delta : delta_ok (st_delta s); so_ledger : ledger_ok (st_balances s) }.

(** The rows hold non-negative amounts. *)
Lemma rows_nonneg db d k : db_ok db -> delta_ok d -> 0 <= mval (rows db d) k < 2 ^ 128.
Proof.
  intros [Hc _ _] Hd. unfold mval. rewrite rows_lookup. destruct (unbonding_puts d !! k) as [x|] eqn:E; simpl.
  - destruct (puts_ok d Hd _ _ E) as [_ Hx]. exact Hx.
  - case_decide; [done|]. destruct (rows_of (Unbonding db) !! k) as [a|] eqn:Er; simpl; [|done].
    apply rows_of_spec in Er as (_ & b & Hb & Lb & ->); [|done]. destruct (Hc _ _ Hb) as [_ Hbb]. unfold le_val.
    pose proof (be_val_bound (reverse b) ltac:(by apply Forall_reverse)) as Hv. unfold zlen in *. rewrite length_reverse, Lb in Hv. exact Hv.
Qed.
Lemma owed_rows_nonneg db d : db_ok db -> delta_ok d -> 0 <= owed_rows db d.
Proof. intros Hdb Hd. apply msum_nonneg. intros k. by apply rows_nonneg. Qed.

(** What one call may do to the books: well-formedness and the supply are kept,
    and the escrow covers as much of the obligations as before, up to [d] that
    the call deposits. *)
Record settles (d : Z) s s' : Prop := mkSettles {
  st_ok : staked_ok s';
  st_supply : supply (st_balances s') = supply (st_balances s);
  st_cover : escrow s - owed s <= escrow s' - owed s' + d }.

Lemma settles_refl s : staked_ok s -> settles 0 s s.
Proof. intros Hs. split; [done..|lia]. Qed.

Definition only_vs (vs : ValidatorSet) s : StakingState B := mkStakingState vs (st_db s) (st_delta s) (st_balances s).
Lemma settles_vs d vs s : staked_ok s -> vs_ok vs -> owed_vs vs <= owed_vs (st_vs s) + d -> settles d s (only_vs vs s).
Proof. intros [? ? ? ?] Hv Ho. split; [by split|done|]. unfold escrow, owed, only_vs. cbn [st_vs st_db st_delta st_balances]. lia. Qed.

(** The escrow pays an amount it holds. *)
Lemma escrow_pays to x b : ledger_ok b -> 0 <= x -> x <= get_balance STAKING_PRECOMPILE_ADDR b ->
  let b1 := set_balance STAKING_PRECOMPILE_ADDR (get_balance STAKING_PRECOMPILE_ADDR b - x) b in
  let b2 := set_balance to (sat 128 (get_balance to b1 + x)) b1 in
  ledger_ok b2 /\ supply b2 = supply b /\
  get_balance STAKING_PRECOMPILE_ADDR b - x <= get_balance STAKING_PRECOMPILE_ADDR b2 /\
  get_balance to b2 = get_balance to b1 + x.
Proof.
  intros Hb Hx Hle. cbv zeta. pose proof (supply_range b Hb) as Hs. pose proof (balance_le STAKING_PRECOMPILE_ADDR b Hb) as He.
  destruct (set_balance_spec STAKING_PRECOMPILE_ADDR (get_balance STAKING_PRECOMPILE_ADDR b - x) b) as (Hb1 & S1 & G1); [done|lia|lia|].
  set (b1 := set_balance STAKING_PRECOMPILE_ADDR _ b) in *. pose proof (balance_le to b1 Hb1) as Ht.
  rewrite sat_small by (unfold in_range; lia).
  destruct (set_balance_spec to (get_balance to b1 + x) b1) as (Hb2 & S2 & G2); [done|lia|lia|].
  split_and!; [done|lia| |by rewrite G2, decide_True].
  rewrite G2. case_decide as E; [subst to|]; rewrite !G1, decide_True by done; lia.
Qed.

(** *** Outcomes of a call *)

Definition not_underflow (e : StakingError) : Prop := match e with EscrowUnderflow _ _ => False | _ => True end.
(** A call that succeeds settles with its deposit; one that fails settles
    without, and never for lack of funds while the escrow covers what it owes. *)
Definition outcome {A} (d : Z) s (p : res StakingError A * StakingState B) : Prop :=
  match fst p with
  | Ok _ => settles d s (snd p)
  | Err e => settles 0 s (snd p) /\ (owed s <= escrow s -> not_underflow e)
  | Panic => False
  end.

Lemma outcome_guard {A} d s b e (k : unit -> M (StakingState B) StakingError A) : staked_ok s -> (b = true -> not_underflow e) ->
  (b = false -> outcome d s (k tt s)) -> outcome d s ((throw_if b e ≫= k) s).
Proof.
  intros Hs He Hk. unfold mbind, M_bind, throw_if. destruct b; [|by apply Hk].
  split; [by apply settles_refl|by intros; apply He].
Qed.
Lemma outcome_value {A} d s x y (k : unit -> M (StakingState B) StakingError A) : staked_ok s -> (x = y -> outcome d s (k tt s)) ->
  outcome d s ((value_is x y ≫= k) s).
Proof.
  intros Hs Hk. apply outcome_guard; [done|done|]. intros Hb. apply Hk. by apply negb_false_iff, Z.eqb_eq in Hb.
Qed.
Lemma outcome_opt {A V} d s (o : option V) e (k : V -> M (StakingState B) StakingError A) : staked_ok s -> not_underflow e ->
  (forall v, o = Some v -> outcome d s (k v s)) -> outcome d s ((lift_opt o e ≫= k) s).
Proof.
  intros Hs He Hk. unfold mbind, M_bind, lift_opt. destruct o as [v|]; simpl; [by apply Hk|].
  split; [by apply settles_refl|done].
Qed.
Lemma outcome_delegation {A} d s v dl (k : Z -> M (StakingState B) StakingError A) : staked_ok s ->
  (forall a, get_delegation (st_db s) v dl (st_delta s) = Ok a -> outcome d s (k a s)) ->
  outcome d s ((lift (get_delegation (st_db s) v dl (st_delta s)) ≫= k) s).
Proof.
  intros Hs Hk. destruct (get_delegation_ok (st_db s) v dl (st_delta s) (so_db s Hs)) as [a E].
  unfold mbind, M_bind, lift. rewrite E. by apply Hk.
Qed.

(** *** Deposits *)

Lemma insert_vs_ok a v vs : vs_ok vs -> v_address v = a -> validator_ok v -> vs_ok (set_validators (<[a := v]> (validators vs)) vs).
Proof.
  intros [Hv Ha] E Ho. split; [|done]. apply map_Forall_insert_2; [done|exact Hv].
Qed.

Lemma register_settles pk pop stake bps sender value s : staked_ok s -> in_range 128 stake -> 0 <= bps ->
  outcome value s (dispatch_register pk pop stake bps sender value s).
Proof.
  intros Hs Hst Hb. unfold dispatch_register. apply outcome_value; [done|]. intros ->.
  apply (outcome_opt _ _ (pubkey_from_bytes pk)); [done..|]. intros pk' _.
  apply (outcome_opt _ _ (signature_from_bytes pop)); [done..|]. intros pop' _.
  unfold mbind, M_bind, on_vs, register_with_pop, register, throw_if, get_st, put_st. unfold mbind, M_bind.
  destruct (negb (verify_pop pk' pop' sender)); simpl; [split; [|done]; apply (settles_vs 0); [done|apply Hs|lia]|].
  case_bool_decide as Hr; simpl; [split; [|done]; apply (settles_vs 0); [done|apply Hs|lia]|].
  destruct (stake <? MIN_SELF_STAKE); simpl; [split; [|done]; apply (settles_vs 0); [done|apply Hs|lia]|].
  apply settles_vs; [done| |].
  - apply insert_vs_ok; [apply Hs|done|]. split; simpl; try done. lia.
  - unfold owed_vs. simpl. rewrite wsum_insert. unfold wval.
    destruct (validators (st_vs s) !! sender) eqn:E; [by destruct Hr|]. unfold owed_to at 2. simpl. lia.
Qed.

Lemma put_delegation_settles v dl a s : staked_ok s -> pair_ok (v, dl) -> in_range 128 a ->
  settles 0 s (mkStakingState (st_vs s) (st_db s) (put_delegation v dl a (st_delta s)) (st_balances s)).
Proof.
  intros [? ? ? ?] Hp Ha. split; [split; try done; by apply put_delegation_ok|done|].
  unfold escrow, owed. simpl. unfold owed_rows, rows. simpl. lia.
Qed.

Lemma settles_mono d d' s1 s2 : settles d s1 s2 -> d <= d' -> settles d' s1 s2.
Proof. intros [? ? ?] Hd. split; [done..|lia]. Qed.
Lemma settles_after d s1 s2 s3 : settles 0 s1 s2 -> settles d s2 s3 -> settles d s1 s3.
Proof. intros [? ? ?] [? ? ?]. split; [done|congruence|lia]. Qed.

Lemma delegate_settles validator amount sender value s : staked_ok s -> in_range 128 amount -> addr20 sender -> addr20 validator ->
  outcome value s (dispatch_delegate validator amount sender value s).
Proof.
  intros Hs Ha Hsd Hvd. unfold dispatch_delegate. apply outcome_value; [done|]. intros ->. apply outcome_guard; [done..|]. intros _.
  apply (outcome_opt _ _ (validators (st_vs s) !! validator)); [done..|]. intros v Hv. apply outcome_guard; [done..|]. intros _.
  apply outcome_delegation; [done|]. intros prior _.
  pose proof (put_delegation_settles validator sender (sat 128 (prior + amount)) s Hs ltac:(done) ltac:(by apply sat_range)) as Hp.
  unfold mbind, M_bind, on_delta, modify, on_vs, delegate, get_mut, throw_if, get_st, lift_opt. unfold mbind, M_bind. simpl.
  set (s1 := mkStakingState _ _ _ _) in Hp. rewrite Hv. simpl.
  destruct (closed_to_delegation (status v)); simpl; [by split|].
  apply (settles_after amount _ s1); [done|].
  destruct (validators_ok _ (so_vs s Hs) _ _ Hv) as [_ Hok].
  apply (settles_vs amount _ s1); [apply Hp| |].
  - apply alter_ok; [apply Hs|]. intros w []. split; [done|]. split; try done. by apply sat_range.
  - simpl. rewrite (owed_alter _ _ v) by done. unfold owed_to. simpl. destruct Hok. unfold sat, in_range in *. lia.
Qed.

(** *** Unbonding *)

Lemma get_delegation_range db v dl d a : db_ok db -> delta_ok d -> get_delegation db v dl d = Ok a -> in_range 128 a.
Proof.
  intros [_ Hdc Hdr] Hd. unfold get_delegation. destruct (delegations d !! (v, dl)) as [x|] eqn:E.
  - intros [= <-]. by destruct (dels_ok _ Hd _ _ E).
  - unfold db_get_delegation. destruct (Delegations db !! _) as [b|] eqn:E2; [|by intros [= <-]].
    rewrite (Hdr _ _ E2). intros [= <-]. unfold le_val. destruct (Hdc _ _ E2) as [_ Hb].
    pose proof (be_val_bound (reverse b) ltac:(by apply Forall_reverse)) as Hv'. pose proof (Hdr _ _ E2) as L.
    unfold zlen in *. by rewrite length_reverse, L in Hv'.
Qed.

Lemma undelegate_settles validator amount sender value h s : staked_ok s -> in_range 128 amount -> addr20 sender -> addr20 validator ->
  outcome 0 s (dispatch_undelegate validator amount sender value h s).
Proof.
  intros Hs Ha Hsd Hvd. unfold dispatch_undelegate. apply outcome_value; [done|]. intros _.
  apply (outcome_opt _ _ (validators (st_vs s) !! validator)); [done..|]. intros v Hv.
  apply outcome_guard; [done..|]. intros Hle%Z.ltb_ge. apply outcome_delegation; [done|]. intros prior Hprior.
  apply outcome_guard; [done..|]. intros Hpr%Z.ltb_ge. cbv zeta.
  set (unlock := sat 64 (h + UNBONDING_PERIOD_BLOCKS)).
  assert (key_ok (unlock, sender, validator)) as Hk by (split; [by apply sat_range|done]).
  set (existing := get_unbonding_entry _ unlock sender validator _).
  assert (in_range 128 (prior - amount)) as Hpa.
  { pose proof (get_delegation_range _ _ _ _ _ (so_db s Hs) (so_delta s Hs) Hprior). unfold in_range in *. lia. }
  pose proof (put_delegation_settles validator sender (prior - amount) s Hs ltac:(done) Hpa) as Hp.
  unfold mbind, M_bind, on_delta, modify, on_vs, undelegate, get_mut, throw_if, get_st, lift_opt. unfold mbind, M_bind. simpl.
  set (s1 := mkStakingState _ _ _ _) in Hp. rewrite Hv. simpl. rewrite (proj2 (Z.ltb_ge _ _)) by done. simpl.
  apply (settles_after 0 _ s1); [done|]. destruct Hp as [[Ov Od Odl Ol] _ _].
  destruct (validators_ok _ (so_vs s Hs) _ _ Hv) as [_ Hok].
  assert (existing = mval (rows (st_db s) (st_delta s)) (unlock, sender, validator)) as Hex by (by apply get_unbonding_row; [apply Hs|]).
  pose proof (rows_nonneg (st_db s) (st_delta s) (unlock, sender, validator) (so_db s Hs) (so_delta s Hs)) as Hr. rewrite <-Hex in Hr.
  split; [|done|].
  - split; simpl; [|done| |done].
    + apply alter_ok; [apply Hs|]. intros w [? Hw ? ? ? ?]. split; [done|]. split; try done. simpl.
      destruct Hok as [? Hd ? ? ? ?]. unfold in_range in *. lia.
    + apply put_unbonding_ok; [done|done|by apply sat_range].
  - unfold escrow, owed. simpl. rewrite (owed_alter _ _ v) by done. unfold owed_rows. rewrite rows_put, msum_insert.
    change (rows (st_db s) (put_delegation validator sender (prior - amount) (st_delta s))) with (rows (st_db s) (st_delta s)).
    rewrite <-Hex. unfold owed_to. simpl. unfold sat, in_range in *. lia.
Qed.

Lemma rows_key_ok db d k a : db_ok db -> delta_ok d -> rows db d !! k = Some a -> key_ok k.
Proof.
  intros [Hc _ _] Hd. rewrite rows_lookup. destruct (unbonding_puts d !! k) as [x|] eqn:E; [intros _; apply (puts_ok d Hd _ _ E)|].
  case_decide; [done|]. intros Hr. by apply rows_of_spec in Hr as [Hk _].
Qed.

Definition amounts (l : list (Z * Address * Z)) : Z := foldr (fun r acc => snd r + acc) 0 l.

Lemma sum_wei_le l : Forall (fun r => 0 <= snd r) l -> 0 <= sum_wei l <= amounts l.
Proof.
  intros Hl. unfold sum_wei. assert (forall acc, 0 <= acc ->
    0 <= foldl (fun acc '(_, _, a) => u128 (acc + a)) acc l <= acc + amounts l) as Hf; [|by apply (Hf 0)].
  induction Hl as [|[[h v] a] l Ha _ IH]; intros acc Hacc; simpl in *; [lia|].
  assert (0 <= u128 (acc + a) <= acc + a) as Hu by (unfold wrap; split; [apply Z.mod_pos_bound; lia|apply Z.mod_le; lia]).
  specialize (IH (u128 (acc + a)) ltac:(lia)). lia.
Qed.

(** Deleting listed rows takes their amounts off the total. *)
Lemma delete_entries who l db d : db_ok db -> delta_ok d -> NoDup l.*1 ->
  Forall (fun r => rows db d !! (fst (fst r), who, snd (fst r)) = Some (snd r)) l ->
  delta_ok (delete_unbonding_entries who (map fst l) d) /\
  owed_rows db (delete_unbonding_entries who (map fst l) d) = owed_rows db d - amounts l.
Proof.
  intros Hdb. unfold owed_rows. revert d. induction l as [|[[h v] a] l IH]; intros d Hd; [intros; split; [done|simpl; lia]|].
  rewrite fmap_cons. intros [Hni Hnd]%list.NoDup_cons [Hr Hrs]%Forall_cons_iff. simpl in Hr, Hni.
  assert (delta_ok (delete_unbonding_entry h who v d)) as Hd' by (apply delete_unbonding_ok; [done|by eapply rows_key_ok]).
  destruct (IH (delete_unbonding_entry h who v d) Hd' Hnd) as [Ho Hm].
  - apply list_relations.list.Forall_forall. intros [[h' v'] a'] Hin.
    pose proof (proj1 (list_relations.list.Forall_forall _ _) Hrs _ Hin) as Hr'. simpl in *. rewrite rows_delete, lookup_delete_ne; [done|].
    intros [= -> ->]. apply Hni. apply list_elem_of_fmap. by exists (h', v', a').
  - split; [exact Ho|]. unfold delete_unbonding_entries in *. simpl. rewrite Hm, rows_delete.
    rewrite <-(insert_delete_id (rows db d) _ _ Hr) at 2. rewrite msum_insert_new by apply lookup_delete_eq. lia.
Qed.

Lemma amounts_perm l k : l ≡ₚ k -> amounts l = amounts k.
Proof. induction 1; simpl; lia. Qed.

(** What one delegator's matured rows amount to is part of the total. *)
Lemma amounts_le who l db d : db_ok db -> delta_ok d -> NoDup l.*1 ->
  Forall (fun r => rows db d !! (fst (fst r), who, snd (fst r)) = Some (snd r)) l -> amounts l <= owed_rows db d.
Proof.
  intros Hdb Hd Hnd Hl. destruct (delete_entries who l db d Hdb Hd Hnd Hl) as [Hd' Hm].
  pose proof (owed_rows_nonneg db _ Hdb Hd'). lia.
Qed.

Lemma withdraw_settles validator sender value h s : staked_ok s ->
  outcome 0 s (dispatch_withdraw validator sender value h s).
Proof.
  intros Hs. unfold dispatch_withdraw. apply outcome_value; [done|]. intros _.
  set (matured := of_validator validator (iter_matured_unbondings_for (st_db s) sender h (st_delta s))).
  pose proof (iter_matured_rows (st_db s) sender h (st_delta s) (unb_col _ (so_db s Hs))) as Hit.
  assert (NoDup matured.*1) as Hnd by (apply nodup_keys_filter; rewrite Hit; apply matured_keys_nodup).
  assert (Forall (fun r => rows (st_db s) (st_delta s) !! (fst (fst r), sender, snd (fst r)) = Some (snd r)) matured) as Hrows.
  { apply list_relations.list.Forall_forall. intros [[u v] a] [_ Hin]%list_elem_of_filter. rewrite Hit in Hin.
    by apply matured_elem in Hin as [Hr _]. }
  assert (Forall (fun r => 0 <= snd r) matured) as Hpos.
  { eapply Forall_impl; [exact Hrows|]. intros [[u v] a] Hr. simpl in *.
    pose proof (rows_nonneg (st_db s) (st_delta s) (u, sender, v) (so_db s Hs) (so_delta s Hs)) as Hn. unfold mval in Hn.
    rewrite Hr in Hn. simpl in Hn. lia. }
  apply outcome_guard; [done..|]. intros _. pose proof (sum_wei_le matured Hpos) as Hsum.
  pose proof (amounts_le sender matured _ _ (so_db s Hs) (so_delta s Hs) Hnd Hrows) as Hle.
  pose proof (owed_vs_nonneg _ (so_vs s Hs)) as Hv0.
  unfold mbind, M_bind, throw_if. cbv zeta. fold matured (escrow s). destruct (Z.ltb_spec (escrow s) (sum_wei matured)) as [Hlt|Hge]; simpl.
  { split; [by apply settles_refl|]. unfold owed. lia. }
  destruct (delete_entries sender matured _ _ (so_db s Hs) (so_delta s Hs) Hnd Hrows) as [Hd' Hm].
  destruct (escrow_pays sender (sum_wei matured) (st_balances s) (so_ledger s Hs) ltac:(lia) Hge) as (Hl & Hsup & Hesc & _).
  split; simpl.
  - destruct Hs. by split.
  - exact Hsup.
  - unfold escrow, owed in *. simpl. rewrite Hm. lia.
Qed.

(** *** Claims *)

Lemma pay_settles to x s0 s : settles (- x) s0 s -> staked_ok s0 -> 0 <= x ->
  outcome 0 s0 ((pay_from_escrow to x) s).
Proof.
  intros Hset Hs0 Hx. pose proof Hset as [Hs Hsup Hcov]. unfold pay_from_escrow. unfold mbind, M_bind, get_st, throw_if.
  fold (escrow s). destruct (Z.ltb_spec (escrow s) x) as [Hlt|Hge]; simpl.
  - split; [apply (settles_mono (- x)); [done|lia]|]. intros Hc.
    assert (0 <= owed s) by (pose proof (owed_vs_nonneg _ (so_vs s Hs)); pose proof (owed_rows_nonneg _ _ (so_db s Hs) (so_delta s Hs)); unfold owed; lia).
    lia.
  - destruct (escrow_pays to x (st_balances s) (so_ledger s Hs) Hx Hge) as (Hl & Hsup' & Hesc & _). split; simpl.
    + destruct Hs. by split.
    + rewrite <-Hsup. exact Hsup'.
    + unfold escrow, owed in *. simpl. lia.
Qed.

Lemma outcome_tail {A} s0 (p : res StakingError unit * StakingState B) (g : A) : outcome 0 s0 p ->
  outcome 0 s0 (match p with (Ok _, s') => (Ok g, s') | (Err e, s') => (Err e, s') | (Panic, s') => (Panic, s') end).
Proof. destruct p as [[u|e|] s']; done. Qed.

Lemma claim_settles validator sender value s : staked_ok s -> outcome 0 s (dispatch_claim validator sender value s).
Proof.
  intros Hs. unfold dispatch_claim. apply outcome_value; [done|]. intros _. apply outcome_guard; [done..|]. intros _.
  apply (outcome_opt _ _ (validators (st_vs s) !! validator)); [done..|]. intros v Hv.
  unfold mbind, M_bind, on_vs, claim_rewards, get_mut, get_st, lift_opt, modify. unfold mbind, M_bind. rewrite Hv. simpl.
  destruct (validators_ok _ (so_vs s Hs) _ _ Hv) as [_ Hok]. pose proof (pending_range v Hok) as Hp. unfold in_range in Hp.
  set (s1 := mkStakingState _ _ _ _).
  assert (settles (- pending_rewards v) s s1) as Hset.
  { apply (settles_vs (- pending_rewards v) _ s); [done| |].
    - apply alter_ok; [apply Hs|]. intros w []. split; [done|]. by split.
    - rewrite (owed_alter _ _ v) by done. unfold owed_to. simpl. lia. }
  destruct (Z.ltb_spec 0 (pending_rewards v)); simpl.
  - apply outcome_tail. apply pay_settles; [done|done|lia].
  - apply (settles_mono (- pending_rewards v)); [done|lia].
Qed.

Lemma claim_share_spec stake v share v' : validator_ok v -> in_range 128 stake -> claim_delegator_share stake v = (share, v') ->
  0 <= share /\ validator_ok v' /\ v_address v' = v_address v /\ forall a, owed_to a v' = owed_to a v - share.
Proof.
  intros Hv Hs E. unfold claim_delegator_share in E. destruct (Z.eqb_spec (delegator_reward_pool v) 0) as [E0|E0].
  { injection E as <- <-. split_and!; try done. intros a. lia. }
  injection E as <- <-. set (raw := if 0 <? pool_denominator v then _ else _).
  pose proof (pool_range v Hv) as Hpl. pose proof (denominator_range v Hv) as Hdn. unfold in_range in *.
  assert (0 <= raw) as Hraw.
  { unfold raw. destruct (Z.ltb_spec 0 (pool_denominator v)); [|lia]. destruct (checked 128 (delegator_reward_pool v * stake)) as [p|] eqn:Ec.
    - apply checked_Some in Ec as [-> _]. apply Z.div_pos; nia.
    - pose proof (sat_range 128 (delegator_reward_pool v / pool_denominator v * stake) ltac:(lia)) as Hr. unfold in_range in Hr. lia. }
  split; [lia|]. pose proof (fun x => sat_range 128 x ltac:(lia)) as Hsat. split_and!; try done.
  - destruct Hv. by split; simpl.
  - intros a. unfold owed_to. simpl. rewrite (sat_small 128 (_ - Z.min raw _)) by (unfold in_range; lia). lia.
Qed.

Lemma claim_delegator_settles validator sender value s : staked_ok s -> outcome 0 s (dispatch_claim_delegator validator sender value s).
Proof.
  intros Hs. unfold dispatch_claim_delegator. apply outcome_value; [done|]. intros _.
  apply outcome_delegation; [done|]. intros stake Hst. pose proof (get_delegation_range _ _ _ _ _ (so_db s Hs) (so_delta s Hs) Hst) as Hr.
  apply outcome_guard; [done..|]. intros Hz.
  unfold mbind, M_bind, on_vs, claim_delegator_reward, get_mut, get_st, lift_opt, modify, throw_if. unfold mbind, M_bind. rewrite Hz. simpl.
  destruct (validators (st_vs s) !! validator) as [v|] eqn:Hv; simpl; [|split; [apply (settles_vs 0); [done|apply Hs|lia]|done]].
  destruct (validators_ok _ (so_vs s Hs) _ _ Hv) as [Hav Hok]. destruct (claim_delegator_share stake v) as [share v'] eqn:Ec. simpl.
  destruct (claim_share_spec _ _ _ _ Hok Hr Ec) as (Hsh0 & Hok' & Ha' & Ho).
  set (vs1 := alter_validator (fun _ => v') validator (st_vs s)).
  assert (settles (- share) s (only_vs vs1 s)) as Hset.
  { apply settles_vs; [done| |].
    - destruct (so_vs s Hs) as [Hva Hna]. split; [|done]. intros b w. simpl. rewrite (alter_is_insert _ _ _ v) by done.
      destruct (decide (b = validator)) as [->|]; [rewrite lookup_insert_eq; intros [= <-]; by rewrite Ha'|rewrite lookup_insert_ne by done; apply Hva].
    - unfold vs1. rewrite (owed_alter _ _ v), Ho by done. lia. }
  destruct (Z.eqb_spec share 0) as [->|Hnz]; simpl; [by split|]. rewrite (proj2 (Z.ltb_lt _ _)) by lia.
  apply outcome_tail. by apply pay_settles.
Qed.

(** *** Governance calls touch the metadata column only *)

Record metadata_only (db db' : ZbxDb) : Prop := mkMetadataOnly {
  same_unbonding : Unbonding db' = Unbonding db; same_delegations : Delegations db' = Delegations db }.
Definition governs {A} (m : M ZbxDb StakingError A) : Prop :=
  forall db, metadata_only db (snd (m db)) /\ match fst (m db) with Ok _ => True | Err e => not_underflow e | Panic => False end.

Lemma governs_ret {A} (a : A) : governs (mret a).
Proof. by intros db. Qed.
Lemma governs_bind {A C} (m : M ZbxDb StakingError A) (k : A -> M ZbxDb StakingError C) : governs m -> (forall a, governs (k a)) -> governs (m ≫= k).
Proof.
  intros Hm Hk db. unfold mbind, M_bind. pose proof (Hm db) as [[? ?] Hr]. destruct (m db) as [[a|e|] db1]; simpl in *; [|by repeat split..].
  destruct (Hk a db1) as [[? ?] Hr']. split; [|done]. split; congruence.
Qed.
Lemma governs_throw_if b e : not_underflow e -> governs (throw_if b e).
Proof. intros He db. by destruct b. Qed.
Lemma governs_get : governs get_st.
Proof. by intros db. Qed.
Lemma governs_put k v : governs (modify (put_metadata k v)).
Proof. by intros db. Qed.
Lemma governs_load : governs load_proposal_registry.
Proof.
  apply governs_bind; [apply governs_get|]. intros db. destruct (Metadata db !! _); [|apply governs_ret].
  destruct (bincode_deserialize _); [|by intros ?]. destruct (registry_valid _); [apply governs_ret|by intros ?].
Qed.
Lemma governs_next : governs next_proposal_id.
Proof.
  apply governs_bind; [apply governs_get|]. intros db. apply governs_bind; [apply governs_put|]. intros _. apply governs_ret.
Qed.
Lemma governs_lift {A} (r : res StakingError A) : match r with Ok _ => True | Err e => not_underflow e | Panic => False end -> governs (lift r).
Proof. by intros Hr db. Qed.

Lemma propose_governs name version activation sender value h vs : governs (propose_upgrade name version activation sender value h vs).
Proof.
  unfold propose_upgrade. repeat (apply governs_bind; [by apply governs_throw_if|intros _]).
  apply governs_bind; [apply governs_next|]. intros id. apply governs_bind; [apply governs_load|]. intros preg.
  apply governs_bind; [|intros; apply governs_put]. apply governs_lift. unfold create_proposal.
  destruct (proposal_new _ _ _ _ _) as [p|]; simpl; [|done]. unfold registry_insert. by case_bool_decide.
Qed.
Lemma vote_governs id approve sender value h vs : governs (governance_vote id approve sender value h vs).
Proof.
  unfold governance_vote. repeat (apply governs_bind; [by apply governs_throw_if|intros _]).
  apply governs_bind; [apply governs_load|]. intros preg.
  apply governs_bind; [|intros [? ?]; apply governs_put]. apply governs_lift. unfold cast_and_maybe_finalize.
  destruct (preg !! id) as [p|]; simpl; [|done]. destruct (cast_vote _ _ p) as [q|]; simpl; [|done]. by destruct (try_finalize _ _ q).
Qed.

Lemma governs_settles {A} (m : M ZbxDb StakingError unit) (g : A) s : staked_ok s -> governs m -> outcome 0 s ((on_db m ≫= fun _ => mret g) s).
Proof.
  intros Hs Hm. unfold mbind, M_bind, on_db. destruct (Hm (st_db s)) as [[Eu Ed] Hr]. destruct (m (st_db s)) as [r db']. simpl in *.
  assert (settles 0 s (mkStakingState (st_vs s) db' (st_delta s) (st_balances s))) as Hset.
  { destruct Hs as [? [? ? ?] ? ?]. split; [split; try done; split; simpl; by rewrite ?Eu, ?Ed|done|].
    unfold escrow, owed, owed_rows, rows. simpl. rewrite Eu. lia. }
  destruct r as [u|e|]; [exact Hset|by split|done].
Qed.

(** ** The dispatcher *)

Definition call_ok (call : StakingTx) : Prop :=
  match call with
  | RegisterValidator _ _ _ self_stake bps => in_range 128 self_stake /\ in_range 16 bps
  | Delegate validator amount | Undelegate validator amount => addr20 validator /\ in_range 128 amount
  | _ => True
  end.

Lemma outcome_mono {A} d s (p : res StakingError A * StakingState B) : outcome 0 s p -> 0 <= d -> outcome d s p.
Proof. unfold outcome. destruct (fst p); [|done..]. intros. by eapply settles_mono. Qed.

Lemma dispatch_settles call sender value h s : staked_ok s -> call_ok call -> addr20 sender -> 0 <= value ->
  outcome value s (dispatch_staking_tx call sender value h s).
Proof.
  intros Hs Hc Hsd Hv. destruct call; simpl in Hc; unfold dispatch_staking_tx.
  - apply register_settles; [done|apply Hc|]. destruct Hc as [_ Hb]. unfold in_range in Hb. lia.
  - destruct Hc. by apply delegate_settles.
  - destruct Hc. apply outcome_mono; [by apply undelegate_settles|done].
  - apply outcome_mono; [by apply withdraw_settles|done].
  - apply outcome_mono; [by apply claim_settles|done].
  - apply outcome_mono; [by apply claim_delegator_settles|done].
  - split; [by apply settles_refl|done].
  - apply outcome_mono; [|done]. apply governs_settles; [done|apply propose_governs].
  - apply outcome_mono; [|done]. apply governs_settles; [done|apply vote_governs].
Qed.
End solvency.
