(* ===== verification/Slashing.v ===== *)
(** * Slashing
      (crates/zbx-staking/src/slashing_v2.rs, persistence.rs, pipeline.rs,
       the appeal dispatcher of tx_handler.rs)

    Evidence records with their appeal window, the registry that keeps them,
    the durable store behind it, and the pipeline that takes equivocation
    evidence to a burnt stake.  The registry, the store and the validator set
    are one state.  SHA3-256 and bincode are parameters. *)

From Stdlib Require Import ZArith Lia Sorting.Sorted.
From stdpp Require Import base tactics list gmap countable numbers option fin_maps fin_map_dom.
From S2P Require Import Prelude Bytes Collections Crypto Vote StakingDb Staking Governance StakingTx.

Local Open Scope Z_scope.

(** ** Evidence (slashing_v2.rs) *)

Definition APPEAL_WINDOW_BLOCKS : Z := 172800.
Definition WHISTLEBLOWER_REWARD_BPS : Z := 500.
Definition SLASH_DOUBLE_SIGN : Z := 500.
Definition SLASH_LIVENESS_DAILY : Z := 1.
Definition EPOCH_LENGTH : Z := 172800.
Definition SLASH_RECORD_FORMAT_VERSION : Z := 1.

Inductive EvidenceType : Type := TDoubleSign | TLivenessFault | TConsecutiveMiss | TInvalidBlock | TSurrogateVote.
Inductive EvidenceStatus : Type := EPending | EAppealed | EConfirmed | ERejected | EOverturned.
#[export] Instance EvidenceType_eq_dec : EqDecision EvidenceType.
Proof. solve_decision. Defined.
#[export] Instance EvidenceStatus_eq_dec : EqDecision EvidenceStatus.
Proof. solve_decision. Defined.

Record DoubleSignProof : Type := mkDoubleSign {
  ds_height : Z; ds_round : Z; ds_phase : Z; ds_block_a : Hash; ds_block_b : Hash; ds_sig_a : bytes; ds_sig_b : bytes;
  ds_validator : Address; ds_pubkey : bytes }.
Inductive BlockViolation : Type :=
| InvalidStateRoot (claimed actual : Hash) | InvalidTxRoot | GasLimitExceeded (claimed max : Z)
| InvalidTimestamp (claimed expected_min : Z) | ChainIdMismatch (claimed expected : Z).
Inductive SlashEvidenceV2 : Type :=
| DoubleSign (p : DoubleSignProof)
| LivenessFault (epoch missed total : Z)
| ConsecutiveMiss (from_block count : Z)
| InvalidBlock (block_hash : Hash) (proposer : Address) (violation : BlockViolation)
| SurrogateVote (vote_hash block_a block_b : Hash) (validator : Address).

Definition evidence_type (e : SlashEvidenceV2) : EvidenceType :=
  match e with
  | DoubleSign _ => TDoubleSign | LivenessFault _ _ _ => TLivenessFault | ConsecutiveMiss _ _ => TConsecutiveMiss
  | InvalidBlock _ _ _ => TInvalidBlock | SurrogateVote _ _ _ _ => TSurrogateVote
  end.
Definition offender_of (e : SlashEvidenceV2) : option Address :=
  match e with
  | DoubleSign p => Some (ds_validator p) | InvalidBlock _ p _ => Some p | SurrogateVote _ _ _ v => Some v | _ => None
  end.

Record SlashEvidenceRecord : Type := mkRecord {
  rec_id : Hash; rec_type : EvidenceType; offender : Address; submitted_by : Address; submit_block : Z;
  evidence : SlashEvidenceV2; rec_status : EvidenceStatus; base_slash_wei : Z; final_slash_wei : Z; appeal_deadline : Z;
  reporters : list Address; jailed_by_slash : bool; burn_applied : bool; format_version : Z }.
Definition set_rec_status (s : EvidenceStatus) (r : SlashEvidenceRecord) : SlashEvidenceRecord :=
  mkRecord (rec_id r) (rec_type r) (offender r) (submitted_by r) (submit_block r) (evidence r) s (base_slash_wei r)
    (final_slash_wei r) (appeal_deadline r) (reporters r) (jailed_by_slash r) (burn_applied r) (format_version r).
Definition set_reporters (l : list Address) (r : SlashEvidenceRecord) : SlashEvidenceRecord :=
  mkRecord (rec_id r) (rec_type r) (offender r) (submitted_by r) (submit_block r) (evidence r) (rec_status r) (base_slash_wei r)
    (final_slash_wei r) (appeal_deadline r) l (jailed_by_slash r) (burn_applied r) (format_version r).
Definition set_flags (jailed burnt : bool) (version : Z) (r : SlashEvidenceRecord) : SlashEvidenceRecord :=
  mkRecord (rec_id r) (rec_type r) (offender r) (submitted_by r) (submit_block r) (evidence r) (rec_status r) (base_slash_wei r)
    (final_slash_wei r) (appeal_deadline r) (reporters r) jailed burnt version.

(** *** Amounts *)

Definition base_slash_bps (t : EvidenceType) : Z :=
  match t with
  | TDoubleSign => SLASH_DOUBLE_SIGN | TLivenessFault => SLASH_LIVENESS_DAILY | TConsecutiveMiss => 100
  | TInvalidBlock => 2000 | TSurrogateVote => 500
  end.
Definition correlated_slash_bps (base_bps n_slashed_this_epoch n_total_validators : Z) : Z :=
  if n_total_validators =? 0 then base_bps
  else
    let ratio_bps := u128 (n_slashed_this_epoch * 10000) / n_total_validators in
    let factor_fp := u128 (10000 + 3 * ratio_bps) in
    let factor_sq := u128 (factor_fp * factor_fp) / 10000 in
    Z.min (u128 (base_bps * factor_sq) / 10000) 10000.
Definition slash_amount_wei (stake_wei slash_bps : Z) : Z :=
  match checked 128 (stake_wei * slash_bps) with
  | Some p => p / 10000
  | None => sat 128 (stake_wei / 10000 * slash_bps)
  end.

(** The consecutive duplicates of a sorted list. *)
Fixpoint dedup (l : list Address) : list Address :=
  match l with
  | [] => []
  | a :: l => match dedup l with b :: k => if bool_decide (a = b) then b :: k else a :: b :: k | [] => [a] end
  end.

Record FinalizedSlash : Type := mkFinalized { slash_wei : Z; total_reward : Z; splits : list (Address * Z) }.
Definition recompute_splits (r : SlashEvidenceRecord) : FinalizedSlash :=
  let slash := final_slash_wei r in
  let total_reward := u128 (slash * WHISTLEBLOWER_REWARD_BPS) / 10000 in
  let all_reporters := dedup (sort_by bytes_leb (submitted_by r :: reporters r)) in
  let n := zlen all_reporters in
  let per_reporter := if n =? 0 then 0 else total_reward / n in
  mkFinalized slash total_reward (map (fun a => (a, per_reporter)) all_reporters).

(** ** The registry *)

Record SlashingRegistryV2 : Type := mkRegistry {
  records : gmap Hash SlashEvidenceRecord; epoch_slash_count : gmap (Z * Address) Z; total_validators : Z }.
Definition registry_new (total : Z) : SlashingRegistryV2 := mkRegistry ∅ ∅ total.
Definition set_records (m : gmap Hash SlashEvidenceRecord) (g : SlashingRegistryV2) : SlashingRegistryV2 :=
  mkRegistry m (epoch_slash_count g) (total_validators g).

Inductive SubmitOutcome : Type := NewRecord (id : Hash) | CoWitnessAdded (id : Hash) | AlreadyRecorded (id : Hash).
Definition outcome_id (o : SubmitOutcome) : Hash :=
  match o with NewRecord id | CoWitnessAdded id | AlreadyRecorded id => id end.

Abbreviation R := (M SlashingRegistryV2 StakingError).

Section registry.
Context `{Sha3}.

Definition type_discriminant (t : EvidenceType) : Z :=
  match t with TDoubleSign => 0 | TLivenessFault => 1 | TConsecutiveMiss => 2 | TInvalidBlock => 3 | TSurrogateVote => 4 end.
Definition compute_id_for_offender (offender : Address) (submit_block : Z) (t : EvidenceType) : Hash :=
  sha3_256 (offender ++ reverse (to_be 8 submit_block) ++ [type_discriminant t]).

(** The epoch's counter is read, never incremented here. *)
Definition submit_evidence (e : SlashEvidenceV2) (submitter : Address) (current_block current_epoch offender_stake : Z) : R SubmitOutcome :=
  offender ← lift_opt (offender_of e) (InvalidEvidence NoOffender);
  let t := evidence_type e in
  let id := compute_id_for_offender offender current_block t in
  g ← get_st;
  match records g !! id with
  | Some existing =>
    if negb (bool_decide (rec_status existing = EPending)) then mret (AlreadyRecorded id)
    else if bool_decide (submitted_by existing = submitter) || bool_decide (submitter ∈ reporters existing)
    then mret (AlreadyRecorded id)
    else
      _ ← put_st (set_records (<[id := set_reporters (reporters existing ++ [submitter]) existing]> (records g)) g);
      mret (CoWitnessAdded id)
  | None =>
    let n_slashed := u64 (default 0 (epoch_slash_count g !! (current_epoch, offender)) + 1) in
    let base_bps := base_slash_bps t in
    let corr_bps := correlated_slash_bps base_bps n_slashed (total_validators g) in
    let record := mkRecord id t offender submitter current_block e EPending (slash_amount_wei offender_stake base_bps)
      (slash_amount_wei offender_stake corr_bps) (u64 (current_block + APPEAL_WINDOW_BLOCKS)) [] false false SLASH_RECORD_FORMAT_VERSION in
    _ ← put_st (set_records (<[id := record]> (records g)) g);
    mret (NewRecord id)
  end.
End registry.

Definition get_record (id : Hash) (g : SlashingRegistryV2) : option SlashEvidenceRecord := records g !! id.
Definition alter_record (f : SlashEvidenceRecord -> SlashEvidenceRecord) (id : Hash) (g : SlashingRegistryV2) : SlashingRegistryV2 :=
  set_records (alter f id (records g)) g.
Definition set_jailed_by_slash (id : Hash) (jailed : bool) : SlashingRegistryV2 -> SlashingRegistryV2 :=
  alter_record (fun r => set_flags jailed (burn_applied r) (format_version r) r) id.
Definition set_burn_applied (id : Hash) : SlashingRegistryV2 -> SlashingRegistryV2 :=
  alter_record (fun r => set_flags (jailed_by_slash r) true (format_version r) r) id.

Definition file_appeal (id : Hash) (current_block : Z) : R unit :=
  g ← get_st;
  r ← lift_opt (records g !! id) EvidenceNotFound;
  _ ← throw_if (negb (bool_decide (rec_status r = EPending))) AppealNotAllowed;
  _ ← throw_if (appeal_deadline r <? current_block) AppealWindowExpired;
  modify (alter_record (set_rec_status EAppealed) id).
Definition file_appeal_for_tx (id : Hash) (sender : Address) (current_block : Z) : R SlashEvidenceRecord :=
  g ← get_st;
  r ← lift_opt (records g !! id) EvidenceNotFound;
  _ ← throw_if (negb (bool_decide (offender r = sender))) AppealNotByOffender;
  _ ← file_appeal id current_block;
  g ← get_st;
  lift (unwrap (records g !! id)).

Definition finalize_slash (id : Hash) (current_block : Z) : R (option FinalizedSlash) :=
  g ← get_st;
  r ← lift_opt (records g !! id) EvidenceNotFound;
  if negb (bool_decide (rec_status r = EPending)) then mret None
  else if current_block <=? appeal_deadline r then mret None
  else
    _ ← modify (alter_record (fun r => set_flags (jailed_by_slash r) false SLASH_RECORD_FORMAT_VERSION (set_rec_status EConfirmed r)) id);
    mret (Some (recompute_splits r)).

Definition overturn_slash (id : Hash) : R Z :=
  g ← get_st;
  r ← lift_opt (records g !! id) EvidenceNotFound;
  _ ← throw_if (negb (bool_decide (rec_status r = EAppealed))) OverturnNotAllowed;
  _ ← modify (alter_record (set_rec_status EOverturned) id);
  mret (final_slash_wei r).
Definition reject_appeal (id : Hash) : R Z :=
  g ← get_st;
  r ← lift_opt (records g !! id) EvidenceNotFound;
  _ ← throw_if (negb (bool_decide (rec_status r = EAppealed))) OverturnNotAllowed;
  _ ← modify (alter_record (set_rec_status EConfirmed) id);
  mret (final_slash_wei r).

Definition count_records (f : SlashEvidenceRecord -> bool) (g : SlashingRegistryV2) : Z :=
  Z.of_nat (length (filter (fun r => f r = true) (map_to_list (records g)).*2)).
Definition pending_count (g : SlashingRegistryV2) : Z := count_records (fun r => bool_decide (rec_status r = EPending)) g.
Definition lifetime_confirmed_slashes (a : Address) (g : SlashingRegistryV2) : Z :=
  count_records (fun r => bool_decide (rec_status r = EConfirmed) && bool_decide (offender r = a)) g.

(** The only place that increments an epoch's counter. *)
Definition insert_rehydrated_record (r : SlashEvidenceRecord) (g : SlashingRegistryV2) : SlashingRegistryV2 :=
  let counts := match rec_status r with
    | EConfirmed | EPending | EAppealed =>
      let key := (submit_block r / EPOCH_LENGTH, offender r) in
      <[key := u64 (default 0 (epoch_slash_count g !! key) + 1)]> (epoch_slash_count g)
    | _ => epoch_slash_count g
    end in
  mkRegistry (<[rec_id r := r]> (records g)) counts (total_validators g).

(** ** The store (persistence.rs, db.rs) *)

Inductive BondKind : Type := WhistleblowerBond | AppealBond.
Record BondEntry : Type := mkBond { bond_wei : Z; bond_kind : BondKind }.

(** bincode on the stored types. *)
Class SlashBincode : Type := {
  record_bytes : SlashEvidenceRecord -> bytes; record_of : bytes -> option SlashEvidenceRecord;
  bond_bytes : BondEntry -> bytes; bond_of : bytes -> option BondEntry;
  evidence_bytes : EquivocationEvidence -> bytes; evidence_of : bytes -> option EquivocationEvidence }.
Class SlashBincodeLaws `{SlashBincode} : Prop := {
  record_roundtrip : forall r, record_of (record_bytes r) = Some r;
  bond_roundtrip : forall b, bond_of (bond_bytes b) = Some b;
  evidence_roundtrip : forall e, evidence_of (evidence_bytes e) = Some e }.

Definition set_slash_columns (ev recs bonds : Column) (db : ZbxDb) : ZbxDb :=
  mkDb (Delegations db) (Unbonding db) (Metadata db) ev recs bonds.

Abbreviation SDB := (M ZbxDb StakingError).

Section store.
Context `{Crypto} `{SlashBincode}.

(** [collect] of results. *)
Fixpoint decode_all {A B} (f : A -> option B) (l : list A) : option (list B) :=
  match l with
  | [] => Some []
  | a :: l => b ← f a; k ← decode_all f l; Some (b :: k)
  end.

Definition evidence_id (ev : EquivocationEvidence) : Hash := Crypto.keccak256 (evidence_bytes ev).
Definition put_evidence (ev : EquivocationEvidence) : SDB Hash :=
  db ← get_st;
  _ ← put_st (set_slash_columns (<[evidence_id ev := evidence_bytes ev]> (SlashingEvidence db)) (SlashingRecords db) (SlashingBonds db) db);
  mret (evidence_id ev).
Definition put_record (r : SlashEvidenceRecord) : SDB unit :=
  modify (fun db => set_slash_columns (SlashingEvidence db) (<[rec_id r := record_bytes r]> (SlashingRecords db)) (SlashingBonds db) db).
Definition load_all_records : SDB (list SlashEvidenceRecord) :=
  db ← get_st;
  let raw := filter (fun kv => zlen (fst kv) = 32) (iterator_cf (SlashingRecords db)) in
  lift_opt (decode_all (fun kv => record_of (snd kv)) raw) (Persistence Corrupt).
Definition load_records_ready_to_finalize (current_block : Z) : SDB (list SlashEvidenceRecord) :=
  l ← load_all_records;
  mret (filter (fun r => rec_status r = EPending /\ appeal_deadline r < current_block) l).
Definition load_records_with_unapplied_burn : SDB (list SlashEvidenceRecord) :=
  l ← load_all_records;
  mret (filter (fun r => SLASH_RECORD_FORMAT_VERSION <= format_version r /\ rec_status r = EConfirmed /\ burn_applied r = false) l).

Definition slashing_bond_key (id : Hash) (reporter : Address) : bytes := id ++ reporter.
Definition put_bond (id : Hash) (reporter : Address) (b : BondEntry) : SDB unit :=
  modify (fun db => set_slash_columns (SlashingEvidence db) (SlashingRecords db)
    (<[slashing_bond_key id reporter := bond_bytes b]> (SlashingBonds db)) db).
Definition delete_bond (id : Hash) (reporter : Address) : SDB unit :=
  modify (fun db => set_slash_columns (SlashingEvidence db) (SlashingRecords db)
    (delete (slashing_bond_key id reporter) (SlashingBonds db)) db).

(** The iterator starts at the first key not below the record's id and stops at
    the first that does not carry it. *)
Fixpoint bonds_loop (id : Hash) (items : list (bytes * bytes)) : list (Address * bytes) :=
  match items with
  | [] => []
  | (k, v) :: items =>
    if negb (zlen k =? 52) || negb (bool_decide (take 32 k = id)) then []
    else (drop 32 k, v) :: bonds_loop id items
  end.
Definition iter_slashing_bonds_for_record (id : Hash) (db : ZbxDb) : list (Address * bytes) :=
  bonds_loop id (filter (fun kv => bytes_leb id (fst kv) = true) (iterator_cf (SlashingBonds db))).
Definition list_bonds_for_record (id : Hash) : SDB (list (Address * BondEntry)) :=
  db ← get_st;
  lift_opt (decode_all (fun ab => b ← bond_of (snd ab); Some (fst ab, b)) (iter_slashing_bonds_for_record id db)) (Persistence Corrupt).

Definition evidence_to_double_sign (ev : EquivocationEvidence) : SlashEvidenceV2 :=
  DoubleSign (mkDoubleSign (block_number (data (vote_a ev))) (ev_round ev) (ev_phase ev) (block_hash (data (vote_a ev)))
    (block_hash (data (vote_b ev))) (signature (vote_a ev)) (signature (vote_b ev)) (ev_validator ev) (ev_pubkey ev)).
End store.

(** [DoubleSignProof::verify]: the signatures are checked over the raw block
    hashes. *)
Definition double_sign_verify `{Crypto} `{BlsPoints} (p : DoubleSignProof) : bool :=
  if bool_decide (ds_block_a p = ds_block_b p) then false
  else match pubkey_from_bytes (ds_pubkey p), signature_from_bytes (ds_sig_a p), signature_from_bytes (ds_sig_b p) with
  | Some pk, Some sa, Some sb => verify_single sa pk (ds_block_a p) && verify_single sb pk (ds_block_b p)
  | _, _, _ => false
  end.

(** ** The pipeline (pipeline.rs) *)

(** [apply_slash_burn_v2]: the offender's self stake is burnt, reporters that
    are validators are credited, the offender leaves the active set. *)
Definition burn_status (s : ValidatorStatus) (force_tombstone : bool) : ValidatorStatus * bool * bool :=
  match s, force_tombstone with
  | VTombstoned, _ => (s, false, false)
  | _, true => (VTombstoned, false, true)
  | VActive, false => (VJailed, true, false)
  | _, false => (s, false, false)
  end.
Definition credit_reporter (vs : ValidatorSet) (split : Address * Z) : ValidatorSet :=
  alter_validator (fun w => set_pending (sat 128 (pending_rewards w + snd split)) w) (fst split) vs.
Definition apply_slash_burn_v2 (vs : ValidatorSet) (offender : Address) (slash_wei : Z) (splits : list (Address * Z))
    (force_tombstone : bool) : (bool * bool) * ValidatorSet :=
  let '(flags, vs1) := match validators vs !! offender with
    | Some v =>
      let actual := Z.min slash_wei (self_stake v) in
      let '(st, jailed, tombstoned) := burn_status (status v) force_tombstone in
      ((jailed, tombstoned), alter_validator (fun v => set_status st (set_self_stake (sat 128 (self_stake v - actual)) v)) offender vs)
    | None => ((false, false), vs)
    end in
  let vs2 := foldl credit_reporter vs1 splits in
  (flags, mkSet (validators vs2) (filter (fun a => a <> offender) (active_set vs2)) (current_epoch vs2)).

Record AppliedSlash : Type := mkApplied {
  ap_record : Hash; ap_offender : Address; ap_burn_wei : Z; ap_whistleblower_wei : Z; ap_whistleblower : Address;
  ap_reporters : list Address; ap_splits : list Z; ap_jailed : bool; ap_tombstoned : bool }.
Record AppliedOverturn : Type := mkOverturn {
  ov_record : Hash; ov_offender : Address; ov_refunded : Z; ov_bond_refunded : Z; ov_bonds_forfeited : Z; ov_unjailed : bool }.

Record PipelineState : Type := mkPipeline { pl_registry : SlashingRegistryV2; pl_db : ZbxDb; pl_vs : ValidatorSet }.
Abbreviation PL := (M PipelineState StakingError).

Section pipeline.
Context `{Crypto} `{SlashBincode} `{Sha3}.

Definition on_registry {A} (m : R A) : PL A := fun s => let '(r, g) := m (pl_registry s) in (r, mkPipeline g (pl_db s) (pl_vs s)).
Definition on_store {A} (m : SDB A) : PL A := fun s => let '(r, db) := m (pl_db s) in (r, mkPipeline (pl_registry s) db (pl_vs s)).
Definition on_validators (f : ValidatorSet -> ValidatorSet) : PL unit :=
  modify (fun s => mkPipeline (pl_registry s) (pl_db s) (f (pl_vs s))).

Definition rehydrate_from_disk : PL Z :=
  recs ← on_store load_all_records;
  _ ← on_registry (modify (fun g => foldl (fun g r => insert_rehydrated_record r g) g recs));
  mret (zlen recs).

Definition ingest_equivocation (ev : EquivocationEvidence) (submitter : Address) (current_block current_epoch offender_stake : Z) : PL Hash :=
  _ ← throw_if (negb (evidence_verify ev)) (InvalidEvidence EquivocationNotVerified);
  _ ← on_store (put_evidence ev);
  outcome ← on_registry (submit_evidence (evidence_to_double_sign ev) submitter current_block current_epoch offender_stake);
  let record_id := outcome_id outcome in
  s ← get_st;
  record ← lift_opt (get_record record_id (pl_registry s)) (Persistence RecordVanished);
  match outcome with
  | NewRecord _ | CoWitnessAdded _ =>
    _ ← on_store (put_record record);
    _ ← on_store (put_bond record_id submitter (mkBond 0 WhistleblowerBond));
    mret record_id
  | AlreadyRecorded _ => mret record_id
  end.

(** The flags of an applied burn, in the registry and on disk. *)
Definition stamp_burn (id : Hash) (jailed tombstoned : bool) : PL unit :=
  _ ← on_registry (modify (set_burn_applied id));
  _ ← (if jailed || tombstoned then on_registry (modify (set_jailed_by_slash id true)) else mret tt);
  s ← get_st;
  match get_record id (pl_registry s) with
  | Some r => on_store (put_record r)
  | None => mret tt
  end.

Definition burn_record (r : SlashEvidenceRecord) (type_of : EvidenceType) (f : FinalizedSlash) : PL AppliedSlash :=
  s ← get_st;
  let force_tombstone := (2 <=? lifetime_confirmed_slashes (offender r) (pl_registry s)) || bool_decide (type_of = TInvalidBlock) in
  let '((jailed, tombstoned), vs) := apply_slash_burn_v2 (pl_vs s) (offender r) (slash_wei f) (splits f) force_tombstone in
  _ ← on_validators (fun _ => vs);
  _ ← stamp_burn (rec_id r) jailed tombstoned;
  mret (mkApplied (rec_id r) (offender r) (slash_wei f) (total_reward f) (default (offender r) (head (map fst (splits f))))
    (map fst (splits f)) (map snd (splits f)) jailed tombstoned).

(** Phase 0: confirmed records whose burn was not recorded. *)
Definition already_slashed (vs : ValidatorSet) (r : SlashEvidenceRecord) : bool :=
  match validators vs !! offender r with
  | None => true
  | Some v => (self_stake v <? final_slash_wei r)
      || (jailed_by_slash r && match status v with VJailed | VTombstoned => true | _ => false end)
      || negb (bool_decide (status v = VActive))
  end.
Definition replay_one (current_block : Z) (r : SlashEvidenceRecord) : PL (list AppliedSlash) :=
  if current_block <=? appeal_deadline r then mret []
  else
    s ← get_st;
    if already_slashed (pl_vs s) r then
      _ ← stamp_burn (rec_id r) false false; mret []
    else
      a ← burn_record r (rec_type r) (recompute_splits r); mret [a].

Definition finalize_one (current_block : Z) (r : SlashEvidenceRecord) : PL (list AppliedSlash) :=
  result ← on_registry (finalize_slash (rec_id r) current_block);
  match result with
  | None => mret []
  | Some finalized =>
    s ← get_st;
    updated ← lift_opt (get_record (rec_id r) (pl_registry s)) (Persistence RecordVanished);
    _ ← on_store (put_record updated);
    a ← burn_record r (rec_type updated) finalized;
    mret [a]
  end.

Fixpoint each_record (f : SlashEvidenceRecord -> PL (list AppliedSlash)) (l : list SlashEvidenceRecord) : PL (list AppliedSlash) :=
  match l with
  | [] => mret []
  | r :: l => a ← f r; k ← each_record f l; mret (a ++ k)
  end.

Definition tick_finalize (current_block : Z) : PL (list AppliedSlash) :=
  to_replay ← on_store load_records_with_unapplied_burn;
  applied ← each_record (replay_one current_block) to_replay;
  ready ← on_store (load_records_ready_to_finalize current_block);
  more ← each_record (finalize_one current_block) ready;
  mret (applied ++ more).

Definition sum_bonds (k : BondKind) (l : list (Address * BondEntry)) : Z :=
  foldl (fun acc '(_, b) => match bond_kind b, k with
    | AppealBond, AppealBond | WhistleblowerBond, WhistleblowerBond => sat 128 (acc + bond_wei b)
    | _, _ => acc end) 0 l.

Definition overturn_and_refund (id : Hash) : PL AppliedOverturn :=
  s ← get_st;
  record ← lift_opt (get_record id (pl_registry s)) EvidenceNotFound;
  _ ← throw_if (negb (bool_decide (rec_status record = EAppealed))) OverturnNotAllowed;
  let refunded_wei := if burn_applied record then final_slash_wei record else 0 in
  bonds ← on_store (list_bonds_for_record id);
  let appeal_bond_refunded := sum_bonds AppealBond bonds in
  let forfeited := sum_bonds WhistleblowerBond bonds in
  s ← get_st;
  let unjailed := match validators (pl_vs s) !! offender record with
    | Some v => burn_applied record && jailed_by_slash record && bool_decide (status v = VJailed)
    | None => false
    end in
  _ ← on_validators (alter_validator (fun v =>
    let v := set_self_stake (sat 128 (self_stake v + refunded_wei)) v in
    let v := if unjailed then set_status VPending v else v in
    set_pending (sat 128 (pending_rewards v + appeal_bond_refunded)) v) (offender record));
  _ ← on_registry (overturn_slash id);
  s ← get_st;
  updated ← lift_opt (get_record id (pl_registry s)) (Persistence RecordVanished);
  _ ← on_store (put_record updated);
  _ ← on_store (foldr (fun '(reporter, _) k => _ ← delete_bond id reporter; k) (mret tt) bonds);
  mret (mkOverturn id (offender record) refunded_wei appeal_bond_refunded forfeited unjailed).

(** tx_handler.rs: the bond is stored before the record. *)
Definition dispatch_file_appeal_tx (id : Hash) (sender : Address) (sent_value_wei current_height : Z) : PL Z :=
  _ ← throw_if (negb (sent_value_wei =? APPEAL_BOND_WEI)) (AppealBondMismatch sent_value_wei APPEAL_BOND_WEI);
  updated_record ← on_registry (file_appeal_for_tx id sender current_height);
  _ ← on_store (put_bond id sender (mkBond APPEAL_BOND_WEI AppealBond));
  _ ← on_store (put_record updated_record);
  mret STAKING_GAS_FILE_APPEAL.
End pipeline.
