(* ===== verification/SlashingCorrect.v ===== *)
(** * Slashing, theorems (crates/zbx-staking/src/slashing_v2.rs, persistence.rs, pipeline.rs)

    The registry and the store agree, a confirmed record has been burnt, no
    record is burnt twice, and what a burn costs and pays. *)

From Stdlib Require Import ZArith Lia Sorting.Sorted.
From stdpp Require Import base tactics list gmap countable numbers option fin_maps fin_map_dom.
From S2P Require Import Prelude Bytes Collections Crypto Vote StakingDb Staking Governance StakingTx StakingCorrect Slashing.

Local Open Scope Z_scope.

(** ** Amounts *)

Lemma slash_amount_le stake bps : 0 <= stake < 2 ^ 128 -> 0 <= bps <= 10000 -> 0 <= slash_amount_wei stake bps <= stake.
Proof.
  intros Hs Hb. unfold slash_amount_wei. destruct (checked 128 (stake * bps)) as [p|] eqn:E.
  - apply checked_Some in E as [-> _]. split; [apply Z.div_pos; nia|]. apply Z.div_le_upper_bound; nia.
  - assert (0 <= stake / 10000 * bps <= stake).
    { pose proof (Z.div_pos stake 10000 ltac:(lia) ltac:(lia)). pose proof (Z.mul_div_le stake 10000 ltac:(lia)). nia. }
    unfold sat. lia.
Qed.
Lemma correlated_range t n total : 0 <= correlated_slash_bps (base_slash_bps t) n total <= 10000.
Proof.
  unfold correlated_slash_bps. destruct (total =? 0); [destruct t; vm_compute; split; discriminate|].
  set (x := u128 (base_slash_bps t * _)). assert (0 <= x) by (unfold x, wrap; apply Z.mod_pos_bound; lia).
  pose proof (Z.div_pos x 10000 ltac:(lia) ltac:(lia)). lia.
Qed.

Definition split_total (l : list (Address * Z)) : Z := foldr (fun s acc => snd s + acc) 0 l.

Lemma split_total_const p (l : list Address) : split_total (map (fun a => (a, p)) l) = zlen l * p.
Proof. unfold split_total. induction l as [|a l IH]; [done|]. simpl. rewrite IH, zlen_cons. lia. Qed.

Lemma splits_le r : 0 <= final_slash_wei r < 2 ^ 118 ->
  0 <= split_total (splits (recompute_splits r)) <= final_slash_wei r * 5 / 100 /\
  Forall (fun s => 0 <= snd s) (splits (recompute_splits r)).
Proof.
  intros Hf. unfold recompute_splits. cbv zeta. cbn [splits]. set (l := dedup _).
  unfold WHISTLEBLOWER_REWARD_BPS. rewrite wrap_small by (unfold in_range; lia).
  replace (final_slash_wei r * 500 / 10000) with (final_slash_wei r * 5 / 100).
  2:{ replace (final_slash_wei r * 500) with (final_slash_wei r * 5 * 100) by lia. change 10000 with (100 * 100). symmetry. by apply Z.div_mul_cancel_r. }
  set (t := final_slash_wei r * 5 / 100). assert (0 <= t) by (apply Z.div_pos; lia).
  set (p := if zlen l =? 0 then 0 else t / zlen l). assert (0 <= p /\ zlen l * p <= t) as [Hp Hle].
  { unfold p. destruct (Z.eqb_spec (zlen l) 0); [lia|]. pose proof (zlen_nonneg l). split; [apply Z.div_pos; lia|apply Z.mul_div_le; lia]. }
  rewrite split_total_const. pose proof (zlen_nonneg l). split; [nia|].
  apply list_relations.list.Forall_forall. intros [a x] (b & Hax & _)%list_elem_of_fmap. by injection Hax as -> ->.
Qed.

(** ** Registry and store agree *)

Section agreement.
Context `{CR : Crypto} `{SlashBincodeLaws} `{SH : Sha3}.
Context (sha3_length : forall m, zlen (sha3_256 m) = 32).
Implicit Types (s : PipelineState) (r : SlashEvidenceRecord).

Definition recs s : gmap Hash SlashEvidenceRecord := records (pl_registry s).

Record record_ok (id : Hash) r : Prop := mkRecordOk {
  ro_id : rec_id r = id; ro_len : zlen id = 32; ro_burn : rec_status r <> EConfirmed -> burn_applied r = false }.
(** What is in memory is what is on disk. *)
Record synced s : Prop := mkSynced {
  sy_rows : SlashingRecords (pl_db s) = record_bytes <$> recs s;
  sy_recs : map_Forall record_ok (recs s) }.

(** A record written to the registry and to the store. *)
Definition put_rec r s : PipelineState :=
  mkPipeline (set_records (<[rec_id r := r]> (recs s)) (pl_registry s))
    (set_slash_columns (SlashingEvidence (pl_db s)) (<[rec_id r := record_bytes r]> (SlashingRecords (pl_db s))) (SlashingBonds (pl_db s)) (pl_db s))
    (pl_vs s).
Definition with_vs (vs : ValidatorSet) s : PipelineState := mkPipeline (pl_registry s) (pl_db s) vs.

Lemma put_rec_synced r s : synced s -> record_ok (rec_id r) r -> synced (put_rec r s).
Proof.
  intros [Hr Hm] Hok. split; unfold put_rec, recs; simpl.
  - rewrite fmap_insert. unfold recs in Hr. by rewrite Hr.
  - by apply map_Forall_insert_2.
Qed.

(** What a record keeps, and what a burnt one does. *)
Record evolved r r' : Prop := mkEvolved {
  ev_offender : offender r' = offender r; ev_final : final_slash_wei r' = final_slash_wei r;
  ev_confirmed : rec_status r = EConfirmed -> rec_status r' = EConfirmed;
  ev_burnt : burn_applied r = true -> burn_applied r' = true }.
Definition evolves s s' : Prop := forall id r, recs s !! id = Some r -> exists r', recs s' !! id = Some r' /\ evolved r r'.

Lemma evolved_refl r : evolved r r.
Proof. by split. Qed.
Lemma evolved_trans r1 r2 r3 : evolved r1 r2 -> evolved r2 r3 -> evolved r1 r3.
Proof. intros [] []. split; [congruence..|auto|auto]. Qed.
Lemma evolves_refl s : evolves s s.
Proof. intros id r Hr. eauto using evolved_refl. Qed.
Lemma evolves_trans s1 s2 s3 : evolves s1 s2 -> evolves s2 s3 -> evolves s1 s3.
Proof.
  intros H12 H23 id r Hr. destruct (H12 id r Hr) as (r2 & H2 & E2). destruct (H23 id r2 H2) as (r3 & H3 & E3). eauto using evolved_trans.
Qed.
Lemma evolves_same s s' : recs s' = recs s -> evolves s s'.
Proof. intros E id r Hr. rewrite E. eauto using evolved_refl. Qed.
Lemma put_rec_evolves r0 r s : recs s !! rec_id r = Some r0 -> evolved r0 r -> evolves s (put_rec r s).
Proof.
  intros Hr He id x Hx. unfold put_rec, recs in *. simpl. destruct (decide (id = rec_id r)) as [->|Hne].
  - rewrite lookup_insert_eq. rewrite Hr in Hx. injection Hx as <-. eauto.
  - rewrite lookup_insert_ne by done. eauto using evolved_refl.
Qed.

Lemma alter_put f id r (g : SlashingRegistryV2) : records g !! id = Some r ->
  alter_record f id g = set_records (<[id := f r]> (records g)) g.
Proof.
  intros Hr. unfold alter_record. f_equal. apply map_eq. intros i. destruct (decide (i = id)) as [->|Hne].
  - by rewrite lookup_alter_eq, lookup_insert_eq, Hr.
  - by rewrite lookup_alter_ne, lookup_insert_ne by done.
Qed.

Definition stamped (j : bool) r : SlashEvidenceRecord := set_flags (jailed_by_slash r || j) true (format_version r) r.

Lemma stamp_burn_exec id jailed tombstoned r s : recs s !! id = Some r -> rec_id r = id ->
  stamp_burn id jailed tombstoned s = (Ok tt, put_rec (stamped (jailed || tombstoned) r) s).
Proof.
  intros Hr Hid. unfold stamp_burn, put_rec, recs in *. destruct s as [g db vs]. simpl in *. subst id.
  unfold set_burn_applied, on_registry. simpl. unfold mbind, M_bind, modify. simpl. rewrite (alter_put _ _ r) by done.
  set (g1 := set_records _ g). assert (records g1 !! rec_id r = Some (set_flags (jailed_by_slash r) true (format_version r) r)) as H1
    by apply lookup_insert_eq.
  destruct (jailed || tombstoned); simpl.
  - unfold set_jailed_by_slash. rewrite (alter_put _ _ _ g1 H1). unfold get_record. simpl. rewrite lookup_insert_eq. simpl.
    unfold put_record, on_store, modify. simpl. unfold stamped. simpl. rewrite insert_insert_eq, orb_true_r. done.
  - unfold get_record. rewrite H1. unfold put_record, on_store, modify. simpl. unfold stamped. by rewrite orb_false_r.
Qed.

Lemma stamped_ok j id r : record_ok id r -> rec_status r = EConfirmed -> record_ok id (stamped j r).
Proof. intros [] Hc. split; simpl; [done|done|congruence]. Qed.

Lemma burn_record_exec r0 r t f s : recs s !! rec_id r = Some r0 -> rec_id r0 = rec_id r ->
  exists a j vs, burn_record r t f s = (Ok a, put_rec (stamped j r0) (with_vs vs s)) /\
    ap_record a = rec_id r /\ ap_offender a = offender r /\ ap_burn_wei a = slash_wei f.
Proof.
  intros Hr Hid. unfold burn_record, mbind, M_bind, get_st. cbv beta iota zeta. set (ft := orb _ _).
  destruct (apply_slash_burn_v2 (pl_vs s) (offender r) (slash_wei f) (splits f) ft) as [[j t'] vs] eqn:Eb.
  unfold on_validators, modify. simpl.
  pose proof (stamp_burn_exec (rec_id r) j t' r0 (with_vs vs s) Hr Hid) as Hs. unfold with_vs in Hs. rewrite Hs. simpl.
  eexists _, (j || t'), vs. split; [reflexivity|done].
Qed.
(** *** Loading *)

Lemma decode_all_keys {A B K} (f : A -> option B) (key : A -> K) (key' : B -> K) (l : list A) :
  Forall (fun x => exists y, f x = Some y /\ key' y = key x) l ->
  decode_all f l = Some (omap f l) /\ map key' (omap f l) = map key l.
Proof.
  induction 1 as [|x l (y & Hy & Hk) _ [IH1 IH2]]; [done|].
  change (omap f (x :: l)) with (match f x with Some y => y :: omap f l | None => omap f l end). cbn [decode_all]. rewrite Hy, IH1. split; [done|].
  cbn [map]. by rewrite Hk, IH2.
Qed.

Definition lists s (l : list SlashEvidenceRecord) : Prop :=
  (forall r, r ∈ l <-> recs s !! rec_id r = Some r) /\ NoDup (map rec_id l).

Lemma load_all_exec s : synced s -> exists l, load_all_records (pl_db s) = (Ok l, pl_db s) /\ lists s l.
Proof.
  intros [Hrows Hm]. unfold load_all_records, mbind, M_bind, get_st. cbv beta iota zeta. match goal with |- context [decode_all _ ?l] => set (raw := l) end.
  assert (forall kv, kv ∈ raw <-> exists r, recs s !! fst kv = Some r /\ snd kv = record_bytes r) as Hraw.
  { intros [k v]. unfold raw, iterator_cf. rewrite list_elem_of_filter, (sort_by_perm key_leb), elem_of_map_to_list, Hrows, lookup_fmap, fmap_Some. simpl. split.
    - intros (_ & r & Hr & ->). eauto.
    - intros (r & Hr & ->). split; [apply (ro_len _ _ (Hm _ _ Hr))|eauto]. }
  destruct (decode_all_keys (fun kv => record_of (snd kv)) fst rec_id raw) as [Hd Hk].
  { apply list_relations.list.Forall_forall. intros kv (r & Hr & ->)%Hraw. exists r. split; [apply record_roundtrip|apply (ro_id _ _ (Hm _ _ Hr))]. }
  rewrite Hd. eexists. split; [reflexivity|]. split.
  - intros r. rewrite list_elem_of_omap. split.
    + intros (kv & (r' & Hr' & E)%Hraw & Hr). rewrite E, record_roundtrip in Hr. injection Hr as ->. by rewrite (ro_id _ _ (Hm _ _ Hr')).
    + intros Hr. exists (rec_id r, record_bytes r). split; [apply Hraw; eauto|apply record_roundtrip].
  - rewrite Hk. unfold raw, iterator_cf. eapply sublist_NoDup; [|apply fmap_sublist, sublist_filter].
    rewrite (sort_by_perm key_leb). apply NoDup_fst_map_to_list.
Qed.

Lemma lists_filter (Q : SlashEvidenceRecord -> Prop) `{!forall r, Decision (Q r)} s l : lists s l ->
  (forall r, r ∈ filter Q l <-> Q r /\ recs s !! rec_id r = Some r) /\ NoDup (map rec_id (filter Q l)).
Proof.
  intros [Hl Hn]. split; [intros r; by rewrite list_elem_of_filter, Hl|].
  eapply sublist_NoDup; [done|apply fmap_sublist, sublist_filter].
Qed.

(** *** One record *)

(** What handling the record [r] leaves: the others are as they were, and a
    burn it reports is recorded. *)
Record handled r (out : list AppliedSlash) s s' : Prop := mkHandled {
  ha_synced : synced s'; ha_evolves : evolves s s';
  ha_others : forall id, id <> rec_id r -> recs s' !! id = recs s !! id;
  ha_out : out = [] \/ exists a r', out = [a] /\ ap_record a = rec_id r /\ ap_offender a = offender r /\ ap_burn_wei a = final_slash_wei r /\
    recs s' !! rec_id r = Some r' /\ rec_status r' = EConfirmed /\ burn_applied r' = true /\
    offender r' = offender r /\ final_slash_wei r' = final_slash_wei r }.

Lemma put_rec_handled r0 r' r out s : synced s -> recs s !! rec_id r = Some r0 -> rec_id r' = rec_id r -> record_ok (rec_id r) r' -> evolved r0 r' ->
  (out = [] \/ exists a, out = [a] /\ ap_record a = rec_id r /\ ap_offender a = offender r /\ ap_burn_wei a = final_slash_wei r /\
    rec_status r' = EConfirmed /\ burn_applied r' = true /\ offender r' = offender r /\ final_slash_wei r' = final_slash_wei r) ->
  handled r out s (put_rec r' s).
Proof.
  intros Hs Hr Hid Hok He Hout. split.
  - apply put_rec_synced; [done|by rewrite Hid].
  - eapply put_rec_evolves; [by rewrite Hid|done].
  - intros id Hne. unfold put_rec, recs. simpl. rewrite Hid. by rewrite lookup_insert_ne by done.
  - destruct Hout as [->|(a & -> & ? & ? & ? & Hb)]; [by left|right]. exists a, r'. split_and!; try done; try apply Hb.
    unfold put_rec, recs. simpl. rewrite Hid. apply lookup_insert_eq.
Qed.

Lemma handled_vs r out vs s s' : handled r out (with_vs vs s) s' -> handled r out s s'.
Proof. intros []. by split. Qed.

Lemma burn_handled r0 r t f s : synced s -> recs s !! rec_id r = Some r0 -> rec_status r0 = EConfirmed -> burn_applied r0 = false ->
  offender r0 = offender r -> final_slash_wei r0 = final_slash_wei r -> slash_wei f = final_slash_wei r ->
  exists a s', burn_record r t f s = (Ok a, s') /\ handled r [a] s s'.
Proof.
  intros Hs Hr Hc Hb Ho Hf Hw. pose proof (sy_recs s Hs _ _ Hr) as Hok.
  destruct (burn_record_exec r0 r t f s Hr (ro_id _ _ Hok)) as (a & j & vs & E & Ea & Eo & Ew).
  eexists a, _. split; [exact E|]. apply (handled_vs _ _ vs). apply put_rec_handled with (r0 := r0); try done.
  - destruct Hs. by split.
  - apply Hok.
  - by apply stamped_ok.
  - right. exists a. split_and!; try done; congruence.
Qed.

Definition confirmed r : SlashEvidenceRecord := set_flags (jailed_by_slash r) false SLASH_RECORD_FORMAT_VERSION (set_rec_status EConfirmed r).

Lemma finalize_one_handled h r s : synced s -> recs s !! rec_id r = Some r -> rec_status r = EPending -> appeal_deadline r < h ->
  exists a s', finalize_one h r s = (Ok [a], s') /\ handled r [a] s s'.
Proof.
  intros Hs Hr Hp Hd. pose proof (sy_recs s Hs _ _ Hr) as Hok. destruct Hok as [_ Hlen Hburn].
  assert (handled r [] s (put_rec (confirmed r) s)) as Hh.
  { apply put_rec_handled with (r0 := r); [done|done|done|by split| |by left].
    split; [done|done|done|]. intros Hb. rewrite Hburn in Hb by (by rewrite Hp). done. }
  set (s1 := put_rec (confirmed r) s) in *. pose proof (ha_synced _ _ _ _ Hh) as Hs1.
  assert (recs s1 !! rec_id r = Some (confirmed r)) as Hr1 by (unfold s1, put_rec, recs; simpl; apply lookup_insert_eq).
  destruct (burn_handled (confirmed r) r (rec_type (confirmed r)) (recompute_splits r) s1 Hs1 Hr1) as (a & s2 & E & Hb); try done.
  exists a, s2. split.
  - assert (on_registry (finalize_slash (rec_id r) h) s = (Ok (Some (recompute_splits r)),
      mkPipeline (set_records (<[rec_id r := confirmed r]> (recs s)) (pl_registry s)) (pl_db s) (pl_vs s))) as Ef.
    { unfold on_registry, finalize_slash, mbind, M_bind, get_st, recs in *. rewrite Hr. cbn. rewrite bool_decide_true by done. cbn.
      rewrite (proj2 (Z.leb_gt _ _)) by done. cbn. by rewrite (alter_put _ _ r) by done. }
    unfold finalize_one, mbind, M_bind. rewrite Ef. cbn [get_st]. cbv beta iota zeta. unfold get_record. cbn [pl_registry records set_records].
    rewrite lookup_insert_eq. cbn. unfold s1, put_rec in E. cbn in E. rewrite E. done.
  - destruct Hb as [S2 V2 O2 A2]. split; [done| | |].
    + eapply evolves_trans; [apply Hh|done].
    + intros id Hne. rewrite O2 by done. by apply Hh.
    + destruct A2 as [?|?]; [done|by right].
Qed.

Lemma replay_one_handled h r s : synced s -> recs s !! rec_id r = Some r -> rec_status r = EConfirmed -> burn_applied r = false ->
  exists out s', replay_one h r s = (Ok out, s') /\ handled r out s s'.
Proof.
  intros Hs Hr Hc Hb. unfold replay_one. destruct (Z.leb_spec h (appeal_deadline r)).
  - exists [], s. split; [done|]. split; [done|apply evolves_refl|done|by left].
  - unfold mbind, M_bind, get_st. cbv beta iota zeta. destruct (already_slashed (pl_vs s) r).
    + rewrite (stamp_burn_exec _ _ _ r) by done. eexists [], _. split; [reflexivity|].
      apply put_rec_handled with (r0 := r); [done|done|done| |by split|by left].
      apply stamped_ok; [apply (sy_recs s Hs _ _ Hr)|done].
    + destruct (burn_handled r r (rec_type r) (recompute_splits r) s) as (a & s' & E & Hh); try done.
      rewrite E. eexists [a], s'. done.
Qed.

(** *** Every record of a list *)

(** A burn that has been recorded, and one that had not been. *)
Definition burnt s (a : AppliedSlash) : Prop := exists r, recs s !! ap_record a = Some r /\ rec_status r = EConfirmed /\ burn_applied r = true /\
  offender r = ap_offender a /\ final_slash_wei r = ap_burn_wei a.
Definition fresh s (a : AppliedSlash) : Prop := exists r, recs s !! ap_record a = Some r /\ burn_applied r = false.

Lemma burnt_evolves s s' a : evolves s s' -> burnt s a -> burnt s' a.
Proof.
  intros He (r & Hr & Hc & Hb & Ho & Hf). destruct (He _ _ Hr) as (r' & Hr' & [Eo Ef Ec Eb]).
  exists r'. split_and!; try done; auto; congruence.
Qed.

Lemma each_record_handled f (Q T : SlashEvidenceRecord -> Prop) (always : Prop) l s : synced s -> NoDup (map rec_id l) ->
  Forall (fun r => Q r /\ recs s !! rec_id r = Some r) l ->
  (forall r s, synced s -> recs s !! rec_id r = Some r -> Q r -> exists out s', f r s = (Ok out, s') /\ handled r out s s' /\ (out <> [] -> T r) /\ (always -> out <> [])) ->
  exists out s', each_record f l s = (Ok out, s') /\ synced s' /\ evolves s s' /\ Forall (burnt s') out /\
    NoDup (map ap_record out) /\ (forall a, a ∈ out -> exists r, r ∈ l /\ ap_record a = rec_id r /\ T r) /\
    (always -> forall r, r ∈ l -> exists a, a ∈ out /\ ap_record a = rec_id r) /\
    (forall id, id ∉ map rec_id l -> recs s' !! id = recs s !! id).
Proof.
  intros Hs Hn Hl Hf. revert s Hs Hl. induction l as [|r l IH]; intros s Hs Hl.
  - exists [], s. split_and!; [done|done|apply evolves_refl|constructor|constructor| | |done].
    + intros a Ha. by apply elem_of_nil in Ha.
    + intros _ r Hr. by apply elem_of_nil in Hr.
  - apply list.NoDup_cons in Hn as [Hni Hn]. apply Forall_cons_iff in Hl as [[HQ Hr] Hl].
    destruct (Hf r s Hs Hr HQ) as (out1 & s1 & E1 & [S1 V1 O1 A1] & HT & Halw).
    destruct (IH Hn s1 S1) as (out2 & s2 & E2 & S2 & V2 & B2 & N2 & M2 & L2 & O2).
    { apply list_relations.list.Forall_forall. intros r' Hin. destruct (proj1 (list_relations.list.Forall_forall _ _) Hl r' Hin) as [HQ' Hr']. split; [done|]. rewrite O1; [done|]. intros Heq. apply Hni. rewrite <-Heq. by apply list_elem_of_fmap_2. }
    exists (out1 ++ out2), s2. split.
    { cbn [each_record]. unfold mbind, M_bind. rewrite E1, E2. done. }
    assert (Forall (burnt s2) out1 /\ (forall a, a ∈ out1 -> ap_record a = rec_id r) /\ NoDup (map ap_record out1)) as (B1 & M1 & N1).
    { destruct A1 as [->|(a & r' & -> & Ea & Eo & Ew & Hr' & Hc & Hb & Eo' & Ew')].
      - split_and!; [done| |constructor]. intros a Ha. by apply elem_of_nil in Ha.
      - split_and!; [|by intros b ->%list_elem_of_singleton|apply NoDup_singleton]. apply Forall_cons_iff. split; [|done].
        apply (burnt_evolves s1); [done|]. exists r'. rewrite Ea. split_and!; try done; congruence. }
    split_and!; [done|by eapply evolves_trans|by apply Forall_app| | | |].
    + rewrite map_app. apply NoDup_app. split_and!; [done| |done]. intros id (a & -> & Ha)%list_elem_of_fmap (b & Eb & Hb)%list_elem_of_fmap.
      apply M1 in Ha. destruct (M2 b Hb) as (r' & Hr' & Er' & _). apply Hni. rewrite <-Ha, Eb, Er'. by apply list_elem_of_fmap_2.
    + intros a [Ha|Ha]%elem_of_app.
      * exists r. split_and!; [by left|by apply M1|]. apply HT. intros ->. by apply elem_of_nil in Ha.
      * destruct (M2 a Ha) as (r' & ? & ? & ?). exists r'. split_and!; [by right|done..].
    + intros Hall r' [->|Hr']%elem_of_cons.
      * destruct out1 as [|a out1]; [by destruct (Halw Hall)|]. exists a. split; [by left|apply M1; by left].
      * destruct (L2 Hall r' Hr') as (a & Ha & Ea). exists a. split; [apply elem_of_app; by right|done].
    + intros id [Hne Hnin]%not_elem_of_cons. rewrite O2 by done. by apply O1.
Qed.

(** *** A finalisation *)

Definition due (h : Z) r : Prop := burn_applied r = false /\ appeal_deadline r < h /\ (rec_status r = EPending \/ rec_status r = EConfirmed).

Lemma tick_exec h s : synced s -> exists applied s', tick_finalize h s = (Ok applied, s') /\
  synced s' /\ evolves s s' /\ Forall (burnt s') applied /\ NoDup (map ap_record applied) /\
  (forall a, a ∈ applied -> exists r, recs s !! ap_record a = Some r /\ due h r) /\
  (forall id r, recs s !! id = Some r -> rec_status r = EPending -> appeal_deadline r < h -> exists a, a ∈ applied /\ ap_record a = id).
Proof.
  intros Hs. destruct (load_all_exec s Hs) as (l & Hload & Hl).
  destruct (lists_filter (fun r => SLASH_RECORD_FORMAT_VERSION <= format_version r /\ rec_status r = EConfirmed /\ burn_applied r = false) s l Hl) as [Hl1 Hn1].
  set (l1 := filter _ l) in *.
  destruct (each_record_handled (replay_one h) (fun r => rec_status r = EConfirmed /\ burn_applied r = false) (fun r => appeal_deadline r < h) False l1 s)
    as (out1 & s1 & E1 & S1 & V1 & B1 & N1 & M1 & _ & O1); [done|done| | |].
  { apply list_relations.list.Forall_forall. intros r ((_ & Hc & Hb) & Hr)%Hl1. done. }
  { intros r s0 Hs0 Hr [Hc Hb]. destruct (replay_one_handled h r s0 Hs0 Hr Hc Hb) as (out & s' & E & Hh). exists out, s'.
    split_and!; [done|done| |done]. intros Hout. unfold replay_one in E. destruct (Z.leb_spec h (appeal_deadline r)); [|done]. injection E as <- <-. done. }
  destruct (load_all_exec s1 S1) as (k & Hload1 & Hk).
  destruct (lists_filter (fun r => rec_status r = EPending /\ appeal_deadline r < h) s1 k Hk) as [Hl2 Hn2]. set (l2 := filter _ k) in *.
  destruct (each_record_handled (finalize_one h) (fun r => rec_status r = EPending /\ appeal_deadline r < h) (fun _ => True) True l2 s1)
    as (out2 & s2 & E2 & S2 & V2 & B2 & N2 & M2 & L2 & O2); [done|done| | |].
  { apply list_relations.list.Forall_forall. intros r [[Hp Hd] Hr]%Hl2. done. }
  { intros r s0 Hs0 Hr [Hp Hd]. destruct (finalize_one_handled h r s0 Hs0 Hr Hp Hd) as (a & s' & E & Hh). by exists [a], s'. }
  (* the pending records are those of the start *)
  assert (forall r, r ∈ l2 -> recs s !! rec_id r = Some r /\ rec_id r ∉ map rec_id l1) as Hold.
  { intros r [[Hp Hd] Hr]%Hl2. destruct (decide (rec_id r ∈ map rec_id l1)) as [Hin|Hni]; [|by rewrite <-O1].
    exfalso. apply list_elem_of_fmap in Hin as (r0 & Eid & ((_ & Hc & Hb) & Hr0)%Hl1).
    destruct (V1 _ _ Hr0) as (r' & Hr' & He). rewrite <-Eid, Hr in Hr'. injection Hr' as <-. apply ev_confirmed in He; congruence. }
  exists (out1 ++ out2), s2. split_and!.
  - unfold tick_finalize, load_records_with_unapplied_burn, load_records_ready_to_finalize, on_store, mbind, M_bind.
    rewrite Hload. cbv beta iota zeta. cbn [mret M_ret]. fold l1. replace (mkPipeline (pl_registry s) (pl_db s) (pl_vs s)) with s by by destruct s.
    rewrite E1, Hload1. cbn [mret M_ret]. fold l2. replace (mkPipeline (pl_registry s1) (pl_db s1) (pl_vs s1)) with s1 by by destruct s1.
    by rewrite E2.
  - done.
  - by eapply evolves_trans.
  - apply Forall_app. split; [|done]. eapply Forall_impl; [exact B1|]. intros a. by apply burnt_evolves.
  - rewrite map_app. apply NoDup_app. split_and!; [done| |done].
    intros id (a & -> & Ha)%list_elem_of_fmap (b & Eb & Hb)%list_elem_of_fmap. destruct (M1 a Ha) as (r & Hr & Er & _).
    destruct (M2 b Hb) as (r' & Hr' & Er' & _). destruct (Hold r' Hr') as [_ Hni]. apply Hni. rewrite <-Er', <-Eb, Er. by apply list_elem_of_fmap_2.
  - intros a [Ha|Ha]%elem_of_app.
    + destruct (M1 a Ha) as (r & ((_ & Hc & Hb) & Hr)%Hl1 & -> & Hd). exists r. split; [done|]. by split_and!; [| |right].
    + destruct (M2 a Ha) as (r & Hr2 & -> & _). destruct (Hold r Hr2) as [Hr _]. apply Hl2 in Hr2 as [[Hp Hd] _].
      exists r. split; [done|]. split_and!; [|done|by left]. apply (ro_burn _ _ (sy_recs s Hs _ _ Hr)). by rewrite Hp.
  - intros id r Hr Hp Hd. pose proof (ro_id _ _ (sy_recs s Hs _ _ Hr)) as Eid. subst id.
    destruct (L2 I r) as (a & Ha & Ea); [|exists a; split; [apply elem_of_app; by right|done]].
    apply Hl2. split; [done|]. rewrite O1; [done|]. intros (r0 & E0 & ((_ & Hc & Hb) & Hr0)%Hl1)%list_elem_of_fmap.
    rewrite E0, Hr0 in Hr. injection Hr as ->. congruence.
Qed.

(** *** The other operations *)

Definition quiet s s' : Prop := synced s' /\ evolves s s'.

Lemma quiet_same s s' : synced s -> recs s' = recs s -> SlashingRecords (pl_db s') = SlashingRecords (pl_db s) -> quiet s s'.
Proof. intros [Hr Hm] E Ed. split; [split; [by rewrite Ed, E|by rewrite E]|by apply evolves_same]. Qed.
Lemma quiet_put r s s' : synced s -> record_ok (rec_id r) r ->
  (forall r0, recs s !! rec_id r = Some r0 -> evolved r0 r) ->
  recs s' = <[rec_id r := r]> (recs s) -> SlashingRecords (pl_db s') = <[rec_id r := record_bytes r]> (SlashingRecords (pl_db s)) -> quiet s s'.
Proof.
  intros Hs Hok He E Ed. destruct Hs as [Hr Hm]. split.
  - split; [by rewrite Ed, E, fmap_insert, Hr|rewrite E; by apply map_Forall_insert_2].
  - intros id x Hx. rewrite E. destruct (decide (id = rec_id r)) as [->|Hne].
    + rewrite lookup_insert_eq. eauto.
    + rewrite lookup_insert_ne by done. eauto using evolved_refl.
Qed.

Lemma id_length a h t : zlen (compute_id_for_offender a h t) = 32.
Proof. apply sha3_length. Qed.

Lemma ingest_quiet ev sub h e stake out s s' : synced s -> ingest_equivocation ev sub h e stake s = (out, s') -> quiet s s'.
Proof.
  intros Hs E. unfold ingest_equivocation, mbind, M_bind, throw_if in E. destruct (negb (evidence_verify ev)); [injection E as _ <-; by apply quiet_same|].
  cbv beta iota zeta in E. cbn [mret M_ret] in E. unfold put_evidence, on_store, mbind, M_bind, get_st, put_st in E. cbv beta iota zeta in E. cbn [mret M_ret] in E.
  unfold on_registry, submit_evidence, mbind, M_bind, get_st, put_st in E. simpl in E.
  set (id := compute_id_for_offender _ h TDoubleSign) in E.
  destruct (records (pl_registry s) !! id) as [r0|] eqn:Er.
  - pose proof (sy_recs s Hs _ _ Er) as Hok. destruct (bool_decide (rec_status r0 = EPending)) eqn:Ep; simpl in E.
    2: { unfold get_record in E. simpl in E. rewrite Er in E. simpl in E. injection E as _ <-. by apply quiet_same. }
    destruct (_ || _); simpl in E.
    { unfold get_record in E. simpl in E. rewrite Er in E. simpl in E. injection E as _ <-. by apply quiet_same. }
    unfold get_record in E. simpl in E. rewrite lookup_insert_eq in E. simpl in E. injection E as _ <-. destruct Hok as [Eid Hlen Hb].
    apply (quiet_put (set_reporters (reporters r0 ++ [sub]) r0)); cbn; rewrite ?Eid; [done|by split| |done|done].
    unfold recs. rewrite Er. intros r1 [= <-]. by split.
  - unfold get_record in E. simpl in E. rewrite lookup_insert_eq in E. simpl in E. injection E as _ <-.
    eapply (quiet_put (mkRecord id _ _ _ _ _ _ _ _ _ _ _ _ _)); [done| | |reflexivity|reflexivity].
    + split; [done|apply id_length|done].
    + cbn [rec_id]. unfold recs. by rewrite Er.
Qed.

Lemma appeal_quiet id sender v h out s s' : synced s -> dispatch_file_appeal_tx id sender v h s = (out, s') -> quiet s s'.
Proof.
  intros Hs E. unfold dispatch_file_appeal_tx, mbind, M_bind, throw_if in E. destruct (negb (v =? APPEAL_BOND_WEI)); [injection E as _ <-; by apply quiet_same|].
  cbn [mret M_ret] in E. unfold on_registry, file_appeal_for_tx, file_appeal, mbind, M_bind, get_st, throw_if in E. cbv beta iota zeta in E.
  fold (recs s) in E. destruct (recs s !! id) as [r0|] eqn:Er; cbn in E; [|injection E as _ <-; by apply quiet_same].
  pose proof (sy_recs s Hs _ _ Er) as [Eid Hlen Hb].
  destruct (bool_decide (offender r0 = sender)); cbn in E; [|injection E as _ <-; by apply quiet_same].
  unfold recs in Er. rewrite Er in E. cbn in E.
  destruct (bool_decide (rec_status r0 = EPending)) eqn:Ep; cbn in E; [|injection E as _ <-; by apply quiet_same].
  destruct (appeal_deadline r0 <? h); cbn in E; [injection E as _ <-; by apply quiet_same|].
  rewrite (alter_put _ _ r0) in E by done. cbn in E. rewrite lookup_alter_eq, Er in E. cbn in E. injection E as _ <-.
  apply bool_decide_eq_true in Ep.
  apply (quiet_put (set_rec_status EAppealed r0)); cbn; rewrite ?Eid; [done| | |done|done].
  - split; [done|done|]. intros _. apply Hb. by rewrite Ep.
  - unfold recs. rewrite Er. intros r1 [= <-]. split; cbn; try done. congruence.
Qed.

Lemma bonds_dropped id (l : list (Address * BondEntry)) db : exists db',
  foldr (fun '(reporter, _) (k : M ZbxDb StakingError unit) => _ ← delete_bond id reporter; k) (mret tt) l db = (Ok tt, db') /\
  SlashingRecords db' = SlashingRecords db.
Proof.
  revert db. induction l as [|[a b] l IH]; intros db; [by exists db|]. cbn [foldr]. unfold mbind, M_bind, delete_bond at 1, modify. cbv beta iota zeta.
  destruct (IH (set_slash_columns (SlashingEvidence db) (SlashingRecords db) (delete (slashing_bond_key id a) (SlashingBonds db)) db)) as (db' & E & Hd).
  exists db'. done.
Qed.
Lemma list_bonds_pure id db : exists bonds, list_bonds_for_record id db = (bonds, db).
Proof. unfold list_bonds_for_record, mbind, M_bind, get_st, lift_opt, lift. eauto. Qed.

Lemma overturn_quiet id out s s' : synced s -> overturn_and_refund id s = (out, s') -> quiet s s'.
Proof.
  intros Hs E. unfold overturn_and_refund, mbind, M_bind, throw_if, get_st, lift_opt, lift, get_record in E. cbv beta iota zeta in E.
  destruct (records (pl_registry s) !! id) as [r0|] eqn:Er; cbn [ok_or] in E; [|injection E as _ <-; by apply quiet_same].
  pose proof (sy_recs s Hs _ _ Er) as [Eid Hlen Hb].
  destruct (bool_decide (rec_status r0 = EAppealed)) eqn:Ea; cbn [negb] in E; [|injection E as _ <-; by apply quiet_same].
  cbn [mret M_ret] in E. apply bool_decide_eq_true in Ea. unfold on_store in E. destruct (list_bonds_pure id (pl_db s)) as [bonds Eb].
  rewrite Eb in E. destruct bonds as [l|e|]; [|injection E as _ <-; by apply quiet_same..]. cbv beta iota in E.
  unfold on_validators, modify, on_registry, overturn_slash, mbind, M_bind, get_st, lift_opt, throw_if in E. cbv beta iota zeta in E.
  cbn [pl_registry pl_db pl_vs] in E. rewrite Er in E. cbn [ok_or] in E. unfold lift in E. rewrite (bool_decide_true (rec_status r0 = EAppealed)) in E by done.
  cbn [negb mret M_ret modify] in E. unfold modify in E. rewrite (alter_put _ _ r0) in E by done. cbv beta iota zeta in E.
  cbn [pl_registry pl_db pl_vs records set_records] in E. rewrite lookup_insert_eq in E. cbn [ok_or] in E.
  unfold put_record, modify in E. cbv beta iota zeta in E. cbn [pl_registry pl_db pl_vs] in E.
  match type of E with context [foldr _ _ l ?db] => destruct (bonds_dropped id l db) as (db' & Ed & Hdb) end.
  unfold mbind, M_bind in Ed. rewrite Ed in E. injection E as _ <-.
  apply (quiet_put (set_rec_status EOverturned r0)); cbn; rewrite ?Eid; [done| | |done|].
  - split; [done|done|]. intros _. apply Hb. congruence.
  - unfold recs. rewrite Er. intros r1 [= <-]. split; cbn; try done. congruence.
  - rewrite Hdb. cbn. by rewrite Eid.
Qed.

Lemma rehydrated_lookup l (g : SlashingRegistryV2) id : NoDup (map rec_id l) ->
  (forall r, r ∈ l -> rec_id r = id -> records (foldl (fun g r => insert_rehydrated_record r g) g l) !! id = Some r) /\
  (id ∉ map rec_id l -> records (foldl (fun g r => insert_rehydrated_record r g) g l) !! id = records g !! id).
Proof.
  revert g. induction l as [|r l IH]; intros g Hn; [split; [intros r Hr; by apply elem_of_nil in Hr|done]|].
  apply list.NoDup_cons in Hn as [Hni Hn]. destruct (IH (insert_rehydrated_record r g) Hn) as [IH1 IH2]. cbn [foldl]. split.
  - intros r' [->|Hr']%elem_of_cons Hid; [|by apply IH1]. rewrite IH2 by (by rewrite <-Hid). cbn. rewrite Hid. apply lookup_insert_eq.
  - intros [Hne Hnin]%not_elem_of_cons. rewrite IH2 by done. cbn. by rewrite lookup_insert_ne by done.
Qed.

(** A restart: the registry is read back, the validators are what they are. *)
Lemma rehydrate_exec total vs s : synced s -> exists n s', rehydrate_from_disk (mkPipeline (registry_new total) (pl_db s) vs) = (Ok n, s') /\
  recs s' = recs s /\ pl_db s' = pl_db s.
Proof.
  intros Hs. destruct (load_all_exec s Hs) as (l & Hload & Hl & Hn).
  unfold rehydrate_from_disk, on_store, on_registry, modify, mbind, M_bind. cbn [pl_registry pl_db pl_vs]. rewrite Hload. cbv beta iota zeta.
  eexists _, _. split; [reflexivity|]. split; [|done]. unfold recs at 1. cbn [pl_registry]. apply map_eq. intros id.
  destruct (rehydrated_lookup l (registry_new total) id Hn) as [H1 H2]. destruct (recs s !! id) as [r|] eqn:Er.
  - pose proof (ro_id _ _ (sy_recs s Hs _ _ Er)) as Eid. apply H1; [|done]. apply Hl. by rewrite Eid.
  - rewrite H2; [done|]. intros (r & -> & Hr%Hl)%list_elem_of_fmap. congruence.
Qed.

(** ** Runs *)

(** A crash after the confirmed record reached the disk and before its burn:
    the registry is lost and the validators are those of the disk. *)
Inductive pipeline_step : PipelineState -> list AppliedSlash -> PipelineState -> Prop :=
| step_ingest ev submitter h e stake out s s' : ingest_equivocation ev submitter h e stake s = (out, s') -> pipeline_step s [] s'
| step_tick h applied s s' : tick_finalize h s = (Ok applied, s') -> pipeline_step s applied s'
| step_appeal id sender v h out s s' : dispatch_file_appeal_tx id sender v h s = (out, s') -> pipeline_step s [] s'
| step_overturn id out s s' : overturn_and_refund id s = (out, s') -> pipeline_step s [] s'
| step_restart total vs out s s' : rehydrate_from_disk (mkPipeline (registry_new total) (pl_db s) vs) = (out, s') -> pipeline_step s [] s'
| step_torn id h f g r total vs out db s s' : finalize_slash id h (pl_registry s) = (Ok (Some f), g) -> get_record id g = Some r ->
    put_record r (pl_db s) = (Ok tt, db) -> rehydrate_from_disk (mkPipeline (registry_new total) db vs) = (out, s') -> pipeline_step s [] s'
| step_other s s' : pl_registry s' = pl_registry s -> SlashingRecords (pl_db s') = SlashingRecords (pl_db s) -> pipeline_step s [] s'.

Inductive pipeline_run : PipelineState -> list AppliedSlash -> PipelineState -> Prop :=
| run_start total db vs : SlashingRecords db = ∅ -> pipeline_run (mkPipeline (registry_new total) db vs) [] (mkPipeline (registry_new total) db vs)
| run_step s0 s1 s2 log applied : pipeline_run s0 log s1 -> pipeline_step s1 applied s2 -> pipeline_run s0 (log ++ applied) s2.

Lemma restart_quiet total vs out s s' : synced s -> rehydrate_from_disk (mkPipeline (registry_new total) (pl_db s) vs) = (out, s') -> quiet s s'.
Proof.
  intros Hs E. destruct (rehydrate_exec total vs s Hs) as (n & s1 & E1 & Hr & Hd). rewrite E1 in E. injection E as _ <-.
  apply quiet_same; [done|done|by rewrite Hd].
Qed.

Lemma torn_quiet id h f g r s : synced s -> finalize_slash id h (pl_registry s) = (Ok (Some f), g) -> get_record id g = Some r ->
  r = confirmed (default r (recs s !! id)) /\ quiet s (put_rec r s) /\ rec_id r = id.
Proof.
  intros Hs Ef Hg. unfold finalize_slash, mbind, M_bind, get_st, lift_opt, lift in Ef. cbv beta iota zeta in Ef.
  unfold recs. destruct (records (pl_registry s) !! id) as [r0|] eqn:Er; cbn [ok_or] in Ef; [|done]. pose proof (sy_recs s Hs _ _ Er) as [Eid Hlen Hb].
  destruct (bool_decide (rec_status r0 = EPending)) eqn:Ep; cbn [negb] in Ef; [|done]. apply bool_decide_eq_true in Ep.
  destruct (h <=? appeal_deadline r0); [done|]. unfold modify in Ef. rewrite (alter_put _ _ r0) in Ef by done. injection Ef as _ <-.
  unfold get_record in Hg. cbn [records set_records] in Hg. rewrite lookup_insert_eq in Hg. injection Hg as <-. split; [done|]. split; [|done].
  apply (quiet_put (confirmed r0)); [done| | |done|done].
  - cbn. rewrite Eid. by split.
  - cbn. rewrite Eid. unfold recs. rewrite Er. intros r1 [= <-]. split; cbn; [done|done|done|]. intros Hbb. rewrite Hb in Hbb by congruence. done.
Qed.

Lemma pipeline_step_ok s applied s' : synced s -> pipeline_step s applied s' ->
  quiet s s' /\ NoDup (map ap_record applied) /\ Forall (burnt s') applied /\ Forall (fresh s) applied.
Proof.
  intros Hs Hst. destruct Hst as [ev sub h e stake out s s' E|h applied s s' E|id sender v h out s s' E|id out s s' E|total vs out s s' E|
    id h f g r total vs out db s s' Ef Hg Hp E|s s' Er Ed].
  - split; [by eapply ingest_quiet|by split_and!; constructor].
  - destruct (tick_exec h s Hs) as (out & s1 & E1 & S1 & V1 & B1 & N1 & F1 & _). rewrite E1 in E. injection E as <- <-.
    split_and!; [by split|done|done|]. apply list_relations.list.Forall_forall. intros a Ha. destruct (F1 a Ha) as (r & Hr & Hb & _). by exists r.
  - split; [by eapply appeal_quiet|by split_and!; constructor].
  - split; [by eapply overturn_quiet|by split_and!; constructor].
  - split; [by eapply restart_quiet|by split_and!; constructor].
  - split; [|by split_and!; constructor]. destruct (torn_quiet id h f g r s Hs Ef Hg) as (_ & [S1 V1] & Hid).
    assert (db = pl_db (put_rec r s)) as -> by (by injection Hp as <-). destruct (restart_quiet total vs out _ s' S1 E) as [S2 V2].
    split; [done|by eapply evolves_trans].
  - split; [apply quiet_same; [done|unfold recs; by rewrite Er|done]|by split_and!; constructor].
Qed.

Lemma pipeline_run_ok s0 log s : pipeline_run s0 log s -> synced s /\ NoDup (map ap_record log) /\ Forall (burnt s) log.
Proof.
  induction 1 as [total db vs Hdb|s0 s1 s2 log applied _ (S1 & N1 & B1) Hst].
  - split_and!; [|constructor|constructor]. split; [unfold recs; cbn; by rewrite Hdb, fmap_empty|apply map_Forall_empty].
  - destruct (pipeline_step_ok s1 applied s2 S1 Hst) as ([S2 V2] & N2 & B2 & F2). split_and!; [done| |].
    + rewrite map_app. apply NoDup_app. split_and!; [done| |done].
      intros id (a & -> & Ha)%list_elem_of_fmap (b & Eb & Hb)%list_elem_of_fmap.
      destruct (proj1 (list_relations.list.Forall_forall _ _) B1 a Ha) as (r & Hr & _ & Hbr & _).
      destruct (proj1 (list_relations.list.Forall_forall _ _) F2 b Hb) as (r' & Hr' & Hbr'). congruence.
    + apply Forall_app. split; [|done]. eapply Forall_impl; [exact B1|]. intros a. by apply burnt_evolves.
Qed.

End agreement.

(** ** What a burn costs *)

Lemma credit_owed vs (sp : Address * Z) : vs_ok vs -> 0 <= snd sp -> vs_ok (credit_reporter vs sp) /\ owed_vs (credit_reporter vs sp) <= owed_vs vs + snd sp.
Proof. intros Hv Hx. destruct (bonus_ok (snd sp) vs (fst sp) Hv Hx) as (? & ? & _). split; [done|]. unfold credit_reporter. lia. Qed.

Lemma credits_owed l vs : vs_ok vs -> Forall (fun sp : Address * Z => 0 <= snd sp) l ->
  vs_ok (foldl credit_reporter vs l) /\ owed_vs (foldl credit_reporter vs l) <= owed_vs vs + split_total l.
Proof.
  intros Hv Hl. revert vs Hv. induction Hl as [|sp l Hx _ IH]; intros vs Hv; [split; [done|cbn; lia]|].
  destruct (credit_owed vs sp Hv Hx) as [H1 O1]. destruct (IH _ H1) as [H2 O2]. cbn [foldl split_total foldr] in *. split; [done|].
  unfold split_total in *. cbn [foldr]. lia.
Qed.

Definition self_stake_of (a : Address) (vs : ValidatorSet) : Z := match validators vs !! a with Some v => self_stake v | None => 0 end.

(** The self stake falls by what there is of the amount, the reporters gain at
    most their parts. *)
Lemma slash_owed vs a w l ft : vs_ok vs -> 0 <= w -> Forall (fun sp : Address * Z => 0 <= snd sp) l ->
  let vs' := snd (apply_slash_burn_v2 vs a w l ft) in
  vs_ok vs' /\ owed_vs vs' <= owed_vs vs - Z.min w (self_stake_of a vs) + split_total l.
Proof.
  intros Hv Hw Hl. unfold apply_slash_burn_v2. set (p := match validators vs !! a with Some _ => _ | None => _ end).
  assert (vs_ok (snd p) /\ owed_vs (snd p) <= owed_vs vs - Z.min w (self_stake_of a vs)) as [Hv1 O1].
  { unfold p, self_stake_of. destruct (validators vs !! a) as [v|] eqn:Ha; [|split; [done|cbn; lia]].
    destruct (validators_ok vs Hv _ _ Ha) as [_ [Hself ? ? ? ? ?]]. destruct (burn_status (status v) ft) as [[st j] t]. cbn [snd]. split.
    - apply alter_ok; [done|]. intros x []. split; [done|]. split; try done. cbn. by apply sat_range.
    - rewrite (owed_alter _ _ v) by done. unfold owed_to. cbn. unfold in_range, sat in *. lia. }
  destruct p as [fl vs1]. cbn [snd] in *. destruct (credits_owed l vs1 Hv1 Hl) as [Hv2 O2]. split.
  - destruct Hv2. split; [done|]. cbn. by apply NoDup_filter.
  - change (owed_vs (foldl credit_reporter vs1 l) <= owed_vs vs - Z.min w (self_stake_of a vs) + split_total l). lia.
Qed.
