(* ===== verification/StakingChain.v ===== *)
(** * Staking in the block executor
      (crates/zbx-execution/src/executor.rs from [execute_with_staking] on,
       node/src/block_producer.rs [apply_interval_rewards])

    Transactions to the staking address on the block's account view, the block
    loop with staking, and the rewards minted into the escrow every hundred
    blocks.  [pipe] is the state of the slashing pipeline and [file_appeal] its
    handler of appeals, absent when the caller supplies no pipeline.

    The proofs follow: the escrow covers what it owes, block by block and in
    every state of the chain. *)

From Stdlib Require Import ZArith Lia.
From stdpp Require Import base tactics list gmap countable numbers option fin_maps fin_map_dom.
From S2P Require Import Prelude Bytes Collections Crypto Block EvmMachine EvmHost NativeReads EvmPrecompiles EvmInterp Rlp TrieNode Trie Receipt Account StateMpt MptRoot TrieRepr Transaction StateView Executor BlockExec StakingDb Staking Governance StakingTx StakingCorrect Slashing SlashingCorrect.

Set Warnings "-register-all".
Local Open Scope Z_scope.

(** [impl BalanceAccess for StateView] *)
#[export] Instance view_balances : BalanceAccess StateView := {
  get_balance a v := balance_u128 (get_account a v);
  set_balance a wei v := set_account a (set_balance_u128 wei (get_account a v)) v }.

#[export] Program Instance view_ledger : BalanceLaws StateView := {
  ledger_ok v := view_ok v /\ total v < 2 ^ 128;
  supply := total }.
Next Obligation. by intros v [_ Ht]. Qed.
Next Obligation. intros a v [Hv Ht]. simpl. rewrite exact_balance by done. by apply bal_le_total. Qed.
Next Obligation.
  intros a x v [Hv Ht] Hx Hs. simpl in *. rewrite exact_balance in * by done.
  destruct (wrote_moved a (set_balance_u128 x (get_account a v)) v (x - bal a v) 0) as [Hv' Hb _ Ht'];
    [done| |apply Hv|simpl; lia|simpl; unfold nonce_of; lia|lia|].
  { split; [apply Hv|done]. }
  rewrite Ht'. split; [split; [done|lia]|]. split; [lia|]. intros a'.
  rewrite exact_balance by (rewrite ?Ht'; done || lia). rewrite Hb. case_decide; [subst; lia|].
  rewrite exact_balance by done. lia.
Qed.

Record SlashableState (P : Type) : Type := mkSlashable { staking : StakingState StateView; pipe : P }.
Arguments mkSlashable {P} _ _.
Arguments staking {P} _.
Arguments pipe {P} _.

Section exec.
Context `{PR : Primitives} `{CR : Crypto} `{BlsPoints} `{Bincode} `{DeltaOrder} `{RlpView} {P : Type}.
Context (fuel : nat) (run_zvm : SignedTransaction -> BlockHeader -> Target -> Z -> V (ExitStatus * Z * list Log)).
Context (file_appeal : option (Hash -> Address -> Z -> Z -> M P StakingError Z)).

Abbreviation X := (M (SlashableState P) ExecStop).

Definition view_of (s : SlashableState P) : StateView := st_balances (staking s).
Definition with_view (v : StateView) (s : SlashableState P) : SlashableState P :=
  mkSlashable (mkStakingState (st_vs (staking s)) (st_db (staking s)) (st_delta (staking s)) v) (pipe s).

Definition on_view {A} (m : V A) : X A := fun s => let '(r, v) := m (view_of s) in (r, with_view v s).

(** [match dispatch { Ok(g) => (true, g), Err(e) => (false, 0) }]: what a failed
    dispatch has written stays. *)
Definition attempt (r : res StakingError Z) : res ExecStop (bool * Z) :=
  match r with Ok g => Ok (true, g) | Err _ => Ok (false, 0) | Panic => Panic end.

Definition dispatch_call (t : SignedTransaction) (h : BlockHeader) : X (bool * Z) := fun s =>
  match decode_staking_call (tx_data (tx t)) with
  | Err _ => (Ok (false, 0), s)
  | Panic => (Panic, s)
  | Ok (FileAppeal evidence_id) =>
    match file_appeal with
    | Some f =>
      let '(r, p) := f evidence_id (tx_from t) (value_u128 (tx t)) (Block.number h) (pipe s) in
      (attempt r, mkSlashable (staking s) p)
    | None => (Ok (false, 0), s)
    end
  | Ok call =>
    let '(r, st) := dispatch_staking_tx call (tx_from t) (value_u128 (tx t)) (Block.number h) (staking s) in
    (attempt r, mkSlashable st (pipe s))
  end.

(** The fee is settled before the value. *)
Definition settle_staking (t : SignedTransaction) (success : bool) (v : StateView) : StateView :=
  let value := value_u128 (tx t) in
  if success then if 0 <? value then add_balance STAKING_PRECOMPILE_ADDR value v else v
  else add_balance (tx_from t) value v.

Definition execute_staking_tx (t : SignedTransaction) (h : BlockHeader) : X TxResult :=
  let effective_price := Transaction.effective_gas_price t (Block.base_fee_per_gas h) in
  _ ← on_view (buy_gas t);
  '(success, dispatch_gas) ← dispatch_call t h;
  let gas_used := Z.min (sat 64 (intrinsic_gas (tx t) + dispatch_gas)) (gas_limit (tx t)) in
  let fee_owed := gas_used * effective_price in
  let gas_refund := sat 128 (max_cost (tx t) - fee_owed) in
  _ ← on_view (modify (add_balance (tx_from t) gas_refund));
  _ ← on_view (modify (settle_staking t success));
  mret (mkTxResult gas_used effective_price success [] None).

(** *** The block loop with staking *)

Definition execute_routed (t : SignedTransaction) (h : BlockHeader) : X TxResult :=
  if is_staking_destination (tx_to (tx t)) then execute_staking_tx t h
  else on_view (execute_tx fuel run_zvm t h).

Fixpoint execute_txs_staking (block_hash : H256) (h : BlockHeader) (idx : nat) (txs : list SignedTransaction) (cumulative : Z)
    (acc : list TransactionReceipt) : X (Z * list TransactionReceipt) :=
  match txs with
  | [] => mret (cumulative, acc)
  | t :: txs =>
    r ← execute_routed t h;
    let cumulative := u64 (cumulative + r_gas_used r) in
    _ ← on_view (modify (add_balance (Block.coinbase h) (tip_of h r)));
    execute_txs_staking block_hash h (S idx) txs cumulative (acc ++ [make_receipt block_hash h idx t r cumulative])
  end.

(** [execute_inner] with a staking context; the write-set starts empty. *)
Definition execute_with_staking (signing_hash : Transaction -> H256) (L : Listing) {DB} `{TrieDB DB} (block : TxBlock) (d : DB)
    (view : StateView) (vs : ValidatorSet) (db : ZbxDb) (p : P) : res ExecStop ExecutionResult * SlashableState P :=
  (let h := Block.header block in
   _ ← throw_if (Block.BLOCK_GAS_LIMIT <? Block.gas_limit h)
         (Fail (Validation (GasLimitAboveMax (Block.gas_limit h) Block.BLOCK_GAS_LIMIT)));
   let block_hash := keccak256 (canonical_encode h) in
   '(gas, receipts) ← execute_txs_staking block_hash h 0 (Block.body block) 0 [];
   let reward := block_reward_at (Block.number h) in
   _ ← (if 0 <? reward then on_view (modify (add_balance (Block.coinbase h) reward)) else mret tt);
   s ← get_st;
   new_state_root ← lift (map_err (fun e => Fail (State (OfTrie e)))
     (state_root_with_db NativeReads.keccak256 L (view_of s) d));
   transactions_root ← lift (compute_tx_root signing_hash (Block.body block));
   mret (mkResult receipts (into_diff (view_of s)) gas new_state_root transactions_root
     (compute_receipts_root NativeReads.keccak256 receipts) (aggregate_block_bloom receipts)))
  (mkSlashable (mkStakingState vs db delta_new view) p).

(** ** Interval rewards (block_producer.rs)

    A block of the window with its base fee and, per transaction, the gas used
    of its receipt when there is one. *)
Definition block_tips (base_fee : Z) (txs : list (SignedTransaction * option Z)) (acc : Z) : Z :=
  foldl (fun acc '(t, used) =>
    let tip_per_gas := sat 64 (Transaction.effective_gas_price t base_fee - base_fee) in
    if tip_per_gas =? 0 then acc
    else sat 128 (acc + sat 128 (tip_per_gas * default (gas_limit (tx t)) used))) acc txs.
Definition accumulated_fees (window : list (Z * list (SignedTransaction * option Z))) : Z :=
  foldl (fun acc '(base_fee, txs) => block_tips base_fee txs acc) 0 window.

(** The accounts on disk are the view the block left. *)
Definition apply_interval_rewards (height : Z) (coinbase : Address) (window : list (Z * list (SignedTransaction * option Z)))
    (s : SlashableState P) : SlashableState P :=
  let fees := accumulated_fees window in
  let mint := interval_escrow_mint height fees in
  let v := if 0 <? mint then add_balance STAKING_PRECOMPILE_ADDR mint (view_of s) else view_of s in
  let st := staking s in
  mkSlashable (mkStakingState (distribute_block_reward height coinbase fees (st_vs st)) (st_db st) (st_delta st) v) (pipe s).
End exec.

(** * The staking escrow is solvent
      (crates/zbx-execution/src/executor.rs, crates/zbx-staking/src, node/src/block_producer.rs)

    Every way the node changes balances or staking state keeps the escrow's
    balance above what it owes, so no withdrawal or claim fails for lack of
    funds. *)

Section solvent.
Context `{PR : Primitives} `{CR : Crypto} `{BlsPoints} `{Bincode} `{DeltaOrderLaws} `{RlpViewLaws} {P : Type}.
Context (fuel : nat) (run_zvm : SignedTransaction -> BlockHeader -> Target -> Z -> V (ExitStatus * Z * list Log)).
Context (file_appeal : option (Hash -> Address -> Z -> Z -> M P StakingError Z)).
Implicit Types (st : StakingState StateView) (s : SlashableState P).

(** What the escrow holds above what it owes. *)
Definition cover st : Z := escrow st - owed st.
Definition put_view (v : StateView) st : StakingState StateView := mkStakingState (st_vs st) (st_db st) (st_delta st) v.

(** A balance moved: the books are kept, and the cover changes with the escrow. *)
Lemma moved_books a d n v' st : staked_ok st -> moved a d n (st_balances st) v' -> total (st_balances st) + d < 2 ^ 128 ->
  staked_ok (put_view v' st) /\ total v' = total (st_balances st) + d /\
  cover (put_view v' st) = cover st + (if decide (STAKING_PRECOMPILE_ADDR = a) then d else 0).
Proof.
  intros [? ? ? [Hv Ht]] [Ov Ob _ Ot] Hd. split; [|split; [done|]].
  - split; simpl; try done. split; [done|lia].
  - unfold cover, escrow, owed. simpl. rewrite !exact_balance by (done || lia). rewrite Ob. case_decide; lia.
Qed.

Lemma credit_books a x st : staked_ok st -> 0 <= x -> total (st_balances st) + x < 2 ^ 128 ->
  let st' := put_view (add_balance a x (st_balances st)) st in
  staked_ok st' /\ total (st_balances st') = total (st_balances st) + x /\
  cover st' = cover st + (if decide (STAKING_PRECOMPILE_ADDR = a) then x else 0).
Proof.
  intros Hs Hx Ht. cbv zeta. destruct (so_ledger st Hs) as [Hv _].
  destruct (moved_books a x 0 _ st Hs (add_balance_moved a x (st_balances st) Hv Hx Ht) ltac:(lia)) as (? & ? & ?). done.
Qed.

Lemma decoded_ok data call : Forall byte data -> decode data = Some call -> call_ok call.
Proof.
  intros Hb Hd. unfold decode in Hd.
  assert (forall i x, rlp_nth data i ≫= address_at = Some x -> addr20 x) as Haddr.
  { intros i x (y & Hy & E)%bind_Some. unfold address_at, fixed_bytes in E. apply bind_Some in E as (b & Hbb & E).
    destruct (Z.eqb_spec (zlen b) 20) as [L|]; [|done]. injection E as <-. split; [unfold zlen in L; lia|].
    eapply data_bytes; [|exact Hbb]. by eapply nth_bytes. }
  assert (forall i x, rlp_nth data i ≫= u128_from_be = Some x -> in_range 128 x) as Hamt.
  { intros i x (y & Hy & E)%bind_Some. unfold u128_from_be in E. apply bind_Some in E as (b & Hbb & E).
    destruct (Z.ltb_spec 16 (zlen b)) as [|L]; [done|]. injection E as <-.
    assert (Forall byte b) as Hbytes by (eapply data_bytes; [|exact Hbb]; by eapply nth_bytes).
    pose proof (be_val_bound b Hbytes) as Hv. pose proof (zlen_nonneg b). unfold in_range. split; [lia|].
    eapply Z.lt_le_trans; [apply Hv|]. change (2 ^ 128) with (256 ^ 16). apply Z.pow_le_mono_r; lia. }
  repeat match type of Hd with
  | _ ≫= _ = Some _ => apply bind_Some in Hd as (? & ? & Hd)
  | (if ?b then _ else _) = Some _ => destruct b; [try discriminate Hd|try discriminate Hd]
  | _ <$> _ = Some _ => apply fmap_Some in Hd as (? & ? & ->)
  end; try (by injection Hd as <-); try done.
  all: injection Hd as <-; simpl; split; eauto.
  match goal with H : rlp_nth _ 5 ≫= rlp_uint 16 = Some _ |- _ => apply bind_Some in H as (? & _ & ?) end. by eapply uint_range.
Qed.

(** ** Transactions *)

Lemma dispatch_call_done t h s ok gas s' : staked_ok (staking s) -> Forall byte (tx_data (tx t)) -> addr20 (tx_from t) ->
  dispatch_call file_appeal t h s = (Ok (ok, gas), s') -> settles (if ok then value_u128 (tx t) else 0) (staking s) (staking s').
Proof.
  intros Hs Hb Hf E. pose proof (value_u128_range (tx t)) as Hval. unfold in_range in Hval. unfold dispatch_call, decode_staking_call in E.
  destruct (decode (tx_data (tx t))) as [call|] eqn:Hd; simpl in E; [|injection E as <- <- <-; by apply settles_refl].
  assert (outcome (value_u128 (tx t)) (staking s)
    (dispatch_staking_tx call (tx_from t) (value_u128 (tx t)) (Block.number h) (staking s))) as Ho.
  { apply dispatch_settles; [done|by eapply decoded_ok|done|lia]. }
  assert (forall p, attempt (fst p) = Ok (ok, gas) -> outcome (value_u128 (tx t)) (staking s) p ->
    settles (if ok then value_u128 (tx t) else 0) (staking s) (snd p)) as Hattempt.
  { intros [[g|e|] st] Ea Hp; simpl in *; [injection Ea as <- _; exact Hp|injection Ea as <- _; apply Hp|done]. }
  destruct call; try (destruct (dispatch_staking_tx _ _ _ _ _) as [r st] eqn:Er; injection E as Ea <-; apply (Hattempt (r, st)); [exact Ea|exact Ho]).
  destruct file_appeal as [f|]; [|injection E as <- <- <-; by apply settles_refl].
  destruct (f _ _ _ _ _) as [r p]. injection E as Ea <-. simpl. destruct ok; [|by apply settles_refl].
  apply (settles_mono 0); [by apply settles_refl|lia].
Qed.

Lemma on_view_inv {A} (m : V A) s a s' : on_view m s = (Ok a, s') -> exists v', m (view_of s) = (Ok a, v') /\ s' = with_view v' s.
Proof. unfold on_view. destruct (m (view_of s)) as [r v']. intros [= -> <-]. eauto. Qed.

Lemma staking_tx_books t h s r s' : staked_ok (staking s) -> total (view_of s) < 2 ^ 128 - 1 -> tx_typed t -> addr20 (tx_from t) ->
  tx_from t <> STAKING_PRECOMPILE_ADDR -> in_range 64 (base_fee_per_gas h) ->
  execute_staking_tx file_appeal t h s = (Ok r, s') ->
  staked_ok (staking s') /\ total (view_of s') = total (view_of s) - fee t h r /\ cover (staking s) <= cover (staking s') /\
  0 <= r_gas_used r <= gas_limit (tx t) /\ r_effective_price r = price t h.
Proof.
  intros Hs Htot Ht Hf Hne Hbf E. pose proof (typed_fields t Ht) as Hok. pose proof (value_u128_range (tx t)) as Hval.
  pose proof (max_cost_range _ Hok) as Hmc. pose proof (price_range t h Hok Hbf) as Hp. destruct (so_ledger _ Hs) as [Hv _].
  unfold execute_staking_tx in E. fold (price t h) in E.
  apply bind_inv in E as (u & s1 & (v1 & Hbuy & ->)%on_view_inv & E).
  destruct (buy_gas_moved t (view_of s) u v1 Hv Ht Htot Hbuy) as (Hm1 & _ & Hcost & _). pose proof (cost_range t Hok) as Hcr.
  destruct (moved_books _ _ _ v1 (staking s) Hs Hm1) as (Hs1 & T1 & C1). { unfold view_of in Htot. lia. }
  rewrite decide_False in C1 by done. change (put_view v1 (staking s)) with (staking (with_view v1 s)) in Hs1, C1.
  apply bind_inv in E as ([ok gas] & s2 & Hd & E).
  apply dispatch_call_done in Hd as [Hs2 T2 C2]; [|done|apply Hok|done].
  simpl in T2. change (st_balances (staking s2)) with (view_of s2) in T2. simpl in T2. rewrite T1 in T2.
  set (used := Z.min (sat 64 (intrinsic_gas (tx t) + gas)) (gas_limit (tx t))) in *.
  assert (0 <= used <= gas_limit (tx t)) as Hused.
  { pose proof (tx_gas_ok _ Hok). pose proof (sat_range 64 (intrinsic_gas (tx t) + gas) ltac:(lia)). unfold used, in_range in *. lia. }
  assert (0 <= used * price t h) as Hfee by (unfold in_range in Hp; nia).
  set (f := Z.min (max_cost (tx t)) (used * price t h)).
  assert (sat 128 (max_cost (tx t) - used * price t h) = max_cost (tx t) - f) as Hrefund by (unfold sat, f; lia).
  unfold cost, in_range in *. apply bind_inv in E as (x & s3 & (v3 & Hm & ->)%on_view_inv & E). rewrite Hrefund in Hm. injection Hm as _ <-.
  destruct (credit_books (tx_from t) (max_cost (tx t) - f) (staking s2) Hs2) as (Hs3 & T3 & C3);
    [lia|unfold view_of in *; lia|]. rewrite decide_False in C3 by done.
  set (st3 := put_view _ (staking s2)) in *. change (staking (with_view _ s2)) with st3 in E.
  apply bind_inv in E as (x' & s4 & (v4 & Hm & ->)%on_view_inv & E). injection Hm as _ <-. injection E as <- <-.
  unfold fee. cbn [r_gas_used r_effective_price]. fold f.
  set (st4 := put_view (settle_staking t ok (st_balances st3)) st3).
  enough (staked_ok st4 /\ total (st_balances st4) = total (st_balances st3) + value_u128 (tx t) /\
    cover st3 + (if ok then value_u128 (tx t) else 0) <= cover st4) as (Hs4 & T4 & C4).
  { split; [exact Hs4|]. split; [change (total (st_balances st4) = total (view_of s) - f); unfold view_of in *; lia|].
    split; [change (cover (staking s) <= cover st4); unfold cover in *; lia|]. split; [lia|done]. }
  assert (total (st_balances st3) + value_u128 (tx t) < 2 ^ 128) as Hlt by (unfold view_of in *; lia).
  unfold st4, settle_staking. destruct ok.
  - destruct (Z.ltb_spec 0 (value_u128 (tx t))) as [Hpos|Hz].
    + destruct (credit_books STAKING_PRECOMPILE_ADDR (value_u128 (tx t)) st3 Hs3) as (Hs4 & T4 & C4); [lia|exact Hlt|].
      rewrite decide_True in C4 by done. split_and!; [done|exact T4|lia].
    + change (put_view (st_balances st3) st3) with st3. split_and!; [done|lia|lia].
  - destruct (credit_books (tx_from t) (value_u128 (tx t)) st3 Hs3) as (Hs4 & T4 & C4); [lia|exact Hlt|].
    rewrite decide_False in C4 by done. split_and!; [done|exact T4|lia].
Qed.

(** ** Blocks *)

Record tx_fair (t : SignedTransaction) : Prop := mkTxFair {
  fair_typed : tx_typed t; fair_from : addr20 (tx_from t); fair_sender : tx_from t <> STAKING_PRECOMPILE_ADDR }.
Definition solvent st : Prop := staked_ok st /\ 0 <= cover st.

Lemma plain_tx_books t h s r s' : staked_ok (staking s) -> total (view_of s) < 2 ^ 128 - 1 -> tx_fair t -> in_range 64 (base_fee_per_gas h) ->
  on_view (execute_tx fuel run_zvm t h) s = (Ok r, s') ->
  staked_ok (staking s') /\ total (view_of s') = total (view_of s) - fee t h r /\ cover (staking s) <= cover (staking s') /\
  0 <= r_gas_used r <= gas_limit (tx t) /\ r_effective_price r = price t h.
Proof.
  intros Hs Htot [Ht Hf Hne] Hbf (v' & He & ->)%on_view_inv. destruct (so_ledger _ Hs) as [Hv Hlt].
  destruct (tx_moves fuel run_zvm t h (view_of s) r v' Hv Ht Hbf Htot He) as (Hv' & Hg & Hp & Ht' & _ & Hb).
  destruct (fee_split t h r (typed_fields _ Ht) Hbf Hg Hp) as (Htip & Hfee & Hburn).
  split_and!; try done; [| |lia..].
  - destruct Hs. split; simpl; try done. split; [done|unfold view_of in *; lia].
  - unfold cover, escrow, owed. simpl. specialize (Hb STAKING_PRECOMPILE_ADDR). rewrite decide_False in Hb by done.
    pose proof (value_u128_range (tx t)) as Hval. unfold in_range in Hval. unfold view_of in *.
    rewrite !exact_balance by (done || lia). rewrite Hb. destruct (r_success r); case_decide; lia.
Qed.

Lemma routed_books t h s r s' : staked_ok (staking s) -> total (view_of s) < 2 ^ 128 - 1 -> tx_fair t -> in_range 64 (base_fee_per_gas h) ->
  execute_routed fuel run_zvm file_appeal t h s = (Ok r, s') ->
  staked_ok (staking s') /\ total (view_of s') = total (view_of s) - fee t h r /\ cover (staking s) <= cover (staking s') /\
  0 <= r_gas_used r <= gas_limit (tx t) /\ r_effective_price r = price t h.
Proof.
  intros Hs Htot Ht Hbf E. unfold execute_routed in E. destruct (is_staking_destination _); [|by eapply plain_tx_books].
  destruct Ht. by eapply staking_tx_books.
Qed.

Lemma credit_view a x s : staked_ok (staking s) -> 0 <= x -> total (view_of s) + x < 2 ^ 128 ->
  let s' := with_view (add_balance a x (view_of s)) s in
  staked_ok (staking s') /\ total (view_of s') = total (view_of s) + x /\ cover (staking s) <= cover (staking s').
Proof.
  intros Hs Hx Ht. cbv zeta. destruct (credit_books a x (staking s) Hs Hx Ht) as (Hok & Htt & Hcc). split_and!; [exact Hok|exact Htt|].
  change (cover (staking s) <= cover (put_view (add_balance a x (st_balances (staking s))) (staking s))). rewrite Hcc. case_decide; lia.
Qed.

Lemma txs_books bh h txs idx cumulative acc s out s' : staked_ok (staking s) -> total (view_of s) < 2 ^ 128 - 1 ->
  Forall tx_fair txs -> in_range 64 (base_fee_per_gas h) ->
  execute_txs_staking fuel run_zvm file_appeal bh h idx txs cumulative acc s = (Ok out, s') ->
  staked_ok (staking s') /\ total (view_of s') <= total (view_of s) /\ cover (staking s) <= cover (staking s').
Proof.
  intros Hs Htot Htxs Hbf. revert idx cumulative acc s Hs Htot. induction Htxs as [|t txs Ht _ IH]; intros idx cumulative acc s Hs Htot E.
  - injection E as _ <-. split; [done|lia].
  - simpl in E. apply bind_inv in E as (r & s1 & Hr & E). destruct (routed_books t h s r s1 Hs Htot Ht Hbf Hr) as (Hs1 & T1 & C1 & Hg & Hp).
    destruct (fee_split t h r (typed_fields _ (fair_typed t Ht)) Hbf Hg Hp) as (Htip & Hfee & Hburn).
    apply bind_inv in E as (x & s2 & (v2 & Hm & ->)%on_view_inv & E). injection Hm as _ <-.
    destruct (credit_view (Block.coinbase h) (tip_of h r) s1 Hs1 Htip) as (Hs2 & T2 & C2); [lia|].
    set (s2 := with_view _ s1) in *. assert (total (view_of s2) < 2 ^ 128 - 1) as Hlt2 by lia.
    destruct (IH _ _ _ s2 Hs2 Hlt2 E) as (Hs3 & T3 & C3). split_and!; [done|lia|lia].
Qed.

Lemma block_books signing_hash L {DB} `{TrieDB DB} (block : TxBlock) (d : DB) view vs db p res s' :
  solvent (mkStakingState vs db delta_new view) -> total view + INITIAL_BLOCK_REWARD < 2 ^ 128 - 1 ->
  Forall tx_fair (body block) -> in_range 64 (base_fee_per_gas (header block)) -> 0 <= Block.number (header block) ->
  execute_with_staking fuel run_zvm file_appeal signing_hash L block d view vs db p = (Ok res, s') ->
  solvent (staking s') /\ total (view_of s') <= total view + block_reward_at (Block.number (header block)).
Proof.
  intros [Hs Hc] Htot Htxs Hbf Hn E. set (s0 := mkSlashable (mkStakingState vs db delta_new view) p).
  pose proof (reward_range (Block.number (header block)) Hn) as Hrw.
  unfold execute_with_staking in E. fold s0 in E. apply bind_inv in E as (x1 & s1 & [_ ->]%throw_if_inv & E).
  apply bind_inv in E as ([gas rcs] & s1 & Htx & E).
  assert (total (view_of s0) < 2 ^ 128 - 1) as Hlt0 by (change (total view < 2 ^ 128 - 1); lia).
  destruct (txs_books _ _ _ _ _ _ s0 _ _ Hs Hlt0 Htxs Hbf Htx) as (Hs1 & T1 & C1).
  set (reward := block_reward_at _) in *. apply bind_inv in E as (x2 & s2 & Hrew & E).
  assert (staked_ok (staking s2) /\ total (view_of s2) <= total (view_of s1) + reward /\ cover (staking s1) <= cover (staking s2)) as (Hs2 & T2 & C2).
  { destruct (Z.ltb_spec 0 reward).
    - apply on_view_inv in Hrew as (v2 & Hm & ->). injection Hm as _ <-.
      destruct (credit_view (Block.coinbase (header block)) reward s1 Hs1) as (? & ? & ?); [lia|change (total (view_of s0)) with (total view) in T1; lia|]. split_and!; [done|lia|done].
    - injection Hrew as _ <-. split_and!; [done|lia|lia]. }
  change (total (view_of s0)) with (total view) in T1. change (staking s0) with (mkStakingState vs db delta_new view) in C1.
  apply bind_inv in E as (x3 & s3 & Hg & E). injection Hg as _ <-.
  apply bind_inv in E as (root & s3 & Hl & E). injection Hl as _ <-. apply bind_inv in E as (troot & s3 & Hl & E). injection Hl as _ <-.
  injection E as _ <-. split; [split; [done|lia]|lia].
Qed.
End solvent.

(** * The staking escrow through the life of the chain
      (crates/zbx-execution/src/executor.rs, crates/zbx-staking/src, node/src/block_producer.rs, node/src/consensus.rs)

    The events that change balances or staking state - transactions, blocks
    and the flush after them, interval rewards, elections, slashes - as a step
    relation, and the solvency of the escrow in every state they reach. *)

Section chain.
Context `{PR : Primitives} `{CR : Crypto} `{BlsPoints} `{Bincode} `{DeltaOrderLaws} `{RlpViewLaws} {P : Type}.
Context (fuel : nat) (run_zvm : SignedTransaction -> BlockHeader -> Target -> Z -> V (ExitStatus * Z * list Log)).
Context (file_appeal : option (Hash -> Address -> Z -> Z -> M P StakingError Z)).
Context (signing_hash : Transaction -> H256) (L : Listing).
Implicit Types (s : SlashableState P).

Definition with_validators (vs : ValidatorSet) s : SlashableState P :=
  mkSlashable (mkStakingState vs (st_db (staking s)) (st_delta (staking s)) (st_balances (staking s))) (pipe s).

(** What the producer does after a block: the write-set is flushed, the next
    block starts from an empty one. *)
Definition commit_block s : SlashableState P :=
  mkSlashable (mkStakingState (st_vs (staking s)) (flush_delta (st_delta (staking s)) (st_db (staking s))) delta_new (st_balances (staking s))) (pipe s).

(** The supply stays below the width of the balances. *)
Definition supply_fits (minted : Z) s : Prop := total (view_of s) + minted < 2 ^ 128 - 1.
Definition header_fair (h : BlockHeader) : Prop := in_range 64 (Block.base_fee_per_gas h) /\ 0 <= Block.number h.

Inductive chain_step : SlashableState P -> SlashableState P -> Prop :=
| step_transaction t h r s s1 : tx_fair t -> header_fair h ->
    execute_routed fuel run_zvm file_appeal t h s = (Ok r, s1) ->
    chain_step s (with_view (add_balance (Block.coinbase h) (tip_of h r) (view_of s1)) s1)
| step_block {DB} `{TrieDB DB} (block : TxBlock) (d : DB) res s s' : Forall tx_fair (Block.body block) -> header_fair (Block.header block) ->
    supply_fits INITIAL_BLOCK_REWARD s -> st_delta (staking s) = delta_new ->
    execute_with_staking fuel run_zvm file_appeal signing_hash L block d (view_of s) (st_vs (staking s)) (st_db (staking s)) (pipe s) = (Ok res, s') ->
    chain_step s (commit_block s')
| step_reload v s : view_ok v -> total v = total (view_of s) -> (forall a, bal a v = bal a (view_of s)) -> chain_step s (with_view v s)
| step_interval height coinbase window s : supply_fits (interval_escrow_mint height (accumulated_fees window)) s ->
    chain_step s (apply_interval_rewards height coinbase window s)
| step_election listing s : lists_validators listing (st_vs (staking s)) ->
    chain_step s (with_validators (snd (elect_active_set listing (st_vs (staking s)))) s)
| step_slash a w splits ft s : 0 <= w -> Forall (fun sp : Address * Z => 0 <= snd sp) splits ->
    split_total splits <= Z.min w (self_stake_of a (st_vs (staking s))) ->
    chain_step s (with_validators (snd (apply_slash_burn_v2 (st_vs (staking s)) a w splits ft)) s)
| step_pipeline p s : chain_step s (mkSlashable (staking s) p).

(** The states reached from [s0]. *)
Inductive reached (s0 : SlashableState P) : SlashableState P -> Prop :=
| reached_start : reached s0 s0
| reached_step s s' : reached s0 s -> chain_step s s' -> reached s0 s'.

Definition sound_books s : Prop := solvent (staking s) /\ supply_fits 0 s.

Lemma commit_books s : sound_books s -> sound_books (commit_block s).
Proof.
  intros [[Hs Hc] Ht]. destruct Hs as [Hv Hdb Hd Hl]. split; [|done]. split.
  - split; cbn; [done|by apply flush_ok|apply delta_new_ok|done].
  - unfold cover, escrow, owed, owed_rows in *. cbn [commit_block staking st_vs st_db st_delta st_balances]. by rewrite flush_rows.
Qed.

Lemma validators_books vs s : sound_books s -> vs_ok vs -> owed_vs vs <= owed_vs (st_vs (staking s)) -> sound_books (with_validators vs s).
Proof.
  intros [[Hs Hc] Ht] Hv Ho. destruct Hs as [_ Hdb Hd Hl]. split; [|done]. split; [by split|].
  unfold cover, escrow, owed in *. cbn [with_validators staking st_vs st_db st_delta st_balances]. lia.
Qed.

Lemma owed_le_supply st : solvent st -> owed_vs (st_vs st) <= total (st_balances st).
Proof.
  intros [Hs Hc]. destruct Hs as [Hv Hdb Hd [Hok Ht]]. pose proof (owed_rows_nonneg _ _ Hdb Hd) as Hr.
  pose proof (bal_le_total STAKING_PRECOMPILE_ADDR (st_balances st) Hok) as Hb. unfold cover, escrow, owed in Hc.
  cbn [get_balance view_balances] in Hc. rewrite exact_balance in Hc by done. lia.
Qed.

Lemma block_tips_nonneg base_fee txs acc : 0 <= acc -> 0 <= block_tips base_fee txs acc.
Proof.
  unfold block_tips. revert acc. induction txs as [|[t used] txs IH]; intros acc Ha; [done|]. cbn [foldl]. apply IH.
  cbv zeta. destruct (_ =? 0); [done|]. pose proof (sat_range 128 (acc + sat 128 (sat 64 (Transaction.effective_gas_price t base_fee - base_fee) * default (gas_limit (tx t)) used)) ltac:(lia)) as Hr.
  unfold in_range in Hr. lia.
Qed.
Lemma fees_nonneg window : 0 <= accumulated_fees window.
Proof.
  unfold accumulated_fees. enough (forall acc, 0 <= acc -> 0 <= foldl (fun acc '(base_fee, txs) => block_tips base_fee txs acc) acc window) by auto with lia.
  induction window as [|[b txs] w IH]; intros acc Ha; [done|]. cbn [foldl]. apply IH. by apply block_tips_nonneg.
Qed.

Lemma interval_books height coinbase window s : sound_books s -> supply_fits (interval_escrow_mint height (accumulated_fees window)) s ->
  sound_books (apply_interval_rewards height coinbase window s).
Proof.
  intros [Hsolv Ht] Hm. pose proof (owed_le_supply _ Hsolv) as Hle. destruct Hsolv as [Hs Hc]. pose proof Hs as [Hv Hdb Hd Hl].
  pose proof (fees_nonneg window) as Hf. unfold apply_interval_rewards. cbv zeta. set (fees := accumulated_fees window) in *.
  unfold supply_fits, view_of in *. destruct (distribution_owed height coinbase fees (st_vs (staking s)) Hv ltac:(lia) Hf) as [Hv' Ho].
  set (vs' := distribute_block_reward _ _ _ _) in *. set (mint := interval_escrow_mint height fees) in *.
  assert (0 <= mint) as Hm0 by lia.
  assert (exists v', (if 0 <? mint then add_balance STAKING_PRECOMPILE_ADDR mint (st_balances (staking s)) else st_balances (staking s)) = v' /\
    staked_ok (put_view v' (staking s)) /\ total v' = total (st_balances (staking s)) + mint /\
    cover (put_view v' (staking s)) = cover (staking s) + mint) as (v' & Ev & Hs' & T' & C').
  { destruct (Z.ltb_spec 0 mint).
    - destruct (credit_books STAKING_PRECOMPILE_ADDR mint (staking s) Hs) as (? & ? & Hcc); [lia|lia|]. rewrite decide_True in Hcc by done. eauto.
    - exists (st_balances (staking s)). assert (mint = 0) as -> by lia. split_and!; [done| |lia|].
      + by destruct Hs.
      + change (put_view (st_balances (staking s)) (staking s)) with (mkStakingState (st_vs (staking s)) (st_db (staking s)) (st_delta (staking s)) (st_balances (staking s))).
        destruct (staking s). cbn. lia. }
  rewrite Ev. split; [|unfold supply_fits, view_of; cbn; lia]. split.
  - destruct Hs' as [_ ? ? ?]. by split.
  - unfold cover, escrow, owed in *. cbn in *. lia.
Qed.

Lemma chain_step_books s s' : sound_books s -> chain_step s s' -> sound_books s'.
Proof.
  intros [Hsolv Ht] Hst. destruct Hst as [t h r s s1 Hf [Hb Hn] E|DB HDB block d res s s' Hf [Hb Hn] Hfit Hd E|v s Hv Htot Hbal|
    height coinbase window s Hfit|listing s Hl|a w splits ft s Hw Hsp Hle|p s].
  - destruct Hsolv as [Hs Hc]. unfold supply_fits in *.
    destruct (routed_books fuel run_zvm file_appeal t h s r s1 Hs ltac:(lia) Hf Hb E) as (Hs1 & T1 & C1 & Hg & Hp).
    destruct (fee_split t h r (typed_fields _ (fair_typed t Hf)) Hb Hg Hp) as (Htip & Hfee & Hburn).
    destruct (credit_view (Block.coinbase h) (tip_of h r) s1 Hs1 Htip) as (Hs2 & T2 & C2); [lia|].
    split; [split; [done|lia]|]. unfold supply_fits. cbv zeta in T2. lia.
  - unfold supply_fits in *. apply commit_books.
    assert (staking s = mkStakingState (st_vs (staking s)) (st_db (staking s)) delta_new (view_of s)) as Es.
    { rewrite <-Hd. unfold view_of. by destruct (staking s). }
    rewrite Es in Hsolv. destruct (block_books fuel run_zvm file_appeal signing_hash L block d _ _ _ _ _ _ Hsolv Hfit Hf Hb Hn E) as [H' T'].
    split; [done|]. unfold supply_fits. pose proof (reward_range (Block.number (Block.header block)) Hn). lia.
  - destruct Hsolv as [Hs Hc]. pose proof Hs as [? ? ? [Hok Hlt]]. split; [|change (total v + 0 < 2 ^ 128 - 1); unfold supply_fits in Ht; lia]. unfold view_of in *. split.
    + split; try done. split; [done|cbn [with_view staking st_balances]; lia].
    + unfold cover, escrow, owed in *. cbn [get_balance view_balances with_view staking st_vs st_db st_delta st_balances] in *.
      rewrite exact_balance in * by (done || lia). by rewrite Hbal.
  - by apply interval_books.
  - apply validators_books; [done|apply elect_ok; [apply Hsolv|done]|by rewrite elect_owed].
  - destruct (slash_owed (st_vs (staking s)) a w splits ft) as [Hv Ho]; [apply Hsolv|done|done|]. apply validators_books; [done|done|lia].
  - done.
Qed.

Lemma reached_books s0 s : sound_books s0 -> reached s0 s -> sound_books s.
Proof. intros Hstart Hr. induction Hr; [done|by eapply chain_step_books]. Qed.

End chain.
