(* ===== verification/StakingExample.v ===== *)
(** * Concrete runs of the staking components

    Instances of the parameters - a codec for the stored records, the view of
    an encoding on the RLP reader of Rlp.v, a listing of the write-set's maps -
    and small states on which the theorems of the staking files are applied.

    At the end: runs of the chain with staking. *)

From Stdlib Require Import ZArith Lia Sorting.Sorted.
From stdpp Require Import base tactics list gmap countable numbers option fin_maps fin_map_dom.
From S2P Require Import Prelude Bytes Block EvmMachine EvmHost NativeReads EvmPrecompiles EvmInterp EvmExample Trie Receipt Account MptRoot StateView Executor BlockExec ExecExample Collections Crypto Vote Rlp TrieNode StateMpt TrieRepr Transaction StakingDb Staking Governance StakingTx StakingCorrect Slashing SlashingCorrect StakingChain ConsensusExample MempoolExample.

Set Warnings "-register-all".
Local Open Scope Z_scope.

(** ** Parameters *)

#[export] Instance plain_order : DeltaOrder := {
  order_puts := map_to_list; order_delegations := map_to_list; order_deletes := elements }.
#[export] Instance plain_order_laws : DeltaOrderLaws.
Proof. by split. Qed.

#[export] Instance padded_sha3 : Sha3 := { sha3_256 m := take 32 (m ++ replicate 32 0) }.
Lemma padded_length m : zlen (sha3_256 m) = 32.
Proof. unfold sha3_256, padded_sha3, zlen. rewrite length_take, length_app, length_replicate. lia. Qed.

(** *** Stored records, as one number *)

Definition z_bool (b : bool) : Z := if b then 1 else 0.
Definition type_z (t : EvidenceType) : Z := type_discriminant t.
Definition z_type (z : Z) : EvidenceType :=
  if z =? 0 then TDoubleSign else if z =? 1 then TLivenessFault else if z =? 2 then TConsecutiveMiss else if z =? 3 then TInvalidBlock else TSurrogateVote.
Definition status_z (s : EvidenceStatus) : Z := match s with EPending => 0 | EAppealed => 1 | EConfirmed => 2 | ERejected => 3 | EOverturned => 4 end.
Definition z_status (z : Z) : EvidenceStatus :=
  if z =? 0 then EPending else if z =? 1 then EAppealed else if z =? 2 then EConfirmed else if z =? 3 then ERejected else EOverturned.

Abbreviation tree := (list (list (list Z))).
Definition violation_t (v : BlockViolation) : list (list Z) :=
  match v with
  | InvalidStateRoot a b => [[0]; a; b] | InvalidTxRoot => [[1]] | GasLimitExceeded a b => [[2; a; b]]
  | InvalidTimestamp a b => [[3; a; b]] | ChainIdMismatch a b => [[4; a; b]]
  end.
Definition t_violation (t : list (list Z)) : option BlockViolation :=
  match t with
  | [[0]; a; b] => Some (InvalidStateRoot a b) | [[1]] => Some InvalidTxRoot | [[2; a; b]] => Some (GasLimitExceeded a b)
  | [[3; a; b]] => Some (InvalidTimestamp a b) | [[4; a; b]] => Some (ChainIdMismatch a b) | _ => None
  end.
Definition evidence_t (e : SlashEvidenceV2) : tree :=
  match e with
  | DoubleSign (mkDoubleSign h r p a b sa sb v pk) => [[[0; h; r; p]; a; b; sa; sb; v; pk]]
  | LivenessFault a b c => [[[1; a; b; c]]] | ConsecutiveMiss a b => [[[2; a; b]]]
  | InvalidBlock h p v => [[[3]; h; p]; violation_t v]
  | SurrogateVote a b c v => [[[4]; a; b; c; v]]
  end.
Definition t_evidence (t : tree) : option SlashEvidenceV2 :=
  match t with
  | [[[0; h; r; p]; a; b; sa; sb; v; pk]] => Some (DoubleSign (mkDoubleSign h r p a b sa sb v pk))
  | [[[1; a; b; c]]] => Some (LivenessFault a b c) | [[[2; a; b]]] => Some (ConsecutiveMiss a b)
  | [[[3]; h; p]; v] => InvalidBlock h p <$> t_violation v
  | [[[4]; a; b; c; v]] => Some (SurrogateVote a b c v)
  | _ => None
  end.
Lemma t_evidence_t e : t_evidence (evidence_t e) = Some e.
Proof. destruct e as [[]| | |h p []|]; done. Qed.

Definition record_t (r : SlashEvidenceRecord) : tree :=
  [[rec_id r; offender r; submitted_by r]; [[type_z (rec_type r); submit_block r; status_z (rec_status r); base_slash_wei r; final_slash_wei r;
    appeal_deadline r; z_bool (jailed_by_slash r); z_bool (burn_applied r); format_version r]]; reporters r] ++ evidence_t (evidence r).
Definition t_record (t : tree) : option SlashEvidenceRecord :=
  match t with
  | [id; off; sub] :: [[ty; sb; st; base; final; dl; j; bu; fv]] :: reps :: ev =>
    (fun e => mkRecord id (z_type ty) off sub sb e (z_status st) base final dl reps (j =? 1) (bu =? 1) fv) <$> t_evidence ev
  | _ => None
  end.
Lemma t_record_t r : t_record (record_t r) = Some r.
Proof.
  destruct r as [id ty off sub sb ev st base final dl reps j bu fv]. cbn. rewrite t_evidence_t. cbn.
  by destruct ty, st, j, bu.
Qed.

Definition vote_t (v : Vote) : list (list Z) :=
  [block_hash (data v); [block_number (data v); phase (data v); epoch (data v)]; voter v; signature v].
Definition t_vote (t : list (list Z)) : option Vote :=
  match t with [bh; [n; p; e]; w; s] => Some (mkVote (mkVoteData bh n p e) w s) | _ => None end.
Definition equivocation_t (e : EquivocationEvidence) : tree :=
  [[ev_validator e; [ev_round e; ev_phase e]; ev_pubkey e]; vote_t (vote_a e); vote_t (vote_b e)].
Definition t_equivocation (t : tree) : option EquivocationEvidence :=
  match t with
  | [[v; [r; p]; pk]; a; b] => x ← t_vote a; y ← t_vote b; Some (mkEvidence v r p x y pk)
  | _ => None
  end.
Lemma t_equivocation_t e : t_equivocation (equivocation_t e) = Some e.
Proof. by destruct e as [v r p [[]] [[]] pk]. Qed.

Definition pack (t : tree) : bytes := [Zpos (countable.encode t)].
Definition unpack (b : bytes) : option tree := match b with [Zpos p] => countable.decode p | _ => None end.
Lemma unpack_pack t : unpack (pack t) = Some t.
Proof. apply countable.decode_encode. Qed.

#[export] Instance packed : SlashBincode := {
  record_bytes r := pack (record_t r); record_of b := unpack b ≫= t_record;
  bond_bytes b := [bond_wei b; match bond_kind b with WhistleblowerBond => 0 | AppealBond => 1 end];
  bond_of b := match b with [w; k] => Some (mkBond w (if k =? 0 then WhistleblowerBond else AppealBond)) | _ => None end;
  evidence_bytes e := pack (equivocation_t e); evidence_of b := unpack b ≫= t_equivocation }.
#[export] Instance packed_laws : SlashBincodeLaws.
Proof.
  split; intros x; cbn [record_of record_bytes bond_of bond_bytes evidence_of evidence_bytes packed].
  - rewrite unpack_pack. apply t_record_t.
  - by destruct x as [w []].
  - rewrite unpack_pack. apply t_equivocation_t.
Qed.

(** ** Slashing *)

Definition two_votes (h : Z) : Vote := mkVote (mkVoteData [h] 4 0 1) [2] (bls_sign [1] (msg_of (mkVoteData [h] 4 0 1))).
Definition equivocation : EquivocationEvidence := mkEvidence [2] 4 0 (two_votes 10) (two_votes 11) [1].
Definition at_stake : Validator := mkValidator [2] [1] (10 ^ 23) (10 ^ 22) 500 VActive 0 0 0 0 0.
Definition witness_of (a : Address) : Validator := mkValidator a [5] (10 ^ 23) 0 500 VActive 0 0 0 0 0.
Definition two_validators : ValidatorSet := mkSet (<[[2] := at_stake]> (<[[7] := witness_of [7]]> ∅)) [[2]; [7]] 0.
Definition no_rows : ZbxDb := mkDb ∅ ∅ ∅ ∅ ∅ ∅.

Definition pl0 : PipelineState := mkPipeline (registry_new 2) no_rows two_validators.
Definition pl1 : PipelineState := snd (ingest_equivocation equivocation [7] 10 0 (10 ^ 23) pl0).
Definition pl2 : PipelineState := snd (tick_finalize 200000 pl1).
Definition got {E A} (d : A) (r : res E A) : A := match r with Ok a => a | _ => d end.
Lemma ran_ok {S E A} (d : A) (m : res E A * S) : is_ok (fst m) = true -> m = (Ok (got d (fst m)), snd m).
Proof. destruct m as [[a|e|] s]; done. Qed.

Lemma pl2_run : pipeline_run pl0 (got [] (fst (tick_finalize 200000 pl1))) pl2.
Proof.
  change (got [] (fst (tick_finalize 200000 pl1))) with ([] ++ got [] (fst (tick_finalize 200000 pl1))).
  eapply run_step; [change (@nil AppliedSlash) with ([] ++ @nil AppliedSlash); eapply run_step; [by apply run_start|]|].
  - eapply step_ingest. apply surjective_pairing.
  - apply (step_tick 200000). apply ran_ok. vm_compute. reflexivity.
Qed.


(** ** Governance *)

Definition module_m : bytes := [109].
Definition with_proposal : ProposalRegistry := got ∅ (create_proposal 1 module_m 2 500 [2] ∅).
Lemma with_proposal_reached : registry_reached with_proposal.
Proof. eapply registry_next; [apply registry_empty|]. apply (registry_create 1 module_m 2 500 [2]). vm_compute. reflexivity. Qed.
Definition alone : ValidatorSet := mkSet (<[[2] := at_stake]> ∅) [[2]] 0.


(** ** The codec *)

Definition opt {E A} (r : res E A) : option A := match r with Ok a => Some a | _ => None end.
Definition all_bytes (b : bytes) : bool := forallb (fun x => (0 <=? x) && (x <? 256)) b.
Definition checked_bytes (o : option bytes) : option bytes := b ← o; if all_bytes b then Some b else None.
Lemma all_bytes_spec b : all_bytes b = true <-> Forall byte b.
Proof.
  unfold all_bytes. rewrite forallb_forall, List.Forall_forall. unfold byte. split; intros Hb x Hx; specialize (Hb x Hx); lia.
Qed.

#[export] Instance view_on_rlp : RlpView := {
  rlp_item_count b := opt (item_count b);
  rlp_nth b i := checked_bytes (opt (rlp_at b (Z.of_nat i)));
  rlp_data b := checked_bytes (opt (as_bytes b));
  rlp_uint w b := d ← opt (as_bytes b); if (0 <=? be_val d) && (be_val d <? 2 ^ w) then Some (be_val d) else None }.

Lemma checked_ok b : Forall byte b -> checked_bytes (Some b) = Some b.
Proof. intros Hb%all_bytes_spec. unfold checked_bytes. cbn. by rewrite Hb. Qed.
Lemma checked_out o b : checked_bytes o = Some b -> Forall byte b.
Proof.
  unfold checked_bytes. intros (x & _ & E)%bind_Some. destruct (all_bytes x) eqn:Ex; [|done]. injection E as ->. by apply all_bytes_spec.
Qed.
Lemma str_read d : item_ok (Str d) -> as_bytes (enc (Str d)) = Ok d /\ Forall byte d.
Proof.
  intros [Hb Hl]. inversion Hb; subst. simpl in Hl. destruct (as_bytes_enc d) as [H1 H2]; [done|by apply zlen_str_lt|]. done.
Qed.

Lemma enc_bytes it : item_ok it -> Forall byte (enc it).
Proof.
  induction it as [d|l IH] using item_ind_nested; intros Hok.
  - destruct Hok as [Hb Hl]. inversion Hb; subst. simpl in *. apply enc_str_bytes; [done|by apply zlen_str_lt].
  - cbn [enc]. destruct (item_ok_children l Hok) as [_ Hc]. apply enc_lst_bytes; [|done]. rewrite List.Forall_forall in IH.
    apply List.Forall_forall. intros z (e & (x & <- & Hx)%in_map_iff & Hz)%in_concat.
    pose proof (IH x Hx (item_ok_child l x Hok Hx)) as Hb. rewrite List.Forall_forall in Hb. by apply Hb.
Qed.

#[export] Instance view_on_rlp_laws : RlpViewLaws.
Proof.
  split; cbn [rlp_item_count rlp_nth rlp_data rlp_uint view_on_rlp crate_out crate_uint enc_crate].
  - intros l Hl. destruct (item_ok_children l Hl) as [Hes Hc]. cbn [enc]. rewrite item_count_enc by done. cbn. by rewrite length_map.
  - intros l i x Hl Hi. destruct (item_ok_children l Hl) as [Hes Hc]. cbn [enc]. rewrite rlp_at_enc by (done || lia). rewrite Nat2Z.id.
    change (map enc l) with (enc <$> l). rewrite list_lookup_fmap, Hi. cbn [fmap option_fmap option_map opt]. apply checked_ok.
    apply enc_bytes. eapply item_ok_child; [exact Hl|]. apply list_elem_of_In. by eapply list_elem_of_lookup_2.
  - intros d Hd. destruct (str_read d Hd) as [-> Hb]. by apply checked_ok.
  - intros w n Hn Hr Hw. destruct (str_read _ Hn) as [-> _]. cbn [opt mbind option_bind]. rewrite strip_zeros_val, be_val_to_be.
    unfold in_range in Hr. change (256 ^ Z.of_nat 8) with (2 ^ 64). assert (2 ^ w <= 2 ^ 64) by (apply Z.pow_le_mono_r; lia).
    rewrite Z.mod_small by lia. rewrite (proj2 (Z.leb_le _ _)), (proj2 (Z.ltb_lt _ _)) by lia. done.
  - intros b i x _ Hx. by eapply checked_out.
  - intros b x _ Hx. by eapply checked_out.
  - intros w b n (d & _ & E)%bind_Some. destruct (Z.leb_spec 0 (be_val d)), (Z.ltb_spec (be_val d) (2 ^ w)); cbn in E; try done. injection E as <-. by split.
Qed.

(** A delegation of 500 to the address 7. *)
Definition delegation : StakingTx := Delegate dest 500.
Lemma delegation_ok : item_ok (Lst (staking_items delegation)).
Proof.
  split; [|vm_compute; reflexivity]. constructor. repeat apply List.Forall_cons; try apply List.Forall_nil;
    constructor; apply all_bytes_spec; vm_compute; reflexivity.
Qed.

Lemma staking_codec_witness :
  StakingTx.decode (StakingTx.encode delegation) = Some delegation /\
  StakingTx.decode (193 :: [195]) = None /\
  (forall data u, Forall byte data -> StakingTx.decode data = Some u -> call_shape u).
Proof.
  destruct (staking_codec delegation) as [H1 H2]; [by split|apply delegation_ok|]. split; [exact H1|]. split; [vm_compute; reflexivity|exact H2].
Defined.

(** ** The write-set *)

Definition val : Address := to_be 20 21.
Definition who : Address := to_be 20 22.
(** On disk, 7 that mature at height 5; in the write-set, 9 that mature at 6 and
    a delegation of 40. *)
Definition db1 : ZbxDb := mkDb ∅ (<[unbonding_key 5 who val := le16 7]> ∅) ∅ ∅ ∅ ∅.
Definition delta1 : StakingDelta := put_delegation val who 40 (put_unbonding_entry 6 who val 9 delta_new).

Lemma val_ok : addr20 val.
Proof. split; [done|]. apply to_be_bytes. Qed.
Lemma who_ok : addr20 who.
Proof. split; [done|]. apply to_be_bytes. Qed.
Lemma db1_ok : db_ok db1.
Proof.
  split; [|apply map_Forall_empty|apply map_Forall_empty]. apply map_Forall_singleton. split; [|apply le16_bytes].
  apply all_bytes_spec. vm_compute. reflexivity.
Qed.
Lemma delta1_ok : delta_ok delta1.
Proof.
  apply put_delegation_ok; [|split; [apply val_ok|apply who_ok]|by split].
  apply put_unbonding_ok; [apply delta_new_ok| |by split]. split; [by split|]. split; [apply who_ok|apply val_ok].
Qed.


(** ** An election *)

Definition low : Validator := mkValidator [9] [6] (10 ^ 20) 0 500 VActive 0 0 0 0 0.
Definition three_registered : ValidatorSet :=
  mkSet (<[[2] := at_stake]> (<[[7] := witness_of [7]]> (<[[9] := low]> ∅))) [[7]; [9]] 3.
Definition registered_list : list Validator := (map_to_list (validators three_registered)).*2.

Definition validator_b (a : Address) (v : Validator) : bool :=
  bool_decide (v_address v = a) && range_b 128 (self_stake v) && range_b 128 (delegated_stake v) && range_b 128 (pending_rewards v) &&
  range_b 128 (delegator_reward_pool v) && range_b 128 (pool_denominator v) && (0 <=? commission_bps v) && (commission_bps v <=? 2000).
Lemma vs_check vs : bool_decide (map_Forall (fun a v => validator_b a v = true) (validators vs)) && bool_decide (NoDup (active_set vs)) = true -> vs_ok vs.
Proof.
  intros [Hv%bool_decide_eq_true Ha%bool_decide_eq_true]%andb_true_iff. split; [|done]. intros a v Hav. specialize (Hv a v Hav).
  unfold validator_b, range_b in Hv. rewrite !andb_true_iff, bool_decide_eq_true in Hv. destruct_and!. split; [done|]. split; unfold in_range; lia.
Qed.

(** The validator below the minimum leaves; the two others are elected, the
    larger stake first. *)
Lemma election_exact_witness :
  fst (elect_active_set registered_list three_registered) = [[2]; [7]] /\
  (status <$> validators (snd (elect_active_set registered_list three_registered)) !! [9]) = Some VPending /\
  owed_vs (snd (elect_active_set (reverse registered_list) three_registered)) = owed_vs three_registered.
Proof.
  destruct (election_exact three_registered registered_list (reverse registered_list) _ _
    (vs_check three_registered ltac:(vm_compute; reflexivity)) (Permutation_refl _) (reverse_Permutation _) (surjective_pairing _))
    as (H1 & _ & H3 & _).
  split; [vm_compute; reflexivity|]. split; [vm_compute; reflexivity|]. rewrite H1. exact H3.
Defined.

(** ** What the staking code does not do *)

#[export] Instance plain_balances : BalanceAccess (gmap Address Z) := {
  get_balance a b := default 0 (b !! a); set_balance a x b := <[a := x]> b }.
#[export] Instance every_g : BlsPoints := { g1_compressed _ := true; g2_compressed _ := true }.
#[export] Instance nothing_stored : Bincode := { bincode_serialize _ := []; bincode_deserialize _ := None }.

Abbreviation plain := (StakingState (gmap Address Z)).
Definition with_set (vs : ValidatorSet) : plain := mkStakingState vs no_rows delta_new (<[STAKING_PRECOMPILE_ADDR := 10 ^ 24]> ∅).
Definition dispatch (call : StakingTx) (sender : Address) (value : Z) (s : plain) : plain * bool :=
  let '(r, s) := dispatch_staking_tx call sender value 10 s in (s, is_ok r).

(** A delegation to a tombstoned validator fails, but its row is written: the
    sender, refunded, then withdraws the stake of the real delegators. *)
Definition buried : ValidatorSet := mkSet (<[val := set_status VTombstoned (set_delegated_stake 900 at_stake)]> ∅) [] 0.
Lemma refused_delegation_recorded :
  let '(s1, ok1) := dispatch (Delegate val 900) who 900 (with_set buried) in
  let '(s2, ok2) := dispatch (Undelegate val 900) who 0 s1 in
  ok1 = false /\ ok2 = true /\ get_unbonding_entry (st_db s2) (10 + UNBONDING_PERIOD_BLOCKS) who val (st_delta s2) = 900.
Proof. vm_compute. done. Qed.

(** Of a pool of 1200 for stakes of 3 and 1, the larger delegator claims 900 and
    then, claiming again, the 300 of the other. *)
Lemma second_claim_takes_the_rest :
  let v := set_pool 1200 4 at_stake in
  let '(first, v1) := claim_delegator_share 3 v in
  let '(second, v2) := claim_delegator_share 3 v1 in
  first = 900 /\ second = 300 /\ fst (claim_delegator_share 1 v2) = 0.
Proof. vm_compute. done. Qed.

(** With a hundred blocks' rewards and stakes of the minimum size the product
    wraps: a lone validator receives less than a hundredth of the committee's
    share. *)
Lemma reward_product_wraps :
  let v := share_reward (9 * 10 ^ 20) (10 ^ 23) (set_delegated_stake 0 at_stake) in
  0 <= pending_rewards v * 100 < 9 * 10 ^ 20.
Proof. vm_compute. split; [discriminate|reflexivity]. Qed.

(** A claim the escrow cannot pay has already cleared the rewards. *)
Lemma failed_claim_forfeits :
  let vs := mkSet (<[val := set_pending 500 at_stake]> ∅) [val] 0 in
  let '(s1, ok) := dispatch (ClaimRewards val) val 0 (mkStakingState vs no_rows delta_new ∅) in
  ok = false /\ (pending_rewards <$> validators (st_vs s1) !! val) = Some 0.
Proof. vm_compute. done. Qed.

(** An appeal suspends the slash for good: the record is neither pending nor
    confirmed, and no code of the node decides it. *)
Definition padded_id (a : Address) (h : Z) : Hash := compute_id_for_offender a h TDoubleSign.
Definition appealed : PipelineState := snd (dispatch_file_appeal_tx (padded_id [2] 10) [2] APPEAL_BOND_WEI 20 pl1).
Lemma appeal_suspends_slash : fst (tick_finalize (10 ^ 12) appealed) = Ok [] /\ fst (tick_finalize (10 ^ 12) pl1) <> Ok [].
Proof. split; [vm_compute; reflexivity|]. vm_compute. discriminate. Qed.

(** The record's identifier depends on the block of the submission: the same
    equivocation reported in two blocks is two records, burnt twice. *)
Definition reported_twice : PipelineState := snd (ingest_equivocation equivocation [7] 11 0 (10 ^ 23) pl1).
Lemma equivocation_burnt_twice : length (got [] (fst (tick_finalize 200000 reported_twice))) = 2%nat.
Proof. vm_compute. reflexivity. Qed.

(** The reporter's part is computed from the amount intended: an offender
    without stake left still has its reporter paid. *)
Definition emptied : PipelineState :=
  mkPipeline (pl_registry pl1) (pl_db pl1) (alter_validator (set_self_stake 0) [2] two_validators).
Lemma reporter_paid_from_nothing :
  (pending_rewards <$> validators (pl_vs (snd (tick_finalize 200000 emptied))) !! [7]) = Some (15625 * 10 ^ 17) /\
  owed_vs two_validators - 10 ^ 23 + 15625 * 10 ^ 17 = owed_vs (pl_vs (snd (tick_finalize 200000 emptied))).
Proof. vm_compute. done. Qed.

(** * A chain with staking

    Interval rewards, a delegation and a claim on a small view, and the
    solvency theorem of StakingChain.v at the states they reach. *)

#[local] Existing Instance EvmExample.toy.
#[local] Existing Instance EvmExample.toy_laws.
#[local] Existing Instance ConsensusExample.toy_crypto.

#[export] Instance every_point : BlsPoints := { g1_compressed _ := true; g2_compressed _ := true }.
#[export] Instance no_registry : Bincode := { bincode_serialize _ := []; bincode_deserialize _ := None }.

Definition staker : Validator := mkValidator val [1] (10 ^ 23) 0 500 VActive 0 0 0 0 0.
Definition one_validator : ValidatorSet := mkSet (<[val := staker]> ∅) [val] 0.
Definition chain_view : StateView :=
  mkView (<[ExecExample.alice := money (10 ^ 18)]> (<[val := money (10 ^ 18)]> (<[STAKING_PRECOMPILE_ADDR := money (10 ^ 23)]> ∅))) ∅ diff_new ∅.
Definition chain0 : SlashableState unit := mkSlashable (mkStakingState one_validator no_rows delta_new chain_view) tt.

Definition staking_call (from : Address) (value : Z) (call : StakingTx) : SignedTransaction :=
  mkSigned (mkTx DynamicFee 0 2 50 200000 (Some STAKING_PRECOMPILE_ADDR) value (StakingTx.encode call) [] 8989)
    (mkSig 0 zero_h256 zero_h256) from (to_be 32 value).
Definition delegate_tx : SignedTransaction := staking_call ExecExample.alice 1000 (Delegate val 1000).
Definition claim_tx : SignedTransaction := staking_call val 0 (ClaimRewards val).

Abbreviation routed t s := (execute_routed 40 no_zvm None t header0 s).
Definition fallback : TxResult := mkTxResult 0 0 false [] None.
Definition chain1 : SlashableState unit := apply_interval_rewards 100 val [] chain0.
Definition delegated : TxResult := got fallback (fst (routed delegate_tx chain1)).
Definition chain2 : SlashableState unit :=
  with_view (add_balance (Block.coinbase header0) (tip_of header0 delegated) (view_of (snd (routed delegate_tx chain1)))) (snd (routed delegate_tx chain1)).

Lemma no_rows_ok : db_ok no_rows.
Proof. split; apply map_Forall_empty. Qed.
Lemma chain_view_ok : view_ok chain_view.
Proof. apply base_view_ok. vm_compute. reflexivity. Qed.
Lemma chain0_sound : sound_books chain0.
Proof.
  split; [split; [split|]|].
  - apply vs_check. vm_compute. reflexivity.
  - apply no_rows_ok.
  - apply delta_new_ok.
  - split; [apply chain_view_ok|]. vm_compute. reflexivity.
  - vm_compute. discriminate.
  - vm_compute. reflexivity.
Qed.

Lemma staking_typed from value call : in_range 256 value -> Forall byte (StakingTx.encode call) -> BlockExec.tx_typed (staking_call from value call).
Proof. intros Hv Hd. split; [|by right]. split; unfold in_range in *; simpl; lia || done. Qed.
Lemma delegate_fair : tx_fair delegate_tx.
Proof.
  split; [apply staking_typed; [by split|apply all_bytes_spec; vm_compute; reflexivity]|split; [done|apply to_be_bytes]|].
  intros E. apply (f_equal be_val) in E. vm_compute in E. discriminate.
Qed.

Lemma chain2_reached : reached 40 no_zvm None signing listing0 chain0 chain2.
Proof.
  eapply reached_step; [eapply reached_step; [apply reached_start|]|].
  - apply (step_interval 40 no_zvm None signing listing0 100 val [] chain0). vm_compute. reflexivity.
  - apply (step_transaction 40 no_zvm None signing listing0 delegate_tx header0 delegated chain1 (snd (routed delegate_tx chain1)) delegate_fair).
    + split; [by split|done].
    + apply run_ok_eq. vm_compute. reflexivity.
Qed.

