(* ===== verification/RlpTypes.v ===== *)
(** * Types on the wire (crates/zbx-types/src)

    What the chain's types share: values written with and read by the [rlp]
    crate, the reading of fields of a list, the rows of a [BTreeMap], and
    [Codec], the contract of a type's [Encodable] and [Decodable].

    The crate is a parameter (the classes of Transaction.v); here it is also asked
    for booleans and for the views of a list's items. *)

From Stdlib Require Import ZArith Lia String Sorting.Sorted.
From stdpp Require Import base tactics list gmap countable numbers option strings fin_maps.
From S2P Require Import Prelude Bytes Crypto Collections Rlp Transaction.

Local Open Scope Z_scope.

(** [rlp::DecoderError]: the two errors the chain's types raise themselves,
    and those of the crate. *)
Inductive DecoderError : Type :=
| RlpIncorrectListLen
| Custom (msg : string)
| Malformed.

Class RlpMore : Type := {
  crate_bool : bool -> bytes;
  rlp_bool : bytes -> option bool;
  rlp_iter : bytes -> list bytes }.

Class RlpMoreLaws `{RlpCrate} `{RlpMore} : Prop := {
  bool_out : forall b, item_ok (Str (crate_bool b)) -> rlp_bool (crate_out (Str (crate_bool b))) = Some b;
  iter_out : forall l, item_ok (Lst l) -> rlp_iter (crate_out (Lst l)) = map crate_out l;
  iter_bytes : forall b, Forall byte b -> Forall (Forall byte) (rlp_iter b) }.

(** ** Reading *)

Abbreviation Dec A := (bytes -> res DecoderError A).

(** [if b { return Err(DecoderError::Custom(msg)) }] *)
Definition refuse (b : bool) (msg : string) : res DecoderError unit := guard_err b (Custom msg).

(** [for x in xs { check(x)?; }] *)
Fixpoint each {A} (check : A -> res DecoderError unit) (l : list A) : res DecoderError unit :=
  match l with [] => Ok tt | a :: l => _ ← check a; each check l end.

Definition is_nil {A} (l : list A) : bool := match l with [] => true | _ => false end.

Section reading.
Context `{RC : RlpCrate} `{RV : RlpView} `{RM : RlpMore}.

Definition uint_item (n : Z) : item := Str (crate_uint n).
Definition bool_item (b : bool) : item := Str (crate_bool b).
Definition u128_item (n : Z) : item := Str (to_be 16 n).

Definition uint_val (w : Z) : Dec Z := fun b => ok_or (rlp_uint w b) Malformed.
Definition bool_val : Dec bool := fun b => ok_or (rlp_bool b) Malformed.
Definition bytes_val : Dec bytes := fun b => ok_or (rlp_data b) Malformed.
(** A [String] is its bytes. *)
Definition string_val : Dec bytes := fun b =>
  d ← bytes_val b; _ ← guard_err (negb (utf8_ok d)) Malformed; Ok d.

(** [Vec<u8>] of a length that is checked. *)
Definition fixed_val (n : Z) (msg : string) : Dec bytes := fun b =>
  d ← bytes_val b; _ ← refuse (negb (zlen d =? n)) msg; Ok d.
Definition decode_address : Dec Address := fixed_val 20 "address must be 20 bytes".
Definition decode_h256 : Dec Hash := fixed_val 32 "H256 must be 32 bytes".
Definition decode_u128 : Dec Z := fun b => d ← fixed_val 16 "u128 must be 16 bytes BE" b; Ok (be_val d).

(** [rlp.at(i)?] and [T::decode(&rlp.at(i)?)?], which is what [rlp.val_at(i)?] does. *)
Definition sub_at (i : nat) : Dec bytes := fun b => ok_or (rlp_nth b i) Malformed.
Definition field {A} (dec : Dec A) (i : nat) : Dec A := fun b => x ← sub_at i b; dec x.

Definition count : Dec Z := fun b => ok_or (rlp_item_count b) Malformed.
Definition expect_count (n : Z) : Dec unit := fun b =>
  c ← count b; guard_err (negb (c =? n)) RlpIncorrectListLen.

(** The rows of a map: every row is decoded knowing the key before it, and inserted. *)
Fixpoint decode_rows {X K V} `{Countable K} (row : option K -> X -> res DecoderError (K * V))
    (prev : option K) (items : list X) (m : gmap K V) : res DecoderError (gmap K V) :=
  match items with
  | [] => Ok m
  | x :: items => kv ← row prev x; decode_rows row (Some kv.1) items (<[kv.1 := kv.2]> m)
  end.

(** [for row in rlp.iter()] and [for i in 0..rlp.item_count()? { rlp.at(i)? }]. *)
Definition rows_val {K V} `{Countable K} (row : option K -> bytes -> res DecoderError (K * V)) : Dec (gmap K V) :=
  fun b => decode_rows row None (rlp_iter b) ∅.
Definition indexed_val {K V} `{Countable K} (row : bytes -> res DecoderError (K * V)) : Dec (gmap K V) :=
  fun b => n ← count b; decode_rows (fun _ i => x ← sub_at i b; row x) None (seq 0 (Z.to_nat n)) ∅.

(** The same for sets. *)
Fixpoint decode_keys {X K} `{Countable K} (key : option K -> X -> res DecoderError K)
    (prev : option K) (items : list X) (s : gset K) : res DecoderError (gset K) :=
  match items with
  | [] => Ok s
  | x :: items => k ← key prev x; decode_keys key (Some k) items ({[k]} ∪ s)
  end.
Definition keys_val {K} `{Countable K} (key : option K -> bytes -> res DecoderError K) : Dec (gset K) :=
  fun b => decode_keys key None (rlp_iter b) ∅.
Definition indexed_keys {K} `{Countable K} (key : bytes -> res DecoderError K) : Dec (gset K) :=
  fun b => n ← count b; decode_keys (fun _ i => x ← sub_at i b; key x) None (seq 0 (Z.to_nat n)) ∅.

(** A [Vec] read by index. *)
Fixpoint decode_vec {A} (dec : Dec A) (b : bytes) (ixs : list nat) : res DecoderError (list A) :=
  match ixs with
  | [] => Ok []
  | i :: ixs => a ← field dec i b; l ← decode_vec dec b ixs; Ok (a :: l)
  end.
Definition vec_val {A} (dec : Dec A) : Dec (list A) :=
  fun b => n ← count b; decode_vec dec b (seq 0 (Z.to_nat n)).

(** A one-byte discriminant. *)
Definition tag_val {T} (from_tag : Z -> res DecoderError T) : Dec T := fun b => t ← uint_val 8 b; from_tag t.
End reading.

(** ** [BTreeMap]

    Its entries in the order of the keys. *)

Section btree.
Context {K V : Type} `{Countable K} (kle : K -> K -> bool).

Definition klt (p k : K) : bool := negb (kle k p).
Definition entry_le (x y : K * V) : bool := kle x.1 y.1.
Definition btree_list (m : gmap K V) : list (K * V) := sort_by entry_le (map_to_list m).

Definition set_list (s : gset K) : list K := sort_by kle (elements s).

(** The check that a key is above the one before it. *)
Definition ascending (prev : option K) (k : K) (msg : string) : res DecoderError unit :=
  match prev with Some p => refuse (kle k p) msg | None => Ok tt end.
End btree.

(** [u64], [u32], [u8] keys; addresses, hashes and texts are [bytes_leb]. *)
Abbreviation z_list := (btree_list Z.leb).
Abbreviation bytes_list := (btree_list bytes_leb).
Arguments set_list {K} {_ _} kle s : rename.

Lemma res_bind_Ok {E A B} (m : res E A) (f : A -> res E B) b :
  m ≫= f = Ok b <-> exists a, m = Ok a /\ f a = Ok b.
Proof.
  destruct m as [a|e|]; cbn; split; try done; try (by intros (? & ? & _)); [by exists a|]. by intros (x & [= <-] & Hx).
Qed.

Lemma bind_bind {E A B C} (m : res E A) (f : A -> res E B) (g : B -> res E C) : (m ≫= f) ≫= g = m ≫= (fun a => f a ≫= g).
Proof. by destruct m. Qed.

Lemma each_Ok {A} (check : A -> res DecoderError unit) l : each check l = Ok tt <-> Forall (fun a => check a = Ok tt) l.
Proof.
  induction l as [|a l IH]; cbn [each]; [done|]. rewrite list.Forall_cons, <-IH.
  destruct (check a) as [[]|e|]; cbn; split; try done; by intros [].
Qed.

(** ** Orders on keys *)

Class KeyOrder {K} (kle : K -> K -> bool) : Prop := {
  ko_total : le_total kle; ko_trans : le_trans kle; ko_antisym : le_antisym kle }.

#[export] Instance z_order : KeyOrder Z.leb.
Proof.
  split.
  - intros x y. rewrite Z.leb_gt, Z.leb_le. lia.
  - intros x y z. rewrite !Z.leb_le. lia.
  - intros x y. rewrite !Z.leb_le. lia.
Qed.
#[export] Instance bytes_order : KeyOrder bytes_leb.
Proof. split; [apply bytes_leb_total|apply bytes_leb_trans|apply bytes_leb_antisym]. Qed.

(** A type ordered by its discriminants. *)
Lemma tag_order {K} (tag : K -> Z) : (forall a b, tag a = tag b -> a = b) -> KeyOrder (fun a b => tag a <=? tag b).
Proof.
  intros Hinj. split.
  - intros a b. apply (ko_total (kle := Z.leb)).
  - intros a b c. apply (ko_trans (kle := Z.leb)).
  - intros a b Hab Hba. by apply Hinj, (ko_antisym (kle := Z.leb)).
Qed.

Section btree_laws.
Context {K V : Type} `{Countable K} (kle : K -> K -> bool) {KO : KeyOrder kle}.
Implicit Types m : gmap K V.

Abbreviation strictly l := (StronglySorted (fun x y : K * V => klt kle x.1 y.1 = true) l).

Lemma btree_list_perm m : btree_list kle m ≡ₚ map_to_list m.
Proof. apply sort_by_perm. Qed.

Lemma btree_list_elem m k v : (k, v) ∈ btree_list kle m <-> m !! k = Some v.
Proof. by rewrite btree_list_perm, elem_of_map_to_list. Qed.

Lemma each_map (check : K * V -> res DecoderError unit) m :
  each check (btree_list kle m) = Ok tt <-> map_Forall (fun k v => check (k, v) = Ok tt) m.
Proof.
  rewrite each_Ok, list.Forall_forall. split.
  - intros HF k v Hk. by apply HF, btree_list_elem.
  - intros HF [k v] Hk%btree_list_elem. by apply HF.
Qed.

Lemma btree_list_nodup m : NoDup (btree_list kle m).*1.
Proof. rewrite btree_list_perm. apply NoDup_fst_map_to_list. Qed.

Lemma btree_list_length m : length (btree_list kle m) = size m.
Proof. by rewrite btree_list_perm, length_map_to_list. Qed.

Lemma btree_list_strict m : strictly (btree_list kle m).
Proof.
  assert (StronglySorted (fun x y : K * V => entry_le kle x y = true) (btree_list kle m)) as Hs.
  { apply sort_by_sorted; unfold entry_le.
    - intros x y. apply ko_total.
    - intros x y z. apply ko_trans. }
  pose proof (btree_list_nodup m) as Hnd. induction Hs as [|x l Hl IH Hx]; [constructor|].
  rewrite fmap_cons in Hnd. apply list.NoDup_cons in Hnd as [Hn Hnd]. constructor; [by apply IH|].
  rewrite list.Forall_forall in Hx |- *. intros y Hy. unfold klt. destruct (kle y.1 x.1) eqn:E; [|done].
  exfalso. apply Hn. rewrite (ko_antisym x.1 y.1); [by apply list_elem_of_fmap_2|by apply Hx|done].
Qed.

(** Inserting the entries one after the other gives back the map. *)
Lemma inserted_union (l : list (K * V)) m : NoDup l.*1 ->
  foldl (fun m kv => <[kv.1 := kv.2]> m) m l = list_to_map l ∪ m.
Proof.
  revert m. induction l as [|[k v] l IH]; intros m Hnd; simpl; [by rewrite (left_id_L ∅ (∪))|].
  rewrite fmap_cons in Hnd. apply list.NoDup_cons in Hnd as [Hn Hnd]. rewrite IH by done.
  rewrite <-insert_union_r, insert_union_l; [done|]. by apply not_elem_of_list_to_map_1.
Qed.
Lemma inserted_btree m : foldl (fun m kv => <[kv.1 := kv.2]> m) ∅ (btree_list kle m) = m.
Proof.
  rewrite inserted_union by apply btree_list_nodup. rewrite (right_id_L ∅ (∪)).
  rewrite (list_to_map_proper _ (map_to_list m)); [apply list_to_map_to_list|apply btree_list_nodup|apply btree_list_perm].
Qed.

Lemma rows_out {X} (row : option K -> X -> res DecoderError (K * V)) items l : forall prev m,
  Forall2 (fun x kv => forall p, (forall q, p = Some q -> klt kle q kv.1 = true) -> row p x = Ok kv) items l ->
  strictly l -> (forall q, prev = Some q -> Forall (fun kv => klt kle q kv.1 = true) l) ->
  decode_rows row prev items m = Ok (foldl (fun m kv => <[kv.1 := kv.2]> m) m l).
Proof.
  intros prev m HF. revert prev m. induction HF as [|x kv items l Hx _ IH]; intros prev m Hs Hp; [done|].
  apply StronglySorted_inv in Hs as [Hs Hk]. cbn [decode_rows]. rewrite Hx.
  - cbn. apply IH; [done|]. by intros q [= <-].
  - intros q Hq. specialize (Hp q Hq). by apply Forall_cons in Hp as [? _].
Qed.

(** The rows of a map are read back. *)
Lemma btree_rows_out {X} (row : option K -> X -> res DecoderError (K * V)) items m :
  Forall2 (fun x kv => forall p, (forall q, p = Some q -> klt kle q kv.1 = true) -> row p x = Ok kv) items (btree_list kle m) ->
  decode_rows row None items ∅ = Ok m.
Proof.
  intros HF. rewrite (rows_out row items (btree_list kle m)); [by rewrite inserted_btree|done|apply btree_list_strict|done].
Qed.

Lemma ascending_out p (k : K) msg : (forall q, p = Some q -> klt kle q k = true) -> ascending kle p k msg = Ok tt.
Proof.
  unfold ascending, refuse, guard_err, klt. destruct p as [q|]; [|done]. intros Hq. specialize (Hq q eq_refl).
  by destruct (kle k q).
Qed.
End btree_laws.

Lemma rows_ok {X K V} `{Countable K} (row : option K -> X -> res DecoderError (K * V)) (P : K -> V -> Prop) items :
  (forall p x kv, x ∈ items -> row p x = Ok kv -> P kv.1 kv.2) ->
  forall prev m m', map_Forall P m -> decode_rows row prev items m = Ok m' -> map_Forall P m'.
Proof.
  induction items as [|x items IH]; intros HP prev m m' Hm; cbn; [by intros [= <-]|].
  destruct (row prev x) as [kv|e|] eqn:Hr; try done. cbn. intros Hd. eapply IH; [| |exact Hd].
  - intros p y kv' Hy. apply HP. by apply elem_of_cons; right.
  - apply map_Forall_insert_2; [|done]. eapply HP; [|exact Hr]. by apply elem_of_cons; left.
Qed.

(** ** The contract of a type

    [Codec enc dec ok]: a value that is [ok] is read back from its encoding,
    and what any bytes decode to is [ok]. *)

Section codecs.
Context {RC : RlpCrate} {RV : RlpView} {RL : RlpViewLaws} {RM : RlpMore} {RML : RlpMoreLaws}.

Class Codec {A} (enc : A -> item) (dec : Dec A) (ok : A -> Prop) : Prop := {
  codec_rt : forall a, ok a -> item_ok (enc a) -> dec (crate_out (enc a)) = Ok a;
  codec_ok : forall b a, Forall byte b -> dec b = Ok a -> ok a }.

Lemma refuse_Ok b msg u : refuse b msg = Ok u <-> b = false.
Proof. unfold refuse, guard_err. destruct u. by destruct b. Qed.

Lemma child_ok l i x : item_ok (Lst l) -> l !! i = Some x -> item_ok x.
Proof. intros Hok Hi. eapply item_ok_child; [exact Hok|]. apply list_elem_of_In. by eapply list_elem_of_lookup_2. Qed.

Lemma field_out {A} enc dec (ok : A -> Prop) {C : Codec enc dec ok} l i a :
  item_ok (Lst l) -> l !! i = Some (enc a) -> ok a -> field dec i (crate_out (Lst l)) = Ok a.
Proof.
  intros Hok Hi Ha. unfold field, sub_at. rewrite (nth_out _ _ _ Hok Hi). cbn. apply codec_rt; [done|]. by eapply child_ok.
Qed.
Lemma sub_out l i x : item_ok (Lst l) -> l !! i = Some x -> sub_at i (crate_out (Lst l)) = Ok (crate_out x).
Proof. intros Hok Hi. unfold sub_at. by rewrite (nth_out _ _ _ Hok Hi). Qed.
Lemma sub_at_ok i b x : Forall byte b -> sub_at i b = Ok x -> Forall byte x.
Proof.
  intros Hb. unfold sub_at, ok_or. destruct (rlp_nth b i) as [y|] eqn:E; [|done]. intros [= <-]. by eapply nth_bytes.
Qed.
Lemma field_ok {A} enc dec (ok : A -> Prop) {C : Codec enc dec ok} i b a :
  Forall byte b -> field dec i b = Ok a -> ok a.
Proof.
  intros Hb. unfold field. rewrite res_bind_Ok. intros (x & Hx & Ha). eapply codec_ok; [|exact Ha]. by eapply sub_at_ok.
Qed.
Lemma count_out l : item_ok (Lst l) -> count (crate_out (Lst l)) = Ok (zlen l).
Proof. intros Hok. unfold count. by rewrite item_count_out. Qed.
Lemma expect_count_out l n : item_ok (Lst l) -> zlen l = n -> expect_count n (crate_out (Lst l)) = Ok tt.
Proof. intros Hok <-. unfold expect_count. rewrite count_out by done. cbn. unfold guard_err. by rewrite Z.eqb_refl. Qed.

(** ** The crate's own types *)

#[export] Instance uint_codec w : w <= 64 -> Codec uint_item (uint_val w) (in_range w).
Proof.
  intros Hw. split.
  - intros n Hn Hok. unfold uint_val, uint_item. by rewrite uint_out.
  - intros b n _. unfold uint_val, ok_or. destruct (rlp_uint w b) as [k|] eqn:E; [|done]. intros [= <-]. by eapply uint_range.
Qed.
#[export] Instance bool_codec : Codec bool_item bool_val (fun _ => True).
Proof. split; [|done]. intros b _ Hok. unfold bool_val, bool_item. by rewrite bool_out. Qed.
#[export] Instance bytes_codec : Codec Str bytes_val (fun d => Forall byte d).
Proof.
  split.
  - intros d _ Hok. unfold bytes_val. by rewrite data_out.
  - intros b d Hb. unfold bytes_val, ok_or. destruct (rlp_data b) as [k|] eqn:E; [|done]. intros [= <-]. by eapply data_bytes.
Qed.

Definition string_ok (s : bytes) : Prop := Forall byte s /\ utf8_ok s = true.
#[export] Instance string_codec : Codec Str string_val string_ok.
Proof.
  split.
  - intros d [Hb Hu] Hok. unfold string_val. rewrite codec_rt by done. cbn. by rewrite Hu.
  - intros b d Hb. unfold string_val. rewrite res_bind_Ok. intros (x & Hx & Hd). apply codec_ok in Hx; [|done].
    destruct (utf8_ok x) eqn:Hu; [|done]. cbn in Hd. by injection Hd as <-.
Qed.

Definition fixed_ok (n : Z) (d : bytes) : Prop := Forall byte d /\ zlen d = n.
#[export] Instance fixed_codec n msg : Codec Str (fixed_val n msg) (fixed_ok n).
Proof.
  split.
  - intros d [Hb Hn] Hok. unfold fixed_val. rewrite codec_rt by done. cbn. by rewrite Hn, Z.eqb_refl.
  - intros b d Hb. unfold fixed_val. rewrite res_bind_Ok. intros (x & Hx & Hd). apply codec_ok in Hx; [|done].
    destruct (Z.eqb_spec (zlen x) n); [|done]. cbn in Hd. by injection Hd as <-.
Qed.
#[export] Instance address_codec : Codec Str decode_address (fixed_ok 20) := fixed_codec 20 _.
#[export] Instance h256_codec : Codec Str decode_h256 (fixed_ok 32) := fixed_codec 32 _.
#[export] Instance u128_codec : Codec u128_item decode_u128 (in_range 128).
Proof.
  split.
  - intros n Hn Hok. unfold decode_u128, u128_item. rewrite codec_rt; [|split; [apply to_be_bytes|unfold zlen; by rewrite length_to_be]|done].
    cbn [mbind res_bind]. rewrite be_val_to_be. f_equal. by apply Z.mod_small.
  - intros b n Hb. unfold decode_u128. rewrite res_bind_Ok. intros (d & Hd & [= <-]). apply codec_ok in Hd as [Hbd Hl]; [|done].
    pose proof (be_val_bound d Hbd) as Hv. rewrite Hl in Hv. done.
Qed.
(** ** Discriminants, maps, sets and vectors *)

Lemma tag_codec {T} (tag : T -> Z) from :
  (forall t, in_range 8 (tag t)) -> (forall t, from (tag t) = Ok t) ->
  Codec (fun t => uint_item (tag t)) (tag_val from) (fun _ => True).
Proof.
  intros Hr Hf. split; [|done]. intros t _ Hok. unfold tag_val. rewrite (codec_rt (Codec := uint_codec 8 ltac:(lia))) by done.
  apply Hf.
Qed.

Lemma item_ok_elem {A} (f : A -> item) l : item_ok (Lst (map f l)) -> Forall (fun a => item_ok (f a)) l.
Proof.
  intros Hok. apply list.Forall_forall. intros a Ha. eapply item_ok_child; [exact Hok|]. apply in_map. by apply list_elem_of_In.
Qed.
Lemma elem_read {A} (f : A -> item) l : item_ok (Lst (map f l)) ->
  rlp_iter (crate_out (Lst (map f l))) = map (fun a => crate_out (f a)) l.
Proof. intros Hok. by rewrite iter_out, map_map. Qed.
Lemma elem_at {A} (f : A -> item) l i a : item_ok (Lst (map f l)) -> l !! i = Some a ->
  sub_at i (crate_out (Lst (map f l))) = Ok (crate_out (f a)).
Proof. intros Hok Hi. apply sub_out; [done|]. by rewrite list_lookup_fmap, Hi. Qed.
Lemma count_map {A} (f : A -> item) l : item_ok (Lst (map f l)) ->
  count (crate_out (Lst (map f l))) = Ok (Z.of_nat (length l)).
Proof. intros Hok. rewrite count_out by done. unfold zlen. by rewrite length_map. Qed.

Lemma Forall2_seq {A} (P : nat -> A -> Prop) l : (forall i a, l !! i = Some a -> P i a) -> Forall2 P (seq 0 (length l)) l.
Proof.
  intros HP. apply Forall2_same_length_lookup_2; [by rewrite length_seq|]. intros i j a [-> _]%lookup_seq Ha. by apply HP.
Qed.

Section maps.
Context {K V : Type} `{Countable K} (kle : K -> K -> bool) {KO : KeyOrder kle} (row_rlp : K * V -> item) (P : K -> V -> Prop).
Definition map_rlp (m : gmap K V) : item := Lst (map row_rlp (btree_list kle m)).

Lemma map_entries m : map_Forall P m -> item_ok (map_rlp m) ->
  Forall (fun kv => P kv.1 kv.2 /\ item_ok (row_rlp kv)) (btree_list kle m).
Proof.
  intros Hm Hok. apply item_ok_elem in Hok. rewrite list.Forall_forall in Hok |- *. intros [k v] Hkv. split; [|by apply Hok].
  apply Hm. by apply (btree_list_elem kle).
Qed.

Lemma rows_codec row :
  (forall p k v, P k v -> (forall q, p = Some q -> klt kle q k = true) -> item_ok (row_rlp (k, v)) ->
     row p (crate_out (row_rlp (k, v))) = Ok (k, v)) ->
  (forall p b kv, Forall byte b -> row p b = Ok kv -> P kv.1 kv.2) ->
  Codec map_rlp (rows_val row) (map_Forall P).
Proof.
  intros Hout Hinv. split.
  - intros m Hm Hok. pose proof (map_entries m Hm Hok) as Hes. unfold rows_val, map_rlp. rewrite elem_read by done.
    apply (btree_rows_out kle). apply Forall2_fmap_l, Forall_Forall2_diag. eapply Forall_impl; [exact Hes|].
    intros [k v] [Hkv Hi] p Hp. by apply Hout.
  - intros b m Hb Hm. eapply (rows_ok row P); [| |exact Hm]; [|apply map_Forall_empty]. intros p x kv Hx Hr. eapply Hinv; [|exact Hr].
    pose proof (iter_bytes b Hb) as Hi. rewrite list.Forall_forall in Hi. by apply Hi.
Qed.

Lemma indexed_codec row :
  (forall k v, P k v -> item_ok (row_rlp (k, v)) -> row (crate_out (row_rlp (k, v))) = Ok (k, v)) ->
  (forall b kv, Forall byte b -> row b = Ok kv -> P kv.1 kv.2) ->
  Codec map_rlp (indexed_val row) (map_Forall P).
Proof.
  intros Hout Hinv. split.
  - intros m Hm Hok. pose proof (map_entries m Hm Hok) as Hes. unfold indexed_val, map_rlp. rewrite count_map by done.
    cbn [mbind res_bind]. rewrite Nat2Z.id. apply (btree_rows_out kle). apply Forall2_seq. intros i [k v] Hi p _.
    rewrite (elem_at _ _ _ _ Hok Hi). cbn [mbind res_bind]. rewrite list.Forall_forall in Hes.
    destruct (Hes (k, v)) as [Hkv Hit]; [by eapply list_elem_of_lookup_2|]. by apply Hout.
  - intros b m Hb Hm. unfold indexed_val in Hm. apply res_bind_Ok in Hm as (n & _ & Hm).
    eapply (rows_ok _ P); [| |exact Hm]; [|apply map_Forall_empty]. intros p i kv _ Hr.
    apply res_bind_Ok in Hr as (x & Hx & Hr). eapply Hinv; [|exact Hr]. by eapply sub_at_ok.
Qed.
End maps.

Section sets.
Context {K : Type} `{Countable K} (kle : K -> K -> bool) {KO : KeyOrder kle} (key_rlp : K -> item) (P : K -> Prop).
Definition set_rlp (s : gset K) : item := Lst (map key_rlp (set_list kle s)).

Lemma set_list_elem (s : gset K) k : k ∈ set_list kle s <-> k ∈ s.
Proof. unfold set_list. by rewrite sort_by_perm, elem_of_elements. Qed.
Lemma set_list_strict (s : gset K) : StronglySorted (fun x y => klt kle x y = true) (set_list kle s).
Proof.
  assert (StronglySorted (fun x y => kle x y = true) (set_list kle s)) as Hs by (apply sort_by_sorted; apply KO).
  assert (NoDup (set_list kle s)) as Hnd by (unfold set_list; rewrite sort_by_perm; apply NoDup_elements).
  induction Hs as [|x l Hl IH Hx]; [constructor|]. apply list.NoDup_cons in Hnd as [Hn Hnd]. constructor; [by apply IH|].
  rewrite list.Forall_forall in Hx |- *. intros y Hy. unfold klt. destruct (kle y x) eqn:E; [|done].
  exfalso. apply Hn. by rewrite (ko_antisym x y) by (done || by apply Hx).
Qed.

Lemma keys_out {X} (key : option K -> X -> res DecoderError K) items l : forall prev (s : gset K),
  Forall2 (fun x k => forall p, (forall q, p = Some q -> klt kle q k = true) -> key p x = Ok k) items l ->
  StronglySorted (fun x y => klt kle x y = true) l -> (forall q, prev = Some q -> Forall (fun k => klt kle q k = true) l) ->
  decode_keys key prev items s = Ok (list_to_set l ∪ s).
Proof.
  intros prev s HF. revert prev s. induction HF as [|x k items l Hx _ IH]; intros prev s Hs Hp.
  { cbn. by rewrite (left_id_L ∅ (∪)). }
  apply StronglySorted_inv in Hs as [Hs Hk]. cbn [decode_keys]. rewrite Hx.
  - cbn [mbind res_bind]. rewrite IH; [|done|by intros q [= <-]]. f_equal. cbn [list_to_set]. set_solver.
  - intros q Hq. specialize (Hp q Hq). by apply Forall_cons in Hp as [? _].
Qed.

Lemma keys_ok {X} (key : option K -> X -> res DecoderError K) items :
  (forall p x k, x ∈ items -> key p x = Ok k -> P k) ->
  forall prev (s s' : gset K), set_Forall P s -> decode_keys key prev items s = Ok s' -> set_Forall P s'.
Proof.
  induction items as [|x items IH]; intros HP prev s s' Hs; cbn; [by intros [= <-]|].
  rewrite res_bind_Ok. intros (k & Hr & Hd). eapply IH; [| |exact Hd].
  - intros p y k' Hy. apply HP. by apply elem_of_cons; right.
  - intros j [->%elem_of_singleton|Hj]%elem_of_union; [|by apply Hs]. eapply HP; [|exact Hr]. by apply elem_of_cons; left.
Qed.

Lemma keys_codec key :
  (forall p k, P k -> (forall q, p = Some q -> klt kle q k = true) -> item_ok (key_rlp k) -> key p (crate_out (key_rlp k)) = Ok k) ->
  (forall p b k, Forall byte b -> key p b = Ok k -> P k) ->
  Codec set_rlp (keys_val key) (set_Forall P).
Proof.
  intros Hout Hinv. split.
  - intros s Hs Hok. unfold keys_val, set_rlp in *. rewrite elem_read by done. apply item_ok_elem in Hok.
    rewrite (keys_out _ _ (set_list kle s)); [|apply Forall2_fmap_l, Forall_Forall2_diag|apply set_list_strict|done].
    { rewrite (right_id_L ∅ (∪)). f_equal. apply set_eq. intros k. by rewrite elem_of_list_to_set, set_list_elem. }
    rewrite list.Forall_forall in Hok |- *. intros k Hk p Hp. apply Hout; [by apply Hs, set_list_elem|done|by apply Hok].
  - intros b s Hb Hs. eapply (keys_ok key); [| |exact Hs]; [|by intros k ?%elem_of_empty]. intros p x k Hx Hr. eapply Hinv; [|exact Hr].
    pose proof (iter_bytes b Hb) as Hi. rewrite list.Forall_forall in Hi. by apply Hi.
Qed.

Lemma indexed_keys_codec key :
  (forall k, P k -> item_ok (key_rlp k) -> key (crate_out (key_rlp k)) = Ok k) ->
  (forall b k, Forall byte b -> key b = Ok k -> P k) ->
  Codec set_rlp (indexed_keys key) (set_Forall P).
Proof.
  intros Hout Hinv. split.
  - intros s Hs Hok. unfold indexed_keys, set_rlp in *. rewrite count_map by done. cbn [mbind res_bind]. rewrite Nat2Z.id.
    rewrite (keys_out _ _ (set_list kle s)); [|apply Forall2_seq|apply set_list_strict|done].
    { rewrite (right_id_L ∅ (∪)). f_equal. apply set_eq. intros k. by rewrite elem_of_list_to_set, set_list_elem. }
    intros i k Hi p _. rewrite (elem_at _ _ _ _ Hok Hi). cbn [mbind res_bind]. apply item_ok_elem in Hok. rewrite list.Forall_forall in Hok.
    assert (k ∈ set_list kle s) as Hk by (by eapply list_elem_of_lookup_2). apply Hout; [by apply Hs, set_list_elem|by apply Hok].
  - intros b s Hb Hs. unfold indexed_keys in Hs. apply res_bind_Ok in Hs as (n & _ & Hs).
    eapply (keys_ok _); [| |exact Hs]; [|by intros k ?%elem_of_empty]. intros p i k _ Hr.
    apply res_bind_Ok in Hr as (x & Hx & Hr). eapply Hinv; [|exact Hr]. by eapply sub_at_ok.
Qed.
End sets.

Lemma vec_codec {A} enc dec (ok : A -> Prop) {C : Codec enc dec ok} :
  Codec (fun l => Lst (map enc l)) (vec_val dec) (Forall ok).
Proof.
  split.
  - intros l Hl Hok. unfold vec_val. rewrite count_map by done. cbn [mbind res_bind]. rewrite Nat2Z.id.
    assert (forall n k, (k + n = length l)%nat -> decode_vec dec (crate_out (Lst (map enc l))) (seq k n) = Ok (drop k l)) as Hd.
    { induction n as [|n IH]; intros k Hk; cbn [seq decode_vec].
      - by rewrite drop_ge by lia.
      - destruct (lookup_lt_is_Some_2 l k) as [a Ha]; [lia|]. rewrite (drop_S l a k Ha).
        rewrite (field_out enc dec ok (map enc l) k a Hok); [|by rewrite list_lookup_fmap, Ha|by eapply Forall_lookup_1].
        cbn [mbind res_bind]. by rewrite IH by lia. }
    rewrite Hd by lia. done.
  - intros b l Hb H. unfold vec_val in H. apply res_bind_Ok in H as (n & _ & H). revert l H. generalize (seq 0 (Z.to_nat n)).
    induction l as [|i ixs IH]; intros l H; cbn [decode_vec] in H; [by injection H as <-|].
    apply res_bind_Ok in H as (a & Ha & H). apply res_bind_Ok in H as (l' & Hl' & [= <-]). constructor; [by eapply field_ok|by apply IH].
Qed.
End codecs.
#[export] Hint Extern 1 (_ <= 64) => lia : typeclass_instances.

(** Reading the fields of a list that was written, and what a successful
    decoding says of each field. *)
Ltac read_out Hok :=
  repeat (lazymatch goal with
  | |- ((_ ≫= _) ≫= _) = _ => rewrite bind_bind
  | |- (expect_count ?n (crate_out (Lst ?l)) ≫= _) = _ => rewrite (expect_count_out l n Hok) by reflexivity
  | |- (count (crate_out (Lst ?l)) ≫= _) = _ => rewrite (count_out l Hok)
  | |- (field ?dec ?i (crate_out (Lst ?l)) ≫= _) = _ =>
    let H := fresh "Hf" in
    epose proof (field_out _ dec _ l i _ Hok eq_refl) as H; rewrite H; [clear H|clear H; try done]
  | |- (sub_at ?i (crate_out (Lst ?l)) ≫= _) = _ => rewrite (sub_out l i _ Hok eq_refl)
  end; cbn [mbind res_bind]).
Ltac read_ok Hb H :=
  repeat (lazymatch type of H with
  | (expect_count _ _ ≫= _) = Ok _ => apply res_bind_Ok in H as (? & _ & H)
  | (field ?dec ?i ?b ≫= _) = Ok _ =>
    let Hf := fresh "Hf" in apply res_bind_Ok in H as (? & Hf & H); eapply (field_ok _ dec _ i b _ Hb) in Hf
  | (_ ≫= _) = Ok _ => let Hg := fresh "Hg" in apply res_bind_Ok in H as (? & Hg & H)
  | Ok _ = Ok _ => injection H as <-
  end; cbn beta in H).
(** Conditions on the lengths of lists and on discriminants that are known. *)
Ltac decide_cond b :=
  lazymatch b with
  | true => fail | false => fail
  | _ => let v := eval vm_compute in b in match v with true => idtac | false => idtac end; change b with v
  end.
Ltac decide_guards :=
  repeat match goal with
  | |- context [guard_err ?b _] => decide_cond b
  | |- context [if ?b then _ else _] => decide_cond b
  end; cbn [guard_err mbind res_bind].
