(* ===== verification/ExecTypes.v ===== *)
(** * Execution types (crates/zbx-types/src/execution.rs)

    The limits of blocks and transactions, the gas meter of a transaction, the
    deterministic clock and context of a block, the gas of a block, and their
    wire formats. *)

From Stdlib Require Import ZArith Lia String Sorting.Sorted.
From stdpp Require Import base tactics list gmap countable numbers option strings fin_maps.
From S2P Require Import Prelude Bytes Crypto Collections Rlp Transaction RlpTypes.

Local Open Scope Z_scope.

(** ** Limits *)

Record ExecutionLimits : Type := mkLimits {
  max_block_gas : Z; max_tx_gas : Z; max_block_size : Z; max_tx_size : Z;
  max_call_depth : Z; max_logs_per_tx : Z; max_log_size : Z }.

Definition limits_mainnet : ExecutionLimits := mkLimits 30000000 15000000 (2 * 1024 * 1024) (128 * 1024) 1024 256 (64 * 1024).
Definition limits_testnet : ExecutionLimits := mkLimits 60000000 30000000 (4 * 1024 * 1024) (256 * 1024) 1024 512 (128 * 1024).

Definition limits_validate (s : ExecutionLimits) : res DecoderError unit :=
  _ ← refuse (max_block_gas s =? 0) "max_block_gas must be > 0";
  _ ← refuse (max_tx_gas s =? 0) "max_tx_gas must be > 0";
  _ ← refuse (max_block_gas s <? max_tx_gas s) "max_tx_gas must not exceed max_block_gas";
  _ ← refuse (max_block_size s =? 0) "max_block_size must be > 0";
  _ ← refuse (max_tx_size s =? 0) "max_tx_size must be > 0";
  _ ← refuse (max_block_size s <? max_tx_size s) "max_tx_size must not exceed max_block_size";
  refuse (max_call_depth s =? 0) "max_call_depth must be > 0".

(** [Self { .. }] and its [validate]. *)
Definition validated {A} (validate : A -> res DecoderError unit) (a : A) : res DecoderError A :=
  _ ← validate a; Ok a.

Definition limits_new (bg tg bs ts cd lt ls : Z) : res DecoderError ExecutionLimits :=
  validated limits_validate (mkLimits bg tg bs ts cd lt ls).

Section limits.
Context `{RC : RlpCrate} `{RV : RlpView}.

Definition limits_rlp (s : ExecutionLimits) : item :=
  Lst [uint_item (max_block_gas s); uint_item (max_tx_gas s); uint_item (max_block_size s); uint_item (max_tx_size s);
       uint_item (max_call_depth s); uint_item (max_logs_per_tx s); uint_item (max_log_size s)].

Definition limits_decode : Dec ExecutionLimits := fun rlp =>
  _ ← expect_count 7 rlp;
  bg ← field (uint_val 64) 0 rlp; tg ← field (uint_val 64) 1 rlp;
  bs ← field (uint_val 32) 2 rlp; ts ← field (uint_val 32) 3 rlp;
  cd ← field (uint_val 16) 4 rlp; lt ← field (uint_val 32) 5 rlp; ls ← field (uint_val 32) 6 rlp;
  validated limits_validate (mkLimits bg tg bs ts cd lt ls).
End limits.

Definition limits_ok (s : ExecutionLimits) : Prop :=
  in_range 64 (max_block_gas s) /\ in_range 64 (max_tx_gas s) /\ in_range 32 (max_block_size s) /\
  in_range 32 (max_tx_size s) /\ in_range 16 (max_call_depth s) /\ in_range 32 (max_logs_per_tx s) /\
  in_range 32 (max_log_size s) /\ limits_validate s = Ok tt.

(** ** The gas meter *)

Inductive GasError : Type :=
| OutOfGas (requested remaining : Z)
| RefundExceedsUsed (requested used : Z)
| NoSnapshot.

Record GasMeter : Type := mkMeter {
  initial : Z; remaining : Z; used : Z; refund : Z; snapshots : list (Z * Z * Z) }.

Definition meter_new (gas_limit : Z) : GasMeter := mkMeter gas_limit gas_limit 0 0 [].

Definition billed (m : GasMeter) : Z :=
  let cap := used m / 5 in sat 64 (used m - Z.min (refund m) cap).

Abbreviation GM := (M GasMeter GasError).

Definition consume (cost : Z) : GM unit :=
  m ← get_st;
  _ ← throw_if (remaining m <? cost) (OutOfGas cost (remaining m));
  put_st (mkMeter (initial m) (remaining m - cost) (u64 (used m + cost)) (refund m) (snapshots m)).

Definition add_refund (amount : Z) : GM unit :=
  m ← get_st;
  let new_total := sat 64 (refund m + amount) in
  _ ← throw_if (used m <? new_total) (RefundExceedsUsed new_total (used m));
  put_st (mkMeter (initial m) (remaining m) (used m) new_total (snapshots m)).

(** The stack of snapshots has its top at the head. *)
Definition snapshot : GM unit :=
  modify (fun m => mkMeter (initial m) (remaining m) (used m) (refund m) ((remaining m, used m, refund m) :: snapshots m)).

Definition restore : GM unit :=
  m ← get_st;
  match snapshots m with
  | [] => throw NoSnapshot
  | (r, u, rf) :: rest => put_st (mkMeter (initial m) r u rf rest)
  end.

Definition commit : GM unit :=
  m ← get_st;
  match snapshots m with
  | [] => throw NoSnapshot
  | _ :: rest => put_st (mkMeter (initial m) (remaining m) (used m) (refund m) rest)
  end.

Definition depth (m : GasMeter) : Z := zlen (snapshots m).

Section meter.
Context `{RC : RlpCrate} `{RV : RlpView}.

(** Snapshots are not written. *)
Definition meter_rlp (m : GasMeter) : item :=
  Lst [uint_item (initial m); uint_item (remaining m); uint_item (used m); uint_item (refund m)].

Definition meter_decode : Dec GasMeter := fun rlp =>
  _ ← expect_count 4 rlp;
  i ← field (uint_val 64) 0 rlp; r ← field (uint_val 64) 1 rlp;
  u ← field (uint_val 64) 2 rlp; rf ← field (uint_val 64) 3 rlp;
  _ ← refuse (i <? r) "remaining exceeds initial";
  _ ← refuse (i <? u) "used exceeds initial";
  _ ← refuse (negb (u64 (r + u) =? i)) "remaining + used must equal initial";
  _ ← refuse (u <? rf) "refund exceeds used";
  Ok (mkMeter i r u rf []).
End meter.

(** ** Clock and context *)

Record DeterministicClock : Type := mkClock { block_timestamp_ms : Z; block_number : Z }.

Definition clock_validate (c : DeterministicClock) : res DecoderError unit :=
  _ ← refuse (block_number c =? 0) "block_number must be > 0";
  refuse (block_timestamp_ms c =? 0) "block_timestamp_ms must be > 0".
Definition clock_new (number timestamp : Z) : res DecoderError DeterministicClock :=
  validated clock_validate (mkClock timestamp number).
Definition ensure_monotone_strict (c next : DeterministicClock) : res DecoderError unit :=
  _ ← refuse (block_number next <=? block_number c) "block_number must strictly increase";
  refuse (block_timestamp_ms next <=? block_timestamp_ms c) "block_timestamp_ms must strictly increase".

Record ExecutionContext : Type := mkContext {
  chain_id : Z; ctx_block_number : Z; ctx_block_timestamp_ms : Z; proposer : Address;
  block_gas_limit : Z; randomness_seed : Hash; limits : ExecutionLimits }.

Definition context_validate (c : ExecutionContext) : res DecoderError unit :=
  _ ← refuse (chain_id c =? 0) "chain_id must be > 0";
  _ ← refuse (ctx_block_number c =? 0) "block_number must be > 0";
  _ ← refuse (ctx_block_timestamp_ms c =? 0) "block_timestamp_ms must be > 0";
  _ ← refuse (block_gas_limit c =? 0) "block_gas_limit must be > 0";
  _ ← refuse (max_block_gas (limits c) <? block_gas_limit c) "block_gas_limit exceeds limits.max_block_gas";
  limits_validate (limits c).
Definition context_new (id bn ts : Z) (p : Address) (bgl : Z) (seed : Hash) (l : ExecutionLimits)
    : res DecoderError ExecutionContext := validated context_validate (mkContext id bn ts p bgl seed l).
Definition clock (c : ExecutionContext) : DeterministicClock := mkClock (ctx_block_timestamp_ms c) (ctx_block_number c).

Section context.
Context `{RC : RlpCrate} `{RV : RlpView}.

Definition clock_rlp (c : DeterministicClock) : item := Lst [uint_item (block_number c); uint_item (block_timestamp_ms c)].
Definition clock_decode : Dec DeterministicClock := fun rlp =>
  _ ← expect_count 2 rlp;
  n ← field (uint_val 64) 0 rlp; ts ← field (uint_val 64) 1 rlp;
  validated clock_validate (mkClock ts n).

Definition context_rlp (c : ExecutionContext) : item :=
  Lst [uint_item (chain_id c); uint_item (ctx_block_number c); uint_item (ctx_block_timestamp_ms c); Str (proposer c);
       uint_item (block_gas_limit c); Str (randomness_seed c); limits_rlp (limits c)].
Definition context_decode : Dec ExecutionContext := fun rlp =>
  _ ← expect_count 7 rlp;
  id ← field (uint_val 64) 0 rlp; bn ← field (uint_val 64) 1 rlp; ts ← field (uint_val 64) 2 rlp;
  p ← field decode_address 3 rlp; bgl ← field (uint_val 64) 4 rlp;
  seed ← field (fixed_val 32 "randomness_seed must be 32 bytes") 5 rlp;
  l ← field limits_decode 6 rlp;
  validated context_validate (mkContext id bn ts p bgl seed l).
End context.

(** ** The gas of a block *)

Record BlockGasTracker : Type := mkTracker { limit : Z; total_gas_used : Z; per_tx : gmap Z Z }.

Definition tracker_new (l : Z) : BlockGasTracker := mkTracker l 0 ∅.
Definition tracker_remaining (t : BlockGasTracker) : Z := sat 64 (limit t - total_gas_used t).

Definition record (tx_index gas_billed : Z) : M BlockGasTracker GasError unit :=
  t ← get_st;
  _ ← throw_if (bool_decide (is_Some (per_tx t !! tx_index))) (OutOfGas gas_billed 0);
  let new_total := sat 64 (total_gas_used t + gas_billed) in
  _ ← throw_if (limit t <? new_total) (OutOfGas gas_billed (tracker_remaining t));
  put_st (mkTracker (limit t) new_total (<[tx_index := gas_billed]> (per_tx t))).

Section tracker.
Context `{RC : RlpCrate} `{RV : RlpView} `{RM : RlpMore}.

Definition tracker_row_rlp (x : Z * Z) : item := Lst [uint_item x.1; uint_item x.2].
Definition tracker_rlp (t : BlockGasTracker) : item :=
  Lst [uint_item (limit t); uint_item (total_gas_used t); Lst (map tracker_row_rlp (z_list (per_tx t)))].

(** A row of the loop; its gas is added to the sum. *)
Definition tracker_row (prev : option Z) (it : bytes) : res DecoderError (Z * Z) :=
  _ ← expect_count 2 it;
  idx ← field (uint_val 32) 0 it; gas ← field (uint_val 64) 1 it;
  _ ← ascending Z.leb prev idx "per_tx must be strictly monotone by tx_index";
  Ok (idx, gas).

Fixpoint tracker_rows (prev : option Z) (sum : Z) (items : list bytes) (m : gmap Z Z) : res DecoderError (Z * gmap Z Z) :=
  match items with
  | [] => Ok (sum, m)
  | it :: items => kv ← tracker_row prev it; tracker_rows (Some kv.1) (sat 64 (sum + kv.2)) items (<[kv.1 := kv.2]> m)
  end.

Definition tracker_decode : Dec BlockGasTracker := fun rlp =>
  _ ← expect_count 3 rlp;
  l ← field (uint_val 64) 0 rlp; total ← field (uint_val 64) 1 rlp;
  rows ← sub_at 2 rlp;
  sm ← tracker_rows None 0 (rlp_iter rows) ∅;
  _ ← refuse (negb (sm.1 =? total)) "per_tx sum must equal total_gas_used";
  _ ← refuse (l <? total) "total_gas_used exceeds block_gas_limit";
  Ok (mkTracker l total sm.2).
End tracker.

(** ** The wire formats *)

Lemma validated_Ok {A} (validate : A -> res DecoderError unit) a b :
  validated validate a = Ok b <-> validate a = Ok tt /\ b = a.
Proof.
  unfold validated. rewrite res_bind_Ok. split.
  - intros ([] & Hv & [= <-]). done.
  - intros [Hv ->]. by exists tt.
Qed.

Section codecs.
Context {RC : RlpCrate} {RV : RlpView} {RL : RlpViewLaws} {RM : RlpMore} {RML : RlpMoreLaws}.

#[export] Instance limits_codec : Codec limits_rlp limits_decode limits_ok.
Proof.
  split.
  - intros s (H1 & H2 & H3 & H4 & H5 & H6 & H7 & Hv) Hok. unfold limits_decode, limits_rlp in *.
    read_out Hok. apply validated_Ok. by destruct s.
  - intros b s Hb H. unfold limits_decode in H. read_ok Hb H. apply validated_Ok in H as [Hv ->]. by split_and!.
Qed.

Definition meter_ok (m : GasMeter) : Prop :=
  in_range 64 (initial m) /\ in_range 64 (remaining m) /\ in_range 64 (used m) /\
  remaining m + used m = initial m /\ 0 <= refund m <= used m.

#[export] Instance meter_codec : Codec meter_rlp meter_decode (fun m => meter_ok m /\ snapshots m = []).
Proof.
  split.
  - intros m [(Hi & Hr & Hu & Hs & Hf) Hn] Hok. unfold meter_decode, meter_rlp in *. read_out Hok.
    2: { unfold in_range in *. lia. }
    unfold in_range in *. destruct m as [i r u rf sn]. cbn in *. subst sn.
    rewrite wrap_small by (unfold in_range; lia).
    unfold refuse, guard_err. destruct (Z.ltb_spec i r), (Z.ltb_spec i u), (Z.ltb_spec u rf), (Z.eqb_spec (r + u) i); cbn; done || lia.
  - intros b m Hb H. unfold meter_decode in H. read_ok Hb H.
    repeat match goal with H : refuse _ _ = Ok _ |- _ => apply refuse_Ok in H end.
    rewrite ?Z.ltb_ge in *. unfold meter_ok, in_range in *. cbn.
    match goal with H : negb _ = false |- _ => apply negb_false_iff, Z.eqb_eq in H; unfold wrap in H end.
    split; [|done]. split_and!; try lia.
    match goal with H : ?a mod _ = _ |- _ => pose proof (Z.div_mod a (2 ^ 64) ltac:(lia)); pose proof (Z.mod_pos_bound a (2 ^ 64) ltac:(lia)) end.
    nia.
Qed.

Definition clock_ok (c : DeterministicClock) : Prop :=
  in_range 64 (block_number c) /\ in_range 64 (block_timestamp_ms c) /\ clock_validate c = Ok tt.
#[export] Instance clock_codec : Codec clock_rlp clock_decode clock_ok.
Proof.
  split.
  - intros c (H1 & H2 & Hv) Hok. unfold clock_decode, clock_rlp in *. read_out Hok. apply validated_Ok. by destruct c.
  - intros b c Hb H. unfold clock_decode in H. read_ok Hb H. apply validated_Ok in H as [Hv ->]. by split_and!.
Qed.

Definition context_ok (c : ExecutionContext) : Prop :=
  in_range 64 (chain_id c) /\ in_range 64 (ctx_block_number c) /\ in_range 64 (ctx_block_timestamp_ms c) /\
  fixed_ok 20 (proposer c) /\ in_range 64 (block_gas_limit c) /\ fixed_ok 32 (randomness_seed c) /\
  limits_ok (limits c) /\ context_validate c = Ok tt.
#[export] Instance context_codec : Codec context_rlp context_decode context_ok.
Proof.
  split.
  - intros c (H1 & H2 & H3 & H4 & H5 & H6 & H7 & Hv) Hok. unfold context_decode, context_rlp in *. read_out Hok.
    apply validated_Ok. by destruct c.
  - intros b c Hb H. unfold context_decode in H. read_ok Hb H. apply validated_Ok in H as [Hv ->]. by split_and!.
Qed.
End codecs.

(** ** The rows of the tracker *)

Lemma sat_sum_min s x : 0 <= x -> sat 64 (Z.min (umax 64) s + x) = Z.min (umax 64) (s + x) \/ s < 0.
Proof. intros Hx. unfold sat, umax. destruct (Z.ltb_spec s 0); [by right|left]. lia. Qed.

Section tracker_codec.
Context {RC : RlpCrate} {RV : RlpView} {RL : RlpViewLaws} {RM : RlpMore} {RML : RlpMoreLaws}.

Definition row_ok (k v : Z) : Prop := in_range 32 k /\ in_range 64 v.
Lemma tracker_rows_nonneg m : map_Forall row_ok m -> 0 <= msum m.
Proof.
  intros Hm. apply msum_nonneg. intros k. unfold mval. destruct (m !! k) as [v|] eqn:E; cbn; [|lia].
  by destruct (Hm k v E) as [_ [? _]].
Qed.
(** The total is the sum of what was recorded, which saturates. *)
Definition tracker_ok (t : BlockGasTracker) : Prop :=
  in_range 64 (limit t) /\ map_Forall row_ok (per_tx t) /\
  total_gas_used t = Z.min (umax 64) (msum (per_tx t)) /\ total_gas_used t <= limit t.

Lemma tracker_row_out p k v : row_ok k v -> (forall q, p = Some q -> klt Z.leb q k = true) ->
  item_ok (tracker_row_rlp (k, v)) -> tracker_row p (crate_out (tracker_row_rlp (k, v))) = Ok (k, v).
Proof.
  intros [Hk Hv] Hp Hok. unfold tracker_row, tracker_row_rlp in *. read_out Hok. rewrite ascending_out by done. done.
Qed.

Lemma tracker_row_inv p b kv : Forall byte b -> tracker_row p b = Ok kv ->
  row_ok kv.1 kv.2 /\ (forall q, p = Some q -> q < kv.1).
Proof.
  intros Hb H. unfold tracker_row in H. read_ok Hb H. split; [by split|]. intros q ->.
  match goal with H : ascending _ _ _ _ = _ |- _ => apply refuse_Ok, Z.leb_gt in H; cbn; lia end.
Qed.

Lemma tracker_rows_out l : forall prev sum m, Forall (fun kv => row_ok kv.1 kv.2) l ->
  Forall item_ok (map tracker_row_rlp l) -> StronglySorted (fun x y => klt Z.leb x.1 y.1 = true) l ->
  (forall q, prev = Some q -> Forall (fun kv => klt Z.leb q kv.1 = true) l) ->
  tracker_rows prev sum (map crate_out (map tracker_row_rlp l)) m
  = Ok (foldl (fun s kv => sat 64 (s + kv.2)) sum l, foldl (fun m kv => <[kv.1 := kv.2]> m) m l).
Proof.
  induction l as [|[k v] l IH]; intros prev sum m Hl Hi Hs Hp; [done|]. cbn [map tracker_rows] in *.
  apply StronglySorted_inv in Hs as [Hs Hk]. inversion Hl as [|? ? Hkv Hl']; subst. inversion Hi as [|? ? Hit Hi']; subst.
  rewrite tracker_row_out; [|done| |done].
  - cbn. apply IH; [done..|]. by intros q [= <-].
  - intros q Hq. specialize (Hp q Hq). by inversion Hp.
Qed.

Lemma tracker_rows_inv items : forall prev sum m s' m', Forall (Forall byte) items ->
  (forall k, is_Some (m !! k) -> exists q, prev = Some q /\ k <= q) -> map_Forall row_ok m ->
  sum = Z.min (umax 64) (msum m) -> tracker_rows prev sum items m = Ok (s', m') ->
  map_Forall row_ok m' /\ s' = Z.min (umax 64) (msum m').
Proof.
  induction items as [|it items IH]; intros prev sum m s' m' Hb Hk Hm Hs; cbn; [by intros [= <- <-]|].
  inversion Hb as [|? ? Hit Hb']; subst. rewrite res_bind_Ok. intros ([k v] & Hr & H). cbn in H.
  apply tracker_row_inv in Hr as [[Hrk Hrv] Hlt]; [|done]. cbn in *.
  assert (m !! k = None) as Hn.
  { destruct (m !! k) eqn:E; [|done]. destruct (Hk k) as (q & Hq & Hle); [by eexists|]. specialize (Hlt q Hq). lia. }
  pose proof (tracker_rows_nonneg m Hm) as Hpos.
  eapply IH; [done| |by apply map_Forall_insert_2| |exact H].
  - intros k' [x Hx]. exists k. split; [done|]. apply lookup_insert_Some in Hx as [[<- _]|[_ Hx]]; [lia|].
    destruct (Hk k') as (q & Hq & Hle); [by eexists|]. specialize (Hlt q Hq). lia.
  - rewrite msum_insert. unfold mval. rewrite Hn. cbn.
    destruct (sat_sum_min (msum m) v) as [->|]; [unfold in_range in Hrv; lia| |lia]. f_equal. lia.
Qed.

Lemma sat_fold {A} (f : A -> Z) l : forall s, Forall (fun a => 0 <= f a) l -> 0 <= s ->
  foldl (fun s a => sat 64 (s + f a)) (Z.min (umax 64) s) l = Z.min (umax 64) (s + foldr (fun a acc => f a + acc) 0 l).
Proof.
  induction l as [|a l IH]; intros s Hl Hs; cbn [foldl foldr]; [f_equal; lia|]. inversion Hl; subst.
  destruct (sat_sum_min s (f a)) as [->|]; [done| |lia]. rewrite IH; [f_equal; lia|done|lia].
Qed.
Lemma entry_sum_perm (l k : list (Z * Z)) : l ≡ₚ k ->
  foldr (fun kv acc => kv.2 + acc) 0 l = foldr (fun kv acc => kv.2 + acc) 0 k.
Proof. induction 1; cbn; lia. Qed.
Lemma msum_z_list (m : gmap Z Z) : msum m = foldr (fun kv acc => kv.2 + acc) 0 (z_list m).
Proof.
  unfold msum. rewrite map_fold_foldr, (entry_sum_perm _ _ (btree_list_perm Z.leb m)). by apply foldr_ext; [intros [] ?| |].
Qed.

#[export] Instance tracker_codec : Codec tracker_rlp tracker_decode tracker_ok.
Proof.
  split.
  - intros t (Hl & Hm & Hs & Hle) Hok. unfold tracker_decode, tracker_rlp in *. pose proof (tracker_rows_nonneg _ Hm) as Hpos.
    read_out Hok. 2: { unfold in_range, umax in *. lia. }
    assert (item_ok (Lst (map tracker_row_rlp (z_list (per_tx t))))) as Hrows by (by eapply (child_ok _ 2)).
    assert (Forall (fun kv => row_ok kv.1 kv.2) (z_list (per_tx t))) as Hall.
    { apply list.Forall_forall. intros [k v] Hkv%btree_list_elem. by apply Hm. }
    rewrite (iter_out _ Hrows), tracker_rows_out; [|exact Hall| |apply btree_list_strict, _|done].
    2: { apply list.Forall_forall. intros x Hx%list_elem_of_lookup. destruct Hx as [i Hi]. by eapply child_ok. }
    cbn [mbind res_bind fst snd]. rewrite inserted_btree by apply _.
    pose proof (sat_fold snd (z_list (per_tx t)) 0) as Hf. change (Z.min (umax 64) 0) with 0 in Hf.
    rewrite Hf; [|apply (Forall_impl _ _ _ Hall); by intros x [_ [? _]]|done].
    rewrite Z.add_0_l, <-msum_z_list, <-Hs, Z.eqb_refl. unfold refuse, guard_err.
    destruct (Z.ltb_spec (limit t) (total_gas_used t)); [lia|]. by destruct t.
  - intros b t Hb H. unfold tracker_decode in H. read_ok Hb H.
    repeat match goal with H : refuse _ _ = Ok _ |- _ => apply refuse_Ok in H end.
    match goal with H : sub_at _ _ = Ok _ |- _ => apply (sub_at_ok _ _ _ Hb) in H as Hbr end.
    match goal with H : tracker_rows _ _ _ _ = Ok ?sm |- _ => destruct sm as [s' m']; apply tracker_rows_inv in H as [Hm Hs] end;
      [|by apply iter_bytes|by intros k [? ?]|apply map_Forall_empty|done].
    cbn [fst snd limit total_gas_used per_tx] in *.
    match goal with H : negb (_ =? _) = false |- _ => apply negb_false_iff, Z.eqb_eq in H; subst end.
    match goal with H : (_ <? _) = false |- _ => apply Z.ltb_ge in H end. by split_and!.
Qed.
End tracker_codec.

(** ** What the meter keeps *)

Inductive meter_op : Type := OConsume (cost : Z) | ORefund (amount : Z) | OSnapshot | ORestore | OCommit.
Definition meter_call (o : meter_op) : GM unit :=
  match o with
  | OConsume c => consume c | ORefund a => add_refund a | OSnapshot => snapshot | ORestore => restore | OCommit => commit
  end.
Definition op_typed (o : meter_op) : Prop := match o with OConsume x | ORefund x => in_range 64 x | _ => True end.
Fixpoint meter_run (ops : list meter_op) (m : GasMeter) : GasMeter :=
  match ops with [] => m | o :: ops => meter_run ops (meter_call o m).2 end.

Definition counters_ok (i : Z) (c : Z * Z * Z) : Prop :=
  let '(r, u, f) := c in r + u = i /\ 0 <= r /\ 0 <= f <= u.
Definition meter_inv (m : GasMeter) : Prop :=
  in_range 64 (initial m) /\ counters_ok (initial m) (remaining m, used m, refund m) /\
  Forall (counters_ok (initial m)) (snapshots m).

Lemma meter_call_inv o m : meter_inv m -> op_typed o ->
  meter_inv (meter_call o m).2 /\ initial (meter_call o m).2 = initial m /\
  (forall e, (meter_call o m).1 = Err e -> (meter_call o m).2 = m) /\ (meter_call o m).1 <> Panic.
Proof.
  intros (Hi & (Hs & Hr & Hf) & Hsn) Ho. destruct m as [i r u rf sn]. cbn in *.
  destruct o as [c|a| | |]; cbn in Ho; unfold meter_call, consume, add_refund, snapshot, restore, commit; open_call; cbn.
  - destruct (Z.ltb_spec r c); cbn; [by split_and!|]. unfold in_range in *.
    rewrite wrap_small by (unfold in_range; lia). unfold meter_inv, counters_ok, in_range. cbn. split_and!; try done; lia.
  - destruct (Z.ltb_spec u (sat 64 (rf + a))); cbn; [by split_and!|]. unfold meter_inv, counters_ok, in_range, sat in *. cbn.
    split_and!; try done; lia.
  - unfold meter_inv. cbn. split_and!; try done; try lia. by constructor.
  - destruct sn as [|[[r' u'] f'] sn]; cbn; [by split_and!|]. inversion Hsn; subst. unfold meter_inv. by split_and!.
  - destruct sn as [|c sn]; cbn; [by split_and!|]. inversion Hsn; subst. unfold meter_inv. by split_and!.
Qed.

(** From a fresh meter, whatever is consumed, refunded, snapshot, restored and
    committed: gas is neither made nor lost, refunds stay below what was used,
    what is billed lies between four fifths of what was used and all of it,
    and the meter can be written down and read back but for its snapshots. *)
Lemma meter_accounts limit ops : in_range 64 limit -> Forall op_typed ops ->
  let m := meter_run ops (meter_new limit) in
  initial m = limit /\ meter_ok m /\ used m - used m / 5 <= billed m <= used m.
Proof.
  intros Hl Hops. assert (forall m, meter_inv m -> meter_inv (meter_run ops m) /\ initial (meter_run ops m) = initial m) as Hrun.
  { induction Hops as [|o ops Ho _ IH]; intros m Hm; [done|]. cbn.
    destruct (meter_call_inv o m Hm Ho) as (H1 & H2 & _). destruct (IH _ H1) as [H3 H4]. by rewrite H4. }
  destruct (Hrun (meter_new limit)) as [(Hi & (Hs & Hr & Hf) & _) He].
  { unfold meter_inv, counters_ok, meter_new, in_range in *. cbn. split_and!; try done; lia. }
  cbn zeta. cbn in He. rewrite He in *. unfold meter_ok, in_range in *. set (m := meter_run ops _) in *.
  split_and!; try done; try lia; unfold billed, sat;
    (assert (0 <= used m / 5 <= used m) by (split; [apply Z.div_pos; lia|apply Z.div_le_upper_bound; lia])); lia.
Qed.

(** Restoring brings back the counters of the snapshot, what was used since
    included: the gas of a call that is reverted is free. *)
Lemma restore_refunds_gas m c : remaining m >= c ->
  (restore (consume c (snapshot m).2).2) = (Ok tt, m).
Proof.
  intros Hc. destruct m as [i r u rf sn]. cbn in Hc. unfold restore, consume, snapshot. open_call. cbn.
  destruct (Z.ltb_spec r c); [lia|done].
Qed.

(** What is recorded stays the saturating sum of the rows, within the limit;
    a transaction is recorded once, and a refusal changes nothing. *)
Lemma record_ok t i g : tracker_ok t -> row_ok i g ->
  tracker_ok (record i g t).2 /\
  ((record i g t).1 = Ok tt <-> per_tx t !! i = None /\ Z.min (umax 64) (total_gas_used t + g) <= limit t) /\
  (forall e, (record i g t).1 = Err e -> (record i g t).2 = t).
Proof.
  intros (Hl & Hm & Hs & Hle) Hr. pose proof (tracker_rows_nonneg _ Hm) as Hpos. unfold record. open_call.
  case_bool_decide as Hin; cbn.
  { split_and!; try done. split; [done|]. intros [Hn _]. rewrite Hn in Hin. by destruct Hin. }
  apply eq_None_not_Some in Hin. destruct Hr as [Hi Hg].
  assert (sat 64 (total_gas_used t + g) = Z.min (umax 64) (msum (<[i := g]> (per_tx t)))) as Hsat.
  { rewrite Hs. destruct (sat_sum_min (msum (per_tx t)) g) as [->|]; [unfold in_range in Hg; lia| |lia].
    rewrite msum_insert. unfold mval. rewrite Hin. cbn. f_equal. lia. }
  assert (sat 64 (total_gas_used t + g) = Z.min (umax 64) (total_gas_used t + g)) as Hsat2.
  { unfold sat, umax, in_range in *. lia. }
  destruct (Z.ltb_spec (limit t) (sat 64 (total_gas_used t + g))) as [Hgt|Hok]; cbn.
  - split_and!; try done. split; [done|]. intros [_ ?]. lia.
  - split; [|split; [|done]].
    + unfold tracker_ok. cbn. split_and!; try done. by apply map_Forall_insert_2.
    + split; [|done]. intros _. split; [done|lia].
Qed.
