(* ===== verification/UpgradeTypes.v ===== *)
(** * Upgrade control
      (crates/zbx-types/src/module_version.rs, activation.rs, feature_flags.rs,
       storage_version.rs, version_registry.rs, pinned_genesis.rs)

    Versions of modules, activation heights, feature flags and the storage
    version, the registry that composes them and applies an upgrade all or
    nothing, plans of storage migrations, and the pinned genesis hashes.  The
    checks that the types' own serde decoders repeat are not modelled.

    At the end: the wire format of the proposals of Governance.v. *)

From Stdlib Require Import ZArith Lia String Sorting.Sorted.
From stdpp Require Import base tactics list gmap countable numbers option strings fin_maps.
From S2P Require Import Prelude Bytes Crypto Collections Rlp Transaction RlpTypes ExecTypes Governance.

Local Open Scope Z_scope.

(** [ZbxError::InvalidInput] of a formatted text. *)
Inductive ZbxError : Type := InvalidInput.

(** ** Names

    The three copies of the check: non-empty, [a-z0-9_-] only. *)

Definition name_byte (b : Z) : bool :=
  ((97 <=? b) && (b <=? 122)) || ((48 <=? b) && (b <=? 57)) || (b =? 95) || (b =? 45).
Definition name_valid (name : bytes) : bool := negb (bool_decide (name = [])) && forallb name_byte name.
Definition validate_name (name : bytes) : res ZbxError unit := guard_err (negb (name_valid name)) InvalidInput.

(** ** Modules, activations, flags *)

Record ModuleVersion : Type := mkModule { module : bytes; version : Z }.
Record Activation : Type := mkActivation { feature : bytes; block : Z }.
Record Flag : Type := mkFlag { name : bytes; enabled : bool }.

Definition module_new (n : bytes) (v : Z) : res ZbxError ModuleVersion := _ ← validate_name n; Ok (mkModule n v).
Definition activation_new (n : bytes) (b : Z) : res ZbxError Activation := _ ← validate_name n; Ok (mkActivation n b).
Definition flag_new (n : bytes) (e : bool) : res ZbxError Flag := _ ← validate_name n; Ok (mkFlag n e).

Definition is_compatible_with (self other : ModuleVersion) : bool :=
  bool_decide (module self = module other) && (version self <=? version other).
Definition is_active_at (height : Z) (a : Activation) : bool := block a <=? height.

Abbreviation ModuleVersions := (gmap bytes Z).
Abbreviation ActivationSchedule := (gmap bytes Z).
Abbreviation FeatureFlags := (gmap bytes bool).

Definition modules_set (e : ModuleVersion) (m : ModuleVersions) : res ZbxError ModuleVersions :=
  _ ← match m !! module e with
      | Some prev => guard_err (version e <? prev) InvalidInput
      | None => Ok tt
      end;
  Ok (<[module e := version e]> m).
Definition activations_set (e : Activation) (m : ActivationSchedule) : res ZbxError ActivationSchedule :=
  Ok (<[feature e := block e]> m).
Definition is_active (f : bytes) (height : Z) (m : ActivationSchedule) : bool :=
  match m !! f with Some b => b <=? height | None => false end.
Definition flags_set (e : Flag) (m : FeatureFlags) : res ZbxError FeatureFlags :=
  Ok (<[name e := enabled e]> m).
Definition is_enabled (n : bytes) (m : FeatureFlags) : bool := default false (m !! n).

Section wire.
Context `{RC : RlpCrate} `{RV : RlpView} `{RM : RlpMore}.

(** A flag is written as a number. *)
Definition flag_byte (b : bool) : Z := if b then 1 else 0.
Definition flag_val (msg : string) : Dec bool := fun rlp =>
  b ← uint_val 8 rlp;
  if b =? 0 then Ok false else if b =? 1 then Ok true else Err (Custom msg).

Definition module_rlp (e : ModuleVersion) : item := Lst [Str (module e); uint_item (version e)].
Definition module_decode : Dec ModuleVersion := fun rlp =>
  _ ← expect_count 2 rlp;
  n ← field string_val 0 rlp; v ← field (uint_val 32) 1 rlp;
  _ ← refuse (negb (name_valid n)) "ModuleVersion.module invalid";
  Ok (mkModule n v).
Definition activation_rlp (e : Activation) : item := Lst [Str (feature e); uint_item (block e)].
Definition activation_decode : Dec Activation := fun rlp =>
  _ ← expect_count 2 rlp;
  n ← field string_val 0 rlp; b ← field (uint_val 64) 1 rlp;
  _ ← refuse (negb (name_valid n)) "Activation.feature invalid";
  Ok (mkActivation n b).
Definition flag_rlp (e : Flag) : item := Lst [Str (name e); uint_item (flag_byte (enabled e))].
Definition flag_decode : Dec Flag := fun rlp =>
  _ ← expect_count 2 rlp;
  n ← field string_val 0 rlp; e ← field (flag_val "Flag.enabled must be 0 or 1") 1 rlp;
  _ ← refuse (negb (name_valid n)) "Flag.name invalid";
  Ok (mkFlag n e).

(** The rows of the three maps, strictly sorted by name. *)
Definition named_row {V} (val : Dec V) (bad unsorted : string) (prev : option bytes) (row : bytes)
    : res DecoderError (bytes * V) :=
  _ ← expect_count 2 row;
  n ← field string_val 0 row; v ← field val 1 row;
  _ ← refuse (negb (name_valid n)) bad;
  _ ← ascending bytes_leb prev n unsorted;
  Ok (n, v).
Definition named_row_rlp {V} (enc : V -> item) (x : bytes * V) : item := Lst [Str x.1; enc x.2].

Definition modules_rlp (m : ModuleVersions) : item := Lst (map (named_row_rlp uint_item) (bytes_list m)).
Definition modules_decode : Dec ModuleVersions :=
  rows_val (named_row (uint_val 32) "ModuleVersions invalid module name" "ModuleVersions rows must be strictly alphabetically sorted").
Definition activations_rlp (m : ActivationSchedule) : item := Lst (map (named_row_rlp uint_item) (bytes_list m)).
Definition activations_decode : Dec ActivationSchedule :=
  rows_val (named_row (uint_val 64) "ActivationSchedule invalid feature name" "ActivationSchedule rows must be strictly alphabetically sorted").
Definition flags_rlp (m : FeatureFlags) : item :=
  Lst (map (named_row_rlp (fun b => uint_item (flag_byte b))) (bytes_list m)).
Definition flags_decode : Dec FeatureFlags :=
  rows_val (named_row (flag_val "FeatureFlags entry enabled must be 0 or 1") "FeatureFlags invalid flag name" "FeatureFlags rows must be strictly alphabetically sorted").
End wire.

(** ** Storage versions and migrations *)

Abbreviation StorageVersion := Z.
Definition GENESIS : StorageVersion := 0.
Definition next_version (v : StorageVersion) : StorageVersion := sat 32 (v + 1).
Definition is_below (a b : StorageVersion) : bool := a <? b.

(** A step of a plan works on any context [Ctx]. *)
Record Migration (Ctx : Type) : Type := mkMigration {
  from_version : StorageVersion; to_version : StorageVersion; migrate : M Ctx ZbxError unit }.
Arguments mkMigration {Ctx}.
Arguments from_version {Ctx} _.
Arguments to_version {Ctx} _.
Arguments migrate {Ctx} _.

Section plan.
Context {Ctx : Type}.

(** [self.steps.windows(2)] *)
Fixpoint adjacent (steps : list (Migration Ctx)) : bool :=
  match steps with
  | a :: ((b :: _) as rest) => (to_version a =? from_version b) && adjacent rest
  | _ => true
  end.

Definition plan_validate (steps : list (Migration Ctx)) (start target : StorageVersion) : res ZbxError unit :=
  match steps with
  | [] => guard_err (negb (start =? target)) InvalidInput
  | first :: _ =>
    _ ← guard_err (negb (from_version first =? start)) InvalidInput;
    _ ← guard_err (negb (adjacent steps)) InvalidInput;
    _ ← guard_err (negb (forallb (fun s => is_below (from_version s) (to_version s)) steps)) InvalidInput;
    last_step ← unwrap (last steps);
    guard_err (negb (to_version last_step =? target)) InvalidInput
  end.

Fixpoint plan_run (steps : list (Migration Ctx)) : M Ctx ZbxError unit :=
  match steps with [] => mret tt | s :: rest => _ ← migrate s; plan_run rest end.
End plan.

(** ** The registry *)

Record RegistryUpgrade : Type := mkUpgrade {
  set_modules : list ModuleVersion; set_activations : list Activation; set_flags : list Flag;
  bump_storage : option StorageVersion }.
Definition upgrade_is_empty (u : RegistryUpgrade) : bool :=
  is_nil (set_modules u) && is_nil (set_activations u) && is_nil (set_flags u)
  && match bump_storage u with None => true | Some _ => false end.

Record VersionRegistry : Type := mkRegistry {
  modules : ModuleVersions; activations : ActivationSchedule; flags : FeatureFlags; storage_version : StorageVersion }.

Definition registry_new : VersionRegistry := mkRegistry ∅ ∅ ∅ GENESIS.
Definition registry_is_empty (r : VersionRegistry) : bool :=
  bool_decide (modules r = ∅) && bool_decide (activations r = ∅) && bool_decide (flags r = ∅)
  && (storage_version r =? GENESIS).

(** [for entry in &upgrade.set_x { next.x.set(entry.clone())?; }] *)
Fixpoint set_all {E M} (set : E -> M -> res ZbxError M) (entries : list E) (m : M) : res ZbxError M :=
  match entries with [] => Ok m | e :: entries => m ← set e m; set_all set entries m end.

(** The work on the clone. *)
Definition upgraded (u : RegistryUpgrade) (r : VersionRegistry) : res ZbxError VersionRegistry :=
  ms ← set_all modules_set (set_modules u) (modules r);
  acts ← set_all activations_set (set_activations u) (activations r);
  fs ← set_all flags_set (set_flags u) (flags r);
  sv ← match bump_storage u with
       | Some new_sv => _ ← guard_err (negb (is_below (storage_version r) new_sv)) InvalidInput; Ok new_sv
       | None => Ok (storage_version r)
       end;
  Ok (mkRegistry ms acts fs sv).

Definition registry_apply (u : RegistryUpgrade) : M VersionRegistry ZbxError unit :=
  r ← get_st; next ← lift (upgraded u r); put_st next.

Section registry_wire.
Context `{RC : RlpCrate} `{RV : RlpView} `{RM : RlpMore}.
Definition registry_rlp (r : VersionRegistry) : item :=
  Lst [modules_rlp (modules r); activations_rlp (activations r); flags_rlp (flags r); uint_item (storage_version r)].
Definition registry_decode : Dec VersionRegistry := fun rlp =>
  _ ← expect_count 4 rlp;
  ms ← field modules_decode 0 rlp; acts ← field activations_decode 1 rlp;
  fs ← field flags_decode 2 rlp; sv ← field (uint_val 32) 3 rlp;
  Ok (mkRegistry ms acts fs sv).
End registry_wire.

(** ** Pinned genesis hashes *)

Definition CHAIN_ID_MAINNET : Z := 8989.
Definition CHAIN_ID_TESTNET : Z := 8990.
Definition SENTINEL_HASH : Hash := replicate 32 255.
Definition MAINNET_GENESIS_HASH : Hash := SENTINEL_HASH.
Definition TESTNET_GENESIS_HASH : Hash := SENTINEL_HASH.

Definition pinned_for (chain_id : Z) : option Hash :=
  if chain_id =? CHAIN_ID_MAINNET then Some MAINNET_GENESIS_HASH
  else if chain_id =? CHAIN_ID_TESTNET then Some TESTNET_GENESIS_HASH else None.
Definition is_sentinel (h : Hash) : bool := bool_decide (h = SENTINEL_HASH).
Definition is_all_zero (h : Hash) : bool := bool_decide (h = replicate 32 0).

Inductive PinPolicy : Type := Required | AllowUnregistered.
Inductive PinError : Type :=
| UnknownChainId (chain_id : Z)
| Sentinel (chain_id : Z)
| AllZero (chain_id : Z)
| Mismatch (chain_id : Z).

Definition verify_pinned_with_policy (chain_id : Z) (computed : Hash) (policy : PinPolicy) : res PinError unit :=
  match pinned_for chain_id, policy with
  | None, AllowUnregistered => Ok tt
  | None, Required => Err (UnknownChainId chain_id)
  | Some expected, _ =>
    _ ← guard_err (is_sentinel expected) (Sentinel chain_id);
    _ ← guard_err (is_all_zero computed) (AllZero chain_id);
    guard_err (negb (bool_decide (expected = computed))) (Mismatch chain_id)
  end.
Definition verify_pinned (chain_id : Z) (computed : Hash) : res PinError unit :=
  verify_pinned_with_policy chain_id computed Required.

(** ** The wire formats *)

Section codecs.
Context {RC : RlpCrate} {RV : RlpView} {RL : RlpViewLaws} {RM : RlpMore} {RML : RlpMoreLaws}.

Lemma name_ascii n : name_valid n = true -> Forall (fun x => 0 <= x < 128) n.
Proof.
  unfold name_valid. intros [_ Hn]%andb_prop. rewrite forallb_forall in Hn. apply List.Forall_forall. intros x Hx.
  specialize (Hn x Hx). unfold name_byte in Hn. lia.
Qed.
Lemma name_string n : name_valid n = true -> string_ok n.
Proof.
  intros Hn%name_ascii. split; [|by apply utf8_ascii]. eapply List.Forall_impl; [|exact Hn]. unfold byte. simpl. lia.
Qed.

#[export] Instance flag_val_codec msg : Codec (fun b => uint_item (flag_byte b)) (flag_val msg) (fun _ => True).
Proof.
  split; [|done]. intros b _ Hok. unfold flag_val.
  rewrite (codec_rt (Codec := uint_codec 8 ltac:(lia))); [by destruct b|by destruct b|done].
Qed.

(** The three single entries. *)
#[export] Instance module_codec : Codec module_rlp module_decode (fun e => name_valid (module e) = true /\ in_range 32 (version e)).
Proof.
  split.
  - intros [n v] [Hn Hv] Hok. unfold module_decode, module_rlp in *. cbn in *. read_out Hok; [|by apply name_string]. by rewrite Hn.
  - intros b e Hb H. unfold module_decode in H. read_ok Hb H. split; [|done]. cbn.
    match goal with H : refuse _ _ = Ok _ |- _ => apply refuse_Ok, negb_false_iff in H; done end.
Qed.
#[export] Instance activation_codec : Codec activation_rlp activation_decode (fun e => name_valid (feature e) = true /\ in_range 64 (block e)).
Proof.
  split.
  - intros [n v] [Hn Hv] Hok. unfold activation_decode, activation_rlp in *. cbn in *. read_out Hok; [|by apply name_string]. by rewrite Hn.
  - intros b e Hb H. unfold activation_decode in H. read_ok Hb H. split; [|done]. cbn.
    match goal with H : refuse _ _ = Ok _ |- _ => apply refuse_Ok, negb_false_iff in H; done end.
Qed.
#[export] Instance flag_codec : Codec flag_rlp flag_decode (fun e => name_valid (name e) = true).
Proof.
  split.
  - intros [n v] Hn Hok. unfold flag_decode, flag_rlp in *. cbn in *. 
    epose proof (field_out _ string_val _ _ 0 n Hok eq_refl (name_string n Hn)) as H0.
    epose proof (field_out (fun b => uint_item (flag_byte b)) (flag_val "Flag.enabled must be 0 or 1") _ _ 1 v Hok eq_refl I) as H1.
    rewrite (expect_count_out _ _ Hok eq_refl). cbn [mbind res_bind]. rewrite H0. cbn [mbind res_bind]. rewrite H1. cbn. by rewrite Hn.
  - intros b e Hb H. unfold flag_decode in H. read_ok Hb H. cbn.
    match goal with H : refuse _ _ = Ok _ |- _ => apply refuse_Ok, negb_false_iff in H; done end.
Qed.

Lemma named_codec {V} (enc : V -> item) (val : Dec V) (ok : V -> Prop) bad unsorted {C : Codec enc val ok} :
  Codec (map_rlp bytes_leb (named_row_rlp enc)) (rows_val (named_row val bad unsorted))
    (map_Forall (fun n v => name_valid n = true /\ ok v)).
Proof.
  apply rows_codec; [apply _| |].
  - intros p n v [Hn Hv] Hp Hok. unfold named_row, named_row_rlp in *. cbn [fst snd] in *. rewrite (expect_count_out _ _ Hok eq_refl). cbn [mbind res_bind].
    rewrite (field_out Str string_val string_ok _ 0 n Hok eq_refl (name_string n Hn)). cbn [mbind res_bind].
    rewrite (field_out enc val ok _ 1 v Hok eq_refl Hv). cbn [mbind res_bind]. rewrite Hn. by rewrite ascending_out.
  - intros p b kv Hb H. unfold named_row in H. read_ok Hb H. split; [|done]. cbn.
    match goal with H : refuse _ _ = Ok _ |- _ => apply refuse_Ok, negb_false_iff in H; done end.
Qed.

Definition modules_ok : ModuleVersions -> Prop := map_Forall (fun n v => name_valid n = true /\ in_range 32 v).
Definition activations_ok : ActivationSchedule -> Prop := map_Forall (fun n v => name_valid n = true /\ in_range 64 v).
Definition flags_ok : FeatureFlags -> Prop := map_Forall (fun n _ => name_valid n = true /\ True).
#[export] Instance modules_codec : Codec modules_rlp modules_decode modules_ok := named_codec _ _ _ _ _.
#[export] Instance activations_codec : Codec activations_rlp activations_decode activations_ok := named_codec _ _ _ _ _.
#[export] Instance flags_codec : Codec flags_rlp flags_decode flags_ok := named_codec _ _ _ _ _.

Definition registry_ok (r : VersionRegistry) : Prop :=
  modules_ok (modules r) /\ activations_ok (activations r) /\ flags_ok (flags r) /\ in_range 32 (storage_version r).
#[export] Instance registry_codec : Codec registry_rlp registry_decode registry_ok.
Proof.
  split.
  - intros r (H1 & H2 & H3 & H4) Hok. unfold registry_decode, registry_rlp in *. read_out Hok. by destruct r.
  - intros b r Hb H. unfold registry_decode in H. read_ok Hb H. by split_and!.
Qed.
End codecs.

(** ** Upgrades *)

#[local] Instance any_preorder {V} : PreOrder (fun _ _ : V => True).
Proof. by split. Qed.

Lemma set_all_ok {E K V} `{Countable K} (set : E -> gmap K V -> res ZbxError (gmap K V)) (key : E -> K) (val : E -> V)
    (Q : V -> V -> Prop) `{!PreOrder Q} (es : list E) :
  (forall e m m', set e m = Ok m' -> m' = <[key e := val e]> m /\ forall v, m !! key e = Some v -> Q v (val e)) ->
  forall m m', set_all set es m = Ok m' ->
    m' = foldl (fun m e => <[key e := val e]> m) m es /\
    (forall k v, m !! k = Some v -> exists v', m' !! k = Some v' /\ Q v v').
Proof.
  intros Hset. induction es as [|e es IH]; intros m m'; cbn [set_all foldl].
  { intros [= <-]. split; [done|]. intros k v Hk. by exists v. }
  destruct (set e m) as [m1|?|] eqn:Hs; try done. cbn [mbind res_bind]. intros Hm. destruct (Hset _ _ _ Hs) as [-> Hq].
  destruct (IH _ _ Hm) as [-> Hmono]. split; [done|]. intros k v Hk.
  destruct (decide (key e = k)) as [<-|Hne].
  - destruct (Hmono (key e) (val e)) as (v' & Hv' & Hq'); [by rewrite lookup_insert_eq|]. exists v'. split; [done|].
    etransitivity; [by apply Hq|done].
  - apply Hmono. by rewrite lookup_insert_ne.
Qed.

Definition entries_ok (u : RegistryUpgrade) : Prop :=
  Forall (fun e => name_valid (module e) = true /\ in_range 32 (version e)) (set_modules u) /\
  Forall (fun e => name_valid (feature e) = true /\ in_range 64 (block e)) (set_activations u) /\
  Forall (fun e => name_valid (name e) = true) (set_flags u) /\
  (forall v, bump_storage u = Some v -> in_range 32 v).

Lemma inserted_ok {E K V} `{Countable K} (key : E -> K) (val : E -> V) (P : K -> V -> Prop) es (m : gmap K V) :
  map_Forall P m -> Forall (fun e => P (key e) (val e)) es -> map_Forall P (foldl (fun m e => <[key e := val e]> m) m es).
Proof.
  intros Hm Hes. revert m Hm. induction Hes as [|e es He _ IH]; intros m Hm; [done|]. cbn. apply IH. by apply map_Forall_insert_2.
Qed.

(** An upgrade is applied whole or not at all.  When it is applied every map
    has the last entry given for a name and is otherwise as before, no module
    goes down, the storage version rises if it was to change, and a registry
    that can be stored stays one. *)
Theorem registry_upgrade_atomic u r out r' : registry_apply u r = (out, r') ->
  (out <> Ok tt -> r' = r) /\ out <> Panic /\
  (out = Ok tt ->
     modules r' = foldl (fun m e => <[module e := version e]> m) (modules r) (set_modules u) /\
     activations r' = foldl (fun m e => <[feature e := block e]> m) (activations r) (set_activations u) /\
     flags r' = foldl (fun m e => <[name e := enabled e]> m) (flags r) (set_flags u) /\
     (forall n v, modules r !! n = Some v -> exists v', modules r' !! n = Some v' /\ v <= v') /\
     match bump_storage u with
     | Some v => storage_version r' = v /\ storage_version r < v | None => storage_version r' = storage_version r
     end /\
     (registry_ok r -> entries_ok u -> registry_ok r')).
Proof.
  unfold registry_apply. open_call. intros Happ.
  assert (forall x, upgraded u r = x -> x <> Panic) as Hnp.
  { intros x <-. unfold upgraded.
    assert (forall E M (set : E -> M -> res ZbxError M) es m, (forall e m, set e m <> Panic) -> set_all set es m <> Panic) as Hall.
    { intros E M0 set es m Hs. revert m. induction es as [|e es IH]; intros m; cbn; [done|].
      destruct (set e m) as [m1|?|] eqn:He; cbn; [apply IH|done|by destruct (Hs e m)]. }
    assert (forall e m, modules_set e m <> Panic) as Hm.
    { intros e m. unfold modules_set, guard_err. destruct (m !! module e) as [p|]; [|done]. by destruct (_ <? _). }
    pose proof (Hall _ _ modules_set (set_modules u) (modules r) Hm) as H1.
    pose proof (Hall _ _ activations_set (set_activations u) (activations r) ltac:(done)) as H2.
    pose proof (Hall _ _ flags_set (set_flags u) (flags r) ltac:(done)) as H3.
    destruct (set_all modules_set _ _), (set_all activations_set _ _), (set_all flags_set _ _); cbn; try done.
    unfold guard_err. destruct (bump_storage u); [by destruct (negb _)|done]. }
  destruct (upgraded u r) as [next|e|] eqn:Hu; [| |by destruct (Hnp Panic)]; cbn in Happ; injection Happ as <- <-; [|done].
  split_and!; [done|done|]. intros _. unfold upgraded in Hu.
  apply res_bind_Ok in Hu as (ms & Hms & Hu). apply res_bind_Ok in Hu as (acts & Hacts & Hu).
  apply res_bind_Ok in Hu as (fs & Hfs & Hu). apply res_bind_Ok in Hu as (sv & Hsv & [= <-]). cbn [modules activations flags storage_version].
  destruct (set_all_ok modules_set module version Z.le (set_modules u)) with (m := modules r) (m' := ms) as [-> Hmono]; [|done|].
  { intros e m m'. unfold modules_set, guard_err. destruct (m !! module e) as [p|] eqn:Hp.
    - destruct (Z.ltb_spec (version e) p); [done|]. intros [= <-]. split; [done|]. intros v [= <-]. lia.
    - intros [= <-]. done. }
  destruct (set_all_ok activations_set feature block (fun _ _ => True) (set_activations u)) with (m := activations r) (m' := acts) as [-> _];
    [by intros e m m' [= <-]|done|].
  destruct (set_all_ok flags_set name enabled (fun _ _ => True) (set_flags u)) with (m := flags r) (m' := fs) as [-> _];
    [by intros e m m' [= <-]|done|].
  assert (match bump_storage u with Some v => sv = v /\ storage_version r < v | None => sv = storage_version r end) as Hbump.
  { destruct (bump_storage u) as [v|]; [|by injection Hsv]. apply res_bind_Ok in Hsv as ([] & Hg & [= <-]). split; [done|].
    unfold guard_err, is_below in Hg. by destruct (Z.ltb_spec (storage_version r) v). }
  split_and!; [done..|exact Hmono|exact Hbump|]. intros (H1 & H2 & H3 & H4) (E1 & E2 & E3 & E4). unfold registry_ok.
  cbn [modules activations flags storage_version]. split_and!.
  - by apply (inserted_ok module version (fun n v => name_valid n = true /\ in_range 32 v)).
  - by apply (inserted_ok feature block (fun n v => name_valid n = true /\ in_range 64 v)).
  - apply (inserted_ok name enabled (fun n _ => name_valid n = true /\ True)); [done|]. eapply Forall_impl; [exact E3|]. done.
  - destruct (bump_storage u) as [v|]; [|by subst]. destruct Hbump as [-> _]. by apply E4.
Qed.

(** ** Migration plans *)

Section plans.
Context {Ctx : Type}.
Implicit Types steps : list (Migration Ctx).

(** A plan that is valid from [start] to [target] passes through versions that
    rise by at least one with each step, from [start] to [target]. *)
Lemma plan_rises steps start target : plan_validate steps start target = Ok tt ->
  start + zlen steps <= target /\
  (forall i s, steps !! i = Some s ->
     from_version s < to_version s /\
     from_version s = match i with O => start | S j => default start (to_version <$> steps !! j) end) /\
  (steps = [] -> start = target) /\ (forall s, last steps = Some s -> to_version s = target).
Proof.
  unfold plan_validate. destruct steps as [|first rest] eqn:Hst.
  { unfold guard_err. destruct (Z.eqb_spec start target); [|done]. intros _. rewrite zlen_nil. split_and!; try done. lia. }
  rewrite <-Hst. intros H. apply res_bind_Ok in H as ([] & H1 & H). apply res_bind_Ok in H as ([] & H2 & H).
  apply res_bind_Ok in H as ([] & H3 & H). apply res_bind_Ok in H as (l & H4 & H5).
  unfold guard_err in *. destruct (Z.eqb_spec (from_version first) start) as [Hf|]; [|done].
  destruct (adjacent steps) eqn:Ha; [|done]. destruct (forallb _ steps) eqn:Hb; [|done].
  destruct (Z.eqb_spec (to_version l) target) as [Ht|]; [|done].
  assert (last steps = Some l) as Hl by (destruct (last steps); [by injection H4 as ->|done]).
  rewrite forallb_forall in Hb. clear H1 H2 H3 H4 H5.
  assert (forall i s, steps !! i = Some s -> from_version s < to_version s) as Hup.
  { intros i s Hi. apply Z.ltb_lt, (Hb s), list_elem_of_In. by eapply list_elem_of_lookup_2. }
  assert (forall i a b, steps !! i = Some a -> steps !! S i = Some b -> to_version a = from_version b) as Hadj.
  { clear -Ha. intros i. revert steps Ha. induction i as [|i IH]; intros [|x [|y l]] Ha a b; cbn [adjacent] in Ha; try done.
    - cbn. intros [= <-] [= <-]. apply andb_prop in Ha as [Ha _]. by apply Z.eqb_eq.
    - apply andb_prop in Ha as [_ Ha]. apply (IH (y :: l) Ha). }
  split_and!.
  - assert (forall n k s, length steps = (n + k)%nat -> last steps = Some s -> (k > 0)%nat ->
      exists x, steps !! n = Some x /\ from_version x + Z.of_nat k <= to_version s) as Hrise.
    { intros n k. revert n. induction k as [|k IH]; intros n s Hn Hs Hk; [lia|].
      destruct (lookup_lt_is_Some_2 steps n) as [x Hx]; [lia|]. exists x. split; [done|]. pose proof (Hup n x Hx).
      destruct k as [|k]; [rewrite last_lookup in Hs; replace (pred (length steps)) with n in Hs by lia; simplify_eq; lia|].
      destruct (IH (S n) s) as (y & Hy & Hle); [lia|done|lia|]. rewrite (Hadj n x y Hx Hy) in *. lia. }
    destruct (Hrise 0%nat (length steps) l) as (x & Hx & Hle); [done|done|rewrite Hst; cbn; lia|].
    rewrite Hst in Hx. injection Hx as <-. unfold zlen. lia.
  - intros i s Hi. split; [by eapply Hup|]. destruct i as [|i]; [rewrite Hst in Hi; by injection Hi as <-|].
    destruct (lookup_lt_is_Some_2 steps i) as [a Hx]; [apply lookup_lt_Some in Hi; lia|]. rewrite Hx. cbn. symmetry. by eapply Hadj.
  - rewrite Hst. done.
  - intros s Hs. rewrite Hl in Hs. by injection Hs as <-.
Qed.

(** Running a plan stops at the first step that fails, with what it and the
    steps before it did to the context. *)
Lemma plan_run_app steps rest (c : Ctx) :
  plan_run (steps ++ rest) c = match plan_run steps c with (Ok _, c') => plan_run rest c' | r => r end.
Proof.
  revert c. induction steps as [|s steps IH]; intros c; [done|]. cbn [app plan_run]. unfold mbind, M_bind.
  destruct (migrate s c) as [[[]|e|] c1]; [apply IH|done|done].
Qed.
End plans.

(** ** Pinning *)

(** Known chains are accepted with the pinned hash alone, and with the
    sentinel pinned, as it is now, with none; other chains only when the
    policy lets them. *)
Lemma verify_pinned_iff id h policy : verify_pinned_with_policy id h policy = Ok tt <->
  match pinned_for id with
  | None => policy = AllowUnregistered
  | Some p => p <> SENTINEL_HASH /\ h <> replicate 32 0 /\ h = p
  end.
Proof.
  unfold verify_pinned_with_policy, guard_err, is_sentinel, is_all_zero. destruct (pinned_for id) as [p|]; [|by destruct policy].
  assert (forall x : res PinError unit, (let '_ := policy in x) = x) as Hpol by done. clear Hpol.
  destruct policy; repeat case_bool_decide; cbn; split; try done; try (by intros (? & ? & ?)); intros; split_and!; congruence.
Qed.
Lemma unpinned_refused id h policy : id = CHAIN_ID_MAINNET \/ id = CHAIN_ID_TESTNET ->
  verify_pinned_with_policy id h policy = Err (Sentinel id).
Proof. intros [-> | ->]; by destruct policy. Qed.

(** * Upgrade proposals on the wire (crates/zbx-types/src/governance.rs)

    The RLP form of votes, statuses, proposals and their registry; the types
    are those of Governance.v. *)

Definition ballot_to (v : BallotVote) : Z := match v with Yes => 0 | No => 1 | Abstain => 2 end.
Definition ballot_from (b : Z) : res DecoderError BallotVote :=
  match b with 0 => Ok Yes | 1 => Ok No | 2 => Ok Abstain | _ => Err (Custom "Vote tag out of range") end.
Definition proposal_status_to (s : ProposalStatus) : Z :=
  match s with Pending => 0 | Approved => 1 | Rejected => 2 | Scheduled => 3 | Executed => 4 | Failed => 5 end.
Definition proposal_status_from (b : Z) : res DecoderError ProposalStatus :=
  match b with
  | 0 => Ok Pending | 1 => Ok Approved | 2 => Ok Rejected | 3 => Ok Scheduled | 4 => Ok Executed | 5 => Ok Failed
  | _ => Err (Custom "ProposalStatus tag out of range")
  end.

(** [ProposalId::next] *)
Definition next_id (id : Z) : Z := sat 64 (id + 1).

Section wire.
Context `{RC : RlpCrate} `{RV : RlpView} `{RM : RlpMore}.

Definition ballot_rlp (v : BallotVote) : item := uint_item (ballot_to v).
Definition ballot_decode : Dec BallotVote := tag_val ballot_from.
Definition proposal_status_rlp (s : ProposalStatus) : item := uint_item (proposal_status_to s).
Definition proposal_status_decode : Dec ProposalStatus := tag_val proposal_status_from.

Definition ballot_row_rlp (x : Address * BallotVote) : item := Lst [Str x.1; ballot_rlp x.2].
Definition ballot_row (prev : option Address) (row : bytes) : res DecoderError (Address * BallotVote) :=
  _ ← expect_count 2 row;
  voter ← field decode_address 0 row; vote ← field ballot_decode 1 row;
  _ ← ascending bytes_leb prev voter "UpgradeProposal.votes must be strictly sorted by address";
  Ok (voter, vote).

Definition proposal_rlp (p : UpgradeProposal) : item :=
  Lst [uint_item (p_id p); Str (module_name p); uint_item (new_version p); uint_item (activation_block p); Str (proposer p);
       Lst (map ballot_row_rlp (bytes_list (votes p))); proposal_status_rlp (p_status p)].
Definition proposal_decode : Dec UpgradeProposal := fun rlp =>
  _ ← expect_count 7 rlp;
  id ← field (uint_val 64) 0 rlp; n ← field string_val 1 rlp;
  _ ← refuse (negb (validate_module_name n)) "UpgradeProposal.module_name invalid";
  v ← field (uint_val 32) 2 rlp; a ← field (uint_val 64) 3 rlp; p ← field decode_address 4 rlp;
  vs ← field (rows_val ballot_row) 5 rlp; st ← field proposal_status_decode 6 rlp;
  Ok (mkProposal id n v a p vs st).

Definition proposal_row (prev : option Z) (row : bytes) : res DecoderError (Z * UpgradeProposal) :=
  p ← proposal_decode row;
  _ ← ascending Z.leb prev (p_id p) "ProposalRegistry rows must be strictly id-ascending";
  Ok (p_id p, p).
Definition proposals_rlp (m : ProposalRegistry) : item := Lst (map (fun kp => proposal_rlp kp.2) (z_list m)).
Definition proposals_decode : Dec ProposalRegistry := rows_val proposal_row.
End wire.

Section codecs.
Context {RC : RlpCrate} {RV : RlpView} {RL : RlpViewLaws} {RM : RlpMore} {RML : RlpMoreLaws}.

#[export] Instance ballot_codec : Codec ballot_rlp ballot_decode (fun _ => True).
Proof. apply (tag_codec ballot_to ballot_from); by intros []. Qed.
#[export] Instance proposal_status_codec : Codec proposal_status_rlp proposal_status_decode (fun _ => True).
Proof. apply (tag_codec proposal_status_to proposal_status_from); by intros []. Qed.

Lemma ballots_codec : Codec (map_rlp bytes_leb ballot_row_rlp) (rows_val ballot_row) (map_Forall (fun a _ => fixed_ok 20 a)).
Proof.
  apply rows_codec; [apply _| |].
  - intros p a v Ha Hp Hok. unfold ballot_row, ballot_row_rlp in *. cbn [fst snd] in *. read_out Hok. by rewrite ascending_out.
  - intros p b kv Hb H. unfold ballot_row in H. by read_ok Hb H.
Qed.

Definition proposal_ok (p : UpgradeProposal) : Prop :=
  in_range 64 (p_id p) /\ validate_module_name (module_name p) = true /\ in_range 32 (new_version p) /\
  in_range 64 (activation_block p) /\ fixed_ok 20 (proposer p) /\ map_Forall (fun a _ => fixed_ok 20 a) (votes p).
#[export] Instance proposal_codec : Codec proposal_rlp proposal_decode proposal_ok.
Proof.
  pose proof ballots_codec. split.
  - intros p (H1 & H2 & H3 & H4 & H5 & H6) Hok. unfold proposal_decode, proposal_rlp in *. read_out Hok.
    + rewrite H2. cbn [negb refuse guard_err mbind res_bind]. read_out Hok. by destruct p.
    + by apply name_string.
  - intros b p Hb Hd. unfold proposal_decode in Hd. read_ok Hb Hd.
    match goal with H : refuse _ _ = Ok _ |- _ => apply refuse_Ok, negb_false_iff in H end. by split_and!.
Qed.

Definition proposals_ok : ProposalRegistry -> Prop := map_Forall (fun id p => p_id p = id /\ proposal_ok p).
#[export] Instance proposals_codec : Codec proposals_rlp proposals_decode proposals_ok.
Proof.
  apply (rows_codec Z.leb (fun kp => proposal_rlp kp.2) (fun id p => p_id p = id /\ proposal_ok p)).
  - intros q id p [<- Hp] Hq Hok. unfold proposal_row. cbn [snd] in *. rewrite codec_rt by done. cbn [mbind res_bind].
    by rewrite ascending_out.
  - intros q b kp Hb H. unfold proposal_row in H. apply res_bind_Ok in H as (p & Hp & H). apply res_bind_Ok in H as ([] & _ & [= <-]).
    apply codec_ok in Hp; [|done]. done.
Qed.
End codecs.
