(* ===== verification/ConsTypes.v ===== *)
(** * Consensus types
      (crates/zbx-types/src/consensus.rs, proposer.rs, finality.rs)

    The validator set and its quorum, consensus parameters, view changes, the
    three algorithms that choose a proposer and their schedule, and finality
    votes with their checkpoints; the wire format of each.

    Below: slashing evidence, penalties and records (slashing.rs). *)

From Stdlib Require Import ZArith Lia String Sorting.Sorted.
From stdpp Require Import base tactics list gmap countable numbers option strings fin_maps.
From S2P Require Import Prelude Bytes Crypto Collections Rlp Transaction RlpTypes ExecTypes.

Local Open Scope Z_scope.

(** ** Validators *)

Record ValidatorInfo : Type := mkInfo {
  address : Address; voting_power : Z; jailed : bool; jail_release_height : Z }.

Definition info_validate (v : ValidatorInfo) : res DecoderError unit :=
  _ ← refuse (negb (jailed v) && (voting_power v =? 0)) "active validator must have voting_power > 0";
  _ ← refuse (jailed v && (jail_release_height v =? 0)) "jailed validator must have jail_release_height > 0";
  refuse (negb (jailed v) && negb (jail_release_height v =? 0)) "non-jailed validator must have jail_release_height == 0".
Definition info_new (a : Address) (p : Z) (j : bool) (h : Z) : res DecoderError ValidatorInfo :=
  validated info_validate (mkInfo a p j h).

Abbreviation ValidatorSet := (gmap Address ValidatorInfo).

Definition upsert (info : ValidatorInfo) (s : ValidatorSet) : res DecoderError ValidatorSet :=
  _ ← info_validate info; Ok (<[address info := info]> s).

(** The members that are not jailed, by address. *)
Definition eligible (s : ValidatorSet) : list ValidatorInfo :=
  List.filter (fun v => negb (jailed v)) (map snd (bytes_list s)).

Definition total_active_power (s : ValidatorSet) : Z :=
  foldl (fun acc v => sat 64 (acc + voting_power v)) 0 (eligible s).
Definition quorum_threshold (s : ValidatorSet) : Z :=
  let n := total_active_power s in
  let t := sat 64 (n * 2) / 3 in
  Z.min (sat 64 (t + 1)) (sat 64 (n + 1)).
Definition is_quorum (s : ValidatorSet) (power : Z) : bool := quorum_threshold s <=? power.

(** ** Parameters and view changes *)

Record ConsensusParams : Type := mkParams {
  max_validators : Z; max_voting_power : Z; block_time_ms : Z; view_change_timeout_ms : Z; evidence_window_blocks : Z }.

Definition params_mainnet : ConsensusParams := mkParams 128 1000000000 5000 10000 43200.
Definition params_testnet : ConsensusParams := mkParams 256 10000000000 5000 10000 17280.

Definition params_validate (s : ConsensusParams) : res DecoderError unit :=
  _ ← refuse (max_validators s =? 0) "max_validators must be > 0";
  _ ← refuse (max_voting_power s =? 0) "max_voting_power must be > 0";
  _ ← refuse (block_time_ms s =? 0) "block_time_ms must be > 0";
  _ ← refuse (view_change_timeout_ms s =? 0) "view_change_timeout_ms must be > 0";
  _ ← refuse (view_change_timeout_ms s <? block_time_ms s) "view_change_timeout_ms must be >= block_time_ms";
  refuse (evidence_window_blocks s =? 0) "evidence_window_blocks must be > 0".

Record ViewChange : Type := mkViewChange {
  vc_height : Z; view_number : Z; previous_leader : Address; new_leader : Address; reason : Z }.
Definition REASON_LEADER_JAILED : Z := 2.

Definition view_validate (v : ViewChange) : res DecoderError unit :=
  _ ← refuse (vc_height v =? 0) "height must be > 0";
  _ ← refuse (view_number v =? 0) "view_number must be > 0";
  _ ← refuse (bool_decide (previous_leader v = new_leader v)) "new_leader must differ from previous_leader";
  refuse (REASON_LEADER_JAILED <? reason v) "invalid view-change reason".
Definition view_new (h n : Z) (p l : Address) (r : Z) : res DecoderError ViewChange :=
  validated view_validate (mkViewChange h n p l r).

(** ** The choice of a proposer *)

Inductive ProposerAlgorithm : Type := RoundRobin | WeightedRandom | Fixed.
#[export] Instance algorithm_eq : EqDecision ProposerAlgorithm.
Proof. solve_decision. Defined.
Definition algorithm_tag (a : ProposerAlgorithm) : Z := match a with RoundRobin => 0 | WeightedRandom => 1 | Fixed => 2 end.
Definition algorithm_from (t : Z) : res DecoderError ProposerAlgorithm :=
  if t =? 0 then Ok RoundRobin else if t =? 1 then Ok WeightedRandom else if t =? 2 then Ok Fixed
  else Err (Custom "invalid ProposerAlgorithm tag").

Record ProposerSchedule : Type := mkSchedule {
  epoch_start : Z; epoch_end : Z; algorithm : ProposerAlgorithm; assignments : gmap Z Address }.

Definition schedule_validate (s : ProposerSchedule) : res DecoderError unit :=
  _ ← refuse (epoch_end s <? epoch_start s) "epoch_start > epoch_end";
  each (fun ha => refuse ((ha.1 <? epoch_start s) || (epoch_end s <? ha.1)) "assignment height out of epoch")
    (z_list (assignments s)).
Definition schedule_new (es ee : Z) (a : ProposerAlgorithm) (m : gmap Z Address) : res DecoderError ProposerSchedule :=
  validated schedule_validate (mkSchedule es ee a m).
Definition proposer_at (height : Z) (s : ProposerSchedule) : option Address := assignments s !! height.

(** By power, downwards, and then by address; by address alone. *)
Definition power_le (a b : ValidatorInfo) : bool :=
  (voting_power b <? voting_power a) || ((voting_power b =? voting_power a) && bytes_leb (address a) (address b)).
Definition address_le (a b : ValidatorInfo) : bool := bytes_leb (address a) (address b).

Definition FNV_OFFSET : Z := 0x6c62272e07bb014262b821756295c58d.
Definition FNV_PRIME : Z := 0x0000000001000000000000000000013b.
Definition blake_u128 (bs : bytes) : Z := foldl (fun h b => wrap 128 (Z.lxor h b * FNV_PRIME)) FNV_OFFSET bs.

(** [for v in sorted { acc += power; if pick < acc { return Some(..) } } None] *)
Fixpoint bucket (pick acc : Z) (sorted : list ValidatorInfo) : option Address :=
  match sorted with
  | [] => None
  | v :: rest => if pick <? acc + voting_power v then Some (address v) else bucket pick (acc + voting_power v) rest
  end.

Definition round_robin (vs : list ValidatorInfo) (height : Z) : option Address :=
  let sorted := sort_by power_le vs in
  address <$> sorted !! Z.to_nat (height mod zlen sorted).

Definition total_power (vs : list ValidatorInfo) : Z := foldr (fun v acc => voting_power v + acc) 0 vs.
Definition weighted_random (vs : list ValidatorInfo) (mix : Z) : option Address :=
  bucket (mix mod total_power vs) 0 (sort_by address_le vs).

Definition select_proposer (algo : ProposerAlgorithm) (set : ValidatorSet) (seed : Hash) (height : Z) : option Address :=
  let vs := eligible set in
  if is_nil vs then None else
  match algo with
  | RoundRobin => round_robin vs height
  | WeightedRandom =>
    if total_power vs =? 0 then round_robin vs height
    else weighted_random vs (blake_u128 (seed ++ to_be 8 height))
  | Fixed => address <$> head (sort_by address_le vs)
  end.

(** ** Finality *)

Inductive FinalityStatus : Type := Pending | Justified | Finalized.
Definition status_tag (s : FinalityStatus) : Z := match s with Pending => 0 | Justified => 1 | Finalized => 2 end.
Definition status_from (t : Z) : res DecoderError FinalityStatus :=
  if t =? 0 then Ok Pending else if t =? 1 then Ok Justified else if t =? 2 then Ok Finalized
  else Err (Custom "invalid FinalityStatus tag").

Record FinalityVote : Type := mkVote { voter : Address; v_height : Z; v_hash : Hash; signature : bytes }.
Definition MAX_SIG_LEN : Z := 96.
Definition vote_validate (v : FinalityVote) : res DecoderError unit :=
  _ ← refuse (zlen (signature v) =? 0) "FinalityVote: empty signature";
  refuse (MAX_SIG_LEN <? zlen (signature v)) "FinalityVote: signature too long".
Definition vote_new (a : Address) (h : Z) (bh : Hash) (sg : bytes) : res DecoderError FinalityVote :=
  validated vote_validate (mkVote a h bh sg).

Record FinalityCheckpoint : Type := mkCheckpoint { cp_height : Z; cp_hash : Hash; votes : gmap Address FinalityVote }.
Definition checkpoint_new (h : Z) (bh : Hash) : FinalityCheckpoint := mkCheckpoint h bh ∅.

Definition matches (h : Z) (bh : Hash) (v : FinalityVote) : res DecoderError unit :=
  _ ← refuse (negb (v_height v =? h)) "FinalityCheckpoint: vote height mismatch";
  refuse (negb (bool_decide (v_hash v = bh))) "FinalityCheckpoint: vote hash mismatch".
Definition checkpoint_validate (c : FinalityCheckpoint) : res DecoderError unit :=
  each (fun kv => _ ← refuse (negb (bool_decide (voter kv.2 = kv.1))) "FinalityCheckpoint: vote/voter mismatch";
                  _ ← matches (cp_height c) (cp_hash c) kv.2;
                  vote_validate kv.2) (bytes_list (votes c)).

Definition add_vote (vote : FinalityVote) (c : FinalityCheckpoint) : res DecoderError FinalityCheckpoint :=
  _ ← refuse (negb (v_height vote =? cp_height c)) "vote.height ≠ checkpoint.height";
  _ ← refuse (negb (bool_decide (v_hash vote = cp_hash c))) "vote.block_hash ≠ checkpoint.block_hash";
  _ ← vote_validate vote;
  Ok (mkCheckpoint (cp_height c) (cp_hash c) (<[voter vote := vote]> (votes c))).

Definition voted_power (c : FinalityCheckpoint) (set : ValidatorSet) : Z :=
  foldl (fun sum k => match set !! k with
                      | Some info => if jailed info then sum else sat 64 (sum + voting_power info)
                      | None => sum
                      end) 0 (bytes_list (votes c)).*1.

Definition status (c : FinalityCheckpoint) (set : ValidatorSet) : FinalityStatus :=
  if bool_decide (votes c = ∅) then Pending
  else if is_quorum set (voted_power c set) then Finalized else Justified.

(** ** Written and read *)

Section wire.
Context `{RC : RlpCrate} `{RV : RlpView} `{RM : RlpMore}.

Definition info_rlp (v : ValidatorInfo) : item :=
  Lst [Str (address v); uint_item (voting_power v); bool_item (jailed v); uint_item (jail_release_height v)].
Definition info_decode : Dec ValidatorInfo := fun rlp =>
  _ ← expect_count 4 rlp;
  a ← field decode_address 0 rlp; p ← field (uint_val 64) 1 rlp;
  j ← field bool_val 2 rlp; h ← field (uint_val 64) 3 rlp;
  validated info_validate (mkInfo a p j h).

Definition member_rlp (x : Address * ValidatorInfo) : item := Lst [Str x.1; info_rlp x.2].
Definition set_members_rlp (s : ValidatorSet) : item := Lst (map member_rlp (bytes_list s)).
Definition member_row (prev : option Address) (it : bytes) : res DecoderError (Address * ValidatorInfo) :=
  _ ← expect_count 2 it;
  key ← field decode_address 0 it; info ← field info_decode 1 it;
  _ ← refuse (negb (bool_decide (address info = key))) "ValidatorSet key/value address mismatch";
  _ ← ascending bytes_leb prev key "ValidatorSet must be strictly ascending by address";
  Ok (key, info).
Definition set_members_decode : Dec ValidatorSet := rows_val member_row.

Definition params_rlp (s : ConsensusParams) : item :=
  Lst [uint_item (max_validators s); uint_item (max_voting_power s); uint_item (block_time_ms s);
       uint_item (view_change_timeout_ms s); uint_item (evidence_window_blocks s)].
Definition params_decode : Dec ConsensusParams := fun rlp =>
  _ ← expect_count 5 rlp;
  mv ← field (uint_val 32) 0 rlp; mp ← field (uint_val 64) 1 rlp; bt ← field (uint_val 64) 2 rlp;
  vt ← field (uint_val 64) 3 rlp; ew ← field (uint_val 64) 4 rlp;
  validated params_validate (mkParams mv mp bt vt ew).

Definition view_rlp (v : ViewChange) : item :=
  Lst [uint_item (vc_height v); uint_item (view_number v); Str (previous_leader v); Str (new_leader v); uint_item (reason v)].
Definition view_decode : Dec ViewChange := fun rlp =>
  _ ← expect_count 5 rlp;
  h ← field (uint_val 64) 0 rlp; n ← field (uint_val 32) 1 rlp;
  p ← field decode_address 2 rlp; l ← field decode_address 3 rlp; r ← field (uint_val 8) 4 rlp;
  validated view_validate (mkViewChange h n p l r).

Definition seed_decode : Dec Hash := fixed_val 32 "ProposerSeed must be 32 bytes".
Definition algorithm_rlp (a : ProposerAlgorithm) : item := uint_item (algorithm_tag a).
Definition algorithm_decode : Dec ProposerAlgorithm := tag_val algorithm_from.

Definition assignment_rlp (x : Z * Address) : item := Lst [uint_item x.1; Str x.2].
Definition schedule_rlp (s : ProposerSchedule) : item :=
  Lst [uint_item (epoch_start s); uint_item (epoch_end s); algorithm_rlp (algorithm s);
       Lst (map assignment_rlp (z_list (assignments s)))].
Definition assignment_row (pair : bytes) : res DecoderError (Z * Address) :=
  _ ← expect_count 2 pair;
  h ← field (uint_val 64) 0 pair; a ← field decode_address 1 pair;
  Ok (h, a).
Definition schedule_decode : Dec ProposerSchedule := fun rlp =>
  _ ← expect_count 4 rlp;
  es ← field (uint_val 64) 0 rlp; ee ← field (uint_val 64) 1 rlp; a ← field algorithm_decode 2 rlp;
  m ← field (indexed_val assignment_row) 3 rlp;
  validated schedule_validate (mkSchedule es ee a m).

Definition status_rlp (s : FinalityStatus) : item := uint_item (status_tag s).
Definition status_decode : Dec FinalityStatus := tag_val status_from.

Definition vote_rlp (v : FinalityVote) : item := Lst [Str (voter v); uint_item (v_height v); Str (v_hash v); Str (signature v)].
Definition vote_decode : Dec FinalityVote := fun rlp =>
  _ ← expect_count 4 rlp;
  a ← field decode_address 0 rlp; h ← field (uint_val 64) 1 rlp; bh ← field decode_h256 2 rlp; sg ← field bytes_val 3 rlp;
  validated vote_validate (mkVote a h bh sg).

Definition checkpoint_rlp (c : FinalityCheckpoint) : item :=
  Lst [uint_item (cp_height c); Str (cp_hash c); Lst (map (fun kv => vote_rlp kv.2) (bytes_list (votes c)))].
Definition checkpoint_row (h : Z) (bh : Hash) (it : bytes) : res DecoderError (Address * FinalityVote) :=
  v ← vote_decode it; _ ← matches h bh v; Ok (voter v, v).
Definition checkpoint_decode : Dec FinalityCheckpoint := fun rlp =>
  _ ← expect_count 3 rlp;
  h ← field (uint_val 64) 0 rlp; bh ← field decode_h256 1 rlp;
  vs ← field (indexed_val (checkpoint_row h bh)) 2 rlp;
  validated checkpoint_validate (mkCheckpoint h bh vs).
End wire.

(** ** The wire formats *)

Section codecs.
Context {RC : RlpCrate} {RV : RlpView} {RL : RlpViewLaws} {RM : RlpMore} {RML : RlpMoreLaws}.

Definition info_ok (v : ValidatorInfo) : Prop :=
  fixed_ok 20 (address v) /\ in_range 64 (voting_power v) /\ in_range 64 (jail_release_height v) /\ info_validate v = Ok tt.
#[export] Instance info_codec : Codec info_rlp info_decode info_ok.
Proof.
  split.
  - intros v (H1 & H2 & H3 & Hv) Hok. unfold info_decode, info_rlp in *. read_out Hok. apply validated_Ok. by destruct v.
  - intros b v Hb H. unfold info_decode in H. read_ok Hb H. apply validated_Ok in H as [Hv ->]. by split_and!.
Qed.

Definition set_ok : ValidatorSet -> Prop := map_Forall (fun k v => address v = k /\ info_ok v).
#[export] Instance set_codec : Codec set_members_rlp set_members_decode set_ok.
Proof.
  apply (rows_codec bytes_leb member_rlp (fun k v => address v = k /\ info_ok v)).
  - intros p k v [<- Hv] Hp Hok. unfold member_row, member_rlp in *. cbn [fst snd] in *. read_out Hok; [|by destruct Hv].
    rewrite bool_decide_eq_true_2 by done. by rewrite ascending_out.
  - intros p b kv Hb H. unfold member_row in H. read_ok Hb H.
    match goal with H : refuse (negb _) _ = Ok _ |- _ => apply refuse_Ok, negb_false_iff, bool_decide_eq_true in H end. cbn. split; done.
Qed.

Definition params_ok (s : ConsensusParams) : Prop :=
  in_range 32 (max_validators s) /\ in_range 64 (max_voting_power s) /\ in_range 64 (block_time_ms s) /\
  in_range 64 (view_change_timeout_ms s) /\ in_range 64 (evidence_window_blocks s) /\ params_validate s = Ok tt.
#[export] Instance params_codec : Codec params_rlp params_decode params_ok.
Proof.
  split.
  - intros v (H1 & H2 & H3 & H4 & H5 & Hv) Hok. unfold params_decode, params_rlp in *. read_out Hok. apply validated_Ok. by destruct v.
  - intros b v Hb H. unfold params_decode in H. read_ok Hb H. apply validated_Ok in H as [Hv ->]. by split_and!.
Qed.

Definition view_ok (v : ViewChange) : Prop :=
  in_range 64 (vc_height v) /\ in_range 32 (view_number v) /\ fixed_ok 20 (previous_leader v) /\
  fixed_ok 20 (new_leader v) /\ in_range 8 (reason v) /\ view_validate v = Ok tt.
#[export] Instance view_codec : Codec view_rlp view_decode view_ok.
Proof.
  split.
  - intros v (H1 & H2 & H3 & H4 & H5 & Hv) Hok. unfold view_decode, view_rlp in *. read_out Hok. apply validated_Ok. by destruct v.
  - intros b v Hb H. unfold view_decode in H. read_ok Hb H. apply validated_Ok in H as [Hv ->]. by split_and!.
Qed.

#[export] Instance algorithm_codec : Codec algorithm_rlp algorithm_decode (fun _ => True).
Proof. apply (tag_codec algorithm_tag algorithm_from); by intros []. Qed.
#[export] Instance status_codec : Codec status_rlp status_decode (fun _ => True).
Proof. apply (tag_codec status_tag status_from); by intros []. Qed.

#[export] Instance assignments_codec :
  Codec (map_rlp Z.leb assignment_rlp) (indexed_val assignment_row) (map_Forall (fun h a => in_range 64 h /\ fixed_ok 20 a)).
Proof.
  apply (indexed_codec Z.leb assignment_rlp (fun h a => in_range 64 h /\ fixed_ok 20 a)).
  - intros h a [Hh Ha] Hok. unfold assignment_row, assignment_rlp in *. by read_out Hok.
  - intros b kv Hb H. unfold assignment_row in H. by read_ok Hb H.
Qed.
Definition schedule_ok (s : ProposerSchedule) : Prop :=
  in_range 64 (epoch_start s) /\ in_range 64 (epoch_end s) /\
  map_Forall (fun h a => in_range 64 h /\ fixed_ok 20 a) (assignments s) /\ schedule_validate s = Ok tt.
#[export] Instance schedule_codec : Codec schedule_rlp schedule_decode schedule_ok.
Proof.
  split.
  - intros s (H1 & H2 & H3 & Hv) Hok. unfold schedule_decode, schedule_rlp in *. read_out Hok. apply validated_Ok. by destruct s.
  - intros b s Hb H. unfold schedule_decode in H. read_ok Hb H. apply validated_Ok in H as [Hv ->]. by split_and!.
Qed.

Definition vote_ok (v : FinalityVote) : Prop :=
  fixed_ok 20 (voter v) /\ in_range 64 (v_height v) /\ fixed_ok 32 (v_hash v) /\ Forall byte (signature v) /\
  vote_validate v = Ok tt.
#[export] Instance vote_codec : Codec vote_rlp vote_decode vote_ok.
Proof.
  split.
  - intros v (H1 & H2 & H3 & H4 & Hv) Hok. unfold vote_decode, vote_rlp in *. read_out Hok. apply validated_Ok. by destruct v.
  - intros b v Hb H. unfold vote_decode in H. read_ok Hb H. apply validated_Ok in H as [Hv ->]. by split_and!.
Qed.

Definition checkpoint_ok (c : FinalityCheckpoint) : Prop :=
  in_range 64 (cp_height c) /\ fixed_ok 32 (cp_hash c) /\
  map_Forall (fun k v => voter v = k /\ vote_ok v) (votes c) /\ checkpoint_validate c = Ok tt.
Lemma checkpoint_matches c k v : checkpoint_validate c = Ok tt -> votes c !! k = Some v ->
  matches (cp_height c) (cp_hash c) v = Ok tt.
Proof.
  unfold checkpoint_validate. rewrite each_map. intros Hv Hk. specialize (Hv k v Hk). cbn in Hv.
  apply res_bind_Ok in Hv as (? & _ & Hv). by apply res_bind_Ok in Hv as ([] & Hm & _).
Qed.
(** The votes, under the height and the hash they are read with. *)
Definition vote_row_ok h bh (k : Address) (v : FinalityVote) : Prop := voter v = k /\ vote_ok v /\ matches h bh v = Ok tt.
Lemma votes_codec h bh :
  Codec (map_rlp bytes_leb (fun kv => vote_rlp kv.2)) (indexed_val (checkpoint_row h bh)) (map_Forall (vote_row_ok h bh)).
Proof.
  apply indexed_codec; [apply _| |].
  - intros k v (<- & Hv & Hmv) Hi. unfold checkpoint_row. cbn [snd] in *. rewrite codec_rt by done. cbn [mbind res_bind]. by rewrite Hmv.
  - intros b kv Hb H. unfold checkpoint_row in H. apply res_bind_Ok in H as (v & Hv & H). apply res_bind_Ok in H as ([] & Hmv & [= <-]).
    apply codec_ok in Hv; [|done]. done.
Qed.
#[export] Instance checkpoint_codec : Codec checkpoint_rlp checkpoint_decode checkpoint_ok.
Proof.
  split.
  - intros c (H1 & H2 & H3 & Hv) Hok. unfold checkpoint_decode, checkpoint_rlp in *. pose proof votes_codec as Hvc. read_out Hok.
    + apply validated_Ok. by destruct c.
    + intros k v Hk. destruct (H3 k v Hk). split_and!; [done|done|by eapply checkpoint_matches].
  - intros b c Hb H. unfold checkpoint_decode in H. pose proof votes_codec as Hvc. read_ok Hb H. apply validated_Ok in H as [Hv ->].
    split_and!; try done. cbn. eapply map_Forall_impl; [done|]. by intros k v (? & ? & _).
Qed.
End codecs.

(** ** Power *)

Definition active_power (v : ValidatorInfo) : Z := if jailed v then 0 else voting_power v.
(** The power of the members [k] with [P k]. *)
Definition power_of (P : Address -> bool) : ValidatorSet -> Z := wsum (fun k v => if P k then active_power v else 0).

Lemma wsum_le_add {K A} `{Countable K} (f1 f2 g1 g2 : K -> A -> Z) (m : gmap K A) :
  map_Forall (fun k v => f1 k v + f2 k v <= g1 k v + g2 k v) m -> wsum f1 m + wsum f2 m <= wsum g1 m + wsum g2 m.
Proof.
  induction m as [|k v m Hk IH] using map_ind; intros Hm; [by rewrite !wsum_empty|].
  rewrite !wsum_insert_new by done. apply map_Forall_insert in Hm as [Hv Hm]; [|done]. specialize (IH Hm). lia.
Qed.
Lemma wsum_ext {K A} `{Countable K} (f g : K -> A -> Z) (m : gmap K A) :
  map_Forall (fun k v => f k v = g k v) m -> wsum f m = wsum g m.
Proof.
  induction m as [|k v m Hk IH] using map_ind; intros Hm; [by rewrite !wsum_empty|].
  rewrite !wsum_insert_new by done. apply map_Forall_insert in Hm as [-> Hm]; [|done]. by rewrite (IH Hm).
Qed.

Lemma info_power v : info_ok v -> 0 <= active_power v /\ in_range 64 (voting_power v).
Proof. intros (_ & Hp & _). split; [|done]. unfold active_power, in_range in *. destruct (jailed v); lia. Qed.
Lemma power_of_mono P Q s : set_ok s -> (forall k, P k = true -> Q k = true) -> 0 <= power_of P s <= power_of Q s.
Proof.
  intros Hs HPQ. split.
  - apply wsum_nonneg. intros k v Hk. destruct (Hs k v Hk) as [_ Hv%info_power]. destruct (P k); lia.
  - pose proof (wsum_le_add (fun k v => if P k then active_power v else 0) (fun _ _ => 0)
      (fun k v => if Q k then active_power v else 0) (fun _ _ => 0) s) as H. unfold power_of.
    enough (forall x y z : Z, x + z <= y + z -> x <= y) as Hc by (eapply Hc, H; intros k v Hk; destruct (Hs k v Hk) as [_ Hv%info_power];
      specialize (HPQ k); destruct (P k), (Q k); try lia; by discriminate HPQ).
    lia.
Qed.

Lemma foldr_perm {A} (f : A -> Z) (l k : list A) : l ≡ₚ k ->
  foldr (fun a acc => f a + acc) 0 l = foldr (fun a acc => f a + acc) 0 k.
Proof. induction 1; cbn; lia. Qed.

Lemma total_power_of s : total_power (eligible s) = power_of (fun _ => true) s.
Proof.
  unfold total_power, eligible, power_of, wsum. rewrite map_fold_foldr.
  assert (forall l : list (Address * ValidatorInfo),
    foldr (fun v acc => voting_power v + acc) 0 (List.filter (fun v => negb (jailed v)) (map snd l))
    = foldr (fun kv acc => active_power kv.2 + acc) 0 l) as Hl.
  { induction l as [|[k v] l IH]; [done|]. cbn [map List.filter snd foldr]. unfold active_power at 1. destruct (jailed v); cbn; by rewrite IH. }
  rewrite Hl, (foldr_perm _ _ _ (btree_list_perm bytes_leb s)). by apply foldr_ext; [intros []|..].
Qed.

Lemma eligible_elem s v : v ∈ eligible s <-> jailed v = false /\ exists k, s !! k = Some v.
Proof.
  unfold eligible. rewrite list_elem_of_In, filter_In, <-list_elem_of_In, negb_true_iff, list_elem_of_fmap. split.
  - intros [([k w] & -> & Hk%btree_list_elem) Hj]. split; [done|]. by exists k.
  - intros [Hj (k & Hk)]. split; [|done]. exists (k, v). split; [done|]. by apply btree_list_elem.
Qed.
Lemma eligible_info s : set_ok s -> Forall info_ok (eligible s).
Proof. intros Hs. apply list.Forall_forall. intros v [_ (k & Hk)]%eligible_elem. by destruct (Hs k v Hk). Qed.

Lemma total_active_power_sum s : set_ok s -> total_active_power s = Z.min (umax 64) (power_of (fun _ => true) s).
Proof.
  intros Hs. unfold total_active_power. pose proof (sat_fold voting_power (eligible s) 0) as Hf.
  change (Z.min (umax 64) 0) with 0 in Hf. rewrite Hf; [by rewrite Z.add_0_l, <-total_power_of|
    eapply list.Forall_impl; [by apply eligible_info|intros v [_ [? _]]%info_power; done]|done].
Qed.

(** Adding one voter adds its power. *)
Definition weight (s : ValidatorSet) (k : Address) : Z := match s !! k with Some v => active_power v | None => 0 end.
Lemma power_of_cons k P Q s : P k = false -> (forall j, Q j = bool_decide (j = k) || P j) ->
  power_of Q s = weight s k + power_of P s.
Proof.
  intros HP HQ. unfold power_of, weight. induction s as [|j v s Hj IH] using map_ind; [by rewrite !wsum_empty, lookup_empty|].
  rewrite !wsum_insert_new, HQ by done. destruct (decide (j = k)) as [->|Hne].
  - rewrite lookup_insert_eq, bool_decide_eq_true_2, HP by done. rewrite Hj in IH. cbn. lia.
  - rewrite lookup_insert_ne, bool_decide_eq_false_2 by done. cbn. lia.
Qed.
Lemma power_of_none s : power_of (fun _ => false) s = 0.
Proof. unfold power_of. induction s as [|k v s Hk IH] using map_ind; [apply wsum_empty|]. by rewrite wsum_insert_new, IH. Qed.
Lemma power_of_ext P Q s : (forall k, P k = Q k) -> power_of P s = power_of Q s.
Proof. intros HPQ. apply wsum_ext. intros k v _. by rewrite HPQ. Qed.

Lemma power_of_list l s : NoDup l ->
  foldr (fun k acc => weight s k + acc) 0 l = power_of (fun k => bool_decide (k ∈ l)) s.
Proof.
  induction l as [|k l IH]; intros Hnd.
  - cbn [foldr]. rewrite <-(power_of_none s). apply power_of_ext. intros k. symmetry. apply bool_decide_eq_false. apply not_elem_of_nil.
  - apply list.NoDup_cons in Hnd as [Hn Hnd]. cbn [foldr]. rewrite IH by done. symmetry.
    apply power_of_cons; [by apply bool_decide_eq_false|]. intros j.
    apply eq_bool_prop_intro. rewrite orb_True, !bool_decide_spec. apply elem_of_cons.
Qed.

Definition voted (c : FinalityCheckpoint) (k : Address) : bool := bool_decide (is_Some (votes c !! k)).
Lemma voted_power_sum c s : set_ok s -> voted_power c s = Z.min (umax 64) (power_of (voted c) s).
Proof.
  intros Hs. assert (forall k, in_range 64 (weight s k)) as Hw.
  { intros k. unfold weight. destruct (s !! k) as [v|] eqn:Hk; [|by split]. destruct (Hs k v Hk) as [_ Hv%info_power].
    unfold active_power, in_range in *. destruct (jailed v); lia. }
  assert (forall l sum, in_range 64 sum ->
    foldl (fun sum k => match s !! k with Some info => if jailed info then sum else sat 64 (sum + voting_power info) | None => sum end) sum l
    = foldl (fun sum k => sat 64 (sum + weight s k)) sum l) as Hl.
  { induction l as [|k l IH]; intros sum Hsum; [done|]. cbn [foldl]. rewrite <-IH by (apply sat_range; lia). f_equal.
    unfold weight, active_power. destruct (s !! k) as [v|]; [destruct (jailed v); [|done]|]; by rewrite Z.add_0_r, sat_small. }
  unfold voted_power. rewrite Hl by (by split). pose proof (sat_fold (weight s) (bytes_list (votes c)).*1 0) as Hf.
  change (Z.min (umax 64) 0) with 0 in Hf. rewrite Hf; [|apply list.Forall_forall; intros k _; apply Hw|done].
  rewrite Z.add_0_l, power_of_list by apply btree_list_nodup. f_equal. apply power_of_ext. intros k. apply bool_decide_ext.
  rewrite list_elem_of_fmap. split.
  - intros ([j v] & -> & Hj%btree_list_elem). by exists v.
  - intros [v Hk]. exists (k, v). split; [done|]. by apply btree_list_elem.
Qed.

(** ** Conflicting checkpoints

    While twice the active power fits in a [u64], two checkpoints that are
    both finalized share voters with more than a third of the active power. *)
Theorem finalized_overlap s c1 c2 : set_ok s -> 2 * power_of (fun _ => true) s < 2 ^ 64 ->
  status c1 s = Finalized -> status c2 s = Finalized ->
  power_of (fun _ => true) s < 3 * power_of (fun k => voted c1 k && voted c2 k) s.
Proof.
  intros Hs Hn. pose proof (power_of_mono (fun _ => true) (fun _ => true) s Hs ltac:(done)) as [Hpos _].
  assert (forall c, status c s = Finalized -> 2 * power_of (fun _ => true) s / 3 + 1 <= power_of (voted c) s) as Hq.
  { intros c. unfold status. case_bool_decide; [done|]. destruct (is_quorum s _) eqn:Hq; [|done]. intros _. revert Hq.
    unfold is_quorum, quorum_threshold. rewrite total_active_power_sum, voted_power_sum by done. rewrite Z.leb_le.
    pose proof (power_of_mono (voted c) (fun _ => true) s Hs ltac:(done)) as Hv. unfold umax, sat.
    set (n := power_of (fun _ => true) s) in *. replace (Z.min (2 ^ 64 - 1) n) with n by lia.
    replace (Z.max 0 (Z.min (n * 2) (2 ^ 64 - 1))) with (2 * n) by lia.
    assert (2 * n / 3 <= n) by (apply Z.div_le_upper_bound; lia). pose proof (Z.div_pos (2 * n) 3 ltac:(lia) ltac:(lia)). lia. }
  intros H1%Hq H2%Hq.
  pose proof (wsum_le_add (fun k v => if voted c1 k then active_power v else 0) (fun k v => if voted c2 k then active_power v else 0)
    (fun k v => if voted c1 k && voted c2 k then active_power v else 0) (fun k v => if true then active_power v else 0) s) as Hsum.
  unfold power_of in *. cbn zeta in Hsum. specialize (Hsum ltac:(intros k v Hk; destruct (Hs k v Hk) as [_ [Ha _]%info_power];
    destruct (voted c1 k), (voted c2 k); cbn; lia)).
  set (n := wsum (fun _ v => if true then active_power v else 0) s) in *.
  pose proof (Z.mul_div_le (2 * n) 3 ltac:(lia)). pose proof (Z.mod_pos_bound (2 * n) 3 ltac:(lia)).
  pose proof (Z.div_mod (2 * n) 3 ltac:(lia)). lia.
Qed.

(** Above that bound twice the power saturates, and a third of it is a quorum. *)
Lemma quorum_saturates :
  let s : ValidatorSet := {[replicate 20 1 := mkInfo (replicate 20 1) (2 ^ 64 - 1) false 0]} in
  total_active_power s = 2 ^ 64 - 1 /\ quorum_threshold s = (2 ^ 64 - 1) / 3 + 1.
Proof. by vm_compute. Qed.

(** ** Who proposes *)

Lemma eligible_addresses s : set_ok s -> NoDup (map address (eligible s)).
Proof.
  intros Hs. unfold eligible.
  assert (Forall (fun kv : Address * ValidatorInfo => address kv.2 = kv.1) (bytes_list s)) as Ha.
  { apply list.Forall_forall. intros [k v] Hk%btree_list_elem. by destruct (Hs k v Hk). }
  pose proof (btree_list_nodup bytes_leb s) as Hnd. induction Ha as [|[k v] l Hkv Ha IH]; [constructor|].
  rewrite fmap_cons in Hnd. apply list.NoDup_cons in Hnd as [Hn Hnd]. cbn in *. specialize (IH Hnd).
  destruct (jailed v); cbn; [done|]. apply list.NoDup_cons. split; [|done]. rewrite Hkv. intros Hin. apply Hn.
  clear -Hin Ha. apply list_elem_of_In, in_map_iff in Hin as (w & <- & Hw). apply filter_In in Hw as [Hw _].
  apply in_map_iff in Hw as ([j w'] & <- & Hw). apply list_elem_of_In in Hw. rewrite list.Forall_forall in Ha.
  pose proof (Ha _ Hw) as He. cbn in *. rewrite He. apply list_elem_of_fmap. by exists (j, w').
Qed.

Lemma bucket_in l : forall pick acc a, bucket pick acc l = Some a -> a ∈ map address l.
Proof.
  induction l as [|v l IH]; intros pick acc a; cbn; [done|]. destruct (_ <? _).
  - intros [= <-]. by apply elem_of_cons; left.
  - intros H. apply elem_of_cons; right. by eapply IH.
Qed.
Lemma bucket_some l : forall pick acc, acc <= pick < acc + total_power l -> is_Some (bucket pick acc l).
Proof.
  induction l as [|v l IH]; intros pick acc; cbn; [lia|]. intros H. destruct (Z.ltb_spec pick (acc + voting_power v)); [by eexists|].
  apply IH. unfold total_power. lia.
Qed.
Lemma total_power_nonneg l : Forall info_ok l -> 0 <= total_power l.
Proof. induction 1 as [|v l [_ [? _]]%info_power _ IH]; cbn; [lia|]. unfold total_power in IH. lia. Qed.

(** Each validator has an interval of picks as long as its power. *)
Lemma bucket_interval l v : Forall info_ok l -> NoDup (map address l) -> v ∈ l ->
  exists lo, 0 <= lo /\ lo + voting_power v <= total_power l /\
  forall acc pick, acc <= pick -> bucket pick acc l = Some (address v) <-> acc + lo <= pick < acc + lo + voting_power v.
Proof.
  induction l as [|w l IH]; intros Hok Hnd Hv; [by apply not_elem_of_nil in Hv|].
  inversion Hok as [|? ? [_ [Hw _]]%info_power Hok']; subst. cbn [map] in Hnd. apply list.NoDup_cons in Hnd as [Hn Hnd].
  pose proof (total_power_nonneg l Hok') as Htot. unfold total_power in *. cbn [foldr].
  apply elem_of_cons in Hv as [->|Hv].
  - exists 0. split_and!; [lia|lia|]. intros acc pick Hp. cbn. destruct (Z.ltb_spec pick (acc + voting_power w)).
    + split; [lia|done].
    + split; [intros Hb%bucket_in; done|lia].
  - destruct (IH Hok' Hnd Hv) as (lo & Hlo & Hhi & Hb). exists (voting_power w + lo). split_and!; [lia|lia|].
    intros acc pick Hp. cbn. destruct (Z.ltb_spec pick (acc + voting_power w)).
    + split; [|lia]. intros [= He]. exfalso. apply Hn. rewrite He. apply list_elem_of_In, in_map. by apply list_elem_of_In.
    + rewrite Hb by lia. lia.
Qed.

Lemma rotation_unique (l : list ValidatorInfo) v h : NoDup (map address l) -> v ∈ l ->
  exists! i, 0 <= i < zlen l /\ address <$> l !! Z.to_nat ((h + i) mod zlen l) = Some (address v).
Proof.
  intros Hnd [j Hj]%list_elem_of_lookup. pose proof (lookup_lt_Some _ _ _ Hj) as Hlt. set (n := zlen l).
  assert (0 < n /\ Z.of_nat j < n) as [Hn Hjn] by (unfold n, zlen; lia).
  exists ((Z.of_nat j - h) mod n). split; [split|].
  - apply Z.mod_pos_bound. lia.
  - rewrite Zplus_mod_idemp_r. replace (h + (Z.of_nat j - h)) with (Z.of_nat j) by lia. rewrite Z.mod_small, Nat2Z.id, Hj by lia. done.
  - intros i [Hi Hl]. destruct (l !! Z.to_nat ((h + i) mod n)) as [w|] eqn:Hw; [|done]. injection Hl as Hl.
    assert (Z.to_nat ((h + i) mod n) = j) as He.
    { apply (NoDup_lookup (map address l) _ _ (address v)); [done|..]; rewrite list_lookup_fmap, ?Hw, ?Hj; cbn; congruence. }
    pose proof (Z.mod_pos_bound (h + i) n Hn). rewrite <-(Z.mod_small i n) at 1 by lia.
    replace (Z.of_nat j) with ((h + i) mod n) by lia. rewrite Zminus_mod_idemp_l. f_equal. lia.
Qed.

Lemma round_robin_in vs h : vs <> [] -> exists a, round_robin vs h = Some a /\ a ∈ map address (sort_by power_le vs).
Proof.
  intros Hvs. unfold round_robin. set (l := sort_by power_le vs).
  assert (0 < zlen l) as Hl.
  { unfold zlen, l. rewrite (sort_by_perm power_le vs). destruct vs; [done|]. cbn. lia. }
  pose proof (Z.mod_pos_bound h (zlen l) Hl).
  destruct (lookup_lt_is_Some_2 l (Z.to_nat (h mod zlen l))) as [v Hv]; [unfold zlen in *; lia|]. rewrite Hv. exists (address v).
  split; [done|]. apply list_elem_of_In, in_map, list_elem_of_In. by eapply list_elem_of_lookup_2.
Qed.

Lemma total_power_perm l k : l ≡ₚ k -> total_power l = total_power k.
Proof. apply foldr_perm. Qed.

Lemma select_in algo s seed h : set_ok s -> eligible s <> [] ->
  exists a le, select_proposer algo s seed h = Some a /\ a ∈ map address (sort_by le (eligible s)).
Proof.
  intros Hs He. unfold select_proposer. destruct (is_nil (eligible s)) eqn:Hn; [by destruct (eligible s)|].
  destruct (round_robin_in (eligible s) h He) as (a & Ha & Hin).
  destruct algo; [by exists a, power_le| |].
  - destruct (Z.eqb_spec (total_power (eligible s)) 0) as [H0|H0]; [by exists a, power_le|]. unfold weighted_random.
    set (pick := _ mod _). assert (0 <= pick < total_power (eligible s)) as Hp.
    { apply Z.mod_pos_bound. pose proof (total_power_nonneg _ (eligible_info s Hs)). lia. }
    rewrite <-(total_power_perm _ _ (sort_by_perm address_le (eligible s))) in Hp.
    destruct (bucket_some (sort_by address_le (eligible s)) pick 0) as [x Hx]; [lia|]. exists x, address_le.
    split; [done|]. by eapply bucket_in.
  - pose proof (sort_by_perm address_le (eligible s)) as Hp. destruct (sort_by address_le (eligible s)) as [|v l] eqn:Hl.
    { by apply Permutation_nil_l in Hp. }
    exists (address v), address_le. rewrite Hl. split; [done|]. by apply elem_of_cons; left.
Qed.

(** Nobody proposes only when every member is jailed; a proposer is a member
    that is not jailed.  Taken in turn, every such member proposes once in as
    many heights as there are; drawn at random, each owns an interval of the
    draws as long as its power. *)
Theorem select_proposer_fair s : set_ok s ->
  (forall algo seed h, select_proposer algo s seed h = None <-> eligible s = []) /\
  (forall algo seed h a, select_proposer algo s seed h = Some a -> exists v, s !! a = Some v /\ jailed v = false) /\
  (forall a v, s !! a = Some v -> jailed v = false ->
    (forall seed h, exists! i, 0 <= i < zlen (eligible s) /\ select_proposer RoundRobin s seed (h + i) = Some a) /\
    exists lo, 0 <= lo /\ lo + voting_power v <= power_of (fun _ => true) s /\
      forall seed h, select_proposer WeightedRandom s seed h = Some a <->
        lo <= blake_u128 (seed ++ to_be 8 h) mod power_of (fun _ => true) s < lo + voting_power v).
Proof.
  intros Hs. pose proof (eligible_info s Hs) as Hok. pose proof (eligible_addresses s Hs) as Hnd.
  assert (forall le, NoDup (map address (sort_by le (eligible s)))) as Hnds.
  { intros le. eapply NoDup_Permutation_proper; [apply Permutation_map, sort_by_perm|done]. }
  split_and!.
  - intros algo seed h. split.
    + intros Hn. destruct (decide (eligible s = [])) as [|He]; [done|].
      destruct (select_in algo s seed h Hs He) as (a & le & Ha & _). congruence.
    + unfold select_proposer. by intros ->.
  - intros algo seed h a Ha. destruct (decide (eligible s = [])) as [He|He]; [unfold select_proposer in Ha; by rewrite He in Ha|].
    destruct (select_in algo s seed h Hs He) as (x & le & Hx & Hin). rewrite Hx in Ha. injection Ha as ->.
    apply list_elem_of_In, in_map_iff in Hin as (v & <- & Hv%list_elem_of_In). rewrite sort_by_perm in Hv.
    apply eligible_elem in Hv as [Hj (k & Hk)]. exists v. by destruct (Hs k v Hk) as [-> _].
  - intros a v Ha Hj. destruct (Hs a v Ha) as [<- Hv].
    assert (v ∈ eligible s) as Hin by (apply eligible_elem; split; [done|by eexists]).
    assert (is_nil (eligible s) = false) as Hnil by (destruct (eligible s); [by apply not_elem_of_nil in Hin|done]).
    unfold select_proposer. rewrite Hnil. split.
    + intros _ h. unfold round_robin.
      replace (zlen (eligible s)) with (zlen (sort_by power_le (eligible s))) by (unfold zlen; by rewrite sort_by_perm).
      apply rotation_unique; [done|]. by rewrite sort_by_perm.
    + destruct (bucket_interval (sort_by address_le (eligible s)) v) as (lo & Hlo & Hhi & Hb);
        [by rewrite sort_by_perm|done|by rewrite sort_by_perm|].
      rewrite (total_power_perm _ _ (sort_by_perm address_le (eligible s))), total_power_of in Hhi. exists lo. split_and!; [done..|].
      assert (0 < voting_power v) as Hpos.
      { destruct Hv as (_ & [Hp _] & _ & Hval). unfold info_validate in Hval. rewrite Hj in Hval. cbn in Hval.
        destruct (Z.eqb_spec (voting_power v) 0); [done|lia]. }
      intros seed h. rewrite total_power_of. destruct (Z.eqb_spec (power_of (fun _ => true) s) 0); [lia|]. unfold weighted_random.
      rewrite total_power_of, Hb; [by rewrite Z.add_0_l|]. apply Z.mod_pos_bound. lia.
Qed.

(** * Slashing types (crates/zbx-types/src/slashing.rs)

    Faults, penalties, evidence, the penalty of each fault and the records of
    what was applied, with their wire formats. *)

Inductive SlashingFault : Type := DoubleSign | DoubleVote | Equivocation | Inactivity | LongRangeAttack.
Definition fault_tag (f : SlashingFault) : Z :=
  match f with DoubleSign => 0 | DoubleVote => 1 | Equivocation => 2 | Inactivity => 3 | LongRangeAttack => 4 end.
Definition fault_from (t : Z) : res DecoderError SlashingFault :=
  if t =? 0 then Ok DoubleSign else if t =? 1 then Ok DoubleVote else if t =? 2 then Ok Equivocation
  else if t =? 3 then Ok Inactivity else if t =? 4 then Ok LongRangeAttack
  else Err (Custom "invalid SlashingFault byte").

Inductive SlashingPenalty : Type := BurnFraction (numer denom : Z) | Jail (until_height : Z) | Kick.
Definition penalty_validate (p : SlashingPenalty) : res DecoderError unit :=
  match p with
  | BurnFraction numer denom =>
    _ ← refuse (denom =? 0) "denom must be > 0"; refuse (denom <? numer) "numer must be <= denom"
  | Jail until_height => refuse (until_height =? 0) "until_height must be > 0"
  | Kick => Ok tt
  end.

Record SlashingEvidence : Type := mkEvidence {
  fault : SlashingFault; validator : Address; fault_height : Z; fault_view : Z;
  evidence_a_hash : Hash; evidence_b_hash : Hash; reported_at_height : Z }.
(** Inactivity alone may name one hash twice. *)
Definition hashes_must_differ (f : SlashingFault) : bool := match f with Inactivity => false | _ => true end.
Definition evidence_validate (s : SlashingEvidence) : res DecoderError unit :=
  _ ← refuse (fault_height s =? 0) "fault_height must be > 0";
  _ ← refuse (reported_at_height s <? fault_height s) "reported_at_height must be >= fault_height";
  refuse (hashes_must_differ (fault s) && bool_decide (evidence_a_hash s = evidence_b_hash s))
    "evidence_a_hash and evidence_b_hash must differ for non-Inactivity faults".
Definition evidence_new (f : SlashingFault) (v : Address) (fh fv : Z) (a b : Hash) (rh : Z) : res DecoderError SlashingEvidence :=
  validated evidence_validate (mkEvidence f v fh fv a b rh).

(** [SlashingParams]: keyed by the tag of the fault. *)
Abbreviation SlashingParams := (gmap Z SlashingPenalty).
Definition penalties_set (f : SlashingFault) (p : SlashingPenalty) (m : SlashingParams) : res DecoderError SlashingParams :=
  _ ← penalty_validate p; Ok (<[fault_tag f := p]> m).
Definition penalties_get (f : SlashingFault) (m : SlashingParams) : option SlashingPenalty := m !! fault_tag f.
(** Each [set] is unwrapped. *)
Definition penalties_mainnet : res DecoderError SlashingParams :=
  m ← penalties_set DoubleSign (BurnFraction 1 20) ∅;
  m ← penalties_set DoubleVote (BurnFraction 1 50) m;
  m ← penalties_set Equivocation (BurnFraction 1 100) m;
  m ← penalties_set Inactivity (Jail 1) m;
  penalties_set LongRangeAttack Kick m.

Record SlashingRecord : Type := mkRecord { evidence : SlashingEvidence; penalty : SlashingPenalty; applied_at_height : Z }.
Definition record_validate (s : SlashingRecord) : res DecoderError unit :=
  _ ← evidence_validate (evidence s);
  _ ← penalty_validate (penalty s);
  refuse (applied_at_height s <? reported_at_height (evidence s)) "applied_at_height must be >= reported_at_height".
Definition record_new (e : SlashingEvidence) (p : SlashingPenalty) (h : Z) : res DecoderError SlashingRecord :=
  validated record_validate (mkRecord e p h).

Abbreviation SlashingRegistry := (gmap Hash SlashingRecord).
Definition registry_insert (evidence_hash : Hash) (r : SlashingRecord) (m : SlashingRegistry) : res DecoderError SlashingRegistry :=
  _ ← refuse (bool_decide (is_Some (m !! evidence_hash))) "duplicate evidence_hash in SlashingRegistry";
  _ ← record_validate r;
  Ok (<[evidence_hash := r]> m).

(** ** Written and read *)

Section wire.
Context `{RC : RlpCrate} `{RV : RlpView} `{RM : RlpMore}.

Definition fault_rlp (f : SlashingFault) : item := uint_item (fault_tag f).
Definition fault_decode : Dec SlashingFault := tag_val fault_from.

Definition penalty_rlp (p : SlashingPenalty) : item :=
  match p with
  | BurnFraction numer denom => Lst [uint_item 0; uint_item numer; uint_item denom]
  | Jail until_height => Lst [uint_item 1; uint_item until_height]
  | Kick => Lst [uint_item 2]
  end.
Definition penalty_decode : Dec SlashingPenalty := fun rlp =>
  n ← count rlp;
  _ ← guard_err (n =? 0) RlpIncorrectListLen;
  tag ← field (uint_val 8) 0 rlp;
  p ← (if tag =? 0 then
         _ ← guard_err (negb (n =? 3)) RlpIncorrectListLen;
         numer ← field (uint_val 32) 1 rlp; denom ← field (uint_val 32) 2 rlp; Ok (BurnFraction numer denom)
       else if tag =? 1 then
         _ ← guard_err (negb (n =? 2)) RlpIncorrectListLen;
         until_height ← field (uint_val 64) 1 rlp; Ok (Jail until_height)
       else if tag =? 2 then
         _ ← guard_err (negb (n =? 1)) RlpIncorrectListLen; Ok Kick
       else Err (Custom "invalid SlashingPenalty tag"));
  validated penalty_validate p.

Definition evidence_rlp (s : SlashingEvidence) : item :=
  Lst [fault_rlp (fault s); Str (validator s); uint_item (fault_height s); uint_item (fault_view s);
       Str (evidence_a_hash s); Str (evidence_b_hash s); uint_item (reported_at_height s)].
Definition evidence_decode : Dec SlashingEvidence := fun rlp =>
  _ ← expect_count 7 rlp;
  f ← field fault_decode 0 rlp; v ← field decode_address 1 rlp;
  fh ← field (uint_val 64) 2 rlp; fv ← field (uint_val 32) 3 rlp;
  a ← field decode_h256 4 rlp; b ← field decode_h256 5 rlp; rh ← field (uint_val 64) 6 rlp;
  validated evidence_validate (mkEvidence f v fh fv a b rh).

Definition param_rlp (x : Z * SlashingPenalty) : item := Lst [uint_item x.1; penalty_rlp x.2].
Definition penalties_rlp (m : SlashingParams) : item := Lst (map param_rlp (z_list m)).
Definition param_row (prev : option Z) (it : bytes) : res DecoderError (Z * SlashingPenalty) :=
  _ ← expect_count 2 it;
  tag ← field (uint_val 8) 0 it;
  _ ← fault_from tag;
  _ ← ascending Z.leb prev tag "SlashingParams entries must be strictly ascending by fault tag";
  pen ← field penalty_decode 1 it;
  Ok (tag, pen).
Definition penalties_decode : Dec SlashingParams := rows_val param_row.

Definition record_rlp (s : SlashingRecord) : item :=
  Lst [evidence_rlp (evidence s); penalty_rlp (penalty s); uint_item (applied_at_height s)].
Definition record_decode : Dec SlashingRecord := fun rlp =>
  _ ← expect_count 3 rlp;
  e ← field evidence_decode 0 rlp; p ← field penalty_decode 1 rlp; h ← field (uint_val 64) 2 rlp;
  validated record_validate (mkRecord e p h).

Definition slash_row_rlp (x : Hash * SlashingRecord) : item := Lst [Str x.1; record_rlp x.2].
Definition registry_rlp (m : SlashingRegistry) : item := Lst (map slash_row_rlp (bytes_list m)).
Definition slash_row (prev : option Hash) (it : bytes) : res DecoderError (Hash * SlashingRecord) :=
  _ ← expect_count 2 it;
  h ← field decode_h256 0 it;
  _ ← ascending bytes_leb prev h "SlashingRegistry must be strictly ascending by evidence_hash";
  rec ← field record_decode 1 it;
  Ok (h, rec).
Definition registry_decode : Dec SlashingRegistry := rows_val slash_row.
End wire.

(** ** The wire formats *)

Section codecs.
Context {RC : RlpCrate} {RV : RlpView} {RL : RlpViewLaws} {RM : RlpMore} {RML : RlpMoreLaws}.

#[export] Instance fault_codec : Codec fault_rlp fault_decode (fun _ => True).
Proof. apply (tag_codec fault_tag fault_from); by intros []. Qed.

Definition penalty_ok (p : SlashingPenalty) : Prop :=
  match p with
  | BurnFraction numer denom => in_range 32 numer /\ in_range 32 denom | Jail h => in_range 64 h | Kick => True
  end /\ penalty_validate p = Ok tt.
#[export] Instance penalty_codec : Codec penalty_rlp penalty_decode penalty_ok.
Proof.
  split.
  - intros p [Hp Hv] Hok. assert (in_range 8 0 /\ in_range 8 1 /\ in_range 8 2) as (T0 & T1 & T2) by (unfold in_range; lia).
    unfold penalty_decode. destruct p as [n d|h|]; cbn [penalty_rlp] in *; [destruct Hp|..].
    all: read_out Hok; decide_guards; read_out Hok; decide_guards; read_out Hok; by apply validated_Ok.
  - intros b p Hb H. unfold penalty_decode in H. do 3 apply res_bind_Ok in H as (? & _ & H).
    apply res_bind_Ok in H as (q & Hq & H). apply validated_Ok in H as [Hv ->]. split; [|done].
    repeat match type of Hq with (if ?c then _ else _) = _ => destruct c end; try done; read_ok Hb Hq; done.
Qed.

Definition evidence_ok (s : SlashingEvidence) : Prop :=
  fixed_ok 20 (validator s) /\ in_range 64 (fault_height s) /\ in_range 32 (fault_view s) /\
  fixed_ok 32 (evidence_a_hash s) /\ fixed_ok 32 (evidence_b_hash s) /\ in_range 64 (reported_at_height s) /\
  evidence_validate s = Ok tt.
#[export] Instance evidence_codec : Codec evidence_rlp evidence_decode evidence_ok.
Proof.
  split.
  - intros s (H1 & H2 & H3 & H4 & H5 & H6 & Hv) Hok. unfold evidence_decode, evidence_rlp in *. read_out Hok.
    apply validated_Ok. by destruct s.
  - intros b s Hb H. unfold evidence_decode in H. read_ok Hb H. apply validated_Ok in H as [Hv ->]. by split_and!.
Qed.

Definition param_ok (t : Z) (p : SlashingPenalty) : Prop := in_range 8 t /\ is_ok (fault_from t) = true /\ penalty_ok p.
#[export] Instance penalties_codec : Codec penalties_rlp penalties_decode (map_Forall param_ok).
Proof.
  apply (rows_codec Z.leb param_rlp param_ok).
  - intros p t pen (Ht & Hf & Hpen) Hp Hok. unfold param_row, param_rlp in *. cbn [fst snd] in *. read_out Hok.
    destruct (fault_from t) as [f|e|]; [|done|done]. cbn [mbind res_bind]. rewrite ascending_out by done. cbn [mbind res_bind].
    by read_out Hok.
  - intros p b kv Hb H. unfold param_row in H. read_ok Hb H. cbn. unfold param_ok.
    match goal with H : fault_from _ = _ |- _ => rewrite H end. done.
Qed.

Definition record_ok (s : SlashingRecord) : Prop :=
  evidence_ok (evidence s) /\ penalty_ok (penalty s) /\ in_range 64 (applied_at_height s) /\ record_validate s = Ok tt.
#[export] Instance record_codec : Codec record_rlp record_decode record_ok.
Proof.
  split.
  - intros s (H1 & H2 & H3 & Hv) Hok. unfold record_decode, record_rlp in *. read_out Hok. apply validated_Ok. by destruct s.
  - intros b s Hb H. unfold record_decode in H. read_ok Hb H. apply validated_Ok in H as [Hv ->]. by split_and!.
Qed.

Definition registry_ok : SlashingRegistry -> Prop := map_Forall (fun h r => fixed_ok 32 h /\ record_ok r).
#[export] Instance registry_codec : Codec registry_rlp registry_decode registry_ok.
Proof.
  apply (rows_codec bytes_leb slash_row_rlp (fun h r => fixed_ok 32 h /\ record_ok r)).
  - intros p h r [Hh Hr] Hp Hok. unfold slash_row, slash_row_rlp in *. cbn [fst snd] in *. read_out Hok.
    rewrite ascending_out by done. cbn [mbind res_bind]. by read_out Hok.
  - intros p b kv Hb H. unfold slash_row in H. by read_ok Hb H.
Qed.
End codecs.

(** ** The registry *)

(** A record is entered once; what is entered is valid and can be stored, and
    nothing that was entered changes. *)
Lemma registry_insert_ok h r m m' : registry_insert h r m = Ok m' <->
  m !! h = None /\ record_validate r = Ok tt /\ m' = <[h := r]> m.
Proof.
  unfold registry_insert, refuse, guard_err. case_bool_decide as Hin; cbn.
  - split; [done|]. intros (Hn & _). rewrite Hn in Hin. by destruct Hin.
  - apply eq_None_not_Some in Hin. destruct (record_validate r) as [[]|e|]; cbn; split; try done; first [by intros [= <-]|by intros (_ & ? & ->)].
Qed.

(** The defaults for the main net are all valid; inactivity is jailed until
    height 1, which every block has passed. *)
Lemma mainnet_penalties : exists m, penalties_mainnet = Ok m /\
  penalties_get DoubleSign m = Some (BurnFraction 1 20) /\ penalties_get DoubleVote m = Some (BurnFraction 1 50) /\
  penalties_get Equivocation m = Some (BurnFraction 1 100) /\ penalties_get Inactivity m = Some (Jail 1) /\
  penalties_get LongRangeAttack m = Some Kick /\ map_Forall param_ok m.
Proof.
  eexists. split; [reflexivity|]. split_and!; [reflexivity..|]. repeat apply map_Forall_insert_2; [..|apply map_Forall_empty];
    unfold param_ok, penalty_ok, in_range; cbn; split_and!; done || lia.
Qed.
