(* ===== verification/PolicyTypes.v ===== *)
(** * Policies
      (crates/zbx-types/src/validation.rs, vm.rs, mempool.rs)

    The rules transactions, blocks and validators are checked by, the sandbox
    and gas policy of the virtual machine with its faults, and the admission
    policy of the mempool with its reasons to reject; the wire format of each. *)

From Stdlib Require Import ZArith Lia String Sorting.Sorted.
From stdpp Require Import base tactics list gmap countable numbers option strings fin_maps.
From S2P Require Import Prelude Bytes Crypto Collections Rlp Transaction RlpTypes ExecTypes.

Local Open Scope Z_scope.

(** ** Validation rules *)

Inductive SignatureScheme : Type := Secp256k1 | Ed25519 | Bls12381.
Definition scheme_tag (s : SignatureScheme) : Z := match s with Secp256k1 => 0 | Ed25519 => 1 | Bls12381 => 2 end.
Definition scheme_from (t : Z) : res DecoderError SignatureScheme :=
  match t with
  | 0 => Ok Secp256k1 | 1 => Ok Ed25519 | 2 => Ok Bls12381
  | _ => Err (Custom "invalid signature scheme byte")
  end.
#[export] Instance scheme_eq_dec : EqDecision SignatureScheme.
Proof. solve_decision. Defined.
#[export] Instance scheme_countable : Countable SignatureScheme.
Proof.
  refine (inj_countable scheme_tag (fun t => match scheme_from t with Ok s => Some s | _ => None end) _). by intros [].
Defined.
Definition scheme_le (a b : SignatureScheme) : bool := scheme_tag a <=? scheme_tag b.
#[export] Instance scheme_order : KeyOrder scheme_le.
Proof. apply tag_order. by intros [] []. Qed.

Inductive ValidationError : Type :=
| TxTooLarge (actual max : Z)
| BlockTooLarge (actual max : Z)
| GasTooLow (provided intrinsic_floor : Z)
| GasTooHigh (provided max : Z)
| DisallowedSignatureScheme (s : SignatureScheme)
| SignatureTooLarge (actual max : Z)
| PubkeyTooLarge (actual max : Z)
| ChainIdMismatch (expected got : Z)
| CallDataTooLarge (actual max : Z)
| ValidatorSetTooLarge (actual max : Z)
| StakeBelowMinimum (provided minimum : Z)
| NonCanonicalEncoding.

Record ValidationRules : Type := mkRules {
  max_validator_set_size : Z; min_validator_stake : Z; max_signature_size : Z; max_pubkey_size : Z;
  max_call_data_size : Z; allowed_signature_schemes : gset SignatureScheme; require_strict_canonical_encoding : bool }.

Definition rules_mainnet : ValidationRules :=
  mkRules 128 (100 * 1000000000000000000) 96 65 (64 * 1024) {[Secp256k1; Ed25519]} true.
Definition rules_testnet : ValidationRules :=
  mkRules 256 (min_validator_stake rules_mainnet) (max_signature_size rules_mainnet) (max_pubkey_size rules_mainnet)
    (128 * 1024) (allowed_signature_schemes rules_mainnet) false.

Definition rules_validate (s : ValidationRules) : res DecoderError unit :=
  _ ← refuse (max_validator_set_size s =? 0) "max_validator_set_size must be > 0";
  _ ← refuse (max_signature_size s =? 0) "max_signature_size must be > 0";
  _ ← refuse (max_pubkey_size s =? 0) "max_pubkey_size must be > 0";
  refuse (bool_decide (allowed_signature_schemes s = ∅)) "allowed_signature_schemes must be non-empty".

Definition check_tx_size (len : Z) (l : ExecutionLimits) : res ValidationError unit :=
  guard_err (max_tx_size l <? len) (TxTooLarge len (max_tx_size l)).
Definition check_block_size (len : Z) (l : ExecutionLimits) : res ValidationError unit :=
  guard_err (max_block_size l <? len) (BlockTooLarge len (max_block_size l)).
Definition check_tx_gas (gas_limit intrinsic_floor : Z) (l : ExecutionLimits) : res ValidationError unit :=
  _ ← guard_err (gas_limit <? intrinsic_floor) (GasTooLow gas_limit intrinsic_floor);
  guard_err (max_tx_gas l <? gas_limit) (GasTooHigh gas_limit (max_tx_gas l)).
Definition check_signature_scheme (s : ValidationRules) (scheme : SignatureScheme) : res ValidationError unit :=
  guard_err (negb (bool_decide (scheme ∈ allowed_signature_schemes s))) (DisallowedSignatureScheme scheme).
Definition check_signature_size (s : ValidationRules) (len : Z) : res ValidationError unit :=
  guard_err (max_signature_size s <? len) (SignatureTooLarge len (max_signature_size s)).
Definition check_pubkey_size (s : ValidationRules) (len : Z) : res ValidationError unit :=
  guard_err (max_pubkey_size s <? len) (PubkeyTooLarge len (max_pubkey_size s)).
Definition check_chain_id (expected got : Z) : res ValidationError unit :=
  guard_err (negb (expected =? got)) (ChainIdMismatch expected got).
Definition check_call_data_size (s : ValidationRules) (len : Z) : res ValidationError unit :=
  guard_err (max_call_data_size s <? len) (CallDataTooLarge len (max_call_data_size s)).
Definition check_validator_set_size (s : ValidationRules) (n : Z) : res ValidationError unit :=
  guard_err (max_validator_set_size s <? n) (ValidatorSetTooLarge n (max_validator_set_size s)).
Definition check_validator_stake (s : ValidationRules) (stake : Z) : res ValidationError unit :=
  guard_err (stake <? min_validator_stake s) (StakeBelowMinimum stake (min_validator_stake s)).

(** ** The sandbox *)

(** A [u16]: the group in its high byte. *)
Abbreviation OpcodeKind := Z.
Definition group (op : OpcodeKind) : Z := wrap 8 (Z.shiftr op 8).
Definition sub (op : OpcodeKind) : Z := Z.land op 0xff.
Definition opcode_validate (op : OpcodeKind) : res DecoderError unit :=
  match group op with
  | 0 | 1 | 2 | 3 | 4 => Ok tt
  | _ => Err (Custom "OpcodeKind: unknown group")
  end.

Inductive HostCallId : Type :=
| GetBalance | GetNonce | StorageRead | StorageWrite | EmitLog | Keccak256 | EcdsaVerify | GetBlockHeight
| GetBlockTimestamp | GetChainId | Call | SelfDestruct.
Definition host_tag (h : HostCallId) : Z :=
  match h with
  | GetBalance => 0 | GetNonce => 1 | StorageRead => 2 | StorageWrite => 3 | EmitLog => 4 | Keccak256 => 5
  | EcdsaVerify => 6 | GetBlockHeight => 7 | GetBlockTimestamp => 8 | GetChainId => 9 | Call => 10 | SelfDestruct => 11
  end.
Definition host_from (t : Z) : res DecoderError HostCallId :=
  match t with
  | 0 => Ok GetBalance | 1 => Ok GetNonce | 2 => Ok StorageRead | 3 => Ok StorageWrite | 4 => Ok EmitLog
  | 5 => Ok Keccak256 | 6 => Ok EcdsaVerify | 7 => Ok GetBlockHeight | 8 => Ok GetBlockTimestamp | 9 => Ok GetChainId
  | 10 => Ok Call | 11 => Ok SelfDestruct
  | _ => Err (Custom "HostCallId: unknown discriminant")
  end.
#[export] Instance host_eq_dec : EqDecision HostCallId.
Proof. solve_decision. Defined.
#[export] Instance host_countable : Countable HostCallId.
Proof. refine (inj_countable host_tag (fun t => match host_from t with Ok h => Some h | _ => None end) _). by intros []. Defined.
Definition host_le (a b : HostCallId) : bool := host_tag a <=? host_tag b.
#[export] Instance host_order : KeyOrder host_le.
Proof. apply tag_order. intros [] [] [=]; done. Qed.
Definition ALL : list HostCallId :=
  [GetBalance; GetNonce; StorageRead; StorageWrite; EmitLog; Keccak256; EcdsaVerify; GetBlockHeight; GetBlockTimestamp;
   GetChainId; Call; SelfDestruct].

Record OpcodeCost : Type := mkCost { base : Z; per_byte : Z }.
Definition cost_validate (c : OpcodeCost) : res DecoderError unit := refuse (base c =? 0) "OpcodeCost.base must be > 0".
Definition cost_new (b p : Z) : res DecoderError OpcodeCost := validated cost_validate (mkCost b p).
Definition gas_for (c : OpcodeCost) (n_bytes : Z) : Z := sat 64 (base c + sat 64 (per_byte c * n_bytes)).

Record SandboxLimits : Type := mkSandbox {
  sb_gas : Z; sb_instructions : Z; sb_memory_bytes : Z; sb_stack_depth : Z; sb_call_depth : Z; sb_storage_value_bytes : Z }.
Definition sandbox_mainnet : SandboxLimits := mkSandbox 30000000 10000000 (16 * 1024 * 1024) 1024 64 (32 * 1024).
Definition sandbox_testnet : SandboxLimits := mkSandbox 100000000 50000000 (64 * 1024 * 1024) 4096 128 (64 * 1024).
Definition sandbox_validate (s : SandboxLimits) : res DecoderError unit :=
  _ ← refuse (sb_gas s =? 0) "max_gas must be > 0";
  _ ← refuse (sb_instructions s =? 0) "max_instructions must be > 0";
  _ ← refuse (sb_memory_bytes s =? 0) "max_memory_bytes must be > 0";
  _ ← refuse (sb_stack_depth s =? 0) "max_stack_depth must be > 0";
  _ ← refuse (sb_call_depth s =? 0) "max_call_depth must be > 0";
  refuse (sb_storage_value_bytes s =? 0) "max_storage_value_bytes must be > 0".

Inductive VmError : Type :=
| VmOutOfGas (requested remaining : Z)
| OutOfInstructions (used max : Z)
| OutOfMemory (requested max : Z)
| StackOverflow (depth max : Z)
| StackUnderflow
| CallDepthExceeded (depth max : Z)
| IllegalOpcode (opcode : OpcodeKind)
| HostCallDenied (id : Z)
| InvalidJump (target : Z)
| InvalidMemoryAccess (offset size : Z)
| StorageValueTooLarge (actual max : Z)
| Reverted (reason_len : Z)
| InterpreterFault.
Definition vm_error_tag (e : VmError) : Z :=
  match e with
  | VmOutOfGas _ _ => 0 | OutOfInstructions _ _ => 1 | OutOfMemory _ _ => 2 | StackOverflow _ _ => 3 | StackUnderflow => 4
  | CallDepthExceeded _ _ => 5 | IllegalOpcode _ => 6 | HostCallDenied _ => 7 | InvalidJump _ => 8
  | InvalidMemoryAccess _ _ => 9 | StorageValueTooLarge _ _ => 10 | Reverted _ => 11 | InterpreterFault => 12
  end.

Record VmPolicy : Type := mkPolicy {
  vm_limits : SandboxLimits; default_cost : OpcodeCost; opcode_costs : gmap OpcodeKind OpcodeCost;
  host_whitelist : gmap HostCallId OpcodeCost }.
(** [expect] on the costs, which are valid. *)
Definition every_host (c : OpcodeCost) : gmap HostCallId OpcodeCost := foldl (fun m h => <[h := c]> m) ∅ ALL.
Definition vm_mainnet : VmPolicy := mkPolicy sandbox_mainnet (mkCost 2 0) ∅ (every_host (mkCost 100 0)).
Definition vm_testnet : VmPolicy := mkPolicy sandbox_testnet (mkCost 1 0) ∅ (every_host (mkCost 50 0)).

Definition vm_validate (p : VmPolicy) : res DecoderError unit :=
  _ ← sandbox_validate (vm_limits p);
  _ ← cost_validate (default_cost p);
  _ ← each (fun kc => _ ← opcode_validate kc.1; cost_validate kc.2) (z_list (opcode_costs p));
  _ ← each (fun hc => cost_validate hc.2) (btree_list host_le (host_whitelist p));
  refuse (bool_decide (host_whitelist p = ∅)) "host_whitelist must contain at least one entry".
Definition cost_of (p : VmPolicy) (op : OpcodeKind) : OpcodeCost := default (default_cost p) (opcode_costs p !! op).
Definition is_host_allowed (p : VmPolicy) (id : HostCallId) : bool := bool_decide (is_Some (host_whitelist p !! id)).

(** ** Admission to the mempool *)

Record RateLimitRule : Type := mkRate { capacity : Z; refill_per_block : Z }.
Definition rate_validate (r : RateLimitRule) : res DecoderError unit :=
  _ ← refuse (capacity r =? 0) "RateLimitRule.capacity must be > 0";
  _ ← refuse (refill_per_block r =? 0) "RateLimitRule.refill_per_block must be > 0";
  refuse (capacity r <? refill_per_block r) "RateLimitRule.refill_per_block must be <= capacity".
Definition rate_new (c r : Z) : res DecoderError RateLimitRule := validated rate_validate (mkRate c r).
Definition refill (r : RateLimitRule) (current n_blocks : Z) : Z :=
  Z.min (sat 32 (current + sat 32 (refill_per_block r * n_blocks))) (capacity r).

Record PriorityRule : Type := mkPriority { min_gas_price : Z; min_priority_tip : Z; prefer_first_seen : bool }.
Definition priority_mainnet : PriorityRule := mkPriority 1000000000 1 true.
Definition priority_testnet : PriorityRule := mkPriority 1 0 true.
Definition priority_validate (r : PriorityRule) : res DecoderError unit :=
  refuse (min_gas_price r =? 0) "min_gas_price must be > 0".

Record MempoolPolicy : Type := mkMempoolPolicy {
  max_pool_size : Z; max_per_account : Z; per_ip_rate_limit : RateLimitRule; per_account_rate_limit : RateLimitRule;
  priority : PriorityRule; duplicate_window_blocks : Z; eviction_high_water : Z }.
Definition mempool_mainnet : MempoolPolicy :=
  mkMempoolPolicy 5000 64 (mkRate 100 10) (mkRate 50 5) priority_mainnet 256 4500.
Definition mempool_testnet : MempoolPolicy :=
  mkMempoolPolicy 20000 256 (mkRate 1000 100) (mkRate 500 50) priority_testnet 64 18000.
Definition mempool_validate (p : MempoolPolicy) : res DecoderError unit :=
  _ ← refuse (max_pool_size p =? 0) "max_pool_size must be > 0";
  _ ← refuse (max_per_account p =? 0) "max_per_account must be > 0";
  _ ← refuse ((eviction_high_water p =? 0) || (max_pool_size p <? eviction_high_water p))
        "eviction_high_water must be > 0 and <= max_pool_size";
  _ ← rate_validate (per_ip_rate_limit p);
  _ ← rate_validate (per_account_rate_limit p);
  priority_validate (priority p).

Inductive MempoolReject : Type :=
| PoolFull
| AccountCapExceeded (current max : Z)
| IpRateLimited (tokens_left : Z)
| AccountRateLimited (tokens_left : Z)
| FeeTooLow (provided required : Z)
| Duplicate
| ValidationFailed (tag : Z).
Definition reject_tag (r : MempoolReject) : Z :=
  match r with
  | PoolFull => 0 | AccountCapExceeded _ _ => 1 | IpRateLimited _ => 2 | AccountRateLimited _ => 3 | FeeTooLow _ _ => 4
  | Duplicate => 5 | ValidationFailed _ => 6
  end.

(** ** Written and read *)

Section wire.
Context `{RC : RlpCrate} `{RV : RlpView} `{RM : RlpMore}.

Definition scheme_rlp (s : SignatureScheme) : item := uint_item (scheme_tag s).
Definition scheme_decode : Dec SignatureScheme := tag_val scheme_from.
Definition scheme_row (prev : option SignatureScheme) (it : bytes) : res DecoderError SignatureScheme :=
  s ← scheme_decode it;
  _ ← ascending scheme_le prev s "allowed_signature_schemes must be strictly ascending";
  Ok s.
Definition rules_rlp (s : ValidationRules) : item :=
  Lst [uint_item (max_validator_set_size s); u128_item (min_validator_stake s); uint_item (max_signature_size s);
       uint_item (max_pubkey_size s); uint_item (max_call_data_size s);
       Lst (map scheme_rlp (set_list scheme_le (allowed_signature_schemes s)));
       bool_item (require_strict_canonical_encoding s)].
Definition rules_decode : Dec ValidationRules := fun rlp =>
  _ ← expect_count 7 rlp;
  ms ← field (uint_val 32) 0 rlp; st ← field decode_u128 1 rlp; sg ← field (uint_val 16) 2 rlp;
  pk ← field (uint_val 16) 3 rlp; cd ← field (uint_val 32) 4 rlp;
  ss ← field (keys_val scheme_row) 5 rlp; sc ← field bool_val 6 rlp;
  validated rules_validate (mkRules ms st sg pk cd ss sc).

Definition opcode_decode : Dec OpcodeKind := fun rlp => v ← uint_val 16 rlp; validated opcode_validate v.
Definition host_rlp (h : HostCallId) : item := uint_item (host_tag h).
Definition host_decode : Dec HostCallId := tag_val host_from.
Definition cost_rlp (c : OpcodeCost) : item := Lst [uint_item (base c); uint_item (per_byte c)].
Definition cost_decode : Dec OpcodeCost := fun rlp =>
  _ ← expect_count 2 rlp;
  b ← field (uint_val 64) 0 rlp; p ← field (uint_val 64) 1 rlp;
  validated cost_validate (mkCost b p).

Definition sandbox_rlp (s : SandboxLimits) : item :=
  Lst [uint_item (sb_gas s); uint_item (sb_instructions s); uint_item (sb_memory_bytes s); uint_item (sb_stack_depth s);
       uint_item (sb_call_depth s); uint_item (sb_storage_value_bytes s)].
Definition sandbox_decode : Dec SandboxLimits := fun rlp =>
  _ ← expect_count 6 rlp;
  g ← field (uint_val 64) 0 rlp; i ← field (uint_val 64) 1 rlp; m ← field (uint_val 32) 2 rlp;
  sd ← field (uint_val 32) 3 rlp; cd ← field (uint_val 16) 4 rlp; sv ← field (uint_val 32) 5 rlp;
  validated sandbox_validate (mkSandbox g i m sd cd sv).

(** The fields after the tag. *)
Definition vm_error_fields (e : VmError) : list Z :=
  match e with
  | VmOutOfGas a b | OutOfInstructions a b | OutOfMemory a b | StackOverflow a b | CallDepthExceeded a b
  | InvalidMemoryAccess a b | StorageValueTooLarge a b => [a; b]
  | IllegalOpcode a | HostCallDenied a | InvalidJump a | Reverted a => [a]
  | StackUnderflow | InterpreterFault => []
  end.
Definition vm_error_rlp (e : VmError) : item := Lst (uint_item (vm_error_tag e) :: map uint_item (vm_error_fields e)).

(** [t if n == 3 => Ok(C { .. })] and the shorter arms. *)
Definition arm2 {A B C} (bad : string) (n : Z) (d1 : Dec A) (d2 : Dec B) (mk : A -> B -> C) : Dec C := fun rlp =>
  if n =? 3 then a ← field d1 1 rlp; b ← field d2 2 rlp; Ok (mk a b) else Err (Custom bad).
Definition arm1 {A C} (bad : string) (n : Z) (d : Dec A) (mk : A -> C) : Dec C := fun rlp =>
  if n =? 2 then a ← field d 1 rlp; Ok (mk a) else Err (Custom bad).
Definition arm0 {C} (bad : string) (n : Z) (c : C) : res DecoderError C := if n =? 1 then Ok c else Err (Custom bad).

Definition bad_vm_error : string := "VmError: unknown tag or arity mismatch".
Definition vm_error_decode : Dec VmError := fun rlp =>
  n ← count rlp;
  _ ← guard_err (n =? 0) RlpIncorrectListLen;
  tag ← field (uint_val 8) 0 rlp;
  match tag with
  | 0 => arm2 bad_vm_error n (uint_val 64) (uint_val 64) VmOutOfGas rlp
  | 1 => arm2 bad_vm_error n (uint_val 64) (uint_val 64) OutOfInstructions rlp
  | 2 => arm2 bad_vm_error n (uint_val 32) (uint_val 32) OutOfMemory rlp
  | 3 => arm2 bad_vm_error n (uint_val 32) (uint_val 32) StackOverflow rlp
  | 4 => arm0 bad_vm_error n StackUnderflow
  | 5 => arm2 bad_vm_error n (uint_val 16) (uint_val 16) CallDepthExceeded rlp
  | 6 => arm1 bad_vm_error n opcode_decode IllegalOpcode rlp
  | 7 => arm1 bad_vm_error n (uint_val 8) HostCallDenied rlp
  | 8 => arm1 bad_vm_error n (uint_val 32) InvalidJump rlp
  | 9 => arm2 bad_vm_error n (uint_val 32) (uint_val 32) InvalidMemoryAccess rlp
  | 10 => arm2 bad_vm_error n (uint_val 32) (uint_val 32) StorageValueTooLarge rlp
  | 11 => arm1 bad_vm_error n (uint_val 32) Reverted rlp
  | 12 => arm0 bad_vm_error n InterpreterFault
  | _ => Err (Custom bad_vm_error)
  end.

Definition opcode_cost_rlp (x : OpcodeKind * OpcodeCost) : item := Lst [uint_item x.1; cost_rlp x.2].
Definition host_cost_rlp (x : HostCallId * OpcodeCost) : item := Lst [host_rlp x.1; cost_rlp x.2].
Definition vm_policy_rlp (p : VmPolicy) : item :=
  Lst [sandbox_rlp (vm_limits p); cost_rlp (default_cost p); Lst (map opcode_cost_rlp (z_list (opcode_costs p)));
       Lst (map host_cost_rlp (btree_list host_le (host_whitelist p)))].
Definition opcode_cost_row (prev : option OpcodeKind) (it : bytes) : res DecoderError (OpcodeKind * OpcodeCost) :=
  _ ← expect_count 2 it;
  k ← field opcode_decode 0 it; c ← field cost_decode 1 it;
  _ ← ascending Z.leb prev k "opcode_costs must be strictly ascending";
  Ok (k, c).
Definition host_cost_row (prev : option HostCallId) (it : bytes) : res DecoderError (HostCallId * OpcodeCost) :=
  _ ← expect_count 2 it;
  h ← field host_decode 0 it; c ← field cost_decode 1 it;
  _ ← ascending host_le prev h "host_whitelist must be strictly ascending";
  Ok (h, c).
Definition vm_policy_decode : Dec VmPolicy := fun rlp =>
  _ ← expect_count 4 rlp;
  l ← field sandbox_decode 0 rlp; d ← field cost_decode 1 rlp;
  oc ← field (rows_val opcode_cost_row) 2 rlp; hw ← field (rows_val host_cost_row) 3 rlp;
  validated vm_validate (mkPolicy l d oc hw).

Definition rate_rlp (r : RateLimitRule) : item := Lst [uint_item (capacity r); uint_item (refill_per_block r)].
Definition rate_decode : Dec RateLimitRule := fun rlp =>
  _ ← expect_count 2 rlp;
  c ← field (uint_val 32) 0 rlp; r ← field (uint_val 32) 1 rlp;
  validated rate_validate (mkRate c r).
Definition priority_rlp (r : PriorityRule) : item :=
  Lst [uint_item (min_gas_price r); uint_item (min_priority_tip r); bool_item (prefer_first_seen r)].
Definition priority_decode : Dec PriorityRule := fun rlp =>
  _ ← expect_count 3 rlp;
  g ← field (uint_val 64) 0 rlp; t ← field (uint_val 64) 1 rlp; f ← field bool_val 2 rlp;
  validated priority_validate (mkPriority g t f).
Definition mempool_rlp (p : MempoolPolicy) : item :=
  Lst [uint_item (max_pool_size p); uint_item (max_per_account p); rate_rlp (per_ip_rate_limit p);
       rate_rlp (per_account_rate_limit p); priority_rlp (priority p); uint_item (duplicate_window_blocks p);
       uint_item (eviction_high_water p)].
Definition mempool_decode : Dec MempoolPolicy := fun rlp =>
  _ ← expect_count 7 rlp;
  ps ← field (uint_val 32) 0 rlp; pa ← field (uint_val 32) 1 rlp; ip ← field rate_decode 2 rlp; ac ← field rate_decode 3 rlp;
  pr ← field priority_decode 4 rlp; dw ← field (uint_val 32) 5 rlp; ev ← field (uint_val 32) 6 rlp;
  validated mempool_validate (mkMempoolPolicy ps pa ip ac pr dw ev).

Definition reject_fields (r : MempoolReject) : list Z :=
  match r with
  | AccountCapExceeded a b | FeeTooLow a b => [a; b]
  | IpRateLimited a | AccountRateLimited a | ValidationFailed a => [a]
  | PoolFull | Duplicate => []
  end.
Definition reject_rlp (r : MempoolReject) : item := Lst (uint_item (reject_tag r) :: map uint_item (reject_fields r)).
Definition bad_reject : string := "MempoolReject: unknown tag or arity mismatch".
Definition reject_decode : Dec MempoolReject := fun rlp =>
  n ← count rlp;
  _ ← guard_err (n =? 0) RlpIncorrectListLen;
  tag ← field (uint_val 8) 0 rlp;
  match tag with
  | 0 => arm0 bad_reject n PoolFull
  | 1 => arm2 bad_reject n (uint_val 32) (uint_val 32) AccountCapExceeded rlp
  | 2 => arm1 bad_reject n (uint_val 32) IpRateLimited rlp
  | 3 => arm1 bad_reject n (uint_val 32) AccountRateLimited rlp
  | 4 => arm2 bad_reject n (uint_val 64) (uint_val 64) FeeTooLow rlp
  | 5 => arm0 bad_reject n Duplicate
  | 6 => arm1 bad_reject n (uint_val 8) ValidationFailed rlp
  | _ => Err (Custom bad_reject)
  end.
End wire.

(** ** The wire formats *)

Section codecs.
Context {RC : RlpCrate} {RV : RlpView} {RL : RlpViewLaws} {RM : RlpMore} {RML : RlpMoreLaws}.

#[export] Instance scheme_codec : Codec scheme_rlp scheme_decode (fun _ => True).
Proof. apply (tag_codec scheme_tag scheme_from); by intros []. Qed.
#[export] Instance schemes_codec : Codec (set_rlp scheme_le scheme_rlp) (keys_val scheme_row) (set_Forall (fun _ => True)).
Proof.
  apply (keys_codec scheme_le scheme_rlp (fun _ => True)); [|done]. intros p s _ Hp Hok. unfold scheme_row.
  rewrite codec_rt by done. cbn [mbind res_bind]. by rewrite ascending_out.
Qed.

Definition rules_ok (s : ValidationRules) : Prop :=
  in_range 32 (max_validator_set_size s) /\ in_range 128 (min_validator_stake s) /\ in_range 16 (max_signature_size s) /\
  in_range 16 (max_pubkey_size s) /\ in_range 32 (max_call_data_size s) /\ rules_validate s = Ok tt.
#[export] Instance rules_codec : Codec rules_rlp rules_decode rules_ok.
Proof.
  split.
  - intros s (H1 & H2 & H3 & H4 & H5 & Hv) Hok. unfold rules_decode, rules_rlp in *. read_out Hok. apply validated_Ok. by destruct s.
  - intros b s Hb H. unfold rules_decode in H. read_ok Hb H. apply validated_Ok in H as [Hv ->]. by split_and!.
Qed.

Definition opcode_ok (op : OpcodeKind) : Prop := in_range 16 op /\ opcode_validate op = Ok tt.
#[export] Instance opcode_codec : Codec uint_item opcode_decode opcode_ok.
Proof.
  split.
  - intros op [Ho Hv] Hok. unfold opcode_decode. rewrite (codec_rt (Codec := uint_codec 16 ltac:(lia))) by done. by apply validated_Ok.
  - intros b op Hb H. unfold opcode_decode in H. apply res_bind_Ok in H as (v & Hv & H). apply validated_Ok in H as [Ho ->].
    split; [|done]. by eapply (codec_ok (Codec := uint_codec 16 ltac:(lia))).
Qed.
#[export] Instance host_codec : Codec host_rlp host_decode (fun _ => True).
Proof. apply (tag_codec host_tag host_from); by intros []. Qed.
Definition cost_ok (c : OpcodeCost) : Prop := in_range 64 (base c) /\ in_range 64 (per_byte c) /\ cost_validate c = Ok tt.
#[export] Instance cost_codec : Codec cost_rlp cost_decode cost_ok.
Proof.
  split.
  - intros c (H1 & H2 & Hv) Hok. unfold cost_decode, cost_rlp in *. read_out Hok. apply validated_Ok. by destruct c.
  - intros b c Hb H. unfold cost_decode in H. read_ok Hb H. apply validated_Ok in H as [Hv ->]. by split_and!.
Qed.
Definition sandbox_ok (s : SandboxLimits) : Prop :=
  in_range 64 (sb_gas s) /\ in_range 64 (sb_instructions s) /\ in_range 32 (sb_memory_bytes s) /\
  in_range 32 (sb_stack_depth s) /\ in_range 16 (sb_call_depth s) /\ in_range 32 (sb_storage_value_bytes s) /\
  sandbox_validate s = Ok tt.
#[export] Instance sandbox_codec : Codec sandbox_rlp sandbox_decode sandbox_ok.
Proof.
  split.
  - intros s (H1 & H2 & H3 & H4 & H5 & H6 & Hv) Hok. unfold sandbox_decode, sandbox_rlp in *. read_out Hok.
    apply validated_Ok. by destruct s.
  - intros b s Hb H. unfold sandbox_decode in H. read_ok Hb H. apply validated_Ok in H as [Hv ->]. by split_and!.
Qed.

Definition vm_error_ok (e : VmError) : Prop :=
  match e with
  | VmOutOfGas a b | OutOfInstructions a b => in_range 64 a /\ in_range 64 b
  | OutOfMemory a b | StackOverflow a b | InvalidMemoryAccess a b | StorageValueTooLarge a b => in_range 32 a /\ in_range 32 b
  | CallDepthExceeded a b => in_range 16 a /\ in_range 16 b
  | IllegalOpcode a => opcode_ok a | HostCallDenied a => in_range 8 a | InvalidJump a | Reverted a => in_range 32 a
  | StackUnderflow | InterpreterFault => True
  end.
Lemma small_tag t : 0 <= t < 256 -> in_range 8 t.
Proof. done. Qed.
#[export] Instance vm_error_codec : Codec vm_error_rlp vm_error_decode vm_error_ok.
Proof.
  split.
  - intros e He Hok. assert (in_range 8 (vm_error_tag e)) as Ht by (apply small_tag; destruct e; cbn; lia).
    unfold vm_error_decode, vm_error_rlp in *.
    destruct e; cbn [vm_error_fields vm_error_tag map vm_error_ok] in *; try destruct He; read_out Hok; decide_guards; read_out Hok;
      unfold arm0, arm1, arm2; decide_guards; by read_out Hok.
  - intros b e Hb H. unfold vm_error_decode, arm0, arm1, arm2 in H. apply res_bind_Ok in H as (n & _ & H).
    apply res_bind_Ok in H as (? & _ & H). apply res_bind_Ok in H as (t & _ & H).
    repeat case_match; try done; read_ok Hb H; done.
Qed.

Lemma opcode_costs_codec : Codec (map_rlp Z.leb opcode_cost_rlp) (rows_val opcode_cost_row) (map_Forall (fun k c => opcode_ok k /\ cost_ok c)).
Proof.
  apply rows_codec; [apply _| |].
  - intros p k c [Hk Hc] Hp Hok. unfold opcode_cost_row, opcode_cost_rlp in *. cbn [fst snd] in *. read_out Hok. by rewrite ascending_out.
  - intros p b kv Hb H. unfold opcode_cost_row in H. by read_ok Hb H.
Qed.
Lemma host_costs_codec : Codec (map_rlp host_le host_cost_rlp) (rows_val host_cost_row) (map_Forall (fun _ c => cost_ok c)).
Proof.
  apply rows_codec; [apply _| |].
  - intros p k c Hc Hp Hok. unfold host_cost_row, host_cost_rlp in *. cbn [fst snd] in *. read_out Hok. by rewrite ascending_out.
  - intros p b kv Hb H. unfold host_cost_row in H. by read_ok Hb H.
Qed.
Definition vm_policy_ok (p : VmPolicy) : Prop :=
  sandbox_ok (vm_limits p) /\ cost_ok (default_cost p) /\ map_Forall (fun k c => opcode_ok k /\ cost_ok c) (opcode_costs p) /\
  map_Forall (fun _ c => cost_ok c) (host_whitelist p) /\ vm_validate p = Ok tt.
#[export] Instance vm_policy_codec : Codec vm_policy_rlp vm_policy_decode vm_policy_ok.
Proof.
  pose proof opcode_costs_codec. pose proof host_costs_codec. split.
  - intros p (H1 & H2 & H3 & H4 & Hv) Hok. unfold vm_policy_decode, vm_policy_rlp in *. read_out Hok. apply validated_Ok. by destruct p.
  - intros b p Hb Hd. unfold vm_policy_decode in Hd. read_ok Hb Hd. apply validated_Ok in Hd as [Hv ->]. by split_and!.
Qed.

Definition rate_ok (r : RateLimitRule) : Prop := in_range 32 (capacity r) /\ in_range 32 (refill_per_block r) /\ rate_validate r = Ok tt.
#[export] Instance rate_codec : Codec rate_rlp rate_decode rate_ok.
Proof.
  split.
  - intros c (H1 & H2 & Hv) Hok. unfold rate_decode, rate_rlp in *. read_out Hok. apply validated_Ok. by destruct c.
  - intros b c Hb H. unfold rate_decode in H. read_ok Hb H. apply validated_Ok in H as [Hv ->]. by split_and!.
Qed.
Definition priority_ok (r : PriorityRule) : Prop :=
  in_range 64 (min_gas_price r) /\ in_range 64 (min_priority_tip r) /\ priority_validate r = Ok tt.
#[export] Instance priority_codec : Codec priority_rlp priority_decode priority_ok.
Proof.
  split.
  - intros c (H1 & H2 & Hv) Hok. unfold priority_decode, priority_rlp in *. read_out Hok. apply validated_Ok. by destruct c.
  - intros b c Hb H. unfold priority_decode in H. read_ok Hb H. apply validated_Ok in H as [Hv ->]. by split_and!.
Qed.
Definition mempool_ok (p : MempoolPolicy) : Prop :=
  in_range 32 (max_pool_size p) /\ in_range 32 (max_per_account p) /\ rate_ok (per_ip_rate_limit p) /\
  rate_ok (per_account_rate_limit p) /\ priority_ok (priority p) /\ in_range 32 (duplicate_window_blocks p) /\
  in_range 32 (eviction_high_water p) /\ mempool_validate p = Ok tt.
#[export] Instance mempool_codec : Codec mempool_rlp mempool_decode mempool_ok.
Proof.
  split.
  - intros p (H1 & H2 & H3 & H4 & H5 & H6 & H7 & Hv) Hok. unfold mempool_decode, mempool_rlp in *. read_out Hok.
    apply validated_Ok. by destruct p.
  - intros b p Hb H. unfold mempool_decode in H. read_ok Hb H. apply validated_Ok in H as [Hv ->]. by split_and!.
Qed.

Definition reject_ok (r : MempoolReject) : Prop :=
  match r with
  | AccountCapExceeded a b => in_range 32 a /\ in_range 32 b | FeeTooLow a b => in_range 64 a /\ in_range 64 b
  | IpRateLimited a | AccountRateLimited a => in_range 32 a | ValidationFailed a => in_range 8 a | PoolFull | Duplicate => True
  end.
#[export] Instance reject_codec : Codec reject_rlp reject_decode reject_ok.
Proof.
  split.
  - intros e He Hok. assert (in_range 8 (reject_tag e)) as Ht by (apply small_tag; destruct e; cbn; lia).
    unfold reject_decode, reject_rlp in *.
    destruct e; cbn [reject_fields reject_tag map reject_ok] in *; try destruct He; read_out Hok; decide_guards; read_out Hok;
      unfold arm0, arm1, arm2; decide_guards; by read_out Hok.
  - intros b e Hb H. unfold reject_decode, arm0, arm1, arm2 in H. apply res_bind_Ok in H as (n & _ & H).
    apply res_bind_Ok in H as (? & _ & H). apply res_bind_Ok in H as (t & _ & H).
    repeat case_match; try done; read_ok Hb H; done.
Qed.
End codecs.

(** ** What the policies promise *)

(** The defaults can be written down and read back. *)
Lemma defaults_ok : rules_ok rules_mainnet /\ rules_ok rules_testnet /\ vm_policy_ok vm_mainnet /\ vm_policy_ok vm_testnet /\
  mempool_ok mempool_mainnet /\ mempool_ok mempool_testnet.
Proof.
  assert (forall c, cost_ok c -> map_Forall (fun _ c => cost_ok c) (every_host c)) as Hh.
  { intros c Hc. unfold every_host, ALL. cbn [foldl]. by repeat apply map_Forall_insert_2. }
  assert (cost_ok (mkCost 100 0) /\ cost_ok (mkCost 50 0)) as [C1 C2] by done.
  unfold vm_policy_ok. split_and!; try done; by apply Hh || apply map_Forall_empty.
Qed.

(** A bucket never holds more than its capacity, time only fills it, and
    filling it in two goes is filling it in one. *)
Lemma refill_min r current n : rate_ok r -> 0 <= current -> 0 <= n ->
  refill r current n = Z.min (current + refill_per_block r * n) (capacity r).
Proof.
  intros (Hc & Hr & _) Hcur Hn. unfold refill, sat, in_range in *.
  assert (0 <= refill_per_block r * n) as Ha by nia. revert Ha. generalize (refill_per_block r * n). intros a Ha. lia.
Qed.
Lemma refill_ok r current n m : rate_ok r -> 0 <= current <= capacity r -> 0 <= n -> 0 <= m ->
  0 <= refill r current n <= capacity r /\ current <= refill r current n /\
  refill r (refill r current n) m = refill r current (n + m).
Proof.
  intros Hok Hcur Hn Hm. destruct (Hok) as (Hc & Hr & _). unfold in_range in *.
  assert (0 <= refill_per_block r * n /\ 0 <= refill_per_block r * m) as [Ha Hb] by nia.
  assert (0 <= refill r current n) as H0 by (rewrite refill_min by (done || lia); lia).
  rewrite !(refill_min r) by (done || lia). rewrite Z.mul_add_distr_l. lia.
Qed.
