(* ===== verification/MarketTypes.v ===== *)
(** * Price feeds and guards
      (crates/zbx-types/src/defi.rs, oracle.rs)

    Time-weighted average prices over a buffer of cumulative prices, slippage
    caps, the reentrancy map, and the oracle's feeds: who may report, how often
    and how reports are combined; the wire format of each. *)

From Stdlib Require Import ZArith Lia String Sorting.Sorted.
From stdpp Require Import base tactics list gmap countable numbers option strings fin_maps.
From S2P Require Import Prelude Bytes Crypto Collections Rlp Transaction RlpTypes ExecTypes PolicyTypes.

Local Open Scope Z_scope.

(** ** Averages over time *)

Record PriceObservation : Type := mkObs { timestamp_unix : Z; cumulative_price : Z }.
Record TwapWindow : Type := mkTwap {
  token_a : Address; token_b : Address; window_secs : Z; max_observations : Z; observations : list PriceObservation }.

(** [self.observations.windows(2)] *)
Fixpoint time_ordered (obs : list PriceObservation) : res DecoderError unit :=
  match obs with
  | a :: ((b :: _) as rest) =>
    _ ← refuse (timestamp_unix b <=? timestamp_unix a) "TwapWindow: observations must be strictly time-ordered";
    _ ← refuse (cumulative_price b <? cumulative_price a) "TwapWindow: cumulative_price must be non-decreasing";
    time_ordered rest
  | _ => Ok tt
  end.
Definition twap_validate (w : TwapWindow) : res DecoderError unit :=
  _ ← refuse (bool_decide (token_a w = token_b w)) "TwapWindow: token_a == token_b";
  _ ← refuse (window_secs w =? 0) "TwapWindow: window_secs = 0";
  _ ← refuse (max_observations w =? 0) "TwapWindow: max_observations = 0";
  _ ← refuse (max_observations w <? zlen (observations w)) "TwapWindow: too many observations";
  time_ordered (observations w).
Definition twap_new (a b : Address) : res DecoderError TwapWindow := validated twap_validate (mkTwap a b (30 * 60) 256 []).

Definition record (obs : PriceObservation) : M TwapWindow DecoderError unit :=
  w ← get_st;
  _ ← match last (observations w) with
      | Some l =>
        _ ← throw_if (timestamp_unix obs <=? timestamp_unix l) (Custom "TwapWindow::record: timestamp not strictly newer");
        throw_if (cumulative_price obs <? cumulative_price l) (Custom "TwapWindow::record: cumulative_price decreased")
      | None => mret tt
      end;
  let pushed := observations w ++ [obs] in
  put_st (mkTwap (token_a w) (token_b w) (window_secs w) (max_observations w)
            (if max_observations w <? zlen pushed then tail pushed else pushed)).

(** The loop that looks for the last observation at or before [target]; it
    stops at the first that is later. *)
Fixpoint start_index (target : Z) (i : nat) (found : option nat) (obs : list PriceObservation) : option nat :=
  match obs with
  | o :: rest => if timestamp_unix o <=? target then start_index target (S i) (Some i) rest else found
  | [] => found
  end.

Definition compute (now_unix : Z) (w : TwapWindow) : option Z :=
  if zlen (observations w) <? 2 then None else
  target_start ← checked 64 (now_unix - window_secs w);
  l ← last (observations w);
  if timestamp_unix l <? target_start then None else
  start_obs ← observations w !! default O (start_index target_start 0 None (observations w));
  dt ← checked 64 (timestamp_unix l - timestamp_unix start_obs);
  if dt =? 0 then None else
  dprice ← checked 256 (cumulative_price l - cumulative_price start_obs);
  Some (dprice / dt).

(** ** Slippage and reentrancy *)

Abbreviation SlippagePolicy := Z.
Definition ABSOLUTE_MAX_BPS : Z := 1000.
Definition slippage_validate (max_bps : SlippagePolicy) : res DecoderError unit :=
  _ ← refuse (max_bps =? 0) "SlippagePolicy: max_bps = 0";
  refuse (ABSOLUTE_MAX_BPS <? max_bps) "SlippagePolicy: max_bps > 1000 (10%)".
Definition slippage_new (max_bps : Z) : res DecoderError SlippagePolicy := validated slippage_validate max_bps.

Inductive ReentrancyState : Type := Idle | Entered.
#[export] Instance reentrancy_eq_dec : EqDecision ReentrancyState.
Proof. solve_decision. Defined.
Definition reentrancy_tag (s : ReentrancyState) : Z := match s with Idle => 0 | Entered => 1 end.
Definition reentrancy_from (t : Z) : res DecoderError ReentrancyState :=
  match t with 0 => Ok Idle | 1 => Ok Entered | _ => Err (Custom "invalid ReentrancyState tag") end.

Abbreviation ReentrancyMap := (gmap Address ReentrancyState).
(** [entry(contract).or_insert(Idle)] *)
Definition enter (contract : Address) : M ReentrancyMap DecoderError unit :=
  m ← get_st;
  let st := default Idle (m !! contract) in
  match st with
  | Idle => put_st (<[contract := Entered]> m)
  | Entered => _ ← put_st (<[contract := st]> m); throw (Custom "ReentrancyMap: re-entry detected")
  end.
Definition exit (contract : Address) (m : ReentrancyMap) : ReentrancyMap := alter (fun _ => Idle) contract m.
Definition is_entered (contract : Address) (m : ReentrancyMap) : bool :=
  match m !! contract with Some st => bool_decide (st = Entered) | None => false end.

(** ** Oracle feeds *)

Abbreviation FeedId := bytes.
(** [is_ascii_graphic] of every character. *)
Definition graphic (b : Z) : bool := (33 <=? b) && (b <=? 126).
Definition feed_validate (f : FeedId) : res DecoderError unit :=
  _ ← refuse (is_nil f) "FeedId must be non-empty";
  _ ← refuse (32 <? zlen f) "FeedId exceeds 32 chars";
  refuse (negb (forallb graphic f)) "FeedId must be printable ASCII".

Inductive AggregationKind : Type := Median | TrimmedMean (trim_each_side : Z) | StakeWeightedMean.
Definition aggregation_tag (a : AggregationKind) : Z := match a with Median => 0 | TrimmedMean _ => 1 | StakeWeightedMean => 2 end.

Record OracleSubmission : Type := mkSubmission {
  feed : FeedId; submitter : Address; source_height : Z; source_timestamp_ms : Z; value : Z }.
Definition submission_validate (s : OracleSubmission) : res DecoderError unit :=
  _ ← feed_validate (feed s);
  _ ← refuse (source_height s =? 0) "source_height must be > 0";
  refuse (source_timestamp_ms s =? 0) "source_timestamp_ms must be > 0".

Record OracleFeedSpec : Type := mkSpec {
  feed_id : FeedId; aggregation : AggregationKind; decimals : Z; min_submissions : Z; max_staleness_ms : Z;
  max_deviation_bps : Z; authorized_submitters : gset Address }.
Definition spec_validate (s : OracleFeedSpec) : res DecoderError unit :=
  _ ← feed_validate (feed_id s);
  _ ← refuse (30 <? decimals s) "decimals must be <= 30";
  _ ← refuse (min_submissions s =? 0) "min_submissions must be > 0";
  _ ← refuse (u32 (Z.of_nat (size (authorized_submitters s))) <? min_submissions s)
        "authorized_submitters must contain >= min_submissions entries";
  _ ← refuse (max_staleness_ms s =? 0) "max_staleness_ms must be > 0";
  _ ← refuse (max_deviation_bps s =? 0) "max_deviation_bps must be > 0";
  _ ← refuse (100000 <? max_deviation_bps s) "max_deviation_bps must be <= 100000 (1000%)";
  match aggregation s with
  | TrimmedMean trim => refuse (min_submissions s <? sat 32 (sat 32 (trim * 2) + 1)) "TrimmedMean: min_submissions must be >= 2*trim+1"
  | _ => Ok tt
  end.

Abbreviation OraclePolicy := (gmap FeedId OracleFeedSpec).
Definition feed_upsert (s : OracleFeedSpec) (m : OraclePolicy) : res DecoderError OraclePolicy :=
  _ ← spec_validate s; Ok (<[feed_id s := s]> m).

Inductive OracleReject : Type :=
| NotEnoughSubmissions (got need : Z)
| UnauthorizedSubmitter
| Stale (age_ms max_ms : Z)
| DeviationExceeded (delta_bps max_bps : Z)
| TrimmedMeanInsufficient (got need : Z)
| UnknownFeed.
Definition oracle_reject_tag (r : OracleReject) : Z :=
  match r with
  | NotEnoughSubmissions _ _ => 0 | UnauthorizedSubmitter => 1 | Stale _ _ => 2 | DeviationExceeded _ _ => 3
  | TrimmedMeanInsufficient _ _ => 4 | UnknownFeed => 5
  end.

(** ** Written and read *)

Section wire.
Context `{RC : RlpCrate} `{RV : RlpView} `{RM : RlpMore}.

(** [append_u256] writes 32 bytes; [decode_u256] pads what is shorter. *)
Definition u256_item (v : Z) : item := Str (to_be 32 v).
Definition decode_u256 : Dec Z := fun b =>
  d ← bytes_val b; _ ← refuse (32 <? zlen d) "U256 must be ≤ 32 bytes"; Ok (be_val d).

Definition obs_rlp (o : PriceObservation) : item := Lst [uint_item (timestamp_unix o); u256_item (cumulative_price o)].
Definition obs_decode : Dec PriceObservation := fun rlp =>
  _ ← expect_count 2 rlp;
  t ← field (uint_val 64) 0 rlp; c ← field decode_u256 1 rlp;
  Ok (mkObs t c).
Definition twap_rlp (w : TwapWindow) : item :=
  Lst [Str (token_a w); Str (token_b w); uint_item (window_secs w); uint_item (max_observations w);
       Lst (map obs_rlp (observations w))].
Definition twap_decode : Dec TwapWindow := fun rlp =>
  _ ← expect_count 5 rlp;
  a ← field decode_address 0 rlp; b ← field decode_address 1 rlp;
  ws ← field (uint_val 64) 2 rlp; mo ← field (uint_val 32) 3 rlp; obs ← field (vec_val obs_decode) 4 rlp;
  validated twap_validate (mkTwap a b ws mo obs).

Definition slippage_rlp (p : SlippagePolicy) : item := Lst [uint_item p].
Definition slippage_decode : Dec SlippagePolicy := fun rlp =>
  _ ← expect_count 1 rlp; b ← field (uint_val 16) 0 rlp; validated slippage_validate b.

Definition reentrancy_rlp (s : ReentrancyState) : item := uint_item (reentrancy_tag s).
Definition reentrancy_decode : Dec ReentrancyState := tag_val reentrancy_from.
Definition guard_rlp (x : Address * ReentrancyState) : item := Lst [Str x.1; reentrancy_rlp x.2].
Definition guards_rlp (m : ReentrancyMap) : item := Lst (map guard_rlp (bytes_list m)).
Definition guard_row (pair : bytes) : res DecoderError (Address * ReentrancyState) :=
  _ ← expect_count 2 pair;
  a ← field decode_address 0 pair; st ← field reentrancy_decode 1 pair;
  Ok (a, st).
Definition guards_decode : Dec ReentrancyMap := indexed_val guard_row.

Definition feed_decode : Dec FeedId := fun rlp => raw ← string_val rlp; validated feed_validate raw.
Definition aggregation_rlp (a : AggregationKind) : item :=
  match a with
  | TrimmedMean trim => Lst [uint_item (aggregation_tag a); uint_item trim]
  | _ => Lst [uint_item (aggregation_tag a)]
  end.
Definition bad_aggregation : string := "AggregationKind: unknown tag or arity mismatch".
Definition aggregation_decode : Dec AggregationKind := fun rlp =>
  n ← count rlp;
  _ ← guard_err (n =? 0) RlpIncorrectListLen;
  tag ← field (uint_val 8) 0 rlp;
  match tag with
  | 0 => arm0 bad_aggregation n Median
  | 1 => arm1 bad_aggregation n (uint_val 8) TrimmedMean rlp
  | 2 => arm0 bad_aggregation n StakeWeightedMean
  | _ => Err (Custom bad_aggregation)
  end.

Definition submission_rlp (s : OracleSubmission) : item :=
  Lst [Str (feed s); Str (submitter s); uint_item (source_height s); uint_item (source_timestamp_ms s); u128_item (value s)].
Definition submission_decode : Dec OracleSubmission := fun rlp =>
  _ ← expect_count 5 rlp;
  f ← field feed_decode 0 rlp; a ← field decode_address 1 rlp; h ← field (uint_val 64) 2 rlp;
  t ← field (uint_val 64) 3 rlp; v ← field decode_u128 4 rlp;
  validated submission_validate (mkSubmission f a h t v).

Definition submitter_key (prev : option Address) (it : bytes) : res DecoderError Address :=
  a ← decode_address it;
  _ ← ascending bytes_leb prev a "authorized_submitters must be strictly ascending";
  Ok a.
Definition spec_rlp (s : OracleFeedSpec) : item :=
  Lst [Str (feed_id s); aggregation_rlp (aggregation s); uint_item (decimals s); uint_item (min_submissions s);
       uint_item (max_staleness_ms s); uint_item (max_deviation_bps s);
       Lst (map Str (set_list bytes_leb (authorized_submitters s)))].
Definition spec_decode : Dec OracleFeedSpec := fun rlp =>
  _ ← expect_count 7 rlp;
  f ← field feed_decode 0 rlp; a ← field aggregation_decode 1 rlp; d ← field (uint_val 8) 2 rlp;
  ms ← field (uint_val 8) 3 rlp; st ← field (uint_val 64) 4 rlp; dv ← field (uint_val 32) 5 rlp;
  au ← field (keys_val submitter_key) 6 rlp;
  validated spec_validate (mkSpec f a d ms st dv au).

Definition feed_row_rlp (x : FeedId * OracleFeedSpec) : item := Lst [Str x.1; spec_rlp x.2].
Definition feeds_rlp (m : OraclePolicy) : item := Lst (map feed_row_rlp (bytes_list m)).
Definition feed_row (prev : option FeedId) (it : bytes) : res DecoderError (FeedId * OracleFeedSpec) :=
  _ ← expect_count 2 it;
  id ← field feed_decode 0 it; spec ← field spec_decode 1 it;
  _ ← refuse (negb (bool_decide (feed_id spec = id))) "OraclePolicy key/value FeedId mismatch";
  _ ← ascending bytes_leb prev id "OraclePolicy must be strictly ascending by FeedId";
  Ok (id, spec).
Definition feeds_decode : Dec OraclePolicy := rows_val feed_row.

Definition oracle_reject_fields (r : OracleReject) : list Z :=
  match r with
  | NotEnoughSubmissions a b | Stale a b | DeviationExceeded a b | TrimmedMeanInsufficient a b => [a; b]
  | UnauthorizedSubmitter | UnknownFeed => []
  end.
Definition oracle_reject_rlp (r : OracleReject) : item :=
  Lst (uint_item (oracle_reject_tag r) :: map uint_item (oracle_reject_fields r)).
Definition bad_oracle_reject : string := "OracleReject: unknown tag or arity mismatch".
Definition oracle_reject_decode : Dec OracleReject := fun rlp =>
  n ← count rlp;
  _ ← guard_err (n =? 0) RlpIncorrectListLen;
  tag ← field (uint_val 8) 0 rlp;
  match tag with
  | 0 => arm2 bad_oracle_reject n (uint_val 8) (uint_val 8) NotEnoughSubmissions rlp
  | 1 => arm0 bad_oracle_reject n UnauthorizedSubmitter
  | 2 => arm2 bad_oracle_reject n (uint_val 64) (uint_val 64) Stale rlp
  | 3 => arm2 bad_oracle_reject n (uint_val 32) (uint_val 32) DeviationExceeded rlp
  | 4 => arm2 bad_oracle_reject n (uint_val 8) (uint_val 8) TrimmedMeanInsufficient rlp
  | 5 => arm0 bad_oracle_reject n UnknownFeed
  | _ => Err (Custom bad_oracle_reject)
  end.
End wire.

(** ** The wire formats *)

Section codecs.
Context {RC : RlpCrate} {RV : RlpView} {RL : RlpViewLaws} {RM : RlpMore} {RML : RlpMoreLaws}.

#[export] Instance u256_codec : Codec u256_item decode_u256 (in_range 256).
Proof.
  split.
  - intros v Hv Hok. unfold decode_u256, u256_item in *. rewrite codec_rt by (done || apply to_be_bytes). cbn [mbind res_bind].
    unfold zlen. rewrite length_to_be. change (refuse (32 <? Z.of_nat 32) _) with (Ok (E := DecoderError) tt). cbn [mbind res_bind].
    rewrite be_val_to_be. f_equal. by apply Z.mod_small.
  - intros b v Hb. unfold decode_u256. intros H. apply res_bind_Ok in H as (d & Hd & H). apply codec_ok in Hd; [|done].
    apply res_bind_Ok in H as ([] & Hg & [= <-]). apply refuse_Ok, Z.ltb_ge in Hg. pose proof (be_val_bound d Hd) as Hv.
    pose proof (zlen_nonneg d). assert (256 ^ zlen d <= 256 ^ 32) by (apply Z.pow_le_mono_r; lia).
    unfold in_range. change (2 ^ 256) with (256 ^ 32). lia.
Qed.

Definition obs_ok (o : PriceObservation) : Prop := in_range 64 (timestamp_unix o) /\ in_range 256 (cumulative_price o).
#[export] Instance obs_codec : Codec obs_rlp obs_decode obs_ok.
Proof.
  split.
  - intros o (H1 & H2) Hok. unfold obs_decode, obs_rlp in *. read_out Hok. by destruct o.
  - intros b o Hb H. unfold obs_decode in H. by read_ok Hb H.
Qed.
Definition twap_ok (w : TwapWindow) : Prop :=
  fixed_ok 20 (token_a w) /\ fixed_ok 20 (token_b w) /\ in_range 64 (window_secs w) /\ in_range 32 (max_observations w) /\
  Forall obs_ok (observations w) /\ twap_validate w = Ok tt.
#[export] Instance twap_codec : Codec twap_rlp twap_decode twap_ok.
Proof.
  pose proof (vec_codec obs_rlp obs_decode obs_ok). split.
  - intros w (H1 & H2 & H3 & H4 & H5 & Hv) Hok. unfold twap_decode, twap_rlp in *. read_out Hok. apply validated_Ok. by destruct w.
  - intros b w Hb Hd. unfold twap_decode in Hd. read_ok Hb Hd. apply validated_Ok in Hd as [Hv ->]. by split_and!.
Qed.

Definition slippage_ok (p : SlippagePolicy) : Prop := in_range 16 p /\ slippage_validate p = Ok tt.
#[export] Instance slippage_codec : Codec slippage_rlp slippage_decode slippage_ok.
Proof.
  split.
  - intros p (H1 & Hv) Hok. unfold slippage_decode, slippage_rlp in *. read_out Hok. by apply validated_Ok.
  - intros b p Hb H. unfold slippage_decode in H. read_ok Hb H. by apply validated_Ok in H as [Hv ->].
Qed.

#[export] Instance reentrancy_codec : Codec reentrancy_rlp reentrancy_decode (fun _ => True).
Proof. apply (tag_codec reentrancy_tag reentrancy_from); by intros []. Qed.
#[export] Instance guards_codec : Codec guards_rlp guards_decode (map_Forall (fun a _ => fixed_ok 20 a)).
Proof.
  apply (indexed_codec bytes_leb guard_rlp (fun a _ => fixed_ok 20 a)).
  - intros a st Ha Hok. unfold guard_row, guard_rlp in *. by read_out Hok.
  - intros b kv Hb H. unfold guard_row in H. by read_ok Hb H.
Qed.

Lemma feed_string f : feed_validate f = Ok tt -> string_ok f.
Proof.
  unfold feed_validate. intros H. apply res_bind_Ok in H as (? & _ & H). apply res_bind_Ok in H as (? & _ & H).
  apply refuse_Ok, negb_false_iff in H. rewrite forallb_forall in H.
  assert (Forall (fun x => 0 <= x < 128) f) as Ha.
  { apply List.Forall_forall. intros y Hy. specialize (H y Hy). unfold graphic in H. lia. }
  split; [|by apply utf8_ascii]. eapply List.Forall_impl; [|exact Ha]. unfold byte. simpl. lia.
Qed.
#[export] Instance feed_codec : Codec Str feed_decode (fun f => feed_validate f = Ok tt).
Proof.
  split.
  - intros f Hf Hok. unfold feed_decode. rewrite codec_rt by (done || by apply feed_string). by apply validated_Ok.
  - intros b f Hb H. unfold feed_decode in H. apply res_bind_Ok in H as (r & _ & H). by apply validated_Ok in H as [Hv ->].
Qed.

Definition aggregation_ok (a : AggregationKind) : Prop := match a with TrimmedMean t => in_range 8 t | _ => True end.
#[export] Instance aggregation_codec : Codec aggregation_rlp aggregation_decode aggregation_ok.
Proof.
  split.
  - intros a Ha Hok. assert (in_range 8 0 /\ in_range 8 1 /\ in_range 8 2) as (T0 & T1 & T2) by done.
    unfold aggregation_decode. destruct a; cbn [aggregation_rlp aggregation_tag aggregation_ok] in *;
      read_out Hok; decide_guards; read_out Hok; unfold arm0, arm1; decide_guards; by read_out Hok.
  - intros b a Hb H. unfold aggregation_decode, arm0, arm1 in H. apply res_bind_Ok in H as (n & _ & H).
    apply res_bind_Ok in H as (? & _ & H). apply res_bind_Ok in H as (t & _ & H). repeat case_match; try done; read_ok Hb H; done.
Qed.

Definition submission_ok (s : OracleSubmission) : Prop :=
  feed_validate (feed s) = Ok tt /\ fixed_ok 20 (submitter s) /\ in_range 64 (source_height s) /\
  in_range 64 (source_timestamp_ms s) /\ in_range 128 (value s) /\ submission_validate s = Ok tt.
#[export] Instance submission_codec : Codec submission_rlp submission_decode submission_ok.
Proof.
  split.
  - intros s (H1 & H2 & H3 & H4 & H5 & Hv) Hok. unfold submission_decode, submission_rlp in *. read_out Hok.
    apply validated_Ok. by destruct s.
  - intros b s Hb H. unfold submission_decode in H. read_ok Hb H. apply validated_Ok in H as [Hv ->]. by split_and!.
Qed.

Lemma submitters_codec : Codec (set_rlp bytes_leb Str) (keys_val submitter_key) (set_Forall (fixed_ok 20)).
Proof.
  apply keys_codec; [apply _| |].
  - intros p a Ha Hp Hok. unfold submitter_key. rewrite codec_rt by done. cbn [mbind res_bind]. by rewrite ascending_out.
  - intros p b a Hb H. unfold submitter_key in H. apply res_bind_Ok in H as (x & Hx & H). apply res_bind_Ok in H as ([] & _ & [= <-]).
    by apply codec_ok in Hx.
Qed.
Definition spec_ok (s : OracleFeedSpec) : Prop :=
  feed_validate (feed_id s) = Ok tt /\ aggregation_ok (aggregation s) /\ in_range 8 (decimals s) /\
  in_range 8 (min_submissions s) /\ in_range 64 (max_staleness_ms s) /\ in_range 32 (max_deviation_bps s) /\
  set_Forall (fixed_ok 20) (authorized_submitters s) /\ spec_validate s = Ok tt.
#[export] Instance spec_codec : Codec spec_rlp spec_decode spec_ok.
Proof.
  pose proof submitters_codec. split.
  - intros s (H1 & H2 & H3 & H4 & H5 & H6 & H7 & Hv) Hok. unfold spec_decode, spec_rlp in *. read_out Hok.
    apply validated_Ok. by destruct s.
  - intros b s Hb Hd. unfold spec_decode in Hd. read_ok Hb Hd. apply validated_Ok in Hd as [Hv ->]. by split_and!.
Qed.

Definition feeds_ok : OraclePolicy -> Prop := map_Forall (fun id s => feed_id s = id /\ spec_ok s).
#[export] Instance feeds_codec : Codec feeds_rlp feeds_decode feeds_ok.
Proof.
  apply (rows_codec bytes_leb feed_row_rlp (fun id s => feed_id s = id /\ spec_ok s)).
  - intros p id s [<- Hs] Hp Hok. unfold feed_row, feed_row_rlp in *. cbn [fst snd] in *. read_out Hok; [|by destruct Hs].
    rewrite bool_decide_eq_true_2 by done. by rewrite ascending_out.
  - intros p b kv Hb H. unfold feed_row in H. read_ok Hb H.
    match goal with H : refuse (negb _) _ = Ok _ |- _ => apply refuse_Ok, negb_false_iff, bool_decide_eq_true in H end. done.
Qed.

Definition oracle_reject_ok (r : OracleReject) : Prop :=
  match r with
  | NotEnoughSubmissions a b | TrimmedMeanInsufficient a b => in_range 8 a /\ in_range 8 b
  | Stale a b => in_range 64 a /\ in_range 64 b | DeviationExceeded a b => in_range 32 a /\ in_range 32 b
  | UnauthorizedSubmitter | UnknownFeed => True
  end.
#[export] Instance oracle_reject_codec : Codec oracle_reject_rlp oracle_reject_decode oracle_reject_ok.
Proof.
  split.
  - intros e He Hok. assert (in_range 8 (oracle_reject_tag e)) as Ht by (apply small_tag; destruct e; cbn; lia).
    unfold oracle_reject_decode, oracle_reject_rlp in *.
    destruct e; cbn [oracle_reject_fields oracle_reject_tag map oracle_reject_ok] in *; try destruct He; read_out Hok;
      decide_guards; read_out Hok; unfold arm0, arm1, arm2; decide_guards; by read_out Hok.
  - intros b e Hb H. unfold oracle_reject_decode, arm0, arm1, arm2 in H. apply res_bind_Ok in H as (n & _ & H).
    apply res_bind_Ok in H as (? & _ & H). apply res_bind_Ok in H as (t & _ & H).
    repeat case_match; try done; read_ok Hb H; done.
Qed.
End codecs.

(** ** What an average lies between *)

Lemma start_index_bound target obs : forall i found,
  (forall k, found = Some k -> (k < i + length obs)%nat) ->
  forall k, start_index target i found obs = Some k -> (k < i + length obs)%nat.
Proof.
  induction obs as [|o obs IH]; intros i found Hf k; cbn [start_index length]; [apply Hf|].
  destruct (_ <=? _); [|apply Hf]. intros Hk. apply IH in Hk; [lia|]. intros j [= <-]. lia.
Qed.

(** The observations rise by a price between [lo] and [hi] at every step. *)
Definition step_between (lo hi : Z) (obs : list PriceObservation) : Prop := forall i a b,
  obs !! i = Some a -> obs !! S i = Some b ->
  lo * (timestamp_unix b - timestamp_unix a) <= cumulative_price b - cumulative_price a <= hi * (timestamp_unix b - timestamp_unix a).

Lemma steps_between lo hi obs n : step_between lo hi obs -> forall i a b, obs !! i = Some a -> obs !! (i + n)%nat = Some b ->
  lo * (timestamp_unix b - timestamp_unix a) <= cumulative_price b - cumulative_price a <= hi * (timestamp_unix b - timestamp_unix a).
Proof.
  intros Hs. induction n as [|n IH]; intros i a b Ha Hb.
  - rewrite Nat.add_0_r in Hb. simplify_eq. lia.
  - destruct (lookup_lt_is_Some_2 obs (i + n)%nat) as [c Hc]; [apply lookup_lt_Some in Hb; lia|].
    specialize (IH i a c Ha Hc). replace (i + S n)%nat with (S (i + n)) in Hb by lia. specialize (Hs _ _ _ Hc Hb). lia.
Qed.

(** An average that is computed is between the lowest and the highest price
    held between two samples: one sample moves it no further than that. *)
Theorem twap_between w now lo hi p : step_between lo hi (observations w) -> compute now w = Some p -> lo <= p <= hi.
Proof.
  intros Hs Hc. unfold compute in Hc. destruct (_ <? 2); [done|].
  destruct (checked 64 (now - window_secs w)) as [tg|]; [|done]. cbn in Hc.
  destruct (last (observations w)) as [l|] eqn:Hl; [|done]. cbn in Hc. destruct (timestamp_unix l <? tg); [done|].
  set (i := default 0%nat _) in Hc. destruct (observations w !! i) as [o|] eqn:Ho; [|done]. cbn in Hc.
  destruct (checked 64 _) as [dt|] eqn:Hdt; [|done]. apply checked_Some in Hdt as [-> Hdt]. cbn in Hc.
  destruct (Z.eqb_spec (timestamp_unix l - timestamp_unix o) 0) as [|Hne]; [done|].
  destruct (checked 256 _) as [dp|] eqn:Hdp; [|done]. apply checked_Some in Hdp as [-> _]. cbn in Hc. injection Hc as <-.
  rewrite last_lookup in Hl. pose proof (lookup_lt_Some _ _ _ Ho).
  destruct (steps_between lo hi _ (pred (length (observations w)) - i) Hs i o l Ho) as [H1 H2].
  { by replace (i + (pred (length (observations w)) - i))%nat with (pred (length (observations w))) by lia. }
  unfold in_range in Hdt. split.
  - apply Z.div_le_lower_bound; lia.
  - apply Z.div_le_upper_bound; lia.
Qed.

(** A window longer than the buffer is averaged over what the buffer holds. *)
Lemma short_window_answers :
  let w := mkTwap (replicate 20 1) (replicate 20 2) 1800 256 [mkObs 9999 0; mkObs 10000 500] in
  twap_validate w = Ok tt /\ compute 10000 w = Some 500.
Proof. by vm_compute. Qed.

(** Recording keeps the buffer valid and changes nothing when it refuses. *)
Lemma time_ordered_spec obs : time_ordered obs = Ok tt <-> forall i a b, obs !! i = Some a -> obs !! S i = Some b ->
  timestamp_unix a < timestamp_unix b /\ cumulative_price a <= cumulative_price b.
Proof.
  induction obs as [|a [|b obs] IH]; cbn [time_ordered].
  - split; [|done]. by intros _ i x y Hx.
  - split; [|done]. by intros _ i x y _ Hy.
  - rewrite !res_bind_Ok. split.
    + intros ([] & H1 & H). apply res_bind_Ok in H as ([] & H2 & H). apply refuse_Ok, Z.leb_gt in H1. apply refuse_Ok, Z.ltb_ge in H2.
      intros [|i] x y Hx Hy; [by simplify_eq/=|]. by apply (proj1 IH H i).
    + intros H. destruct (H 0%nat a b) as [H1 H2]; [done..|]. exists tt. split; [apply refuse_Ok; lia|]. rewrite res_bind_Ok.
      exists tt. split; [apply refuse_Ok; lia|]. apply IH. intros i x y Hx Hy. by apply (H (S i)).
Qed.
Lemma time_ordered_snoc obs o : time_ordered obs = Ok tt ->
  (forall l, last obs = Some l -> timestamp_unix l < timestamp_unix o /\ cumulative_price l <= cumulative_price o) ->
  time_ordered (obs ++ [o]) = Ok tt.
Proof.
  rewrite !time_ordered_spec. intros H Hl i a b Ha Hb. destruct (decide (S i < length obs)%nat).
  - rewrite lookup_app_l in Ha, Hb by lia. by apply (H i).
  - apply lookup_lt_Some in Hb as Hlt. rewrite length_app in Hlt. cbn in Hlt.
    rewrite lookup_app_l in Ha by lia. rewrite list_lookup_middle in Hb by lia. injection Hb as <-. apply Hl. rewrite last_lookup.
    by replace (pred (length obs)) with i by lia.
Qed.
Lemma time_ordered_tail obs : time_ordered obs = Ok tt -> time_ordered (tail obs) = Ok tt.
Proof.
  rewrite !time_ordered_spec. intros H i a b. destruct obs as [|x obs]; [done|]. apply (H (S i)).
Qed.
Lemma twap_validate_Ok w : twap_validate w = Ok tt <->
  token_a w <> token_b w /\ window_secs w <> 0 /\ max_observations w <> 0 /\ zlen (observations w) <= max_observations w /\
  time_ordered (observations w) = Ok tt.
Proof.
  unfold twap_validate, refuse, guard_err. case_bool_decide; [split; [done|by intros (? & _)]|].
  destruct (Z.eqb_spec (window_secs w) 0); [split; [done|by intros (_ & ? & _)]|].
  destruct (Z.eqb_spec (max_observations w) 0); [split; [done|by intros (_ & _ & ? & _)]|].
  destruct (Z.ltb_spec (max_observations w) (zlen (observations w))); cbn; split; try done; try (by intros (_ & _ & _ & _ & ?)).
  intros (_ & _ & _ & ? & _). lia.
Qed.
Lemma twap_record_ok obs w : twap_validate w = Ok tt ->
  twap_validate (record obs w).2 = Ok tt /\
  ((record obs w).1 = Ok tt <-> forall l, last (observations w) = Some l ->
     timestamp_unix l < timestamp_unix obs /\ cumulative_price l <= cumulative_price obs) /\
  ((record obs w).1 <> Ok tt -> (record obs w).2 = w).
Proof.
  intros Hw. assert (forall x, x = mkTwap (token_a w) (token_b w) (window_secs w) (max_observations w)
      (if max_observations w <? zlen (observations w ++ [obs]) then tail (observations w ++ [obs]) else observations w ++ [obs]) ->
    (forall l, last (observations w) = Some l -> timestamp_unix l < timestamp_unix obs /\ cumulative_price l <= cumulative_price obs) ->
    twap_validate x = Ok tt) as Hput.
  { intros x -> Hl. apply twap_validate_Ok in Hw as (Ha & Hb & Hc & Hd & He). apply twap_validate_Ok. cbn. split_and!; try done.
    - destruct (Z.ltb_spec (max_observations w) (zlen (observations w ++ [obs]))); [|done]. rewrite zlen_app in *.
      unfold zlen in *. cbn [length] in *. destruct (observations w); cbn [app tail length] in *; [lia|]. rewrite length_app. cbn. lia.
    - pose proof (time_ordered_snoc _ _ He Hl). destruct (_ <? _); [by apply time_ordered_tail|done]. }
  unfold record. open_call. destruct (last (observations w)) as [l|] eqn:Hl; cbn.
  - destruct (Z.leb_spec (timestamp_unix obs) (timestamp_unix l)); cbn.
    { split_and!; try done. split; [done|]. intros H0. destruct (H0 l eq_refl). lia. }
    destruct (Z.ltb_spec (cumulative_price obs) (cumulative_price l)); cbn.
    { split_and!; try done. split; [done|]. intros H1. destruct (H1 l eq_refl). lia. }
    split_and!; [apply Hput; [done|by intros ? [= <-]]|split; [by intros _ ? [= <-]|done]|done].
  - split_and!; [by apply Hput|done|done].
Qed.

(** ** Reentrancy *)

(** A contract is entered once before it is left; a refused entry leaves the
    guards as they were, and no other contract's guard is ever touched. *)
Lemma enter_ok c m :
  ((enter c m).1 = Ok tt <-> is_entered c m = false) /\
  ((enter c m).1 = Ok tt -> is_entered c (enter c m).2 = true /\ is_entered c (exit c (enter c m).2) = false) /\
  ((enter c m).1 <> Ok tt -> (enter c m).2 = m) /\
  (forall d, d <> c -> (enter c m).2 !! d = m !! d /\ exit c m !! d = m !! d).
Proof.
  unfold enter, is_entered, exit. open_call. destruct (m !! c) as [[]|] eqn:Hm; cbn.
  - split_and!; try done; [intros _; by rewrite lookup_alter_eq, lookup_insert_eq|].
    intros d Hd. by rewrite lookup_insert_ne, lookup_alter_ne.
  - rewrite insert_id by done. split_and!; try done. intros d Hd. by rewrite lookup_alter_ne.
  - split_and!; try done; [intros _; by rewrite lookup_alter_eq, lookup_insert_eq|].
    intros d Hd. by rewrite lookup_insert_ne, lookup_alter_ne.
Qed.
