(* ===== verification/NetTypes.v ===== *)
(** * Peers and events
      (crates/zbx-types/src/network.rs, events.rs)

    The reputation of peers, bans and bootstrap pins, and the catalogue of the
    events a node emits; the wire format of each. *)

From Stdlib Require Import ZArith Lia String Ascii Sorting.Sorted.
From stdpp Require Import base tactics list gmap countable numbers option strings fin_maps.
From S2P Require Import Prelude Bytes Crypto Collections Rlp Transaction RlpTypes ExecTypes PolicyTypes.

Local Open Scope Z_scope.

(** ** Reputation *)

Abbreviation PeerId := bytes.

Inductive PeerEvent : Type :=
| GoodBlock | GoodResponse | GoodTx | InvalidBlock | InvalidTx | MalformedMessage | SpamDuplicate | Timeout | EquivocationFork.
Definition peer_event_tag (e : PeerEvent) : Z :=
  match e with
  | GoodBlock => 0 | GoodResponse => 1 | GoodTx => 2 | InvalidBlock => 10 | InvalidTx => 11 | MalformedMessage => 12
  | SpamDuplicate => 13 | Timeout => 14 | EquivocationFork => 20
  end.
Definition peer_event_from (t : Z) : res DecoderError PeerEvent :=
  match t with
  | 0 => Ok GoodBlock | 1 => Ok GoodResponse | 2 => Ok GoodTx | 10 => Ok InvalidBlock | 11 => Ok InvalidTx
  | 12 => Ok MalformedMessage | 13 => Ok SpamDuplicate | 14 => Ok Timeout | 20 => Ok EquivocationFork
  | _ => Err (Custom "invalid PeerEvent tag")
  end.

(** [ReputationDelta::for_event] *)
Definition for_event (e : PeerEvent) : Z :=
  match e with
  | GoodBlock => 5 | GoodResponse => 1 | GoodTx => 1 | InvalidBlock => -10 | InvalidTx => -2 | MalformedMessage => -5
  | SpamDuplicate => -1 | Timeout => -3 | EquivocationFork => -200
  end.

(** An [i32]. *)
Abbreviation PeerScore := Z.
Definition sat_i32 (x : Z) : Z := Z.max (- 2 ^ 31) (Z.min x (2 ^ 31 - 1)).
Definition as_i32 (raw : Z) : Z := if raw <? 2 ^ 31 then raw else raw - 2 ^ 32.
Definition score_new (v : Z) : PeerScore := Z.max (-1024) (Z.min v 1024).
Definition score_apply (s : PeerScore) (delta : Z) : PeerScore := score_new (sat_i32 (s + delta)).
Definition score_decay (s : PeerScore) : PeerScore := Z.quot s 2.

Record PeerPolicy : Type := mkPeerPolicy {
  max_inbound : Z; max_outbound : Z; min_outbound : Z; max_peers_per_subnet : Z; bootstrap_pin_count : Z;
  ban_threshold : Z; ban_duration_secs : Z; decay_period_secs : Z }.
Definition peer_mainnet : PeerPolicy := mkPeerPolicy 80 16 8 4 4 (-100) (24 * 60 * 60) (60 * 60).
Definition peer_validate (p : PeerPolicy) : res DecoderError unit :=
  _ ← refuse (max_outbound p <? min_outbound p) "PeerPolicy: min_outbound > max_outbound";
  _ ← refuse (max_outbound p =? 0) "PeerPolicy: max_outbound = 0";
  _ ← refuse (max_outbound p <? bootstrap_pin_count p) "PeerPolicy: bootstrap_pin_count > max_outbound";
  _ ← refuse (max_peers_per_subnet p =? 0) "PeerPolicy: max_peers_per_subnet = 0";
  _ ← refuse (0 <=? ban_threshold p) "PeerPolicy: ban_threshold must be negative";
  _ ← refuse (ban_duration_secs p =? 0) "PeerPolicy: ban_duration_secs = 0";
  refuse (decay_period_secs p =? 0) "PeerPolicy: decay_period_secs = 0".

Record PeerRecord : Type := mkPeer { peer : PeerId; score : PeerScore; last_seen_unix : Z; banned_until : Z }.
Definition peer_new (p : PeerId) : PeerRecord := mkPeer p 0 0 0.
Definition is_banned_at (r : PeerRecord) (now_unix : Z) : bool := now_unix <? banned_until r.

Record PeerBook : Type := mkBook { policy : PeerPolicy; records : gmap PeerId PeerRecord; bootstrap : gset PeerId }.
Definition book_validate (b : PeerBook) : res DecoderError unit :=
  _ ← peer_validate (policy b);
  _ ← refuse (bootstrap_pin_count (policy b) <? Z.of_nat (size (bootstrap b))) "PeerBook: too many bootstrap pins";
  each (fun pr => refuse (negb (bool_decide (peer pr.2 = pr.1))) "PeerBook: record/key peer mismatch") (bytes_list (records b)).
Definition book_new (p : PeerPolicy) : res DecoderError PeerBook := _ ← peer_validate p; Ok (mkBook p ∅ ∅).

Definition observe (p : PeerId) (ev : PeerEvent) (now_unix : Z) (b : PeerBook) : Z * PeerBook :=
  let rec := default (peer_new p) (records b !! p) in
  let s := score_apply (score rec) (for_event ev) in
  let until := if s <=? ban_threshold (policy b) then sat 64 (now_unix + ban_duration_secs (policy b)) else banned_until rec in
  (s, mkBook (policy b) (<[p := mkPeer (peer rec) s now_unix until]> (records b)) (bootstrap b)).
Definition is_banned (p : PeerId) (now_unix : Z) (b : PeerBook) : bool :=
  if bool_decide (p ∈ bootstrap b) then false
  else match records b !! p with Some r => is_banned_at r now_unix | None => false end.
Definition decay_all (b : PeerBook) : PeerBook :=
  mkBook (policy b) ((fun r => mkPeer (peer r) (score_decay (score r)) (last_seen_unix r) (banned_until r)) <$> records b)
    (bootstrap b).
Definition pin_bootstrap (p : PeerId) (b : PeerBook) : res DecoderError PeerBook :=
  _ ← refuse (bootstrap_pin_count (policy b) <=? Z.of_nat (size (bootstrap b))) "PeerBook: bootstrap_pin_count exceeded";
  Ok (mkBook (policy b) (records b) ({[p]} ∪ bootstrap b)).

(** ** The catalogue of events *)

(** A [u32]: the domain in its high byte. *)
Abbreviation EventId := Z.
Definition event_id (domain_tag seq : Z) : EventId := Z.lor (u32 (Z.shiftl domain_tag 24)) (Z.land seq 0x00FFFFFF).
Definition domain_tag_of (id : EventId) : Z := wrap 8 (Z.shiftr id 24).
Definition sequence_of (id : EventId) : Z := Z.land id 0x00FFFFFF.

Inductive EventDomain : Type :=
| DConsensus | DExecution | DGovernance | DDefi | DStaking | DBundler | DBridge | DOracle | DSlashing | DNetwork.
#[export] Instance domain_eq_dec : EqDecision EventDomain.
Proof. solve_decision. Defined.
Definition domain_tag (d : EventDomain) : Z :=
  match d with
  | DConsensus => 1 | DExecution => 2 | DGovernance => 3 | DDefi => 4 | DStaking => 5 | DBundler => 6 | DBridge => 7
  | DOracle => 8 | DSlashing => 9 | DNetwork => 10
  end.
Definition domain_from (t : Z) : res DecoderError EventDomain :=
  match t with
  | 1 => Ok DConsensus | 2 => Ok DExecution | 3 => Ok DGovernance | 4 => Ok DDefi | 5 => Ok DStaking | 6 => Ok DBundler
  | 7 => Ok DBridge | 8 => Ok DOracle | 9 => Ok DSlashing | 10 => Ok DNetwork
  | _ => Err (Custom "invalid EventDomain tag")
  end.
Inductive EventSeverity : Type := Info | Warn | Critical.
Definition severity_tag (s : EventSeverity) : Z := match s with Info => 0 | Warn => 1 | Critical => 2 end.
Definition severity_from (t : Z) : res DecoderError EventSeverity :=
  match t with 0 => Ok Info | 1 => Ok Warn | 2 => Ok Critical | _ => Err (Custom "invalid EventSeverity tag") end.

Record EventDescriptor : Type := mkEvent {
  id : EventId; ev_name : bytes; domain : EventDomain; severity : EventSeverity; schema_version : Z }.
Definition event_byte (b : Z) : bool := ((97 <=? b) && (b <=? 122)) || ((48 <=? b) && (b <=? 57)) || (b =? 95).
Definition event_validate (d : EventDescriptor) : res DecoderError unit :=
  _ ← refuse (is_nil (ev_name d)) "EventDescriptor: empty name";
  _ ← refuse (64 <? zlen (ev_name d)) "EventDescriptor: name > 64 chars";
  _ ← refuse (negb (forallb event_byte (ev_name d))) "EventDescriptor: name must be ascii [a-z0-9_]";
  _ ← refuse (negb (domain_tag_of (id d) =? domain_tag (domain d))) "EventDescriptor: id.domain_tag != domain.tag";
  refuse (schema_version d =? 0) "EventDescriptor: schema_version starts at 1".

Abbreviation EventRegistry := (gmap EventId EventDescriptor).
Definition events_validate (m : EventRegistry) : res DecoderError unit :=
  each (fun kd => _ ← refuse (negb (id kd.2 =? kd.1)) "EventRegistry: id/key mismatch"; event_validate kd.2) (z_list m).
Definition register (d : EventDescriptor) (m : EventRegistry) : res DecoderError EventRegistry :=
  _ ← event_validate d;
  _ ← refuse (bool_decide (is_Some (m !! id d))) "EventRegistry: id already registered";
  _ ← refuse (existsb (fun e => bool_decide (ev_name e = ev_name d)) (z_list m).*2) "EventRegistry: name already registered";
  Ok (<[id d := d]> m).
Definition by_name (n : bytes) (m : EventRegistry) : option EventDescriptor :=
  List.find (fun d => bool_decide (ev_name d = n)) (z_list m).*2.
Definition count_by_domain (d : EventDomain) (m : EventRegistry) : nat :=
  length (List.filter (fun e => bool_decide (domain e = d)) (z_list m).*2).

Definition text (s : string) : bytes := map (fun a => Z.of_N (N_of_ascii a)) (list_ascii_of_string s).
(** [add] of [installed_default]: both calls are expected to succeed. *)
Definition add (m : res DecoderError EventRegistry) (x : EventDomain * Z * string * EventSeverity) : res DecoderError EventRegistry :=
  let '(d, seq, n, sev) := x in
  m ← m;
  e ← unwrap (match validated event_validate (mkEvent (event_id (domain_tag d) seq) (text n) d sev 1) with Ok e => Some e | _ => None end);
  unwrap (match register e m with Ok m => Some m | _ => None end).
Definition catalogue : list (EventDomain * Z * string * EventSeverity) := [
  (DConsensus, 1, "block_proposed"%string, Info); (DConsensus, 2, "block_finalized"%string, Info);
  (DConsensus, 3, "view_change"%string, Warn); (DConsensus, 4, "validator_jailed"%string, Critical);
  (DConsensus, 5, "validator_unjailed"%string, Info); (DConsensus, 6, "epoch_rotated"%string, Info);
  (DExecution, 1, "tx_executed"%string, Info); (DExecution, 2, "tx_reverted"%string, Warn);
  (DExecution, 3, "out_of_gas"%string, Warn); (DExecution, 4, "evm_log_emitted"%string, Info);
  (DGovernance, 1, "proposal_submitted"%string, Info); (DGovernance, 2, "vote_cast"%string, Info);
  (DGovernance, 3, "proposal_finalized"%string, Info); (DGovernance, 4, "upgrade_executed"%string, Critical);
  (DDefi, 1, "swap"%string, Info); (DDefi, 2, "liquidity_added"%string, Info); (DDefi, 3, "liquidity_removed"%string, Info);
  (DDefi, 4, "twap_observation"%string, Info); (DDefi, 5, "slippage_exceeded"%string, Warn);
  (DStaking, 1, "stake_deposited"%string, Info); (DStaking, 2, "stake_withdrawn"%string, Info);
  (DStaking, 3, "reward_claimed"%string, Info); (DStaking, 4, "validator_slashed"%string, Critical);
  (DBundler, 1, "userop_submitted"%string, Info); (DBundler, 2, "userop_included"%string, Info);
  (DBundler, 3, "userop_failed"%string, Warn);
  (DBridge, 1, "bridge_lock"%string, Info); (DBridge, 2, "bridge_release"%string, Info); (DBridge, 3, "bridge_paused"%string, Critical);
  (DOracle, 1, "feed_updated"%string, Info); (DOracle, 2, "feed_stale"%string, Warn); (DOracle, 3, "feed_paused"%string, Critical);
  (DSlashing, 1, "evidence_submitted"%string, Warn); (DSlashing, 2, "penalty_applied"%string, Critical);
  (DNetwork, 1, "peer_connected"%string, Info); (DNetwork, 2, "peer_disconnected"%string, Info);
  (DNetwork, 3, "peer_banned"%string, Warn); (DNetwork, 4, "eclipse_suspected"%string, Critical)].
Definition installed_default : res DecoderError EventRegistry := foldl add (Ok ∅) catalogue.

(** ** Written and read *)

Section wire.
Context `{RC : RlpCrate} `{RV : RlpView} `{RM : RlpMore}.

Definition peer_id_decode : Dec PeerId := fixed_val 32 "PeerId must be 32 bytes".
Definition peer_event_rlp (e : PeerEvent) : item := uint_item (peer_event_tag e).
Definition peer_event_decode : Dec PeerEvent := tag_val peer_event_from.
(** The bits of an [i32] as a [u32]. *)
Definition i32_item (v : Z) : item := uint_item (u32 v).
Definition i32_val : Dec Z := fun b => raw ← uint_val 32 b; Ok (as_i32 raw).
Definition score_decode : Dec PeerScore := fun b => raw ← uint_val 32 b; Ok (score_new (as_i32 raw)).

Definition peer_policy_rlp (p : PeerPolicy) : item :=
  Lst [uint_item (max_inbound p); uint_item (max_outbound p); uint_item (min_outbound p); uint_item (max_peers_per_subnet p);
       uint_item (bootstrap_pin_count p); i32_item (ban_threshold p); uint_item (ban_duration_secs p);
       uint_item (decay_period_secs p)].
Definition peer_policy_decode : Dec PeerPolicy := fun rlp =>
  _ ← expect_count 8 rlp;
  mi ← field (uint_val 16) 0 rlp; mo ← field (uint_val 16) 1 rlp; no ← field (uint_val 16) 2 rlp; su ← field (uint_val 16) 3 rlp;
  bp ← field (uint_val 16) 4 rlp; bt ← field i32_val 5 rlp; bd ← field (uint_val 64) 6 rlp; dp ← field (uint_val 64) 7 rlp;
  validated peer_validate (mkPeerPolicy mi mo no su bp bt bd dp).

Definition peer_rlp (r : PeerRecord) : item :=
  Lst [Str (peer r); i32_item (score r); uint_item (last_seen_unix r); uint_item (banned_until r)].
Definition peer_decode : Dec PeerRecord := fun rlp =>
  _ ← expect_count 4 rlp;
  p ← field peer_id_decode 0 rlp; s ← field score_decode 1 rlp; l ← field (uint_val 64) 2 rlp; u ← field (uint_val 64) 3 rlp;
  Ok (mkPeer p s l u).

Definition book_rlp (b : PeerBook) : item :=
  Lst [peer_policy_rlp (policy b); Lst (map (fun pr => peer_rlp pr.2) (bytes_list (records b)));
       Lst (map Str (set_list bytes_leb (bootstrap b)))].
Definition peer_row (it : bytes) : res DecoderError (PeerId * PeerRecord) := r ← peer_decode it; Ok (peer r, r).
Definition book_decode : Dec PeerBook := fun rlp =>
  _ ← expect_count 3 rlp;
  p ← field peer_policy_decode 0 rlp; rs ← field (indexed_val peer_row) 1 rlp; bs ← field (indexed_keys peer_id_decode) 2 rlp;
  validated book_validate (mkBook p rs bs).

Definition domain_rlp (d : EventDomain) : item := uint_item (domain_tag d).
Definition domain_decode : Dec EventDomain := tag_val domain_from.
Definition severity_rlp (s : EventSeverity) : item := uint_item (severity_tag s).
Definition severity_decode : Dec EventSeverity := tag_val severity_from.
Definition event_rlp (d : EventDescriptor) : item :=
  Lst [uint_item (id d); Str (ev_name d); domain_rlp (domain d); severity_rlp (severity d); uint_item (schema_version d)].
Definition event_decode : Dec EventDescriptor := fun rlp =>
  _ ← expect_count 5 rlp;
  i ← field (uint_val 32) 0 rlp; n ← field string_val 1 rlp; d ← field domain_decode 2 rlp; s ← field severity_decode 3 rlp;
  v ← field (uint_val 32) 4 rlp;
  validated event_validate (mkEvent i n d s v).
Definition events_rlp (m : EventRegistry) : item := Lst (map (fun kd => event_rlp kd.2) (z_list m)).
Definition event_row (it : bytes) : res DecoderError (EventId * EventDescriptor) := d ← event_decode it; Ok (id d, d).
Definition events_decode : Dec EventRegistry := fun rlp =>
  m ← indexed_val event_row rlp; validated events_validate m.
End wire.

(** ** The wire formats *)

Section codecs.
Context {RC : RlpCrate} {RV : RlpView} {RL : RlpViewLaws} {RM : RlpMore} {RML : RlpMoreLaws}.

#[export] Instance peer_id_codec : Codec Str peer_id_decode (fixed_ok 32) := fixed_codec 32 _.
#[export] Instance peer_event_codec : Codec peer_event_rlp peer_event_decode (fun _ => True).
Proof. apply (tag_codec peer_event_tag peer_event_from); by intros []. Qed.

Definition i32_ok (v : Z) : Prop := - 2 ^ 31 <= v < 2 ^ 31.
Lemma as_i32_u32 v : i32_ok v -> as_i32 (u32 v) = v.
Proof.
  intros Hv. unfold as_i32, wrap, i32_ok in *. destruct (decide (0 <= v)).
  - rewrite Z.mod_small by lia. destruct (Z.ltb_spec v (2 ^ 31)); lia.
  - rewrite <-(Z.mod_unique v (2 ^ 32) (-1) (v + 2 ^ 32)) by lia. destruct (Z.ltb_spec (v + 2 ^ 32) (2 ^ 31)); lia.
Qed.
Lemma as_i32_ok raw : in_range 32 raw -> i32_ok (as_i32 raw).
Proof. unfold in_range, i32_ok, as_i32. intros Hr. destruct (Z.ltb_spec raw (2 ^ 31)); lia. Qed.
#[export] Instance i32_codec : Codec i32_item i32_val i32_ok.
Proof.
  split.
  - intros v Hv Hok. unfold i32_val, i32_item in *. rewrite (codec_rt (Codec := uint_codec 32 ltac:(lia))) by (done || by apply wrap_range).
    cbn [mbind res_bind]. by rewrite as_i32_u32.
  - intros b v Hb H. unfold i32_val in H. apply res_bind_Ok in H as (raw & Hr & [= <-]). apply as_i32_ok.
    by eapply (codec_ok (Codec := uint_codec 32 ltac:(lia))).
Qed.
Definition score_ok (s : PeerScore) : Prop := -1024 <= s <= 1024.
#[export] Instance score_codec : Codec i32_item score_decode score_ok.
Proof.
  split.
  - intros v Hv Hok. unfold score_decode, i32_item, score_ok in *. rewrite (codec_rt (Codec := uint_codec 32 ltac:(lia))) by (done || by apply wrap_range).
    cbn [mbind res_bind]. rewrite as_i32_u32 by (unfold i32_ok; lia). unfold score_new. f_equal. lia.
  - intros b v Hb H. unfold score_decode in H. apply res_bind_Ok in H as (raw & Hr & [= <-]). unfold score_ok, score_new. lia.
Qed.

Definition peer_policy_ok (p : PeerPolicy) : Prop :=
  in_range 16 (max_inbound p) /\ in_range 16 (max_outbound p) /\ in_range 16 (min_outbound p) /\
  in_range 16 (max_peers_per_subnet p) /\ in_range 16 (bootstrap_pin_count p) /\ i32_ok (ban_threshold p) /\
  in_range 64 (ban_duration_secs p) /\ in_range 64 (decay_period_secs p) /\ peer_validate p = Ok tt.
#[export] Instance peer_policy_codec : Codec peer_policy_rlp peer_policy_decode peer_policy_ok.
Proof.
  split.
  - intros p (H1 & H2 & H3 & H4 & H5 & H6 & H7 & H8 & Hv) Hok. unfold peer_policy_decode, peer_policy_rlp in *. read_out Hok.
    apply validated_Ok. by destruct p.
  - intros b p Hb H. unfold peer_policy_decode in H. read_ok Hb H. apply validated_Ok in H as [Hv ->]. by split_and!.
Qed.
Definition peer_ok (r : PeerRecord) : Prop :=
  fixed_ok 32 (peer r) /\ score_ok (score r) /\ in_range 64 (last_seen_unix r) /\ in_range 64 (banned_until r).
#[export] Instance peer_codec : Codec peer_rlp peer_decode peer_ok.
Proof.
  split.
  - intros r (H1 & H2 & H3 & H4) Hok. unfold peer_decode, peer_rlp in *. read_out Hok. by destruct r.
  - intros b r Hb H. unfold peer_decode in H. by read_ok Hb H.
Qed.

Lemma peers_codec : Codec (map_rlp bytes_leb (fun pr => peer_rlp pr.2)) (indexed_val peer_row) (map_Forall (fun p r => peer r = p /\ peer_ok r)).
Proof.
  apply indexed_codec; [apply _| |].
  - intros p r [<- Hr] Hok. unfold peer_row. cbn [snd] in *. by rewrite codec_rt.
  - intros b kv Hb H. unfold peer_row in H. apply res_bind_Ok in H as (r & Hr & [= <-]). by apply codec_ok in Hr.
Qed.
Lemma pins_codec : Codec (set_rlp bytes_leb Str) (indexed_keys peer_id_decode) (set_Forall (fixed_ok 32)).
Proof.
  apply indexed_keys_codec; [apply _| |].
  - intros p Hp Hok. by apply codec_rt.
  - intros b p Hb H. by apply codec_ok in H.
Qed.
Definition book_ok (b : PeerBook) : Prop :=
  peer_policy_ok (policy b) /\ map_Forall (fun p r => peer r = p /\ peer_ok r) (records b) /\
  set_Forall (fixed_ok 32) (bootstrap b) /\ book_validate b = Ok tt.
#[export] Instance book_codec : Codec book_rlp book_decode book_ok.
Proof.
  pose proof peers_codec. pose proof pins_codec. split.
  - intros k (H1 & H2 & H3 & Hv) Hok. unfold book_decode, book_rlp in *. read_out Hok. apply validated_Ok. by destruct k.
  - intros b k Hb Hd. unfold book_decode in Hd. read_ok Hb Hd. apply validated_Ok in Hd as [Hv ->]. by split_and!.
Qed.

#[export] Instance domain_codec : Codec domain_rlp domain_decode (fun _ => True).
Proof. apply (tag_codec domain_tag domain_from); by intros []. Qed.
#[export] Instance severity_codec : Codec severity_rlp severity_decode (fun _ => True).
Proof. apply (tag_codec severity_tag severity_from); by intros []. Qed.

Definition event_ok (d : EventDescriptor) : Prop :=
  in_range 32 (id d) /\ in_range 32 (schema_version d) /\ event_validate d = Ok tt.
Lemma event_string d : event_validate d = Ok tt -> string_ok (ev_name d).
Proof.
  unfold event_validate. intros H. apply res_bind_Ok in H as (? & _ & H). apply res_bind_Ok in H as (? & _ & H).
  apply res_bind_Ok in H as (? & H & _). apply refuse_Ok, negb_false_iff in H. rewrite forallb_forall in H.
  assert (Forall (fun x => 0 <= x < 128) (ev_name d)) as Ha.
  { apply List.Forall_forall. intros y Hy. specialize (H y Hy). unfold event_byte in H. lia. }
  split; [|by apply utf8_ascii]. eapply List.Forall_impl; [|exact Ha]. unfold byte. simpl. lia.
Qed.
#[export] Instance event_codec : Codec event_rlp event_decode event_ok.
Proof.
  split.
  - intros d (H1 & H2 & Hv) Hok. unfold event_decode, event_rlp in *. read_out Hok; [|by apply event_string].
    apply validated_Ok. by destruct d.
  - intros b d Hb H. unfold event_decode in H. read_ok Hb H. apply validated_Ok in H as [Hv ->]. by split_and!.
Qed.
Definition events_ok (m : EventRegistry) : Prop := map_Forall (fun i d => id d = i /\ event_ok d) m.
#[export] Instance events_codec : Codec events_rlp events_decode events_ok.
Proof.
  assert (Codec events_rlp (indexed_val event_row) events_ok) as C.
  { apply (indexed_codec Z.leb (fun kd => event_rlp kd.2) (fun i d => id d = i /\ event_ok d)).
    - intros i d [<- Hd] Hok. unfold event_row. cbn [snd] in *. by rewrite codec_rt.
    - intros b kv Hb H. unfold event_row in H. apply res_bind_Ok in H as (d & Hd & [= <-]). by apply codec_ok in Hd. }
  split.
  - intros m Hm Hok. unfold events_decode. rewrite (codec_rt (Codec := C)) by done. apply validated_Ok. split; [|done].
    unfold events_validate. apply each_map. intros i d Hd. destruct (Hm i d Hd) as [<- (_ & _ & Hv)]. cbn. by rewrite Z.eqb_refl.
  - intros b m Hb H. unfold events_decode in H. apply res_bind_Ok in H as (x & Hx & H). apply validated_Ok in H as [_ ->].
    by apply (codec_ok (Codec := C)) in Hx.
Qed.
End codecs.

(** ** Reputation and bans *)

(** An event moves one peer's score, within its bounds, and bans it when the
    score reaches the threshold; nobody else's record changes. *)
Lemma observe_ok p ev now b r : records b !! p = Some r -> score_ok (score r) ->
  let '(s, b') := observe p ev now b in
  s = Z.max (-1024) (Z.min (score r + for_event ev) 1024) /\
  records b' !! p = Some (mkPeer (peer r) s now
    (if s <=? ban_threshold (policy b) then sat 64 (now + ban_duration_secs (policy b)) else banned_until r)) /\
  (forall q, q <> p -> records b' !! q = records b !! q) /\ bootstrap b' = bootstrap b /\ policy b' = policy b.
Proof.
  intros Hr Hs. unfold observe. rewrite Hr. cbn. unfold score_apply, score_new, sat_i32, score_ok in *.
  assert (-200 <= for_event ev <= 5) by (destruct ev; cbn; lia).
  split_and!; [lia|by rewrite lookup_insert_eq|intros q Hq; by rewrite lookup_insert_ne|done|done].
Qed.

Fixpoint observe_n (n : nat) (p : PeerId) (ev : PeerEvent) (now : Z) (b : PeerBook) : PeerBook :=
  match n with O => b | S n => observe_n n p ev now (observe p ev now b).2 end.
(** With the main net's policy ten invalid blocks ban a new peer, nine do not;
    one equivocation does. *)
Lemma ten_blocks_ban : let p := replicate 32 7 in let b := mkBook peer_mainnet ∅ ∅ in
  is_banned p 1000 (observe_n 9 p InvalidBlock 1000 b) = false /\ is_banned p 1000 (observe_n 10 p InvalidBlock 1000 b) = true /\
  is_banned p 1000 (observe_n 1 p EquivocationFork 1000 b) = true.
Proof. by vm_compute. Qed.

(** A pin is never banned and there are never more of them than the policy lets. *)
Lemma pin_ok p b b' : book_validate b = Ok tt -> pin_bootstrap p b = Ok b' ->
  book_validate b' = Ok tt /\ forall now, is_banned p now b' = false.
Proof.
  unfold book_validate, pin_bootstrap. intros Hv H. apply res_bind_Ok in H as ([] & Hg & [= <-]). apply refuse_Ok, Z.leb_gt in Hg. split.
  - cbn. apply res_bind_Ok in Hv as ([] & Hp & Hv). apply res_bind_Ok in Hv as ([] & _ & Hv). rewrite Hp. cbn. rewrite Hv.
    assert (size ({[p]} ∪ bootstrap b) <= S (size (bootstrap b)))%nat as Hsz.
    { pose proof (size_union_alt {[p]} (bootstrap b)) as Hu. rewrite size_singleton in Hu.
      assert (size (bootstrap b ∖ {[p]}) <= size (bootstrap b))%nat by (apply subseteq_size; set_solver). lia. }
    unfold refuse, guard_err. destruct (Z.ltb_spec (bootstrap_pin_count (policy b)) (Z.of_nat (size ({[p]} ∪ bootstrap b)))); [lia|done].
  - intros now. unfold is_banned. cbn. rewrite bool_decide_eq_true_2 by set_solver. done.
Qed.

(** ** The catalogue *)

(** Every event the node ships with is valid, and identifiers and names are
    all different: nothing panics. *)
Lemma catalogue_installs : exists m, installed_default = Ok m /\ size m = length catalogue /\ events_validate m = Ok tt /\
  forallb (fun x : EventDomain * Z * string * EventSeverity =>
    bool_decide ((fun e => id e) <$> by_name (text x.1.2) m = Some (event_id (domain_tag x.1.1.1) x.1.1.2))) catalogue = true.
Proof.
  eexists. split; [vm_compute; reflexivity|]. split_and!; vm_compute; reflexivity.
Qed.

(** An identifier gives back its domain and, up to 24 bits, its number. *)
Lemma event_id_parts d seq : in_range 24 seq -> domain_tag_of (event_id (domain_tag d) seq) = domain_tag d /\
  sequence_of (event_id (domain_tag d) seq) = seq.
Proof.
  intros Hs. unfold event_id, domain_tag_of, sequence_of.
  assert (Z.land seq 16777215 = seq) as Hl.
  { change 16777215 with (Z.ones 24). rewrite Z.land_ones by lia. by apply Z.mod_small. }
  assert (Z.shiftr seq 24 = 0) as Hr by (apply Z.shiftr_eq_0_iff; unfold in_range in Hs; destruct (decide (seq = 0)); [by left|right; split; [lia|apply Z.log2_lt_pow2; lia]]).
  rewrite Hl. rewrite Z.shiftr_lor, Hr, Z.land_lor_distr_l, Hl, Z.lor_0_r. by destruct d.
Qed.
