(* ===== verification/WireTypes.v ===== *)
(** * The chain's types on the wire

    What the codecs of ExecTypes.v to NetTypes.v show together, and the crate's
    reading of booleans and lists on the codec of Rlp.v, which with the
    instances of the example files satisfies what they ask of the crate. *)

From Stdlib Require Import ZArith Lia String Sorting.Sorted.
From stdpp Require Import base tactics list gmap countable numbers option strings fin_maps.
From S2P Require Import Prelude Bytes Crypto Collections Rlp Transaction Governance MempoolExample StakingExample RlpTypes ExecTypes UpgradeTypes ConsTypes PolicyTypes MarketTypes NetTypes.

Local Open Scope Z_scope.


(** ** The crate on the codec of Rlp.v *)

#[export] Instance more_on_rlp : RlpMore := {
  crate_bool b := if b then [1] else [];
  rlp_bool b := d ← rlp_data b; if bool_decide (d = []) then Some false else if bool_decide (d = [1]) then Some true else None;
  rlp_iter b := match rlp_item_count b with Some n => omap (rlp_nth b) (seq 0 (Z.to_nat n)) | None => [] end }.

Lemma omap_all {A B} (f : nat -> option B) (g : A -> B) l : forall k,
  (forall i x, l !! i = Some x -> f (k + i)%nat = Some (g x)) -> omap f (seq k (length l)) = map g l.
Proof.
  induction l as [|x l IH]; intros k Hf; [done|]. cbn [length seq omap list_omap map]. rewrite <-(Nat.add_0_r k) at 1.
  rewrite (Hf 0%nat x) by done. f_equal. apply IH. intros i y Hy. rewrite Nat.add_succ_l, <-Nat.add_succ_r. by apply (Hf (S i)).
Qed.

#[export] Instance more_on_rlp_laws : RlpMoreLaws.
Proof.
  split; cbn [crate_bool rlp_bool rlp_iter more_on_rlp].
  - intros b Hok. rewrite data_out by done. by destruct b.
  - intros l Hok. rewrite item_count_out by done. unfold zlen. rewrite Nat2Z.id. apply omap_all. intros i x Hi. by apply nth_out.
  - intros b Hb. destruct (rlp_item_count b) as [n|]; [|done]. apply list.Forall_forall. intros x Hx.
    apply list_elem_of_omap in Hx as (i & _ & Hi). by eapply nth_bytes.
Qed.

(** The main net's policy for the virtual machine, a validator set with one
    jailed member, and the writing of the set cut short. *)
Definition member1 : ValidatorInfo := mkInfo (replicate 20 1) 100 false 0.
Definition member2 : ValidatorInfo := mkInfo (replicate 20 2) 0 true 9.
Definition members : ValidatorSet := {[address member1 := member1; address member2 := member2]}.
Lemma members_ok : set_ok members.
Proof.
  assert (forall x, byte x -> fixed_ok 20 (replicate 20 x)) as Hf.
  { intros x Hx. split; [by apply Forall_replicate|done]. }
  apply map_Forall_insert_2; [split; [done|]; split_and!; [by apply Hf|done..]|].
  apply map_Forall_singleton. split; [done|]. split_and!; [by apply Hf|done..].
Qed.

